(* ===== verification/_CoqProject ===== *)
-Q . S2P
Prelude.v
JsString.v
Json.v
QueryAst.v
Tokenizer.v
Calendar.v
QueryParse.v
QuerySerialize.v
QueryRoundTrip.v
QueryTheorems.v
MergeNumber.v
ZonedDay.v
QueryClaims.v
Anchor.v
SequenceSpace.v
SeqBinding.v
Identifier.v
MNumberPlan.v
Integrity.v
ReleaseSignal.v
BackfillPlan.v
LinkText.v
Reference.v
Revert.v
Partition.v
InMemoryBus.v
GraphPlan.v
RateLimit.v
Scheduler.v
Pacing.v
JsonPointer.v
GhInvocation.v
TagDecision.v
Roles.v
ResourceRef.v
GhBinding.v
GhGraph.v
RegistryPolicy.v
RedisStreams.v
EsQuery.v
QueryBuilder.v
ScopedQuery.v
EsSort.v
Highlight.v
SearchCursor.v
Relaxation.v
SearchService.v
JsonText.v
SequenceWork.v
SequenceStore.v
SequenceAssign.v
MNumberEvidence.v
MNumberReconcile.v
SequenceSystem.v
SequenceRange.v
EsDocument.v
EsProjection.v
Jobs.v
Documents.v
Reindex.v
ReindexTheorems.v
ReindexSystem.v
CommitLinkStore.v
CommitLinkSystem.v
CommitLinkNumbering.v
AccessScope.v
AccessSystem.v
TeamScope.v
LinkIndex.v
ReferenceLinks.v
ReferenceRebuild.v
ReferenceSystem.v
