(* ===== verification/Prelude.v ===== *)
(** * PR Search, a verification development (root file)

    ** The program

    PR Search (TypeScript, a monorepo of [packages/] and [apps/]) indexes the pull
    requests and the commits of a GitHub organisation and answers queries on them.
    Webhooks enter through the ingest gateway and become events on a bus; the
    pipeline worker numbers the merges of every repository (sequence numbers along
    the first-parent chain of a branch, M numbers of pull requests), extracts the
    relations between documents (references, reverts, cherry-picks), talks to GitHub
    under its rate limits and fills the index; reindexing rebuilds an index beside the
    one that serves and moves its alias; the search API parses the query language and
    reads the index and the tables of numbers; the gh executor runs a closed catalogue
    of [gh] commands.  What is modelled is the logic of these parts: the functions
    that decide, with all their branches, and the transactions and requests they are
    made of, as functions on tables and indices.

    ** Conventions

    Every definition keeps the name of the source.  A [string] is a list of UTF-16
    code units ([jstr], JsString), so lengths and offsets are those of JavaScript; the
    regular expressions of the source are written out as functions on it.  [number] is
    [Z] where the source keeps integers (indices are [nat]), rationals for the headers
    of HTTP; the 32-bit operations of the partition hash are written with their
    conversions.  [throw] is [Err] of [result], [undefined] and [null] are [None], a
    payload from [JSON.parse] is a [json] value (Json).  Classes are records, a method
    is a function on the record.  A statement of SQL is a function on the rows of its
    tables that keeps their constraints (a violated one is [None]); a transaction is
    one function.  Where code yields ([await]) to others that matter, a definition is
    one stretch that runs without yielding and a step relation says how stretches
    interleave.  Objects shared between containers live in an explicit store.

    ** The files

    - Prelude: results, tactics ([crush], [inv_bind], [blia]), the hint database
      [prs], lemmas on lists.  JsString: strings, character classes, decimal numbers.
      Json: JSON values.  JsonText: [JSON.stringify].
    - The query language ([packages/query/src]).  QueryAst: [keys.ts], [ast.ts],
      [errors.ts].  Tokenizer: [tokenizer.ts].  Calendar, ZonedDay: [calendar.ts].
      QueryParse: [parse.ts].  QuerySerialize: [serialize.ts].  SeqBinding:
      [sequence-binding.ts].  Identifier: [identifier.ts].  QueryRoundTrip and
      QueryTheorems hold the lemmas, QueryClaims the contract of parser and
      serializer.  The parser calls the tokenizer and the calendar; SeqBinding reads
      the filters the parser makes.
    - The domain ([packages/domain/src]).  MergeNumber: [mnumber.ts].  Anchor:
      [anchor.ts].  SequenceSpace: [sequence.ts].  Integrity: [integrity.ts].
      ReleaseSignal: [release.ts], [pull-request-state.ts].  LinkText, Reference,
      Revert: [link/text.ts], [link/reference.ts] with [derived-id.ts], and
      [link/revert.ts] with [cherry.ts]; both extractors run on the text that LinkText
      masks.
    - Numbers ([apps/pipeline-worker/src] and [packages/db/src/repositories]).
      SequenceStore: the statements on [merge_sequence], [sequence_space] and the
      checkpoints.  SequenceWork: the durable queue of works, [sequence-work.ts].
      SequenceAssign: [sequence.ts], numbering new commits, renumbering a rewritten
      chain and repairing.  MNumberPlan: [mnumber-plan.ts].  MNumberEvidence:
      [mnumber-evidence.ts], [mnumber-attestation.ts].  MNumberReconcile: a round of
      [mnumber.ts].  SequenceSystem: their transactions in every order.  Integrity
      also holds [sequence-plan.ts], BackfillPlan [backfill-plan.ts].
    - The bus ([packages/bus/src]).  Partition: [partition.ts], [backoff.ts],
      [topics.ts].  InMemoryBus: [in-memory.ts], with a store of messages that the
      backlogs of all groups reference.  RedisStreams: [redis-streams.ts].
    - GitHub ([packages/github/src]).  GraphPlan: [graph-plan.ts].  RateLimit:
      [rate-limit.ts], [token-pool.ts].  Scheduler: [scheduler.ts].  Pacing:
      [pacing.ts].
    - Commands, tags, roles.  Of [packages/gh-cli/src]: JsonPointer
      ([json-pointer.ts]), GhInvocation ([constraints.ts], [argv.ts]), ResourceRef
      ([resource-ref.ts]), GhBinding ([binding.ts]), GhGraph ([graph.ts]),
      RegistryPolicy ([registry-policy.ts] and the files around it).  TagDecision:
      [packages/github-tag/src/decision.ts].  Roles: [packages/authz/src/roles.ts].
    - Search ([packages/es/src], [apps/search-api/src]).  EsQuery: the queries that
      the index evaluates.  QueryBuilder: [query-builder.ts], from the filters of
      QueryParse to queries of EsQuery.  ScopedQuery: [scoped-query.ts].  EsSort,
      Highlight: [sort.ts], [highlight.ts].  SearchCursor: cursors of pages.
      Relaxation, SearchService: [relaxation.ts] and [service.ts] of the search.
      SequenceRange: the ranges of a sequence, [range.ts], [range-cursor.ts],
      [space.ts], over the tables of SequenceStore.
    - Indexing.  EsDocument: conditional upserts, bulk requests, copies into the index
      under construction and retries ([upsert.ts], [write-targets.ts],
      [index-retry.ts]).  EsProjection: sequence numbers, M numbers, links and facts
      of git in documents ([sequence-projection.ts], [merge-number.ts],
      [commit-links.ts], [commit-metadata.ts]).  Documents: the documents of an event
      ([documents.ts]).  Jobs: [job.ts] of the database.  Reindex: versioned indices,
      reindex jobs, the fence, snapshots, the verdict before a switch, the retention
      sweep ([versioned-index.ts], [repositories/reindex.ts], [reindex-fence.ts],
      [pr-snapshot.ts], [reindex.ts]).  ReindexTheorems: its theorems.
      ReindexSystem: the runner of reindex jobs with the workers that project events,
      as a transition system.
    - Pull requests of commits ([apps/pipeline-worker/src/commit-links.ts],
      [snapshot.ts], [repositories/pr-commit-link.ts]).  CommitLinkStore: links,
      observations and the generations of commits.  CommitLinkSystem: the runner that
      shows them in the documents of commits, with the script of EsProjection, among
      its other writers.  CommitLinkNumbering: the transactions of SequenceAssign and
      MNumberReconcile as changes of the chains that decide which links count.
    - Access ([packages/authz/src], [repositories/auth.ts]).  AccessScope: what GitHub
      answers, the two caches, invalidation ([scope.ts], [scope-source.ts],
      [scope-database.ts], [invalidation.ts], [apps/pipeline-worker/src/authz.ts]).
      AccessSystem: their interleavings.  TeamScope: the teams of a repository in its
      row and in its documents ([team-scope.ts], [packages/es/src/registry.ts]).  The
      scope is what ScopedQuery turns into a filter.
    - Links.  LinkIndex: the index of links, its writes and its searches
      ([packages/es/src/links.ts]).  ReferenceLinks: the references of a document, from
      its text (Reference) to the index and back from a document to the references to
      it ([apps/pipeline-worker/src/link.ts]).  ReferenceRebuild: the batches that
      derive a repository again.  ReferenceSystem: the worker among the other writers.

    ** What the theorems show

    The theorems that stand for the whole program carry a number C1, C2, ... in their
    comment; the others named here are theorems as well.

    - The query language: a query that parses is well formed, and its serialization
      parses back to it when its text is stable ([serialize_parse], [parseQuery_wf],
      [edits_round_trip]); the offsets of an error are inside the query
      ([parse_error_offsets]); intersecting a range is intersection
      ([intersect_is_intersection]); a day of a time zone begins at its first instant
      ([startOfZonedDay_first], [calendarRange_exact]); the binding of a space
      ([mnum_binding_refines]) and what an identifier is ([detectIdentifier_sound]).
    - Numbers, one part at a time: numbering extends, renumbering follows the chain,
      repair restores it ([assign_extends], [reassign_follows_chain],
      [repair_restores_chain]); works are claimed by one lease, a lost lease changes
      nothing, a request is not lost ([work_rows_ok], [lost_lease_is_dead],
      [request_not_lost]); evidence is decided soundly ([resolveEvidence_sound]); a
      plan of M numbers gives consecutive numbers to a prefix and can be interrupted
      and resumed ([plan_numbers_prefix], [plan_resume]).
    - Numbers, together: in every interleaving of assignment, renumbering, repair and
      rounds of M numbers the tables are consistent, a number that was given stays,
      and a round never ends in a mismatch ([sequence_invariant], [sequence_stable],
      [round_never_mismatches]).
    - Relations: keys read back ([referenceKey_round_trip]), every abbreviation of a
      commit finds it ([commitReferenceKeys_complete]), the extractors give each
      relation once, with its evidence ([extractReferences_set],
      [extractReverts_set]).
    - The bus: the subscription loop of a group implements a cursor over the list of
      published events ([loop_refines_cursor], [cursor_order]); with Redis the order
      of a key is kept and a stream whose handler answers is drained ([redis_order],
      [redis_drains]); the partition of a key is its FNV-1a hash ([partitionFor_fnv]).
    - GitHub: slots are never idle while someone waits, and the bound on concurrency
      with the case in which it holds ([scheduler_work_conserving],
      [concurrency_bound]); a token is not used before the time GitHub gave
      ([secondary_limit_holds]); writes are spaced and passes end ([write_spacing],
      [budget_respected]); the first-parent chain is rebuilt exactly, and cycles end
      ([firstParentChain_spec]).
    - Commands and roles: only declared options reach the command line
      ([argv_declared]); the capability graph has an edge exactly where two ports fit
      ([capability_graph_exact]); pointers ([pointer_round_trip]); the identity
      provider cannot give the roles reserved to administrators
      ([idp_grants_limited]).
    - Search: the query built for the index matches what the filters say
      ([buildQuery_matches]), and never a document outside the scope of the reader
      ([applyMandatoryScopeFilter_safe]); browsing with cursors gives every hit once
      ([browse_complete]); reading a range page by page gives every row of the range,
      also while writers are at work ([range_browse_complete],
      [range_read_under_writers]).
    - Indexing: what was indexed is kept by every later write
      ([indexed_documents_kept]), versions converge in any order of delivery
      ([upserts_converge], [commit_links_converge]); an outcome that counts as settled
      is shown by the index ([settled_outcome_shown]), and the reading before a
      projection and its script agree ([sequence_guards_agree]); a projection keeps
      the fields of other workers ([projection_keeps_other_fields]).
    - Reindexing: an event that was acknowledged is served at every later time, before,
      during and after a switch, in every interleaving with crashes
      ([acknowledged_served]); rebuilding replays the projection
      ([rebuild_replays_projection]); a new index is new ([target_index_unused]);
      the sweep spares what is served ([retention_keeps_serving]); the number of
      running jobs is bounded and active ones are unique ([jobs_bounded]).
    - Pull requests of commits: whatever runners, adoptions, changes of chains and
      crashes do, a commit whose work is done is served with the pull requests that
      the tables name ([commit_links_served]); numbering, renumbering and repair are
      such changes of chains ([numbering_covers]); observations converge in any order
      of delivery ([link_observations_converge]).
    - Access: a lookup gives the repositories that GitHub affirms and fails on any other
      doubt ([fetch_exact]); an event reaches everybody it may concern among those who
      have a row ([invalidation_complete]); after its invalidation a permission that was
      taken away is shown for the lifetime of a cache at most, and no longer at all
      when no process was about to write it ([revoked_scope_expires],
      [invalidation_immediate]);
      the row of a repository and its documents name the same teams after every round
      that ends ([team_scope_in_step]).
    - Links: every item of a bulk write is accounted for, also in the index under
      construction ([link_writes_accounted]); a derivation that reports that it is
      complete leaves exactly the planned links of its source ([derivation_exact]);
      deriving a repository again in batches is one pass over all its sources
      ([rebuild_one_pass]); in every order of events, failures and interruptions a link
      is resolved only to an indexed document that its key means, and when all those
      documents were announced it is resolved exactly when there is one
      ([references_resolved]).

    Every theorem with hypotheses is applied to a concrete input by the lemma that
    follows it (its name ends in [_witness]).

    ** Fuel and bounds

    A loop that is not structural takes fuel.  The tokenizer takes the length of its
    input, and every round consumes a character ([tokenize_loop_fuel]); the scans of
    the extractors take the length of the text ([scan_fuel]); the chain of first
    parents takes the number of commits plus one, enough on every acyclic history
    ([firstParentChain_spec] proves that it answers); the bisection of a day takes 28
    halvings of an interval below 2^28 milliseconds; the search of a line takes the
    number of lines plus one; a wait for a rate limit takes one round per
    [MAX_SLEEP_MS] ([wait_loop_terminates] proves that it ends); the scan of a range
    page takes the number of rows of the range plus one; cutting a list into requests
    takes its length; the pages of links take the number of links that a search finds
    plus one ([read_pages_done]); the batches of a rebuild take any number above that
    of the sources plus one, and [rebuild_one_pass] proves that this is enough.

    ** Parameters

    What the runtime owns is an argument: [Date.parse] and [toISOString], the names
    and the wall clocks of time zones, [new URL], SHA-256, HMAC and Base64,
    [toLowerCase] beyond ASCII, [Number] of a header, the provider of tokens, the
    order of a Java [HashSet] in a script, identifiers and locks.  A theorem that needs
    more than their type says so in a hypothesis, and its witness gives a function.
    The servers are classes of operations with their laws, each with an instance:
    Redis ([StreamServer], [StreamLaws], [model_server]), the queries of the index
    ([EsIndex], [EsLaws], [model_index] of EsQuery), its documents ([DocServer],
    [DocLaws]) and its administration ([IndexAdmin], [AdminLaws]) with [ModelIndex],
    its searches of links ([LinkServer], [LinkLaws]: a search finds what was there at
    the last refresh) with [ModelLinks],
    points in time ([pit_laws]) and sealed cursors ([seal_laws]).  Git is a graph of
    commits ([CommitGraph]), GitHub a source of evidence.

    ** Divergences that the model shows

    Lemmas that are not part of the contract record inputs on which the code does not
    do what it announces: [negated_quotation_not_stable], [double_space_not_stable],
    [intersect_drops_second_range], [empty_intersection_refused],
    [last_day_range_throws] (QueryClaims), [long_hex_rejected_as_short] (Identifier),
    [unmatched_run_hides_nothing] (LinkText), [retry_leaks_to_other_group],
    [early_messages_reach_one_group] (InMemoryBus), [queued_event_starts_at_two],
    [retry_waits_for_claim] (RedisStreams), [primary_shortens_secondary]
    (RateLimit), [concurrency_overshoot] (Scheduler), [ancestor_is_not_first_parent],
    [copied_prefix_off_chain] (SequenceAssign), [empty_branch] (EsProjection),
    [failure_recorded_with_another_job], [failures_lost_when_run_throws],
    [pending_of_one_source_twice], [snapshot_and_index_disagree_on_ties]
    (ReindexTheorems), [redelivered_partial_conflicts], [verified_affects_nothing]
    (CommitLinkStore), [late_write_stays] (CommitLinkSystem),
    [filled_pull_request_changes_links] (CommitLinkNumbering),
    [retry_forgets_nobody], [running_lookup_not_reached] (AccessScope),
    [limit_exceeded], [fence_is_not_atomic], [filled_after_deletion] (AccessSystem),
    [half_written_stays], [conflict_stays] (TeamScope), [unrefreshed_target_missed],
    [capitals_not_found] (ReferenceSystem).

    ** What the transition systems leave out

    SequenceSystem takes a transaction as one step and reads all rows of a round at
    one instant; git, GitHub and the clock may answer anything. SequenceRange reads a
    page in one instant and leaves facets and attached M numbers out. In ReindexSystem
    jobs are those of the index of pull requests, a request for a job and the requests
    of one run inside the fence are one step each, and other writes to the index are
    steps that take nothing back; the retention sweep is a function beside it.
    CommitLinkSystem has one index of commits that is not switched, takes the reading
    and the update of one document as one step, because the script checks again, and
    takes a change of the chains as any change that covers what it changes.
    AccessSystem reads the answer of GitHub at one instant and has one clock; a row of
    the cache is written in two steps, a check and an insert, as the statement is;
    lookups that join a running one are not told apart. TeamScope takes a round as one
    step, which the lock of the repository makes it for other rounds; a crash inside a
    round is left out. ReferenceSystem runs one handler at a time, with the registry
    fixed and lower-case names, on indices that are not switched and from which no
    document goes; a handler begins when searches have caught up, and stops anywhere
    the server fails, or after the writing or the derivation.

    ** Not modelled

    HTTP clients and servers, routes and their pages, processes, the file system,
    cryptography and sessions, the user interface, tables of messages, migrations,
    metrics and logs: glue without decisions of its own, or decided by code outside the
    repository.  The polling loops around the modelled rounds.  Of parts with logic:
    the derivation of relations between documents ([relations.ts]) after the modelled
    extractors, rebuilding commits and links in a reindexing, enrichment, annotation
    and backfill of the worker, anchors and neighbours of a sequence, facets and
    aggregations, the classification of the gh manifest.  Most of them combine many
    reads of the database, the index and GitHub that would have to be parameters, so
    that a model would say little about them. *)

From stdpp Require Import base list option gmap strings numbers sorting.
From Stdlib Require Import ZArith Lia.

#[global] Set Default Goal Selector "!".

(** ** Results

    TypeScript functions that [throw] return a [result] here: [Ok] the returned
    value, [Err] the thrown error. *)

Inductive result (E A : Type) : Type :=
| Ok (a : A)
| Err (e : E).
Arguments Ok {E A} _.
Arguments Err {E A} _.

#[export] Instance result_ret E : MRet (result E) := fun A a => Ok a.
#[export] Instance result_bind E : MBind (result E) :=
  fun A B f m => match m with Ok a => f a | Err e => Err e end.
#[export] Instance result_fmap E : FMap (result E) :=
  fun A B f m => match m with Ok a => Ok (f a) | Err e => Err e end.

#[export] Instance result_eq_dec {E A} `{EqDecision E, EqDecision A} : EqDecision (result E A).
Proof. solve_decision. Defined.

(** [throw_if b e k]: the early [throw] of a guard. *)
Definition throw_if {E A} (b : bool) (e : E) (k : result E A) : result E A :=
  if b then Err e else k.

Definition is_ok {E A} (r : result E A) : bool :=
  match r with Ok _ => true | Err _ => false end.

Fixpoint mapM_result {E A B} (f : A -> result E B) (l : list A) : result E (list B) :=
  match l with
  | [] => Ok []
  | x :: l => y ← f x; ys ← mapM_result f l; Ok (y :: ys)
  end.

Create HintDb prs.

(** ** Notations of the development *)

Declare Scope prs_scope.
Delimit Scope prs_scope with prs.
Notation "x '?or' d" := (match x with Some v => v | None => d end)
  (at level 55, d at level 55) : prs_scope.

(** ** Tactics *)

(** Split every conjunction and existential of the context. *)
Ltac destruct_all :=
  repeat match goal with
  | H : _ ∧ _ |- _ => destruct H
  | H : ∃ _, _ |- _ => destruct H
  | H : (_ && _) = true |- _ => apply andb_prop in H; destruct H
  | H : negb _ = true |- _ => apply negb_true_iff in H
  | H : negb _ = false |- _ => apply negb_false_iff in H
  end.

(** Case analysis on the scrutinee of a [match] or [if] of the goal or a hypothesis. *)
Ltac break_goal :=
  match goal with
  | |- context [match ?x with _ => _ end] => destruct x eqn:?
  end.
Ltac break_hyp :=
  match goal with
  | H : context [match ?x with _ => _ end] |- _ => destruct x eqn:?
  end.
Ltac crush := repeat (break_goal || break_hyp); simplify_eq/=; auto.

(** Inversion of a [result] bind. *)
Ltac inv_bind H :=
  unfold mbind, result_bind in H;
  match type of H with
  | match ?x with Ok _ => _ | Err _ => _ end = _ =>
      let E := fresh "Hb" in destruct x eqn:E; [|simplify_eq]
  end.

(** Boolean comparisons of the model turned into propositions. *)
Ltac bool_to_prop :=
  repeat match goal with
  | H : (_ =? _)%Z = true |- _ => apply Z.eqb_eq in H
  | H : (_ =? _)%Z = false |- _ => apply Z.eqb_neq in H
  | H : (_ <? _)%Z = true |- _ => apply Z.ltb_lt in H
  | H : (_ <? _)%Z = false |- _ => apply Z.ltb_ge in H
  | H : (_ <=? _)%Z = true |- _ => apply Z.leb_le in H
  | H : (_ <=? _)%Z = false |- _ => apply Z.leb_gt in H
  | H : (_ =? _)%N = true |- _ => apply N.eqb_eq in H
  | H : (_ =? _)%N = false |- _ => apply N.eqb_neq in H
  | H : (_ <? _)%N = true |- _ => apply N.ltb_lt in H
  | H : (_ <? _)%N = false |- _ => apply N.ltb_ge in H
  | H : (_ <=? _)%N = true |- _ => apply N.leb_le in H
  | H : (_ <=? _)%N = false |- _ => apply N.leb_gt in H
  | H : (_ =? _)%nat = true |- _ => apply Nat.eqb_eq in H
  | H : (_ =? _)%nat = false |- _ => apply Nat.eqb_neq in H
  | H : (_ <? _)%nat = true |- _ => apply Nat.ltb_lt in H
  | H : (_ <? _)%nat = false |- _ => apply Nat.ltb_ge in H
  | H : (_ <=? _)%nat = true |- _ => apply Nat.leb_le in H
  | H : (_ <=? _)%nat = false |- _ => apply Nat.leb_gt in H
  | H : bool_decide _ = true |- _ => apply bool_decide_eq_true in H
  | H : bool_decide _ = false |- _ => apply bool_decide_eq_false in H
  end.
Ltac blia := bool_to_prop; lia.

(** ** JavaScript numbers

    The code's integers are IEEE doubles used inside the safe-integer range; the
    model keeps them as [Z] and writes the range tests out. *)

Definition MAX_SAFE_INTEGER : Z := 9007199254740991.
Definition MAX_INT32 : Z := 2147483647.
Definition is_safe_integer (z : Z) : bool :=
  (- MAX_SAFE_INTEGER <=? z)%Z && (z <=? MAX_SAFE_INTEGER)%Z.

Lemma is_safe_integer_spec z :
  is_safe_integer z = true <-> (- MAX_SAFE_INTEGER <= z <= MAX_SAFE_INTEGER)%Z.
Proof. unfold is_safe_integer. rewrite andb_true_iff, !Z.leb_le. tauto. Qed.

(** ** Lists *)

Section lists.
Context {A B : Type}.

(** [Array.prototype.find]. *)
Fixpoint find_first (p : A -> bool) (l : list A) : option A :=
  match l with
  | [] => None
  | x :: l => if p x then Some x else find_first p l
  end.

Lemma find_first_Some p l x :
  find_first p l = Some x -> x ∈ l ∧ p x = true.
Proof.
  induction l as [|y l IH]; simpl; [done|].
  destruct (p y) eqn:E; intros H; simplify_eq.
  - by split; [left|].
  - destruct (IH H). by split; [right|].
Qed.

Lemma find_first_None p l :
  find_first p l = None <-> (forall x, x ∈ l -> p x = false).
Proof.
  induction l as [|y l IH]; simpl.
  - split; [intros _ x Hx; inversion Hx | done].
  - destruct (p y) eqn:E; split; intros H; try done.
    + specialize (H y (list_elem_of_here _ _)). congruence.
    + intros x [->|Hx]%elem_of_cons; [done|]. by apply IH.
    + apply IH. intros x Hx. apply H. by right.
Qed.

(** [existsb]/[forallb] against membership. *)
Lemma existsb_elem (p : A -> bool) l :
  existsb p l = true <-> ∃ x, x ∈ l ∧ p x = true.
Proof.
  rewrite existsb_exists. split; intros (x & Hx & Hp); exists x; split; try done;
    by apply list_elem_of_In.
Qed.

Lemma forallb_elem (p : A -> bool) l :
  forallb p l = true <-> (forall x, x ∈ l -> p x = true).
Proof.
  rewrite forallb_forall. split; intros H x Hx; apply H; by apply list_elem_of_In.
Qed.

Lemma forallb_app_iff (p : A -> bool) l k :
  forallb p (l ++ k) = true <-> forallb p l = true ∧ forallb p k = true.
Proof. rewrite forallb_app, andb_true_iff. done. Qed.

Lemma elem_filter (p : A -> bool) l x : x ∈ List.filter p l <-> x ∈ l ∧ p x = true.
Proof. by rewrite !list_elem_of_In, filter_In. Qed.

(** A property of every element of a list. *)
Lemma every_elem_cons (P : A -> Prop) x l : (forall y, y ∈ x :: l -> P y) <-> P x ∧ (forall y, y ∈ l -> P y).
Proof. setoid_rewrite elem_of_cons. naive_solver. Qed.
Lemma every_elem_nil (P : A -> Prop) y : y ∈ [] -> P y.
Proof. intros Hy. inversion Hy. Qed.
Lemma every_elem_app (P : A -> Prop) l k :
  (forall y, y ∈ l ++ k -> P y) <-> (forall y, y ∈ l -> P y) ∧ (forall y, y ∈ k -> P y).
Proof. setoid_rewrite elem_of_app. naive_solver. Qed.
Lemma every_elem_snoc (P : A -> Prop) l x : (forall y, y ∈ l ++ [x] -> P y) <-> (forall y, y ∈ l -> P y) ∧ P x.
Proof. setoid_rewrite elem_of_app. setoid_rewrite list_elem_of_singleton. naive_solver. Qed.

(** The longest prefix whose elements satisfy [p], and the rest. *)
Fixpoint span (p : A -> bool) (l : list A) : list A * list A :=
  match l with
  | [] => ([], [])
  | x :: l' => if p x then let (a, b) := span p l' in (x :: a, b) else ([], l)
  end.

Lemma span_app p l : (span p l).1 ++ (span p l).2 = l.
Proof.
  induction l as [|x l IH]; simpl; [done|].
  destruct (p x); simpl; [|done]. destruct (span p l); simpl in *. by rewrite IH.
Qed.

Lemma span_forall p l : forallb p (span p l).1 = true.
Proof.
  induction l as [|x l IH]; simpl; [done|].
  destruct (p x) eqn:E; simpl; [|done]. destruct (span p l); simpl in *. by rewrite E, IH.
Qed.

Lemma span_stop p l x r : (span p l).2 = x :: r -> p x = false.
Proof.
  induction l as [|y l IH]; simpl; [done|].
  destruct (p y) eqn:E; simpl; [|intros; by simplify_eq].
  destruct (span p l); simpl in *. done.
Qed.

Lemma span_all p l k :
  forallb p l = true ->
  (match k with [] => True | x :: _ => p x = false end) ->
  span p (l ++ k) = (l, k).
Proof.
  intros Hl Hk. induction l as [|x l IH]; simpl.
  - destruct k as [|y k]; [done|]. simpl. by rewrite Hk.
  - simpl in Hl. apply andb_prop in Hl as [Hx Hl]. rewrite Hx, IH by done. done.
Qed.

Lemma span_length p l : length (span p l).2 <= length l.
Proof.
  rewrite <- (span_app p l) at 2. rewrite length_app. lia.
Qed.
End lists.

#[export] Hint Resolve span_forall span_app : prs.

(** [slice l a b] is [l.slice(a, b)] for [0 <= a <= b]. *)
Definition slice {A} (l : list A) (a b : nat) : list A := take (b - a) (drop a l).

Lemma slice_length {A} (l : list A) a b :
  a <= b -> b <= length l -> length (slice l a b) = b - a.
Proof. intros. unfold slice. rewrite length_take, length_drop. lia. Qed.

Lemma slice_app_mid {A} (l1 l2 l3 : list A) a b :
  a = length l1 -> b = length l1 + length l2 -> slice (l1 ++ l2 ++ l3) a b = l2.
Proof.
  intros -> ->. unfold slice. rewrite drop_app_length.
  replace (length l1 + length l2 - length l1) with (length l2) by lia.
  apply take_app_length.
Qed.

(** ** Computed results *)

(** A step on a concrete state has its result given by computation: the part that the step names
    is evaluated and the rest is left folded. *)
Lemma by_parts {A B} (x : A * B) y : x.2 = y -> x = (x.1, y).
Proof. destruct x as [a b]. by intros <-. Qed.
Lemma by_some {A} (o : option A) d : match o with Some _ => true | None => false end = true -> o = Some (default d o).
Proof. by destruct o. Qed.

(** ** Sorted lists *)

(** What is beyond the limit comes after everything within it. *)
Lemma sorted_take_le {A} (R : relation A) `{!RelDecision R, !Total R, !Transitive R} n l x y :
  x ∈ take n (merge_sort R l) -> y ∈ l -> y ∉ take n (merge_sort R l) -> R x y.
Proof.
  intros Hx Hy Hn. pose proof (StronglySorted_merge_sort R l) as Hs.
  assert (y ∈ drop n (merge_sort R l)) as Hd.
  { rewrite <- (merge_sort_Permutation R l), <- (take_drop n (merge_sort R l)) in Hy.
    apply elem_of_app in Hy as [?|?]; [done|]. done. }
  rewrite <- (take_drop n (merge_sort R l)) in Hs. by apply (StronglySorted_app_1_elem_of R _ _ x y Hs).
Qed.
Lemma sorted_weaken {A} (R R' : relation A) (l : list A) : (forall a b, R a b -> R' a b) -> StronglySorted R l -> StronglySorted R' l.
Proof. intros HR. induction 1 as [|x l _ IH Hx]; constructor; [exact IH|]. eapply List.Forall_impl; [|exact Hx]. intros b. apply HR. Qed.
