(* ===== verification/JsString.v ===== *)
(** * JavaScript strings

    A JavaScript string is a sequence of 16-bit code units; it is a [list N]
    here.  [js] turns a Rocq literal (UTF-8 bytes) into code units, so that the
    messages of the source can be written as they are.  The file holds the
    operations of [String.prototype] the modelled code uses ([trim], [split],
    [indexOf], [startsWith], [slice] as [take]/[drop]), the character classes of
    its regular expressions, decimal printing ([String(n)]) and reading
    ([Number(digits)]), and the lemmas on them that the components share. *)

From stdpp Require Import base list option strings numbers.
From Stdlib Require Import ZArith Lia Ascii DecimalFacts DecimalN.
From S2P Require Import Prelude.

Abbreviation jstr := (list N).
Declare Scope js_scope.
Delimit Scope js_scope with js.
Open Scope N_scope.

(** ** Literals *)

(** UTF-8 to UTF-16: 1- to 3-byte sequences give one code unit, 4-byte sequences
    a surrogate pair. *)
Fixpoint utf16_of_utf8 (l : list N) : jstr :=
  match l with
  | [] => []
  | a :: l1 =>
    if a <? 128 then a :: utf16_of_utf8 l1
    else match l1 with
    | [] => [a]
    | b :: l2 =>
      if a <? 224 then (a - 192) * 64 + (b - 128) :: utf16_of_utf8 l2
      else match l2 with
      | [] => [a; b]
      | c :: l3 =>
        if a <? 240
        then (a - 224) * 4096 + (b - 128) * 64 + (c - 128) :: utf16_of_utf8 l3
        else match l3 with
        | [] => [a; b; c]
        | d :: l4 =>
          let p := (a - 240) * 262144 + (b - 128) * 4096 + (c - 128) * 64 + (d - 128)
                   - 65536 in
          (55296 + p / 1024) :: (56320 + p mod 1024) :: utf16_of_utf8 l4
        end
      end
    end
  end.

Fixpoint bytes_of_string (s : string) : list N :=
  match s with
  | EmptyString => []
  | String c s => N_of_ascii c :: bytes_of_string s
  end.

Definition js (s : string) : jstr := utf16_of_utf8 (bytes_of_string s).
Arguments js s%_string.

(** ** Character classes *)

Definition in_range (a b c : N) : bool := (a <=? c) && (c <=? b).

(** [\s], which is also what [trim] removes. *)
Definition is_space (c : N) : bool :=
  in_range 9 13 c || (c =? 32) || (c =? 160) || (c =? 5760) || in_range 8192 8202 c
  || (c =? 8232) || (c =? 8233) || (c =? 8239) || (c =? 8287) || (c =? 12288)
  || (c =? 65279).
Definition is_digit (c : N) : bool := in_range 48 57 c.
Definition is_lower (c : N) : bool := in_range 97 122 c.
Definition is_upper (c : N) : bool := in_range 65 90 c.
Definition is_alpha (c : N) : bool := is_lower c || is_upper c.
Definition is_alnum (c : N) : bool := is_alpha c || is_digit c.
Definition is_hex_lower (c : N) : bool := is_digit c || in_range 97 102 c.
Definition is_hex (c : N) : bool := is_hex_lower c || in_range 65 70 c.
(** [\w] *)
Definition is_word (c : N) : bool := is_alnum c || (c =? 95).

(** [/^[class]+$/] *)
Definition all1 (p : N -> bool) (s : jstr) : bool :=
  match s with [] => false | _ => forallb p s end.

(** ASCII part of [toLowerCase]. *)
Definition lower_char (c : N) : N := if is_upper c then c + 32 else c.
Definition ascii_lower (s : jstr) : jstr := map lower_char s.

(** ** String.prototype *)

Fixpoint starts_with (p s : jstr) : bool :=
  match p, s with
  | [], _ => true
  | a :: p, b :: s => (a =? b) && starts_with p s
  | _ :: _, [] => false
  end.
Definition ends_with (p s : jstr) : bool := starts_with (rev p) (rev s).

(** [s.indexOf(p)]; [None] is [-1]. *)
Fixpoint index_of (p s : jstr) : option nat :=
  if starts_with p s then Some 0%nat
  else match s with
       | [] => None
       | _ :: s => S <$> index_of p s
       end.
Definition includes (p s : jstr) : bool :=
  match index_of p s with Some _ => true | None => false end.

Fixpoint index_of_char (c : N) (s : jstr) : option nat :=
  match s with
  | [] => None
  | b :: s => if b =? c then Some 0%nat else S <$> index_of_char c s
  end.

(** [lastIndexOf] of a character. *)
Fixpoint last_index_of_char (c : N) (s : jstr) : option nat :=
  match s with
  | [] => None
  | b :: s => match last_index_of_char c s with
              | Some i => Some (S i)
              | None => if b =? c then Some O else None
              end
  end.

Fixpoint trim_start (s : jstr) : jstr :=
  match s with
  | c :: s' => if is_space c then trim_start s' else s
  | [] => []
  end.
Definition trim_end (s : jstr) : jstr := rev (trim_start (rev s)).
Definition trim (s : jstr) : jstr := trim_end (trim_start s).

(** [s.split(c)] for a one-character separator: never empty. *)
Fixpoint split_char (c : N) (s : jstr) : list jstr :=
  match s with
  | [] => [[]]
  | b :: s =>
    if b =? c then [] :: split_char c s
    else match split_char c s with
         | [] => [[b]]
         | p :: ps => (b :: p) :: ps
         end
  end.

Fixpoint join (sep : jstr) (l : list jstr) : jstr :=
  match l with
  | [] => []
  | [x] => x
  | x :: l => x ++ sep ++ join sep l
  end.

Definition jeqb (a b : jstr) : bool := bool_decide (a = b).
Definition mem (x : jstr) (l : list jstr) : bool := existsb (jeqb x) l.

(** ** Numbers *)

(** [Number(s)] for a string of decimal digits. *)
Definition digit_val (c : N) : Z := Z.of_N c - 48.
Definition num_of_digits (s : jstr) : Z :=
  foldl (fun acc c => 10 * acc + digit_val c)%Z 0%Z s.

Fixpoint js_of_uint (d : Decimal.uint) : jstr :=
  match d with
  | Decimal.Nil => []
  | Decimal.D0 d => 48 :: js_of_uint d
  | Decimal.D1 d => 49 :: js_of_uint d
  | Decimal.D2 d => 50 :: js_of_uint d
  | Decimal.D3 d => 51 :: js_of_uint d
  | Decimal.D4 d => 52 :: js_of_uint d
  | Decimal.D5 d => 53 :: js_of_uint d
  | Decimal.D6 d => 54 :: js_of_uint d
  | Decimal.D7 d => 55 :: js_of_uint d
  | Decimal.D8 d => 56 :: js_of_uint d
  | Decimal.D9 d => 57 :: js_of_uint d
  end.

(** [String(n)] for a safe integer. *)
Definition js_of_N (n : N) : jstr := js_of_uint (N.to_uint n).
Definition js_of_Z (z : Z) : jstr :=
  if (z <? 0)%Z then 45 :: js_of_N (Z.abs_N z) else js_of_N (Z.to_N z).

Example js_korean : js "가a" = [44032; 97]. Proof. reflexivity. Qed.
Example js_astral : js "𠮷" = [55362; 57271]. Proof. reflexivity. Qed.
Example js_of_Z_ex : js_of_Z (-120) = js "-120". Proof. reflexivity. Qed.

(** ** Lemmas *)

Lemma jeqb_eq a b : jeqb a b = true <-> a = b.
Proof. unfold jeqb. apply bool_decide_eq_true. Qed.
Lemma jeqb_neq a b : jeqb a b = false <-> a <> b.
Proof. unfold jeqb. apply bool_decide_eq_false. Qed.
Lemma jeqb_refl a : jeqb a a = true.
Proof. by apply jeqb_eq. Qed.

Lemma mem_elem x l : mem x l = true <-> x ∈ l.
Proof.
  unfold mem. rewrite existsb_elem. split.
  - intros (y & Hy & ->%jeqb_eq). done.
  - intros H. exists x. by rewrite jeqb_refl.
Qed.
Lemma mem_false x l : mem x l = false <-> x ∉ l.
Proof. rewrite <- mem_elem. by destruct (mem x l). Qed.

Lemma in_range_spec a b c : in_range a b c = true <-> a <= c <= b.
Proof. unfold in_range. rewrite andb_true_iff, !N.leb_le. done. Qed.

Lemma all1_forallb p s : all1 p s = true <-> s <> [] ∧ forallb p s = true.
Proof. destruct s; simpl; [by split; [|intros []]|]. naive_solver. Qed.

Lemma all1_impl (p q : N -> bool) s :
  (forall c, p c = true -> q c = true) -> all1 p s = true -> all1 q s = true.
Proof.
  rewrite !all1_forallb, !forallb_elem. naive_solver.
Qed.

Lemma starts_with_spec p s : starts_with p s = true <-> ∃ r, s = p ++ r.
Proof.
  revert s. induction p as [|a p IH]; intros s; simpl.
  - split; [eauto|done].
  - destruct s as [|b s]; [split; [done|by intros [r ?]]|].
    rewrite andb_true_iff, N.eqb_eq, IH. split.
    + intros [-> [r ->]]. by exists r.
    + intros [r ?]. simplify_eq. eauto.
Qed.

Lemma starts_with_app p s : starts_with p (p ++ s) = true.
Proof. apply starts_with_spec. eauto. Qed.

Lemma index_of_Some p s i :
  index_of p s = Some i -> ∃ r, s = take i s ++ p ++ r ∧ (i <= length s)%nat.
Proof.
  revert i. induction s as [|c s IH]; intros i; cbn [index_of];
    destruct (starts_with p _) eqn:E; intros H; simplify_eq/=.
  - apply starts_with_spec in E as [r Hr]. exists r. simpl. split; [done|lia].
  - apply starts_with_spec in E as [r Hr]. exists r. simpl. split; [done|lia].
  - destruct (index_of p s) as [j|] eqn:Ej; simplify_eq/=.
    destruct (IH j eq_refl) as (r & Hr & ?). exists r. split; [|lia].
    simpl. f_equal. done.
Qed.

Lemma index_of_char_None c s : index_of_char c s = None <-> c ∉ s.
Proof.
  induction s as [|b s IH]; simpl.
  - split; [intros _ H; inversion H|done].
  - destruct (b =? c) eqn:E; bool_to_prop.
    + split; [done|]. intros H. exfalso. apply H. subst. by left.
    + rewrite not_elem_of_cons, <- IH. destruct (index_of_char c s); simpl; naive_solver.
Qed.

Lemma index_of_char_Some c s i :
  index_of_char c s = Some i ->
  s = take i s ++ c :: drop (S i) s ∧ c ∉ take i s ∧ (i < length s)%nat.
Proof.
  revert i. induction s as [|b s IH]; intros i; simpl; [done|].
  destruct (b =? c) eqn:E; bool_to_prop; intros H.
  - simplify_eq. simpl. rewrite drop_0. split_and!; [done|by apply not_elem_of_nil|lia].
  - destruct (index_of_char c s) as [j|] eqn:Ej; simplify_eq/=.
    destruct (IH j eq_refl) as (H1 & H2 & H3). split_and!.
    + f_equal. done.
    + apply not_elem_of_cons. naive_solver.
    + lia.
Qed.

Lemma index_of_char_app c a b :
  c ∉ a -> index_of_char c (a ++ c :: b) = Some (length a).
Proof.
  induction a as [|x a IH]; simpl; intros H.
  - by rewrite N.eqb_refl.
  - apply not_elem_of_cons in H as [Hx Ha].
    destruct (x =? c) eqn:E; bool_to_prop; [congruence|].
    rewrite IH by done. done.
Qed.

(** The first occurrence splits the string. *)
Lemma index_of_char_split c s i :
  index_of_char c s = Some i -> ∃ a b, s = a ++ c :: b ∧ c ∉ a ∧ i = length a.
Proof.
  intros H. apply index_of_char_Some in H as (H1 & H2 & H3).
  exists (take i s), (drop (S i) s). split_and!; [done..|]. rewrite length_take. lia.
Qed.

Lemma trim_start_id s :
  match s with [] => True | c :: _ => is_space c = false end -> trim_start s = s.
Proof. destruct s as [|c s]; simpl; [done|]. by intros ->. Qed.

Lemma trim_start_head s : match trim_start s with [] => True | c :: _ => is_space c = false end.
Proof. induction s as [|c s IH]; simpl; [done|]. destruct (is_space c) eqn:E; [done|]. by rewrite E. Qed.

Lemma trim_start_suffix s : ∃ a, s = a ++ trim_start s ∧ forallb is_space a = true.
Proof.
  induction s as [|c s (a & Hs & Ha)]; simpl; [by exists []|].
  destruct (is_space c) eqn:E.
  - exists (c :: a). simpl. rewrite E, Ha. split; [|done]. by f_equal.
  - by exists [].
Qed.

Lemma trim_id s :
  forallb (fun c => negb (is_space c)) s = true -> trim s = s.
Proof.
  intros H. unfold trim, trim_end. rewrite forallb_elem in H.
  rewrite (trim_start_id s).
  2:{ destruct s; [done|]. specialize (H n (list_elem_of_here _ _)). by apply negb_true_iff in H. }
  rewrite trim_start_id; [by rewrite rev_involutive|].
  destruct (rev s) as [|c r] eqn:E; [done|].
  assert (c ∈ s) as Hc.
  { apply list_elem_of_In, in_rev. rewrite E. by left. }
  specialize (H c Hc). by apply negb_true_iff in H.
Qed.

Lemma split_char_cons c s : ∃ p ps, split_char c s = p :: ps.
Proof.
  induction s as [|b s (p & ps & IH)]; simpl; [by eexists _, _|].
  destruct (b =? c); [by eexists _, _|]. rewrite IH. by eexists _, _.
Qed.

Lemma join_split c s : join [c] (split_char c s) = s.
Proof.
  induction s as [|b s IH]; simpl; [done|].
  destruct (split_char_cons c s) as (p & ps & E). rewrite E in IH |- *.
  destruct (b =? c) eqn:Eb; bool_to_prop.
  - subst b. cbn [join]. simpl. f_equal. exact IH.
  - destruct ps; cbn [join] in *; simpl; f_equal; exact IH.
Qed.

Lemma split_char_no_sep c s : c ∉ s -> split_char c s = [s].
Proof.
  induction s as [|b s IH]; simpl; [done|].
  rewrite not_elem_of_cons. intros [Hb Hs].
  destruct (b =? c) eqn:E; bool_to_prop; [congruence|]. by rewrite IH.
Qed.

Lemma split_char_app c a b :
  c ∉ a -> split_char c (a ++ c :: b) = a :: split_char c b.
Proof.
  induction a as [|x a IH]; simpl; intros H.
  - by rewrite N.eqb_refl.
  - apply not_elem_of_cons in H as [Hx Ha].
    destruct (x =? c) eqn:E; bool_to_prop; [congruence|]. by rewrite IH.
Qed.

Lemma split_join c l :
  l <> [] -> Forall (fun x => c ∉ x) l -> split_char c (join [c] l) = l.
Proof.
  intros _Hne Hl. revert _Hne. induction Hl as [|x l Hx Hl IH]; [done|]. intros _.
  destruct l as [|y l].
  - simpl. by apply split_char_no_sep.
  - cbn [join app]. rewrite split_char_app by done. f_equal. by apply IH.
Qed.

Lemma split_char_pieces c s : Forall (fun x => c ∉ x) (split_char c s).
Proof.
  induction s as [|b s IH]; simpl.
  - repeat constructor. apply not_elem_of_nil.
  - destruct (b =? c) eqn:E; bool_to_prop.
    + constructor; [apply not_elem_of_nil|done].
    + destruct (split_char c s); inversion IH; subst.
      * repeat constructor. rewrite not_elem_of_cons. split; [done|apply not_elem_of_nil].
      * constructor; [|done]. rewrite not_elem_of_cons. done.
Qed.

Lemma ascii_lower_length s : length (ascii_lower s) = length s.
Proof. apply length_map. Qed.

Lemma lower_char_idem c : lower_char (lower_char c) = lower_char c.
Proof.
  unfold lower_char. destruct (is_upper c) eqn:E; [|by rewrite E].
  apply in_range_spec in E. destruct (is_upper (c + 32)) eqn:E'; [|done].
  apply in_range_spec in E'. lia.
Qed.
Lemma ascii_lower_idem s : ascii_lower (ascii_lower s) = ascii_lower s.
Proof.
  unfold ascii_lower. rewrite map_map. apply map_ext. apply lower_char_idem.
Qed.

Lemma hex_lower_char c : is_hex_lower c = true -> lower_char c = c.
Proof.
  unfold is_hex_lower, is_digit, lower_char, is_upper.
  rewrite orb_true_iff, !in_range_spec. intros H.
  destruct (in_range 65 90 c) eqn:E; [|done]. apply in_range_spec in E. lia.
Qed.
Lemma hex_to_lower c : is_hex c = true -> is_hex_lower (lower_char c) = true.
Proof.
  unfold is_hex, is_hex_lower, is_digit, lower_char, is_upper.
  rewrite !orb_true_iff, !in_range_spec. intros H.
  destruct (in_range 65 90 c) eqn:E.
  - apply in_range_spec in E. lia.
  - apply not_true_iff_false in E. rewrite in_range_spec in E. lia.
Qed.

(** *** Decimal numbers *)

Lemma js_of_uint_digits d : forallb is_digit (js_of_uint d) = true.
Proof. induction d; simpl; by rewrite ?IHd. Qed.

Lemma foldl_digits_uint d acc :
  foldl (fun a c => 10 * a + digit_val c)%Z (Z.pos acc) (js_of_uint d)
  = Z.pos (Pos.of_uint_acc d acc).
Proof.
  revert acc.
  induction d; intros acc; cbn [js_of_uint foldl Pos.of_uint_acc]; [done|..];
    rewrite <- IHd; f_equal; unfold digit_val; lia.
Qed.

Lemma num_of_js_of_uint d : num_of_digits (js_of_uint d) = Z.of_N (N.of_uint d).
Proof.
  unfold num_of_digits, N.of_uint.
  induction d; cbn [js_of_uint foldl Pos.of_uint Z.of_N]; [done|exact IHd|..];
    rewrite <- foldl_digits_uint; f_equal; unfold digit_val; lia.
Qed.

Lemma num_of_js_of_N n : num_of_digits (js_of_N n) = Z.of_N n.
Proof. unfold js_of_N. by rewrite num_of_js_of_uint, DecimalN.Unsigned.of_to. Qed.

Lemma js_of_N_digits n : forallb is_digit (js_of_N n) = true.
Proof. apply js_of_uint_digits. Qed.

Lemma js_of_N_nonempty n : js_of_N n <> [].
Proof.
  intros H. destruct n; [done|]. unfold js_of_N in H.
  assert (Z.of_N (N.pos p) = 0%Z) as Hz by (rewrite <- num_of_js_of_N; unfold js_of_N; by rewrite H).
  lia.
Qed.

Lemma js_of_N_inj a b : js_of_N a = js_of_N b -> a = b.
Proof. intros H. apply N2Z.inj. rewrite <- !num_of_js_of_N. by rewrite H. Qed.

Fixpoint uint_of_digits (s : jstr) : Decimal.uint :=
  match s with
  | [] => Decimal.Nil
  | c :: s =>
    let d := uint_of_digits s in
    match c with
    | 48 => Decimal.D0 d | 49 => Decimal.D1 d | 50 => Decimal.D2 d | 51 => Decimal.D3 d
    | 52 => Decimal.D4 d | 53 => Decimal.D5 d | 54 => Decimal.D6 d | 55 => Decimal.D7 d
    | 56 => Decimal.D8 d | _ => Decimal.D9 d
    end
  end.

Lemma is_digit_cases c :
  is_digit c = true ->
  c = 48 \/ c = 49 \/ c = 50 \/ c = 51 \/ c = 52 \/ c = 53 \/ c = 54 \/ c = 55 \/ c = 56 \/ c = 57.
Proof. unfold is_digit. rewrite in_range_spec. lia. Qed.

Lemma js_of_uint_of_digits s :
  forallb is_digit s = true -> js_of_uint (uint_of_digits s) = s.
Proof.
  induction s as [|c s IH]; simpl; [done|]. intros [Hc Hs]%andb_prop.
  specialize (IH Hs). apply is_digit_cases in Hc.
  repeat destruct Hc as [->|Hc]; try subst c; simpl; by rewrite IH.
Qed.

(** A digit string without a leading zero is the decimal print of its value. *)
Lemma js_of_N_of_digits c s :
  forallb is_digit (c :: s) = true -> c <> 48 ->
  js_of_N (Z.to_N (num_of_digits (c :: s))) = c :: s.
Proof.
  intros Hd Hc. set (l := c :: s) in *.
  rewrite <- (js_of_uint_of_digits l) at 1 by done.
  rewrite num_of_js_of_uint, N2Z.id. unfold js_of_N.
  rewrite DecimalN.Unsigned.to_of.
  rewrite <- (js_of_uint_of_digits l) at 2 by done. f_equal.
  unfold l in *. simpl in Hd. apply andb_prop in Hd as [Hcd _].
  apply is_digit_cases in Hcd.
  repeat destruct Hcd as [->|Hcd]; try subst c; try done.
Qed.

Lemma num_of_digits_nonneg s : forallb is_digit s = true -> (0 <= num_of_digits s)%Z.
Proof.
  intros H. rewrite <- (js_of_uint_of_digits s) by done.
  rewrite num_of_js_of_uint. lia.
Qed.

(** The leading digit of a positive number is not 0. *)
Lemma js_of_N_head n c s : js_of_N n = c :: s -> n <> 0 -> c <> 48.
Proof.
  intros H Hn ->. unfold js_of_N in H.
  assert (Decimal.unorm (N.to_uint n) = N.to_uint n) as Hu.
  { rewrite <- DecimalN.Unsigned.to_of. by rewrite DecimalN.Unsigned.of_to. }
  destruct (N.to_uint n) as [|d|d|d|d|d|d|d|d|d|d] eqn:E; simplify_eq/=.
  apply (f_equal N.of_uint) in E. rewrite DecimalN.Unsigned.of_to in E.
  change (Decimal.unorm (Decimal.D0 d)) with (Decimal.unorm d) in Hu.
  assert (d = Decimal.Nil) as ->.
  { pose proof (f_equal Decimal.nb_digits Hu) as Hl. simpl in Hl.
    destruct (Decimal.uint_eq_dec (Decimal.nzhead d) Decimal.Nil) as [Hz|Hz].
    - rewrite (proj2 (unorm_0 d) Hz) in Hu. by simplify_eq/=.
    - exfalso. pose proof (nb_digits_nzhead d). pose proof (unorm_nzhead d Hz) as Hx.
      rewrite Hx in Hl. lia. }
  done.
Qed.

Lemma js_of_Z_nonneg z : (0 <= z)%Z -> js_of_Z z = js_of_N (Z.to_N z).
Proof. intros. unfold js_of_Z. by rewrite (proj2 (Z.ltb_ge _ _)). Qed.

Lemma num_of_js_of_Z z : (0 <= z)%Z -> num_of_digits (js_of_Z z) = z.
Proof. intros. rewrite js_of_Z_nonneg by done. rewrite num_of_js_of_N. lia. Qed.

Lemma js_of_Z_inj a b : (0 <= a)%Z -> (0 <= b)%Z -> js_of_Z a = js_of_Z b -> a = b.
Proof.
  intros Ha Hb H. rewrite !js_of_Z_nonneg in H by done. apply js_of_N_inj in H. lia.
Qed.

(** What a printed integer is made of, and that it determines the integer. *)
Lemma js_of_Z_char z c : c ∈ js_of_Z z -> c = 45%N \/ is_digit c = true.
Proof.
  unfold js_of_Z. destruct (z <? 0)%Z; [intros [->|H]%elem_of_cons; [by left|]|intros H]; right;
    exact (proj1 (forallb_elem _ _) (js_of_N_digits _) _ H).
Qed.
Lemma js_of_Z_no c z : c <> 45%N -> is_digit c = false -> c ∉ js_of_Z z.
Proof. intros H1 H2 [?|?]%js_of_Z_char; congruence. Qed.
Lemma js_of_Z_nonempty z : js_of_Z z <> [].
Proof. unfold js_of_Z. destruct (z <? 0)%Z; [done|apply js_of_N_nonempty]. Qed.
Lemma js_of_Z_injective a b : js_of_Z a = js_of_Z b -> a = b.
Proof.
  assert (forall n x, js_of_N n <> 45%N :: x) as Hn.
  { intros n x H. pose proof (js_of_N_digits n) as Hd. rewrite H in Hd. discriminate. }
  unfold js_of_Z. destruct (a <? 0)%Z eqn:Ea, (b <? 0)%Z eqn:Eb; intros H; bool_to_prop.
  - injection H as H%js_of_N_inj. lia.
  - by destruct (Hn _ _ (eq_sym H)).
  - by destruct (Hn _ _ H).
  - apply js_of_N_inj in H. lia.
Qed.

Lemma last_index_of_char_None c s : c ∉ s -> last_index_of_char c s = None.
Proof.
  induction s as [|b s IH]; [done|]. rewrite not_elem_of_cons. intros [Hb Hs]. cbn [last_index_of_char].
  rewrite IH by done. by rewrite (proj2 (N.eqb_neq _ _)).
Qed.

(** The part after the last separator. *)
Lemma last_index_of_char_app c a b : c ∉ b -> last_index_of_char c (a ++ c :: b) = Some (length a).
Proof.
  intros Hb. induction a as [|x a IH]; cbn [app last_index_of_char length].
  - rewrite last_index_of_char_None by done. by rewrite N.eqb_refl.
  - by rewrite IH.
Qed.

#[export] Hint Resolve js_of_N_digits js_of_uint_digits js_of_N_nonempty : prs.
