(* ===== verification/Json.v ===== *)
(** * JSON values

    What [JSON.parse] returns.  A number is an integer or, for [JFrac], anything else
    (kept as its text); objects are association lists of distinct keys. *)

From stdpp Require Import base list option strings numbers countable.
From Stdlib Require Import ZArith Lia.
From S2P Require Import Prelude JsString.

Inductive json : Set :=
| JNull
| JBool (b : bool)
| JNum (n : Z)
| JFrac (repr : jstr)
| JStr (s : jstr)
| JArr (l : list json)
| JObj (fields : list (jstr * json)).

(** [o[key]]; [None] is [undefined]. *)
Fixpoint assoc {A} (k : jstr) (l : list (jstr * A)) : option A :=
  match l with
  | [] => None
  | (k', v) :: l => if jeqb k' k then Some v else assoc k l
  end.

(** [asRecord]: an object that is neither [null] nor an array. *)
Definition asRecord (v : json) : option (list (jstr * json)) :=
  match v with JObj fs => Some fs | _ => None end.

Definition as_string (v : option json) : option jstr :=
  match v with Some (JStr s) => Some s | _ => None end.

(** ** JSON values as trees of atoms *)

Definition json_tree := gen_tree (option (bool + (Z + (jstr + jstr)))).
Fixpoint to_tree (j : json) : json_tree :=
  match j with
  | JNull => GenLeaf None
  | JBool b => GenLeaf (Some (inl b))
  | JNum n => GenLeaf (Some (inr (inl n)))
  | JFrac r => GenLeaf (Some (inr (inr (inl r))))
  | JStr s => GenLeaf (Some (inr (inr (inr s))))
  | JArr l => GenNode 0 (map to_tree l)
  | JObj fs => GenNode 1 (map (fun f => GenNode 2 [GenLeaf (Some (inr (inr (inr f.1)))); to_tree f.2]) fs)
  end.
Fixpoint of_tree (t : json_tree) : option json :=
  match t with
  | GenLeaf None => Some JNull
  | GenLeaf (Some (inl b)) => Some (JBool b)
  | GenLeaf (Some (inr (inl n))) => Some (JNum n)
  | GenLeaf (Some (inr (inr (inl r)))) => Some (JFrac r)
  | GenLeaf (Some (inr (inr (inr s)))) => Some (JStr s)
  | GenNode 0 ts =>
    JArr <$> (fix go ts := match ts with
              | [] => Some []
              | t :: ts => x ← of_tree t; xs ← go ts; Some (x :: xs)
              end) ts
  | GenNode 1 ts =>
    JObj <$> (fix go ts := match ts with
              | [] => Some []
              | GenNode 2 [GenLeaf (Some (inr (inr (inr k)))); t] :: ts => x ← of_tree t; xs ← go ts; Some ((k, x) :: xs)
              | _ => None
              end) ts
  | _ => None
  end.

Lemma of_to_tree : forall j, of_tree (to_tree j) = Some j.
Proof.
  fix IH 1. intros [| | | | |l|fs]; try reflexivity; cbn [to_tree of_tree].
  - match goal with |- JArr <$> ?e = _ => enough (e = Some l) as -> by done end.
    induction l as [|x l IHl]; [done|]. cbn [map]. rewrite IH. cbn [mbind option_bind]. by rewrite IHl.
  - match goal with |- JObj <$> ?e = _ => enough (e = Some fs) as -> by done end.
    induction fs as [|[k x] fs IHl]; [done|]. cbn [map fst snd]. rewrite IH. cbn [mbind option_bind]. by rewrite IHl.
Qed.

#[export] Instance to_tree_inj : Inj (=) (=) to_tree.
Proof. intros a b H. apply (f_equal of_tree) in H. rewrite !of_to_tree in H. congruence. Qed.
#[export] Instance json_eq_dec : EqDecision json.
Proof. intros a b. destruct (decide (to_tree a = to_tree b)) as [H|H]; [left; by apply to_tree_inj|right; congruence]. Defined.
