(* ===== verification/QueryAst.v ===== *)
(** * Query keys, AST and errors

    [packages/query/src/keys.ts], [ast.ts] and [errors.ts]: the closed list of
    search keys, which of them take ranges, the filter nodes of a parsed query and
    the error a rejected query carries (its character offsets included). *)

From stdpp Require Import base list option strings numbers.
From Stdlib Require Import ZArith Lia.
From S2P Require Import Prelude JsString.
Open Scope Z_scope.

(** ** keys.ts *)

Inductive QueryKey : Set :=
| repo | org | author | team | author_team | reviewer | label | base_key | head
| state | merged | created | seq_key | release | path | is_key | kind
| changed_files | changed_lines | pr_number | mnum.

#[export] Instance QueryKey_eq_dec : EqDecision QueryKey.
Proof. solve_decision. Defined.

Definition key_name (k : QueryKey) : jstr :=
  match k with
  | repo => js "repo" | org => js "org" | author => js "author" | team => js "team"
  | author_team => js "author_team" | reviewer => js "reviewer" | label => js "label"
  | base_key => js "base" | head => js "head" | state => js "state" | merged => js "merged"
  | created => js "created" | seq_key => js "seq" | release => js "release"
  | path => js "path" | is_key => js "is" | kind => js "kind"
  | changed_files => js "changed_files" | changed_lines => js "changed_lines"
  | pr_number => js "pr_number" | mnum => js "mnum"
  end.

Definition QUERY_KEYS : list QueryKey :=
  [repo; org; author; team; author_team; reviewer; label; base_key; head; state; merged;
   created; seq_key; release; path; is_key; kind; changed_files; changed_lines; pr_number;
   mnum].

(** [isQueryKey]: the key a string names, if it names one. *)
Definition isQueryKey (s : jstr) : option QueryKey :=
  find_first (fun k => jeqb (key_name k) s) QUERY_KEYS.

Definition NUMERIC_RANGE_KEYS : list QueryKey :=
  [seq_key; changed_files; changed_lines; pr_number; mnum].
Definition TEMPORAL_RANGE_KEYS : list QueryKey := [merged; created].

Definition isNumericRangeKey (k : QueryKey) : bool := bool_decide (k ∈ NUMERIC_RANGE_KEYS).
Definition isTemporalRangeKey (k : QueryKey) : bool := bool_decide (k ∈ TEMPORAL_RANGE_KEYS).
Definition isRangeKey (k : QueryKey) : bool := isNumericRangeKey k || isTemporalRangeKey k.

Definition SINGLE_VALUE_RANGE_KEYS : list QueryKey := [mnum].
Definition acceptsSingleValue (k : QueryKey) : bool :=
  bool_decide (k ∈ SINGLE_VALUE_RANGE_KEYS).

Definition MIN_RANGE_VALUE (k : QueryKey) : option Z :=
  match k with pr_number => Some 1 | mnum => Some 1 | _ => None end.

Definition RANGE_KEY_EXAMPLE (k : QueryKey) : jstr :=
  match k with
  | seq_key => js "seq:1200..1350"
  | merged => js "merged:2026-08-10..2026-08-19"
  | created => js "created:2026-08-10..2026-08-19"
  | changed_files => js "changed_files:2..5"
  | changed_lines => js "changed_lines:51..200"
  | pr_number => js "repo:acme/payments pr_number:100..200"
  | mnum => js "repo:acme/payments base:main mnum:1..50"
  | _ => []
  end.

Definition ENUMERATED_VALUES (k : QueryKey) : option (list jstr) :=
  match k with
  | is_key => Some [js "merged"; js "open"; js "closed"; js "reverted"]
  | kind => Some [js "pull_request"; js "commit"]
  | _ => None
  end.

(** ** ast.ts *)

Inductive EqualityOp : Set := op_eq | op_not_eq.
Inductive RangeOp : Set := op_range | op_not_range.
#[export] Instance EqualityOp_eq_dec : EqDecision EqualityOp.
Proof. solve_decision. Defined.
#[export] Instance RangeOp_eq_dec : EqDecision RangeOp.
Proof. solve_decision. Defined.

Inductive QueryFilter : Set :=
| EqualityFilter (key : QueryKey) (op : EqualityOp) (values : list jstr)
| NumericRangeFilter (key : QueryKey) (op : RangeOp) (from to : Z)
| TemporalRangeFilter (key : QueryKey) (op : RangeOp) (from to : jstr)
    (timezone : option jstr).
#[export] Instance QueryFilter_eq_dec : EqDecision QueryFilter.
Proof. solve_decision. Defined.

Record QueryAst : Set := mkAst { filters : list QueryFilter; text : option jstr }.
#[export] Instance QueryAst_eq_dec : EqDecision QueryAst.
Proof. solve_decision. Defined.

Definition isRangeFilter (f : QueryFilter) : bool :=
  match f with EqualityFilter _ _ _ => false | _ => true end.
Definition filter_key (f : QueryFilter) : QueryKey :=
  match f with
  | EqualityFilter k _ _ | NumericRangeFilter k _ _ _ | TemporalRangeFilter k _ _ _ _ => k
  end.
Definition isNegated (f : QueryFilter) : bool :=
  match f with
  | EqualityFilter _ op _ => bool_decide (op = op_not_eq)
  | NumericRangeFilter _ op _ _ | TemporalRangeFilter _ op _ _ _ =>
    bool_decide (op = op_not_range)
  end.
Definition EMPTY_QUERY : QueryAst := mkAst [] None.

(** ** errors.ts *)

Inductive QueryErrorCode : Set := QUERY_SYNTAX_ERROR | QUERY_TOO_SHORT.

Record QueryErrorDetail : Set := mkDetail {
  d_token : jstr;
  d_offset_start : nat;
  d_offset_end : nat;
  d_supported_keys : option (list QueryKey);
  d_allowed_values : option (list jstr)
}.

Record QueryParseError : Set := mkParseError {
  e_code : QueryErrorCode;
  e_message : jstr;
  e_detail : QueryErrorDetail
}.

Definition unsupportedKey (key token : jstr) (s e : nat) : QueryParseError :=
  mkParseError QUERY_SYNTAX_ERROR (js "Unsupported search key: '" ++ key ++ js "'")
    (mkDetail token s e (Some QUERY_KEYS) None).

Definition rangeOnlyKey (key : QueryKey) (token : jstr) (s e : nat) : QueryParseError :=
  mkParseError QUERY_SYNTAX_ERROR
    (js "'" ++ key_name key ++ js "' only supports ranges (for example: "
       ++ RANGE_KEY_EXAMPLE key ++ js ")")
    (mkDetail token s e None None).

Definition syntaxError (message token : jstr) (s e : nat) : QueryParseError :=
  mkParseError QUERY_SYNTAX_ERROR message (mkDetail token s e None None).

(** ** Lemmas on keys *)

(** [KEY_PATTERN] of the tokenizer: an ASCII letter, then letters, digits or [_]. *)
Definition KEY_PATTERN (s : jstr) : bool :=
  match s with [] => false | c :: r => is_alpha c && forallb is_word r end.

Lemma key_name_pattern k : KEY_PATTERN (key_name k) = true.
Proof. by destruct k. Qed.

Lemma isQueryKey_name k : isQueryKey (key_name k) = Some k.
Proof. by destruct k. Qed.

Lemma isQueryKey_Some s k : isQueryKey s = Some k -> key_name k = s.
Proof. intros H. apply find_first_Some in H as [_ H]. by apply jeqb_eq. Qed.

Lemma QUERY_KEYS_complete k : k ∈ QUERY_KEYS.
Proof. destruct k; apply list_elem_of_In; simpl; tauto. Qed.

Lemma numeric_not_temporal k : isNumericRangeKey k = true -> isTemporalRangeKey k = false.
Proof. by destruct k. Qed.

Lemma KEY_PATTERN_word s : KEY_PATTERN s = true -> forallb is_word s = true.
Proof.
  destruct s as [|c s]; [done|]. simpl. intros [Hc Hs]%andb_prop. rewrite Hs.
  unfold is_word, is_alnum. by rewrite Hc.
Qed.

Lemma is_word_not_special c :
  is_word c = true ->
  is_space c = false ∧ c <> 58%N ∧ c <> 34%N ∧ c <> 45%N ∧ c <> 32%N.
Proof.
  unfold is_word, is_alnum, is_alpha, is_lower, is_upper, is_digit, is_space, in_range.
  rewrite ?orb_true_iff, ?andb_true_iff, ?orb_false_iff, ?andb_false_iff,
    ?N.leb_le, ?N.leb_gt, ?N.eqb_eq, ?N.eqb_neq.
  lia.
Qed.
