(* ===== verification/Tokenizer.v ===== *)
(** * Tokenizer

    [packages/query/src/tokenizer.ts]: the query string is cut into tokens that
    keep their character offsets.  A cursor of the source is the pair of a
    position and the input from there on.  [tokenize_loop] takes fuel; every
    iteration consumes a character, so the length of the input is enough
    ([tokenize_loop_fuel]). *)

From stdpp Require Import base list option strings numbers.
From Stdlib Require Import ZArith Lia.
From S2P Require Import Prelude JsString QueryAst.
Open Scope nat_scope.

Record RawToken : Set := mkToken {
  raw : jstr;
  start : nat;
  end_ : nat;
  negated : bool;
  key : option jstr;
  value : jstr;
  quoted : bool
}.

(** [skipSpace]: number of characters skipped and what is left. *)
Definition skipSpace (s : jstr) : nat * jstr :=
  let p := span is_space s in (length p.1, p.2).

(** [readQuoted], after the opening quote: the value and the characters consumed,
    the closing quote included; [None] when the quotation is not closed. *)
Fixpoint readQuoted (s : jstr) : option (jstr * nat) :=
  match s with
  | [] => None
  | c :: s' =>
    if (c =? 92)%N then
      match s' with
      | [] => None
      | e :: s'' => '(v, n) ← readQuoted s''; Some (e :: v, 2 + n)
      end
    else if (c =? 34)%N then Some ([], 1)
    else '(v, n) ← readQuoted s'; Some (c :: v, 1 + n)
  end.

Definition readBare (s : jstr) : jstr * nat :=
  let v := (span (fun c => negb (is_space c)) s).1 in (v, length v).

(** [s[0] === c]. *)
Definition first_is (c : N) (s : jstr) : bool :=
  match s with [] => false | x :: _ => (x =? c)%N end.

(** The key of a token starting at [s]: [candidate], if [s] reads [candidate:...]. *)
Definition read_key (s : jstr) : option jstr :=
  if first_is 34 s then None
  else match index_of_char 58 s with
       | Some (S n) =>
         let candidate := take (S n) s in
         if KEY_PATTERN candidate then Some candidate else None
       | _ => None
       end.

(** The sign and the key of a token, and how many characters they take. *)
Definition token_head (s : jstr) : bool * option jstr * nat :=
  let negated := first_is 45 s in
  let n1 := if negated then 1 else 0 in
  let k := read_key (drop n1 s) in
  (negated, k, match k with Some k => n1 + S (length k) | None => n1 end).

(** The value that follows: whether it was quoted, the value, characters taken. *)
Definition token_value (s : jstr) : option (bool * jstr * nat) :=
  if first_is 34 s
  then '(v, n) ← readQuoted (drop 1 s); Some (true, v, S n)
  else let '(v, n) := readBare s in Some (false, v, n).

(** One iteration of the loop, from the token's first character.  The token is
    [None] for a lone ['-'], which is dropped. *)
Definition next_token (pos : nat) (s : jstr)
  : result QueryParseError (option RawToken * nat * jstr) :=
  let '(negated, key, n1) := token_head s in
  match token_value (drop n1 s) with
  | None => Err (syntaxError (js "Unclosed quotation mark") s pos (pos + length s))
  | Some (quoted, value, n2) =>
    let len := n1 + n2 in
    let keep := negb (jeqb value []) || quoted || bool_decide (is_Some key) in
    Ok (if keep then Some (mkToken (take len s) pos (pos + len) negated key value quoted)
        else None, pos + len, drop len s)
  end.

Fixpoint tokenize_loop (fuel pos : nat) (s : jstr) : result QueryParseError (list RawToken) :=
  let (n, s1) := skipSpace s in
  match s1 with
  | [] => Ok []
  | _ =>
    match fuel with
    | 0 => Ok []
    | S fuel =>
      '(t, pos', r) ← next_token (pos + n) s1;
      ts ← tokenize_loop fuel pos' r;
      Ok (match t with Some t => t :: ts | None => ts end)
    end
  end.

Definition tokenize (input : jstr) : result QueryParseError (list RawToken) :=
  tokenize_loop (length input) 0 input.

Example tokenize_ex :
  tokenize (js "a -repo:acme/p label:") =
  Ok [mkToken (js "a") 0 1 false None (js "a") false;
      mkToken (js "-repo:acme/p") 2 14 true (Some (js "repo")) (js "acme/p") false;
      mkToken (js "label:") 15 21 false (Some (js "label")) [] false].
Proof. reflexivity. Qed.

(** ** What one step consumes *)

Lemma readQuoted_consumed s v n : readQuoted s = Some (v, n) -> 1 <= n <= length s.
Proof.
  revert v n.
  induction s as [s IH] using (induction_ltof1 _ (@length N)); unfold ltof in IH.
  intros v n. destruct s as [|c s]; [done|]. simpl.
  destruct (c =? 92)%N; [destruct s as [|e s]; [done|]|destruct (c =? 34)%N].
  - destruct (readQuoted s) as [[v' n']|] eqn:E; intros; simplify_eq/=.
    specialize (IH s ltac:(simpl; lia) _ _ E). lia.
  - intros; simplify_eq/=. lia.
  - destruct (readQuoted s) as [[v' n']|] eqn:E; intros; simplify_eq/=.
    specialize (IH s ltac:(simpl; lia) _ _ E). lia.
Qed.

Lemma readBare_consumed s : (readBare s).2 <= length s.
Proof.
  unfold readBare. simpl. rewrite <- (span_app (fun c => negb (is_space c)) s) at 2.
  rewrite length_app. lia.
Qed.

Lemma token_value_consumed s q v n :
  token_value s = Some (q, v, n) -> n <= length s ∧ (q = true -> 1 <= n).
Proof.
  unfold token_value. destruct (first_is 34 s) eqn:Eq.
  - destruct (readQuoted (drop 1 s)) as [[v' n']|] eqn:E; intros; simplify_eq/=.
    apply readQuoted_consumed in E. rewrite length_drop in E. lia.
  - pose proof (readBare_consumed s). destruct (readBare s). intros; simplify_eq/=. done.
Qed.

Lemma read_key_Some s k :
  read_key s = Some k ->
  KEY_PATTERN k = true ∧ ∃ r, s = k ++ 58%N :: r ∧ length k <> 0.
Proof.
  unfold read_key. intros H'. destruct (first_is 34 s); [done|].
  destruct (index_of_char 58 s) as [[|n]|] eqn:E; try done.
  cbv zeta in H'. destruct (KEY_PATTERN (take (S n) s)) eqn:Ek; simplify_eq.
  split; [done|]. apply index_of_char_Some in E as (E1 & _ & E3).
  eexists. split; [exact E1|]. rewrite length_take. lia.
Qed.

Lemma token_head_consumed s neg k n : token_head s = (neg, k, n) -> n <= length s.
Proof.
  unfold token_head. intros [= <- <- <-]. set (n1 := if first_is 45 s then 1 else 0).
  assert (n1 <= length s) as Hn.
  { subst n1. destruct s; simpl; [done|]. destruct (_ =? _)%N; lia. }
  destruct (read_key (drop n1 s)) as [k|] eqn:E; [|done].
  apply read_key_Some in E as (_ & r & E & _).
  apply (f_equal length) in E. rewrite length_drop, length_app in E. simpl in E. lia.
Qed.

Lemma next_token_consumed pos s t pos' r :
  next_token pos s = Ok (t, pos', r) ->
  ∃ len, len <= length s ∧ r = drop len s ∧ pos' = pos + len ∧
    match t with
    | Some t => raw t = take len s ∧ start t = pos ∧ end_ t = pos + len
    | None => True
    end.
Proof.
  unfold next_token. destruct (token_head s) as [[neg k] n1] eqn:Eh.
  apply token_head_consumed in Eh.
  destruct (token_value _) as [[[q v] n2]|] eqn:Ev; [|done].
  apply token_value_consumed in Ev as [Hn _]. rewrite length_drop in Hn.
  intros [= <- <- <-]. exists (n1 + n2). split_and!; [lia|done..|].
  by destruct (_ || _ || _).
Qed.

(** From a character that is not a space, a step consumes at least one. *)
Lemma next_token_progress pos c s t pos' r :
  is_space c = false ->
  next_token pos (c :: s) = Ok (t, pos', r) -> length r < length (c :: s).
Proof.
  intros Hc. unfold next_token.
  destruct (token_head (c :: s)) as [[neg k] n1] eqn:Eh.
  destruct (token_value _) as [[[q v] n2]|] eqn:Ev; [|done].
  intros [= _ _ <-]. rewrite length_drop. simpl length.
  enough (n1 + n2 <> 0) by lia. intros Hz.
  assert (n1 = 0 ∧ n2 = 0) as [-> ->] by lia. clear Hz.
  rewrite drop_0 in Ev. unfold token_head in Eh. simpl in Eh.
  destruct (c =? 45)%N; [repeat case_match; simplify_eq|].
  pose proof (token_value_consumed _ _ _ _ Ev) as [_ Hq].
  destruct q; [specialize (Hq eq_refl); lia|].
  unfold token_value in Ev. destruct (first_is 34 (c :: s)).
  { simpl in Ev. destruct (readQuoted _) as [[??]|]; by simplify_eq/=. }
  unfold readBare in Ev. simpl in Ev. rewrite Hc in Ev. simpl in Ev.
  destruct (span _ s); by simplify_eq/=.
Qed.

Lemma skipSpace_spec s n r :
  skipSpace s = (n, r) ->
  r = drop n s ∧ n <= length s ∧ forallb is_space (take n s) = true ∧
  match r with [] => True | c :: _ => is_space c = false end.
Proof.
  unfold skipSpace. pose proof (span_app is_space s) as H.
  pose proof (span_forall is_space s) as Hf. pose proof (span_stop is_space s) as Hs.
  destruct (span is_space s) as [a b]. simpl in *. intros; simplify_eq.
  rewrite length_app, drop_app_length, take_app_length. split_and!; [done|lia|done|].
  destruct r; [done|]. by eapply Hs.
Qed.

(** The fuel is irrelevant once it covers the input. *)
Lemma tokenize_loop_fuel f g pos s :
  length s <= f -> length s <= g -> tokenize_loop f pos s = tokenize_loop g pos s.
Proof.
  revert g pos s. induction f as [|f IH]; intros g pos s Hf Hg.
  - destruct s; [|simpl in *; lia]. by destruct g.
  - destruct g as [|g]; [destruct s; [done|simpl in *; lia]|].
    cbn [tokenize_loop]. destruct (skipSpace s) as [n s1] eqn:E.
    destruct (skipSpace_spec _ _ _ E) as (H1 & H2 & _ & H4).
    destruct s1 as [|c s1]; [done|].
    destruct (next_token (pos + n) (c :: s1)) as [[[t p] r]|e] eqn:En; [|done].
    simpl. rewrite (IH g p r); [done|..];
      apply next_token_progress in En; try done;
      apply (f_equal length) in H1; rewrite length_drop in H1; simpl in *; lia.
Qed.

(** ** Offsets *)

(** The tokens are slices of the input, in order, without overlap. *)
Fixpoint tokens_cover (pos : nat) (s : jstr) (ts : list RawToken) : Prop :=
  match ts with
  | [] => True
  | t :: ts =>
    pos <= start t ∧ start t <= end_ t ∧ end_ t <= pos + length s ∧
    raw t = slice s (start t - pos) (end_ t - pos) ∧
    tokens_cover (end_ t) (drop (end_ t - pos) s) ts
  end.

Lemma slice_drop (s : jstr) a b n :
  slice (drop n s) a b = slice s (n + a) (n + b).
Proof. unfold slice. rewrite drop_drop. by replace (n + b - (n + a)) with (b - a) by lia. Qed.

Lemma tokens_cover_drop pos n s ts :
  n <= length s -> tokens_cover (pos + n) (drop n s) ts -> tokens_cover pos s ts.
Proof.
  intros Hn. destruct ts as [|t ts]; simpl; [done|].
  rewrite length_drop, slice_drop, drop_drop. intros (H1 & H2 & H3 & H4 & H5).
  replace (n + (start t - (pos + n))) with (start t - pos) in H4 by lia.
  replace (n + (end_ t - (pos + n))) with (end_ t - pos) in H4, H5 by lia.
  split_and!; try done; lia.
Qed.

Lemma tokenize_loop_cover f pos s ts :
  tokenize_loop f pos s = Ok ts -> tokens_cover pos s ts.
Proof.
  revert pos s ts. induction f as [|f IH]; intros pos s ts; cbn [tokenize_loop];
    destruct (skipSpace s) as [n s1] eqn:E;
    destruct (skipSpace_spec _ _ _ E) as (H1 & H2 & _ & H4).
  - destruct s1; intros; simplify_eq; done.
  - destruct s1 as [|c s1]; [intros; by simplify_eq|].
    destruct (next_token (pos + n) (c :: s1)) as [[[t p] r]|e] eqn:En; [|done].
    simpl. destruct (tokenize_loop f p r) as [ts'|] eqn:Et; [|done].
    intros [= <-]. apply IH in Et.
    destruct (next_token_consumed _ _ _ _ _ En) as (len & Hl & -> & -> & Ht).
    apply (tokens_cover_drop _ n); [done|]. rewrite <- H1.
    destruct t as [t|].
    + destruct Ht as (Hr & Hs & He). cbn [tokens_cover]. rewrite He, Hs, Hr.
      split_and!; [lia..| |].
      * unfold slice.
        replace (pos + n + len - (pos + n) - (pos + n - (pos + n))) with len by lia.
        replace (pos + n - (pos + n)) with 0 by lia. done.
      * replace (pos + n + len - (pos + n)) with len by lia. done.
    + apply (tokens_cover_drop _ len); done.
Qed.

(** Errors of the tokenizer point inside the input. *)
Lemma tokenize_loop_error f pos s e :
  tokenize_loop f pos s = Err e ->
  ∃ n, n < length s ∧
    e = syntaxError (js "Unclosed quotation mark") (drop n s) (pos + n) (pos + length s).
Proof.
  revert pos s. induction f as [|f IH]; intros pos s; cbn [tokenize_loop];
    destruct (skipSpace s) as [n s1] eqn:E;
    destruct (skipSpace_spec _ _ _ E) as (H1 & H2 & _ & H4); [by destruct s1|].
  destruct s1 as [|c s1]; [done|].
  destruct (next_token (pos + n) (c :: s1)) as [[[t p] r]|e'] eqn:En; simpl.
  - destruct (tokenize_loop f p r) as [ts'|e''] eqn:Et; [done|]. intros [= ->].
    destruct (IH _ _ Et) as (m & Hm & ->).
    destruct (next_token_consumed _ _ _ _ _ En) as (len & Hl & -> & -> & _).
    pose proof (f_equal length H1) as Hs. rewrite !length_drop in *.
    exists (n + (len + m)). rewrite H1, !drop_drop, ?length_drop.
    split; [lia|]. unfold syntaxError. f_equal. f_equal; lia.
  - intros [= <-]. exists n. unfold next_token in En.
    destruct (token_head _) as [[??]?]. destruct (token_value _) as [[[??]?]|]; simplify_eq.
    rewrite H1. pose proof (f_equal length H1) as Hl. rewrite length_drop in *. simpl in Hl.
    split; [lia|]. unfold syntaxError. f_equal. f_equal; lia.
Qed.
