(* ===== verification/Calendar.v ===== *)
(** * Calendar dates

    The date part of [packages/query/src/calendar.ts] and the UTC calendar of the
    JavaScript [Date] it rests on.  Days are counted from 1970-01-01; the
    conversions use 400-year cycles counted from March 1st. *)

From stdpp Require Import base list option strings numbers.
From Stdlib Require Import ZArith Lia.
From S2P Require Import Prelude JsString.
Open Scope Z_scope.

(** ** The proleptic Gregorian calendar of [Date] *)

Definition doe_of (yoe mp d : Z) : Z :=
  yoe * 365 + yoe / 4 - yoe / 100 + ((153 * mp + 2) / 5 + d - 1).

(** [Date.UTC(y, m - 1, d)] in days, for [1 <= m <= 12] and any [d]. *)
Definition days_from_civil (y m d : Z) : Z :=
  let y := if m <=? 2 then y - 1 else y in
  let mp := if m <=? 2 then m + 9 else m - 3 in
  (y / 400) * 146097 + doe_of (y mod 400) mp d - 719468.

Definition civil_of_doe (doe : Z) : Z * Z * Z :=
  let yoe := (doe - doe / 1460 + doe / 36524 - doe / 146096) / 365 in
  let doy := doe - (365 * yoe + yoe / 4 - yoe / 100) in
  let mp := (5 * doy + 2) / 153 in
  (yoe, mp, doy - (153 * mp + 2) / 5 + 1).

(** [getUTCFullYear], [getUTCMonth() + 1] and [getUTCDate] of a day. *)
Definition civil_from_days (z : Z) : Z * Z * Z :=
  let z := z + 719468 in
  let '(yoe, mp, d) := civil_of_doe (z mod 146097) in
  let m := if mp <? 10 then mp + 3 else mp - 9 in
  let y := z / 146097 * 400 + yoe in
  (if m <=? 2 then y + 1 else y, m, d).

(** [MakeDay] with the month carry of [Date.UTC]: month [m] counted from 1, of any
    value. *)
Definition make_day (y m d : Z) : Z :=
  let m0 := m - 1 in
  days_from_civil (y + m0 / 12) (m0 mod 12 + 1) d.

(** [Date.UTC] reads the years 0 to 99 as 1900 to 1999. *)
Definition date_utc_day (y m d : Z) : Z :=
  make_day (if (0 <=? y) && (y <=? 99) then 1900 + y else y) m d.

(** ** calendar.ts *)

Definition digits_at (n : nat) (s : jstr) : bool :=
  (length (take n s) =? n)%nat && forallb is_digit (take n s).

(** [/^(\d{4})-(\d{2})-(\d{2})$/] *)
Definition DATE_ONLY (s : jstr) : bool :=
  (length s =? 10)%nat
  && digits_at 4 s && jeqb (slice s 4 5) (js "-")
  && digits_at 2 (drop 5 s) && jeqb (slice s 7 8) (js "-")
  && digits_at 2 (drop 8 s).

Definition splitDate (value : jstr) : option (Z * Z * Z) :=
  if DATE_ONLY value
  then Some (num_of_digits (slice value 0 4), num_of_digits (slice value 5 7),
             num_of_digits (slice value 8 10))
  else None.

(** [utcWall] at midnight, in days: [setUTCFullYear] sets the year apart, so the
    1900 rule does not apply. *)
Definition utcWall_day (y m d : Z) : Z := make_day y m d.

Definition isCalendarDate (value : jstr) : bool :=
  match splitDate value with
  | None => false
  | Some (y, m, d) =>
    if (y <? 1) || (m <? 1) || (12 <? m) || (d <? 1) then false
    else bool_decide (civil_from_days (utcWall_day y m d) = (y, m, d))
  end.

Definition requireDate (value : jstr) : result jstr (Z * Z * Z) :=
  match splitDate value with
  | Some p => if isCalendarDate value then Ok p
              else Err (js "Invalid calendar date: '" ++ value ++ js "'")
  | None => Err (js "Invalid calendar date: '" ++ value ++ js "'")
  end.

(** [String(value).padStart(width, '0')] for a nonnegative value. *)
Definition pad (value : Z) (width : nat) : jstr :=
  let s := js_of_Z value in replicate (width - length s) 48%N ++ s.

Definition render_date (y m d : Z) : jstr :=
  pad y 4 ++ js "-" ++ pad m 2 ++ js "-" ++ pad d 2.

Definition addDays (date : jstr) (days : Z) : result jstr jstr :=
  '(y, m, d) ← requireDate date;
  let '(y', m', d') := civil_from_days (utcWall_day y m d + days) in
  Ok (render_date y' m' d').

Definition endOfMonth (date : jstr) : result jstr jstr :=
  '(y, m, _) ← requireDate date;
  let next := if m =? 12 then pad (y + 1) 4 ++ js "-01-01"
              else pad y 4 ++ js "-" ++ pad (m + 1) 2 ++ js "-01" in
  addDays next (-1).

(** [/^[A-Za-z][A-Za-z0-9_+-]*(?:\/[A-Za-z0-9_+-]+)*$/] *)
Definition zone_char (c : N) : bool := is_word c || (c =? 43)%N || (c =? 45)%N.
Definition ZONE_NAME (s : jstr) : bool :=
  match split_char 47 s with
  | (c :: r) :: segs => is_alpha c && forallb zone_char r && forallb (all1 zone_char) segs
  | _ => false
  end.

Section timezones.
(** [new Intl.DateTimeFormat('en-US', { timeZone }).resolvedOptions().timeZone];
    [None] when the runtime throws on an unknown zone. *)
Context (resolve_tz : jstr -> option jstr).

Definition canonicalTimeZone (name : jstr) : option jstr :=
  if ZONE_NAME name then resolve_tz name else None.
End timezones.

Example addDays_leap : addDays (js "2024-02-28") 1 = Ok (js "2024-02-29").
Proof. reflexivity. Qed.
Example addDays_year : addDays (js "2025-12-31") 1 = Ok (js "2026-01-01").
Proof. reflexivity. Qed.
Example endOfMonth_feb : endOfMonth (js "1900-02-05") = Ok (js "1900-02-28").
Proof. reflexivity. Qed.
Example no_feb_30 : isCalendarDate (js "2026-02-30") = false.
Proof. reflexivity. Qed.
Example zone_seoul : ZONE_NAME (js "Asia/Seoul") = true.
Proof. reflexivity. Qed.

(** ** The day count and the calendar are inverse *)

(** Checked on the 146097 days of one 400-year cycle, then shifted by whole cycles. *)
Definition doe_ok (doe : Z) : bool :=
  let '(yoe, mp, d) := civil_of_doe doe in
  (doe_of yoe mp d =? doe) && (0 <=? yoe) && (yoe <? 400) && (0 <=? mp) && (mp <? 12)
  && (1 <=? d) && (d <=? 31).

Fixpoint check_from (p : Z -> bool) (z : Z) (n : nat) : bool :=
  match n with O => true | S n => p z && check_from p (z + 1) n end.

Lemma check_from_spec p n : forall z0 z,
  check_from p z0 n = true -> z0 <= z < z0 + Z.of_nat n -> p z = true.
Proof.
  induction n as [|n IH]; intros z0 z; cbn [check_from]; [lia|].
  intros [Hp Hn]%andb_prop Hz.
  destruct (decide (z = z0)) as [->|]; [done|]. apply (IH (z0 + 1)); [done|lia].
Qed.

Definition cycle_days : nat := Z.to_nat 146097.
Lemma cycle_days_Z : Z.of_nat cycle_days = 146097.
Proof. unfold cycle_days. by rewrite Z2Nat.id. Qed.

Lemma doe_ok_all : check_from doe_ok 0 cycle_days = true.
Proof. vm_cast_no_check (eq_refl true). Qed.

Lemma civil_of_doe_spec doe :
  0 <= doe < 146097 ->
  let '(yoe, mp, d) := civil_of_doe doe in
  doe_of yoe mp d = doe ∧ 0 <= yoe < 400 ∧ 0 <= mp < 12 ∧ 1 <= d <= 31.
Proof.
  intros H. pose proof (check_from_spec _ _ _ doe doe_ok_all) as Ho.
  rewrite cycle_days_Z in Ho. specialize (Ho ltac:(lia)).
  unfold doe_ok in Ho. destruct (civil_of_doe doe) as [[yoe mp] d].
  rewrite !andb_true_iff in Ho. destruct_all. bool_to_prop. lia.
Qed.

Lemma cycle_div_mod q r : 0 <= r < 400 -> (q * 400 + r) / 400 = q ∧ (q * 400 + r) mod 400 = r.
Proof.
  intros H. split; symmetry.
  - apply (Z.div_unique_pos _ _ _ r); lia.
  - apply (Z.mod_unique_pos _ _ q); lia.
Qed.

Lemma days_from_civil_from_days z :
  let '(y, m, d) := civil_from_days z in
  days_from_civil y m d = z ∧ 1 <= m <= 12 ∧ 1 <= d <= 31.
Proof.
  unfold civil_from_days. set (w := z + 719468).
  pose proof (Z.mod_pos_bound w 146097 ltac:(lia)) as Hm.
  pose proof (civil_of_doe_spec _ Hm) as H.
  destruct (civil_of_doe (w mod 146097)) as [[yoe mp] d].
  destruct H as (Hd & Hy & Hmp & Hdd).
  pose proof (Z.div_mod w 146097 ltac:(lia)) as Hw.
  unfold days_from_civil.
  destruct (Z.ltb_spec mp 10).
  - replace (mp + 3 <=? 2) with false by (symmetry; apply Z.leb_gt; lia).
    destruct (cycle_div_mod (w / 146097) yoe Hy) as [-> ->].
    replace (mp + 3 - 3) with mp by lia. rewrite Hd. subst w. lia.
  - replace (mp - 9 <=? 2) with true by (symmetry; apply Z.leb_le; lia).
    replace (w / 146097 * 400 + yoe + 1 - 1) with (w / 146097 * 400 + yoe) by lia.
    destruct (cycle_div_mod (w / 146097) yoe Hy) as [-> ->].
    replace (mp - 9 + 9) with mp by lia. rewrite Hd. subst w. lia.
Qed.

Lemma make_day_civil y m d : 1 <= m <= 12 -> make_day y m d = days_from_civil y m d.
Proof.
  intros. unfold make_day. rewrite Z.div_small, Z.mod_small by lia.
  f_equal; lia.
Qed.
