(* ===== verification/QueryParse.v ===== *)
(** * Query parser

    [packages/query/src/parse.ts]: tokens to filters and text, with every check the
    source makes and the error each one throws.  [Date.parse] and the time-zone
    database of [Intl] are parameters (the runtime owns them). *)

From stdpp Require Import base list option strings numbers.
From Stdlib Require Import ZArith Lia.
From S2P Require Import Prelude JsString QueryAst Tokenizer Calendar.
Open Scope Z_scope.

Definition MIN_TEXT_LENGTH : nat := 2.

Definition is_high_surrogate (c : N) : bool := in_range 55296 56319 c.
Definition is_low_surrogate (c : N) : bool := in_range 56320 57343 c.

(** [[...value].length]: a surrogate pair counts once. *)
Fixpoint countCodePoints (s : jstr) : nat :=
  match s with
  | [] => 0%nat
  | h :: s' =>
    match s' with
    | l :: s'' => if is_high_surrogate h && is_low_surrogate l
                  then S (countCodePoints s'') else S (countCodePoints s')
    | [] => 1%nat
    end
  end.

Definition RANGE_SEPARATOR : jstr := js "..".

Definition take_if (p : jstr -> bool) (n : nat) (s : jstr) : option jstr :=
  if (length (take n s) =? n)%nat && p (take n s) then Some (drop n s) else None.

(** [(Z|[+-]\d{2}:?\d{2})?$] *)
Definition zone_suffix (s : jstr) : bool :=
  match s with
  | [] => true
  | c :: r =>
    (jeqb s (js "Z"))
    || ((c =? 43)%N || (c =? 45)%N)
       && (((length r =? 4)%nat && forallb is_digit r)
           || ((length r =? 5)%nat && digits_at 2 r && jeqb (slice r 2 3) (js ":")
               && digits_at 2 (drop 3 r)))
  end.

(** [(\.\d{1,3})?] and then the zone. *)
Definition fraction_zone (s : jstr) : bool :=
  match s with
  | 46%N :: r =>
    let (d, r') := span is_digit r in
    (1 <=? length d)%nat && (length d <=? 3)%nat && zone_suffix r'
  | _ => zone_suffix s
  end.

(** [/^\d{4}-\d{2}-\d{2}[T ]\d{2}:\d{2}(:\d{2}(\.\d{1,3})?)?(Z|[+-]\d{2}:?\d{2})?$/] *)
Definition DATE_TIME (s : jstr) : bool :=
  DATE_ONLY (take 10 s)
  && (jeqb (slice s 10 11) (js "T") || jeqb (slice s 10 11) (js " "))
  && digits_at 2 (drop 11 s) && jeqb (slice s 13 14) (js ":") && digits_at 2 (drop 14 s)
  && match drop 16 s with
     | 58%N :: r => digits_at 2 r && fraction_zone (drop 2 r)
     | r => zone_suffix r
     end.

(** [/^-?\d+$/] and [Number]. *)
Definition read_integer (raw : jstr) : option Z :=
  match raw with
  | 45%N :: r => if all1 is_digit r then Some (- num_of_digits r) else None
  | _ => if all1 is_digit raw then Some (num_of_digits raw) else None
  end.

Definition at_token {A} (t : RawToken) (msg : jstr) : result QueryParseError A :=
  Err (syntaxError msg (raw t) (start t) (end_ t)).

Definition parseNumericBound (s : jstr) (t : RawToken) : result QueryParseError Z :=
  match read_integer s with
  | None => at_token t (js "Range bound must be an integer: '" ++ s ++ js "'")
  | Some z =>
    if is_safe_integer z then Ok z
    else at_token t (js "Range bound is too large: '" ++ s ++ js "'")
  end.

(** The probe of [checkTemporalBound]: [Date.UTC] of the first ten characters reads
    back as the same year, month and day. *)
Definition real_date (s : jstr) : bool :=
  let year := num_of_digits (slice s 0 4) in
  let month := num_of_digits (slice s 5 7) in
  let day := num_of_digits (slice s 8 10) in
  bool_decide (civil_from_days (date_utc_day year month day) = (year, month, day)).

Section parser.
(** [Date.parse] ([None] for [NaN]) and the runtime's time-zone names. *)
Context (date_parse : jstr -> option Z) (resolve_tz : jstr -> option jstr).

Definition checkTemporalBound (s : jstr) (t : RawToken) : result QueryParseError jstr :=
  if negb (DATE_ONLY s) && negb (DATE_TIME s)
  then at_token t (js "Invalid date format: '" ++ s
         ++ js "' (for example: 2026-08-10 or 2026-08-10T05:02:11Z)")
  else if negb (real_date s) || match date_parse s with None => true | Some _ => false end
    then at_token t (js "Invalid calendar date: '" ++ s ++ js "'")
    else Ok s.

(** [/(Z|[+-]\d{2}:?\d{2})$/] *)
Definition has_zone (s : jstr) : bool :=
  existsb (fun n => (n <=? length s)%nat && negb (n =? 0)%nat
                    && zone_suffix (drop (length s - n) s)) [1; 5; 6]%nat.

Definition instantOf (bound : jstr) : option Z :=
  if DATE_ONLY bound then date_parse bound
  else
    let normalized :=
      match index_of_char 32 bound with
      | Some i => take i bound ++ js "T" ++ drop (S i) bound
      | None => bound
      end in
    date_parse (if has_zone normalized then normalized else normalized ++ js "Z").

(** [instantOf(low) > instantOf(high)]; [NaN] compares false. *)
Definition instant_gt (low high : jstr) : bool :=
  match instantOf low, instantOf high with
  | Some a, Some b => b <? a
  | _, _ => false
  end.

(** [a > b] on strings: code-unit order. *)
Fixpoint jstr_gt (a b : jstr) : bool :=
  match a, b with
  | [], _ => false
  | _ :: _, [] => true
  | x :: a, y :: b => if (x =? y)%N then jstr_gt a b else (y <? x)%N
  end.

Definition zone_example : jstr := js " (for example: 2026-09-27..2026-09-27@Asia/Seoul)".

Definition splitTimeZone (from to : jstr) (t : RawToken)
  : result QueryParseError (option (jstr * jstr * jstr)) :=
  if includes (js "@") from
  then at_token t (js "The time zone goes after the range: '" ++ value t ++ js "'" ++ zone_example)
  else match index_of_char 64 to with
  | None => Ok None
  | Some mark =>
    let high := take mark to in
    let zone := drop (S mark) to in
    if jeqb high []
    then at_token t (js "Both range bounds are required: '" ++ value t ++ js "'" ++ zone_example)
    else if negb (DATE_ONLY from) || negb (DATE_ONLY high)
    then at_token t (js "A time zone applies to calendar dates only: '" ++ value t
                       ++ js "'" ++ zone_example)
    else
      _ ← checkTemporalBound from t;
      _ ← checkTemporalBound high t;
      match canonicalTimeZone resolve_tz zone with
      | None => at_token t (js "Unknown time zone: '" ++ zone ++ js "' (for example: Asia/Seoul)")
      | Some tz =>
        if jstr_gt from high
        then at_token t (js "Range bounds are reversed: '" ++ value t ++ js "'")
        else Ok (Some (from, high, tz))
      end
  end.

Definition range_op (t : RawToken) : RangeOp := if negated t then op_not_range else op_range.

Definition reversed {A} (t : RawToken) : result QueryParseError A :=
  at_token t (js "Range bounds are reversed: '" ++ value t ++ js "'").

Definition toNumericRange (k : QueryKey) (from to : jstr) (t : RawToken)
  : result QueryParseError QueryFilter :=
  low ← parseNumericBound from t;
  high ← parseNumericBound to t;
  if high <? low then reversed t
  else match MIN_RANGE_VALUE k with
  | Some minimum =>
    if low <? minimum
    then at_token t (js "Range bound is below the minimum for '" ++ key_name k ++ js "' ("
           ++ js_of_Z minimum ++ js "): '" ++ value t ++ js "'")
    else Ok (NumericRangeFilter k (range_op t) low high)
  | None => Ok (NumericRangeFilter k (range_op t) low high)
  end.

Definition toTemporalRange (k : QueryKey) (from to : jstr) (t : RawToken)
  : result QueryParseError QueryFilter :=
  zoned ← splitTimeZone from to t;
  match zoned with
  | Some (low, high, tz) => Ok (TemporalRangeFilter k (range_op t) low high (Some tz))
  | None =>
    low ← checkTemporalBound from t;
    high ← checkTemporalBound to t;
    if instant_gt low high then reversed t
    else Ok (TemporalRangeFilter k (range_op t) low high None)
  end.

(** The value is known to contain [..]; [separator] is its first occurrence. *)
Definition toRangeFilter (k : QueryKey) (t : RawToken) : result QueryParseError QueryFilter :=
  let separator := match index_of RANGE_SEPARATOR (value t) with Some i => i | None => 0%nat end in
  let from := take separator (value t) in
  let to := drop (separator + 2) (value t) in
  if jeqb from [] || jeqb to []
  then at_token t (js "Both range bounds are required: '" ++ value t
                     ++ js "' (for example: 1200..1350)")
  else if isNumericRangeKey k then toNumericRange k from to t
  else if isTemporalRangeKey k then toTemporalRange k from to t
  else at_token t (js "This key does not support ranges: '" ++ key_name k ++ js "'").

Definition toSingleValueRangeFilter (k : QueryKey) (t : RawToken)
  : result QueryParseError QueryFilter :=
  v ← parseNumericBound (value t) t;
  match MIN_RANGE_VALUE k with
  | Some minimum =>
    if v <? minimum
    then at_token t (js "Value is below the minimum for '" ++ key_name k ++ js "' ("
           ++ js_of_Z minimum ++ js "): '" ++ value t ++ js "'")
    else Ok (NumericRangeFilter k (range_op t) v v)
  | None => Ok (NumericRangeFilter k (range_op t) v v)
  end.

Definition checkEnumeratedValue (k : QueryKey) (t : RawToken) : result QueryParseError unit :=
  match ENUMERATED_VALUES k with
  | None => Ok tt
  | Some allowed =>
    if mem (value t) allowed then Ok tt
    else Err (mkParseError QUERY_SYNTAX_ERROR
           (js "Invalid value for '" ++ key_name k ++ js "': '" ++ value t ++ js "'")
           (mkDetail (raw t) (start t) (end_ t) None (Some allowed)))
  end.

(** [filters] and [equalities] share the [values] array of a node: a later token
    of the same key and operator extends the node in place. *)
Definition is_bucket (k : QueryKey) (op : EqualityOp) (f : QueryFilter) : bool :=
  match f with
  | EqualityFilter k' op' _ => bool_decide (k' = k ∧ op' = op)
  | _ => false
  end.
Fixpoint add_equality (k : QueryKey) (op : EqualityOp) (v : jstr) (fs : list QueryFilter)
  : list QueryFilter :=
  match fs with
  | [] => [EqualityFilter k op [v]]
  | f :: fs =>
    match f with
    | EqualityFilter k' op' vs =>
      if is_bucket k op f
      then EqualityFilter k' op' (if mem v vs then vs else vs ++ [v]) :: fs
      else f :: add_equality k op v fs
    | _ => f :: add_equality k op v fs
    end
  end.

Record parse_state : Type := mkState {
  ps_filters : list QueryFilter;
  ps_terms : list jstr;
  ps_first : option nat
}.

(** One iteration of the [for] loop over the tokens. *)
Definition parse_token (st : parse_state) (t : RawToken) : result QueryParseError parse_state :=
  let push f := mkState (ps_filters st ++ [f]) (ps_terms st) (ps_first st) in
  match key t with
  | None =>
    let term := if negated t then 45%N :: value t else value t in
    Ok (mkState (ps_filters st) (ps_terms st ++ [term])
          (match ps_first st with Some i => Some i | None => Some (start t) end))
  | Some kn =>
    match isQueryKey kn with
    | None => Err (unsupportedKey kn (raw t) (start t) (end_ t))
    | Some k =>
      if negb (quoted t) && isRangeKey k && includes RANGE_SEPARATOR (value t)
      then f ← toRangeFilter k t; Ok (push f)
      else if jeqb (value t) []
      then at_token t (js "The value for '" ++ kn ++ js "' is empty")
      else if isRangeKey k then
        if acceptsSingleValue k
        then f ← toSingleValueRangeFilter k t; Ok (push f)
        else Err (rangeOnlyKey k (raw t) (start t) (end_ t))
      else
        _ ← checkEnumeratedValue k t;
        let op := if negated t then op_not_eq else op_eq in
        Ok (mkState (add_equality k op (value t) (ps_filters st)) (ps_terms st) (ps_first st))
    end
  end.

Fixpoint parse_tokens (st : parse_state) (ts : list RawToken)
  : result QueryParseError parse_state :=
  match ts with
  | [] => Ok st
  | t :: ts => st' ← parse_token st t; parse_tokens st' ts
  end.

Definition finish (st : parse_state) : result QueryParseError QueryAst :=
  match ps_terms st with
  | [] => Ok (mkAst (ps_filters st) None)
  | terms =>
    let text := join (js " ") terms in
    let first := match ps_first st with Some i => i | None => 0%nat end in
    if (countCodePoints text <? MIN_TEXT_LENGTH)%nat
    then Err (mkParseError QUERY_TOO_SHORT
           (js "Search text must contain at least 2 characters")
           (mkDetail text first (first + length text) None None))
    else Ok (mkAst (ps_filters st) (Some text))
  end.

Definition parseQuery (input : jstr) : result QueryParseError QueryAst :=
  ts ← tokenize input;
  st ← parse_tokens (mkState [] [] None) ts;
  finish st.
End parser.

(** ** The parser on concrete queries *)

(** A stand-in clock for the examples: every date is readable, at a fixed instant. *)
Definition fixed_parse (_ : jstr) : option Z := Some 0.
Definition echo_tz (z : jstr) : option jstr := Some z.

Example parse_ex1 :
  parseQuery fixed_parse echo_tz (js "author:kim author:lee -label:" ++ [34%N] ++ js "wip x" ++ [34%N] ++ js " fix login")
  = Ok (mkAst [EqualityFilter author op_eq [js "kim"; js "lee"];
               EqualityFilter label op_not_eq [js "wip x"]] (Some (js "fix login"))).
Proof. reflexivity. Qed.
Example parse_ex2 :
  parseQuery fixed_parse echo_tz (js "mnum:7 -seq:1..9 merged:2026-08-10..2026-08-19@Asia/Seoul")
  = Ok (mkAst [NumericRangeFilter mnum op_range 7 7; NumericRangeFilter seq_key op_not_range 1 9;
               TemporalRangeFilter merged op_range (js "2026-08-10") (js "2026-08-19")
                 (Some (js "Asia/Seoul"))] None).
Proof. reflexivity. Qed.
Example parse_ex3 :
  parseQuery fixed_parse echo_tz (js "seq:9..1")
  = Err (syntaxError (js "Range bounds are reversed: '9..1'") (js "seq:9..1") 0 8).
Proof. reflexivity. Qed.
Example parse_ex4 :
  is_ok (parseQuery fixed_parse echo_tz (js "merged:2026-02-30..2026-03-01")) = false.
Proof. reflexivity. Qed.
