(* ===== verification/QuerySerialize.v ===== *)
(** * Query serializer and AST edits

    [packages/query/src/serialize.ts]: an AST back to a query string, and the three
    edits the screens and the statistics make on an AST. *)

From stdpp Require Import base list option strings numbers.
From Stdlib Require Import ZArith Lia.
From S2P Require Import Prelude JsString QueryAst.
Open Scope Z_scope.

Definition needsQuotes (v : jstr) : bool :=
  jeqb v [] || existsb is_space v || existsb (N.eqb 34) v || existsb (N.eqb 92) v
  || existsb (N.eqb 58) v || starts_with (js "-") v.

(** [value.replace(/\\/g, '\\\\').replace(/"/g, '\\"')] *)
Definition replace_all (c : N) (by_ : jstr) (s : jstr) : jstr :=
  flat_map (fun x => if (x =? c)%N then by_ else [x]) s.
Definition escape (v : jstr) : jstr := replace_all 34 [92%N; 34%N] (replace_all 92 [92%N; 92%N] v).
Definition quote (v : jstr) : jstr := [34%N] ++ escape v ++ [34%N].

Definition renderValue (v : jstr) : jstr := if needsQuotes v then quote v else v.

Definition renderFilter (f : QueryFilter) : list jstr :=
  let prefix := if isNegated f then js "-" else [] in
  match f with
  | EqualityFilter k _ values =>
    map (fun v => prefix ++ key_name k ++ js ":" ++ renderValue v) values
  | NumericRangeFilter k _ from to =>
    [prefix ++ key_name k ++ js ":" ++ js_of_Z from ++ js ".." ++ js_of_Z to]
  | TemporalRangeFilter k _ from to tz =>
    [prefix ++ key_name k ++ js ":" ++ from ++ js ".." ++ to
       ++ match tz with Some z => js "@" ++ z | None => [] end]
  end.

Definition renderTerm (term : jstr) : jstr :=
  if needsQuotes term && negb (starts_with (js "-") term) then quote term else term.

Definition renderText (text : jstr) : list jstr :=
  map renderTerm (List.filter (fun t => negb (jeqb t [])) (split_char 32 text)).

Definition serializeQuery (ast : QueryAst) : jstr :=
  join (js " ") (flat_map renderFilter (filters ast)
                 ++ match text ast with Some t => renderText t | None => [] end).

(** ** Edits *)

Definition is_eq_on (k : QueryKey) (f : QueryFilter) : bool :=
  match f with EqualityFilter k' op_eq _ => bool_decide (k' = k) | _ => false end.
Definition is_range_on (k : QueryKey) (f : QueryFilter) : bool :=
  match f with
  | NumericRangeFilter k' op_range _ _ | TemporalRangeFilter k' op_range _ _ _ =>
    bool_decide (k' = k)
  | _ => false
  end.

Definition replaceEquality (ast : QueryAst) (k : QueryKey) (v : jstr) : QueryAst :=
  mkAst (List.filter (fun f => negb (is_eq_on k f)) (filters ast)
         ++ [EqualityFilter k op_eq [v]]) (text ast).

Definition intersectNumericRange (ast : QueryAst) (k : QueryKey) (from to : Z) : QueryAst :=
  let base :=
    match find_first (is_range_on k) (filters ast) with
    | Some (NumericRangeFilter _ _ f t) => (Z.max f from, Z.min t to)
    | _ => (from, to)
    end in
  mkAst (List.filter (fun f => negb (is_range_on k f)) (filters ast)
         ++ [NumericRangeFilter k op_range base.1 base.2]) (text ast).

(** [addEquality]: the value joins the first [eq] node of the key; a value already
    there leaves the query as it is. *)
Fixpoint add_to_first (k : QueryKey) (v : jstr) (fs : list QueryFilter) : list QueryFilter :=
  match fs with
  | [] => [EqualityFilter k op_eq [v]]
  | f :: fs =>
    if is_eq_on k f then
      match f with
      | EqualityFilter k' op vs => EqualityFilter k' op (if mem v vs then vs else vs ++ [v]) :: fs
      | _ => f :: fs
      end
    else f :: add_to_first k v fs
  end.
Definition addEquality (ast : QueryAst) (k : QueryKey) (v : jstr) : QueryAst :=
  mkAst (add_to_first k v (filters ast)) (text ast).

Example serialize_ex :
  serializeQuery (mkAst [EqualityFilter label op_not_eq [js "wip x"];
                         NumericRangeFilter seq_key op_range 1 9] (Some (js "fix a:b")))
  = js "-label:" ++ [34%N] ++ js "wip x" ++ [34%N] ++ js " seq:1..9 fix "
    ++ [34%N] ++ js "a:b" ++ [34%N].
Proof. reflexivity. Qed.

(** ** Lemmas *)

(** Escaping is per character. *)
Definition escape_char (c : N) : jstr :=
  if (c =? 92)%N then [92; 92]%N else if (c =? 34)%N then [92; 34]%N else [c].

Lemma escape_flat v : escape v = flat_map escape_char v.
Proof.
  unfold escape, replace_all. induction v as [|c v IH]; simpl; [done|].
  rewrite flat_map_app, IH. f_equal. unfold escape_char.
  destruct (c =? 92)%N eqn:E; bool_to_prop; [by subst|].
  simpl. rewrite app_nil_r. done.
Qed.

Lemma needsQuotes_false v :
  needsQuotes v = false ->
  v <> [] ∧ (forall c, c ∈ v -> is_space c = false ∧ c <> 34%N ∧ c <> 92%N ∧ c <> 58%N)
  ∧ starts_with (js "-") v = false.
Proof.
  unfold needsQuotes. rewrite !orb_false_iff. intros (((((H1 & H2) & H3) & H4) & H5) & H6).
  split_and!; [by apply jeqb_neq| |done]. intros c Hc.
  assert (forall p : N -> bool, existsb p v = false -> p c = false) as Hp.
  { intros p Hp. destruct (p c) eqn:E; [|done].
    assert (existsb p v = true) by (apply existsb_elem; eauto). congruence. }
  apply Hp in H2, H3, H4, H5. bool_to_prop. naive_solver.
Qed.

Lemma needsQuotes_not_space v : existsb is_space v = true -> needsQuotes v = true.
Proof. unfold needsQuotes. intros ->. by rewrite orb_true_r. Qed.
