(* ===== verification/QueryRoundTrip.v ===== *)
(** * What the parser produces, and the round trip

    [wf_ast] is the shape of a parsed query.  [parseQuery_wf]: the parser produces
    nothing else.  [serialize_parse]: every such query whose text is [stable_text]
    is parsed back from its serialization, unchanged.  The text condition is not
    an artefact: [negated_quotation_not_stable] is a query whose serialization
    means something else. *)

From stdpp Require Import base list option strings numbers.
From Stdlib Require Import ZArith Lia.
From S2P Require Import Prelude JsString QueryAst Calendar Tokenizer QueryParse QuerySerialize.
Open Scope nat_scope.

(** ** Tokens of rendered pieces *)

(** What may follow a piece: nothing, or the space of [join]. *)
Definition boundary (rest : jstr) : Prop :=
  match rest with [] => True | c :: _ => c = 32%N end.

Definition no_space (s : jstr) : bool := forallb (fun c => negb (is_space c)) s.

Lemma boundary_stop rest :
  boundary rest -> match rest with [] => True | x :: _ => negb (is_space x) = false end.
Proof. destruct rest; simpl; [done|]. by intros ->. Qed.

Lemma no_space_elem s c : no_space s = true -> c ∈ s -> is_space c = false.
Proof. unfold no_space. rewrite forallb_elem. intros H Hc. apply H in Hc. by apply negb_true_iff. Qed.

Lemma readBare_app v rest :
  no_space v = true -> boundary rest -> readBare (v ++ rest) = (v, length v).
Proof.
  intros Hv Hr. unfold readBare. rewrite span_all; [done|done|]. by apply boundary_stop.
Qed.

Lemma first_is_app c v rest : v <> [] -> first_is c (v ++ rest) = first_is c v.
Proof. by destruct v. Qed.

Lemma token_value_bare v rest :
  no_space v = true -> v <> [] -> first_is 34 v = false -> boundary rest ->
  token_value (v ++ rest) = Some (false, v, length v).
Proof.
  intros Hv Hne Hq Hr. unfold token_value. rewrite first_is_app by done. rewrite Hq.
  by rewrite readBare_app.
Qed.

Lemma readQuoted_escape v rest :
  readQuoted (escape v ++ 34%N :: rest) = Some (v, length (escape v) + 1).
Proof.
  rewrite escape_flat. induction v as [|c v IH]; [done|].
  cbn [flat_map]. rewrite <- app_assoc. unfold escape_char at 1 3.
  destruct (c =? 92)%N eqn:E; bool_to_prop; [subst|destruct (c =? 34)%N eqn:E'; bool_to_prop];
    cbn [app readQuoted]; simpl (_ =? _)%N; cbv iota.
  - rewrite IH. done.
  - subst. rewrite IH. done.
  - rewrite (proj2 (N.eqb_neq c 92)), (proj2 (N.eqb_neq c 34)) by done. rewrite IH. done.
Qed.

Lemma token_value_quoted v rest :
  token_value (quote v ++ rest) = Some (true, v, length (quote v)).
Proof.
  unfold token_value, quote. cbn [app first_is]. rewrite N.eqb_refl.
  rewrite skipn_cons, drop_0, <- app_assoc. change ([34%N] ++ rest) with (34%N :: rest).
  rewrite readQuoted_escape. simpl. by rewrite length_app.
Qed.

Lemma token_value_render v rest :
  v <> [] -> boundary rest ->
  ∃ q, token_value (renderValue v ++ rest) = Some (q, v, length (renderValue v)).
Proof.
  intros Hne Hr. unfold renderValue. destruct (needsQuotes v) eqn:E.
  - eexists. apply token_value_quoted.
  - apply needsQuotes_false in E as (_ & Hc & _). exists false.
    apply token_value_bare; try done.
    + apply forallb_elem. intros c Hin. apply Hc in Hin. by rewrite (proj1 Hin).
    + destruct v as [|c v]; [done|]. simpl. apply N.eqb_neq. apply (Hc c). by left.
Qed.

Lemma read_key_app k rest :
  KEY_PATTERN k = true -> read_key (k ++ 58%N :: rest) = Some k.
Proof.
  intros Hk. pose proof (KEY_PATTERN_word k Hk) as Hw.
  assert (58%N ∉ k) as Hc.
  { intros Hin. apply forallb_elem with (x := 58%N) in Hw; [|done].
    apply is_word_not_special in Hw. naive_solver. }
  unfold read_key. destruct k as [|c k]; [done|].
  rewrite first_is_app by done.
  replace (first_is 34 (c :: k)) with false; swap 1 2.
  { symmetry. simpl. apply N.eqb_neq. simpl in Hw. apply andb_prop in Hw as [Hw _].
    by apply is_word_not_special in Hw as (_ & _ & ? & _). }
  rewrite index_of_char_app by done. cbv zeta. cbn [length].
  change (S (length k)) with (length (c :: k)). by rewrite take_app_length, Hk.
Qed.

(** A word without key stays without key in front of a boundary. *)
Lemma read_key_None_app w rest :
  w <> [] -> boundary rest -> read_key w = None -> read_key (w ++ rest) = None.
Proof.
  intros Hne Hr. unfold read_key. rewrite first_is_app by done.
  destruct (first_is 34 w); [done|].
  destruct (index_of_char 58 w) as [n|] eqn:E.
  - apply index_of_char_split in E as (a & b & -> & Ha & ->).
    rewrite <- app_assoc. cbn [app]. rewrite index_of_char_app by done.
    destruct (length a) as [|n] eqn:El; [done|]. rewrite <- El.
    by rewrite !take_app_length.
  - apply index_of_char_None in E. intros _.
    destruct (index_of_char 58 (w ++ rest)) as [n|] eqn:Ei; [|done].
    apply index_of_char_split in Ei as (a & b & Ei & Ha & ->).
    assert (∃ a', a = w ++ a') as [a' ->].
    { apply app_eq_inv in Ei as [(k & -> & Hk)|(k & -> & Hk)]; [|by exists k].
      destruct k as [|x k]; [exists []; by rewrite !app_nil_r|]. exfalso. apply E.
      apply elem_of_app. right. simpl in *. simplify_eq. by left. }
    destruct (length (w ++ a')) as [|n] eqn:El; [done|]. cbv zeta.
    rewrite <- El, Ei, take_app_length. rewrite <- app_assoc in Ei. apply app_inv_head in Ei.
    replace (KEY_PATTERN (w ++ a')) with false; [done|]. symmetry.
    apply not_true_iff_false. intros Hk. apply KEY_PATTERN_word in Hk.
    destruct rest as [|x rest]; [by destruct a'|]. simpl in Hr. subst x.
    destruct a' as [|x a']; [by simplify_eq/=|]. simplify_eq/=.
    apply forallb_elem with (x := 32%N) in Hk; [done|]. apply elem_of_app. right. by left.
Qed.

(** What matters of a token: everything but its place. *)
Record token_spec := mkSpec {
  ts_negated : bool; ts_key : option jstr; ts_value : jstr; ts_quoted : option bool
}.
Definition tok_matches (t : RawToken) (sp : token_spec) : Prop :=
  negated t = ts_negated sp ∧ key t = ts_key sp ∧ value t = ts_value sp ∧
  match ts_quoted sp with Some q => quoted t = q | None => True end.

(** [p] is read back as one token, whatever is around it. *)
Definition part_reads (p : jstr) (sp : token_spec) : Prop :=
  p <> [] ∧ (match p with [] => True | c :: _ => is_space c = false end) ∧
  forall pos rest, boundary rest ->
    ∃ t, next_token pos (p ++ rest) = Ok (Some t, pos + length p, rest) ∧ tok_matches t sp.

Lemma next_token_of pos (neg : bool) k body rest q v :
  match k with
  | Some k => KEY_PATTERN k = true
  | None => read_key (body ++ rest) = None ∧ (neg = false -> first_is 45 (body ++ rest) = false)
  end ->
  v <> [] \/ q = true \/ is_Some k ->
  token_value (body ++ rest) = Some (q, v, length body) ->
  let head := (if neg then [45%N] else [])
              ++ match k with Some k => k ++ [58%N] | None => [] end in
  ∃ t, next_token pos ((head ++ body) ++ rest)
       = Ok (Some t, pos + length (head ++ body), rest)
     ∧ tok_matches t (mkSpec neg k v (Some q)).
Proof.
  intros Hk Hv Hval. cbv zeta.
  set (pre := (if neg then [45%N] else []) ++ match k with Some k => k ++ [58%N] | None => [] end).
  assert (token_head ((pre ++ body) ++ rest) = (neg, k, length pre)) as Hh.
  { unfold token_head, pre. destruct k as [k|].
    - rewrite <- !app_assoc. destruct k as [|c k]; [done|].
      pose proof (KEY_PATTERN_word _ Hk) as Hw. simpl in Hw. apply andb_prop in Hw as [Hw _].
      apply is_word_not_special in Hw as (_ & _ & _ & Hm & _).
      pose proof (read_key_app (c :: k) (body ++ rest) Hk) as Hrk. cbn [app] in Hrk.
      destruct neg; cbn [app first_is].
      + rewrite N.eqb_refl. rewrite skipn_cons, drop_0, Hrk. f_equal. simpl. rewrite length_app. simpl. lia.
      + rewrite (proj2 (N.eqb_neq c 45)) by done. rewrite drop_0, Hrk. f_equal. simpl. rewrite length_app. simpl. lia.
    - destruct Hk as [Hk Hm]. rewrite app_nil_r.
      destruct neg; cbn [app first_is].
      + rewrite N.eqb_refl. rewrite skipn_cons, drop_0. by rewrite Hk.
      + rewrite Hm by done. rewrite drop_0. by rewrite Hk. }
  unfold next_token. rewrite Hh. rewrite <- app_assoc, drop_app_length, Hval.
  rewrite app_assoc, <- length_app, drop_app_length.
  destruct (negb (jeqb v []) || q || bool_decide (is_Some k)) eqn:E.
  - eexists. split; [done|]. repeat split.
  - exfalso. rewrite !orb_false_iff in E. destruct E as [[E1 E2] E3].
    apply negb_false_iff, jeqb_eq in E1. apply bool_decide_eq_false in E3.
    naive_solver.
Qed.

(** Pieces [key:value], bare or quoted. *)
Lemma part_key (neg : bool) k body q v :
  KEY_PATTERN k = true ->
  (forall rest, boundary rest -> token_value (body ++ rest) = Some (q, v, length body)) ->
  part_reads ((if neg then [45%N] else []) ++ k ++ 58%N :: body) (mkSpec neg (Some k) v (Some q)).
Proof.
  intros Hk Hb. split_and!.
  - by destruct neg, k.
  - destruct neg; [done|]. destruct k as [|c k]; [done|].
    pose proof (KEY_PATTERN_word _ Hk) as Hw. simpl in Hw |- *. apply andb_prop in Hw as [Hw _].
    by apply is_word_not_special in Hw as (? & _).
  - intros pos rest Hr.
    destruct (next_token_of pos neg (Some k) body rest q v) as (t & Ht & Hm);
      [done|by right; right|by apply Hb|].
    exists t. rewrite <- !app_assoc in Ht. rewrite <- !app_assoc. done.
Qed.

Lemma part_key_bare (neg : bool) k v :
  KEY_PATTERN k = true -> no_space v = true -> v <> [] -> first_is 34 v = false ->
  part_reads ((if neg then [45%N] else []) ++ k ++ 58%N :: v) (mkSpec neg (Some k) v (Some false)).
Proof. intros. apply part_key; [done|]. intros. by apply token_value_bare. Qed.

Lemma part_key_value (neg : bool) k v :
  KEY_PATTERN k = true -> v <> [] ->
  part_reads ((if neg then [45%N] else []) ++ k ++ 58%N :: renderValue v)
    (mkSpec neg (Some k) v None).
Proof.
  intros Hk Hv.
  assert (∃ q, forall rest, boundary rest ->
    token_value (renderValue v ++ rest) = Some (q, v, length (renderValue v))) as [q Hq].
  { unfold renderValue. destruct (needsQuotes v) eqn:E.
    - exists true. intros. apply token_value_quoted.
    - exists false. intros rest Hr.
      destruct (token_value_render v rest Hv Hr) as [q Hq]. unfold renderValue in Hq.
      rewrite E in Hq. rewrite Hq. unfold token_value in Hq.
      destruct (first_is 34 (v ++ rest)) eqn:Ef; [exfalso|].
      + rewrite first_is_app in Ef by done. apply needsQuotes_false in E as (_ & Hc & _).
        destruct v as [|c v]; [done|]. simpl in Ef. bool_to_prop.
        destruct (Hc c ltac:(by left)) as (_ & ? & _). done.
      + destruct (readBare _). by simplify_eq. }
  pose proof (part_key neg k _ q v Hk Hq) as (H1 & H2 & H3).
  split_and!; [done..|]. intros pos rest Hr.
  destruct (H3 pos rest Hr) as (t & Ht & Hm1 & Hm2 & Hm3 & _). exists t. done.
Qed.

(** Pieces of the text. *)
Definition term_stable (x : jstr) : bool :=
  negb (jeqb x []) &&
  if starts_with (js "-") x then
    let w := drop 1 x in
    negb (jeqb w []) && no_space w && negb (first_is 34 w)
    && match read_key w with None => true | Some _ => false end
  else true.

Definition stable_text (t : jstr) : bool :=
  forallb term_stable (split_char 32 t) && (MIN_TEXT_LENGTH <=? countCodePoints t).

Definition term_spec (x : jstr) (sp : token_spec) : Prop :=
  ts_key sp = None ∧ x = if ts_negated sp then 45%N :: ts_value sp else ts_value sp.

Lemma part_word (neg : bool) v :
  no_space v = true -> v <> [] -> first_is 34 v = false -> read_key v = None ->
  (neg = false -> first_is 45 v = false) ->
  part_reads ((if neg then [45%N] else []) ++ v) (mkSpec neg None v (Some false)).
Proof.
  intros Hs Hne Hq Hk Hm. split_and!.
  - by destruct neg, v.
  - destruct neg; [done|]. destruct v as [|c v]; [done|]. simpl.
    eapply no_space_elem; [done|]. by left.
  - intros pos rest Hr.
    destruct (next_token_of pos neg None v rest false v) as (t & Ht & Hx).
    + split; [by apply read_key_None_app|]. intros. rewrite first_is_app by done. by apply Hm.
    + by left.
    + by apply token_value_bare.
    + exists t. rewrite app_nil_r in Ht. done.
Qed.

Lemma part_term x :
  term_stable x = true -> ∃ sp, part_reads (renderTerm x) sp ∧ term_spec x sp.
Proof.
  unfold term_stable, renderTerm. rewrite andb_true_iff. intros [Hne Ht].
  apply negb_true_iff, jeqb_neq in Hne.
  destruct (starts_with (js "-") x) eqn:Em; cbn [negb]; rewrite ?andb_false_r, ?andb_true_r.
  - cbv zeta in Ht. rewrite !andb_true_iff in Ht. destruct Ht as [[[H1 H2] H3] H4].
    apply starts_with_spec in Em as [w ->]. change (js "-" ++ w) with (45%N :: w) in *.
    rewrite skipn_cons, drop_0 in *.
    apply negb_true_iff in H1, H3. apply jeqb_neq in H1.
    destruct (read_key w) eqn:Ek; [done|].
    exists (mkSpec true None w (Some false)). split; [|done].
    by apply (part_word true w).
  - destruct (needsQuotes x) eqn:Eq.
    + exists (mkSpec false None x (Some true)). split; [|done]. split_and!; [done..|].
      intros pos rest Hr.
      destruct (next_token_of pos false None (quote x) rest true x) as (t & H1 & H2);
        [done|by right; left|apply token_value_quoted|].
      exists t. done.
    + pose proof (needsQuotes_false x Eq) as (_ & Hc & _).
      exists (mkSpec false None x (Some false)). split; [|done].
      apply (part_word false x); try done.
      * apply forallb_elem. intros c Hin. apply Hc in Hin. by rewrite (proj1 Hin).
      * destruct x as [|c x]; [done|]. simpl. apply N.eqb_neq. apply (Hc c). by left.
      * unfold read_key. destruct (first_is 34 x); [done|].
        replace (index_of_char 58 x) with (@None nat); [done|]. symmetry.
        apply index_of_char_None. intros Hin. apply Hc in Hin. naive_solver.
      * intros _. destruct x as [|c x]; [done|]. simpl in *. by rewrite andb_true_r in Em; rewrite N.eqb_sym.
Qed.

(** ** Tokenizing joined pieces *)

Lemma tokenize_join ps sps :
  Forall2 part_reads ps sps ->
  forall fuel pos, length (join (js " ") ps) <= fuel ->
  ∃ ts, tokenize_loop fuel pos (join (js " ") ps) = Ok ts ∧ Forall2 tok_matches ts sps.
Proof.
  induction 1 as [|p sp ps sps (Hne & Hh & Hr) Hps IH]; intros fuel pos Hf.
  { exists []. by destruct fuel. }
  set (rest := match ps with [] => [] | _ => 32%N :: join (js " ") ps end).
  assert (join (js " ") (p :: ps) = p ++ rest) as Ej.
  { destruct ps; simpl; [by rewrite app_nil_r|done]. }
  rewrite Ej in Hf |- *. rewrite length_app in Hf.
  assert (boundary rest) as Hb by (by subst rest; destruct ps).
  destruct (Hr pos rest Hb) as (t & Ht & Hm).
  assert (skipSpace (p ++ rest) = (0, p ++ rest)) as Hsk.
  { unfold skipSpace. destruct p as [|c p]; [done|]. simpl. by rewrite Hh. }
  destruct fuel as [|fuel]; [destruct p; [done|simpl in Hf; lia]|].
  cbn [tokenize_loop]. rewrite Hsk. rewrite Nat.add_0_r.
  destruct (p ++ rest) as [|c0 s0] eqn:Ep; [by destruct p|]. rewrite <- Ep in *. rewrite Ht.
  cbn [mbind result_bind].
  assert (length rest <= fuel) as Hfr.
  { destruct p; [done|]. simpl in Hf. lia. }
  subst rest. destruct ps as [|p' ps].
  - exists [t]. inversion Hps; subst. split; [by destruct fuel|by apply Forall2_cons].
  - set (j := join (js " ") (p' :: ps)) in *.
    assert (tokenize_loop fuel (pos + length p) (32%N :: j)
            = tokenize_loop fuel (S (pos + length p)) j) as ->.
    { assert (∃ n s1, skipSpace j = (n, s1) ∧ skipSpace (32%N :: j) = (S n, s1)) as (n & s1 & E1 & E2).
      { unfold skipSpace. simpl. destruct (span is_space j). simpl. by eexists _, _. }
      destruct fuel as [|fuel]; cbn [tokenize_loop]; rewrite E1, E2; [done|].
      replace (pos + length p + S n) with (S (pos + length p) + n) by lia. done. }
    destruct (IH fuel (S (pos + length p))) as (ts & Hts & Hmts); [simpl in Hfr; lia|].
    fold j in Hts. rewrite Hts. exists (t :: ts). split; [done|by constructor].
Qed.
