(* ===== verification/QueryTheorems.v ===== *)
(** * The query language: invariant and round trip

    [wf_ast]: the ASTs the parser produces.  The theorems: [parseQuery_wf],
    [serialize_parse], [parse_serialize_stable], the offsets of tokens and errors,
    and the semantics of the AST edits. *)

From stdpp Require Import base list sets option strings numbers.
From Stdlib Require Import ZArith Lia.
From S2P Require Import Prelude JsString QueryAst Calendar Tokenizer QueryParse QuerySerialize.
From S2P Require Import QueryRoundTrip.
Open Scope Z_scope.

Section theorems.
Context (date_parse : jstr -> option Z) (resolve_tz : jstr -> option jstr).

(** What [checkTemporalBound] tests, as one boolean. *)
Definition temporal_ok (s : jstr) : bool :=
  (DATE_ONLY s || DATE_TIME s) && real_date s
  && match date_parse s with Some _ => true | None => false end.

Lemma checkTemporalBound_spec s t :
  if temporal_ok s then checkTemporalBound date_parse s t = Ok s
  else is_ok (checkTemporalBound date_parse s t) = false.
Proof.
  unfold temporal_ok, checkTemporalBound, at_token.
  destruct (DATE_ONLY s), (DATE_TIME s), (real_date s), (date_parse s); reflexivity.
Qed.

Lemma checkTemporalBound_ok s t :
  temporal_ok s = true -> checkTemporalBound date_parse s t = Ok s.
Proof. intros H. pose proof (checkTemporalBound_spec s t) as Hs. by rewrite H in Hs. Qed.

Lemma checkTemporalBound_inv s t s' :
  checkTemporalBound date_parse s t = Ok s' -> s' = s ∧ temporal_ok s = true.
Proof.
  intros H. pose proof (checkTemporalBound_spec s t) as Hs. rewrite H in Hs.
  destruct (temporal_ok s); by simplify_eq/=.
Qed.

Definition min_ok (k : QueryKey) (z : Z) : bool :=
  match MIN_RANGE_VALUE k with Some m => m <=? z | None => true end.

(** A lower bound as the separator finds it: no [..] before its end. *)
Definition separable (a : jstr) : Prop :=
  index_of RANGE_SEPARATOR (a ++ js "..") = Some (length a).

(** A date bound as a bare token holds it. *)
Definition bound_ok (s : jstr) : Prop :=
  temporal_ok s = true ∧ no_space s = true ∧ 64%N ∉ s.

(** The nodes the parser produces. *)
Definition wf_filter (f : QueryFilter) : Prop :=
  match f with
  | EqualityFilter k _ vs =>
    isRangeKey k = false ∧ vs <> [] ∧ NoDup vs ∧ Forall (fun v => v <> []) vs ∧
    match ENUMERATED_VALUES k with Some a => Forall (fun v => v ∈ a) vs | None => True end
  | NumericRangeFilter k _ a b =>
    isNumericRangeKey k = true ∧ a <= b ∧ is_safe_integer a = true
    ∧ is_safe_integer b = true ∧ min_ok k a = true
  | TemporalRangeFilter k _ a b tz =>
    isTemporalRangeKey k = true ∧ bound_ok a ∧ bound_ok b ∧ separable a ∧
    match tz with
    | None => instant_gt date_parse a b = false
    | Some z => DATE_ONLY a = true ∧ DATE_ONLY b = true ∧ jstr_gt a b = false
                ∧ canonicalTimeZone resolve_tz z = Some z
    end
  end.

(** The equality nodes, by key and operator. *)
Definition buckets (fs : list QueryFilter) : list (QueryKey * EqualityOp) :=
  omap (fun f => match f with EqualityFilter k op _ => Some (k, op) | _ => None end) fs.

Definition wf_ast (ast : QueryAst) : Prop :=
  Forall wf_filter (filters ast) ∧ NoDup (buckets (filters ast)).

Definition text_ok (t : option jstr) : bool :=
  match t with Some t => stable_text t | None => true end.

(** ** Parsing one rendered filter *)

Lemma digits_no_dot s : forallb is_digit s = true -> 46%N ∉ s ∧ 64%N ∉ s.
Proof.
  rewrite forallb_elem. intros H. split; intros Hin; apply H in Hin; done.
Qed.

Lemma js_of_Z_shape z :
  ∃ sgn n, js_of_Z z = sgn ++ js_of_N n ∧
    ((sgn = [] ∧ 0 <= z ∧ n = Z.to_N z) \/ (sgn = [45%N] ∧ z < 0 ∧ n = Z.abs_N z)).
Proof.
  unfold js_of_Z. destruct (z <? 0) eqn:E; bool_to_prop.
  - exists [45%N], (Z.abs_N z). naive_solver.
  - exists [], (Z.to_N z). naive_solver.
Qed.

Lemma all1_digits n : all1 is_digit (js_of_N n) = true.
Proof. apply all1_forallb. split; [apply js_of_N_nonempty|apply js_of_N_digits]. Qed.

Lemma read_integer_print z : read_integer (js_of_Z z) = Some z.
Proof.
  destruct (js_of_Z_shape z) as (sgn & n & -> & [(-> & H & ->)|(-> & H & ->)]).
  - cbn [app]. unfold read_integer.
    pose proof (js_of_N_digits (Z.to_N z)) as Hd. pose proof (all1_digits (Z.to_N z)) as Ha.
    pose proof (num_of_js_of_N (Z.to_N z)) as Hn. rewrite Z2N.id in Hn by done.
    destruct (js_of_N (Z.to_N z)) as [|c r]; [done|].
    simpl in Hd. apply andb_prop in Hd as [Hc _]. apply is_digit_cases in Hc.
    repeat destruct Hc as [->|Hc]; try subst c; by rewrite Ha, Hn.
  - cbn [app read_integer]. rewrite all1_digits, num_of_js_of_N. f_equal. lia.
Qed.

Lemma js_of_Z_chars z c : c ∈ js_of_Z z -> is_digit c = true \/ c = 45%N.
Proof.
  destruct (js_of_Z_shape z) as (sgn & n & -> & Hs).
  rewrite elem_of_app. intros [Hc|Hc].
  - right. destruct Hs as [(-> & _)|(-> & _)]; set_solver.
  - left. pose proof (js_of_N_digits n) as Hd. rewrite forallb_elem in Hd. auto.
Qed.

Lemma parseNumericBound_print z t :
  is_safe_integer z = true -> parseNumericBound (js_of_Z z) t = Ok z.
Proof. intros H. unfold parseNumericBound. by rewrite read_integer_print, H. Qed.

(** ** Separators *)

Lemma starts_with_app_true p s b : starts_with p s = true -> starts_with p (s ++ b) = true.
Proof. rewrite !starts_with_spec. intros [r ->]. exists (r ++ b). by rewrite app_assoc. Qed.

Lemma starts_with_app_false p s b :
  (length p <= length s)%nat -> starts_with p (s ++ b) = starts_with p s.
Proof.
  revert s. induction p as [|x p IH]; intros [|y s] Hl; simpl in *; try done; [lia|].
  by rewrite IH by lia.
Qed.

Lemma index_of_separable p a b :
  index_of p (a ++ p ++ b) = Some (length a) <-> index_of p (a ++ p) = Some (length a).
Proof.
  induction a as [|c a IH].
  - cbn [app length]. assert (forall s, starts_with p s = true -> index_of p s = Some 0%nat) as H0.
    { intros s Hs. destruct s; cbn [index_of]; by rewrite Hs. }
    rewrite !H0; [done| |apply starts_with_app].
    apply starts_with_spec. exists []. by rewrite app_nil_r.
  - cbn [app index_of length].
    assert (starts_with p (c :: a ++ p ++ b) = starts_with p (c :: a ++ p)) as ->.
    { change (c :: a ++ p ++ b) with ((c :: a) ++ p ++ b). rewrite app_assoc.
      apply starts_with_app_false. simpl. rewrite length_app. lia. }
    destruct (starts_with p (c :: a ++ p)); [done|].
    destruct (index_of p (a ++ p ++ b)), (index_of p (a ++ p)); simpl in *;
      split; intros; simplify_eq; try done; f_equal; f_equal; naive_solver.
Qed.

Lemma separable_no_dot a : 46%N ∉ a -> separable a.
Proof.
  unfold separable. change RANGE_SEPARATOR with [46%N; 46%N]. change (js "..") with [46%N; 46%N].
  induction a as [|c a IH]; [done|].
  rewrite not_elem_of_cons. intros [Hc Ha]. cbn [app index_of starts_with length].
  rewrite (proj2 (N.eqb_neq 46 c)) by done. simpl. by rewrite IH.
Qed.

Lemma includes_dots a b : includes RANGE_SEPARATOR (a ++ js ".." ++ b) = true.
Proof.
  unfold includes. destruct (index_of _ _) eqn:E; [done|]. exfalso. revert E.
  induction a as [|c a IH]; cbn [app index_of]; [done|].
  destruct (starts_with _ _); [done|]. destruct (index_of _ (a ++ _)); [done|]. auto.
Qed.

Lemma toRangeFilter_split k t a b :
  value t = a ++ js ".." ++ b -> a <> [] -> b <> [] -> separable a ->
  toRangeFilter date_parse resolve_tz k t =
  if isNumericRangeKey k then toNumericRange k a b t
  else if isTemporalRangeKey k then toTemporalRange date_parse resolve_tz k a b t
  else at_token t (js "This key does not support ranges: '" ++ key_name k ++ js "'").
Proof.
  intros Hv Ha Hb Hd. unfold toRangeFilter. rewrite Hv.
  unfold separable in Hd. change (js "..") with RANGE_SEPARATOR in *.
  rewrite (proj2 (index_of_separable _ a b) Hd).
  rewrite take_app_length.
  replace (drop (length a + 2) (a ++ RANGE_SEPARATOR ++ b)) with b.
  2:{ rewrite <- drop_drop, drop_app_length. done. }
  by rewrite (proj2 (jeqb_neq a []) Ha), (proj2 (jeqb_neq b []) Hb).
Qed.
(** ** Tokens of a filter, parsed *)

Definition run := parse_tokens date_parse resolve_tz.
Definition push (st : parse_state) (f : QueryFilter) : parse_state :=
  mkState (ps_filters st ++ [f]) (ps_terms st) (ps_first st).

Lemma run_app st ts us : run st (ts ++ us) = (st' ← run st ts; run st' us).
Proof.
  unfold run. revert st. induction ts as [|t ts IH]; intros st; cbn [app parse_tokens].
  - done.
  - destruct (parse_token _ _ st t); [|done]. cbn [mbind result_bind]. apply IH.
Qed.

Definition sign (neg : bool) : jstr := if neg then [45%N] else [].
Definition eq_op (neg : bool) : EqualityOp := if neg then op_not_eq else op_eq.

Lemma parse_equality_token st t neg k v :
  tok_matches t (mkSpec neg (Some (key_name k)) v None) ->
  isRangeKey k = false -> v <> [] ->
  match ENUMERATED_VALUES k with Some a => v ∈ a | None => True end ->
  parse_token date_parse resolve_tz st t =
  Ok (mkState (add_equality k (eq_op neg) v (ps_filters st)) (ps_terms st) (ps_first st)).
Proof.
  intros (Hn & Hk & Hv & _) Hr Hne He. cbn in Hn, Hk, Hv.
  unfold parse_token. rewrite Hk, isQueryKey_name, Hr, andb_false_r. cbn [andb].
  rewrite Hv, (proj2 (jeqb_neq v []) Hne).
  unfold checkEnumeratedValue. rewrite Hv, Hn.
  destruct (ENUMERATED_VALUES k); [|by destruct neg].
  rewrite (proj2 (mem_elem v l) He). by destruct neg.
Qed.

Lemma add_equality_bucket k op v fs vs :
  (k, op) ∉ buckets fs ->
  add_equality k op v fs = fs ++ [EqualityFilter k op [v]] ∧
  add_equality k op v (fs ++ [EqualityFilter k op vs])
  = fs ++ [EqualityFilter k op (if mem v vs then vs else vs ++ [v])].
Proof.
  induction fs as [|f fs IH]; intros Hb.
  - simpl. split; [done|]. by rewrite bool_decide_true.
  - destruct f as [k' op' vs'| |]; cbn [add_equality app is_bucket].
    + change (buckets (EqualityFilter k' op' vs' :: fs)) with ((k', op') :: buckets fs) in Hb.
      apply not_elem_of_cons in Hb as [Hne Hb]. destruct (IH Hb) as [-> ->].
      rewrite bool_decide_false by naive_solver. done.
    + by destruct (IH Hb) as [-> ->].
    + by destruct (IH Hb) as [-> ->].
Qed.

Lemma run_values neg k fs terms first vs : 
  (k, eq_op neg) ∉ buckets fs -> isRangeKey k = false ->
  forall ts done_,
  Forall2 (fun t v => tok_matches t (mkSpec neg (Some (key_name k)) v None)) ts vs ->
  NoDup (done_ ++ vs) -> Forall (fun v => v <> []) vs ->
  match ENUMERATED_VALUES k with Some a => Forall (fun v => v ∈ a) vs | None => True end ->
  run (mkState (fs ++ [EqualityFilter k (eq_op neg) done_]) terms first) ts
  = Ok (mkState (fs ++ [EqualityFilter k (eq_op neg) (done_ ++ vs)]) terms first).
Proof.
  intros Hb Hr ts done_ Hts. revert done_.
  induction Hts as [|t v ts vs Ht Hts IH]; intros dn Hnd Hne He.
  - by rewrite app_nil_r.
  - unfold run. cbn [parse_tokens].
    apply Forall_cons_1 in Hne as [Hv Hne].
    rewrite (parse_equality_token _ _ _ _ _ Ht Hr Hv).
    2:{ destruct (ENUMERATED_VALUES k); [|done]. by apply Forall_cons_1 in He as [? _]. }
    cbn [mbind result_bind ps_filters ps_terms ps_first].
    rewrite (proj2 (add_equality_bucket k _ v fs dn Hb)).
    assert (mem v dn = false) as ->.
    { apply mem_false. intros Hin. apply list.NoDup_app in Hnd as (_ & Hd & _).
      apply (Hd _ Hin). by left. }
    rewrite (app_assoc dn [v] vs : dn ++ v :: vs = _). apply IH; [|done|].
    + by rewrite <- app_assoc.
    + destruct (ENUMERATED_VALUES k); [|done]. by apply Forall_cons_1 in He as [_ ?].
Qed.
(** The token of a rendered range, before its bounds are read. *)
Lemma parse_range_token st t neg k a b :
  tok_matches t (mkSpec neg (Some (key_name k)) (a ++ js ".." ++ b) (Some false)) ->
  isRangeKey k = true ->
  parse_token date_parse resolve_tz st t
  = (f ← toRangeFilter date_parse resolve_tz k t; Ok (push st f)).
Proof.
  intros (Hn & Hk & Hv & Hq) Hr. cbn in Hn, Hk, Hv, Hq.
  unfold parse_token. rewrite Hk, isQueryKey_name, Hr, Hv, Hq, includes_dots. done.
Qed.

Definition range_neg (neg : bool) : RangeOp := if neg then op_not_range else op_range.

Lemma js_of_Z_separable z : separable (js_of_Z z).
Proof.
  apply separable_no_dot. intros Hc. by apply js_of_Z_chars in Hc as [?|?].
Qed.

Lemma parse_numeric_token st t neg k a b :
  tok_matches t (mkSpec neg (Some (key_name k)) (js_of_Z a ++ js ".." ++ js_of_Z b) (Some false)) ->
  wf_filter (NumericRangeFilter k (range_neg neg) a b) ->
  parse_token date_parse resolve_tz st t
  = Ok (push st (NumericRangeFilter k (range_neg neg) a b)).
Proof.
  intros Ht (Hk & Hle & Ha & Hb & Hm).
  assert (isRangeKey k = true) as Hr by (unfold isRangeKey; by rewrite Hk).
  rewrite (parse_range_token _ _ _ _ _ _ Ht Hr). destruct Ht as (Hn & _ & Hv & _).
  cbn in Hn, Hv.
  rewrite (toRangeFilter_split k t _ _ Hv), Hk;
    [|apply js_of_Z_nonempty..|apply js_of_Z_separable].
  unfold toNumericRange. rewrite !parseNumericBound_print by done.
  cbn [mbind result_bind]. rewrite (proj2 (Z.ltb_ge b a)) by done.
  unfold min_ok in Hm. unfold range_op. rewrite Hn.
  destruct (MIN_RANGE_VALUE k) as [m|]; [|by destruct neg].
  apply Z.leb_le in Hm. rewrite (proj2 (Z.ltb_ge a m)) by done. by destruct neg.
Qed.

Lemma temporal_ok_head s : temporal_ok s = true -> s <> [] ∧ first_is 34 s = false.
Proof.
  unfold temporal_ok. rewrite !andb_true_iff, orb_true_iff. intros [[Hs _] _].
  assert (∃ r, digits_at 4 r = true ∧ (r = s \/ r = take 10 s)) as (r & Hr & Hrs).
  { unfold DATE_TIME, DATE_ONLY in Hs. rewrite !andb_true_iff in Hs.
    destruct Hs as [Hs|Hs]; destruct_all; eauto. }
  unfold digits_at in Hr. apply andb_prop in Hr as [Hl Hd].
  destruct s as [|c s]; [by destruct Hrs as [->| ->]|]. split; [done|].
  simpl. apply N.eqb_neq. intros ->.
  destruct Hrs as [->| ->]; done.
Qed.

Lemma ZONE_NAME_no_space z : ZONE_NAME z = true -> no_space z = true.
Proof.
  unfold ZONE_NAME. intros H.
  assert (forall c, zone_char c = true -> negb (is_space c) = true) as Hc.
  { intros c. unfold zone_char. rewrite !orb_true_iff, !N.eqb_eq.
    intros [[Hw| ->]| ->]; [|done..]. apply is_word_not_special in Hw as [-> _]. done. }
  rewrite <- (join_split 47 z).
  assert (Forall (fun p => no_space p = true) (split_char 47 z)) as Hf.
  { destruct (split_char 47 z) as [|[|c r] segs]; [done..|].
    rewrite !andb_true_iff in H. destruct H as [[Ha Hr] Hs]. constructor.
    - unfold no_space. simpl. rewrite Hc by (unfold zone_char, is_word, is_alnum; by rewrite Ha).
      simpl. rewrite forallb_elem in Hr |- *. auto.
    - apply Forall_forall. intros p Hp%list_elem_of_In. rewrite forallb_elem in Hs.
      apply Hs, all1_forallb in Hp as [_ Hp]. unfold no_space. rewrite forallb_elem in Hp |- *. auto. }
  clear H. induction Hf as [|p ps Hp Hf IH]; [done|].
  destruct ps as [|q ps]; [done|].
  change (join [47%N] (p :: q :: ps)) with (p ++ [47%N] ++ join [47%N] (q :: ps)).
  unfold no_space in *. rewrite !forallb_app, Hp, IH. done.
Qed.

Definition zone_part (tz : option jstr) : jstr :=
  match tz with Some z => js "@" ++ z | None => [] end.

Lemma includes_at a : 64%N ∉ a -> includes (js "@") a = false.
Proof.
  intros Ha. unfold includes. destruct (index_of (js "@") a) as [i|] eqn:Ei; [|done].
  apply index_of_Some in Ei as (r & Hr & _). exfalso. apply Ha. rewrite Hr. set_solver.
Qed.

Lemma splitTimeZone_None a b t :
  64%N ∉ a -> 64%N ∉ b -> splitTimeZone date_parse resolve_tz a b t = Ok None.
Proof.
  intros Ha Hb. unfold splitTimeZone. rewrite includes_at by done.
  by rewrite (proj2 (index_of_char_None 64 b) Hb).
Qed.

Lemma splitTimeZone_Some a b z t :
  bound_ok a -> bound_ok b -> DATE_ONLY a = true -> DATE_ONLY b = true ->
  jstr_gt a b = false -> canonicalTimeZone resolve_tz z = Some z ->
  splitTimeZone date_parse resolve_tz a (b ++ js "@" ++ z) t = Ok (Some (a, b, z)).
Proof.
  intros (Ha & _ & Ha64) (Hb & _ & Hb64) Hda Hdb Hgt Hz. unfold splitTimeZone.
  rewrite includes_at by done. change (js "@" ++ z) with (64%N :: z).
  rewrite index_of_char_app by done. cbv zeta. rewrite take_app_length.
  replace (drop (S (length b)) (b ++ 64%N :: z)) with z.
  2:{ replace (S (length b)) with (length b + 1)%nat by lia.
      by rewrite <- drop_drop, drop_app_length. }
  rewrite (proj2 (jeqb_neq b [])) by (by apply temporal_ok_head).
  rewrite Hda, Hdb, !checkTemporalBound_ok by done. cbn [mbind result_bind negb orb].
  by rewrite Hz, Hgt.
Qed.

Lemma parse_temporal_token st t neg k a b tz :
  tok_matches t (mkSpec neg (Some (key_name k)) (a ++ js ".." ++ b ++ zone_part tz) (Some false)) ->
  wf_filter (TemporalRangeFilter k (range_neg neg) a b tz) ->
  parse_token date_parse resolve_tz st t
  = Ok (push st (TemporalRangeFilter k (range_neg neg) a b tz)).
Proof.
  intros Ht (Hk & Ha & Hb & Hs & Htz).
  assert (isRangeKey k = true) as Hr by (unfold isRangeKey; by rewrite Hk, orb_true_r).
  rewrite (parse_range_token _ _ _ _ _ _ Ht Hr). destruct Ht as (Hn & _ & Hv & _).
  cbn in Hn, Hv. pose proof (temporal_ok_head _ (proj1 Ha)) as [Hna _].
  pose proof (temporal_ok_head _ (proj1 Hb)) as [Hnb _].
  rewrite (toRangeFilter_split k t _ _ Hv), Hk; [|done|by destruct b|done].
  replace (isNumericRangeKey k) with false by (by destruct k).
  unfold toTemporalRange, range_op. rewrite Hn. destruct tz as [z|]; cbn [zone_part].
  - destruct Htz as (Hda & Hdb & Hgt & Hz). rewrite splitTimeZone_Some by done. by destruct neg.
  - rewrite app_nil_r, splitTimeZone_None; [|apply Ha|apply Hb].
    destruct Ha as (Ha & _ & _), Hb as (Hb & _ & _).
    cbn [mbind result_bind]. rewrite !checkTemporalBound_ok by done.
    cbn [mbind result_bind]. rewrite Htz. by destruct neg.
Qed.
(** ** Rendered filters and text, parsed *)

(** The pieces read as tokens that take a state to another. *)
Definition pieces_run (ps : list jstr) (R : parse_state -> parse_state -> Prop) : Prop :=
  ∃ sps, Forall2 part_reads ps sps ∧
    forall ts st, Forall2 tok_matches ts sps -> ∀ st', R st st' -> run st ts = Ok st'.

Definition adds (fs : list QueryFilter) (st st' : parse_state) : Prop :=
  NoDup (buckets (ps_filters st ++ fs)) ∧
  st' = mkState (ps_filters st ++ fs) (ps_terms st) (ps_first st).

Lemma buckets_app fs gs : buckets (fs ++ gs) = buckets fs ++ buckets gs.
Proof. apply omap_app. Qed.

Lemma neg_cases (op : EqualityOp) : ∃ neg, op = eq_op neg.
Proof. destruct op; [by exists false|by exists true]. Qed.
Lemma range_neg_cases (op : RangeOp) : ∃ neg, op = range_neg neg.
Proof. destruct op; [by exists false|by exists true]. Qed.

Lemma equality_pieces k op vs :
  wf_filter (EqualityFilter k op vs) ->
  pieces_run (renderFilter (EqualityFilter k op vs)) (adds [EqualityFilter k op vs]).
Proof.
  intros (Hr & Hne & Hnd & Hvs & He). destruct (neg_cases op) as [neg ->].
  exists (map (fun v => mkSpec neg (Some (key_name k)) v None) vs). split.
  - cbn [renderFilter]. clear -Hvs. induction Hvs as [|v vs Hv Hvs IH]; [constructor|].
    cbn [map]. constructor; [|exact IH].
    replace (if isNegated _ then _ else _) with (sign neg) by (by destruct neg).
    by apply part_key_value; [apply key_name_pattern|].
  - intros ts st Hts st' [Hb ->]. rewrite Forall2_fmap_r in Hts.
    destruct vs as [|v vs]; [done|]. apply Forall2_cons_inv_r in Hts as (t & ts' & Ht & Hts & ->).
    assert ((k, eq_op neg) ∉ buckets (ps_filters st)) as Hfr.
    { rewrite buckets_app in Hb. apply list.NoDup_app in Hb as (_ & Hd & _).
      intros Hin. apply (Hd _ Hin). by left. }
    apply Forall_cons_1 in Hvs as [Hv Hvs].
    unfold run. cbn [parse_tokens]. rewrite (parse_equality_token _ _ _ _ _ Ht Hr Hv).
    2:{ destruct (ENUMERATED_VALUES k); [|done]. by apply Forall_cons_1 in He as [? _]. }
    cbn [mbind result_bind]. rewrite (proj1 (add_equality_bucket k _ v _ [] Hfr)).
    apply (run_values neg k _ _ _ vs Hfr Hr ts' [v] Hts Hnd Hvs).
    destruct (ENUMERATED_VALUES k); [|done]. by apply Forall_cons_1 in He as [_ ?].
Qed.

Lemma bare_piece neg k body f :
  no_space body = true -> body <> [] -> first_is 34 body = false ->
  (forall st t, tok_matches t (mkSpec neg (Some (key_name k)) body (Some false)) ->
     parse_token date_parse resolve_tz st t = Ok (push st f)) ->
  pieces_run [sign neg ++ key_name k ++ js ":" ++ body] (adds [f]).
Proof.
  intros Hs Hne Hq Hp. exists [mkSpec neg (Some (key_name k)) body (Some false)]. split.
  - constructor; [|constructor]. by apply part_key_bare; [apply key_name_pattern|..].
  - intros ts st Hts st' [_ ->].
    apply Forall2_cons_inv_r in Hts as (t & ts' & Ht & Hts & ->).
    apply Forall2_nil_inv_r in Hts as ->.
    unfold run. cbn [parse_tokens]. by rewrite (Hp _ _ Ht).
Qed.

Lemma no_space_app a b : no_space (a ++ b) = no_space a && no_space b.
Proof. apply forallb_app. Qed.

Lemma js_of_Z_no_space z : no_space (js_of_Z z) = true.
Proof.
  apply forallb_elem. intros c Hc. apply js_of_Z_chars in Hc as [Hc| ->]; [|done].
  apply is_digit_cases in Hc. repeat destruct Hc as [->|Hc]; by try subst c.
Qed.

Lemma js_of_Z_first z : first_is 34 (js_of_Z z) = false.
Proof.
  pose proof (js_of_Z_nonempty z). pose proof (js_of_Z_chars z) as Hc.
  destruct (js_of_Z z) as [|c r]; [done|]. simpl. apply N.eqb_neq. intros ->.
  by destruct (Hc 34%N ltac:(by left)).
Qed.

Lemma filter_pieces f : wf_filter f -> pieces_run (renderFilter f) (adds [f]).
Proof.
  destruct f as [k op vs|k op a b|k op a b tz]; intros Hwf.
  - by apply equality_pieces.
  - destruct (range_neg_cases op) as [neg ->]. cbn [renderFilter].
    replace (if isNegated _ then _ else _) with (sign neg) by (by destruct neg).
    apply bare_piece.
    + by rewrite !no_space_app, !js_of_Z_no_space.
    + pose proof (js_of_Z_nonempty a). by destruct (js_of_Z a).
    + rewrite first_is_app; [apply js_of_Z_first|apply js_of_Z_nonempty].
    + intros st t Ht. by apply parse_numeric_token.
  - destruct (range_neg_cases op) as [neg ->]. cbn [renderFilter].
    replace (if isNegated _ then _ else _) with (sign neg) by (by destruct neg).
    pose proof Hwf as (_ & Ha & Hb & _ & Htz).
    destruct (temporal_ok_head _ (proj1 Ha)) as [Hna Hqa].
    apply bare_piece.
    + rewrite !no_space_app, (proj1 (proj2 Ha)), (proj1 (proj2 Hb)).
      destruct tz as [z|]; [|done]. rewrite no_space_app. destruct Htz as (_ & _ & _ & Hz).
      unfold canonicalTimeZone in Hz. destruct (ZONE_NAME z) eqn:Ez; [|done].
      by rewrite (ZONE_NAME_no_space z Ez).
    + by destruct a.
    + by rewrite first_is_app.
    + intros st t Ht. by apply parse_temporal_token.
Qed.

Lemma filters_pieces fs :
  Forall wf_filter fs -> pieces_run (flat_map renderFilter fs) (adds fs).
Proof.
  induction 1 as [|f fs Hf Hfs (sps2 & Hp2 & Hr2)].
  - exists []. split; [constructor|]. intros ts st Hts%Forall2_nil_inv_r st' [_ ->].
    subst ts. rewrite app_nil_r. by destruct st.
  - destruct (filter_pieces f Hf) as (sps1 & Hp1 & Hr1).
    exists (sps1 ++ sps2). split; [by apply Forall2_app|].
    intros ts st Hts st' [Hb ->].
    apply Forall2_app_inv_r in Hts as (ts1 & ts2 & Ht1 & Ht2 & ->).
    assert (adds [f] st (push st f)) as Ha1.
    { split; [|done]. rewrite (app_assoc _ [f] fs : _ ++ f :: fs = _) in Hb.
      rewrite buckets_app in Hb. by apply list.NoDup_app in Hb as (? & _). }
    rewrite run_app, (Hr1 _ _ Ht1 _ Ha1). cbn [mbind result_bind].
    apply (Hr2 _ _ Ht2). unfold adds, push. cbn [ps_filters ps_terms ps_first].
    by rewrite <- app_assoc.
Qed.

Lemma run_terms xs sps ts :
  Forall2 term_spec xs sps -> Forall2 tok_matches ts sps ->
  forall fs terms first, ∃ first',
    run (mkState fs terms first) ts = Ok (mkState fs (terms ++ xs) first').
Proof.
  intros Hx Ht. revert ts Ht. induction Hx as [|x sp xs sps (Hk & Hv) Hx IH];
    intros ts Ht fs terms first.
  - apply Forall2_nil_inv_r in Ht as ->. rewrite app_nil_r. by exists first.
  - apply Forall2_cons_inv_r in Ht as (t & ts' & (Hn & Hkt & Hvt & _) & Ht & ->).
    unfold run. cbn [parse_tokens parse_token]. unfold parse_token. rewrite Hkt, Hk, Hn, Hvt.
    cbn [mbind result_bind ps_filters ps_terms ps_first]. rewrite <- Hv.
    destruct (IH ts' Ht fs (terms ++ [x])
      (match first with Some i => Some i | None => Some (start t) end)) as [first' IH'].
    exists first'. rewrite <- app_assoc in IH'. exact IH'.
Qed.

Lemma text_pieces t :
  stable_text t = true ->
  ∃ sps, Forall2 part_reads (renderText t) sps ∧ Forall2 term_spec (split_char 32 t) sps.
Proof.
  unfold stable_text, renderText. intros [Ht _]%andb_prop.
  revert Ht. generalize (split_char 32 t). intros xs.
  induction xs as [|x xs IH]; cbn [forallb].
  - by exists [].
  - intros [Hx Hxs]%andb_prop. destruct (IH Hxs) as (sps & H1 & H2).
    destruct (part_term x Hx) as (sp & H3 & H4). exists (sp :: sps).
    cbn [List.filter]. unfold term_stable in Hx. apply andb_prop in Hx as [-> _].
    split; by constructor.
Qed.
(** ** The parser's invariant *)

Definition token_ok (t : RawToken) : Prop := quoted t = false -> no_space (value t) = true.

Lemma next_token_ok pos s t p r :
  next_token pos s = Ok (Some t, p, r) -> token_ok t.
Proof.
  unfold next_token. destruct (token_head s) as [[neg k] n1].
  destruct (token_value (drop n1 s)) as [[[q v] n2]|] eqn:Ev; [|done].
  destruct (_ || _ || _); [|done]. intros [= <- _ _] Hq. cbn in *. subst q.
  unfold token_value in Ev. destruct (first_is 34 _).
  - by destruct (readQuoted _) as [[??]|]; simplify_eq/=.
  - unfold readBare in Ev. simplify_eq. apply span_forall.
Qed.

Lemma tokenize_loop_ok f pos s ts :
  tokenize_loop f pos s = Ok ts -> Forall token_ok ts.
Proof.
  revert pos s ts. induction f as [|f IH]; intros pos s ts; cbn [tokenize_loop];
    destruct (skipSpace s) as [n [|c s1]]; try (intros; by simplify_eq).
  destruct (next_token (pos + n) (c :: s1)) as [[[t p] r]|] eqn:En; [|done].
  cbn [mbind result_bind]. destruct (tokenize_loop f p r) as [ts'|] eqn:Et; [|done].
  apply IH in Et. intros [= <-]. destruct t as [t|]; [|done].
  constructor; [by eapply next_token_ok|done].
Qed.

Lemma parseNumericBound_inv s t z :
  parseNumericBound s t = Ok z -> is_safe_integer z = true.
Proof.
  unfold parseNumericBound, at_token. destruct (read_integer s); [|done].
  destruct (is_safe_integer z0) eqn:E; intros; by simplify_eq.
Qed.

Lemma toNumericRange_wf k a b t f :
  isNumericRangeKey k = true -> toNumericRange k a b t = Ok f ->
  wf_filter f ∧ isRangeFilter f = true.
Proof.
  intros Hk H. unfold toNumericRange in H.
  inv_bind H. inv_bind H. apply parseNumericBound_inv in Hb, Hb0.
  destruct (a1 <? a0) eqn:Hlt; [done|]. apply Z.ltb_ge in Hlt.
  assert (∃ op, f = NumericRangeFilter k op a0 a1 ∧ min_ok k a0 = true) as (op & -> & Hm).
  { unfold min_ok. destruct (MIN_RANGE_VALUE k) as [m|]; [|by simplify_eq; eauto].
    destruct (a0 <? m) eqn:Em; [done|]. apply Z.ltb_ge in Em. simplify_eq.
    eexists. split; [done|]. by apply Z.leb_le. }
  done.
Qed.

Lemma toSingleValueRangeFilter_wf k t f :
  isNumericRangeKey k = true -> toSingleValueRangeFilter k t = Ok f ->
  wf_filter f ∧ isRangeFilter f = true.
Proof.
  intros Hk H. unfold toSingleValueRangeFilter in H.
  inv_bind H. apply parseNumericBound_inv in Hb.
  assert (∃ op, f = NumericRangeFilter k op a a ∧ min_ok k a = true) as (op & -> & Hm).
  { unfold min_ok. destruct (MIN_RANGE_VALUE k) as [m|]; [|by simplify_eq; eauto].
    destruct (a <? m) eqn:Em; [done|]. apply Z.ltb_ge in Em. simplify_eq.
    eexists. split; [done|]. by apply Z.leb_le. }
  done.
Qed.

Lemma includes_at_false a : includes (js "@") a = false -> 64%N ∉ a.
Proof.
  unfold includes. intros H Hin. destruct (index_of (js "@") a) eqn:E; [done|]. revert E Hin.
  induction a as [|c a IH]; cbn [index_of]; [set_solver|].
  change (js "@") with [64%N] in *. cbn [starts_with].
  destruct (64 =? c)%N eqn:Ec; [done|]. simpl. bool_to_prop.
  destruct (index_of [64%N] a) eqn:Ei; [done|].
  intros _ [?|?]%elem_of_cons; [done|]. by apply IH.
Qed.

Definition wf_filters (fs : list QueryFilter) : Prop :=
  Forall wf_filter fs ∧ NoDup (buckets fs).

Lemma buckets_range f : isRangeFilter f = true -> buckets [f] = [].
Proof. by destruct f. Qed.

Lemma wf_push_range fs f :
  wf_filters fs -> wf_filter f -> isRangeFilter f = true -> wf_filters (fs ++ [f]).
Proof.
  intros [H1 H2] Hf Hr. split; [by apply Forall_app; split; [|constructor]|].
  by rewrite buckets_app, buckets_range, app_nil_r.
Qed.

Lemma buckets_add k op v fs :
  buckets (add_equality k op v fs) =
  if bool_decide ((k, op) ∈ buckets fs) then buckets fs else buckets fs ++ [(k, op)].
Proof.
  induction fs as [|f fs IH].
  - rewrite bool_decide_false; [done|apply not_elem_of_nil].
  - destruct f as [k' op' vs'| |]; cbn [add_equality is_bucket].
    + change (buckets (EqualityFilter k' op' vs' :: fs)) with ((k', op') :: buckets fs).
      destruct (bool_decide (k' = k ∧ op' = op)) eqn:Hk; bool_to_prop.
      * destruct Hk as [-> ->]. rewrite bool_decide_true by (by left). done.
      * change (buckets (EqualityFilter k' op' vs' :: add_equality k op v fs))
          with ((k', op') :: buckets (add_equality k op v fs)).
        rewrite IH. rewrite (bool_decide_ext ((k, op) ∈ (k', op') :: buckets fs)
          ((k, op) ∈ buckets fs)) by (rewrite elem_of_cons; naive_solver).
        by case_bool_decide.
    + exact IH.
    + exact IH.
Qed.

Lemma wf_add_equality k op v fs :
  isRangeKey k = false -> v <> [] ->
  match ENUMERATED_VALUES k with Some a => v ∈ a | None => True end ->
  wf_filters fs -> wf_filters (add_equality k op v fs).
Proof.
  intros Hr Hne He [H1 H2]. split.
  - clear H2. induction H1 as [|f fs Hf Hfs IH].
    + constructor; [|done]. split_and!; [done..| |by repeat constructor|].
      * apply NoDup_singleton.
      * destruct (ENUMERATED_VALUES k); [|done]. by repeat constructor.
    + destruct f as [k' op' vs'| |]; cbn [add_equality]; try by constructor.
      destruct (is_bucket k op _) eqn:Eb; [|by constructor].
      apply bool_decide_eq_true in Eb as [-> ->].
      constructor; [|done]. destruct (mem v vs') eqn:Em; [done|]. apply mem_false in Em.
      destruct Hf as (_ & ? & Hnd & Hvs & Hen). split_and!; [done|by destruct vs'| | |].
      * apply list.NoDup_app. split; [done|]. split; [set_solver|apply NoDup_singleton].
      * by apply Forall_app; split; [|constructor].
      * destruct (ENUMERATED_VALUES k); [|done]. by apply Forall_app; split; [|constructor].
  - rewrite buckets_add. case_bool_decide as Hin; [done|].
    apply list.NoDup_app. split; [done|]. split; [set_solver|apply NoDup_singleton].
Qed.
Hypothesis resolve_canonical : forall n z,
  resolve_tz n = Some z -> ZONE_NAME z = true ∧ resolve_tz z = Some z.

Lemma canonical_idem n z :
  canonicalTimeZone resolve_tz n = Some z -> canonicalTimeZone resolve_tz z = Some z.
Proof.
  unfold canonicalTimeZone. destruct (ZONE_NAME n); [|done].
  intros H. apply resolve_canonical in H as [-> H]. done.
Qed.

Lemma toTemporalRange_wf k a b t f :
  isTemporalRangeKey k = true -> no_space a = true -> no_space b = true -> separable a ->
  toTemporalRange date_parse resolve_tz k a b t = Ok f ->
  wf_filter f ∧ isRangeFilter f = true.
Proof.
  intros Hk Ha Hb Hs H. unfold toTemporalRange in H. inv_bind H.
  unfold splitTimeZone in Hb0. destruct (includes (js "@") a) eqn:Ea; [done|].
  apply includes_at_false in Ea.
  destruct (index_of_char 64 b) as [mark|] eqn:Em; [|simplify_eq].
  - apply index_of_char_split in Em as (h & z & -> & Hh & ->). cbv zeta in Hb0.
    rewrite take_app_length in Hb0. rewrite no_space_app in Hb. apply andb_prop in Hb as [Hb _].
    destruct (jeqb h []); [done|].
    destruct (DATE_ONLY a) eqn:Hda; [|done]. destruct (DATE_ONLY h) eqn:Hdh; [|done].
    cbn [negb orb] in Hb0. inv_bind Hb0. inv_bind Hb0.
    apply checkTemporalBound_inv in Hb1 as [_ Hta]. apply checkTemporalBound_inv in Hb2 as [_ Hth].
    destruct (canonicalTimeZone resolve_tz _) as [tz|] eqn:Hz; [|done].
    destruct (jstr_gt a h) eqn:Hgt; [done|]. simplify_eq. apply canonical_idem in Hz. done.
  - apply index_of_char_None in Em. inv_bind H. inv_bind H.
    apply checkTemporalBound_inv in Hb0 as [-> Hta]. apply checkTemporalBound_inv in Hb1 as [-> Htb].
    destruct (instant_gt date_parse a b) eqn:Hgt; [done|]. simplify_eq. done.
Qed.

Lemma index_of_separates s i :
  index_of RANGE_SEPARATOR s = Some i ->
  ∃ a b, s = a ++ js ".." ++ b ∧ i = length a ∧ separable a.
Proof.
  intros H. pose proof H as H'. apply index_of_Some in H as (r & Hr & Hl).
  exists (take i s), r. split; [done|]. split; [rewrite length_take; lia|].
  unfold separable. change (js "..") with RANGE_SEPARATOR. apply (index_of_separable _ _ r).
  rewrite <- Hr, H'. rewrite length_take. f_equal. lia.
Qed.

Lemma toRangeFilter_wf k t f :
  no_space (value t) = true -> includes RANGE_SEPARATOR (value t) = true ->
  toRangeFilter date_parse resolve_tz k t = Ok f -> wf_filter f ∧ isRangeFilter f = true.
Proof.
  intros Hn Hi. unfold toRangeFilter, includes in *.
  destruct (index_of RANGE_SEPARATOR (value t)) as [i|] eqn:E; [|done].
  apply index_of_separates in E as (a & b & Hv & -> & Hs). cbv zeta.
  rewrite Hv in Hn |- *. rewrite take_app_length.
  replace (drop (length a + 2) (a ++ js ".." ++ b)) with b
    by (by rewrite <- drop_drop, drop_app_length).
  rewrite !no_space_app, !andb_true_iff in Hn. destruct Hn as (Ha & _ & Hb).
  destruct (jeqb a [] || jeqb b []); [done|].
  destruct (isNumericRangeKey k) eqn:Ek; [by apply toNumericRange_wf|].
  destruct (isTemporalRangeKey k) eqn:Et; [|done]. by apply toTemporalRange_wf.
Qed.

Lemma parse_token_wf st t st' :
  token_ok t -> wf_filters (ps_filters st) ->
  parse_token date_parse resolve_tz st t = Ok st' -> wf_filters (ps_filters st').
Proof.
  intros Ht Hw H. unfold parse_token in H.
  destruct (key t) as [kn|]; [|by simplify_eq].
  destruct (isQueryKey kn) as [k|]; [|done].
  destruct (negb (quoted t) && isRangeKey k && includes RANGE_SEPARATOR (value t)) eqn:E.
  - rewrite !andb_true_iff, negb_true_iff in E. destruct E as [[Hq _] Hi].
    inv_bind H. simplify_eq. cbn. apply toRangeFilter_wf in Hb as [??]; [|by apply Ht|done].
    by apply wf_push_range.
  - destruct (jeqb (value t) []) eqn:Ev; [done|]. apply jeqb_neq in Ev.
    destruct (isRangeKey k) eqn:Er.
    + destruct (acceptsSingleValue k) eqn:Es; [|done].
      inv_bind H. simplify_eq. cbn.
      apply toSingleValueRangeFilter_wf in Hb as [??]; [by apply wf_push_range|by destruct k].
    + inv_bind H. simplify_eq. cbn. apply wf_add_equality; try done.
      unfold checkEnumeratedValue in Hb. destruct (ENUMERATED_VALUES k); [|done].
      destruct (mem (value t) l) eqn:Em; [|done]. by apply mem_elem.
Qed.

Lemma parse_tokens_wf ts : forall st st',
  Forall token_ok ts -> wf_filters (ps_filters st) ->
  parse_tokens date_parse resolve_tz st ts = Ok st' -> wf_filters (ps_filters st').
Proof.
  induction ts as [|t ts IH]; intros st st' Ht Hw H; cbn [parse_tokens] in H; [by simplify_eq|].
  apply Forall_cons_1 in Ht as [Ht Hts]. inv_bind H.
  eapply IH; [done| |exact H]. by eapply parse_token_wf.
Qed.

Lemma finish_filters st ast :
  finish st = Ok ast -> filters ast = ps_filters st ∧
    forall t, text ast = Some t -> (MIN_TEXT_LENGTH <= countCodePoints t)%nat.
Proof.
  unfold finish. destruct (ps_terms st); intros; simplify_eq/=; [done|].
  destruct (_ <? _)%nat eqn:E in H; [done|]. bool_to_prop. simplify_eq/=. split; [done|]. by intros ? [= <-].
Qed.

Lemma parseQuery_wf_ast input ast :
  parseQuery date_parse resolve_tz input = Ok ast -> wf_ast ast.
Proof.
  intros H. unfold parseQuery in H. inv_bind H. inv_bind H.
  apply finish_filters in H as [Hf _]. unfold wf_ast. rewrite Hf.
  eapply (parse_tokens_wf a (mkState [] [] None)); [|split; constructor|exact Hb0].
  unfold tokenize in Hb. by eapply tokenize_loop_ok.
Qed.
End theorems.

Lemma add_to_first_eq k v fs : add_to_first k v fs = add_equality k op_eq v fs.
Proof.
  induction fs as [|f fs IH]; [done|]. cbn [add_to_first]. rewrite IH.
  destruct f as [k' [|] vs| |]; cbn [is_eq_on add_equality is_bucket]; [|by rewrite bool_decide_false by naive_solver|done..].
  by rewrite (bool_decide_ext (k' = k ∧ op_eq = op_eq) (k' = k)) by naive_solver.
Qed.

Section round_trip.
Context (date_parse : jstr -> option Z) (resolve_tz : jstr -> option jstr).

Lemma finish_text fs t first :
  stable_text t = true ->
  finish (mkState fs (split_char 32 t) first) = Ok (mkAst fs (Some t)).
Proof.
  intros Ht. unfold finish. cbn [ps_terms ps_filters ps_first].
  destruct (split_char_cons 32 t) as (p & ps & E). rewrite E, <- E.
  change (js " ") with [32%N]. rewrite join_split.
  unfold stable_text in Ht. apply andb_prop in Ht as [_ Ht]. apply Nat.leb_le in Ht.
  by rewrite (proj2 (Nat.ltb_ge _ _) Ht).
Qed.

Lemma round_trip ast :
  wf_ast date_parse resolve_tz ast -> text_ok (text ast) = true ->
  parseQuery date_parse resolve_tz (serializeQuery ast) = Ok ast.
Proof.
  destruct ast as [fs txt]. intros [Hwf Hb] Ht. cbn [filters text] in *.
  destruct (filters_pieces _ _ fs Hwf) as (sps & Hps & Hrun).
  assert (∃ tsps, Forall2 part_reads (match txt with Some t => renderText t | None => [] end) tsps ∧
    forall ts, Forall2 tok_matches ts tsps -> forall st, ps_terms st = [] ->
    ∃ st', run date_parse resolve_tz st ts = Ok st' ∧
      finish st' = Ok (mkAst (ps_filters st) txt)) as (tsps & Htps & Htrun).
  { destruct txt as [t|]; cbn [text_ok] in Ht.
    - destruct (text_pieces t Ht) as (tsps & H1 & H2). exists tsps. split; [done|].
      intros ts Hts [fs' terms first] Hst. cbn in Hst. subst terms.
      destruct (run_terms date_parse resolve_tz _ _ _ H2 Hts fs' [] first) as [first' Hr].
      eexists. split; [exact Hr|]. by apply finish_text.
    - exists []. split; [constructor|]. intros ts Hts%Forall2_nil_inv_r st Hst. subst ts.
      exists st. split; [done|]. unfold finish. by rewrite Hst. }
  pose proof (Forall2_app Hps Htps) as Hall.
  unfold parseQuery, tokenize, serializeQuery. cbn [filters text].
  destruct (tokenize_join _ _ Hall _ 0%nat (le_n _)) as (ts & -> & Hts).
  cbn [mbind result_bind].
  apply Forall2_app_inv_r in Hts as (ts1 & ts2 & H1 & H2 & ->).
  fold (run date_parse resolve_tz (mkState [] [] None) (ts1 ++ ts2)).
  rewrite run_app, (Hrun ts1 _ H1 (mkState fs [] None)) by done.
  cbn [mbind result_bind].
  destruct (Htrun ts2 H2 (mkState fs [] None) eq_refl) as (st' & -> & Hfin). exact Hfin.
Qed.

Lemma replace_wf ast k v :
  wf_ast date_parse resolve_tz ast -> isRangeKey k = false -> v <> [] ->
  match ENUMERATED_VALUES k with Some a => v ∈ a | None => True end ->
  wf_ast date_parse resolve_tz (replaceEquality ast k v).
Proof.
  intros [Hw Hb] Hr Hne He. unfold wf_ast, replaceEquality. cbn [filters].
  assert (Forall (wf_filter date_parse resolve_tz)
    (List.filter (fun f => negb (is_eq_on k f)) (filters ast))) as Hw'.
  { clear Hb. induction Hw; simpl; [constructor|]. destruct (negb _); [by constructor|done]. }
  assert (sublist (buckets (List.filter (fun f => negb (is_eq_on k f)) (filters ast)))
    (buckets (filters ast)) ∧
    (k, op_eq) ∉ buckets (List.filter (fun f => negb (is_eq_on k f)) (filters ast))) as [Hs Hn].
  { clear Hw Hb Hw'. induction (filters ast) as [|f fs [IH1 IH2]]; [by split; [constructor|apply not_elem_of_nil]|].
    cbn [List.filter]. destruct f as [k' op vs| |]; cbn [is_eq_on negb]; [|done..].
    change (buckets (EqualityFilter k' op vs :: fs)) with ((k', op) :: buckets fs).
    destruct op; [case_bool_decide as Hk; cbn [negb]|]; cbn [negb].
    - split; [by constructor|done].
    - split; [by constructor|]. apply not_elem_of_cons. split; [congruence|done].
    - split; [by constructor|]. apply not_elem_of_cons. split; [congruence|done]. }
  split.
  - apply Forall_app. split; [done|]. repeat constructor; try done.
    + apply not_elem_of_nil.
    + destruct (ENUMERATED_VALUES k); [by repeat constructor|done].
  - rewrite buckets_app. apply list.NoDup_app. split; [|split].
    + by eapply sublist_NoDup.
    + intros x Hx Hin. change (x ∈ [(k, op_eq)]) in Hin. apply list_elem_of_singleton in Hin. by subst x.
    + apply NoDup_singleton.
Qed.
End round_trip.
