(* ===== verification/MergeNumber.v ===== *)
(** * M numbers

    [packages/domain/src/mnumber.ts]: the code of a repository, and the printed form
    [M-<code>-<number>] with its reader.  The file's own invariant is that whatever
    is printed reads back; both directions are proved. *)

From stdpp Require Import base list option strings numbers.
From Stdlib Require Import ZArith Lia.
From S2P Require Import Prelude JsString.
Open Scope Z_scope.

Definition MERGE_NUMBER_MAX : Z := 9007199254740991.

Inductive RepositoryCodeOutcome : Set :=
| code_of (code : jstr)
| no_digits
| multiple_digit_runs.

(** [s.match(/[0-9]+/g) ?? []] *)
Fixpoint digit_runs (s : jstr) : list jstr :=
  match s with
  | [] => []
  | c :: s' =>
    if is_digit c then
      match s' with
      | d :: _ =>
        if is_digit d
        then match digit_runs s' with r :: rs => (c :: r) :: rs | [] => [[c]] end
        else [c] :: digit_runs s'
      | [] => [[c]]
      end
    else digit_runs s'
  end.

Definition repositoryCodeOf (name : jstr) : RepositoryCodeOutcome :=
  match digit_runs name with
  | [] => no_digits
  | [r] => code_of r
  | _ => multiple_digit_runs
  end.

(** The two errors of [formatMergeNumber]. *)
Inductive MergeNumberError : Set :=
| code_not_digits (code : jstr)
| number_out_of_range (n : Z).

Definition formatMergeNumber (code : jstr) (n : Z) : result MergeNumberError jstr :=
  if negb (all1 is_digit code) then Err (code_not_digits code)
  else if negb (is_safe_integer n) || (n <? 1) then Err (number_out_of_range n)
  else Ok (js "M-" ++ code ++ js "-" ++ js_of_Z n).

Record ParsedMergeNumber : Set := mkParsed { pm_code : jstr; pm_number : Z }.

(** [M-<digits>-<digits>], the second without a leading zero: the two groups. *)
Definition MERGE_NUMBER_PATTERN (text : jstr) : option (jstr * jstr) :=
  if starts_with (js "M-") text then
    let rest := drop 2 text in
    match index_of_char 45 rest with
    | None => None
    | Some i =>
      let code := take i rest in
      let digits := drop (S i) rest in
      match digits with
      | c :: r =>
        if all1 is_digit code && in_range 49 57 c && forallb is_digit r
        then Some (code, digits) else None
      | [] => None
      end
    end
  else None.

Definition parseMergeNumber (text : jstr) : option ParsedMergeNumber :=
  match MERGE_NUMBER_PATTERN text with
  | None => None
  | Some (code, digits) =>
    if (16 <? length digits)%nat then None
    else
      let value := num_of_digits digits in
      if (value <? 1) || (MERGE_NUMBER_MAX <? value) then None
      else Some (mkParsed code value)
  end.

(** Why the assignment of M numbers stops. *)
Inductive MergeNumberBlockReason : Set :=
| pr_evidence_pending | negative_evidence_unavailable | partial_lookup | profile_unverified
| unsupported_merge_profile | mapping_conflict | fetch_failed | number_capacity_exceeded
| canonical_mismatch.
#[export] Instance MergeNumberBlockReason_eq_dec : EqDecision MergeNumberBlockReason.
Proof. solve_decision. Defined.

Example repo_code : repositoryCodeOf (js "smp1900") = code_of (js "1900"). Proof. reflexivity. Qed.
Example repo_code_zero : repositoryCodeOf (js "app007") = code_of (js "007"). Proof. reflexivity. Qed.
Example repo_code_two : repositoryCodeOf (js "a1b2") = multiple_digit_runs. Proof. reflexivity. Qed.
Example mnumber_ex : parseMergeNumber (js "M-1900-1450") = Some (mkParsed (js "1900") 1450).
Proof. reflexivity. Qed.
Example mnumber_zero : parseMergeNumber (js "M-1900-01") = None. Proof. reflexivity. Qed.

(** ** Lemmas *)

Lemma foldl_digits_ge s acc :
  forallb is_digit s = true -> 0 <= acc ->
  acc * 10 ^ Z.of_nat (length s) <= foldl (fun a c => 10 * a + digit_val c) acc s.
Proof.
  revert acc. induction s as [|c s IH]; intros acc Hs Ha; [simpl; lia|].
  cbn [forallb] in Hs. apply andb_prop in Hs as [Hc Hs].
  assert (0 <= digit_val c) as Hv.
  { unfold digit_val. apply is_digit_cases in Hc. lia. }
  cbn [foldl length]. specialize (IH (10 * acc + digit_val c) Hs ltac:(lia)).
  rewrite Nat2Z.inj_succ, Z.pow_succ_r by lia.
  pose proof (Z.pow_pos_nonneg 10 (Z.of_nat (length s)) ltac:(lia) ltac:(lia)). nia.
Qed.

(** A number below [10^16] prints on at most 16 digits. *)
Lemma js_of_Z_length n : 1 <= n -> n < 10 ^ 16 -> (length (js_of_Z n) <= 16)%nat.
Proof.
  intros H1 H2. pose proof (num_of_js_of_Z n ltac:(lia)) as Hn.
  rewrite js_of_Z_nonneg in Hn |- * by lia. pose proof (js_of_N_digits (Z.to_N n)) as Hd.
  destruct (js_of_N (Z.to_N n)) as [|c s] eqn:E; [simpl; lia|].
  apply js_of_N_head in E; [|lia]. cbn [forallb] in Hd. apply andb_prop in Hd as [Hc Hs].
  destruct (decide (length (c :: s) <= 16)%nat) as [|Hl]; [done|]. exfalso.
  unfold num_of_digits in Hn. cbn [foldl length] in *.
  assert (1 <= 10 * 0 + digit_val c) as Hv.
  { unfold digit_val. apply is_digit_cases in Hc. lia. }
  pose proof (foldl_digits_ge s (10 * 0 + digit_val c) Hs ltac:(lia)).
  pose proof (Z.pow_le_mono_r 10 16 (Z.of_nat (length s)) ltac:(lia) ltac:(lia)). nia.
Qed.

Lemma digits_no_char c s : is_digit c = false -> forallb is_digit s = true -> c ∉ s.
Proof. rewrite forallb_elem. intros Hc Hs Hin. apply Hs in Hin. congruence. Qed.

Lemma pattern_print code digits c r :
  digits = c :: r -> all1 is_digit code = true -> in_range 49 57 c = true ->
  forallb is_digit r = true ->
  MERGE_NUMBER_PATTERN (js "M-" ++ code ++ js "-" ++ digits) = Some (code, digits).
Proof.
  intros -> Hcode Hc Hr. unfold MERGE_NUMBER_PATTERN. rewrite starts_with_app.
  rewrite (drop_app_length' (js "M-")) by done. cbv zeta.
  change (js "-" ++ c :: r) with (45%N :: c :: r).
  pose proof Hcode as [_ Hd]%all1_forallb.
  rewrite index_of_char_app by (by apply digits_no_char).
  rewrite take_app_length.
  replace (drop (S (length code)) (code ++ 45%N :: c :: r)) with (c :: r).
  2:{ replace (S (length code)) with (length code + 1)%nat by lia.
      by rewrite <- drop_drop, drop_app_length. }
  by rewrite Hcode, Hc, Hr.
Qed.

Lemma pattern_inv text code digits :
  MERGE_NUMBER_PATTERN text = Some (code, digits) ->
  text = js "M-" ++ code ++ js "-" ++ digits ∧ all1 is_digit code = true ∧
  ∃ c r, digits = c :: r ∧ in_range 49 57 c = true ∧ forallb is_digit r = true.
Proof.
  unfold MERGE_NUMBER_PATTERN. destruct (starts_with _ text) eqn:Es; [|done].
  apply starts_with_spec in Es as [rest ->]. rewrite (drop_app_length' (js "M-")) by done.
  cbv zeta. destruct (index_of_char 45 rest) as [i|] eqn:Ei; [|done].
  apply index_of_char_split in Ei as (a & b & -> & Ha & ->).
  rewrite take_app_length.
  replace (drop (S (length a)) (a ++ 45%N :: b)) with b.
  2:{ replace (S (length a)) with (length a + 1)%nat by lia.
      by rewrite <- drop_drop, drop_app_length. }
  destruct b as [|c r]; [done|]. destruct (_ && _) eqn:E; [|done]. intros [= <- <-].
  rewrite !andb_true_iff in E. destruct E as [[? ?] ?]. split_and!; [done..|]. eauto.
Qed.

Lemma js_of_Z_pos_shape n :
  1 <= n -> ∃ c r, js_of_Z n = c :: r ∧ in_range 49 57 c = true ∧ forallb is_digit r = true.
Proof.
  intros Hn. rewrite js_of_Z_nonneg by lia. pose proof (js_of_N_digits (Z.to_N n)) as Hd.
  pose proof (js_of_N_nonempty (Z.to_N n)). destruct (js_of_N (Z.to_N n)) as [|c r] eqn:E; [done|].
  apply js_of_N_head in E; [|lia]. cbn [forallb] in Hd. apply andb_prop in Hd as [Hc Hr].
  eexists _, _. split_and!; [done| |done]. apply in_range_spec. apply is_digit_cases in Hc. lia.
Qed.

Lemma format_parse code n :
  all1 is_digit code = true -> 1 <= n <= MERGE_NUMBER_MAX ->
  parseMergeNumber (js "M-" ++ code ++ js "-" ++ js_of_Z n) = Some (mkParsed code n).
Proof.
  intros Hc Hn. destruct (js_of_Z_pos_shape n) as (c & r & E & H1 & H2); [lia|].
  unfold parseMergeNumber. rewrite (pattern_print code _ c r E Hc H1 H2).
  pose proof (js_of_Z_length n) as Hl. unfold MERGE_NUMBER_MAX in *.
  rewrite (proj2 (Nat.ltb_ge _ _)) by (apply Hl; lia). cbv zeta.
  rewrite num_of_js_of_Z by lia.
  rewrite (proj2 (Z.ltb_ge n 1)), (proj2 (Z.ltb_ge _ n)) by lia. done.
Qed.

Lemma digit_runs_cons c s :
  digit_runs (c :: s) =
  if is_digit c then
    match s with
    | d :: _ =>
      if is_digit d then match digit_runs s with r :: rs => (c :: r) :: rs | [] => [[c]] end
      else [c] :: digit_runs s
    | [] => [[c]]
    end
  else digit_runs s.
Proof. done. Qed.

Lemma digit_runs_none s : digit_runs s = [] <-> forallb (fun c => negb (is_digit c)) s = true.
Proof.
  induction s as [|c s IH]; [done|]. rewrite digit_runs_cons. cbn [forallb].
  destruct (is_digit c); [|exact IH]. cbn [negb andb].
  destruct s as [|d s]; [done|]. destruct (is_digit d); [|done].
  by destruct (digit_runs (d :: s)).
Qed.

Lemma digit_runs_one s r :
  digit_runs s = [r] ->
  ∃ a b, s = a ++ r ++ b ∧ all1 is_digit r = true ∧
    forallb (fun c => negb (is_digit c)) a = true ∧ forallb (fun c => negb (is_digit c)) b = true ∧
    (forall c s', s = c :: s' -> is_digit c = true -> a = []).
Proof.
  revert r. induction s as [|c s IH]; intros r; [done|]. rewrite digit_runs_cons.
  destruct (is_digit c) eqn:Ec.
  - destruct s as [|d s].
    + intros [= <-]. exists [], []. cbn. rewrite Ec. done.
    + destruct (is_digit d) eqn:Ed.
      * destruct (digit_runs (d :: s)) as [|r' rs] eqn:E.
        { apply digit_runs_none in E. cbn in E. by rewrite Ed in E. }
        intros [= <- ->]. destruct (IH r' eq_refl) as (a & b & Hs & Hr & _ & Hb & Ha).
        specialize (Ha d s eq_refl Ed) as ->. exists [], b.
        split_and!; [by rewrite Hs| |done|done|done].
        apply all1_forallb in Hr as [_ Hr]. cbn. by rewrite Ec.
      * intros Hx. pose proof (f_equal tail Hx) as Hn. change (digit_runs (d :: s) = []) in Hn.
        apply (f_equal (hd [])) in Hx. cbn [hd] in Hx. subst r. apply digit_runs_none in Hn. exists [], (d :: s). cbn [app].
        split_and!; [done|cbn; by rewrite Ec|done|done|done].
  - intros H. destruct (IH r H) as (a & b & -> & Hr & Ha & Hb & _).
    exists (c :: a), b. cbn [forallb app]. rewrite Ec. split_and!; try done.
    intros ? ? [= <- _]. congruence.
Qed.

Lemma digit_runs_skip a s :
  forallb (fun c => negb (is_digit c)) a = true -> digit_runs (a ++ s) = digit_runs s.
Proof.
  induction a as [|c a IH]; [done|]. cbn [forallb app]. rewrite digit_runs_cons.
  intros [Hc Ha]%andb_prop. apply negb_true_iff in Hc. rewrite Hc. auto.
Qed.

Lemma digit_runs_single r b :
  all1 is_digit r = true -> forallb (fun c => negb (is_digit c)) b = true ->
  digit_runs (r ++ b) = [r].
Proof.
  intros Hr Hb. apply all1_forallb in Hr as [Hne Hr].
  induction r as [|c r IH]; [done|]. cbn [forallb] in Hr. apply andb_prop in Hr as [Hc Hr].
  cbn [app]. rewrite digit_runs_cons, Hc. destruct r as [|d r].
  - cbn [app]. destruct b as [|x b]; [done|].
    pose proof Hb as Hb'. cbn [forallb] in Hb'. apply andb_prop in Hb' as [Hx _].
    apply negb_true_iff in Hx. rewrite Hx. f_equal. by apply digit_runs_none.
  - cbn [app]. pose proof Hr as Hr'. cbn [forallb] in Hr'. apply andb_prop in Hr' as [Hd _].
    rewrite Hd. change (d :: r ++ b) with ((d :: r) ++ b). by rewrite IH.
Qed.

Lemma format_parse_all code n :
  match formatMergeNumber code n with
  | Ok text => parseMergeNumber text = Some (mkParsed code n)
  | Err _ => all1 is_digit code = false \/ n < 1 \/ MERGE_NUMBER_MAX < n
  end.
Proof.
  unfold formatMergeNumber. destruct (all1 is_digit code) eqn:Hc; cbn [negb]; [|by left].
  destruct (is_safe_integer n) eqn:Hs; cbn [negb orb].
  - apply is_safe_integer_spec in Hs. unfold MAX_SAFE_INTEGER in Hs.
    destruct (n <? 1) eqn:Hn; bool_to_prop; [right; by left|].
    apply format_parse; [done|]. unfold MERGE_NUMBER_MAX. lia.
  - right. apply not_true_iff_false in Hs. rewrite is_safe_integer_spec in Hs.
    unfold MERGE_NUMBER_MAX, MAX_SAFE_INTEGER in *. lia.
Qed.

(** Every string that reads is the one printed for what was read. *)
Lemma parse_format text p :
  parseMergeNumber text = Some p ->
  formatMergeNumber (pm_code p) (pm_number p) = Ok text ∧ 1 <= pm_number p <= MERGE_NUMBER_MAX.
Proof.
  unfold parseMergeNumber. destruct (MERGE_NUMBER_PATTERN text) as [[code digits]|] eqn:E; [|done].
  apply pattern_inv in E as (-> & Hc & c & r & -> & Hcr & Hr).
  destruct (_ <? _)%nat; [done|]. cbv zeta. set (v := num_of_digits (c :: r)).
  destruct (_ || _) eqn:Ev; [done|]. apply orb_false_iff in Ev as [H1 H2]. bool_to_prop.
  intros [= <-]. cbn [pm_code pm_number]. split; [|done].
  unfold formatMergeNumber. rewrite Hc. cbn [negb].
  assert (is_safe_integer v = true) as ->.
  { apply is_safe_integer_spec. unfold MERGE_NUMBER_MAX, MAX_SAFE_INTEGER in *. lia. }
  rewrite (proj2 (Z.ltb_ge v 1)) by lia. cbn [negb orb]. do 3 f_equal. f_equal.
  rewrite js_of_Z_nonneg by lia. apply in_range_spec in Hcr. subst v.
  apply js_of_N_of_digits; [|lia]. cbn [forallb]. rewrite Hr, andb_true_r.
  unfold is_digit. apply in_range_spec. lia.
Qed.

(** ** Theorems *)

(** Printing and reading M numbers are inverse of each other: a text reads as a code and
    a number exactly when it is what is printed for them, so leading zeros of the code are
    kept, no two texts denote the same M number, and the number read is positive and safe;
    the printer throws exactly when the code is not digits or the number out of range. *)
Theorem mnumber_round_trip text code n :
  (parseMergeNumber text = Some (mkParsed code n) <-> formatMergeNumber code n = Ok text) ∧
  (parseMergeNumber text = Some (mkParsed code n) -> 1 <= n <= MERGE_NUMBER_MAX) ∧
  (is_ok (formatMergeNumber code n) = false <->
     all1 is_digit code = false \/ n < 1 \/ MERGE_NUMBER_MAX < n).
Proof.
  pose proof (format_parse_all code n) as Hf. split_and!.
  - split; [by intros [H _]%parse_format|]. intros E. by rewrite E in Hf.
  - by intros [_ H]%parse_format.
  - destruct (formatMergeNumber code n) as [t|] eqn:E; cbn; [|by split].
    apply parse_format in Hf as [_ Hn]. cbn in Hn. split; [done|].
    unfold formatMergeNumber in E. destruct (all1 is_digit code); [|done].
    intros [|[|]]; [done|lia..].
Qed.

(** The code of a repository is its only run of digits: a name has code [r] exactly
    when it is [r] between two digit-free parts; anything else gets no code. *)
Theorem repositoryCodeOf_unique_run name r :
  repositoryCodeOf name = code_of r <->
  ∃ a b, name = a ++ r ++ b ∧ all1 is_digit r = true ∧
    forallb (fun c => negb (is_digit c)) a = true ∧ forallb (fun c => negb (is_digit c)) b = true.
Proof.
  unfold repositoryCodeOf. split.
  - destruct (digit_runs name) as [|r' [|]] eqn:E; intros [= ->].
    destruct (digit_runs_one _ _ E) as (a & b & H1 & H2 & H3 & H4 & _). eauto 10.
  - intros (a & b & -> & Hr & Ha & Hb). by rewrite digit_runs_skip, digit_runs_single.
Qed.
