(* ===== verification/ZonedDay.v ===== *)
(** * Zoned days

    The time-zone part of [packages/query/src/calendar.ts]: the wall clock of a zone,
    the first instant of a calendar day in it and the half-open UTC range of a range
    of days.  The zone is a parameter: what [formatToParts] answers for an instant.
    The instants are milliseconds, before [toISOString]. *)

From stdpp Require Import base list option strings numbers sorting.
From Stdlib Require Import ZArith Lia.
From S2P Require Import Prelude JsString MergeNumber Calendar.
Open Scope Z_scope.

Definition DAY_MS : Z := 86400000.
Definition SEARCH_WINDOW_MS : Z := 26 * 3600000.

Record ZonedParts : Set := mkZoned {
  zp_year : Z; zp_month : Z; zp_day : Z;
  zp_hour : Z; zp_minute : Z; zp_second : Z; zp_millisecond : Z
}.

Definition utcWall (y m d h mi s ms : Z) : Z :=
  utcWall_day y m d * DAY_MS + ((h * 60 + mi) * 60 + s) * 1000 + ms.
Definition midnight_of (y m d : Z) : Z := utcWall y m d 0 0 0 0.

(** The bisection of the [while] loop. *)
Fixpoint bisect (wall : Z -> Z) (midnight : Z) (fuel : nat) (before after : Z) : Z :=
  match fuel with
  | O => after
  | S fuel =>
    if after - before >? 1 then
      let middle := (before + after) / 2 in
      if midnight <=? wall middle then bisect wall midnight fuel before middle
      else bisect wall midnight fuel middle after
    else after
  end.

Section zone.
(** Year, month, day, hour, minute, second of an instant, as [formatToParts] of the
    zone's formatter gives them. *)
Context (format_parts : Z -> Z * Z * Z * (Z * Z * Z)).

Definition zonedParts (epochMs : Z) : ZonedParts :=
  let '(y, m, d, (h, mi, s)) := format_parts epochMs in
  mkZoned y m d (h mod 24) mi s (epochMs mod 1000).

Definition wallClock (epochMs : Z) : Z :=
  let p := zonedParts epochMs in
  utcWall (zp_year p) (zp_month p) (zp_day p) (zp_hour p) (zp_minute p) (zp_second p)
    (zp_millisecond p).

Definition zonedDate (epochMs : Z) : jstr :=
  let p := zonedParts epochMs in render_date (zp_year p) (zp_month p) (zp_day p).
Definition todayIn (nowMs : Z) : jstr := zonedDate nowMs.

Definition day_candidates (midnight : Z) : list Z :=
  map (fun probe => midnight - (wallClock probe - probe))
    [midnight - DAY_MS; midnight; midnight + DAY_MS].

Definition exact_candidates (midnight : Z) : list Z :=
  merge_sort Z.le (List.filter (fun at_ => wallClock at_ =? midnight)
                     (remove_dups (day_candidates midnight))).

(** Enough for the window: [2 * SEARCH_WINDOW_MS <= 2 ^ 28]. *)
Definition bisect_fuel : nat := 28.

Definition first_instant (midnight : Z) : Z :=
  match exact_candidates midnight with
  | earliest :: _ => earliest
  | [] => bisect wallClock midnight bisect_fuel (midnight - SEARCH_WINDOW_MS) (midnight + SEARCH_WINDOW_MS)
  end.

Definition startOfZonedDay (date : jstr) : result jstr Z :=
  '(y, m, d) ← requireDate date; Ok (first_instant (midnight_of y m d)).

Definition calendarRangeToUtc (from to : jstr) : result jstr (Z * Z) :=
  gte ← startOfZonedDay from;
  next ← addDays to 1;
  lt ← startOfZonedDay next;
  Ok (gte, lt).

(** ** The first instant *)

Lemma bisect_spec midnight fuel : forall before after,
  wallClock before < midnight -> midnight <= wallClock after -> before < after ->
  after - before <= 2 ^ Z.of_nat fuel ->
  let r := bisect wallClock midnight fuel before after in
  midnight <= wallClock r ∧ wallClock (r - 1) < midnight ∧ before < r <= after.
Proof.
  induction fuel as [|fuel IH]; intros before after Hb Ha Hlt Hf; cbn [bisect].
  - change (2 ^ Z.of_nat 0) with 1 in Hf. replace (after - 1) with before by lia.
    cbv zeta. lia.
  - rewrite Nat2Z.inj_succ, Z.pow_succ_r in Hf by lia.
    destruct (after - before >? 1) eqn:E; [|].
    2:{ apply Z.gtb_ltb, Z.ltb_ge in E || (rewrite Z.gtb_ltb in E; apply Z.ltb_ge in E).
        replace (after - 1) with before by lia. cbv zeta. lia. }
    rewrite Z.gtb_ltb in E. apply Z.ltb_lt in E. cbv zeta.
    pose proof (Z.div_mod (before + after) 2 ltac:(lia)) as Hd.
    pose proof (Z.mod_pos_bound (before + after) 2 ltac:(lia)) as Hm.
    set (mid := (before + after) / 2) in *.
    destruct (midnight <=? wallClock mid) eqn:Em; bool_to_prop.
    + destruct (IH before mid) as (?&?&?); [lia..|]. split_and!; try done; lia.
    + destruct (IH mid after) as (?&?&?); [lia..|]. split_and!; try done; lia.
Qed.

Lemma exact_candidates_spec midnight at_ rest :
  exact_candidates midnight = at_ :: rest ->
  wallClock at_ = midnight ∧
  forall c, c ∈ day_candidates midnight -> wallClock c = midnight -> at_ <= c.
Proof.
  unfold exact_candidates. set (l := List.filter _ _). intros H.
  pose proof (merge_sort_Permutation Z.le l) as Hp. rewrite H in Hp.
  pose proof (StronglySorted_merge_sort Z.le l) as Hs. rewrite H in Hs.
  apply StronglySorted_inv in Hs as [_ Hall].
  assert (forall c, In c l <-> c ∈ day_candidates midnight ∧ wallClock c = midnight) as Hl.
  { intros c. unfold l. rewrite filter_In, <- list_elem_of_In, elem_of_remove_dups, Z.eqb_eq. done. }
  split.
  - apply Hl. eapply Permutation_in; [exact Hp|]. by left.
  - intros c Hc Hw. assert (In c (at_ :: rest)) as Hin.
    { eapply Permutation_in; [symmetry; exact Hp|]. by apply Hl. }
    destruct Hin as [->|Hin]; [lia|]. rewrite Forall_forall in Hall.
    apply Hall. first [exact Hin|by apply list_elem_of_In].
Qed.

(** The wall clock is never further from UTC than the search window. *)
Hypothesis offset_bound : forall t, Z.abs (wallClock t - t) < SEARCH_WINDOW_MS.

Lemma first_instant_spec midnight :
  let r := first_instant midnight in
  midnight <= wallClock r ∧
  (wallClock r = midnight ∧
     (forall c, c ∈ day_candidates midnight -> wallClock c = midnight -> r <= c)
   \/ wallClock (r - 1) < midnight).
Proof.
  unfold first_instant. destruct (exact_candidates midnight) as [|a rest] eqn:E; cbv zeta.
  - destruct (bisect_spec midnight bisect_fuel (midnight - SEARCH_WINDOW_MS)
      (midnight + SEARCH_WINDOW_MS)) as (H1 & H2 & _).
    + pose proof (offset_bound (midnight - SEARCH_WINDOW_MS)). lia.
    + pose proof (offset_bound (midnight + SEARCH_WINDOW_MS)). lia.
    + unfold SEARCH_WINDOW_MS. lia.
    + unfold SEARCH_WINDOW_MS, bisect_fuel. lia.
    + split; [done|by right].
  - apply exact_candidates_spec in E as [H1 H2]. split; [lia|by left].
Qed.

Lemma first_instant_monotone midnight :
  (forall s t, s < t -> wallClock s < wallClock t) ->
  forall t, first_instant midnight <= t <-> midnight <= wallClock t.
Proof.
  intros Hm t. pose proof (first_instant_spec midnight) as [H1 H2]. cbv zeta in *.
  set (r := first_instant midnight) in *. split.
  - intros Ht. destruct (decide (r = t)) as [<-|]; [done|]. pose proof (Hm r t ltac:(lia)). lia.
  - intros Ht. destruct (Z.lt_ge_cases t r) as [Hlt|]; [|lia]. exfalso.
    destruct H2 as [[H2 _]|H2].
    + pose proof (Hm t r Hlt). lia.
    + destruct (decide (t = r - 1)) as [->|]; [lia|]. pose proof (Hm t (r - 1) ltac:(lia)). lia.
Qed.
End zone.

Definition midnight_date (date : jstr) : Z :=
  match splitDate date with Some (y, m, d) => midnight_of y m d | None => 0 end.

Lemma requireDate_split date p : requireDate date = Ok p -> splitDate date = Some p.
Proof.
  unfold requireDate. destruct (splitDate date); [|done]. destruct (isCalendarDate date); [|done].
  by intros [= ->].
Qed.

(** ** A fixed-offset zone, for the witnesses *)

Definition offset_parts (offset : Z) (t : Z) : Z * Z * Z * (Z * Z * Z) :=
  let w := t + offset in
  let r := w mod DAY_MS in
  (civil_from_days (w / DAY_MS), (r / 3600000, (r mod 3600000) / 60000, (r mod 60000) / 1000)).

Lemma offset_wall offset t : (offset mod 1000 = 0) -> wallClock (offset_parts offset) t = t + offset.
Proof.
  intros Ho. unfold wallClock, zonedParts, offset_parts. cbv zeta. set (w := t + offset).
  assert (t mod 1000 = w mod 1000) as ->.
  { subst w. rewrite Z.add_mod, Ho, Z.add_0_r, Z.mod_mod by lia. done. }
  pose proof (days_from_civil_from_days (w / DAY_MS)) as Hc.
  destruct (civil_from_days (w / DAY_MS)) as [[y m] d]. destruct Hc as (Hc & Hmo & _).
  cbn [zp_year zp_month zp_day zp_hour zp_minute zp_second zp_millisecond].
  unfold utcWall, utcWall_day. rewrite make_day_civil, Hc by done.
  unfold DAY_MS in *. Z.to_euclidean_division_equations; lia.
Qed.

Definition kst_parts := offset_parts 32400000.
Lemma kst_bound t : Z.abs (wallClock kst_parts t - t) < SEARCH_WINDOW_MS.
Proof. unfold kst_parts. rewrite offset_wall by done. unfold SEARCH_WINDOW_MS. lia. Qed.
Lemma kst_mono s t : s < t -> wallClock kst_parts s < wallClock kst_parts t.
Proof. unfold kst_parts. rewrite !offset_wall by done. lia. Qed.

(** ** Printed dates read back *)

Lemma num_of_zeros n s : num_of_digits (replicate n 48%N ++ s) = num_of_digits s.
Proof. unfold num_of_digits. rewrite foldl_app. f_equal. induction n; [done|exact IHn]. Qed.

Lemma digits_length_bound n w :
  0 <= n -> n < 10 ^ Z.of_nat w -> (0 < w)%nat -> (length (js_of_Z n) <= w)%nat.
Proof.
  intros H0 Hn Hw. pose proof (num_of_js_of_Z n H0) as Hv.
  rewrite js_of_Z_nonneg in Hv |- * by lia. pose proof (js_of_N_digits (Z.to_N n)) as Hd.
  destruct (decide (n = 0)) as [->|Hnz]; [simpl; lia|].
  destruct (js_of_N (Z.to_N n)) as [|c s] eqn:E; [simpl; lia|].
  apply js_of_N_head in E; [|lia]. cbn [forallb] in Hd. apply andb_prop in Hd as [Hc Hs].
  destruct (decide (length (c :: s) <= w)%nat) as [|Hl]; [done|]. exfalso.
  unfold num_of_digits in Hv. cbn [foldl length] in *.
  assert (1 <= 10 * 0 + digit_val c) as Hv1.
  { unfold digit_val. apply is_digit_cases in Hc. lia. }
  pose proof (foldl_digits_ge s (10 * 0 + digit_val c) Hs ltac:(lia)).
  pose proof (Z.pow_le_mono_r 10 (Z.of_nat w) (Z.of_nat (length s)) ltac:(lia) ltac:(lia)). nia.
Qed.

Lemma pad_spec n w :
  0 <= n -> n < 10 ^ Z.of_nat w -> (0 < w)%nat ->
  length (pad n w) = w ∧ forallb is_digit (pad n w) = true ∧ num_of_digits (pad n w) = n.
Proof.
  intros H0 Hn Hw. pose proof (digits_length_bound n w H0 Hn Hw). unfold pad. cbv zeta.
  rewrite length_app, length_replicate, forallb_app, num_of_zeros, num_of_js_of_Z by done.
  split_and!; [lia| |done]. rewrite js_of_Z_nonneg, js_of_N_digits, andb_true_r by done.
  apply forallb_elem. intros c Hc. by apply elem_of_replicate in Hc as [-> _].
Qed.

Lemma DATE_ONLY_chars y1 y2 y3 y4 m1 m2 d1 d2 :
  forallb is_digit ([y1; y2; y3; y4] ++ [m1; m2] ++ [d1; d2]) = true ->
  DATE_ONLY [y1; y2; y3; y4; 45; m1; m2; 45; d1; d2]%N = true.
Proof.
  cbn [app forallb]. rewrite !andb_true_iff. intros (H1 & H2 & H3 & H4 & H5 & H6 & H7 & H8 & _).
  unfold DATE_ONLY, digits_at, slice. cbn [take drop length Nat.sub Nat.eqb forallb andb].
  rewrite H1, H2, H3, H4, H5, H6, H7, H8. reflexivity.
Qed.

Lemma splitDate_render y m d :
  0 <= y <= 9999 -> 0 <= m <= 99 -> 0 <= d <= 99 ->
  splitDate (render_date y m d) = Some (y, m, d).
Proof.
  intros Hy Hm Hd. unfold render_date.
  destruct (pad_spec y 4) as (Ly & Dy & Ny); [lia..|].
  destruct (pad_spec m 2) as (Lm & Dm & Nm); [lia..|].
  destruct (pad_spec d 2) as (Ld & Dd & Nd); [lia..|].
  destruct (pad y 4) as [|y1 [|y2 [|y3 [|y4 [|]]]]]; try done.
  destruct (pad m 2) as [|m1 [|m2 [|]]]; try done.
  destruct (pad d 2) as [|d1 [|d2 [|]]]; try done.
  unfold splitDate. set (s := _ ++ _).
  change s with [y1; y2; y3; y4; 45; m1; m2; 45; d1; d2]%N.
  rewrite DATE_ONLY_chars by (by rewrite (forallb_app _ [y1; y2; y3; y4]), forallb_app, Dy, Dm, Dd).
  do 2 f_equal; [f_equal|].
  - exact Ny.
  - exact Nm.
  - exact Nd.
Qed.

(** ** Theorems *)

(** The first instant of a zoned day reads midnight or later on the wall clock, and
    either it is the earliest candidate that reads exactly midnight or the millisecond
    before it still reads the day before: the search never stops early or late, on
    days without midnight included. *)
Theorem startOfZonedDay_first fp date r :
  (forall t, Z.abs (wallClock fp t - t) < SEARCH_WINDOW_MS) ->
  startOfZonedDay fp date = Ok r ->
  midnight_date date <= wallClock fp r ∧
  ((wallClock fp r = midnight_date date ∧
    (forall c, c ∈ day_candidates fp (midnight_date date) ->
       wallClock fp c = midnight_date date -> r <= c))
   \/ wallClock fp (r - 1) < midnight_date date).
Proof.
  intros Ho H. unfold startOfZonedDay in H. inv_bind H. destruct a as [[y m] d].
  apply requireDate_split in Hb. unfold midnight_date. rewrite Hb. injection H as <-.
  apply (first_instant_spec fp Ho).
Qed.

(** In a zone whose clock is never set back, a calendar range is exactly the days it
    names: an instant is in the UTC range if and only if its wall clock is between the
    first midnight of [from] and the midnight after [to]. *)
Theorem calendarRange_exact fp from to lo hi :
  (forall t, Z.abs (wallClock fp t - t) < SEARCH_WINDOW_MS) ->
  (forall s t, s < t -> wallClock fp s < wallClock fp t) ->
  calendarRangeToUtc fp from to = Ok (lo, hi) ->
  ∃ next, addDays to 1 = Ok next ∧
    forall t, lo <= t < hi <-> midnight_date from <= wallClock fp t < midnight_date next.
Proof.
  intros Ho Hm H. unfold calendarRangeToUtc in H. inv_bind H. inv_bind H. inv_bind H.
  injection H as -> ->. exists a0. split; [done|]. intros t.
  unfold startOfZonedDay in Hb, Hb1. inv_bind Hb. inv_bind Hb1.
  match goal with p : Z * Z * Z, q : Z * Z * Z |- _ => destruct p as [[y m] d], q as [[y' m'] d'] end. apply requireDate_split in Hb2, Hb3.
  unfold midnight_date. rewrite Hb2, Hb3. injection Hb as <-. injection Hb1 as <-.
  rewrite <- (first_instant_monotone fp Ho _ Hm t).
  pose proof (first_instant_monotone fp Ho (midnight_of y' m' d') Hm t) as H2.
  split; intros [H3 H4]; split; try done; apply Z.nle_gt; [rewrite <- H2|rewrite H2]; lia.
Qed.
Lemma startOfZonedDay_first_witness :
  midnight_date (js "2026-09-27") <= wallClock kst_parts 1790434800000 ∧
  ((wallClock kst_parts 1790434800000 = midnight_date (js "2026-09-27") ∧
    (forall c, c ∈ day_candidates kst_parts (midnight_date (js "2026-09-27")) ->
       wallClock kst_parts c = midnight_date (js "2026-09-27") -> 1790434800000 <= c))
   \/ wallClock kst_parts (1790434800000 - 1) < midnight_date (js "2026-09-27")).
Proof.
  apply (startOfZonedDay_first kst_parts (js "2026-09-27") 1790434800000);
    [exact kst_bound|vm_compute; reflexivity].
Defined.
Lemma calendarRange_exact_witness :
  ∃ next, addDays (js "2026-09-27") 1 = Ok next ∧
    forall t, 1790434800000 <= t < 1790521200000 <->
      midnight_date (js "2026-09-27") <= wallClock kst_parts t < midnight_date next.
Proof.
  apply (calendarRange_exact kst_parts (js "2026-09-27") (js "2026-09-27") 1790434800000 1790521200000);
    [exact kst_bound|exact kst_mono|vm_compute; reflexivity].
Defined.

(** [addDays] counts days: the date it prints lies exactly [n] days after the one it
    reads, as long as the result has a four-digit year. *)
Theorem addDays_counts date n y m d :
  requireDate date = Ok (y, m, d) ->
  let '(y', m', d') := civil_from_days (utcWall_day y m d + n) in
  0 <= y' <= 9999 ->
  ∃ out, addDays date n = Ok out ∧ splitDate out = Some (y', m', d') ∧
    utcWall_day y' m' d' = utcWall_day y m d + n.
Proof.
  intros H. pose proof (days_from_civil_from_days (utcWall_day y m d + n)) as Hc.
  destruct (civil_from_days _) as [[y' m'] d'] eqn:E. destruct Hc as (Hc & Hm & Hd). intros Hy.
  exists (render_date y' m' d'). split_and!.
  - unfold addDays. rewrite H. cbn [mbind result_bind]. by rewrite E.
  - apply splitDate_render; lia.
  - unfold utcWall_day at 1. by rewrite make_day_civil.
Qed.
Lemma addDays_counts_witness :
  ∃ out, addDays (js "2024-02-28") 2 = Ok out ∧ splitDate out = Some (2024, 3, 1) ∧
    utcWall_day 2024 3 1 = utcWall_day 2024 2 28 + 2.
Proof.
  pose proof (addDays_counts (js "2024-02-28") 2 2024 2 28 ltac:(vm_compute; reflexivity)) as H.
  change (civil_from_days (utcWall_day 2024 2 28 + 2)) with (2024, 3, 1) in H.
  apply H. lia.
Defined.
