(* ===== verification/QueryClaims.v ===== *)
(** * Theorems of the query language

    The contract of [packages/query/src]: what the parser produces, the round trip
    of [serialize.ts], the offsets of errors and the meaning of the AST edits; and
    the queries on which the promised round trip fails. *)

From stdpp Require Import base list sets option strings numbers.
From Stdlib Require Import ZArith Lia.
From S2P Require Import Prelude JsString QueryAst Calendar Tokenizer QueryParse QuerySerialize.
From S2P Require Import QueryRoundTrip QueryTheorems ZonedDay.
Open Scope Z_scope.

(** Concrete parameters for the witnesses: UTC dates, and a database of two zones. *)
Definition day_parse (s : jstr) : option Z :=
  match splitDate s with
  | Some (y, m, d) => Some (utcWall_day y m d * 86400000)
  | None => None
  end.
Definition two_zones (z : jstr) : option jstr :=
  if jeqb (ascii_lower z) (js "asia/seoul") then Some (js "Asia/Seoul")
  else if jeqb (ascii_lower z) (js "utc") then Some (js "UTC") else None.

Lemma two_zones_canonical n z :
  two_zones n = Some z -> ZONE_NAME z = true ∧ two_zones z = Some z.
Proof.
  unfold two_zones. intros H. destruct (jeqb (ascii_lower n) (js "asia/seoul")); [|
    destruct (jeqb (ascii_lower n) (js "utc")); [|done]]; simplify_eq; done.
Qed.

Definition sample_query : jstr :=
  js "author:kim -label:" ++ [34%N] ++ js "wip x" ++ [34%N]
  ++ js " author:lee merged:2026-09-27..2026-09-28@asia/seoul fix -login mnum:3".
Definition sample_ast : QueryAst :=
  mkAst [EqualityFilter author op_eq [js "kim"; js "lee"];
         EqualityFilter label op_not_eq [js "wip x"];
         TemporalRangeFilter merged op_range (js "2026-09-27") (js "2026-09-28")
           (Some (js "Asia/Seoul"));
         NumericRangeFilter mnum op_range 3 3] (Some (js "fix -login")).
Lemma sample_parse : parseQuery day_parse two_zones sample_query = Ok sample_ast.
Proof. vm_compute. reflexivity. Qed.
Lemma sample_wf : wf_ast day_parse two_zones sample_ast.
Proof. exact (parseQuery_wf_ast day_parse two_zones two_zones_canonical _ _ sample_parse). Qed.

(** ** Round trip *)

(** The string written for a query denotes that query. *)
Definition reads_back (date_parse : jstr -> option Z) (resolve_tz : jstr -> option jstr)
    (ast : QueryAst) : Prop :=
  parseQuery date_parse resolve_tz (serializeQuery ast) = Ok ast.
(** What a runtime answers for a time zone is a name it answers unchanged. *)
Definition canonical_zones (resolve_tz : jstr -> option jstr) : Prop :=
  forall n z, resolve_tz n = Some z -> ZONE_NAME z = true ∧ resolve_tz z = Some z.

(** [C1] Serializing a well-formed query and parsing the string gives the query back,
    for every filter shape, when each word of its text reads back as the same word
    ([text_ok]). *)
Theorem serialize_parse date_parse resolve_tz ast :
  wf_ast date_parse resolve_tz ast -> text_ok (text ast) = true ->
  reads_back date_parse resolve_tz ast.
Proof. apply round_trip. Qed.
Lemma serialize_parse_witness : reads_back day_parse two_zones sample_ast.
Proof. apply (serialize_parse day_parse two_zones sample_ast); [apply sample_wf|reflexivity]. Defined.

(** [C11] The parser only produces well-formed queries: one node per equality key and
    sign, distinct non-empty values, closed values where the key is enumerated, ordered
    ranges of safe integers over the minimum, valid ordered dates and a canonical zone. *)
Theorem parseQuery_wf date_parse resolve_tz input ast :
  canonical_zones resolve_tz ->
  parseQuery date_parse resolve_tz input = Ok ast -> wf_ast date_parse resolve_tz ast.
Proof. intros Hc. by apply parseQuery_wf_ast. Qed.
Lemma parseQuery_wf_witness : wf_ast day_parse two_zones sample_ast.
Proof.
  exact (parseQuery_wf day_parse two_zones sample_query sample_ast two_zones_canonical sample_parse).
Defined.

(** ** Edits *)

(** Adding a value to a key ([addEquality], facets) or narrowing a key to one value
    ([replaceEquality], buckets) keeps the query a query: its string parses to the
    edited AST. *)
Theorem edits_round_trip date_parse resolve_tz ast k v :
  wf_ast date_parse resolve_tz ast -> text_ok (text ast) = true ->
  isRangeKey k = false -> v <> [] ->
  match ENUMERATED_VALUES k with Some a => v ∈ a | None => True end ->
  reads_back date_parse resolve_tz (addEquality ast k v) ∧
  reads_back date_parse resolve_tz (replaceEquality ast k v).
Proof.
  intros Hw Ht Hr Hv He. split; apply round_trip; try done.
  - destruct Hw as [H1 H2]. unfold addEquality, wf_ast. cbn [filters].
    rewrite add_to_first_eq. by apply wf_add_equality.
  - by apply replace_wf.
Qed.
Lemma edits_round_trip_witness :
  reads_back day_parse two_zones (addEquality sample_ast author (js "park")) ∧
  reads_back day_parse two_zones (replaceEquality sample_ast author (js "park")).
Proof.
  apply (edits_round_trip day_parse two_zones sample_ast author (js "park"));
    [apply sample_wf|reflexivity|reflexivity|discriminate|exact I].
Defined.

(** The integers a query's range nodes on [k] admit: every node is a clause. *)
Definition range_admits (k : QueryKey) (n : Z) (f : QueryFilter) : bool :=
  match f with
  | NumericRangeFilter k' op_range from to =>
    negb (bool_decide (k' = k)) || ((from <=? n) && (n <=? to))
  | _ => true
  end.
Definition admits (k : QueryKey) (n : Z) (ast : QueryAst) : bool :=
  forallb (range_admits k n) (filters ast).

Lemma admits_kept k n fs :
  forallb (range_admits k n) (List.filter (fun f => negb (is_range_on k f)) fs) = true.
Proof.
  apply forallb_forall. intros f [_ Hf]%filter_In. apply negb_true_iff in Hf.
  destruct f as [| k' [|] |]; try done. cbn in *. by rewrite Hf.
Qed.

Lemma admits_single k n fs f :
  List.filter (is_range_on k) fs = [f] ->
  forallb (range_admits k n) fs = range_admits k n f ∧ find_first (is_range_on k) fs = Some f.
Proof.
  induction fs as [|g fs IH]; [done|]. cbn [List.filter forallb find_first].
  destruct (is_range_on k g) eqn:E.
  - intros [= -> Hn]. split; [|done].
    rewrite <- (andb_true_r (range_admits k n f)) at 2. f_equal. clear -Hn.
    induction fs as [|h fs IH]; [done|]. cbn [List.filter forallb] in *.
    destruct (is_range_on k h) eqn:E; [done|]. rewrite (IH Hn), andb_true_r.
    destruct h as [|k' [|] |]; try done. cbn in *. by rewrite E.
  - intros H. destruct (IH H) as [-> ->]. split; [|done].
    assert (range_admits k n g = true) as ->; [|done].
    destruct g as [|k' [|] |]; try done. cbn in *. by rewrite E.
Qed.

(** With at most one range node on the key, [intersectNumericRange] narrows the
    query to the intersection: it admits exactly the integers admitted before that lie
    in the new range.  Nodes of other keys and the text are untouched. *)
Theorem intersect_is_intersection ast k from to n :
  (List.filter (is_range_on k) (filters ast) = []
   \/ ∃ op a b, List.filter (is_range_on k) (filters ast) = [NumericRangeFilter k op a b]) ->
  admits k n (intersectNumericRange ast k from to)
    = admits k n ast && ((from <=? n) && (n <=? to)) ∧
  text (intersectNumericRange ast k from to) = text ast ∧
  List.filter (fun f => negb (is_range_on k f)) (filters (intersectNumericRange ast k from to))
    = List.filter (fun f => negb (is_range_on k f)) (filters ast).
Proof.
  intros Hone. split_and!; [|done|].
  - unfold admits, intersectNumericRange. cbn [filters].
    rewrite forallb_app, admits_kept. cbn [forallb range_admits].
    rewrite bool_decide_true by done. cbn [negb orb]. rewrite andb_true_r, andb_true_l.
    destruct Hone as [H0|(op & a & b & H1)].
    + assert (find_first (is_range_on k) (filters ast) = None) as ->.
      { apply find_first_None. intros f Hf. destruct (is_range_on k f) eqn:E; [|done].
        assert (f ∈ List.filter (is_range_on k) (filters ast)) as Hin.
        { apply list_elem_of_In, filter_In. by rewrite <- list_elem_of_In. }
        rewrite H0 in Hin. by apply elem_of_nil in Hin. }
      cbn [fst snd]. replace (forallb _ _) with true; [done|]. symmetry.
      rewrite <- (admits_kept k n (filters ast)). f_equal.
      clear -H0. induction (filters ast) as [|f fs IH]; [done|]. cbn [List.filter] in *.
      destruct (is_range_on k f); [done|]. cbn [negb]. by rewrite <- IH.
    + destruct (admits_single k n _ _ H1) as [-> ->]. cbn [fst snd].
      assert (op = op_range) as ->.
      { assert (In (NumericRangeFilter k op a b) (List.filter (is_range_on k) (filters ast)))
          as [_ H]%filter_In by (rewrite H1; by left). by destruct op. }
      cbn [range_admits]. rewrite bool_decide_true by done. cbn [negb orb].
      destruct (Z.leb_spec (Z.max a from) n), (Z.leb_spec n (Z.min b to)), (Z.leb_spec a n),
        (Z.leb_spec n b), (Z.leb_spec from n), (Z.leb_spec n to); try done; lia.
  - unfold intersectNumericRange. cbn [filters]. rewrite List.filter_app.
    cbn [List.filter is_range_on]. rewrite bool_decide_true by done. cbn [negb].
    rewrite app_nil_r. clear. induction (filters ast) as [|f fs IH]; [done|].
    cbn [List.filter]. destruct (negb (is_range_on k f)) eqn:E; [|done].
    cbn [List.filter]. by rewrite E, IH.
Qed.
Lemma intersect_is_intersection_witness :
  admits changed_files 950 (intersectNumericRange
    (mkAst [NumericRangeFilter changed_files op_range 900 1000] None) changed_files 101 MAX_INT32)
  = true.
Proof.
  rewrite (proj1 (intersect_is_intersection
    (mkAst [NumericRangeFilter changed_files op_range 900 1000] None) changed_files 101
    MAX_INT32 950 ltac:(right; by eexists _, _, _))).
  reflexivity.
Defined.

(** ** Errors *)

Definition error_at (e : QueryParseError) (t : RawToken) : Prop :=
  e_code e = QUERY_SYNTAX_ERROR ∧ d_token (e_detail e) = raw t ∧
  d_offset_start (e_detail e) = start t ∧ d_offset_end (e_detail e) = end_ t.

Lemma at_token_error {A} t msg e : @at_token A t msg = Err e -> error_at e t.
Proof. unfold at_token. intros [= <-]. done. Qed.

Ltac token_error :=
  repeat match goal with
  | H : at_token _ _ = Err _ |- _ => exact (at_token_error _ _ _ H)
  | H : reversed _ = Err _ |- _ => exact (at_token_error _ _ _ H)
  | H : Ok _ = Err _ |- _ => discriminate H
  | H : Err _ = Err _ |- _ => injection H as <-; done
  | H : (_ ← ?m; _) = Err ?e |- _ =>
      let E := fresh "E" in
      destruct m eqn:E; cbn [mbind result_bind] in H; [|injection H as ->]
  | H : (if ?b then _ else _) = Err _ |- _ => destruct b
  | H : match ?x with _ => _ end = Err _ |- _ => destruct x
  end.

Lemma parseNumericBound_error s t e : parseNumericBound s t = Err e -> error_at e t.
Proof. unfold parseNumericBound. intros H. token_error. Qed.
Lemma checkTemporalBound_error dp s t e : checkTemporalBound dp s t = Err e -> error_at e t.
Proof. unfold checkTemporalBound. intros H. token_error. Qed.

Ltac range_error :=
  token_error;
  try (by eapply parseNumericBound_error); try (by eapply checkTemporalBound_error).

Lemma splitTimeZone_error dp rt a b t e : splitTimeZone dp rt a b t = Err e -> error_at e t.
Proof. unfold splitTimeZone. intros H. range_error. Qed.
Lemma toRangeFilter_error dp rt k t e : toRangeFilter dp rt k t = Err e -> error_at e t.
Proof.
  unfold toRangeFilter, toNumericRange, toTemporalRange. cbv zeta. intros H.
  range_error. by eapply splitTimeZone_error.
Qed.

Lemma parse_token_error dp rt st t e : parse_token dp rt st t = Err e -> error_at e t.
Proof.
  unfold parse_token, toSingleValueRangeFilter, checkEnumeratedValue. cbv zeta. intros H.
  range_error; by eapply toRangeFilter_error.
Qed.

Lemma parse_tokens_error dp rt ts : forall st e,
  parse_tokens dp rt st ts = Err e -> ∃ t, t ∈ ts ∧ error_at e t.
Proof.
  induction ts as [|t ts IH]; intros st e H; [done|]. cbn [parse_tokens] in H.
  destruct (parse_token dp rt st t) eqn:E; cbn [mbind result_bind] in H.
  - destruct (IH _ _ H) as (u & Hu & ?). exists u. split; [by right|done].
  - simplify_eq. exists t. split; [by left|]. by eapply parse_token_error.
Qed.

Lemma tokens_cover_elem ts : forall pos s t,
  tokens_cover pos s ts -> t ∈ ts ->
  (pos <= start t <= end_ t ∧ end_ t <= pos + length s)%nat ∧
  raw t = slice s (start t - pos) (end_ t - pos).
Proof.
  induction ts as [|u ts IH]; intros pos s t Hc Hin; [by apply elem_of_nil in Hin|].
  destruct Hc as (H1 & H2 & H3 & H4 & H5). apply elem_of_cons in Hin as [->|Hin]; [done|].
  destruct (IH _ _ _ H5 Hin) as [[? H6] H7]. rewrite length_drop in H6. split; [lia|].
  rewrite H7, slice_drop. f_equal; lia.
Qed.

(** The error names the slice of the input between its offsets. *)
Definition located (input : jstr) (d : QueryErrorDetail) : Prop :=
  (d_offset_start d <= d_offset_end d <= length input)%nat ∧
  d_token d = slice input (d_offset_start d) (d_offset_end d).

(** A rejected query names where it went wrong: the token of every syntax error is
    the slice of the input between its two offsets, which lie inside the input; the
    only other error is a text of fewer than two characters. *)
Theorem parse_error_offsets date_parse resolve_tz input e :
  parseQuery date_parse resolve_tz input = Err e ->
  (e_code e = QUERY_SYNTAX_ERROR ∧ located input (e_detail e)) \/
  (e_code e = QUERY_TOO_SHORT ∧ (countCodePoints (d_token (e_detail e)) < 2)%nat).
Proof.
  unfold parseQuery, tokenize, located. intros H.
  destruct (tokenize_loop _ 0 input) as [ts|e'] eqn:Et; cbn [mbind result_bind] in H.
  - destruct (parse_tokens _ _ _ ts) as [st|e'] eqn:Ep; cbn [mbind result_bind] in H.
    + right. unfold finish in H. destruct (ps_terms st) as [|x xs] eqn:Ex; [done|]. cbv zeta in H.
      destruct (_ <? MIN_TEXT_LENGTH)%nat eqn:E; [|done]. apply Nat.ltb_lt in E.
      injection H as <-. done.
    + injection H as ->. left. apply parse_tokens_error in Ep as (t & Hin & Hc & Ht & Hs & He).
      apply tokenize_loop_cover in Et.
      destruct (tokens_cover_elem _ _ _ _ Et Hin) as [? Hr].
      rewrite Ht, Hs, He. rewrite !Nat.sub_0_r in Hr. split_and!; [done|lia|lia|done].
  - injection H as ->. left. apply tokenize_loop_error in Et as (n & Hn & ->). cbn.
    split_and!; [done|lia|lia|].
    unfold slice. rewrite take_ge; [done|]. rewrite length_drop. lia.
Qed.
Lemma parse_error_offsets_witness :
  let e := syntaxError (js "Range bounds are reversed: '9..1'") (js "seq:9..1") 3 11 in
  parseQuery day_parse two_zones (js "ab seq:9..1") = Err e ∧
  ((e_code e = QUERY_SYNTAX_ERROR ∧ located (js "ab seq:9..1") (e_detail e)) \/
   (e_code e = QUERY_TOO_SHORT ∧ (countCodePoints (js "seq:9..1") < 2)%nat)).
Proof.
  split; [vm_compute; reflexivity|].
  exact (parse_error_offsets day_parse two_zones (js "ab seq:9..1")
    (syntaxError (js "Range bounds are reversed: '9..1'") (js "seq:9..1") 3 11)
    ltac:(vm_compute; reflexivity)).
Defined.

(** ** Queries the round trip does not preserve *)

(** A negated quotation is text; its serialization drops the quotes and reads as a
    filter. *)
Theorem negated_quotation_not_stable :
  let q := js "-" ++ [34%N] ++ js "author:kim" ++ [34%N] ++ js " bug" in
  ∃ a b, parseQuery day_parse two_zones q = Ok a ∧
    a = mkAst [] (Some (js "-author:kim bug")) ∧
    parseQuery day_parse two_zones (serializeQuery a) = Ok b ∧
    b = mkAst [EqualityFilter author op_not_eq [js "kim"]] (Some (js "bug")).
Proof.
  exists (mkAst [] (Some (js "-author:kim bug"))),
    (mkAst [EqualityFilter author op_not_eq [js "kim"]] (Some (js "bug"))).
  repeat split; vm_compute; reflexivity.
Qed.

(** Two spaces inside a quotation become one. *)
Theorem double_space_not_stable :
  let q := [34%N] ++ js "a  b" ++ [34%N] in
  ∃ a, parseQuery day_parse two_zones q = Ok a ∧ a = mkAst [] (Some (js "a  b")) ∧
    parseQuery day_parse two_zones (serializeQuery a) = Ok (mkAst [] (Some (js "a b"))).
Proof. exists (mkAst [] (Some (js "a  b"))). repeat split; vm_compute; reflexivity. Qed.

(** A second range on the key is dropped: the drill-down admits more than the query. *)
Theorem intersect_drops_second_range :
  ∃ ast, parseQuery day_parse two_zones (js "changed_files:1..10 changed_files:5..20") = Ok ast ∧
    admits changed_files 2 ast = false ∧
    admits changed_files 2 (intersectNumericRange ast changed_files 1 5) = true.
Proof.
  exists (mkAst [NumericRangeFilter changed_files op_range 1 10;
                 NumericRangeFilter changed_files op_range 5 20] None).
  repeat split; vm_compute; reflexivity.
Qed.

(** An empty intersection is not a query that answers nothing but one that is refused. *)
Theorem empty_intersection_refused :
  ∃ ast, parseQuery day_parse two_zones (js "changed_files:900..1000") = Ok ast ∧
    is_ok (parseQuery day_parse two_zones
      (serializeQuery (intersectNumericRange ast changed_files 0 1))) = false.
Proof.
  exists (mkAst [NumericRangeFilter changed_files op_range 900 1000] None).
  repeat split; vm_compute; reflexivity.
Qed.

(** The parser accepts the last day of the year 9999 in a zone; its UTC range then throws,
    because the day after prints with five digits. *)
Theorem last_day_range_throws :
  is_ok (parseQuery day_parse two_zones (js "merged:9999-12-31..9999-12-31@Asia/Seoul")) = true ∧
  calendarRangeToUtc kst_parts (js "9999-12-31") (js "9999-12-31")
  = Err (js "Invalid calendar date: '10000-01-01'").
Proof. split; vm_compute; reflexivity. Qed.
