(* ===== verification/Anchor.v ===== *)
(** * Anchors

    [packages/domain/src/anchor.ts]: the kind of an anchor expression.  [Date.parse]
    followed by [toISOString] is a parameter: the runtime owns the calendar. *)

From stdpp Require Import base list option strings numbers.
From Stdlib Require Import ZArith Lia.
From S2P Require Import Prelude JsString.
Open Scope Z_scope.

Definition MIN_ANCHOR_SHA_LENGTH : nat := 7.
Definition MAX_ANCHOR_NUMBER : Z := MAX_INT32.

Inductive AnchorPosition : Set := pos_from | pos_to.
Inductive Boundary : Set := exclusive | inclusive.
Inductive ShaMatch : Set := m_exact | m_prefix.

Inductive AnchorExpression : Set :=
| a_sequence (value : Z)
| a_pull_request (number : Z)
| a_commit (sha : jstr) (m : ShaMatch)
| a_time (instant : jstr)
| a_release (tag : jstr)
| a_ambiguous (candidates : list jstr)
| a_invalid (reason : jstr).

(** [/^(?:seq:|@)(\d+)$/i]: the digits. *)
Definition SEQUENCE_EXPRESSION (s : jstr) : option jstr :=
  if jeqb (ascii_lower (take 4 s)) (js "seq:") && all1 is_digit (drop 4 s) then Some (drop 4 s)
  else match s with
       | c :: r => if (c =? 64)%N && all1 is_digit r then Some r else None
       | [] => None
       end.

(** [/^#(\d+)$/] *)
Definition PR_EXPRESSION (s : jstr) : option jstr :=
  match s with
  | c :: r => if (c =? 35)%N && all1 is_digit r then Some r else None
  | [] => None
  end.

Definition HEX (s : jstr) : bool := all1 is_hex s.
Definition DIGITS (s : jstr) : bool := all1 is_digit s.

Definition digits_only (n : nat) (s : jstr) : bool :=
  (length (take n s) =? n)%nat && forallb is_digit (take n s).

(** [.] of a regular expression: not a line terminator. *)
Definition dot (c : N) : bool :=
  negb ((c =? 10) || (c =? 13) || (c =? 8232) || (c =? 8233))%N.

(** [YYYY-MM-DD], alone or followed by [T] or a space and the rest of the line. *)
Definition DATE_LIKE (s : jstr) : bool :=
  digits_only 4 s && jeqb (slice s 4 5) (js "-") && digits_only 2 (drop 5 s)
  && jeqb (slice s 7 8) (js "-") && digits_only 2 (drop 8 s)
  && match drop 10 s with
     | [] => true
     | c :: r => ((c =? 84) || (c =? 32))%N && forallb dot r
     end.

Definition positiveWithin (raw : jstr) : option Z :=
  let value := num_of_digits raw in
  if (value <? 1) || (MAX_ANCHOR_NUMBER <? value) then None else Some value.

Definition boundaryOf (p : AnchorPosition) : Boundary :=
  match p with pos_from => exclusive | pos_to => inclusive end.

Section anchor.
(** [new Date(Date.parse(s)).toISOString()], [None] when [Date.parse] gives [NaN]. *)
Context (iso_instant : jstr -> option jstr).

Definition length_text (s : jstr) : jstr := js_of_N (N.of_nat (length s)).

Definition classifyAnchor (raw : jstr) : AnchorExpression :=
  let input := trim raw in
  if jeqb input [] then a_invalid (js "앵커가 비어 있다")
  else match SEQUENCE_EXPRESSION input with
  | Some digits =>
    match positiveWithin digits with
    | None => a_invalid (js "시퀀스 값이 범위를 벗어난다: " ++ input)
    | Some value => a_sequence value
    end
  | None =>
  match PR_EXPRESSION input with
  | Some digits =>
    match positiveWithin digits with
    | None => a_invalid (js "PR 번호가 범위를 벗어난다: " ++ input)
    | Some number => a_pull_request number
    end
  | None =>
    if DIGITS input then
      let candidates := [js "#" ++ input ++ js " (PR 번호)"; js "seq:" ++ input ++ js " (시퀀스 값)"] in
      a_ambiguous (if (MIN_ANCHOR_SHA_LENGTH <=? length input)%nat
                   then candidates ++ [input ++ js " (커밋 SHA 접두)"] else candidates)
    else if HEX input then
      if (40 <? length input)%nat
      then a_invalid (js "SHA가 40자를 넘는다: " ++ length_text input ++ js "자")
      else if (length input <? MIN_ANCHOR_SHA_LENGTH)%nat
      then a_invalid (js "축약 SHA는 최소 " ++ js_of_N (N.of_nat MIN_ANCHOR_SHA_LENGTH)
                      ++ js "자여야 한다: " ++ length_text input ++ js "자")
      else
        let sha := ascii_lower input in
        a_commit sha (if (length sha =? 40)%nat then m_exact else m_prefix)
    else if DATE_LIKE input then
      match iso_instant input with
      | None => a_invalid (js "시각으로 읽을 수 없다: " ++ input)
      | Some instant => a_time instant
      end
    else a_release input
  end
  end.
End anchor.

Definition no_dates (_ : jstr) : option jstr := None.

Example anchor_seq : classifyAnchor no_dates (js " SEQ:42 ") = a_sequence 42. Proof. reflexivity. Qed.
Example anchor_digits :
  classifyAnchor no_dates (js "1234")
  = a_ambiguous [js "#1234 (PR 번호)"; js "seq:1234 (시퀀스 값)"].
Proof. reflexivity. Qed.
Example anchor_tag : classifyAnchor no_dates (js "build-3") = a_release (js "build-3").
Proof. reflexivity. Qed.

(** ** The five forms do not overlap *)

(** An input of each written form, over the values the form admits. *)
Inductive anchor_form : jstr -> AnchorExpression -> Prop :=
| form_seq n : 1 <= n <= MAX_ANCHOR_NUMBER -> anchor_form (js "seq:" ++ js_of_Z n) (a_sequence n)
| form_at n : 1 <= n <= MAX_ANCHOR_NUMBER -> anchor_form (js "@" ++ js_of_Z n) (a_sequence n)
| form_pr n : 1 <= n <= MAX_ANCHOR_NUMBER -> anchor_form (js "#" ++ js_of_Z n) (a_pull_request n)
| form_sha s : HEX s = true -> DIGITS s = false -> (7 <= length s <= 40)%nat ->
    anchor_form s (a_commit (ascii_lower s) (if (length s =? 40)%nat then m_exact else m_prefix))
| form_digits s : DIGITS s = true ->
    anchor_form s (a_ambiguous ([js "#" ++ s ++ js " (PR 번호)"; js "seq:" ++ s ++ js " (시퀀스 값)"]
      ++ if (7 <=? length s)%nat then [s ++ js " (커밋 SHA 접두)"] else [])).

Lemma hex_not_space c : is_hex c = true -> is_space c = false ∧ c <> 64%N ∧ c <> 35%N ∧ c <> 58%N.
Proof.
  unfold is_hex, is_hex_lower, is_digit, is_space, in_range.
  rewrite ?orb_true_iff, ?andb_true_iff, ?orb_false_iff, ?andb_false_iff,
    ?N.leb_le, ?N.leb_gt, ?N.eqb_eq, ?N.eqb_neq. lia.
Qed.
Lemma digit_hex c : is_digit c = true -> is_hex c = true.
Proof. unfold is_hex, is_hex_lower. by intros ->. Qed.

Lemma trim_no_space s p :
  (forall c, p c = true -> is_space c = false) -> forallb p s = true -> trim s = s.
Proof.
  intros Hp Hs. apply trim_id. rewrite forallb_elem in Hs |- *. intros c Hc.
  apply negb_true_iff. auto.
Qed.

Lemma hex_no_sequence s : HEX s = true -> SEQUENCE_EXPRESSION s = None ∧ PR_EXPRESSION s = None.
Proof.
  intros [Hne Hs]%all1_forallb. rewrite forallb_elem in Hs.
  assert (jeqb (ascii_lower (take 4 s)) (js "seq:") = false) as E.
  { apply jeqb_neq. intros H.
    assert (58%N ∈ ascii_lower (take 4 s)) as Hin by (rewrite H; by repeat constructor).
    unfold ascii_lower in Hin. apply list_elem_of_In, in_map_iff in Hin as (c & Hc & Hin).
    apply list_elem_of_In in Hin. assert (c ∈ s) as Hcs.
    { rewrite <- (take_drop 4 s). apply elem_of_app. by left. }
    apply Hs in Hcs. unfold lower_char in Hc. destruct (is_upper c) eqn:Eu.
    - apply in_range_spec in Eu. lia.
    - subst c. done. }
  unfold SEQUENCE_EXPRESSION, PR_EXPRESSION. rewrite E. cbn [andb].
  destruct s as [|c r]; [done|]. pose proof (hex_not_space c (Hs c ltac:(by left))) as (_ & H1 & H2 & _).
  by rewrite (proj2 (N.eqb_neq c 64)), (proj2 (N.eqb_neq c 35)).
Qed.

Lemma positiveWithin_print n :
  1 <= n <= MAX_ANCHOR_NUMBER -> positiveWithin (js_of_Z n) = Some n.
Proof.
  intros H. unfold positiveWithin. rewrite num_of_js_of_Z by lia. cbv zeta.
  by rewrite (proj2 (Z.ltb_ge n 1)), (proj2 (Z.ltb_ge _ n)) by lia.
Qed.

Lemma js_of_Z_all1 n : 0 <= n -> all1 is_digit (js_of_Z n) = true.
Proof.
  intros. rewrite js_of_Z_nonneg by done. apply all1_forallb. split; auto with prs.
Qed.

Lemma digits_trim p s :
  forallb (fun c => negb (is_space c)) p = true -> all1 is_digit s = true -> trim (p ++ s) = p ++ s.
Proof.
  intros Hp [_ Hs]%all1_forallb. apply trim_id. rewrite forallb_app, Hp. cbn [andb].
  rewrite forallb_elem in Hs |- *. intros c Hc. apply negb_true_iff.
  by apply hex_not_space, digit_hex, Hs.
Qed.

(** Every written form is read as the kind it denotes and as nothing else: [seq:n]
    and [@n] as a sequence value, [#n] as a pull request, 7 to 40 hexadecimal characters
    (one of them a letter) as a commit in lower case, and a bare number is never
    resolved but reported as ambiguous. *)
Theorem classifyAnchor_forms iso input a :
  anchor_form input a -> classifyAnchor iso input = a.
Proof.
  intros [n Hn|n Hn|n Hn|s Hh Hd Hl|s Hd]; unfold classifyAnchor; cbv zeta.
  - pose proof (js_of_Z_all1 n ltac:(lia)) as Ha.
    rewrite digits_trim by done. unfold SEQUENCE_EXPRESSION.
    change (take 4 (js "seq:" ++ js_of_Z n)) with (js "seq:").
    change (drop 4 (js "seq:" ++ js_of_Z n)) with (js_of_Z n).
    change (jeqb (ascii_lower (js "seq:")) (js "seq:")) with true.
    change (jeqb (js "seq:" ++ js_of_Z n) []) with false.
    rewrite Ha. cbn [andb]. by rewrite positiveWithin_print.
  - pose proof (js_of_Z_all1 n ltac:(lia)) as Ha. rewrite digits_trim by done.
    change (js "@" ++ js_of_Z n) with (64%N :: js_of_Z n).
    change (jeqb (64%N :: js_of_Z n) []) with false. cbv iota.
    unfold SEQUENCE_EXPRESSION.
    replace (jeqb (ascii_lower (take 4 (64%N :: js_of_Z n))) (js "seq:")) with false
      by (by symmetry; apply jeqb_neq).
    cbn [andb]. rewrite N.eqb_refl, Ha. cbn [andb]. by rewrite positiveWithin_print.
  - pose proof (js_of_Z_all1 n ltac:(lia)) as Ha. rewrite digits_trim by done.
    change (js "#" ++ js_of_Z n) with (35%N :: js_of_Z n).
    change (jeqb (35%N :: js_of_Z n) []) with false. cbv iota.
    unfold SEQUENCE_EXPRESSION.
    replace (jeqb (ascii_lower (take 4 (35%N :: js_of_Z n))) (js "seq:")) with false
      by (by symmetry; apply jeqb_neq).
    cbn [andb]. change (35 =? 64)%N with false. cbn [andb PR_EXPRESSION]. rewrite N.eqb_refl, Ha.
    cbn [andb]. by rewrite positiveWithin_print.
  - pose proof Hh as [Hne Hs]%all1_forallb.
    rewrite (trim_no_space s is_hex) by (done || intros c Hc; by apply hex_not_space).
    rewrite (proj2 (jeqb_neq s [])) by done. destruct (hex_no_sequence s Hh) as [-> ->].
    rewrite Hd, Hh. rewrite (proj2 (Nat.ltb_ge 40 _)) by lia.
    rewrite (proj2 (Nat.ltb_ge _ MIN_ANCHOR_SHA_LENGTH)) by (unfold MIN_ANCHOR_SHA_LENGTH; lia).
    by rewrite ascii_lower_length.
  - assert (HEX s = true) as Hh by (eapply all1_impl; [apply digit_hex|done]).
    pose proof Hh as [Hne Hs]%all1_forallb.
    rewrite (trim_no_space s is_hex) by (done || intros c Hc; by apply hex_not_space).
    rewrite (proj2 (jeqb_neq s [])) by done. destruct (hex_no_sequence s Hh) as [-> ->].
    rewrite Hd. unfold MIN_ANCHOR_SHA_LENGTH. by destruct (7 <=? length s)%nat.
Qed.
Lemma classifyAnchor_forms_witness :
  classifyAnchor no_dates (js "9F0a1b2") = a_commit (js "9f0a1b2") m_prefix.
Proof.
  apply (classifyAnchor_forms no_dates (js "9F0a1b2") _).
  apply (form_sha (js "9F0a1b2")); [reflexivity|reflexivity|vm_compute; lia].
Defined.
