(* ===== verification/SequenceSpace.v ===== *)
(** * Sequence spaces

    [packages/domain/src/sequence.ts]: the branch of a push, the space a push
    advances, and the text form of a space with its reader. *)

From stdpp Require Import base list option strings numbers.
From Stdlib Require Import ZArith Lia.
From S2P Require Import Prelude JsString Json.
Open Scope Z_scope.

Definition ZERO_SHA : jstr := replicate 40 48%N.
Definition FULL_SHA (s : jstr) : bool := (length s =? 40)%nat && forallb is_hex_lower s.
Definition BRANCH_PREFIX : jstr := js "refs/heads/".

Definition branchFromRef (ref : jstr) : option jstr :=
  if negb (starts_with BRANCH_PREFIX ref) then None
  else let name := drop (length BRANCH_PREFIX) ref in
       if jeqb name [] then None else Some name.

Record PushTarget : Set := mkTarget {
  repositoryId : Z;
  baseBranch : jstr;
  headSha : jstr
}.

Inductive PushOutcome : Set :=
| push_target (t : PushTarget)
| push_skip (reason : jstr)
| push_invalid (reason : jstr).

Definition extractPushTarget (payload : json) : PushOutcome :=
  match asRecord payload with
  | None => push_invalid (js "payload가 객체가 아니다")
  | Some root =>
  match as_string (assoc (js "ref") root) with
  | None => push_invalid (js "push payload에 ref가 없다")
  | Some ref =>
  match branchFromRef ref with
  | None => push_skip (js "브랜치 push가 아니다: " ++ ref)
  | Some branch =>
  match assoc (js "deleted") root with
  | Some (JBool true) => push_skip (js "브랜치 삭제: " ++ branch)
  | _ =>
  match ascii_lower <$> as_string (assoc (js "after") root) with
  | None => push_invalid (js "push payload에 after가 없다")
  | Some after =>
    if jeqb after ZERO_SHA then push_skip (js "브랜치 삭제: " ++ branch)
    else if negb (FULL_SHA after) then push_invalid (js "after가 40자 SHA가 아니다: " ++ after)
    else match assoc (js "repository") root ≫= asRecord with
    | None => push_invalid (js "push payload에 repository가 없다")
    | Some repository =>
      match assoc (js "id") repository with
      | Some (JNum id) =>
        if id <=? 0 then push_invalid (js "repository.id가 양의 정수가 아니다")
        else push_target (mkTarget id branch after)
      | _ => push_invalid (js "repository.id가 양의 정수가 아니다")
      end
    end
  end end end end end.

Definition sequencePartitionKey (repositoryId : Z) (baseBranch : jstr) : jstr :=
  js_of_Z repositoryId ++ js ":" ++ baseBranch.

Definition sequenceSpaceLabel (repositorySlug baseBranch : jstr) : jstr :=
  repositorySlug ++ js "@" ++ baseBranch.

Record SequenceSpaceParts : Set := mkParts {
  sp_owner : jstr;
  sp_name : jstr;
  sp_baseBranch : jstr
}.

Definition parseSequenceSpaceLabel (label : jstr) : option SequenceSpaceParts :=
  match index_of_char 64 label with
  | None => None
  | Some at_ =>
    let slug := take at_ label in
    let baseBranch := drop (S at_) label in
    if jeqb baseBranch [] then None
    else match index_of_char 47 slug with
    | None => None
    | Some slash =>
      let owner := take slash slug in
      let name := drop (S slash) slug in
      if jeqb owner [] || jeqb name [] then None else Some (mkParts owner name baseBranch)
    end
  end.

Example space_ex :
  parseSequenceSpaceLabel (js "acme/payments@release/@next")
  = Some (mkParts (js "acme") (js "payments") (js "release/@next")).
Proof. reflexivity. Qed.

Definition sample_push : json :=
  JObj [(js "ref", JStr (js "refs/heads/main")); (js "after", JStr (replicate 40 65%N));
        (js "repository", JObj [(js "id", JNum 7)])].
Example push_ex :
  extractPushTarget sample_push = push_target (mkTarget 7 (js "main") (replicate 40 97%N)).
Proof. reflexivity. Qed.

(** ** Lemmas *)

Lemma drop_after_char c (a b : jstr) : drop (S (length a)) (a ++ c :: b) = b.
Proof.
  replace (S (length a)) with (length a + 1)%nat by lia.
  by rewrite <- drop_drop, drop_app_length.
Qed.

Lemma branchFromRef_spec ref b :
  branchFromRef ref = Some b <-> ref = BRANCH_PREFIX ++ b ∧ b <> [].
Proof.
  unfold branchFromRef. split.
  - destruct (starts_with _ ref) eqn:E; [|done]. apply starts_with_spec in E as [r ->].
    cbn [negb]. cbv zeta. rewrite drop_app_length. destruct (jeqb r []) eqn:Er; [done|].
    apply jeqb_neq in Er. by intros [= ->].
  - intros [-> Hb]. rewrite starts_with_app. cbn [negb]. cbv zeta. rewrite drop_app_length.
    by rewrite (proj2 (jeqb_neq b []) Hb).
Qed.

(** ** Theorems *)

(** The accepted pushes, as the webhook describes them. *)
Definition names_target (payload : json) (t : PushTarget) : Prop :=
  ∃ root ref after repository,
    payload = JObj root ∧
    assoc (js "ref") root = Some (JStr ref) ∧ ref = BRANCH_PREFIX ++ baseBranch t ∧
    baseBranch t <> [] ∧
    assoc (js "deleted") root <> Some (JBool true) ∧
    assoc (js "after") root = Some (JStr after) ∧ headSha t = ascii_lower after ∧
    FULL_SHA (headSha t) = true ∧ headSha t <> ZERO_SHA ∧
    assoc (js "repository") root = Some (JObj repository) ∧
    assoc (js "id") repository = Some (JNum (repositoryId t)) ∧ 0 < repositoryId t.

(** A push advances a sequence space exactly when it is a push to a branch that is not
    a deletion (neither flag nor zero SHA), with a full SHA and a positive repository id;
    tags, deletions and malformed payloads name no space. *)
Theorem extractPushTarget_spec payload t :
  extractPushTarget payload = push_target t <-> names_target payload t.
Proof.
  unfold names_target. split.
  - unfold extractPushTarget, as_string, asRecord. intros H.
    destruct payload as [| | | | | |root]; try done.
    destruct (assoc (js "ref") root) as [[| | | |ref| |]|] eqn:E1; try done.
    destruct (branchFromRef ref) as [b|] eqn:E2; [|done]. apply branchFromRef_spec in E2 as [-> Hb].
    assert (assoc (js "deleted") root <> Some (JBool true)) as Hd by (intros Hd; by rewrite Hd in H).
    assert (match ascii_lower <$> match assoc (js "after") root with
      | Some (JStr s) => Some s | _ => None end with
      | None => push_invalid (js "push payload에 after가 없다")
      | Some after =>
        if jeqb after ZERO_SHA then push_skip (js "브랜치 삭제: " ++ b)
        else if negb (FULL_SHA after) then push_invalid (js "after가 40자 SHA가 아니다: " ++ after)
        else match assoc (js "repository") root ≫= (fun v => match v with JObj fs => Some fs | _ => None end) with
        | None => push_invalid (js "push payload에 repository가 없다")
        | Some repository =>
          match assoc (js "id") repository with
          | Some (JNum id) =>
            if id <=? 0 then push_invalid (js "repository.id가 양의 정수가 아니다")
            else push_target (mkTarget id b after)
          | _ => push_invalid (js "repository.id가 양의 정수가 아니다")
          end
        end
      end = push_target t) as H' by (by repeat case_match).
    clear H. destruct (assoc (js "after") root) as [[| | | |after| |]|] eqn:E3; try done.
    cbn [fmap option_fmap option_map] in H'.
    destruct (jeqb _ ZERO_SHA) eqn:E4; [done|]. apply jeqb_neq in E4.
    destruct (FULL_SHA _) eqn:E5; [|done]. cbn [negb] in H'.
    destruct (assoc (js "repository") root) as [[| | | | | |repo]|] eqn:E6; try done.
    cbn [mbind option_bind] in H'.
    destruct (assoc (js "id") repo) as [[| |id| | | |]|] eqn:E7; try done.
    destruct (id <=? 0) eqn:E8; [done|]. apply Z.leb_gt in E8. injection H' as <-.
    cbn [baseBranch headSha repositoryId]. eauto 20.
  - intros (root & ref & after & repo & -> & H1 & -> & Hb & Hd & H2 & Hs & Hf & Hz & H3 & H4 & Hp).
    destruct t as [id b sha]. cbn [baseBranch headSha repositoryId] in *. subst sha.
    unfold extractPushTarget. cbn [asRecord]. rewrite H1. cbn [as_string].
    rewrite (proj2 (branchFromRef_spec _ b)) by done. rewrite H2. cbn [as_string fmap option_fmap option_map].
    rewrite (proj2 (jeqb_neq _ ZERO_SHA) Hz), Hf, H3. cbn [negb mbind option_bind asRecord].
    rewrite H4, (proj2 (Z.leb_gt _ 0) Hp).
    destruct (assoc (js "deleted") root) as [[|[|]| | | | |]|]; done.
Qed.

(** The text form of a sequence space reads back as its parts, branches with [@] or
    [/] included, and every label that reads is the text form of what was read. *)
Theorem sequenceSpaceLabel_round_trip label p :
  parseSequenceSpaceLabel label = Some p <->
  label = sequenceSpaceLabel (sp_owner p ++ js "/" ++ sp_name p) (sp_baseBranch p) ∧
  sp_owner p <> [] ∧ sp_name p <> [] ∧ sp_baseBranch p <> [] ∧
  47%N ∉ sp_owner p ∧ 64%N ∉ sp_owner p ∧ 64%N ∉ sp_name p.
Proof.
  unfold parseSequenceSpaceLabel, sequenceSpaceLabel. split.
  - destruct (index_of_char 64 label) as [i|] eqn:E; [|done].
    apply index_of_char_split in E as (slug & b & -> & Hs & ->). cbv zeta.
    rewrite take_app_length, drop_after_char.
    destruct (jeqb b []) eqn:Eb; [done|]. apply jeqb_neq in Eb.
    destruct (index_of_char 47 slug) as [j|] eqn:Ej; [|done].
    apply index_of_char_split in Ej as (o & n & -> & Ho & ->).
    rewrite take_app_length, drop_after_char.
    destruct (jeqb o [] || jeqb n []) eqn:En; [done|].
    apply orb_false_iff in En as [Eo En]. apply jeqb_neq in Eo, En. intros [= <-].
    cbn [sp_owner sp_name sp_baseBranch].
    apply not_elem_of_app in Hs as [Hso Hsn]. apply not_elem_of_cons in Hsn as [_ Hsn].
    split_and!; try done.
  - destruct p as [o n b]. cbn [sp_owner sp_name sp_baseBranch].
    intros (-> & Ho & Hn & Hb & Hos & Hoa & Hna).
    change (js "@" ++ b) with (64%N :: b). change (js "/" ++ n) with (47%N :: n).
    rewrite index_of_char_app.
    2:{ rewrite not_elem_of_app, not_elem_of_cons. done. }
    cbv zeta. rewrite take_app_length, drop_after_char.
    rewrite (proj2 (jeqb_neq b []) Hb). rewrite index_of_char_app by done.
    rewrite take_app_length, drop_after_char.
    by rewrite (proj2 (jeqb_neq o []) Ho), (proj2 (jeqb_neq n []) Hn).
Qed.

Lemma js_of_Z_no_colon z : 58%N ∉ js_of_Z z.
Proof.
  unfold js_of_Z. assert (forall n, 58%N ∉ js_of_N n) as Hn.
  { intros n Hin. pose proof (js_of_N_digits n) as Hd. rewrite forallb_elem in Hd.
    by apply Hd in Hin. }
  destruct (z <? 0); [|done]. apply not_elem_of_cons. done.
Qed.

Lemma app_sep_inj c (a a' b b' : jstr) :
  c ∉ a -> c ∉ a' -> a ++ c :: b = a' ++ c :: b' -> a = a' ∧ b = b'.
Proof.
  intros Ha Ha' H. pose proof (f_equal (index_of_char c) H) as Hi.
  rewrite !index_of_char_app in Hi by done. injection Hi as Hi.
  apply app_inj_1 in H as [-> H]; [|done]. by injection H as ->.
Qed.

(** Two sequence spaces share a partition key only if they are the same space, so the
    assignment of one space is serialized and spaces do not block each other by name. *)
Theorem sequencePartitionKey_inj r b r' b' :
  0 <= r -> 0 <= r' -> sequencePartitionKey r b = sequencePartitionKey r' b' -> r = r' ∧ b = b'.
Proof.
  intros Hr Hr' H. unfold sequencePartitionKey in H. change (js ":") with [58%N] in H.
  apply app_sep_inj in H as [H ->]; [|apply js_of_Z_no_colon..].
  split; [|done]. by apply js_of_Z_inj in H.
Qed.
Lemma sequencePartitionKey_inj_witness : 7 = 7 ∧ js "main" = js "main".
Proof.
  exact (sequencePartitionKey_inj 7 (js "main") 7 (js "main")
           ltac:(lia) ltac:(lia) eq_refl).
Defined.
