(* ===== verification/SeqBinding.v ===== *)
(** * Space binding of range keys

    [packages/query/src/sequence-binding.ts]: which sequence space or repository the
    [seq:], [mnum:] and [pr_number:] ranges of a query refer to. *)

From stdpp Require Import base list option strings numbers.
From Stdlib Require Import ZArith Lia.
From S2P Require Import Prelude JsString QueryAst.
Open Scope Z_scope.

Inductive SequenceBindingProblem : Set := sequence_space_required | sequence_space_ambiguous.
Inductive SequenceBindingAnalysis : Set :=
| sb_none
| sb_bound (repository baseBranch : jstr)
| sb_invalid (reason : SequenceBindingProblem).
Inductive MergeNumberBindingAnalysis : Set :=
| mb_space (a : SequenceBindingAnalysis)
| mb_repository_only (repository : jstr).
Inductive RepositoryBindingProblem : Set := repository_required | repository_ambiguous.
Inductive RepositoryBindingAnalysis : Set :=
| rb_none
| rb_bound (repository : jstr)
| rb_invalid (reason : RepositoryBindingProblem).

(** [Set.add]: insertion order, no duplicates. *)
Definition set_add (s : list jstr) (v : jstr) : list jstr := if mem v s then s else s ++ [v].

Definition positiveValues (ast : QueryAst) (k : QueryKey) : list jstr :=
  foldl (fun values f =>
    match f with
    | EqualityFilter k' op_eq vs => if bool_decide (k' = k) then foldl set_add values vs else values
    | _ => values
    end) [] (filters ast).

Definition analyzeSpaceBinding (ast : QueryAst) (hasFilter : bool) : SequenceBindingAnalysis :=
  if negb hasFilter then sb_none
  else
    let repositories := positiveValues ast repo in
    let baseBranches := positiveValues ast base_key in
    if (length repositories =? 0)%nat || (length baseBranches =? 0)%nat
    then sb_invalid sequence_space_required
    else if (1 <? length repositories)%nat || (1 <? length baseBranches)%nat
    then sb_invalid sequence_space_ambiguous
    else match hd_error repositories, hd_error baseBranches with
         | Some repository, Some baseBranch => sb_bound repository baseBranch
         | _, _ => sb_invalid sequence_space_required
         end.

Definition has_range_on (k : QueryKey) (ast : QueryAst) : bool :=
  existsb (fun f => isRangeFilter f && bool_decide (filter_key f = k)) (filters ast).
Definition hasSequenceRangeFilter : QueryAst -> bool := has_range_on seq_key.
Definition hasMergeNumberRangeFilter : QueryAst -> bool := has_range_on mnum.
Definition hasPrNumberRangeFilter : QueryAst -> bool := has_range_on pr_number.

Definition analyzeMergeNumberBinding (ast : QueryAst) : MergeNumberBindingAnalysis :=
  if negb (hasMergeNumberRangeFilter ast) then mb_space sb_none
  else
    let repositories := positiveValues ast repo in
    let baseBranches := positiveValues ast base_key in
    if (length repositories =? 0)%nat then mb_space (sb_invalid sequence_space_required)
    else if (1 <? length repositories)%nat || (1 <? length baseBranches)%nat
    then mb_space (sb_invalid sequence_space_ambiguous)
    else match hd_error repositories with
    | None => mb_space (sb_invalid sequence_space_required)
    | Some repository =>
      if (length baseBranches =? 0)%nat then mb_repository_only repository
      else match hd_error baseBranches with
           | None => mb_space (sb_invalid sequence_space_required)
           | Some baseBranch => mb_space (sb_bound repository baseBranch)
           end
    end.

Definition analyzePrNumberBinding (ast : QueryAst) : RepositoryBindingAnalysis :=
  if negb (hasPrNumberRangeFilter ast) then rb_none
  else
    let repositories := positiveValues ast repo in
    if (length repositories =? 0)%nat then rb_invalid repository_required
    else if (1 <? length repositories)%nat then rb_invalid repository_ambiguous
    else match hd_error repositories with
         | None => rb_invalid repository_required
         | Some repository => rb_bound repository
         end.

Definition analyzeSequenceBinding (ast : QueryAst) : SequenceBindingAnalysis :=
  analyzeSpaceBinding ast (hasSequenceRangeFilter ast).

(** ** Lemmas *)

(** What the query says, without the order: [v] is a positive value of [k]. *)
Definition names (ast : QueryAst) (k : QueryKey) (v : jstr) : Prop :=
  ∃ vs, EqualityFilter k op_eq vs ∈ filters ast ∧ v ∈ vs.

Lemma set_add_spec s v x : x ∈ set_add s v <-> x ∈ s \/ x = v.
Proof.
  unfold set_add. destruct (mem v s) eqn:E.
  - apply mem_elem in E. split; [by left|]. intros [?| ->]; done.
  - rewrite elem_of_app, list_elem_of_singleton. done.
Qed.
Lemma set_add_NoDup s v : NoDup s -> NoDup (set_add s v).
Proof.
  unfold set_add. intros H. destruct (mem v s) eqn:E; [done|]. apply mem_false in E.
  apply list.NoDup_app. split; [done|]. split; [|apply NoDup_singleton].
  intros x Hx ->%list_elem_of_singleton. done.
Qed.

Lemma foldl_set_add vs : forall s,
  (forall x, x ∈ foldl set_add s vs <-> x ∈ s \/ x ∈ vs) ∧ (NoDup s -> NoDup (foldl set_add s vs)).
Proof.
  induction vs as [|v vs IH]; intros s; cbn [foldl].
  - split; [|done]. intros x. split; [by left|]. intros [?|H]; [done|by apply elem_of_nil in H].
  - destruct (IH (set_add s v)) as [H1 H2]. split.
    + intros x. rewrite H1, set_add_spec, elem_of_cons. tauto.
    + intros. by apply H2, set_add_NoDup.
Qed.

Lemma positiveValues_spec ast k :
  (forall v, v ∈ positiveValues ast k <-> names ast k v) ∧ NoDup (positiveValues ast k).
Proof.
  unfold positiveValues, names. set (step := fun values f => _).
  assert (forall fs s, NoDup s -> NoDup (foldl step s fs) ∧ forall v, v ∈ foldl step s fs <->
    v ∈ s \/ ∃ vs, EqualityFilter k op_eq vs ∈ fs ∧ v ∈ vs) as H.
  { induction fs as [|f fs IH]; intros s Hs; cbn [foldl].
    - split; [done|]. intros v. split; [by left|]. intros [?|(vs & H & _)]; [done|by apply elem_of_nil in H].
    - assert (NoDup (step s f) ∧ forall v, v ∈ step s f <->
        v ∈ s \/ ∃ vs, f = EqualityFilter k op_eq vs ∧ v ∈ vs) as [Hn Hf].
      { destruct f as [k' [|] vs| |]; cbn [step]; try (by split; [|naive_solver]).
        case_bool_decide as Hk; [subst k'|by split; [|naive_solver]].
        destruct (foldl_set_add vs s) as [H1 H2]. split; [by apply H2|].
        intros v. rewrite H1. naive_solver. }
      destruct (IH (step s f) Hn) as [IH1 IH2]. split; [done|].
      intros v. rewrite IH2, Hf. setoid_rewrite elem_of_cons. naive_solver. }
  destruct (H (filters ast) [] (NoDup_nil_2)) as [H1 H2]. split; [|done].
  intros v. rewrite H2. split; [intros [Hv|?]; [by apply elem_of_nil in Hv|done]|by right].
Qed.

Lemma singleton_values ast k r :
  positiveValues ast k = [r] <-> forall v, names ast k v <-> v = r.
Proof.
  destruct (positiveValues_spec ast k) as [H1 H2]. setoid_rewrite <- H1. split.
  - intros ->. intros v. apply list_elem_of_singleton.
  - intros H. destruct (positiveValues ast k) as [|x [|y l]].
    + exfalso. apply (elem_of_nil r). by apply H.
    + f_equal. apply H. by left.
    + exfalso. apply list.NoDup_cons in H2 as [Hx _]. apply Hx.
      rewrite (proj1 (H x) ltac:(by left)), <- (proj1 (H y) ltac:(right; by left)). by left.
Qed.

Lemma space_bound ast r b :
  analyzeSpaceBinding ast true = sb_bound r b <->
  positiveValues ast repo = [r] ∧ positiveValues ast base_key = [b].
Proof.
  unfold analyzeSpaceBinding. cbn [negb]. cbv zeta.
  destruct (positiveValues ast repo) as [|r1 [|r2 rs]], (positiveValues ast base_key) as [|b1 [|b2 bs]];
    cbn; naive_solver.
Qed.

(** ** Theorems *)

(** A [seq:] query is bound to a space exactly when it has a [seq:] range and names
    one repository and one branch (repetitions count once, negations do not count). *)
Theorem sequence_binding_spec ast r b :
  analyzeSequenceBinding ast = sb_bound r b <->
  hasSequenceRangeFilter ast = true ∧
  (forall v, names ast repo v <-> v = r) ∧ (forall v, names ast base_key v <-> v = b).
Proof.
  unfold analyzeSequenceBinding. rewrite <- !singleton_values.
  destruct (hasSequenceRangeFilter ast); [rewrite space_bound; tauto|].
  split; [done|]. by intros [? _].
Qed.

(** The [mnum:] analysis binds the same spaces as the [seq:] rule and differs only
    where the branch is missing: one repository and no branch is passed on as
    [repository_only]; several repositories and no branch is ambiguous, not required. *)
Theorem mnum_binding_refines ast :
  hasMergeNumberRangeFilter ast = true ->
  analyzeMergeNumberBinding ast =
  match positiveValues ast repo, positiveValues ast base_key with
  | [r], [] => mb_repository_only r
  | _ :: _ :: _, [] => mb_space (sb_invalid sequence_space_ambiguous)
  | _, _ => mb_space (analyzeSpaceBinding ast true)
  end.
Proof.
  intros H. unfold analyzeMergeNumberBinding, analyzeSpaceBinding. rewrite H. cbn [negb]. cbv zeta.
  by destruct (positiveValues ast repo) as [|r1 [|r2 rs]],
    (positiveValues ast base_key) as [|b1 [|b2 bs]].
Qed.
Lemma mnum_binding_refines_witness :
  analyzeMergeNumberBinding
    (mkAst [EqualityFilter repo op_eq [js "a/b"]; NumericRangeFilter mnum op_range 1 9] None)
  = mb_repository_only (js "a/b").
Proof.
  exact (mnum_binding_refines
    (mkAst [EqualityFilter repo op_eq [js "a/b"]; NumericRangeFilter mnum op_range 1 9] None) eq_refl).
Defined.
