(* ===== verification/Identifier.v ===== *)
(** * Identifiers

    [packages/query/src/identifier.ts]: what a search input denotes, before any
    lookup.  The URL parser of the runtime is a parameter: [url s] is the host and
    the path of [new URL(s)], [None] when the constructor throws. *)

From stdpp Require Import base list option strings numbers.
From Stdlib Require Import ZArith Lia.
From S2P Require Import Prelude JsString MergeNumber.
Open Scope Z_scope.

Definition FULL_SHA_LENGTH : nat := 40.
Definition MIN_SHA_PREFIX_LENGTH : nat := 7.
Definition MAX_PR_NUMBER : Z := MAX_INT32.

Definition HEX (s : jstr) : bool := all1 is_hex_lower s.
Definition DIGITS (s : jstr) : bool := all1 is_digit s.
Definition repo_char (c : N) : bool := is_word c || (c =? 46)%N || (c =? 45)%N.
(** [/^[A-Za-z0-9._-]+\/[A-Za-z0-9._-]+$/] *)
Definition OWNER_REPO (s : jstr) : bool :=
  match split_char 47 s with
  | [a; b] => all1 repo_char a && all1 repo_char b
  | _ => false
  end.
(** [owner/repo#digits] or [#digits]: the two groups. *)
Definition HASH_NUMBER (s : jstr) : option (option jstr * jstr) :=
  match index_of_char 35 s with
  | None => None
  | Some i =>
    let repository := take i s in
    let digits := drop (S i) s in
    if negb (DIGITS digits) then None
    else if jeqb repository [] then Some (None, digits)
    else if OWNER_REPO repository then Some (Some repository, digits) else None
  end.

Inductive Identifier : Set :=
| id_commit_exact (sha : jstr)
| id_commit_prefix (sha : jstr)
| id_pull_request (repository : option jstr) (number : Z)
| id_merge_number (code : jstr) (number : Z) (label : jstr)
| id_text.

Inductive IdentifierKind : Set := k_commit | k_pull_request | k_merge_number | k_text.
Definition kind_of (i : Identifier) : IdentifierKind :=
  match i with
  | id_commit_exact _ | id_commit_prefix _ => k_commit
  | id_pull_request _ _ => k_pull_request
  | id_merge_number _ _ _ => k_merge_number
  | id_text => k_text
  end.

Record IdentifierRejection : Set := mkRejection {
  rj_message : jstr;
  rj_min_length : nat;
  rj_actual_length : nat
}.

Record IdentifierDetection : Set := mkDetection {
  det_input : jstr;
  interpretations : list Identifier;
  rejection : option IdentifierRejection
}.

Definition TEXT_ONLY : list Identifier := [id_text].

Section identifier.
Context (url : jstr -> option (jstr * jstr)).

Definition hostOf (value : jstr) : option jstr := (fun p => ascii_lower p.1) <$> url value.

Definition pr_number_of (value : jstr) : option Z :=
  let number := num_of_digits value in
  if (number <? 1) || (MAX_PR_NUMBER <? number) then None else Some number.

Definition fromUrl (input : jstr) (gheBaseUrl : option jstr) : option Identifier :=
  match gheBaseUrl with
  | None => None
  | Some baseUrl =>
    if jeqb baseUrl [] then None
    else match hostOf baseUrl, hostOf input with
    | Some expected, Some actual =>
      if negb (jeqb expected actual) then None
      else match url input with
      | None => None
      | Some (_, path) =>
        match List.filter (fun p => negb (jeqb p [])) (split_char 47 path) with
        | owner :: name :: resource :: value :: _ =>
          let repository := owner ++ js "/" ++ name in
          if negb (OWNER_REPO repository) then None
          else if jeqb resource (js "pull") || jeqb resource (js "pulls") then
            if negb (DIGITS value) then None
            else id_pull_request (Some repository) <$> pr_number_of value
          else if jeqb resource (js "commit") || jeqb resource (js "commits") then
            let sha := ascii_lower value in
            if negb (HEX sha) || negb (length sha =? FULL_SHA_LENGTH)%nat then None
            else Some (id_commit_exact sha)
          else None
        | _ => None
        end
      end
    | _, _ => None
    end
  end.

Definition fromMergeNumber (input : jstr) : option Identifier :=
  let text := if starts_with (js "[") input && ends_with (js "]") input
              then slice input 1 (length input - 1) else input in
  let text := if starts_with (js "m-") text then js "M" ++ drop 1 text else text in
  match parseMergeNumber text with
  | None => None
  | Some parsed =>
    match formatMergeNumber (pm_code parsed) (pm_number parsed) with
    | Ok label => Some (id_merge_number (pm_code parsed) (pm_number parsed) label)
    | Err _ => None
    end
  end.

Definition fromHashNumber (input : jstr) : option Identifier :=
  match HASH_NUMBER input with
  | None => None
  | Some (repository, digits) => id_pull_request repository <$> pr_number_of digits
  end.

Definition fromHex (input : jstr) : option Identifier :=
  let sha := ascii_lower input in
  if negb (HEX sha) then None
  else if (length sha =? FULL_SHA_LENGTH)%nat then Some (id_commit_exact sha)
  else if (MIN_SHA_PREFIX_LENGTH <=? length sha)%nat && (length sha <? FULL_SHA_LENGTH)%nat
  then Some (id_commit_prefix sha)
  else None.

Definition too_short (input : jstr) : IdentifierRejection :=
  mkRejection (js "A shortened SHA must contain at least " ++ js_of_N (N.of_nat MIN_SHA_PREFIX_LENGTH)
               ++ js " characters") MIN_SHA_PREFIX_LENGTH (length input).

(** The interpretations of an input that is neither a URL of ours nor an M number. *)
Definition plain_interpretations (input : jstr) : list Identifier :=
  let hash := fromHashNumber input in
  match hash with Some i => [i] | None => [] end
  ++ (match hash with
      | None => if DIGITS input
                then match id_pull_request None <$> pr_number_of input with
                     | Some i => [i] | None => [] end
                else []
      | Some _ => []
      end).

Definition detectIdentifier (raw : jstr) (gheBaseUrl : option jstr) : IdentifierDetection :=
  let input := trim raw in
  if jeqb input [] then mkDetection input TEXT_ONLY None
  else match fromUrl input gheBaseUrl with
  | Some u => mkDetection input [u] None
  | None =>
  match fromMergeNumber input with
  | Some m => mkDetection input [m] None
  | None =>
    let found := plain_interpretations input in
    match fromHex input with
    | Some hex => mkDetection input (found ++ [hex]) None
    | None =>
      match found with
      | [] => if HEX (ascii_lower input)
              then mkDetection input TEXT_ONLY (Some (too_short input))
              else mkDetection input TEXT_ONLY None
      | _ => mkDetection input found None
      end
    end
  end
  end.
End identifier.

Definition primaryKind (d : IdentifierDetection) : IdentifierKind :=
  match interpretations d with i :: _ => kind_of i | [] => k_text end.

Definition no_url (_ : jstr) : option (jstr * jstr) := None.
Definition ghe_url (s : jstr) : option (jstr * jstr) :=
  if starts_with (js "https://ghe.local") s then Some (js "ghe.local", drop 17 s) else None.

Example id_overlap :
  interpretations (detectIdentifier no_url (js "1234567") None)
  = [id_pull_request None 1234567; id_commit_prefix (js "1234567")].
Proof. reflexivity. Qed.
Example id_mnumber :
  interpretations (detectIdentifier no_url (js "[m-1900-1450]") None)
  = [id_merge_number (js "1900") 1450 (js "M-1900-1450")].
Proof. reflexivity. Qed.
Example id_url :
  interpretations (detectIdentifier ghe_url (js "https://ghe.local/acme/pay/pull/12")
                     (Some (js "https://ghe.local")))
  = [id_pull_request (Some (js "acme/pay")) 12].
Proof. reflexivity. Qed.
Example id_short : rejection (detectIdentifier no_url (js "AbC") None) = Some (too_short (js "AbC")).
Proof. reflexivity. Qed.

(** ** Lemmas *)

(** What each kind of interpretation promises to the lookup behind it. *)
Definition sound (i : Identifier) : Prop :=
  match i with
  | id_commit_exact sha => HEX sha = true ∧ length sha = 40%nat
  | id_commit_prefix sha => HEX sha = true ∧ (7 <= length sha < 40)%nat
  | id_pull_request r n =>
    1 <= n <= MAX_INT32 ∧ match r with Some r => OWNER_REPO r = true | None => True end
  | id_merge_number code n label =>
    formatMergeNumber code n = Ok label ∧ parseMergeNumber label = Some (mkParsed code n)
  | id_text => True
  end.

Lemma pr_number_of_range s n : pr_number_of s = Some n -> 1 <= n <= MAX_INT32.
Proof.
  unfold pr_number_of, MAX_PR_NUMBER. cbv zeta. destruct (_ || _) eqn:E; [done|].
  intros [= <-]. apply orb_false_iff in E as [??]. blia.
Qed.

Lemma fromUrl_sound url input b i : fromUrl url input b = Some i -> sound i.
Proof.
  unfold fromUrl. destruct b as [b|]; [|done]. destruct (jeqb b []); [done|].
  destruct (hostOf url b) as [e|], (hostOf url input) as [a|]; try done.
  destruct (negb (jeqb e a)); [done|]. destruct (url input) as [[h path]|]; [|done].
  destruct (List.filter _ _) as [|o [|n [|r [|v rest]]]]; try done. cbv zeta.
  destruct (OWNER_REPO _) eqn:Eo; [|done]. cbn [negb].
  destruct (_ || _).
  - destruct (DIGITS v); [|done]. cbn [negb]. destruct (pr_number_of v) eqn:E; [|done].
    intros [= <-]. apply pr_number_of_range in E. done.
  - destruct (_ || _); [|done].
    destruct (HEX (ascii_lower v)) eqn:Eh; [|done]. destruct (_ =? _)%nat eqn:El; [|done].
    intros [= <-]. apply Nat.eqb_eq in El. done.
Qed.

Lemma fromHex_sound input i : fromHex input = Some i -> sound i.
Proof.
  unfold fromHex. cbv zeta. destruct (HEX _) eqn:E; [|done]. cbn [negb].
  unfold FULL_SHA_LENGTH, MIN_SHA_PREFIX_LENGTH. destruct (_ =? 40)%nat eqn:El; bool_to_prop.
  - by intros [= <-].
  - destruct (_ && _) eqn:E2; [|done]. intros [= <-]. apply andb_prop in E2 as [??].
    bool_to_prop. done.
Qed.

Lemma plain_sound input : Forall sound (plain_interpretations input).
Proof.
  unfold plain_interpretations, fromHashNumber. cbv zeta.
  destruct (HASH_NUMBER input) as [[r d]|] eqn:E.
  - destruct (pr_number_of d) eqn:En; cbn.
    + constructor; [|constructor]. apply pr_number_of_range in En. split; [done|].
      unfold HASH_NUMBER in E. destruct (index_of_char 35 input); [|done]. cbv zeta in E.
      destruct (DIGITS _); [|done]. cbn [negb] in E.
      destruct (jeqb _ []); [by injection E as <- _|].
      destruct (OWNER_REPO _) eqn:Eo; [|done]. by injection E as <- _.
    + destruct (DIGITS input); [|constructor]. destruct (pr_number_of input) eqn:Ei; [|constructor].
      apply pr_number_of_range in Ei. cbn. by constructor; [|constructor].
  - destruct (DIGITS input); [|constructor]. cbn. destruct (pr_number_of input) eqn:Ei; [|constructor].
    apply pr_number_of_range in Ei. cbn. by constructor; [|constructor].
Qed.

Lemma fromMergeNumber_sound input i : fromMergeNumber input = Some i -> sound i.
Proof.
  unfold fromMergeNumber. cbv zeta. destruct (parseMergeNumber _) as [[code n]|]; [|done].
  cbn [pm_code pm_number]. pose proof (format_parse_all code n) as H.
  destruct (formatMergeNumber code n) eqn:E; [|done]. by intros [= <-].
Qed.

(** ** Theorems *)

(** Every input gets at least one interpretation and each is a lookup that makes
    sense: a full SHA has 40 lower-case hexadecimal digits, a prefix 7 to 39, a pull
    request number fits 32 bits, an M number is in canonical form. *)
Theorem detectIdentifier_sound url raw base :
  interpretations (detectIdentifier url raw base) <> [] ∧
  Forall sound (interpretations (detectIdentifier url raw base)).
Proof.
  unfold detectIdentifier. cbv zeta. set (input := trim raw).
  destruct (jeqb input []); [by split; [|repeat constructor]|].
  destruct (fromUrl url input base) eqn:Eu.
  { apply fromUrl_sound in Eu. by split; [|repeat constructor]. }
  destruct (fromMergeNumber input) eqn:Em.
  { apply fromMergeNumber_sound in Em. by split; [|repeat constructor]. }
  pose proof (plain_sound input) as Hp. destruct (fromHex input) eqn:Eh.
  - apply fromHex_sound in Eh. split; [by destruct (plain_interpretations input)|].
    apply Forall_app. by split; [|constructor].
  - destruct (plain_interpretations input); [|done].
    destruct (HEX _); by split; [|repeat constructor].
Qed.

(** An input is rejected before any lookup only when it is hexadecimal, not a pull
    request number, and shorter than 7 or longer than 40 digits; the rejection carries
    its length, and with it the only interpretation is text. *)
Theorem detectIdentifier_rejection url raw base r :
  rejection (detectIdentifier url raw base) = Some r ->
  r = too_short (trim raw) ∧ HEX (ascii_lower (trim raw)) = true ∧
  (1 <= length (trim raw) < 7 \/ 40 < length (trim raw))%nat ∧
  (DIGITS (trim raw) = true -> pr_number_of (trim raw) = None) ∧
  interpretations (detectIdentifier url raw base) = [id_text].
Proof.
  unfold detectIdentifier. cbv zeta. set (input := trim raw).
  destruct (jeqb input []) eqn:Ei; [done|]. apply jeqb_neq in Ei.
  destruct (fromUrl url input base); [done|]. destruct (fromMergeNumber input); [done|].
  unfold fromHex. cbv zeta. destruct (HEX (ascii_lower input)) eqn:Eh.
  2:{ cbn [negb]. by destruct (plain_interpretations input). }
  cbn [negb]. rewrite ascii_lower_length. unfold FULL_SHA_LENGTH, MIN_SHA_PREFIX_LENGTH.
  destruct (length input =? 40)%nat eqn:E40; [done|].
  destruct ((7 <=? length input)%nat && (length input <? 40)%nat) eqn:E7; [done|].
  destruct (plain_interpretations input) eqn:Ep; [|done]. intros [= <-]. split_and!; try done.
  - apply andb_false_iff in E7. destruct input; [done|]. simpl length in *.
    destruct E7; bool_to_prop; lia.
  - intros Hd. unfold plain_interpretations in Ep. cbv zeta in Ep. apply app_nil in Ep as [Eh1 Eh2].
    destruct (fromHashNumber input); [done|]. rewrite Hd in Eh2.
    by destruct (pr_number_of input).
Qed.
Lemma detectIdentifier_rejection_witness :
  too_short (js "abc") = too_short (trim (js " abc")) ∧ HEX (ascii_lower (trim (js " abc"))) = true ∧
  (1 <= length (trim (js " abc")) < 7 \/ 40 < length (trim (js " abc")))%nat ∧
  (DIGITS (trim (js " abc")) = true -> pr_number_of (trim (js " abc")) = None) ∧
  interpretations (detectIdentifier no_url (js " abc") None) = [id_text].
Proof. exact (detectIdentifier_rejection no_url (js " abc") None (too_short (js "abc")) eq_refl). Defined.

(** The comment of the source says only inputs under 7 digits are rejected; 41 digits are
    too, as "too short". *)
Theorem long_hex_rejected_as_short :
  let raw := js "a" ++ replicate 40 97%N in
  length raw = 41%nat ∧ rejection (detectIdentifier no_url raw None) = Some (too_short raw).
Proof. split; vm_compute; reflexivity. Qed.
