(* ===== verification/MNumberPlan.v ===== *)
(** * The M-number planner

    [apps/pipeline-worker/src/mnumber-plan.ts]: from a checkpoint, walk the rows in
    order, give the next number to a confirmed pull request, pass a confirmed direct
    push, stop at anything else.  The clock is the sequence of its readings: reading
    0 sets the deadline, reading [i + 1] is the one before row [i]. *)

From stdpp Require Import base list option strings numbers.
From Stdlib Require Import ZArith Lia.
From S2P Require Import Prelude JsString MergeNumber.
Open Scope Z_scope.

Inductive PlanDecision : Set := pr_confirmed | direct_confirmed | unresolved.
#[export] Instance decision_eq_dec : EqDecision PlanDecision.
Proof. solve_decision. Defined.

Record PlanRow : Set := mkRow {
  mergeSeq : Z;
  sha : jstr;
  decision : PlanDecision;
  prNumber : option Z;
  reason : option MergeNumberBlockReason;
  existingNumber : option Z;
  existingPr : option Z;
  mergedAt : option Z
}.

Record PlanAssignment : Set := mkAssign {
  as_mergeSeq : Z;
  as_prNumber : Z;
  as_mergeNumber : Z;
  as_mergedAt : option Z
}.

Record PlanInput : Type := mkInput {
  checkpoint_headSeq : Z;
  checkpoint_headNumber : Z;
  rows : list PlanRow;
  previousAssignedMergedAt : option Z;
  isAlreadyNumbered : Z -> bool;
  budgetMs : option Z;
  now : nat -> Z
}.

Record PlanResult : Set := mkResult {
  assignments : list PlanAssignment;
  nextHeadSeq : Z;
  nextHeadNumber : Z;
  blocked : option (Z * MergeNumberBlockReason);
  orderMismatches : Z;
  orderUnknown : Z;
  budgetExhausted : bool
}.

Inductive PlanInputError : Set :=
| checkpoint_not_nonnegative (seq number : Z)
| number_exceeds_seq (number seq : Z)
| rows_not_consecutive (expected got : Z)
| confirmed_without_pr (seq : Z).

(** The variables of the loop. *)
Record plan_state : Set := mkState {
  st_assignments : list PlanAssignment;
  headSeq : Z;
  headNumber : Z;
  numberedThisRound : list Z;
  previousMergedAt : option Z;
  st_mismatches : Z;
  st_unknown : Z
}.

Definition finish (st : plan_state) (b : option (Z * MergeNumberBlockReason)) (exhausted : bool)
  : PlanResult :=
  mkResult (st_assignments st) (headSeq st) (headNumber st) b (st_mismatches st) (st_unknown st)
    exhausted.

(** A number already stored beyond the checkpoint is accepted only from the same run. *)
Definition stale_number (st : plan_state) (row : PlanRow) : bool :=
  match existingNumber row with
  | None => false
  | Some n =>
    negb (match decision row, prNumber row, existingPr row with
          | pr_confirmed, Some pr, Some epr => (epr =? pr) && (n =? headNumber st + 1)
          | _, _, _ => false
          end)
  end.

(** What one row does to the loop. *)
Inductive row_outcome : Set :=
| row_next (st : plan_state)
| row_blocked (r : MergeNumberBlockReason)
| row_error (e : PlanInputError).

Definition order_step (st : plan_state) (row : PlanRow) : option Z * Z * Z :=
  match mergedAt row with
  | None => (previousMergedAt st, st_mismatches st, st_unknown st + 1)
  | Some m =>
    (Some m,
     match previousMergedAt st with
     | Some p => if m <? p then st_mismatches st + 1 else st_mismatches st
     | None => st_mismatches st
     end, st_unknown st)
  end.

Definition plan_row (already : Z -> bool) (st : plan_state) (row : PlanRow) : row_outcome :=
  if stale_number st row then row_blocked canonical_mismatch
  else match decision row with
  | unresolved =>
    row_blocked (match reason row with Some r => r | None => pr_evidence_pending end)
  | direct_confirmed =>
    row_next (mkState (st_assignments st) (mergeSeq row) (headNumber st) (numberedThisRound st)
      (previousMergedAt st) (st_mismatches st) (st_unknown st))
  | pr_confirmed =>
    match prNumber row with
    | None => row_error (confirmed_without_pr (mergeSeq row))
    | Some pr =>
      if match existingPr row with Some e => negb (e =? pr) | None => false end
      then row_blocked canonical_mismatch
      else if bool_decide (pr ∈ numberedThisRound st) || already pr
      then row_blocked mapping_conflict
      else if MERGE_NUMBER_MAX <? headNumber st + 1 then row_blocked number_capacity_exceeded
      else
        let '(prev, mism, unk) := order_step st row in
        row_next (mkState
          (st_assignments st ++ [mkAssign (mergeSeq row) pr (headNumber st + 1) (mergedAt row)])
          (mergeSeq row) (headNumber st + 1) (numberedThisRound st ++ [pr]) prev mism unk)
    end
  end.

Fixpoint plan_loop (already : Z -> bool) (deadline : option Z) (clock : nat -> Z) (i : nat)
    (st : plan_state) (rs : list PlanRow) : result PlanInputError PlanResult :=
  match rs with
  | [] => Ok (finish st None false)
  | row :: rs =>
    if negb (is_safe_integer (mergeSeq row)) || negb (mergeSeq row =? headSeq st + 1)
    then Err (rows_not_consecutive (headSeq st + 1) (mergeSeq row))
    else if match deadline with Some d => d <? clock i | None => false end
    then Ok (finish st None true)
    else match plan_row already st row with
    | row_next st' => plan_loop already deadline clock (S i) st' rs
    | row_blocked r => Ok (finish st (Some (mergeSeq row, r)) false)
    | row_error e => Err e
    end
  end.

Definition start_state (i : PlanInput) : plan_state :=
  mkState [] (checkpoint_headSeq i) (checkpoint_headNumber i) [] (previousAssignedMergedAt i) 0 0.

Definition planMergeNumbers (input : PlanInput) : result PlanInputError PlanResult :=
  let deadline := (fun b => now input 0%nat + b) <$> budgetMs input in
  let seq := checkpoint_headSeq input in
  let number := checkpoint_headNumber input in
  if negb (is_safe_integer seq) || (seq <? 0) || negb (is_safe_integer number) || (number <? 0)
  then Err (checkpoint_not_nonnegative seq number)
  else if seq <? number then Err (number_exceeds_seq number seq)
  else plan_loop (isAlreadyNumbered input) deadline (now input) 1%nat (start_state input) (rows input).

Definition pr_row (seq pr : Z) : PlanRow := mkRow seq [] pr_confirmed (Some pr) None None None (Some seq).
Definition direct_row (seq : Z) : PlanRow := mkRow seq [] direct_confirmed None None None None None.
Definition open_row (seq : Z) : PlanRow := mkRow seq [] unresolved None None None None None.
Definition sample_rows : list PlanRow := [pr_row 4 70; direct_row 5; pr_row 6 71; open_row 7].
Definition sample_input (rs : list PlanRow) : PlanInput :=
  mkInput 3 2 rs None (fun _ => false) None (fun _ => 0).

Example plan_ex :
  planMergeNumbers (sample_input sample_rows)
  = Ok (mkResult [mkAssign 4 70 3 (Some 4); mkAssign 6 71 4 (Some 6)] 6 4
          (Some (7, pr_evidence_pending)) 0 0 false).
Proof. reflexivity. Qed.

(** ** The specification: a prefix of the rows, numbered in order *)

(** The assignments of confirmed rows, numbered from [n + 1]. *)
Fixpoint number_rows (n : Z) (rs : list PlanRow) : list PlanAssignment :=
  match rs with
  | [] => []
  | row :: rs =>
    match decision row, prNumber row with
    | pr_confirmed, Some pr => mkAssign (mergeSeq row) pr (n + 1) (mergedAt row) :: number_rows (n + 1) rs
    | _, _ => number_rows n rs
    end
  end.

Definition settled (row : PlanRow) : Prop :=
  decision row = direct_confirmed \/ (decision row = pr_confirmed ∧ is_Some (prNumber row)).

(** Row [i] of [rs] has sequence [h + 1 + i]. *)
Fixpoint consecutive (h : Z) (rs : list PlanRow) : Prop :=
  match rs with [] => True | row :: rs => mergeSeq row = h + 1 ∧ consecutive (h + 1) rs end.

Lemma plan_row_next already st row st' :
  mergeSeq row = headSeq st + 1 -> plan_row already st row = row_next st' ->
  settled row ∧ headSeq st' = headSeq st + 1 ∧
  st_assignments st' = st_assignments st ++ number_rows (headNumber st) [row] ∧
  headNumber st' = headNumber st + Z.of_nat (length (number_rows (headNumber st) [row])) ∧
  (forall pr, prNumber row = Some pr -> decision row = pr_confirmed ->
     already pr = false ∧ pr ∉ numberedThisRound st) ∧
  numberedThisRound st' = numberedThisRound st ++ map as_prNumber (number_rows (headNumber st) [row]) ∧
  (headNumber st <= MERGE_NUMBER_MAX -> headNumber st' <= MERGE_NUMBER_MAX).
Proof.
  intros Hs. unfold plan_row, settled. cbn [number_rows].
  destruct (stale_number st row); [done|].
  destruct (decision row) eqn:Ed; [| |done].
  - destruct (prNumber row) as [pr|] eqn:Ep; [|done].
    destruct (match existingPr row with Some e => _ | None => _ end); [done|].
    destruct (bool_decide _ || already pr) eqn:Ea; [done|].
    apply orb_false_iff in Ea as [Hin Ha]. apply bool_decide_eq_false in Hin.
    destruct (MERGE_NUMBER_MAX <? headNumber st + 1) eqn:Em; [done|]. apply Z.ltb_ge in Em.
    destruct (order_step st row) as [[prev mism] unk]. intros [= <-]. cbn.
    split_and!; try done; [right; by eauto|]. intros ? [= <-]. done.
  - intros [= <-]. cbn. rewrite !app_nil_r. split_and!; try done; [by left|lia].
Qed.

Lemma number_rows_app n a b :
  number_rows n (a ++ b)
  = number_rows n a ++ number_rows (n + Z.of_nat (length (number_rows n a))) b.
Proof.
  revert n. induction a as [|row a IH]; intros n; cbn [app number_rows].
  - by rewrite Z.add_0_r.
  - destruct (decision row), (prNumber row); rewrite IH; cbn [app length]; try done.
    by replace (n + 1 + Z.of_nat (length (number_rows (n + 1) a)))
      with (n + Z.of_nat (S (length (number_rows (n + 1) a)))) by lia.
Qed.

(** What a completed run establishes, from any state of the loop. *)
Lemma plan_loop_spec already deadline clock : forall rs i st r,
  plan_loop already deadline clock i st rs = Ok r ->
  ∃ done_ rest, rs = done_ ++ rest ∧ consecutive (headSeq st) done_ ∧ Forall settled done_ ∧
    nextHeadSeq r = headSeq st + Z.of_nat (length done_) ∧
    assignments r = st_assignments st ++ number_rows (headNumber st) done_ ∧
    nextHeadNumber r = headNumber st + Z.of_nat (length (number_rows (headNumber st) done_)) ∧
    (NoDup (numberedThisRound st) -> NoDup (numberedThisRound st ++ map as_prNumber (number_rows (headNumber st) done_))) ∧
    Forall (fun a => already (as_prNumber a) = false) (number_rows (headNumber st) done_) ∧
    (headNumber st <= MERGE_NUMBER_MAX -> nextHeadNumber r <= MERGE_NUMBER_MAX) ∧
    (is_safe_integer (headSeq st) = true -> is_safe_integer (nextHeadSeq r) = true) ∧
    match blocked r with
    | Some (s, _) => s = nextHeadSeq r + 1 ∧ rest <> [] ∧ budgetExhausted r = false
    | None => budgetExhausted r = true \/ rest = []
    end.
Proof.
  induction rs as [|row rs IH]; intros i st r; cbn [plan_loop].
  - intros [= <-]. exists [], []. cbn. rewrite !app_nil_r. split_and!; solve [done | lia | by right].
  - destruct (_ || _) eqn:Es; [done|]. apply orb_false_iff in Es as [Esafe Es].
    apply negb_false_iff in Esafe. apply negb_false_iff, Z.eqb_eq in Es.
    destruct (match deadline with Some d => _ | None => _ end).
    { intros [= <-]. exists [], (row :: rs). cbn. rewrite !app_nil_r.
      split_and!; solve [done | lia | by left]. }
    destruct (plan_row already st row) as [st'|b|e] eqn:Er; [| |done].
    + intros H. destruct (plan_row_next _ _ _ _ Es Er) as (H1 & H2 & H3 & H4 & H5 & H6 & H7).
      destruct (IH _ _ _ H) as (dn & rest & -> & G1 & G2 & G3 & G4 & G5 & G6 & G7 & G8 & G10 & G9).
      pose proof (number_rows_app (headNumber st) [row] dn) as Ha. cbn [app] in Ha.
      exists (row :: dn), rest. rewrite Ha. rewrite H2, H3, H4, H6 in *.
      split_and!; try done.
      * by constructor.
      * rewrite G3. cbn [length]. lia.
      * by rewrite G4, <- app_assoc.
      * rewrite G5, length_app. lia.
      * intros Hn. rewrite map_app, app_assoc. apply G6. apply list.NoDup_app.
        cbn [number_rows]. destruct (decision row) eqn:Ed, (prNumber row) as [pr|] eqn:Ep;
          cbn [map]; (split; [done|]; split;
            [|first [apply NoDup_singleton|constructor]]);
          intros x Hx Hin; try (by apply elem_of_nil in Hin).
        apply list_elem_of_singleton in Hin as ->. by destruct (H5 pr eq_refl eq_refl).
      * apply Forall_app. split; [|done]. cbn [number_rows].
        destruct (decision row) eqn:Ed, (prNumber row) as [pr|] eqn:Ep; try constructor; [|constructor].
        by destruct (H5 pr eq_refl eq_refl).
      * intros Hm. apply G8. by apply H7.
      * intros _. apply G10. by rewrite <- Es.
    + intros [= <-]. exists [], (row :: rs). cbn. rewrite !app_nil_r.
      split_and!; try done; lia.
Qed.

(** ** Simulation between two runs *)

Definition taken (already : Z -> bool) (st : plan_state) (pr : Z) : bool :=
  bool_decide (pr ∈ numberedThisRound st) || already pr.

(** Same place in the walk; the counters and what was assigned before may differ. *)
Record same_place (al al2 : Z -> bool) (st st2 : plan_state) : Prop := {
  sp_seq : headSeq st = headSeq st2;
  sp_number : headNumber st = headNumber st2;
  sp_merged : previousMergedAt st = previousMergedAt st2;
  sp_taken : forall pr, taken al st pr = taken al2 st2 pr
}.

(** The results of two runs from the same place: equal errors, equal stops, and the
    same additions to what each had. *)
Definition same_progress (st st2 : plan_state) (r r2 : result PlanInputError PlanResult) : Prop :=
  match r, r2 with
  | Err e, Err e2 => e = e2
  | Ok r, Ok r2 =>
    ∃ xs dm du,
      assignments r = st_assignments st ++ xs ∧ assignments r2 = st_assignments st2 ++ xs ∧
      nextHeadSeq r = nextHeadSeq r2 ∧ nextHeadNumber r = nextHeadNumber r2 ∧
      blocked r = blocked r2 ∧ budgetExhausted r = budgetExhausted r2 ∧
      orderMismatches r = st_mismatches st + dm ∧ orderMismatches r2 = st_mismatches st2 + dm ∧
      orderUnknown r = st_unknown st + du ∧ orderUnknown r2 = st_unknown st2 + du
  | _, _ => False
  end.

Lemma plan_row_sim al al2 st st2 row :
  same_place al al2 st st2 ->
  match plan_row al st row, plan_row al2 st2 row with
  | row_next s, row_next s2 =>
    same_place al al2 s s2 ∧ ∃ xs dm du,
      st_assignments s = st_assignments st ++ xs ∧ st_assignments s2 = st_assignments st2 ++ xs ∧
      st_mismatches s = st_mismatches st + dm ∧ st_mismatches s2 = st_mismatches st2 + dm ∧
      st_unknown s = st_unknown st + du ∧ st_unknown s2 = st_unknown st2 + du
  | row_blocked b, row_blocked b2 => b = b2
  | row_error e, row_error e2 => e = e2
  | _, _ => False
  end.
Proof.
  intros [H1 H2 H3 H4]. unfold plan_row, stale_number. rewrite H2.
  destruct (match existingNumber row with Some n => _ | None => _ end); [done|].
  destruct (decision row); [| |done].
  - destruct (prNumber row) as [pr|]; [|done].
    destruct (match existingPr row with Some e => _ | None => _ end); [done|].
    pose proof (H4 pr) as Ht. unfold taken in Ht. rewrite Ht.
    destruct (bool_decide _ || al2 pr); [done|].
    destruct (MERGE_NUMBER_MAX <? headNumber st2 + 1); [done|].
    assert (∃ dm du, order_step st row = ((order_step st2 row).1.1, st_mismatches st + dm, st_unknown st + du) ∧
      order_step st2 row = ((order_step st2 row).1.1, st_mismatches st2 + dm, st_unknown st2 + du))
      as (dm & du & -> & ->).
    { unfold order_step. rewrite H3. destruct (mergedAt row) as [m|].
      - destruct (previousMergedAt st2) as [p|]; [destruct (m <? p)|]; cbn;
          [exists 1, 0|exists 0, 0|exists 0, 0]; rewrite ?Z.add_0_r; done.
      - exists 0, 1. cbn. rewrite ?Z.add_0_r. done. }
    split.
    + split; cbn; try done. intros x. specialize (H4 x). unfold taken in *. cbn.
      rewrite !(bool_decide_ext (x ∈ _ ++ [pr]) _ (elem_of_app _ _ _)).
      rewrite !bool_decide_or. rewrite <- !orb_assoc, !(orb_comm _ (_ x)), !orb_assoc.
      by rewrite H4.
    + by eexists _, dm, du.
  - split; [by split|]. exists [], 0, 0. cbn. rewrite !app_nil_r, !Z.add_0_r. done.
Qed.

Lemma plan_loop_sim al al2 clock clock2 : forall rs i j st st2,
  same_place al al2 st st2 ->
  same_progress st st2 (plan_loop al None clock i st rs) (plan_loop al2 None clock2 j st2 rs).
Proof.
  induction rs as [|row rs IH]; intros i j st st2 Hs; cbn [plan_loop].
  - exists [], 0, 0. destruct Hs. cbn. rewrite !app_nil_r, !Z.add_0_r. done.
  - rewrite (sp_seq _ _ _ _ Hs). destruct (_ || _); [done|].
    pose proof (plan_row_sim _ _ _ _ row Hs) as Hr.
    destruct (plan_row al st row) as [s|b|e], (plan_row al2 st2 row) as [s2|b2|e2]; try done.
    + destruct Hr as (Hs' & xs & dm & du & A1 & A2 & M1 & M2 & U1 & U2).
      specialize (IH (S i) (S j) s s2 Hs').
      unfold same_progress in *.
      destruct (plan_loop al None clock (S i) s rs), (plan_loop al2 None clock2 (S j) s2 rs); try done.
      destruct IH as (ys & dm' & du' & B1 & B2 & C1 & C2 & C3 & C4 & D1 & D2 & E1 & E2).
      exists (xs ++ ys), (dm + dm'), (du + du').
      rewrite B1, B2, A1, A2, <- !app_assoc. split_and!; try done; lia.
    + subst b2. exists [], 0, 0. destruct Hs. cbn. rewrite !app_nil_r, !Z.add_0_r. split_and!; done.
Qed.

(** [previousMergedAt] after a run: the last known merge time. *)
Definition last_merged (prev : option Z) (l : list PlanAssignment) : option Z :=
  foldl (fun p a => match as_mergedAt a with Some m => Some m | None => p end) prev l.

Lemma plan_row_previous al st row s :
  plan_row al st row = row_next s ->
  previousMergedAt s = last_merged (previousMergedAt st) (number_rows (headNumber st) [row]).
Proof.
  unfold plan_row. destruct (stale_number st row); [done|]. cbn [number_rows].
  destruct (decision row); [| |done].
  - destruct (prNumber row) as [pr|]; [|done].
    destruct (match existingPr row with Some e => _ | None => _ end); [done|].
    destruct (_ || _); [done|]. destruct (_ <? _); [done|].
    unfold order_step. destruct (mergedAt row) eqn:E; intros [= <-]; cbn; by rewrite ?E.
  - by intros [= <-].
Qed.

(** A run over [rs1 ++ rs2] that is not stopped in [rs1]. *)
Lemma plan_loop_app al clock : forall rs1 rs2 i st r1,
  plan_loop al None clock i st rs1 = Ok r1 -> blocked r1 = None ->
  ∃ st1 j, r1 = finish st1 None false ∧
    plan_loop al None clock i st (rs1 ++ rs2) = plan_loop al None clock j st1 rs2 ∧
    numberedThisRound st1 = numberedThisRound st ++ map as_prNumber (number_rows (headNumber st) rs1) ∧
    previousMergedAt st1 = last_merged (previousMergedAt st) (number_rows (headNumber st) rs1).
Proof.
  induction rs1 as [|row rs1 IH]; intros rs2 i st r1; cbn [plan_loop app].
  - intros [= <-] _. exists st, i. cbn. by rewrite app_nil_r.
  - destruct (_ || _) eqn:Es; [done|]. apply orb_false_iff in Es as [_ Es].
    apply negb_false_iff, Z.eqb_eq in Es.
    destruct (plan_row al st row) as [s|b|e] eqn:Er; [|by intros [= <-]|done].
    intros H Hb. destruct (IH rs2 (S i) s r1 H Hb) as (st1 & j & H1 & H2 & H3 & H4).
    exists st1, j. rewrite H3, H4.
    destruct (plan_row_next _ _ _ _ Es Er) as (_ & _ & _ & G4 & _ & G6 & _).
    rewrite G4, G6, <- app_assoc, (plan_row_previous _ _ _ _ Er).
    pose proof (number_rows_app (headNumber st) [row] rs1) as Ha. cbn [app] in Ha.
    rewrite Ha, map_app. unfold last_merged. by rewrite foldl_app.
Qed.

Lemma number_rows_length n rs : (length (number_rows n rs) <= length rs)%nat.
Proof.
  revert n. induction rs as [|row rs IH]; intros n; [done|]. cbn [number_rows length].
  destruct (decision row), (prNumber row); cbn [length]; pose proof (IH n); pose proof (IH (n + 1)); lia.
Qed.

Definition checkpoint_ok (seq number : Z) : Prop :=
  is_safe_integer seq = true ∧ 0 <= number <= seq.

Lemma plan_start input :
  checkpoint_ok (checkpoint_headSeq input) (checkpoint_headNumber input) ->
  planMergeNumbers input = plan_loop (isAlreadyNumbered input)
    ((fun b => now input 0%nat + b) <$> budgetMs input) (now input) 1%nat (start_state input) (rows input).
Proof.
  intros [Hs Hn]. unfold planMergeNumbers. cbv zeta. rewrite Hs.
  apply is_safe_integer_spec in Hs as Hs'.
  rewrite (proj2 (is_safe_integer_spec (checkpoint_headNumber input))) by (unfold MAX_SAFE_INTEGER in *; lia).
  rewrite !(proj2 (Z.ltb_ge _ _)) by lia. done.
Qed.

Lemma plan_accepts input r :
  planMergeNumbers input = Ok r -> checkpoint_ok (checkpoint_headSeq input) (checkpoint_headNumber input).
Proof.
  unfold planMergeNumbers. cbv zeta. destruct (_ || _ || _ || _) eqn:E; [done|].
  destruct (checkpoint_headSeq input <? checkpoint_headNumber input) eqn:E2; [discriminate|]. intros _. rewrite !orb_false_iff in E.
  destruct E as [[[E0 ?] _] ?]. apply negb_false_iff in E0.
  unfold checkpoint_ok. split; [done|]. blia.
Qed.

(** ** What the assignments are *)

Lemma number_rows_numbers n rs :
  map as_mergeNumber (number_rows n rs) = seqZ (n + 1) (Z.of_nat (length (number_rows n rs))).
Proof.
  revert n. induction rs as [|row rs IH]; intros n; [done|]. cbn [number_rows].
  destruct (decision row), (prNumber row); try apply IH.
  cbn [map length as_mergeNumber]. rewrite seqZ_cons by lia. f_equal. rewrite IH. f_equal; lia.
Qed.

Lemma number_rows_elem n rs a :
  a ∈ number_rows n rs -> ∃ row, row ∈ rs ∧ mergeSeq row = as_mergeSeq a ∧ prNumber row = Some (as_prNumber a) ∧
    decision row = pr_confirmed.
Proof.
  revert n. induction rs as [|row rs IH]; intros n H; [by apply elem_of_nil in H|]. cbn [number_rows] in H.
  assert (forall m, a ∈ number_rows m rs -> ∃ row', row' ∈ row :: rs ∧ mergeSeq row' = as_mergeSeq a ∧
    prNumber row' = Some (as_prNumber a) ∧ decision row' = pr_confirmed) as Hrec.
  { intros m Hm. apply IH in Hm as (row' & ? & ?). exists row'. split; [by right|done]. }
  destruct (decision row) eqn:Ed, (prNumber row) eqn:Ep; try (by eapply Hrec).
  apply elem_of_cons in H as [->|H]; [|by eapply Hrec]. exists row. split; [by left|]. cbn. by split_and!.
Qed.

Lemma consecutive_gt h rs row : consecutive h rs -> row ∈ rs -> h < mergeSeq row <= h + Z.of_nat (length rs).
Proof.
  revert h. induction rs as [|x rs IH]; intros h Hc H; [by apply elem_of_nil in H|]. destruct Hc as [Hx Hc].
  cbn [length]. apply elem_of_cons in H as [->|H]; [lia|]. specialize (IH _ Hc H). lia.
Qed.

Lemma number_rows_gt n h rs a : consecutive h rs -> a ∈ number_rows n rs -> h < as_mergeSeq a.
Proof. intros Hc (row & Hr & <- & _)%number_rows_elem. by apply (consecutive_gt h rs row). Qed.

Lemma number_rows_NoDup n h rs : consecutive h rs -> NoDup (map as_mergeSeq (number_rows n rs)).
Proof.
  revert n h. induction rs as [|row rs IH]; intros n h Hc; [constructor|]. destruct Hc as [Hx Hc].
  cbn [number_rows]. destruct (decision row), (prNumber row); try (by eapply IH).
  cbn [map as_mergeSeq]. constructor; [|by eapply IH]. intros H.
  apply list_elem_of_fmap in H as (a & He & Ha). apply (number_rows_gt _ _ _ _ Hc) in Ha. lia.
Qed.

(** The numbers of the rows that were settled, read in the order of the rows. *)
Lemma omap_numbers f rs : forall h k,
  consecutive h rs ->
  (forall a, a ∈ number_rows k rs -> f (as_mergeSeq a) = Some (as_mergeNumber a)) ->
  (forall row, row ∈ rs -> mergeSeq row ∉ map as_mergeSeq (number_rows k rs) -> f (mergeSeq row) = None) ->
  omap f (seqZ (h + 1) (Z.of_nat (length rs))) = map as_mergeNumber (number_rows k rs).
Proof.
  induction rs as [|row rs IH]; intros h k Hc Ha Hn; [done|]. pose proof Hc as [Hx Hc'].
  cbn [length]. rewrite seqZ_cons by lia. cbn [omap list_omap].
  replace (Z.succ (h + 1)) with (h + 1 + 1) by lia. replace (Z.pred (Z.of_nat (S (length rs)))) with (Z.of_nat (length rs)) by lia.
  assert (forall row', row' ∈ rs -> mergeSeq row' <> mergeSeq row) as Hne.
  { intros row' Hr. apply (consecutive_gt _ _ _ Hc') in Hr. lia. }
  assert ((∃ pr, prNumber row = Some pr ∧
             number_rows k (row :: rs) = mkAssign (mergeSeq row) pr (k + 1) (mergedAt row) :: number_rows (k + 1) rs) \/
          number_rows k (row :: rs) = number_rows k rs) as Hcase.
  { cbn [number_rows]. destruct (decision row), (prNumber row) as [pr|]; try (by right). left. by exists pr. }
  destruct Hcase as [(pr & _ & Heq)|Heq]; rewrite Heq in *.
  - pose proof (Ha _ (list_elem_of_here _ _)) as Hf. cbn in Hf. rewrite <- Hx, Hf. cbn [map as_mergeNumber]. f_equal.
    rewrite Hx. apply IH; [done| |].
    + intros a Hin. apply Ha. by right.
    + intros row' Hr Hnot. apply Hn; [by right|]. cbn [map as_mergeSeq]. intros [He|?]%elem_of_cons; [|done].
      by apply (Hne row' Hr).
  - assert (f (h + 1) = None) as ->.
    { rewrite <- Hx. apply Hn; [by left|]. intros Hin. apply list_elem_of_fmap in Hin as (a & He & Hin).
      apply (number_rows_gt _ _ _ _ Hc') in Hin. lia. }
    apply IH; [done|done|]. intros row' Hr Hnot. apply Hn; [by right|done].
Qed.

(** The planner gives a number only where the stored pull request is absent or the same. *)
Lemma plan_loop_existing already deadline clock : forall rs i st r,
  plan_loop already deadline clock i st rs = Ok r ->
  forall a, a ∈ assignments r -> a ∈ st_assignments st \/
    ∃ row, row ∈ rs ∧ mergeSeq row = as_mergeSeq a ∧
      (existingPr row = None \/ existingPr row = Some (as_prNumber a)).
Proof.
  induction rs as [|row rs IH]; intros i st r H a Ha; cbn [plan_loop] in H.
  - injection H as <-. by left.
  - destruct (_ || _); [discriminate|]. destruct (match deadline with Some d => d <? clock i | None => false end);
      [injection H as <-; by left|].
    destruct (plan_row already st row) as [st'|reason|e] eqn:E; [|injection H as <-; by left|discriminate].
    destruct (IH _ _ _ H a Ha) as [Hin|(row' & ? & ?)]; [|right; exists row'; split; [by right|done]].
    unfold plan_row in E. destruct (stale_number st row); [discriminate|].
    destruct (decision row); [|injection E as <-; by left|discriminate].
    destruct (prNumber row) as [pr|]; [|discriminate].
    destruct (match existingPr row with Some e => negb (e =? pr) | None => false end) eqn:Ee; [discriminate|].
    destruct (bool_decide _ || _); [discriminate|]. destruct (MERGE_NUMBER_MAX <? _); [discriminate|].
    destruct (order_step st row) as [[? ?] ?]. injection E as <-. cbn [st_assignments] in Hin.
    apply elem_of_app in Hin as [?|Hin]; [by left|]. apply list_elem_of_singleton in Hin as ->.
    right. exists row. split; [by left|]. cbn. split; [done|].
    destruct (existingPr row) as [e|]; [right|by left]. f_equal. apply negb_false_iff in Ee. lia.
Qed.
Lemma plan_existing input r a :
  planMergeNumbers input = Ok r -> a ∈ assignments r ->
  ∃ row, row ∈ rows input ∧ mergeSeq row = as_mergeSeq a ∧
    (existingPr row = None \/ existingPr row = Some (as_prNumber a)).
Proof.
  intros H Ha. pose proof (plan_accepts _ _ H) as Hc. rewrite plan_start in H by done.
  destruct (plan_loop_existing _ _ _ _ _ _ _ H a Ha) as [Hin|?]; [by apply elem_of_nil in Hin|done].
Qed.

(** The planner refuses no input of a checkpoint, consecutive rows and complete decisions. *)
Lemma plan_loop_total already deadline clock : forall rs i st,
  consecutive (headSeq st) rs -> (forall row, row ∈ rs -> is_safe_integer (mergeSeq row) = true) ->
  (forall row, row ∈ rs -> decision row = pr_confirmed -> is_Some (prNumber row)) ->
  ∃ r, plan_loop already deadline clock i st rs = Ok r.
Proof.
  induction rs as [|row rs IH]; intros i st Hc Hs Hp; [by eexists|]. destruct Hc as [Hx Hc]. cbn [plan_loop].
  rewrite (Hs row) by by left. rewrite Hx, Z.eqb_refl. cbn [negb orb].
  destruct (match deadline with Some d => _ | None => _ end); [by eexists|].
  destruct (plan_row already st row) as [st'|b|e] eqn:E; [|by eexists|].
  - destruct (plan_row_next _ _ _ _ Hx E) as (_ & Hh & _).
    apply IH; [by rewrite Hh| |]; intros; [apply Hs|apply Hp]; try done; by right.
  - exfalso. unfold plan_row in E. destruct (stale_number st row); [discriminate|].
    destruct (decision row) eqn:Ed; try discriminate. destruct (Hp row ltac:(by left) Ed) as [pr Hpr].
    rewrite Hpr in E. destruct (match existingPr row with Some e => _ | None => _ end); [discriminate|].
    destruct (_ || _); [discriminate|]. destruct (_ <? _); [discriminate|]. by destruct (order_step st row) as [[? ?] ?].
Qed.
Lemma plan_total input :
  checkpoint_ok (checkpoint_headSeq input) (checkpoint_headNumber input) ->
  consecutive (checkpoint_headSeq input) (rows input) ->
  (forall row, row ∈ rows input -> is_safe_integer (mergeSeq row) = true) ->
  (forall row, row ∈ rows input -> decision row = pr_confirmed -> is_Some (prNumber row)) ->
  ∃ r, planMergeNumbers input = Ok r.
Proof. intros H1 H2 H3 H4. rewrite plan_start by done. by apply plan_loop_total. Qed.

(** ** Theorems *)

(** [C34] The planner settles a prefix of the rows and nothing else: consecutive rows from
    the checkpoint, each a direct push or a confirmed pull request; the pull requests get
    the consecutive numbers after the checkpoint in row order, none gets two numbers or
    one already numbered, and the new checkpoint is the end of the prefix (with at most
    [MERGE_NUMBER_MAX] numbers).  It stops short only before a blocked row or on budget. *)
Theorem plan_numbers_prefix input r :
  planMergeNumbers input = Ok r ->
  ∃ done_ rest, rows input = done_ ++ rest ∧
    consecutive (checkpoint_headSeq input) done_ ∧ Forall settled done_ ∧
    assignments r = number_rows (checkpoint_headNumber input) done_ ∧
    nextHeadSeq r = checkpoint_headSeq input + Z.of_nat (length done_) ∧
    nextHeadNumber r = checkpoint_headNumber input + Z.of_nat (length (assignments r)) ∧
    nextHeadNumber r <= MERGE_NUMBER_MAX ∧
    NoDup (map as_prNumber (assignments r)) ∧
    Forall (fun a => isAlreadyNumbered input (as_prNumber a) = false) (assignments r) ∧
    match blocked r with
    | Some (s, _) => s = nextHeadSeq r + 1 ∧ rest <> []
    | None => budgetExhausted r = true \/ rest = []
    end.
Proof.
  intros H. pose proof (plan_accepts _ _ H) as Hc. rewrite plan_start in H by done.
  destruct (plan_loop_spec _ _ _ _ _ _ _ H) as (dn & rest & H1 & H2 & H3 & H4 & H5 & H6 & H7 & H8 & H9 & _ & H10).
  cbn in *. exists dn, rest. rewrite H5 in *. destruct Hc as [Hs%is_safe_integer_spec Hn].
  split_and!; try done.
  - apply H9. unfold MERGE_NUMBER_MAX, MAX_SAFE_INTEGER in *. lia.
  - apply H7. constructor.
  - destruct (blocked r) as [[s b]|]; [|done]. destruct H10 as (?&?&?); done.
Qed.
Lemma plan_numbers_prefix_witness :
  ∃ done_ rest, sample_rows = done_ ++ rest ∧
    consecutive 3 done_ ∧ Forall settled done_ ∧
    [mkAssign 4 70 3 (Some 4); mkAssign 6 71 4 (Some 6)] = number_rows 2 done_ ∧
    6 = 3 + Z.of_nat (length done_) ∧ 4 = 2 + 2 ∧ 4 <= MERGE_NUMBER_MAX ∧
    NoDup [70; 71] ∧
    Forall (fun a => false = false) [mkAssign 4 70 3 (Some 4); mkAssign 6 71 4 (Some 6)] ∧
    (7 = 6 + 1 ∧ rest <> []).
Proof.
  exact (plan_numbers_prefix (sample_input sample_rows)
    (mkResult [mkAssign 4 70 3 (Some 4); mkAssign 6 71 4 (Some 6)] 6 4
       (Some (7, pr_evidence_pending)) 0 0 false) eq_refl).
Defined.

(** The next run: the stored checkpoint, the merge time of the last numbered pull
    request, and the numbers given so far. *)
Definition resume (input : PlanInput) (r : PlanResult) (rs : list PlanRow) : PlanInput :=
  mkInput (nextHeadSeq r) (nextHeadNumber r) rs
    (last_merged (previousAssignedMergedAt input) (assignments r))
    (fun pr => bool_decide (pr ∈ map as_prNumber (assignments r)) || isAlreadyNumbered input pr)
    (budgetMs input) (now input).

Definition with_rows (input : PlanInput) (rs : list PlanRow) : PlanInput :=
  mkInput (checkpoint_headSeq input) (checkpoint_headNumber input) rs
    (previousAssignedMergedAt input) (isAlreadyNumbered input) (budgetMs input) (now input).

(** Batching does not change the numbers: planning [rs1] and then, from the stored
    checkpoint, [rs2] gives what planning [rs1 ++ rs2] gives: the same assignments, end,
    stop, order counters and errors. *)
Theorem plan_resume input rs1 rs2 r1 :
  budgetMs input = None ->
  planMergeNumbers (with_rows input rs1) = Ok r1 -> blocked r1 = None ->
  match planMergeNumbers (with_rows input (rs1 ++ rs2)), planMergeNumbers (resume input r1 rs2) with
  | Ok r, Ok r2 =>
    assignments r = assignments r1 ++ assignments r2 ∧
    nextHeadSeq r = nextHeadSeq r2 ∧ nextHeadNumber r = nextHeadNumber r2 ∧
    blocked r = blocked r2 ∧
    orderMismatches r = orderMismatches r1 + orderMismatches r2 ∧
    orderUnknown r = orderUnknown r1 + orderUnknown r2
  | Err e, Err e2 => e = e2
  | _, _ => False
  end.
Proof.
  intros Hbud H1 Hb. pose proof (plan_accepts _ _ H1) as Hc. cbn in Hc.
  pose proof H1 as H1'. rewrite plan_start in H1 by done. rewrite plan_start by done.
  cbn in H1 |- *. rewrite Hbud in *. cbn in H1 |- *.
  destruct (plan_loop_spec _ _ _ _ _ _ _ H1) as (dn & rest & E1 & _ & _ & E4 & E5 & E6 & _ & _ & E9 & E10 & E11).
  destruct (plan_loop_app _ _ _ rs2 _ _ _ H1 Hb) as (st1 & j & -> & H3 & H4 & H5).
  cbn in E4, E5, E6, E9, E10, E11, H4, H5. destruct E11 as [|E11]; [done|].
  rewrite E11, app_nil_r in E1. subst rs1.
  pose proof (number_rows_length (checkpoint_headNumber input) dn) as Hl.
  destruct Hc as [Hs Hn]. rewrite plan_start.
  2:{ cbn. split; [by apply E10|]. lia. }
  change (start_state (with_rows input (dn ++ rs2))) with (start_state (with_rows input dn)).
  rewrite H3. cbn. rewrite Hbud. cbn.
  pose proof (plan_loop_sim (isAlreadyNumbered input) (isAlreadyNumbered (resume input (finish st1 None false) rs2))
    (now input) (now input) rs2 j 1 st1 (start_state (resume input (finish st1 None false) rs2))) as Hsim.
  unfold same_progress in Hsim. cbn in Hsim.
  assert (same_place (isAlreadyNumbered input) (isAlreadyNumbered (resume input (finish st1 None false) rs2))
    st1 (start_state (resume input (finish st1 None false) rs2))) as Hplace.
  { split; cbn; [done|done|by rewrite H5, E5|]. intros pr. unfold taken. cbn. by rewrite H4, E5. }
  specialize (Hsim Hplace). cbn in Hsim.
  destruct (plan_loop (isAlreadyNumbered input) None (now input) j st1 rs2),
    (plan_loop _ None (now input) 1 _ rs2); try done.
  destruct Hsim as (xs & dm & du & S1 & S2 & S3 & S4 & S5 & S6 & S7 & S8 & S9 & S10).
  cbn in *. subst xs. split_and!; try done; lia.
Qed.
Lemma plan_resume_witness :
  planMergeNumbers (with_rows (sample_input []) (sample_rows ++ []))
  = Ok (mkResult [mkAssign 4 70 3 (Some 4); mkAssign 6 71 4 (Some 6)] 6 4
          (Some (7, pr_evidence_pending)) 0 0 false) ∧
  match planMergeNumbers (with_rows (sample_input []) (([pr_row 4 70; direct_row 5]) ++ [pr_row 6 71])),
        planMergeNumbers (resume (sample_input []) (mkResult [mkAssign 4 70 3 (Some 4)] 5 3 None 0 0 false) [pr_row 6 71]) with
  | Ok r, Ok r2 =>
    assignments r = [mkAssign 4 70 3 (Some 4)] ++ assignments r2 ∧
    nextHeadSeq r = nextHeadSeq r2 ∧ nextHeadNumber r = nextHeadNumber r2 ∧
    blocked r = blocked r2 ∧
    orderMismatches r = 0 + orderMismatches r2 ∧ orderUnknown r = 0 + orderUnknown r2
  | Err e, Err e2 => e = e2
  | _, _ => False
  end.
Proof.
  split; [reflexivity|].
  exact (plan_resume (sample_input []) [pr_row 4 70; direct_row 5] [pr_row 6 71]
    (mkResult [mkAssign 4 70 3 (Some 4)] 5 3 None 0 0 false) eq_refl eq_refl eq_refl).
Defined.
