(* ===== verification/Integrity.v ===== *)
(** * Sequence numbers and their integrity

    [numberCommits] of [apps/pipeline-worker/src/sequence-plan.ts] and
    [packages/domain/src/integrity.ts], the check of stored numbers against the
    first-parent chain. *)

From stdpp Require Import base list option strings numbers.
From Stdlib Require Import ZArith Lia.
From S2P Require Import Prelude JsString.
Open Scope Z_scope.

(** ** sequence-plan.ts *)

Record ChainCommit : Set := mkCommit { c_sha : jstr; c_committedAt : jstr }.
Record NumberedCommit : Set := mkNumbered {
  nc_mergeSeq : Z; nc_sha : jstr; nc_committedAt : jstr
}.

Definition isSequenceBranch (sequenceBranches : list jstr) (branch : jstr) : bool :=
  mem branch sequenceBranches.

Definition numberCommits (headSeq : Z) (commits : list ChainCommit) : list NumberedCommit :=
  imap (fun index c => mkNumbered (headSeq + Z.of_nat index + 1) (c_sha c) (c_committedAt c)) commits.

(** ** integrity.ts *)

Record StoredSequenceEntry : Set := mkStored { mergeSeq : Z; commitSha : jstr }.
Record SequenceMismatch : Set := mkMismatch {
  mm_mergeSeq : Z; storedCommitSha : jstr; actualCommitSha : option jstr
}.

(** [[...stored].sort((a, b) => a.mergeSeq - b.mergeSeq)]; the sort is stable. *)
Fixpoint insert_entry (e : StoredSequenceEntry) (l : list StoredSequenceEntry) :=
  match l with
  | [] => [e]
  | h :: t => if mergeSeq e <=? mergeSeq h then e :: h :: t else h :: insert_entry e t
  end.
Definition sort_entries (l : list StoredSequenceEntry) : list StoredSequenceEntry :=
  foldr insert_entry [] l.

(** [actualOldestFirst[seq - 1] ?? null] *)
Definition chain_at (chain : list jstr) (seq : Z) : option jstr :=
  if seq <? 1 then None else chain !! Z.to_nat (seq - 1).

Fixpoint scan_mismatch (chain : list jstr) (l : list StoredSequenceEntry) : option SequenceMismatch :=
  match l with
  | [] => None
  | e :: l =>
    match chain_at chain (mergeSeq e) with
    | None => Some (mkMismatch (mergeSeq e) (commitSha e) None)
    | Some actual =>
      if negb (jeqb (ascii_lower actual) (ascii_lower (commitSha e)))
      then Some (mkMismatch (mergeSeq e) (commitSha e) (Some actual))
      else scan_mismatch chain l
    end
  end.

Definition firstSequenceMismatch (stored : list StoredSequenceEntry) (actualOldestFirst : list jstr)
  : option SequenceMismatch :=
  scan_mismatch actualOldestFirst (sort_entries stored).

Definition INTEGRITY_SAMPLE_SIZE : Z := 1000.
Definition sampleFromSeq (headSeq sampleSize : Z) : Z := Z.max 1 (headSeq - sampleSize + 1).

Example mismatch_ex :
  firstSequenceMismatch [mkStored 3 (js "cc"); mkStored 2 (js "xx"); mkStored 1 (js "AA")]
    [js "aa"; js "bb"; js "cc"]
  = Some (mkMismatch 2 (js "xx") (Some (js "bb"))).
Proof. reflexivity. Qed.

(** ** Lemmas *)

Lemma insert_entry_elem e l x : x ∈ insert_entry e l <-> x = e \/ x ∈ l.
Proof.
  induction l as [|h t IH]; cbn [insert_entry].
  - by rewrite elem_of_cons.
  - destruct (mergeSeq e <=? mergeSeq h); rewrite !elem_of_cons, ?IH; tauto.
Qed.
Lemma sort_entries_elem l x : x ∈ sort_entries l <-> x ∈ l.
Proof.
  induction l as [|e l IH]; [done|]. cbn [sort_entries foldr].
  rewrite insert_entry_elem, elem_of_cons. fold (sort_entries l). by rewrite IH.
Qed.

Fixpoint ascending (l : list StoredSequenceEntry) : Prop :=
  match l with
  | [] => True
  | e :: l => (forall x, x ∈ l -> mergeSeq e <= mergeSeq x) ∧ ascending l
  end.
Lemma insert_ascending e l : ascending l -> ascending (insert_entry e l).
Proof.
  induction l as [|h t IH]; cbn [insert_entry ascending].
  - intros _. split; [|done]. intros x Hx. by apply elem_of_nil in Hx.
  - intros [Hh Ht]. destruct (Z.leb_spec (mergeSeq e) (mergeSeq h)); cbn [ascending].
    + split; [|done]. intros x [->|Hx]%elem_of_cons; [done|]. specialize (Hh x Hx). lia.
    + split; [|by apply IH]. intros x [->|Hx]%insert_entry_elem; [lia|auto].
Qed.
Lemma sort_ascending l : ascending (sort_entries l).
Proof. induction l; [done|]. by apply insert_ascending. Qed.

(** A stored entry is the commit the chain has at its place. *)
Definition agrees (chain : list jstr) (e : StoredSequenceEntry) : bool :=
  match chain_at chain (mergeSeq e) with
  | Some actual => jeqb (ascii_lower actual) (ascii_lower (commitSha e))
  | None => false
  end.

Lemma scan_None chain l : scan_mismatch chain l = None <-> forall e, e ∈ l -> agrees chain e = true.
Proof.
  unfold agrees. induction l as [|e l IH]; cbn [scan_mismatch].
  - split; [intros _ x Hx; by apply elem_of_nil in Hx|done].
  - split.
    + intros H x [->|Hx]%elem_of_cons; destruct (chain_at chain (mergeSeq e)) as [a|]; try done;
        destruct (jeqb _ _) eqn:E; try done. by apply IH.
    + intros H. pose proof (H e ltac:(by left)) as He.
      destruct (chain_at chain (mergeSeq e)) as [a|]; [|done]. rewrite He. cbn [negb].
      apply IH. intros x Hx. apply H. by right.
Qed.

Lemma scan_Some chain l m :
  ascending l -> scan_mismatch chain l = Some m ->
  ∃ e, e ∈ l ∧ mergeSeq e = mm_mergeSeq m ∧ commitSha e = storedCommitSha m ∧
    actualCommitSha m = chain_at chain (mergeSeq e) ∧ agrees chain e = false ∧
    forall x, x ∈ l -> mergeSeq x < mergeSeq e -> agrees chain x = true.
Proof.
  unfold agrees. induction l as [|e l IH]; cbn [scan_mismatch ascending]; [done|].
  intros [Hle Hasc]. destruct (chain_at chain (mergeSeq e)) as [a|] eqn:Ec.
  - destruct (jeqb _ _) eqn:E; cbn [negb].
    + intros H. destruct (IH Hasc H) as (x & Hx & H1 & H2 & H3 & H4 & H5).
      exists x. split; [by right|]. split_and!; try done.
      intros y [->|Hy]%elem_of_cons Hlt; [by rewrite Ec|auto].
    + intros [= <-]. exists e. cbn. rewrite Ec, E. split; [by left|]. split_and!; try done.
      intros y [->|Hy]%elem_of_cons Hlt; [lia|]. specialize (Hle y Hy). lia.
  - intros [= <-]. exists e. cbn. rewrite Ec. split; [by left|]. split_and!; try done.
    intros y [->|Hy]%elem_of_cons Hlt; [lia|]. specialize (Hle y Hy). lia.
Qed.

(** ** Theorems *)

(** The check reports nothing exactly when every stored number is the place of its
    commit in the chain (a chain longer than what is stored is no mismatch), and
    otherwise it reports an entry that disagrees, below which every entry agrees, with
    the commit the chain has there or its absence. *)
Theorem firstSequenceMismatch_spec stored chain :
  match firstSequenceMismatch stored chain with
  | None => forall e, e ∈ stored -> agrees chain e = true
  | Some m =>
    ∃ e, e ∈ stored ∧ mergeSeq e = mm_mergeSeq m ∧ commitSha e = storedCommitSha m ∧
      actualCommitSha m = chain_at chain (mergeSeq e) ∧ agrees chain e = false ∧
      forall x, x ∈ stored -> mergeSeq x < mergeSeq e -> agrees chain x = true
  end.
Proof.
  unfold firstSequenceMismatch. destruct (scan_mismatch chain _) as [m|] eqn:E.
  - apply scan_Some in E as (e & H1 & H2 & H3 & H4 & H5 & H6); [|apply sort_ascending].
    exists e. rewrite sort_entries_elem in H1. setoid_rewrite sort_entries_elem in H6. done.
  - rewrite scan_None in E. setoid_rewrite sort_entries_elem in E. done.
Qed.

Lemma numberCommits_cons h c cs :
  numberCommits h (c :: cs) = mkNumbered (h + 1) (c_sha c) (c_committedAt c) :: numberCommits (h + 1) cs.
Proof.
  unfold numberCommits. rewrite imap_cons. f_equal; [f_equal; lia|].
  apply imap_ext. intros i x _. cbn. f_equal. lia.
Qed.

Definition stored_of (n : NumberedCommit) : StoredSequenceEntry := mkStored (nc_mergeSeq n) (nc_sha n).

Lemma numbered_agree pre cs :
  forall e, e ∈ map stored_of (numberCommits (Z.of_nat (length pre)) cs) ->
  agrees (pre ++ map c_sha cs) e = true.
Proof.
  revert pre. induction cs as [|c cs IH]; intros pre e; [intros He; by apply elem_of_nil in He|].
  rewrite numberCommits_cons. cbn [map]. intros [->|He]%elem_of_cons.
  - unfold agrees, chain_at, stored_of. cbn [mergeSeq commitSha nc_mergeSeq nc_sha].
    rewrite (proj2 (Z.ltb_ge _ 1)) by lia.
    replace (Z.to_nat (Z.of_nat (length pre) + 1 - 1)) with (length pre) by lia.
    rewrite list_lookup_middle by done. apply jeqb_refl.
  - specialize (IH (pre ++ [c_sha c]) e). rewrite length_app, <- app_assoc in IH. apply IH.
    cbn [length]. by replace (Z.of_nat (length pre + 1)) with (Z.of_nat (length pre) + 1) by lia.
Qed.

(** Numbering is sound and incremental: numbering a chain in two batches, the second
    from the head the first left, stores the same numbers as numbering it at once, and
    the integrity check finds no mismatch in what was stored, also when the chain has
    grown since. *)
Theorem numberCommits_sound a b later :
  numberCommits 0 (a ++ b) = numberCommits 0 a ++ numberCommits (Z.of_nat (length a)) b ∧
  firstSequenceMismatch (map stored_of (numberCommits 0 (a ++ b))) (map c_sha (a ++ b) ++ later) = None.
Proof.
  split.
  - unfold numberCommits. rewrite imap_app. f_equal. apply imap_ext. intros i x _. cbn. f_equal. lia.
  - unfold firstSequenceMismatch. apply scan_None. intros e. rewrite sort_entries_elem. intros He.
    pose proof (numbered_agree [] (a ++ b) e He) as H. cbn [app] in H.
    unfold agrees, chain_at in *. destruct (_ <? 1); [done|].
    destruct (map c_sha (a ++ b) !! _) eqn:E; [|done].
    by rewrite (lookup_app_l_Some _ _ _ _ E).
Qed.
