(* ===== verification/ReleaseSignal.v ===== *)
(** * Release signals and pull request states

    [packages/domain/src/release.ts] and [packages/domain/src/pull-request-state.ts]:
    which webhooks mean that the tags of a repository changed, and the state a pull
    request document gets. *)

From stdpp Require Import base list option strings numbers.
From Stdlib Require Import ZArith Lia.
From S2P Require Import Prelude JsString Json.
Open Scope Z_scope.

Definition TAG_PREFIX : jstr := js "refs/tags/".

Inductive ReleaseSignalOutcome : Set :=
| rel_signal (repositoryId : Z)
| rel_skip (reason : jstr).

(** An array has no [id] either, so only objects matter. *)
Definition repositoryIdOf (payload : list (jstr * json)) : option Z :=
  match assoc (js "repository") payload with
  | Some (JObj repository) =>
    match assoc (js "id") repository with
    | Some (JNum id) => if 0 <? id then Some id else None
    | _ => None
    end
  | _ => None
  end.

Definition extractReleaseSignal (eventType : jstr) (payload : list (jstr * json)) : ReleaseSignalOutcome :=
  match repositoryIdOf payload with
  | None => rel_skip (js "repository.id가 없다")
  | Some repositoryId =>
    if jeqb eventType (js "push") then
      match assoc (js "ref") payload with
      | Some (JStr ref) =>
        if starts_with TAG_PREFIX ref then rel_signal repositoryId else rel_skip (js "태그 push가 아니다")
      | _ => rel_skip (js "태그 push가 아니다")
      end
    else if jeqb eventType (js "create") || jeqb eventType (js "delete") then
      match assoc (js "ref_type") payload with
      | Some (JStr t) => if jeqb t (js "tag") then rel_signal repositoryId
                         else rel_skip (js "태그 " ++ eventType ++ js "가 아니다")
      | _ => rel_skip (js "태그 " ++ eventType ++ js "가 아니다")
      end
    else if jeqb eventType (js "release") then rel_signal repositoryId
    else rel_skip (js "릴리스와 무관한 이벤트다: " ++ eventType)
  end.

Record PullRequestStateSignals : Set := mkSignals {
  s_state : jstr;
  s_merged : option bool;
  s_merged_at : option jstr
}.

Definition derivePullRequestState (input : PullRequestStateSignals) : jstr :=
  match s_merged input with
  | Some true => js "merged"
  | _ =>
    match s_merged_at input with
    | Some at_ => if jeqb at_ [] then s_state input else js "merged"
    | None => s_state input
    end
  end.

(** The events that are signals, as the table of the source lists them. *)
Definition signals (eventType : jstr) (payload : list (jstr * json)) : Prop :=
  (eventType = js "push" ∧ ∃ ref, assoc (js "ref") payload = Some (JStr (TAG_PREFIX ++ ref))) \/
  ((eventType = js "create" \/ eventType = js "delete")
     ∧ assoc (js "ref_type") payload = Some (JStr (js "tag"))) \/
  eventType = js "release".

(** A webhook is a release signal exactly when it names a repository and is a push of
    a tag, the creation or deletion of a tag, or a release event; the signal names that
    repository and nothing of the payload. *)
Theorem extractReleaseSignal_spec eventType payload id :
  extractReleaseSignal eventType payload = rel_signal id <->
  repositoryIdOf payload = Some id ∧ signals eventType payload.
Proof.
  unfold extractReleaseSignal, signals. destruct (repositoryIdOf payload) as [n|]; [|split; [done|by intros [? _]]].
  destruct (jeqb eventType (js "push")) eqn:E1.
  - apply jeqb_eq in E1 as ->. split.
    + destruct (assoc (js "ref") payload) as [[| | | |ref| |]|] eqn:Er; try done.
      destruct (starts_with TAG_PREFIX ref) eqn:Es; [|done]. apply starts_with_spec in Es as [r ->].
      intros [= ->]. split; [done|]. left. eauto.
    + intros [[= ->] [[_ [ref ->]]|[[[H|H] _]|H]]]; try discriminate H.
      by rewrite starts_with_app.
  - apply jeqb_neq in E1. destruct (jeqb eventType (js "create") || jeqb eventType (js "delete")) eqn:E2.
    + apply orb_prop in E2. rewrite !jeqb_eq in E2. split.
      * destruct (assoc (js "ref_type") payload) as [[| | | |t| |]|] eqn:Er; try done.
        destruct (jeqb t (js "tag")) eqn:Et; [|done]. apply jeqb_eq in Et as ->.
        intros [= ->]. split; [done|]. right. by left.
      * intros [[= ->] [[? _]|[[_ ->]|H]]]; [done| |subst eventType; by destruct E2].
        by rewrite jeqb_refl.
    + apply orb_false_iff in E2. rewrite !jeqb_neq in E2.
      destruct (jeqb eventType (js "release")) eqn:E3.
      * apply jeqb_eq in E3. split; [intros [= ->]; auto|by intros [[= ->] _]].
      * apply jeqb_neq in E3. split; [done|]. naive_solver.
Qed.

(** A pull request document is [merged] exactly when GitHub says so by the flag or by
    a merge time (or already called it that); otherwise it keeps the raw state. *)
Theorem derivePullRequestState_spec i :
  (derivePullRequestState i = js "merged" <->
   s_merged i = Some true \/ (∃ t, s_merged_at i = Some t ∧ t <> []) \/ s_state i = js "merged") ∧
  (derivePullRequestState i = js "merged" \/ derivePullRequestState i = s_state i).
Proof.
  unfold derivePullRequestState. destruct (s_merged i) as [[|]|]; [split; [|by left]; tauto|..];
    (destruct (s_merged_at i) as [[|c t]|]; cbn [jeqb]; split; try (by left); try (by right);
     [..]; try (rewrite (proj2 (jeqb_neq (c :: t) []) ltac:(done)); by left)).
  all: try (rewrite (proj2 (jeqb_neq (c :: t) []) ltac:(done))).
  all: try (change (jeqb [] []) with true; cbv iota).
  all: naive_solver.
Qed.
