(* ===== verification/BackfillPlan.v ===== *)
(** * The backfill plan

    [apps/pipeline-worker/src/backfill-plan.ts]: delivery ids, document versions, the
    resume cursor, progress and how long to sleep on a rate limit.  [Date.parse] and
    [toISOString] are parameters. *)

From stdpp Require Import base list option strings numbers.
From Stdlib Require Import ZArith Lia.
From S2P Require Import Prelude JsString Json SequenceSpace.
Open Scope Z_scope.

Definition PROGRESS_UNIT : jstr := js "pull_request".
Definition BACKFILL_PAGE_SIZE : Z := 100.
Definition PROGRESS_INTERVAL_MS : Z := 25000.
Definition BACKFILL_DELIVERY_PREFIX : jstr := js "backfill:".
Definition MAX_SLEEP_MS : Z := 60000.

Definition backfillDeliveryId (repositoryId prNumber : Z) : jstr :=
  BACKFILL_DELIVERY_PREFIX ++ js_of_Z repositoryId ++ js ":" ++ js_of_Z prNumber.
Definition isBackfillDelivery (deliveryId : jstr) : bool :=
  starts_with BACKFILL_DELIVERY_PREFIX deliveryId.

Definition backfillDocumentVersion (date_parse : jstr -> option Z) (updatedAt : option jstr)
  : option Z :=
  match updatedAt with None => None | Some s => date_parse s end.

Record BackfillCursor : Set := mkCursor { page : Z; done_ : Z }.
Definition FIRST : BackfillCursor := mkCursor 1 0.

Definition readCursor (raw : option (list (jstr * json))) : BackfillCursor :=
  match raw with
  | None => FIRST
  | Some raw =>
    match assoc (js "page") raw with
    | Some (JNum p) =>
      if p <? 1 then FIRST
      else match assoc (js "done") raw with
           | Some (JNum d) => if d <? 0 then FIRST else mkCursor p d
           | _ => FIRST
           end
    | _ => FIRST
    end
  end.

Definition advanceCursor (current : BackfillCursor) (processed : Z) : BackfillCursor :=
  mkCursor (page current + 1) (done_ current + processed).

Record BackfillProgress : Set := mkProgress {
  pg_done : Z; pg_total : option Z; pg_unit : jstr; waiting_until : option jstr
}.
Definition buildProgress (iso : Z -> jstr) (cursor : BackfillCursor) (total : option Z)
    (waitingUntil : option Z) : BackfillProgress :=
  mkProgress (done_ cursor) total PROGRESS_UNIT (iso <$> waitingUntil).

(** The fields [rateLimitRetryAt] reads of an error: [kind], and [retryAt] when it is a
    [Date] (its time, [None] for an invalid date). *)
Record ErrorShape : Set := mkError { er_kind : option jstr; er_retryAt : option (option Z) }.
Definition rateLimitRetryAt (error : option ErrorShape) : option (option Z) :=
  match error with
  | None => None
  | Some e =>
    match er_kind e with
    | Some k => if jeqb k (js "rate_limited") || jeqb k (js "secondary_rate_limited")
                then er_retryAt e else None
    | None => None
    end
  end.

(** [retryAt.getTime()] is [None] for an invalid date. *)
Definition sleepMsUntil (retryAt : option Z) (now : Z) : Z :=
  match retryAt with
  | None => 0
  | Some at_ =>
    let delta := at_ - now in
    if delta <=? 0 then 0 else Z.min delta MAX_SLEEP_MS
  end.

(** The caller's wait: sleep, look at the clock again, until nothing is left. *)
Fixpoint wait_loop (fuel : nat) (retryAt : option Z) (now : Z) : option Z :=
  match sleepMsUntil retryAt now with
  | 0 => Some now
  | ms => match fuel with O => None | S fuel => wait_loop fuel retryAt (now + ms) end
  end.

(** ** Theorems *)

(** The delivery id of a backfilled pull request is a function of repository and
    number and of nothing else: equal ids mean the same pull request, and every id is
    recognized as a backfill. *)
Theorem backfillDeliveryId_inj r p r' p' :
  0 <= r -> 0 <= r' -> 0 <= p -> 0 <= p' ->
  isBackfillDelivery (backfillDeliveryId r p) = true ∧
  (backfillDeliveryId r p = backfillDeliveryId r' p' -> r = r' ∧ p = p').
Proof.
  intros Hr Hr' Hp Hp'. split; [apply starts_with_app|].
  unfold backfillDeliveryId. intros H. apply app_inv_head in H.
  change (js ":" ++ js_of_Z p) with (58%N :: js_of_Z p) in H.
  change (js ":" ++ js_of_Z p') with (58%N :: js_of_Z p') in H.
  apply app_sep_inj in H as [H1 H2]; [|apply js_of_Z_no_colon..].
  by apply js_of_Z_inj in H1, H2.
Qed.
Lemma backfillDeliveryId_inj_witness :
  isBackfillDelivery (backfillDeliveryId 3 9) = true ∧
  (backfillDeliveryId 3 9 = backfillDeliveryId 3 9 -> 3 = 3 ∧ 9 = 9).
Proof. apply (backfillDeliveryId_inj 3 9 3 9); lia. Defined.

Definition cursor_json (c : BackfillCursor) : list (jstr * json) :=
  [(js "page", JNum (page c)); (js "done", JNum (done_ c))].

(** A stored cursor is read back as it was, along any number of advances from the
    start, and anything else restarts at the first page with nothing done: a resumed
    backfill never begins past an unread page. *)
Theorem cursor_resume ps raw :
  let c := foldl advanceCursor FIRST ps in
  (Forall (fun p => 0 <= p) ps ->
     readCursor (Some (cursor_json c)) = c ∧
     page c = 1 + Z.of_nat (length ps) ∧ done_ c = foldr Z.add 0 ps) ∧
  (1 <= page (readCursor raw) ∧ 0 <= done_ (readCursor raw)).
Proof.
  split.
  - intros Hps.
    assert (forall c, 1 <= page c -> 0 <= done_ c ->
      page (foldl advanceCursor c ps) = page c + Z.of_nat (length ps) ∧
      done_ (foldl advanceCursor c ps) = done_ c + foldr Z.add 0 ps ∧
      1 <= page (foldl advanceCursor c ps) ∧ 0 <= done_ (foldl advanceCursor c ps)) as H.
    { induction Hps as [|p ps Hp Hps IH]; intros c Hc Hd; cbn [foldl foldr length].
      - split_and!; lia.
      - destruct (IH (advanceCursor c p)) as (H1 & H2 & H3 & H4); [cbn; lia..|].
        rewrite H1, H2. cbn. split_and!; try lia; rewrite ?H1, ?H2 in *; cbn in *; lia. }
    destruct (H FIRST) as (H1 & H2 & H3 & H4); [cbn; lia..|].
    split; [|cbn in *; lia].
    destruct (foldl advanceCursor FIRST ps) as [p d]. cbn [page done_] in *.
    unfold readCursor, cursor_json. cbn [page done_].
    change (assoc (js "page") [(js "page", JNum p); (js "done", JNum d)]) with (Some (JNum p)).
    change (assoc (js "done") [(js "page", JNum p); (js "done", JNum d)]) with (Some (JNum d)).
    cbv iota. by rewrite (proj2 (Z.ltb_ge p 1)), (proj2 (Z.ltb_ge d 0)) by lia.
  - unfold readCursor. repeat (case_match; cbn; try lia; bool_to_prop).
Qed.

(** Waiting out a rate limit terminates: as many sleeps as minutes are left (rounded
    up) are enough, the wait ends at or after the retry time, no sleep is longer than a
    minute, and an invalid date does not wait. *)
Theorem wait_loop_terminates at_ now fuel :
  at_ - now <= MAX_SLEEP_MS * Z.of_nat fuel ->
  wait_loop fuel (Some at_) now = Some (Z.max at_ now) ∧
  0 <= sleepMsUntil (Some at_) now <= MAX_SLEEP_MS ∧ wait_loop fuel None now = Some now.
Proof.
  unfold MAX_SLEEP_MS. intros Hf. split; [|split].
  - revert now Hf. induction fuel as [|fuel IH]; intros now Hf; cbn [wait_loop];
      unfold sleepMsUntil at 1; cbv zeta; unfold MAX_SLEEP_MS.
    + rewrite (proj2 (Z.leb_le _ 0)) by lia. f_equal. lia.
    + destruct (Z.leb_spec (at_ - now) 0); [f_equal; lia|].
      destruct (Z.min (at_ - now) 60000) as [|ms|ms] eqn:Em; [lia| |lia].
      rewrite IH by lia. f_equal. lia.
  - unfold sleepMsUntil, MAX_SLEEP_MS. cbv zeta. destruct (Z.leb_spec (at_ - now) 0); lia.
  - by destruct fuel.
Qed.
Lemma wait_loop_terminates_witness :
  wait_loop 3 (Some 125000) 0 = Some (Z.max 125000 0) ∧
  0 <= sleepMsUntil (Some 125000) 0 <= MAX_SLEEP_MS ∧ wait_loop 3 None 0 = Some 0.
Proof. apply (wait_loop_terminates 125000 0 3). unfold MAX_SLEEP_MS. lia. Defined.
