(* ===== verification/LinkText.v ===== *)
(** * Text preprocessing of the relation extractors

    [packages/domain/src/link/text.ts]: code and quotations are covered by blanks of
    the same length, so that offsets in the masked text are offsets in the original. *)

From stdpp Require Import base list option strings numbers.
From Stdlib Require Import ZArith Lia.
From S2P Require Import Prelude JsString.
Open Scope nat_scope.

Definition EVIDENCE_LIMIT : nat := 200.
Definition ELLIPSIS : jstr := [8230%N].
Definition NL : N := 10.

Definition is_blank (c : N) : bool := (c =? 32)%N || (c =? 9)%N.

(** [^[ \t]{0,3}(`{3,}|~{3,})]: the fence character and the length of the run. *)
Definition fence_opener (line : jstr) : option (N * nat) :=
  let (lead, rest) := span is_blank line in
  if 3 <? length lead then None
  else match rest with
       | c :: _ =>
         if (c =? 96)%N || (c =? 126)%N then
           let n := length (span (N.eqb c) rest).1 in
           if 3 <=? n then Some (c, n) else None
         else None
       | [] => None
       end.

(** [^[ \t]{0,3}>] *)
Definition quoted_line (line : jstr) : bool :=
  let (lead, rest) := span is_blank line in
  (length lead <=? 3) && match rest with c :: _ => (c =? 62)%N | [] => false end.

Definition blank (line : jstr) : jstr := replicate (length line) 32%N.

(** The runs of backticks of a line: start and length. *)
Fixpoint backtick_runs (pos : nat) (s : jstr) : list (nat * nat) :=
  match s with
  | [] => []
  | c :: s' =>
    if (c =? 96)%N then
      match backtick_runs (S pos) s' with
      | (st, n) :: rs => if st =? S pos then (pos, S n) :: rs else (pos, 1) :: (st, n) :: rs
      | [] => [(pos, 1)]
      end
    else backtick_runs (S pos) s'
  end.

(** The next run of [n] backticks, and the runs after it. *)
Fixpoint find_close (n : nat) (runs : list (nat * nat)) : option ((nat * nat) * list (nat * nat)) :=
  match runs with
  | [] => None
  | r :: rs => if r.2 =? n then Some (r, rs) else find_close n rs
  end.

Definition blank_range (a b : nat) (s : jstr) : jstr :=
  imap (fun i c => if (a <=? i) && (i <? b) then 32%N else c) s.

(** The [while] loop; the first run without a partner ends it. *)
Fixpoint mask_runs (fuel : nat) (runs : list (nat * nat)) (chars : jstr) : jstr :=
  match fuel, runs with
  | S fuel, open :: rest =>
    match find_close open.2 rest with
    | None => chars
    | Some (close, rest') => mask_runs fuel rest' (blank_range open.1 (close.1 + close.2) chars)
    end
  | _, _ => chars
  end.

Definition maskInlineCode (line : jstr) : jstr :=
  let runs := backtick_runs 0 line in
  if length runs <? 2 then line else mask_runs (length runs) runs line.

Fixpoint mask_lines (fence : option (N * nat)) (lines : list jstr) : list jstr :=
  match lines with
  | [] => []
  | line :: lines =>
    match fence, fence_opener line with
    | Some (fc, fn), opener =>
      let closes := match opener with Some (c, n) => (c =? fc)%N && (fn <=? n) | None => false end in
      blank line :: mask_lines (if closes then None else Some (fc, fn)) lines
    | None, Some opener => blank line :: mask_lines (Some opener) lines
    | None, None =>
      (if quoted_line line then blank line else maskInlineCode line) :: mask_lines None lines
    end
  end.

Definition maskExcluded (text : jstr) : jstr :=
  join [NL] (mask_lines None (split_char NL text)).

(** [s.lastIndexOf(c, offset) + 1] *)
Fixpoint after_last (c : N) (s : jstr) : nat :=
  match s with
  | [] => 0
  | x :: s' => match after_last c s' with
               | 0 => if (x =? c)%N then 1 else 0
               | n => S n
               end
  end.

Definition clip (line : jstr) : jstr :=
  if length line <=? EVIDENCE_LIMIT then line else take (EVIDENCE_LIMIT - 1) line ++ ELLIPSIS.

Definition evidenceLine (original : jstr) (offset : nat) : jstr :=
  let start := after_last NL (take (S offset) original) in
  let stop := match index_of_char NL (drop offset original) with
              | Some i => offset + i
              | None => length original
              end in
  clip (trim (slice original start stop)).

Definition commitSubject (message : jstr) : jstr :=
  trim (match index_of_char NL message with Some i => take i message | None => message end).

Example mask_ex :
  maskExcluded (js "a `#1` b" ++ [NL] ++ js "> #2" ++ [NL] ++ js "```" ++ [NL] ++ js "#3" ++ [NL] ++ js "```" ++ [NL] ++ js "#4")
  = js "a      b" ++ [NL] ++ js "    " ++ [NL] ++ js "   " ++ [NL] ++ js "  " ++ [NL] ++ js "   " ++ [NL] ++ js "#4".
Proof. reflexivity. Qed.
Example evidence_ex : evidenceLine (js "ab" ++ [NL] ++ js " cd " ++ [NL]) 4 = js "cd".
Proof. reflexivity. Qed.

(** ** Masking covers characters, never moves them *)

(** [s'] is [s] with some characters, no line feed among them, turned into spaces. *)
Definition covers (s s' : jstr) : Prop :=
  Forall2 (fun c c' => c' = c \/ (c' = 32%N ∧ c <> NL)) s s'.

Lemma covers_refl s : covers s s.
Proof. apply Forall2_same_length_lookup_2; [done|]. intros. left. naive_solver. Qed.

Lemma covers_trans a b c : covers a b -> covers b c -> covers a c.
Proof.
  intros H. revert c. induction H as [|x y l k Hxy Hlk IH]; intros c Hc.
  - done.
  - apply Forall2_cons_inv_l in Hc as (z & c' & Hz & Hc' & ->). constructor; [|by apply IH].
    destruct Hxy as [->|[-> Hn]]; [done|]. right. destruct Hz as [->|[-> _]]; done.
Qed.

Lemma covers_blank line : NL ∉ line -> covers line (blank line).
Proof.
  unfold blank. induction line as [|c l IH]; [constructor|]. rewrite not_elem_of_cons.
  intros [Hc Hl]. cbn. constructor; [right; by split; [|congruence]|by apply IH].
Qed.

Lemma covers_imap (p : nat -> bool) line :
  NL ∉ line -> covers line (imap (fun i c => if p i then 32%N else c) line).
Proof.
  revert p. induction line as [|c l IH]; intros p; [constructor|]. rewrite not_elem_of_cons.
  intros [Hc Hl]. rewrite imap_cons. constructor.
  - destruct (p 0); [right; by split; [|congruence]|by left].
  - by apply (IH (p ∘ S)).
Qed.

Lemma covers_no_nl line line' : covers line line' -> NL ∉ line -> NL ∉ line'.
Proof.
  induction 1 as [|x y l k Hxy Hlk IH]; [done|]. rewrite !not_elem_of_cons.
  intros [Hx Hl]. split; [|by apply IH]. by destruct Hxy as [->|[-> _]].
Qed.

Lemma covers_runs fuel : forall runs chars,
  NL ∉ chars -> covers chars (mask_runs fuel runs chars).
Proof.
  induction fuel as [|fuel IH]; intros runs chars Hn; [apply covers_refl|].
  destruct runs as [|open rest]; [apply covers_refl|]. cbn [mask_runs].
  destruct (find_close open.2 rest) as [[close rest']|]; [|apply covers_refl].
  pose proof (covers_imap (fun i => (open.1 <=? i) && (i <? close.1 + close.2)) chars Hn) as Hc.
  eapply covers_trans; [exact Hc|]. apply IH. by eapply covers_no_nl.
Qed.

Lemma covers_inline line : NL ∉ line -> covers line (maskInlineCode line).
Proof.
  intros. unfold maskInlineCode. destruct (_ <? 2); [apply covers_refl|by apply covers_runs].
Qed.

Lemma covers_lines lines : forall fence,
  Forall (fun l => NL ∉ l) lines -> Forall2 covers lines (mask_lines fence lines).
Proof.
  induction lines as [|l lines IH]; intros fence Hl; [constructor|].
  apply Forall_cons_1 in Hl as [Hl Hls]. cbn [mask_lines].
  destruct fence as [[fc fn]|], (fence_opener l) as [[c n]|];
    (constructor; [|by apply IH]); try by apply covers_blank.
  destruct (quoted_line l); [by apply covers_blank|by apply covers_inline].
Qed.

Lemma covers_join ls ls' : Forall2 covers ls ls' -> covers (join [NL] ls) (join [NL] ls').
Proof.
  induction 1 as [|l l' ls ls' Hl Hls IH]; [constructor|].
  destruct Hls as [|m m' ls ls' Hm Hls]; [done|].
  apply Forall2_app; [done|]. apply Forall2_app; [apply covers_refl|done].
Qed.

Lemma mask_covers text : covers text (maskExcluded text).
Proof.
  unfold maskExcluded. rewrite <- (join_split NL text) at 1. apply covers_join, covers_lines.
  apply split_char_pieces.
Qed.

Lemma clip_length line : length (clip line) <= EVIDENCE_LIMIT.
Proof.
  unfold clip, EVIDENCE_LIMIT. destruct (Nat.leb_spec (length line) 200); [done|].
  rewrite length_app, length_take. unfold ELLIPSIS. cbn [length]. lia.
Qed.

(** ** Theorems *)

(** Masking keeps every offset: the masked text has the length of the original, its
    line feeds are where they were, and every other character is either unchanged or a
    space. *)
Theorem maskExcluded_offsets text :
  length (maskExcluded text) = length text ∧
  (forall i, maskExcluded text !! i = Some NL <-> text !! i = Some NL) ∧
  (forall i c, maskExcluded text !! i = Some c -> c <> 32%N -> text !! i = Some c).
Proof.
  pose proof (mask_covers text) as H. split_and!.
  - symmetry. by eapply Forall2_length.
  - intros i. split; intros Hi.
    + destruct (lookup_lt_is_Some_2 text i) as [c Hc].
      { rewrite (Forall2_length H). by eapply lookup_lt_Some. }
      destruct (Forall2_lookup_lr _ _ _ _ _ _ H Hc Hi) as [E|[E _]]; [by rewrite E in *|done].
    + destruct (lookup_lt_is_Some_2 (maskExcluded text) i) as [c Hc].
      { rewrite <- (Forall2_length H). by eapply lookup_lt_Some. }
      destruct (Forall2_lookup_lr _ _ _ _ _ _ H Hi Hc) as [E|[_ E]]; [by rewrite E in *|done].
  - intros i c Hi Hc. destruct (lookup_lt_is_Some_2 text i) as [d Hd].
    { rewrite (Forall2_length H). by eapply lookup_lt_Some. }
    destruct (Forall2_lookup_lr _ _ _ _ _ _ H Hd Hi) as [->|[-> _]]; done.
Qed.

(** A run without a partner ends the scan: the code span after it stays visible, unlike
    in CommonMark. *)
Theorem unmatched_run_hides_nothing :
  maskExcluded (js "a ` b ``#12``") = js "a ` b ``#12``" ∧
  maskExcluded (js "a b ``#12``") = js "a b        ".
Proof. split; reflexivity. Qed.
