(* ===== verification/Reference.v ===== *)
(** * References between documents

    [packages/domain/src/link/reference.ts] and [derived-id.ts]: the keys that identify
    a reference by what the text says, their reader, the scan of a text for references
    and the deterministic link ids.  [new URL] and SHA-256 are parameters.  Numbers are
    read exactly, which JavaScript does up to 15 digits. *)

From stdpp Require Import base list option strings numbers.
From Stdlib Require Import ZArith Lia.
From S2P Require Import Prelude JsString LinkText.
Open Scope nat_scope.

Definition REFERENCE_LIMIT : nat := 100.
Definition ABBREV_SHA_MIN : nat := 7.
Definition ABBREV_SHA_MAX : nat := 12.
Definition FULL_SHA_LENGTH : nat := 40.

Record RepoSlug : Set := mkSlug { owner : jstr; name : jstr }.
#[export] Instance RepoSlug_eq_dec : EqDecision RepoSlug.
Proof. solve_decision. Defined.

Inductive ReferenceTarget : Set :=
| t_pull_request (repo : option RepoSlug) (number : Z)
| t_commit (repo : option RepoSlug) (sha : jstr)
| t_commit_prefix (repo : option RepoSlug) (prefix : jstr).
#[export] Instance ReferenceTarget_eq_dec : EqDecision ReferenceTarget.
Proof. solve_decision. Defined.

Inductive ReferenceConfidence : Set := derived | heuristic.

Record ExtractedReference : Set := mkRef {
  reference_key : jstr;
  target : ReferenceTarget;
  confidence : ReferenceConfidence;
  evidence : jstr
}.

(** ** Keys *)

Definition scope_text (repo : option RepoSlug) : jstr :=
  match repo with
  | None => []
  | Some r => js "x:" ++ owner r ++ js "/" ++ name r ++ js ":"
  end.

Definition referenceKey (t : ReferenceTarget) : jstr :=
  match t with
  | t_pull_request repo n => scope_text repo ++ js "pr:" ++ js_of_Z n
  | t_commit repo sha => scope_text repo ++ js "commit:" ++ sha
  | t_commit_prefix repo prefix => scope_text repo ++ js "commit-prefix:" ++ prefix
  end.

Definition seg_char (c : N) : bool := is_word c || (c =? 46)%N || (c =? 45)%N.
Definition is_low_alnum (c : N) : bool := is_lower c || is_digit c.
(** [[a-z0-9][a-z0-9._-]*] *)
Definition low_segment (s : jstr) : bool :=
  match s with
  | c :: r => is_low_alnum c && forallb (fun c => is_low_alnum c || (c =? 46) || (c =? 95) || (c =? 45))%N r
  | [] => false
  end.

(** The part of [KEY_SHAPE] after the scope. *)
Definition parse_plain (repo : option RepoSlug) (s : jstr) : option ReferenceTarget :=
  if starts_with (js "pr:") s then
    let d := drop 3 s in
    if all1 is_digit d then Some (t_pull_request repo (num_of_digits d)) else None
  else if starts_with (js "commit:") s then
    let h := drop 7 s in if all1 is_hex_lower h then Some (t_commit repo h) else None
  else if starts_with (js "commit-prefix:") s then
    let h := drop 14 s in if all1 is_hex_lower h then Some (t_commit_prefix repo h) else None
  else None.

Definition parseReferenceKey (key : jstr) : option ReferenceTarget :=
  if starts_with (js "x:") key then
    let s := drop 2 key in
    match index_of_char 47 s with
    | None => None
    | Some i =>
      let o := take i s in
      let s' := drop (S i) s in
      match index_of_char 58 s' with
      | None => None
      | Some j =>
        let n := take j s' in
        if low_segment o && low_segment n then parse_plain (Some (mkSlug o n)) (drop (S j) s') else None
      end
    end
  else parse_plain None key.

Definition commitReferenceKeys (sha : jstr) (repo : option RepoSlug) : list jstr :=
  let full := ascii_lower sha in
  referenceKey (t_commit repo full)
  :: map (fun n => referenceKey (t_commit_prefix repo (take n full)))
         (seq ABBREV_SHA_MIN (S (ABBREV_SHA_MAX - ABBREV_SHA_MIN))).

Definition pullRequestReferenceKeys (prNumber : Z) (repo : option RepoSlug) : list jstr :=
  [referenceKey (t_pull_request repo prNumber)].

(** ** The scan *)

Inductive groups : Set :=
| g_url (url : jstr)
| g_cross (xowner xname xnum : jstr)
| g_num (num : jstr)
| g_full (sha : jstr)
| g_abbrev (sha : jstr).

(** [[A-Za-z0-9][A-Za-z0-9._-]*], greedy: the segment and the rest. *)
Definition read_segment (s : jstr) : option (jstr * jstr) :=
  match s with
  | c :: r => if is_alnum c then let (a, b) := span seg_char r in Some (c :: a, b) else None
  | [] => None
  end.

(** A URL ends at a space, a bracket or a quote. *)
Definition url_char (c : N) : bool :=
  negb (is_space c || (c =? 60) || (c =? 62) || (c =? 40) || (c =? 41) || (c =? 91) || (c =? 93)
        || (c =? 34) || (c =? 39))%N.

Definition match_url (s : jstr) : option (groups * nat) :=
  let scheme := if starts_with (js "https://") s then Some 8
                else if starts_with (js "http://") s then Some 7 else None in
  match scheme with
  | None => None
  | Some n =>
    let body := (span url_char (drop n s)).1 in
    match body with [] => None | _ => Some (g_url (take (n + length body) s), n + length body) end
  end.

Definition match_cross (s : jstr) : option (groups * nat) :=
  match read_segment s with
  | Some (o, c1 :: s1) =>
    if (c1 =? 47)%N then
      match read_segment s1 with
      | Some (n, c2 :: s2) =>
        if (c2 =? 35)%N then
          let d := (span is_digit s2).1 in
          match d with [] => None | _ => Some (g_cross o n d, length o + 1 + length n + 1 + length d) end
        else None
      | _ => None
      end
    else None
  | _ => None
  end.

Definition match_num (s : jstr) : option (groups * nat) :=
  match s with
  | c :: r =>
    if (c =? 35)%N
    then match (span is_digit r).1 with [] => None | d => Some (g_num d, 1 + length d) end
    else None
  | [] => None
  end.

(** [\b] before [s], where hexadecimal digits are word characters. *)
Definition boundary_before (prev : option N) : bool :=
  match prev with Some c => negb (is_word c) | None => true end.
Definition boundary_after (rest : jstr) : bool :=
  match rest with c :: _ => negb (is_word c) | [] => true end.

Definition match_hex (prev : option N) (s : jstr) : option (groups * nat) :=
  let (h, rest) := span is_hex s in
  if negb (boundary_before prev) || negb (boundary_after rest) then None
  else if length h =? FULL_SHA_LENGTH then Some (g_full h, length h)
  else if (ABBREV_SHA_MIN <=? length h) && (length h <=? ABBREV_SHA_MAX) then Some (g_abbrev h, length h)
  else None.

Definition or_else {A} (a b : option A) : option A := match a with Some _ => a | None => b end.

(** The alternatives in the order of the pattern. *)
Definition match_at (prev : option N) (s : jstr) : option (groups * nat) :=
  or_else (match_url s) (or_else (match_cross s) (or_else (match_num s) (match_hex prev s))).

Fixpoint scan (fuel : nat) (prev : option N) (pos : nat) (s : jstr) : list (nat * groups) :=
  match fuel, s with
  | S fuel, c :: s' =>
    match match_at prev s with
    | Some (g, n) => (pos, g) :: scan fuel (hd_error (rev (take n s))) (pos + n) (drop n s)
    | None => scan fuel (Some c) (S pos) s'
    end
  | _, _ => []
  end.

(** ** Lines *)

Record LineSpan : Set := mkSpan { l_start : nat; l_end : nat; trailerFrom : option nat }.

Definition TRAILER_WORDS : list jstr := [js "refs"; js "closes"; js "fixes"; js "resolves"].

(** The length of the match of [TRAILER_LINE]. *)
Definition trailer_length (line : jstr) : option nat :=
  let (a, r) := span is_blank line in
  match find_first (fun w => starts_with w (ascii_lower r)) TRAILER_WORDS with
  | None => None
  | Some w =>
    let (b, r') := span is_blank (drop (length w) r) in
    match r' with
    | c :: _ => if (c =? 58)%N then Some (length a + length w + length b + 1) else None
    | [] => None
    end
  end.

Fixpoint line_spans (start : nat) (lines : list jstr) : list LineSpan :=
  match lines with
  | [] => []
  | line :: lines =>
    mkSpan start (start + length line) ((fun n => start + n) <$> trailer_length line)
    :: line_spans (start + length line + 1) lines
  end.
Definition lineIndex (text : jstr) : list LineSpan := line_spans 0 (split_char NL text).

Open Scope Z_scope.
(** The binary search; [low] and [high] may cross. *)
Fixpoint line_search (fuel : nat) (lines : list LineSpan) (offset : nat) (low high : Z) : option LineSpan :=
  match fuel with
  | O => None
  | S fuel =>
    if low <=? high then
      let mid := Z.shiftr (low + high) 1 in
      match lines !! Z.to_nat mid with
      | None => None
      | Some span =>
        if (offset <? l_start span)%nat then line_search fuel lines offset low (mid - 1)
        else if (l_end span <? offset)%nat then line_search fuel lines offset (mid + 1) high
        else Some span
      end
    else None
  end.
Definition lineAt (lines : list LineSpan) (offset : nat) : option LineSpan :=
  line_search (S (length lines)) lines offset 0 (Z.of_nat (length lines) - 1).
Open Scope nat_scope.

Definition inTrailer (lines : list LineSpan) (offset : nat) : bool :=
  match lineAt lines offset with
  | Some span => match trailerFrom span with Some f => f <=? offset | None => false end
  | None => false
  end.

Definition evidenceAt (original : jstr) (lines : list LineSpan) (offset : nat) : jstr :=
  match lineAt lines offset with
  | None => []
  | Some span => clip (trim (slice original (l_start span) (l_end span)))
  end.

(** ** Targets *)

Definition normalizeSlug (s : RepoSlug) : RepoSlug := mkSlug (ascii_lower (owner s)) (ascii_lower (name s)).
Definition scopeOf (s source : RepoSlug) : option RepoSlug :=
  let n := normalizeSlug s in if bool_decide (n = source) then None else Some n.

(** The class of [TRAILING_PUNCTUATION]. *)
Definition trailing_punctuation (c : N) : bool :=
  existsb (N.eqb c) [46; 44; 59; 58; 33; 63; 41; 93; 125; 39; 34; 187]%N.
Definition strip_punctuation (s : jstr) : jstr := rev (span trailing_punctuation (rev s)).2.

(** [^/seg/seg/(pull|commit)/([^/?#]+)/?$] *)
Definition URL_TARGET (path : jstr) : option (jstr * jstr * jstr * jstr) :=
  match split_char 47 path with
  | [] :: o :: n :: kind :: v :: tl =>
    let seg s := match read_segment s with Some (_, []) => true | _ => false end in
    if seg o && seg n && (jeqb kind (js "pull") || jeqb kind (js "commit"))
       && all1 (fun c => negb ((c =? 63) || (c =? 35))%N) v
       && match tl with [] => true | [[]] => true | _ => false end
    then Some (o, n, kind, v) else None
  | _ => None
  end.

Section extraction.
Context (url : jstr -> option (jstr * jstr)).

Definition url_target (raw : jstr) (source : RepoSlug) (host : option jstr) : option ReferenceTarget :=
  match host with
  | None => None
  | Some host =>
    match url (strip_punctuation raw) with
    | None => None
    | Some (h, path) =>
      if negb (jeqb (ascii_lower h) host) then None
      else match URL_TARGET path with
      | None => None
      | Some (o, n, kind, v) =>
        let repo := scopeOf (mkSlug o n) source in
        if jeqb kind (js "pull") then
          if all1 is_digit v then Some (t_pull_request repo (num_of_digits v)) else None
        else
          let sha := ascii_lower v in
          if forallb is_hex_lower sha && (length sha =? FULL_SHA_LENGTH) then Some (t_commit repo sha)
          else if forallb is_hex_lower sha && (ABBREV_SHA_MIN <=? length sha)
                  && (length sha <=? ABBREV_SHA_MAX) then Some (t_commit_prefix repo sha)
          else None
      end
    end
  end.

Definition toTarget (g : groups) (source : RepoSlug) (host : option jstr) : option ReferenceTarget :=
  match g with
  | g_url u => url_target u source host
  | g_cross o n d => Some (t_pull_request (scopeOf (mkSlug o n) source) (num_of_digits d))
  | g_num d => Some (t_pull_request None (num_of_digits d))
  | g_full h => Some (t_commit None (ascii_lower h))
  | g_abbrev h => Some (t_commit_prefix None (ascii_lower h))
  end.

Definition normalizeHost (host : option jstr) : option jstr :=
  match host with
  | None => None
  | Some [] => None
  | Some h =>
    match url (if includes (js "://") h then h else js "https://" ++ h) with
    | Some (host, _) => Some (ascii_lower host)
    | None => None
    end
  end.

(** One match of the scan: a new key takes the next place while there is room; a known
    key only changes from heuristic to derived. *)
Definition add_reference (limit : nat) (found : list ExtractedReference) (r : ExtractedReference)
  : list ExtractedReference :=
  if existsb (fun e => jeqb (reference_key e) (reference_key r)) found then
    map (fun e =>
      if jeqb (reference_key e) (reference_key r) then
        match confidence e, confidence r with
        | heuristic, derived => mkRef (reference_key e) (target e) derived (evidence r)
        | _, _ => e
        end
      else e) found
  else if limit <=? length found then found else found ++ [r].

Definition extractReferences (text : option jstr) (sourceRepo : RepoSlug) (gheHost : option jstr)
    (limit : nat) : list ExtractedReference :=
  match text with
  | None => []
  | Some text =>
    if jeqb text [] then []
    else
      let source := normalizeSlug sourceRepo in
      let host := normalizeHost gheHost in
      let masked := maskExcluded text in
      let lines := lineIndex masked in
      foldl (fun found m =>
        match toTarget m.2 source host with
        | None => found
        | Some t =>
          add_reference limit found
            (mkRef (referenceKey t) t (if inTrailer lines m.1 then derived else heuristic)
               (evidenceAt text lines m.1))
        end) [] (scan (length masked) None 0 masked)
  end.
End extraction.

(** ** Link ids *)

Definition SEPARATOR : jstr := [31%N].

Inductive DerivedLinkType : Set := lt_reverts | lt_cherry_picks | lt_stacks_on.
Inductive DerivedEndpointKind : Set := ep_pull_request | ep_commit.
Definition link_type_name (t : DerivedLinkType) : jstr :=
  match t with lt_reverts => js "reverts" | lt_cherry_picks => js "cherry_picks" | lt_stacks_on => js "stacks_on" end.
Definition endpoint_name (k : DerivedEndpointKind) : jstr :=
  match k with ep_pull_request => js "pull_request" | ep_commit => js "commit" end.

Section ids.
Context (sha256 : jstr -> jstr).
Definition referenceLinkId (fromType fromId key : jstr) : jstr :=
  sha256 (join SEPARATOR [js "references"; fromType; fromId; key]).
Definition derivedLinkId (linkType : DerivedLinkType) (fromType : DerivedEndpointKind) (fromId : jstr)
    (toType : DerivedEndpointKind) (toId : jstr) : jstr :=
  sha256 (join SEPARATOR [link_type_name linkType; endpoint_name fromType; fromId; endpoint_name toType; toId]).
End ids.

Definition no_urls (_ : jstr) : option (jstr * jstr) := None.
Example extract_ex :
  map (fun r => (reference_key r, confidence r))
    (extractReferences no_urls
      (Some (js "see #20 and Acme/A#20, acme/b#3 abcdef1" ++ [NL] ++ js "Closes: #20"))
      (mkSlug (js "acme") (js "a")) None REFERENCE_LIMIT)
  = [(js "pr:20", derived); (js "x:acme/b:pr:3", heuristic); (js "commit-prefix:abcdef1", heuristic)].
Proof. vm_compute. reflexivity. Qed.

(** ** Lemmas on characters and segments *)

Lemma in_range_lia a b c : in_range a b c = true <-> (a <= c ∧ c <= b)%N.
Proof. apply in_range_spec. Qed.

Lemma alnum_lower c : is_alnum c = true -> is_low_alnum (lower_char c) = true.
Proof.
  unfold is_alnum, is_alpha, is_low_alnum, lower_char, is_lower, is_upper, is_digit.
  rewrite !orb_true_iff, !in_range_spec. intros H.
  destruct (in_range 65 90 c) eqn:E; [apply in_range_spec in E|]; [left; lia|].
  apply not_true_iff_false in E. rewrite in_range_spec in E. lia.
Qed.

Definition low_seg_char (c : N) : bool := (is_low_alnum c || (c =? 46) || (c =? 95) || (c =? 45))%N.

Lemma seg_lower c : seg_char c = true -> low_seg_char (lower_char c) = true.
Proof.
  unfold seg_char, is_word, low_seg_char. rewrite !orb_true_iff, !N.eqb_eq.
  intros [[[H| ->]| ->]| ->]; [|left; by right|left; left; by right|by right].
  apply alnum_lower in H. tauto.
Qed.

Lemma low_segment_lower a r :
  is_alnum a = true -> forallb seg_char r = true -> low_segment (ascii_lower (a :: r)) = true.
Proof.
  intros Ha Hr. cbn. rewrite alnum_lower by done. cbn [andb].
  rewrite forallb_elem in Hr |- *. intros c Hc.
  apply list_elem_of_In, in_map_iff in Hc as (d & <- & Hd). apply list_elem_of_In in Hd.
  by apply seg_lower, Hr.
Qed.

Lemma read_segment_spec s a b :
  read_segment s = Some (a, b) -> s = a ++ b ∧ low_segment (ascii_lower a) = true.
Proof.
  unfold read_segment. destruct s as [|c r]; [done|]. destruct (is_alnum c) eqn:Ec; [|done].
  pose proof (span_app seg_char r) as H1. pose proof (span_forall seg_char r) as H2.
  destruct (span seg_char r) as [x y]. cbn in H1, H2. intros [= <- <-].
  split; [by rewrite <- H1|by apply low_segment_lower].
Qed.

Lemma low_segment_chars s c : low_segment s = true -> low_seg_char c = false -> c ∉ s.
Proof.
  destruct s as [|x r]; [done|]. cbn. intros [Hx Hr]%andb_prop Hc.
  rewrite not_elem_of_cons. split.
  - intros ->. unfold low_seg_char in Hc. by rewrite Hx in Hc.
  - intros Hin. rewrite forallb_elem in Hr. apply Hr in Hin. unfold low_seg_char in Hc. congruence.
Qed.

(** ** Keys read back *)

Definition wf_repo (r : option RepoSlug) : Prop :=
  match r with Some r => low_segment (owner r) = true ∧ low_segment (name r) = true | None => True end.
Definition wf_target (t : ReferenceTarget) : Prop :=
  match t with
  | t_pull_request r n => wf_repo r ∧ (0 <= n)%Z
  | t_commit r h | t_commit_prefix r h => wf_repo r ∧ all1 is_hex_lower h = true
  end.

Definition plain_key (t : ReferenceTarget) : jstr :=
  match t with
  | t_pull_request _ n => js "pr:" ++ js_of_Z n
  | t_commit _ sha => js "commit:" ++ sha
  | t_commit_prefix _ prefix => js "commit-prefix:" ++ prefix
  end.
Definition repo_of (t : ReferenceTarget) : option RepoSlug :=
  match t with t_pull_request r _ | t_commit r _ | t_commit_prefix r _ => r end.

Lemma referenceKey_scope t : referenceKey t = scope_text (repo_of t) ++ plain_key t.
Proof. by destruct t. Qed.

Lemma parse_plain_key t : wf_target t -> parse_plain (repo_of t) (plain_key t) = Some t.
Proof.
  destruct t as [r n|r h|r h]; intros [_ H]; unfold parse_plain; cbn [repo_of plain_key].
  - rewrite starts_with_app. change (drop 3 (js "pr:" ++ js_of_Z n)) with (js_of_Z n). cbv zeta.
    rewrite js_of_Z_nonneg by done.
    rewrite (proj2 (all1_forallb _ _)) by (split; auto with prs).
    rewrite num_of_js_of_N, Z2N.id by done. done.
  - change (starts_with (js "pr:") (js "commit:" ++ h)) with false. cbv iota.
    rewrite starts_with_app. change (drop 7 (js "commit:" ++ h)) with h. cbv zeta. by rewrite H.
  - change (starts_with (js "pr:") (js "commit-prefix:" ++ h)) with false.
    change (starts_with (js "commit:") (js "commit-prefix:" ++ h)) with false. cbv iota.
    rewrite starts_with_app. change (drop 14 (js "commit-prefix:" ++ h)) with h. cbv zeta. by rewrite H.
Qed.

Lemma drop_after (c : N) (a b : jstr) : drop (S (length a)) (a ++ c :: b) = b.
Proof.
  replace (S (length a)) with (length a + 1) by lia. by rewrite <- drop_drop, drop_app_length.
Qed.

Lemma key_round_trip t : wf_target t -> parseReferenceKey (referenceKey t) = Some t.
Proof.
  intros Hw. rewrite referenceKey_scope. unfold parseReferenceKey.
  pose proof (parse_plain_key t Hw) as Hp.
  assert (wf_repo (repo_of t)) as Hr by (by destruct t, Hw).
  destruct (repo_of t) as [[o n]|]; cbn [scope_text].
  - destruct Hr as [Ho Hn]. cbn [owner name] in *. rewrite <- app_assoc, starts_with_app.
    rewrite (drop_app_length' (js "x:")) by done. cbv zeta.
    rewrite <- !app_assoc. change (js "/" ++ n ++ js ":" ++ plain_key t) with (47%N :: n ++ 58%N :: plain_key t).
    rewrite index_of_char_app by (by eapply low_segment_chars).
    rewrite take_app_length, drop_after.
    rewrite index_of_char_app by (by eapply low_segment_chars).
    rewrite take_app_length, drop_after, Ho, Hn. done.
  - cbn [app]. replace (starts_with (js "x:") (plain_key t)) with false by (by destruct t). done.
Qed.

Lemma parse_plain_wf r s t : wf_repo r -> parse_plain r s = Some t -> wf_target t ∧ repo_of t = r.
Proof.
  intros Hr. unfold parse_plain. cbv zeta.
  destruct (starts_with (js "pr:") s); [|destruct (starts_with (js "commit:") s);
    [|destruct (starts_with (js "commit-prefix:") s); [|done]]].
  all: match goal with |- context [if ?b then _ else _] => destruct b eqn:E; [|done] end.
  all: intros [= <-]; split; [|done]; split; try done.
  apply all1_forallb in E as [_ E]. by apply num_of_digits_nonneg.
Qed.

(** ** What the scan produces *)

Definition wf_groups (g : groups) : Prop :=
  match g with
  | g_url _ => True
  | g_cross o n d =>
    low_segment (ascii_lower o) = true ∧ low_segment (ascii_lower n) = true ∧ all1 is_digit d = true
  | g_num d => all1 is_digit d = true
  | g_full h => length h = 40 ∧ all1 is_hex h = true
  | g_abbrev h => 7 <= length h <= 12 ∧ all1 is_hex h = true
  end.

Lemma span_all1 (p : N -> bool) s x r : (span p s).1 = x :: r -> all1 p (x :: r) = true.
Proof. intros H. pose proof (span_forall p s) as Hf. rewrite H in Hf. exact Hf. Qed.

Lemma match_at_wf prev s g n : match_at prev s = Some (g, n) -> wf_groups g ∧ 1 <= n <= length s.
Proof.
  unfold match_at, or_else. intros H.
  destruct (match_url s) as [[g0 n0]|] eqn:E1; [|destruct (match_cross s) as [[g0 n0]|] eqn:E2;
    [|destruct (match_num s) as [[g0 n0]|] eqn:E3]].
  - injection H as -> ->. unfold match_url in E1.
    assert (forall k, match (span url_char (drop k s)).1 with [] => None
      | _ => Some (g_url (take (k + length (span url_char (drop k s)).1) s), k + length (span url_char (drop k s)).1) end
      = Some (g, n) -> wf_groups g ∧ 1 <= n <= length s) as Hk.
    { intros k Hk. pose proof (span_app url_char (drop k s)) as Ha.
      destruct (span url_char (drop k s)) as [[|x b] r]; [done|]. cbn [fst snd] in *.
      injection Hk as <- <-. split; [done|].
      apply (f_equal length) in Ha. rewrite length_app, length_drop in Ha. cbn [length] in *. lia. }
    destruct (starts_with (js "https://") s); [by apply (Hk 8)|].
    destruct (starts_with (js "http://") s); [by apply (Hk 7)|done].
  - injection H as -> ->. unfold match_cross in E2.
    destruct (read_segment s) as [[o [|c1 s1]]|] eqn:Eo; try done. apply read_segment_spec in Eo as [-> Ho].
    destruct (c1 =? 47)%N; [|done].
    destruct (read_segment s1) as [[nm [|c2 s2]]|] eqn:En; try done. apply read_segment_spec in En as [-> Hn].
    destruct (c2 =? 35)%N; [|done].
    pose proof (span_app is_digit s2) as Ha.
    destruct ((span is_digit s2).1) as [|x d] eqn:Ed; [done|]. injection E2 as <- <-.
    apply span_all1 in Ed as Hd. split; [done|].
    apply (f_equal length) in Ha. rewrite length_app in Ha.
    rewrite !length_app. cbn [length] in *. rewrite !length_app. cbn [length]. lia.
  - injection H as -> ->. unfold match_num in E3. destruct s as [|c r]; [done|].
    destruct (c =? 35)%N; [|done].
    pose proof (span_length is_digit r) as Hl. pose proof (span_app is_digit r) as Ha.
    destruct ((span is_digit r).1) as [|x d] eqn:Ed; [done|]. injection E3 as <- <-.
    apply span_all1 in Ed as Hd. split; [done|].
    apply (f_equal length) in Ha. rewrite length_app in Ha. cbn [length] in *. lia.
  - unfold match_hex in H. pose proof (span_app is_hex s) as Ha. pose proof (span_forall is_hex s) as Hf.
    destruct (span is_hex s) as [h r]. cbn [fst snd] in *.
    destruct (_ || _); [done|]. unfold FULL_SHA_LENGTH, ABBREV_SHA_MIN, ABBREV_SHA_MAX in H.
    assert (length h <= length s) by (rewrite <- Ha, length_app; lia).
    destruct (Nat.eqb_spec (length h) 40).
    + injection H as <- <-. cbn. split; [split; [done|]|lia]. apply all1_forallb. split; [by destruct h|done].
    + destruct (_ && _) eqn:E; [|done]. apply andb_prop in E as [Ea Eb]. bool_to_prop.
      injection H as <- <-. cbn. split; [split; [lia|]|lia]. apply all1_forallb.
      split; [destruct h; [simpl in *; lia|done]|done].
Qed.

Lemma toTarget_wf url g source host t :
  wf_groups g -> toTarget url g source host = Some t -> wf_target t.
Proof.
  assert (forall o n, low_segment (ascii_lower o) = true -> low_segment (ascii_lower n) = true ->
    wf_repo (scopeOf (mkSlug o n) source)) as Hscope.
  { intros o n Ho Hn. unfold scopeOf. cbv zeta. by case_bool_decide. }
  assert (forall h, all1 is_hex h = true -> all1 is_hex_lower (ascii_lower h) = true) as Hhex.
  { intros h [Hne Hh]%all1_forallb. apply all1_forallb. split; [by destruct h|].
    rewrite forallb_elem in Hh |- *. intros c Hc.
    apply list_elem_of_In, in_map_iff in Hc as (d & <- & Hd). apply list_elem_of_In in Hd.
    by apply hex_to_lower, Hh. }
  destruct g as [u|o n d|d|h|h]; cbn [wf_groups toTarget].
  - intros _ H. unfold url_target in H. destruct host as [host|]; [|done].
    destruct (url (strip_punctuation u)) as [[h path]|]; [|done].
    destruct (negb _); [done|]. destruct (URL_TARGET path) as [[[[o n] kind] v]|] eqn:Eu; [|done].
    assert (low_segment (ascii_lower o) = true ∧ low_segment (ascii_lower n) = true) as [Ho Hn].
    { unfold URL_TARGET in Eu. destruct (split_char 47 path) as [|[|] [|o' [|n' [|k' [|v' tl]]]]]; try done.
      cbv zeta in Eu. destruct (_ && _) eqn:E in Eu; [|done]. rewrite !andb_true_iff in E.
      injection Eu as <- <- <- <-. destruct E as ((((Es1 & Es2) & _) & _) & _).
      destruct (read_segment o') as [[a [|]]|] eqn:E1; try done.
      destruct (read_segment n') as [[b [|]]|] eqn:E2; try done.
      apply read_segment_spec in E1 as [-> ?], E2 as [-> ?]. by rewrite !app_nil_r. }
    cbv zeta in H. destruct (jeqb kind (js "pull")).
    + destruct (all1 is_digit v) eqn:Ev; [|done]. injection H as <-.
      split; [by apply Hscope|]. apply all1_forallb in Ev as [_ Ev]. by apply num_of_digits_nonneg.
    + destruct (forallb is_hex_lower (ascii_lower v)) eqn:Ev; [|done]. cbn [andb] in H.
      unfold FULL_SHA_LENGTH, ABBREV_SHA_MIN, ABBREV_SHA_MAX in H.
      destruct (Nat.eqb_spec (length (ascii_lower v)) 40).
      * injection H as <-. split; [by apply Hscope|]. apply all1_forallb. split; [|done].
        by destruct (ascii_lower v).
      * destruct (_ && _) eqn:E in H; [|done]. apply andb_prop in E as [Ea _]. bool_to_prop.
        injection H as <-. split; [by apply Hscope|]. apply all1_forallb. split; [|done].
        destruct (ascii_lower v); [simpl in *; lia|done].
  - intros (Ho & Hn & Hd) [= <-]. split; [by apply Hscope|].
    apply all1_forallb in Hd as [_ Hd]. by apply num_of_digits_nonneg.
  - intros Hd [= <-]. split; [done|]. apply all1_forallb in Hd as [_ Hd]. by apply num_of_digits_nonneg.
  - intros [_ Hh] [= <-]. split; [done|]. by apply Hhex.
  - intros [_ Hh] [= <-]. split; [done|]. by apply Hhex.
Qed.

Lemma scan_wf fuel : forall prev pos s, Forall (fun m => wf_groups m.2) (scan fuel prev pos s).
Proof.
  induction fuel as [|fuel IH]; intros prev pos s; [constructor|]. cbn [scan].
  destruct s as [|c s]; [constructor|].
  destruct (match_at prev (c :: s)) as [[g n]|] eqn:E; [|apply IH].
  constructor; [by apply match_at_wf in E as [? _]|apply IH].
Qed.

(** More fuel than the text changes nothing: every step consumes a character. *)
Lemma scan_fuel f : forall g prev pos s,
  length s <= f -> length s <= g -> scan f prev pos s = scan g prev pos s.
Proof.
  induction f as [|f IH]; intros g prev pos s Hf Hg.
  - destruct s; [|simpl in *; lia]. by destruct g.
  - destruct s as [|c s]; [by destruct g|]. destruct g as [|g]; [simpl in *; lia|]. cbn [scan].
    destruct (match_at prev (c :: s)) as [[gr n]|] eqn:E.
    + apply match_at_wf in E as [_ Hn]. f_equal. apply IH; rewrite length_drop; lia.
    + apply IH; simpl in *; lia.
Qed.

(** ** The set of references *)

Definition ref_ok (r : ExtractedReference) : Prop :=
  reference_key r = referenceKey (target r) ∧ wf_target (target r) ∧ length (evidence r) <= EVIDENCE_LIMIT.

Definition refs_ok (limit : nat) (l : list ExtractedReference) : Prop :=
  Forall ref_ok l ∧ NoDup (map reference_key l) ∧ length l <= limit.

Lemma add_reference_ok limit found r :
  refs_ok limit found -> ref_ok r -> refs_ok limit (add_reference limit found r).
Proof.
  intros (H1 & H2 & H3) Hr. unfold add_reference.
  destruct (existsb _ found) eqn:E.
  - set (f := fun e => _). assert (forall e, reference_key (f e) = reference_key e) as Hk.
    { intros e. unfold f. destruct (jeqb _ _); [|done]. by destruct (confidence e), (confidence r). }
    split_and!.
    + apply Forall_forall. intros e He. apply in_map_iff in He as (e' & <- & Hin).
      rewrite Forall_forall in H1. destruct (H1 e') as (G1 & G2 & G3).
      { first [exact Hin|by apply list_elem_of_In]. }
      unfold f. destruct (jeqb _ _) eqn:Ek; [|done].
      destruct (confidence e'), (confidence r); try done. by split_and!; [| |apply Hr].
    + rewrite map_map. rewrite (map_ext _ reference_key) by done. done.
    + by rewrite length_map.
  - destruct (Nat.leb_spec limit (length found)); [done|]. split_and!.
    + by apply Forall_app; split; [|constructor].
    + rewrite map_app. apply list.NoDup_app. split; [done|]. split; [|apply NoDup_singleton].
      intros k Hk Hin. cbn [map] in Hin. apply list_elem_of_singleton in Hin as ->.
      apply list_elem_of_In, in_map_iff in Hk as (e & Hke & Hin). apply not_true_iff_false in E.
      apply E, existsb_exists. exists e. split; [done|]. by apply jeqb_eq.
    + rewrite length_app. cbn [length]. lia.
Qed.

Lemma evidenceAt_length text lines off : length (evidenceAt text lines off) <= EVIDENCE_LIMIT.
Proof.
  unfold evidenceAt. destruct (lineAt lines off); [apply clip_length|]. cbn. unfold EVIDENCE_LIMIT. lia.
Qed.

Lemma fold_refs_ok limit (step : list ExtractedReference -> nat * groups -> list ExtractedReference) :
  (forall found m, refs_ok limit found -> wf_groups m.2 -> refs_ok limit (step found m)) ->
  forall ms found, Forall (fun m => wf_groups m.2) ms -> refs_ok limit found ->
  refs_ok limit (foldl step found ms).
Proof.
  intros Hs. induction ms as [|m ms IH]; intros found Hms Hf; [done|].
  apply Forall_cons_1 in Hms as [Hm Hms]. cbn [foldl]. auto.
Qed.

Lemma extract_ok url text src host limit : refs_ok limit (extractReferences url text src host limit).
Proof.
  assert (refs_ok limit []) as H0 by (split_and!; [constructor|constructor|cbn; lia]).
  unfold extractReferences. destruct text as [text|]; [|done]. destruct (jeqb text []); [done|].
  cbv zeta. apply fold_refs_ok; [|apply scan_wf|done].
  intros found [off g] Hf Hg. cbn [fst snd] in *.
  destruct (toTarget url g _ _) as [t|] eqn:Et; [|done]. apply toTarget_wf in Et; [|done].
  apply add_reference_ok; [done|]. split_and!; [done|done|apply evidenceAt_length].
Qed.

(** ** Lines *)

Definition span_of (lines : list LineSpan) (i : nat) (offset : nat) : Prop :=
  ∃ s, lines !! i = Some s ∧ l_start s <= offset <= l_end s.

Open Scope Z_scope.
(** Spans in order: everything before line [t] ends before the offset, everything after
    it starts after. *)
Lemma line_search_spec lines offset t :
  (forall i s, lines !! i = Some s -> (l_start s <= l_end s)%nat) ->
  (forall i s, lines !! i = Some s -> (i < t)%nat -> (l_end s < offset)%nat) ->
  (forall i s, lines !! i = Some s -> (t < i)%nat -> (offset < l_start s)%nat) ->
  span_of lines t offset ->
  forall fuel low high, 0 <= low <= Z.of_nat t -> Z.of_nat t <= high < Z.of_nat (length lines) ->
  high - low < Z.of_nat fuel ->
  line_search fuel lines offset low high = lines !! t.
Proof.
  intros Hse Hbefore Hafter (s & Hs & Hin). induction fuel as [|fuel IH]; intros low high Hl Hh Hf; [lia|].
  cbn [line_search]. rewrite (proj2 (Z.leb_le low high)) by lia. cbv zeta.
  rewrite Z.shiftr_div_pow2 by done. change (2 ^ 1) with 2.
  assert (low <= (low + high) / 2 <= high) as Hm.
  { split; [apply Z.div_le_lower_bound; lia|apply Z.div_le_upper_bound; lia]. }
  set (mid := (low + high) / 2) in *.
  destruct (lines !! Z.to_nat mid) as [sp|] eqn:Em.
  2:{ apply lookup_ge_None in Em. lia. }
  destruct (Nat.ltb_spec offset (l_start sp)).
  - destruct (Z.lt_trichotomy mid (Z.of_nat t)) as [Hlt|[Heq|Hgt]].
    + pose proof (Hbefore _ _ Em ltac:(lia)).
      pose proof (Hse _ _ Em). lia.
    + exfalso. rewrite Heq, Nat2Z.id, Hs in Em. injection Em as <-. lia.
    + apply IH; lia.
  - destruct (Nat.ltb_spec (l_end sp) offset).
    + destruct (Z.lt_trichotomy mid (Z.of_nat t)) as [Hlt|[Heq|Hgt]].
      * apply IH; lia.
      * exfalso. rewrite Heq, Nat2Z.id, Hs in Em. injection Em as <-. lia.
      * pose proof (Hafter _ _ Em ltac:(lia)). lia.
    + destruct (Z.lt_trichotomy mid (Z.of_nat t)) as [Hlt|[Heq|Hgt]].
      * pose proof (Hbefore _ _ Em ltac:(lia)). lia.
      * rewrite Heq, Nat2Z.id in Em. by rewrite Em.
      * pose proof (Hafter _ _ Em ltac:(lia)). lia.
Qed.
Open Scope nat_scope.

Lemma line_spans_spec lines : forall start,
  (forall i s, line_spans start lines !! i = Some s -> start <= l_start s <= l_end s) ∧
  (forall i j s s', line_spans start lines !! i = Some s -> line_spans start lines !! j = Some s' ->
     i < j -> l_end s < l_start s') ∧
  (forall offset, start <= offset -> offset <= start + length (join [NL] lines) -> lines <> [] ->
     ∃ t, span_of (line_spans start lines) t offset).
Proof.
  induction lines as [|l ls IH]; intros start.
  - split_and!; [done..|]. done.
  - destruct (IH (start + length l + 1)) as (H1 & H2 & H3). cbn [line_spans]. split_and!.
    + intros [|i] s; cbn; [intros [= <-]; cbn; lia|]. intros Hi. apply H1 in Hi. lia.
    + intros [|i] [|j] s s'; cbn; try lia.
      * intros [= <-] Hj _. apply H1 in Hj. cbn. lia.
      * intros Hi Hj Hij. eapply H2; [exact Hi|exact Hj|lia].
    + intros offset Hlo Hhi _. destruct (Nat.le_gt_cases offset (start + length l)).
      * exists 0. eexists. split; [done|]. cbn. lia.
      * assert (ls <> []) as Hne.
        { intros ->. cbn in Hhi. lia. }
        assert (length (join [NL] (l :: ls)) = length l + 1 + length (join [NL] ls)) as Hj.
        { destruct ls; [done|]. cbn [join]. rewrite !length_app. cbn [length]. lia. }
        destruct (H3 offset) as (t & s & Hs & Hin); [lia|lia|done|]. exists (S t), s. done.
Qed.

(** ** Theorems *)

(** A reference key identifies its target: the target is read back from the key, so
    two targets with the same key are the same, and whatever a key reads as is a
    well-formed target. *)
Theorem referenceKey_round_trip t :
  wf_target t ->
  parseReferenceKey (referenceKey t) = Some t ∧
  (forall t', wf_target t' -> referenceKey t' = referenceKey t -> t' = t) ∧
  (forall key t', parseReferenceKey key = Some t' -> wf_target t').
Proof.
  intros Hw. split_and!.
  - by apply key_round_trip.
  - intros t' Hw' He. apply key_round_trip in Hw, Hw'. congruence.
  - intros key t'. unfold parseReferenceKey. cbv zeta.
    destruct (starts_with (js "x:") key); [|intros H; by apply parse_plain_wf in H as [? _]].
    destruct (index_of_char 47 _); [|done]. destruct (index_of_char 58 _); [|done].
    destruct (_ && _) eqn:E; [|done]. apply andb_prop in E as [E1 E2].
    intros H. apply parse_plain_wf in H as [? _]; [done|]. by split.
Qed.
Lemma referenceKey_round_trip_witness :
  let t := t_pull_request (Some (mkSlug (js "acme") (js "b"))) 3 in
  parseReferenceKey (referenceKey t) = Some t ∧
  (forall t', wf_target t' -> referenceKey t' = referenceKey t -> t' = t) ∧
  (forall key t', parseReferenceKey key = Some t' -> wf_target t').
Proof.
  apply (referenceKey_round_trip (t_pull_request (Some (mkSlug (js "acme") (js "b"))) 3)).
  split; [split; reflexivity|lia].
Defined.

(** The references of a text are a bounded set: at most [limit], one per key, each key
    the one of its target and readable back to it, each evidence at most 200 characters. *)
Theorem extractReferences_set url text src host limit :
  let refs := extractReferences url text src host limit in
  length refs <= limit ∧ NoDup (map reference_key refs) ∧
  Forall (fun r => parseReferenceKey (reference_key r) = Some (target r) ∧
                   length (evidence r) <= EVIDENCE_LIMIT) refs.
Proof.
  cbv zeta. destruct (extract_ok url text src host limit) as (H1 & H2 & H3). split_and!; [done..|].
  eapply List.Forall_impl; [|exact H1]. intros r (Hk & Hw & He). split; [|done].
  rewrite Hk. by apply key_round_trip.
Qed.

(** The binary search finds the line of every offset of the text (line feeds count to
    the line they end) and finds nothing only past the end. *)
Theorem lineAt_finds text offset :
  (offset <= length text -> ∃ s, lineAt (lineIndex text) offset = Some s ∧
     l_start s <= offset <= l_end s) ∧
  (forall s, lineAt (lineIndex text) offset = Some s -> l_start s <= offset <= l_end s).
Proof.
  split.
  - intros Ho. unfold lineIndex. set (ls := split_char NL text).
    destruct (line_spans_spec ls 0) as (H1 & H2 & H3).
    destruct (split_char_cons NL text) as (p & ps & E).
    destruct (H3 offset) as (t & s & Hs & Hin); [lia| |by unfold ls; rewrite E|].
    { unfold ls. rewrite join_split. lia. }
    exists s. split; [|done]. unfold lineAt.
    pose proof (lookup_lt_Some _ _ _ Hs) as Hlt.
    rewrite (line_search_spec (line_spans 0 ls) offset t); [done| | | |by exists s|lia|lia|lia].
    + intros i s' Hi. apply H1 in Hi. lia.
    + intros i s' Hi Hit. pose proof (H2 _ _ _ _ Hi Hs Hit). lia.
    + intros i s' Hi Hit. pose proof (H2 _ _ _ _ Hs Hi Hit). lia.
  - intros s. unfold lineAt. generalize (S (length (lineIndex text))) as fuel.
    generalize 0%Z as low. generalize (Z.of_nat (length (lineIndex text)) - 1)%Z as high.
    intros high low fuel. revert low high. induction fuel as [|fuel IH]; intros low high; [done|].
    cbn [line_search]. destruct (low <=? high)%Z; [|done]. cbv zeta.
    destruct (lineIndex text !! _) as [sp|]; [|done].
    destruct (Nat.ltb_spec offset (l_start sp)); [apply IH|].
    destruct (Nat.ltb_spec (l_end sp) offset); [apply IH|]. intros [= ->]. lia.
Qed.
Lemma lineAt_finds_witness :
  ∃ s, lineAt (lineIndex (js "ab" ++ [NL] ++ js "cd")) 3 = Some s ∧ l_start s <= 3 <= l_end s.
Proof. apply (proj1 (lineAt_finds (js "ab" ++ [NL] ++ js "cd") 3)). vm_compute. lia. Defined.

(** The reverse lookup misses nothing: every key a text can contain for a commit, the
    full SHA or a prefix of 7 to 12 digits in either case, is among the seven keys looked
    up when the commit appears. *)
Theorem commitReferenceKeys_complete sha repo t :
  length sha = 40 ->
  t = t_commit repo (ascii_lower sha) \/
    (∃ n, 7 <= n <= 12 ∧ t = t_commit_prefix repo (take n (ascii_lower sha))) ->
  referenceKey t ∈ commitReferenceKeys sha repo ∧ length (commitReferenceKeys sha repo) = 7.
Proof.
  intros _ Ht. split; [|done]. unfold commitReferenceKeys. cbv zeta.
  destruct Ht as [->|(n & Hn & ->)]; [by left|]. right.
  apply list_elem_of_In, in_map_iff. exists n. split; [done|].
  apply in_seq. unfold ABBREV_SHA_MIN, ABBREV_SHA_MAX. lia.
Qed.
Lemma commitReferenceKeys_complete_witness :
  referenceKey (t_commit_prefix None (take 8 (ascii_lower (replicate 40 65%N))))
    ∈ commitReferenceKeys (replicate 40 65%N) None ∧
  length (commitReferenceKeys (replicate 40 65%N) None) = 7.
Proof.
  apply (commitReferenceKeys_complete (replicate 40 65%N) None
    (t_commit_prefix None (take 8 (ascii_lower (replicate 40 65%N)))) eq_refl).
  right. exists 8. split; [lia|reflexivity].
Defined.

(** Link ids are injective up to a hash collision: when SHA-256 does not collide, equal
    ids mean the same source and reference, or the same type and end points, as long as
    no part contains the separator. *)
Theorem link_ids_injective sha256 :
  (forall a b, sha256 a = sha256 b -> a = b) ->
  (forall f i k f' i' k',
     Forall (fun p => 31%N ∉ p) [f; i; k; f'; i'; k'] ->
     referenceLinkId sha256 f i k = referenceLinkId sha256 f' i' k' -> f = f' ∧ i = i' ∧ k = k') ∧
  (forall lt ft fi tt ti lt' ft' fi' tt' ti',
     Forall (fun p => 31%N ∉ p) [fi; ti; fi'; ti'] ->
     derivedLinkId sha256 lt ft fi tt ti = derivedLinkId sha256 lt' ft' fi' tt' ti' ->
     lt = lt' ∧ ft = ft' ∧ fi = fi' ∧ tt = tt' ∧ ti = ti').
Proof.
  intros Hinj.
  assert (forall l l', l <> [] -> l' <> [] -> Forall (fun p => 31%N ∉ p) l -> Forall (fun p => 31%N ∉ p) l' ->
    join SEPARATOR l = join SEPARATOR l' -> l = l') as Hj.
  { intros l l' Hl Hl' Hf Hf' E. unfold SEPARATOR in E.
    rewrite <- (split_join 31 l), <- (split_join 31 l') by done. by rewrite E. }
  split.
  - intros f i k f' i' k' Hf H.
    assert (31%N ∉ js "references") by (by apply index_of_char_None).
    repeat (apply Forall_cons_1 in Hf as [? Hf]).
    apply Hinj, Hj in H; [by simplify_eq|done|done|repeat (apply Forall_cons_2; [done|]); constructor..].
  - intros lt ft fi tt ti lt' ft' fi' tt' ti' Hf H.
    assert (forall x, 31%N ∉ link_type_name x) as Hlt by (intros []; by apply index_of_char_None).
    assert (forall x, 31%N ∉ endpoint_name x) as Hep by (intros []; by apply index_of_char_None).
    repeat (apply Forall_cons_1 in Hf as [? Hf]).
    apply Hinj, Hj in H; [|done|done|repeat (apply Forall_cons_2; [done|]); constructor..].
    injection H as E1 E2 -> E4 ->.
    split_and!; try done; [by destruct lt, lt'|by destruct ft, ft'|by destruct tt, tt'].
Qed.
