(* ===== verification/Revert.v ===== *)
(** * Reverts and cherry-picks

    [packages/domain/src/link/revert.ts] and [cherry.ts]: the expressions a commit or a
    pull request uses to name what it reverts or picks.  Every regular expression is a
    function on the text at a position; [scan_all] is the loop over [exec] with the
    [g] flag.  [toLowerCase] of the title keys is a parameter (full Unicode). *)

From stdpp Require Import base list option strings numbers.
From Stdlib Require Import ZArith Lia.
From S2P Require Import Prelude JsString LinkText.
Open Scope nat_scope.

(** ** Matching *)

(** A word in either case, and the rest. *)
Definition word_ci (w s : jstr) : option jstr :=
  if jeqb (ascii_lower (take (length w) s)) w then Some (drop (length w) s) else None.
Definition spaces0 (s : jstr) : jstr := (span is_space s).2.
Definition spaces1 (s : jstr) : option jstr :=
  match s with c :: _ => if is_space c then Some (spaces0 s) else None | [] => None end.
(** Forty hexadecimal digits, and the rest. *)
Definition hex40 (s : jstr) : option (jstr * jstr) :=
  if (length (take 40 s) =? 40) && forallb is_hex (take 40 s) then Some (take 40 s, drop 40 s) else None.
Definition char_is (p : N -> bool) (s : jstr) : option jstr :=
  match s with c :: r => if p c then Some r else None | [] => None end.

(** What a match consumed, from what it left. *)
Definition consumed (s rest : jstr) : nat := length s - length rest.

Section scan_all.
Context {A : Type} (m : option N -> jstr -> option (A * nat)).
Fixpoint scan_all (fuel : nat) (prev : option N) (pos : nat) (s : jstr) : list (nat * A) :=
  match fuel, s with
  | S fuel, c :: s' =>
    match m prev s with
    | Some (a, S n) => (pos, a) :: scan_all fuel (hd_error (rev (take (S n) s))) (pos + S n) (drop (S n) s)
    | _ => scan_all fuel (Some c) (S pos) s'
    end
  | _, _ => []
  end.

Lemma scan_all_in fuel : forall prev pos s p a,
  In (p, a) (scan_all fuel prev pos s) -> ∃ prev' s' n, m prev' s' = Some (a, n).
Proof.
  induction fuel as [|fuel IH]; intros prev pos s p a; [done|]. cbn [scan_all].
  destruct s as [|c s]; [done|]. destruct (m prev (c :: s)) as [[b [|n]]|] eqn:E; [apply IH| |apply IH].
  intros [H|H]; [injection H as <- <-; eauto|by eapply IH].
Qed.
End scan_all.

(** ** revert.ts *)

Inductive RevertTarget : Set :=
| rv_commit (sha : jstr)
| rv_title (title : jstr).
Inductive RevertConfidence : Set := exact_ | heuristic_.
Record ExtractedRevert : Set := mkRevert {
  rv_target : RevertTarget;
  rv_confidence : RevertConfidence;
  rv_evidence : jstr
}.

Definition TITLE_MAX : nat := 512.

(** [/this\s+reverts\s+commit\s+([0-9a-f]{40})\b/gi] *)
Definition REVERT_TRAILER (_ : option N) (s : jstr) : option (jstr * nat) :=
  s1 ← word_ci (js "this") s; s2 ← spaces1 s1;
  s3 ← word_ci (js "reverts") s2; s4 ← spaces1 s3;
  s5 ← word_ci (js "commit") s4; s6 ← spaces1 s5;
  '(sha, rest) ← hex40 s6;
  match rest with
  | c :: _ => if is_word c then None else Some (sha, consumed s rest)
  | [] => Some (sha, consumed s rest)
  end.

Definition open_quote (c : N) : bool := ((c =? 34) || (c =? 8220))%N.
Definition close_quote (c : N) : bool := ((c =? 34) || (c =? 8221))%N.
Definition title_char (c : N) : bool := negb (close_quote c || (c =? 10)%N).

(** The word [revert] at a boundary, an optional colon, a quoted title of 1 to 512
    characters on one line. *)
Definition REVERT_QUOTED (prev : option N) (s : jstr) : option (jstr * nat) :=
  if match prev with Some c => is_word c | None => false end then None
  else
    s1 ← word_ci (js "revert") s;
    let s2 := spaces0 s1 in
    let s3 := match s2 with c :: r => if (c =? 58)%N then spaces0 r else s2 | [] => s2 end in
    s4 ← char_is open_quote s3;
    let (title, s5) := span title_char s4 in
    s6 ← char_is close_quote s5;
    if (1 <=? length title) && (length title <=? TITLE_MAX) then Some (title, consumed s s6) else None.

(** [.] *)
Definition dot (c : N) : bool := negb ((c =? 10) || (c =? 13) || (c =? 8232) || (c =? 8233))%N.

(** [(\s+)(.+)$] on [ws ++ rest], [ws] being all the leading spaces: the second group.
    When nothing follows the spaces, the last one is given back to [.+]. *)
Definition spaces_then_rest (ws rest : jstr) : option jstr :=
  match ws with
  | [] => None
  | _ =>
    match rest with
    | _ :: _ => if forallb dot rest then Some rest else None
    | [] => match rev ws with c :: _ :: _ => if dot c then Some [c] else None | _ => None end
    end
  end.

(** [^\s*revert\s*:?\s+(.+)$]: the colon is tried first. *)
Definition REVERT_PREFIX (s : jstr) : option jstr :=
  s1 ← word_ci (js "revert") (spaces0 s);
  let (ws1, r1) := span is_space s1 in
  let with_colon :=
    match r1 with
    | c :: r2 => if (c =? 58)%N then let (ws2, r3) := span is_space r2 in spaces_then_rest ws2 r3 else None
    | [] => None
    end in
  match with_colon with Some t => Some t | None => spaces_then_rest ws1 r1 end.

(** [raw.replace(/\s+/g, ' ')] *)
Fixpoint collapse (s : jstr) : jstr :=
  match s with
  | [] => []
  | c :: s' =>
    if is_space c then
      match s' with
      | d :: _ => if is_space d then collapse s' else 32%N :: collapse s'
      | [] => [32%N]
      end
    else c :: collapse s'
  end.

Definition normalizeTitle (raw : jstr) : option jstr :=
  let collapsed := trim (collapse raw) in
  if jeqb collapsed [] || (TITLE_MAX <? length collapsed) then None else Some collapsed.

Definition stripQuotes (raw : jstr) : jstr :=
  let trimmed := trim raw in
  match trimmed, rev trimmed with
  | first :: _, last :: _ =>
    if ((first =? 34) && (last =? 34))%N || ((first =? 8220) && (last =? 8221))%N
    then slice trimmed 1 (length trimmed - 1) else trimmed
  | _, _ => trimmed
  end.

Section reverts.
Context (toLowerCase : jstr -> jstr).

Definition revert_key (t : RevertTarget) : jstr :=
  match t with rv_commit sha => js "c:" ++ sha | rv_title title => js "t:" ++ toLowerCase title end.

(** [add]: a known key keeps its place; only [exact] replaces [heuristic]. *)
Definition add_revert (found : list ExtractedRevert) (r : ExtractedRevert) : list ExtractedRevert :=
  let k := revert_key (rv_target r) in
  if existsb (fun e => jeqb (revert_key (rv_target e)) k) found then
    map (fun e => if jeqb (revert_key (rv_target e)) k
                  then match rv_confidence e, rv_confidence r with heuristic_, exact_ => r | _, _ => e end
                  else e) found
  else found ++ [r].

Definition extractReverts (text : jstr) (isPullRequestTitle : bool) : list ExtractedRevert :=
  if jeqb text [] then []
  else
    let masked := maskExcluded text in
    let add found t conf off := add_revert found (mkRevert t conf (evidenceLine text off)) in
    let f1 := foldl (fun found m => add found (rv_commit (ascii_lower m.2)) exact_ m.1)
                [] (scan_all REVERT_TRAILER (length masked) None 0 masked) in
    let f2 := foldl (fun found m =>
                match normalizeTitle m.2 with
                | Some title => add found (rv_title title) heuristic_ m.1
                | None => found
                end) f1 (scan_all REVERT_QUOTED (length masked) None 0 masked) in
    if isPullRequestTitle then
      match REVERT_PREFIX masked with
      | Some body =>
        match normalizeTitle (stripQuotes body) with
        | Some title => add f2 (rv_title title) heuristic_ 0
        | None => f2
        end
      | None => f2
      end
    else f2.

Definition is_title (r : ExtractedRevert) : bool :=
  match rv_target r with rv_title _ => true | rv_commit _ => false end.

Definition extractCommitReverts (message : jstr) : list ExtractedRevert :=
  let subject := commitSubject message in
  let body := extractReverts message false in
  if existsb is_title body then body
  else body ++ List.filter is_title (extractReverts subject true).
End reverts.

(** ** cherry.ts *)

Record ExtractedCherryPick : Set := mkCherry { cp_sha : jstr; cp_evidence : jstr }.

(** [(cherry picked from commit <sha>)], spaces free, either case. *)
Definition CHERRY_TRAILER (_ : option N) (s : jstr) : option (jstr * nat) :=
  s1 ← char_is (N.eqb 40) s;
  s2 ← word_ci (js "cherry") (spaces0 s1); s3 ← spaces1 s2;
  s4 ← word_ci (js "picked") s3; s5 ← spaces1 s4;
  s6 ← word_ci (js "from") s5; s7 ← spaces1 s6;
  s8 ← word_ci (js "commit") s7; s9 ← spaces1 s8;
  '(sha, r) ← hex40 s9;
  r' ← char_is (N.eqb 41) (spaces0 r);
  Some (sha, consumed s r').

Definition extractCherryPicks (message : jstr) : list ExtractedCherryPick :=
  if jeqb message [] then []
  else
    let masked := maskExcluded message in
    foldl (fun seen m =>
      let sha := ascii_lower m.2 in
      if existsb (fun e => jeqb (cp_sha e) sha) seen then seen
      else seen ++ [mkCherry sha (evidenceLine message m.1)])
      [] (scan_all CHERRY_TRAILER (length masked) None 0 masked).

Definition sample_sha : jstr := replicate 39 65%N ++ js "0".
Example revert_ex :
  map rv_target (extractCommitReverts ascii_lower
    (js "Revert " ++ [34%N] ++ js "fix  login" ++ [34%N] ++ [NL; NL] ++ js "This reverts commit "
     ++ sample_sha ++ js "."))
  = [rv_commit (ascii_lower sample_sha); rv_title (js "fix login")].
Proof. vm_compute. reflexivity. Qed.
Example revert_prefix_ex :
  map rv_target (extractReverts ascii_lower (js "Revert: fix login") true) = [rv_title (js "fix login")].
Proof. vm_compute. reflexivity. Qed.
Example cherry_ex :
  map cp_sha (extractCherryPicks (js "x" ++ [NL] ++ js "(cherry picked from commit " ++ sample_sha ++ js ")"))
  = [ascii_lower sample_sha].
Proof. vm_compute. reflexivity. Qed.

(** ** Lemmas *)

Definition full_sha (s : jstr) : Prop := length s = 40 ∧ forallb is_hex_lower s = true.

Lemma hex40_full s sha rest : hex40 s = Some (sha, rest) -> full_sha (ascii_lower sha).
Proof.
  unfold hex40. destruct (_ && _) eqn:E; [|done]. intros [= <- _].
  apply andb_prop in E as [El Eh]. bool_to_prop. split; [by rewrite ascii_lower_length|].
  rewrite forallb_elem in Eh |- *. intros c Hc.
  apply list_elem_of_In, in_map_iff in Hc as (d & <- & Hd). apply list_elem_of_In in Hd.
  by apply hex_to_lower, Eh.
Qed.

(** Case analysis of a chain of optional matches. *)
Ltac opt_chain :=
  repeat match goal with
  | H : (_ ← ?m; _) = Some _ |- _ =>
      let E := fresh "E" in destruct m eqn:E; cbn [mbind option_bind] in H; [|discriminate H]
  | H : (let '(_, _) := ?p in _) = Some _ |- _ => destruct p
  end.

Lemma trailer_full prev s sha n : REVERT_TRAILER prev s = Some (sha, n) -> full_sha (ascii_lower sha).
Proof.
  unfold REVERT_TRAILER. intros H. opt_chain.
  match goal with E : hex40 _ = Some _ |- _ => apply hex40_full in E end.
  repeat case_match; by simplify_eq.
Qed.

Lemma cherry_full prev s sha n : CHERRY_TRAILER prev s = Some (sha, n) -> full_sha (ascii_lower sha).
Proof.
  unfold CHERRY_TRAILER. intros H. opt_chain. simplify_eq.
  match goal with E : hex40 _ = Some _ |- _ => by apply hex40_full in E end.
Qed.

Definition good_title (t : jstr) : Prop := t <> [] ∧ length t <= TITLE_MAX ∧ trim t = t.

Lemma trim_idem s : trim (trim s) = trim s.
Proof.
  unfold trim, trim_end.
  set (u := trim_start s). pose proof (trim_start_head s) as Hh. fold u in Hh.
  set (v := rev (trim_start (rev u))).
  assert (trim_start v = v) as Hv.
  { apply trim_start_id. subst v. destruct (trim_start_suffix (rev u)) as (a & Ha & Hs).
    apply (f_equal (@rev N)) in Ha. rewrite rev_involutive, rev_app_distr in Ha.
    destruct (rev (trim_start (rev u))) as [|c r]; [done|]. cbn [app] in Ha. by rewrite Ha in Hh. }
  rewrite Hv. subst v. rewrite rev_involutive.
  rewrite (trim_start_id (trim_start (rev u))) by apply trim_start_head. done.
Qed.

Lemma normalizeTitle_good raw t : normalizeTitle raw = Some t -> good_title t.
Proof.
  unfold normalizeTitle. cbv zeta. destruct (_ || _) eqn:E; [done|]. intros [= <-].
  apply orb_false_iff in E as [E1 E2]. apply jeqb_neq in E1. bool_to_prop.
  split_and!; [done|done|apply trim_idem].
Qed.

(** What every extracted revert satisfies. *)
Definition revert_ok (r : ExtractedRevert) : Prop :=
  length (rv_evidence r) <= EVIDENCE_LIMIT ∧
  match rv_target r with
  | rv_commit sha => rv_confidence r = exact_ ∧ full_sha sha
  | rv_title t => rv_confidence r = heuristic_ ∧ good_title t
  end.

Definition reverts_ok lower (l : list ExtractedRevert) : Prop :=
  Forall revert_ok l ∧ NoDup (map (fun r => revert_key lower (rv_target r)) l).

Lemma add_revert_ok lower found r :
  reverts_ok lower found -> revert_ok r -> reverts_ok lower (add_revert lower found r).
Proof.
  intros [H1 H2] Hr. unfold add_revert. cbv zeta. destruct (existsb _ found) eqn:E.
  - set (f := fun e => _). split.
    + apply Forall_forall. intros e He. apply in_map_iff in He as (e' & <- & Hin).
      rewrite Forall_forall in H1. specialize (H1 e' Hin) as He'. unfold f.
      destruct (jeqb _ _); [|done]. by destruct (rv_confidence e'), (rv_confidence r).
    + rewrite map_map. erewrite map_ext; [exact H2|]. intros e. unfold f.
      destruct (jeqb _ _) eqn:Ek; [|done]. apply jeqb_eq in Ek.
      by destruct (rv_confidence e), (rv_confidence r).
  - split; [by apply Forall_app; split; [|constructor]|].
    rewrite map_app. apply list.NoDup_app. split; [done|]. split; [|apply NoDup_singleton].
    intros k Hk Hin. cbn [map] in Hin. apply list_elem_of_singleton in Hin as ->.
    apply list_elem_of_In, in_map_iff in Hk as (e & Hke & Hin). apply not_true_iff_false in E.
    apply E, existsb_exists. exists e. split; [done|]. by apply jeqb_eq.
Qed.

Lemma fold_inv {A B} (P : A -> Prop) (Q : B -> Prop) (f : A -> B -> A) :
  (forall a b, P a -> Q b -> P (f a b)) ->
  forall l a, (forall b, In b l -> Q b) -> P a -> P (foldl f a l).
Proof.
  intros Hf. induction l as [|b l IH]; intros a Hl Ha; [done|]. cbn [foldl].
  apply IH; [intros; apply Hl; by right|]. apply Hf; [done|]. apply Hl. by left.
Qed.

Lemma evidenceLine_length text off : length (evidenceLine text off) <= EVIDENCE_LIMIT.
Proof. apply clip_length. Qed.

Lemma extractReverts_ok lower text pr : reverts_ok lower (extractReverts lower text pr).
Proof.
  assert (reverts_ok lower []) as H0 by (split; constructor).
  unfold extractReverts. destruct (jeqb text []); [done|]. cbv zeta.
  set (f1 := foldl _ [] _).
  assert (reverts_ok lower f1) as H1.
  { apply (fold_inv (reverts_ok lower) (fun m => full_sha (ascii_lower m.2))); [|intros [p a] Hin|done].
    - intros found m Hf Hm. apply add_revert_ok; [done|]. split; [apply evidenceLine_length|done].
    - apply scan_all_in in Hin as (? & ? & ? & Hm). by apply trailer_full in Hm. }
  set (f2 := foldl _ f1 _).
  assert (reverts_ok lower f2) as H2.
  { apply (fold_inv (reverts_ok lower) (fun _ => True)); [|done|done].
    intros found m Hf _. destruct (normalizeTitle m.2) as [t|] eqn:E; [|done].
    apply add_revert_ok; [done|]. split; [apply evidenceLine_length|]. cbn. split; [done|].
    by eapply normalizeTitle_good. }
  destruct pr; [|done]. destruct (REVERT_PREFIX _) as [body|]; [|done].
  destruct (normalizeTitle (stripQuotes body)) as [t|] eqn:E; [|done].
  apply add_revert_ok; [done|]. split; [apply evidenceLine_length|]. cbn. split; [done|].
  by eapply normalizeTitle_good.
Qed.

(** ** Theorems *)

(** What a text reverts is a set of targets with the confidence the rule gives: a
    commit is named by a full SHA and is exact, a title is normalized, at most 512
    characters and heuristic; no target appears twice; evidence is at most 200
    characters. *)
Theorem extractReverts_set lower text pr :
  Forall revert_ok (extractReverts lower text pr) ∧
  NoDup (map (fun r => revert_key lower (rv_target r)) (extractReverts lower text pr)).
Proof. apply extractReverts_ok. Qed.

(** The cherry-picks of a message are distinct full SHAs in lower case. *)
Theorem extractCherryPicks_set message :
  Forall (fun c => full_sha (cp_sha c) ∧ length (cp_evidence c) <= EVIDENCE_LIMIT) (extractCherryPicks message) ∧
  NoDup (map cp_sha (extractCherryPicks message)).
Proof.
  unfold extractCherryPicks. destruct (jeqb message []); [by split; constructor|]. cbv zeta.
  apply (fold_inv (fun l => Forall (fun c => full_sha (cp_sha c) ∧ length (cp_evidence c) <= EVIDENCE_LIMIT) l ∧
    NoDup (map cp_sha l)) (fun m => full_sha (ascii_lower m.2))); [|intros [p a] Hin|by split; constructor].
  - intros seen m [H1 H2] Hm. destruct (existsb _ seen) eqn:E; [done|]. split.
    + apply Forall_app. split; [done|]. constructor; [|constructor]. split; [done|apply evidenceLine_length].
    + rewrite map_app. apply list.NoDup_app. split; [done|]. split; [|apply NoDup_singleton].
      intros k Hk Hin. cbn [map] in Hin. apply list_elem_of_singleton in Hin as ->.
      apply list_elem_of_In, in_map_iff in Hk as (e & Hke & Hin). apply not_true_iff_false in E.
      apply E, existsb_exists. exists e. split; [done|]. by apply jeqb_eq.
  - apply scan_all_in in Hin as (? & ? & ? & Hm). by apply cherry_full in Hm.
Qed.
