(* ===== verification/Partition.v ===== *)
(** * Partitions, retries and topics of the event bus

    [packages/bus/src/partition.ts], [backoff.ts] and [topics.ts].  The bit operations
    of JavaScript work on signed 32-bit integers; [to_int32] and [ushr0] are the two
    conversions. *)

From stdpp Require Import base list option strings numbers.
From Stdlib Require Import ZArith Lia.
From S2P Require Import Prelude JsString Json SequenceSpace.
Open Scope Z_scope.

(** ** partition.ts *)

Definition to_int32 (z : Z) : Z := (z + 2 ^ 31) mod 2 ^ 32 - 2 ^ 31.
Definition shl (z : Z) (k : Z) : Z := to_int32 (Z.shiftl (to_int32 z) k).
Definition xor32 (a b : Z) : Z := to_int32 (Z.lxor (to_int32 a) (to_int32 b)).
Definition ushr0 (z : Z) : Z := z mod 2 ^ 32.

Definition FNV_OFFSET : Z := 2166136261.

Definition hash_step (hash c : Z) : Z :=
  let h := xor32 hash c in
  ushr0 (h + shl h 1 + shl h 4 + shl h 7 + shl h 8 + shl h 24).

Definition hashPartitionKey (partitionKey : jstr) : Z :=
  ushr0 (foldl (fun h c => hash_step h (Z.of_N c)) FNV_OFFSET partitionKey).

(** [count] is an integer or, for [None], another number. *)
Definition partitionFor (partitionKey : jstr) (count : option Z) : result jstr Z :=
  match count with
  | Some count =>
    if count <? 1 then Err (js "파티션 수는 1 이상의 정수여야 한다: " ++ js_of_Z count)
    else if jeqb partitionKey [] then Err (js "파티션 키가 비어 있다. 키가 없으면 순서를 보장할 수 없다")
    else Ok (hashPartitionKey partitionKey mod count)
  | None => Err (js "파티션 수는 1 이상의 정수여야 한다")
  end.

Definition allPartitions (count : Z) : list Z := map Z.of_nat (seq 0 (Z.to_nat count)).

Example hash_ex : hashPartitionKey (js "a") = 3826002220. Proof. reflexivity. Qed.
Example hash_foobar : hashPartitionKey (js "foobar") = 3214735720. Proof. reflexivity. Qed.

(** ** backoff.ts *)

Definition RETRY_DELAYS_MS : list Z := [1000; 2000; 4000; 8000; 16000].
Definition MAX_RETRIES : Z := 5.

(** [random()] is the fraction [n / d]; [Math.round] of the exact value
    [base * (1 + (2n/d - 1) / 5)]. *)
Definition retryDelayMs (attempt n d : Z) : Z :=
  let index := Z.max 0 (Z.min attempt MAX_RETRIES - 1) in
  let base := match RETRY_DELAYS_MS !! Z.to_nat index with Some b => b | None => 16000 end in
  (2 * (base * (4 * d + 2 * n)) + 5 * d) / (10 * d).

(** ** topics.ts *)

Inductive Topic : Set :=
| ingest | enriched | projected | sequence | release | batch | permission | ghExecutions.
#[export] Instance Topic_eq_dec : EqDecision Topic.
Proof. solve_decision. Defined.

Definition topic_name (t : Topic) : jstr :=
  match t with
  | ingest => js "prs:ingest" | enriched => js "prs:enriched" | projected => js "prs:projected"
  | sequence => js "prs:sequence" | release => js "prs:release" | batch => js "prs:batch"
  | permission => js "prs:permission" | ghExecutions => js "prs:gh:executions"
  end.
Definition TOPICS : list Topic :=
  [ingest; enriched; projected; sequence; release; batch; permission; ghExecutions].

Definition CONSUMER_GROUPS (t : Topic) : jstr :=
  match t with
  | ingest => js "enrich" | enriched => js "project" | projected => js "link"
  | sequence => js "sequence" | release => js "release" | batch => js "batch"
  | permission => js "authz" | ghExecutions => js "gh-executor"
  end.

Definition LOGICAL_CONSUMERS (t : Topic) : list jstr :=
  match t with
  | projected => [js "link"; js "commit-enrich"; js "mnumber"; js "annotate"]
  | t => [CONSUMER_GROUPS t]
  end.

Definition PARTITION_COUNTS (t : Topic) : Z :=
  match t with
  | ingest | enriched => 16 | projected | sequence => 8
  | release | permission | ghExecutions => 4 | batch => 3
  end.

Definition isKnownTopic (topic : jstr) : option Topic :=
  find_first (fun t => jeqb (topic_name t) topic) TOPICS.

(** An override that is no integer is [None]; the text of its value is left out of the
    message. *)
Definition partitionCount (topic : jstr) (overrides : list (jstr * option Z)) : result jstr Z :=
  match assoc topic overrides with
  | Some (Some n) =>
    if n <? 1 then Err (js "파티션 수는 1 이상의 정수여야 한다: " ++ topic ++ js "=" ++ js_of_Z n) else Ok n
  | Some None => Err (js "파티션 수는 1 이상의 정수여야 한다")
  | None =>
    match isKnownTopic topic with
    | None => Err (js "알 수 없는 토픽이다: " ++ topic ++ js ". 비동기 문서 2장의 스트림 6종만 쓴다")
    | Some t => Ok (PARTITION_COUNTS t)
    end
  end.

Definition consumerGroup (topic : jstr) (consumer : option jstr) : result jstr jstr :=
  match isKnownTopic topic with
  | None => Err (js "알 수 없는 토픽이다: " ++ topic)
  | Some t =>
    let base := CONSUMER_GROUPS t in
    match consumer with
    | None => Ok base
    | Some c =>
      if jeqb c base then Ok base
      else if mem c (LOGICAL_CONSUMERS t) then Ok (base ++ js ":" ++ c)
      else Err (js "알 수 없는 논리 소비자다: " ++ topic ++ js "/" ++ c)
    end
  end.

Definition partitionStream (topic : jstr) (partition : Z) : jstr :=
  topic ++ js ":" ++ js_of_Z partition.

(** ** Lemmas *)

Lemma to_int32_range z : - 2 ^ 31 <= to_int32 z < 2 ^ 31.
Proof. unfold to_int32. pose proof (Z.mod_pos_bound (z + 2 ^ 31) (2 ^ 32) ltac:(lia)). lia. Qed.

Lemma to_int32_mod z : (to_int32 z) mod 2 ^ 32 = z mod 2 ^ 32.
Proof.
  unfold to_int32. rewrite Zminus_mod_idemp_l. f_equal. lia.
Qed.

Lemma lxor_mod a b n : 0 <= n -> (Z.lxor a b) mod 2 ^ n = Z.lxor (a mod 2 ^ n) (b mod 2 ^ n).
Proof.
  intros Hn. apply Z.bits_inj'. intros i Hi. rewrite Z.lxor_spec.
  destruct (Z.lt_ge_cases i n).
  - rewrite !Z.mod_pow2_bits_low, Z.lxor_spec by done. done.
  - rewrite !Z.mod_pow2_bits_high by lia. done.
Qed.

Lemma shl_mod z k : 0 <= k -> (shl z k) mod 2 ^ 32 = (z * 2 ^ k) mod 2 ^ 32.
Proof.
  intros Hk. unfold shl. rewrite to_int32_mod, Z.shiftl_mul_pow2 by done.
  rewrite <- Z.mul_mod_idemp_l, to_int32_mod, Z.mul_mod_idemp_l by lia. done.
Qed.

(** The FNV-1a step: xor, then multiply by the 32-bit prime modulo [2^32]. *)
Definition fnv_step (hash c : Z) : Z := (Z.lxor hash c * 16777619) mod 2 ^ 32.

Lemma hash_step_fnv h c : 0 <= h < 2 ^ 32 -> 0 <= c < 2 ^ 16 -> hash_step h c = fnv_step h c.
Proof.
  intros Hh Hc. unfold hash_step, fnv_step, ushr0. cbv zeta. set (x := xor32 h c).
  assert (x mod 2 ^ 32 = Z.lxor h c mod 2 ^ 32) as Hx.
  { unfold x, xor32. rewrite to_int32_mod, !lxor_mod, !to_int32_mod by lia. done. }
  assert (forall a b k, 0 <= k -> (a + shl b k) mod 2 ^ 32 = (a + b * 2 ^ k) mod 2 ^ 32) as Hs.
  { intros a b k Hk. rewrite <- Z.add_mod_idemp_r, shl_mod, Z.add_mod_idemp_r by lia. done. }
  rewrite Hs by lia. rewrite <- Z.add_mod_idemp_l, Hs, Z.add_mod_idemp_l by lia.
  replace (x + shl x 1 + shl x 4 + shl x 7 + x * 2 ^ 8 + x * 2 ^ 24)
    with (x + shl x 1 + shl x 4 + x * 2 ^ 8 + x * 2 ^ 24 + shl x 7) by lia. rewrite Hs by lia.
  replace (x + shl x 1 + shl x 4 + x * 2 ^ 8 + x * 2 ^ 24 + x * 2 ^ 7)
    with (x + shl x 1 + x * 2 ^ 8 + x * 2 ^ 24 + x * 2 ^ 7 + shl x 4) by lia. rewrite Hs by lia.
  replace (x + shl x 1 + x * 2 ^ 8 + x * 2 ^ 24 + x * 2 ^ 7 + x * 2 ^ 4)
    with (x + x * 2 ^ 8 + x * 2 ^ 24 + x * 2 ^ 7 + x * 2 ^ 4 + shl x 1) by lia. rewrite Hs by lia.
  replace (x + x * 2 ^ 8 + x * 2 ^ 24 + x * 2 ^ 7 + x * 2 ^ 4 + x * 2 ^ 1) with (x * 16777619) by lia.
  rewrite <- Z.mul_mod_idemp_l, Hx, Z.mul_mod_idemp_l by lia. done.
Qed.

Lemma fold_fnv s : forall h,
  Forall (fun c => (c < 65536)%N) s -> 0 <= h < 2 ^ 32 ->
  foldl (fun h c => hash_step h (Z.of_N c)) h s = foldl (fun h c => fnv_step h (Z.of_N c)) h s ∧
  0 <= foldl (fun h c => hash_step h (Z.of_N c)) h s < 2 ^ 32.
Proof.
  induction s as [|c s IH]; intros h Hs Hh; [done|]. apply Forall_cons_1 in Hs as [Hc Hs].
  cbn [foldl]. rewrite hash_step_fnv by lia. apply IH; [done|].
  unfold fnv_step. apply Z.mod_pos_bound. lia.
Qed.

(** ** Theorems *)

(** The shift-and-add hash is FNV-1a modulo [2^32] on every key of code units, each
    intermediate sum fits in a double exactly, and a key always lands on one of the
    [count] partitions. *)
Theorem partitionFor_fnv key count :
  Forall (fun c => (c < 65536)%N) key -> key <> [] -> 1 <= count ->
  partitionFor key (Some count)
    = Ok (foldl (fun h c => fnv_step h (Z.of_N c)) FNV_OFFSET key mod count) ∧
  0 <= foldl (fun h c => fnv_step h (Z.of_N c)) FNV_OFFSET key mod count < count ∧
  (forall h c, let x := xor32 h c in
     is_safe_integer (x + shl x 1 + shl x 4 + shl x 7 + shl x 8 + shl x 24) = true).
Proof.
  intros Hk Hne Hc. destruct (fold_fnv key FNV_OFFSET Hk) as [He Hr]; [unfold FNV_OFFSET; lia|].
  split_and!.
  - unfold partitionFor. rewrite (proj2 (Z.ltb_ge count 1)) by lia.
    rewrite (proj2 (jeqb_neq key [])) by done. unfold hashPartitionKey, ushr0.
    rewrite (Z.mod_small _ (2 ^ 32)) by exact Hr. by rewrite He.
  - apply Z.mod_pos_bound. lia.
  - apply Z.mod_pos_bound. lia.
  - intros h c. cbv zeta. set (x := xor32 h c). apply is_safe_integer_spec.
    assert (- 2 ^ 31 <= x < 2 ^ 31) by apply to_int32_range.
    assert (forall k, - 2 ^ 31 <= shl x k < 2 ^ 31) as Hs by (intros; apply to_int32_range).
    pose proof (Hs 1). pose proof (Hs 4). pose proof (Hs 7). pose proof (Hs 8). pose proof (Hs 24).
    unfold MAX_SAFE_INTEGER. lia.
Qed.
Lemma partitionFor_fnv_witness :
  partitionFor (js "42") (Some 16)
    = Ok (foldl (fun h c => fnv_step h (Z.of_N c)) FNV_OFFSET (js "42") mod 16).
Proof.
  apply (partitionFor_fnv (js "42") 16); [|discriminate|lia].
  repeat constructor.
Defined.

Lemma delay_bounds b n d : 0 < b -> 0 < d -> 0 <= n <= d ->
  let v := (2 * (b * (4 * d + 2 * n)) + 5 * d) / (10 * d) in
  8 * b - 5 <= 10 * v <= 12 * b + 5.
Proof.
  intros Hb Hd Hn. cbv zeta.
  pose proof (Z.div_mod (2 * (b * (4 * d + 2 * n)) + 5 * d) (10 * d) ltac:(lia)) as E.
  pose proof (Z.mod_pos_bound (2 * (b * (4 * d + 2 * n)) + 5 * d) (10 * d) ltac:(lia)) as M.
  set (v := _ / _) in *. set (r := _ mod _) in *.
  assert (10 * d * v <= 12 * b * d + 5 * d) by nia.
  assert (8 * b * d - 5 * d < 10 * d * v) by nia. nia.
Qed.

(** The wait before a retry is defined for every attempt count and lies within 20% of
    the documented delay of that attempt (1, 2, 4, 8, then 16 seconds), whatever the
    random source returns. *)
Theorem retryDelayMs_bounds attempt n d :
  0 < d -> 0 <= n <= d ->
  let base := if attempt <=? 1 then 1000 else if attempt =? 2 then 2000
              else if attempt =? 3 then 4000 else if attempt =? 4 then 8000 else 16000 in
  8 * base <= 10 * retryDelayMs attempt n d <= 12 * base.
Proof.
  intros Hd Hn. cbv zeta. unfold retryDelayMs, MAX_RETRIES. cbv zeta.
  assert (forall b, (b = 1000 \/ b = 2000 \/ b = 4000 \/ b = 8000 \/ b = 16000) ->
    8 * b <= 10 * ((2 * (b * (4 * d + 2 * n)) + 5 * d) / (10 * d)) <= 12 * b) as H.
  { intros b Hb. pose proof (delay_bounds b n d ltac:(lia) Hd Hn) as H. cbv zeta in H.
    set (v := _ / _) in *. destruct Hb as [->|[->|[->|[->| ->]]]]; lia. }
  destruct (Z.leb_spec attempt 1).
  { replace (Z.max 0 (Z.min attempt 5 - 1)) with 0 by lia. apply H. lia. }
  destruct (Z.eqb_spec attempt 2) as [->|]; [apply H; lia|].
  destruct (Z.eqb_spec attempt 3) as [->|]; [apply H; lia|].
  destruct (Z.eqb_spec attempt 4) as [->|]; [apply H; lia|].
  replace (Z.max 0 (Z.min attempt 5 - 1)) with 4 by lia. apply H. lia.
Qed.
Lemma retryDelayMs_bounds_witness :
  8 * 4000 <= 10 * retryDelayMs 3 1 2 <= 12 * 4000.
Proof. apply (retryDelayMs_bounds 3 1 2); lia. Defined.

Lemma isKnownTopic_name t topic : isKnownTopic topic = Some t -> topic = topic_name t.
Proof. intros H. apply find_first_Some in H as [_ H]. by apply jeqb_eq in H. Qed.

Lemma last_sep_inj c (a a' b b' : jstr) :
  c ∉ b -> c ∉ b' -> a ++ c :: b = a' ++ c :: b' -> a = a' ∧ b = b'.
Proof.
  intros Hb Hb' H. apply (f_equal (@rev N)) in H. rewrite !rev_app_distr in H. cbn [rev] in H.
  rewrite <- !app_assoc in H. cbn [app] in H. apply app_sep_inj in H as [H1 H2].
  - apply (f_equal (@rev N)) in H1, H2. by rewrite !rev_involutive in H1, H2.
  - by rewrite list_elem_of_In, <- in_rev, <- list_elem_of_In.
  - by rewrite list_elem_of_In, <- in_rev, <- list_elem_of_In.
Qed.

(** Names do not collide: two partitions share a stream name only if they are the same
    partition of the same topic, and two logical consumers of a topic share a group only
    if they are the same consumer (no name being the default one); a name outside the
    catalogue is an error, never a new group. *)
Theorem bus_names_injective topic topic' p p' c c' g :
  0 <= p -> 0 <= p' ->
  (partitionStream topic p = partitionStream topic' p' -> topic = topic' ∧ p = p') ∧
  (consumerGroup topic c = Ok g -> consumerGroup topic c' = Ok g ->
   ∃ t, topic = topic_name t ∧
     match c with Some c => c | None => CONSUMER_GROUPS t end
     = match c' with Some c' => c' | None => CONSUMER_GROUPS t end ∧
     (match c with Some c => c | None => CONSUMER_GROUPS t end) ∈ LOGICAL_CONSUMERS t).
Proof.
  intros Hp Hp'. split.
  - unfold partitionStream. change (js ":") with [58%N]. intros H. apply last_sep_inj in H as [-> H];
      [|apply js_of_Z_no_colon..]. by apply js_of_Z_inj in H.
  - unfold consumerGroup. destruct (isKnownTopic topic) as [t|] eqn:Et; [|done].
    apply isKnownTopic_name in Et. intros H H'. exists t. split; [done|]. cbv zeta in *.
    assert (CONSUMER_GROUPS t ∈ LOGICAL_CONSUMERS t) as Hdef by (destruct t; by left).
    assert (forall c, match c with
      | None => Ok (CONSUMER_GROUPS t)
      | Some c => if jeqb c (CONSUMER_GROUPS t) then Ok (CONSUMER_GROUPS t)
        else if mem c (LOGICAL_CONSUMERS t) then Ok (CONSUMER_GROUPS t ++ js ":" ++ c)
        else Err (js "알 수 없는 논리 소비자다: " ++ topic ++ js "/" ++ c) end = Ok g ->
      (match c with Some c => c | None => CONSUMER_GROUPS t end) ∈ LOGICAL_CONSUMERS t ∧
      (g = CONSUMER_GROUPS t ∧ match c with Some c => c | None => CONSUMER_GROUPS t end = CONSUMER_GROUPS t
       \/ g = CONSUMER_GROUPS t ++ js ":" ++ match c with Some c => c | None => CONSUMER_GROUPS t end))
      as Hc.
    { intros [x|]; [|intros [= <-]; by auto].
      destruct (jeqb x (CONSUMER_GROUPS t)) eqn:E1; [apply jeqb_eq in E1 as ->; intros [= <-]; by auto|].
      destruct (mem x _) eqn:E2; [|done]. apply mem_elem in E2. intros [= <-]. auto. }
    destruct (Hc c H) as [Hin [[Hg Hx]|Hg]], (Hc c' H') as [Hin' [[Hg' Hx']|Hg']].
    + by rewrite Hx, Hx'.
    + exfalso. rewrite Hg in Hg'. apply (f_equal length) in Hg'. rewrite length_app in Hg'.
      cbn [length app] in Hg'. change (js ":") with [58%N] in Hg'. cbn [length app] in Hg'. lia.
    + exfalso. rewrite Hg' in Hg. apply (f_equal length) in Hg. rewrite length_app in Hg.
      change (js ":") with [58%N] in Hg. cbn [length app] in Hg. lia.
    + rewrite Hg in Hg'. apply app_inv_head in Hg'. apply app_inv_head in Hg'. done.
Qed.
Lemma bus_names_injective_witness :
  ∃ t, topic_name projected = topic_name t ∧ js "mnumber" = js "mnumber" ∧
    js "mnumber" ∈ LOGICAL_CONSUMERS t.
Proof.
  exact (proj2 (bus_names_injective (topic_name projected) (topic_name projected) 0 0
    (Some (js "mnumber")) (Some (js "mnumber")) (js "link:mnumber") ltac:(lia) ltac:(lia))
    eq_refl eq_refl).
Defined.
