(* ===== verification/InMemoryBus.v ===== *)
(** * The in-memory event bus

    [packages/bus/src/in-memory.ts], with its shared store: a stored message is one
    object, and the backlogs and pending lists of all groups hold references to it.
    The polling loop is two steps per message, the one before the handler's [await]
    ([take_next]) and the one after it ([settle]); other steps may come between. *)

From stdpp Require Import base list option strings numbers gmap.
From Stdlib Require Import ZArith Lia Sorted.
From S2P Require Import Prelude JsString Json SequenceSpace Partition.
Open Scope Z_scope.

Record StoredMessage : Set := mkStored {
  envelope : Z;
  partitionKey : jstr;
  partition : Z;
  messageId : Z * Z;
  retries : Z;
  nextAttemptAt : Z
}.

(** References into the store. *)
Record GroupCursor : Set := mkCursor { backlog : list nat; pending : list nat }.

Definition UNCLAIMED : jstr := js "__unclaimed__".

Record bus : Type := mkBus {
  heap : gmap nat StoredMessage;
  next_ref : nat;
  cursors : gmap jstr (list (jstr * GroupCursor));
  seqno : Z;
  overrides : list (jstr * option Z)
}.
Definition new_bus (o : list (jstr * option Z)) : bus := mkBus ∅ 0 ∅ 0 o.

Record DeliveredEvent : Set := mkDelivered {
  ev_envelope : Z;
  partition_key : jstr;
  ev_partition : Z;
  delivery_count : Z;
  message_id : Z * Z
}.

Inductive HandlerDisposition : Set := d_ack | d_dead_letter | d_defer (until : Z) | d_retry.

Definition cursor_key (topic : jstr) (p : Z) : jstr := topic ++ js ":" ++ js_of_Z p.
Definition groups_of (b : bus) (key : jstr) : list (jstr * GroupCursor) :=
  match cursors b !! key with Some g => g | None => [] end.

(** [Map.set] keeps the place of a known key. *)
Fixpoint map_set {A} (k : jstr) (v : A) (l : list (jstr * A)) : list (jstr * A) :=
  match l with
  | [] => [(k, v)]
  | (k', v') :: l => if jeqb k' k then (k', v) :: l else (k', v') :: map_set k v l
  end.
Definition map_delete {A} (k : jstr) (l : list (jstr * A)) : list (jstr * A) :=
  List.filter (fun p => negb (jeqb p.1 k)) l.

Definition set_groups (b : bus) (key : jstr) (g : list (jstr * GroupCursor)) : bus :=
  mkBus (heap b) (next_ref b) (<[key := g]> (cursors b)) (seqno b) (overrides b).
Definition set_heap (b : bus) (h : gmap nat StoredMessage) : bus :=
  mkBus h (next_ref b) (cursors b) (seqno b) (overrides b).

(** ** publish *)

Definition push_backlog (r : nat) (c : GroupCursor) : GroupCursor := mkCursor (backlog c ++ [r]) (pending c).

Definition publish (topic key : jstr) (message now : Z) (b : bus) : result jstr bus :=
  count ← partitionCount topic (overrides b);
  p ← partitionFor key (Some count);
  let n := seqno b + 1 in
  let r := next_ref b in
  let stored := mkStored message key p (now, n) 0 0 in
  let b := mkBus (<[r := stored]> (heap b)) (S r) (cursors b) n (overrides b) in
  let k := cursor_key topic p in
  match groups_of b k with
  | [] => Ok (set_groups b k [(UNCLAIMED, mkCursor [r] [])])
  | gs => Ok (set_groups b k (map (fun g => (g.1, push_backlog r g.2)) gs))
  end.

(** ** subscribe *)

(** The body of the loop of [subscribe] for a partition in range. *)
Definition claim (topic group : jstr) (p : Z) (b : bus) : bus :=
  let k := cursor_key topic p in
  let gs := groups_of b k in
  let unclaimed := assoc UNCLAIMED gs in
  let cursor := match assoc group gs with Some c => c | None => mkCursor [] [] end in
  match unclaimed with
  | Some u => set_groups b k (map_delete UNCLAIMED
                (map_set group (mkCursor (backlog cursor ++ backlog u) (pending cursor)) gs))
  | None => set_groups b k (map_set group cursor gs)
  end.

Fixpoint claim_all (topic group : jstr) (count : Z) (ps : list Z) (b : bus) : result jstr bus :=
  match ps with
  | [] => Ok b
  | p :: ps =>
    if (p <? 0) || (count <=? p) then Err (topic ++ js "의 파티션 범위를 벗어났다: " ++ js_of_Z p)
    else claim_all topic group count ps (claim topic group p b)
  end.

Definition subscribe (topic group : jstr) (partitions : option (list Z)) (b : bus) : result jstr bus :=
  count ← partitionCount topic (overrides b);
  claim_all topic group count (match partitions with Some ps => ps | None => allPartitions count end) b.

(** ** depth *)

Definition depth (topic : jstr) (b : bus) : result jstr nat :=
  count ← partitionCount topic (overrides b);
  let group := CONSUMER_GROUPS <$> isKnownTopic topic in
  Ok (list_sum (map (fun p =>
    list_sum (map (fun g : jstr * GroupCursor =>
      if match group with
         | Some name => negb (jeqb g.1 name) && negb (jeqb g.1 UNCLAIMED)
         | None => false
         end
      then 0%nat else (length (backlog g.2) + length (pending g.2))%nat)
      (groups_of b (cursor_key topic p)))) (allPartitions count))).

(** ** The loop *)

Definition event_of (p : Z) (m : StoredMessage) : DeliveredEvent :=
  mkDelivered (envelope m) (partitionKey m) p (retries m + 1) (messageId m).

Definition with_cursor (b : bus) (key group : jstr) (c : GroupCursor) : bus :=
  set_groups b key (map_set group c (groups_of b key)).

(** Up to the call of the handler: the message and the event it gets; [None] when the
    cursor has nothing to do now. *)
Definition take_next (topic group : jstr) (p now : Z) (b : bus) : option (nat * DeliveredEvent * bus) :=
  let key := cursor_key topic p in
  c ← assoc group (groups_of b key);
  match pending c with
  | r :: _ =>
    m ← heap b !! r;
    if now <? nextAttemptAt m then None else Some (r, event_of p m, b)
  | [] =>
    match backlog c with
    | [] => None
    | r :: rest =>
      m ← heap b !! r;
      Some (r, event_of p m, with_cursor b key group (mkCursor rest [r]))
    end
  end.

(** After the handler: [pending.shift()] for a final disposition, a new time otherwise.
    [rnd] is the fraction the random source returns. *)
Definition settle (topic group : jstr) (p now : Z) (rnd : Z * Z) (r : nat) (d : HandlerDisposition)
    (b : bus) : option bus :=
  let key := cursor_key topic p in
  match d with
  | d_ack | d_dead_letter =>
    c ← assoc group (groups_of b key);
    Some (with_cursor b key group (mkCursor (backlog c) (tail (pending c))))
  | d_defer until =>
    m ← heap b !! r;
    Some (set_heap b (<[r := mkStored (envelope m) (partitionKey m) (partition m) (messageId m) (retries m) until]> (heap b)))
  | d_retry =>
    m ← heap b !! r;
    let n := retries m + 1 in
    Some (set_heap b (<[r := mkStored (envelope m) (partitionKey m) (partition m) (messageId m) n
            (now + retryDelayMs n rnd.1 rnd.2)]> (heap b)))
  end.

(** ** Order within a partition *)

Lemma assoc_map_set {A} k k' (v : A) l :
  assoc k (map_set k' v l) = if jeqb k' k then Some v else assoc k l.
Proof.
  induction l as [|[k1 v1] l IH]; cbn [map_set assoc]; [done|].
  destruct (jeqb k1 k') eqn:E1; cbn [assoc].
  - apply jeqb_eq in E1 as ->. by destruct (jeqb k' k).
  - rewrite IH. destruct (jeqb k1 k) eqn:E2, (jeqb k' k) eqn:E3; try done.
    apply jeqb_eq in E2, E3. apply jeqb_neq in E1. congruence.
Qed.

Lemma groups_set b k g k' : groups_of (set_groups b k g) k' = if jeqb k k' then g else groups_of b k'.
Proof.
  unfold groups_of, set_groups. cbn [cursors]. destruct (jeqb k k') eqn:E.
  - apply jeqb_eq in E as ->. by rewrite lookup_insert_eq.
  - apply jeqb_neq in E. by rewrite lookup_insert_ne.
Qed.

Definition cursor_at (b : bus) (key group : jstr) : option GroupCursor := assoc group (groups_of b key).

Lemma cursor_with b key group c key' group' :
  cursor_at (with_cursor b key group c) key' group'
  = if jeqb key key' && jeqb group group' then Some c else cursor_at b key' group'.
Proof.
  unfold cursor_at, with_cursor. rewrite groups_set. destruct (jeqb key key') eqn:E; [|done].
  apply jeqb_eq in E as ->. cbn [andb]. apply assoc_map_set.
Qed.

(** What a subscription sees of one of its cursors: references finished, delivered and not
    finished, and not delivered. *)
Definition undone (c : GroupCursor) : list nat := pending c ++ backlog c.

(** A step of the system on one cursor. *)
Inductive cursor_step : list nat * GroupCursor -> list nat * GroupCursor -> Prop :=
| step_take done_ c r rest : pending c = [] -> backlog c = r :: rest ->
    cursor_step (done_, c) (done_, mkCursor rest [r])
| step_redeliver done_ c r rest : pending c = r :: rest -> cursor_step (done_, c) (done_, c)
| step_wait done_ c r rest : pending c = r :: rest -> cursor_step (done_, c) (done_, c)
| step_finish done_ c r rest : pending c = r :: rest ->
    cursor_step (done_, c) (done_ ++ [r], mkCursor (backlog c) rest)
| step_publish done_ c r : cursor_step (done_, c) (done_, push_backlog r c).

(** [take_next] and [settle] on the cursor of their subscription are such steps, and leave
    every other cursor alone. *)
Lemma take_next_step topic group p now b r e b' :
  take_next topic group p now b = Some (r, e, b') ->
  ∃ c c', cursor_at b (cursor_key topic p) group = Some c ∧
    cursor_at b' (cursor_key topic p) group = Some c' ∧
    (forall done_, cursor_step (done_, c) (done_, c')) ∧ hd_error (pending c') = Some r ∧
    hd_error (undone c) = Some r ∧ heap b' = heap b ∧
    (forall k g, jeqb (cursor_key topic p) k && jeqb group g = false -> cursor_at b' k g = cursor_at b k g).
Proof.
  unfold take_next. cbv zeta. fold (cursor_at b (cursor_key topic p) group).
  destruct (cursor_at b (cursor_key topic p) group) as [c|] eqn:Ec; [|done]. cbn [mbind option_bind].
  destruct (pending c) as [|r0 rest] eqn:Ep.
  - destruct (backlog c) as [|r0 rest] eqn:Eb; [done|].
    destruct (heap b !! r0) as [m|]; [|done]. cbn [mbind option_bind]. intros [= <- <- <-].
    exists c, (mkCursor rest [r0]). split_and!; try done.
    + rewrite cursor_with, !jeqb_refl. done.
    + intros. by apply step_take.
    + unfold undone. by rewrite Ep, Eb.
    + intros k g Hk. by rewrite cursor_with, Hk.
  - destruct (heap b !! r0) as [m|]; [|done]. cbn [mbind option_bind].
    destruct (_ <? _); [done|]. intros [= <- <- <-]. exists c, c. split_and!; try done.
    + intros. by eapply step_redeliver.
    + by rewrite Ep.
    + unfold undone. by rewrite Ep.
Qed.

Lemma settle_step topic group p now rnd r d b b' c :
  cursor_at b (cursor_key topic p) group = Some c -> hd_error (pending c) = Some r ->
  settle topic group p now rnd r d b = Some b' ->
  ∃ c', cursor_at b' (cursor_key topic p) group = Some c' ∧
    (forall done_, cursor_step (done_, c)
       (match d with d_ack | d_dead_letter => done_ ++ [r] | _ => done_ end, c')) ∧
    (forall k g, jeqb (cursor_key topic p) k && jeqb group g = false -> cursor_at b' k g = cursor_at b k g).
Proof.
  intros Hc Hr. destruct (pending c) as [|r0 rest] eqn:Ep; [done|]. injection Hr as ->.
  unfold settle. cbv zeta. fold (cursor_at b (cursor_key topic p) group). rewrite Hc.
  destruct d; cbn [mbind option_bind].
  1,2: intros [= <-]; eexists; rewrite cursor_with, !jeqb_refl; split_and!; [done|..];
    [intros; rewrite Ep; by apply step_finish|intros k g Hk; by rewrite cursor_with, Hk].
  all: destruct (heap b !! r) as [m|]; [|done]; cbn [mbind option_bind]; intros [= <-];
    exists c; split_and!; [exact Hc|intros; by eapply step_wait|done].
Qed.

Definition reachable := rtc cursor_step.

(** ** Runs of the bus

    What the code may do between two [await]s: publish, subscribe, take a message up to
    the call of its handler, settle the message whose handler answered (the first pending
    one of its cursor).  [d] collects what one subscription, of [group] on partition [p] of
    [topic], has finished. *)
Definition is_final (x : HandlerDisposition) : bool :=
  match x with d_ack | d_dead_letter => true | _ => false end.
Definition same_cursor (key group key' group' : jstr) : bool := jeqb key' key && jeqb group' group.

Inductive bus_step (key group : jstr) : list nat * bus -> list nat * bus -> Prop :=
| bus_publish d b b' t k m now :
    publish t k m now b = Ok b' -> bus_step key group (d, b) (d, b')
| bus_subscribe d b b' t g ps :
    g <> UNCLAIMED -> subscribe t g ps b = Ok b' -> bus_step key group (d, b) (d, b')
| bus_take d b b' t g q now r e :
    take_next t g q now b = Some (r, e, b') -> bus_step key group (d, b) (d, b')
| bus_settle d b b' c t g q now rnd r x :
    cursor_at b (cursor_key t q) g = Some c -> hd_error (pending c) = Some r ->
    settle t g q now rnd r x b = Some b' ->
    bus_step key group (d, b)
      (if same_cursor key group (cursor_key t q) g && is_final x then d ++ [r] else d, b').

(** The subscription exists, has at most one message in flight, and what it finished, what
    is in flight and its backlog are in order of publication, beginning with [start]. *)
Definition in_order (key group : jstr) (start d : list nat) (b : bus) : Prop :=
  assoc UNCLAIMED (groups_of b key) = None ∧
  ∃ c, cursor_at b key group = Some c ∧ (length (pending c) <= 1)%nat ∧
    StronglySorted lt (d ++ undone c) ∧ Forall (fun r => r < next_ref b)%nat (d ++ undone c) ∧
    start `prefix_of` d ++ undone c.

Lemma assoc_map {A} k (f : A -> A) l :
  assoc k (map (fun g => (g.1, f g.2)) l) = f <$> assoc k l.
Proof. induction l as [|[k' v] l IH]; cbn; [done|]. by destruct (jeqb k' k). Qed.

Lemma refs_snoc (l : list nat) x :
  StronglySorted lt l -> Forall (fun r => r < x)%nat l -> StronglySorted lt (l ++ [x]).
Proof.
  induction 1 as [|y l Hl IH Hy]; intros Hx; cbn [app]; [by repeat constructor|].
  apply Forall_cons_1 in Hx as [Hyx Hx]. constructor; [by apply IH|].
  apply list.Forall_app. split; [done|]. by constructor.
Qed.

Lemma publish_in_order key group l0 d t k m now b b' :
  publish t k m now b = Ok b' -> in_order key group l0 d b -> in_order key group l0 d b'.
Proof.
  unfold publish. destruct (partitionCount t _) as [count|]; [|discriminate].
  unfold mbind, result_bind. destruct (partitionFor k _) as [p|]; [|discriminate].
  cbv zeta. set (r := next_ref b). set (b1 := mkBus _ (S r) _ _ _).
  intros H (Hu & c & Hc & Hp & Hs & Hb & Hl).
  assert (forall key', groups_of b1 key' = groups_of b key') as Hg by done.
  rewrite Hg in H.
  assert (Forall (fun x => x < S r)%nat (d ++ undone c)) as Hb1
    by (eapply List.Forall_impl; [|exact Hb]; simpl; lia).
  destruct (jeqb (cursor_key t p) key) eqn:Ek.
  - apply jeqb_eq in Ek. subst key. unfold cursor_at in Hc.
    destruct (groups_of b (cursor_key t p)) as [|g0 gs] eqn:Eg; [done|].
    assert (b' = set_groups b1 (cursor_key t p) (map (fun g => (g.1, push_backlog r g.2)) (g0 :: gs)))
      as -> by congruence.
    unfold in_order, cursor_at. rewrite groups_set, jeqb_refl, assoc_map, assoc_map, Hu, Hc.
    split; [done|]. exists (push_backlog r c). unfold undone, push_backlog in *. cbn [pending backlog].
    rewrite !app_assoc, <- (app_assoc d). split_and!; [done|done|by apply refs_snoc| |].
    + apply list.Forall_app. split; [done|]. constructor; [simpl; lia|constructor].
    + by apply prefix_app_r.
  - assert (groups_of b' key = groups_of b key ∧ next_ref b' = S r) as [Hk Hn].
    { destruct (groups_of b (cursor_key t p)); injection H as <-; rewrite groups_set, Ek; done. }
    unfold in_order, cursor_at in *. rewrite Hk, Hn. split; [done|]. by exists c.
Qed.

Lemma claim_in_order key group l0 d t g p b :
  g <> UNCLAIMED -> in_order key group l0 d b -> in_order key group l0 d (claim t g p b).
Proof.
  intros Hg (Hu & c & Hc & Hp & Hs & Hb & Hl). unfold claim. cbv zeta. unfold in_order, cursor_at in *.
  destruct (jeqb (cursor_key t p) key) eqn:Ek.
  - apply jeqb_eq in Ek. subst key. rewrite Hu. cbv iota. rewrite groups_set, jeqb_refl, !assoc_map_set, (proj2 (jeqb_neq g UNCLAIMED) Hg).
    split; [done|]. exists c. split; [|done]. destruct (jeqb g group) eqn:E; [|done].
    apply jeqb_eq in E as ->. by rewrite Hc.
  - destruct (assoc UNCLAIMED (groups_of b (cursor_key t p))) as [u|]; rewrite groups_set, Ek; (split; [done|by exists c]).
Qed.

Lemma claim_all_in_order key group l0 d t g count ps b b' :
  g <> UNCLAIMED -> claim_all t g count ps b = Ok b' -> in_order key group l0 d b -> in_order key group l0 d b'.
Proof.
  intros Hg. revert b. induction ps as [|p ps IH]; intros b; cbn [claim_all]; [by intros [= <-]|].
  destruct (_ || _); [discriminate|]. intros H Hi. apply (IH _ H). by apply claim_in_order.
Qed.

Lemma with_cursor_in_order key group l0 d d' key' g' c c' b :
  cursor_at b key' g' = Some c ->
  (if same_cursor key group key' g'
   then (length (pending c) <= 1 -> length (pending c') <= 1)%nat ∧ d' ++ undone c' = d ++ undone c
   else d' = d) ->
  in_order key group l0 d b -> in_order key group l0 d' (with_cursor b key' g' c').
Proof.
  intros Hk Hd (Hu & c0 & Hc & Hp & Hs & Hb & Hl). unfold same_cursor in Hd. unfold in_order.
  rewrite cursor_with. split.
  - change (assoc UNCLAIMED (groups_of (with_cursor b key' g' c') key))
      with (cursor_at (with_cursor b key' g' c') key UNCLAIMED).
    rewrite cursor_with. destruct (jeqb key' key) eqn:E1; [|done]. apply jeqb_eq in E1 as ->.
    destruct (jeqb g' UNCLAIMED) eqn:E2; [|done]. apply jeqb_eq in E2 as ->.
    unfold cursor_at in Hk. congruence.
  - destruct (jeqb key' key && jeqb g' group) eqn:E.
    + apply andb_prop in E as [->%jeqb_eq ->%jeqb_eq]. assert (c0 = c) as -> by congruence.
      destruct Hd as [Hd1 Hd2]. exists c'. rewrite Hd2. split_and!; [done|by apply Hd1|done..].
    + subst d'. by exists c0.
Qed.

Lemma bus_step_in_order key group l0 d b d' b' :
  bus_step key group (d, b) (d', b') -> in_order key group l0 d b -> in_order key group l0 d' b'.
Proof.
  inversion 1 as [? ? ? t k m now Hp|? ? ? t g ps Hg Hp|? ? ? t g q now r e Ht
    |? ? ? c t g q now rnd r x Hc Hr Hs]; subst; intros Hi.
  - by eapply publish_in_order.
  - unfold subscribe in Hp. destruct (partitionCount t _); [|discriminate].
    by eapply claim_all_in_order.
  - unfold take_next in Ht. cbv zeta in Ht.
    destruct (assoc g _) as [c|] eqn:Ec; [|discriminate]. cbn [mbind option_bind] in Ht.
    destruct (pending c) as [|r0 rest] eqn:Ep.
    + destruct (backlog c) as [|r0 rest] eqn:Eb; [discriminate|].
      destruct (heap b !! r0); [|discriminate]. injection Ht as <- <- <-.
      eapply with_cursor_in_order; [exact Ec| |exact Hi].
      destruct (same_cursor _ _ _ _); [|done]. unfold undone. rewrite Ep, Eb. cbn. split; [lia|done].
    + destruct (heap b !! r0); [|discriminate]. cbn [mbind option_bind] in Ht.
      destruct (_ <? _); [discriminate|]. by injection Ht as <- <- <-.
  - unfold settle in Hs. cbv zeta in Hs. destruct x; cbn [is_final]; rewrite ?andb_true_r, ?andb_false_r.
    1,2: fold (cursor_at b (cursor_key t q) g) in Hs; rewrite Hc in Hs; injection Hs as <-;
      eapply with_cursor_in_order; [exact Hc| |exact Hi];
      destruct (same_cursor _ _ _ _); [|done]; unfold undone; cbn [pending backlog];
      destruct (pending c) as [|r0 rest]; [done|]; injection Hr as ->; cbn [length tail];
      split; [lia|by rewrite <- !app_assoc].
    all: destruct (heap b !! r); [|discriminate]; injection Hs as <-; exact Hi.
Qed.

Lemma run_in_order key group l0 d b d' b' :
  rtc (bus_step key group) (d, b) (d', b') -> in_order key group l0 d b -> in_order key group l0 d' b'.
Proof.
  intros H. remember (d, b) as x. remember (d', b') as y. revert d b Heqx.
  induction H as [x|x [d1 b1] y Hxy _ IH]; intros d b ->; [by injection Heqy as <- <-|].
  intros Hi. apply (IH Heqy d1 b1 eq_refl). by eapply bus_step_in_order.
Qed.

Definition or_bus (r : result jstr bus) (b : bus) : bus := match r with Ok b => b | Err _ => b end.

(** ** Theorems *)

(** Order within a partition: once a group has subscribed to a partition, whatever is
    published and subscribed meanwhile, by whichever groups, and whatever its handler
    answers, it has at most one message in flight, it finishes messages in the order of
    their publication and each once, and what it had and has not finished it still holds. *)
Theorem cursor_order topic group p b0 c0 d b :
  let key := cursor_key topic p in
  cursor_at b0 key group = Some c0 -> pending c0 = [] -> assoc UNCLAIMED (groups_of b0 key) = None ->
  StronglySorted lt (backlog c0) -> Forall (fun r => r < next_ref b0)%nat (backlog c0) ->
  rtc (bus_step key group) ([], b0) (d, b) ->
  ∃ c, cursor_at b key group = Some c ∧ (length (pending c) <= 1)%nat ∧
    StronglySorted lt (d ++ pending c ++ backlog c) ∧
    ∃ published, d ++ pending c ++ backlog c = backlog c0 ++ published.
Proof.
  intros key Hc Hp Hu Hs Hb H. eapply (run_in_order key group (backlog c0)) in H.
  - destruct H as (_ & c & H1 & H2 & H3 & _ & H4). by exists c.
  - split; [done|]. exists c0. unfold undone. rewrite Hp. split_and!; [done|simpl; lia|done..].
Qed.
Definition order_bus : bus := or_bus (subscribe (js "t") (js "g") None (new_bus [(js "t", Some 1)])) (new_bus []).
Definition order_bus1 : bus := or_bus (publish (js "t") (js "k") 7 0 order_bus) order_bus.
Lemma cursor_order_witness :
  ∃ c, cursor_at order_bus1 (cursor_key (js "t") 0) (js "g") = Some c ∧ (length (pending c) <= 1)%nat ∧
    StronglySorted lt ([] ++ pending c ++ backlog c) ∧
    ∃ published, [] ++ pending c ++ backlog c = [] ++ published.
Proof.
  apply (cursor_order (js "t") (js "g") 0 order_bus (mkCursor [] []) [] order_bus1).
  - vm_compute. reflexivity.
  - reflexivity.
  - vm_compute. reflexivity.
  - constructor.
  - constructor.
  - eapply rtc_l; [|apply rtc_refl].
    apply (bus_publish _ _ [] order_bus order_bus1 (js "t") (js "k") 7 0). vm_compute. reflexivity.
Defined.


Definition test_bus : bus := new_bus [(js "t", Some 1)].
Definition two_groups : bus :=
  or_bus (publish (js "t") (js "k") 7 0
    (or_bus (subscribe (js "t") (js "B") None (or_bus (subscribe (js "t") (js "A") None test_bus) test_bus)) test_bus)) test_bus.


(** A message is one object for all groups: when group [A] fails it, group [B]'s first
    delivery says it is the second, and waits for [A]'s backoff. *)
Theorem retry_leaks_to_other_group :
  ∃ r e b1 b2, take_next (js "t") (js "A") 0 5 two_groups = Some (r, e, b1) ∧
    settle (js "t") (js "A") 0 5 (1, 2) r d_retry b1 = Some b2 ∧
    (λ x, delivery_count x.1.2) <$> take_next (js "t") (js "B") 0 5 two_groups = Some 1 ∧
    (λ x, delivery_count x.1.2) <$> take_next (js "t") (js "B") 0 5 b2 = Some 2.
Proof.
  eexists _, _, _, _. split; [vm_compute; reflexivity|]. split; [vm_compute; reflexivity|].
  split; vm_compute; reflexivity.
Qed.

(** What was published before any subscription goes to the first group only. *)
Definition early : bus := or_bus (publish (js "t") (js "k") 7 0 test_bus) test_bus.
Definition late : bus :=
  or_bus (subscribe (js "t") (js "B") None (or_bus (subscribe (js "t") (js "A") None early) early)) early.
Theorem early_messages_reach_one_group :
  cursor_at late (cursor_key (js "t") 0) (js "A") = Some (mkCursor [0%nat] []) ∧
  cursor_at late (cursor_key (js "t") 0) (js "B") = Some (mkCursor [] []).
Proof. split; vm_compute; reflexivity. Qed.
