(* ===== verification/GraphPlan.v ===== *)
(** * The commit graph

    [packages/github/src/graph-plan.ts]: what may be passed to git, what its output
    means, and the first-parent chain rebuilt from parent links. *)

From stdpp Require Import base list option strings numbers sets.
From Stdlib Require Import ZArith Lia.
From S2P Require Import Prelude JsString Json.

(** ** Arguments of git *)

Definition FULL_SHA (s : jstr) : bool := (length s =? 40)%nat && forallb is_hex_lower s.
Definition isFullSha : jstr -> bool := FULL_SHA.

Definition branch_char (c : N) : bool :=
  is_word c || (c =? 46)%N || (c =? 45)%N || (c =? 47)%N.
Definition SAFE_BRANCH (s : jstr) : bool :=
  match s with c :: s => is_word c && forallb branch_char s | [] => false end.

Definition isSafeBranch (value : jstr) : bool :=
  if includes (js "..") value || ends_with (js ".lock") value || ends_with (js "/") value
  then false else SAFE_BRANCH value.

Record RevRange : Set := mkRange { from : option jstr; to : jstr }.
Record FirstParentCommit : Set := mkFp { fp_sha : jstr; committedAt : jstr }.

Definition revRangeArg (range : RevRange) : result jstr jstr :=
  if negb (isFullSha (to range))
  then Err (js "구간의 끝이 40자 SHA가 아니다: " ++ to range)
  else match from range with
       | None => Ok (to range)
       | Some from =>
         if negb (isFullSha from)
         then Err (js "구간의 시작이 40자 SHA가 아니다: " ++ from)
         else Ok (from ++ js ".." ++ to range)
       end.

Definition mirrorPath (root : jstr) (repositoryId : Z) : jstr :=
  let clean := if ends_with (js "/") root then take (length root - 1)%nat root else root in
  clean ++ js "/" ++ js_of_Z repositoryId ++ js ".git".

Definition branchRef (branch : jstr) : result jstr jstr :=
  if negb (isSafeBranch branch)
  then Err (js "브랜치 이름이 안전하지 않다: " ++ branch)
  else Ok (js "refs/heads/" ++ branch).

(** The environment is an association list; a later key of the object literal replaces an
    earlier one. *)
Definition env_set (k v : jstr) (env : list (jstr * jstr)) : list (jstr * jstr) :=
  (k, v) :: filter (fun p => p.1 <> k) env.
Definition env_delete (k : jstr) (env : list (jstr * jstr)) : list (jstr * jstr) :=
  filter (fun p => p.1 <> k) env.

Definition gitEnv (base : list (jstr * jstr)) (allowBlobFetch : option bool) : list (jstr * jstr) :=
  let home := match assoc (js "HOME") base with Some h => h | None => js "/nonexistent" end in
  let env := env_set (js "HOME") home
               (env_set (js "GIT_CONFIG_NOSYSTEM") (js "1")
                  (env_set (js "GIT_TERMINAL_PROMPT") (js "0") base)) in
  match allowBlobFetch with
  | Some true => env_delete (js "GIT_NO_LAZY_FETCH") env
  | _ => env_set (js "GIT_NO_LAZY_FETCH") (js "1") env
  end.

(** ** Output of git *)

Definition parseRevList (stdout : jstr) : list jstr :=
  filter (fun line => line <> []) (map trim (split_char 10 stdout)).

(** [/[Zz]$|[+-]\d{2}:?\d{2}$/] *)
Definition offset_suffix (s : jstr) : bool :=
  match rev s with
  | d :: c :: 58%N :: b :: a :: sg :: _ =>
    forallb is_digit [a; b; c; d] && ((sg =? 43) || (sg =? 45))%N
  | d :: c :: b :: a :: sg :: _ =>
    forallb is_digit [a; b; c; d] && ((sg =? 43) || (sg =? 45))%N
  | _ => false
  end.
Definition instant_suffix (s : jstr) : bool :=
  match rev s with c :: _ => (c =? 90)%N || (c =? 122)%N | [] => false end || offset_suffix s.

Section output.
(** [Date.parse]; [None] is [NaN]. *)
Context (date_parse : jstr -> option Z).

Definition isIsoInstant (value : jstr) : bool :=
  if negb (instant_suffix value) then false
  else match date_parse value with Some _ => true | None => false end.

Definition parse_commit_line (line : jstr) : result jstr FirstParentCommit :=
  match index_of_char 32 line with
  | None => Err (js "커밋 줄에 시각이 없다: " ++ take 60 line)
  | Some space =>
    let sha := take space line in
    let committedAt := trim (drop (S space) line) in
    if negb (isFullSha sha)
    then Err (js "커밋 줄의 앞이 40자 SHA가 아니다: " ++ take 60 sha)
    else if negb (isIsoInstant committedAt)
    then Err (js "커밋 시각을 읽을 수 없다: " ++ take 60 committedAt)
    else Ok (mkFp sha committedAt)
  end.

Fixpoint parse_lines (lines : list jstr) : result jstr (list FirstParentCommit) :=
  match lines with
  | [] => Ok []
  | raw :: lines =>
    let line := trim raw in
    if jeqb line [] then parse_lines lines
    else c ← parse_commit_line line; cs ← parse_lines lines; Ok (c :: cs)
  end.

Definition parseFirstParentCommits (stdout : jstr) : result jstr (list FirstParentCommit) :=
  parse_lines (split_char 10 stdout).
End output.

Definition parsePatchId (stdout : jstr) : option jstr :=
  let first := match split_char 10 stdout with l :: _ => trim l | [] => [] end in
  let id := (span (fun c => negb (is_space c)) first).1 in
  if FULL_SHA id then Some id else None.

Definition readAncestorExit (code : Z) : result jstr bool :=
  if (code =? 0)%Z then Ok true
  else if (code =? 1)%Z then Ok false
  else Err (js "merge-base --is-ancestor가 예상 밖 코드로 끝났다: " ++ js_of_Z code).

(** ** The first-parent chain *)

Record ParentLink : Set := mkLink { sha : jstr; parents : list jstr }.

(** [new Map(commits.map(...))]: the last commit of a SHA wins. *)
Definition by_sha (commits : list ParentLink) (s : jstr) : option ParentLink :=
  find_first (fun c => jeqb (sha c) s) (rev commits).

Definition first_parent (c : ParentLink) : option jstr := hd_error (parents c).

(** The [while] loop: the chain collected so far (oldest last) and the cursor.  [None] when
    the fuel runs out first. *)
Fixpoint walk (fuel : nat) (commits : list ParentLink) (stop : option jstr)
    (cursor : option jstr) (chain : list jstr) : option (result jstr (list jstr * option jstr)) :=
  match cursor with
  | None => Some (Ok (chain, None))
  | Some cur =>
    if bool_decide (Some cur = stop) then Some (Ok (chain, Some cur))
    else match fuel with
         | O => None
         | S fuel =>
           match by_sha commits cur with
           | None => Some (Err (js "부모 체인이 끊겼다: " ++ cur ++ js "를 목록에서 찾을 수 없다"))
           | Some node => walk fuel commits stop (first_parent node) (chain ++ [cur])
           end
         end
  end.

Definition firstParentChain (fuel : nat) (commits : list ParentLink) (to : jstr) (from : option jstr)
  : option (result jstr (list jstr)) :=
  match walk fuel commits from (Some to) [] with
  | None => None
  | Some (Err e) => Some (Err e)
  | Some (Ok (chain, cursor)) =>
    match from with
    | Some f =>
      if negb (bool_decide (cursor = from))
      then Some (Err (js "구간의 시작 " ++ f ++ js "이 " ++ to ++ js "의 first-parent 체인에 없다"))
      else Some (Ok (rev chain))
    | None => Some (Ok (rev chain))
    end
  end.

(** ** Lemmas *)

Lemma FULL_SHA_spec s : FULL_SHA s = true <-> length s = 40%nat ∧ forallb is_hex_lower s = true.
Proof. unfold FULL_SHA. by rewrite andb_true_iff, Nat.eqb_eq. Qed.

Lemma revRangeArg_Ok range s :
  revRangeArg range = Ok s <->
  FULL_SHA (to range) = true ∧
  match from range with
  | None => s = to range
  | Some f => FULL_SHA f = true ∧ s = f ++ js ".." ++ to range
  end.
Proof.
  unfold revRangeArg, isFullSha. destruct (FULL_SHA (to range)); simpl; [|naive_solver].
  destruct (from range) as [f|]; [|naive_solver]. destruct (FULL_SHA f); simpl; naive_solver.
Qed.

Lemma isSafeBranch_spec b :
  isSafeBranch b = true <->
  includes (js "..") b = false ∧ ends_with (js ".lock") b = false ∧ ends_with (js "/") b = false ∧
  SAFE_BRANCH b = true.
Proof.
  unfold isSafeBranch.
  destruct (includes _ b), (ends_with (js ".lock") b), (ends_with _ b); simpl; naive_solver.
Qed.

Lemma by_sha_Some commits s c : by_sha commits s = Some c -> c ∈ commits ∧ sha c = s.
Proof.
  unfold by_sha. intros [H1 H2%jeqb_eq]%find_first_Some. split; [|done].
  apply list_elem_of_In, in_rev. by apply list_elem_of_In.
Qed.

Lemma revRange_prefix f1 t1 f2 t2 :
  length f1 = length f2 -> f1 ++ js ".." ++ t1 = f2 ++ js ".." ++ t2 -> f1 = f2 ∧ t1 = t2.
Proof. intros Hl H. apply app_inj_1 in H as [-> H]; [|done]. simpl in H. by simplify_eq. Qed.

(** The lines of a log that are not blank, each with the commit it gives. *)
Definition commit_line (date_parse : jstr -> option Z) (line : jstr) (c : FirstParentCommit) : Prop :=
  ∃ date, trim line = fp_sha c ++ js " " ++ date ∧ trim date = committedAt c ∧
    FULL_SHA (fp_sha c) = true ∧ isIsoInstant date_parse (committedAt c) = true.

Definition not_blank (line : jstr) : bool := negb (jeqb (trim line) []).

Lemma full_sha_no_space s : FULL_SHA s = true -> 32%N ∉ s.
Proof.
  intros [_ H]%FULL_SHA_spec Hin. rewrite forallb_elem in H. by specialize (H _ Hin).
Qed.

Lemma parse_commit_line_spec date_parse line c :
  parse_commit_line date_parse (trim line) = Ok c <-> commit_line date_parse line c.
Proof.
  unfold parse_commit_line, commit_line, isFullSha. split.
  - destruct (index_of_char 32 (trim line)) as [i|] eqn:E; [|done].
    apply index_of_char_Some in E as (H1 & _ & _).
    destruct (FULL_SHA (take i (trim line))) eqn:Es; [|done].
    destruct (isIsoInstant _ _) eqn:Ei; [|done]. simpl. intros [= <-]. simpl.
    by exists (drop (S i) (trim line)).
  - intros (date & -> & Hd & Hs & Hi). change (js " " ++ date) with (32%N :: date).
    rewrite index_of_char_app by by apply full_sha_no_space. cbv zeta.
    replace (drop (S (length (fp_sha c))) (fp_sha c ++ 32%N :: date)) with date
      by (rewrite (cons_middle 32%N), app_assoc, drop_app_length'; [done|rewrite length_app; simpl; lia]).
    rewrite take_app_length, Hs, Hd, Hi. by destruct c.
Qed.

(** The first-parent path from a cursor: the commits passed, newest first, and where it
    ends: at the excluded [stop], or [None] past the root. *)
Inductive fp_path (commits : list ParentLink) (stop : option jstr)
  : option jstr -> list jstr -> option jstr -> Prop :=
| fp_root : fp_path commits stop None [] None
| fp_stop cur : Some cur = stop -> fp_path commits stop (Some cur) [] (Some cur)
| fp_next cur node l e :
    Some cur <> stop -> by_sha commits cur = Some node ->
    fp_path commits stop (first_parent node) l e -> fp_path commits stop (Some cur) (cur :: l) e.

Lemma walk_sound fuel commits stop cursor chain ch e :
  walk fuel commits stop cursor chain = Some (Ok (ch, e)) ->
  ∃ l, ch = chain ++ l ∧ fp_path commits stop cursor l e.
Proof.
  revert cursor chain. induction fuel as [|fuel IH]; intros cursor chain; simpl;
    (destruct cursor as [cur|];
     [destruct (bool_decide (Some cur = stop)) eqn:Eb; bool_to_prop|]).
  all: try (intros [= <- <-]; exists []; rewrite app_nil_r; split; [done|by constructor]).
  - done.
  - destruct (by_sha commits cur) as [node|] eqn:En; [|done].
    intros (l & -> & Hp)%IH. exists (cur :: l). rewrite <- app_assoc.
    split; [done|]. by eapply fp_next.
Qed.

Lemma walk_complete fuel commits stop cursor l e chain r :
  fp_path commits stop cursor l e ->
  walk fuel commits stop cursor chain = Some r -> r = Ok (chain ++ l, e).
Proof.
  intros Hp. revert fuel chain.
  induction Hp as [|cur Hs|cur node l e Hs Hn Hp IH]; intros fuel chain.
  - destruct fuel; simpl; intros [= <-]; by rewrite app_nil_r.
  - destruct fuel; simpl; rewrite bool_decide_eq_true_2 by done; intros [= <-]; by rewrite app_nil_r.
  - destruct fuel; simpl; rewrite bool_decide_eq_false_2 by done; [done|].
    rewrite Hn. intros ->%IH. by rewrite <- app_assoc.
Qed.

Lemma fp_path_end commits stop cursor l e :
  fp_path commits stop cursor l e -> e = None \/ e = stop.
Proof. induction 1; auto. Qed.

(** A list of parent links is acyclic when a rank decreases along first parents. *)
Definition ranked (rank : jstr -> nat) (commits : list ParentLink) : Prop :=
  forall c p, c ∈ commits -> first_parent c = Some p -> (rank p < rank (sha c))%nat.

Lemma walk_terminates rank commits stop fuel cursor chain :
  ranked rank commits -> NoDup chain -> chain ⊆ map sha commits ->
  (forall x c, x ∈ chain -> cursor = Some c -> rank c < rank x)%nat ->
  (fuel + length chain = S (length commits))%nat ->
  is_Some (walk fuel commits stop cursor chain).
Proof.
  intros Hr. revert cursor chain. induction fuel as [|fuel IH]; intros cursor chain Hnd Hsub Hlt Hl.
  - exfalso. assert (chain ⊆+ map sha commits) as Hx%submseteq_length
      by (apply NoDup_submseteq; [done|]; intros x Hx; by apply Hsub).
    rewrite length_map in Hx. simpl in Hl. lia.
  - simpl. destruct cursor as [cur|]; [|by eexists].
    destruct (bool_decide _); [by eexists|].
    destruct (by_sha commits cur) as [node|] eqn:En; [|by eexists].
    apply by_sha_Some in En as [Hin <-].
    apply IH.
    + apply list.NoDup_app. split_and!; [done| |apply NoDup_singleton].
      intros x Hx ->%list_elem_of_singleton. specialize (Hlt _ _ Hx eq_refl). lia.
    + intros x [Hx| ->%list_elem_of_singleton]%elem_of_app; [by apply Hsub|].
      by apply list_elem_of_fmap_2.
    + intros x c Hx Hc. apply elem_of_app in Hx as [Hx| ->%list_elem_of_singleton].
      * specialize (Hlt _ _ Hx eq_refl). specialize (Hr _ _ Hin Hc). lia.
      * by apply Hr.
    + rewrite length_app. simpl. lia.
Qed.

Lemma parse_lines_spec date_parse lines out :
  parse_lines date_parse lines = Ok out <->
  Forall2 (commit_line date_parse) (List.filter not_blank lines) out.
Proof.
  revert out. induction lines as [|raw lines IH]; intros out; simpl.
  { split; [intros [= <-]; constructor|by inversion 1]. }
  unfold not_blank at 1. destruct (jeqb (trim raw) []) eqn:E; simpl; [done|].
  split.
  - destruct (parse_commit_line date_parse (trim raw)) as [c|] eqn:Ec; [|done]. simpl.
    destruct (parse_lines date_parse lines) as [cs|] eqn:El; [|done]. intros [= <-].
    constructor; [by apply parse_commit_line_spec|by apply IH].
  - inversion 1 as [|? c ? cs Hc Hcs]; subst.
    apply parse_commit_line_spec in Hc. apply IH in Hcs. by rewrite Hc, Hcs.
Qed.

(** ** Theorems *)

(** Faithfulness of the revision argument: it denotes the range it was made from and
    no other, and starts with a hexadecimal digit, so git cannot read it as an option. *)
Theorem revRangeArg_faithful r1 r2 s :
  revRangeArg r1 = Ok s -> revRangeArg r2 = Ok s ->
  r1 = r2 ∧ ∃ c s', s = c :: s' ∧ is_hex_lower c = true.
Proof.
  intros [T1 F1]%revRangeArg_Ok [T2 F2]%revRangeArg_Ok. destruct r1 as [f1 t1], r2 as [f2 t2].
  simpl in *. apply FULL_SHA_spec in T1 as [L1 X1], T2 as [L2 _].
  assert (forall f, FULL_SHA f = true -> length f = 40%nat ∧ ∃ c s', f = c :: s' ∧ is_hex_lower c = true) as Hf.
  { intros [|c f] [Hl Hx]%FULL_SHA_spec; [done|]. simpl in Hx. apply andb_prop in Hx as [Hx _]. eauto. }
  destruct f1 as [f1|], f2 as [f2|].
  - destruct F1 as [F1 ->], F2 as [F2 E]. apply Hf in F1 as [K1 (c & f' & Ef & Hc)], F2 as [K2 _].
    apply revRange_prefix in E as [<- <-]; [|by rewrite K1, K2].
    split; [done|]. exists c, (f' ++ js ".." ++ t1). by rewrite Ef.
  - destruct F1 as [F1 ->]. apply (f_equal length) in F2. rewrite !length_app, L2 in F2.
    apply Hf in F1 as [K1 _]. rewrite K1 in F2. simpl in F2. lia.
  - destruct F2 as [F2 ->]. apply (f_equal length) in F1. rewrite !length_app, L1 in F1.
    apply Hf in F2 as [K2 _]. rewrite K2 in F1. simpl in F1. lia.
  - subst. split; [done|]. apply Hf. by apply FULL_SHA_spec.
Qed.

Definition sha_a : jstr := replicate 40 97%N.
Definition sha_b : jstr := replicate 40 98%N.
Lemma revRangeArg_faithful_witness :
  mkRange (Some sha_a) sha_b = mkRange (Some sha_a) sha_b ∧
  ∃ c s', sha_a ++ js ".." ++ sha_b = c :: s' ∧ is_hex_lower c = true.
Proof. apply revRangeArg_faithful; vm_compute; reflexivity. Defined.

(** The log parser: it succeeds exactly when every line that is not blank is a full
    SHA, a space and a date with an offset, and then returns one commit per such line, in
    order; no line is dropped in silence. *)
Theorem parseFirstParentCommits_spec date_parse stdout out :
  parseFirstParentCommits date_parse stdout = Ok out <->
  Forall2 (commit_line date_parse) (List.filter not_blank (split_char 10 stdout)) out.
Proof. apply parse_lines_spec. Qed.

(** The rebuilt chain: on parent links without a cycle the loop ends within the number
    of commits plus one, and the result is a chain exactly when its reverse is the
    first-parent path from [to] that ends at the excluded [from] (or past the root when
    there is none); otherwise it is an error, never a guess. *)
Theorem firstParentChain_spec rank commits to from :
  ranked rank commits ->
  ∃ r, firstParentChain (S (length commits)) commits to from = Some r ∧
    forall chain, r = Ok chain <-> fp_path commits from (Some to) (rev chain) from.
Proof.
  intros Hr.
  destruct (walk_terminates rank commits from (S (length commits)) (Some to) []) as [w Hw];
    [done|constructor|set_solver|set_solver|simpl; lia|].
  pose proof (fun l e Hp => walk_complete _ _ _ _ l e [] w Hp Hw) as Hc.
  unfold firstParentChain. rewrite Hw. destruct w as [[ch cursor]|e].
  - apply walk_sound in Hw as (l & -> & Hp). simpl in *.
    destruct from as [f|].
    + destruct (bool_decide _) eqn:Eb; bool_to_prop; simpl; eexists; (split; [done|]); intros chain.
      * subst cursor. split; [intros [= <-]; by rewrite rev_involutive|].
        intros [= ->]%Hc. by rewrite rev_involutive.
      * split; [done|]. intros [= _ ?]%Hc. done.
    + eexists; split; [done|]. intros chain. apply fp_path_end in Hp as He.
      assert (cursor = None) as -> by (by destruct He).
      split; [intros [= <-]; by rewrite rev_involutive|].
      intros [= ->]%Hc. by rewrite rev_involutive.
  - exists (Err e). split; [by destruct from|]. intros chain. split; [done|]. by intros ?%Hc.
Qed.

Definition three_links : list ParentLink :=
  [mkLink (js "ccc") [js "bb"; js "x"]; mkLink (js "bb") [js "a"]; mkLink (js "a") []].
Lemma firstParentChain_spec_witness :
  ranked length three_links ∧
  ∃ r, firstParentChain 4 three_links (js "ccc") (Some (js "a")) = Some r ∧
    forall chain, r = Ok chain <-> fp_path three_links (Some (js "a")) (Some (js "ccc")) (rev chain) (Some (js "a")).
Proof.
  assert (ranked length three_links) as H.
  { intros c p Hc. repeat apply elem_of_cons in Hc as [->|Hc]; [..|by apply elem_of_nil in Hc];
      intros [= <-]; simpl; lia. }
  split; [exact H|]. apply (firstParentChain_spec length three_links (js "ccc") (Some (js "a")) H).
Defined.
Example chain_ex : firstParentChain 4 three_links (js "ccc") (Some (js "a")) = Some (Ok [js "bb"; js "ccc"]).
Proof. vm_compute. reflexivity. Qed.
Example chain_broken : firstParentChain 4 three_links (js "ccc") (Some (js "x")) =
  Some (Err (js "구간의 시작 x이 ccc의 first-parent 체인에 없다")).
Proof. vm_compute. reflexivity. Qed.
