(* ===== verification/RateLimit.v ===== *)
(** * Rate limits and the token pool

    [packages/github/src/rate-limit.ts] and [token-pool.ts]: what a response says about
    the limits of a token, and which token may be used now.  Numbers of headers are exact
    rationals; a [Date] is its milliseconds, [None] when invalid. *)

From stdpp Require Import base list option strings numbers gmap.
From Stdlib Require Import ZArith QArith Lia.
From S2P Require Import Prelude JsString.
Open Scope Z_scope.

(** ** Dates *)

Definition date : Set := option Z.
(** [new Date(ms)]: truncated, invalid beyond 8.64e15 ms. *)
Definition timeclip (q : Q) : date :=
  let z := Z.quot (Qnum q) (Zpos (Qden q)) in
  if Qle_bool (8640000000000000 # 1) q && negb (Qeq_bool (8640000000000000 # 1) q)
     || Qle_bool q (-8640000000000000 # 1) && negb (Qeq_bool (-8640000000000000 # 1) q)
  then None else Some z.
(** Comparisons with an invalid date are false. *)
Definition date_gt (a b : date) : bool :=
  match a, b with Some a, Some b => b <? a | _, _ => false end.
Definition date_le (a b : date) : bool :=
  match a, b with Some a, Some b => a <=? b | _, _ => false end.

(** ** rate-limit.ts *)

Record RateLimitSnapshot : Set := mkSnapshot {
  limit : Q; remaining : Q; resetAt : date; observedAt : date
}.

Definition HeaderLike : Set := jstr -> option jstr.

Section headers.
(** [Number(s)], [None] when it is not finite, and [new Date(s)]. *)
Context (Number : jstr -> option Q) (date_of : jstr -> date).

Definition parseRateLimitHeaders (headers : HeaderLike) (now : date) : option RateLimitSnapshot :=
  rawLimit ← headers (js "x-ratelimit-limit");
  rawRemaining ← headers (js "x-ratelimit-remaining");
  rawReset ← headers (js "x-ratelimit-reset");
  limit ← Number rawLimit;
  remaining ← Number rawRemaining;
  reset ← Number rawReset;
  Some (mkSnapshot limit remaining (timeclip (reset * (1000 # 1))) now).

Definition parseRetryAfter (headers : HeaderLike) (now : Z) : option date :=
  raw ← headers (js "retry-after");
  if jeqb (trim raw) [] then None
  else match Number raw with
       | Some seconds =>
         if Qle_bool 0 seconds then Some (timeclip (inject_Z now + seconds * (1000 # 1)))
         else match date_of raw with None => None | d => Some d end
       | None => match date_of raw with None => None | d => Some d end
       end.
End headers.

Inductive QuarantineReason : Set := primary_exhausted | secondary_limit.
#[export] Instance QuarantineReason_eq_dec : EqDecision QuarantineReason.
Proof. solve_decision. Defined.

Record TokenRateLimitState : Set := mkTokenState {
  snapshot : option RateLimitSnapshot;
  quarantinedUntil : option date;
  quarantineReason : option QuarantineReason
}.

Definition INITIAL_STATE : TokenRateLimitState := mkTokenState None None None.

(** [snapshot.limit > 0 && snapshot.remaining / snapshot.limit < threshold] *)
Definition exhausted (s : RateLimitSnapshot) (threshold : Q) : bool :=
  negb (Qle_bool (limit s) 0) && negb (Qle_bool threshold (remaining s / limit s)).

Definition applyResponse (state : TokenRateLimitState) (s : option RateLimitSnapshot) (threshold : Q)
  : TokenRateLimitState :=
  match s with
  | None => state
  | Some snap =>
    if exhausted snap threshold
    then mkTokenState (Some snap) (Some (resetAt snap)) (Some primary_exhausted)
    else if bool_decide (quarantineReason state = Some secondary_limit)
    then mkTokenState (Some snap) (quarantinedUntil state) (quarantineReason state)
    else mkTokenState (Some snap) None None
  end.

Definition applySecondaryLimit (state : TokenRateLimitState) (retryAt : date) : TokenRateLimitState :=
  mkTokenState (snapshot state)
    (Some match quarantinedUntil state with
          | Some current => if date_gt current retryAt then current else retryAt
          | None => retryAt
          end)
    (Some secondary_limit).

Definition isAvailable (state : TokenRateLimitState) (now : Z) : bool :=
  match quarantinedUntil state with
  | None => true
  | Some until => date_le until (Some now)
  end.

(** ** token-pool.ts *)

Module TokenPool.
Record InstallationBinding : Set := mkBinding { org : jstr; installationId : Z }.

(** [token]: what the provider knows of a token; the provider itself is outside. *)
Record pool : Type := mkPool {
  byOrg : gmap jstr Z;
  states : gmap Z TokenRateLimitState;
  quarantineThreshold : Q
}.

Definition new_pool (installations : list InstallationBinding) (threshold : Q) : pool :=
  foldl (fun p b => mkPool (<[org b := installationId b]> (byOrg p))
                           (<[installationId b := INITIAL_STATE]> (states p)) threshold)
        (mkPool ∅ ∅ threshold) installations.

Definition installationFor (p : pool) (o : jstr) : option Z := byOrg p !! o.
Definition state (p : pool) (id : Z) : TokenRateLimitState :=
  match states p !! id with Some s => s | None => INITIAL_STATE end.

Definition isAvailable (p : pool) (o : jstr) (now : Z) : bool :=
  match byOrg p !! o with
  | None => false
  | Some id => isAvailable (state p id) now
  end.

Definition availableAt (p : pool) (o : jstr) (now : Z) : option date :=
  id ← byOrg p !! o;
  until ← quarantinedUntil (state p id);
  if date_gt until (Some now) then Some until else None.

(** [getToken] is the provider's answer. *)
Definition lease {T} (getToken : Z -> T) (p : pool) (o : jstr) : result jstr (jstr * Z * T) :=
  match byOrg p !! o with
  | None => Err (js "설치가 등록되지 않은 조직이다: " ++ o)
  | Some id => Ok (o, id, getToken id)
  end.

Definition set_state (p : pool) (id : Z) (s : TokenRateLimitState) : pool :=
  mkPool (byOrg p) (<[id := s]> (states p)) (quarantineThreshold p).

Definition observeResponse (p : pool) (id : Z) (s : option RateLimitSnapshot) : pool :=
  set_state p id (applyResponse (state p id) s (quarantineThreshold p)).

Definition observeSecondaryLimit (p : pool) (id : Z) (retryAt : date) : pool :=
  set_state p id (applySecondaryLimit (state p id) retryAt).

Definition remainingByInstallation (p : pool) : gmap Z Q :=
  omap (fun s => remaining <$> snapshot s) (states p).
End TokenPool.

(** ** Lemmas *)

Import TokenPool.

Lemma state_set p id s id' :
  state (set_state p id s) id' = if bool_decide (id = id') then s else state p id'.
Proof.
  unfold state, set_state. simpl. destruct (bool_decide _) eqn:E; bool_to_prop.
  - subst. by rewrite lookup_insert_eq.
  - by rewrite lookup_insert_ne.
Qed.

Lemma isAvailable_date p o now id d :
  byOrg p !! o = Some id -> quarantinedUntil (state p id) = d ->
  isAvailable p o now = match d with Some until => date_le until (Some now) | None => true end.
Proof. intros H <-. unfold isAvailable. by rewrite H. Qed.

(** What a pool observes about one installation. *)
Inductive event : Set := response (s : option RateLimitSnapshot) | too_many (retryAt : date).
Definition observe (threshold : Q) (st : TokenRateLimitState) (e : event) : TokenRateLimitState :=
  match e with
  | response s => applyResponse st s threshold
  | too_many t => applySecondaryLimit st t
  end.
Definition harmless (threshold : Q) (e : event) : bool :=
  match e with
  | response (Some s) => negb (exhausted s threshold)
  | response None => true
  | too_many t => bool_decide (t <> None)
  end.

(** A secondary quarantine until at least [t]. *)
Definition held (t : Z) (st : TokenRateLimitState) : Prop :=
  quarantineReason st = Some secondary_limit ∧
  ∃ u, quarantinedUntil st = Some (Some u) ∧ t <= u.

Lemma secondary_held st t :
  match quarantinedUntil st with Some None => False | _ => True end ->
  held t (applySecondaryLimit st (Some t)).
Proof.
  intros H. split; [done|]. unfold applySecondaryLimit. cbn [quarantinedUntil].
  destruct (quarantinedUntil st) as [[u|]|]; [|done|by exists t]. simpl.
  destruct (t <? u) eqn:E; bool_to_prop; eexists; (split; [done|]); lia.
Qed.

Lemma observe_held threshold t st e :
  harmless threshold e = true -> held t st -> held t (observe threshold st e).
Proof.
  intros He [Hr (u & Hu & Ht)]. destruct e as [[s|]|[r|]]; simpl in *; try done.
  - unfold applyResponse. apply negb_true_iff in He. rewrite He, Hr, bool_decide_eq_true_2 by done.
    split; [done|]. by exists u.
  - split; [done|]. by exists u.
  - split; [done|]. unfold applySecondaryLimit. cbn [quarantinedUntil]. rewrite Hu. simpl.
    destruct (r <? u) eqn:E; bool_to_prop; eexists; (split; [done|]); lia.
Qed.

(** ** Theorems *)

(** Quarantine by the primary limit: after a response whose remaining share is under the
    threshold, an organisation of that installation is available exactly from the reset
    on, [availableAt] gives the reset until then, and no other installation changes. *)
Theorem primary_quarantine p id s r o now :
  exhausted s (quarantineThreshold p) = true -> resetAt s = Some r ->
  let p' := observeResponse p id (Some s) in
  (byOrg p !! o = Some id ->
     isAvailable p' o now = (r <=? now) ∧
     availableAt p' o now = (if now <? r then Some (Some r) else None)) ∧
  (byOrg p !! o <> Some id ->
     isAvailable p' o now = isAvailable p o now ∧ availableAt p' o now = availableAt p o now).
Proof.
  intros He Hr p'. assert (forall id', state p' id' = if bool_decide (id = id')
      then mkTokenState (Some s) (Some (Some r)) (Some primary_exhausted) else state p id') as Hs.
  { intros id'. unfold p', observeResponse. rewrite state_set. unfold applyResponse.
    by rewrite He, Hr. }
  unfold isAvailable, availableAt. change (byOrg p') with (byOrg p). split.
  - intros ->. cbn [mbind option_bind]. rewrite Hs, bool_decide_eq_true_2 by done. done.
  - intros Hne. destruct (byOrg p !! o) as [id'|]; [|done]. cbn [mbind option_bind].
    rewrite Hs, bool_decide_eq_false_2 by naive_solver. done.
Qed.

Definition sample_pool : pool :=
  new_pool [mkBinding (js "acme") 7; mkBinding (js "beta") 8] (1 # 10).
Definition low_snapshot : RateLimitSnapshot :=
  mkSnapshot (5000 # 1) (100 # 1) (Some 1000) (Some 0).
Lemma primary_quarantine_witness :
  isAvailable (observeResponse sample_pool 7 (Some low_snapshot)) (js "acme") 999 = false ∧
  isAvailable (observeResponse sample_pool 7 (Some low_snapshot)) (js "beta") 999
    = isAvailable sample_pool (js "beta") 999.
Proof.
  split.
  - refine (proj1 (proj1 (primary_quarantine sample_pool 7 low_snapshot 1000 (js "acme") 999 _ _) _));
      vm_compute; reflexivity.
  - refine (proj1 (proj2 (primary_quarantine sample_pool 7 low_snapshot 1000 (js "beta") 999 _ _) _));
      vm_compute; [reflexivity|reflexivity|discriminate].
Defined.

(** A secondary limit holds: after a 429 with [retry-after] until [t], whatever other
    429s and responses follow, as long as none exhausts the primary limit, the token is
    not available before [t]; a later and shorter 429 does not shorten the wait. *)
Theorem secondary_limit_holds threshold st t es now :
  quarantinedUntil st <> Some None -> forallb (harmless threshold) es = true -> now < t ->
  RateLimit.isAvailable (foldl (observe threshold) (applySecondaryLimit st (Some t)) es) now = false.
Proof.
  intros Hst Hes Hnow.
  assert (held t (foldl (observe threshold) (applySecondaryLimit st (Some t)) es)) as [_ (u & Hu & Ht)].
  { assert (held t (applySecondaryLimit st (Some t))) as H.
    { apply secondary_held. by destruct (quarantinedUntil st) as [[]|]. }
    revert H. generalize (applySecondaryLimit st (Some t)).
    induction es as [|e es IH]; intros st' H; [done|]. simpl in Hes.
    apply andb_prop in Hes as [He Hes]. simpl. apply IH; [done|]. by apply observe_held. }
  unfold RateLimit.isAvailable. rewrite Hu. simpl. apply Z.leb_gt. lia.
Qed.
Definition fresh_snapshot : RateLimitSnapshot :=
  mkSnapshot (5000 # 1) (4000 # 1) (Some 1000) (Some 0).
Lemma secondary_limit_holds_witness :
  RateLimit.isAvailable
    (foldl (observe (1 # 10)) (applySecondaryLimit INITIAL_STATE (Some 5000))
       [response (Some fresh_snapshot); too_many (Some 2000); response None]) 4999 = false.
Proof. apply (secondary_limit_holds (1 # 10) INITIAL_STATE 5000); [discriminate|reflexivity|reflexivity]. Defined.

(** The hypothesis is needed: a response that exhausts the primary limit replaces a longer
    secondary quarantine by its own reset, so the token is used again before the time
    [retry-after] named. *)
Theorem primary_shortens_secondary :
  RateLimit.isAvailable
    (observe (1 # 10) (applySecondaryLimit INITIAL_STATE (Some 5000)) (response (Some low_snapshot))) 1000
  = true.
Proof. reflexivity. Qed.
