(* ===== verification/Scheduler.v ===== *)
(** * The request scheduler

    [packages/github/src/scheduler.ts]: slots for requests to GitHub, realtime before
    backfill.  Each definition is one stretch of code that runs without yielding; what
    runs between two of them is the step relation below.  A waiter whose promise was
    resolved by [#release] but whose continuation has not run yet is in [granted]: the
    promise reactions run later, in order. *)

From stdpp Require Import base list option strings numbers relations sets.
From Stdlib Require Import ZArith Lia Sorted.
From S2P Require Import Prelude JsString.
Open Scope nat_scope.

Inductive RequestPriority : Set := realtime | backfill.
#[export] Instance RequestPriority_eq_dec : EqDecision RequestPriority.
Proof. solve_decision. Defined.

Record Waiter : Set := mkWaiter { priority : RequestPriority; enqueuedAt : nat }.
#[export] Instance Waiter_eq_dec : EqDecision Waiter.
Proof. solve_decision. Defined.

Record scheduler : Set := mkScheduler {
  maxConcurrent : nat;
  q_realtime : list Waiter;
  q_backfill : list Waiter;
  inFlight : nat;
  sequence : nat;
  granted : list Waiter
}.

Definition new_scheduler (max : Z) : scheduler :=
  mkScheduler (Z.to_nat (Z.max 1 max)) [] [] 0 0 [].

Definition queued (s : scheduler) : nat := length (q_realtime s) + length (q_backfill s).

Definition queue_of (p : RequestPriority) (s : scheduler) : list Waiter :=
  match p with realtime => q_realtime s | backfill => q_backfill s end.
Definition set_queue (p : RequestPriority) (q : list Waiter) (s : scheduler) : scheduler :=
  match p with
  | realtime => mkScheduler (maxConcurrent s) q (q_backfill s) (inFlight s) (sequence s) (granted s)
  | backfill => mkScheduler (maxConcurrent s) (q_realtime s) q (inFlight s) (sequence s) (granted s)
  end.
Definition set_inFlight (n : nat) (s : scheduler) : scheduler :=
  mkScheduler (maxConcurrent s) (q_realtime s) (q_backfill s) n (sequence s) (granted s).
Definition set_granted (g : list Waiter) (s : scheduler) : scheduler :=
  mkScheduler (maxConcurrent s) (q_realtime s) (q_backfill s) (inFlight s) (sequence s) g.

Inductive acquired : Set := rejected | running | waiting (w : Waiter).

(** [#acquire] up to its first [await]. *)
Definition acquire (p : RequestPriority) (aborted : bool) (s : scheduler) : acquired * scheduler :=
  if aborted then (rejected, s)
  else if (inFlight s <? maxConcurrent s) && (queued s =? 0)
  then (running, set_inFlight (inFlight s + 1) s)
  else
    let w := mkWaiter p (sequence s + 1) in
    let s := mkScheduler (maxConcurrent s) (q_realtime s) (q_backfill s) (inFlight s)
               (sequence s + 1) (granted s) in
    (waiting w, set_queue p (queue_of p s ++ [w]) s).

(** [onAbort] of a waiter. *)
Definition onAbort (w : Waiter) (s : scheduler) : acquired * scheduler :=
  if bool_decide (w ∈ queue_of (priority w) s)
  then (rejected, set_queue (priority w) (filter (fun x => x <> w) (queue_of (priority w) s)) s)
  else (waiting w, s).

(** [#release]. *)
Definition release (s : scheduler) : scheduler :=
  let s := set_inFlight (inFlight s - 1) s in
  match q_realtime s with
  | w :: rest => set_granted (granted s ++ [w]) (set_queue realtime rest s)
  | [] =>
    match q_backfill s with
    | w :: rest => set_granted (granted s ++ [w]) (set_queue backfill rest s)
    | [] => s
    end
  end.

(** The end of [#acquire], run as the reaction of the resolved promise. *)
Definition resume (s : scheduler) : option (Waiter * scheduler) :=
  match granted s with
  | w :: rest => Some (w, set_inFlight (inFlight s + 1) (set_granted rest s))
  | [] => None
  end.

(** ** Steps

    A task that runs holds one of the [inFlight] slots and releases it once.  With
    [overlap] a request may arrive at any time; without it, not while a grant is under
    way. *)
Inductive step (overlap : bool) : scheduler -> scheduler -> Prop :=
| step_acquire p aborted s :
    overlap = true \/ granted s = [] -> step overlap s (acquire p aborted s).2
| step_abort w s : step overlap s (onAbort w s).2
| step_release s : 0 < inFlight s -> step overlap s (release s)
| step_resume w s s' : resume s = Some (w, s') -> step overlap s s'.

Definition reachable (overlap : bool) (max : Z) (s : scheduler) : Prop :=
  rtc (step overlap) (new_scheduler max) s.

(** ** Invariants *)

Definition fifo (s : scheduler) (q : list Waiter) : Prop :=
  StronglySorted (fun a b => enqueuedAt a < enqueuedAt b) q ∧
  Forall (fun w => enqueuedAt w <= sequence s) q.

(** Queues are in order of arrival and hold their own class; while someone waits, every
    slot is taken or granted. *)
Record sched_inv (s : scheduler) : Prop := {
  inv_max : 1 <= maxConcurrent s;
  inv_fifo p : fifo s (queue_of p s);
  inv_class p : Forall (fun w => priority w = p) (queue_of p s);
  inv_busy : 0 < queued s -> maxConcurrent s <= inFlight s + length (granted s)
}.

Lemma queue_set p p' q s :
  queue_of p (set_queue p' q s) = if bool_decide (p = p') then q else queue_of p s.
Proof. by destruct p, p'. Qed.

Lemma sorted_snoc {A} (R : A -> A -> Prop) l x :
  StronglySorted R l -> Forall (fun y => R y x) l -> StronglySorted R (l ++ [x]).
Proof.
  induction 1 as [|y l Hl IH Hy]; intros Hx; simpl; [by repeat constructor|].
  inversion Hx; subst. constructor; [by apply IH|]. apply list.Forall_app; auto.
Qed.

Lemma sorted_filter {A} (R : A -> A -> Prop) (P : A -> Prop) `{forall x, Decision (P x)} l :
  StronglySorted R l -> StronglySorted R (filter P l).
Proof.
  induction 1 as [|y l Hl IH Hy]; simpl; [constructor|].
  rewrite filter_cons. destruct (decide (P y)); [|done]. constructor; [done|].
  rewrite list.Forall_forall in Hy |- *. intros x [_ Hx]%list_elem_of_filter. by apply Hy.
Qed.

Lemma filter_length_le {A} (P : A -> Prop) `{forall x, Decision (P x)} (l : list A) :
  length (filter P l) <= length l.
Proof. apply length_filter. Qed.

Lemma acquire_inv p aborted s : sched_inv s -> sched_inv (acquire p aborted s).2.
Proof.
  intros [H1 H2 H3 H4]. unfold acquire. destruct aborted; [done|].
  destruct ((inFlight s <? maxConcurrent s) && (queued s =? 0)) eqn:E; cbn [snd].
  - apply andb_prop in E as [E1 E2]. bool_to_prop. constructor; try done.
    intros Hq. change (queued _) with (queued s) in Hq. bool_to_prop. lia.
  - constructor.
    + by destruct p.
    + intros p'. rewrite queue_set. destruct (H2 p') as [Ha Hb], (H2 p) as [Hc Hd].
      assert (forall q, Forall (fun w => enqueuedAt w <= sequence s) q ->
        Forall (fun w => enqueuedAt w <= sequence s + 1) q) as Hw
        by (intros q Hq; eapply List.Forall_impl; [|exact Hq]; simpl; lia).
      destruct (bool_decide (p' = p)) eqn:Ep; [|by split; [|destruct p; apply Hw]].
      split.
      * apply sorted_snoc; [done|]. eapply List.Forall_impl; [|exact Hd]. simpl. lia.
      * destruct p; apply list.Forall_app; (split; [by apply Hw|]); repeat constructor; simpl; lia.
    + intros p'. rewrite queue_set. destruct (bool_decide (p' = p)) eqn:Ep; bool_to_prop; [subst|apply H3].
      apply list.Forall_app. split; [apply H3|]. by repeat constructor.
    + intros _. apply andb_false_iff in E as [E|E]; bool_to_prop.
      * destruct p; simpl; lia.
      * assert (0 < queued s) as Hq%H4 by lia. destruct p; simpl; lia.
Qed.

Lemma abort_inv w s : sched_inv s -> sched_inv (onAbort w s).2.
Proof.
  intros [H1 H2 H3 H4]. unfold onAbort. destruct (bool_decide _) eqn:E; [|done]. cbn [snd].
  set (p := priority w). constructor.
  - by destruct p.
  - intros p'. rewrite queue_set. destruct (bool_decide (p' = p)); [|by destruct (H2 p'), p].
    destruct (H2 p) as [Ha Hb]. split; [by apply sorted_filter|].
    rewrite list.Forall_forall in Hb |- *. intros x [_ Hx]%list_elem_of_filter.
    specialize (Hb x Hx). by destruct p.
  - intros p'. rewrite queue_set. destruct (bool_decide (p' = p)) eqn:Ep; bool_to_prop; [subst|done].
    rewrite list.Forall_forall. intros x [_ Hx]%list_elem_of_filter.
    specialize (H3 p). rewrite list.Forall_forall in H3. by apply H3.
  - intros Hq. assert (0 < queued s) as Hq'%H4; [|by destruct p].
    revert Hq. unfold queued. destruct p; simpl;
      pose proof (filter_length_le (fun x => x <> w) (q_realtime s));
      pose proof (filter_length_le (fun x => x <> w) (q_backfill s)); lia.
Qed.

Lemma fifo_tail s s' w q : sequence s' = sequence s -> fifo s (w :: q) -> fifo s' q.
Proof.
  intros Hs [Ha Hb]. apply StronglySorted_inv in Ha as [Ha _].
  split; [done|]. rewrite Hs. by apply Forall_cons_1 in Hb as [_ Hb].
Qed.

Lemma release_inv s : 0 < inFlight s -> sched_inv s -> sched_inv (release s).
Proof.
  intros Hf [H1 H2 H3 H4]. unfold release. simpl.
  pose proof (H2 realtime) as R2. pose proof (H2 backfill) as B2.
  pose proof (H3 realtime) as R3. pose proof (H3 backfill) as B3. simpl in *.
  destruct (q_realtime s) as [|w r] eqn:Er; [destruct (q_backfill s) as [|w r] eqn:Eb|].
  - constructor; [done|intros []; simpl; rewrite ?Er, ?Eb; done..|].
    unfold queued. simpl. rewrite Er, Eb. simpl. lia.
  - assert (maxConcurrent s <= inFlight s + length (granted s)).
    { apply H4. unfold queued. rewrite Eb. simpl. lia. }
    apply Forall_cons_1 in B3 as [_ B3].
    constructor; [done|intros []; simpl; rewrite ?Er; try done|intros []; simpl; rewrite ?Er; done|].
    + by eapply fifo_tail.
    + simpl. rewrite length_app. simpl. lia.
  - assert (maxConcurrent s <= inFlight s + length (granted s)).
    { apply H4. unfold queued. rewrite Er. simpl. lia. }
    apply Forall_cons_1 in R3 as [_ R3].
    constructor; [done|intros []; simpl; try done|intros []; simpl; done|].
    + by eapply fifo_tail.
    + simpl. rewrite length_app. simpl. lia.
Qed.

Lemma resume_inv w s s' : resume s = Some (w, s') -> sched_inv s -> sched_inv s'.
Proof.
  unfold resume. destruct (granted s) as [|w0 g] eqn:Eg; [done|]. intros [= <- <-] [H1 H2 H3 H4].
  constructor; [done|intros []; [apply (H2 realtime)|apply (H2 backfill)]
    |intros []; [apply (H3 realtime)|apply (H3 backfill)]|].
  intros Hq. specialize (H4 Hq). rewrite Eg in H4. simpl in *. lia.
Qed.

Lemma step_inv overlap s s' : step overlap s s' -> sched_inv s -> sched_inv s'.
Proof.
  destruct 1; [by apply acquire_inv|by apply abort_inv|by apply release_inv|by eapply resume_inv].
Qed.

Lemma reachable_inv overlap max s : reachable overlap max s -> sched_inv s.
Proof.
  unfold reachable. intros H. assert (sched_inv (new_scheduler max)) as Hi.
  { constructor; simpl; [lia| | |cbn; lia]; intros []; simpl; repeat constructor. }
  induction H as [|x y z Hxy _ IH]; [done|]. apply IH. by eapply step_inv.
Qed.

Definition within (s : scheduler) : Prop := inFlight s + length (granted s) <= maxConcurrent s.

Lemma quiet_within s s' : step false s s' -> within s -> within s'.
Proof.
  unfold within. destruct 1 as [p aborted s Hq|w s|s Hf|w s s' Hr]; intros H.
  - destruct Hq as [|Hq]; [done|]. unfold acquire. destruct aborted; [done|].
    destruct ((inFlight s <? maxConcurrent s) && (queued s =? 0)) eqn:E; [|by destruct p].
    apply andb_prop in E as [E _]. bool_to_prop. simpl. rewrite Hq. simpl. lia.
  - unfold onAbort. destruct (bool_decide _); [|done]. by destruct (priority w).
  - unfold release. simpl. destruct (q_realtime s); [destruct (q_backfill s)|];
      simpl; rewrite ?length_app; simpl; lia.
  - unfold resume in Hr. destruct (granted s) eqn:Eg; [done|]. injection Hr as <- <-. simpl in *. lia.
Qed.

(** ** Theorems *)


Definition one_waiter : scheduler := (acquire backfill false (acquire realtime false (new_scheduler 1)).2).2.
Lemma one_waiter_reachable : reachable true 1 one_waiter.
Proof.
  unfold reachable. eapply rtc_l; [apply (step_acquire true realtime false); by left|].
  eapply rtc_l; [apply (step_acquire true backfill false); by left|]. apply rtc_refl.
Defined.

(** Who is served: a release gives its slot to the oldest waiting realtime request,
    and to the oldest waiting backfill request only when no realtime one waits; nobody
    else leaves a queue, and a granted waiter can no longer be aborted. *)
Theorem release_serves overlap max s :
  reachable overlap max s -> 0 < queued s ->
  ∃ w, granted (release s) = granted s ++ [w] ∧
    w ∈ queue_of (priority w) s ∧ (priority w = backfill -> q_realtime s = []) ∧
    (forall x, x ∈ queue_of (priority w) s -> x <> w -> enqueuedAt w < enqueuedAt x) ∧
    (forall x, x ∈ queue_of (priority x) s <-> x = w \/ x ∈ queue_of (priority x) (release s)) ∧
    onAbort w (release s) = (waiting w, release s).
Proof.
  intros [H1 H2 H3 H4]%reachable_inv Hq. unfold queued in Hq. unfold release. simpl.
  pose proof (H2 realtime) as [R2 _]. pose proof (H2 backfill) as [B2 _].
  pose proof (H3 realtime) as R3. pose proof (H3 backfill) as B3. simpl in *.
  assert (forall w r, StronglySorted (fun a b => enqueuedAt a < enqueuedAt b) (w :: r) -> w ∉ r ∧
    forall x, x ∈ w :: r -> x <> w -> enqueuedAt w < enqueuedAt x) as Hs.
  { intros w r [_ Hw]%StronglySorted_inv. rewrite list.Forall_forall in Hw. split.
    - intros Hin. specialize (Hw _ Hin). lia.
    - intros x [->|Hx]%elem_of_cons Hne; [done|]. by apply Hw. }
  destruct (q_realtime s) as [|w r] eqn:Er.
  - destruct (q_backfill s) as [|w r] eqn:Eb; [simpl in Hq; lia|].
    apply Forall_cons_1 in B3 as [Hp _]. destruct (Hs _ _ B2) as [Hn Hl]. exists w. rewrite Hp. simpl.
    rewrite Eb. split_and!; [done|by left|done|done| |].
    + intros x. destruct (priority x) eqn:Ex; simpl; rewrite ?Er, ?Eb, ?elem_of_cons; [|done].
      rewrite elem_of_nil. split; [done|]. intros [->|?]; [congruence|done].
    + unfold onAbort. rewrite Hp. simpl. by rewrite bool_decide_eq_false_2.
  - apply Forall_cons_1 in R3 as [Hp _]. destruct (Hs _ _ R2) as [Hn Hl]. exists w. rewrite Hp. simpl.
    rewrite Er. split_and!; [done|by left|done|done| |].
    + intros x. destruct (priority x) eqn:Ex; simpl; rewrite ?Er, ?elem_of_cons; [done|].
      split; [by right|]. intros [->|?]; [congruence|done].
    + unfold onAbort. rewrite Hp. simpl. by rewrite bool_decide_eq_false_2.
Qed.
Lemma release_serves_witness :
  ∃ w, granted (release one_waiter) = granted one_waiter ++ [w] ∧ w ∈ queue_of (priority w) one_waiter.
Proof.
  destruct (release_serves true 1 one_waiter one_waiter_reachable) as (w & H1 & H2 & _);
    [vm_compute; lia|]. by exists w.
Defined.


(** The condition is needed.  [#release] takes the slot back before the waiter it resolved
    counts itself, so a request that arrives in between finds a free slot and an empty
    queue: with [maxConcurrent] 1, two tasks run. *)
Theorem concurrency_overshoot : ∃ s, reachable true 1 s ∧ maxConcurrent s = 1 ∧ inFlight s = 2.
Proof.
  set (s3 := release one_waiter).
  set (s4 := (acquire realtime false s3).2).
  exists (mkScheduler 1 [] [] 2 1 []). split; [|done].
  unfold reachable. etransitivity; [exact one_waiter_reachable|].
  eapply rtc_l; [apply step_release; vm_compute; lia|]. fold s3.
  eapply rtc_l; [apply (step_acquire true realtime false s3); by left|]. fold s4.
  eapply rtc_l; [by apply (step_resume true (mkWaiter backfill 1))|]. apply rtc_refl.
Qed.
