(* ===== verification/Pacing.v ===== *)
(** * Time budgets and the spacing of writes

    [packages/github/src/pacing.ts]: [PassDeadline] and [WriteGate].  The clock is an
    argument: every definition takes the time at which it reads it. *)

From stdpp Require Import base list option strings numbers sets.
From Stdlib Require Import ZArith Lia.
From S2P Require Import Prelude JsString.
Open Scope Z_scope.

(** ** PassDeadline

    [aborted] is the state of the controller's signal, [timer] when the armed timer
    fires. *)
Record PassDeadline : Set := mkDeadline { endsAt : option Z; aborted : bool; timer : option Z }.

Definition abort (d : PassDeadline) : PassDeadline := mkDeadline (endsAt d) true (timer d).

(** The constructor; [now] is read after [startedAt] was. *)
Definition new_deadline (budgetMs : option Z) (startedAt now : Z) (external_aborted : option bool)
  : PassDeadline :=
  let stopped := match external_aborted with Some b => b | None => false end in
  match budgetMs with
  | None => mkDeadline None stopped None
  | Some budget =>
    let ends := startedAt + budget in
    let remaining := ends - now in
    if remaining <=? 0 then mkDeadline (Some ends) true None
    else mkDeadline (Some ends) stopped (Some (now + remaining))
  end.

(** The timer and the external signal. *)
Definition timer_fires (d : PassDeadline) (now : Z) : PassDeadline :=
  match timer d with
  | Some t => if t <=? now then mkDeadline (endsAt d) true None else d
  | None => d
  end.

(** [None] is infinity. *)
Definition remainingMs (d : PassDeadline) (now : Z) : option Z := (fun e => e - now) <$> endsAt d.

Definition expired (d : PassDeadline) (now : Z) : bool * PassDeadline :=
  if aborted d then (true, d)
  else match endsAt d with
       | Some e => if e <=? now then (true, abort d) else (false, d)
       | None => (false, d)
       end.

(** What [sleep] does before it waits: answer at once, or wait [ms]. *)
Inductive sleep_start : Set := answer (b : bool) | wait_for (ms : Z).
Definition sleep (d : PassDeadline) (ms now : Z) : sleep_start * PassDeadline :=
  let (e, d) := expired d now in
  if e then (answer false, d)
  else match remainingMs d now with
       | Some r => if r <=? ms then (answer false, d) else (wait_for ms, d)
       | None => (wait_for ms, d)
       end.
(** How the wait ends: with an injected [impl], by asking again; else by whichever of the
    timer and the abort event comes first. *)
Inductive wake : Set := impl_done | timeout_first | abort_first.
Definition wake_up (w : wake) (d : PassDeadline) (now : Z) : bool * PassDeadline :=
  match w with
  | impl_done => let (e, d) := expired d now in (negb e, d)
  | timeout_first => (true, d)
  | abort_first => (false, d)
  end.

Definition dispose (d : PassDeadline) : PassDeadline := mkDeadline (endsAt d) (aborted d) None.

(** ** WriteGate *)

Record WriteGate : Set := mkGate { spacingMs : Z; nextAllowedAt : Z; pausedUntil_ : option Z }.

Definition new_gate (spacing now : Z) (startPaused : option bool) : WriteGate :=
  mkGate spacing (match startPaused with Some true => now + spacing | _ => 0 end) None.

Definition pausedUntil (g : WriteGate) : option Z := pausedUntil_ g.

Definition pauseUntil (g : WriteGate) (at_ : Z) : WriteGate :=
  let paused := match pausedUntil_ g with
                | None => Some at_
                | Some p => if p <? at_ then Some at_ else Some p
                end in
  mkGate (spacingMs g) (if nextAllowedAt g <? at_ then at_ else nextAllowedAt g) paused.

Definition waitMs (g : WriteGate) (now : Z) : Z := Z.max 0 (nextAllowedAt g - now).

Definition waitForTurn (g : WriteGate) (d : PassDeadline) (now : Z) : sleep_start * PassDeadline :=
  let wait := waitMs g now in
  if wait <=? 0 then let (e, d) := expired d now in (answer (negb e), d) else sleep d wait now.

Definition markSent (g : WriteGate) (now : Z) : WriteGate :=
  let next := now + spacingMs g in
  mkGate (spacingMs g) (if nextAllowedAt g <? next then next else nextAllowedAt g)
    (match pausedUntil_ g with
     | Some p => if p <=? now then None else Some p
     | None => None
     end).

(** ** Uses of the gate

    The writers use it one at a time: ask for a turn at [asked], and if the answer is yes
    send at [sent], after the wait; limits are reported in between. *)
Inductive gate_op : Set :=
| send (asked sent : Z)
| limit_until (until : Z).

(** The turn was granted: at once, or after sleeping the time asked for. *)
Definition turn_granted (g : WriteGate) (d : PassDeadline) (asked sent : Z) : bool :=
  match (waitForTurn g d asked).1 with
  | answer b => b && (asked <=? sent)
  | wait_for ms => asked + ms <=? sent
  end.

Fixpoint run_ops (g : WriteGate) (ops : list (PassDeadline * gate_op)) : option WriteGate :=
  match ops with
  | [] => Some g
  | (d, send asked sent) :: ops =>
    if turn_granted g d asked sent then run_ops (markSent g sent) ops else None
  | (_, limit_until u) :: ops => run_ops (pauseUntil g u) ops
  end.

(** ** Lemmas *)

Lemma expired_answer d now e d' :
  expired d now = (e, d') ->
  e = (aborted d || match endsAt d with Some x => x <=? now | None => false end) ∧
  d' = mkDeadline (endsAt d) e (timer d).
Proof.
  destruct d as [[x|] [] t]; unfold expired; simpl; try (by intros [= <- <-]).
  destruct (x <=? now); by intros [= <- <-].
Qed.

Lemma granted_after g d asked sent :
  turn_granted g d asked sent = true -> nextAllowedAt g <= sent ∧ asked <= sent.
Proof.
  unfold turn_granted, waitForTurn, sleep. cbv zeta.
  assert (0 <= waitMs g asked ∧ nextAllowedAt g - asked <= waitMs g asked) by (unfold waitMs; lia).
  destruct (expired d asked) as [e d'].
  destruct (waitMs g asked <=? 0) eqn:E; simpl.
  - intros [_ H']%andb_prop. bool_to_prop. lia.
  - destruct e; [done|].
    destruct (remainingMs d' asked) as [r|]; [destruct (r <=? _)|]; simpl; intros; bool_to_prop; try done; lia.
Qed.

Lemma gate_monotone g ops g' :
  0 <= spacingMs g -> run_ops g ops = Some g' ->
  nextAllowedAt g <= nextAllowedAt g' ∧ spacingMs g' = spacingMs g.
Proof.
  revert g. induction ops as [|[d []] ops IH]; intros g Hs; simpl; [intros [= <-]; lia| |].
  - destruct (turn_granted _ _ _ _); [|done]. intros [H1 H2]%IH; [|done]. simpl in *.
    destruct (nextAllowedAt g <? sent + spacingMs g) eqn:E; bool_to_prop; lia.
  - intros [H1 H2]%IH; [|done]. simpl in *.
    destruct (nextAllowedAt g <? until) eqn:E; bool_to_prop; lia.
Qed.

Lemma run_ops_app g ops1 ops2 g' :
  run_ops g (ops1 ++ ops2) = Some g' ->
  ∃ g1, run_ops g ops1 = Some g1 ∧ run_ops g1 ops2 = Some g'.
Proof.
  revert g. induction ops1 as [|[d []] ops IH]; intros g; simpl; [by eexists| |apply IH].
  destruct (turn_granted _ _ _ _); [apply IH|done].
Qed.

(** ** Theorems *)

(** Spacing of writes: used one writer at a time, the gate keeps every write at least
    [spacingMs] after every earlier one, whether that one succeeded or failed, not before
    any limit reported earlier, and, when started paused, [spacingMs] after the start. *)
Theorem write_spacing sp start paused pre d1 op mid d2 asked sent g' :
  0 <= sp ->
  run_ops (new_gate sp start paused) (pre ++ (d1, op) :: mid ++ [(d2, send asked sent)]) = Some g' ->
  match op with send _ sent1 => sent1 + sp <= sent | limit_until u => u <= sent end ∧
  (paused = Some true -> start + sp <= sent).
Proof.
  intros Hsp (g1 & H1 & H2)%run_ops_app.
  destruct (gate_monotone (new_gate sp start paused) _ _ Hsp H1) as [M1 S1].
  change ((d1, op) :: mid ++ [(d2, send asked sent)])
    with ([(d1, op)] ++ mid ++ [(d2, send asked sent)]) in H2.
  apply run_ops_app in H2 as (g2 & H2 & (g3 & H3 & H4)%run_ops_app).
  assert (0 <= spacingMs g1) as Hsp1 by (rewrite S1; exact Hsp).
  destruct (gate_monotone _ _ _ Hsp1 H2) as [M2 S2].
  assert (0 <= spacingMs g2) as Hsp2 by lia.
  destruct (gate_monotone _ _ _ Hsp2 H3) as [M3 _].
  simpl in H4. destruct (turn_granted g3 d2 asked sent) eqn:Et; [|done].
  apply granted_after in Et as [Et _]. simpl in S1.
  split; [|intros ->; simpl in M1; lia].
  destruct op as [a1 s1|u]; simpl in H2.
  - destruct (turn_granted _ _ _ _); [|done]. injection H2 as <-. unfold markSent in M3. cbn [nextAllowedAt] in M3.
    rewrite S1 in M3. destruct (nextAllowedAt g1 <? s1 + sp) eqn:E; bool_to_prop; lia.
  - injection H2 as <-. unfold pauseUntil in M3. cbn [nextAllowedAt] in M3.
    destruct (nextAllowedAt g1 <? u) eqn:E; bool_to_prop; lia.
Qed.
Definition no_budget : PassDeadline := new_deadline None 0 0 None.
Lemma write_spacing_witness :
  (5000 <= 5000) ∧ (Some true = Some true -> 0 + 1000 <= 5000).
Proof.
  apply (write_spacing 1000 0 (Some true) [(no_budget, send 10 1200)] no_budget (limit_until 5000) []
           no_budget 1300 5000 (mkGate 1000 6000 None)); [lia|vm_compute; reflexivity].
Defined.

(** The budget of a pass: a wait begins only when it ends before the budget does; a
    wait with an injected sleep answers yes only at a time inside the budget and with the
    signal down; an expired pass stays expired, and its signal is up. *)
Theorem budget_respected d ms now ms' d' :
  sleep d ms now = (wait_for ms', d') ->
  ms' = ms ∧ aborted d = false ∧
  (forall e, endsAt d = Some e -> now + ms < e) ∧
  (forall later b d2, wake_up impl_done d' later = (b, d2) ->
     b = true <-> forall e, endsAt d = Some e -> later < e) ∧
  (forall later d2, expired d' later = (true, d2) ->
     aborted d2 = true ∧ forall later2, (expired d2 later2).1 = true).
Proof.
  unfold sleep. destruct (expired d now) as [e0 d0] eqn:E.
  apply expired_answer in E as [-> ->].
  destruct (aborted d) eqn:Ea; simpl; [done|].
  destruct (endsAt d) as [e|] eqn:Ee; simpl.
  - destruct (e <=? now) eqn:E1; [done|]. unfold remainingMs. simpl.
    destruct (e - now <=? ms) eqn:E2; [done|]. intros [= <- <-]. bool_to_prop. split_and!; try done.
    + intros ? [= <-]. lia.
    + intros later b d2. unfold expired. simpl.
      destruct (e <=? later) eqn:E3; intros [= <- <-]; bool_to_prop; simpl.
      * split; [done|]. intros H. specialize (H _ eq_refl). lia.
      * split; [|done]. intros _ ? [= <-]. lia.
    + intros later d2 H. apply expired_answer in H as [_ ->]. done.
  - intros [= <- <-]. split_and!; try done.
    + intros later b d2. unfold expired. simpl. intros [= <- <-]. done.
Qed.
Lemma budget_respected_witness :
  200 = 200 ∧ 100 + 200 < 1000.
Proof.
  destruct (budget_respected (new_deadline (Some 1000) 0 100 None) 200 100 200
    (new_deadline (Some 1000) 0 100 None)) as (H1 & _ & H2 & _); [vm_compute; reflexivity|].
  split; [exact H1|]. apply H2. vm_compute. reflexivity.
Defined.
