(* ===== verification/JsonPointer.v ===== *)
(** * JSON pointers

    [packages/gh-cli/src/json-pointer.ts]: the restricted RFC 6901 pointers of result
    bindings, on documents that [JSON.parse] made. *)

From stdpp Require Import base list option strings numbers.
From Stdlib Require Import ZArith Lia.
From S2P Require Import Prelude JsString Json.
Open Scope nat_scope.

Definition JSON_POINTER_MAX_LENGTH : nat := 128.
Definition JSON_POINTER_MAX_TOKENS : nat := 8.
Definition FORBIDDEN_TOKENS : list jstr := [js "__proto__"; js "constructor"; js "prototype"].

(** A decimal without a leading zero. *)
Definition ARRAY_INDEX (s : jstr) : bool :=
  match s with
  | [] => false
  | c :: r => ((c =? 48)%N && match r with [] => true | _ => false end)
              || (in_range 49 57 c && forallb is_digit r)
  end.

Inductive JsonPointerError : Set :=
| too_long | syntax | invalid_escape | too_deep | forbidden_token | nonexistent_member
| not_a_container | invalid_array_index | end_of_array | index_out_of_range.

Notation pointer_result := (result (JsonPointerError * option jstr)).

(** [/~(?![01])/] *)
Fixpoint bad_escape (s : jstr) : bool :=
  match s with
  | [] => false
  | c :: s =>
    ((c =? 126)%N && match s with d :: _ => negb ((d =? 48) || (d =? 49))%N | [] => true end)
    || bad_escape s
  end.

(** [replace(/ab/g, c)] *)
Fixpoint replace_pair (a b c : N) (s : jstr) : jstr :=
  match s with
  | x :: (y :: r) as t => if ((x =? a) && (y =? b))%N then c :: replace_pair a b c r
                          else x :: replace_pair a b c t
  | _ => s
  end.

Definition unescape (piece : jstr) : jstr := replace_pair 126 48 126 (replace_pair 126 49 47 piece).

Fixpoint read_pieces (pieces : list jstr) : pointer_result (list jstr) :=
  match pieces with
  | [] => Ok []
  | piece :: pieces =>
    if bad_escape piece then Err (invalid_escape, Some piece)
    else
      let token := unescape piece in
      if mem token FORBIDDEN_TOKENS then Err (forbidden_token, Some token)
      else ts ← read_pieces pieces; Ok (token :: ts)
  end.

Definition parseJsonPointer (pointer : jstr) : pointer_result (list jstr) :=
  if JSON_POINTER_MAX_LENGTH <? length pointer then Err (too_long, None)
  else match pointer with
       | [] => Ok []
       | c :: rest =>
         if negb (c =? 47)%N then Err (syntax, None)
         else
           let pieces := split_char 47 rest in
           if JSON_POINTER_MAX_TOKENS <? length pieces then Err (too_deep, None)
           else read_pieces pieces
       end.

(** One step of the loop of [evaluateJsonPointer]. *)
Definition enter (current : json) (token : jstr) : pointer_result json :=
  match current with
  | JArr l =>
    if jeqb token (js "-") then Err (end_of_array, Some token)
    else if negb (ARRAY_INDEX token) then Err (invalid_array_index, Some token)
    else
      let index := num_of_digits token in
      if negb (is_safe_integer index) || (Z.of_nat (length l) <=? index)%Z
      then Err (index_out_of_range, Some token)
      else match l !! Z.to_nat index with
           | Some v => Ok v
           | None => Err (index_out_of_range, Some token)
           end
  | JObj fields =>
    match assoc token fields with
    | Some v => Ok v
    | None => Err (nonexistent_member, Some token)
    end
  | _ => Err (not_a_container, Some token)
  end.

Fixpoint follow (current : json) (tokens : list jstr) : pointer_result json :=
  match tokens with
  | [] => Ok current
  | t :: tokens => v ← enter current t; follow v tokens
  end.

Definition evaluateJsonPointer (document : json) (pointer : jstr) : pointer_result json :=
  tokens ← parseJsonPointer pointer; follow document tokens.

(** ** The pointer of a path *)

Definition escape_char (c : N) : jstr :=
  if (c =? 126)%N then [126; 48]%N else if (c =? 47)%N then [126; 49]%N else [c].
Definition escape (t : jstr) : jstr := concat (map escape_char t).
Definition pointer_of (tokens : list jstr) : jstr := concat (map (fun t => 47%N :: escape t) tokens).

(** A path in a document: members by name, elements by index. *)
Inductive at_path : json -> list jstr -> json -> Prop :=
| path_end v : at_path v [] v
| path_member fields k v w ks :
    assoc k fields = Some v -> at_path v ks w -> at_path (JObj fields) (k :: ks) w
| path_element l i v w ks :
    (Z.of_nat i <= MAX_SAFE_INTEGER)%Z -> l !! i = Some v -> at_path v ks w ->
    at_path (JArr l) (js_of_N (N.of_nat i) :: ks) w.

(** ** Lemmas *)

Lemma replace_pair_skip a b c x s : x <> a -> replace_pair a b c (x :: s) = x :: replace_pair a b c s.
Proof.
  intros H. destruct s as [|y s]; simpl; [done|].
  destruct (x =? a)%N eqn:E; bool_to_prop; [done|]. done.
Qed.

Definition half_escape (c : N) : jstr := if (c =? 126)%N then [126; 48]%N else [c].

Lemma unescape_slash t : replace_pair 126 49 47 (escape t) = concat (map half_escape t).
Proof.
  induction t as [|c t IH]; [done|]. unfold escape. cbn [map concat]. fold (escape t). rewrite <- IH.
  unfold escape_char, half_escape. destruct (c =? 126)%N eqn:E; bool_to_prop; [subst; cbn [app]|].
  - change (replace_pair 126 49 47 (126%N :: 48%N :: escape t))
      with (126%N :: replace_pair 126 49 47 (48%N :: escape t)). by rewrite replace_pair_skip.
  - destruct (c =? 47)%N eqn:E2; bool_to_prop; [by subst|]. cbn [app]. by rewrite replace_pair_skip.
Qed.

Lemma unescape_tilde t : replace_pair 126 48 126 (concat (map half_escape t)) = t.
Proof.
  induction t as [|c t IH]; [done|]. cbn [map concat]. unfold half_escape at 1.
  destruct (c =? 126)%N eqn:E; bool_to_prop; [subst; cbn [app]|].
  - simpl. by rewrite IH.
  - cbn [app]. by rewrite replace_pair_skip, IH.
Qed.

Lemma unescape_escape t : unescape (escape t) = t.
Proof. unfold unescape. by rewrite unescape_slash, unescape_tilde. Qed.

Lemma bad_escape_escape t : bad_escape (escape t) = false.
Proof.
  induction t as [|c t IH]; [done|]. unfold escape. cbn [map concat]. fold (escape t).
  unfold escape_char. destruct (c =? 126)%N eqn:E; bool_to_prop; [by subst|].
  destruct (c =? 47)%N eqn:E2; bool_to_prop; [by subst|].
  simpl. rewrite IH. apply N.eqb_neq in E. by rewrite E.
Qed.

Lemma escape_no_slash t : 47%N ∉ escape t.
Proof.
  induction t as [|c t IH]; [apply not_elem_of_nil|]. unfold escape. cbn [map concat]. fold (escape t).
  rewrite elem_of_app. intros [H|H]; [|done]. revert H. unfold escape_char.
  destruct (c =? 126)%N eqn:E; [by rewrite !elem_of_cons, elem_of_nil; intros [|[|]]|].
  destruct (c =? 47)%N eqn:E2; bool_to_prop; [by rewrite !elem_of_cons, elem_of_nil; intros [|[|]]|].
  intros H%list_elem_of_singleton. by subst c.
Qed.

Lemma pointer_pieces t ts :
  pointer_of (t :: ts) = 47%N :: join [47%N] (map escape (t :: ts)).
Proof.
  revert t. induction ts as [|u ts IH]; intros t; unfold pointer_of in *; cbn [map concat join app].
  - by rewrite app_nil_r.
  - f_equal. f_equal. specialize (IH u). cbn [map concat app] in IH. rewrite IH. done.
Qed.

Lemma read_pieces_escaped ts :
  Forall (fun t => t ∉ FORBIDDEN_TOKENS) ts -> read_pieces (map escape ts) = Ok ts.
Proof.
  induction 1 as [|t ts Ht _ IH]; [done|]. cbn [map read_pieces]. cbv zeta.
  rewrite bad_escape_escape, unescape_escape, IH, (proj2 (mem_false _ _) Ht). done.
Qed.

Lemma array_index_print token :
  ARRAY_INDEX token = true -> token = js_of_N (Z.to_N (num_of_digits token)).
Proof.
  destruct token as [|c r]; [done|]. unfold ARRAY_INDEX. intros [H|H]%orb_true_iff.
  - apply andb_prop in H as [H Hr]. bool_to_prop. subst. by destruct r.
  - apply andb_prop in H as [Hc Hr]. apply in_range_spec in Hc.
    symmetry. apply js_of_N_of_digits; [|lia]. simpl. rewrite Hr, andb_true_r.
    apply in_range_spec. lia.
Qed.

Lemma print_array_index n : ARRAY_INDEX (js_of_N n) = true.
Proof.
  pose proof (js_of_N_digits n) as Hd. pose proof (js_of_N_nonempty n) as Hne.
  destruct (js_of_N n) as [|c r] eqn:E; [done|]. unfold ARRAY_INDEX. simpl in Hd.
  apply andb_prop in Hd as [Hc Hr]. apply in_range_spec in Hc.
  destruct (decide (n = 0%N)) as [->|Hn]; [by injection E as <- <-|].
  pose proof (js_of_N_head _ _ _ E Hn).
  rewrite Hr, andb_true_r. apply orb_true_iff. right. apply in_range_spec. lia.
Qed.

Lemma enter_spec v k w :
  enter v k = Ok w <->
  (∃ fields, v = JObj fields ∧ assoc k fields = Some w) \/
  (∃ l i, v = JArr l ∧ k = js_of_N (N.of_nat i) ∧ (Z.of_nat i <= MAX_SAFE_INTEGER)%Z ∧ l !! i = Some w).
Proof.
  unfold enter. split.
  - destruct v as [| | | | |l|fields]; try done.
    + destruct (jeqb k (js "-")); [done|]. destruct (ARRAY_INDEX k) eqn:Ei; [|done]. cbn [negb].
      destruct (is_safe_integer _) eqn:Es; [|done]. cbn [negb orb].
      destruct (_ <=? _)%Z; [done|]. destruct (l !! _) as [x|] eqn:El; [|done]. intros [= <-].
      right. apply array_index_print in Ei. apply is_safe_integer_spec in Es.
      assert (0 <= num_of_digits k)%Z.
      { apply num_of_digits_nonneg. rewrite Ei. apply js_of_N_digits. }
      exists l, (Z.to_nat (num_of_digits k)). split_and!; [done| |lia|done].
      rewrite Ei at 1. f_equal. lia.
    + destruct (assoc k fields) eqn:E; [|done]. intros [= <-]. left. by exists fields.
  - intros [(fields & -> & ->)|(l & i & -> & -> & Hi & Hl)]; [done|].
    pose proof (print_array_index (N.of_nat i)) as Ha. rewrite Ha.
    destruct (jeqb _ _) eqn:Ej; [apply jeqb_eq in Ej; by rewrite Ej in Ha|]. cbn [negb].
    rewrite num_of_js_of_N. replace (Z.of_N (N.of_nat i)) with (Z.of_nat i) by lia.
    rewrite (proj2 (is_safe_integer_spec _)) by (unfold MAX_SAFE_INTEGER in *; lia). cbn [negb orb].
    apply lookup_lt_Some in Hl as Hlt. rewrite (proj2 (Z.leb_gt _ _)) by lia.
    by rewrite Nat2Z.id, Hl.
Qed.

Lemma follow_spec v ts w : follow v ts = Ok w <-> at_path v ts w.
Proof.
  revert v. induction ts as [|t ts IH]; intros v; cbn [follow].
  - split; [intros [= <-]; constructor|by inversion 1].
  - split.
    + destruct (enter v t) as [x|] eqn:E; [|done]. cbn. intros H%IH.
      apply enter_spec in E as [(fields & -> & E)|(l & i & -> & -> & Hi & E)]; by econstructor.
    + inversion 1; subst.
      * rewrite (proj2 (enter_spec (JObj fields) t v0)) by (left; by exists fields). by apply IH.
      * rewrite (proj2 (enter_spec (JArr l) _ v0)) by (right; by exists l, i). by apply IH.
Qed.

(** ** Theorems *)

(** Evaluation: on any document and pointer the value returned is the one the tokens of
    the pointer lead to, members by name and elements by index in canonical decimal; there
    is a value exactly when that path exists, so nothing is defaulted. *)
Theorem evaluateJsonPointer_spec document pointer v :
  evaluateJsonPointer document pointer = Ok v <->
  ∃ tokens, parseJsonPointer pointer = Ok tokens ∧ at_path document tokens v.
Proof.
  unfold evaluateJsonPointer. destruct (parseJsonPointer pointer) as [ts|e]; cbn.
  - rewrite follow_spec. naive_solver.
  - split; [done|]. by intros (? & ? & ?).
Qed.

(** Round trip: the escaped pointer of a path reads back as its tokens, whatever
    characters they hold (slashes and tildes included), unless it is over 128 characters,
    over 8 tokens, or names a prototype member. *)
Theorem pointer_round_trip tokens :
  length (pointer_of tokens) <= JSON_POINTER_MAX_LENGTH ->
  length tokens <= JSON_POINTER_MAX_TOKENS ->
  Forall (fun t => t ∉ FORBIDDEN_TOKENS) tokens ->
  parseJsonPointer (pointer_of tokens) = Ok tokens.
Proof.
  intros Hl Hn Hf. unfold parseJsonPointer.
  rewrite (proj2 (Nat.ltb_ge _ _) Hl). destruct tokens as [|t ts]; [done|].
  rewrite pointer_pieces. cbn [N.eqb negb Pos.eqb]. cbv zeta.
  rewrite split_join; [|done|].
  - rewrite length_map, (proj2 (Nat.ltb_ge _ _) Hn). by apply read_pieces_escaped.
  - apply List.Forall_map. apply list.Forall_forall. intros x _. apply escape_no_slash.
Qed.
Lemma pointer_round_trip_witness :
  parseJsonPointer (pointer_of [js "a/b"; js "~1"; js ""]) = Ok [js "a/b"; js "~1"; js ""].
Proof.
  apply pointer_round_trip; [vm_compute; lia|vm_compute; lia|].
  repeat constructor; apply mem_false; vm_compute; reflexivity.
Defined.
Example pointer_ex :
  evaluateJsonPointer (JObj [(js "rows", JArr [JNum 4; JObj [(js "a/b", JNum 7)]])]) (js "/rows/1/a~1b")
  = Ok (JNum 7).
Proof. vm_compute. reflexivity. Qed.
