(* ===== verification/GhInvocation.v ===== *)
(** * Invocations of the gh command line

    [packages/gh-cli/src/constraints.ts] and [argv.ts], with their types of [types.ts]:
    a request is checked against the definition of a capability, and only the normalised
    result is turned into arguments.  Values of a request are JSON. *)

From stdpp Require Import base list option strings numbers.
From Stdlib Require Import ZArith Lia.
From S2P Require Import Prelude JsString Json.
Open Scope Z_scope.

(** ** types.ts *)

Inductive GhOption : Set :=
| opt_enum (flag : jstr) (values : list jstr) (defaultValue label : jstr)
| opt_int (flag : jstr) (min max defaultValue : Z) (label : jstr)
| opt_json_fields (flag : jstr) (allowed defaultValue : list jstr) (minItems maxItems : Z) (label : jstr)
| opt_bool (flag : jstr) (defaultValue : bool) (label : jstr).

Definition option_flag (o : GhOption) : jstr :=
  match o with
  | opt_enum f _ _ _ | opt_int f _ _ _ _ | opt_json_fields f _ _ _ _ _ | opt_bool f _ _ => f
  end.
Definition is_json_fields (o : GhOption) : bool :=
  match o with opt_json_fields _ _ _ _ _ _ => true | _ => false end.

Inductive context_kind : Set := ctx_repository | ctx_host.
Definition context_name (c : context_kind) : jstr :=
  match c with ctx_repository => js "repository" | ctx_host => js "host" end.

Inductive GhConstraint : Set :=
| c_requires (flag : jstr) (requires : list jstr)
| c_conflicts (flags : list jstr)
| c_one_of (flags : list jstr)
| c_exactly_one (flags : list jstr)
| c_at_least_one (flags : list jstr)
| c_implies (flag : jstr) (whenValue : option jstr) (implies : jstr)
| c_required_if (flag when_flag when_value : jstr)
| c_input_source_exclusive (sources : list jstr)
| c_context_required (context : context_kind).

(** The fields the evaluator and the builder read; the others are for display. *)
Record GhCapabilityDefinition : Set := mkDefinition {
  id : jstr; path : list jstr; options : list GhOption; constraints : list GhConstraint
}.

Inductive violation_code : Set :=
| unknown_flag | positional_not_allowed | enum_value | int_format | int_range | bool_format
| json_field_not_allowed | json_fields_min | json_fields_max | json_fields_duplicate
| repository_format | v_requires | v_conflicts | v_one_of | v_exactly_one | v_at_least_one
| v_implies | v_required_if | v_input_source_exclusive | v_context_required.
Record GhConstraintViolation : Set := mkViolation {
  code : violation_code; v_flag : option jstr; message : jstr
}.

Record RepositorySlug : Set := mkSlug { owner : jstr; name : jstr }.
Inductive OptionValue : Set := VStr (s : jstr) | VNum (n : Z) | VBool (b : bool) | VList (l : list jstr).

(** [members]: every member of the request object, for those it must not have. *)
Record GhInvocation : Set := mkInvocation {
  context_repository : option json;
  flags : list (jstr * json);
  output_json_fields : option json;
  members : list (jstr * json)
}.
Record GhNormalizedInvocation : Set := mkNormalized {
  capabilityId : jstr; repository : RepositorySlug;
  n_options : list (jstr * OptionValue); jsonFields : list jstr
}.
Record GhExecutionContext : Set := mkContext { host : jstr; x_repository : RepositorySlug }.

(** ** constraints.ts *)

Definition slug_char (c : N) : bool := is_alnum c || (c =? 46)%N || (c =? 95)%N || (c =? 45)%N.
Definition SLUG_PART (s : jstr) : bool :=
  match s with
  | c :: r => is_alnum c && forallb slug_char r && (length r <=? 99)%nat
  | [] => false
  end.

Definition parseRepositorySlug (raw : option json) : option RepositorySlug :=
  match raw with
  | Some (JStr s) =>
    match split_char 47 s with
    | [owner; name] => if negb (SLUG_PART owner) || negb (SLUG_PART name) then None
                       else Some (mkSlug owner name)
    | _ => None
    end
  | _ => None
  end.

Definition optionByFlag (definition : GhCapabilityDefinition) (flag : jstr) : option GhOption :=
  find_first (fun o => jeqb (option_flag o) flag) (options definition).

(** [/^-?\d+$/] and [Number]. *)
Definition integer_text (s : jstr) : option Z :=
  match s with
  | c :: r => if (c =? 45)%N then (if all1 is_digit r then Some (- num_of_digits r) else None)
              else if all1 is_digit s then Some (num_of_digits s) else None
  | [] => None
  end.

Definition violation (c : violation_code) (f : option jstr) (m : jstr) : GhConstraintViolation :=
  mkViolation c f m.

(** [Ok None] is the value [null]: nothing to put on the command line. *)
Definition evaluateOption (o : GhOption) (raw : option json)
  : result GhConstraintViolation (option OptionValue) :=
  match o with
  | opt_enum flag values defaultValue _ =>
    match raw with
    | None => Ok (Some (VStr defaultValue))
    | Some (JStr s) =>
      if mem s values then Ok (Some (VStr s))
      else Err (violation enum_value (Some flag) (flag ++ js " must be one of: " ++ join (js ", ") values))
    | Some _ => Err (violation enum_value (Some flag) (flag ++ js " must be one of: " ++ join (js ", ") values))
    end
  | opt_int flag min max defaultValue _ =>
    match raw with
    | None => Ok (Some (VNum defaultValue))
    | Some v =>
      let numeric := match v with JStr s => integer_text s | JNum n => Some n | _ => None end in
      match numeric with
      | Some n =>
        if negb (is_safe_integer n)
        then Err (violation int_format (Some flag) (flag ++ js " must be an integer"))
        else if (n <? min) || (max <? n)
        then Err (violation int_range (Some flag)
                    (flag ++ js " must be between " ++ js_of_Z min ++ js " and " ++ js_of_Z max))
        else Ok (Some (VNum n))
      | None => Err (violation int_format (Some flag) (flag ++ js " must be an integer"))
      end
    end
  | opt_bool flag defaultValue _ =>
    match raw with
    | None => Ok (if defaultValue then Some (VBool true) else None)
    | Some (JBool b) => Ok (if b then Some (VBool true) else None)
    | Some _ => Err (violation bool_format (Some flag) (flag ++ js " must be true or false"))
    end
  | opt_json_fields flag _ _ _ _ _ =>
    Err (violation unknown_flag (Some flag) (js "Pass " ++ flag ++ js " through output.json_fields"))
  end.

(** [raw.some((field) => typeof field !== 'string')] *)
Fixpoint all_strings (l : list json) : option (list jstr) :=
  match l with
  | [] => Some []
  | JStr s :: l => (cons s) <$> all_strings l
  | _ :: _ => None
  end.

Fixpoint check_fields (flag : jstr) (allowed : list jstr) (seen : list jstr) (fields : list jstr)
  : result GhConstraintViolation (list jstr) :=
  match fields with
  | [] => Ok seen
  | field :: fields =>
    if negb (mem field allowed)
    then Err (violation json_field_not_allowed (Some flag) (js "JSON field is not allowed: " ++ field))
    else if mem field seen
    then Err (violation json_fields_duplicate (Some flag) (js "Duplicate JSON field: " ++ field))
    else check_fields flag allowed (seen ++ [field]) fields
  end.

Definition evaluateJsonFields (o : option GhOption) (raw : option json)
  : result GhConstraintViolation (list jstr) :=
  match o with
  | Some (opt_json_fields flag allowed defaultValue minItems maxItems _) =>
    match raw with
    | None | Some (JArr []) => Ok defaultValue
    | Some (JArr l) =>
      match all_strings l with
      | None => Err (violation json_field_not_allowed (Some flag) (js "json_fields must be an array of strings"))
      | Some fields =>
        seen ← check_fields flag allowed [] fields;
        if Z.of_nat (length fields) <? minItems
        then Err (violation json_fields_min (Some flag)
                    (js "Select at least " ++ js_of_Z minItems ++ js " JSON fields"))
        else if maxItems <? Z.of_nat (length fields)
        then Err (violation json_fields_max (Some flag)
                    (js "Select at most " ++ js_of_Z maxItems ++ js " JSON fields"))
        else Ok (List.filter (fun field => mem field seen) allowed)
      end
    | Some _ => Err (violation json_field_not_allowed (Some flag) (js "json_fields must be an array of strings"))
    end
  | _ => Ok []
  end.

Definition has (present : list (jstr * OptionValue)) (flag : jstr) : bool :=
  match assoc flag present with Some _ => true | None => false end.
Definition value_is (present : list (jstr * OptionValue)) (flag v : jstr) : bool :=
  match assoc flag present with Some (VStr s) => jeqb s v | _ => false end.

(** The [case]s of [evaluateRelations]. *)
Definition relation_violations (present : list (jstr * OptionValue)) (repository host : bool)
    (c : GhConstraint) : list GhConstraintViolation :=
  let found fs := List.filter (has present) fs in
  match c with
  | c_requires flag requires =>
    if negb (has present flag) then []
    else flat_map (fun r => if negb (has present r)
                            then [violation v_requires (Some flag) (flag ++ js " requires " ++ r)] else [])
           requires
  | c_conflicts fs =>
    if (1 <? length (found fs))%nat
    then [violation v_conflicts (hd_error (found fs))
            (js "These flags cannot be used together: " ++ join (js ", ") (found fs))]
    else []
  | c_one_of fs =>
    if (1 <? length (found fs))%nat
    then [violation v_one_of (hd_error (found fs))
            (js "These flags cannot be used together: " ++ join (js ", ") (found fs))]
    else []
  | c_exactly_one fs =>
    if negb (length (found fs) =? 1)%nat
    then [violation v_exactly_one (hd_error (found fs))
            (js "Exactly one of these flags is required: " ++ join (js ", ") fs)]
    else []
  | c_at_least_one fs =>
    if negb (existsb (has present) fs)
    then [violation v_at_least_one None
            (js "At least one of these flags is required: " ++ join (js ", ") fs)]
    else []
  | c_implies flag whenValue implies =>
    if negb (has present flag) then []
    else if match whenValue with Some v => negb (value_is present flag v) | None => false end then []
    else if negb (has present implies)
    then [violation v_implies (Some flag) (flag ++ js " also requires " ++ implies)]
    else []
  | c_required_if flag wf wv =>
    if value_is present wf wv && negb (has present flag)
    then [violation v_required_if (Some flag) (flag ++ js " is required when " ++ wf ++ js "=" ++ wv)]
    else []
  | c_input_source_exclusive sources =>
    if (1 <? length (found sources))%nat
    then [violation v_input_source_exclusive (hd_error (found sources))
            (js "Use only one input source: " ++ join (js ", ") (found sources))]
    else []
  | c_context_required c =>
    if negb (match c with ctx_repository => repository | ctx_host => host end)
    then [violation v_context_required None (context_name c ++ js " context is required")]
    else []
  end.

Definition evaluateRelations (cs : list GhConstraint) (present : list (jstr * OptionValue))
    (repository host : bool) : list GhConstraintViolation :=
  flat_map (relation_violations present repository host) cs.

Definition FORBIDDEN_MEMBERS : list jstr :=
  [js "positional"; js "stdin"; js "files"; js "argv"; js "command"].

Definition forbidden_violations (inv : GhInvocation) : list GhConstraintViolation :=
  flat_map (fun forbidden =>
    match assoc forbidden (members inv) with
    | Some _ => [violation positional_not_allowed None (js "This capability does not accept " ++ forbidden)]
    | None => []
    end) FORBIDDEN_MEMBERS.

Definition flag_violations (definition : GhCapabilityDefinition) (inv : GhInvocation)
  : list GhConstraintViolation :=
  flat_map (fun p =>
    match optionByFlag definition p.1 with
    | Some o => if is_json_fields o then [violation unknown_flag (Some p.1) (js "Unknown flag: " ++ p.1)] else []
    | None => [violation unknown_flag (Some p.1) (js "Unknown flag: " ++ p.1)]
    end) (flags inv).

(** The loop over the options: the violations and the values in definition order. *)
Fixpoint evaluate_options (os : list GhOption) (raws : list (jstr * json))
  : list GhConstraintViolation * list (jstr * OptionValue) :=
  match os with
  | [] => ([], [])
  | o :: os =>
    let '(vs, ordered) := evaluate_options os raws in
    if is_json_fields o then (vs, ordered)
    else match evaluateOption o (assoc (option_flag o) raws) with
         | Err v => (v :: vs, ordered)
         | Ok None => (vs, ordered)
         | Ok (Some value) => (vs, (option_flag o, value) :: ordered)
         end
  end.

Definition evaluateInvocation (definition : GhCapabilityDefinition) (inv : GhInvocation)
  : result (list GhConstraintViolation) GhNormalizedInvocation :=
  let repository := parseRepositorySlug (context_repository inv) in
  let repo_vs := match repository with
                 | None => [violation repository_format None (js "Repository must use the owner/name format")]
                 | Some _ => []
                 end in
  let '(option_vs, ordered) := evaluate_options (options definition) (flags inv) in
  let jsonOption := find_first is_json_fields (options definition) in
  let jsonOutcome := evaluateJsonFields jsonOption (output_json_fields inv) in
  let json_vs := match jsonOutcome with Err v => [v] | Ok _ => [] end in
  let jsonFields := match jsonOutcome with Err _ => [] | Ok fields => fields end in
  let present := match jsonOption with
                 | Some o => if (0 <? length jsonFields)%nat
                             then (option_flag o, VList jsonFields) :: rev ordered else rev ordered
                 | None => rev ordered
                 end in
  let violations := repo_vs ++ forbidden_violations inv ++ flag_violations definition inv
                    ++ option_vs ++ json_vs
                    ++ evaluateRelations (constraints definition) present
                         (match repository with Some _ => true | None => false end) true in
  match violations, repository with
  | [], Some repo => Ok (mkNormalized (id definition) repo ordered jsonFields)
  | _, _ => Err violations
  end.

(** ** argv.ts *)

Definition is_control (c : N) : bool := (c <? 32)%N || (c =? 127)%N.

Definition repoArgument (context : GhExecutionContext) : jstr :=
  host context ++ js "/" ++ owner (x_repository context) ++ js "/" ++ name (x_repository context).

(** [String(value)]; [None] for an array. *)
Definition value_text (v : OptionValue) : option jstr :=
  match v with
  | VStr s => Some s
  | VNum n => Some (js_of_Z n)
  | VBool b => Some (if b then js "true" else js "false")
  | VList _ => None
  end.

Definition option_args (inv : GhNormalizedInvocation) (o : GhOption) : result jstr (list jstr) :=
  match o with
  | opt_json_fields _ _ _ _ _ _ => Ok []
  | _ =>
    match find_first (fun p => jeqb p.1 (option_flag o)) (n_options inv) with
    | None => Ok []
    | Some (_, value) =>
      match o with
      | opt_bool flag _ _ => Ok (match value with VBool true => [flag] | _ => [] end)
      | _ => match value_text value with
             | None => Err (option_flag o ++ js "에 배열 값이 왔다")
             | Some t => Ok [option_flag o; t]
             end
      end
    end
  end.

Fixpoint options_args (inv : GhNormalizedInvocation) (os : list GhOption) : result jstr (list jstr) :=
  match os with
  | [] => Ok []
  | o :: os => a ← option_args inv o; b ← options_args inv os; Ok (a ++ b)
  end.

Definition buildArgv (definition : GhCapabilityDefinition) (inv : GhNormalizedInvocation)
    (context : GhExecutionContext) : result jstr (list jstr) :=
  if negb (jeqb (id definition) (capabilityId inv))
  then Err (js "capability 불일치: 정의 " ++ id definition ++ js ", invocation " ++ capabilityId inv)
  else if negb (jeqb (owner (x_repository context)) (owner (repository inv)))
          || negb (jeqb (name (x_repository context)) (name (repository inv)))
  then Err (js "실행 컨텍스트의 저장소가 invocation과 다르다")
  else
    args ← options_args inv (options definition);
    let json := match find_first is_json_fields (options definition) with
                | Some o => if (0 <? length (jsonFields inv))%nat
                            then [option_flag o; join (js ",") (jsonFields inv)] else []
                | None => []
                end in
    let argv := path definition ++ [js "--repo"; repoArgument context] ++ args ++ json in
    if existsb (existsb is_control) argv then Err (js "argv에 제어 문자가 있다") else Ok argv.

Definition argvEquals (a b : list jstr) : bool :=
  (length a =? length b)%nat && forallb (fun p => jeqb p.1 p.2) (zip a b).

(** ** Lemmas *)

(** What the value of an option may be. *)
Definition value_ok (o : GhOption) (v : OptionValue) : Prop :=
  match o with
  | opt_enum _ values d _ => ∃ s, v = VStr s ∧ (s = d \/ s ∈ values)
  | opt_int _ lo hi d _ => ∃ n, v = VNum n ∧ (n = d \/ lo <= n <= hi)
  | opt_bool _ _ _ => v = VBool true
  | opt_json_fields _ _ _ _ _ _ => False
  end.

Lemma evaluateOption_ok o raw v : evaluateOption o raw = Ok (Some v) -> value_ok o v.
Proof.
  destruct o as [f values d l|f lo hi d l|f al d lo hi l|f d l]; simpl; [| |done|].
  - destruct raw as [[]|]; try done; [|intros [= <-]; eauto].
    destruct (mem s values) eqn:E; [|done]. intros [= <-]. apply mem_elem in E. eauto.
  - destruct raw as [r|]; [|intros [= <-]; eauto].
    destruct (match r with JNum n => Some n | JStr s => integer_text s | _ => None end) as [n|]; [|done].
    destruct (negb _); [done|]. destruct ((n <? lo) || (hi <? n)) eqn:E; [done|].
    apply orb_false_iff in E as [E1 E2]. intros [= <-]. exists n. split; [done|]. right. blia.
  - destruct raw as [[]|]; try done; [destruct b|destruct d]; by intros [= <-].
Qed.

Lemma evaluate_options_values os raws vs ordered :
  evaluate_options os raws = (vs, ordered) ->
  forall f v, (f, v) ∈ ordered -> ∃ o, o ∈ os ∧ option_flag o = f ∧ value_ok o v.
Proof.
  revert vs ordered. induction os as [|o os IH]; intros vs ordered; simpl.
  - intros [= <- <-] f v H. by apply elem_of_nil in H.
  - destruct (evaluate_options os raws) as [vs' ord] eqn:E. specialize (IH _ _ eq_refl).
    assert (forall f v, (f, v) ∈ ord -> ∃ o', o' ∈ o :: os ∧ option_flag o' = f ∧ value_ok o' v) as Hrest.
    { intros f v (o' & H1 & H2)%IH. exists o'. split; [by right|done]. }
    destruct (is_json_fields o); [by intros [= <- <-]|].
    destruct (evaluateOption o _) as [[value|]|viol] eqn:Ev; intros [= <- <-]; try done.
    intros f v [[= -> ->]|H]%elem_of_cons; [|by apply Hrest].
    exists o. split; [by left|]. split; [done|]. by eapply evaluateOption_ok.
Qed.

Lemma check_fields_ok flag allowed seen fields seen' :
  check_fields flag allowed seen fields = Ok seen' ->
  seen' = seen ++ fields ∧ (NoDup seen -> NoDup seen') ∧ Forall (fun f => f ∈ allowed) fields.
Proof.
  revert seen. induction fields as [|f fields IH]; intros seen; simpl.
  - intros [= <-]. rewrite app_nil_r. split_and!; [done|done|constructor].
  - destruct (mem f allowed) eqn:Ea; [|done]. cbn [negb]. apply mem_elem in Ea.
    destruct (mem f seen) eqn:Es; [done|]. apply mem_false in Es. intros (-> & H2 & H3)%IH.
    rewrite <- app_assoc. split_and!; [done| |by constructor].
    intros Hs. rewrite <- app_assoc in H2. apply H2. apply list.NoDup_app. split_and!; [done| |apply NoDup_singleton].
    intros x Hx ->%list_elem_of_singleton. done.
Qed.

Lemma check_fields_complete flag allowed seen fields :
  NoDup (seen ++ fields) -> Forall (fun f => f ∈ allowed) fields ->
  check_fields flag allowed seen fields = Ok (seen ++ fields).
Proof.
  intros Hn Hf. revert seen Hn. induction Hf as [|f fields Ha _ IH]; intros seen Hn; simpl.
  - by rewrite app_nil_r.
  - rewrite (proj2 (mem_elem f allowed) Ha). cbn [negb].
    assert (f ∉ seen) as Hs.
    { apply list.NoDup_app in Hn as (_ & Hn & _). intros H. apply (Hn _ H). by left. }
    rewrite (proj2 (mem_false f seen) Hs), IH; rewrite <- app_assoc; done.
Qed.

Lemma evaluateJsonFields_ok o raw fields :
  evaluateJsonFields o raw = Ok fields ->
  match o with
  | Some (opt_json_fields _ allowed d _ _ _) => fields = d \/ Forall (fun f => f ∈ allowed) fields
  | _ => fields = []
  end.
Proof.
  destruct o as [[f1 a1 a2 a3|f1 a1 a2 a3 a4|flag allowed d minItems maxItems label|f1 a1 a2]|];
    cbn [evaluateJsonFields]; [by intros [= <-]|by intros [= <-]| |by intros [= <-]|by intros [= <-]].
  destruct raw as [r|]; [|intros [= <-]; by left].
  destruct r as [| | | | |l|]; [discriminate..| |discriminate].
  destruct l as [|x l]; [intros [= <-]; by left|].
  destruct (all_strings (x :: l)) as [fs|]; [|discriminate].
  destruct (check_fields flag allowed [] fs) as [seen|]; [|discriminate]. unfold mbind, result_bind.
  destruct (_ <? minItems); [discriminate|]. destruct (maxItems <? _); [discriminate|].
  intros [= <-]. right. apply list.Forall_forall. intros f Hf.
  apply list_elem_of_In, filter_In in Hf as [Hf _]. by apply list_elem_of_In.
Qed.

Lemma evaluateInvocation_Ok definition inv n :
  evaluateInvocation definition inv = Ok n ->
  ∃ vs, evaluate_options (options definition) (flags inv) = (vs, n_options n) ∧
    evaluateJsonFields (find_first is_json_fields (options definition)) (output_json_fields inv)
      = Ok (jsonFields n) ∧
    capabilityId n = id definition ∧ parseRepositorySlug (context_repository inv) = Some (repository n).
Proof.
  unfold evaluateInvocation. destruct (evaluate_options _ _) as [vs ordered]. cbv zeta.
  destruct (parseRepositorySlug _) as [repo|]; [|done].
  destruct (evaluateJsonFields _ _) as [fields|v]; cbn [app].
  - destruct (forbidden_violations inv ++ _) as [|]; [|done]. intros [= <-]. by exists vs.
  - destruct (forbidden_violations inv ++ _) as [|] eqn:E; [|done].
    exfalso. apply (f_equal length) in E. rewrite !length_app in E. simpl in E. lia.
Qed.

(** Text without control characters. *)
Definition printable (s : jstr) : bool := negb (existsb is_control s).
Definition printable_option (o : GhOption) : bool :=
  printable (option_flag o) &&
  match o with
  | opt_enum _ values d _ => forallb printable (d :: values)
  | opt_json_fields _ allowed d _ _ _ => forallb printable (allowed ++ d)
  | _ => true
  end.

Lemma printable_app a b : printable (a ++ b) = printable a && printable b.
Proof. unfold printable. rewrite existsb_app. by destruct (existsb _ a), (existsb _ b). Qed.

Lemma printable_forall (p : N -> bool) s :
  (forall c, p c = true -> is_control c = false) -> forallb p s = true -> printable s = true.
Proof.
  intros Hp Hs. unfold printable. apply negb_true_iff, not_true_iff_false.
  rewrite existsb_elem. intros (c & Hc & Hx). rewrite forallb_elem in Hs.
  specialize (Hp _ (Hs _ Hc)). congruence.
Qed.

Lemma digit_printable c : is_digit c = true -> is_control c = false.
Proof. intros H%in_range_spec. unfold is_control. apply orb_false_iff. split; [apply N.ltb_ge|apply N.eqb_neq]; lia. Qed.

Lemma printable_number n : printable (js_of_Z n) = true.
Proof.
  unfold js_of_Z. destruct (n <? 0).
  - change (45%N :: js_of_N (Z.abs_N n)) with ([45%N] ++ js_of_N (Z.abs_N n)). rewrite printable_app.
    cbn. apply (printable_forall is_digit); [apply digit_printable|apply js_of_N_digits].
  - apply (printable_forall is_digit); [apply digit_printable|apply js_of_N_digits].
Qed.

Lemma slug_char_printable c : slug_char c = true -> is_control c = false.
Proof.
  unfold slug_char, is_alnum, is_alpha, is_lower, is_upper, is_digit, is_control.
  rewrite !orb_true_iff, !in_range_spec, !N.eqb_eq. intros H.
  apply orb_false_iff. split; [apply N.ltb_ge|apply N.eqb_neq]; lia.
Qed.

Lemma slug_part_chars s : SLUG_PART s = true -> forallb slug_char s = true.
Proof.
  destruct s as [|c r]; [done|]. simpl. intros [[Hc Hr]%andb_prop _]%andb_prop.
  rewrite Hr, andb_true_r. unfold slug_char. by rewrite Hc.
Qed.

Lemma printable_slug s : SLUG_PART s = true -> printable s = true.
Proof. intros H%slug_part_chars. eapply printable_forall; [apply slug_char_printable|done]. Qed.

Lemma printable_join fs : Forall (fun f => printable f = true) fs -> printable (join (js ",") fs) = true.
Proof.
  induction 1 as [|f fs Hf Hfs IH]; [done|]. destruct fs as [|g fs]; [done|].
  change (join (js ",") (f :: g :: fs)) with (f ++ js "," ++ join (js ",") (g :: fs)).
  by rewrite !printable_app, Hf, IH.
Qed.

Lemma parse_slug_parts raw repo :
  parseRepositorySlug raw = Some repo -> SLUG_PART (owner repo) = true ∧ SLUG_PART (name repo) = true.
Proof.
  unfold parseRepositorySlug. destruct raw as [[]|]; try done.
  destruct (split_char 47 s) as [|o [|n [|]]]; try done.
  destruct (SLUG_PART o) eqn:E1, (SLUG_PART n) eqn:E2; try done. by intros [= <-].
Qed.

Lemma find_entry definition ordered vs raws o f v :
  evaluate_options (options definition) raws = (vs, ordered) ->
  NoDup (map option_flag (options definition)) -> o ∈ options definition ->
  find_first (fun p => jeqb p.1 (option_flag o)) ordered = Some (f, v) -> value_ok o v.
Proof.
  intros He Hn Ho [Hin Hf]%find_first_Some. cbn [fst] in Hf. apply jeqb_eq in Hf. subst f.
  destruct (evaluate_options_values _ _ _ _ He _ _ Hin) as (o' & Ho' & Hf' & Hv).
  assert (o' = o) as ->; [|done].
  apply list_elem_of_lookup in Ho as [i Hi], Ho' as [j Hj].
  assert (map option_flag (options definition) !! i = Some (option_flag o)) as Hi'
    by (by rewrite list_lookup_fmap, Hi).
  assert (map option_flag (options definition) !! j = Some (option_flag o)) as Hj'
    by (by rewrite list_lookup_fmap, Hj; simpl; f_equal).
  assert (i = j) as -> by (eapply NoDup_lookup; done). congruence.
Qed.

(** The items of a command line, each from the definition: a flag, a value of an
    enumeration, a number in range (or the default), allowed fields. *)
Inductive declared (definition : GhCapabilityDefinition) : jstr -> Prop :=
| declared_flag o : o ∈ options definition -> declared definition (option_flag o)
| declared_enum f values d l s :
    opt_enum f values d l ∈ options definition -> s = d \/ s ∈ values -> declared definition s
| declared_int f lo hi d l n :
    opt_int f lo hi d l ∈ options definition -> n = d \/ lo <= n <= hi ->
    declared definition (js_of_Z n)
| declared_fields f allowed d lo hi l fields :
    opt_json_fields f allowed d lo hi l ∈ options definition ->
    fields = d \/ Forall (fun x => x ∈ allowed) fields ->
    declared definition (join (js ",") fields).

Definition printable_definition (definition : GhCapabilityDefinition) : bool :=
  forallb printable (path definition) && forallb printable_option (options definition).

Lemma declared_printable definition x :
  printable_definition definition = true -> declared definition x -> printable x = true.
Proof.
  intros [_ Ho]%andb_prop Hx. rewrite forallb_elem in Ho.
  destruct Hx as [o Hin|f values d l s Hin Hs|f lo hi d l n Hin Hn|f allowed d lo hi l fields Hin Hf];
    specialize (Ho _ Hin); apply andb_prop in Ho as [H1 H2].
  - done.
  - rewrite forallb_elem in H2. apply H2. destruct Hs as [->|Hs]; [by left|by right].
  - apply printable_number.
  - rewrite forallb_elem in H2. apply printable_join, list.Forall_forall. intros y Hy. apply H2, elem_of_app.
    destruct Hf as [->|Hf]; [by right|]. left. rewrite list.Forall_forall in Hf. by apply Hf.
Qed.

Lemma option_args_declared definition n vs raws o :
  evaluate_options (options definition) raws = (vs, n_options n) ->
  NoDup (map option_flag (options definition)) -> o ∈ options definition ->
  ∃ args, option_args n o = Ok args ∧ Forall (declared definition) args.
Proof.
  intros He Hn Ho.
  assert (forall f v, find_first (fun p => jeqb p.1 (option_flag o)) (n_options n) = Some (f, v) -> value_ok o v)
    as Hv by (intros f v; by eapply find_entry).
  assert (declared definition (option_flag o)) as Hflag by by constructor.
  unfold option_args.
  destruct (find_first _ (n_options n)) as [[f v]|].
  2:{ exists []. split; [by destruct o|constructor]. }
  specialize (Hv _ _ eq_refl).
  destruct o as [f' values d l|f' lo hi d l|f' al d lo hi l|f' d l]; cbn [value_ok option_flag] in *.
  - destruct Hv as (s & -> & Hs). eexists. split; [done|]. repeat constructor; [done|].
    by eapply declared_enum.
  - destruct Hv as (z & -> & Hz). eexists. split; [done|]. repeat constructor; [done|].
    by eapply declared_int.
  - done.
  - rewrite Hv. eexists. split; [done|]. by repeat constructor.
Qed.

Lemma options_args_declared definition n vs raws os :
  evaluate_options (options definition) raws = (vs, n_options n) ->
  NoDup (map option_flag (options definition)) -> (forall o, o ∈ os -> o ∈ options definition) ->
  ∃ args, options_args n os = Ok args ∧ Forall (declared definition) args.
Proof.
  intros He Hn. induction os as [|o os IH]; intros Hs; cbn [options_args].
  { by exists []. }
  destruct (option_args_declared definition n vs raws o) as (a & Ea & Ha); [done|done|apply Hs; by left|].
  destruct IH as (b & Eb & Hb); [intros; apply Hs; by right|].
  exists (a ++ b). rewrite Ea, Eb. split; [done|]. by apply list.Forall_app.
Qed.

(** *** Constraints *)

(** When a constraint holds of the flags present. *)
Definition satisfied (present : list (jstr * OptionValue)) (repository host : bool) (c : GhConstraint) : Prop :=
  let is_present f := has present f = true in
  let at_most_one fs := forall i j a b, fs !! i = Some a -> fs !! j = Some b ->
    is_present a -> is_present b -> i = j in
  match c with
  | c_requires f rs => is_present f -> forall r, r ∈ rs -> is_present r
  | c_conflicts fs | c_one_of fs | c_input_source_exclusive fs => at_most_one fs
  | c_exactly_one fs => (∃ f, f ∈ fs ∧ is_present f) ∧ at_most_one fs
  | c_at_least_one fs => ∃ f, f ∈ fs ∧ is_present f
  | c_implies f when_ g =>
    is_present f -> (forall v, when_ = Some v -> value_is present f v = true) -> is_present g
  | c_required_if f wf wv => value_is present wf wv = true -> is_present f
  | c_context_required ctx_repository => repository = true
  | c_context_required ctx_host => host = true
  end.

Lemma filter_at_most_one (p : jstr -> bool) fs :
  (length (List.filter p fs) <= 1)%nat <->
  (forall i j a b, fs !! i = Some a -> fs !! j = Some b -> p a = true -> p b = true -> i = j).
Proof.
  induction fs as [|x fs IH]; cbn [List.filter].
  { split; [intros _ i j a b H; by rewrite lookup_nil in H|intros; simpl; lia]. }
  destruct (p x) eqn:E; cbn [length].
  - split.
    + intros Hl. assert (forall k a, fs !! k = Some a -> p a = true -> False) as Hno.
      { intros k a Hk Ha. assert (a ∈ List.filter p fs) as Hin.
        { apply list_elem_of_In, filter_In. split; [|done]. apply list_elem_of_In.
          by eapply list_elem_of_lookup_2. }
        destruct (List.filter p fs); [by apply elem_of_nil in Hin|simpl in Hl; lia]. }
      intros [|i] [|j] a b Hi Hj Ha Hb; simpl in *; [done|..]; exfalso; eauto.
    + intros H. destruct (List.filter p fs) as [|y r] eqn:Ef; [simpl; lia|].
      assert (y ∈ List.filter p fs) as Hy by (rewrite Ef; by left).
      apply list_elem_of_In, filter_In in Hy as [Hy Hp]. apply list_elem_of_In, list_elem_of_lookup in Hy as [k Hk].
      by specialize (H 0%nat (S k) x y eq_refl Hk E Hp).
  - rewrite IH. split.
    + intros H [|i] [|j] a b Hi Hj Ha Hb; simpl in *; [done|congruence|congruence|].
      f_equal. by eapply H.
    + intros H i j a b Hi Hj Ha Hb. assert (S i = S j) by (by eapply (H (S i) (S j))). lia.
Qed.

Lemma filter_some (p : jstr -> bool) fs :
  (1 <= length (List.filter p fs))%nat <-> ∃ f, f ∈ fs ∧ p f = true.
Proof.
  split.
  - destruct (List.filter p fs) as [|y r] eqn:Ef; [simpl; lia|]. intros _. exists y.
    assert (y ∈ List.filter p fs) as Hy by (rewrite Ef; by left).
    apply list_elem_of_In, filter_In in Hy as [Hy Hp]. split; [|done]. by apply list_elem_of_In.
  - intros (f & Hf & Hp). assert (f ∈ List.filter p fs) as Hin.
    { apply list_elem_of_In, filter_In. split; [|done]. by apply list_elem_of_In. }
    destruct (List.filter p fs); [by apply elem_of_nil in Hin|simpl; lia].
Qed.

Lemma flat_map_nil {A B} (f : A -> list B) l : flat_map f l = [] <-> (forall x, x ∈ l -> f x = []).
Proof.
  induction l as [|x l IH]; simpl.
  - split; [intros _ x Hx; by apply elem_of_nil in Hx|done].
  - split.
    + intros [H1 H2]%app_nil y [->|Hy]%elem_of_cons; [done|]. by apply IH.
    + intros H. rewrite (H x) by (by left). apply IH. intros y Hy. apply H. by right.
Qed.

Lemma if_nil (b : bool) (v : GhConstraintViolation) : (if b then [v] else []) = [] <-> b = false.
Proof. by destruct b. Qed.

Lemma at_most_one_nil (present : list (jstr * OptionValue)) fs (v : GhConstraintViolation) :
  (if (1 <? length (List.filter (has present) fs))%nat then [v] else []) = [] <->
  (forall i j a b, fs !! i = Some a -> fs !! j = Some b ->
     has present a = true -> has present b = true -> i = j).
Proof. rewrite if_nil, Nat.ltb_ge. apply filter_at_most_one. Qed.

Lemma relation_nil present repository host c :
  relation_violations present repository host c = [] <-> satisfied present repository host c.
Proof.
  destruct c as [f rs|fs|fs|fs|fs|f w g|f wf wv|fs|[]]; cbn [relation_violations satisfied]; cbv zeta.
  - destruct (has present f); cbn [negb]; [|by split].
    rewrite flat_map_nil. split; intros H.
    + intros _ r Hr. specialize (H r Hr). apply if_nil, negb_false_iff in H. done.
    + intros r Hr. apply if_nil, negb_false_iff. by apply H.
  - apply at_most_one_nil.
  - apply at_most_one_nil.
  - rewrite if_nil, negb_false_iff, Nat.eqb_eq, <- filter_some, <- filter_at_most_one. lia.
  - rewrite if_nil, negb_false_iff. apply existsb_elem.
  - destruct (has present f) eqn:Ef; cbn [negb]; [|by split].
    destruct w as [w|].
    + destruct (value_is present f w) eqn:Ew; cbn [negb].
      * rewrite if_nil, negb_false_iff. split; [by intros|]. intros H. apply H; [done|]. by intros ? [= <-].
      * split; [|done]. intros _ _ H. specialize (H w eq_refl). congruence.
    + rewrite if_nil, negb_false_iff. split; [by intros|]. intros H. apply H; done.
  - rewrite if_nil. destruct (value_is present wf wv); [|by split]. cbn [andb].
    rewrite negb_false_iff. split; [by intros|]. intros H. by apply H.
  - apply at_most_one_nil.
  - by rewrite if_nil, negb_false_iff.
  - by rewrite if_nil, negb_false_iff.
Qed.

(** ** Theorems *)

(** The constraint evaluator reports nothing exactly when every constraint of the
    capability holds of the flags present: requires, at most one, exactly one, at least
    one, implications with and without a value, conditional requirements, context. *)
Theorem evaluateRelations_sound_complete cs present repository host :
  evaluateRelations cs present repository host = [] <->
  (forall c, c ∈ cs -> satisfied present repository host c).
Proof.
  unfold evaluateRelations. rewrite flat_map_nil.
  split; intros H c Hc; apply relation_nil; by apply H.
Qed.

(** No text of the user reaches the command line: for an accepted request the builder
    succeeds, the line is the path of the command, the repository, whose two parts are
    slugs, then only items the definition declares (flags, enumerated values, numbers in
    range, allowed fields), and no item holds a control character. *)
Theorem argv_declared definition inv n ctx :
  evaluateInvocation definition inv = Ok n ->
  NoDup (map option_flag (options definition)) -> printable_definition definition = true ->
  printable (host ctx) = true -> x_repository ctx = repository n ->
  ∃ args, buildArgv definition n ctx
      = Ok (path definition ++ [js "--repo"; repoArgument ctx] ++ args) ∧
    Forall (declared definition) args ∧
    SLUG_PART (owner (x_repository ctx)) = true ∧ SLUG_PART (name (x_repository ctx)) = true ∧
    Forall (fun x => printable x = true) (path definition ++ [js "--repo"; repoArgument ctx] ++ args).
Proof.
  intros (vs & He & Hj & Hid & [Ho Hna]%parse_slug_parts)%evaluateInvocation_Ok Hn Hp Hh Hr.
  destruct (options_args_declared definition n vs _ (options definition) He Hn) as (args & Ea & Ha); [done|].
  set (json := match find_first is_json_fields (options definition) with
               | Some o => if (0 <? length (jsonFields n))%nat
                           then [option_flag o; join (js ",") (jsonFields n)] else []
               | None => [] end).
  assert (Forall (declared definition) json) as Hjs.
  { unfold json. destruct (find_first is_json_fields _) as [o|] eqn:Ef; [|constructor].
    apply find_first_Some in Ef as [Hin Hjf]. destruct (_ <? _)%nat; [|constructor].
    destruct o as [| |f al d lo hi l|]; try done. apply evaluateJsonFields_ok in Hj.
    apply Forall_cons_2; [by apply declared_flag|].
    apply Forall_cons_2; [by eapply declared_fields|constructor]. }
  assert (Forall (declared definition) (args ++ json)) as Hall by by apply list.Forall_app.
  exists (args ++ json).
  assert (Forall (fun x => printable x = true)
            (path definition ++ [js "--repo"; repoArgument ctx] ++ args ++ json)) as Hpr.
  { apply list.Forall_app. split.
    - apply andb_prop in Hp as [Hp _]. rewrite forallb_elem in Hp. by apply list.Forall_forall.
    - constructor; [done|]. constructor.
      + unfold repoArgument. rewrite Hr, !printable_app, Hh, (printable_slug _ Ho), (printable_slug _ Hna). reflexivity.
      + eapply List.Forall_impl; [|exact Hall]. intros x. by apply declared_printable. }
  rewrite Hr. split_and!; [|done..].
  unfold buildArgv. rewrite Hid, Hr, !jeqb_refl. cbn [negb orb]. rewrite Ea. unfold mbind, result_bind.
  fold json. cbv zeta. destruct (existsb (existsb is_control) _) eqn:Ec; [|done].
  exfalso. apply existsb_elem in Ec as (x & Hx & Hc). rewrite list.Forall_forall in Hpr.
  specialize (Hpr x Hx). unfold printable in Hpr. by rewrite Hc in Hpr.
Qed.

Definition pr_list : GhCapabilityDefinition :=
  mkDefinition (js "pr.list") [js "pr"; js "list"]
    [opt_enum (js "--state") [js "open"; js "closed"; js "all"] (js "open") (js "State");
     opt_int (js "--limit") 1 100 30 (js "Limit");
     opt_bool (js "--draft") false (js "Draft");
     opt_json_fields (js "--json") [js "number"; js "title"; js "url"] [js "number"] 1 3 (js "Fields")]
    [c_context_required ctx_repository].
Definition list_request : GhInvocation :=
  mkInvocation (Some (JStr (js "acme/widgets"))) [(js "--limit", JStr (js "50")); (js "--draft", JBool true)]
    (Some (JArr [JStr (js "url"); JStr (js "number")])) [].
Definition list_normalized : GhNormalizedInvocation :=
  mkNormalized (js "pr.list") (mkSlug (js "acme") (js "widgets"))
    [(js "--state", VStr (js "open")); (js "--limit", VNum 50); (js "--draft", VBool true)]
    [js "number"; js "url"].
Definition list_context : GhExecutionContext := mkContext (js "ghe.example.com") (mkSlug (js "acme") (js "widgets")).

Lemma argv_declared_witness :
  ∃ args, buildArgv pr_list list_normalized list_context
      = Ok ([js "pr"; js "list"] ++ [js "--repo"; js "ghe.example.com/acme/widgets"] ++ args) ∧
    Forall (declared pr_list) args.
Proof.
  destruct (argv_declared pr_list list_request list_normalized list_context) as (args & H1 & H2 & _).
  - vm_compute. reflexivity.
  - apply (bool_decide_unpack _). vm_compute. exact I.
  - vm_compute. reflexivity.
  - vm_compute. reflexivity.
  - reflexivity.
  - exists args. split; [exact H1|exact H2].
Defined.
Example argv_ex : buildArgv pr_list list_normalized list_context =
  Ok [js "pr"; js "list"; js "--repo"; js "ghe.example.com/acme/widgets"; js "--state"; js "open";
      js "--limit"; js "50"; js "--draft"; js "--json"; js "number,url"].
Proof. vm_compute. reflexivity. Qed.

(** Field selections are canonical: a selection of distinct allowed fields within the
    limits is accepted and gives those fields in the order of the definition, so two
    requests that select the same fields in any order give the same command line. *)
Theorem json_fields_canonical flag allowed d lo hi l fields fields' :
  Permutation fields fields' -> NoDup fields -> Forall (fun f => f ∈ allowed) fields -> fields <> [] ->
  lo <= Z.of_nat (length fields) <= hi ->
  let o := Some (opt_json_fields flag allowed d lo hi l) in
  evaluateJsonFields o (Some (JArr (map JStr fields)))
    = Ok (List.filter (fun f => mem f fields) allowed) ∧
  evaluateJsonFields o (Some (JArr (map JStr fields'))) = evaluateJsonFields o (Some (JArr (map JStr fields))).
Proof.
  intros Hperm Hn Ha Hne Hl o.
  assert (forall fs, NoDup fs -> Forall (fun f => f ∈ allowed) fs -> fs <> [] ->
    lo <= Z.of_nat (length fs) <= hi ->
    evaluateJsonFields o (Some (JArr (map JStr fs))) = Ok (List.filter (fun f => mem f fs) allowed)) as H.
  { clear. intros fs Hn Ha Hne Hl. unfold o, evaluateJsonFields.
    assert (all_strings (map JStr fs) = Some fs) as Hs.
    { clear. induction fs as [|f fs IH]; [done|]. simpl. by rewrite IH. }
    rewrite Hs. destruct fs as [|f fs]; [done|]. cbn [map].
    rewrite (check_fields_complete flag allowed [] (f :: fs)) by done. unfold mbind, result_bind. cbn [app].
    rewrite (proj2 (Z.ltb_ge _ _)) by lia. by rewrite (proj2 (Z.ltb_ge _ _)) by lia. }
  rewrite !H; try done.
  - split; [done|]. f_equal. apply filter_ext. intros f. unfold mem. apply Bool.eq_iff_eq_true.
    rewrite !existsb_elem. split; intros (x & Hx & E); exists x; split; try done; by rewrite Hperm in *.
  - by rewrite <- Hperm.
  - rewrite <- Hperm. done.
  - intros ->. apply Permutation_nil_r in Hperm. done.
  - by rewrite <- (Permutation_length Hperm).
Qed.
Lemma json_fields_canonical_witness :
  evaluateJsonFields (Some (opt_json_fields (js "--json") [js "number"; js "title"; js "url"] [js "number"] 1 3 []))
    (Some (JArr (map JStr [js "url"; js "number"]))) = Ok [js "number"; js "url"].
Proof.
  refine (proj1 (json_fields_canonical (js "--json") [js "number"; js "title"; js "url"] [js "number"] 1 3 []
    [js "url"; js "number"] [js "number"; js "url"] _ _ _ _ _)).
  - apply perm_swap.
  - apply (bool_decide_unpack _). vm_compute. exact I.
  - repeat constructor; apply mem_elem; vm_compute; reflexivity.
  - discriminate.
  - vm_compute. split; discriminate.
Defined.
