(* ===== verification/TagDecision.v ===== *)
(** * Tags of M numbers

    [packages/github-tag/src/decision.ts]: which tag a merged commit must have, and what to
    do given what the remote holds. *)

From stdpp Require Import base list option strings numbers.
From Stdlib Require Import ZArith Lia.
From S2P Require Import Prelude JsString MergeNumber.
Open Scope Z_scope.

Inductive TagTarget : Set :=
| target (name sha : jstr)
| code_unavailable (reason : RepositoryCodeOutcome).

Definition resolveTagTarget (repositoryName : jstr) (mergeNumber : Z) (commitSha : jstr)
  : result MergeNumberError TagTarget :=
  match repositoryCodeOf repositoryName with
  | code_of code =>
    name ← formatMergeNumber code mergeNumber; Ok (target name (ascii_lower commitSha))
  | reason => Ok (code_unavailable reason)
  end.

Inductive RefLookup : Set := missing | found (sha objectType : jstr).

Inductive TagDecision : Set :=
| create
| already_done
| conflict (foundSha objectType : jstr).

Definition decideTagAction (expectedSha : jstr) (lookup : RefLookup) : TagDecision :=
  match lookup with
  | missing => create
  | found sha objectType =>
    let same := jeqb objectType (js "commit") && jeqb (ascii_lower sha) (ascii_lower expectedSha) in
    if same then already_done else conflict (ascii_lower sha) objectType
  end.

Definition mergeNumberOfTagName (code name : jstr) : option Z :=
  let prefix := js "M-" ++ code ++ js "-" in
  if negb (starts_with prefix name) then None
  else
    let digits := drop (length prefix) name in
    if negb (match digits with c :: r => in_range 49 57 c && forallb is_digit r | [] => false end)
       || (16 <? length digits)%nat
    then None
    else let value := num_of_digits digits in
         if is_safe_integer value then Some value else None.

(** The remote after acting on the decision: only [create] writes, a lightweight tag. *)
Definition act (expectedSha : jstr) (remote : RefLookup) : RefLookup :=
  match decideTagAction expectedSha remote with
  | create => found expectedSha (js "commit")
  | _ => remote
  end.

(** ** Theorems *)

(** A tag is created at most once and never moved: acting leaves an existing tag as it
    is, acting again changes nothing, after acting on a free name the decision is
    [already_done], and [already_done] means a lightweight tag of the expected commit;
    anything else that exists is a conflict. *)
Theorem tag_never_moved expected remote :
  (forall sha ty, remote = found sha ty -> act expected remote = remote) ∧
  act expected (act expected remote) = act expected remote ∧
  decideTagAction expected (act expected missing) = already_done ∧
  (decideTagAction expected remote = already_done <->
   ∃ sha, remote = found sha (js "commit") ∧ ascii_lower sha = ascii_lower expected) ∧
  (forall other, ascii_lower other <> ascii_lower expected ->
     decideTagAction other (act expected missing) = conflict (ascii_lower expected) (js "commit")).
Proof.
  unfold act, decideTagAction. destruct remote as [|sha ty]; cbv zeta.
  - split_and!; [done| |by rewrite !jeqb_refl| |].
    + by rewrite !jeqb_refl.
    + split; [done|]. by intros (? & ? & ?).
    + intros other Ho. rewrite (proj2 (jeqb_neq (ascii_lower expected) (ascii_lower other))) by done. done.
  - destruct (jeqb ty (js "commit") && jeqb (ascii_lower sha) (ascii_lower expected)) eqn:E;
      cbn match; rewrite ?E; split_and!; try done.
    + by rewrite !jeqb_refl.
    + split; [|done]. intros _. apply andb_prop in E as [->%jeqb_eq ?%jeqb_eq]. by exists sha.
    + intros other Ho. rewrite (proj2 (jeqb_neq (ascii_lower expected) (ascii_lower other))) by done. done.
    + by rewrite !jeqb_refl.
    + split; [done|]. intros (s & [= <- ->] & Hs). rewrite jeqb_refl in E.
      apply jeqb_neq in E. done.
    + intros other Ho. rewrite (proj2 (jeqb_neq (ascii_lower expected) (ascii_lower other))) by done. done.
Qed.

(** Tag names read back: the number of a name under a code is [n] exactly when the name
    is the printed M number of that code and [n], for [n] from 1 to the largest M number;
    so names of other codes or forms are skipped. *)
Theorem tag_name_round_trip code name n :
  all1 is_digit code = true ->
  mergeNumberOfTagName code name = Some n <-> formatMergeNumber code n = Ok name.
Proof.
  intros Hc. unfold mergeNumberOfTagName, formatMergeNumber. cbv zeta. rewrite Hc. cbn [negb].
  set (prefix := js "M-" ++ code ++ js "-").
  assert (forall d, js "M-" ++ code ++ js "-" ++ d = prefix ++ d) as Hp
    by (intros d; unfold prefix; by rewrite <- !app_assoc).
  rewrite Hp. split.
  - destruct (starts_with prefix name) eqn:Es; [|done]. cbn [negb].
    apply starts_with_spec in Es as [d ->]. rewrite drop_app_length.
    destruct d as [|c r]; [done|]. destruct (in_range 49 57 c && forallb is_digit r) eqn:Ed; [|done].
    cbn [negb orb]. destruct (16 <? length (c :: r))%nat; [done|].
    destruct (is_safe_integer (num_of_digits (c :: r))) eqn:Ei; [|done]. intros [= <-].
    apply andb_prop in Ed as [H1 H2]. apply in_range_spec in H1.
    assert (forallb is_digit (c :: r) = true) as Hd.
    { simpl. rewrite H2, andb_true_r. apply in_range_spec. lia. }
    assert (js_of_N (Z.to_N (num_of_digits (c :: r))) = c :: r) as Hpr by (apply js_of_N_of_digits; [done|lia]).
    assert (0 <= num_of_digits (c :: r)) as Hnn by by apply num_of_digits_nonneg.
    assert (num_of_digits (c :: r) <> 0) as Hnz.
    { intros E. rewrite E in Hpr. injection Hpr as Hc0 _. lia. }
    rewrite Ei. cbn [negb orb]. rewrite (proj2 (Z.ltb_ge _ _)) by lia.
    by rewrite js_of_Z_nonneg, Hpr.
  - destruct (is_safe_integer n) eqn:Ei; [|done]. cbn [negb orb].
    destruct (n <? 1) eqn:E1; [done|]. bool_to_prop. intros H. assert (name = prefix ++ js_of_Z n) as -> by congruence.
    rewrite starts_with_app, drop_app_length. cbn [negb].
    destruct (js_of_Z_pos_shape n) as (c & r & E & H1 & H2); [lia|].
    pose proof Ei as Ei'. apply is_safe_integer_spec in Ei'. unfold MAX_SAFE_INTEGER in Ei'.
    pose proof (js_of_Z_length n ltac:(lia) ltac:(lia)) as Hl. rewrite E in Hl |- *.
    rewrite H1, H2. cbn [negb orb andb]. rewrite (proj2 (Nat.ltb_ge _ _) Hl).
    rewrite <- E, num_of_js_of_Z by lia. by rewrite Ei.
Qed.
Lemma tag_name_round_trip_witness :
  mergeNumberOfTagName (js "1900") (js "M-1900-1450") = Some 1450.
Proof. apply (tag_name_round_trip (js "1900") (js "M-1900-1450") 1450 eq_refl). vm_compute. reflexivity. Defined.
