(* ===== verification/Roles.v ===== *)
(** * Roles

    [packages/authz/src/roles.ts]: which roles the groups of the identity provider and the
    assignments of an administrator give. *)

From stdpp Require Import base list option strings numbers sets.
From Stdlib Require Import ZArith Lia.
From S2P Require Import Prelude JsString Json.
Open Scope nat_scope.

Inductive Role : Set := developer | release_manager | manager | qa | operator | security_officer.
#[export] Instance Role_eq_dec : EqDecision Role.
Proof. solve_decision. Defined.

Definition ROLES : list Role := [developer; release_manager; manager; qa; operator; security_officer].
Definition role_name (r : Role) : jstr :=
  match r with
  | developer => js "developer" | release_manager => js "release_manager" | manager => js "manager"
  | qa => js "qa" | operator => js "operator" | security_officer => js "security_officer"
  end.

Definition DEFAULT_ROLE : Role := developer.

(** The narrowing of [value is Role] gives the role itself. *)
Definition isRole (value : jstr) : option Role := find_first (fun r => jeqb (role_name r) value) ROLES.

Definition IDP_ASSIGNABLE_ROLES : list Role := [manager; qa].
Definition ADMIN_ASSIGNED_ROLES : list Role := [release_manager; operator; security_officer].

(** A [Map] from group to role, the latest [set] first. *)
Definition GroupRoleMap : Set := list (jstr * Role).

(** One pair of the configuration; [None] is a blank one. *)
Definition parse_pair (pair : jstr) : result jstr (option (jstr * Role)) :=
  let trimmed := trim pair in
  if jeqb trimmed [] then Ok None
  else
    let bad := Err (js "IdP 그룹 매핑 형식이 잘못됐다: '" ++ trimmed ++ js "' (기대: 'group:role')") in
    match last_index_of_char 58 trimmed with
    | None => bad
    | Some separator =>
      if (separator =? 0) || (separator =? length trimmed - 1) then bad
      else
        let group := trim (take separator trimmed) in
        let role := trim (drop (S separator) trimmed) in
        match isRole role with
        | None => Err (js "'" ++ role ++ js "'는 역할이 아니다. 보안 문서 5.1의 여섯 중 하나여야 한다")
        | Some r =>
          if bool_decide (r ∈ IDP_ASSIGNABLE_ROLES) then Ok (Some (group, r))
          else Err (js "'" ++ role ++ js "'는 IdP 그룹으로 부여할 수 없다 (CR-015, DEV-049). "
                    ++ js "IdP가 부여할 수 있는 역할: "
                    ++ join (js ", ") (map role_name IDP_ASSIGNABLE_ROLES))
        end
    end.

Fixpoint parse_pairs (m : GroupRoleMap) (pairs : list jstr) : result jstr GroupRoleMap :=
  match pairs with
  | [] => Ok m
  | p :: pairs =>
    e ← parse_pair p;
    match e with
    | None => parse_pairs m pairs
    | Some entry => parse_pairs (entry :: m) pairs
    end
  end.

Definition parseGroupRoleMap (raw : option jstr) : result jstr GroupRoleMap :=
  match raw with
  | None => Ok []
  | Some raw => if jeqb (trim raw) [] then Ok [] else parse_pairs [] (split_char 44 raw)
  end.

Definition in_roles (set : list Role) (r : Role) : bool := bool_decide (r ∈ set).

Definition composeRoles (groups assigned : list jstr) (groupMap : GroupRoleMap) : list Role :=
  let from_groups := omap (fun g => assoc g groupMap) groups in
  let from_admin := omap isRole assigned in
  List.filter (in_roles (DEFAULT_ROLE :: from_groups ++ from_admin)) ROLES.

Definition withAssignedRoles (sessionRoles assigned : list jstr) : list Role :=
  List.filter (in_roles (DEFAULT_ROLE :: omap isRole (sessionRoles ++ assigned))) ROLES.

Definition hasRole (roles : list jstr) (required : Role) : bool := mem (role_name required) roles.

(** ** Lemmas *)

Lemma role_name_inj r r' : role_name r = role_name r' -> r = r'.
Proof. by destruct r, r'. Qed.

Lemma isRole_spec value r : isRole value = Some r <-> value = role_name r.
Proof.
  unfold isRole. split.
  - by intros [_ <-%jeqb_eq]%find_first_Some.
  - intros ->. destruct (find_first _ ROLES) as [x|] eqn:E.
    + apply find_first_Some in E as [_ E%jeqb_eq]. f_equal. by apply role_name_inj.
    + rewrite find_first_None in E. specialize (E r). rewrite jeqb_refl in E.
      assert (r ∈ ROLES) as Hr by (destruct r; unfold ROLES; set_solver). by apply E in Hr.
Qed.

Lemma filter_roles set r : r ∈ List.filter (in_roles set) ROLES <-> r ∈ set.
Proof.
  unfold in_roles. rewrite list_elem_of_In, filter_In, <- list_elem_of_In, bool_decide_eq_true.
  split; [by intros [_ ?]|]. intros H. split; [|done]. destruct r; unfold ROLES; set_solver.
Qed.

Definition idp_only (m : GroupRoleMap) : Prop := Forall (fun e => e.2 ∈ IDP_ASSIGNABLE_ROLES) m.

Lemma parse_pairs_idp m pairs m' : parse_pairs m pairs = Ok m' -> idp_only m -> idp_only m'.
Proof.
  revert m. induction pairs as [|p pairs IH]; intros m; cbn [parse_pairs]; [by intros [= <-]|].
  destruct (parse_pair p) as [[entry|]|] eqn:E; [|apply IH|discriminate].
  unfold mbind, result_bind. intros H Hm. apply (IH _ H). constructor; [|done].
  unfold parse_pair in E. cbv zeta in E. destruct (jeqb _ _); [discriminate|].
  destruct (last_index_of_char _ _); [|discriminate]. destruct (_ || _); [discriminate|].
  destruct (isRole _) as [r|]; [|discriminate].
  destruct (bool_decide _) eqn:Eb; [|discriminate]. injection E as <-. by bool_to_prop.
Qed.

Lemma assoc_elem {A} k (l : list (jstr * A)) v : assoc k l = Some v -> (k, v) ∈ l.
Proof.
  induction l as [|[k' v'] l IH]; simpl; [done|]. destruct (jeqb k' k) eqn:E.
  - apply jeqb_eq in E as ->. intros [= ->]. by left.
  - intros H. right. by apply IH.
Qed.

(** ** Theorems *)

(** Separation of privilege: with any accepted configuration and whatever groups the
    identity provider claims, a role other than the default is granted by a group only if
    it is [manager] or [qa]; every other role comes from an administrator's assignment. *)
Theorem idp_grants_limited raw m groups assigned r :
  parseGroupRoleMap raw = Ok m ->
  r ∈ composeRoles groups assigned m ->
  r = DEFAULT_ROLE \/ role_name r ∈ assigned \/
  (r ∈ IDP_ASSIGNABLE_ROLES ∧ ∃ g, g ∈ groups ∧ assoc g m = Some r).
Proof.
  intros Hm Hr. assert (idp_only m) as Hi.
  { unfold parseGroupRoleMap in Hm. destruct raw as [raw|]; [|injection Hm as <-; constructor].
    destruct (jeqb _ _); [injection Hm as <-; constructor|]. eapply parse_pairs_idp; [done|constructor]. }
  unfold composeRoles in Hr. rewrite filter_roles in Hr. apply elem_of_cons in Hr as [->|Hr]; [by left|].
  apply elem_of_app in Hr as [(g & Hg & Hgr)%list_elem_of_omap|(a & Ha & ->%isRole_spec)%list_elem_of_omap];
    [|by right; left].
  right. right. split; [|by exists g]. apply assoc_elem in Hgr.
  unfold idp_only in Hi. rewrite list.Forall_forall in Hi. by apply (Hi (g, r)).
Qed.
Lemma idp_grants_limited_witness :
  qa = DEFAULT_ROLE \/ role_name qa ∈ [js "operator"] \/
  (qa ∈ IDP_ASSIGNABLE_ROLES ∧ ∃ g, g ∈ [js "qa-team"] ∧ assoc g [(js "qa-team", qa)] = Some qa).
Proof.
  apply (idp_grants_limited (Some (js "qa-team:qa")) [(js "qa-team", qa)] [js "qa-team"] [js "operator"] qa).
  - vm_compute. reflexivity.
  - apply (bool_decide_unpack _). vm_compute. exact I.
Defined.

(** The union is made either way: adding the assignments when the session is read gives
    the roles that composing them at login would have, whatever the order of the claims;
    the default role is always there and no string that is not a role becomes one. *)
Theorem assigned_later_same groups assigned m :
  withAssignedRoles (map role_name (composeRoles groups [] m)) assigned = composeRoles groups assigned m ∧
  DEFAULT_ROLE ∈ composeRoles groups assigned m.
Proof.
  split; [|unfold composeRoles; rewrite filter_roles; by left].
  unfold withAssignedRoles. unfold composeRoles at 2. apply List.filter_ext. intros r.
  unfold in_roles. apply bool_decide_ext.
  rewrite omap_app, !elem_of_cons, !elem_of_app, !list_elem_of_omap.
  assert ((∃ x, x ∈ map role_name (composeRoles groups [] m) ∧ isRole x = Some r) <->
          r = DEFAULT_ROLE \/ ∃ g, g ∈ groups ∧ assoc g m = Some r) as H.
  { transitivity (r ∈ composeRoles groups [] m).
    - split.
      + intros (x & (r' & -> & Hr)%list_elem_of_fmap & Hx%isRole_spec). by apply role_name_inj in Hx as <-.
      + intros Hr. exists (role_name r). split; [by apply list_elem_of_fmap_2|by apply isRole_spec].
    - unfold composeRoles. rewrite filter_roles, elem_of_cons, elem_of_app, list_elem_of_omap.
      cbn [omap]. rewrite elem_of_nil. tauto. }
  rewrite H. tauto.
Qed.
