(* ===== verification/ResourceRef.v ===== *)
(** * Typed references between commands

    [packages/gh-cli/src/resource-ref.ts]: what identifies a resource of each kind, the
    validation of a value as a reference, and the reading of a URL printed by [gh].  A
    value is JSON; [new URL] and [toLowerCase] are parameters. *)

From stdpp Require Import base list option strings numbers sets.
From Stdlib Require Import ZArith Lia.
From S2P Require Import Prelude JsString Json GhInvocation.
Open Scope Z_scope.

Inductive GhResourceKind : Set :=
| k_repository | k_pull_request | k_issue | k_discussion | k_workflow | k_workflow_run | k_release
| k_project | k_codespace | k_artifact | k_gist | k_user | k_team | k_branch | k_commit.
#[export] Instance GhResourceKind_eq_dec : EqDecision GhResourceKind.
Proof. solve_decision. Defined.

Definition kind_name (k : GhResourceKind) : jstr :=
  match k with
  | k_repository => js "repository" | k_pull_request => js "pull_request" | k_issue => js "issue"
  | k_discussion => js "discussion" | k_workflow => js "workflow"
  | k_workflow_run => js "workflow_run" | k_release => js "release" | k_project => js "project"
  | k_codespace => js "codespace" | k_artifact => js "artifact" | k_gist => js "gist"
  | k_user => js "user" | k_team => js "team" | k_branch => js "branch" | k_commit => js "commit"
  end.
Definition RESOURCE_KINDS : list GhResourceKind :=
  [k_repository; k_pull_request; k_issue; k_discussion; k_workflow; k_workflow_run; k_release;
   k_project; k_codespace; k_artifact; k_gist; k_user; k_team; k_branch; k_commit].
Definition kind_of_name (s : jstr) : option GhResourceKind :=
  find_first (fun k => jeqb (kind_name k) s) RESOURCE_KINDS.

Definition REPOSITORY_SCOPED_KINDS : list GhResourceKind :=
  [k_pull_request; k_issue; k_discussion; k_workflow; k_workflow_run; k_release; k_branch; k_commit].
Definition IDENTIFIABLE_KINDS : list GhResourceKind :=
  [k_repository; k_pull_request; k_issue; k_discussion; k_workflow; k_workflow_run; k_release;
   k_codespace; k_branch; k_commit].
Definition kind_in (k : GhResourceKind) (l : list GhResourceKind) : bool := bool_decide (k ∈ l).

Definition scoped_kind (k : GhResourceKind) : bool :=
  kind_in k REPOSITORY_SCOPED_KINDS || bool_decide (k = k_repository).

Record GhResourceRef : Set := mkRef {
  r_host : jstr; r_kind : GhResourceKind; r_repository : option jstr;
  r_id : option jstr; r_number : option Z; r_ref : option jstr
}.
#[export] Instance GhResourceRef_eq_dec : EqDecision GhResourceRef.
Proof. solve_decision. Defined.

(** ** Formats *)

Definition host_char (c : N) : bool := is_alnum c || (c =? 46)%N || (c =? 45)%N.
Definition host_name (s : jstr) : bool :=
  match s with
  | c :: r => is_alnum c && forallb host_char r && (length r <=? 252)%nat
  | [] => false
  end.
(** The name holds no colon, so the port, when there is one, follows the first. *)
Definition HOST (s : jstr) : bool :=
  match split_char 58 s with
  | [h] => host_name h
  | [h; p] => host_name h && all1 is_digit p && (length p <=? 5)%nat
  | _ => false
  end.
Definition POSITIVE_DECIMAL (s : jstr) : bool :=
  match s with
  | c :: r => in_range 49 57 c && forallb is_digit r && (length r <=? 15)%nat
  | [] => false
  end.
Definition COMMIT_SHA (s : jstr) : bool :=
  ((length s =? 40)%nat || (length s =? 64)%nat) && forallb is_hex_lower s.
(** The characters of a surrogate pair are neither controls nor spaces, so the loop on
    code points is one on code units. *)
Definition isSafeName (s : jstr) : bool :=
  negb (length s =? 0)%nat && negb (255 <? length s)%nat && negb (starts_with (js "-") s)
  && forallb (fun c => negb ((c <=? 32)%N || (c =? 127)%N || is_space c)) s.

Definition REF_KEYS : list jstr :=
  [js "host"; js "id"; js "kind"; js "number"; js "ref"; js "repository"].

(** [sort()] of strings: by code units. *)
Fixpoint jle (a b : jstr) : bool :=
  match a, b with
  | [], _ => true
  | _, [] => false
  | x :: a, y :: b => (x <? y)%N || ((x =? y)%N && jle a b)
  end.
Fixpoint insert_string (x : jstr) (l : list jstr) : list jstr :=
  match l with
  | [] => [x]
  | y :: l => if jle x y then x :: y :: l else y :: insert_string x l
  end.
Definition sort_strings (l : list jstr) : list jstr := foldr insert_string [] l.

Definition upper_char (c : N) : N := if is_lower c then (c - 32)%N else c.
Definition refTypeName (k : GhResourceKind) : jstr :=
  concat (map (fun part => match part with c :: r => upper_char c :: r | [] => [] end)
            (split_char 95 (kind_name k))) ++ js "Ref".

(** ** Validation *)

Inductive GhRefProblem : Set :=
| p_shape | p_host | p_kind | p_kind_mismatch | p_kind_without_identity_rule | p_repository
| p_number | p_id | p_ref | p_unexpected_identity.
Definition problem_name (p : GhRefProblem) : jstr :=
  match p with
  | p_shape => js "shape" | p_host => js "host" | p_kind => js "kind"
  | p_kind_mismatch => js "kind_mismatch"
  | p_kind_without_identity_rule => js "kind_without_identity_rule"
  | p_repository => js "repository" | p_number => js "number" | p_id => js "id" | p_ref => js "ref"
  | p_unexpected_identity => js "unexpected_identity"
  end.

Definition is_null (v : option json) : bool := match v with Some JNull => true | _ => false end.
Definition text_or_null (v : option json) : option jstr := as_string v.
Definition number_or_null (v : option json) : option Z :=
  match v with Some (JNum n) => Some n | _ => None end.
Definition string_with (p : jstr -> bool) (v : option json) : bool :=
  match v with Some (JStr s) => p s | _ => false end.

(** The [switch]: the identity a kind demands, the others [null]. *)
Definition identity_problem (k : GhResourceKind) (id number ref : option json) : option GhRefProblem :=
  let positiveNumber := match number with
                        | Some (JNum n) => is_safe_integer n && (0 <? n)
                        | _ => false
                        end in
  match k with
  | k_pull_request | k_issue | k_discussion =>
    if negb positiveNumber then Some p_number
    else if negb (is_null id) || negb (is_null ref) then Some p_unexpected_identity else None
  | k_workflow_run | k_workflow =>
    if negb (string_with POSITIVE_DECIMAL id) then Some p_id
    else if negb (is_null number) || negb (is_null ref) then Some p_unexpected_identity else None
  | k_release | k_branch =>
    if negb (string_with isSafeName ref) then Some p_ref
    else if negb (is_null number) || negb (is_null id) then Some p_unexpected_identity else None
  | k_commit =>
    if negb (string_with COMMIT_SHA ref) then Some p_ref
    else if negb (is_null number) || negb (is_null id) then Some p_unexpected_identity else None
  | k_repository =>
    if negb (is_null id) || negb (is_null number) || negb (is_null ref) then Some p_unexpected_identity
    else None
  | k_codespace =>
    if negb (string_with isSafeName id) then Some p_id
    else if negb (is_null number) || negb (is_null ref) then Some p_unexpected_identity else None
  | _ => Some p_kind_without_identity_rule
  end.

Definition validateResourceRef (value : json) (expected : option GhResourceKind)
  : result GhRefProblem GhResourceRef :=
  match value with
  | JObj fields =>
    if negb (bool_decide (sort_strings (map fst fields) = REF_KEYS)) then Err p_shape
    else
      let get k := assoc (js k) fields in
      let repository := get "repository" in
      match get "host" with
      | Some (JStr h) =>
        if negb (HOST h) then Err p_host
        else match (match get "kind" with Some (JStr s) => kind_of_name s | _ => None end) with
        | None => Err p_kind
        | Some k =>
          if match expected with Some e => negb (bool_decide (k = e)) | None => false end
          then Err p_kind_mismatch
          else if negb (kind_in k IDENTIFIABLE_KINDS) then Err p_kind_without_identity_rule
          else
            let repositoryOk := bool_decide (is_Some (parseRepositorySlug repository)) in
            let scoped := scoped_kind k in
            if scoped && negb repositoryOk then Err p_repository
            else if negb scoped && negb (is_null repository) && negb repositoryOk then Err p_repository
            else match identity_problem k (get "id") (get "number") (get "ref") with
                 | Some p => Err p
                 | None => Ok (mkRef h k (text_or_null repository) (text_or_null (get "id"))
                                 (number_or_null (get "number")) (text_or_null (get "ref")))
                 end
        end
      | _ => Err p_host
      end
  | _ => Err p_shape
  end.

(** ** URLs in the output *)

Definition slugOf (s : RepositorySlug) : jstr := owner s ++ js "/" ++ name s.

Record parsed_url : Set := mkUrl {
  u_protocol : jstr; u_username : jstr; u_password : jstr; u_search : jstr; u_hash : jstr;
  u_host : jstr; u_pathname : jstr
}.
Record GhRefContext : Set := mkRefContext { c_host : jstr; c_repository : option RepositorySlug }.

Inductive GhUrlGrammar : Set := g_pull_request | g_issue | g_discussion | g_repository.
Definition grammar_kind (g : GhUrlGrammar) : GhResourceKind :=
  match g with
  | g_pull_request => k_pull_request | g_issue => k_issue | g_discussion => k_discussion
  | g_repository => k_repository
  end.
Definition grammar_word (g : GhUrlGrammar) : option jstr :=
  match g with
  | g_pull_request => Some (js "pull") | g_issue => Some (js "issues")
  | g_discussion => Some (js "discussions") | g_repository => None
  end.
(** [URL_GRAMMARS[g].pattern.exec(pathname)]: owner, name, digits. *)
Definition URL_GRAMMARS (g : GhUrlGrammar) (pathname : jstr) : option (jstr * jstr * option jstr) :=
  match split_char 47 pathname, grammar_word g with
  | [[]; o; n], None => if negb (jeqb o []) && negb (jeqb n []) then Some (o, n, None) else None
  | [[]; o; n; w; d], Some word =>
    if negb (jeqb o []) && negb (jeqb n []) && jeqb w word && POSITIVE_DECIMAL d
    then Some (o, n, Some d) else None
  | _, _ => None
  end.

Inductive GhUrlRefProblem : Set :=
| u_not_a_url | u_scheme | u_credentials | u_query_or_fragment | u_host_mismatch | u_grammar
| u_repository_missing | u_repository_mismatch.
Inductive repository_source : Set := from_execution_context | from_url.

(** A reference as the object the other modules see. *)
Definition opt_text (o : option jstr) : json := match o with Some s => JStr s | None => JNull end.
Definition opt_number (o : option Z) : json := match o with Some n => JNum n | None => JNull end.
Definition ref_fields (r : GhResourceRef) : list (jstr * json) :=
  [(js "host", JStr (r_host r)); (js "kind", JStr (kind_name (r_kind r)));
   (js "repository", opt_text (r_repository r)); (js "id", opt_text (r_id r));
   (js "number", opt_number (r_number r)); (js "ref", opt_text (r_ref r))].
Definition ref_json (r : GhResourceRef) : json := JObj (ref_fields r).

Section url.
Context (url : jstr -> option parsed_url) (toLowerCase : jstr -> jstr).

Definition sameSlug (left right : RepositorySlug) : bool :=
  jeqb (toLowerCase (owner left)) (toLowerCase (owner right))
  && jeqb (toLowerCase (name left)) (toLowerCase (name right)).

Definition refFromOutputUrl (raw : jstr) (grammar : GhUrlGrammar) (context : GhRefContext)
    (source : repository_source) : result GhUrlRefProblem GhResourceRef :=
  match url raw with
  | None => Err u_not_a_url
  | Some u =>
    if negb (jeqb (u_protocol u) (js "https:")) && negb (jeqb (u_protocol u) (js "http:")) then Err u_scheme
    else if negb (jeqb (u_username u) []) || negb (jeqb (u_password u) []) then Err u_credentials
    else if negb (jeqb (u_search u) []) || negb (jeqb (u_hash u) []) || includes (js "#") raw
            || includes (js "?") raw then Err u_query_or_fragment
    else if negb (jeqb (toLowerCase (u_host u)) (toLowerCase (c_host context))) then Err u_host_mismatch
    else match URL_GRAMMARS grammar (u_pathname u) with
    | None => Err u_grammar
    | Some (o, n, digits) =>
      match parseRepositorySlug (Some (JStr (o ++ js "/" ++ n))) with
      | None => Err u_grammar
      | Some fromUrl =>
        repository ← match source with
                     | from_execution_context =>
                       match c_repository context with
                       | None => Err u_repository_missing
                       | Some c => if negb (sameSlug fromUrl c) then Err u_repository_mismatch else Ok c
                       end
                     | from_url => Ok fromUrl
                     end;
        let candidate := mkRef (c_host context) (grammar_kind grammar) (Some (slugOf repository)) None
                           (num_of_digits <$> digits) None in
        match validateResourceRef (ref_json candidate) (Some (grammar_kind grammar)) with
        | Ok r => Ok r
        | Err _ => Err u_grammar
        end
      end
    end
  end.

End url.

(** ** What identifies a resource *)

Inductive ref_identity : GhResourceKind -> option jstr -> option Z -> option jstr -> Prop :=
| identity_number k n : k ∈ [k_pull_request; k_issue; k_discussion] -> 0 < n <= MAX_SAFE_INTEGER ->
    ref_identity k None (Some n) None
| identity_database_id k s : k ∈ [k_workflow_run; k_workflow] -> POSITIVE_DECIMAL s = true ->
    ref_identity k (Some s) None None
| identity_name k s : k ∈ [k_release; k_branch] -> isSafeName s = true -> ref_identity k None None (Some s)
| identity_sha s : COMMIT_SHA s = true -> ref_identity k_commit None None (Some s)
| identity_repository : ref_identity k_repository None None None
| identity_codespace s : isSafeName s = true -> ref_identity k_codespace (Some s) None None.

Definition is_slug (s : jstr) : Prop := is_Some (parseRepositorySlug (Some (JStr s))).
(** The repository a kind allows. *)
Definition repository_allowed (k : GhResourceKind) (o : option jstr) : Prop :=
  match o with Some s => is_slug s | None => scoped_kind k = false end.
Definition valid_ref (r : GhResourceRef) : Prop :=
  HOST (r_host r) = true ∧ ref_identity (r_kind r) (r_id r) (r_number r) (r_ref r) ∧
  repository_allowed (r_kind r) (r_repository r).

Lemma is_null_spec v : is_null v = true <-> v = Some JNull.
Proof. split; [|by intros ->]. by destruct v as [[]|]. Qed.
Lemma string_with_spec p v : string_with p v = true <-> ∃ s, v = Some (JStr s) ∧ p s = true.
Proof.
  split; [|by intros (s & -> & H)]. destruct v as [[]|]; try done. intros H. by eexists.
Qed.
Lemma opt_text_null o : opt_text o = JNull <-> o = None.
Proof. split; [by destruct o|by intros ->]. Qed.
Lemma opt_number_null o : opt_number o = JNull <-> o = None.
Proof. split; [by destruct o|by intros ->]. Qed.
Lemma opt_text_str o s : opt_text o = JStr s <-> o = Some s.
Proof. split; [destruct o; by intros [= ->]|by intros ->]. Qed.

Lemma kind_of_name_spec s k : kind_of_name s = Some k <-> s = kind_name k.
Proof.
  split.
  - intros H. unfold kind_of_name in H. apply find_first_Some in H as [_ H].
    symmetry. by apply jeqb_eq.
  - intros ->. by destruct k.
Qed.

(** Where the switch finds nothing to object, every slot holds text, a number or [null]
    as its kind demands. *)
Lemma identity_problem_None k i n f :
  identity_problem k i n f = None <->
  ∃ oi on of_, i = Some (opt_text oi) ∧ n = Some (opt_number on) ∧ f = Some (opt_text of_) ∧
    ref_identity k oi on of_.
Proof.
  split.
  - assert (forall b p (o : option GhRefProblem), (if negb b then Some p else o) = None -> b = true ∧ o = None)
      as Hif by (intros [] p o; [done|discriminate]).
    destruct k; cbn [identity_problem]; cbv zeta; intros H; try discriminate.
    all: try (apply Hif in H as [Hv H]);
      match type of H with (if ?b then _ else _) = None => destruct b eqn:E; [discriminate|] end;
      repeat match goal with E : _ || _ = false |- _ => apply orb_false_elim in E as [? ?] end;
      repeat match goal with E : negb _ = false |- _ => apply negb_false_iff, is_null_spec in E; subst end.
    all: try (apply string_with_spec in Hv as (s & -> & Hv)).
    all: try (destruct n as [[| |z| | | |]|]; try discriminate; apply andb_prop in Hv as [Hv1 Hv2];
      apply is_safe_integer_spec in Hv1; apply Z.ltb_lt in Hv2;
      exists None, (Some z), None; split_and!; [done..|];
      apply identity_number; [set_solver|lia]).
    all: try by (exists None, None, None; split_and!; [done..|constructor]).
    all: try by (exists (Some s), None, None; split_and!; [done..|]; constructor; [repeat constructor|done]).
    all: try by (exists (Some s), None, None; split_and!; [done..|]; by constructor).
    all: try by (exists None, None, (Some s); split_and!; [done..|]; constructor; [repeat constructor|done]).
    all: try by (exists None, None, (Some s); split_and!; [done..|]; by constructor).
  - intros (oi & on & of_ & -> & -> & -> & H). destruct H as [k n Hk Hn|k s Hk Hs|k s Hk Hs|s Hs| |s Hs].
    + cbn [opt_text opt_number]. repeat setoid_rewrite elem_of_cons in Hk. rewrite elem_of_nil in Hk.
      destruct Hk as [->|[->|[->|[]]]]; cbn [identity_problem is_null negb orb]; cbv zeta.
      all: rewrite (proj2 (is_safe_integer_spec _)) by lia; rewrite (proj2 (Z.ltb_lt _ _)) by lia; done.
    + repeat setoid_rewrite elem_of_cons in Hk. rewrite elem_of_nil in Hk.
      destruct Hk as [->|[->|[]]]; cbn; by rewrite Hs.
    + repeat setoid_rewrite elem_of_cons in Hk. rewrite elem_of_nil in Hk.
      destruct Hk as [->|[->|[]]]; cbn; by rewrite Hs.
    + cbn. by rewrite Hs.
    + done.
    + cbn. by rewrite Hs.
Qed.

Lemma text_or_null_opt o : text_or_null (Some (opt_text o)) = o.
Proof. by destruct o. Qed.
Lemma number_or_null_opt o : number_or_null (Some (opt_number o)) = o.
Proof. by destruct o. Qed.

Lemma identity_identifiable k i n f : ref_identity k i n f -> kind_in k IDENTIFIABLE_KINDS = true.
Proof.
  intros H. apply bool_decide_eq_true_2. destruct H as [k n Hk|k s Hk|k s Hk| | |];
    unfold IDENTIFIABLE_KINDS; set_solver.
Qed.

Lemma repository_checks k v :
  (scoped_kind k && negb (bool_decide (is_Some (parseRepositorySlug v))) = false ∧
   negb (scoped_kind k) && negb (is_null v) && negb (bool_decide (is_Some (parseRepositorySlug v))) = false ∧
   is_Some v)
  <-> ∃ o, v = Some (opt_text o) ∧ repository_allowed k o.
Proof.
  split.
  - intros (H1 & H2 & x & ->). unfold repository_allowed. destruct (scoped_kind k).
    + apply negb_false_iff, bool_decide_eq_true in H1. destruct x; try by destruct H1.
      by exists (Some s).
    + destruct (is_null (Some x)) eqn:En.
      { apply is_null_spec in En as [= ->]. by exists None. }
      apply negb_false_iff, bool_decide_eq_true in H2. destruct x; try by destruct H2.
      by exists (Some s).
  - intros (o & -> & H). unfold repository_allowed, is_slug in H. destruct o as [s|]; cbn [opt_text].
    + rewrite bool_decide_eq_true_2 by done. cbn [negb]. rewrite !andb_false_r. done.
    + rewrite H. done.
Qed.

Lemma insert_string_perm x l : insert_string x l ≡ₚ x :: l.
Proof.
  induction l as [|y l IH]; simpl; [done|]. destruct (jle x y); [done|]. rewrite IH. constructor.
Qed.
Lemma sort_strings_perm l : sort_strings l ≡ₚ l.
Proof. induction l as [|x l IH]; [done|]. cbn. by rewrite insert_string_perm, IH. Qed.

Lemma assoc_is_Some {A} k (l : list (jstr * A)) : is_Some (assoc k l) <-> k ∈ map fst l.
Proof.
  induction l as [|[k' v] l IH]; cbn [assoc map fst].
  - rewrite elem_of_nil. split; [by intros []|done].
  - rewrite elem_of_cons, <- IH. destruct (jeqb k' k) eqn:E.
    + apply jeqb_eq in E as ->. split; [by left|by eexists].
    + apply jeqb_neq in E. split; [by right|]. by intros [->|?].
Qed.

(** The object has the six members of the reference and no other. *)
Definition is_ref_object (v : json) (r : GhResourceRef) : Prop :=
  ∃ fields, v = JObj fields ∧ sort_strings (map fst fields) = REF_KEYS ∧
    Forall (fun m => assoc m.1 fields = Some m.2) (ref_fields r).

Lemma is_ref_object_json r : is_ref_object (ref_json r) r.
Proof.
  exists (ref_fields r). split; [done|]. split; [vm_compute; reflexivity|].
  repeat constructor; vm_compute; reflexivity.
Qed.

Lemma validateResourceRef_iff v e r :
  validateResourceRef v e = Ok r <->
  is_ref_object v r ∧ valid_ref r ∧ match e with Some k => r_kind r = k | None => True end.
Proof.
  split.
  - destruct v as [| | | | | |fields]; try discriminate. cbn [validateResourceRef].
    destruct (bool_decide (sort_strings _ = _)) eqn:Ek; [|discriminate]. cbn [negb]. cbv zeta.
    apply bool_decide_eq_true in Ek.
    destruct (assoc (js "host") fields) as [[| | | |h| |]|] eqn:Eh; try discriminate.
    destruct (HOST h) eqn:EH; [|discriminate]. cbn [negb].
    destruct (assoc (js "kind") fields) as [[| | | |ks| |]|] eqn:Ekd; try discriminate.
    destruct (kind_of_name ks) as [k|] eqn:Ekn; [|discriminate]. apply kind_of_name_spec in Ekn as ->.
    intros H.
    assert (match e with Some k' => k = k' | None => True end) as He.
    { destruct e as [e|]; [|done]. revert H. destruct (bool_decide (k = e)) eqn:Ee; [|discriminate].
      by apply bool_decide_eq_true in Ee. }
    assert (is_Some (assoc (js "repository") fields)) as Hrep.
    { apply assoc_is_Some. rewrite <- sort_strings_perm, Ek. unfold REF_KEYS. set_solver. }
    destruct (match e with Some _ => _ | None => _ end); [discriminate|].
    destruct (kind_in k IDENTIFIABLE_KINDS); [|discriminate]. cbn [negb] in H.
    destruct (scoped_kind k && _) eqn:E1; [discriminate|].
    destruct (_ && _ && _) eqn:E2; [discriminate|].
    destruct (proj1 (repository_checks k (assoc (js "repository") fields))) as (o & Ho & Hok); [done|].
    destruct (identity_problem k _ _ _) eqn:Ei; [discriminate|]. injection H as <-.
    apply identity_problem_None in Ei as (oi & on & of_ & Hi & Hn & Hf & Hid).
    unfold valid_ref. cbn [r_host r_kind r_repository r_id r_number r_ref].
    rewrite Ho, Hi, Hn, Hf, !text_or_null_opt, number_or_null_opt.
    split_and!; try done. exists fields. split_and!; [done..|]. unfold ref_fields.
    cbn [r_host r_kind r_repository r_id r_number r_ref]. by repeat constructor.
  - intros ((fields & -> & Hk & Hm) & (Hh & Hid & Hr) & He). cbn [validateResourceRef].
    unfold ref_fields in Hm. rewrite !Forall_cons in Hm. cbn [fst snd] in Hm.
    destruct Hm as (M1 & M2 & M3 & M4 & M5 & M6 & _).
    rewrite bool_decide_eq_true_2 by done. cbn [negb]. cbv zeta. rewrite M1, Hh, M2. cbn [negb].
    rewrite (proj2 (kind_of_name_spec _ (r_kind r)) eq_refl).
    destruct (match e with Some _ => _ | None => _ end) eqn:Ee.
    { destruct e as [e|]; [|discriminate]. by rewrite bool_decide_eq_true_2 in Ee. }
    rewrite (identity_identifiable _ _ _ _ Hid). cbn [negb].
    destruct (proj2 (repository_checks (r_kind r) (assoc (js "repository") fields))) as (E1 & E2 & _);
      [rewrite M3; by eexists|].
    rewrite E1, E2. rewrite (proj2 (identity_problem_None _ _ _ _)) by (rewrite M4, M5, M6; by eexists _, _, _).
    rewrite M3, M4, M5, M6, !text_or_null_opt, number_or_null_opt. by destruct r.
Qed.

(** ** URLs *)

Definition url_path (g : GhUrlGrammar) (o n : jstr) (d : option jstr) : jstr :=
  js "/" ++ o ++ js "/" ++ n
  ++ match grammar_word g, d with Some w, Some d => js "/" ++ w ++ js "/" ++ d | _, _ => [] end.

Lemma URL_GRAMMARS_path g p o n d :
  URL_GRAMMARS g p = Some (o, n, d) -> p = url_path g o n d ∧ 47%N ∉ o ∧ 47%N ∉ n.
Proof.
  unfold URL_GRAMMARS, url_path. pose proof (join_split 47 p) as Hj. pose proof (split_char_pieces 47 p) as Hp.
  destruct (split_char 47 p) as [|[] [|o' [|n' l]]]; try discriminate.
  rewrite !Forall_cons in Hp. destruct Hp as (_ & Ho & Hn & _).
  destruct l as [|w [|d' [|]]], (grammar_word g) as [word|]; try discriminate.
  - destruct (_ && _); [|discriminate]. intros [= <- <- <-]. subst p. by rewrite app_nil_r.
  - destruct (_ && _ && _ && _) eqn:E; [|discriminate]. intros [= <- <- <-].
    apply andb_prop in E as [E _]. apply andb_prop in E as [_ E]. apply jeqb_eq in E as ->. by subst p.
Qed.

Lemma parseRepositorySlug_join o n r :
  47%N ∉ o -> 47%N ∉ n -> parseRepositorySlug (Some (JStr (o ++ js "/" ++ n))) = Some r -> r = mkSlug o n.
Proof.
  intros Ho Hn. unfold parseRepositorySlug. change (js "/") with [47%N].
  change (o ++ [47%N] ++ n) with (join [47%N] [o; n]). rewrite split_join; [|done|by repeat constructor].
  destruct (_ || _); [discriminate|]. by intros [= <-].
Qed.

Lemma kind_name_inj k k' : kind_name k = kind_name k' -> k = k'.
Proof.
  intros H. assert (kind_of_name (kind_name k) = Some k') as E by by apply kind_of_name_spec.
  rewrite (proj2 (kind_of_name_spec (kind_name k) k) eq_refl) in E. by injection E.
Qed.

(** An object is at most one reference. *)
Lemma is_ref_object_inj v r r' : is_ref_object v r -> is_ref_object v r' -> r = r'.
Proof.
  intros (fs & -> & _ & H) (fs' & [= <-] & _ & H'). unfold ref_fields in *.
  rewrite !Forall_cons in H, H'. cbn [fst snd] in *.
  destruct H as (M1 & M2 & M3 & M4 & M5 & M6 & _), H' as (N1 & N2 & N3 & N4 & N5 & N6 & _).
  rewrite M1 in N1. rewrite M2 in N2. rewrite M3 in N3. rewrite M4 in N4. rewrite M5 in N5. rewrite M6 in N6.
  injection N1 as N1. injection N2 as N2%kind_name_inj.
  apply (f_equal text_or_null) in N3, N4, N6. apply (f_equal number_or_null) in N5.
  rewrite !text_or_null_opt in N3, N4, N6. rewrite !number_or_null_opt in N5.
  destruct r, r'; simpl in *. congruence.
Qed.

Lemma validate_json r0 e r :
  validateResourceRef (ref_json r0) e = Ok r -> r = r0 ∧ valid_ref r0 ∧ match e with Some k => r_kind r0 = k | None => True end.
Proof.
  intros (H & Hv & He)%validateResourceRef_iff.
  assert (r = r0) as -> by (eapply is_ref_object_inj; [exact H|apply is_ref_object_json]). done.
Qed.

Section url_theorems.
Context (url : jstr -> option parsed_url) (toLowerCase : jstr -> jstr).

(** A reference read from a printed URL is a valid one of the grammar's kind, its host is
    the one of the context and not the URL's, and so is its repository unless the command
    creates its result elsewhere; the URL names that host and that repository up to case,
    its path is the grammar's and it has no query and no fragment. *)
Theorem refFromOutputUrl_in_context raw g ctx src r :
  refFromOutputUrl url toLowerCase raw g ctx src = Ok r ->
  valid_ref r ∧ r_kind r = grammar_kind g ∧ r_host r = c_host ctx ∧
  ∃ u o n d, url raw = Some u ∧ toLowerCase (u_host u) = toLowerCase (c_host ctx) ∧
    u_pathname u = url_path g o n d ∧ u_search u = [] ∧ u_hash u = [] ∧
    r_number r = num_of_digits <$> d ∧
    match src with
    | from_url => r_repository r = Some (o ++ js "/" ++ n)
    | from_execution_context =>
      ∃ c, c_repository ctx = Some c ∧ r_repository r = Some (slugOf c) ∧
        toLowerCase (owner c) = toLowerCase o ∧ toLowerCase (name c) = toLowerCase n
    end.
Proof.
  unfold refFromOutputUrl. destruct (url raw) as [u|]; [|discriminate].
  destruct (_ && _); [discriminate|]. destruct (_ || _); [discriminate|].
  destruct (_ || _ || _ || _) eqn:Eq; [discriminate|].
  destruct (negb (jeqb (toLowerCase _) _)) eqn:Eh; [discriminate|].
  destruct (URL_GRAMMARS g (u_pathname u)) as [[[o n] d]|] eqn:Eg; [|discriminate].
  destruct (parseRepositorySlug _) as [slug|] eqn:Es; [|discriminate].
  apply URL_GRAMMARS_path in Eg as (Hp & Ho & Hn).
  apply parseRepositorySlug_join in Es as ->; [|done..].
  apply negb_false_iff, jeqb_eq in Eh.
  apply orb_false_elim in Eq as [Eq _]. apply orb_false_elim in Eq as [Eq _].
  apply orb_false_elim in Eq as [E1 E2]. apply negb_false_iff, jeqb_eq in E1, E2.
  destruct (match src with from_execution_context => _ | from_url => _ end) as [repo|] eqn:Er; [|discriminate].
  cbn [mbind result_bind]. cbv zeta. destruct (validateResourceRef _ _) as [r'|] eqn:Ev; [|discriminate].
  intros [= ->]. apply validate_json in Ev as (-> & Hv & _).
  cbn [r_kind r_host r_number r_repository] in *. split_and!; [done..|].
  exists u, o, n, d. split_and!; [done..|]. destruct src.
  - destruct (c_repository ctx) as [c|]; [|discriminate]. unfold sameSlug in Er. cbn [owner name] in Er.
    destruct (_ && _) eqn:Ec; [|discriminate]. injection Er as <-.
    apply andb_prop in Ec as [Ec1%jeqb_eq Ec2%jeqb_eq]. by exists c.
  - by injection Er as <-.
Qed.

End url_theorems.
