(* ===== verification/GhBinding.v ===== *)
(** * Bindings between commands

    [packages/gh-cli/src/binding.ts]: whether an output port may feed an input port, and
    the reference that an explicit selection in a port's value gives. *)

From stdpp Require Import base list option strings numbers sets.
From Stdlib Require Import ZArith Lia.
From S2P Require Import Prelude JsString Json GhInvocation JsonPointer ResourceRef.
Open Scope nat_scope.

(** ** Ports (types.ts) *)

Inductive GhPortConditionCode : Set :=
| cc_output_mode | cc_json_fields_selected | cc_flag_absent | cc_same_repository
| cc_repository_from_output | cc_url_matches_context | cc_explicit_selection
| cc_single_value_as_list | cc_slot_alternative | cc_workspace_required.
#[export] Instance GhPortConditionCode_eq_dec : EqDecision GhPortConditionCode.
Proof. solve_decision. Defined.
Record GhPortCondition : Set := mkCondition { cond_code : GhPortConditionCode; cond_detail : jstr }.
#[export] Instance GhPortCondition_eq_dec : EqDecision GhPortCondition.
Proof. solve_decision. Defined.

Inductive GhResultSensitivity : Set := s_public | s_internal | s_sensitive | s_secret.
#[export] Instance GhResultSensitivity_eq_dec : EqDecision GhResultSensitivity.
Proof. solve_decision. Defined.
Inductive port_direction : Set := input | output.
Inductive cardinality : Set := one | many.
#[export] Instance cardinality_eq_dec : EqDecision cardinality.
Proof. solve_decision. Defined.
Definition cardinality_name (c : cardinality) : jstr := match c with one => js "one" | many => js "many" end.

Inductive GhPortSlot : Set :=
| slot_positional (index : nat) (placeholder alternative : jstr)
| slot_flag (flag : jstr).

(** The members of a port that the judgement reads. *)
Record GhPort : Set := mkPort {
  port_id : jstr; direction : port_direction; port_type : GhResourceKind;
  port_cardinality : cardinality; port_sensitivity : GhResultSensitivity;
  port_conditions : list GhPortCondition; port_slot : option GhPortSlot
}.

Inductive GhComposability : Set :=
| fully_bindable | partially_bindable | terminal_result | artifact_result | opaque_result
| secret_non_bindable | cp_policy_blocked | unsupported_by_host.
Definition composability_name (c : GhComposability) : jstr :=
  match c with
  | fully_bindable => js "fully_bindable" | partially_bindable => js "partially_bindable"
  | terminal_result => js "terminal_result" | artifact_result => js "artifact_result"
  | opaque_result => js "opaque_result" | secret_non_bindable => js "secret_non_bindable"
  | cp_policy_blocked => js "policy_blocked" | unsupported_by_host => js "unsupported_by_host"
  end.
Record GhResultContract : Set := mkContract {
  sensitivity : GhResultSensitivity; composability : GhComposability; bindable : bool;
  inputPorts : list GhPort; outputPorts : list GhPort
}.
Record GhPortEndpoint : Set := mkEndpoint {
  e_capabilityId : jstr; e_contract : GhResultContract; e_port : GhPort
}.

(** ** judgePortCompatibility *)

Inductive GhCompatibilityVerdict : Set := direct | conditional | incompatible.
#[export] Instance GhCompatibilityVerdict_eq_dec : EqDecision GhCompatibilityVerdict.
Proof. solve_decision. Defined.
Inductive GhIncompatibilityCode : Set :=
| i_direction | i_type_mismatch | i_secret_source | i_secret_target | i_source_not_bindable | i_list_to_list.
Definition incompatibility_name (c : GhIncompatibilityCode) : jstr :=
  match c with
  | i_direction => js "direction" | i_type_mismatch => js "type_mismatch"
  | i_secret_source => js "secret_source" | i_secret_target => js "secret_target"
  | i_source_not_bindable => js "source_not_bindable" | i_list_to_list => js "list_to_list"
  end.
Record GhIncompatibility : Set := mkIncompatibility { inc_code : GhIncompatibilityCode; inc_detail : jstr }.
Record GhPortCompatibility : Set := mkCompatibility {
  verdict : GhCompatibilityVerdict; cp_conditions : list GhPortCondition; reasons : list GhIncompatibility
}.

Definition pushUnique (target : list GhPortCondition) (c : GhPortCondition) : list GhPortCondition :=
  if bool_decide (c ∈ target) then target else target ++ [c].

Definition is_secret (s : GhResultSensitivity) : bool := bool_decide (s = s_secret).
Definition push_if {A} (b : bool) (x : A) (l : list A) : list A := if b then l ++ [x] else l.

Definition incompatibilities (source target : GhPortEndpoint) : list GhIncompatibility :=
  let sp := e_port source in
  let tp := e_port target in
  let r := push_if (match direction sp, direction tp with output, input => false | _, _ => true end)
             (mkIncompatibility i_direction (js "출력 port에서 입력 port로만 잇는다")) [] in
  let r := push_if (negb (bool_decide (port_type sp = port_type tp)))
             (mkIncompatibility i_type_mismatch
                (refTypeName (port_type sp) ++ js " → " ++ refTypeName (port_type tp))) r in
  let r := push_if (is_secret (sensitivity (e_contract source)) || is_secret (port_sensitivity sp))
             (mkIncompatibility i_secret_source
                (js "비밀 결과는 어떤 입력으로도 흐르지 않는다 (SRS 9.8 2항)")) r in
  let r := push_if (is_secret (port_sensitivity tp))
             (mkIncompatibility i_secret_target (js "비밀 값을 받는 입력 자리는 참조로 채우지 않는다")) r in
  let r := push_if (negb (bindable (e_contract source)))
             (mkIncompatibility i_source_not_bindable
                (js "출력 쪽 결과 계약이 " ++ composability_name (composability (e_contract source)) ++ js "다")) r in
  push_if (bool_decide (port_cardinality sp = many) && bool_decide (port_cardinality tp = many))
    (mkIncompatibility i_list_to_list
       (js "목록 전체를 한 번에 넘기는 연결은 정의하지 않는다 — 상한 있는 fan-out(FR-GH-005 AC-9)이 먼저다")) r.

Definition connection_conditions (sp tp : GhPort) : list GhPortCondition :=
  let c := foldl pushUnique [] (port_conditions sp) in
  let c := foldl pushUnique c (port_conditions tp) in
  let c := if bool_decide (port_cardinality sp = many) && bool_decide (port_cardinality tp = one)
           then pushUnique c (mkCondition cc_explicit_selection
                  (js "목록에서 원소 하나를 `/<index>`로 명시적으로 고른다 — 첫 원소를 자동으로 고르지 않는다"))
           else c in
  let c := if bool_decide (port_cardinality sp = one) && bool_decide (port_cardinality tp = many)
           then pushUnique c (mkCondition cc_single_value_as_list (js "참조 하나를 한 개짜리 목록으로 넘긴다"))
           else c in
  push_if (kind_in (port_type tp) REPOSITORY_SCOPED_KINDS
           && negb (existsb (fun x => bool_decide (cond_code x = cc_same_repository)) c))
    (mkCondition cc_same_repository (js "참조의 저장소가 입력 쪽 실행의 저장소와 같아야 한다")) c.

Definition judgePortCompatibility (source target : GhPortEndpoint) : GhPortCompatibility :=
  let reasons := incompatibilities source target in
  let conditions := connection_conditions (e_port source) (e_port target) in
  mkCompatibility
    (match reasons, conditions with
     | _ :: _, _ => incompatible
     | [], [] => direct
     | [], _ => conditional
     end) conditions reasons.

(** ** evaluateBinding *)

Record endpoint_name : Set := mkName { n_capabilityId : jstr; n_port : jstr }.
Record GhBinding : Set := mkBinding { b_source : endpoint_name; b_target : endpoint_name; select : jstr }.
Inductive GhPortValue : Set :=
| pv_many (port : jstr) (items : list GhResourceRef)
| pv_one (port : jstr) (item : option GhResourceRef)
| pv_unavailable (port reason : jstr).
Definition value_port (v : GhPortValue) : jstr :=
  match v with pv_many p _ | pv_one p _ | pv_unavailable p _ => p end.
Definition value_cardinality (v : GhPortValue) : option cardinality :=
  match v with pv_many _ _ => Some many | pv_one _ _ => Some one | pv_unavailable _ _ => None end.
Record GhBindingTargetContext : Set := mkTarget { t_host : jstr; t_repository : option RepositorySlug }.

Inductive GhBindingRejection : Set :=
| br_endpoint_mismatch | br_incompatible | br_value_unavailable | br_explicit_selection_required
| br_selection_invalid | br_selection_not_a_reference | br_null_value | br_host_mismatch
| br_repository_missing | br_repository_mismatch | br_unsupported_slot.

(** An accepted binding; [executable] is always [false]. *)
Record accepted : Set := mkAccepted {
  a_ref : GhResourceRef; a_slot : GhPortSlot; a_value : jstr; a_conditions : list GhPortCondition;
  executable : bool; executionBlockedReason : jstr
}.
Definition BINDING_EXECUTION_BLOCKED : jstr :=
  js "다단계 실행(Recipe)은 열리지 않았다 (FR-GH-005) — 호환 판정은 실행 승인이 아니다".

Definition argumentOf (r : GhResourceRef) (slot : GhPortSlot) : option jstr :=
  match r_kind r with
  | k_pull_request | k_issue | k_discussion => js_of_Z <$> r_number r
  | k_workflow_run | k_workflow | k_codespace => r_id r
  | k_release | k_branch | k_commit => r_ref r
  | k_repository => match slot with slot_positional _ _ _ => r_repository r | slot_flag _ => None end
  | _ => None
  end.

Definition pointer_error_name (e : JsonPointerError) : jstr :=
  match e with
  | too_long => js "too_long" | syntax => js "syntax" | invalid_escape => js "invalid_escape"
  | too_deep => js "too_deep" | forbidden_token => js "forbidden_token"
  | nonexistent_member => js "nonexistent_member" | not_a_container => js "not_a_container"
  | invalid_array_index => js "invalid_array_index" | end_of_array => js "end_of_array"
  | index_out_of_range => js "index_out_of_range"
  end.

Definition endpoint_mismatch (binding : GhBinding) (source target : GhPortEndpoint) (value : GhPortValue) : bool :=
  negb (jeqb (n_capabilityId (b_source binding)) (e_capabilityId source))
  || negb (jeqb (n_port (b_source binding)) (port_id (e_port source)))
  || negb (jeqb (n_capabilityId (b_target binding)) (e_capabilityId target))
  || negb (jeqb (n_port (b_target binding)) (port_id (e_port target)))
  || negb (jeqb (value_port value) (port_id (e_port source))).

(** The document the pointer is evaluated on. *)
Definition document_of (value : GhPortValue) (target : GhPort) (select : jstr)
  : result (GhBindingRejection * jstr) json :=
  match value with
  | pv_unavailable _ reason => Err (br_value_unavailable, reason)
  | pv_many _ items =>
    if bool_decide (port_cardinality target = one) && jeqb select []
    then Err (br_explicit_selection_required,
              js "목록 결과를 단일 입력에 이으려면 원소 하나를 `/<index>`로 골라야 한다")
    else Ok (JArr (map ref_json items))
  | pv_one _ None => Err (br_null_value, js "출력 port의 값이 null이다")
  | pv_one _ (Some item) => Ok (ref_json item)
  end.

Section binding.
Context (toLowerCase : jstr -> jstr).

(** The checks of the selected reference against the target's context. *)
Definition context_problem (r : GhResourceRef) (t : GhBindingTargetContext)
  : option (GhBindingRejection * jstr) :=
  if negb (jeqb (toLowerCase (r_host r)) (toLowerCase (t_host t)))
  then Some (br_host_mismatch, js "참조의 호스트(" ++ r_host r ++ js ")가 입력 쪽 실행의 호스트와 다르다")
  else if kind_in (r_kind r) REPOSITORY_SCOPED_KINDS
  then match t_repository t with
       | None => Some (br_repository_missing, js "입력 쪽 실행에 저장소 컨텍스트가 없다")
       | Some slug =>
         if negb (bool_decide (toLowerCase <$> r_repository r = Some (toLowerCase (slugOf slug))))
         then Some (br_repository_mismatch,
                js "참조의 저장소(" ++ match r_repository r with Some s => s | None => js "null" end
                ++ js ")가 입력 쪽 실행의 저장소와 다르다")
         else None
       end
  else None.

Definition evaluateBinding (binding : GhBinding) (source target : GhPortEndpoint) (value : GhPortValue)
    (targetContext : GhBindingTargetContext) : result (GhBindingRejection * jstr) accepted :=
  if endpoint_mismatch binding source target value
  then Err (br_endpoint_mismatch, js "연결이 가리키는 출발·도착 port와 넘겨준 port·값이 다르다")
  else if match value_cardinality value with
          | Some c => negb (bool_decide (c = port_cardinality (e_port source)))
          | None => false
          end
  then Err (br_endpoint_mismatch,
         js "값의 개수(" ++ match value_cardinality value with Some c => cardinality_name c | None => [] end
         ++ js ")가 출력 port 계약(" ++ cardinality_name (port_cardinality (e_port source)) ++ js ")과 다르다")
  else
    let compatibility := judgePortCompatibility source target in
    if bool_decide (verdict compatibility = incompatible)
    then Err (br_incompatible,
           join (js " · ") (map (fun one => incompatibility_name (inc_code one) ++ js ": " ++ inc_detail one)
             (reasons compatibility)))
    else
      document ← document_of value (e_port target) (select binding);
      match evaluateJsonPointer document (select binding) with
      | Err (e, token) =>
        Err (br_selection_invalid,
          pointer_error_name e ++ match token with Some t => js " (" ++ t ++ js ")" | None => [] end)
      | Ok selected =>
        match validateResourceRef selected (Some (port_type (e_port target))) with
        | Err p =>
          Err (br_selection_not_a_reference,
            js "고른 값이 " ++ refTypeName (port_type (e_port target)) ++ js "가 아니다 (" ++ problem_name p ++ js ")")
        | Ok r =>
          match context_problem r targetContext with
          | Some e => Err e
          | None =>
            match (s ← port_slot (e_port target); a ← argumentOf r s; Some (s, a)) with
            | None => Err (br_unsupported_slot, js "입력 port에 참조를 넣을 자리가 없다")
            | Some (s, a) =>
              Ok (mkAccepted r s a (cp_conditions compatibility) false BINDING_EXECUTION_BLOCKED)
            end
          end
        end
      end.

End binding.

(** ** The judgement *)

(** The connections the product defines. *)
Definition may_connect (source target : GhPortEndpoint) : Prop :=
  direction (e_port source) = output ∧ direction (e_port target) = input ∧
  port_type (e_port source) = port_type (e_port target) ∧
  sensitivity (e_contract source) <> s_secret ∧ port_sensitivity (e_port source) <> s_secret ∧
  port_sensitivity (e_port target) <> s_secret ∧ bindable (e_contract source) = true ∧
  ~ (port_cardinality (e_port source) = many ∧ port_cardinality (e_port target) = many).

Lemma push_if_nil {A} b (x : A) l : push_if b x l = [] <-> b = false ∧ l = [].
Proof. unfold push_if. destruct b; split; try (by intros [? ?]); [by destruct l|done]. Qed.
Lemma is_secret_false s : is_secret s = false <-> s <> s_secret.
Proof. unfold is_secret. apply bool_decide_eq_false. Qed.

Lemma incompatibilities_nil source target :
  incompatibilities source target = [] <-> may_connect source target.
Proof.
  unfold incompatibilities, may_connect. cbv zeta. rewrite !push_if_nil, orb_false_iff, andb_false_iff.
  rewrite !is_secret_false, !negb_false_iff, bool_decide_eq_true, !bool_decide_eq_false.
  destruct (direction (e_port source)), (direction (e_port target)),
    (port_cardinality (e_port source)), (port_cardinality (e_port target)); intuition congruence.
Qed.

Lemma verdict_compatible source target :
  verdict (judgePortCompatibility source target) <> incompatible <-> may_connect source target.
Proof.
  rewrite <- incompatibilities_nil. unfold judgePortCompatibility. cbv zeta. cbn [verdict].
  destruct (incompatibilities source target), (connection_conditions (e_port source) (e_port target)); by split.
Qed.

Lemma pushUnique_elem l c x : x ∈ pushUnique l c <-> x ∈ l \/ x = c.
Proof. unfold pushUnique. destruct (bool_decide _) eqn:E; bool_to_prop; set_solver. Qed.
Lemma pushUnique_NoDup l c : NoDup l -> NoDup (pushUnique l c).
Proof.
  intros H. unfold pushUnique. destruct (bool_decide _) eqn:E; bool_to_prop; [done|].
  apply NoDup_app. split_and!; [done|set_solver|by apply NoDup_singleton].
Qed.
Lemma pushUnique_all l k : NoDup k -> NoDup (foldl pushUnique k l) ∧ forall x, x ∈ foldl pushUnique k l <-> x ∈ k \/ x ∈ l.
Proof.
  revert k. induction l as [|c l IH]; intros k Hk; cbn [foldl]; [set_solver|].
  destruct (IH _ (pushUnique_NoDup k c Hk)) as [H1 H2]. split; [done|]. intros x.
  rewrite H2, pushUnique_elem, elem_of_cons. tauto.
Qed.

Lemma pushUnique_if (b : bool) l c :
  NoDup l -> NoDup (if b then pushUnique l c else l) ∧ forall x, x ∈ l -> x ∈ (if b then pushUnique l c else l).
Proof.
  intros H. destruct b; [|by split]. split; [by apply pushUnique_NoDup|].
  intros x Hx. apply pushUnique_elem. by left.
Qed.

(** What the pointer of a binding may select. *)
Inductive selects : GhPortValue -> jstr -> GhResourceRef -> Prop :=
| select_element p items s i r :
    parseJsonPointer s = Ok [js_of_N (N.of_nat i)] -> (Z.of_nat i <= MAX_SAFE_INTEGER)%Z ->
    items !! i = Some r -> selects (pv_many p items) s r
| select_item p r : selects (pv_one p (Some r)) [] r.

Lemma parse_pointer_nil s : parseJsonPointer s = Ok [] <-> s = [].
Proof.
  split; [|by intros ->]. unfold parseJsonPointer. destruct (_ <? _); [discriminate|].
  destruct s as [|c r]; [done|]. destruct (negb _); [discriminate|]. cbv zeta. destruct (_ <? _); [discriminate|].
  destruct (split_char_cons 47 r) as (p & ps & ->). cbn [read_pieces]. destruct (bad_escape p); [discriminate|].
  cbv zeta. destruct (mem _ _); [discriminate|]. by destruct (read_pieces ps).
Qed.

Lemma ref_member r k v : assoc k (ref_fields r) = Some v -> forall e r', validateResourceRef v e <> Ok r'.
Proof.
  unfold ref_fields. cbn [assoc].
  repeat (destruct (jeqb _ k); [intros [= <-] e r'; unfold opt_text, opt_number;
    repeat match goal with |- context [match ?o with Some _ => _ | None => _ end] => destruct o end; discriminate|]).
  discriminate.
Qed.

(** Below a reference there is no reference. *)
Lemma path_in_ref r ts v : at_path (ref_json r) ts v ->
  (ts = [] ∧ v = ref_json r) \/ (ts <> [] ∧ forall e r', validateResourceRef v e <> Ok r').
Proof.
  inversion 1 as [|fields k x w ks Ha Hp|]; subst; [by left|]. right. split; [done|].
  intros e r'. pose proof (ref_member r k x Ha e r') as Hx. inversion Hp; subst; [done| |].
  all: exfalso; unfold ref_fields in Ha; cbn [assoc] in Ha.
  all: repeat (destruct (jeqb _ k); [unfold opt_text, opt_number in Ha;
    repeat match goal with Ha : context [match ?o with Some _ => _ | None => _ end] |- _ => destruct o end;
    discriminate|]); discriminate.
Qed.

Lemma selection_iff value target s e r :
  (∃ document v, document_of value target s = Ok document ∧ evaluateJsonPointer document s = Ok v ∧
     validateResourceRef v (Some e) = Ok r)
  <-> selects value s r ∧ valid_ref r ∧ r_kind r = e.
Proof.
  split.
  - intros (doc & v & Hd & He & Hv). unfold evaluateJsonPointer in He.
    destruct (parseJsonPointer s) as [ts|] eqn:Ep; [|discriminate]. apply follow_spec in He.
    destruct value as [p items|p [item|]|]; cbn [document_of] in Hd.
    + destruct (_ && _); [discriminate|]. injection Hd as <-.
      inversion He as [|? ? ? ? ? ? ?|l i x w ks Hi Hl Hp]; subst; [discriminate|].
      rewrite list_lookup_fmap in Hl. destruct (items !! i) as [item|] eqn:Ei; [|discriminate].
      injection Hl as <-. apply path_in_ref in Hp as [[-> ->]|[_ Hno]]; [|by apply Hno in Hv].
      apply validate_json in Hv as (-> & Hv & Hk). split; [by eapply select_element|done].
    + injection Hd as <-. apply path_in_ref in He as [[-> ->]|[_ Hno]]; [|by apply Hno in Hv].
      apply parse_pointer_nil in Ep as ->.
      apply validate_json in Hv as (-> & Hv & Hk). split; [constructor|done].
    + discriminate.
    + discriminate.
  - intros (Hs & Hv & <-). assert (validateResourceRef (ref_json r) (Some (r_kind r)) = Ok r) as Hr.
    { apply validateResourceRef_iff. split; [apply is_ref_object_json|done]. }
    destruct Hs as [p items s i r Hp Hi Hl|p r].
    + exists (JArr (map ref_json items)), (ref_json r). split_and!; [|..|done].
      * cbn [document_of]. destruct (jeqb s []) eqn:E; [apply jeqb_eq in E; subst; discriminate|].
        by rewrite andb_false_r.
      * unfold evaluateJsonPointer. rewrite Hp. apply follow_spec. eapply path_element; [done| |constructor].
        by rewrite list_lookup_fmap, Hl.
    + by exists (ref_json r), (ref_json r).
Qed.

Section binding_theorems.
Context (toLowerCase : jstr -> jstr).

Definition in_context (r : GhResourceRef) (t : GhBindingTargetContext) : Prop :=
  toLowerCase (r_host r) = toLowerCase (t_host t) ∧
  (r_kind r ∈ REPOSITORY_SCOPED_KINDS ->
   ∃ slug, t_repository t = Some slug ∧ toLowerCase <$> r_repository r = Some (toLowerCase (slugOf slug))).

Lemma context_problem_None r t : context_problem toLowerCase r t = None <-> in_context r t.
Proof.
  unfold context_problem, in_context, kind_in. destruct (jeqb _ _) eqn:Eh; cbn [negb].
  - apply jeqb_eq in Eh. destruct (bool_decide (_ ∈ _)) eqn:Ek; bool_to_prop.
    + destruct (t_repository t) as [slug|].
      * destruct (bool_decide (_ = _)) eqn:Er; bool_to_prop; cbn [negb]; split; try done; [naive_solver|].
        intros [_ H]. destruct (H Ek) as (? & [= <-] & ?). done.
      * split; [done|]. intros [_ H]. by destruct (H Ek) as (? & ? & _).
    + naive_solver.
  - apply jeqb_neq in Eh. naive_solver.
Qed.

(** A binding is accepted exactly when the endpoints are the ones it names, the
    connection is one the product defines (never a secret, never another type, never list
    to list), the value has the port's cardinality, the pointer selects one element of the
    list or the single item itself (nothing is chosen by default, and nothing inside a
    reference is taken for one), that reference is valid, of the target's type and in the
    target's host and repository, and the slot has a place for it.  It is never
    executable. *)
Theorem evaluateBinding_spec b source target value t a :
  evaluateBinding toLowerCase b source target value t = Ok a <->
  endpoint_mismatch b source target value = false ∧
  value_cardinality value = Some (port_cardinality (e_port source)) ∧
  may_connect source target ∧
  selects value (select b) (a_ref a) ∧ valid_ref (a_ref a) ∧
  r_kind (a_ref a) = port_type (e_port target) ∧ in_context (a_ref a) t ∧
  port_slot (e_port target) = Some (a_slot a) ∧ argumentOf (a_ref a) (a_slot a) = Some (a_value a) ∧
  a_conditions a = connection_conditions (e_port source) (e_port target) ∧
  executable a = false ∧ executionBlockedReason a = BINDING_EXECUTION_BLOCKED.
Proof.
  rewrite <- verdict_compatible, <- context_problem_None. unfold evaluateBinding.
  destruct (endpoint_mismatch _ _ _ _); [naive_solver|]. cbv zeta.
  pose proof (selection_iff value (e_port target) (select b) (port_type (e_port target))) as Hsel.
  destruct (match value_cardinality value with Some _ => _ | None => _ end) eqn:Ec.
  { split; [discriminate|]. intros (_ & Hc & _). rewrite Hc, bool_decide_eq_true_2 in Ec by done. discriminate. }
  destruct (bool_decide (verdict _ = incompatible)) eqn:Ei; bool_to_prop.
  { split; [discriminate|]. naive_solver. }
  split.
  - destruct (document_of _ _ _) as [doc|] eqn:Ed; [|discriminate]. cbn [mbind result_bind].
    destruct (evaluateJsonPointer doc _) as [v|[]] eqn:Ee; [|discriminate].
    destruct (validateResourceRef v _) as [r|] eqn:Ev; [|discriminate].
    destruct (context_problem _ _ _) eqn:Ex; [discriminate|].
    destruct (port_slot _) as [s|] eqn:Es; [|discriminate]. cbn [mbind option_bind].
    destruct (argumentOf r s) as [x|] eqn:Ea; [|discriminate]. intros [= <-].
    destruct (proj1 (Hsel r)) as (H1 & H2 & H3); [by eexists _, _|].
    cbn [a_ref a_slot a_value a_conditions executable executionBlockedReason]. split_and!; try done.
    destruct value as [| |]; [..|discriminate]; cbn [value_cardinality] in *;
      apply negb_false_iff, bool_decide_eq_true in Ec; by f_equal.
  - intros (_ & Hc & _ & H1 & H2 & H3 & H4 & H5 & H6 & H7 & H8 & H9).
    destruct (proj2 (Hsel (a_ref a))) as (doc & v & Ed & Ee & Ev); [done|].
    rewrite Ed. cbn [mbind result_bind]. rewrite Ee, Ev, H4, H5. cbn [mbind option_bind]. rewrite H6.
    destruct a; simpl in *. by subst.
Qed.

End binding_theorems.

(** The conditions of a connection are those of both ports, each once, and whatever the
    connection itself demands: an explicit element of a list, the same repository. *)
Theorem connection_conditions_spec sp tp :
  NoDup (connection_conditions sp tp) ∧
  (forall c, c ∈ port_conditions sp \/ c ∈ port_conditions tp -> c ∈ connection_conditions sp tp) ∧
  (port_cardinality sp = many -> port_cardinality tp = one ->
   cc_explicit_selection ∈ map cond_code (connection_conditions sp tp)) ∧
  (port_type tp ∈ REPOSITORY_SCOPED_KINDS ->
   cc_same_repository ∈ map cond_code (connection_conditions sp tp)).
Proof.
  unfold connection_conditions, kind_in. cbv zeta.
  destruct (pushUnique_all (port_conditions sp) [] (NoDup_nil_2)) as [N1 E1].
  destruct (pushUnique_all (port_conditions tp) _ N1) as [N2 E2].
  set (l2 := foldl pushUnique _ (port_conditions tp)) in *.
  set (l3 := if bool_decide (_ = many) && bool_decide (port_cardinality tp = one) then _ else l2).
  set (l4 := if bool_decide (_ = one) && bool_decide (port_cardinality tp = many) then _ else l3).
  destruct (pushUnique_if (bool_decide (port_cardinality sp = many) && bool_decide (port_cardinality tp = one))
    l2 (mkCondition cc_explicit_selection
          (js "목록에서 원소 하나를 `/<index>`로 명시적으로 고른다 — 첫 원소를 자동으로 고르지 않는다")) N2) as [N3 E3].
  destruct (pushUnique_if (bool_decide (port_cardinality sp = one) && bool_decide (port_cardinality tp = many))
    l3 (mkCondition cc_single_value_as_list (js "참조 하나를 한 개짜리 목록으로 넘긴다")) N3) as [N4 E4].
  fold l3 in E3. fold l4 in N4, E4.
  assert (forall x b, (forall c, c ∈ l4 -> c ∈ push_if b x l4)) as E5.
  { intros x b c Hc. unfold push_if. destruct b; [|done]. apply elem_of_app. by left. }
  split_and!.
  - clearbody l4. unfold push_if. destruct (bool_decide (port_type tp ∈ _) && _) eqn:E; [|exact N4]. apply andb_prop in E as [_ E].
    apply NoDup_app. split_and!; [done| |by apply NoDup_singleton].
    intros c Hc ->%list_elem_of_singleton. apply negb_true_iff in E.
    eapply eq_true_false_abs; [|exact E]. apply existsb_elem. eexists. split; [exact Hc|done].
  - intros c Hc. apply E5, E4, E3, E2. rewrite E1. set_solver.
  - intros Hs Ht. apply list_elem_of_fmap. eexists (mkCondition cc_explicit_selection _).
    split; [reflexivity|]. apply E5, E4. unfold l3.
    rewrite (bool_decide_eq_true_2 _ Hs), (bool_decide_eq_true_2 _ Ht). cbv iota beta delta [andb].
    apply pushUnique_elem. right. reflexivity.
  - intros Hk. rewrite (bool_decide_eq_true_2 _ Hk). clearbody l4. unfold push_if.
    cbv beta delta [andb]. destruct (existsb _ l4) eqn:E; cbv iota beta delta [negb].
    + apply existsb_elem in E as (c & Hc & E). bool_to_prop. apply list_elem_of_fmap. by exists c.
    + apply list_elem_of_fmap. eexists (mkCondition cc_same_repository _). split; [reflexivity|].
      apply elem_of_app. right. apply list_elem_of_singleton. reflexivity.
Qed.

Definition pr_list_port : GhPort :=
  mkPort (js "pull_requests") output k_pull_request many s_internal [] None.
Definition pr_view_port : GhPort :=
  mkPort (js "pull_request") input k_pull_request one s_internal []
    (Some (slot_positional 0 (js "number") (js "number"))).
Definition list_contract : GhResultContract := mkContract s_internal fully_bindable true [] [pr_list_port].
Definition view_contract : GhResultContract := mkContract s_internal fully_bindable true [pr_view_port] [].
Definition pr_ref (n : Z) : GhResourceRef :=
  mkRef (js "ghe.example.com") k_pull_request (Some (js "acme/widgets")) None (Some n) None.
Example binding_ex :
  a_value <$> evaluateBinding ascii_lower
    (mkBinding (mkName (js "pr.list") (js "pull_requests")) (mkName (js "pr.view") (js "pull_request")) (js "/1"))
    (mkEndpoint (js "pr.list") list_contract pr_list_port) (mkEndpoint (js "pr.view") view_contract pr_view_port)
    (pv_many (js "pull_requests") [pr_ref 7; pr_ref 12])
    (mkTarget (js "GHE.example.com") (Some (mkSlug (js "Acme") (js "widgets")))) = Ok (js "12").
Proof. vm_compute. reflexivity. Qed.
