(* ===== verification/GhGraph.v ===== *)
(** * The graph of capabilities

    [packages/gh-cli/src/graph.ts]: every output port against every input port, judged by
    GhBinding. *)

From stdpp Require Import base list option strings numbers sets.
From Stdlib Require Import ZArith Lia.
From S2P Require Import Prelude JsString Json GhInvocation JsonPointer ResourceRef GhBinding.
Open Scope nat_scope.

Inductive GhExecutionStatus : Set := ex_allowed | ex_not_implemented | ex_policy_blocked.
Definition execution_name (e : GhExecutionStatus) : jstr :=
  match e with
  | ex_allowed => js "allowed" | ex_not_implemented => js "not_implemented"
  | ex_policy_blocked => js "policy_blocked"
  end.

(** The members of a manifest command that the graph reads; [classification] holds the
    result contract, [null] in an unclassified leaf. *)
Record GhManifestCommand : Set := mkCommand {
  cmd_id : jstr; group : bool; aliasOf : option (list jstr); execution : GhExecutionStatus;
  classification : option (option GhResultContract)
}.
Definition contract_of (c : GhManifestCommand) : option GhResultContract :=
  match classification c with Some (Some r) => Some r | _ => None end.

Record edge_execution : Set := mkExecution {
  x_from : GhExecutionStatus; x_to : GhExecutionStatus; x_executable : bool; x_reason : jstr
}.
Record GhGraphEdge : Set := mkEdge {
  g_from : jstr; g_fromPort : jstr; g_to : jstr; g_toPort : jstr; g_type : GhResourceKind;
  g_verdict : GhCompatibilityVerdict; g_conditions : list GhPortCondition; g_execution : edge_execution
}.
Record GhGraphBlockedPair : Set := mkBlocked {
  k_from : jstr; k_fromPort : jstr; k_to : jstr; k_toPort : jstr; k_type : GhResourceKind;
  k_reasons : list GhIncompatibility
}.
Record GhGraphSummary : Set := mkSummary {
  nodes : nat; n_outputPorts : nat; n_inputPorts : nat; n_edges : nat; n_direct : nat;
  n_conditional : nat; blockedSameType : nat; byType : list (GhResourceKind * nat); executableFlows : nat
}.
Record GhCapabilityGraph : Set := mkGraph {
  edges : list GhGraphEdge; blocked : list GhGraphBlockedPair; summary : GhGraphSummary
}.

Definition is_leaf (c : GhManifestCommand) : bool :=
  negb (group c) && match aliasOf c with None => true | Some _ => false end
  && match contract_of c with Some _ => true | None => false end.

Definition ports_of (f : GhResultContract -> list GhPort) (leaves : list GhManifestCommand)
  : list (GhManifestCommand * GhPort) :=
  flat_map (fun c => map (pair c) (match contract_of c with Some r => f r | None => [] end)) leaves.

(** One round of the inner loop: an edge, a blocked pair of the same type, or nothing. *)
Inductive pair_outcome : Set := po_edge (e : GhGraphEdge) | po_blocked (b : GhGraphBlockedPair) | po_none.
Definition judge_pair (output input : GhManifestCommand * GhPort) : pair_outcome :=
  match contract_of output.1, contract_of input.1 with
  | Some sourceContract, Some targetContract =>
    let judged := judgePortCompatibility (mkEndpoint (cmd_id output.1) sourceContract output.2)
                    (mkEndpoint (cmd_id input.1) targetContract input.2) in
    match verdict judged with
    | incompatible =>
      if bool_decide (port_type output.2 = port_type input.2)
      then po_blocked (mkBlocked (cmd_id output.1) (port_id output.2) (cmd_id input.1) (port_id input.2)
                         (port_type output.2) (reasons judged))
      else po_none
    | v =>
      po_edge (mkEdge (cmd_id output.1) (port_id output.2) (cmd_id input.1) (port_id input.2)
        (port_type output.2) v (cp_conditions judged)
        (mkExecution (execution output.1) (execution input.1) false
          match execution input.1 with
          | ex_allowed => BINDING_EXECUTION_BLOCKED
          | e => js "입력 쪽 command의 실행이 열리지 않았다(" ++ execution_name e ++ js ") · "
                 ++ BINDING_EXECUTION_BLOCKED
          end))
    end
  | _, _ => po_none
  end.

(** [byTypeCounts.set(type, (get(type) ?? 0) + 1)]: a known type keeps its place. *)
Fixpoint count_type (k : GhResourceKind) (l : list (GhResourceKind * nat)) : list (GhResourceKind * nat) :=
  match l with
  | [] => [(k, 1)]
  | (k', n) :: l => if bool_decide (k' = k) then (k', S n) :: l else (k', n) :: count_type k l
  end.

Definition computeCapabilityGraph (commands : list GhManifestCommand) : GhCapabilityGraph :=
  let leaves := List.filter is_leaf commands in
  let outputs := ports_of outputPorts leaves in
  let inputs := ports_of inputPorts leaves in
  let judged := flat_map (fun o => map (judge_pair o) inputs) outputs in
  let es := flat_map (fun p => match p with po_edge e => [e] | _ => [] end) judged in
  let bs := flat_map (fun p => match p with po_blocked b => [b] | _ => [] end) judged in
  mkGraph es bs
    (mkSummary (length leaves) (length outputs) (length inputs) (length es)
       (length (List.filter (fun e => bool_decide (g_verdict e = direct)) es))
       (length (List.filter (fun e => bool_decide (g_verdict e = conditional)) es))
       (length bs) (foldl (fun m e => count_type (g_type e) m) [] es) 0).

(** ** Theorems *)

(** A port of a leaf command. *)
Definition has_port (f : GhResultContract -> list GhPort) (commands : list GhManifestCommand)
    (c : GhManifestCommand) (r : GhResultContract) (p : GhPort) : Prop :=
  c ∈ commands ∧ group c = false ∧ aliasOf c = None ∧ contract_of c = Some r ∧ p ∈ f r.

Lemma elem_of_flat_map {A B} (f : A -> list B) l y : y ∈ flat_map f l <-> ∃ x, x ∈ l ∧ y ∈ f x.
Proof. rewrite list_elem_of_In, in_flat_map. by setoid_rewrite <- list_elem_of_In. Qed.

Lemma ports_of_elem f commands x :
  x ∈ ports_of f (List.filter is_leaf commands) <-> ∃ r, has_port f commands x.1 r x.2.
Proof.
  destruct x as [c p]. unfold ports_of, has_port. rewrite elem_of_flat_map. split.
  - intros (c' & Hc & Hp). apply list_elem_of_fmap in Hp as (p' & [= <- <-] & Hp).
    rewrite list_elem_of_In, filter_In, <- list_elem_of_In in Hc. destruct Hc as [Hc Hl].
    unfold is_leaf in Hl. cbn [fst snd]. destruct (contract_of c) as [r|] eqn:Er; [|by rewrite andb_false_r in Hl].
    rewrite andb_true_r in Hl. apply andb_prop in Hl as [Hg Ha]. apply negb_true_iff in Hg.
    exists r. split_and!; try done. by destruct (aliasOf c).
  - cbn [fst snd]. intros (r & Hc & Hg & Ha & Hr & Hp). exists c. split.
    + rewrite list_elem_of_In, filter_In, <- list_elem_of_In. split; [done|].
      unfold is_leaf. by rewrite Hg, Ha, Hr.
    + rewrite Hr. apply list_elem_of_fmap. by exists p.
Qed.

Lemma judge_pair_edge o i ro ri :
  contract_of o.1 = Some ro -> contract_of i.1 = Some ri ->
  may_connect (mkEndpoint (cmd_id o.1) ro o.2) (mkEndpoint (cmd_id i.1) ri i.2) <->
  ∃ e, judge_pair o i = po_edge e.
Proof.
  intros Ho Hi. rewrite <- verdict_compatible. unfold judge_pair. rewrite Ho, Hi. cbv zeta.
  destruct (verdict _) eqn:E; split; intros H; try done; try (eexists; reflexivity).
  destruct H as [e H]. destruct (bool_decide _); discriminate.
Qed.

Definition edge_between (o i : GhManifestCommand * GhPort) (e : GhGraphEdge) : Prop :=
  g_from e = cmd_id o.1 ∧ g_fromPort e = port_id o.2 ∧ g_to e = cmd_id i.1 ∧ g_toPort e = port_id i.2 ∧
  g_type e = port_type o.2 ∧ g_conditions e = connection_conditions o.2 i.2 ∧
  (g_verdict e = direct <-> g_conditions e = []) ∧ g_verdict e <> incompatible ∧
  x_executable (g_execution e) = false.

Lemma judge_pair_data o i e : judge_pair o i = po_edge e -> edge_between o i e.
Proof.
  unfold judge_pair, edge_between. destruct (contract_of o.1) as [ro|], (contract_of i.1) as [ri|]; try discriminate.
  cbv zeta. unfold judgePortCompatibility. cbv zeta. cbn [verdict cp_conditions reasons e_port].
  destruct (incompatibilities _ _).
  - destruct (connection_conditions o.2 i.2) eqn:Ec; intros [= <-];
      cbn [g_from g_fromPort g_to g_toPort g_type g_conditions g_verdict g_execution x_executable];
      split_and!; done.
  - destruct (bool_decide _); discriminate.
Qed.

Lemma count_types_total l m :
  list_sum (map snd (foldl (fun m e => count_type (g_type e) m) m l)) = (list_sum (map snd m) + length l).
Proof.
  revert m. induction l as [|e l IH]; intros m; cbn [foldl length]; [lia|]. rewrite IH.
  assert (forall k m, list_sum (map snd (count_type k m)) = S (list_sum (map snd m))) as Hc.
  { intros k m'. induction m' as [|[k' n] m' IHm]; cbn; [done|].
    destruct (bool_decide _); cbn; [done|]. fold (list_sum (map snd m')).
    change (n + list_sum (map snd (count_type k m')) = S (n + list_sum (map snd m'))). lia. }
  rewrite Hc. lia.
Qed.

Lemma verdict_counts l :
  Forall (fun e => g_verdict e <> incompatible) l ->
  length (List.filter (fun e => bool_decide (g_verdict e = direct)) l)
  + length (List.filter (fun e => bool_decide (g_verdict e = conditional)) l) = length l.
Proof. 
  induction 1 as [|e l He _ IH]; [done|]. cbn [List.filter]. destruct (g_verdict e); [..|done].
  - change (S (length (List.filter (fun e => bool_decide (g_verdict e = direct)) l))
      + length (List.filter (fun e => bool_decide (g_verdict e = conditional)) l) = S (length l)). lia.
  - change (length (List.filter (fun e => bool_decide (g_verdict e = direct)) l)
      + S (length (List.filter (fun e => bool_decide (g_verdict e = conditional)) l)) = S (length l)). lia.
Qed.

(** The graph has an edge for every output port and every input port of leaf commands
    that may be connected, and no other; an edge is direct when it has no condition and is
    never executable, and the summary counts what is there, in total and by verdict and
    type. *)
Theorem capability_graph_exact commands :
  let g := computeCapabilityGraph commands in
  (forall o i ro ri, has_port outputPorts commands o.1 ro o.2 -> has_port inputPorts commands i.1 ri i.2 ->
     may_connect (mkEndpoint (cmd_id o.1) ro o.2) (mkEndpoint (cmd_id i.1) ri i.2) ->
     ∃ e, e ∈ edges g ∧ edge_between o i e) ∧
  (forall e, e ∈ edges g -> ∃ o i ro ri,
     has_port outputPorts commands o.1 ro o.2 ∧ has_port inputPorts commands i.1 ri i.2 ∧
     may_connect (mkEndpoint (cmd_id o.1) ro o.2) (mkEndpoint (cmd_id i.1) ri i.2) ∧ edge_between o i e) ∧
  n_edges (summary g) = length (edges g) ∧
  n_direct (summary g) + n_conditional (summary g) = length (edges g) ∧
  list_sum (map snd (byType (summary g))) = length (edges g) ∧ executableFlows (summary g) = 0.
Proof.
  cbv zeta. unfold computeCapabilityGraph. cbv zeta. cbn [edges summary n_edges n_direct n_conditional byType executableFlows].
  set (es := flat_map _ _).
  assert (forall e, e ∈ es <-> ∃ o i, (∃ r, has_port outputPorts commands o.1 r o.2) ∧
    (∃ r, has_port inputPorts commands i.1 r i.2) ∧ judge_pair o i = po_edge e) as Hes.
  { intros e. unfold es. rewrite elem_of_flat_map. setoid_rewrite <- ports_of_elem. split.
    - intros (p & Hp & He). apply elem_of_flat_map in Hp as (o & Ho & Hp).
      apply list_elem_of_fmap in Hp as (i & -> & Hi). exists o, i. split_and!; [done..|].
      destruct (judge_pair o i); [|by apply not_elem_of_nil in He..].
      apply list_elem_of_singleton in He. by subst.
    - intros (o & i & Ho & Hi & He). exists (po_edge e). split; [|by left].
      apply elem_of_flat_map. exists o. split; [done|]. apply list_elem_of_fmap. by exists i. }
  split_and!.
  - intros o i ro ri Ho Hi Hc. pose proof Ho as (_ & _ & _ & Hro & _). pose proof Hi as (_ & _ & _ & Hri & _).
    apply (judge_pair_edge o i ro ri Hro Hri) in Hc as [e He]. exists e.
    split; [|by apply judge_pair_data]. apply Hes. exists o, i. split_and!; by try eexists.
  - intros e He. apply Hes in He as (o & i & [ro Ho] & [ri Hi] & He). exists o, i, ro, ri.
    pose proof Ho as (_ & _ & _ & Hro & _). pose proof Hi as (_ & _ & _ & Hri & _).
    split_and!; [done..| |by apply judge_pair_data]. apply judge_pair_edge; [done..|by eexists].
  - done.
  - apply verdict_counts. apply Forall_forall. intros e (o & i & _ & _ & He)%Hes.
    apply judge_pair_data in He. by destruct He as (_ & _ & _ & _ & _ & _ & _ & ? & _).
  - by rewrite count_types_total.
  - done.
Qed.

Example graph_ex :
  let g := computeCapabilityGraph
    [mkCommand (js "pr.list") false None ex_allowed (Some (Some list_contract));
     mkCommand (js "pr.view") false None ex_not_implemented (Some (Some view_contract))] in
  (n_edges (summary g), n_conditional (summary g), byType (summary g)) = (1, 1, [(k_pull_request, 1)]).
Proof. vm_compute. reflexivity. Qed.
