(* ===== verification/RegistryPolicy.v ===== *)
(** * Approval of the registry and the execution gate

    [packages/gh-cli/src/registry-policy.ts], with the constants of [registry-cadence.ts],
    [pin.ts] and [capabilities.ts]: how old evidence may be, whether a request may be
    executed, and whether the operator may approve a definition.  A [Date] is its
    milliseconds; [toISOString] and the hash of a report are parameters. *)

From stdpp Require Import base list option strings numbers sets.
From Stdlib Require Import ZArith Lia.
From S2P Require Import Prelude JsString Json GhGraph.
Open Scope Z_scope.

(** ** Reports *)

Definition REQUIRED_APPROVAL_GATES : list jstr := [js "GATE-GH-01"; js "GATE-GH-01b"; js "GATE-GH-01d"].

Inductive report_status : Set := rs_passed | rs_incomplete | rs_failed.
#[export] Instance report_status_eq_dec : EqDecision report_status.
Proof. solve_decision. Defined.
Definition status_name (s : report_status) : jstr :=
  match s with rs_passed => js "passed" | rs_incomplete => js "incomplete" | rs_failed => js "failed" end.
Definition REPORT_STATUSES (s : jstr) : option report_status :=
  find_first (fun x => jeqb (status_name x) s) [rs_passed; rs_incomplete; rs_failed].

Record GhDecodedRegistryReport : Set := mkReport {
  rp_version : jstr; rp_status : report_status; hashVerified : bool; rp_manifestVersion : jstr;
  rp_manifestHash : jstr; rp_inventoryHash : jstr; rp_ghVersion : jstr; validatorVersion : jstr;
  rulesVersion : jstr; gates : list (jstr * bool)
}.
Inductive GhReportDecodeFailure : Set := df_unsupported | df_superseded | df_invalid.

Definition HEX64 (s : jstr) : bool := (length s =? 64)%nat && forallb is_hex_lower s.
Definition nonEmptyString (v : option json) : option jstr :=
  match v with
  | Some (JStr s) => if (0 <? length s)%nat && (length s <=? 200)%nat then Some s else None
  | _ => None
  end.
Definition hex64 (v : option json) : option jstr :=
  match v with Some (JStr s) => if HEX64 s then Some s else None | _ => None end.
Definition as_bool (v : option json) : option bool := match v with Some (JBool b) => Some b | _ => None end.

Definition decode_gate (g : json) : option (jstr * bool) :=
  match g with
  | JObj fs => id ← nonEmptyString (assoc (js "id") fs); pass ← as_bool (assoc (js "pass") fs); Some (id, pass)
  | _ => None
  end.

Definition decodeR2 (raw : list (jstr * json)) : option GhDecodedRegistryReport :=
  let get k := assoc (js k) raw in
  status ← match get "status" with Some (JStr s) => REPORT_STATUSES s | _ => None end;
  verified ← as_bool (get "hashVerified");
  manifestVersion ← nonEmptyString (get "manifestVersion");
  ghVersion ← nonEmptyString (get "ghVersion");
  validator ← nonEmptyString (get "validatorVersion");
  rules ← nonEmptyString (get "rulesVersion");
  manifestHash ← hex64 (get "manifestHash");
  inventoryHash ← hex64 (get "inventoryHash");
  match get "dimensions", get "contracts", get "gates" with
  | Some (JArr _), Some (JArr _ | JObj _), Some (JArr l) =>
    decoded ← mapM decode_gate l;
    Some (mkReport (js "r2") status verified manifestVersion manifestHash inventoryHash ghVersion validator rules decoded)
  | _, _, _ => None
  end.

Definition REPORT_DECODERS : list (jstr * (list (jstr * json) -> option GhDecodedRegistryReport)) :=
  [(js "r2", decodeR2)].
Definition SUPERSEDED_REPORT_VERSIONS : list jstr := [js "r1"].

Definition decodeRegistryReport (raw : json)
  : result (GhReportDecodeFailure * option jstr) GhDecodedRegistryReport :=
  match raw with
  | JObj record =>
    match as_string (assoc (js "reportVersion") record) with
    | None => Err (df_invalid, None)
    | Some version =>
      match assoc version REPORT_DECODERS with
      | None => Err (if mem version SUPERSEDED_REPORT_VERSIONS then df_superseded else df_unsupported, Some version)
      | Some decoder =>
        match decoder record with
        | None => Err (df_invalid, Some version)
        | Some report => Ok report
        end
      end
    end
  | _ => Err (df_invalid, None)
  end.

(** ** Freshness *)

Definition GH_VERSION_TIMEOUT_MS : Z := 10000.
Definition INVENTORY_HELP_TIMEOUT_MS : Z := 20000.
Definition INVENTORY_HELP_CONCURRENCY : Z := 4.
Definition REGISTRY_CHECK_RETRY_DELAYS_MS : list Z := [5000; 15000; 45000].
Definition GH_PINNED_VERSION : jstr := js "2.97.0".
Definition GH_PINNED_BINARY_SHA256 : jstr :=
  js "141507c337e8b202ad398550c3b73d72f5af92e86f71665214538a81efd4c409".

(** [ghVersion], [manifestVersion], [hash] and [commands] of a manifest. *)
Record GhCapabilityManifest : Set := mkManifest {
  m_ghVersion : jstr; m_manifestVersion : jstr; m_hash : jstr; commands : list GhManifestCommand
}.

Definition nonAliasCommandCount (cs : list GhManifestCommand) : Z :=
  Z.of_nat (length (List.filter (fun c => match aliasOf c with None => true | Some _ => false end) cs)).

Definition registryCheckRoundBudgetMs (commandsWithHelp : Z) : result jstr Z :=
  throw_if (negb (is_safe_integer commandsWithHelp) || (commandsWithHelp <? 0))
    (js "command 수가 음이 아닌 정수가 아니다: " ++ js_of_Z commandsWithHelp)
    (let attempt := GH_VERSION_TIMEOUT_MS + INVENTORY_HELP_TIMEOUT_MS + INVENTORY_HELP_TIMEOUT_MS
       + - (- commandsWithHelp / INVENTORY_HELP_CONCURRENCY) * INVENTORY_HELP_TIMEOUT_MS in
     let attempts := Z.of_nat (length REGISTRY_CHECK_RETRY_DELAYS_MS) + 1 in
     Ok (attempts * attempt + foldl Z.add 0 REGISTRY_CHECK_RETRY_DELAYS_MS)).

Definition registryEvidenceMaxAgeMs (intervalMs commandsWithHelp : Z) : result jstr Z :=
  throw_if (negb (is_safe_integer intervalMs) || (intervalMs <=? 0))
    (js "검사 주기가 양의 정수가 아니다: " ++ js_of_Z intervalMs)
    (b ← registryCheckRoundBudgetMs commandsWithHelp; Ok (intervalMs + b)).

(** ** Policy and registry *)

Record GhPolicyApproval : Set := mkApproval {
  ap_snapshotId : Z; ap_verificationId : Z; ap_reportHash : jstr; ap_manifestVersion : jstr;
  ap_manifestHash : jstr; ap_ghVersion : jstr; approvedAt : Z; approvedBy : jstr
}.
Record GhPolicyState : Set := mkPolicy {
  scope : jstr; revision : Z; approval : option GhPolicyApproval; blockedCapabilities : list jstr;
  updatedAt : option Z; updatedBy : option jstr
}.
Definition emptyPolicyState (scope : jstr) : GhPolicyState := mkPolicy scope 0 None [] None None.

Inductive GhRegistryVerdict : Set :=
| rv_ok | rv_stale (detail : jstr) | rv_expired (lastPassedAt maxAgeMs : Z) | rv_unchecked.

Definition executorRegistryVerdict (stale : bool) (lastPassedAt : option Z) (now intervalMs : Z)
    (cs : list GhManifestCommand) : result jstr GhRegistryVerdict :=
  if stale then Ok (rv_stale (js "registry_check_failed"))
  else match lastPassedAt with
  | None => Ok rv_unchecked
  | Some at_ =>
    maxAgeMs ← registryEvidenceMaxAgeMs intervalMs (nonAliasCommandCount cs);
    if maxAgeMs <? now - at_ then Ok (rv_expired at_ maxAgeMs) else Ok rv_ok
  end.

Record GhRecordedCheck : Set := mkRecorded { rc_status : jstr; rc_manifestHashExpected : jstr }.
Definition recordedRegistryVerdict (manifestHash : jstr) (latestDecisive : option GhRecordedCheck)
  : GhRegistryVerdict :=
  match latestDecisive with
  | None => rv_unchecked
  | Some latest =>
    if negb (jeqb (rc_manifestHashExpected latest) manifestHash) then rv_stale (js "executor_definition_differs")
    else if jeqb (rc_status latest) (js "passed") then rv_ok
    else rv_stale (js "latest_check_" ++ rc_status latest)
  end.

(** ** The gate *)

Inductive GhExecutionGateReason : Set :=
| operations_disabled | capability_not_executable | policy_unavailable | admin_action_required
| policy_blocked | policy_changed | registry_stale | registry_evidence_expired | registry_unchecked.

(** [policy = None] is ['unavailable']; [acceptedRevision = None] is [undefined]. *)
Record GhExecutionGateInput : Set := mkGateInput {
  operationsEnabled : bool; gi_capabilityId : jstr; gi_manifest : GhCapabilityManifest;
  policy : option GhPolicyState; registry : GhRegistryVerdict; acceptedRevision : option (option Z)
}.
Record denied : Set := mkDenied { d_reason : GhExecutionGateReason; d_revision : option Z; d_detail : option jstr }.

(** The id and the execution of every definition. *)
Definition EXECUTABLE_CAPABILITIES : list (jstr * GhExecutionStatus) := [(js "pr.list", ex_allowed)].
Definition findCapability (id : jstr) : option GhExecutionStatus := assoc id EXECUTABLE_CAPABILITIES.
Definition is_allowed (e : option GhExecutionStatus) : bool :=
  match e with Some ex_allowed => true | _ => false end.

Definition isExecutableByCode (cs : list GhManifestCommand) (capabilityId : jstr) : bool :=
  is_allowed (execution <$> find_first (fun c => jeqb (cmd_id c) capabilityId) cs)
  && is_allowed (findCapability capabilityId).

Definition approvalMatchesManifest (a : option GhPolicyApproval) (m : GhCapabilityManifest) : bool :=
  match a with
  | None => false
  | Some a => jeqb (ap_manifestHash a) (m_hash m) && jeqb (ap_manifestVersion a) (m_manifestVersion m)
              && jeqb (ap_ghVersion a) (m_ghVersion m) && jeqb (m_ghVersion m) GH_PINNED_VERSION
  end.

Definition show_revision (r : option Z) : jstr := match r with Some n => js_of_Z n | None => js "null" end.

Section gate.
Context (toISOString : Z -> jstr).

Definition decideExecution (i : GhExecutionGateInput) : result denied Z :=
  let deny reason detail := Err (mkDenied reason (revision <$> policy i) detail) in
  if negb (operationsEnabled i) then deny operations_disabled None
  else if negb (isExecutableByCode (commands (gi_manifest i)) (gi_capabilityId i))
  then deny capability_not_executable None
  else match policy i with
  | None => deny policy_unavailable None
  | Some p =>
    if negb (approvalMatchesManifest (approval p) (gi_manifest i))
    then deny admin_action_required
           (Some match approval p with None => js "no_approval" | Some _ => js "approved_definition_differs" end)
    else if mem (gi_capabilityId i) (blockedCapabilities p) then deny policy_blocked (Some (js "operator_blocked"))
    else if match acceptedRevision i with
            | Some r => negb (bool_decide (r = Some (revision p)))
            | None => false
            end
    then deny policy_changed
           (Some (js "accepted_" ++ show_revision (match acceptedRevision i with Some r => r | None => None end)
                  ++ js "_current_" ++ js_of_Z (revision p)))
    else match registry i with
    | rv_stale detail => deny registry_stale (Some detail)
    | rv_expired at_ _ => deny registry_evidence_expired (Some (js "last_passed_" ++ toISOString at_))
    | rv_unchecked => deny registry_unchecked None
    | rv_ok => Ok (revision p)
    end
  end.

End gate.

(** ** Eligibility *)

Inductive GhApprovalIneligibleReason : Set :=
| snapshot_missing | snapshot_unclassified | evidence_missing | evidence_not_passed
| evidence_other_definition | evidence_manifest_mismatch | evidence_binary_mismatch
| evidence_inventory_mismatch | evidence_cadence_unknown | evidence_stale
| report_version_unsupported | report_version_superseded | report_invalid | report_hash_mismatch
| report_not_reproducible | report_not_passed | gate_not_passed | already_approved.

Record GhApprovalSnapshot : Set := mkSnapshot {
  sn_snapshotId : Z; sn_ghVersion : jstr; sn_manifestVersion : jstr; sn_manifestHash : jstr;
  sn_inventoryHash : jstr; unclassifiedCount : Z; interactionUnclassifiedCount : Z;
  flagUnclassifiedCount : Z; positionalUnclassifiedCount : Z
}.
Record GhApprovalEvidence : Set := mkEvidence {
  ev_verificationId : Z; ev_snapshotId : Z; checkedAt : Z; checkedBy : jstr; ev_scope : option jstr;
  ev_status : jstr; environment : list (jstr * json); ghVersionExpected : jstr;
  ghVersionObserved : option jstr; binarySha256Expected : jstr; binarySha256Observed : option jstr;
  manifestHashExpected : jstr; manifestHashObserved : option jstr; inventoryHashExpected : jstr;
  inventoryHashObserved : option jstr; report : json; ev_reportHash : jstr
}.
Record GhApprovalEligibilityInput : Set := mkEligibilityInput {
  el_scope : jstr; el_manifest : GhCapabilityManifest; servedReport : json;
  snapshot : option GhApprovalSnapshot; latestEvidence : option GhApprovalEvidence;
  el_policy : GhPolicyState; now : Z
}.
Abbreviation reason_list := (list (GhApprovalIneligibleReason * option jstr)).

Definition evidenceIntervalMs (environment : list (jstr * json)) : option Z :=
  match assoc (js "registry_check_ms") environment with
  | Some (JNum raw) =>
    if is_safe_integer raw && (60000 <=? raw) && (raw <=? 7 * 86400000) then Some raw else None
  | _ => None
  end.

Definition add_if (b : bool) (code : GhApprovalIneligibleReason) (detail : option jstr) : reason_list :=
  if b then [(code, detail)] else [].
Definition same (observed : option jstr) (expected : jstr) : bool := bool_decide (observed = Some expected).

Definition snapshot_reasons (s : option GhApprovalSnapshot) : reason_list :=
  match s with
  | None => [(snapshot_missing, None)]
  | Some s => add_if (0 <? unclassifiedCount s + interactionUnclassifiedCount s + flagUnclassifiedCount s
                          + positionalUnclassifiedCount s) snapshot_unclassified None
  end.

(** What the fields of the evidence say, up to its age. *)
Definition evidence_reasons (i : GhApprovalEligibilityInput) (e : GhApprovalEvidence) : reason_list :=
  let s := snapshot i in
  add_if (negb (jeqb (checkedBy e) (js "gh-executor")) || negb (same (ev_scope e) (el_scope i)))
    evidence_missing (Some (js "not_executor_record_for_scope"))
  ++ add_if (negb (jeqb (ev_status e) (js "passed"))) evidence_not_passed (Some (ev_status e))
  ++ add_if (match s with
             | Some s => negb (ev_snapshotId e =? sn_snapshotId s)
                         || negb (jeqb (manifestHashExpected e) (sn_manifestHash s))
             | None => false
             end || negb (jeqb (manifestHashExpected e) (m_hash (el_manifest i)))) evidence_other_definition None
  ++ add_if (negb (same (manifestHashObserved e) (manifestHashExpected e))) evidence_manifest_mismatch None
  ++ add_if (negb (same (binarySha256Observed e) (binarySha256Expected e))
             || negb (jeqb (binarySha256Expected e) GH_PINNED_BINARY_SHA256)
             || negb (same (ghVersionObserved e) (ghVersionExpected e))
             || negb (jeqb (ghVersionExpected e) GH_PINNED_VERSION)
             || match s with Some s => negb (jeqb (sn_ghVersion s) (ghVersionExpected e)) | None => false end)
       evidence_binary_mismatch None
  ++ add_if (negb (same (inventoryHashObserved e) (inventoryHashExpected e))
             || match s with
                | Some s => negb (jeqb (sn_inventoryHash s) (inventoryHashExpected e))
                | None => false
                end) evidence_inventory_mismatch None.

Definition max_age (i : GhApprovalEligibilityInput) (intervalMs : Z) : result jstr Z :=
  registryEvidenceMaxAgeMs intervalMs (nonAliasCommandCount (commands (el_manifest i))).

Definition age_reasons (i : GhApprovalEligibilityInput) (e : GhApprovalEvidence) : result jstr reason_list :=
  match evidenceIntervalMs (environment e) with
  | None => Ok [(evidence_cadence_unknown, None)]
  | Some intervalMs =>
    maxAge ← max_age i intervalMs;
    let age := now i - checkedAt e in
    Ok (add_if ((maxAge <? age) || (age <? 0)) evidence_stale
          (if age <? 0 then Some (js "checked_in_future") else None))
  end.

(** [report.gates.find((gate) => gate.id === id)?.pass === true] *)
Definition gate_passes (r : GhDecodedRegistryReport) (id : jstr) : bool :=
  match find_first (fun g => jeqb g.1 id) (gates r) with Some g => g.2 | None => false end.

Definition already (i : GhApprovalEligibilityInput) : bool :=
  match snapshot i, approval (el_policy i) with
  | Some s, Some a => (ap_snapshotId a =? sn_snapshotId s) && approvalMatchesManifest (Some a) (el_manifest i)
  | _, _ => false
  end.

Record GhApprovalEligibility : Set := mkEligibility {
  eligible : bool; el_reasons : list (GhApprovalIneligibleReason * option jstr);
  el_snapshotId : option Z; el_verificationId : option Z; el_reportHash : option jstr;
  reportVersion : option jstr; evidenceCheckedAt : option Z; evidenceMaxAgeMs : option Z;
  evidenceExpiresAt : option Z; el_gates : list (jstr * bool); opens : list jstr
}.

(** The ids the code opens. *)
Definition opened (m : GhCapabilityManifest) : list jstr :=
  map cmd_id (List.filter (fun c => isExecutableByCode (commands m) (cmd_id c)) (commands m)).

Section eligibility.
Context (reportHash : json -> jstr).

Definition report_reasons (i : GhApprovalEligibilityInput) (e : GhApprovalEvidence) : reason_list :=
  match decodeRegistryReport (report e) with
  | Err (reason, version) =>
    [(match reason with
      | df_unsupported => report_version_unsupported
      | df_superseded => report_version_superseded
      | df_invalid => report_invalid
      end, version)]
  | Ok r =>
    let failing := List.filter (fun id => negb (gate_passes r id)) REQUIRED_APPROVAL_GATES in
    add_if (negb (jeqb (reportHash (report e)) (ev_reportHash e))) report_hash_mismatch None
    ++ add_if (negb (jeqb (reportHash (servedReport i)) (ev_reportHash e))) report_not_reproducible None
    ++ add_if (negb (bool_decide (rp_status r = rs_passed)) || negb (hashVerified r)
               || negb (jeqb (rp_manifestHash r) (m_hash (el_manifest i)))
               || negb (jeqb (rp_manifestVersion r) (m_manifestVersion (el_manifest i)))
               || negb (jeqb (rp_ghVersion r) GH_PINNED_VERSION))
         report_not_passed (Some (status_name (rp_status r)))
    ++ match failing with
       | [] => []
       | _ => [(gate_not_passed, Some (join (js ",") failing))]
       end
  end.

Definition evaluateApprovalEligibility (i : GhApprovalEligibilityInput) : result jstr GhApprovalEligibility :=
  let evidence := latestEvidence i in
  aged ← match evidence with Some e => age_reasons i e | None => Ok [] end;
  maxAge ← match evidence with
           | Some e => match evidenceIntervalMs (environment e) with
                       | Some intervalMs => m ← max_age i intervalMs; Ok (Some m)
                       | None => Ok None
                       end
           | None => Ok None
           end;
  let rs := snapshot_reasons (snapshot i)
            ++ match evidence with
               | Some e => evidence_reasons i e ++ aged ++ report_reasons i e
               | None => [(evidence_missing, None)]
               end
            ++ add_if (already i) already_approved None in
  let decoded := (λ e, decodeRegistryReport (report e)) <$> evidence in
  Ok (mkEligibility (match rs with [] => true | _ => false end) rs
        (sn_snapshotId <$> snapshot i) (ev_verificationId <$> evidence) (ev_reportHash <$> evidence)
        (match decoded with
         | Some (Ok r) => Some (rp_version r)
         | Some (Err (_, v)) => v
         | None => None
         end)
        (checkedAt <$> evidence) maxAge
        (match evidence, maxAge with Some e, Some m => Some (checkedAt e + m) | _, _ => None end)
        (match decoded with Some (Ok r) => gates r | _ => [] end)
        (opened (el_manifest i))).

End eligibility.

(** ** Theorems *)

Section theorems.
Context (toISOString : Z -> jstr) (reportHash : json -> jstr).

(** The gate allows a request exactly when operations are on, the code and the manifest
    open the capability, the policy was read, its approval is of the loaded definition
    (pinned version included), the operator did not block the capability, a waiting request
    was accepted under the current revision, and the registry check is good; a request that
    is refused for the policy or the registry is one the code opens. *)
Theorem decideExecution_spec i :
  (forall r, decideExecution toISOString i = Ok r <->
     operationsEnabled i = true ∧ isExecutableByCode (commands (gi_manifest i)) (gi_capabilityId i) = true ∧
     ∃ p, policy i = Some p ∧ r = revision p ∧ approvalMatchesManifest (approval p) (gi_manifest i) = true ∧
       gi_capabilityId i ∉ blockedCapabilities p ∧
       (forall accepted, acceptedRevision i = Some accepted -> accepted = Some (revision p)) ∧
       registry i = rv_ok) ∧
  (forall d, decideExecution toISOString i = Err d ->
     d_revision d = revision <$> policy i ∧
     (d_reason d = operations_disabled \/ d_reason d = capability_not_executable \/
      isExecutableByCode (commands (gi_manifest i)) (gi_capabilityId i) = true)).
Proof.
  unfold decideExecution. cbv zeta.
  destruct (operationsEnabled i); cbn [negb].
  2: { split; [intros r; split; [discriminate|by intros [? _]]|]. intros d [= <-]. cbn. auto. }
  destruct (isExecutableByCode _ _); cbn [negb].
  2: { split; [intros r; split; [discriminate|by intros (_ & ? & _)]|]. intros d [= <-]. cbn. auto. }
  destruct (policy i) as [p|].
  2: { split; [intros r; split; [discriminate|by intros (_ & _ & p & ? & _)]|]. intros d [= <-]. cbn. auto. }
  destruct (approvalMatchesManifest (approval p) _) eqn:Ea; cbn [negb].
  2: { split; [intros r; split; [discriminate|intros (_ & _ & p' & [= <-] & _ & H & _); congruence]|]. intros d [= <-]. cbn. auto. }
  destruct (mem _ _) eqn:Em.
  { apply mem_elem in Em. split; [intros r; split; [discriminate|by intros (_ & _ & p' & [= <-] & _ & _ & ? & _)]|]. intros d [= <-]. cbn. auto. }
  apply mem_false in Em.
  destruct (match acceptedRevision i with Some _ => _ | None => _ end) eqn:Er.
  - split; [|intros d [= <-]; cbn; auto]. intros r. split; [discriminate|].
    intros (_ & _ & p' & [= <-] & _ & _ & _ & H & _). destruct (acceptedRevision i) as [a|]; [|discriminate].
    by rewrite (H a eq_refl), bool_decide_eq_true_2 in Er.
  - assert (forall a, acceptedRevision i = Some a -> a = Some (revision p)) as Hr.
    { intros a Ha. rewrite Ha in Er. by apply negb_false_iff, bool_decide_eq_true in Er. }
    split.
    + intros r. destruct (registry i); split; naive_solver.
    + intros d. destruct (registry i); intros [= <-]; cbn; auto.
Qed.

(** Ids are opened by the code alone. *)
Lemma opened_spec m id : id ∈ opened m <-> isExecutableByCode (commands m) id = true.
Proof.
  unfold opened. rewrite list_elem_of_fmap. split.
  - intros (c & -> & Hc). rewrite list_elem_of_In, filter_In in Hc. by destruct Hc.
  - intros H. pose proof H as Hx. unfold isExecutableByCode in Hx. apply andb_prop in Hx as [Hx _].
    destruct (find_first _ (commands m)) as [c|] eqn:E; [|discriminate].
    apply find_first_Some in E as [Hc Hid]. apply jeqb_eq in Hid. subst id. exists c. split; [done|].
    by rewrite list_elem_of_In, filter_In, <- list_elem_of_In.
Qed.

(** The approval of a definition. *)
Definition approves (a : GhPolicyApproval) (m : GhCapabilityManifest) : Prop :=
  ap_manifestHash a = m_hash m ∧ ap_manifestVersion a = m_manifestVersion m ∧ ap_ghVersion a = m_ghVersion m.

(** Approval opens what the eligibility screen says it opens and nothing else: with the
    loaded definition approved and the registry check good, the gate lets exactly those
    capabilities through that the operator did not block. *)
Theorem approval_opens_exactly i p a :
  operationsEnabled i = true -> policy i = Some p -> approval p = Some a -> approves a (gi_manifest i) ->
  m_ghVersion (gi_manifest i) = GH_PINNED_VERSION -> registry i = rv_ok -> acceptedRevision i = None ->
  decideExecution toISOString i = Ok (revision p) <->
  gi_capabilityId i ∈ opened (gi_manifest i) ∧ gi_capabilityId i ∉ blockedCapabilities p.
Proof.
  intros Ho Hp Ha (H1 & H2 & H3) Hv Hr Hn. rewrite opened_spec. unfold decideExecution.
  rewrite Ho, Hp, Ha, Hr, Hn. cbn [negb]. cbv zeta. unfold approvalMatchesManifest.
  rewrite H1, H2, H3, Hv, !jeqb_refl. cbn [andb negb].
  destruct (isExecutableByCode _ _); cbn [negb]; [|split; [discriminate|by intros [? _]]].
  destruct (mem _ _) eqn:Em; [apply mem_elem in Em|apply mem_false in Em]; by split; [|intros [_ ?]].
Qed.

Lemma add_if_nil b c d : add_if b c d = [] <-> b = false.
Proof. by destruct b. Qed.
Lemma same_spec o e : same o e = true <-> o = Some e.
Proof. unfold same. apply bool_decide_eq_true. Qed.

(** What the evidence must be: the executor's record for the scope, passed, of the loaded
    definition and of the snapshot, with the pinned binary. *)
Definition good_evidence (i : GhApprovalEligibilityInput) (s : GhApprovalSnapshot) (e : GhApprovalEvidence) : Prop :=
  checkedBy e = js "gh-executor" ∧ ev_scope e = Some (el_scope i) ∧ ev_status e = js "passed" ∧
  ev_snapshotId e = sn_snapshotId s ∧ manifestHashExpected e = sn_manifestHash s ∧
  manifestHashExpected e = m_hash (el_manifest i) ∧ manifestHashObserved e = Some (manifestHashExpected e) ∧
  binarySha256Observed e = Some (binarySha256Expected e) ∧ binarySha256Expected e = GH_PINNED_BINARY_SHA256 ∧
  ghVersionObserved e = Some (ghVersionExpected e) ∧ ghVersionExpected e = GH_PINNED_VERSION ∧
  sn_ghVersion s = ghVersionExpected e ∧ inventoryHashObserved e = Some (inventoryHashExpected e) ∧
  sn_inventoryHash s = inventoryHashExpected e.

Lemma evidence_reasons_nil i s e : snapshot i = Some s -> evidence_reasons i e = [] <-> good_evidence i s e.
Proof.
  intros Hs. unfold evidence_reasons, good_evidence. cbv zeta. rewrite Hs, !app_nil, !add_if_nil.
  rewrite !orb_false_iff, !negb_false_iff, !jeqb_eq, !same_spec, Z.eqb_eq. tauto.
Qed.

Definition good_report (i : GhApprovalEligibilityInput) (e : GhApprovalEvidence) : Prop :=
  ∃ r, decodeRegistryReport (report e) = Ok r ∧ reportHash (report e) = ev_reportHash e ∧
    reportHash (servedReport i) = ev_reportHash e ∧ rp_status r = rs_passed ∧ hashVerified r = true ∧
    rp_manifestHash r = m_hash (el_manifest i) ∧ rp_manifestVersion r = m_manifestVersion (el_manifest i) ∧
    rp_ghVersion r = GH_PINNED_VERSION ∧ Forall (fun id => gate_passes r id = true) REQUIRED_APPROVAL_GATES.

Lemma report_reasons_nil i e : report_reasons reportHash i e = [] <-> good_report i e.
Proof.
  unfold report_reasons, good_report. destruct (decodeRegistryReport (report e)) as [r|[]].
  2: { split; [done|]. by intros (r & H & _). }
  cbv zeta. rewrite !app_nil, !add_if_nil, !orb_false_iff, !negb_false_iff, !jeqb_eq, bool_decide_eq_true.
  assert (forall l, (match List.filter (fun id => negb (gate_passes r id)) l with [] => [] | _ :: _ =>
     [(gate_not_passed, Some (join (js ",") (List.filter (fun id => negb (gate_passes r id)) l)))] end) = []
     <-> Forall (fun id => gate_passes r id = true) l) as Hg.
  { intros l. induction l as [|x l IH]; cbn [List.filter]; [done|]. rewrite Forall_cons, <- IH.
    destruct (gate_passes r x); cbn [negb]; [|split; [done|by intros [? _]]].
    destruct (List.filter _ l); naive_solver. }
  rewrite (Hg REQUIRED_APPROVAL_GATES). split; [intros H|intros (r' & [= <-] & H)]; [exists r|]; tauto.
Qed.

(** Approval is offered exactly when the snapshot is fully classified, the evidence is the
    executor's, passed, of this definition and fresh (neither older than the cadence allows
    nor from the future), its report decodes, is the one the server computes for the same
    definition and passes every required gate, and the definition is not approved
    already. *)
Theorem eligibility_spec i el s e intervalMs maxAge :
  evaluateApprovalEligibility reportHash i = Ok el ->
  snapshot i = Some s -> latestEvidence i = Some e ->
  evidenceIntervalMs (environment e) = Some intervalMs -> max_age i intervalMs = Ok maxAge ->
  eligible el = true <->
  unclassifiedCount s + interactionUnclassifiedCount s + flagUnclassifiedCount s + positionalUnclassifiedCount s <= 0 ∧
  good_evidence i s e ∧ 0 <= now i - checkedAt e <= maxAge ∧ good_report i e ∧ already i = false.
Proof.
  intros H Hs He Hi Hm. unfold evaluateApprovalEligibility in H. cbv zeta in H. rewrite He in H.
  unfold age_reasons in H. rewrite Hi, Hm in H. cbn [mbind result_bind] in H. injection H as <-.
  cbn [eligible]. set (rs := snapshot_reasons _ ++ _).
  assert (match rs with [] => true | _ => false end = true <-> rs = []) as -> by by destruct rs.
  unfold rs, snapshot_reasons. rewrite Hs, !app_nil, !add_if_nil, (evidence_reasons_nil _ _ _ Hs), report_reasons_nil.
  rewrite orb_false_iff, !Z.ltb_ge. tauto.
Qed.

(** Without a snapshot, without evidence or without a known cadence there is no approval. *)
Theorem eligibility_needs_evidence i el :
  evaluateApprovalEligibility reportHash i = Ok el -> eligible el = true ->
  ∃ s e intervalMs, snapshot i = Some s ∧ latestEvidence i = Some e ∧
    evidenceIntervalMs (environment e) = Some intervalMs.
Proof.
  unfold evaluateApprovalEligibility, age_reasons, snapshot_reasons. cbv zeta.
  destruct (snapshot i) as [s|]; destruct (latestEvidence i) as [e|]; cbn [mbind result_bind].
  - destruct (evidenceIntervalMs (environment e)) as [n|] eqn:E; cbn [mbind result_bind].
    + intros _ _. by exists s, e, n.
    + intros [= <-]. cbn [eligible]. destruct (add_if _ _ _); [|done].
      by destruct (evidence_reasons i e).
  - intros [= <-]. cbn [eligible]. by destruct (add_if _ _ _).
  - destruct (evidenceIntervalMs (environment e)) as [n|]; cbn [mbind result_bind].
    + destruct (max_age i n); cbn [mbind result_bind]; [|discriminate]. by intros [= <-].
    + by intros [= <-].
  - by intros [= <-].
Qed.

End theorems.

(** The executor runs only on evidence that is no older than one period and one round of
    checks, and decides for every period and number of commands. *)
Theorem executor_freshness stale last now intervalMs cs :
  0 < intervalMs <= MAX_SAFE_INTEGER -> nonAliasCommandCount cs <= MAX_SAFE_INTEGER ->
  ∃ v, executorRegistryVerdict stale last now intervalMs cs = Ok v ∧
    (v = rv_ok <-> stale = false ∧ ∃ at_, last = Some at_ ∧
       now - at_ <= intervalMs + 265000 + 80000 * ((nonAliasCommandCount cs + 3) / 4)).
Proof.
  intros Hi Hn. unfold executorRegistryVerdict. destruct stale; [eexists; split; [done|naive_solver]|].
  destruct last as [at_|]; [|eexists; split; [done|naive_solver]].
  assert (0 <= nonAliasCommandCount cs) by (unfold nonAliasCommandCount; lia).
  set (n := nonAliasCommandCount cs) in *.
  assert (registryEvidenceMaxAgeMs intervalMs n = Ok (intervalMs + 265000 + 80000 * ((n + 3) / 4))) as ->.
  { unfold registryEvidenceMaxAgeMs, registryCheckRoundBudgetMs, throw_if, INVENTORY_HELP_CONCURRENCY.
    rewrite !(proj2 (is_safe_integer_spec _)) by (unfold MAX_SAFE_INTEGER in *; lia).
    rewrite (proj2 (Z.leb_gt _ _)), (proj2 (Z.ltb_ge _ _)) by lia. cbn [negb orb mbind result_bind]. cbv zeta.
    f_equal. unfold GH_VERSION_TIMEOUT_MS, INVENTORY_HELP_TIMEOUT_MS, REGISTRY_CHECK_RETRY_DELAYS_MS.
    cbn [length foldl]. assert (- (- n / 4) = (n + 3) / 4) by (Z.to_euclidean_division_equations; lia). lia. }
  cbn [mbind result_bind]. destruct (_ <? _) eqn:E; eexists; (split; [done|]); bool_to_prop; naive_solver lia.
Qed.

(** ** Examples *)

Definition sample_manifest : GhCapabilityManifest :=
  mkManifest GH_PINNED_VERSION (js "r3") (js "aa")
    [mkCommand (js "pr.list") false None ex_allowed None; mkCommand (js "pr.merge") false None ex_policy_blocked None].
Definition sample_approval : GhPolicyApproval := mkApproval 5 8 (js "rh") (js "r3") (js "aa") GH_PINNED_VERSION 0 (js "kim").
Definition sample_policy : GhPolicyState := mkPolicy (js "main") 4 (Some sample_approval) [js "pr.merge"] None None.
Definition sample_gate : GhExecutionGateInput :=
  mkGateInput true (js "pr.list") sample_manifest (Some sample_policy) rv_ok None.
Lemma approval_opens_exactly_witness :
  decideExecution js_of_Z sample_gate = Ok 4 <->
  js "pr.list" ∈ opened sample_manifest ∧ js "pr.list" ∉ [js "pr.merge"].
Proof.
  apply (approval_opens_exactly js_of_Z sample_gate sample_policy sample_approval); by vm_compute.
Defined.

Definition hex_text : jstr := repeat 97%N 64.
Definition sample_report : json :=
  JObj [(js "reportVersion", JStr (js "r2")); (js "status", JStr (js "passed")); (js "hashVerified", JBool true);
        (js "manifestVersion", JStr (js "r3")); (js "ghVersion", JStr GH_PINNED_VERSION);
        (js "validatorVersion", JStr (js "v1")); (js "rulesVersion", JStr (js "w1"));
        (js "manifestHash", JStr hex_text); (js "inventoryHash", JStr hex_text);
        (js "dimensions", JArr []); (js "contracts", JArr []);
        (js "gates", JArr (map (fun g => JObj [(js "id", JStr g); (js "pass", JBool true)]) REQUIRED_APPROVAL_GATES))].
Definition eligible_manifest : GhCapabilityManifest :=
  mkManifest GH_PINNED_VERSION (js "r3") hex_text [mkCommand (js "pr.list") false None ex_allowed None].
Definition eligible_snapshot : GhApprovalSnapshot := mkSnapshot 5 GH_PINNED_VERSION (js "r3") hex_text hex_text 0 0 0 0.
Definition eligible_evidence : GhApprovalEvidence :=
  mkEvidence 8 5 1000 (js "gh-executor") (Some (js "main")) (js "passed") [(js "registry_check_ms", JNum 3600000)]
    GH_PINNED_VERSION (Some GH_PINNED_VERSION) GH_PINNED_BINARY_SHA256 (Some GH_PINNED_BINARY_SHA256)
    hex_text (Some hex_text) hex_text (Some hex_text) sample_report (js "rh").
Definition eligible_input : GhApprovalEligibilityInput :=
  mkEligibilityInput (js "main") eligible_manifest sample_report (Some eligible_snapshot) (Some eligible_evidence)
    (emptyPolicyState (js "main")) 2000.
Definition sample_hash (_ : json) : jstr := js "rh".
Definition eligible_result : option GhApprovalEligibility :=
  match evaluateApprovalEligibility sample_hash eligible_input with Ok e => Some e | Err _ => None end.
Example eligible_example : eligible <$> eligible_result = Some true.
Proof. vm_compute. reflexivity. Qed.
Definition sample_max_age : Z :=
  match max_age eligible_input 3600000 with Ok n => n | Err _ => 0 end.
Lemma eligibility_spec_witness :
  ∃ el, evaluateApprovalEligibility sample_hash eligible_input = Ok el ∧
    (eligible el = true <->
     unclassifiedCount eligible_snapshot + interactionUnclassifiedCount eligible_snapshot +
       flagUnclassifiedCount eligible_snapshot + positionalUnclassifiedCount eligible_snapshot <= 0 ∧
     good_evidence eligible_input eligible_snapshot eligible_evidence ∧
     0 <= now eligible_input - checkedAt eligible_evidence <= sample_max_age ∧
     good_report sample_hash eligible_input eligible_evidence ∧ already eligible_input = false).
Proof.
  destruct (evaluateApprovalEligibility sample_hash eligible_input) as [el|e] eqn:E; [|by vm_compute in E].
  exists el. split; [done|].
  apply (eligibility_spec js_of_Z sample_hash eligible_input el eligible_snapshot eligible_evidence 3600000 sample_max_age E);
    vm_compute; reflexivity.
Defined.
