(* ===== verification/RedisStreams.v ===== *)
(** * The event bus on Redis Streams

    [packages/bus/src/redis-streams.ts].  Redis is not code of the repository: its commands
    are the class [StreamServer], and what the adapter relies on (the documented behaviour
    of consumer groups) is the class [StreamLaws], in terms of what a group sees of a
    stream: its entries, how many it has read and its pending list.  The handler, and
    whatever others do to the server while it runs or while the loop sleeps, are
    parameters.  [calls] is not in the code: it records what was handed to the handler or
    dropped, and whether it was acknowledged. *)

From stdpp Require Import base list option strings numbers gmap sets.
From Stdlib Require Import ZArith Lia.
From S2P Require Import Prelude JsString Json SequenceSpace Partition InMemoryBus.
Open Scope Z_scope.

(** [[k, v, k, v, ...]] as a record: a known key is overwritten in place. *)
Fixpoint readPairs_from (l : list json) (record : list (jstr * json)) : list (jstr * json) :=
  match l with
  | key :: value :: l =>
    readPairs_from l (match key with JStr k => map_set k value record | _ => record end)
  | _ => record
  end.
Definition readPairs (e : json) : list (jstr * json) :=
  match e with JArr l => readPairs_from l [] | _ => [] end.

(** ** Redis *)

Abbreviation entry := (jstr * list jstr)%type.

Class StreamServer (R : Type) := {
  xadd : jstr -> list jstr -> R -> R;
  xlen : jstr -> R -> Z;
  (** [XINFO GROUPS]; [None] is the error of a missing stream. *)
  xinfo_groups : jstr -> R -> option json;
  xgroup_create : jstr -> jstr -> R -> result jstr R;
  (** The first element of the summary of [XPENDING]. *)
  xpending : jstr -> jstr -> R -> Z;
  (** [XPENDING stream group IDLE ms - + count] at a time: ids with their delivery counts. *)
  xpending_idle : jstr -> jstr -> Z -> nat -> Z -> R -> list (jstr * Z);
  xclaim : jstr -> jstr -> jstr -> Z -> list jstr -> Z -> R -> list entry * R;
  xreadgroup : jstr -> jstr -> nat -> list jstr -> Z -> R -> list (jstr * list entry) * R;
  xack : jstr -> jstr -> jstr -> R -> R
}.

Record pel_row : Set := mkRow { row_id : jstr; row_time : Z; row_count : Z }.
Record group_view : Set := mkView { log : list entry; read : nat; pel : list pel_row }.

Definition idle (minIdle now : Z) (row : pel_row) : bool := minIdle <=? now - row_time row.
Definition entry_of (l : list entry) (id : jstr) : option entry := find_first (fun e => jeqb e.1 id) l.
Definition find_row (l : list pel_row) (id : jstr) : option pel_row := find_first (fun r => jeqb (row_id r) id) l.

(** What a claim returns for one id, and what it leaves of a row. *)
Definition claimed_entry (v : group_view) (minIdle now : Z) (id : jstr) : option entry :=
  row ← find_row (pel v) id; if idle minIdle now row then entry_of (log v) id else None.
Definition claim_row (minIdle now : Z) (ids : list jstr) (row : pel_row) : pel_row :=
  if mem (row_id row) ids && idle minIdle now row then mkRow (row_id row) now (row_count row + 1) else row.

Definition fresh_entries (count : nat) (v : group_view) : list entry := take count (drop (read v) (log v)).

(** The description of a group by its name. *)
Definition named (g : jstr) (e : json) : bool :=
  bool_decide (as_string (assoc (js "name") (readPairs e)) = Some g).

Class StreamLaws (R : Type) `{StreamServer R} := {
  view : R -> jstr -> jstr -> option group_view;
  view_ids r s g v : view r s g = Some v -> NoDup (map fst (log v));
  add_view s f r s' g v : view r s' g = Some v ->
    ∃ more, view (xadd s f r) s' g = Some (mkView (log v ++ more) (read v) (pel v));
  create_view s g r r' : xgroup_create s g r = Ok r' ->
    (∃ l, view r' s g = Some (mkView l 0 [])) ∧
    (forall s' g', (s', g') <> (s, g) -> view r' s' g' = view r s' g');
  info_view r s g v : view r s g = Some v ->
    xlen s r = Z.of_nat (length (log v)) ∧
    ∃ groups e, xinfo_groups s r = Some (JArr groups) ∧ find_first (named g) groups = Some e ∧
      assoc (js "pending") (readPairs e) = Some (JNum (Z.of_nat (length (pel v)))) ∧
      (assoc (js "lag") (readPairs e) = Some (JNum (Z.of_nat (length (log v) - read v))) \/
       assoc (js "lag") (readPairs e) = Some JNull ∧
       assoc (js "entries-read") (readPairs e) = Some (JNum (Z.of_nat (read v))));
  pending_view s g r v : view r s g = Some v -> xpending s g r = Z.of_nat (length (pel v));
  idle_view s g minIdle count now r v : view r s g = Some v ->
    xpending_idle s g minIdle count now r
    = map (fun row => (row_id row, row_count row)) (take count (List.filter (idle minIdle now) (pel v)));
  claim_view s g c minIdle ids now r v : view r s g = Some v ->
    (xclaim s g c minIdle ids now r).1 = omap (claimed_entry v minIdle now) ids ∧
    view (xclaim s g c minIdle ids now r).2 s g
      = Some (mkView (log v) (read v) (map (claim_row minIdle now ids) (pel v))) ∧
    (forall s' g', (s', g') <> (s, g) -> view (xclaim s g c minIdle ids now r).2 s' g' = view r s' g');
  readgroup_view g c count ss now r :
    NoDup ss -> Forall (fun s => is_Some (view r s g)) ss ->
    (xreadgroup g c count ss now r).1
      = List.filter (fun p => negb (length p.2 =? 0)%nat)
          (omap (fun s => v ← view r s g; Some (s, fresh_entries count v)) ss) ∧
    (forall s v, s ∈ ss -> view r s g = Some v ->
       view (xreadgroup g c count ss now r).2 s g
       = Some (mkView (log v) (read v + length (fresh_entries count v))
                 (pel v ++ map (fun e => mkRow e.1 now 1) (fresh_entries count v)))) ∧
    (forall s g', s ∉ ss \/ g' <> g -> view (xreadgroup g c count ss now r).2 s g' = view r s g');
  ack_view s g id r v : view r s g = Some v ->
    view (xack s g id r) s g
      = Some (mkView (log v) (read v) (List.filter (fun row => negb (jeqb (row_id row) id)) (pel v))) ∧
    (forall s' g', (s', g') <> (s, g) -> view (xack s g id r) s' g' = view r s' g')
}.

(** ** Messages *)

Definition batchSize_default : nat := 16.
Definition blockMs_default : Z := 1000.
Definition claimIdleMs_default : Z := 30000.
Definition idleSleepMs : Z := 25.

Fixpoint fieldsToRecord_from (fields : list jstr) (record : list (jstr * jstr)) : list (jstr * jstr) :=
  match fields with
  | key :: value :: fields => fieldsToRecord_from fields (map_set key value record)
  | _ => record
  end.
Definition fieldsToRecord (fields : list jstr) : list (jstr * jstr) := fieldsToRecord_from fields [].

Record EventEnvelope : Set := mkEnvelope {
  en_event_id : jstr; en_event_name : jstr; en_correlation_id : jstr; en_occurred_at : jstr; en_payload : json
}.
Record Delivered : Set := mkDeliveredEvent {
  de_envelope : EventEnvelope; de_partition_key : jstr; de_partition : Z; de_delivery_count : Z;
  de_message_id : jstr
}.

Definition or_empty (o : option jstr) : jstr := match o with Some s => s | None => [] end.

Record AttemptState : Set := mkAttempt { at_retries : Z; at_nextAttemptAt : Z }.
Definition attemptKey (stream messageId : jstr) : jstr := stream ++ [0%N] ++ messageId.

Inductive handler_result : Set := returned (d : option HandlerDisposition) | threw.

Section messages.
Context (json_parse : jstr -> option json) (json_stringify : json -> jstr).

Definition toDelivered (e : entry) (partition deliveryCount : Z) : option Delivered :=
  let fields := fieldsToRecord e.2 in
  raw ← assoc (js "payload") fields;
  payload ← json_parse raw;
  Some (mkDeliveredEvent
    (mkEnvelope (match assoc (js "event_id") fields with Some s => s | None => e.1 end)
       (or_empty (assoc (js "event_name") fields)) (or_empty (assoc (js "correlation_id") fields))
       (or_empty (assoc (js "occurred_at") fields)) payload)
    (or_empty (assoc (js "partition_key") fields)) partition deliveryCount e.1).

(** The arguments of [XADD] after the id. *)
Definition published_fields (partitionKey : jstr) (m : EventEnvelope) : list jstr :=
  [js "event_id"; en_event_id m; js "event_name"; en_event_name m;
   js "correlation_id"; en_correlation_id m; js "occurred_at"; en_occurred_at m;
   js "partition_key"; partitionKey; js "payload"; json_stringify (en_payload m)].

Section server.
Context {R : Type} `{StreamServer R}.

(** ** RedisStreamsEventBus *)

Definition redis_publish (overrides : list (jstr * option Z)) (topic partitionKey : jstr) (m : EventEnvelope)
    (r : R) : result jstr R :=
  count ← partitionCount topic overrides;
  p ← partitionFor partitionKey (Some count);
  Ok (xadd (partitionStream topic p) (published_fields partitionKey m) r).

(** [Number(x ?? 0)] of what [XINFO] returns. *)
Definition number_or_0 (v : option json) : Z := match v with Some (JNum n) => n | _ => 0 end.

Fixpoint depth_of_groups (stream group : jstr) (groups : list json) (r : R) : Z :=
  match groups with
  | [] => xlen stream r
  | e :: groups =>
    let fields := readPairs e in
    if negb (named group e)
    then depth_of_groups stream group groups r
    else
      let pending := number_or_0 (assoc (js "pending") fields) in
      match assoc (js "lag") fields with
      | Some (JNum lag) => lag + pending
      | _ => Z.max 0 (xlen stream r - number_or_0 (assoc (js "entries-read") fields)) + pending
      end
  end.
Definition groupDepth (stream group : jstr) (r : R) : Z :=
  match xinfo_groups stream r with
  | Some (JArr groups) => depth_of_groups stream group groups r
  | _ => 0
  end.

Definition redis_depth (overrides : list (jstr * option Z)) (topic : jstr) (r : R) : result jstr Z :=
  count ← partitionCount topic overrides;
  Ok (foldl (fun total p =>
        let stream := partitionStream topic p in
        total + match isKnownTopic topic with
                | None => xlen stream r
                | Some t => groupDepth stream (CONSUMER_GROUPS t) r
                end) 0 (allPartitions count)).

(** [BUSYGROUP] is the only error that is not thrown on. *)
Definition ensureGroup (stream group : jstr) (r : R) : result jstr R :=
  match xgroup_create stream group r with
  | Ok r => Ok r
  | Err message => if includes (js "BUSYGROUP") message then Ok r else Err message
  end.

Fixpoint ensure_all (topic group : jstr) (ps : list Z) (r : R) : result jstr R :=
  match ps with
  | [] => Ok r
  | p :: ps => r ← ensureGroup (partitionStream topic p) group r; ensure_all topic group ps r
  end.

Definition redis_subscribe (overrides : list (jstr * option Z)) (topic group : jstr)
    (partitions : option (list Z)) (r : R) : result jstr (list Z * R) :=
  count ← partitionCount topic overrides;
  let ps := match partitions with Some ps => ps | None => allPartitions count end in
  match find_first (fun p => (p <? 0) || (count <=? p)) ps with
  | Some p => Err (topic ++ js "의 파티션 범위를 벗어났다: " ++ js_of_Z p ++ js " (0.." ++ js_of_Z (count - 1) ++ js ")")
  | None => r ← ensure_all topic group ps r; Ok (ps, r)
  end.

(** ** RedisSubscription *)

Record sub_state : Type := mkSub {
  server : R; clock : Z; attempts : gmap jstr AttemptState; calls : list (Z * jstr * bool)
}.
Definition with_server (s : sub_state) (r : R) : sub_state := mkSub r (clock s) (attempts s) (calls s).
Definition set_attempt (s : sub_state) (key : jstr) (a : AttemptState) : sub_state :=
  mkSub (server s) (clock s) (<[key := a]> (attempts s)) (calls s).
Definition record_call (s : sub_state) (p : Z) (id : jstr) (final : bool) : sub_state :=
  mkSub (server s) (clock s) (attempts s) (calls s ++ [(p, id, final)]).

Section subscription.
Context (topic group consumer : jstr) (batchSize : nat) (blockMs claimIdleMs : Z).
(** The handler, with the time it takes and what others do to the server meanwhile. *)
Context (handler : Delivered -> R -> Z -> handler_result * R * Z).
(** The server after a sleep, at the end of a time. *)
Context (elapse : Z -> R -> R).
Context (random : nat -> Z * Z).

(** [xack] and [#attempts.delete]. *)
Definition finish (stream id : jstr) (p : Z) (s : sub_state) : sub_state :=
  record_call (mkSub (xack stream group id (server s)) (clock s) (delete (attemptKey stream id) (attempts s)) (calls s))
    p id true.

Definition deliver (stream : jstr) (e : entry) (p : Z) (s : sub_state) : bool * sub_state :=
  let id := e.1 in
  let key := attemptKey stream id in
  let state := attempts s !! key in
  let retries := match state with Some a => at_retries a | None => 0 end in
  if match state with Some a => clock s <? at_nextAttemptAt a | None => false end then (false, s)
  else
    match toDelivered e p (retries + 1) with
    | None => (true, finish stream id p s)
    | Some event =>
      let '(result, r, now) := handler event (server s) (clock s) in
      let s := mkSub r now (attempts s) (calls s) in
      match match result with returned (Some d) => d | returned None => d_ack | threw => d_retry end with
      | d_ack | d_dead_letter => (true, finish stream id p s)
      | d_defer until => (false, record_call (set_attempt s key (mkAttempt retries until)) p id false)
      | d_retry =>
        let n := retries + 1 in
        let rnd := random (length (calls s)) in
        (false, record_call (set_attempt s key (mkAttempt n (clock s + retryDelayMs n rnd.1 rnd.2))) p id false)
      end
    end.

(** The loop over entries: stop at the first one left unacknowledged. *)
Fixpoint deliver_all (stream : jstr) (es : list entry) (p : Z) (s : sub_state) : bool * sub_state :=
  match es with
  | [] => (true, s)
  | e :: es =>
    let '(ok, s) := deliver stream e p s in
    if ok then deliver_all stream es p s else (false, s)
  end.

(** A message this subscription has not seen starts from the count of Redis. *)
Definition adopt (stream : jstr) (m : gmap jstr AttemptState) (row : jstr * Z) : gmap jstr AttemptState :=
  let key := attemptKey stream row.1 in
  match m !! key with Some _ => m | None => <[key := mkAttempt (Z.max 0 row.2) 0]> m end.

Definition retryPending (p : Z) (s : sub_state) : bool * sub_state :=
  let stream := partitionStream topic p in
  if xpending stream group (server s) =? 0 then (false, s)
  else
    let stale := xpending_idle stream group claimIdleMs batchSize (clock s) (server s) in
    match stale with
    | [] => (true, s)
    | _ =>
      let s := mkSub (server s) (clock s) (foldl (adopt stream) (attempts s) stale) (calls s) in
      let '(claimed, r) := xclaim stream group consumer claimIdleMs (map fst stale) (clock s) (server s) in
      let '(ok, s) := deliver_all stream claimed p (with_server s r) in
      if ok then (0 <? xpending stream group (server s), s) else (true, s)
    end.

Definition partition_of_stream (stream : jstr) : Z :=
  match last_index_of_char 58 stream with
  | Some i => num_of_digits (drop (S i) stream)
  | None => num_of_digits stream
  end.

Fixpoint deliver_streams (results : list (jstr * list entry)) (s : sub_state) : sub_state :=
  match results with
  | [] => s
  | (stream, es) :: results =>
    deliver_streams results (deliver_all stream es (partition_of_stream stream) s).2
  end.

Definition readFresh (ps : list Z) (s : sub_state) : sub_state :=
  let '(results, r) := xreadgroup group consumer batchSize (map (partitionStream topic) ps) (clock s) (server s) in
  deliver_streams results (with_server s r).

Definition earliestAttemptAt (s : sub_state) : option Z :=
  map_fold (fun _ a acc => match acc with
                           | Some e => Some (Z.min e (at_nextAttemptAt a))
                           | None => Some (at_nextAttemptAt a)
                           end) None (attempts s).

Fixpoint retry_all (ps : list Z) (s : sub_state) : list Z * sub_state :=
  match ps with
  | [] => ([], s)
  | p :: ps =>
    let '(hasPending, s) := retryPending p s in
    let '(fresh, s) := retry_all ps s in
    (if hasPending then fresh else p :: fresh, s)
  end.

(** One round of [#run]. *)
Definition round (ps : list Z) (s : sub_state) : sub_state :=
  let '(fresh, s) := retry_all ps s in
  match fresh with
  | [] =>
    let waitMs := match earliestAttemptAt s with Some at_ => at_ - clock s | None => idleSleepMs end in
    let ms := Z.max idleSleepMs (Z.min waitMs blockMs) in
    mkSub (elapse ms (server s)) (clock s + ms) (attempts s) (calls s)
  | _ => readFresh fresh s
  end.

End subscription.
End server.
End messages.

(** ** Order *)

(** The ids that remain after the calls, when each call is on the first of them and a final
    one removes it. *)
Fixpoint replay (ids : list jstr) (cs : list (jstr * bool)) : option (list jstr) :=
  match cs with
  | [] => Some ids
  | (id, final) :: cs =>
    match ids with
    | i :: rest => if jeqb i id then replay (if final then rest else ids) cs else None
    | [] => None
    end
  end.

Lemma replay_snoc ids cs id final :
  replay ids (cs ++ [(id, final)])
  = match replay ids cs with
    | Some (i :: rest) => if jeqb i id then Some (if final then rest else i :: rest) else None
    | _ => None
    end.
Proof.
  revert ids. induction cs as [|[i f] cs IH]; intros ids; cbn [app replay].
  - destruct ids as [|j rest]; [done|]. by destruct (jeqb j id).
  - destruct ids as [|j rest]; [done|]. destruct (jeqb j i); [apply IH|done].
Qed.

Lemma replay_more ids cs rest more : replay ids cs = Some rest -> replay (ids ++ more) cs = Some (rest ++ more).
Proof.
  revert ids. induction cs as [|[i f] cs IH]; intros ids; cbn [replay]; [by intros [= ->]|].
  destruct ids as [|j l]; [done|]. cbn [app]. destruct (jeqb j i); [|done]. destruct f; [apply IH|].
  intros H. by apply (IH (j :: l)).
Qed.

Lemma replay_suffix ids cs rest : replay ids cs = Some rest -> ∃ done_, ids = done_ ++ rest.
Proof.
  revert ids. induction cs as [|[i f] cs IH]; intros ids; cbn [replay].
  - intros [= ->]. by exists [].
  - destruct ids as [|j l]; [done|]. destruct (jeqb j i); [|done]. intros H. apply IH in H as [d Hd].
    destruct f; [exists (j :: d); by rewrite Hd|by exists d].
Qed.

Lemma num_of_partition topic p : 0 <= p -> partition_of_stream (partitionStream topic p) = p.
Proof.
  intros Hp. unfold partition_of_stream, partitionStream.
  change (topic ++ js ":" ++ js_of_Z p) with (topic ++ 58%N :: js_of_Z p).
  rewrite last_index_of_char_app by apply js_of_Z_no_colon.
  replace (drop (S (length topic)) (topic ++ 58%N :: js_of_Z p)) with (js_of_Z p).
  - by apply num_of_js_of_Z.
  - rewrite cons_middle, app_assoc. replace (S (length topic)) with (length (topic ++ [58%N])) by (rewrite length_app; simpl; lia).
    by rewrite drop_app_length.
Qed.

Lemma partitionStream_inj topic p q : 0 <= p -> 0 <= q -> partitionStream topic p = partitionStream topic q -> p = q.
Proof. intros Hp Hq H. by rewrite <- (num_of_partition topic p Hp), <- (num_of_partition topic q Hq), H. Qed.

Lemma entry_of_Some l id : id ∈ map fst l -> ∃ e, entry_of l id = Some e ∧ e.1 = id.
Proof.
  intros H. apply list_elem_of_fmap in H as (e & -> & He). unfold entry_of.
  destruct (find_first _ l) as [e'|] eqn:E.
  - apply find_first_Some in E as [_ E]. apply jeqb_eq in E. by exists e'.
  - rewrite find_first_None in E. specialize (E e He). by rewrite jeqb_refl in E.
Qed.

Section order.
Context {R : Type} {SS : StreamServer R} {SL : StreamLaws R}.
Context (json_parse : jstr -> option json).
Context (topic group consumer : jstr) (batchSize : nat) (blockMs claimIdleMs : Z).
Context (handler : Delivered -> R -> Z -> handler_result * R * Z) (elapse : Z -> R -> R).
Context (random : nat -> Z * Z).

Let stream (p : Z) : jstr := partitionStream topic p.
Let deliver' := deliver json_parse group handler random.
Let deliver_all' := deliver_all json_parse group handler random.

(** Others only append: nobody else reads or acknowledges for the group. *)
Definition undisturbed (r r' : R) : Prop :=
  forall s v, view r s group = Some v ->
    ∃ more, view r' s group = Some (mkView (log v ++ more) (read v) (pel v)).
Definition handler_keeps : Prop :=
  forall e r now, undisturbed r (handler e r now).1.2.
Definition elapse_keeps : Prop := forall ms r, undisturbed r (elapse ms r).

Lemma undisturbed_refl r : undisturbed r r.
Proof. intros s [l k pe] Hv. exists []. by rewrite app_nil_r. Qed.
Lemma undisturbed_trans r r' r'' : undisturbed r r' -> undisturbed r' r'' -> undisturbed r r''.
Proof.
  intros H1 H2 s v Hv. destruct (H1 s v Hv) as [m1 Hv1]. destruct (H2 s _ Hv1) as [m2 Hv2].
  exists (m1 ++ m2). by rewrite app_assoc.
Qed.

Definition calls_of (p : Z) (cs : list (Z * jstr * bool)) : list (jstr * bool) :=
  map (fun c => (c.1.2, c.2)) (List.filter (fun c => c.1.1 =? p) cs).

Lemma calls_of_snoc p cs q id f :
  calls_of p (cs ++ [(q, id, f)]) = calls_of p cs ++ if q =? p then [(id, f)] else [].
Proof.
  unfold calls_of. rewrite List.filter_app, map_app. cbn [List.filter fst snd]. by destruct (q =? p).
Qed.

(** What the group has still to finish in a partition: its pending entries and the unread. *)
Definition unfinished (v : group_view) : list jstr := map row_id (pel v) ++ map fst (drop (read v) (log v)).

(** [consumed] was finished before; since then every call was on the first unfinished entry
    and an acknowledgement removed it.  The pending entries were read or claimed
    together and fit in a batch. *)
Definition in_step (consumed : list jstr) (p : Z) (s : sub_state) : Prop :=
  ∃ v t ids, view (server s) (stream p) group = Some v ∧ (read v <= length (log v))%nat ∧
    map fst (log v) = consumed ++ ids ∧ replay ids (calls_of p (calls s)) = Some (unfinished v) ∧
    Forall (fun row => row_time row = t) (pel v) ∧ (length (pel v) <= batchSize)%nat.

(** The ids pending in a partition, in order. *)
Definition pending_ids (p : Z) (s : sub_state) : list jstr :=
  match view (server s) (stream p) group with Some v => map row_id (pel v) | None => [] end.

Lemma unfinished_NoDup r s v consumed ids cs :
  view r s group = Some v -> map fst (log v) = consumed ++ ids -> replay ids cs = Some (unfinished v) ->
  NoDup (unfinished v) ∧ forall id, id ∈ unfinished v -> id ∈ map fst (log v).
Proof.
  intros Hv Hl Hr. apply view_ids in Hv. apply replay_suffix in Hr as [d ->]. rewrite Hl in *.
  apply NoDup_app in Hv as (_ & _ & Hv). apply NoDup_app in Hv as (_ & _ & Hv). split; [done|].
  intros id Hid. set_solver.
Qed.

(** A server that others appended to shows the same pending entries and keeps the step. *)
Lemma in_step_undisturbed consumed p s r now m :
  undisturbed (server s) r -> in_step consumed p s -> in_step consumed p (mkSub r now m (calls s)).
Proof.
  intros Hu (v & t & ids & Hv & Hr & Hl & Hp & Ht & Hn). destruct (Hu _ _ Hv) as [more Hv'].
  eexists _, t, (ids ++ map fst more). cbn [server calls]. split; [exact Hv'|].
  cbn [log read pel]. split_and!; [rewrite length_app; lia|by rewrite map_app, Hl, app_assoc| |done|done].
  rewrite (replay_more _ _ _ _ Hp). unfold unfinished. cbn [log read pel].
  by rewrite drop_app_le, map_app, app_assoc.
Qed.

Lemma pending_ids_undisturbed p s r now m cs consumed :
  undisturbed (server s) r -> in_step consumed p s ->
  pending_ids p (mkSub r now m cs) = pending_ids p s.
Proof.
  intros Hu (v & t & ids & Hv & _). destruct (Hu _ _ Hv) as [more Hv'].
  unfold pending_ids. cbn [server]. by rewrite Hv', Hv.
Qed.

(** ** One message *)

Lemma filter_ack id rows :
  NoDup (id :: map row_id rows) -> List.filter (fun row => negb (jeqb (row_id row) id)) rows = rows.
Proof.
  intros [Hn _]%NoDup_cons. induction rows as [|row rows IH]; [done|]. cbn [List.filter map] in *.
  apply not_elem_of_cons in Hn as [Hi Hn]. rewrite (proj2 (jeqb_neq _ _)) by congruence. cbn [negb].
  by rewrite IH.
Qed.

(** The acknowledgement of the first pending entry. *)
Lemma finish_step consumed p s id rest :
  in_step consumed p s -> pending_ids p s = id :: rest ->
  in_step consumed p (finish group (stream p) id p s) ∧ pending_ids p (finish group (stream p) id p s) = rest.
Proof.
  intros (v & t & ids & Hv & Hr & Hl & Hp & Ht & Hn) Hpend. unfold pending_ids in Hpend. rewrite Hv in Hpend.
  destruct (unfinished_NoDup _ _ _ _ _ _ Hv Hl Hp) as [Hnd _].
  destruct (ack_view (stream p) group id (server s) v Hv) as [Ha _].
  destruct (pel v) as [|row rows] eqn:Epel; [done|]. cbn [map] in Hpend. injection Hpend as Hid Hrest.
  unfold unfinished in Hnd. rewrite Epel in Hnd. cbn [map app] in Hnd. rewrite Hid in Hnd.
  assert (NoDup (id :: map row_id rows)) as Hnd'.
  { change (id :: map row_id rows ++ ?x) with ((id :: map row_id rows) ++ x) in Hnd.
    by apply NoDup_app in Hnd as [? _]. }
  cbn [List.filter] in Ha. rewrite Hid, jeqb_refl in Ha. cbn [negb] in Ha. rewrite filter_ack in Ha by done.
  assert (forall x, pending_ids p (finish group (stream p) id p s) = x <-> map row_id rows = x) as Hx.
  { intros x. unfold pending_ids, finish, record_call. cbn [server]. by rewrite Ha. }
  split; [|by apply Hx]. eexists _, t, ids. unfold finish, record_call. cbn [server calls].
  split; [exact Ha|]. cbn [log read pel]. split_and!; [done|done| |by inversion Ht|simpl in Hn; lia].
  rewrite calls_of_snoc, Z.eqb_refl, replay_snoc, Hp. unfold unfinished. rewrite Epel. cbn [map app log read pel].
  by rewrite Hid, jeqb_refl.
Qed.

(** What happens on one partition leaves the others in step, their pending entries too. *)
Definition frame (p : Z) (s s' : sub_state) : Prop :=
  forall q consumed, 0 <= q -> q <> p -> in_step consumed q s ->
    in_step consumed q s' ∧ pending_ids q s' = pending_ids q s.

Lemma frame_refl p s : frame p s s.
Proof. by intros q c _ _ H. Qed.
Lemma frame_trans p s s' s'' : frame p s s' -> frame p s' s'' -> frame p s s''.
Proof.
  intros H1 H2 q c Hq Hn Hi. destruct (H1 q c Hq Hn Hi) as [Hi' He].
  destruct (H2 q c Hq Hn Hi') as [Hi'' He']. split; [done|congruence].
Qed.
Lemma frame_undisturbed p s r now m : undisturbed (server s) r -> frame p s (mkSub r now m (calls s)).
Proof.
  intros Hu q c Hq Hn Hi. split; [by apply in_step_undisturbed|by eapply pending_ids_undisturbed].
Qed.

(** A change of the group's view of one stream, with calls on it. *)
Lemma frame_other p s r now m id f :
  0 <= p -> (forall s' g', (s', g') <> (stream p, group) -> view r s' g' = view (server s) s' g') ->
  frame p s (mkSub r now m (calls s ++ [(p, id, f)])) ∧ frame p s (mkSub r now m (calls s)).
Proof.
  intros Hp Hv. assert (forall q, 0 <= q -> q <> p -> view r (stream q) group = view (server s) (stream q) group) as Hq.
  { intros q Hq Hn. apply Hv. intros [= E]. by apply partitionStream_inj in E. }
  split; intros q c Hq0 Hn (v & t & ids & H1 & H2 & H3 & H4 & H5); unfold in_step, pending_ids; cbn [server calls].
  - rewrite (Hq q Hq0 Hn). split; [|done]. exists v, t, ids. rewrite calls_of_snoc.
    rewrite (proj2 (Z.eqb_neq p q)) by done. by rewrite app_nil_r.
  - rewrite (Hq q Hq0 Hn). split; [|done]. by exists v, t, ids.
Qed.

Lemma finish_frame p s id : 0 <= p -> in_step [] p s \/ (∃ v, view (server s) (stream p) group = Some v) ->
  frame p s (finish group (stream p) id p s).
Proof.
  intros Hp Hv. assert (∃ v, view (server s) (stream p) group = Some v) as [v Hv'].
  { destruct Hv as [(v & ? & ? & ? & _)|?]; [by exists v|done]. }
  destruct (ack_view (stream p) group id (server s) v Hv') as [_ Ho].
  unfold finish, record_call. cbn [server clock attempts calls]. by apply frame_other.
Qed.

(** A message left unacknowledged stays first. *)
Lemma retry_step consumed p s id rest now m :
  in_step consumed p s -> pending_ids p s = id :: rest ->
  in_step consumed p (record_call (mkSub (server s) now m (calls s)) p id false) ∧
  pending_ids p (record_call (mkSub (server s) now m (calls s)) p id false) = id :: rest.
Proof.
  intros (v & t & ids & Hv & Hr & Hl & Hp & Ht & Hn) Hpend. split; [|done].
  unfold pending_ids in Hpend. rewrite Hv in Hpend. exists v, t, ids. unfold record_call. cbn [server calls].
  split_and!; try done. rewrite calls_of_snoc, Z.eqb_refl, replay_snoc, Hp. unfold unfinished. rewrite Hpend.
  cbn [app]. by rewrite jeqb_refl.
Qed.

Context (Hhandler : handler_keeps).

Lemma deliver_step consumed p s e rest ok s' :
  0 <= p -> in_step consumed p s -> pending_ids p s = e.1 :: rest ->
  deliver json_parse group handler random (stream p) e p s = (ok, s') ->
  frame p s s' ∧ in_step consumed p s' ∧ pending_ids p s' = if ok then rest else e.1 :: rest.
Proof.
  intros Hp Hi Hpend. unfold deliver. cbv zeta.
  assert (forall s1, frame p s s1 -> in_step consumed p s1 -> pending_ids p s1 = e.1 :: rest ->
    frame p s (finish group (stream p) e.1 p s1) ∧ in_step consumed p (finish group (stream p) e.1 p s1) ∧
    pending_ids p (finish group (stream p) e.1 p s1) = rest) as Hfin.
  { intros s1 Hf1 Hi1 Hp1. destruct (finish_step _ _ _ _ _ Hi1 Hp1) as [H1 H2]. split_and!; [|done..].
    eapply frame_trans; [exact Hf1|]. apply finish_frame; [done|]. right.
    destruct Hi1 as (v & _ & _ & Hv & _). by exists v. }
  destruct (match attempts s !! _ with Some a => clock s <? at_nextAttemptAt a | None => false end).
  { intros [= <- <-]. split_and!; [apply frame_refl|done..]. }
  destruct (toDelivered json_parse e p _) as [event|].
  2: { intros [= <- <-]. apply Hfin; [apply frame_refl|done..]. }
  pose proof (Hhandler event (server s) (clock s)) as Hu.
  destruct (handler event (server s) (clock s)) as [[result r] now]. cbn [fst snd] in Hu.
  set (s1 := mkSub r now (attempts s) (calls s)).
  assert (frame p s s1 ∧ in_step consumed p s1 ∧ pending_ids p s1 = e.1 :: rest) as (Hf1 & Hi1 & Hp1).
  { split_and!; [by apply frame_undisturbed|by apply in_step_undisturbed|].
    rewrite <- Hpend. by eapply pending_ids_undisturbed. }
  assert (forall m ok s', (false, record_call (mkSub (server s1) (clock s1) m (calls s1)) p e.1 false) = (ok, s') ->
    frame p s s' ∧ in_step consumed p s' ∧ pending_ids p s' = if ok then rest else e.1 :: rest) as Hretry.
  { intros m ok' s'' [= <- <-]. destruct (retry_step _ _ _ _ _ (clock s1) m Hi1 Hp1) as [H1 H2].
    split_and!; [|done..]. eapply frame_trans; [exact Hf1|]. unfold record_call. cbn [server clock attempts calls].
    apply (frame_other p s1 (server s1) (clock s1) m e.1 false); done. }
  destruct (match result with returned (Some d) => d | returned None => d_ack | threw => d_retry end).
  1,2: intros [= <- <-]; by apply Hfin.
  1,2: apply Hretry.
Qed.

Lemma deliver_all_step consumed p es : forall s tl ok s',
  0 <= p -> in_step consumed p s -> pending_ids p s = map fst es ++ tl ->
  deliver_all json_parse group handler random (stream p) es p s = (ok, s') ->
  frame p s s' ∧ in_step consumed p s' ∧ (ok = true -> pending_ids p s' = tl).
Proof.
  induction es as [|e es IH]; intros s tl ok s' Hp Hi Hpend; cbn [deliver_all].
  - intros [= <- <-]. split_and!; [apply frame_refl|done..].
  - destruct (deliver _ _ _ _ _ e p s) as [ok1 s1] eqn:E.
    apply (deliver_step consumed p s e (map fst es ++ tl) ok1 s1 Hp Hi Hpend) in E as (Hf & Hi1 & Hp1).
    destruct ok1.
    + intros H. apply (IH s1 tl ok s' Hp Hi1 Hp1) in H as (Hf2 & Hi2 & Hp2).
      split_and!; [by eapply frame_trans|done..].
    + by intros [= <- <-].
Qed.

(** ** Pending messages *)

Lemma omap_claimed v minIdle now ids :
  (forall id, id ∈ ids -> id ∈ map row_id (pel v) ∧ id ∈ map fst (log v)) ->
  Forall (fun row => idle minIdle now row = true) (pel v) ->
  map fst (omap (claimed_entry v minIdle now) ids) = ids.
Proof.
  intros Hids Hidle. induction ids as [|id ids IH]; [done|]. cbn [omap list_omap].
  destruct (Hids id) as [H1 H2]; [by left|]. unfold claimed_entry at 1.
  assert (∃ row, find_row (pel v) id = Some row ∧ idle minIdle now row = true) as (row & -> & Hrow).
  { unfold find_row. destruct (find_first _ _) as [row|] eqn:E.
    - exists row. split; [done|]. apply find_first_Some in E as [E _].
      by apply (proj1 (list.Forall_forall _ _) Hidle).
    - apply list_elem_of_fmap in H1 as (row & -> & Hr). rewrite find_first_None in E.
      specialize (E row Hr). by rewrite jeqb_refl in E. }
  cbn [mbind option_bind]. rewrite Hrow. destruct (entry_of_Some _ _ H2) as (e & He & Hid). rewrite He. cbn [map].
  rewrite Hid. f_equal. apply IH. intros i Hi. apply Hids. by right.
Qed.

Lemma filter_uniform minIdle now t rows :
  Forall (fun row => row_time row = t) rows ->
  List.filter (idle minIdle now) rows = if minIdle <=? now - t then rows else [].
Proof.
  unfold idle. induction 1 as [|row rows Hr _ IH]; [by destruct (_ <=? _)|]. cbn [List.filter].
  rewrite Hr, IH. by destruct (_ <=? _).
Qed.

Lemma claim_rows_uniform minIdle now t rows :
  minIdle <= now - t -> Forall (fun row => row_time row = t) rows ->
  Forall (fun row => row_time row = now) (map (claim_row minIdle now (map row_id rows)) rows) ∧
  map row_id (map (claim_row minIdle now (map row_id rows)) rows) = map row_id rows.
Proof.
  intros Hm Ht. split.
  - apply List.Forall_map, list.Forall_forall. intros row Hr. unfold claim_row.
    assert (row_time row = t) as E by by apply (proj1 (list.Forall_forall _ _) Ht).
    rewrite (proj2 (mem_elem _ _)) by (apply list_elem_of_fmap; by exists row).
    unfold idle. rewrite E, (proj2 (Z.leb_le _ _)) by lia. done.
  - rewrite map_map. apply map_ext. intros row. unfold claim_row. by destruct (_ && _).
Qed.

(** Messages that nobody adopted: the partition is in step before its entries are handed
    over again, and they are all of its pending ones. *)
Lemma retryPending_step consumed p s hasPending s' :
  0 <= p -> in_step consumed p s ->
  retryPending json_parse topic group consumer batchSize claimIdleMs handler random p s = (hasPending, s') ->
  frame p s s' ∧ in_step consumed p s' ∧ (hasPending = false -> pending_ids p s' = []).
Proof.
  intros Hp Hi. unfold retryPending. cbv zeta. fold (stream p).
  pose proof Hi as (v & t & ids & Hv & Hr & Hl & Hrep & Ht & Hn).
  rewrite (pending_view _ _ _ _ Hv). destruct (Z.of_nat (length (pel v)) =? 0) eqn:E0; bool_to_prop.
  { intros [= <- <-]. split_and!; [apply frame_refl|done|]. intros _. unfold pending_ids. rewrite Hv.
    by destruct (pel v). }
  rewrite (idle_view _ _ _ _ _ _ _ Hv), (filter_uniform _ _ _ _ Ht).
  destruct (claimIdleMs <=? clock s - t) eqn:Ei; bool_to_prop.
  2: { rewrite take_nil. cbn [map]. intros [= <- <-]. split_and!; [apply frame_refl|done..]. }
  rewrite take_ge by done. destruct (map _ (pel v)) as [|row0 rows0] eqn:Em.
  { intros [= <- <-]. split_and!; [apply frame_refl|done..]. }
  rewrite <- Em. clear Em row0 rows0.
  replace (map fst (map (fun row => (row_id row, row_count row)) (pel v))) with (map row_id (pel v))
    by (rewrite map_map; done).
  set (m := foldl _ _ _). set (s1 := mkSub (server s) (clock s) m (calls s)).
  destruct (claim_view (stream p) group consumer claimIdleMs (map row_id (pel v)) (clock s) (server s) v Hv)
    as (Hc1 & Hc2 & Hc3).
  destruct (unfinished_NoDup _ _ _ _ _ _ Hv Hl Hrep) as [_ Hin].
  destruct (xclaim (stream p) group consumer claimIdleMs (map row_id (pel v)) (clock s) (server s)) as [claimed r] eqn:Ec.
  cbn [fst snd server clock s1] in *. change (server s1) with (server s). change (clock s1) with (clock s).
  rewrite Ec. destruct (claim_rows_uniform claimIdleMs (clock s) t (pel v) Ei Ht) as [Hu1 Hu2].
  assert (map fst claimed = map row_id (pel v)) as Hcl.
  { rewrite Hc1. apply omap_claimed.
    - intros id Hid. split; [done|]. apply Hin. unfold unfinished. apply elem_of_app. by left.
    - apply list.Forall_forall. intros row Hrow. unfold idle.
      rewrite (proj1 (list.Forall_forall _ _) Ht row Hrow). by apply Z.leb_le. }
  assert (in_step consumed p (with_server s1 r) ∧ pending_ids p (with_server s1 r) = map fst claimed ++ []) as [Hi2 Hp2].
  { unfold with_server, s1, in_step, pending_ids. cbn [server clock attempts calls]. rewrite Hc2. cbn [pel].
    split; [|by rewrite Hu2, Hcl, app_nil_r]. eexists _, (clock s), ids. split; [done|]. cbn [log read pel].
    split_and!; [done|done| |done|by rewrite length_map]. rewrite Hrep. unfold unfinished. cbn [log read pel]. by rewrite Hu2. }
  assert (frame p s (with_server s1 r)) as Hf2.
  { unfold with_server, s1. cbn [clock attempts calls]. by apply (frame_other p s r (clock s) m [] false). }
  destruct (deliver_all _ _ _ _ _ claimed p _) as [ok s2] eqn:Ed.
  apply (deliver_all_step consumed p claimed (with_server s1 r) [] ok s2 Hp Hi2 Hp2) in Ed as (Hf3 & Hi3 & Hp3).
  assert (frame p s s2) as Hf by by eapply frame_trans.
  destruct ok; intros [= <- <-]; (split_and!; [done..|]); [|done]. intros _. by apply Hp3.
Qed.

(** ** One round *)

Context (consumed : Z -> list jstr).

Definition all_in_step (ps : list Z) (s : sub_state) : Prop := forall p, p ∈ ps -> in_step (consumed p) p s.

(** A step of one partition, seen from all. *)
Lemma frame_all ps p s s' :
  Forall (fun q => 0 <= q) ps -> frame p s s' -> in_step (consumed p) p s' -> all_in_step ps s -> all_in_step ps s'.
Proof.
  intros Hps Hf Hp Ha q Hq. destruct (decide (q = p)) as [->|Hn]; [done|].
  apply (Hf q (consumed q)); [by apply (proj1 (list.Forall_forall _ _) Hps)|done|by apply Ha].
Qed.
Lemma frame_pending ps p q s s' :
  Forall (fun q => 0 <= q) ps -> frame p s s' -> all_in_step ps s -> q ∈ ps -> q <> p ->
  pending_ids q s' = pending_ids q s.
Proof.
  intros Hps Hf Ha Hq Hn. apply (Hf q (consumed q)); [by apply (proj1 (list.Forall_forall _ _) Hps)|done|by apply Ha].
Qed.

Lemma retry_all_step ps0 ps : forall s fresh s',
  Forall (fun q => 0 <= q) ps0 -> NoDup ps -> (forall p, p ∈ ps -> p ∈ ps0) -> all_in_step ps0 s ->
  retry_all json_parse topic group consumer batchSize claimIdleMs handler random ps s = (fresh, s') ->
  all_in_step ps0 s' ∧ NoDup fresh ∧ (forall p, p ∈ fresh -> p ∈ ps ∧ pending_ids p s' = []) ∧
  (forall q, q ∈ ps0 -> q ∉ ps -> pending_ids q s' = pending_ids q s).
Proof.
  induction ps as [|p ps IH]; intros s fresh s' H0 Hnd Hsub Ha; cbn [retry_all].
  - intros [= <- <-]. split_and!; [done|constructor|set_solver|done].
  - destruct (retryPending _ _ _ _ _ _ _ _ p s) as [hasPending s1] eqn:E1.
    destruct (retry_all _ _ _ _ _ _ _ _ ps s1) as [fr s2] eqn:E2.
    apply NoDup_cons in Hnd as [Hp Hnd]. assert (p ∈ ps0) as Hp0 by (apply Hsub; by left).
    assert (0 <= p) as Hpp by by apply (proj1 (list.Forall_forall _ _) H0).
    apply (retryPending_step (consumed p)) in E1 as (Hf & Hi & Hpend); [|done|by apply Ha].
    apply IH in E2 as (Ha2 & Hnd2 & Hfr & Hq); [|done|done|set_solver|by eapply frame_all].
    intros [= <- <-]. split; [done|].
    assert (forall q, q ∈ ps0 -> q ∉ p :: ps -> pending_ids q s2 = pending_ids q s) as Hfin.
    { intros q Hq0 Hqn. apply not_elem_of_cons in Hqn as [Hqp Hqn].
      rewrite (Hq q Hq0 Hqn). by apply (frame_pending ps0 p). }
    destruct hasPending; split_and!; try done.
    + intros q Hqf. destruct (Hfr q Hqf). split; [by right|done].
    + constructor; [|done]. intros Hpf. by apply Hfr in Hpf as [Hpf _].
    + intros q [->|Hqf]%elem_of_cons; [|destruct (Hfr q Hqf); split; [by right|done]].
      split; [by left|]. rewrite (Hq p Hp0 Hp). by apply Hpend.
Qed.

Lemma deliver_streams_step ps0 l : forall s,
  Forall (fun q => 0 <= q) ps0 -> NoDup (map fst l) -> (forall x, x ∈ l -> x.1 ∈ ps0) -> all_in_step ps0 s ->
  (forall x, x ∈ l -> pending_ids x.1 s = map fst x.2) ->
  all_in_step ps0 (deliver_streams json_parse group handler random (map (fun x => (stream x.1, x.2)) l) s).
Proof.
  induction l as [|[p es] l IH]; intros s H0 Hnd Hsub Ha Hpend; [done|]. cbn [map deliver_streams fst snd].
  assert (p ∈ ps0) as Hp0 by (apply (Hsub (p, es)); by left).
  assert (0 <= p) as Hp by by apply (proj1 (list.Forall_forall _ _) H0).
  replace (partition_of_stream (stream p)) with p by (symmetry; by apply num_of_partition).
  destruct (deliver_all _ _ _ _ (stream p) es p s) as [ok s1] eqn:E.
  apply (deliver_all_step (consumed p) p es s [] ok s1 Hp (Ha p Hp0)) in E as (Hf & Hi & _).
  2: { rewrite app_nil_r. apply (Hpend (p, es)). by left. }
  cbn [map fst] in Hnd. apply NoDup_cons in Hnd as [Hn Hnd]. cbn [snd].
  apply IH; [done|done|intros x Hx; apply Hsub; by right|by eapply frame_all|].
  intros x Hx. rewrite (frame_pending ps0 p x.1 s s1); [apply Hpend; by right|done|done|done| |].
  - apply Hsub. by right.
  - intros <-. apply Hn. apply list_elem_of_fmap. by exists x.
Qed.

Lemma take_drop_length {A} n (l : list A) : take n l ++ drop (length (take n l)) l = l.
Proof.
  rewrite length_take. destruct (decide (n <= length l)%nat).
  - rewrite Nat.min_l by done. apply take_drop.
  - rewrite Nat.min_r by lia. rewrite take_ge, drop_ge by lia. apply app_nil_r.
Qed.

(** Entries read in a batch become the pending ones, in order. *)
Lemma read_in_step p s r v :
  in_step (consumed p) p s -> pending_ids p s = [] -> view (server s) (stream p) group = Some v ->
  view r (stream p) group = Some (mkView (log v) (read v + length (fresh_entries batchSize v))
    (pel v ++ map (fun e => mkRow e.1 (clock s) 1) (fresh_entries batchSize v))) ->
  in_step (consumed p) p (with_server s r) ∧
  pending_ids p (with_server s r) = map fst (fresh_entries batchSize v).
Proof.
  intros (v' & t & ids & Hv' & Hr & Hl & Hrep & Ht & Hn) Hpend Hv Hvr. rewrite Hv in Hv'. injection Hv' as <-.
  unfold pending_ids in *. rewrite Hv in Hpend. apply map_eq_nil in Hpend.
  unfold with_server. cbn [server calls]. rewrite Hvr. cbn [pel]. rewrite Hpend in *. cbn [app].
  assert (map row_id (map (fun e : entry => mkRow e.1 (clock s) 1) (fresh_entries batchSize v))
          = map fst (fresh_entries batchSize v)) as Hids by (rewrite map_map; done).
  split; [|done]. eexists _, (clock s), ids. split; [exact Hvr|]. cbn [log read pel]. split_and!.
  - unfold fresh_entries. rewrite length_take, length_drop. lia.
  - done.
  - cbn [calls]. rewrite Hrep. unfold unfinished. cbn [log read pel]. rewrite Hpend. cbn [map app]. rewrite Hids.
    unfold fresh_entries. rewrite <- drop_drop, <- map_app, take_drop_length. done.
  - apply List.Forall_map, list.Forall_forall. done.
  - cbn [app]. rewrite length_map. unfold fresh_entries. rewrite length_take. lia.
Qed.

Lemma results_nonempty r count ps :
  (forall p, p ∈ ps -> is_Some (view r (stream p) group)) ->
  List.filter (fun x => negb (length x.2 =? 0)%nat)
    (omap (fun s => v ← view r s group; Some (s, fresh_entries count v)) (map stream ps))
  = map (fun x => (stream x.1, x.2))
      (List.filter (fun x => negb (length x.2 =? 0)%nat)
        (map (fun p => (p, match view r (stream p) group with Some v => fresh_entries count v | None => [] end)) ps)).
Proof.
  intros Hg. induction ps as [|p ps IH]; [done|]. cbn [map omap list_omap List.filter fst snd].
  destruct (Hg p) as [v Hv]; [by left|]. rewrite Hv. cbn [mbind option_bind List.filter fst snd].
  rewrite IH by (intros q Hq; apply Hg; by right). by destruct (length _ =? 0)%nat.
Qed.

Lemma filter_fst_NoDup {A} (f : Z * A -> bool) (g : Z -> A) ps :
  NoDup ps -> NoDup (map fst (List.filter f (map (fun p => (p, g p)) ps))).
Proof.
  induction 1 as [|p ps Hp _ IH]; [constructor|]. cbn [map List.filter]. destruct (f _); [|done].
  cbn [map fst]. constructor; [|done]. intros Hin. apply Hp.
  apply list_elem_of_fmap in Hin as ([q x] & -> & Hin). cbn [fst].
  rewrite list_elem_of_In, filter_In, <- list_elem_of_In in Hin. destruct Hin as [Hin _].
  apply list_elem_of_fmap in Hin as (q' & [= -> _] & Hq). done.
Qed.

Lemma elem_of_filter_map {A} (f : Z * A -> bool) (g : Z -> A) ps x :
  x ∈ List.filter f (map (fun p => (p, g p)) ps) <-> f x = true ∧ x.1 ∈ ps ∧ x.2 = g x.1.
Proof.
  rewrite list_elem_of_In, filter_In, <- list_elem_of_In, list_elem_of_fmap. destruct x as [p y]. cbn [fst snd].
  split; [intros [(q & [= -> ->] & Hq) Hf]; done|]. intros (Hf & Hp & ->). split; [by exists p|done].
Qed.

Lemma streams_NoDup ps : (forall p, p ∈ ps -> 0 <= p) -> NoDup ps -> NoDup (map stream ps).
Proof.
  intros Hpos Hnd. apply NoDup_fmap_2_strong; [|done]. intros p q Hp Hq E. apply (partitionStream_inj topic); auto.
Qed.

(** After [XREADGROUP]: the batch of every partition that has one, all partitions in step,
    the entries of the batches pending. *)
Lemma readFresh_read ps0 ps s :
  Forall (fun q => 0 <= q) ps0 -> NoDup ps -> (forall p, p ∈ ps -> p ∈ ps0 ∧ pending_ids p s = []) ->
  all_in_step ps0 s ->
  ∃ l r, readFresh json_parse topic group consumer batchSize handler random ps s
           = deliver_streams json_parse group handler random (map (fun x => (stream x.1, x.2)) l) (with_server s r) ∧
    NoDup (map fst l) ∧ (forall x, x ∈ l -> x.1 ∈ ps ∧ pending_ids x.1 (with_server s r) = map fst x.2) ∧
    (forall p, p ∈ ps -> p ∉ map fst l -> pending_ids p (with_server s r) = []) ∧
    all_in_step ps0 (with_server s r) ∧
    (forall p v, p ∈ ps -> view (server s) (stream p) group = Some v ->
       ∃ v', view r (stream p) group = Some v' ∧ log v' = log v ∧
         read v' = (read v + length (fresh_entries batchSize v))%nat).
Proof.
  intros H0 Hnd Hps Ha. unfold readFresh. change (map (partitionStream topic) ps) with (map stream ps).
  assert (forall p, p ∈ ps -> is_Some (view (server s) (stream p) group)) as Hviews.
  { intros p Hp. destruct (Ha p) as (v & _ & _ & Hv & _); [by apply Hps|]. by exists v. }
  assert (forall p, p ∈ ps0 -> 0 <= p) as Hpos by (intros p; by apply (proj1 (list.Forall_forall _ _) H0)).
  destruct (readgroup_view group consumer batchSize (map stream ps) (clock s) (server s)) as (Hr1 & Hr2 & Hr3);
    [apply streams_NoDup; [intros p Hp; by apply Hpos, Hps|done]|by apply List.Forall_map, list.Forall_forall|].
  destruct (xreadgroup _ _ _ _ _ _) as [results r] eqn:Er. cbn [fst snd] in Hr1, Hr2, Hr3.
  rewrite Hr1, results_nonempty by done. set (l := List.filter _ _).
  assert (forall p v, p ∈ ps -> view (server s) (stream p) group = Some v ->
    in_step (consumed p) p (with_server s r) ∧ pending_ids p (with_server s r) = map fst (fresh_entries batchSize v)) as Hread.
  { intros p v Hp Hv. apply read_in_step; [by apply Ha, Hps|by apply Hps|done|]. apply Hr2; [|done].
    apply list_elem_of_fmap. by exists p. }
  exists l, r. split; [done|]. split; [by apply filter_fst_NoDup|]. split_and!.
  - intros x (_ & Hp & ->)%elem_of_filter_map. split; [done|]. destruct (Hviews _ Hp) as [v Hv]. rewrite Hv. by apply Hread.
  - intros p Hp Hn. destruct (Hviews p Hp) as [v Hv]. destruct (Hread p v Hp Hv) as [_ ->].
    destruct (fresh_entries batchSize v) as [|e es] eqn:Ef; [done|]. exfalso. apply Hn.
    apply list_elem_of_fmap. exists (p, e :: es). split; [done|]. apply elem_of_filter_map. cbn [fst snd]. by rewrite Hv, Ef.
  - intros q Hq. destruct (decide (q ∈ ps)) as [Hin|Hn].
    + destruct (Hviews q Hin) as [v Hv]. by apply (Hread q v).
    + destruct (Ha q Hq) as (v & t & ids & Hv & Hrest). exists v, t, ids. unfold with_server. cbn [server calls].
      rewrite Hr3; [done|]. left. intros Hin. apply list_elem_of_fmap in Hin as (p & E & Hp).
      apply (partitionStream_inj topic) in E; [by subst|by apply Hpos|by apply Hpos, Hps].
  - intros p v Hp Hv. eexists. split; [apply Hr2; [apply list_elem_of_fmap; by exists p|exact Hv]|done].
Qed.

Lemma readFresh_step ps0 ps s :
  Forall (fun q => 0 <= q) ps0 -> NoDup ps -> (forall p, p ∈ ps -> p ∈ ps0 ∧ pending_ids p s = []) ->
  all_in_step ps0 s ->
  all_in_step ps0 (readFresh json_parse topic group consumer batchSize handler random ps s).
Proof.
  intros H0 Hnd Hps Ha. destruct (readFresh_read ps0 ps s H0 Hnd Hps Ha) as (l & r & -> & Hl & Hx & _ & Hall & _).
  apply (deliver_streams_step ps0); [done..| |done|]; intros x Hxl; apply Hx in Hxl as [Hp Hpend]; [by apply Hps|done].
Qed.

Context (Helapse : elapse_keeps).

Lemma round_step ps s :
  Forall (fun q => 0 <= q) ps -> NoDup ps -> all_in_step ps s ->
  all_in_step ps (round json_parse topic group consumer batchSize blockMs claimIdleMs handler elapse random ps s).
Proof.
  intros H0 Hnd Ha. unfold round. destruct (retry_all _ _ _ _ _ _ _ _ ps s) as [fresh s1] eqn:E.
  apply (retry_all_step ps ps) in E as (Ha1 & Hnd1 & Hfr & _); [|done..].
  destruct fresh as [|p fresh].
  - intros q Hq. apply in_step_undisturbed; [apply Helapse|by apply Ha1].
  - by apply readFresh_step.
Qed.

Fixpoint rounds (n : nat) (ps : list Z) (s : sub_state) : sub_state :=
  match n with
  | O => s
  | S n => rounds n ps (round json_parse topic group consumer batchSize blockMs claimIdleMs handler elapse random ps s)
  end.

Lemma rounds_step n ps s :
  Forall (fun q => 0 <= q) ps -> NoDup ps -> all_in_step ps s -> all_in_step ps (rounds n ps s).
Proof. intros H0 Hnd. revert s. induction n as [|n IH]; intros s Ha; [done|]. apply IH. by apply round_step. Qed.

(** ** When the handler succeeds *)

(** The handler acknowledges everything, and nobody publishes meanwhile. *)
Definition accepts : Prop :=
  forall e r now, ((handler e r now).1.1 = returned None \/ (handler e r now).1.1 = returned (Some d_ack)) ∧
    forall s v, view r s group = Some v -> view (handler e r now).1.2 s group = Some v.

(** Nothing was read from a stream that was there, and nothing published. *)
Definition same_reads (s s' : sub_state) : Prop :=
  forall q w, 0 <= q -> view (server s) (stream q) group = Some w ->
    ∃ w', view (server s') (stream q) group = Some w' ∧ log w' = log w ∧ read w' = read w.
Lemma same_reads_refl s : same_reads s s.
Proof. intros q w _ Hw. by exists w. Qed.
Lemma same_reads_trans s s' s'' : same_reads s s' -> same_reads s' s'' -> same_reads s s''.
Proof.
  intros H1 H2 q w Hq Hw. destruct (H1 q w Hq Hw) as (w' & Hw' & El & Er).
  destruct (H2 q w' Hq Hw') as (w'' & Hw'' & El' & Er'). exists w''. split_and!; congruence.
Qed.

Lemma finish_reads p s id :
  0 <= p -> is_Some (view (server s) (stream p) group) -> same_reads s (finish group (stream p) id p s).
Proof.
  intros Hp [v Hv] q w Hq Hw. destruct (ack_view (stream p) group id (server s) v Hv) as [Ha Ho].
  unfold finish, record_call. cbn [server]. destruct (decide (q = p)) as [->|Hn].
  - rewrite Hv in Hw. injection Hw as <-. by eexists.
  - exists w. rewrite Ho; [done|]. intros [= E]. by apply partitionStream_inj in E.
Qed.

Context (Haccepts : accepts).

Lemma deliver_accepts p e s :
  0 <= p -> attempts s = ∅ -> is_Some (view (server s) (stream p) group) ->
  ∃ s', deliver json_parse group handler random (stream p) e p s = (true, s') ∧ attempts s' = ∅ ∧ same_reads s s'.
Proof.
  intros Hp Ha Hv. unfold deliver. cbv zeta. rewrite Ha, lookup_empty.
  destruct (toDelivered json_parse e p _) as [event|].
  - destruct (Haccepts event (server s) (clock s)) as [Hres Hq].
    destruct (handler event (server s) (clock s)) as [[result r] now]. cbn [fst snd] in Hres, Hq.
    set (s1 := mkSub r now ∅ (calls s)). exists (finish group (stream p) e.1 p s1).
    split; [by destruct Hres as [-> | ->]|]. split; [apply delete_empty|].
    eapply same_reads_trans; [|apply finish_reads; [done|]].
    + intros q w _ Hw. apply Hq in Hw. by exists w.
    + destruct Hv as [v Hv]. apply Hq in Hv. by exists v.
  - exists (finish group (stream p) e.1 p s). split; [done|]. split; [|by apply finish_reads].
    unfold finish, record_call. cbn [attempts]. rewrite Ha. apply delete_empty.
Qed.

Lemma deliver_all_accepts p es : forall s,
  0 <= p -> attempts s = ∅ -> is_Some (view (server s) (stream p) group) ->
  ∃ s', deliver_all json_parse group handler random (stream p) es p s = (true, s') ∧ attempts s' = ∅ ∧ same_reads s s'.
Proof.
  induction es as [|e es IH]; intros s Hp Ha Hv; cbn [deliver_all].
  - exists s. split_and!; [done..|apply same_reads_refl].
  - destruct (deliver_accepts p e s Hp Ha Hv) as (s1 & -> & Ha1 & Hr1).
    destruct (IH s1 Hp Ha1) as (s2 & -> & Ha2 & Hr2).
    { destruct Hv as [v Hv]. destruct (Hr1 p v Hp Hv) as (w & Hw & _). by exists w. }
    exists s2. split_and!; [done..|by eapply same_reads_trans].
Qed.

Lemma deliver_streams_accepts ps0 l : forall s,
  Forall (fun q => 0 <= q) ps0 -> NoDup (map fst l) -> (forall x, x ∈ l -> x.1 ∈ ps0) -> all_in_step ps0 s ->
  (forall x, x ∈ l -> pending_ids x.1 s = map fst x.2) ->
  (forall p, p ∈ ps0 -> p ∉ map fst l -> pending_ids p s = []) -> attempts s = ∅ ->
  ∃ s', deliver_streams json_parse group handler random (map (fun x => (stream x.1, x.2)) l) s = s' ∧
    attempts s' = ∅ ∧ same_reads s s' ∧ (forall p, p ∈ ps0 -> pending_ids p s' = []).
Proof.
  induction l as [|[p es] l IH]; intros s H0 Hnd Hsub Ha Hpend Hnone Hat.
  - exists s. split_and!; [done..|apply same_reads_refl|]. intros p Hp. apply Hnone; [done|]. apply not_elem_of_nil.
  - cbn [map deliver_streams fst snd].
    assert (p ∈ ps0) as Hp0 by (apply (Hsub (p, es)); by left).
    assert (0 <= p) as Hp by by apply (proj1 (list.Forall_forall _ _) H0).
    replace (partition_of_stream (stream p)) with p by (symmetry; by apply num_of_partition).
    destruct (Ha p Hp0) as (v & _ & _ & Hv & _).
    destruct (deliver_all_accepts p es s Hp Hat) as (s1 & E & Hat1 & Hr1); [by exists v|]. rewrite E.
    apply (deliver_all_step (consumed p) p es s [] true s1 Hp (Ha p Hp0)) in E as (Hf & Hi & Hpe).
    2: { rewrite app_nil_r. apply (Hpend (p, es)). by left. }
    cbn [map fst snd] in *. apply NoDup_cons in Hnd as [Hn Hnd].
    destruct (IH s1) as (s2 & E2 & Hat2 & Hr2 & Hall); [done|done|intros x Hx; apply Hsub; by right
      |by eapply frame_all| | |done|].
    + intros x Hx. rewrite (frame_pending ps0 p x.1 s s1); [apply Hpend; by right|done|done|done| |].
      * apply Hsub. by right.
      * intros <-. apply Hn. apply list_elem_of_fmap. by exists x.
    + intros q Hq Hqn. destruct (decide (q = p)) as [->|Hqp]; [by apply Hpe|].
      rewrite (frame_pending ps0 p q s s1) by done. apply Hnone; [done|]. set_solver.
    + exists s2. split_and!; [done..|by eapply same_reads_trans|done].
Qed.

(** Entries of a partition that the group has not read. *)
Definition unread (p : Z) (s : sub_state) : nat :=
  match view (server s) (stream p) group with Some v => length (log v) - read v | None => 0 end.

(** In step, nothing pending, no retries waiting. *)
Definition calm (ps : list Z) (s : sub_state) : Prop :=
  all_in_step ps s ∧ attempts s = ∅ ∧ forall p, p ∈ ps -> pending_ids p s = [].

Lemma retry_all_calm ps0 ps s :
  (forall p, p ∈ ps -> p ∈ ps0) -> calm ps0 s ->
  retry_all json_parse topic group consumer batchSize claimIdleMs handler random ps s = (ps, s).
Proof.
  intros Hsub (Ha & Hat & Hp). induction ps as [|p ps IH]; [done|]. cbn [retry_all].
  assert (p ∈ ps0) as Hp0 by (apply Hsub; by left). destruct (Ha p Hp0) as (v & _ & _ & Hv & _).
  specialize (Hp p Hp0). unfold pending_ids in Hp. rewrite Hv in Hp. apply map_eq_nil in Hp.
  unfold retryPending at 1. cbv zeta. fold (stream p). rewrite (pending_view _ _ _ _ Hv), Hp.
  change (Z.of_nat (length (@nil pel_row)) =? 0) with true. cbv iota.
  rewrite IH by (intros q Hq; apply Hsub; by right). done.
Qed.

Lemma readFresh_calm ps s :
  Forall (fun q => 0 <= q) ps -> NoDup ps -> calm ps s ->
  calm ps (readFresh json_parse topic group consumer batchSize handler random ps s) ∧
  forall p, p ∈ ps ->
    unread p (readFresh json_parse topic group consumer batchSize handler random ps s) = (unread p s - batchSize)%nat.
Proof.
  intros H0 Hnd (Ha & Hat & Hpend).
  assert (forall p, p ∈ ps -> p ∈ ps ∧ pending_ids p s = []) as Hps by (intros p Hp; split; [done|by apply Hpend]).
  pose proof (readFresh_step ps ps s H0 Hnd Hps Ha) as Hafter.
  destruct (readFresh_read ps ps s H0 Hnd Hps Ha) as (l & r & E & Hl & Hx & Hnone & Hall & Hr). rewrite E in *.
  destruct (deliver_streams_accepts ps l (with_server s r)) as (s' & E' & Hat' & Hreads & Hpe); try done.
  { intros x Hxl. by apply Hx. }
  { intros x Hxl. by apply Hx. }
  rewrite E' in *. split; [done|]. intros p Hp. destruct (Ha p Hp) as (v & _ & _ & Hv & _).
  destruct (Hr p v Hp Hv) as (v' & Hv' & El & Er).
  destruct (Hreads p v' (proj1 (list.Forall_forall _ _) H0 p Hp) Hv') as (w & Hw & El' & Er').
  unfold unread. rewrite Hw, Hv, El', Er', El, Er. unfold fresh_entries. rewrite length_take, length_drop. lia.
Qed.

Lemma rounds_calm n ps : forall s,
  Forall (fun q => 0 <= q) ps -> NoDup ps -> ps <> [] -> calm ps s ->
  calm ps (rounds n ps s) ∧ forall p, p ∈ ps -> unread p (rounds n ps s) = (unread p s - n * batchSize)%nat.
Proof.
  induction n as [|n IH]; intros s H0 Hnd Hne Hc; cbn [rounds].
  - split; [done|]. intros p _. lia.
  - assert (round json_parse topic group consumer batchSize blockMs claimIdleMs handler elapse random ps s
      = readFresh json_parse topic group consumer batchSize handler random ps s) as ->.
    { unfold round. rewrite (retry_all_calm ps ps s) by done. by destruct ps. }
    destruct (readFresh_calm ps s H0 Hnd Hc) as [Hc1 Hu1]. destruct (IH _ H0 Hnd Hne Hc1) as [Hc2 Hu2].
    split; [done|]. intros p Hp. rewrite (Hu2 p Hp), (Hu1 p Hp). lia.
Qed.

End order.

(** ** A server

    The laws hold of a server: logs, and for every group what it read and what is pending.
    An id that is taken is refused. *)

Record model_server : Type := mkServer {
  ms_log : jstr -> list entry; ms_names : jstr -> list jstr;
  ms_group : jstr -> jstr -> option (nat * list pel_row)
}.
Definition ms_view (r : model_server) (s g : jstr) : option group_view :=
  if bool_decide (NoDup (map fst (ms_log r s))) && mem g (ms_names r s)
  then (fun p => mkView (ms_log r s) p.1 p.2) <$> ms_group r s g else None.
Definition ms_set (r : model_server) (s g : jstr) (read : nat) (rows : list pel_row) : model_server :=
  mkServer (ms_log r) (ms_names r) (fun s' g' => if jeqb s' s && jeqb g' g then Some (read, rows) else ms_group r s' g').
Definition ms_add (s : jstr) (fields : list jstr) (r : model_server) : model_server :=
  let id := js_of_N (N.of_nat (length (ms_log r s))) ++ js "-0" in
  if mem id (map fst (ms_log r s)) then r
  else mkServer (fun s' => if jeqb s' s then ms_log r s ++ [(id, fields)] else ms_log r s') (ms_names r) (ms_group r).
Definition ms_create (s g : jstr) (r : model_server) : result jstr model_server :=
  match ms_group r s g with
  | Some _ => Err (js "BUSYGROUP Consumer Group name already exists")
  | None => if bool_decide (NoDup (map fst (ms_log r s))) then 
    Ok (mkServer (ms_log r) (fun s' => if jeqb s' s then ms_names r s ++ [g] else ms_names r s')
          (fun s' g' => if jeqb s' s && jeqb g' g then Some (0%nat, []) else ms_group r s' g'))
    else Err (js "ERR")
  end.
Definition ms_pending (s g : jstr) (r : model_server) : list pel_row :=
  match ms_view r s g with Some v => pel v | None => [] end.
Definition ms_info (r : model_server) (s g : jstr) : json :=
  let '(read, rows) := match ms_group r s g with Some p => p | None => (0%nat, []) end in
  JArr [JStr (js "name"); JStr g; JStr (js "pending"); JNum (Z.of_nat (length rows));
        JStr (js "lag"); JNum (Z.of_nat (length (ms_log r s) - read))].
Definition ms_read_one (g : jstr) (count : nat) (now : Z) (r : model_server) (s : jstr) : model_server :=
  match ms_view r s g with
  | Some v => ms_set r s g (read v + length (fresh_entries count v))
                (pel v ++ map (fun e => mkRow e.1 now 1) (fresh_entries count v))
  | None => r
  end.

#[export] Instance model_redis : StreamServer model_server := {
  xadd := ms_add;
  xlen s r := Z.of_nat (length (ms_log r s));
  xinfo_groups s r := Some (JArr (map (ms_info r s) (ms_names r s)));
  xgroup_create := ms_create;
  xpending s g r := Z.of_nat (length (ms_pending s g r));
  xpending_idle s g minIdle count now r :=
    map (fun row => (row_id row, row_count row)) (take count (List.filter (idle minIdle now) (ms_pending s g r)));
  xclaim s g c minIdle ids now r :=
    match ms_view r s g with
    | Some v => (omap (claimed_entry v minIdle now) ids,
                 ms_set r s g (read v) (map (claim_row minIdle now ids) (pel v)))
    | None => ([], r)
    end;
  xreadgroup g c count ss now r :=
    (List.filter (fun p => negb (length p.2 =? 0)%nat)
       (omap (fun s => v ← ms_view r s g; Some (s, fresh_entries count v)) ss),
     foldl (ms_read_one g count now) r ss);
  xack s g id r :=
    match ms_view r s g with
    | Some v => ms_set r s g (read v) (List.filter (fun row => negb (jeqb (row_id row) id)) (pel v))
    | None => r
    end
}.

Lemma ms_set_view r s g k rows s' g' v :
  ms_view r s g = Some v ->
  ms_view (ms_set r s g k rows) s' g'
  = if jeqb s' s && jeqb g' g then Some (mkView (log v) k rows) else ms_view r s' g'.
Proof.
  unfold ms_view, ms_set. cbn [ms_log ms_group ms_names]. destruct (jeqb s' s && jeqb g' g) eqn:E; [|done].
  apply andb_prop in E as [->%jeqb_eq ->%jeqb_eq].
  destruct (_ && _); [|done]. destruct (ms_group r s g); [|done]. by intros [= <-].
Qed.

Lemma same_group_neq (s g s' g' : jstr) : (s', g') <> (s, g) -> jeqb s' s && jeqb g' g = false.
Proof.
  intros Hn. destruct (jeqb s' s) eqn:E1, (jeqb g' g) eqn:E2; try done.
  apply jeqb_eq in E1 as ->. apply jeqb_eq in E2 as ->. done.
Qed.

Lemma ms_read_view g count now r s v s' g' :
  ms_view r s g = Some v ->
  ms_view (ms_read_one g count now r s) s' g'
  = if jeqb s' s && jeqb g' g
    then Some (mkView (log v) (read v + length (fresh_entries count v))
                 (pel v ++ map (fun e => mkRow e.1 now 1) (fresh_entries count v)))
    else ms_view r s' g'.
Proof. intros Hv. unfold ms_read_one. rewrite Hv. by rewrite (ms_set_view r s g _ _ s' g' v Hv). Qed.

Lemma ms_read_all g count now ss : forall r,
  NoDup ss -> Forall (fun s => is_Some (ms_view r s g)) ss ->
  (forall s v, s ∈ ss -> ms_view r s g = Some v ->
     ms_view (foldl (ms_read_one g count now) r ss) s g
     = Some (mkView (log v) (read v + length (fresh_entries count v))
               (pel v ++ map (fun e => mkRow e.1 now 1) (fresh_entries count v)))) ∧
  (forall s g', s ∉ ss \/ g' <> g -> ms_view (foldl (ms_read_one g count now) r ss) s g' = ms_view r s g').
Proof.
  induction ss as [|s0 ss IH]; intros r Hnd Hv; [split; [set_solver|done]|]. cbn [foldl].
  apply NoDup_cons in Hnd as [Hn Hnd]. apply Forall_cons in Hv as [[v0 Hv0] Hv].
  pose proof (fun s' g' => ms_read_view g count now r s0 v0 s' g' Hv0) as Hr.
  destruct (IH (ms_read_one g count now r s0)) as [IH1 IH2]; [done| |].
  { apply list.Forall_forall. intros s Hs. rewrite Hr.
    destruct (_ && _); [by eexists|]. by apply (proj1 (list.Forall_forall _ _) Hv). }
  split.
  - intros s v [->|Hs]%elem_of_cons Hsv.
    + rewrite IH2 by by left. rewrite Hr, !jeqb_refl. cbn [andb]. rewrite Hv0 in Hsv. by injection Hsv as <-.
    + apply IH1; [done|]. rewrite Hr, same_group_neq; [done|]. intros [= ->]. done.
  - intros s g' Hs. rewrite IH2 by set_solver. rewrite Hr, same_group_neq; [done|].
    intros [= -> ->]. set_solver.
Qed.

#[export] Program Instance model_laws : StreamLaws model_server := { view := ms_view }.
Next Obligation.
  intros r s g v. unfold ms_view. destruct (bool_decide _) eqn:E; [|done]. bool_to_prop.
  destruct (mem _ _); [|done]. destruct (ms_group r s g); [|done]. by intros [= <-].
Qed.
Next Obligation.
  intros s f r s' g v Hv. change (xadd s f r) with (ms_add s f r). unfold ms_add. cbv zeta.
  destruct (mem _ _) eqn:Em; [exists []; rewrite app_nil_r; by destruct v|]. apply mem_false in Em.
  unfold ms_view in *. cbn [ms_log ms_group ms_names]. destruct (jeqb s' s) eqn:E.
  - apply jeqb_eq in E as ->. destruct (bool_decide _) eqn:Eb; [|done]. bool_to_prop. cbn [andb] in *.
    destruct (mem g _); [|done].
    destruct (ms_group r s g) as [[k rows]|]; [|done]. injection Hv as <-. eexists.
    rewrite bool_decide_eq_true_2; [done|]. rewrite map_app. apply NoDup_app.
    split_and!; [done| |by apply NoDup_singleton]. set_solver.
  - exists []. rewrite app_nil_r. destruct (_ && _); [|done]. by destruct v.
Qed.
Next Obligation.
  intros s g r r'. change (xgroup_create s g r) with (ms_create s g r). unfold ms_create.
  destruct (ms_group r s g) eqn:Eg; [done|]. destruct (bool_decide _) eqn:Eb; [|done]. intros [= <-]. bool_to_prop. split.
  - exists (ms_log r s). unfold ms_view. cbn [ms_log ms_group ms_names].
    rewrite bool_decide_eq_true_2, !jeqb_refl by done. cbn [andb].
    rewrite (proj2 (mem_elem g _)) by (apply elem_of_app; right; by left). done.
  - intros s' g' Hn. unfold ms_view. cbn [ms_log ms_group ms_names]. rewrite same_group_neq by done.
    destruct (jeqb s' s) eqn:E; [|done]. apply jeqb_eq in E as ->.
    replace (mem g' (ms_names r s ++ [g])) with (mem g' (ms_names r s)); [done|].
    unfold mem. rewrite existsb_app. cbn [existsb]. destruct (jeqb g' g) eqn:E; [|by rewrite !orb_false_r].
    apply jeqb_eq in E as ->. done.
Qed.
Next Obligation.
  intros r s g v Hv. unfold ms_view in Hv. destruct (bool_decide _); [|done]. cbn [andb] in Hv.
  destruct (mem g (ms_names r s)) eqn:Em; [|done]. apply mem_elem in Em.
  destruct (ms_group r s g) as [[k rows]|] eqn:Eg; [|done]. injection Hv as <-. cbn [log read pel fst snd].
  split; [done|]. exists (map (ms_info r s) (ms_names r s)), (ms_info r s g). split; [done|].
  assert (forall g', named g (ms_info r s g') = jeqb g' g) as Hn.
  { intros g'. unfold named, ms_info, jeqb. destruct (match ms_group r s g' with Some p => p | None => _ end) as [k' rows'].
    change (as_string (assoc (js "name") (readPairs (JArr [JStr (js "name"); JStr g'; JStr (js "pending");
      JNum (Z.of_nat (length rows')); JStr (js "lag"); JNum (Z.of_nat (length (ms_log r s) - k'))])))) with (Some g').
    apply bool_decide_ext. naive_solver. }
  split.
  - induction (ms_names r s) as [|g0 l IH]; [by apply not_elem_of_nil in Em|]. cbn [map find_first]. rewrite Hn.
    destruct (jeqb g0 g) eqn:E; [by apply jeqb_eq in E as ->|]. apply IH. apply jeqb_neq in E. set_solver.
  - unfold ms_info. rewrite Eg. split; [reflexivity|left; reflexivity].
Qed.
Next Obligation. intros s g r v Hv. cbn [xpending model_redis]. unfold ms_pending. by rewrite Hv. Qed.
Next Obligation. intros s g m c now r v Hv. cbn [xpending_idle model_redis]. unfold ms_pending. by rewrite Hv. Qed.
Next Obligation.
  intros s g c m ids now r v Hv. cbn [xclaim model_redis]. rewrite Hv. cbn [fst snd]. split_and!; [done| |].
  - by rewrite (ms_set_view _ _ _ _ _ _ _ _ Hv), !jeqb_refl.
  - intros s' g' Hn. by rewrite (ms_set_view _ _ _ _ _ _ _ _ Hv), same_group_neq.
Qed.
Next Obligation.
  intros g c count ss now r Hnd Hv. cbn [xreadgroup model_redis]. cbn [fst snd].
  split; [done|]. by apply ms_read_all.
Qed.
Next Obligation.
  intros s g id r v Hv. cbn [xack model_redis]. rewrite Hv. split.
  - by rewrite (ms_set_view _ _ _ _ _ _ _ _ Hv), !jeqb_refl.
  - intros s' g' Hn. by rewrite (ms_set_view _ _ _ _ _ _ _ _ Hv), same_group_neq.
Qed.

(** ** Theorems *)

Section theorems.
Context {R : Type} {SS : StreamServer R} {SL : StreamLaws R}.
Context (json_parse : jstr -> option json) (json_stringify : json -> jstr).



(** A published event is delivered with its own identity, key and payload. *)
Theorem published_event_delivered m key p n id :
  json_parse (json_stringify (en_payload m)) = Some (en_payload m) ->
  toDelivered json_parse (id, published_fields json_stringify key m) p n = Some (mkDeliveredEvent m key p n id).
Proof.
  intros Hj. unfold toDelivered, published_fields.
  change (fieldsToRecord (id, ?l).2) with (fieldsToRecord l).
  match goal with |- context [fieldsToRecord ?l] =>
    change (fieldsToRecord l) with [(js "event_id", en_event_id m); (js "event_name", en_event_name m);
      (js "correlation_id", en_correlation_id m); (js "occurred_at", en_occurred_at m);
      (js "partition_key", key); (js "payload", json_stringify (en_payload m))] end.
  change (assoc (js "payload") ((js "event_id", en_event_id m) :: ?l)) with (Some (json_stringify (en_payload m))).
  cbn [mbind option_bind]. rewrite Hj. by destruct m.
Qed.

Lemma depth_of_named stream group groups e (r : R) :
  find_first (named group) groups = Some e ->
  depth_of_groups stream group groups r = depth_of_groups stream group [e] r.
Proof.
  intros H. induction groups as [|g groups IH]; [discriminate|]. cbn [find_first] in H.
  assert (named group e = true) as He by (by apply (find_first_Some (named group) (g :: groups)) in H as [_ H]).
  cbn [depth_of_groups]. cbv zeta. rewrite He. cbn [negb].
  destruct (named group g) eqn:E; cbn [negb]; [by injection H as ->|].
  rewrite IH by done. cbn [depth_of_groups]. cbv zeta. by rewrite He.
Qed.

Lemma groupDepth_unfinished stream group (r : R) v :
  view r stream group = Some v -> (read v <= length (log v))%nat ->
  groupDepth stream group r = Z.of_nat (length (unfinished v)).
Proof.
  intros Hv Hr. destruct (info_view r stream group v Hv) as (Hx & groups & e & Hg & He & Hp & Hlag).
  unfold groupDepth. rewrite Hg, (depth_of_named _ _ _ _ _ He). apply find_first_Some in He as [_ He].
  cbn [depth_of_groups]. cbv zeta. rewrite He. cbn [negb]. rewrite Hp.
  unfold unfinished. rewrite length_app, !length_map, length_drop.
  destruct Hlag as [-> | [-> ->]]; cbn [number_or_0]; rewrite ?Hx; lia.
Qed.

(** The depth of a topic on Redis is what its group has still to finish, over all
    partitions: acknowledged entries, which Redis keeps, do not count. *)
Theorem redis_depth_unfinished overrides topic t count (vs : list group_view) (r : R) :
  isKnownTopic topic = Some t -> partitionCount topic overrides = Ok count ->
  Forall2 (fun p v => view r (partitionStream topic p) (CONSUMER_GROUPS t) = Some v ∧ (read v <= length (log v))%nat)
    (allPartitions count) vs ->
  redis_depth overrides topic r = Ok (Z.of_nat (list_sum (map (fun v => length (unfinished v)) vs))).
Proof.
  intros Ht Hc Hvs. unfold redis_depth. rewrite Hc. cbn [mbind result_bind]. f_equal.
  assert (forall acc, foldl (fun total p =>
      let stream := partitionStream topic p in
      total + match isKnownTopic topic with
              | Some t => groupDepth stream (CONSUMER_GROUPS t) r | None => xlen stream r end) acc (allPartitions count)
    = acc + Z.of_nat (list_sum (map (fun v => length (unfinished v)) vs))) as Hall.
  { induction Hvs as [|p v ps vs [Hv Hr] _ IH]; intros acc; [cbn; lia|]. cbn [foldl map]. cbv zeta in *. rewrite IH, Ht.
    rewrite (groupDepth_unfinished _ _ _ _ Hv Hr).
    change (list_sum (length (unfinished v) :: ?l)) with (length (unfinished v) + list_sum l)%nat. lia. }
  apply Hall.
Qed.

End theorems.

(** ** Examples *)

Definition parse_any (s : jstr) : option json := Some (JStr s).
Definition print_any (v : json) : jstr := match v with JStr s => s | _ => [] end.
Definition example_event (n : N) : EventEnvelope := mkEnvelope (js_of_N n) (js "e") (js "c") (js "t") (JStr (js "p")).
Definition or_server (x : result jstr model_server) : model_server :=
  match x with Ok r => r | Err _ => mkServer (fun _ => []) (fun _ => []) (fun _ _ => None) end.
Definition empty_server : model_server := mkServer (fun _ => []) (fun _ => []) (fun _ _ => None).
Definition example_overrides : list (jstr * option Z) := [(js "t", Some 1)].
(** Two events in one partition, then a group. *)
Definition example_server : model_server :=
  or_server (snd <$> (r ← redis_publish print_any example_overrides (js "t") (js "k") (example_event 1) empty_server;
                      r ← redis_publish print_any example_overrides (js "t") (js "k") (example_event 2) r;
                      redis_subscribe example_overrides (js "t") (js "g") None r)).
Definition example_state : sub_state := mkSub example_server 0 ∅ [].
Definition accept_all (e : Delivered) (r : model_server) (now : Z) : handler_result * model_server * Z :=
  (returned None, r, now).
Definition stay (ms : Z) (r : model_server) : model_server := r.
Definition half (n : nat) : Z * Z := (1, 2).

Lemma accept_all_keeps g : handler_keeps g accept_all.
Proof. intros e r now. apply undisturbed_refl. Qed.
Lemma stay_keeps g : elapse_keeps g stay.
Proof. intros ms r. apply undisturbed_refl. Qed.



(** The handler fails on the first event, once, and what it is told of each event. *)
Definition fail_first (e : Delivered) (r : model_server) (now : Z) : handler_result * model_server * Z :=
  (if (de_delivery_count e =? 1) && jeqb (en_event_id (de_envelope e)) (js "1") then threw else returned None, r, now).
Definition run (n : nat) (s : @sub_state model_server) : sub_state :=
  rounds parse_any (js "t") (js "g") (js "c") 16 1000 30000 fail_first stay half n [0] s.
Definition at_time (now : Z) (s : @sub_state model_server) : sub_state := mkSub (server s) now (attempts s) (calls s).

(** An event read behind one that failed has never been given to the handler, yet its first
    delivery says it is the second: the count of Redis, which counts reads, is taken for
    retries. *)
Definition third_failing (e : Delivered) (r : model_server) (now : Z) : handler_result * model_server * Z :=
  (if (de_delivery_count e =? 1) then threw else returned None, r, now).
Theorem queued_event_starts_at_two :
  calls (run 1 example_state) = [(0, js "0-0", false)] ∧
  calls (rounds parse_any (js "t") (js "g") (js "c") 16 1000 30000 third_failing stay half 1 [0]
           (at_time 40000 (run 1 example_state)))
  = [(0, js "0-0", false); (0, js "0-0", true); (0, js "1-0", true)].
Proof. split; vm_compute; reflexivity. Qed.

(** A retry due after a second waits until the entry has been idle for [claimIdleMs]. *)
Theorem retry_waits_for_claim :
  let s := run 1 example_state in
  at_nextAttemptAt <$> attempts s !! attemptKey (partitionStream (js "t") 0) (js "0-0") = Some 1000 ∧
  calls (run 1 (at_time 29999 s)) = calls s ∧ calls (run 1 (at_time 30000 s)) <> calls s.
Proof. split_and!; [vm_compute; reflexivity..|vm_compute; discriminate]. Qed.
