(* ===== verification/EsQuery.v ===== *)
(** * Queries of the search index

    The part of the query language of Elasticsearch that the code builds
    ([QueryDslQueryContainer] of its client), and what the code relies on of the index: a
    class of operations, one answer per document and query, with the documented laws of the
    compound queries.  How a leaf matches (analysis, dates, numbers) is left to the index.
    [model_index] is an instance of the class on documents with lists of values. *)

From stdpp Require Import base list option strings numbers.
From Stdlib Require Import ZArith Lia.
From S2P Require Import Prelude JsString.
Open Scope Z_scope.

Inductive EsScalar : Set := ev_str (s : jstr) | ev_num (n : Z) | ev_bool (b : bool).
#[export] Instance EsScalar_eq_dec : EqDecision EsScalar.
Proof. solve_decision. Defined.
(** [{ gte, lte }] or [{ gte, lt }]. *)
Inductive EsUpper : Set := up_lte (v : EsScalar) | up_lt (v : EsScalar).
Inductive EsMultiMatchType : Set := mm_phrase | mm_best_fields.

Inductive EsQuery : Set :=
| q_match_all
| q_match_none
| q_term (field : jstr) (value : EsScalar)
| q_terms (field : jstr) (values : list EsScalar)
| q_prefix (field value : jstr)
| q_exists (field : jstr)
| q_range (field : jstr) (gte : EsScalar) (upper : EsUpper)
| q_multi_match (query : jstr) (fields : list jstr) (type : EsMultiMatchType)
| q_bool (must filter should must_not : list EsQuery) (minimum_should_match : option nat).

(** ** The index *)

Class EsIndex (D : Type) := es_matches : D -> EsQuery -> bool.

Definition count_matching {D} `{EsIndex D} (d : D) (qs : list EsQuery) : nat :=
  length (List.filter (es_matches d) qs).

(** A [bool] with no clause at all matches every document, so its law asks for one. *)
Class EsLaws (D : Type) `{EsIndex D} : Prop := {
  law_match_all (d : D) : es_matches d q_match_all = true;
  law_match_none (d : D) : es_matches d q_match_none = false;
  law_terms (d : D) f vs : es_matches d (q_terms f vs) = existsb (fun v => es_matches d (q_term f v)) vs;
  law_bool (d : D) m f s n k :
    m ++ f ++ s ++ n <> [] ->
    es_matches d (q_bool m f s n (Some k)) =
    forallb (es_matches d) m && forallb (es_matches d) f
    && (k <=? count_matching d s)%nat && forallb (fun q => negb (es_matches d q)) n;
  law_bool_no_should (d : D) m f n :
    m ++ f ++ n <> [] ->
    es_matches d (q_bool m f [] n None) =
    forallb (es_matches d) m && forallb (es_matches d) f && forallb (fun q => negb (es_matches d q)) n
}.

Section laws.
Context {D : Type} `{EsLaws D}.

Lemma count_matching_exists (d : D) qs :
  (1 <=? count_matching d qs)%nat = existsb (es_matches d) qs.
Proof.
  unfold count_matching. induction qs as [|q qs IH]; [done|]. cbn [List.filter existsb].
  destruct (es_matches d q); [done|]. exact IH.
Qed.

(** A query of alternatives. *)
Lemma any_of_matches (d : D) qs :
  qs <> [] -> es_matches d (q_bool [] [] qs [] (Some 1%nat)) = existsb (es_matches d) qs.
Proof.
  intros Hq. rewrite law_bool by (by rewrite app_nil_r). cbn [forallb].
  by rewrite count_matching_exists, andb_true_r.
Qed.

(** A query of mandatory clauses and exclusions. *)
Lemma all_of_matches (d : D) m f n :
  m ++ f ++ n <> [] ->
  es_matches d (q_bool m f [] n None) = true <->
  (forall q, q ∈ m -> es_matches d q = true) ∧ (forall q, q ∈ f -> es_matches d q = true) ∧
  (forall q, q ∈ n -> es_matches d q = false).
Proof.
  intros Hq. rewrite law_bool_no_should, !andb_true_iff, !forallb_elem by done.
  setoid_rewrite negb_true_iff. tauto.
Qed.

Lemma terms_matches (d : D) f vs :
  es_matches d (q_terms f vs) = true <-> ∃ v, v ∈ vs ∧ es_matches d (q_term f v) = true.
Proof. by rewrite law_terms, existsb_elem. Qed.
End laws.

(** ** An index to evaluate on *)

(** A document has, under each field name, a list of values; text is matched literally. *)
Record EsDoc : Set := mkDoc { doc_fields : list (jstr * list EsScalar) }.
Definition values_of (d : EsDoc) (f : jstr) : list EsScalar :=
  match find_first (fun kv => jeqb kv.1 f) (doc_fields d) with Some kv => kv.2 | None => [] end.

Fixpoint text_leb (a b : jstr) : bool :=
  match a, b with
  | [], _ => true
  | _, [] => false
  | x :: a, y :: b => (x <? y)%N || ((x =? y)%N && text_leb a b)
  end.
Definition scalar_leb (a b : EsScalar) : bool :=
  match a, b with
  | ev_num a, ev_num b => a <=? b
  | ev_str a, ev_str b => text_leb a b
  | _, _ => false
  end.
Definition below (v : EsScalar) (u : EsUpper) : bool :=
  match u with up_lte w => scalar_leb v w | up_lt w => scalar_leb v w && negb (scalar_leb w v) end.

Fixpoint model_matches (d : EsDoc) (q : EsQuery) : bool :=
  match q with
  | q_match_all => true
  | q_match_none => false
  | q_term f v => bool_decide (v ∈ values_of d f)
  | q_terms f vs => existsb (fun v => bool_decide (v ∈ values_of d f)) vs
  | q_prefix f p => existsb (fun v => match v with ev_str s => starts_with p s | _ => false end) (values_of d f)
  | q_exists f => match values_of d f with [] => false | _ => true end
  | q_range f lo hi => existsb (fun v => scalar_leb lo v && below v hi) (values_of d f)
  | q_multi_match t fs _ =>
    existsb (fun f => existsb (fun v => match v with ev_str s => includes t s | _ => false end) (values_of d f)) fs
  | q_bool m f s n k =>
    forallb (model_matches d) m && forallb (model_matches d) f
    && (match k with Some k => k | None => match m ++ f, s with [], _ :: _ => 1 | _, _ => 0 end end
        <=? length (List.filter (model_matches d) s))%nat
    && forallb (fun q => negb (model_matches d q)) n
  end.

#[export] Instance model_index : EsIndex EsDoc := model_matches.
#[export] Instance model_index_laws : EsLaws EsDoc.
Proof.
  split; unfold es_matches, model_index; try done.
  intros d m f n _. cbn [model_matches List.filter length]. destruct (m ++ f); by rewrite andb_true_r.
Qed.
