(* ===== verification/QueryBuilder.v ===== *)
(** * From the syntax tree to a search query

    [packages/es/src/query-builder.ts]: the index a [kind:] filter selects, the clause of
    every filter, names resolved to ids with the unresolved ones reported, epochs of
    sequence spaces, and free text.  The theorems give the meaning of the built query on a
    document of any index that obeys the laws of EsQuery.  Tables of the code are read with
    the keys they list; the parser has refused every other value. *)

From stdpp Require Import base list option gmap strings numbers.
From Stdlib Require Import ZArith Lia.
From S2P Require Import Prelude JsString QueryAst Calendar ZonedDay SeqBinding EsQuery.
Open Scope Z_scope.

(** ** Tables *)

Definition TERM_FIELDS (k : QueryKey) : option jstr :=
  match k with
  | repo => Some (js "repository") | author => Some (js "author") | reviewer => Some (js "reviewers")
  | label => Some (js "labels") | base_key => Some (js "base_branch") | head => Some (js "head_branch")
  | state => Some (js "state") | release => Some (js "release_tags")
  | _ => None
  end.

Definition RANGE_FIELDS (k : QueryKey) : option jstr :=
  match k with
  | seq_key => Some (js "merge_seq") | merged => Some (js "merged_at") | created => Some (js "created_at")
  | changed_files => Some (js "changed_files_count") | changed_lines => Some (js "changed_lines")
  | pr_number => Some (js "pr_number") | mnum => Some (js "merge_number")
  | _ => None
  end.

Definition PATH_FIELD : jstr := js "changed_paths".

Definition DERIVED_STATE (v : jstr) : option EsQuery :=
  if jeqb v (js "merged") then Some (q_term (js "state") (ev_str (js "merged")))
  else if jeqb v (js "open") then Some (q_term (js "state") (ev_str (js "open")))
  else if jeqb v (js "closed") then Some (q_term (js "state") (ev_str (js "closed")))
  else if jeqb v (js "reverted") then Some (q_term (js "link_summary.is_reverted") (ev_bool true))
  else None.

Inductive EntityAlias : Set := prs_pull_requests | prs_commits | prs_links | prs_releases.
#[export] Instance EntityAlias_eq_dec : EqDecision EntityAlias.
Proof. solve_decision. Defined.

Definition KIND_ALIAS (v : jstr) : option EntityAlias :=
  if jeqb v (js "pull_request") then Some prs_pull_requests
  else if jeqb v (js "commit") then Some prs_commits
  else None.

(** ** Names *)

Record NameResolution : Set := mkResolution { orgIds : gmap jstr Z; teamIds : gmap jstr (list Z) }.
Definition EMPTY_RESOLUTION : NameResolution := mkResolution ∅ ∅.

(** The key is [org], [team] or [author_team]. *)
Record UnresolvedName : Set := mkUnresolved { u_key : QueryKey; u_value : jstr }.
Record BuiltQuery : Set := mkBuilt { query : EsQuery; unresolved : list UnresolvedName }.
Record BuildQueryOptions : Set := mkOptions {
  sequenceEpoch : option Z; mergeNumberEpoch : option Z; mergeNumberBaseBranch : option jstr
}.

Inductive BuildError : Set :=
| SequenceEpochRequiredError | MergeNumberEpochRequiredError | MergeNumberBranchRequiredError
| KindFilterNotAppliedError | RangeKeyEqualityError (key : QueryKey) | CalendarError (message : jstr).

(** ** The searched indices *)

Definition is_kind (f : QueryFilter) : bool :=
  negb (isRangeFilter f) && bool_decide (filter_key f = kind).
Definition in_aliases (l : list EntityAlias) (a : EntityAlias) : bool := existsb (fun x => bool_decide (x = a)) l.

(** One round of the loop: [allowed] as the insertion order of its set. *)
Definition narrow (allowed : list EntityAlias) (f : QueryFilter) : list EntityAlias :=
  match f with
  | EqualityFilter _ op values =>
    if is_kind f then
      let named := omap KIND_ALIAS values in
      match op with
      | op_eq => List.filter (in_aliases named) allowed
      | op_not_eq => List.filter (fun a => negb (in_aliases named a)) allowed
      end
    else allowed
  | _ => allowed
  end.

Definition alias_set (base : list EntityAlias) : list EntityAlias := rev (remove_dups (rev base)).

Definition resolveSearchTarget (ast : QueryAst) (base : list EntityAlias)
  : option (list EntityAlias) * QueryAst :=
  let allowed := foldl narrow (alias_set base) (filters ast) in
  if negb (existsb is_kind (filters ast)) then (Some base, ast)
  else
    let stripped := mkAst (List.filter (fun f => negb (is_kind f)) (filters ast)) (text ast) in
    (match allowed with [] => None | _ => Some allowed end, stripped).

(** ** Clauses *)

Definition FIRST_PARENT_COMMIT_ROLES : list jstr := [js "merge_commit"; js "direct_push"].
Definition FULL_TEXT_FIELDS : list jstr :=
  [js "title^3"; js "title.partial^1.5"; js "body"; js "message"; js "message.partial^0.5";
   js "base_branch.text"; js "base_branch.partial^0.5"; js "head_branch.text";
   js "head_branch.partial^0.5"].
Definition NON_FIRST_PARENT_COMMIT : EsQuery :=
  q_bool [] [q_exists (js "role")] [] [q_terms (js "role") (map ev_str FIRST_PARENT_COMMIT_ROLES)] None.

Definition buildTextClause (t : jstr) : EsQuery :=
  let isSingleToken := negb (existsb is_space (trim t)) in
  q_multi_match t FULL_TEXT_FIELDS (if isSingleToken then mm_phrase else mm_best_fields).

Definition MATCH_NONE : EsQuery := q_match_none.
Definition termsClause (field : jstr) (values : list jstr) : EsQuery := q_terms field (map ev_str values).
Definition idsClause (field : jstr) (ids : list Z) : EsQuery :=
  match ids with [] => MATCH_NONE | _ => q_terms field (map ev_num ids) end.
Definition any_of (qs : list EsQuery) : EsQuery := q_bool [] [] qs [] (Some 1%nat).
Definition pathClause (values : list jstr) : EsQuery :=
  any_of (map (fun v => q_term PATH_FIELD (ev_str v)) values).
Definition derivedStateClause (values : list jstr) : EsQuery :=
  match omap DERIVED_STATE values with
  | [clause] => clause
  | clauses => any_of clauses
  end.

Section builder.
(** [formatToParts] of the formatter of a time zone, and [toISOString]. *)
Context (format_parts : jstr -> Z -> Z * Z * Z * (Z * Z * Z)) (toISOString : Z -> jstr).

Definition rangeClause (f : QueryFilter) : result BuildError (option EsQuery) :=
  match f with
  | EqualityFilter _ _ _ => Ok None
  | NumericRangeFilter k _ from to =>
    Ok (field ← RANGE_FIELDS k; Some (q_range field (ev_num from) (up_lte (ev_num to))))
  | TemporalRangeFilter k _ from to tz =>
    match RANGE_FIELDS k, tz with
    | None, _ => Ok None
    | Some field, Some zone =>
      match calendarRangeToUtc (format_parts zone) from to with
      | Err message => Err (CalendarError message)
      | Ok (gte, lt) =>
        Ok (Some (q_range field (ev_str (toISOString gte)) (up_lt (ev_str (toISOString lt)))))
      end
    | Some field, None => Ok (Some (q_range field (ev_str from) (up_lte (ev_str to))))
    end
  end.

(** The clause, and what is pushed on [unresolved]. *)
Definition equalityClause (f : QueryFilter) (resolution : NameResolution)
  : result BuildError (EsQuery * list UnresolvedName) :=
  match f with
  | EqualityFilter k _ values =>
    match RANGE_FIELDS k, TERM_FIELDS k with
    | Some _, _ => Err (RangeKeyEqualityError k)
    | None, Some field => Ok (termsClause field values, [])
    | None, None =>
      let missing known := map (mkUnresolved k) (List.filter (fun v => negb (known v)) values) in
      match k with
      | path => Ok (pathClause values, [])
      | is_key => Ok (derivedStateClause values, [])
      | org =>
        Ok (idsClause (js "org_id") (omap (fun v => orgIds resolution !! v) values),
            missing (fun v => bool_decide (is_Some (orgIds resolution !! v))))
      | team | author_team =>
        let ids := flat_map (fun v => match teamIds resolution !! v with Some l => l | None => [] end) values in
        Ok (idsClause (if bool_decide (k = team) then js "allowed_team_ids" else js "author_team_ids") ids,
            missing (fun v => bool_decide (is_Some (teamIds resolution !! v))))
      | kind => Err KindFilterNotAppliedError
      | _ => Ok (MATCH_NONE, [])
      end
    end
  | _ => Ok (MATCH_NONE, [])
  end.

Definition toClause (f : QueryFilter) (resolution : NameResolution)
  : result BuildError (EsQuery * list UnresolvedName) :=
  r ← rangeClause f;
  match r with Some clause => Ok (clause, []) | None => equalityClause f resolution end.

(** ** The query *)

(** The arrays [filter] and [mustNot] and the unresolved names, while the loop runs. *)
Record build_state : Set := mkBuild { b_filter : list EsQuery; b_mustNot : list EsQuery; b_unresolved : list UnresolvedName }.

Definition sequence_gate (ast : QueryAst) (o : BuildQueryOptions) : result BuildError (list EsQuery) :=
  if hasSequenceRangeFilter ast then
    match sequenceEpoch o with
    | None => Err SequenceEpochRequiredError
    | Some e => Ok [q_term (js "seq_epoch") (ev_num e)]
    end
  else Ok [].

Definition merge_number_gate (ast : QueryAst) (o : BuildQueryOptions) : result BuildError (list EsQuery) :=
  if hasMergeNumberRangeFilter ast then
    match mergeNumberEpoch o, mergeNumberBaseBranch o with
    | None, _ => Err MergeNumberEpochRequiredError
    | Some _, None => Err MergeNumberBranchRequiredError
    | Some e, Some b => Ok [q_term (js "merge_number_epoch") (ev_num e); q_term (js "base_branch") (ev_str b)]
    end
  else Ok [].

Fixpoint add_clauses (resolution : NameResolution) (fs : list QueryFilter) (st : build_state)
  : result BuildError build_state :=
  match fs with
  | [] => Ok st
  | f :: fs =>
    '(clause, names) ← toClause f resolution;
    add_clauses resolution fs
      (if isNegated f
       then mkBuild (b_filter st) (b_mustNot st ++ [clause]) (b_unresolved st ++ names)
       else mkBuild (b_filter st ++ [clause]) (b_mustNot st) (b_unresolved st ++ names))
  end.

Definition free_text (ast : QueryAst) : option jstr :=
  match text ast with Some (c :: t) => Some (c :: t) | _ => None end.

Definition buildQuery (ast : QueryAst) (resolution : NameResolution) (o : BuildQueryOptions)
  : result BuildError BuiltQuery :=
  gate1 ← sequence_gate ast o;
  gate2 ← merge_number_gate ast o;
  st ← add_clauses resolution (filters ast) (mkBuild (gate1 ++ gate2) [] []);
  let must := match free_text ast with Some t => [buildTextClause t] | None => [] end in
  let mustNot := b_mustNot st ++ match free_text ast with Some _ => [NON_FIRST_PARENT_COMMIT] | None => [] end in
  match b_filter st, mustNot, must with
  | [], [], [] => Ok (mkBuilt q_match_all (b_unresolved st))
  | _, _, _ => Ok (mkBuilt (q_bool must (b_filter st) [] mustNot None) (b_unresolved st))
  end.

End builder.

(** The names a caller asks the registry for. *)
Definition collect_step (acc : list jstr * list jstr) (f : QueryFilter) : list jstr * list jstr :=
  match f with
  | EqualityFilter k _ vs =>
    (if bool_decide (k = org) then foldl set_add acc.1 vs else acc.1,
     if bool_decide (k = team \/ k = author_team) then foldl set_add acc.2 vs else acc.2)
  | _ => acc
  end.
Definition collectNames (ast : QueryAst) : list jstr * list jstr := foldl collect_step ([], []) (filters ast).

(** ** Which indices are searched *)

(** Whether a [kind:] filter keeps an alias. *)
Definition kind_keeps (f : QueryFilter) (a : EntityAlias) : Prop :=
  match f with
  | EqualityFilter kind op_eq vs => ∃ v, v ∈ vs ∧ KIND_ALIAS v = Some a
  | EqualityFilter kind op_not_eq vs => ~ ∃ v, v ∈ vs ∧ KIND_ALIAS v = Some a
  | _ => True
  end.

Lemma in_aliases_spec l a : in_aliases l a = true <-> a ∈ l.
Proof.
  unfold in_aliases. rewrite existsb_elem. setoid_rewrite bool_decide_eq_true. naive_solver.
Qed.

Lemma alias_set_elem l a : a ∈ alias_set l <-> a ∈ l.
Proof.
  unfold alias_set. by rewrite list_elem_of_In, <- in_rev, <- list_elem_of_In, elem_of_remove_dups,
    list_elem_of_In, <- in_rev, <- list_elem_of_In.
Qed.

Lemma narrow_spec l f a : a ∈ narrow l f <-> a ∈ l ∧ kind_keeps f a.
Proof.
  destruct f as [k op vs|k op x y|k op x y z]; cbn [narrow kind_keeps]; [|tauto..].
  unfold is_kind; cbn [isRangeFilter negb andb filter_key].
  destruct (decide (k = kind)) as [->|Hk].
  2:{ rewrite bool_decide_false by done. destruct k; tauto || done. }
  cbn [bool_decide]. rewrite bool_decide_true by done.
  assert (forall a, a ∈ omap KIND_ALIAS vs <-> ∃ v, v ∈ vs ∧ KIND_ALIAS v = Some a) as Ho by (intros; apply list_elem_of_omap).
  destruct op; rewrite elem_filter; [by rewrite in_aliases_spec, Ho|].
  rewrite negb_true_iff, <- not_true_iff_false, in_aliases_spec, Ho. done.
Qed.

Lemma foldl_narrow_spec fs : forall l a,
  a ∈ foldl narrow l fs <-> a ∈ l ∧ (forall f, f ∈ fs -> kind_keeps f a).
Proof.
  induction fs as [|f fs IH]; intros l a; cbn [foldl].
  - split; [|tauto]. intros H. split; [done|]. intros f Hf. by inversion Hf.
  - rewrite IH, narrow_spec. setoid_rewrite elem_of_cons. naive_solver.
Qed.

Lemma not_kind_keeps f a : is_kind f = false -> kind_keeps f a.
Proof. unfold is_kind. destruct f as [k op vs| |]; [|done..]. cbn. destruct k; done. Qed.

(** The searched indices are those of the base that every [kind:] filter of the query keeps;
    nothing to search is told apart from the empty list, which the index reads as all
    indices; and the remaining query is the query without its [kind:] filters. *)
Theorem resolveSearchTarget_spec ast base target rest :
  resolveSearchTarget ast base = (target, rest) ->
  (forall a, a ∈ match target with Some l => l | None => [] end <->
     a ∈ base ∧ forall f, f ∈ filters ast -> kind_keeps f a) ∧
  (target = Some [] -> base = []) ∧
  text rest = text ast ∧ (forall f, f ∈ filters rest <-> f ∈ filters ast ∧ is_kind f = false).
Proof.
  unfold resolveSearchTarget. destruct (existsb is_kind (filters ast)) eqn:E; cbn [negb].
  - intros [= <- <-]. split; [|split; [|split; [done|]]].
    + intros a. rewrite <- (alias_set_elem base), <- foldl_narrow_spec. by destruct (foldl _ _ _).
    + by destruct (foldl _ _ _).
    + intros f. cbn [filters]. by rewrite elem_filter, negb_true_iff.
  - intros [= <- <-].
    assert (forall f, f ∈ filters ast -> is_kind f = false) as Hn.
    { intros f Hf. destruct (is_kind f) eqn:Ek; [|done].
      rewrite (proj2 (existsb_elem _ _)) in E by eauto. done. }
    split; [|split; [by intros [= ->]|split; [done|]]].
    + intros a. split; [|tauto]. intros Ha. split; [done|]. intros f Hf. by apply not_kind_keeps, Hn.
    + intros f. split; [|tauto]. intros Hf. auto.
Qed.

(** ** What a query asks of a document *)

(** What the parser guarantees and the clauses rely on: values, and known ones of [is:]. *)
Definition askable (f : QueryFilter) : Prop :=
  match f with
  | EqualityFilter k _ vs => vs <> [] ∧ (k = is_key -> Forall (fun v => is_Some (DERIVED_STATE v)) vs)
  | _ => True
  end.

Section meaning.
Context (format_parts : jstr -> Z -> Z * Z * Z * (Z * Z * Z)) (toISOString : Z -> jstr).
Context {D : Type} `{EsLaws D} (resolution : NameResolution).

(** A document has the value of a key: by a field, or by an id the name stands for. *)
Definition has_value (k : QueryKey) (v : jstr) (d : D) : Prop :=
  match k with
  | path => es_matches d (q_term PATH_FIELD (ev_str v)) = true
  | is_key => ∃ q, DERIVED_STATE v = Some q ∧ es_matches d q = true
  | org => ∃ id, orgIds resolution !! v = Some id ∧ es_matches d (q_term (js "org_id") (ev_num id)) = true
  | team => ∃ ids id, teamIds resolution !! v = Some ids ∧ id ∈ ids ∧
      es_matches d (q_term (js "allowed_team_ids") (ev_num id)) = true
  | author_team => ∃ ids id, teamIds resolution !! v = Some ids ∧ id ∈ ids ∧
      es_matches d (q_term (js "author_team_ids") (ev_num id)) = true
  | _ => ∃ field, TERM_FIELDS k = Some field ∧ es_matches d (q_term field (ev_str v)) = true
  end.

(** The positive reading of a filter: one of its values, or a field in its range. *)
Definition selects (f : QueryFilter) (d : D) : Prop :=
  match f with
  | EqualityFilter k _ vs => ∃ v, v ∈ vs ∧ has_value k v d
  | NumericRangeFilter k _ a b => ∃ field, RANGE_FIELDS k = Some field ∧
      es_matches d (q_range field (ev_num a) (up_lte (ev_num b))) = true
  | TemporalRangeFilter k _ a b None => ∃ field, RANGE_FIELDS k = Some field ∧
      es_matches d (q_range field (ev_str a) (up_lte (ev_str b))) = true
  | TemporalRangeFilter k _ a b (Some zone) => ∃ field lo hi, RANGE_FIELDS k = Some field ∧
      calendarRangeToUtc (format_parts zone) a b = Ok (lo, hi) ∧
      es_matches d (q_range field (ev_str (toISOString lo)) (up_lt (ev_str (toISOString hi)))) = true
  end.

Lemma idsClause_matches field ids d :
  es_matches d (idsClause field ids) = true <->
  ∃ id, id ∈ ids ∧ es_matches d (q_term field (ev_num id)) = true.
Proof.
  destruct ids as [|i ids].
  - unfold idsClause, MATCH_NONE. rewrite law_match_none. split; [done|]. intros (id & Hi & _). by inversion Hi.
  - unfold idsClause. rewrite terms_matches. split.
    + intros (v & (id & -> & Hi)%list_elem_of_fmap & Hm). by exists id.
    + intros (id & Hi & Hm). exists (ev_num id). split; [|done]. by apply list_elem_of_fmap_2.
Qed.

Lemma any_of_map {A} (g : A -> EsQuery) vs d :
  vs <> [] -> es_matches d (any_of (map g vs)) = true <-> ∃ v, v ∈ vs ∧ es_matches d (g v) = true.
Proof.
  intros Hv. unfold any_of. rewrite any_of_matches by by destruct vs. rewrite existsb_elem. split.
  - intros (q & (v & -> & Hx)%list_elem_of_fmap & Hm). by exists v.
  - intros (v & Hx & Hm). exists (g v). split; [|done]. by apply list_elem_of_fmap_2.
Qed.

Lemma derivedStateClause_matches vs d :
  vs <> [] -> Forall (fun v => is_Some (DERIVED_STATE v)) vs ->
  es_matches d (derivedStateClause vs) = true <->
  ∃ v q, v ∈ vs ∧ DERIVED_STATE v = Some q ∧ es_matches d q = true.
Proof.
  intros Hn Hall. unfold derivedStateClause.
  assert (omap DERIVED_STATE vs <> []) as Hne.
  { destruct vs as [|v vs]; [done|]. apply Forall_cons_1 in Hall as [[q Hq] _].
    cbn [omap list_omap]. by rewrite Hq. }
  assert (existsb (es_matches d) (omap DERIVED_STATE vs) = true <->
    ∃ v q, v ∈ vs ∧ DERIVED_STATE v = Some q ∧ es_matches d q = true) as He.
  { rewrite existsb_elem. setoid_rewrite list_elem_of_omap. naive_solver. }
  rewrite <- He. clear He. revert Hne. generalize (omap DERIVED_STATE vs). intros [|q [|q' qs]] Hne; [done|..].
  - cbn [existsb]. by rewrite orb_false_r.
  - unfold any_of. by rewrite any_of_matches.
Qed.

Lemma termsClause_matches field vs d :
  es_matches d (termsClause field vs) = true <->
  ∃ v, v ∈ vs ∧ es_matches d (q_term field (ev_str v)) = true.
Proof.
  unfold termsClause. rewrite terms_matches. split.
  - intros (x & (v & -> & Hx)%list_elem_of_fmap & Hm). by exists v.
  - intros (v & Hx & Hm). exists (ev_str v). split; [|done]. by apply list_elem_of_fmap_2.
Qed.

Lemma team_ids_elem vs id :
  id ∈ flat_map (fun v => match teamIds resolution !! v with Some l => l | None => [] end) vs <->
  ∃ v ids, v ∈ vs ∧ teamIds resolution !! v = Some ids ∧ id ∈ ids.
Proof.
  rewrite list_elem_of_In, in_flat_map. setoid_rewrite <- list_elem_of_In. split.
  - intros (v & Hv & Hid). destruct (_ !! v) as [ids|] eqn:E; [by exists v, ids|by inversion Hid].
  - intros (v & ids & Hv & E & Hid). exists v. by rewrite E.
Qed.

(** A clause matches exactly the documents its filter selects. *)
Lemma toClause_matches f clause names d :
  askable f -> toClause format_parts toISOString f resolution = Ok (clause, names) ->
  es_matches d clause = true <-> selects f d.
Proof.
  intros Ha H1. unfold toClause in H1. inv_bind H1. destruct f as [k op vs|k op x y|k op x y tz].
  - cbn in Hb. injection Hb as <-. cbn [equalityClause] in H1. destruct Ha as [Hn Hs]. cbn [selects].
    destruct k; cbn [RANGE_FIELDS TERM_FIELDS] in H1; try discriminate H1; injection H1 as <- <-; cbn [has_value TERM_FIELDS].
    all: try (rewrite termsClause_matches; naive_solver).
    + rewrite idsClause_matches. setoid_rewrite list_elem_of_omap. naive_solver.
    + rewrite idsClause_matches. setoid_rewrite team_ids_elem. naive_solver.
    + rewrite idsClause_matches. setoid_rewrite team_ids_elem. naive_solver.
    + unfold pathClause. by rewrite any_of_map.
    + rewrite derivedStateClause_matches by auto. naive_solver.
  - cbn [rangeClause] in Hb. injection Hb as <-. cbn [selects].
    destruct (RANGE_FIELDS k) as [field|]; cbn in H1; injection H1 as <- <-; [naive_solver|].
    unfold MATCH_NONE. rewrite law_match_none. naive_solver.
  - cbn [rangeClause] in Hb. cbn [selects]. destruct (RANGE_FIELDS k) as [field|].
    2: { injection Hb as <-. cbn in H1. injection H1 as <- <-. unfold MATCH_NONE.
         rewrite law_match_none. destruct tz; naive_solver. }
    destruct tz as [zone|].
    + destruct (calendarRangeToUtc _ _ _) as [[lo hi]|]; [|discriminate]. injection Hb as <-.
      injection H1 as <- <-. naive_solver.
    + injection Hb as <-. injection H1 as <- <-. naive_solver.
Qed.

Lemma add_clauses_matches d fs : forall st st',
  Forall askable fs -> add_clauses format_parts toISOString resolution fs st = Ok st' ->
  ((forall q, q ∈ b_filter st' -> es_matches d q = true) <->
   (forall q, q ∈ b_filter st -> es_matches d q = true) ∧
   (forall f, f ∈ fs -> isNegated f = false -> selects f d)) ∧
  ((forall q, q ∈ b_mustNot st' -> es_matches d q = false) <->
   (forall q, q ∈ b_mustNot st -> es_matches d q = false) ∧
   (forall f, f ∈ fs -> isNegated f = true -> ~ selects f d)).
Proof.
  induction fs as [|f fs IH]; intros st st' Ha H1.
  - cbn in H1. injection H1 as <-. split; (split; [|tauto]); (intros Hq; split; [done|]); intros f Hf; inversion Hf.
  - apply Forall_cons_1 in Ha as [Hf Ha]. cbn [add_clauses] in H1. inv_bind H1. destruct a as [c names].
    pose proof (toClause_matches f c names d Hf Hb) as Hc.
    destruct (IH _ _ Ha H1) as [I1 I2]. rewrite I1, I2. clear I1 I2 IH H1.
    destruct (isNegated f) eqn:E; cbn [b_filter b_mustNot].
    all: rewrite ?every_elem_snoc, ?(every_elem_cons (fun f => isNegated f = _ -> _)), <- ?not_true_iff_false, ?Hc, E.
    all: intuition congruence.
Qed.

(** Ordinals have a meaning within one epoch of their space. *)
Definition in_epochs (ast : QueryAst) (o : BuildQueryOptions) (d : D) : Prop :=
  (hasSequenceRangeFilter ast = true -> ∃ e, sequenceEpoch o = Some e ∧
     es_matches d (q_term (js "seq_epoch") (ev_num e)) = true) ∧
  (hasMergeNumberRangeFilter ast = true -> ∃ e b, mergeNumberEpoch o = Some e ∧ mergeNumberBaseBranch o = Some b ∧
     es_matches d (q_term (js "merge_number_epoch") (ev_num e)) = true ∧
     es_matches d (q_term (js "base_branch") (ev_str b)) = true).

(** Free text matches, and a commit is on the first-parent chain; a document that is no
    commit has no role. *)
Definition text_selects (ast : QueryAst) (d : D) : Prop :=
  match free_text ast with
  | None => True
  | Some t => es_matches d (buildTextClause t) = true ∧
      (es_matches d (q_exists (js "role")) = true ->
       ∃ r, r ∈ FIRST_PARENT_COMMIT_ROLES ∧ es_matches d (q_term (js "role") (ev_str r)) = true)
  end.

Lemma NON_FIRST_PARENT_COMMIT_matches d :
  es_matches d NON_FIRST_PARENT_COMMIT = false <->
  (es_matches d (q_exists (js "role")) = true ->
   ∃ r, r ∈ FIRST_PARENT_COMMIT_ROLES ∧ es_matches d (q_term (js "role") (ev_str r)) = true).
Proof.
  unfold NON_FIRST_PARENT_COMMIT. rewrite <- termsClause_matches. unfold termsClause.
  rewrite law_bool_no_should by done. cbn [forallb andb]. rewrite !andb_true_r.
  destruct (es_matches d (q_exists _)), (es_matches d (q_terms _ _)); cbn [negb andb]; intuition congruence.
Qed.

Lemma gates_match ast o d g1 g2 :
  sequence_gate ast o = Ok g1 -> merge_number_gate ast o = Ok g2 ->
  (forall q, q ∈ g1 ++ g2 -> es_matches d q = true) <-> in_epochs ast o d.
Proof.
  unfold sequence_gate, merge_number_gate, in_epochs. intros H1 H2. rewrite every_elem_app. f_equiv.
  - destruct (hasSequenceRangeFilter ast).
    + destruct (sequenceEpoch o) as [e|]; [|done]. injection H1 as <-.
      rewrite every_elem_cons. pose proof (every_elem_nil (fun q => es_matches d q = true)).
      split; [intros [? _] _; eauto|]. intros (e' & [= <-] & ?); [done|]. done.
    + injection H1 as <-. split; [done|]. intros _. apply every_elem_nil.
  - destruct (hasMergeNumberRangeFilter ast).
    + destruct (mergeNumberEpoch o) as [e|]; [|done]. destruct (mergeNumberBaseBranch o) as [b|]; [|done].
      injection H2 as <-. rewrite !every_elem_cons. pose proof (every_elem_nil (fun q => es_matches d q = true)).
      split; [intros (? & ? & _) _; eauto 10|]. intros (e' & b' & [= <-] & [= <-] & ? & ?); done.
    + injection H2 as <-. split; [done|]. intros _. apply every_elem_nil.
Qed.

(** [C12] The built query matches exactly the documents that the syntax tree asks for: every
    filter selects them (one of its values, or a field in its range), no negated filter
    does, they are in the epochs of the ranges, and the free text matches a message of the
    first-parent chain. *)
Theorem buildQuery_matches ast o b d :
  Forall askable (filters ast) -> buildQuery format_parts toISOString ast resolution o = Ok b ->
  es_matches d (query b) = true <->
  (forall f, f ∈ filters ast -> isNegated f = false -> selects f d) ∧
  (forall f, f ∈ filters ast -> isNegated f = true -> ~ selects f d) ∧
  in_epochs ast o d ∧ text_selects ast d.
Proof.
  intros Ha H1. unfold buildQuery in H1. inv_bind H1. inv_bind H1. inv_bind H1.
  pose proof (gates_match ast o d a a0 Hb Hb0) as Hg.
  destruct (add_clauses_matches d _ _ _ Ha Hb1) as [Hf Hn]. cbn [b_filter b_mustNot] in Hf, Hn.
  assert (forall q, q ∈ [] -> es_matches d q = false) as Hnil by (intros q Hq; inversion Hq).
  rewrite <- Hg.
  set (must := match free_text ast with Some t => [buildTextClause t] | None => [] end) in *.
  set (extra := match free_text ast with Some _ => [NON_FIRST_PARENT_COMMIT] | None => [] end) in *.
  assert ((forall q, q ∈ must -> es_matches d q = true) ∧ (forall q, q ∈ extra -> es_matches d q = false)
          <-> text_selects ast d) as Ht.
  { unfold must, extra, text_selects. destruct (free_text ast).
    - setoid_rewrite list_elem_of_singleton. rewrite <- NON_FIRST_PARENT_COMMIT_matches. naive_solver.
    - split; [done|]. intros _. split; intros q Hq; inversion Hq. }
  assert (es_matches d (query b) = true <->
    (forall q, q ∈ must -> es_matches d q = true) ∧ (forall q, q ∈ b_filter a1 -> es_matches d q = true) ∧
    (forall q, q ∈ b_mustNot a1 ++ extra -> es_matches d q = false)) as ->.
  { clearbody must extra. destruct (b_filter a1) as [|q1 l1] eqn:E1, (b_mustNot a1 ++ extra) as [|q2 l2] eqn:E2, must as [|q3 l3] eqn:E3;
      injection H1 as <-; cbn [query]; try (apply all_of_matches; by destruct l3 || done).
    rewrite law_match_all. split; [|done]. intros _. split; [|split]; intros q Hq; inversion Hq. }
  rewrite every_elem_app, Hf, Hn, <- Ht. intuition.
Qed.

End meaning.

(** ** Failures and reported names *)

Section outcomes.
Context (format_parts : jstr -> Z -> Z * Z * Z * (Z * Z * Z)) (toISOString : Z -> jstr)
  (resolution : NameResolution).

(** What a filter needs to become a clause. *)
Definition buildable (f : QueryFilter) : Prop :=
  match f with
  | EqualityFilter k _ _ => isRangeKey k = false ∧ k <> kind
  | TemporalRangeFilter k _ a b (Some zone) =>
    isRangeKey k = true -> is_ok (calendarRangeToUtc (format_parts zone) a b) = true
  | _ => True
  end.

Lemma RANGE_FIELDS_range k : is_Some (RANGE_FIELDS k) <-> isRangeKey k = true.
Proof.
  destruct k; (split; [intros [x Hx]; first [reflexivity|discriminate Hx]
                      |intros Hk; first [eexists; reflexivity|discriminate Hk]]).
Qed.

Lemma toClause_ok f : is_ok (toClause format_parts toISOString f resolution) = true <-> buildable f.
Proof.
  unfold toClause. destruct f as [k op vs|k op x y|k op x y tz]; cbn [rangeClause buildable].
  - cbn [mbind result_bind]. unfold equalityClause.
    destruct k; cbn [RANGE_FIELDS TERM_FIELDS is_ok]; cbv zeta;
      first [split; [intros _; split; [reflexivity|discriminate]|reflexivity]
            |split; [discriminate|intros [Hk Hn]; done]].
  - split; [done|]. intros _. by destruct (RANGE_FIELDS k).
  - destruct (RANGE_FIELDS k) as [field|] eqn:E; cbn [mbind result_bind equalityClause].
    + assert (isRangeKey k = true) as -> by (apply RANGE_FIELDS_range; by rewrite E).
      destruct tz as [zone|]; [|done]. destruct (calendarRangeToUtc _ _ _) as [[lo hi]|]; cbn [mbind result_bind is_ok]; [done|].
      split; [done|]. intros Hd. by specialize (Hd eq_refl).
    + assert (isRangeKey k = false) as ->.
      { destruct (isRangeKey k) eqn:Ek; [|done]. apply RANGE_FIELDS_range in Ek as [? ?]. congruence. }
      by destruct tz.
Qed.

Lemma add_clauses_ok fs : forall st,
  is_ok (add_clauses format_parts toISOString resolution fs st) = true <-> (forall f, f ∈ fs -> buildable f).
Proof.
  induction fs as [|f fs IH]; intros st; cbn [add_clauses].
  - split; [|done]. intros _. apply every_elem_nil.
  - rewrite every_elem_cons, <- toClause_ok. destruct (toClause _ _ _ _) as [[c names]|e]; cbn [mbind result_bind].
    + rewrite IH. naive_solver.
    + naive_solver.
Qed.

(** A query is built exactly when every range on a sequence space comes with the epoch (and
    for M numbers the branch) of the space, no [kind:] filter is left, no range key is used
    with a plain value, and the calendar days of every zoned range exist; in every other case
    the function throws. *)
Theorem buildQuery_ok ast o :
  is_ok (buildQuery format_parts toISOString ast resolution o) = true <->
  (hasSequenceRangeFilter ast = true -> is_Some (sequenceEpoch o)) ∧
  (hasMergeNumberRangeFilter ast = true -> is_Some (mergeNumberEpoch o) ∧ is_Some (mergeNumberBaseBranch o)) ∧
  (forall f, f ∈ filters ast -> buildable f).
Proof.
  unfold buildQuery, sequence_gate, merge_number_gate.
  assert (forall g, is_ok (st ← add_clauses format_parts toISOString resolution (filters ast) (mkBuild g [] []);
     let must := match free_text ast with Some t => [buildTextClause t] | None => [] end in
     let mustNot := b_mustNot st ++ match free_text ast with Some _ => [NON_FIRST_PARENT_COMMIT] | None => [] end in
     match b_filter st, mustNot, must with
     | [], [], [] => Ok (mkBuilt q_match_all (b_unresolved st))
     | _, _, _ => Ok (mkBuilt (q_bool must (b_filter st) [] mustNot None) (b_unresolved st))
     end) = true <-> (forall f, f ∈ filters ast -> buildable f)) as Hst.
  { intros g. rewrite <- (add_clauses_ok _ (mkBuild g [] [])). destruct (add_clauses _ _ _ _ _) as [st|]; [|done].
    cbn [mbind result_bind is_ok]. cbv zeta. by repeat case_match. }
  pose proof (is_Some_None (A := Z)) as HnZ. pose proof (is_Some_None (A := jstr)) as HnS.
  destruct (hasSequenceRangeFilter ast), (sequenceEpoch o), (hasMergeNumberRangeFilter ast), (mergeNumberEpoch o),
    (mergeNumberBaseBranch o); cbn [mbind result_bind]; rewrite ?Hst; cbn [is_ok]; intuition eauto; discriminate.
Qed.

(** The names a filter asks the registry for and the registry does not know. *)
Definition asks_unknown (f : QueryFilter) (u : UnresolvedName) : Prop :=
  match f with
  | EqualityFilter k _ vs => u_key u = k ∧ u_value u ∈ vs ∧
      ((k = org ∧ orgIds resolution !! u_value u = None) \/
       ((k = team \/ k = author_team) ∧ teamIds resolution !! u_value u = None))
  | _ => False
  end.

Lemma missing_spec {A} (m : gmap jstr A) k vs u :
  u ∈ map (mkUnresolved k) (List.filter (fun v => negb (bool_decide (is_Some (m !! v)))) vs) <->
  u_key u = k ∧ u_value u ∈ vs ∧ m !! u_value u = None.
Proof.
  rewrite list_elem_of_fmap. setoid_rewrite elem_filter. setoid_rewrite negb_true_iff.
  setoid_rewrite bool_decide_eq_false. setoid_rewrite <- eq_None_not_Some. destruct u as [k' v]. cbn.
  split; [intros (v' & [= -> ->] & ? & ?); done|]. intros (-> & ? & ?). eauto.
Qed.

Lemma toClause_unresolved f c names u :
  toClause format_parts toISOString f resolution = Ok (c, names) -> u ∈ names <-> asks_unknown f u.
Proof.
  unfold toClause. intros H1. inv_bind H1.
  assert (u ∈ [] <-> False) as Hnil by (split; [intros H; inversion H|done]).
  destruct f as [k op vs|k op x y|k op x y tz]; cbn [asks_unknown].
  - cbn in Hb. injection Hb as <-. cbn [equalityClause] in H1.
    destruct k; cbn [RANGE_FIELDS TERM_FIELDS] in H1; cbv zeta in H1; try discriminate H1; injection H1 as _ <-;
      rewrite ?missing_spec, ?Hnil; intuition discriminate.
  - destruct a; injection H1 as _ <-; done.
  - destruct a; injection H1 as _ <-; done.
Qed.

Lemma add_clauses_unresolved u fs : forall st st',
  add_clauses format_parts toISOString resolution fs st = Ok st' ->
  u ∈ b_unresolved st' <-> u ∈ b_unresolved st \/ ∃ f, f ∈ fs ∧ asks_unknown f u.
Proof.
  induction fs as [|f fs IH]; intros st st' H; cbn [add_clauses] in H.
  - injection H as <-. split; [auto|]. intros [?|(f & Hf & _)]; [done|inversion Hf].
  - inv_bind H. destruct a as [c names]. rewrite (IH _ _ H).
    assert (u ∈ b_unresolved (if isNegated f then mkBuild (b_filter st) (b_mustNot st ++ [c]) (b_unresolved st ++ names)
       else mkBuild (b_filter st ++ [c]) (b_mustNot st) (b_unresolved st ++ names)) <->
       u ∈ b_unresolved st \/ asks_unknown f u) as ->.
    { rewrite <- (toClause_unresolved f c names u Hb). destruct (isNegated f); cbn; by rewrite elem_of_app. }
    setoid_rewrite elem_of_cons. split.
    + intros [[?|?]|(g & ? & ?)]; eauto.
    + intros [?|(g & [->|?] & ?)]; eauto.
Qed.

(** The response lists exactly the names that the registry does not know. *)
Theorem buildQuery_unresolved ast o b u :
  buildQuery format_parts toISOString ast resolution o = Ok b ->
  u ∈ unresolved b <-> ∃ f, f ∈ filters ast ∧ asks_unknown f u.
Proof.
  unfold buildQuery. intros H. inv_bind H. inv_bind H. inv_bind H.
  assert (unresolved b = b_unresolved a1) as -> by (cbv zeta in H; repeat case_match; by injection H as <-).
  rewrite (add_clauses_unresolved u _ _ _ Hb1). cbn [b_unresolved].
  split; [intros [Hu|?]; [inversion Hu|done]|auto].
Qed.

End outcomes.

(** ** The names to ask for *)

Definition asks_name (ks : list QueryKey) (fs : list QueryFilter) (v : jstr) : Prop :=
  ∃ k op vs, EqualityFilter k op vs ∈ fs ∧ k ∈ ks ∧ v ∈ vs.

Lemma asks_name_cons ks f fs v :
  asks_name ks (f :: fs) v <-> asks_name ks [f] v \/ asks_name ks fs v.
Proof.
  unfold asks_name. setoid_rewrite elem_of_cons. setoid_rewrite elem_of_nil. split.
  - intros (k & op & vs & [<-|?] & ? & ?); [left|right]; eauto 10.
  - intros [(k & op & vs & [<-|[]] & ? & ?)|(k & op & vs & ? & ? & ?)]; eauto 10.
Qed.

Lemma asks_name_one ks k op vs v : asks_name ks [EqualityFilter k op vs] v <-> k ∈ ks ∧ v ∈ vs.
Proof.
  unfold asks_name. setoid_rewrite list_elem_of_singleton. split; [|eauto 10].
  by intros (k' & op' & vs' & [= -> -> ->] & ? & ?).
Qed.

Lemma asks_name_range ks f v : isRangeFilter f = true -> asks_name ks [f] v <-> False.
Proof.
  unfold asks_name. setoid_rewrite list_elem_of_singleton. intros Hr. split; [|done].
  intros (k & op & vs & <- & _). done.
Qed.

Definition collected (fs : list QueryFilter) (acc acc' : list jstr * list jstr) : Prop :=
  (forall v, v ∈ acc'.1 <-> v ∈ acc.1 \/ asks_name [org] fs v) ∧
  (forall v, v ∈ acc'.2 <-> v ∈ acc.2 \/ asks_name [team; author_team] fs v) ∧
  (NoDup acc.1 -> NoDup acc'.1) ∧ (NoDup acc.2 -> NoDup acc'.2).

Lemma collect_step_spec f acc : collected [f] acc (collect_step acc f).
Proof.
  destruct (isRangeFilter f) eqn:Er.
  - assert (collect_step acc f = acc) as -> by by destruct f.
    unfold collected. split_and!; try (intros v; rewrite (asks_name_range _ f _ Er); tauto); auto.
  - destruct f as [k op vs| |]; [|done..]. unfold collected. setoid_rewrite asks_name_one. cbn [collect_step fst snd].
    destruct (foldl_set_add vs acc.1) as [Ho1 Ho2], (foldl_set_add vs acc.2) as [Ht1 Ht2].
    setoid_rewrite elem_of_cons. setoid_rewrite elem_of_nil.
    split; [|split; [|split]]; case_bool_decide; auto; intros v; rewrite ?Ho1, ?Ht1, ?list_elem_of_singleton; intuition congruence.
Qed.

Lemma collect_spec fs : forall acc, collected fs acc (foldl collect_step acc fs).
Proof.
  induction fs as [|f fs IH]; intros acc; cbn [foldl].
  - assert (forall ks v, asks_name ks [] v <-> False) as Hnil.
    { intros ks v. split; [|done]. intros (? & ? & ? & H & _). inversion H. }
    unfold collected. split_and!; try (intros v; rewrite Hnil; tauto); auto.
  - destruct (collect_step_spec f acc) as (H1 & H2 & H3 & H4), (IH (collect_step acc f)) as (I1 & I2 & I3 & I4).
    unfold collected. split_and!; auto; intros v; rewrite (asks_name_cons _ f), ?I1, ?I2, ?H1, ?H2; tauto.
Qed.

(** [collectNames] asks for every organization and team name of the query, each once. *)
Theorem collectNames_spec ast :
  (forall v, v ∈ (collectNames ast).1 <-> asks_name [org] (filters ast) v) ∧
  (forall v, v ∈ (collectNames ast).2 <-> asks_name [team; author_team] (filters ast) v) ∧
  NoDup (collectNames ast).1 ∧ NoDup (collectNames ast).2.
Proof.
  destruct (collect_spec (filters ast) ([], [])) as (H1 & H2 & H3 & H4). cbn [fst snd] in *.
  setoid_rewrite elem_of_nil in H1. setoid_rewrite elem_of_nil in H2.
  split; [intros v; unfold collectNames; rewrite H1; tauto|]. split; [intros v; unfold collectNames; rewrite H2; tauto|].
  split; [apply H3|apply H4]; constructor.
Qed.

(** ** Examples *)

Definition example_parts (_ : jstr) (_ : Z) : Z * Z * Z * (Z * Z * Z) := (1970, 1, 1, (0, 0, 0)).
(** [repo:acme/pay -author:bot team:core retry], with the team known by two ids. *)
Definition example_ast : QueryAst :=
  mkAst [EqualityFilter repo op_eq [js "acme/pay"]; EqualityFilter author op_not_eq [js "bot"];
         EqualityFilter team op_eq [js "core"]] (Some (js "retry")).
Definition example_resolution : NameResolution := mkResolution ∅ {[ js "core" := [12; 40] ]}.
Definition example_options : BuildQueryOptions := mkOptions None None None.
Definition example_doc : EsDoc :=
  mkDoc [(js "repository", [ev_str (js "acme/pay")]); (js "author", [ev_str (js "kim")]);
         (js "allowed_team_ids", [ev_num 40]); (js "body", [ev_str (js "one retry")])].
Definition example_query : EsQuery :=
  q_bool [q_multi_match (js "retry") FULL_TEXT_FIELDS mm_phrase]
    [q_terms (js "repository") [ev_str (js "acme/pay")]; q_terms (js "allowed_team_ids") [ev_num 12; ev_num 40]]
    [] [q_terms (js "author") [ev_str (js "bot")]; NON_FIRST_PARENT_COMMIT] None.

Example example_found : es_matches example_doc example_query = true.
Proof. vm_compute. reflexivity. Qed.
Lemma buildQuery_matches_witness :
  es_matches example_doc example_query = true <->
  (forall f, f ∈ filters example_ast -> isNegated f = false -> selects example_parts js_of_Z example_resolution f example_doc) ∧
  (forall f, f ∈ filters example_ast -> isNegated f = true -> ~ selects example_parts js_of_Z example_resolution f example_doc) ∧
  in_epochs example_ast example_options example_doc ∧ text_selects example_ast example_doc.
Proof.
  apply (buildQuery_matches example_parts js_of_Z example_resolution example_ast example_options (mkBuilt example_query []) example_doc).
  - repeat constructor; discriminate.
  - vm_compute. reflexivity.
Defined.
Lemma resolveSearchTarget_spec_witness :
  (forall a, a ∈ [prs_commits] <-> a ∈ [prs_pull_requests; prs_commits] ∧
     forall f, f ∈ [EqualityFilter kind op_not_eq [js "pull_request"]] -> kind_keeps f a) ∧
  (Some [prs_commits] = Some [] -> [prs_pull_requests; prs_commits] = []) ∧ @None jstr = None ∧
  (forall f, f ∈ [] <-> f ∈ [EqualityFilter kind op_not_eq [js "pull_request"]] ∧ is_kind f = false).
Proof.
  apply (resolveSearchTarget_spec (mkAst [EqualityFilter kind op_not_eq [js "pull_request"]] None)
    [prs_pull_requests; prs_commits] (Some [prs_commits]) (mkAst [] None)). vm_compute. reflexivity.
Defined.
