(* ===== verification/ScopedQuery.v ===== *)
(** * Access scopes on queries

    [packages/es/src/scoped-query.ts]: the mandatory filter of a search by the repositories
    a user may read, the filter of the archive, and the same decision on a repository
    row. *)

From stdpp Require Import base list option strings numbers.
From Stdlib Require Import ZArith Lia.
From S2P Require Import Prelude JsString EsQuery.
Open Scope Z_scope.

Definition EXPLICIT_SCOPE_LIMIT : Z := 500.

Inductive AccessScope : Set :=
| ExplicitAccessScope (repositoryIds : list Z)
| OrgTeamAccessScope (orgIds teamIds : list Z) (visibilities : list jstr).

Definition scopeFilter (scope : AccessScope) : EsQuery :=
  match scope with
  | ExplicitAccessScope ids => q_terms (js "repository_id") (map ev_num ids)
  | OrgTeamAccessScope orgs teams visibilities =>
    q_bool [] [q_terms (js "org_id") (map ev_num orgs)]
      [q_terms (js "visibility") (map ev_str visibilities); q_terms (js "allowed_team_ids") (map ev_num teams)]
      [] (Some 1%nat)
  end.

Definition unavailable (reason : jstr) : jstr := js "접근 범위를 확인할 수 없다: " ++ reason.

(** [Err] is the message of the [AccessScopeUnavailableError] that is thrown. *)
Definition applyMandatoryScopeFilter (query : EsQuery) (scope : AccessScope) : result jstr EsQuery :=
  match scope with
  | ExplicitAccessScope [] => Err (unavailable (js "접근 가능한 저장소가 없다"))
  | OrgTeamAccessScope [] _ _ => Err (unavailable (js "접근 가능한 조직이 없다"))
  | _ => Ok (q_bool [query] [scopeFilter scope] [] [] None)
  end.

Definition applyArchiveScopeFilter (query : EsQuery) (repositoryIds : list Z) : result jstr EsQuery :=
  match repositoryIds with
  | [] => Err (unavailable (js "접근 가능한 저장소가 없다"))
  | _ => Ok (q_bool [query] [q_terms (js "repository_id") (map ev_num repositoryIds)] [] [] None)
  end.

Definition shouldUseOrgTeamScope (repositoryCount : Z) : bool := EXPLICIT_SCOPE_LIMIT <? repositoryCount.

Record Repository : Set := mkRepository {
  repositoryId : Z; r_orgId : Z; visibility : jstr; allowedTeamIds : list Z
}.
Definition mem_Z (x : Z) (l : list Z) : bool := existsb (Z.eqb x) l.

Definition isRepositoryInScope (r : Repository) (scope : AccessScope) : bool :=
  match scope with
  | ExplicitAccessScope ids => mem_Z (repositoryId r) ids
  | OrgTeamAccessScope orgs teams visibilities =>
    if negb (mem_Z (r_orgId r) orgs) then false
    else if mem (visibility r) visibilities then true
    else existsb (fun t => mem_Z t teams) (allowedTeamIds r)
  end.

(** ** One rule in two places *)

Lemma mem_Z_elem x l : mem_Z x l = true <-> x ∈ l.
Proof. unfold mem_Z. rewrite existsb_elem. setoid_rewrite Z.eqb_eq. naive_solver. Qed.

Section scopes.
Context {D : Type} `{EsLaws D}.

(** A document of the index carries the repository's row. *)
Record belongs_to (d : D) (r : Repository) : Prop := {
  doc_repository n : es_matches d (q_term (js "repository_id") (ev_num n)) = true <-> n = repositoryId r;
  doc_org n : es_matches d (q_term (js "org_id") (ev_num n)) = true <-> n = r_orgId r;
  doc_visibility v : es_matches d (q_term (js "visibility") (ev_str v)) = true <-> v = visibility r;
  doc_teams n : es_matches d (q_term (js "allowed_team_ids") (ev_num n)) = true <-> n ∈ allowedTeamIds r
}.

Lemma terms_of {A} (g : A -> EsScalar) field l (d : D) (P : A -> Prop) :
  (forall x, es_matches d (q_term field (g x)) = true <-> P x) ->
  es_matches d (q_terms field (map g l)) = true <-> ∃ x, x ∈ l ∧ P x.
Proof.
  intros HP. rewrite terms_matches. split.
  - intros (v & (x & -> & Hx)%list_elem_of_fmap & Hm). exists x. by rewrite <- HP.
  - intros (x & Hx & Hm). exists (g x). rewrite HP. split; [by apply list_elem_of_fmap_2|done].
Qed.

(** The filter of a search and the check on a repository decide alike: a document passes the
    scope filter exactly when its repository is in the scope. *)
Lemma scopeFilter_agrees d r scope :
  belongs_to d r -> es_matches d (scopeFilter scope) = true <-> isRepositoryInScope r scope = true.
Proof.
  intros [B1 B2 B3 B4]. destruct scope as [ids|orgs teams vis]; cbn [scopeFilter isRepositoryInScope].
  - rewrite (terms_of ev_num _ ids d _ B1), mem_Z_elem. naive_solver.
  - rewrite law_bool by done. cbn [forallb andb]. rewrite !andb_true_r, andb_true_iff, count_matching_exists.
    cbn [existsb]. rewrite !orb_true_iff, (terms_of ev_num _ orgs d _ B2), (terms_of ev_str _ vis d _ B3),
      (terms_of ev_num _ teams d _ B4).
    destruct (mem_Z (r_orgId r) orgs) eqn:Eo; cbn [negb].
    + apply mem_Z_elem in Eo. destruct (mem (visibility r) vis) eqn:Ev.
      * apply mem_elem in Ev. naive_solver.
      * apply mem_false in Ev. rewrite existsb_elem. setoid_rewrite mem_Z_elem. naive_solver.
    + assert (r_orgId r ∉ orgs) by (rewrite <- mem_Z_elem, Eo; done). naive_solver.
Qed.


(** The archive is searched with the explicit form of the same scope. *)
Theorem applyArchiveScopeFilter_agrees query ids :
  applyArchiveScopeFilter query ids = applyMandatoryScopeFilter query (ExplicitAccessScope ids).
Proof. by destruct ids. Qed.

End scopes.

(** A repository outside the scope is never in a result, whatever the query. *)
Definition sample_repository : Repository := mkRepository 7 3 (js "private") [12; 13].
Definition sample_doc : EsDoc :=
  mkDoc [(js "repository_id", [ev_num 7]); (js "org_id", [ev_num 3]); (js "visibility", [ev_str (js "private")]);
         (js "allowed_team_ids", [ev_num 12; ev_num 13])].
Lemma sample_belongs : belongs_to sample_doc sample_repository.
Proof.
  split; intros x; unfold es_matches, model_index, model_matches; rewrite bool_decide_eq_true;
    [change (values_of sample_doc (js "repository_id")) with [ev_num 7]
    |change (values_of sample_doc (js "org_id")) with [ev_num 3]
    |change (values_of sample_doc (js "visibility")) with [ev_str (js "private")]
    |change (values_of sample_doc (js "allowed_team_ids")) with [ev_num 12; ev_num 13]];
    cbn [repositoryId r_orgId visibility allowedTeamIds sample_repository];
    rewrite ?elem_of_cons, ?elem_of_nil; intuition congruence.
Qed.
