(* ===== verification/EsSort.v ===== *)
(** * Sorting of search results

    [packages/es/src/sort.ts]: the sort keys, the clauses of a sort with their values for
    documents that lack the field, and the check of failed shards.  [compare_by] is the
    documented order of a list of clauses: the first clause that tells two documents apart
    decides. *)

From stdpp Require Import base list option strings numbers.
From Stdlib Require Import ZArith Lia.
From S2P Require Import Prelude JsString.
Open Scope Z_scope.

Inductive SortKey : Set :=
| by_pr_number | by_merge_seq | by_merged_at | by_created_at | by_updated_at
| by_changed_files_count | by_additions | by_lead_time_seconds | by_relevance.
#[export] Instance SortKey_eq_dec : EqDecision SortKey.
Proof. solve_decision. Defined.
Inductive SortOrder : Set := asc | desc.

Definition SORT_KEYS : list SortKey :=
  [by_pr_number; by_merge_seq; by_merged_at; by_created_at; by_updated_at; by_changed_files_count;
   by_additions; by_lead_time_seconds; by_relevance].
Definition sort_key_name (k : SortKey) : jstr :=
  match k with
  | by_pr_number => js "pr_number" | by_merge_seq => js "merge_seq" | by_merged_at => js "merged_at"
  | by_created_at => js "created_at" | by_updated_at => js "updated_at"
  | by_changed_files_count => js "changed_files_count" | by_additions => js "additions"
  | by_lead_time_seconds => js "lead_time_seconds" | by_relevance => js "relevance"
  end.
(** The key that a string names. *)
Definition isSortKey (s : jstr) : option SortKey := find_first (fun k => jeqb (sort_key_name k) s) SORT_KEYS.

Definition DEFAULT_SORT_KEY : SortKey := by_merge_seq.
Definition DEFAULT_SORT_ORDER : SortOrder := desc.

Inductive sort_type : Set := t_long | t_date | t_integer.
Definition SORT_FIELDS (k : SortKey) : option (jstr * sort_type) :=
  match k with
  | by_pr_number => Some (js "pr_number", t_integer)
  | by_merge_seq => Some (js "merge_seq", t_long)
  | by_merged_at => Some (js "merged_at", t_date)
  | by_created_at => Some (js "created_at", t_date)
  | by_updated_at => Some (js "updated_at", t_date)
  | by_changed_files_count => Some (js "changed_files_count", t_integer)
  | by_additions => Some (js "additions", t_integer)
  | by_lead_time_seconds => Some (js "lead_time_seconds", t_long)
  | by_relevance => None
  end.

(** A clause of the sort array: [_score], a field with a value for documents that lack it,
    or the document id, with [_last] and the type [keyword]. *)
Inductive sort_clause : Set :=
| c_score (order : SortOrder)
| c_field (field : jstr) (order : SortOrder) (missing : Z) (unmapped_type : sort_type)
| c_tiebreak (field : jstr).

Definition TIEBREAK_FIELD : jstr := js "doc_id".
Definition TIEBREAK : sort_clause := c_tiebreak TIEBREAK_FIELD.

Definition MISSING_SENTINEL (t : sort_type) (o : SortOrder) : Z :=
  match t, o with
  | t_date, desc => -62135596800000 | t_date, asc => 253402300799000
  | t_long, desc => -1 | t_long, asc => MAX_SAFE_INTEGER
  | t_integer, desc => -1 | t_integer, asc => 2147483647
  end.

Definition fieldSort (field : jstr) (t : sort_type) (o : SortOrder) : sort_clause :=
  c_field field o (MISSING_SENTINEL t o) t.

Definition buildSort (k : SortKey) (o : SortOrder) : list sort_clause :=
  match SORT_FIELDS k with
  | None => [c_score o; TIEBREAK]
  | Some (field, t) =>
    let primary := fieldSort field t o in
    if negb (bool_decide (k = DEFAULT_SORT_KEY)) then [primary; TIEBREAK]
    else [primary; fieldSort (js "merged_at") t_date desc; TIEBREAK]
  end.

(** The message of the [PartialSearchError]. *)
Definition assertNoShardFailures (failed total : Z) : result jstr unit :=
  throw_if (0 <? failed)
    (js "검색 샤드 " ++ js_of_Z failed ++ js "/" ++ js_of_Z total ++ js "가 실패해 부분 결과가 되었다") (Ok tt).

(** ** The order of documents *)

(** Comparison of keywords. *)
Fixpoint text_compare (a b : jstr) : comparison :=
  match a, b with
  | [], [] => Eq
  | [], _ => Lt
  | _, [] => Gt
  | x :: a, y :: b => match (x ?= y)%N with Eq => text_compare a b | c => c end
  end.
Definition directed (o : SortOrder) (c : comparison) : comparison :=
  match o with asc => c | desc => CompOpp c end.

(** What the sort reads of a document: its score, a numeric field (a date is its
    milliseconds) and the document id. *)
Record SortView : Set := mkView { v_score : Z; v_number : list (jstr * Z); v_doc_id : jstr }.
Definition number_of (d : SortView) (f : jstr) : option Z :=
  match find_first (fun kv => jeqb kv.1 f) (v_number d) with Some kv => Some kv.2 | None => None end.

Definition compare_clause (c : sort_clause) (a b : SortView) : comparison :=
  match c with
  | c_score o => directed o (v_score a ?= v_score b)
  | c_field f o missing _ =>
    let value d := match number_of d f with Some v => v | None => missing end in
    directed o (value a ?= value b)
  | c_tiebreak _ => text_compare (v_doc_id a) (v_doc_id b)
  end.

Fixpoint compare_by (cs : list sort_clause) (a b : SortView) : comparison :=
  match cs with
  | [] => Eq
  | c :: cs => match compare_clause c a b with Eq => compare_by cs a b | r => r end
  end.

(** ** A total order *)

Lemma text_compare_eq a : forall b, text_compare a b = Eq <-> a = b.
Proof.
  induction a as [|x a IH]; intros [|y b]; cbn [text_compare]; try done.
  destruct (x ?= y)%N eqn:E; [|split; [done|intros [= -> ->]; by rewrite N.compare_refl in E]..].
  apply N.compare_eq_iff in E as ->. rewrite IH. split; [by intros ->|by intros [= ->]].
Qed.
Lemma text_compare_antisym a : forall b, text_compare b a = CompOpp (text_compare a b).
Proof.
  induction a as [|x a IH]; intros [|y b]; cbn [text_compare]; try done.
  rewrite N.compare_antisym. destruct (x ?= y)%N; cbn; auto.
Qed.
Lemma text_compare_trans a : forall b c,
  text_compare a b = Lt -> text_compare b c = Lt -> text_compare a c = Lt.
Proof.
  induction a as [|x a IH]; intros [|y b] [|z c]; cbn [text_compare]; try done.
  destruct (x ?= y)%N eqn:E1; [| |done]; (destruct (y ?= z)%N eqn:E2; [| |done]); intros H1 H2;
    rewrite ?N.compare_eq_iff, ?N.compare_lt_iff in *; subst.
  - rewrite N.compare_refl. eauto.
  - by rewrite (proj2 (N.compare_lt_iff _ _)) by done.
  - by rewrite (proj2 (N.compare_lt_iff _ _)) by done.
  - by rewrite (proj2 (N.compare_lt_iff _ _)) by lia.
Qed.

(** A comparison that is a preorder with its equivalence. *)
Record weak_order (cmp : SortView -> SortView -> comparison) : Prop := {
  wo_antisym a b : cmp b a = CompOpp (cmp a b);
  wo_lt a b c : cmp a b = Lt -> cmp b c = Lt -> cmp a c = Lt;
  wo_eq_l a b c : cmp a b = Eq -> cmp a c = cmp b c;
}.

Lemma Z_weak_order o (g : SortView -> Z) : weak_order (fun a b => directed o (g a ?= g b)).
Proof.
  split.
  - intros a b. rewrite (Z.compare_antisym (g a) (g b)). destruct o, (g a ?= g b); done.
  - intros a b c. destruct o; cbn [directed]; rewrite ?CompOpp_iff; cbn [CompOpp];
      rewrite ?Z.compare_lt_iff, ?Z.compare_gt_iff; lia.
  - intros a b c H. assert (g a = g b) as ->; [|done].
    destruct o; cbn [directed] in H; [|apply CompOpp_iff in H]; by apply Z.compare_eq_iff in H.
Qed.

Lemma clause_weak_order c : weak_order (compare_clause c).
Proof.
  destruct c as [o|f o m t|f].
  - apply (Z_weak_order o v_score).
  - apply (Z_weak_order o (fun d => match number_of d f with Some v => v | None => m end)).
  - split; cbn [compare_clause].
    + intros. apply text_compare_antisym.
    + intros a b c. apply text_compare_trans.
    + intros a b c H%text_compare_eq. by rewrite H.
Qed.

Lemma compare_by_weak_order cs : weak_order (compare_by cs).
Proof.
  induction cs as [|c cs [I1 I2 I3]]; [by split|]. destruct (clause_weak_order c) as [C1 C2 C3].
  split; cbn [compare_by].
  - intros a b. rewrite C1. destruct (compare_clause c a b); cbn; auto.
  - intros a b d. destruct (compare_clause c a b) eqn:E1; [| |done]; (destruct (compare_clause c b d) eqn:E2; [| |done]);
      intros H1 H2.
    + rewrite (C3 a b d E1), E2. eauto.
    + by rewrite (C3 a b d E1), E2.
    + assert (compare_clause c d b = Eq) as E3 by (rewrite C1, E2; done).
      assert (compare_clause c a d = Lt) as ->; [|done].
      rewrite C1, (C3 d b a E3), C1, E1. done.
    + by rewrite (C2 a b d).
  - intros a b d. destruct (compare_clause c a b) eqn:E1; [|done..]. intros H. rewrite (C3 a b d E1).
    destruct (compare_clause c b d); auto.
Qed.

Lemma compare_by_snoc cs a b :
  compare_by (cs ++ [TIEBREAK]) a b = Eq -> v_doc_id a = v_doc_id b.
Proof.
  induction cs as [|c cs IH]; cbn [app compare_by].
  - cbn [compare_clause TIEBREAK]. destruct (text_compare _ _) eqn:E; [|done..]. intros _. by apply text_compare_eq.
  - by destruct (compare_clause c a b).
Qed.

(** Every sort of the code is a total order of the documents: two documents that it does
    not tell apart are the same document, by the id at the end of every sort. *)
Theorem buildSort_total k o a b :
  (compare_by (buildSort k o) a b = Eq -> v_doc_id a = v_doc_id b) ∧ weak_order (compare_by (buildSort k o)).
Proof.
  split; [|apply compare_by_weak_order].
  assert (∃ cs, buildSort k o = cs ++ [TIEBREAK]) as [cs ->]; [|apply compare_by_snoc].
  unfold buildSort. destruct (SORT_FIELDS k) as [[f t]|]; [|by exists [c_score o]].
  destruct (negb _); [by exists [fieldSort f t o]|by exists [fieldSort f t o; fieldSort (js "merged_at") t_date desc]].
Qed.

(** ** Missing values *)

(** The values a field of a type holds. *)
Definition representable (t : sort_type) (v : Z) : Prop := MISSING_SENTINEL t desc < v < MISSING_SENTINEL t asc.

(** In both directions the documents without the field come after those with it, and the
    default sort orders them among themselves by the time of their merge, latest first. *)
Theorem missing_last k o field t a b :
  SORT_FIELDS k = Some (field, t) ->
  (forall v, number_of a field = Some v -> representable t v -> number_of b field = None ->
     compare_by (buildSort k o) a b = Lt) ∧
  (k = DEFAULT_SORT_KEY -> number_of a field = None -> number_of b field = None ->
   forall x y, number_of a (js "merged_at") = Some x -> number_of b (js "merged_at") = Some y -> y < x ->
     compare_by (buildSort k o) a b = Lt).
Proof.
  intros Hf. unfold buildSort. rewrite Hf. split.
  - intros v Ha [Hlo Hhi] Hb.
    assert (compare_clause (fieldSort field t o) a b = Lt) as Hc.
    { unfold fieldSort, compare_clause. rewrite Ha, Hb. destruct o; cbn [directed].
      - by rewrite Z.compare_lt_iff.
      - by rewrite CompOpp_iff, Z.compare_gt_iff. }
    destruct (negb _); cbn [compare_by]; by rewrite Hc.
  - intros -> Ha Hb x y Hx Hy Hlt. rewrite bool_decide_true by done. cbn [negb compare_by].
    assert (compare_clause (fieldSort field t o) a b = Eq) as ->.
    { unfold fieldSort, compare_clause. rewrite Ha, Hb, Z.compare_refl. by destruct o. }
    assert (compare_clause (fieldSort (js "merged_at") t_date desc) a b = Lt) as ->; [|done].
    unfold fieldSort, compare_clause. rewrite Hx, Hy. cbn [directed]. by rewrite CompOpp_iff, Z.compare_gt_iff.
Qed.

(** The values that stand for a missing field survive JSON, and those of [integer] fields
    fit their type. *)
Theorem sentinels_safe t o :
  - MAX_SAFE_INTEGER <= MISSING_SENTINEL t o <= MAX_SAFE_INTEGER ∧
  (t = t_integer -> - 2 ^ 31 <= MISSING_SENTINEL t o < 2 ^ 31).
Proof. unfold MAX_SAFE_INTEGER. destruct t, o; (split; [vm_compute; split; discriminate|]); first [discriminate|intros _; vm_compute; split; [discriminate|reflexivity]]. Qed.

Definition merged_doc : SortView := mkView 0 [(js "merge_seq", 12); (js "merged_at", 1790434800000)] (js "pr:1").
Definition open_doc : SortView := mkView 0 [(js "merged_at", 1790434900000)] (js "pr:2").
Lemma missing_last_witness :
  compare_by (buildSort by_merge_seq desc) merged_doc open_doc = Lt.
Proof.
  apply (proj1 (missing_last by_merge_seq desc (js "merge_seq") t_long merged_doc open_doc eq_refl) 12);
    [reflexivity|split; reflexivity|reflexivity].
Defined.
