(* ===== verification/Highlight.v ===== *)
(** * Highlighted fragments

    [packages/es/src/highlight.ts]: fragments of the index, with two private-use characters
    around each match, become plain text with ranges.  The code walks over code points; the
    markers are single code units and the offsets are in code units, so the model walks over
    code units. *)

From stdpp Require Import base list option strings numbers.
From Stdlib Require Import ZArith Lia.
From S2P Require Import Prelude JsString.
Open Scope nat_scope.

Definition HIGHLIGHT_OPEN : N := 57344.
Definition HIGHLIGHT_CLOSE : N := 57345.
Definition HIGHLIGHT_FRAGMENTS : nat := 3.
Definition HIGHLIGHT_FRAGMENT_SIZE : nat := 160.
Definition HIGHLIGHT_FIELDS : list jstr := [js "title"; js "body"; js "message"].

Record HighlightMatch : Set := mkMatch { m_start : nat; m_end : nat }.
Record HighlightFragment : Set := mkFragment { f_text : jstr; f_matches : list HighlightMatch }.

(** The loop: the text and the matches so far, and the place of the last opening marker. *)
Fixpoint fragment_loop (marked text : jstr) (matches : list HighlightMatch) (openAt : option nat)
  : HighlightFragment :=
  match marked with
  | [] => mkFragment text matches
  | c :: marked =>
    if (c =? HIGHLIGHT_OPEN)%N then fragment_loop marked text matches (Some (length text))
    else if (c =? HIGHLIGHT_CLOSE)%N then
      fragment_loop marked text
        (match openAt with
         | Some s => if s <? length text then matches ++ [mkMatch s (length text)] else matches
         | None => matches
         end) None
    else fragment_loop marked (text ++ [c]) matches openAt
  end.
Definition toPlainFragment (marked : jstr) : HighlightFragment := fragment_loop marked [] [] None.

Abbreviation HighlightMap := (list (jstr * list HighlightFragment)).

(** [raw = None] is [undefined]; [None] is the [null] of no highlight at all. *)
Definition toPlainHighlight (raw : option (list (jstr * list jstr))) : option HighlightMap :=
  match raw with
  | None => None
  | Some raw =>
    let result := omap (fun field =>
      match find_first (fun kv => jeqb kv.1 field) raw with
      | None => None
      | Some kv =>
        match List.filter (fun f => match f_matches f with [] => false | _ => true end)
                (map toPlainFragment (take HIGHLIGHT_FRAGMENTS kv.2)) with
        | [] => None
        | converted => Some (field, converted)
        end
      end) HIGHLIGHT_FIELDS in
    match result with [] => None | _ => Some result end
  end.

Definition containsHighlightMarker (value : jstr) : bool :=
  existsb (N.eqb HIGHLIGHT_OPEN) value || existsb (N.eqb HIGHLIGHT_CLOSE) value.

(** ** Fragments *)

Definition is_marker (c : N) : bool := (c =? HIGHLIGHT_OPEN)%N || (c =? HIGHLIGHT_CLOSE)%N.

(** Ranges in order, none empty, all before [n]. *)
Fixpoint ranges_from (lo n : nat) (ms : list HighlightMatch) : Prop :=
  match ms with
  | [] => True
  | m :: ms => lo <= m_start m ∧ m_start m < m_end m ∧ m_end m <= n ∧ ranges_from (m_end m) n ms
  end.
Definition last_end (lo : nat) (ms : list HighlightMatch) : nat := foldl (fun _ m => m_end m) lo ms.

Lemma ranges_snoc ms : forall lo n s e,
  ranges_from lo n ms -> last_end lo ms <= s -> s < e -> e <= n -> ranges_from lo n (ms ++ [mkMatch s e]).
Proof.
  induction ms as [|m ms IH]; intros lo n s e H Hs He Hn; cbn [app ranges_from] in *.
  - cbn in Hs. split_and!; cbn; auto.
  - destruct H as (H1 & H2 & H3 & H4). split_and!; auto.
Qed.
Lemma ranges_widen ms : forall lo n n', ranges_from lo n ms -> n <= n' -> ranges_from lo n' ms.
Proof. induction ms as [|m ms IH]; intros lo n n' H Hn; cbn in *; [done|]. destruct H as (?&?&?&?). split_and!; eauto; lia. Qed.
Lemma last_end_snoc lo ms m : last_end lo (ms ++ [m]) = m_end m.
Proof. unfold last_end. by rewrite foldl_app. Qed.

Lemma fragment_loop_spec marked : forall text matches openAt,
  Forall (fun c => is_marker c = false) text -> ranges_from 0 (length text) matches ->
  last_end 0 matches <= length text ->
  (forall s, openAt = Some s -> last_end 0 matches <= s <= length text) ->
  let r := fragment_loop marked text matches openAt in
  f_text r = text ++ List.filter (fun c => negb (is_marker c)) marked ∧
  ranges_from 0 (length (f_text r)) (f_matches r).
Proof.
  induction marked as [|c marked IH]; intros text matches openAt Ht Hr Hl Ho; cbn [fragment_loop List.filter].
  - cbn. by rewrite app_nil_r.
  - unfold is_marker at 1. destruct (c =? HIGHLIGHT_OPEN)%N eqn:E1; cbn [orb negb].
    + apply IH; try done. intros s [= <-]. done.
    + destruct (c =? HIGHLIGHT_CLOSE)%N eqn:E2; cbn [orb negb].
      * apply IH; try done; destruct openAt as [s|]; try done; destruct (s <? length text) eqn:Es; try done; bool_to_prop;
          specialize (Ho s eq_refl); first [apply ranges_snoc; auto; lia|rewrite last_end_snoc; cbn; lia].
      * assert (text ++ c :: List.filter (fun c => negb (is_marker c)) marked =
                (text ++ [c]) ++ List.filter (fun c => negb (is_marker c)) marked) as -> by by rewrite <- app_assoc.
        apply IH; rewrite ?length_app; cbn [length].
        -- apply Forall_app. split; [done|]. constructor; [|done]. unfold is_marker. by rewrite E1, E2.
        -- eapply ranges_widen; [exact Hr|lia].
        -- lia.
        -- intros s Hs. specialize (Ho s Hs). lia.
Qed.

(** A fragment is the text without the markers, and its matches are non-empty ranges of that
    text, in order and apart, whatever markers the index left open or closed twice. *)
Theorem toPlainFragment_spec marked :
  let r := toPlainFragment marked in
  f_text r = List.filter (fun c => negb (is_marker c)) marked ∧
  containsHighlightMarker (f_text r) = false ∧ ranges_from 0 (length (f_text r)) (f_matches r).
Proof.
  cbv zeta. destruct (fragment_loop_spec marked [] [] None) as [H1 H2]; try done.
  change (toPlainFragment marked) with (fragment_loop marked [] [] None). split; [exact H1|]. split; [|exact H2].
  rewrite H1. cbn [app]. unfold containsHighlightMarker. apply orb_false_iff.
  split; apply not_true_iff_false; rewrite existsb_elem; intros (c & Hc & E); apply N.eqb_eq in E as <-;
    by apply elem_filter in Hc as [_ Hc].
Qed.

(** A highlight has no empty entry: every field has between one and three fragments, each
    with a match. *)
Theorem toPlainHighlight_spec raw m :
  toPlainHighlight raw = Some m ->
  m <> [] ∧ (forall f fs, (f, fs) ∈ m -> f ∈ HIGHLIGHT_FIELDS ∧ 1 <= length fs <= HIGHLIGHT_FRAGMENTS ∧
    (forall x, x ∈ fs -> f_matches x <> [])).
Proof.
  destruct raw as [raw|]; [|done]. unfold toPlainHighlight. set (g := fun field => _). intros H.
  assert (m = omap g HIGHLIGHT_FIELDS ∧ m <> []) as [-> Hne].
  { destruct (omap g HIGHLIGHT_FIELDS) eqn:E; [done|]. injection H as <-. done. }
  split; [done|]. intros f fs Hin. apply list_elem_of_omap in Hin as (f' & Hf & Hg). unfold g in Hg.
  destruct (find_first _ raw) as [[k l]|]; [|done]. cbn [snd] in Hg. set (p := fun _ : HighlightFragment => _) in Hg.
  assert (f' = f ∧ fs = List.filter p (map toPlainFragment (take HIGHLIGHT_FRAGMENTS l)) ∧ fs <> []) as (-> & -> & Hfs).
  { destruct (List.filter p _) eqn:E; [done|]. by injection Hg as <- <-. }
  split; [done|]. split.
  - split; [by destruct (List.filter _ _); [|cbn; lia]|].
    etrans; [apply filter_length_le|]. rewrite length_map, length_take. lia.
  - intros x [_ Hx]%elem_filter. unfold p in Hx. by destruct (f_matches x).
Qed.
Lemma toPlainHighlight_spec_witness :
  [(js "title", [mkFragment (js "pay") [mkMatch 0 3]])] <> [] ∧
  (forall f fs, (f, fs) ∈ [(js "title", [mkFragment (js "pay") [mkMatch 0 3]])] -> f ∈ HIGHLIGHT_FIELDS ∧
    1 <= length fs <= HIGHLIGHT_FRAGMENTS ∧ (forall x, x ∈ fs -> f_matches x <> [])).
Proof.
  apply (toPlainHighlight_spec (Some [(js "title", [57344%N :: js "pay" ++ [57345%N]])])). vm_compute. reflexivity.
Defined.
