(* ===== verification/SearchCursor.v ===== *)
(** * Cursors of a search

    [apps/search-api/src/cursor/envelope.ts] and [search/cursor.ts]: the signed envelope, the
    fingerprint of a request and the cursor of a search.  Base64 of the JSON text, the HMAC
    and SHA-256 are parameters; what the code relies on of them are the hypotheses of the
    theorems. *)

From stdpp Require Import base list option strings numbers sorting.
From Stdlib Require Import ZArith Lia.
From S2P Require Import Prelude JsString Json ScopedQuery EsSort.
Open Scope Z_scope.

Inductive CursorError : Set := CursorInvalidError (reason : jstr) | CursorQueryMismatchError (reason : jstr).

(** ** The envelope *)

Definition MIN_CURSOR_KEY_LENGTH : nat := 32.
Definition SEPARATOR : N := 46.
Definition CURSOR_TTL_MS : Z := 5 * 60 * 1000.

Section envelope.
(** [Buffer.from(JSON.stringify(x), 'utf8').toString('base64url')] and the reading of its
    result, [None] when it throws; [createHmac('sha256', key)] of a text. *)
Context (encode_body : json -> jstr) (decode_body : jstr -> option json) (hmac : jstr -> jstr -> jstr).

(** A signer is the function that signs; [Err] is the error of a short key. *)
Definition createCursorSigner (key : jstr) : result jstr (jstr -> jstr) :=
  throw_if (length key <? MIN_CURSOR_KEY_LENGTH)%nat
    (js "커서 서명 키가 너무 짧다 (" ++ js_of_Z (Z.of_nat (length key)) ++ js "자, 최소 "
     ++ js_of_Z (Z.of_nat MIN_CURSOR_KEY_LENGTH) ++ js "자)")
    (Ok (hmac key)).

Definition assertValid (sign : jstr -> jstr) (payload signature : jstr) : result CursorError unit :=
  throw_if (negb (jeqb (sign payload) signature)) (CursorInvalidError (js "서명이 일치하지 않는다")) (Ok tt).

Definition encodeEnvelope (payload : json) (sign : jstr -> jstr) : jstr :=
  let body := encode_body payload in body ++ SEPARATOR :: sign body.

Definition decodeEnvelope (cursor : jstr) (sign : jstr -> jstr) : result CursorError (list (jstr * json)) :=
  let malformed := Err (CursorInvalidError (js "봉투 형식이 아니다")) in
  match index_of_char SEPARATOR cursor with
  | None => malformed
  | Some separator =>
    if (separator =? 0)%nat || (separator =? length cursor - 1)%nat then malformed
    else
      let body := take separator cursor in
      _ ← assertValid sign body (drop (S separator) cursor);
      match decode_body body with
      | None => Err (CursorInvalidError (js "본문을 읽을 수 없다"))
      | Some (JObj fs) => Ok fs
      | Some _ => Err (CursorInvalidError (js "본문이 객체가 아니다"))
      end
  end.

(** [frac_le x now]: whether a number that is no integer is at most [now], [None] when it is
    not finite. *)
Context (frac_le : jstr -> Z -> option bool).

Definition assertNotExpired (expiresAtMs : option json) (nowMs : Z) : result CursorError unit :=
  let missing := Err (CursorInvalidError (js "만료 시각이 없다")) in
  let check (expired : bool) := throw_if expired (CursorInvalidError (js "만료되었다")) (Ok tt) in
  match expiresAtMs with
  | Some (JNum x) => check (x <=? nowMs)
  | Some (JFrac r) => match frac_le r nowMs with Some b => check b | None => missing end
  | _ => missing
  end.

(** ** The fingerprint *)

(** [sort()] of strings. *)
Definition text_le (a b : jstr) : Prop := text_compare a b <> Gt.
#[export] Instance text_le_dec a b : Decision (text_le a b).
Proof. unfold text_le. destruct (text_compare a b); [left|left|right]; by try (intros H; apply H). Defined.

Definition sorted_text (values : list jstr) : jstr := join (js ",") (merge_sort text_le values).

Definition scopeMaterial (scope : AccessScope) : jstr :=
  match scope with
  | ExplicitAccessScope ids => js "explicit|" ++ sorted_text (map js_of_Z ids)
  | OrgTeamAccessScope orgs teams visibilities =>
    js "org_team|" ++ sorted_text (map js_of_Z orgs) ++ js "|" ++ sorted_text (map js_of_Z teams)
      ++ js "|" ++ sorted_text visibilities
  end.

Record FingerprintInput : Set := mkFingerprint {
  fi_query : jstr; fi_sortKey : SortKey; fi_order : SortOrder; fi_scope : AccessScope; scopeVersion : Z;
  fi_sequenceEpoch : option Z; fi_mergeNumberEpoch : option Z; fi_mergeNumberBaseBranch : option jstr;
  binding : option jstr
}.

Definition order_name (o : SortOrder) : jstr := match o with asc => js "asc" | desc => js "desc" end.
Definition optional_epoch (e : option Z) : jstr := match e with Some n => js_of_Z n | None => [] end.
Definition optional_part (prefix : jstr) (v : option jstr) : list jstr :=
  match v with Some s => [prefix ++ s] | None => [] end.

(** The parts after the query. *)
Definition identity_parts (i : FingerprintInput) : list jstr :=
  [sort_key_name (fi_sortKey i); order_name (fi_order i); scopeMaterial (fi_scope i); js_of_Z (scopeVersion i);
   optional_epoch (fi_sequenceEpoch i); optional_epoch (fi_mergeNumberEpoch i)]
  ++ optional_part (js "mnum_base:") (fi_mergeNumberBaseBranch i) ++ optional_part (js "binding:") (binding i).
Definition material (i : FingerprintInput) : jstr := join (js " ") (fi_query i :: identity_parts i).

(** SHA-256 in base64url. *)
Context (sha256 : jstr -> jstr).
Definition computeFingerprint (i : FingerprintInput) : jstr := take 22 (sha256 (material i)).

(** ** The cursor *)

Definition SEARCH_CURSOR_VERSION : Z := 1.
Record SearchCursor : Set := mkCursor { pitId : jstr; searchAfter : list json }.

Definition encodeSearchCursor (c : SearchCursor) (fingerprint : jstr) (sign : jstr -> jstr) (nowMs : Z) : jstr :=
  encodeEnvelope
    (JObj [(js "v", JNum SEARCH_CURSOR_VERSION); (js "p", JStr (pitId c)); (js "s", JArr (searchAfter c));
           (js "f", JStr fingerprint); (js "x", JNum (nowMs + CURSOR_TTL_MS))]) sign.

(** [String(v)] of the version in a message. *)
Context (js_String : option json -> jstr).

Definition decodeSearchCursor (raw fingerprint : jstr) (sign : jstr -> jstr) (nowMs : Z)
  : result CursorError SearchCursor :=
  payload ← decodeEnvelope raw sign;
  let field k := assoc (js k) payload in
  let invalid reason := Err (CursorInvalidError reason) in
  if match field "v" with Some (JNum v) => negb (v =? SEARCH_CURSOR_VERSION) | _ => true end
  then invalid (js "모르는 커서 버전: " ++ js_String (field "v"))
  else
    _ ← assertNotExpired (field "x") nowMs;
    match field "p" with
    | Some (JStr ((_ :: _) as p)) =>
      match field "s" with
      | Some (JArr ((_ :: _) as s)) =>
        match field "f" with
        | Some (JStr ((_ :: _) as f)) =>
          if negb (jeqb f fingerprint)
          then Err (CursorQueryMismatchError (js "질의·정렬·접근 범위가 커서 발급 시점과 다르다"))
          else Ok (mkCursor p s)
        | _ => invalid (js "지문이 없다")
        end
      | _ => invalid (js "정렬 키 값이 없다")
      end
    | _ => invalid (js "PIT 식별자가 없다")
    end.

(** ** What an accepted cursor is *)

(** An accepted cursor carries a signature of its body by the key, and neither the body nor
    what it says was read before the signature held; it names a result set by the current
    fingerprint, and it has not expired. *)
Theorem accepted_cursor_signed raw fingerprint sign nowMs c :
  decodeSearchCursor raw fingerprint sign nowMs = Ok c ->
  ∃ body fs, raw = body ++ SEPARATOR :: sign body ∧ SEPARATOR ∉ body ∧ decode_body body = Some (JObj fs) ∧
    assoc (js "f") fs = Some (JStr fingerprint) ∧ is_ok (assertNotExpired (assoc (js "x") fs) nowMs) = true ∧
    pitId c <> [] ∧ searchAfter c <> [] ∧
    assoc (js "p") fs = Some (JStr (pitId c)) ∧ assoc (js "s") fs = Some (JArr (searchAfter c)).
Proof.
  unfold decodeSearchCursor. intros H. inv_bind H. cbv zeta in H.
  destruct (match assoc (js "v") a with Some (JNum v) => negb (v =? SEARCH_CURSOR_VERSION) | _ => true end); [discriminate|].
  inv_bind H.
  destruct (assoc (js "p") a) as [[| | | |p| |]|] eqn:Ep; try discriminate H. destruct p as [|p0 p]; [discriminate|].
  destruct (assoc (js "s") a) as [[| | | | |s|]|] eqn:Es; try discriminate H. destruct s as [|s0 s]; [discriminate|].
  destruct (assoc (js "f") a) as [[| | | |f| |]|] eqn:Ef; try discriminate H. destruct f as [|f0 f]; [discriminate|].
  destruct (jeqb (f0 :: f) fingerprint) eqn:E; [|discriminate]. apply jeqb_eq in E as <-. injection H as <-.
  unfold decodeEnvelope in Hb. destruct (index_of_char SEPARATOR raw) as [i|] eqn:Ei; [|discriminate].
  destruct (_ || _); [discriminate|]. cbv zeta in Hb. inv_bind Hb.
  unfold assertValid, throw_if in Hb1. destruct (jeqb (sign _) _) eqn:Esig; [|discriminate]. apply jeqb_eq in Esig.
  destruct (decode_body (take i raw)) as [[| | | | | |fs]|] eqn:Ed; try discriminate Hb. injection Hb as ->.
  destruct (index_of_char_Some _ _ _ Ei) as (Hi1 & Hi2 & _).
  exists (take i raw), a. split; [by rewrite Esig|]. split; [|split; [done|split; [done|split; [by rewrite Hb0|done]]]].
  exact Hi2.
Qed.

(** Opening an envelope that was sealed. *)
Lemma envelope_round_trip fs sign :
  (forall x, decode_body (encode_body x) = Some x ∧ encode_body x <> [] ∧ SEPARATOR ∉ encode_body x) ->
  (forall body, sign body <> []) ->
  decodeEnvelope (encodeEnvelope (JObj fs) sign) sign = Ok fs.
Proof.
  intros Hcodec Hsign. unfold encodeEnvelope, decodeEnvelope. destruct (Hcodec (JObj fs)) as (Hd & Hne & Hsep). cbv zeta.
  set (body := encode_body (JObj fs)) in *. pose proof (Hsign body) as Hb.
  rewrite index_of_char_app by done.
  replace (length body =? 0)%nat with false by (symmetry; apply Nat.eqb_neq; destruct body; done).
  replace (length body =? length (body ++ SEPARATOR :: sign body) - 1)%nat with false.
  2: { symmetry. apply Nat.eqb_neq. rewrite length_app. cbn [length]. destruct (sign body); [done|]. cbn [length]. lia. }
  cbn [orb]. rewrite take_app_length. change (drop (S (length body)) (body ++ SEPARATOR :: sign body))
    with (drop (S (length body)) (body ++ [SEPARATOR] ++ sign body)).
  rewrite app_assoc, drop_app_length' by (rewrite length_app; cbn; lia).
  unfold assertValid, throw_if. rewrite jeqb_refl. cbn [negb mbind result_bind]. by rewrite Hd.
Qed.

(** Opening the cursor that was issued gives it back while it is alive and the request is the
    same; with another request it says that the conditions changed, and afterwards that it
    expired. *)
Theorem cursor_round_trip c f f' sign t t' :
  (forall x, decode_body (encode_body x) = Some x ∧ encode_body x <> [] ∧ SEPARATOR ∉ encode_body x) ->
  (forall body, sign body <> []) ->
  pitId c <> [] -> searchAfter c <> [] -> f <> [] ->
  decodeSearchCursor (encodeSearchCursor c f sign t) f' sign t' =
  if t + CURSOR_TTL_MS <=? t' then Err (CursorInvalidError (js "만료되었다"))
  else if jeqb f f' then Ok c
  else Err (CursorQueryMismatchError (js "질의·정렬·접근 범위가 커서 발급 시점과 다르다")).
Proof.
  intros Hcodec Hsign Hp Hs Hf. unfold encodeSearchCursor, decodeSearchCursor.
  rewrite envelope_round_trip by done.
  destruct c as [p s]. cbn [pitId searchAfter] in *. cbn [mbind result_bind]. cbv beta.
  change (assoc (js "v") _) with (Some (JNum SEARCH_CURSOR_VERSION)).
  change (assoc (js "p") _) with (Some (JStr p)). change (assoc (js "s") _) with (Some (JArr s)).
  change (assoc (js "f") _) with (Some (JStr f)). change (assoc (js "x") _) with (Some (JNum (t + CURSOR_TTL_MS))).
  cbv beta iota. rewrite Z.eqb_refl. cbn [negb]. unfold assertNotExpired, throw_if. cbv zeta.
  destruct (t + CURSOR_TTL_MS <=? t'); [done|]. cbn [mbind result_bind].
  destruct p; [done|]. destruct s; [done|]. destruct f as [|f0 f]; [done|]. destruct (jeqb (f0 :: f) f'); done.
Qed.

End envelope.

(** ** What a fingerprint identifies *)

#[export] Instance text_le_total : Total text_le.
Proof.
  intros a b. unfold text_le. rewrite (text_compare_antisym a b). destruct (text_compare a b); [by left|by left|by right].
Qed.
#[export] Instance text_le_trans : Transitive text_le.
Proof.
  intros a b c. unfold text_le. intros H1 H2.
  destruct (text_compare a b) eqn:E1; [apply text_compare_eq in E1 as ->; done| |done].
  destruct (text_compare b c) eqn:E2; [apply text_compare_eq in E2 as <-; by rewrite E1| |done].
  by rewrite (text_compare_trans a b c).
Qed.
#[export] Instance text_le_antisym : AntiSymm (=) text_le.
Proof.
  intros a b. unfold text_le. rewrite (text_compare_antisym a b).
  destruct (text_compare a b) eqn:E; cbn; [|done..]. intros _ _. by apply text_compare_eq.
Qed.

Lemma sort_perm l k : l ≡ₚ k <-> merge_sort text_le l = merge_sort text_le k.
Proof.
  split; intros H.
  - apply (Sorted_unique text_le); [apply (Sorted_merge_sort text_le)..|]. by rewrite !merge_sort_Permutation.
  - by rewrite <- (merge_sort_Permutation text_le l), H, merge_sort_Permutation.
Qed.

(** The scopes that give the same access: the lists in any order. *)
Definition same_scope (a b : AccessScope) : Prop :=
  match a, b with
  | ExplicitAccessScope x, ExplicitAccessScope y => x ≡ₚ y
  | OrgTeamAccessScope o t v, OrgTeamAccessScope o' t' v' => o ≡ₚ o' ∧ t ≡ₚ t' ∧ v ≡ₚ v'
  | _, _ => False
  end.

Lemma scopeMaterial_perm a b : same_scope a b -> scopeMaterial a = scopeMaterial b.
Proof.
  assert (forall x y, x ≡ₚ y -> sorted_text x = sorted_text y) as Hs by (intros x y H%sort_perm; unfold sorted_text; by rewrite H).
  destruct a, b; cbn [same_scope scopeMaterial]; try done.
  - intros H. f_equal. apply Hs. by apply Permutation_map.
  - intros (H1 & H2 & H3). rewrite (Hs _ _ H3), (Hs _ _ (Permutation_map js_of_Z H1)), (Hs _ _ (Permutation_map js_of_Z H2)). done.
Qed.

Definition plain (s : jstr) : Prop := 32%N ∉ s ∧ 44%N ∉ s ∧ 124%N ∉ s.
Definition plain_scope (s : AccessScope) : Prop :=
  match s with
  | ExplicitAccessScope _ => True
  | OrgTeamAccessScope _ _ visibilities => Forall (fun v => v <> [] ∧ plain v) visibilities
  end.

Lemma elem_join c sep l : c ∈ join sep l -> c ∈ sep \/ ∃ x, x ∈ l ∧ c ∈ x.
Proof.
  induction l as [|x [|y l] IH]; cbn [join]; [intros H; inversion H|intros H; right; exists x; split; [by left|done]|].
  intros [H|[H|H]%elem_of_app]%elem_of_app; [right; exists x; split; [by left|done]|by left|].
  destruct (IH H) as [?|(z & Hz & ?)]; [by left|right; exists z; split; [by right|done]].
Qed.

Lemma sorted_text_elem c l : c ∈ sorted_text l -> c = 44%N \/ ∃ x, x ∈ l ∧ c ∈ x.
Proof.
  intros [H|(x & Hx & H)]%elem_join.
  - left. change (js ",") with [44%N] in H. by apply list_elem_of_singleton in H.
  - right. exists x. split; [|done]. by rewrite (merge_sort_Permutation text_le l) in Hx.
Qed.

(** A joined list is read back by splitting it. *)
Lemma sorted_text_inj l k :
  Forall (fun v => v <> [] ∧ 44%N ∉ v) l -> Forall (fun v => v <> [] ∧ 44%N ∉ v) k ->
  sorted_text l = sorted_text k -> l ≡ₚ k.
Proof.
  intros Hl Hk H. apply sort_perm. unfold sorted_text in H. change (js ",") with [44%N] in H.
  assert (forall l, Forall (fun v => v <> [] ∧ 44%N ∉ v) l ->
    let s := merge_sort text_le l in
    Forall (fun v => 44%N ∉ v) s ∧ (join [44%N] s = [] -> s = [])) as Hg.
  { intros m Hm. cbv zeta. assert (Forall (fun v => v <> [] ∧ 44%N ∉ v) (merge_sort text_le m)) as Hs.
    { by rewrite (merge_sort_Permutation text_le m). }
    split; [by eapply Forall_impl; [exact Hs|]; intros ? []|].
    destruct (merge_sort text_le m) as [|x [|y s]]; [done|..]; apply Forall_cons_1 in Hs as [[Hx _] _]; cbn [join].
    - done.
    - destruct x; [done|]. discriminate. }
  destruct (Hg l Hl) as [Hl1 Hl2], (Hg k Hk) as [Hk1 Hk2]. cbv zeta in *.
  destruct (merge_sort text_le l) as [|x s] eqn:E1.
  - symmetry. apply Hk2. by rewrite <- H.
  - destruct (merge_sort text_le k) as [|y s'] eqn:E2; [apply Hl2, H|].
    rewrite <- (split_join 44%N (x :: s)), <- (split_join 44%N (y :: s')) by done. by rewrite H.
Qed.

Lemma ids_pieces ids : Forall (fun v => v <> [] ∧ 44%N ∉ v) (map js_of_Z ids).
Proof. apply Forall_map, Forall_true. intros z. split; [apply js_of_Z_nonempty|by apply js_of_Z_no]. Qed.
Lemma ids_inj x y : sorted_text (map js_of_Z x) = sorted_text (map js_of_Z y) -> x ≡ₚ y.
Proof.
  intros H%sorted_text_inj; [|apply ids_pieces..]. apply Permutation_map_inv in H as (z & Hz & Hp).
  assert (Inj (=) (=) js_of_Z) by (intros a b; apply js_of_Z_injective).
  apply (inj (fmap js_of_Z)) in Hz as ->. by symmetry.
Qed.
Lemma ids_no c x : c <> 45%N -> is_digit c = false -> c <> 44%N -> c ∉ sorted_text (map js_of_Z x).
Proof.
  intros H1 H2 H3 [?|(s & Hs & Hc)]%sorted_text_elem; [done|]. apply list_elem_of_In, in_map_iff in Hs as (z & <- & _).
  by apply (js_of_Z_no c z) in Hc.
Qed.

(** Equal texts of scopes are equal scopes. *)
Lemma scopeMaterial_inj a b :
  plain_scope a -> plain_scope b -> scopeMaterial a = scopeMaterial b -> same_scope a b.
Proof.
  assert (forall v, Forall (fun v => v <> [] ∧ plain v) v -> Forall (fun v => v <> [] ∧ 44%N ∉ v) v) as Hw.
  { intros v H. eapply Forall_impl; [exact H|]. intros x (? & _ & ? & _). done. }
  destruct a as [x|o t v], b as [y|o' t' v']; cbn [plain_scope scopeMaterial same_scope]; intros Ha Hb H.
  - apply app_inv_head in H. by apply ids_inj.
  - discriminate H.
  - discriminate H.
  - apply app_inv_head in H. change (js "|") with [124%N] in H. cbn [app] in H.
    assert (forall x, 124%N ∉ sorted_text (map js_of_Z x)) as Hno by (intros; by apply ids_no).
    apply (f_equal (split_char 124%N)) in H. rewrite !split_char_app in H by done.
    injection H as Ho Ht Hv. apply (f_equal (join [124%N])) in Hv. rewrite !join_split in Hv.
    split; [by apply ids_inj|]. split; [by apply ids_inj|]. apply sorted_text_inj; auto.
Qed.

Lemma scopeMaterial_no_space s : plain_scope s -> 32%N ∉ scopeMaterial s.
Proof.
  assert (forall x, 32%N ∉ sorted_text (map js_of_Z x)) as Hno by (intros; by apply ids_no).
  destruct s as [x|o t v]; cbn [plain_scope scopeMaterial]; intros Hp.
  - intros [H|H]%elem_of_app; [|by apply Hno in H].
    by apply list_elem_of_In in H; vm_compute in H; intuition discriminate.
  - change (js "|") with [124%N]. rewrite !elem_of_app, list_elem_of_singleton.
    intros [H|[H|[H|[H|[H|H]]]]]; try discriminate H.
    + by apply list_elem_of_In in H; vm_compute in H; intuition discriminate.
    + by apply Hno in H.
    + by apply Hno in H.
    + apply sorted_text_elem in H as [?|(z & Hz & Hc)]; [done|]. rewrite Forall_forall in Hp.
      apply (Hp z) in Hz as (_ & Hz & _). done.
Qed.

(** What must not contain spaces, for the parts to be told apart. *)
Definition plain_input (i : FingerprintInput) : Prop :=
  plain_scope (fi_scope i) ∧ (forall b, fi_mergeNumberBaseBranch i = Some b -> 32%N ∉ b) ∧
  (forall b, binding i = Some b -> 32%N ∉ b).

Lemma optional_epoch_no_space e : 32%N ∉ optional_epoch e.
Proof. destruct e as [z|]; [by apply js_of_Z_no|apply not_elem_of_nil]. Qed.
Lemma optional_epoch_inj a b : optional_epoch a = optional_epoch b -> a = b.
Proof.
  destruct a as [x|], b as [y|]; cbn [optional_epoch]; [by intros ->%js_of_Z_injective| | |done].
  - intros H. by apply js_of_Z_nonempty in H.
  - intros H. symmetry in H. by apply js_of_Z_nonempty in H.
Qed.
(** A text that starts with a letter is no epoch. *)
Lemma optional_epoch_letter e c s : c <> 45%N -> is_digit c = false -> optional_epoch e <> c :: s.
Proof.
  intros H1 H2 H. destruct e as [z|]; [|done]. cbn [optional_epoch] in H.
  destruct (js_of_Z_char z c) as [?|?]; [rewrite H; by left|congruence..].
Qed.

Lemma identity_parts_plain i : plain_input i -> Forall (fun p => 32%N ∉ p) (identity_parts i).
Proof.
  intros (Hs & Hb & Hg). unfold identity_parts. rewrite !Forall_app. split; [|split].
  - repeat constructor; try apply optional_epoch_no_space; [| |by apply scopeMaterial_no_space|by apply js_of_Z_no];
      intros H%list_elem_of_In; [destruct (fi_sortKey i)|destruct (fi_order i)]; vm_compute in H; intuition discriminate.
  - destruct (fi_mergeNumberBaseBranch i) as [b|]; constructor; [|constructor].
    intros [H|H]%elem_of_app; [apply list_elem_of_In in H; vm_compute in H; intuition discriminate|by apply (Hb b)].
  - destruct (binding i) as [b|]; constructor; [|constructor].
    intros [H|H]%elem_of_app; [apply list_elem_of_In in H; vm_compute in H; intuition discriminate|by apply (Hg b)].
Qed.

Lemma split_join_rest q ps :
  Forall (fun p => 32%N ∉ p) ps -> ps <> [] -> split_char 32%N (join (js " ") (q :: ps)) = split_char 32%N q ++ ps.
Proof.
  change (js " ") with [32%N]. intros Hp Hne. destruct ps as [|p ps]; [done|].
  change (join [32%N] (q :: p :: ps)) with (q ++ 32%N :: join [32%N] (p :: ps)).
  induction q as [|c q IH]; cbn [app split_char].
  - by rewrite N.eqb_refl, split_join.
  - rewrite IH. destruct (c =? 32)%N; [done|].
    destruct (split_char_cons 32%N q) as (x & xs & ->). done.
Qed.

Lemma list_cons_eq_inv {A} (x y : A) l k : x :: l = y :: k -> x = y ∧ l = k.
Proof. by intros [= -> ->]. Qed.
Lemma rev_optional_part p v : rev (optional_part p v) = optional_part p v.
Proof. by destruct v. Qed.

(** The optional parts, read from the end. *)
Lemma optional_parts_inj b g b2 g2 e e2 l l2 :
  optional_part (js "binding:") g ++ optional_part (js "mnum_base:") b ++ optional_epoch e :: l =
  optional_part (js "binding:") g2 ++ optional_part (js "mnum_base:") b2 ++ optional_epoch e2 :: l2 ->
  b = b2 ∧ g = g2 ∧ optional_epoch e :: l = optional_epoch e2 :: l2.
Proof.
  assert (forall e x, optional_epoch e <> js "mnum_base:" ++ x) as Hem.
  { intros e' x. change (js "mnum_base:" ++ x) with (109%N :: drop 1 (js "mnum_base:") ++ x). by apply optional_epoch_letter. }
  assert (forall e x, optional_epoch e <> js "binding:" ++ x) as Heg.
  { intros e' x. change (js "binding:" ++ x) with (98%N :: drop 1 (js "binding:") ++ x). by apply optional_epoch_letter. }
  assert (forall x y, js "mnum_base:" ++ x <> js "binding:" ++ y) as Hmg by (intros x y E; discriminate E).
  revert Hem Heg Hmg. generalize (js "mnum_base:") as m. generalize (js "binding:") as n. intros n m Hem Heg Hmg.
  assert (forall x y, m ++ x = m ++ y -> x = y) as Hm by (intros x y; apply app_inv_head).
  assert (forall x y, n ++ x = n ++ y -> x = y) as Hn by (intros x y; apply app_inv_head).
  destruct b as [b|], b2 as [b2|], g as [g|], g2 as [g2|]; cbn [optional_part app]; intros H;
    repeat match goal with H : _ :: _ = _ :: _ |- _ => apply list_cons_eq_inv in H as [? H] end;
    try (exfalso; first [by eapply Hem; eauto|by eapply Heg; eauto|by eapply Hmg; eauto]);
    repeat match goal with
    | H : m ++ _ = m ++ _ |- _ => apply Hm in H as ->
    | H : n ++ _ = n ++ _ |- _ => apply Hn in H as ->
    end; split_and!; try done; congruence.
Qed.

(** The material of a fingerprint determines everything that makes the result set and its
    order: the query, the sort, the access scope as sets and its version, the epochs, the
    branch and the binding. *)
Theorem material_identity i j :
  plain_input i -> plain_input j -> material i = material j ->
  fi_query i = fi_query j ∧ sort_key_name (fi_sortKey i) = sort_key_name (fi_sortKey j) ∧
  order_name (fi_order i) = order_name (fi_order j) ∧ same_scope (fi_scope i) (fi_scope j) ∧
  scopeVersion i = scopeVersion j ∧ fi_sequenceEpoch i = fi_sequenceEpoch j ∧
  fi_mergeNumberEpoch i = fi_mergeNumberEpoch j ∧
  fi_mergeNumberBaseBranch i = fi_mergeNumberBaseBranch j ∧ binding i = binding j.
Proof.
  intros Hi Hj H. unfold material in H. apply (f_equal (split_char 32%N)) in H.
  rewrite !split_join_rest in H by (by apply identity_parts_plain || done).
  apply (f_equal (rev (A:=jstr))) in H. unfold identity_parts in H. rewrite !rev_app_distr, !rev_optional_part, <- !app_assoc in H.
  destruct i as [q k o sc v e e' b g], j as [q2 k2 o2 sc2 v2 e2 e2' b2 g2].
  cbn [fi_query fi_sortKey fi_order fi_scope scopeVersion fi_sequenceEpoch fi_mergeNumberEpoch fi_mergeNumberBaseBranch binding] in *.
  apply optional_parts_inj in H as (<- & <- & H). cbn [rev app] in H.
  apply list_cons_eq_inv in H as [He' H]. apply list_cons_eq_inv in H as [He H]. apply list_cons_eq_inv in H as [Hv H].
  apply list_cons_eq_inv in H as [Hs H]. apply list_cons_eq_inv in H as [Ho H]. apply list_cons_eq_inv in H as [Hk Hq].
  apply (f_equal (rev (A:=jstr))) in Hq. rewrite !rev_involutive in Hq. apply (f_equal (join [32%N])) in Hq.
  rewrite !join_split in Hq. apply scopeMaterial_inj in Hs; [|apply Hi|apply Hj].
  apply js_of_Z_injective in Hv. apply optional_epoch_inj in He, He'. auto 10.
Qed.

(** The same request gives the same fingerprint in whatever order the scope lists its
    repositories, organizations, teams and visibilities. *)
Theorem fingerprint_stable sha256 q k o a b v e e' br g :
  same_scope a b ->
  computeFingerprint sha256 (mkFingerprint q k o a v e e' br g) = computeFingerprint sha256 (mkFingerprint q k o b v e e' br g).
Proof.
  intros H%scopeMaterial_perm. unfold computeFingerprint, material, identity_parts. cbn [fi_scope fi_query fi_sortKey fi_order scopeVersion fi_sequenceEpoch fi_mergeNumberEpoch fi_mergeNumberBaseBranch binding].
  by rewrite H.
Qed.

Definition sample_input (scope : AccessScope) : FingerprintInput :=
  mkFingerprint (js "repo:acme/pay mnum:1..50") by_merged_at desc scope 3 None (Some 1) (Some (js "main")) None.
Lemma material_identity_witness :
  same_scope (OrgTeamAccessScope [7; 9] [3] [js "public"]) (OrgTeamAccessScope [9; 7] [3] [js "public"]).
Proof.
  apply (material_identity (sample_input (OrgTeamAccessScope [7; 9] [3] [js "public"]))
           (sample_input (OrgTeamAccessScope [9; 7] [3] [js "public"]))).
  1, 2: split; [|split; [intros b [= <-]|discriminate]].
  1, 3: repeat constructor; try discriminate; apply (bool_decide_eq_true_1 _); vm_compute; reflexivity.
  1, 2: apply (bool_decide_eq_true_1 _); vm_compute; reflexivity.
  vm_compute. reflexivity.
Defined.
