(* ===== verification/Relaxation.v ===== *)
(** * Relaxation hints

    [apps/search-api/src/search/relaxation.ts]: for a search without results, which single
    filter to drop and how many documents would then be found.  The answers of the index to
    the request of many queries are a parameter. *)

From stdpp Require Import base list option gmap strings numbers sorting.
From Stdlib Require Import ZArith Lia.
From S2P Require Import Prelude JsString QueryAst QuerySerialize SeqBinding Calendar ZonedDay EsQuery QueryBuilder ScopedQuery.
Open Scope Z_scope.

Definition MAX_RELAXATION_HINTS : nat := 8.
Definition RELAXATION_BRANCH_BUDGET_MS : Z := 1500.
Definition RELAXATION_REQUEST_TIMEOUT_MS : Z := 3000.

Record RelaxationHint : Set := mkHint { remove : jstr; would_yield : Z }.
Inductive relaxation_stage : Set := st_resolve | st_compute | st_msearch | st_branch.
Record RelaxationFailure : Set := mkFailure { stage : relaxation_stage; reason : jstr; counted : nat; failed : nat }.
Record RelaxationResult : Set := mkRelaxation {
  hints : list RelaxationHint; truncated : bool; incomplete : bool; failure : option RelaxationFailure
}.
Definition NO_RELAXATION : RelaxationResult := mkRelaxation [] false false None.

(** The AST without the filter at an index. *)
Definition without (ast : QueryAst) (index : nat) : QueryAst :=
  mkAst (take index (filters ast) ++ drop (S index) (filters ast)) (text ast).
Definition describe (f : QueryFilter) : jstr := serializeQuery (mkAst [f] None).

(** A branch of the response: an error, or hits with their shards and total. *)
Inductive hits_total : Set := tot_missing | tot_number (n : Z) | tot_relation (n : Z) (exact : bool).
Inductive MsearchBranch : Set :=
| br_error (type : jstr)
| br_hits (failed_shards : Z) (timed_out : bool) (total : hits_total).

Definition countOf (one : option MsearchBranch) : result jstr Z :=
  match one with
  | None => Err (js "missing_response")
  | Some (br_error t) => Err t
  | Some (br_hits failed_shards timed_out total) =>
    if 0 <? failed_shards then Err (js "shard_failures")
    else if timed_out then Err (js "timed_out")
    else match total with
    | tot_missing => Err (js "total_missing")
    | tot_number n => Ok n
    | tot_relation n exact => if exact then Ok n else Err (js "total_lower_bound")
    end
  end.

Record CountedCandidate : Set := mkCandidate { c_filter : QueryFilter; c_target : list EntityAlias; c_query : EsQuery }.

Record RelaxationDeps : Set := mkDeps {
  baseTarget : list EntityAlias; d_scope : AccessScope; resolution : NameResolution; epochs : BuildQueryOptions
}.

Inductive RelaxationError : Set := re_build (e : BuildError) | re_scope (message : jstr).

Definition executable (relaxed : QueryAst) : bool :=
  match analyzeSequenceBinding relaxed with sb_invalid _ => false | _ => true end
  && match analyzeMergeNumberBinding relaxed with mb_space (sb_invalid _) => false | _ => true end
  && match analyzePrNumberBinding relaxed with rb_invalid _ => false | _ => true end.

Definition candidates (ast : QueryAst) : list (QueryFilter * QueryAst) :=
  List.filter (fun c => executable c.2)
    (imap (fun index f => (f, without ast index)) (take MAX_RELAXATION_HINTS (filters ast))).

Section relaxation.
Context (format_parts : jstr -> Z -> Z * Z * Z * (Z * Z * Z)) (toISOString : Z -> jstr).

(** One round of the loop; [None] is [continue]. *)
Definition count_candidate (d : RelaxationDeps) (c : QueryFilter * QueryAst)
  : result RelaxationError (option CountedCandidate) :=
  match resolveSearchTarget c.2 (baseTarget d) with
  | (None, _) => Ok None
  | (Some target, stripped) =>
    match buildQuery format_parts toISOString stripped (resolution d) (epochs d) with
    | Err e => Err (re_build e)
    | Ok built =>
      match applyMandatoryScopeFilter (query built) (d_scope d) with
      | Err m => Err (re_scope m)
      | Ok q => Ok (Some (mkCandidate c.1 target q))
      end
    end
  end.

(** [multiSearch]: [Err] is the name of the error of the whole request. *)
Context (multiSearch : list (list EntityAlias * EsQuery) -> result jstr (list MsearchBranch)).

(** The [forEach]: the hints, the number of failures and the first reason. *)
Fixpoint collect_hints (cs : list CountedCandidate) (responses : list MsearchBranch)
    (acc : list RelaxationHint * nat * option jstr) : list RelaxationHint * nat * option jstr :=
  match cs with
  | [] => acc
  | c :: cs =>
    let '(hs, failed, why) := acc in
    collect_hints cs (tail responses)
      match countOf (hd_error responses) with
      | Err r => (hs, S failed, match why with None => Some r | w => w end)
      | Ok n => if n =? 0 then acc else (hs ++ [mkHint (describe (c_filter c)) n], failed, why)
      end
  end.

Definition more_first (a b : RelaxationHint) : Prop := would_yield b <= would_yield a.
#[export] Instance more_first_dec a b : Decision (more_first a b).
Proof. unfold more_first. apply _. Defined.

Definition computeRelaxationHints (ast : QueryAst) (d : RelaxationDeps) : result RelaxationError RelaxationResult :=
  if (length (filters ast) <? 2)%nat then Ok NO_RELAXATION
  else
    let truncated := (MAX_RELAXATION_HINTS <? length (filters ast))%nat in
    built ← mapM_result (count_candidate d) (candidates ast);
    let cs := omap id built in
    match cs with
    | [] => Ok (mkRelaxation [] truncated false None)
    | _ =>
      match multiSearch (map (fun c => (c_target c, c_query c)) cs) with
      | Err name => Ok (mkRelaxation [] truncated true (Some (mkFailure st_msearch name (length cs) (length cs))))
      | Ok responses =>
        let '(hs, failed, why) := collect_hints cs responses ([], 0%nat, None) in
        let sorted := merge_sort more_first hs in
        if (failed =? 0)%nat then Ok (mkRelaxation sorted truncated false None)
        else Ok (mkRelaxation sorted truncated true
               (Some (mkFailure st_branch (match why with Some r => r | None => js "unknown" end) (length cs) failed)))
      end
    end.

End relaxation.

(** ** Every candidate is built *)

Lemma without_elem ast i f : f ∈ filters (without ast i) -> f ∈ filters ast.
Proof.
  unfold without. cbn [filters]. intros [H|H]%elem_of_app; apply list_elem_of_lookup in H as [j H].
  - apply lookup_take_Some in H as [H _]. by eapply list_elem_of_lookup_2.
  - rewrite lookup_drop in H. by eapply list_elem_of_lookup_2.
Qed.

Lemma has_range_on_elem k ast :
  has_range_on k ast = true <-> ∃ f, f ∈ filters ast ∧ isRangeFilter f = true ∧ filter_key f = k.
Proof.
  unfold has_range_on. rewrite existsb_elem. setoid_rewrite andb_true_iff. by setoid_rewrite bool_decide_eq_true.
Qed.
Lemma has_range_on_mono k a b :
  (forall f, f ∈ filters a -> f ∈ filters b) -> has_range_on k a = true -> has_range_on k b = true.
Proof. rewrite !has_range_on_elem. naive_solver. Qed.

Lemma mapM_result_ok {E A B} (g : A -> result E B) l :
  (forall x, x ∈ l -> is_ok (g x) = true) -> is_ok (mapM_result g l) = true.
Proof.
  induction l as [|x l IH]; [done|]. rewrite every_elem_cons. intros [Hx Hl]. cbn [mapM_result].
  destruct (g x); [|done]. cbn [mbind result_bind]. specialize (IH Hl). by destruct (mapM_result g l).
Qed.

Lemma candidates_elem ast c :
  c ∈ candidates ast <-> ∃ i, (i < MAX_RELAXATION_HINTS)%nat ∧ filters ast !! i = Some c.1 ∧
    c.2 = without ast i ∧ executable c.2 = true.
Proof.
  unfold candidates. rewrite elem_filter, elem_of_lookup_imap. split.
  - intros ((i & f & -> & [Hi Hf]%lookup_take_Some) & He). exists i. cbn. by rewrite Hi.
  - intros (i & Hi & Hf & Hc & He). split; [|done]. exists i, c.1. split; [by rewrite <- Hc; destruct c|].
    apply lookup_take_Some. done.
Qed.

Section total.
Context (format_parts : jstr -> Z -> Z * Z * Z * (Z * Z * Z)) (toISOString : Z -> jstr)
  (multiSearch : list (list EntityAlias * EsQuery) -> result jstr (list MsearchBranch)).

(** What makes the search itself well assembled. *)
Record assembled (ast : QueryAst) (d : RelaxationDeps) : Prop := {
  as_scope : forall q, is_ok (applyMandatoryScopeFilter q (d_scope d)) = true;
  as_seq : hasSequenceRangeFilter ast = true -> is_Some (sequenceEpoch (epochs d));
  as_mnum : hasMergeNumberRangeFilter ast = true ->
    is_Some (mergeNumberEpoch (epochs d)) ∧ is_Some (mergeNumberBaseBranch (epochs d));
  as_filters : forall f, f ∈ filters ast -> is_kind f = true \/ buildable format_parts f
}.

Lemma stripped_builds ast d rest target :
  assembled ast d -> forall ast', (forall f, f ∈ filters ast' -> f ∈ filters ast) ->
  resolveSearchTarget ast' (baseTarget d) = (target, rest) ->
  is_ok (buildQuery format_parts toISOString rest (resolution d) (epochs d)) = true.
Proof.
  intros [_ Hs Hm Hf] ast' Hsub (_ & _ & _ & Hr)%resolveSearchTarget_spec.
  apply buildQuery_ok. split; [|split].
  - intros H. apply Hs. revert H. apply has_range_on_mono. naive_solver.
  - intros H. apply Hm. revert H. apply has_range_on_mono. naive_solver.
  - intros f [Hf1 Hf2]%Hr. destruct (Hf f (Hsub f Hf1)) as [?|?]; [congruence|done].
Qed.

Lemma count_candidate_ok ast d c :
  assembled ast d -> c ∈ candidates ast -> is_ok (count_candidate format_parts toISOString d c) = true.
Proof.
  intros Ha (i & _ & _ & Hc & _)%candidates_elem. unfold count_candidate.
  destruct (resolveSearchTarget c.2 (baseTarget d)) as [[target|] rest] eqn:Er; [|done].
  pose proof (stripped_builds ast d rest (Some target) Ha c.2) as Hb.
  specialize (Hb ltac:(rewrite Hc; apply without_elem) Er).
  destruct (buildQuery _ _ _ _ _) as [b|]; [|done]. pose proof (as_scope ast d Ha (query b)).
  by destruct (applyMandatoryScopeFilter _ _).
Qed.

(** When the search itself could be assembled, so can every candidate: dropping one filter
    never ends in an error, whatever filters remain and whatever the index answers. *)
Theorem relaxation_total ast d :
  assembled ast d -> is_ok (computeRelaxationHints format_parts toISOString multiSearch ast d) = true.
Proof.
  intros Ha. unfold computeRelaxationHints. destruct (_ <? 2)%nat; [done|].
  pose proof (mapM_result_ok (count_candidate format_parts toISOString d) (candidates ast)
    (fun c => count_candidate_ok ast d c Ha)) as Hok.
  destruct (mapM_result _ _) as [built|]; [|done]. cbn [mbind result_bind]. cbv zeta.
  destruct (omap id built); [done|]. destruct (multiSearch _); [|done].
  destruct (collect_hints _ _ _) as [[hs n] w]. by destruct (n =? 0)%nat.
Qed.
End total.

(** ** The counts *)

Lemma filter_length_perm {A} (p : A -> bool) l k :
  l ≡ₚ k -> length (List.filter p l) = length (List.filter p k).
Proof. induction 1; cbn; repeat case_match; cbn; congruence. Qed.

Section counts.
Context (format_parts : jstr -> Z -> Z * Z * Z * (Z * Z * Z)) (toISOString : Z -> jstr).
(** The indices and their documents. *)
Context {D : Type} `{EsLaws D} (docs_of : EntityAlias -> list D).

(** What the search for an AST asks of a document of an index. *)
Definition search_selects (ast : QueryAst) (d : RelaxationDeps) (x : EntityAlias * D) : Prop :=
  (forall f, f ∈ filters ast -> kind_keeps f x.1) ∧
  (forall f, f ∈ filters ast -> is_kind f = false -> isNegated f = false ->
     selects format_parts toISOString (resolution d) f x.2) ∧
  (forall f, f ∈ filters ast -> is_kind f = false -> isNegated f = true ->
     ~ selects format_parts toISOString (resolution d) f x.2) ∧
  in_epochs ast (epochs d) x.2 ∧ text_selects ast x.2 ∧ es_matches x.2 (scopeFilter (d_scope d)) = true.

Definition universe (base : list EntityAlias) : list (EntityAlias * D) :=
  flat_map (fun a => map (pair a) (docs_of a)) base.
(** How many documents of the base indices the search finds. *)
Definition found (ast : QueryAst) (d : RelaxationDeps) (n : Z) : Prop :=
  ∃ p : EntityAlias * D -> bool, (forall x, x ∈ universe (baseTarget d) -> p x = true <-> search_selects ast d x) ∧
    n = Z.of_nat (length (List.filter p (universe (baseTarget d)))).

(** The index counts exactly, within its budget. *)
Definition count (target : list EntityAlias) (q : EsQuery) : Z :=
  Z.of_nat (length (List.filter (fun x : EntityAlias * D => es_matches x.2 q) (universe target))).
Definition exact_answer (r : list EntityAlias * EsQuery) : MsearchBranch :=
  br_hits 0 false (tot_relation (count r.1 r.2) true).

Lemma has_range_on_stripped k ast rest :
  (forall f, f ∈ filters rest <-> f ∈ filters ast ∧ is_kind f = false) -> has_range_on k rest = has_range_on k ast.
Proof.
  intros Hr. apply eq_true_iff_eq. rewrite !has_range_on_elem. split; [naive_solver|].
  intros (f & Hf & Hrf & Hk). exists f. split; [|done]. apply Hr. split; [done|].
  unfold is_kind. by rewrite Hrf.
Qed.

Lemma scoped_matches query scope q (x : D) :
  applyMandatoryScopeFilter query scope = Ok q ->
  es_matches x q = true <-> es_matches x query = true ∧ es_matches x (scopeFilter scope) = true.
Proof.
  intros Hq. assert (q = q_bool [query] [scopeFilter scope] [] [] None) as ->.
  { unfold applyMandatoryScopeFilter in Hq. repeat case_match; first [discriminate Hq|by injection Hq as <-]. }
  rewrite all_of_matches, !every_elem_cons by done.
  pose proof (every_elem_nil (fun q => es_matches x q = true)). pose proof (every_elem_nil (fun q => es_matches x q = false)).
  tauto.
Qed.

(** The query of a candidate matches, in the indices of its target, what it asks for. *)
Lemma candidate_query ast d target rest b q x :
  Forall askable (filters ast) ->
  resolveSearchTarget ast (baseTarget d) = (Some target, rest) ->
  buildQuery format_parts toISOString rest (resolution d) (epochs d) = Ok b ->
  applyMandatoryScopeFilter (query b) (d_scope d) = Ok q ->
  x.1 ∈ baseTarget d -> (x.1 ∈ target ∧ es_matches x.2 q = true) <-> search_selects ast d x.
Proof.
  intros Hask Hr Hb Hq Hx. apply resolveSearchTarget_spec in Hr as (Ht & _ & Htext & Hf).
  assert (Forall askable (filters rest)) as Hask'.
  { rewrite Forall_forall in Hask |- *. intros f Hin. apply Hask. by apply Hf in Hin as [? _]. }
  rewrite Ht, (scoped_matches _ _ _ _ Hq), (buildQuery_matches _ _ _ _ _ _ _ Hask' Hb). unfold search_selects.
  assert (in_epochs rest (epochs d) x.2 <-> in_epochs ast (epochs d) x.2) as ->.
  { unfold in_epochs, hasSequenceRangeFilter, hasMergeNumberRangeFilter. by rewrite !(has_range_on_stripped _ _ _ Hf). }
  assert (text_selects rest x.2 <-> text_selects ast x.2) as ->.
  { unfold text_selects, free_text. by rewrite Htext. }
  setoid_rewrite Hf. naive_solver.
Qed.

Lemma universe_elem base x : x ∈ universe base -> x.1 ∈ base.
Proof.
  unfold universe. intros Hx. apply list_elem_of_In, in_flat_map in Hx as (a & Ha & Hx).
  apply in_map_iff in Hx as (y & <- & _). by apply list_elem_of_In.
Qed.

Lemma universe_filter p target base :
  NoDup target -> NoDup base -> (forall a, a ∈ target -> a ∈ base) ->
  length (List.filter p (universe target)) =
  length (List.filter (fun x => in_aliases target x.1 && p x) (universe base)).
Proof.
  intros Ht Hb Hsub.
  assert (target ≡ₚ List.filter (in_aliases target) base) as Hp.
  { apply NoDup_Permutation; [done|apply NoDup_ListNoDup, List.NoDup_filter, NoDup_ListNoDup, Hb|].
    intros a. rewrite elem_filter, in_aliases_spec. naive_solver. }
  assert (length (List.filter p (universe target)) =
          length (List.filter p (universe (List.filter (in_aliases target) base)))) as ->.
  { apply filter_length_perm. unfold universe. by apply Permutation_flat_map. }
  clear Hp Hb Hsub. induction base as [|a base IH]; [done|]. cbn [List.filter].
  unfold universe in *. cbn [flat_map]. rewrite List.filter_app, length_app, <- IH. clear IH.
  assert (forall b, length (List.filter (fun x => b && p x) (map (pair a) (docs_of a))) =
    if b then length (List.filter p (map (pair a) (docs_of a))) else 0%nat) as Hd.
  { intros []; [done|]. by induction (map (pair a) (docs_of a)). }
  assert (length (List.filter (fun x => in_aliases target x.1 && p x) (map (pair a) (docs_of a))) =
          length (List.filter (fun x => in_aliases target a && p x) (map (pair a) (docs_of a)))) as ->.
  { f_equal. apply filter_ext_in. intros y Hy. apply in_map_iff in Hy as (z & <- & _). done. }
  rewrite Hd. destruct (in_aliases target a); [|done]. cbn [flat_map]. by rewrite List.filter_app, length_app.
Qed.

Lemma resolve_NoDup ast base target rest :
  NoDup base -> resolveSearchTarget ast base = (Some target, rest) -> NoDup target.
Proof.
  unfold resolveSearchTarget. intros Hb. destruct (negb _); [by intros [= <- _]|].
  assert (forall fs l, NoDup l -> NoDup (foldl narrow l fs)) as Hn.
  { induction fs as [|f fs IH]; intros l Hl; cbn [foldl]; [done|]. apply IH.
    destruct f as [k op vs| |]; cbn [narrow]; try done. destruct (is_kind _); [|done].
    destruct op; apply NoDup_ListNoDup, List.NoDup_filter, NoDup_ListNoDup, Hl. }
  assert (NoDup (alias_set base)) as Ha.
  { unfold alias_set. apply NoDup_ListNoDup, List.NoDup_rev, NoDup_ListNoDup, NoDup_remove_dups. }
  specialize (Hn (filters ast) _ Ha). destruct (foldl _ _ _); [done|]. by intros [= <- _].
Qed.

(** What is counted for a candidate is what its search would find. *)
Lemma count_found ast d target rest b q :
  Forall askable (filters ast) -> NoDup (baseTarget d) ->
  resolveSearchTarget ast (baseTarget d) = (Some target, rest) ->
  buildQuery format_parts toISOString rest (resolution d) (epochs d) = Ok b ->
  applyMandatoryScopeFilter (query b) (d_scope d) = Ok q -> found ast d (count target q).
Proof.
  intros Hask Hnd Hr Hb Hq.
  assert (forall a, a ∈ target -> a ∈ baseTarget d) as Hsub.
  { apply resolveSearchTarget_spec in Hr as (Ht & _). intros a Ha. by apply Ht in Ha as [? _]. }
  assert (forall x, x.1 ∈ baseTarget d ->
    (in_aliases target x.1 && es_matches x.2 q) = true <-> search_selects ast d x) as Hp.
  { intros x Hx. rewrite andb_true_iff, in_aliases_spec. by apply (candidate_query ast d target rest b q x). }
  unfold found, count. rewrite (universe_filter _ target (baseTarget d)) by (done || by eapply resolve_NoDup).
  exists (fun x => in_aliases target x.1 && es_matches x.2 q). split; [|done]. intros x Hx. by apply Hp, universe_elem.
Qed.

Lemma found_functional ast d n m : found ast d n -> found ast d m -> n = m.
Proof.
  intros (p & Hp & ->) (p' & Hp' & ->). f_equal. f_equal. apply filter_ext_in. intros x Hx%list_elem_of_In.
  apply eq_true_iff_eq. by rewrite Hp, Hp'.
Qed.
Lemma found_nothing ast d rest n :
  resolveSearchTarget ast (baseTarget d) = (None, rest) -> found ast d n -> n = 0.
Proof.
  intros (Ht & _)%resolveSearchTarget_spec (p & Hp & ->). enough (List.filter p (universe (baseTarget d)) = []) as -> by done.
  destruct (List.filter p _) as [|x l] eqn:E; [done|]. exfalso.
  assert (x ∈ List.filter p (universe (baseTarget d))) as [Hx Hpx]%elem_filter by (rewrite E; by left).
  apply (Hp x Hx) in Hpx as [Hk _]. assert (x.1 ∈ []) as Hin; [|inversion Hin].
  apply Ht. split; [by apply universe_elem|done].
Qed.

Lemma mapM_result_elem {E A B} (g : A -> result E B) l r :
  mapM_result g l = Ok r -> forall y, y ∈ r <-> ∃ x, x ∈ l ∧ g x = Ok y.
Proof.
  revert r. induction l as [|x l IH]; intros r Hr; cbn [mapM_result] in Hr.
  - injection Hr as <-. intros y. split; [intros Hy; inversion Hy|intros (x & Hx & _); inversion Hx].
  - inv_bind Hr. inv_bind Hr. injection Hr as <-. intros y. setoid_rewrite elem_of_cons. rewrite (IH _ eq_refl).
    split; [intros [->|(z & ? & ?)]; eauto|]. intros (z & [->|?] & ?); [left; congruence|eauto].
Qed.

Lemma mapM_result_all {E A B} (g : A -> result E B) l r x : mapM_result g l = Ok r -> x ∈ l -> ∃ y, g x = Ok y.
Proof.
  revert r. induction l as [|z l IH]; intros r Hr Hx; cbn [mapM_result] in Hr; [inversion Hx|].
  inv_bind Hr. inv_bind Hr. apply elem_of_cons in Hx as [->|Hx]; eauto.
Qed.

Lemma collect_exact cs : forall hs failed why,
  collect_hints cs (map exact_answer (map (fun c => (c_target c, c_query c)) cs)) (hs, failed, why) =
  (hs ++ omap (fun c => let n := count (c_target c) (c_query c) in
                if n =? 0 then None else Some (mkHint (describe (c_filter c)) n)) cs, failed, why).
Proof.
  induction cs as [|c cs IH]; intros hs failed why; cbn [map collect_hints tail hd_error omap list_omap].
  - by rewrite app_nil_r.
  - cbn [exact_answer countOf fst snd]. cbn. destruct (count _ _ =? 0); rewrite IH; [done|]. by rewrite <- app_assoc.
Qed.

(** When the index counts exactly, the hints are the removable filters with what the search
    without them finds, most first: every hint is one of the first eight filters, whose
    removal leaves a query that can be executed and finds that many documents in the scope;
    and every such filter with a result is listed. *)
Theorem relaxation_counts ast d r :
  Forall askable (filters ast) -> NoDup (baseTarget d) -> (2 <= length (filters ast))%nat ->
  computeRelaxationHints format_parts toISOString (fun reqs => Ok (map exact_answer reqs)) ast d = Ok r ->
  incomplete r = false ∧ Sorted more_first (hints r) ∧
  forall h, h ∈ hints r <-> ∃ i f, (i < MAX_RELAXATION_HINTS)%nat ∧ filters ast !! i = Some f ∧
    executable (without ast i) = true ∧ remove h = describe f ∧
    found (without ast i) d (would_yield h) ∧ 0 < would_yield h.
Proof.
  intros Hask Hnd Hlen Hr. unfold computeRelaxationHints in Hr.
  replace (length (filters ast) <? 2)%nat with false in Hr by (symmetry; apply Nat.ltb_ge; lia).
  inv_bind Hr. cbv zeta in Hr. pose proof (mapM_result_elem _ _ _ Hb) as Ha.
  set (hint c := let n := count (c_target c) (c_query c) in
                 if n =? 0 then None else Some (mkHint (describe (c_filter c)) n)).
  assert (incomplete r = false ∧ hints r = merge_sort more_first (omap hint (omap id a))) as [Hi Hh].
  { destruct (omap id a) as [|c cs] eqn:E; [by injection Hr as <-|]. rewrite collect_exact in Hr.
    by injection Hr as <-. }
  split; [done|]. rewrite Hh. split; [apply Sorted_merge_sort; intros x y; unfold more_first; lia|].
  intros h. rewrite (merge_sort_Permutation more_first), list_elem_of_omap.
  setoid_rewrite list_elem_of_omap. unfold id at 1.
  assert (forall i, Forall askable (filters (without ast i))) as Hask'.
  { intros i. rewrite Forall_forall in Hask |- *. intros f Hf. by apply Hask, (without_elem ast i). }
  split.
  - intros (c & (o & (x & Hx & Hox)%Ha & ->) & Hc). apply candidates_elem in Hx as (i & Hlt & Hf & Hw & He).
    exists i, x.1. unfold count_candidate in Hox. rewrite Hw in Hox.
    destruct (resolveSearchTarget _ _) as [[target|] rest] eqn:Er; [|done].
    destruct (buildQuery _ _ _ _ _) as [b|] eqn:Eb; [|done].
    destruct (applyMandatoryScopeFilter _ _) as [q|] eqn:Eq; [|done]. injection Hox as <-.
    unfold hint in Hc. cbn [c_target c_query c_filter] in Hc. cbv zeta in Hc.
    destruct (count target q =? 0) eqn:Ec; [done|]. injection Hc as <-. cbn [remove would_yield].
    split_and!; try done; [by rewrite <- Hw|by eapply count_found|]. bool_to_prop. unfold count in *. lia.
  - intros (i & f & Hlt & Hf & He & Hrm & Hfound & Hpos).
    assert ((f, without ast i) ∈ candidates ast) as Hc by (apply candidates_elem; by exists i).
    destruct (mapM_result_all _ _ _ _ Hb Hc) as [o Eo].
    pose proof (proj2 (Ha o) (ex_intro _ _ (conj Hc Eo))) as Ho. unfold count_candidate in Eo. cbn [fst snd] in Eo.
    destruct (resolveSearchTarget _ _) as [[target|] rest] eqn:Er.
    2: { apply (found_nothing _ _ _ _ Er) in Hfound. lia. }
    destruct (buildQuery _ _ _ _ _) as [b|] eqn:Eb; [|done].
    destruct (applyMandatoryScopeFilter _ _) as [q|] eqn:Eq; [|done]. injection Eo as <-.
    eexists. split; [eexists; split; [exact Ho|reflexivity]|]. unfold hint. cbn [c_target c_query c_filter]. cbv zeta.
    rewrite <- (found_functional _ _ _ _ Hfound (count_found _ _ _ _ _ _ (Hask' i) Hnd Er Eb Eq)).
    replace (would_yield h =? 0) with false by (symmetry; apply Z.eqb_neq; lia). rewrite <- Hrm. by destruct h.
Qed.
End counts.

(** ** An example *)

Definition sample_ast : QueryAst :=
  mkAst [EqualityFilter repo op_eq [js "acme/pay"]; EqualityFilter author op_eq [js "kim"];
         EqualityFilter kind op_eq [js "pull_request"]] None.
Definition sample_deps : RelaxationDeps :=
  mkDeps [prs_pull_requests; prs_commits] (ExplicitAccessScope [7]) EMPTY_RESOLUTION (mkOptions None None None).
Definition found_doc (author : string) : EsDoc :=
  mkDoc [(js "repository_id", [ev_num 7]); (js "repository", [ev_str (js "acme/pay")]); (js "author", [ev_str (js author)])].
Definition sample_docs (a : EntityAlias) : list EsDoc :=
  match a with
  | prs_pull_requests => [found_doc "lee"; found_doc "park"]
  | prs_commits => [found_doc "kim"]
  | _ => []
  end.
Definition utc_parts (_ : jstr) (_ : Z) : Z * Z * Z * (Z * Z * Z) := (1970, 1, 1, (0, 0, 0)).
Definition sample_hints : list RelaxationHint := [mkHint (js "author:kim") 2; mkHint (js "kind:pull_request") 1].

Lemma relaxation_total_witness :
  is_ok (computeRelaxationHints utc_parts js_of_Z (fun reqs => Ok (map (exact_answer sample_docs) reqs)) sample_ast sample_deps) = true.
Proof.
  apply relaxation_total. split; [done|discriminate|discriminate|]. intros f Hf.
  repeat (apply elem_of_cons in Hf as [->|Hf]; [first [by left|right; split; [reflexivity|discriminate]]|]). inversion Hf.
Defined.
Lemma relaxation_counts_witness :
  false = false ∧ Sorted more_first sample_hints ∧
  forall h, h ∈ sample_hints <-> ∃ i f, (i < MAX_RELAXATION_HINTS)%nat ∧ filters sample_ast !! i = Some f ∧
    executable (without sample_ast i) = true ∧ remove h = describe f ∧
    found utc_parts js_of_Z sample_docs (without sample_ast i) sample_deps (would_yield h) ∧ 0 < would_yield h.
Proof.
  apply (relaxation_counts utc_parts js_of_Z sample_docs sample_ast sample_deps (mkRelaxation sample_hints false false None)).
  - repeat constructor; discriminate.
  - repeat constructor; rewrite ?elem_of_cons, ?elem_of_nil; intuition discriminate.
  - cbn. lia.
  - vm_compute. reflexivity.
Defined.
