(* ===== verification/SearchService.v ===== *)
(** * The search of the list

    [apps/search-api/src/search/service.ts]: one page of a search.  The index with its points
    in time is a class: the hits of a query on a snapshot in the order of a sort, and pages
    of them, with the documented laws of [search_after].  Facets and the M numbers attached
    to a page are left out ([facets = false], no [mergeNumbers]), and the diagnostic log. *)

From stdpp Require Import base list option gmap strings numbers sorting.
From Stdlib Require Import ZArith Lia.
From S2P Require Import Prelude JsString Json QueryAst QuerySerialize Calendar ZonedDay SeqBinding EsQuery QueryBuilder ScopedQuery EsSort Highlight SearchCursor Relaxation.
Open Scope Z_scope.

Definition SEARCH_TARGET : list EntityAlias := [prs_pull_requests; prs_commits].
Definition DEFAULT_SIZE : Z := 25.
Definition MAX_SIZE : Z := 200.
Definition TRACK_TOTAL_HITS : Z := 10000.

(** [raw = None]: not a string.  [number] reads [Number(raw)], [None] when it is no
    integer. *)
Definition clampSize (number : jstr -> option Z) (raw : option jstr) : Z :=
  match raw with
  | None => DEFAULT_SIZE
  | Some raw =>
    match trim raw with
    | [] => DEFAULT_SIZE
    | _ =>
      match number raw with
      | None => DEFAULT_SIZE
      | Some parsed => if parsed <? 1 then DEFAULT_SIZE else Z.min parsed MAX_SIZE
      end
    end
  end.
Definition parseOrder (raw : option jstr) : SortOrder :=
  if bool_decide (raw = Some (js "asc")) then asc else desc.

(** ** Items *)

Record SearchHitSource : Set := mkSource {
  repository : option jstr; src_pr_number : option Z; commit_sha : option jstr; title : option jstr;
  message : option jstr; src_author : option jstr; src_state : option jstr; merge_seq : option Z;
  seq_epoch : option Z; sequence_space : option jstr; merged_at : option jstr; committed_at : option jstr;
  changed_files_count : option Z; additions : option Z; deletions : option Z; labels : list jstr;
  link_summary : option json
}.
Inductive item_kind : Set := k_pull_request | k_commit.
Record SearchItem : Set := mkItem {
  i_kind : item_kind; i_repository : option jstr; i_pr_number : option Z; i_commit_sha : option jstr;
  i_title : option jstr; i_author : option jstr; i_state : option jstr; i_merge_seq : option Z;
  i_seq_epoch : option Z; i_sequence_space : option jstr; i_merged_at : option jstr;
  i_changed_files_count : option Z; i_additions : option Z; i_deletions : option Z; i_labels : list jstr;
  i_link_summary : option json; i_highlight : option (list (jstr * list HighlightFragment)); i_url : option jstr
}.

(** A hit: the index it comes from, its source, highlight and sort values. *)
Record SearchHit : Set := mkHit {
  h_index : jstr; h_source : SearchHitSource; h_highlight : option (list (jstr * list jstr)); h_sort : list json
}.

Definition kindOf (index : jstr) : item_kind :=
  if starts_with (js "prs-commits") index then k_commit else k_pull_request.
Definition firstLine (message : option jstr) : option jstr :=
  match message with
  | None | Some [] => None
  | Some m => match index_of_char 10 m with None => Some m | Some i => Some (take i m) end
  end.
Definition buildUrl (k : item_kind) (repository : option jstr) (s : SearchHitSource) : option jstr :=
  r ← repository;
  match k with
  | k_commit => sha ← commit_sha s; Some (js "/commit/" ++ r ++ js "/" ++ sha)
  | k_pull_request => n ← src_pr_number s; Some (js "/pr/" ++ r ++ js "/" ++ js_of_Z n)
  end.
Definition or_else {A} (a b : option A) : option A := match a with Some _ => a | None => b end.

Definition toItem (h : SearchHit) : SearchItem :=
  let s := h_source h in
  let k := kindOf (h_index h) in
  mkItem k (repository s) (src_pr_number s) (commit_sha s) (or_else (title s) (firstLine (message s)))
    (src_author s) (src_state s) (merge_seq s) (seq_epoch s) (sequence_space s)
    (or_else (merged_at s) (committed_at s)) (changed_files_count s) (additions s) (deletions s) (labels s)
    (link_summary s) (toPlainHighlight (h_highlight h)) (buildUrl k (repository s) s).

(** ** One page *)

Record SearchResponse : Set := mkResponse {
  r_hits : list SearchHit; r_pit_id : option jstr; r_failed : Z; r_total_shards : Z; r_total : hits_total
}.

Record SearchRequest : Set := mkRequest {
  rq_ast : QueryAst; rq_scope : AccessScope; rq_scopeVersion : Z; rq_sortKey : SortKey; rq_order : SortOrder;
  rq_size : nat; rq_cursor : option jstr; rq_epochs : BuildQueryOptions; cursorBinding : option jstr
}.
Record SearchResult : Set := mkResult {
  total : Z * bool; items : list SearchItem; relaxation : RelaxationResult;
  res_unresolved : list UnresolvedName; nextCursor : option jstr; closedPit : option jstr
}.
Inductive SearchError : Set :=
| se_names (name : jstr) | se_build (e : BuildError) | se_scope (message : jstr)
| se_cursor (e : CursorError) | se_shards (message : jstr).

Definition lift_error {E E' A} (f : E -> E') (r : result E A) : result E' A :=
  match r with Ok a => Ok a | Err e => Err (f e) end.

(** [error.name] of what [buildQuery] throws. *)
Definition build_error_name (e : BuildError) : jstr :=
  match e with
  | SequenceEpochRequiredError => js "SequenceEpochRequiredError"
  | MergeNumberEpochRequiredError => js "MergeNumberEpochRequiredError"
  | MergeNumberBranchRequiredError => js "MergeNumberBranchRequiredError"
  | KindFilterNotAppliedError => js "KindFilterNotAppliedError"
  | RangeKeyEqualityError _ => js "RangeKeyEqualityError"
  | CalendarError _ => js "RangeError"
  end.

Section service.
Context (format_parts : jstr -> Z -> Z * Z * Z * (Z * Z * Z)) (toISOString : Z -> jstr)
  (encode_body : json -> jstr) (decode_body : jstr -> option json) (frac_le : jstr -> Z -> option bool)
  (sha256 : jstr -> jstr) (js_String : option json -> jstr)
  (** The registry of names, the point in time opened on a target, the pages of a query on
      it, and the requests of many counts. *)
  (resolveNames : list jstr * list jstr -> result jstr NameResolution)
  (openPointInTime : list EntityAlias -> jstr)
  (searchWithPit : jstr -> EsQuery -> list sort_clause -> option (list json) -> nat -> SearchResponse)
  (multiSearch : list (list EntityAlias * EsQuery) -> result jstr (list MsearchBranch))
  (sign : jstr -> jstr) (base : list EntityAlias).

Definition uncounted (rq : SearchRequest) (s : relaxation_stage) (name : jstr) : RelaxationResult :=
  let n := length (filters (rq_ast rq)) in
  mkRelaxation [] (MAX_RELAXATION_HINTS <? n)%nat true (Some (mkFailure s name 0 (Nat.min n MAX_RELAXATION_HINTS))).

Definition relaxationOf (rq : SearchRequest) (resolved : result jstr NameResolution) : result SearchError RelaxationResult :=
  match resolved with
  | Err name => Ok (uncounted rq st_resolve name)
  | Ok res =>
    match computeRelaxationHints format_parts toISOString multiSearch (rq_ast rq)
            (mkDeps base (rq_scope rq) res (rq_epochs rq)) with
    | Ok r => Ok r
    | Err (re_scope m) => Err (se_scope m)
    | Err (re_build e) => Ok (uncounted rq st_compute (build_error_name e))
    end
  end.

Definition fingerprint_of (rq : SearchRequest) : jstr :=
  computeFingerprint sha256
    (mkFingerprint (serializeQuery (rq_ast rq)) (rq_sortKey rq) (rq_order rq) (rq_scope rq) (rq_scopeVersion rq)
       (sequenceEpoch (rq_epochs rq)) (mergeNumberEpoch (rq_epochs rq)) (mergeNumberBaseBranch (rq_epochs rq))
       (cursorBinding rq)).

Definition total_of (t : hits_total) : Z * bool :=
  match t with tot_missing => (0, true) | tot_number n => (n, true) | tot_relation n exact => (n, exact) end.

(** The cursor of the next page: the last sort values of a page that is not the last. *)
Definition next_cursor (hasMore : bool) (page : list SearchHit) (pit fingerprint : jstr) (now : Z) : option jstr :=
  match hasMore, last page with
  | true, Some h =>
    match h_sort h with
    | [] => None
    | s => Some (encodeSearchCursor encode_body (mkCursor pit s) fingerprint sign now)
    end
  | _, _ => None
  end.

Definition runSearch (rq : SearchRequest) (now : Z) : result SearchError SearchResult :=
  match resolveSearchTarget (rq_ast rq) base with
  | (None, _) =>
    r ← relaxationOf rq (resolveNames (collectNames (rq_ast rq)));
    Ok (mkResult (0, true) [] r [] None None)
  | (Some target, ast) =>
    res ← lift_error se_names (resolveNames (collectNames ast));
    built ← lift_error se_build (buildQuery format_parts toISOString ast res (rq_epochs rq));
    scoped ← lift_error se_scope (applyMandatoryScopeFilter (query built) (rq_scope rq));
    let fingerprint := fingerprint_of rq in
    resumed ← match rq_cursor rq with
              | None => Ok None
              | Some raw => lift_error se_cursor (c ← decodeSearchCursor decode_body frac_le js_String raw fingerprint sign now; Ok (Some c))
              end;
    let pit := match resumed with Some c => pitId c | None => openPointInTime target end in
    let response := searchWithPit pit scoped (buildSort (rq_sortKey rq) (rq_order rq))
                      (searchAfter <$> resumed) (rq_size rq + 1) in
    _ ← lift_error se_shards (assertNoShardFailures (r_failed response) (r_total_shards response));
    let livePit := match r_pit_id response with Some p => p | None => pit end in
    let value := total_of (r_total response) in
    let hits := r_hits response in
    let hasMore := (rq_size rq <? length hits)%nat in
    let page := if hasMore then take (rq_size rq) hits else hits in
    let next := next_cursor hasMore page livePit fingerprint now in
    relax ← (if value.1 =? 0 then relaxationOf rq (Ok res) else Ok NO_RELAXATION);
    Ok (mkResult value (map toItem page) relax (unresolved built) next
          (match next with None => Some livePit | Some _ => None end))
  end.

(** Reading on with the cursor of each page, a page at each of the times; [None] when the
    times end before the last page. *)
Fixpoint browse (rq : SearchRequest) (times : list Z) : result SearchError (option (list (list SearchItem))) :=
  match times with
  | [] => Ok None
  | now :: times =>
    r ← runSearch rq now;
    match nextCursor r with
    | None => Ok (Some [items r])
    | Some c =>
      rest ← browse (mkRequest (rq_ast rq) (rq_scope rq) (rq_scopeVersion rq) (rq_sortKey rq) (rq_order rq)
                       (rq_size rq) (Some c) (rq_epochs rq) (cursorBinding rq)) times;
      Ok (cons (items r) <$> rest)
    end
  end.
End service.

(** ** The page size *)

(** Every request reads between one document and [MAX_SIZE]. *)
Theorem clampSize_bounds number raw : 1 <= clampSize number raw <= MAX_SIZE.
Proof.
  unfold clampSize, DEFAULT_SIZE, MAX_SIZE. repeat case_match; bool_to_prop; lia.
Qed.

(** ** Reading all pages *)

Lemma relaxation_scope_error fp iso ms ast d m :
  (forall q, is_ok (applyMandatoryScopeFilter q (d_scope d)) = true) ->
  computeRelaxationHints fp iso ms ast d <> Err (re_scope m).
Proof.
  intros Hs. unfold computeRelaxationHints. destruct (_ <? 2)%nat; [done|].
  assert (mapM_result (count_candidate fp iso d) (candidates ast) <> Err (re_scope m)) as Hm.
  { induction (candidates ast) as [|c cs IH]; [done|]. cbn [mapM_result].
    assert (count_candidate fp iso d c <> Err (re_scope m)) as Hc.
    { unfold count_candidate. destruct (resolveSearchTarget _ _) as [[target|] rest]; [|done].
      destruct (buildQuery _ _ _ _ _) as [b|]; [|done]. specialize (Hs (query b)). by destruct (applyMandatoryScopeFilter _ _). }
    destruct (count_candidate fp iso d c); cbn [mbind result_bind]; [|congruence].
    destruct (mapM_result _ cs); cbn [mbind result_bind]; [done|congruence]. }
  destruct (mapM_result _ _) as [built|]; cbn [mbind result_bind]; [|congruence]. cbv zeta.
  destruct (omap id built); [done|]. destruct (ms _); [|done].
  destruct (collect_hints _ _ _) as [[hs n] w]. by destruct (n =? 0)%nat.
Qed.

Lemma scope_ok_any scope q q' :
  is_ok (applyMandatoryScopeFilter q scope) = true -> is_ok (applyMandatoryScopeFilter q' scope) = true.
Proof. unfold applyMandatoryScopeFilter. by repeat case_match. Qed.

Section browse.
Context (format_parts : jstr -> Z -> Z * Z * Z * (Z * Z * Z)) (toISOString : Z -> jstr)
  (encode_body : json -> jstr) (decode_body : jstr -> option json) (frac_le : jstr -> Z -> option bool)
  (sha256 : jstr -> jstr) (js_String : option json -> jstr)
  (resolveNames : list jstr * list jstr -> result jstr NameResolution)
  (openPointInTime : list EntityAlias -> jstr)
  (searchWithPit : jstr -> EsQuery -> list sort_clause -> option (list json) -> nat -> SearchResponse)
  (multiSearch : list (list EntityAlias * EsQuery) -> result jstr (list MsearchBranch))
  (sign : jstr -> jstr) (base : list EntityAlias).

(** What the code relies on of a point in time: [pit_hits] is the whole result of a query on
    its snapshot in the order of a sort. A request gives the first hits, or those after the
    hit whose sort values it names; the identifier of the response stands for the same
    snapshot; and a sort that ends with the document id tells its hits apart. *)
Record pit_laws (pit_hits : jstr -> EsQuery -> list sort_clause -> list SearchHit) : Prop := {
  pl_first pit q s n : r_hits (searchWithPit pit q s None n) = take n (pit_hits pit q s);
  pl_after pit q s n pre h rest :
    pit_hits pit q s = pre ++ h :: rest -> NoDup (map h_sort (pit_hits pit q s)) ->
    r_hits (searchWithPit pit q s (Some (h_sort h)) n) = take n rest;
  pl_renewed pit q s a n p : r_pit_id (searchWithPit pit q s a n) = Some p -> p <> [] ∧ pit_hits p = pit_hits pit;
  pl_values pit q cs : NoDup (map h_sort (pit_hits pit q (cs ++ [TIEBREAK]))) ∧
    Forall (fun h => h_sort h <> []) (pit_hits pit q (cs ++ [TIEBREAK]))
}.

(** The codec, the signature and the hash give texts. *)
Record seal_laws : Prop := {
  sl_codec x : decode_body (encode_body x) = Some x ∧ encode_body x <> [] ∧ SEPARATOR ∉ encode_body x;
  sl_sign body : sign body <> [];
  sl_hash x : sha256 x <> []
}.

Context (pit_hits : jstr -> EsQuery -> list sort_clause -> list SearchHit) (Hpit : pit_laws pit_hits) (Hseal : seal_laws).
Context (Hshards : forall pit q s a n, r_failed (searchWithPit pit q s a n) <= 0) (Hopen : forall t, openPointInTime t <> []).

(** The request up to its cursor, and the query it searches. *)
Definition with_cursor (rq : SearchRequest) (c : option jstr) : SearchRequest :=
  mkRequest (rq_ast rq) (rq_scope rq) (rq_scopeVersion rq) (rq_sortKey rq) (rq_order rq) (rq_size rq) c (rq_epochs rq)
    (cursorBinding rq).
Record searches (rq : SearchRequest) (target : list EntityAlias) (scoped : EsQuery) : Prop := {
  se_prepared : ∃ ast res built, resolveSearchTarget (rq_ast rq) base = (Some target, ast) ∧
    resolveNames (collectNames ast) = Ok res ∧
    buildQuery format_parts toISOString ast res (rq_epochs rq) = Ok built ∧
    applyMandatoryScopeFilter (query built) (rq_scope rq) = Ok scoped
}.

Notation page_of rq now :=
  (runSearch format_parts toISOString encode_body decode_body frac_le sha256 js_String resolveNames openPointInTime
     searchWithPit multiSearch sign base rq now).
Notation order_of rq := (buildSort (rq_sortKey rq) (rq_order rq)).

(** A cursor stands at a place of the result: before [rest]. *)
Definition stands (rq : SearchRequest) (target : list EntityAlias) (scoped : EsQuery) (all rest : list SearchHit) (now : Z) : Prop :=
  match rq_cursor rq with
  | None => rest = all ∧ all = pit_hits (openPointInTime target) scoped (order_of rq)
  | Some raw => ∃ pit pre h t,
      raw = encodeSearchCursor encode_body (mkCursor pit (h_sort h)) (fingerprint_of sha256 rq) sign t ∧
      pit <> [] ∧ now < t + CURSOR_TTL_MS ∧ pit_hits pit scoped (order_of rq) = all ∧ all = pre ++ h :: rest
  end.

Lemma order_snoc rq : ∃ cs, order_of rq = cs ++ [TIEBREAK].
Proof.
  unfold buildSort. destruct (SORT_FIELDS _) as [[f t]|]; [|by exists [c_score (rq_order rq)]].
  destruct (negb _); [by exists [fieldSort f t (rq_order rq)]|by exists [fieldSort f t (rq_order rq); fieldSort (js "merged_at") t_date desc]].
Qed.

Lemma fingerprint_nonempty rq : fingerprint_of sha256 rq <> [].
Proof.
  unfold fingerprint_of, computeFingerprint. pose proof (sl_hash Hseal) as H.
  match goal with |- take 22 (sha256 ?m) <> [] => specialize (H m); by destruct (sha256 m) end.
Qed.

(** One page from where the cursor stands. *)
Lemma page_step rq target scoped all rest now :
  (1 <= rq_size rq)%nat -> searches rq target scoped -> stands rq target scoped all rest now ->
  ∃ r, page_of rq now = Ok r ∧ items r = map toItem (take (rq_size rq) rest) ∧
    match nextCursor r with
    | None => (length rest <= rq_size rq)%nat
    | Some c => (rq_size rq < length rest)%nat ∧
        forall now', now' < now + CURSOR_TTL_MS ->
          stands (with_cursor rq (Some c)) target scoped all (drop (rq_size rq) rest) now'
    end.
Proof.
  intros Hsize [(ast & res & built & Ht & Hn & Hb & Hs)] Hst.
  destruct (order_snoc rq) as [cs Hcs].
  assert (forall m, is_ok (applyMandatoryScopeFilter m (rq_scope rq)) = true) as Hscope.
  { intros m. apply (scope_ok_any _ (query built)). by rewrite Hs. }
  unfold runSearch. rewrite Ht, Hn. cbn [lift_error mbind result_bind]. rewrite Hb. cbn [lift_error mbind result_bind].
  rewrite Hs. cbn [lift_error mbind result_bind]. cbv zeta.
  set (fp := fingerprint_of sha256 rq). set (resumed := match rq_cursor rq with Some _ => _ | None => _ end).
  assert (∃ c pit, resumed = Ok c ∧ pit = match c with Some c => pitId c | None => openPointInTime target end ∧ pit <> [] ∧
    pit_hits pit scoped (order_of rq) = all ∧
    r_hits (searchWithPit pit scoped (order_of rq) (searchAfter <$> c) (rq_size rq + 1)) = take (rq_size rq + 1) rest ∧
    ∃ pre, all = pre ++ rest) as (c & pit & -> & Hpc & Hpne & Hall & Hhits & Hpre).
  { unfold stands in Hst. unfold resumed. destruct (rq_cursor rq) as [raw|].
    - destruct Hst as (pit & pre & h & t & -> & Hne & Hlive & Hh & Hsplit).
      destruct (pl_values pit_hits Hpit pit scoped cs) as [Hnd Hval]. rewrite <- Hcs, Hh in Hnd, Hval.
      assert (h_sort h <> []) as Hsort.
      { rewrite Forall_forall in Hval. apply Hval. rewrite Hsplit. apply elem_of_app. right. by left. }
      change (fingerprint_of sha256 rq) with fp. rewrite (cursor_round_trip encode_body decode_body frac_le js_String (mkCursor pit (h_sort h)) fp fp sign t now
        (sl_codec Hseal) (sl_sign Hseal) Hne Hsort (fingerprint_nonempty rq)).
      rewrite (proj2 (Z.leb_gt _ _)), jeqb_refl by done. cbn [mbind result_bind lift_error].
      exists (Some (mkCursor pit (h_sort h))), pit. split_and!; try done.
      + change (searchAfter <$> Some (mkCursor pit (h_sort h))) with (Some (h_sort h)).
        apply (pl_after pit_hits Hpit pit scoped (order_of rq) _ pre); rewrite Hh; done.
      + exists (pre ++ [h]). by rewrite <- app_assoc.
    - destruct Hst as [-> ->]. exists None, (openPointInTime target). split_and!; try done.
      + apply (pl_first pit_hits Hpit).
      + by exists []. }
  clear Hst. cbn [mbind result_bind]. rewrite <- Hpc. clear Hpc.
  set (response := searchWithPit _ _ _ _ _) in *.
  assert (assertNoShardFailures (r_failed response) (r_total_shards response) = Ok tt) as ->.
  { unfold assertNoShardFailures, throw_if. by rewrite (proj2 (Z.ltb_ge _ _)) by apply Hshards. }
  cbn [lift_error mbind result_bind]. rewrite Hhits, length_take.
  set (livePit := match r_pit_id response with Some p => p | None => pit end).
  assert (livePit <> [] ∧ pit_hits livePit = pit_hits pit) as [Hlne Hlive].
  { unfold livePit. destruct (r_pit_id response) as [p|] eqn:Ep; [|done]. by apply (pl_renewed pit_hits Hpit) in Ep. }
  replace (rq_size rq <? (rq_size rq + 1) `min` length rest)%nat with (rq_size rq <? length rest)%nat.
  2: { apply eq_true_iff_eq. rewrite !Nat.ltb_lt. lia. }
  set (page := if (rq_size rq <? length rest)%nat then _ else _).
  assert (page = take (rq_size rq) rest) as Hpage.
  { unfold page. destruct (_ <? _)%nat eqn:E; bool_to_prop; [rewrite take_take; f_equal; lia|].
    rewrite !take_ge by lia. done. }
  rewrite Hpage. clear page Hpage.
  set (relax := if (total_of (r_total response)).1 =? 0 then _ else _).
  assert (∃ x, relax = Ok x) as [x ->].
  { unfold relax. destruct (_ =? 0); [|by eexists]. unfold relaxationOf.
    destruct (computeRelaxationHints _ _ _ _ _) as [y|[e|m]] eqn:Er; [by eexists..|].
    by apply relaxation_scope_error in Er. }
  cbn [mbind result_bind]. eexists. split; [reflexivity|]. cbn [items nextCursor]. split; [done|].
  unfold next_cursor. destruct (rq_size rq <? length rest)%nat eqn:E; bool_to_prop; [|done].
  destruct (last (take (rq_size rq) rest)) as [h|] eqn:Eh.
  2: { apply last_None in Eh. apply (f_equal length) in Eh. rewrite length_take in Eh. cbn in Eh. lia. }
  assert (h_sort h <> []) as Hsort.
  { destruct (pl_values pit_hits Hpit pit scoped cs) as [_ Hval]. rewrite <- Hcs, Hall in Hval.
    rewrite Forall_forall in Hval. apply Hval. destruct Hpre as [pre ->]. apply elem_of_app. right.
    apply last_Some_elem_of in Eh. by apply elem_of_take in Eh as (i & Hi & _); apply list_elem_of_lookup_2 in Hi. }
  destruct (h_sort h) as [|v vs] eqn:Ev; [done|]. split; [done|]. intros now' Hnow. unfold stands. cbn [rq_cursor with_cursor].
  destruct Hpre as [pre Hpre]. apply last_Some in Eh as [l Hl].
  exists livePit, (pre ++ l), h, now. split_and!; try done; [by rewrite Ev|by rewrite Hlive|].
  rewrite Hpre, <- (take_drop (rq_size rq) rest) at 1. rewrite Hl, <- !app_assoc. done.
Qed.

Notation browse_of rq times :=
  (browse format_parts toISOString encode_body decode_body frac_le sha256 js_String resolveNames openPointInTime
     searchWithPit multiSearch sign base rq times).

(** Every page but the last is full, and the last is not longer. *)
Fixpoint full_pages {A} (size : nat) (pages : list (list A)) : Prop :=
  match pages with
  | [] => False
  | [p] => (length p <= size)%nat
  | p :: pages => length p = size ∧ full_pages size pages
  end.

Lemma browse_from times : forall rq target scoped all rest,
  (1 <= rq_size rq)%nat -> searches rq target scoped -> stands rq target scoped all rest (List.hd 0 times) ->
  Sorted (fun t t' => t' < t + CURSOR_TTL_MS) times -> (length rest < length times)%nat ->
  ∃ pages, browse_of rq times = Ok (Some pages) ∧ concat pages = map toItem rest ∧ full_pages (rq_size rq) pages.
Proof.
  induction times as [|now times IH]; intros rq target scoped all rest Hsize Hs Hst Ht Hlen; [cbn in Hlen; lia|].
  destruct (page_step rq target scoped all rest now Hsize Hs Hst) as (r & Hr & Hi & Hn).
  cbn [browse]. rewrite Hr. cbn [mbind result_bind]. destruct (nextCursor r) as [c|].
  - destruct Hn as [Hmore Hnext]. apply Sorted_inv in Ht as [Ht Hhd].
    destruct times as [|now' times]; [cbn in Hlen; lia|]. apply HdRel_inv in Hhd.
    destruct (IH (with_cursor rq (Some c)) target scoped all (drop (rq_size rq) rest)) as (pages & Hp & Hc & Hf).
    + done.
    + destruct Hs as [Hs]. by split.
    + by apply Hnext.
    + done.
    + rewrite length_drop. cbn [length] in *. lia.
    + change (mkRequest _ _ _ _ _ _ _ _ _) with (with_cursor rq (Some c)). rewrite Hp. cbn [mbind result_bind].
      exists (items r :: pages). split; [done|]. cbn [concat]. rewrite Hc, Hi, <- map_app, take_drop. split; [done|].
      destruct pages as [|p pages]; [done|]. cbn [full_pages]. split; [|exact Hf].
      rewrite length_map, length_take. lia.
  - exists [items r]. split; [done|]. cbn [concat full_pages]. rewrite app_nil_r, Hi, take_ge by done.
    split; [done|]. by rewrite length_map.
Qed.

(** [C33] Reading on with the cursors gives every hit of the snapshot of the first page exactly
    once and in the order of the sort, on full pages, and ends: as long as each cursor is
    used before it expires and no shard fails, whatever the index does in the meantime. *)
Theorem browse_complete rq target scoped times :
  rq_cursor rq = None -> (1 <= rq_size rq)%nat -> searches rq target scoped ->
  let hits := pit_hits (openPointInTime target) scoped (order_of rq) in
  Sorted (fun t t' => t' < t + CURSOR_TTL_MS) times -> (length hits < length times)%nat ->
  ∃ pages, browse_of rq times = Ok (Some pages) ∧ concat pages = map toItem hits ∧ full_pages (rq_size rq) pages.
Proof.
  intros Hc Hsize Hs hits Ht Hlen. apply (browse_from times rq target scoped hits hits); try done.
  unfold stands. by rewrite Hc.
Qed.

(** A cursor of another query, sort, scope, epoch or user is refused, and so is a cursor that
    the service did not sign: no page of another result set is ever read. *)
Theorem foreign_cursor_refused rq target scoped raw now r :
  rq_cursor rq = Some raw -> searches rq target scoped -> page_of rq now = Ok r ->
  ∃ body fs, raw = body ++ SEPARATOR :: sign body ∧ decode_body body = Some (JObj fs) ∧
    assoc (js "f") fs = Some (JStr (fingerprint_of sha256 rq)).
Proof.
  intros Hc [(ast & res & built & Ht & Hn & Hb & Hs)] H. unfold runSearch in H.
  rewrite Ht, Hn, Hc in H. cbn [lift_error mbind result_bind] in H. rewrite Hb in H. cbn [lift_error mbind result_bind] in H.
  rewrite Hs in H. cbn [lift_error mbind result_bind] in H. cbv zeta in H.
  destruct (decodeSearchCursor _ _ _ _ _ _ _) as [c|e] eqn:E; [|discriminate].
  apply accepted_cursor_signed in E as (body & fs & ? & _ & ? & ? & _). eauto.
Qed.
End browse.

(** ** A service to run

    A codec that satisfies the laws (a JSON value as a number, in digits) and an index with
    three documents in one snapshot. *)

Definition sample_encode (j : json) : jstr := js_of_Z (Zpos (encode (to_tree j))).
Definition sample_decode (s : jstr) : option json := t ← decode (Z.to_pos (num_of_digits s)); of_tree t.
Definition sample_sign (s : jstr) : jstr := js "signed" ++ s.


Definition sample_hit (n : Z) : SearchHit :=
  mkHit (js "prs-pull-requests-v1")
    (mkSource (Some (js "acme/pay")) (Some n) None (Some (js "fix")) None None None None None None None None None None None [] None)
    None [JNum n; JStr (js_of_Z n)].
Definition sample_all : list SearchHit := [sample_hit 3; sample_hit 2; sample_hit 1].
Definition sort_eqb (a b : list json) : bool := bool_decide (map to_tree a = map to_tree b).
Fixpoint after_values (v : list json) (hs : list SearchHit) : list SearchHit :=
  match hs with [] => [] | h :: hs => if sort_eqb (h_sort h) v then hs else after_values v hs end.
Definition sample_search (_ : jstr) (_ : EsQuery) (_ : list sort_clause) (after : option (list json)) (n : nat) : SearchResponse :=
  mkResponse (take n (match after with None => sample_all | Some v => after_values v sample_all end)) None 0 3 (tot_number 3).

Lemma sort_eqb_eq a b : sort_eqb a b = true <-> a = b.
Proof.
  unfold sort_eqb. rewrite bool_decide_eq_true. split; [|by intros ->]. revert b.
  induction a as [|x a IH]; intros [|y b]; try done. cbn [map]. intros [= H1 H2]. f_equal; [|by apply IH].
  apply (f_equal of_tree) in H1. rewrite !of_to_tree in H1. by injection H1.
Qed.
Lemma after_values_split pre h rest :
  NoDup (map h_sort (pre ++ h :: rest)) -> after_values (h_sort h) (pre ++ h :: rest) = rest.
Proof.
  induction pre as [|x pre IH]; cbn [app map after_values]; intros Hn; apply NoDup_cons in Hn as [Hx Hn].
  - by rewrite (proj2 (sort_eqb_eq _ _) eq_refl).
  - destruct (sort_eqb _ _) eqn:E; [|by apply IH]. apply sort_eqb_eq in E. exfalso. apply Hx. rewrite E.
    apply list_elem_of_In, in_map, in_or_app. right. by left.
Qed.
Lemma sample_all_distinct : NoDup (map h_sort sample_all).
Proof. repeat constructor; rewrite ?elem_of_cons, ?elem_of_nil; intuition discriminate. Qed.
Lemma sample_pit_laws : pit_laws sample_search (fun _ _ _ => sample_all).
Proof.
  split.
  - done.
  - intros pit q s n pre h rest H _. cbn [sample_search r_hits]. rewrite H, after_values_split; [done|].
    rewrite <- H. apply sample_all_distinct.
  - discriminate.
  - intros pit q cs. split; [apply sample_all_distinct|]. by repeat constructor.
Qed.
Lemma sample_seal_laws : seal_laws sample_encode sample_decode (fun x => 120%N :: x) sample_sign.
Proof.
  split; [|done..]. intros x. split; [|split].
  - unfold sample_encode, sample_decode. rewrite num_of_js_of_Z by done. cbn [Z.to_pos].
    rewrite decode_encode. cbn [mbind option_bind]. apply of_to_tree.
  - apply js_of_Z_nonempty.
  - by apply js_of_Z_no.
Qed.

Definition sample_request : SearchRequest :=
  mkRequest (mkAst [EqualityFilter QueryAst.repo op_eq [js "acme/pay"]] None) (ExplicitAccessScope [7]) 1 by_pr_number desc 2
    None (mkOptions None None None) None.
Definition sample_scoped : EsQuery :=
  q_bool [q_bool [] [q_terms (js "repository") [ev_str (js "acme/pay")]] [] [] None]
    [q_terms (js "repository_id") [ev_num 7]] [] [] None.

Lemma sample_searches :
  searches utc_parts js_of_Z (fun _ => Ok EMPTY_RESOLUTION) SEARCH_TARGET sample_request SEARCH_TARGET sample_scoped.
Proof.
  split. exists (rq_ast sample_request), EMPTY_RESOLUTION.
  exists (mkBuilt (q_bool [] [q_terms (js "repository") [ev_str (js "acme/pay")]] [] [] None) []).
  split_and!; vm_compute; reflexivity.
Qed.
Lemma browse_complete_witness :
  ∃ pages,
    browse utc_parts js_of_Z sample_encode sample_decode (fun _ _ => None) (fun x => 120%N :: x) (fun _ => [])
      (fun _ => Ok EMPTY_RESOLUTION) (fun _ => js "pit") sample_search (fun _ => Err []) sample_sign SEARCH_TARGET
      sample_request [0; 1000; 2000; 3000] = Ok (Some pages) ∧
    concat pages = map toItem sample_all ∧ full_pages 2 pages.
Proof.
  apply (browse_complete utc_parts js_of_Z sample_encode sample_decode (fun _ _ => None) (fun x => 120%N :: x) (fun _ => [])
    (fun _ => Ok EMPTY_RESOLUTION) (fun _ => js "pit") sample_search (fun _ => Err []) sample_sign SEARCH_TARGET
    (fun _ _ _ => sample_all) sample_pit_laws sample_seal_laws) with (target := SEARCH_TARGET) (scoped := sample_scoped).
  - intros. cbn. lia.
  - discriminate.
  - reflexivity.
  - cbn. lia.
  - exact sample_searches.
  - repeat constructor; unfold CURSOR_TTL_MS; lia.
  - cbn. lia.
Defined.
Lemma cursor_issued_witness :
  decodeSearchCursor sample_decode (fun _ _ => None) (fun _ => [])
    (encodeSearchCursor sample_encode (mkCursor (js "pit") [JNum 3]) (js "f") sample_sign 0) (js "f") sample_sign 1 =
  Ok (mkCursor (js "pit") [JNum 3]).
Proof.
  rewrite (cursor_round_trip sample_encode sample_decode (fun _ _ => None) (fun _ => []) (mkCursor (js "pit") [JNum 3]) (js "f") (js "f")
    sample_sign 0 1 (sl_codec _ _ _ _ sample_seal_laws) (sl_sign _ _ _ _ sample_seal_laws)); [reflexivity|discriminate..].
Defined.
