(* ===== verification/JsonText.v ===== *)
(** * The text of a JSON value

    [JSON.stringify] of the language, on the values of Json.v, as the code uses it to
    build keys and tokens: quotation with its escapes (a surrogate without its partner
    is escaped too), and the proof that a flat tuple is determined by its text. *)

From stdpp Require Import base list option strings numbers.
From Stdlib Require Import ZArith Lia.
From S2P Require Import Prelude JsString Json SequenceSpace.
Open Scope N_scope.

(** ** Quotation *)

Definition hex_digit (n : N) : N := if n <? 10 then 48 + n else 87 + n.
Definition u_escape (c : N) : jstr :=
  [92; 117; hex_digit (c / 4096 mod 16); hex_digit (c / 256 mod 16);
   hex_digit (c / 16 mod 16); hex_digit (c mod 16)].

Definition is_high (c : N) : bool := in_range 55296 56319 c.
Definition is_low (c : N) : bool := in_range 56320 57343 c.

(** A code unit that is not a surrogate. *)
Definition quote_unit (c : N) : jstr :=
  if c =? 34 then [92; 34]
  else if c =? 92 then [92; 92]
  else if c =? 8 then [92; 98]
  else if c =? 9 then [92; 116]
  else if c =? 10 then [92; 110]
  else if c =? 12 then [92; 102]
  else if c =? 13 then [92; 114]
  else if c <? 32 then u_escape c
  else [c].

Fixpoint quote_body (s : jstr) : jstr :=
  match s with
  | [] => []
  | c :: s' =>
    if is_high c then
      match s' with
      | d :: s'' => if is_low d then c :: d :: quote_body s'' else u_escape c ++ quote_body s'
      | [] => u_escape c
      end
    else if is_low c then u_escape c ++ quote_body s'
    else quote_unit c ++ quote_body s'
  end.
Definition quote (s : jstr) : jstr := 34 :: quote_body s ++ [34].

(** ** [JSON.stringify] *)

Fixpoint stringify (v : json) : jstr :=
  match v with
  | JNull => js "null"
  | JBool b => if b then js "true" else js "false"
  | JNum n => js_of_Z n
  | JFrac repr => repr
  | JStr s => quote s
  | JArr l => js "[" ++ join (js ",") (map stringify l) ++ js "]"
  | JObj fields =>
    js "{" ++ join (js ",") (map (fun f => quote (fst f) ++ js ":" ++ stringify (snd f)) fields) ++ js "}"
  end.

Example stringify_ex :
  stringify (JArr [JNum 7; JStr (js "release:v1\"); JObj [(js "a", JNull); (js "b", JNum (-1))]])
  = js "[7," ++ quote (js "release:v1\") ++ js ",{" ++ quote (js "a") ++ js ":null," ++ quote (js "b")
    ++ js ":-1}]".
Proof. vm_compute. reflexivity. Qed.
Example quote_ex : quote [34; 10; 1; 55296; 55357; 56832]
  = [34] ++ [92; 34] ++ js "\n\u0001\ud800" ++ [55357; 56832] ++ [34].
Proof. vm_compute. reflexivity. Qed.

(** ** Reading a quotation back *)

Definition hex_value (c : N) : N := if c <? 58 then c - 48 else c - 87.
Definition unescape (e : N) : N :=
  if e =? 98 then 8 else if e =? 116 then 9 else if e =? 110 then 10
  else if e =? 102 then 12 else if e =? 114 then 13 else e.
Definition cons_fst (c : N) (r : option (jstr * jstr)) : option (jstr * jstr) :=
  '(s, t) ← r; Some (c :: s, t).

Fixpoint unquote (t : jstr) : option (jstr * jstr) :=
  match t with
  | [] => None
  | c :: t =>
    if c =? 34 then Some ([], t)
    else if c =? 92 then
      match t with
      | [] => None
      | e :: t1 =>
        if e =? 117 then
          match t1 with
          | h3 :: h2 :: h1 :: h0 :: t2 =>
            cons_fst (hex_value h3 * 4096 + hex_value h2 * 256 + hex_value h1 * 16 + hex_value h0)
              (unquote t2)
          | _ => None
          end
        else cons_fst (unescape e) (unquote t1)
      end
    else cons_fst c (unquote t)
  end.

Lemma hex_digit_value n : n < 16 -> hex_value (hex_digit n) = n.
Proof.
  intros H. unfold hex_value, hex_digit. destruct (N.ltb_spec n 10).
  - rewrite (proj2 (N.ltb_lt _ _)) by lia. lia.
  - rewrite (proj2 (N.ltb_ge _ _)) by lia. lia.
Qed.
Lemma hex_word c : c < 65536 ->
  c / 4096 mod 16 * 4096 + c / 256 mod 16 * 256 + c / 16 mod 16 * 16 + c mod 16 = c.
Proof.
  intros H.
  pose proof (N.div_mod c 16 ltac:(lia)). pose proof (N.div_mod (c / 16) 16 ltac:(lia)).
  pose proof (N.div_mod (c / 256) 16 ltac:(lia)). pose proof (N.div_mod (c / 4096) 16 ltac:(lia)).
  rewrite N.Div0.div_div in * by lia. change (16 * 16) with 256 in *.
  change (256 * 16) with 4096 in *. change (4096 * 16) with 65536 in *.
  rewrite (N.div_small c 65536) in * by done. lia.
Qed.

Lemma unquote_u c t : c < 65536 -> unquote (u_escape c ++ t) = cons_fst c (unquote t).
Proof.
  intros H. cbn -[N.div N.modulo N.mul N.add hex_value hex_digit].
  rewrite !hex_digit_value by (apply N.mod_lt; done). by rewrite hex_word.
Qed.
Lemma unquote_raw c t : c <> 34 -> c <> 92 -> unquote (c :: t) = cons_fst c (unquote t).
Proof.
  intros H1 H2. cbn [unquote]. rewrite (proj2 (N.eqb_neq c 34) H1), (proj2 (N.eqb_neq c 92) H2). done.
Qed.
Lemma unquote_unit c t : unquote (quote_unit c ++ t) = cons_fst c (unquote t).
Proof.
  unfold quote_unit.
  repeat match goal with
  | |- context [?c =? ?k] => destruct (N.eqb_spec c k) as [->|?]; [reflexivity|]
  end.
  destruct (N.ltb_spec c 32).
  - apply unquote_u. lia.
  - by apply unquote_raw.
Qed.

Lemma is_high_spec c : is_high c = true <-> 55296 <= c <= 56319.
Proof. apply in_range_spec. Qed.
Lemma is_low_spec c : is_low c = true <-> 56320 <= c <= 57343.
Proof. apply in_range_spec. Qed.

(** Nothing of a string is lost in its quotation, and what follows it is left. *)
Lemma unquote_quote s t : unquote (quote_body s ++ 34 :: t) = Some (s, t).
Proof.
  remember (length s) as n eqn:Hn. revert s Hn.
  induction n as [n IH] using lt_wf_ind. intros s ->. destruct s as [|c s]; [reflexivity|].
  cbn [quote_body]. destruct (is_high c) eqn:Eh.
  - apply is_high_spec in Eh. destruct s as [|d s].
    + rewrite unquote_u by lia. reflexivity.
    + destruct (is_low d) eqn:El.
      * apply is_low_spec in El. rewrite <- !app_comm_cons, !unquote_raw by lia.
        rewrite (IH (length s)) by (cbn; lia). reflexivity.
      * rewrite <- app_assoc, unquote_u by lia.
        rewrite (IH (length (d :: s))) by (cbn; lia). reflexivity.
  - destruct (is_low c) eqn:El.
    + apply is_low_spec in El. rewrite <- app_assoc, unquote_u by lia.
      rewrite (IH (length s)) by (cbn; lia). reflexivity.
    + rewrite <- app_assoc, unquote_unit, (IH (length s)) by (cbn; lia). reflexivity.
Qed.
Lemma quote_app_inj s s' t t' : quote s ++ t = quote s' ++ t' -> s = s' ∧ t = t'.
Proof.
  unfold quote. intros H. injection H as H. rewrite <- !app_assoc in H. cbn in H.
  pose proof (unquote_quote s t) as H1. rewrite H, unquote_quote in H1. by injection H1 as -> ->.
Qed.

(** ** Flat tuples *)

Definition flat (v : json) : bool := match v with JNum _ | JStr _ => true | _ => false end.

(** Texts that stop at the first character of a kind are equal when the whole is. *)
Lemma app_stop_inj {A} (p : A -> bool) (a a' : list A) c c' t t' :
  (forall x, x ∈ a -> p x = false) -> (forall x, x ∈ a' -> p x = false) ->
  p c = true -> p c' = true ->
  a ++ c :: t = a' ++ c' :: t' -> a = a' ∧ c = c' ∧ t = t'.
Proof.
  intros Ha Ha' Hc Hc'. revert a' Ha'. induction a as [|x a IH]; intros [|x' a'] Ha' H; injection H.
  - intros. subst. done.
  - intros _ ->. rewrite (Ha' x') in Hc by (by left). done.
  - intros _ ->. rewrite (Ha c') in Hc' by (by left). done.
  - intros H1 ->. destruct (IH (fun y Hy => Ha y (list_elem_of_further _ _ _ Hy)) a'
      (fun y Hy => Ha' y (list_elem_of_further _ _ _ Hy)) H1) as (-> & -> & ->). done.
Qed.

(** A number or a quotation, followed by a comma or a bracket, ends where it ends. *)
Lemma flat_app_inj v v' (c c' : N) t t' :
  flat v = true -> flat v' = true -> (c = 44 \/ c = 93) -> (c' = 44 \/ c' = 93) ->
  stringify v ++ c :: t = stringify v' ++ c' :: t' -> v = v' ∧ c = c' ∧ t = t'.
Proof.
  assert (forall n s (c : N) t t', (c = 44 \/ c = 93) -> js_of_Z n ++ c :: t <> quote s ++ t') as Hmix.
  { intros n s d u u' Hd H. destruct (js_of_Z n) as [|x l] eqn:E; [by apply js_of_Z_nonempty in E|].
    injection H as -> _. assert (34 ∈ js_of_Z n) as Hin by (rewrite E; by left).
    by apply js_of_Z_no in Hin. }
  assert (forall n (c : N), (c = 44 \/ c = 93) -> c ∉ js_of_Z n) as Hno.
  { intros n d [->| ->]; apply js_of_Z_no; done. }
  destruct v, v'; try discriminate; intros _ _ Hc Hc' H; cbn [stringify] in H.
  - apply (app_stop_inj (fun x => (x =? 44) || (x =? 93))) in H as (Hn & -> & ->).
    + apply js_of_Z_injective in Hn as ->. done.
    + intros x Hx. apply orb_false_iff. split; apply N.eqb_neq; intros ->;
        (eapply Hno; [|exact Hx]); auto.
    + intros x Hx. apply orb_false_iff. split; apply N.eqb_neq; intros ->;
        (eapply Hno; [|exact Hx]); auto.
    + by destruct Hc as [->| ->].
    + by destruct Hc' as [->| ->].
  - by apply Hmix in H.
  - symmetry in H. by apply Hmix in H.
  - apply quote_app_inj in H as [-> H]. by injection H as -> ->.
Qed.

Lemma join_comma l : l <> [] ->
  join (js ",") (map stringify l) ++ js "]"
  = match l with
    | [] => []
    | v :: l' =>
      stringify v ++ match l' with [] => [93] | _ => 44 :: (join (js ",") (map stringify l') ++ js "]") end
    end.
Proof.
  destruct l as [|v [|w l]]; [done|reflexivity|]. intros _.
  change (join (js ",") (map stringify (v :: w :: l)))
    with (stringify v ++ js "," ++ join (js ",") (map stringify (w :: l))).
  rewrite <- !app_assoc. reflexivity.
Qed.

(** Tuples of numbers and strings are equal when their texts are. *)
Lemma stringify_flat_inj l l' :
  forallb flat l = true -> forallb flat l' = true -> l <> [] -> l' <> [] ->
  stringify (JArr l) = stringify (JArr l') -> l = l'.
Proof.
  cbn [stringify]. intros Hl Hl' Hn Hn' H. injection H as H. revert l' Hl' Hn' H.
  induction l as [|v l IH]; [done|]. intros [|v' l'] Hl' Hn'; [done|].
  cbn [forallb] in Hl, Hl'. apply andb_prop in Hl as [Hv Hl], Hl' as [Hv' Hl'].
  rewrite (join_comma (v :: l)), (join_comma (v' :: l')) by done. intros H.
  assert (v = v' ∧ match l with [] => [93] | _ => 44 :: (join (js ",") (map stringify l) ++ js "]") end
    = match l' with [] => [93] | _ => 44 :: (join (js ",") (map stringify l') ++ js "]") end) as [-> Ht].
  { destruct l, l'; apply flat_app_inj in H; try tauto; destruct H as (-> & ? & ?); split; congruence. }
  f_equal. destruct l as [|w l], l' as [|w' l']; try discriminate; [done|].
  injection Ht as Ht. by apply IH.
Qed.
