(* ===== verification/SequenceWork.v ===== *)
(** * The durable work queue

    [packages/db/src/repositories/sequence-work.ts] over the table [sequence_work]
    (migrations 025, 034, 035).  A table is a map from keys to rows; a statement is a
    function of the table, of the two clocks of PostgreSQL ([now()] of the transaction
    and [clock_timestamp()], in milliseconds) and of what the server chooses (the tokens
    of [gen_random_uuid()], the rows other sessions hold locked, the collation of the
    keys).  [UPDATE ... WHERE] is [update_where].  The step relation [step] is any
    interleaving of these statements by any number of workers. *)

From stdpp Require Import base list option strings numbers gmap sets sorting.
From Stdlib Require Import ZArith Lia.
From S2P Require Import Prelude JsString Json SequenceSpace JsonText.
Open Scope Z_scope.

Module Work.

Inductive SequenceWorkKind : Set := refresh | reconcile | materialize | announce | project | tag.
Inductive SequenceWorkState : Set := ready | leased | retry | parked | finished | obsolete.

#[export] Instance kind_eq_dec : EqDecision SequenceWorkKind.
Proof. solve_decision. Defined.
#[export] Instance state_eq_dec : EqDecision SequenceWorkState.
Proof. solve_decision. Defined.

(** The state the code writes ['done'] is [finished] here. *)
Definition kind_name (k : SequenceWorkKind) : jstr :=
  match k with
  | refresh => js "refresh" | reconcile => js "reconcile" | materialize => js "materialize"
  | announce => js "announce" | project => js "project" | tag => js "tag"
  end.

Record SequenceWorkRow : Set := mkWork {
  kind : SequenceWorkKind;
  repository_id : Z;
  base_branch : jstr;
  seq_epoch : option Z;
  requested_generation : Z;
  completed_generation : Z;
  payload : json;
  progress : json;
  state : SequenceWorkState;
  available_at : Z;
  lease_until : option Z;
  lease_token : option jstr;
  attempt_count : Z;
  last_reason : option jstr;
  created_at : Z;
  updated_at : Z
}.

Abbreviation Table := (gmap jstr SequenceWorkRow).
Record Clocks : Set := mkClocks { now : Z; clock_timestamp : Z }.

(** [UPDATE sequence_work SET f WHERE p]; the rows it changed are [affected]. *)
Definition update_where (p : jstr -> SequenceWorkRow -> bool)
    (f : jstr -> SequenceWorkRow -> SequenceWorkRow) (t : Table) : Table :=
  map_imap (fun k w => Some (if p k w then f k w else w)) t.
Definition affected (p : jstr -> SequenceWorkRow -> bool) (t : Table) : list (jstr * SequenceWorkRow) :=
  filter (fun kw => p (fst kw) (snd kw) = true) (map_to_list t).
Definition some_affected (p : jstr -> SequenceWorkRow -> bool) (t : Table) : bool :=
  (0 <? length (affected p t))%nat.

(** ** Keys *)

Definition refreshWorkKey (deliveryId : jstr) : jstr := js "push:" ++ deliveryId.

Definition spaceWorkKey (k : SequenceWorkKind) (repositoryId : Z) (baseBranch : jstr) (seqEpoch : Z)
    (extra : list json) : jstr :=
  kind_name k ++ js ":" ++ stringify (JArr (JNum repositoryId :: JStr baseBranch :: JNum seqEpoch :: extra)).

(** ** Requests *)

Record EnqueueRefreshInput : Set := mkEnqueue {
  er_deliveryId : jstr; er_repositoryId : Z; er_baseBranch : jstr; er_headSha : jstr;
  er_receivedAt : jstr; er_correlationId : jstr
}.

(** The defaults of the columns. *)
Definition new_work (c : Clocks) (k : SequenceWorkKind) (repositoryId : Z) (baseBranch : jstr)
    (seqEpoch : option Z) (p : json) (available : Z) : SequenceWorkRow :=
  mkWork k repositoryId baseBranch seqEpoch 1 0 p (JObj []) ready available None None 0 None
    (clock_timestamp c) (clock_timestamp c).

Definition enqueueRefreshWork (c : Clocks) (input : EnqueueRefreshInput) (t : Table) : Table * bool :=
  let key := refreshWorkKey (er_deliveryId input) in
  match t !! key with
  | Some _ => (t, false)
  | None =>
    (<[key := new_work c refresh (er_repositoryId input) (er_baseBranch input) None
               (JObj [(js "delivery_id", JStr (er_deliveryId input));
                      (js "received_at", JStr (er_receivedAt input));
                      (js "head_sha", JStr (ascii_lower (er_headSha input)));
                      (js "correlation_id", JStr (er_correlationId input))])
               (now c)]> t, true)
  end.

Record RequestWorkInput : Set := mkRequest {
  rw_kind : SequenceWorkKind; rw_repositoryId : Z; rw_baseBranch : jstr; rw_seqEpoch : Z;
  rw_payload : json; rw_keyExtra : list json; rw_availableAt : option Z
}.
Definition request_key (i : RequestWorkInput) : jstr :=
  spaceWorkKey (rw_kind i) (rw_repositoryId i) (rw_baseBranch i) (rw_seqEpoch i) (rw_keyExtra i).

Definition request_again (c : Clocks) (p : json) (available : Z) (w : SequenceWorkRow) : SequenceWorkRow :=
  let held := bool_decide (state w = leased) in
  mkWork (kind w) (repository_id w) (base_branch w) (seq_epoch w)
    (requested_generation w + 1) (completed_generation w) p (progress w)
    (if held then leased else ready)
    (if held then available_at w else available)
    (lease_until w) (lease_token w)
    (if held then attempt_count w else 0)
    (if held then last_reason w else None)
    (created_at w) (clock_timestamp c).

Definition requestWork (c : Clocks) (input : RequestWorkInput) (t : Table) : Table * SequenceWorkRow :=
  let key := request_key input in
  let available := match rw_availableAt input with Some a => a | None => now c end in
  let row := match t !! key with
             | Some w => request_again c (rw_payload input) available w
             | None => new_work c (rw_kind input) (rw_repositoryId input) (rw_baseBranch input)
                         (Some (rw_seqEpoch input)) (rw_payload input) available
             end in
  (<[key := row]> t, row).

Definition batch_input (i : RequestWorkInput) : RequestWorkInput :=
  mkRequest (rw_kind i) (rw_repositoryId i) (rw_baseBranch i) (rw_seqEpoch i) (rw_payload i)
    (rw_keyExtra i) None.

(** One statement: two inputs of the same key make PostgreSQL refuse it (a row cannot be
    affected twice); [available_at] is not taken from the inputs. *)
Definition requestWorkBatch (c : Clocks) (inputs : list RequestWorkInput) (t : Table)
  : result jstr (Table * Z) :=
  if bool_decide (NoDup (map request_key inputs)) then
    Ok (foldl (fun t i => fst (requestWork c (batch_input i) t)) t inputs,
        Z.of_nat (length inputs))
  else Err (js "ON CONFLICT DO UPDATE command cannot affect row a second time").

(** ** Claims *)

Record ClaimOptions : Set := mkClaim { cl_kinds : list SequenceWorkKind; cl_limit : Z; cl_leaseMs : Z }.

Definition due (c : Clocks) (kinds : list SequenceWorkKind) (w : SequenceWorkRow) : bool :=
  bool_decide (state w ∈ [ready; retry]) && (available_at w <=? now c) && bool_decide (kind w ∈ kinds).

(** [ORDER BY available_at, work_key] *)
Definition claim_le (key_le : jstr -> jstr -> bool) (a b : jstr * SequenceWorkRow) : Prop :=
  available_at (snd a) < available_at (snd b) \/
  (available_at (snd a) = available_at (snd b) ∧ key_le (fst a) (fst b) = true).
#[export] Instance claim_le_dec key_le : RelDecision (claim_le key_le).
Proof. intros a b. unfold claim_le. apply _. Defined.

Definition candidates (key_le : jstr -> jstr -> bool) (locked : jstr -> bool) (c : Clocks)
    (o : ClaimOptions) (t : Table) : list (jstr * SequenceWorkRow) :=
  take (Z.to_nat (cl_limit o))
    (merge_sort (claim_le key_le) (affected (fun k w => due c (cl_kinds o) w && negb (locked k)) t)).

Definition lease_row (c : Clocks) (leaseMs : Z) (token : jstr) (w : SequenceWorkRow) : SequenceWorkRow :=
  mkWork (kind w) (repository_id w) (base_branch w) (seq_epoch w)
    (requested_generation w) (completed_generation w) (payload w) (progress w)
    leased (available_at w) (Some (now c + leaseMs)) (Some token) (attempt_count w + 1)
    (last_reason w) (created_at w) (clock_timestamp c).

Definition claimDueWork (key_le : jstr -> jstr -> bool) (locked : jstr -> bool) (uuid : jstr -> jstr)
    (c : Clocks) (o : ClaimOptions) (t : Table) : Table * list (jstr * SequenceWorkRow) :=
  if bool_decide (cl_kinds o = []) || (cl_limit o <? 1) then (t, [])
  else
    let picked := candidates key_le locked c o t in
    let chosen := fun k (_ : SequenceWorkRow) => bool_decide (k ∈ map fst picked) in
    (update_where chosen (fun k => lease_row c (cl_leaseMs o) (uuid k)) t,
     map (fun kw => (fst kw, lease_row c (cl_leaseMs o) (uuid (fst kw)) (snd kw))) picked).

(** ** What the holder of a lease may do *)

Record LeaseRef : Set := mkLease { workKey : jstr; leaseToken : jstr }.
Definition holds (l : LeaseRef) (k : jstr) (w : SequenceWorkRow) : bool :=
  bool_decide (k = workKey l) && bool_decide (lease_token w = Some (leaseToken l))
  && bool_decide (state w = leased).

Definition complete_row (c : Clocks) (generation : Z) (w : SequenceWorkRow) : SequenceWorkRow :=
  mkWork (kind w) (repository_id w) (base_branch w) (seq_epoch w)
    (requested_generation w) (Z.max (completed_generation w) generation) (payload w) (progress w)
    (if requested_generation w >? generation then ready else finished)
    (now c) None None (attempt_count w) None (created_at w) (clock_timestamp c).

(** The check constraint [completed_generation <= requested_generation] fails the statement
    when the generation was never requested. *)
Definition completeWork (c : Clocks) (lease : LeaseRef) (generation : Z) (t : Table)
  : result jstr (Table * bool) :=
  if existsb (fun kw => requested_generation (snd kw) <? Z.max (completed_generation (snd kw)) generation)
       (affected (holds lease) t)
  then Err (js "sequence_work_generation_chk")
  else Ok (update_where (holds lease) (fun _ => complete_row c generation) t,
           some_affected (holds lease) t).

Inductive ReleaseState : Set := to_retry | to_parked | to_obsolete | to_ready.
Definition release_state (r : ReleaseState) : SequenceWorkState :=
  match r with to_retry => retry | to_parked => parked | to_obsolete => obsolete | to_ready => ready end.
Record ReleaseNext : Set := mkNext {
  nx_state : ReleaseState; nx_availableAt : Z; nx_reason : option jstr; nx_resetAttempts : option bool
}.

Definition release_row (c : Clocks) (next : ReleaseNext) (w : SequenceWorkRow) : SequenceWorkRow :=
  mkWork (kind w) (repository_id w) (base_branch w) (seq_epoch w)
    (requested_generation w) (completed_generation w) (payload w) (progress w)
    (release_state (nx_state next)) (nx_availableAt next) None None
    (match nx_resetAttempts next with Some true => 0 | _ => attempt_count w end)
    (nx_reason next) (created_at w) (clock_timestamp c).
Definition releaseWork (c : Clocks) (lease : LeaseRef) (next : ReleaseNext) (t : Table) : Table * bool :=
  (update_where (holds lease) (fun _ => release_row c next) t, some_affected (holds lease) t).

Definition progress_row (c : Clocks) (p : json) (w : SequenceWorkRow) : SequenceWorkRow :=
  mkWork (kind w) (repository_id w) (base_branch w) (seq_epoch w)
    (requested_generation w) (completed_generation w) (payload w) p
    (state w) (available_at w) (lease_until w) (lease_token w) (attempt_count w)
    (last_reason w) (created_at w) (clock_timestamp c).
Definition updateWorkProgress (c : Clocks) (lease : LeaseRef) (p : json) (t : Table) : Table * bool :=
  (update_where (holds lease) (fun _ => progress_row c p) t, some_affected (holds lease) t).

Definition heartbeat_row (c : Clocks) (leaseMs : Z) (w : SequenceWorkRow) : SequenceWorkRow :=
  mkWork (kind w) (repository_id w) (base_branch w) (seq_epoch w)
    (requested_generation w) (completed_generation w) (payload w) (progress w)
    (state w) (available_at w) (Some (now c + leaseMs)) (lease_token w) (attempt_count w)
    (last_reason w) (created_at w) (clock_timestamp c).
Definition heartbeatWork (c : Clocks) (lease : LeaseRef) (leaseMs : Z) (t : Table) : Table * bool :=
  (update_where (holds lease) (fun _ => heartbeat_row c leaseMs) t, some_affected (holds lease) t).

(** ** Leases of dead workers, covered refreshes, retention *)

Definition expired (c : Clocks) (w : SequenceWorkRow) : bool :=
  bool_decide (state w = leased)
  && match lease_until w with Some u => u <? now c | None => false end.
Definition reclaim_row (c : Clocks) (w : SequenceWorkRow) : SequenceWorkRow :=
  mkWork (kind w) (repository_id w) (base_branch w) (seq_epoch w)
    (requested_generation w) (completed_generation w) (payload w) (progress w)
    retry (now c) None None (attempt_count w) (Some (js "lease_expired"))
    (created_at w) (clock_timestamp c).
Definition reclaimExpiredLeases (c : Clocks) (t : Table) : Table * Z :=
  (update_where (fun _ => expired c) (fun _ => reclaim_row c) t,
   Z.of_nat (length (affected (fun _ => expired c) t))).

Definition open_refresh (token : option jstr) (w : SequenceWorkRow) : bool :=
  bool_decide (kind w = refresh)
  && (bool_decide (state w ∈ [ready; retry])
      || (bool_decide (state w = leased)
          && match token with Some tk => bool_decide (lease_token w = Some tk) | None => false end)).

Definition listCoverableRefreshWorkKeys (key_le : jstr -> jstr -> bool) (repositoryId : Z)
    (baseBranch : jstr) (token : option jstr) (t : Table) : list jstr :=
  map fst (merge_sort (fun a b => Is_true (key_le (fst a) (fst b)))
    (affected (fun _ w => open_refresh token w && (repository_id w =? repositoryId)
                          && jeqb (base_branch w) baseBranch) t)).

Definition cover_row (c : Clocks) (w : SequenceWorkRow) : SequenceWorkRow :=
  mkWork (kind w) (repository_id w) (base_branch w) (seq_epoch w)
    (requested_generation w) (requested_generation w) (payload w) (progress w)
    finished (available_at w) None None (attempt_count w) (Some (js "covered"))
    (created_at w) (clock_timestamp c).
Definition completeCoveredRefreshWorks (c : Clocks) (keys : list jstr) (token : option jstr) (t : Table)
  : Table * list (jstr * json) :=
  let p := fun k w => bool_decide (k ∈ keys) && open_refresh token w in
  (update_where p (fun _ => cover_row c) t,
   map (fun kw => (fst kw, payload (snd kw))) (affected p t)).

Definition scope_of (p : json) : option json :=
  match p with JObj fs => assoc (js "scope") fs | _ => None end.
(** [payload ->> 'scope' = 'doc'] *)
Definition doc_scope (p : json) : bool :=
  match scope_of p with Some (JStr s) => jeqb s (js "doc") | _ => false end.

Definition countPendingProjectDocWork (repositoryId : Z) (baseBranch : jstr) (epoch : Z) (t : Table) : Z * Z :=
  let rows := map snd (affected (fun _ w =>
    bool_decide (kind w = project) && (repository_id w =? repositoryId) && jeqb (base_branch w) baseBranch
    && bool_decide (seq_epoch w = Some epoch) && doc_scope (payload w)) t) in
  (Z.of_nat (length (filter (fun w => state w ∈ [ready; retry; leased]) rows)),
   Z.of_nat (length (filter (fun w => state w = parked) rows))).

(** [ORDER BY updated_at LIMIT]: which of the rows of one instant are deleted is the
    server's choice, made by [merge_sort] here. *)
Definition removable (olderThan : Z) (w : SequenceWorkRow) : bool :=
  bool_decide (state w = finished) && (updated_at w <? olderThan)
  && (bool_decide (kind w ∈ [refresh; announce]) || (bool_decide (kind w = project) && doc_scope (payload w))).
Definition older (a b : jstr * SequenceWorkRow) : Prop := updated_at (snd a) <= updated_at (snd b).
#[export] Instance older_dec : RelDecision older.
Proof. intros a b. unfold older. apply _. Defined.
Definition cleanupDoneWork (olderThan limit : Z) (t : Table) : Table * Z :=
  let gone := take (Z.to_nat limit) (merge_sort older (affected (fun _ => removable olderThan) t)) in
  (filter (fun kw => fst kw ∉ map fst gone) t, Z.of_nat (length gone)).

(** A worker that loses its lease, and a request that arrives while the row is leased. *)
Definition t0 : Table := ∅.
Definition at_ (n : Z) : Clocks := mkClocks n n.
Definition first_key (a b : jstr) : bool := true.
Definition request (scope : string) : RequestWorkInput :=
  mkRequest project 7 (js "main") 1 (JObj [(js "scope", JStr (js scope))]) [] None.
Definition k0 : jstr := request_key (request "tail").
Definition t1 : Table := fst (requestWork (at_ 10) (request "tail") t0).
Definition t2 : Table :=
  fst (claimDueWork first_key (fun _ => false) (fun _ => js "a") (at_ 20)
         (mkClaim [project] 8 60) t1).
Definition t3 : Table := fst (requestWork (at_ 30) (request "tail") t2).

Example claimed_ex : state <$> (t2 !! k0) = Some leased. Proof. vm_compute. reflexivity. Qed.
Example again_ex : (fun w => (state w, requested_generation w)) <$> (t3 !! k0) = Some (leased, 2).
Proof. vm_compute. reflexivity. Qed.
Example complete_ex :
  match completeWork (at_ 40) (mkLease k0 (js "a")) 1 t3 with
  | Ok (t, ok) => (ok, (fun w => (state w, completed_generation w)) <$> (t !! k0)) = (true, Some (ready, 1))
  | Err _ => False
  end.
Proof. vm_compute. reflexivity. Qed.

(** ** Statements as changes of single rows *)

Lemma lookup_update_where (p : jstr -> SequenceWorkRow -> bool) (f : jstr -> SequenceWorkRow -> SequenceWorkRow)
    (t : Table) (k : jstr) :
  update_where p f t !! k = (fun w => if p k w then f k w else w) <$> t !! k.
Proof. unfold update_where. rewrite map_lookup_imap. by destruct (t !! k). Qed.

Lemma elem_affected (p : jstr -> SequenceWorkRow -> bool) (t : Table) (k : jstr) w : (k, w) ∈ affected p t <-> t !! k = Some w ∧ p k w = true.
Proof. unfold affected. rewrite list_elem_of_filter, elem_of_map_to_list. cbn. tauto. Qed.
Lemma affected_NoDup p t : NoDup (map fst (affected p t)).
Proof.
  unfold affected. generalize (NoDup_fst_map_to_list t). generalize (map_to_list t).
  intros l. induction l as [|kw l IH]; intros H; [constructor|].
  change (map fst (kw :: l)) with (fst kw :: map fst l) in H.
  apply NoDup_cons in H as [Hn H]. rewrite filter_cons. destruct (decide _); [|by apply IH].
  cbn [map]. constructor; [|by apply IH]. intros Hin. apply Hn.
  apply list_elem_of_fmap in Hin as (x & -> & [_ Hx]%list_elem_of_filter). by apply list_elem_of_fmap_2.
Qed.

(** What the interleavings of a set of steps are about: the tokens that claims may issue. *)
Section Steps.
Context (fresh : jstr -> Prop).

(** What one statement can do to the row of a key: [None] is no row. *)
Inductive change : option SequenceWorkRow -> option SequenceWorkRow -> Prop :=
| ch_same o : change o o
| ch_new c kd r b e p a : (kd = refresh \/ e <> None) -> change None (Some (new_work c kd r b e p a))
| ch_request c p a w : change (Some w) (Some (request_again c p a w))
| ch_claim c ms tok w :
    fresh tok -> state w = ready \/ state w = retry -> available_at w <= now c ->
    change (Some w) (Some (lease_row c ms tok w))
| ch_complete c g w :
    state w = leased -> Z.max (completed_generation w) g <= requested_generation w ->
    change (Some w) (Some (complete_row c g w))
| ch_release c n w : state w = leased -> change (Some w) (Some (release_row c n w))
| ch_progress c p w : state w = leased -> change (Some w) (Some (progress_row c p w))
| ch_heartbeat c ms w : state w = leased -> change (Some w) (Some (heartbeat_row c ms w))
| ch_reclaim c w : state w = leased -> change (Some w) (Some (reclaim_row c w))
| ch_cover c w : kind w = refresh -> change (Some w) (Some (cover_row c w))
| ch_remove w : state w = finished -> change (Some w) None.

(** Any worker may run any statement at any time. *)
Inductive step : Table -> Table -> Prop :=
| st_enqueue c i t : step t (fst (enqueueRefreshWork c i t))
| st_request c i t : step t (fst (requestWork c i t))
| st_batch c l t t' n : requestWorkBatch c l t = Ok (t', n) -> step t t'
| st_claim key_le locked uuid c o t : (forall k, fresh (uuid k)) -> step t (fst (claimDueWork key_le locked uuid c o t))
| st_complete c l g t t' b : completeWork c l g t = Ok (t', b) -> step t t'
| st_release c l n t : step t (fst (releaseWork c l n t))
| st_progress c l p t : step t (fst (updateWorkProgress c l p t))
| st_heartbeat c l ms t : step t (fst (heartbeatWork c l ms t))
| st_reclaim c t : step t (fst (reclaimExpiredLeases c t))
| st_cover c keys tok t : step t (fst (completeCoveredRefreshWorks c keys tok t))
| st_cleanup olderThan limit t : step t (fst (cleanupDoneWork olderThan limit t)).

Lemma update_change (p : jstr -> SequenceWorkRow -> bool) (f : jstr -> SequenceWorkRow -> SequenceWorkRow)
    (t : Table) (k : jstr) :
  (forall w, p k w = true -> change (Some w) (Some (f k w))) ->
  change (t !! k) (update_where p f t !! k).
Proof.
  intros H. rewrite lookup_update_where. destruct (t !! k) as [w|]; cbn; [|constructor].
  destruct (p k w) eqn:E; [by apply H|constructor].
Qed.

Lemma request_change c i t k : change (t !! k) (fst (requestWork c i t) !! k).
Proof.
  unfold requestWork. cbn [fst]. destruct (decide (request_key i = k)) as [<-|Hne].
  - rewrite lookup_insert_eq. destruct (t !! request_key i); constructor. by right.
  - rewrite lookup_insert_ne by done. constructor.
Qed.

Lemma holds_leased l k w : holds l k w = true -> k = workKey l ∧ lease_token w = Some (leaseToken l) ∧ state w = leased.
Proof.
  unfold holds. intros [[H1 H2]%andb_prop H3]%andb_prop.
  apply bool_decide_eq_true in H1, H2, H3. done.
Qed.

Lemma candidates_spec key_le locked c o t k w :
  (k, w) ∈ candidates key_le locked c o t -> t !! k = Some w ∧ due c (cl_kinds o) w = true ∧ locked k = false.
Proof.
  unfold candidates. intros H%elem_of_take. destruct H as (i & H & _).
  apply list_elem_of_lookup_2 in H. rewrite merge_sort_Permutation in H.
  apply elem_affected in H as [H [H1 H2]%andb_prop]. by apply negb_true_iff in H2.
Qed.

Lemma due_spec c kinds w : due c kinds w = true <->
  (state w = ready \/ state w = retry) ∧ available_at w <= now c ∧ kind w ∈ kinds.
Proof.
  unfold due. rewrite !andb_true_iff, !bool_decide_eq_true, Z.leb_le, !elem_of_cons, elem_of_nil. tauto.
Qed.

Lemma claim_change key_le locked uuid c o t k :
  (forall k, fresh (uuid k)) -> change (t !! k) (fst (claimDueWork key_le locked uuid c o t) !! k).
Proof.
  intros Hf. unfold claimDueWork. destruct (_ || _); [constructor|]. cbn [fst].
  rewrite lookup_update_where. destruct (t !! k) as [w|] eqn:Hk; cbn; [|constructor].
  case_bool_decide as Hin; [|constructor].
  apply list_elem_of_fmap in Hin as ([k' w'] & -> & Hin).
  apply candidates_spec in Hin as (Hk' & (Hs & Ha & _)%due_spec & _). cbn in Hk.
  rewrite Hk in Hk'. injection Hk' as ->. by constructor.
Qed.

Lemma complete_change c l g t t' b k : completeWork c l g t = Ok (t', b) -> change (t !! k) (t' !! k).
Proof.
  unfold completeWork. destruct (existsb _ _) eqn:E; [discriminate|]. intros [= <- <-].
  rewrite lookup_update_where. destruct (t !! k) as [w|] eqn:Hk; cbn; [|constructor].
  destruct (holds l k w) eqn:Hh; [|constructor].
  assert (requested_generation w <? Z.max (completed_generation w) g = false) as Hg.
  { rewrite <- not_true_iff_false. intros Hg. rewrite <- not_true_iff_false in E. apply E.
    apply existsb_elem. exists (k, w). by rewrite elem_affected. }
  apply holds_leased in Hh as (_ & _ & Hs). constructor; [done|]. lia.
Qed.

Lemma cleanup_change olderThan limit t k : change (t !! k) (fst (cleanupDoneWork olderThan limit t) !! k).
Proof.
  unfold cleanupDoneWork. cbn [fst]. rewrite map_lookup_filter.
  destruct (t !! k) as [w|] eqn:Hk; cbn; [|constructor].
  case_guard as Hin; cbn; [constructor|]. apply ch_remove.
  destruct (decide (state w = finished)) as [|Hs]; [done|]. exfalso.
  apply list_elem_of_fmap in Hin as ([k' w'] & -> & Hg). cbn in *.
  apply elem_of_take in Hg as (i & Hg & _). apply list_elem_of_lookup_2 in Hg.
  rewrite merge_sort_Permutation in Hg. apply elem_affected in Hg as [Hk' Hr].
  rewrite Hk in Hk'. injection Hk' as ->. unfold removable in Hr.
  apply andb_prop in Hr as [[Hr _]%andb_prop _]. by apply bool_decide_eq_true in Hr.
Qed.

Lemma open_refresh_kind tok w : open_refresh tok w = true -> kind w = refresh.
Proof. unfold open_refresh. intros [H _]%andb_prop. by apply bool_decide_eq_true in H. Qed.

(** A statement does to a row one of the listed things; a batch may do several. *)
Lemma step_changes t t' k : step t t' -> rtc change (t !! k) (t' !! k).
Proof.
  destruct 1 as [c i t|c i t|c l t t' n H|key_le locked uuid c o t Hf|c l g t t' b H|c l n t|c l p t
    |c l ms t|c t|c keys tok t|olderThan limit t].
  - apply rtc_once. unfold enqueueRefreshWork. destruct (t !! refreshWorkKey _) eqn:E; [constructor|].
    cbn [fst]. destruct (decide (refreshWorkKey (er_deliveryId i) = k)) as [<-|Hne].
    + rewrite lookup_insert_eq, E. constructor. by left.
    + rewrite lookup_insert_ne by done. constructor.
  - apply rtc_once, request_change.
  - unfold requestWorkBatch in H. case_bool_decide; [|discriminate]. injection H as <- _.
    clear H0. revert t. induction l as [|i l IH]; intros t; [apply rtc_refl|].
    cbn [foldl]. refine (rtc_l _ _ _ _ (request_change c (batch_input i) t k) (IH _)).
  - by apply rtc_once, claim_change.
  - eapply rtc_once, complete_change, H.
  - apply rtc_once, update_change. intros w (_ & _ & Hs)%holds_leased. by constructor.
  - apply rtc_once, update_change. intros w (_ & _ & Hs)%holds_leased. by constructor.
  - apply rtc_once, update_change. intros w (_ & _ & Hs)%holds_leased. by constructor.
  - apply rtc_once, update_change. intros w [Hs _]%andb_prop. apply bool_decide_eq_true in Hs. by constructor.
  - apply rtc_once, update_change. intros w [_ Hk%open_refresh_kind]%andb_prop. by constructor.
  - apply rtc_once, cleanup_change.
Qed.

Lemma steps_changes t t' k : rtc step t t' -> rtc change (t !! k) (t' !! k).
Proof.
  induction 1 as [|t t1 t2 H _ IH]; [apply rtc_refl|].
  transitivity (t1 !! k); [by apply step_changes|done].
Qed.

End Steps.

(** Every interleaving. *)
Abbreviation any := (fun _ : jstr => True).

(** ** The invariant of a row *)

(** The check constraints of the table, and that a row is finished only when everything
    that was requested has been done. *)
Definition row_ok (w : SequenceWorkRow) : Prop :=
  (state w = leased <-> is_Some (lease_token w)) ∧
  (is_Some (lease_token w) <-> is_Some (lease_until w)) ∧
  1 <= requested_generation w ∧ 0 <= completed_generation w <= requested_generation w ∧
  (state w = finished -> completed_generation w = requested_generation w) ∧
  0 <= attempt_count w ∧ (kind w = refresh \/ seq_epoch w <> None).
Definition opt_ok (o : option SequenceWorkRow) : Prop := match o with Some w => row_ok w | None => True end.

Lemma change_ok fresh o o' : change fresh o o' -> opt_ok o -> opt_ok o'.
Proof.
  unfold opt_ok, row_ok. destruct 1; cbn; try tauto; rewrite ?is_Some_alt.
  - intros _. split_and!; try done; try lia.
  - intros (B1 & B2 & B3 & B4 & B5 & B6 & B7). destruct (bool_decide_reflect (state w = leased)) as [E|E].
    + split_and!; try tauto; try lia; try done.
    + split_and!; try tauto; try lia; try done. split; [done|]. intros H. by apply B1 in H.
  - intros (B1 & B2 & B3 & B4 & B5 & B6 & B7). split_and!; try done; try lia.
  - intros (B1 & B2 & B3 & B4 & B5 & B6 & B7).
    destruct (Z.gtb_spec (requested_generation w) g); split_and!; try done; try lia.
  - intros (B1 & B2 & B3 & B4 & B5 & B6 & B7).
    destruct (nx_state n), (nx_resetAttempts n) as [[]|]; cbn; split_and!; try done; try lia.
  - intros (B1 & B2 & B3 & B4 & B5 & B6 & B7). rewrite H in *. split_and!; try done; try lia.
    + split; [by intros|]. intros _. by apply B1.
  - intros (B1 & B2 & B3 & B4 & B5 & B6 & B7). split_and!; try done; try lia.
  - intros (B1 & B2 & B3 & B4 & B5 & B6 & B7). split_and!; try done; try lia.
Qed.
Lemma changes_ok fresh o o' : rtc (change fresh) o o' -> opt_ok o -> opt_ok o'.
Proof. induction 1; eauto using change_ok. Qed.

(** Whatever the workers do, in any order, every row keeps its constraints: a lease has a
    token and an expiry exactly while the row is leased, nothing is completed that was not
    requested, and a finished row has nothing left to do. *)
Theorem work_rows_ok t : rtc (step any) ∅ t -> map_Forall (fun _ w => row_ok w) t.
Proof.
  intros H k w Hk. pose proof (steps_changes _ _ _ k H) as Hc. rewrite lookup_empty, Hk in Hc.
  by apply changes_ok in Hc.
Qed.

(** ** Leases *)

Lemma affected_none (p : jstr -> SequenceWorkRow -> bool) (t : Table) :
  (forall k w, t !! k = Some w -> p k w = false) -> affected p t = [].
Proof.
  intros H. destruct (affected p t) as [|[k w] l] eqn:E; [done|].
  assert ((k, w) ∈ affected p t) as Hin by (rewrite E; by left).
  apply elem_affected in Hin as [Hk Hp]. by rewrite (H k w Hk) in Hp.
Qed.
Lemma update_none (p : jstr -> SequenceWorkRow -> bool) (f : jstr -> SequenceWorkRow -> SequenceWorkRow)
    (t : Table) :
  (forall k w, t !! k = Some w -> p k w = false) -> update_where p f t = t.
Proof.
  intros H. apply map_eq. intros k. rewrite lookup_update_where.
  destruct (t !! k) as [w|] eqn:E; [|done]. cbn. by rewrite (H k w E).
Qed.

(** The token is not the one of the row: the row is not leased, or to another holder. *)
Definition lost (l : LeaseRef) (o : option SequenceWorkRow) : Prop :=
  match o with Some w => lease_token w <> Some (leaseToken l) | None => True end.

Lemma lost_holds (l : LeaseRef) (t : Table) : lost l (t !! workKey l) -> forall k w, t !! k = Some w -> holds l k w = false.
Proof.
  intros H k w Hk. apply not_true_iff_false. intros (-> & Ht & _)%holds_leased.
  rewrite Hk in H. by apply H in Ht.
Qed.

Lemma change_lost l o o' : change (fun tok => tok <> leaseToken l) o o' -> lost l o -> lost l o'.
Proof. destruct 1; cbn; try done; congruence. Qed.

(** [C8] Once a lease is lost it stays lost: after any statements of any workers that do not
    issue its token again, the statements of its holder still change nothing. *)
Theorem lost_lease_is_dead (l : LeaseRef) (t t' : Table) c g n p ms :
  lost l (t !! workKey l) -> rtc (step (fun tok => tok <> leaseToken l)) t t' ->
  completeWork c l g t' = Ok (t', false) ∧ releaseWork c l n t' = (t', false) ∧
  updateWorkProgress c l p t' = (t', false) ∧ heartbeatWork c l ms t' = (t', false).
Proof.
  intros H Hs. assert (lost l (t' !! workKey l)) as H'.
  { pose proof (steps_changes _ _ _ (workKey l) Hs) as Hc. revert H.
    induction Hc; eauto using change_lost. }
  pose proof (lost_holds _ _ H') as Hh.
  unfold completeWork, releaseWork, updateWorkProgress, heartbeatWork, some_affected.
  rewrite !affected_none by done. cbn [existsb length Nat.ltb Nat.leb]. by rewrite !update_none.
Qed.

(** ** Requests are not lost *)

Definition pending_at (g : Z) (o : option SequenceWorkRow) : Prop :=
  match o with Some w => g <= requested_generation w | None => False end.
Definition served_at (g : Z) (o : option SequenceWorkRow) : Prop :=
  match o with Some w => g <= completed_generation w | None => False end.

Lemma change_pending g o o' :
  opt_ok o -> change any o o' -> pending_at g o -> pending_at g o' \/ served_at g o.
Proof.
  unfold opt_ok, row_ok. intros Hok. destruct 1; cbn; try tauto; try (left; lia).
  intros Hp. right. destruct Hok as (_ & _ & _ & _ & H5 & _). rewrite H5 by done. done.
Qed.


(** ** Claims *)

Lemma candidates_first (key_le : jstr -> jstr -> bool) (locked : jstr -> bool) (c : Clocks) (o : ClaimOptions) (t : Table) (k : jstr) w (k1 : jstr) w1 :
  (forall a b, key_le a b = true \/ key_le b a = true) ->
  (forall a b d, key_le a b = true -> key_le b d = true -> key_le a d = true) ->
  t !! k = Some w -> due c (cl_kinds o) w = true -> locked k = false ->
  (k, w) ∉ candidates key_le locked c o t -> (k1, w1) ∈ candidates key_le locked c o t ->
  claim_le key_le (k1, w1) (k, w).
Proof.
  intros Htot Htrans Hk Hd Hl Hn H1. unfold candidates in *.
  assert (Total (claim_le key_le)).
  { intros a b. unfold claim_le. destruct (Z.lt_trichotomy (available_at (snd a)) (available_at (snd b))) as [?|[?|?]]; [tauto| |right; left; lia].
    destruct (Htot (fst a) (fst b)); [left|right]; right; by split. }
  assert (Transitive (claim_le key_le)).
  { intros a b d. unfold claim_le. intros [?|[? ?]] [?|[? ?]]; [left; lia..|].
    right. split; [lia|]. by eapply Htrans. }
  eapply sorted_take_le; [done..|exact H1| |exact Hn]. apply elem_affected. split; [done|]. by rewrite Hd, Hl.
Qed.

(** A claim takes at most [limit] rows that were due, of the kinds asked for and not locked,
    gives each the token the server chose and counts the attempt; it returns the rows as
    they now are; it leaves out only rows that come no earlier than those it took; and a
    second claim by another worker, whatever it asks for, gets none of them. *)
Theorem claim_spec (key_le : jstr -> jstr -> bool) (locked : jstr -> bool) (uuid : jstr -> jstr) (c : Clocks) (o : ClaimOptions) (t t1 : Table) rows :
  (forall a b, key_le a b = true \/ key_le b a = true) ->
  (forall a b d, key_le a b = true -> key_le b d = true -> key_le a d = true) ->
  claimDueWork key_le locked uuid c o t = (t1, rows) ->
  Z.of_nat (length rows) <= Z.max 0 (cl_limit o) ∧ NoDup (map fst rows) ∧
  (forall k w1, (k, w1) ∈ rows ->
     t1 !! k = Some w1 ∧ locked k = false ∧ lease_token w1 = Some (uuid k) ∧
     ∃ w, t !! k = Some w ∧ due c (cl_kinds o) w = true ∧ w1 = lease_row c (cl_leaseMs o) (uuid k) w) ∧
  (forall k, k ∉ map fst rows -> t1 !! k = t !! k) ∧
  (rows <> [] -> forall k w k1 w1, t !! k = Some w -> due c (cl_kinds o) w = true -> locked k = false ->
     k ∉ map fst rows -> k1 ∈ map fst rows -> t !! k1 = Some w1 -> claim_le key_le (k1, w1) (k, w)) ∧
  (forall locked' uuid' c' o' rows' t2, claimDueWork key_le locked' uuid' c' o' t1 = (t2, rows') ->
     forall k, k ∈ map fst rows -> k ∉ map fst rows').
Proof.
  intros Htot Htrans. unfold claimDueWork at 1. destruct (_ || _) eqn:E.
  { intros [= <- <-]. split_and!; cbn; try (intros; lia); try done; try apply NoDup_nil_2.
    - intros ? ? H. by apply elem_of_nil in H.
    - intros ? ? ? ? ? ? ? ? H. by apply elem_of_nil in H. }
  intros [= <- <-]. set (picked := candidates key_le locked c o t).
  assert (map fst (map (fun kw => (fst kw, lease_row c (cl_leaseMs o) (uuid (fst kw)) (snd kw))) picked)
    = map fst picked) as Hfst by (rewrite map_map; done).
  assert (forall k w, (k, w) ∈ picked -> t !! k = Some w ∧ due c (cl_kinds o) w = true ∧ locked k = false)
    as Hpick by (intros; by apply (candidates_spec key_le)).
  assert (forall k, k ∈ map fst picked -> ∃ w, (k, w) ∈ picked) as Hin.
  { intros k H. apply list_elem_of_fmap in H as ([k' w] & -> & H). by exists w. }
  assert (forall k w, (k, w) ∈ picked ->
    update_where (fun k _ => bool_decide (k ∈ map fst picked)) (fun k => lease_row c (cl_leaseMs o) (uuid k)) t !! k
    = Some (lease_row c (cl_leaseMs o) (uuid k) w)) as Hup.
  { intros k w H. rewrite lookup_update_where, (proj1 (Hpick k w H)). cbn.
    rewrite bool_decide_eq_true_2; [done|]. by apply (list_elem_of_fmap_2 fst _ (k, w)). }
  rewrite Hfst. split_and!.
  - rewrite length_map. unfold picked, candidates. rewrite length_take. lia.
  - unfold picked, candidates. rewrite <- firstn_map.
    assert (NoDup (map fst (merge_sort (claim_le key_le)
      (affected (fun k w => due c (cl_kinds o) w && negb (locked k)) t)))) as Hnd.
    { eapply NoDup_Permutation_proper; [apply fmap_Permutation, merge_sort_Permutation|apply affected_NoDup]. }
    rewrite <- (take_drop (Z.to_nat (cl_limit o)) (map fst _)) in Hnd. by apply NoDup_app in Hnd as [Hnd _].
  - intros k w1 H. apply list_elem_of_fmap in H as ([k' w] & Heq & H). cbn [fst snd] in Heq. injection Heq as -> ->.
    destruct (Hpick _ _ H) as (H1 & H2 & H3). split_and!; auto. by exists w.
  - intros k H. rewrite lookup_update_where. destruct (t !! k); [|done]. cbn.
    by rewrite bool_decide_eq_false_2.
  - intros _ k w k1 w1 Hk Hd Hlk Hnot [w1' H1]%Hin Hk1.
    destruct (Hpick _ _ H1) as (H1' & _). rewrite Hk1 in H1'. injection H1' as <-.
    apply (candidates_first key_le locked c o t); try done.
    intros H. apply Hnot. by apply (list_elem_of_fmap_2 fst _ (k, w)).
  - intros locked' uuid' c' o' rows' t2. unfold claimDueWork.
    destruct (bool_decide (cl_kinds o' = []) || (cl_limit o' <? 1)).
    { intros Heq k _. assert (rows' = []) as -> by congruence. apply not_elem_of_nil. }
    intros Heq k [w H]%Hin Hk'. apply (f_equal snd) in Heq. cbn [snd] in Heq. subst rows'. rewrite map_map in Hk'. cbn [fst] in Hk'.
    apply list_elem_of_fmap in Hk' as ([k' w'] & -> & Hk'). apply candidates_spec in Hk' as (Hl & Hd & _).
    cbn [fst] in H. rewrite (Hup _ _ H) in Hl. injection Hl as <-. by apply due_spec in Hd as [[?|?] _].
Qed.
Lemma claim_spec_witness :
  claimDueWork first_key (fun _ => false) (fun _ => js "a") (at_ 20) (mkClaim [project] 8 60) t1
  = (t2, snd (claimDueWork first_key (fun _ => false) (fun _ => js "a") (at_ 20) (mkClaim [project] 8 60) t1)) ∧
  t2 !! js "other" = t1 !! js "other".
Proof.
  assert (claimDueWork first_key (fun _ => false) (fun _ => js "a") (at_ 20) (mkClaim [project] 8 60) t1
    = (t2, snd (claimDueWork first_key (fun _ => false) (fun _ => js "a") (at_ 20) (mkClaim [project] 8 60) t1)))
    as H by (vm_compute; reflexivity).
  split; [exact H|].
  refine (proj1 (proj2 (proj2 (proj2 (claim_spec first_key _ _ _ _ _ _ _
    (fun _ _ => or_introl eq_refl) (fun _ _ _ _ _ => eq_refl) H)))) (js "other") _).
  vm_compute. intros Hin. inversion Hin as [|? ? ? Hin2]. inversion Hin2.
Defined.

Lemma t2_steps : rtc (step any) ∅ t2.
Proof.
  eapply rtc_l; [apply (st_request _ (at_ 10) (request "tail"))|].
  eapply rtc_once. by apply (st_claim any first_key (fun _ => false) (fun _ => js "a") (at_ 20)
    (mkClaim [project] 8 60) t1).
Qed.
Lemma work_rows_ok_witness : rtc (step any) ∅ t2 ∧ map_Forall (fun _ w => row_ok w) t2.
Proof. exact (conj t2_steps (work_rows_ok t2 t2_steps)). Defined.

(** The lease of [a] expires and is reclaimed; [a] acknowledges late. *)
Definition t4 : Table := fst (reclaimExpiredLeases (at_ 100) t2).
Lemma t4_lost : lost (mkLease k0 (js "a")) (t4 !! k0).
Proof. vm_compute. discriminate. Qed.
Lemma lost_lease_is_dead_witness :
  lost (mkLease k0 (js "a")) (t4 !! k0) ∧
  completeWork (at_ 120) (mkLease k0 (js "a")) 1
    (fst (claimDueWork first_key (fun _ => false) (fun _ => js "b") (at_ 110) (mkClaim [project] 8 60) t4))
  = Ok (fst (claimDueWork first_key (fun _ => false) (fun _ => js "b") (at_ 110) (mkClaim [project] 8 60) t4),
        false).
Proof.
  split; [exact t4_lost|].
  refine (proj1 (lost_lease_is_dead (mkLease k0 (js "a")) t4 _ (at_ 120) 1
    (mkNext to_ready 0 None None) JNull 0 t4_lost _)).
  apply rtc_once, st_claim. intros _. discriminate.
Defined.


(** ** Keys *)

Lemma kind_name_colon k : 58%N ∉ kind_name k.
Proof. destruct k; vm_compute; intros H; repeat (apply elem_of_cons in H as [H|H]; [discriminate|]); by apply elem_of_nil in H. Qed.

(** A key names one piece of work: the kind, the space, the epoch and what narrows it, also
    for branches with colons in their names; and no space's work has the key of a push. *)
Theorem spaceWorkKey_inj k r b e x k' r' b' e' x' d :
  forallb flat x = true -> forallb flat x' = true ->
  spaceWorkKey k r b e x = spaceWorkKey k' r' b' e' x' ->
  k = k' ∧ r = r' ∧ b = b' ∧ e = e' ∧ x = x' ∧ spaceWorkKey k r b e x <> refreshWorkKey d.
Proof.
  unfold spaceWorkKey, refreshWorkKey. change (js ":") with [58%N]. change (js "push:") with (js "push" ++ [58%N]).
  intros Hx Hx' H. apply app_sep_inj in H as [Hk H]; [|apply kind_name_colon..].
  apply stringify_flat_inj in H; [|by cbn..].
  assert (k = k') as <- by (destruct k, k'; try done; vm_compute in Hk; discriminate).
  injection H as -> -> -> ->. split_and!; try done. rewrite <- app_assoc. cbn [app].
  intros Hc. apply app_sep_inj in Hc as [Hc _]; [|apply kind_name_colon|].
  2:{ vm_compute; intros Hn; repeat (apply elem_of_cons in Hn as [Hn|Hn]; [discriminate|]); by apply elem_of_nil in Hn. }
  by destruct k; vm_compute in Hc.
Qed.
Lemma spaceWorkKey_inj_witness :
  spaceWorkKey project 7 (js "release:v1") 1 [JStr (js "full")]
  <> refreshWorkKey (js "release:v1").
Proof.
  refine (proj2 (proj2 (proj2 (proj2 (proj2 (spaceWorkKey_inj project 7 (js "release:v1") 1
    [JStr (js "full")] project 7 (js "release:v1") 1 [JStr (js "full")] (js "release:v1")
    eq_refl eq_refl eq_refl)))))).
Defined.

End Work.
