(* ===== verification/SequenceStore.v ===== *)
(** * The tables of the merge sequence

    [merge_sequence], [sequence_space], [commit_link_state] and the repository functions
    over them that the worker's transactions call:
    [packages/db/src/repositories/merge-sequence.ts], [sequence-space.ts], [integrity.ts]
    and [requeueChainChangedCommitLinks] of [pr-commit-link.ts].  A table is a map from its
    primary key; a statement is a function of the database and returns [Err] where the
    repository function throws or a constraint of the migrations (002, 025) fails.
    PostgreSQL is not code of the repository: what is written here of it is the SQL of the
    statements.  The columns of annotations, tags and times of assignment are left out. *)

From stdpp Require Import base list option strings numbers gmap sets sorting.
From Stdlib Require Import ZArith Lia.
From S2P Require Import Prelude JsString Json SequenceSpace Integrity SequenceWork.
Open Scope Z_scope.

(** ** Tables *)

Inductive SequenceSpaceState : Set := ss_ok | ss_stale | ss_reassigning | ss_unknown.
#[export] Instance space_state_eq_dec : EqDecision SequenceSpaceState.
Proof. solve_decision. Defined.

Record MergeSequenceRow : Set := mkSeqRow {
  commit_sha : jstr; pull_request_number : option Z; committed_at : jstr; merge_number : option Z
}.
#[export] Instance seq_row_eq_dec : EqDecision MergeSequenceRow.
Proof. solve_decision. Defined.

Record MergeSequenceInsert : Set := mkInsert {
  in_repository_id : Z; in_base_branch : jstr; in_seq_epoch : Z; in_merge_seq : Z;
  in_commit_sha : jstr; in_pull_request_number : option Z; in_committed_at : jstr
}.

(** A blocked place: its number, the reason and since when. *)
Record SequenceSpaceRow : Set := mkSpace {
  seq_epoch : Z; head_sha : option jstr; head_seq : Z; space_state : SequenceSpaceState;
  last_error : option jstr; mnumber_head_seq : Z; mnumber_head : Z;
  mnumber_blocked : option (Z * jstr * Z)
}.
Definition default_space : SequenceSpaceRow := mkSpace 1 None 0 ss_ok None 0 0 None.

Record CommitLinkState : Set := mkLinkState {
  generation : Z; projected_generation : Z; link_leased : bool; link_available_at : Z;
  link_attempt_count : Z
}.

(** The key of a row is its space, its epoch and its number. *)
Abbreviation Space := (Z * jstr)%type.
Abbreviation SeqKey := (Space * Z * Z)%type.

Record Db : Type := mkDb {
  merge_sequence : gmap SeqKey MergeSequenceRow;
  sequence_space : gmap Space SequenceSpaceRow;
  sequence_work : gmap jstr Work.SequenceWorkRow;
  commit_link_state : gmap (Z * jstr) CommitLinkState;
  (** The commits of [pull_request_commit_link] with source evidence. *)
  source_links : gset (Z * jstr)
}.

Definition set_rows (m : gmap SeqKey MergeSequenceRow) (db : Db) : Db :=
  mkDb m (sequence_space db) (sequence_work db) (commit_link_state db) (source_links db).
Definition set_spaces (m : gmap Space SequenceSpaceRow) (db : Db) : Db :=
  mkDb (merge_sequence db) m (sequence_work db) (commit_link_state db) (source_links db).
Definition set_work (m : gmap jstr Work.SequenceWorkRow) (db : Db) : Db :=
  mkDb (merge_sequence db) (sequence_space db) m (commit_link_state db) (source_links db).
Definition set_links (m : gmap (Z * jstr) CommitLinkState) (db : Db) : Db :=
  mkDb (merge_sequence db) (sequence_space db) (sequence_work db) m (source_links db).

(** What a call throws: a [CommitGraphError] of the mirror or the API, or anything else. *)
Inductive Thrown : Set := GraphError (kind message : jstr) | OtherError (message : jstr).

(** ** merge-sequence.ts *)

(** The rows of a space and epoch, in the order of their numbers. *)
Definition by_number (a b : Z * MergeSequenceRow) : Prop := fst a <= fst b.
#[export] Instance by_number_dec : RelDecision by_number.
Proof. intros a b. unfold by_number. apply _. Defined.
Definition rows_of (space : Space) (epoch : Z) (db : Db) : list (Z * MergeSequenceRow) :=
  merge_sort by_number
    (omap (fun kr : SeqKey * MergeSequenceRow =>
             if bool_decide (fst (fst kr) = (space, epoch)) then Some (snd (fst kr), snd kr) else None)
       (map_to_list (merge_sequence db))).

(** The unique index [merge_sequence_commit_uk]. *)
Definition commit_taken (space : Space) (epoch : Z) (sha : jstr) (db : Db) : bool :=
  existsb (fun r => jeqb (commit_sha (snd r)) sha) (rows_of space epoch db).
Definition unique_violation : Thrown :=
  OtherError (js "duplicate key value violates unique constraint merge_sequence_commit_uk").

Definition different_commit (e : MergeSequenceInsert) : Thrown :=
  OtherError (js "시퀀스 " ++ js_of_Z (in_merge_seq e) ++ js "에 다른 커밋이 이미 있다: "
    ++ js_of_Z (in_repository_id e) ++ js "/" ++ in_base_branch e ++ js "@"
    ++ js_of_Z (in_seq_epoch e) ++ js " != " ++ in_commit_sha e).

Definition coalesce {A} (a b : option A) : option A := match a with Some _ => a | None => b end.

Definition upsertMergeSequence (e : MergeSequenceInsert) (db : Db) : result Thrown Db :=
  let space := (in_repository_id e, in_base_branch e) in
  let key := (space, in_seq_epoch e, in_merge_seq e) in
  match merge_sequence db !! key with
  | Some r =>
    if jeqb (commit_sha r) (in_commit_sha e)
    then Ok (set_rows (<[key := mkSeqRow (commit_sha r)
                                 (coalesce (pull_request_number r) (in_pull_request_number e))
                                 (committed_at r) (merge_number r)]> (merge_sequence db)) db)
    else Err (different_commit e)
  | None =>
    if commit_taken space (in_seq_epoch e) (in_commit_sha e) db then Err unique_violation
    else Ok (set_rows (<[key := mkSeqRow (in_commit_sha e) (in_pull_request_number e)
                                 (in_committed_at e) None]> (merge_sequence db)) db)
  end.

Definition findRange (space : Space) (epoch fromExclusive toInclusive : Z) (db : Db)
  : list (Z * MergeSequenceRow) :=
  List.filter (fun r => (fromExclusive <? fst r) && (fst r <=? toInclusive)) (rows_of space epoch db).

Definition findSeqByCommit (space : Space) (epoch : Z) (sha : jstr) (db : Db) : option Z :=
  fst <$> find (fun r => jeqb (commit_sha (snd r)) sha) (rows_of space epoch db).

(** One row of the [INSERT ... SELECT]; the key of a row that exists is left as it is. *)
Definition copy_row (space : Space) (toEpoch : Z) (acc : result Thrown (Db * Z)) (r : Z * MergeSequenceRow)
  : result Thrown (Db * Z) :=
  '(db, n) ← acc;
  match merge_sequence db !! (space, toEpoch, fst r) with
  | Some _ => Ok (db, n)
  | None =>
    if commit_taken space toEpoch (commit_sha (snd r)) db then Err unique_violation
    else Ok (set_rows (<[(space, toEpoch, fst r) :=
                           mkSeqRow (commit_sha (snd r)) (pull_request_number (snd r))
                             (committed_at (snd r)) None]> (merge_sequence db)) db, n + 1)
  end.
Definition copySequencesUpTo (space : Space) (fromEpoch toEpoch uptoSeqInclusive : Z) (db : Db)
  : result Thrown (Db * Z) :=
  foldl (copy_row space toEpoch) (Ok (db, 0))
    (List.filter (fun r => fst r <=? uptoSeqInclusive) (rows_of space fromEpoch db)).

Definition listChangedCommitsBetweenEpochs (space : Space) (oldEpoch newEpoch : Z) (db : Db) : list jstr :=
  let pairs := fun epoch =>
    map (fun r => (commit_sha (snd r), pull_request_number (snd r))) (rows_of space epoch db) in
  let old := pairs oldEpoch in
  let new := pairs newEpoch in
  map ascii_lower
    (remove_dups (map fst (List.filter (fun p => negb (bool_decide (p ∈ new))) old
                           ++ List.filter (fun p => negb (bool_decide (p ∈ old))) new))).

Definition countAbove (space : Space) (epoch aboveSeqExclusive : Z) (db : Db) : Z :=
  Z.of_nat (length (List.filter (fun r => aboveSeqExclusive <? fst r) (rows_of space epoch db))).

Definition listStoredSequence (space : Space) (epoch fromSeq : Z) (db : Db) : list StoredSequenceEntry :=
  map (fun r => mkStored (fst r) (commit_sha (snd r)))
    (List.filter (fun r => fromSeq <=? fst r) (rows_of space epoch db)).

(** ** sequence-space.ts *)

Definition ensureSequenceSpace (space : Space) (db : Db) : Db :=
  match sequence_space db !! space with
  | Some _ => db
  | None => set_spaces (<[space := default_space]> (sequence_space db)) db
  end.
Definition findSequenceSpace (space : Space) (db : Db) : option SequenceSpaceRow :=
  sequence_space db !! space.

(** [UPDATE sequence_space SET f WHERE] the space [AND p]. *)
Definition update_space (space : Space) (p : SequenceSpaceRow -> bool)
    (f : SequenceSpaceRow -> SequenceSpaceRow) (db : Db) : Db :=
  match sequence_space db !! space with
  | Some s => if p s then set_spaces (<[space := f s]> (sequence_space db)) db else db
  | None => db
  end.
Definition anyone (s : SequenceSpaceRow) : bool := true.

(** The check [sequence_space_mnumber_checkpoint_chk]. *)
Definition checkpoint_chk (s : SequenceSpaceRow) : bool :=
  (0 <=? mnumber_head s) && (mnumber_head s <=? mnumber_head_seq s) && (mnumber_head_seq s <=? head_seq s).
Definition check_violation : Thrown :=
  OtherError (js "new row violates check constraint sequence_space_mnumber_checkpoint_chk").

Definition set_head (sha : jstr) (seq : Z) (s : SequenceSpaceRow) : SequenceSpaceRow :=
  mkSpace (seq_epoch s) (Some sha) seq ss_ok None (mnumber_head_seq s) (mnumber_head s) (mnumber_blocked s).
Definition advanceHead (space : Space) (headSha : jstr) (headSeq : Z) (db : Db) : result Thrown Db :=
  match sequence_space db !! space with
  | Some s =>
    if checkpoint_chk (set_head headSha headSeq s) then Ok (update_space space anyone (set_head headSha headSeq) db)
    else Err check_violation
  | None => Ok db
  end.

Definition bump (s : SequenceSpaceRow) : SequenceSpaceRow :=
  mkSpace (seq_epoch s + 1) None 0 ss_reassigning (last_error s) 0 0 None.
Definition bumpEpoch (space : Space) (db : Db) : result Thrown (Db * Z) :=
  match sequence_space db !! space with
  | Some s => Ok (update_space space anyone bump db, seq_epoch s + 1)
  | None => Err (OtherError (js "시퀀스 공간이 없다: " ++ js_of_Z (fst space) ++ js "/" ++ snd space))
  end.

Definition with_state (st : SequenceSpaceState) (err : option jstr) (s : SequenceSpaceRow) : SequenceSpaceRow :=
  mkSpace (seq_epoch s) (head_sha s) (head_seq s) st err (mnumber_head_seq s) (mnumber_head s) (mnumber_blocked s).
Definition markStale (space : Space) (reason : jstr) (db : Db) : Db :=
  let s := match sequence_space db !! space with Some s => s | None => default_space end in
  set_spaces (<[space := with_state ss_stale (Some (take 500 reason)) s]> (sequence_space db)) db.
Definition markReassigning (space : Space) (db : Db) : Db :=
  update_space space anyone (with_state ss_reassigning None) db.
Definition restoreSequenceState (space : Space) (st : SequenceSpaceState) (err : option jstr) (db : Db) : Db :=
  update_space space (fun s => bool_decide (space_state s = ss_reassigning)) (with_state st err) db.

(** ** pr-commit-link.ts *)

Definition SHA (s : jstr) : bool := (length s =? 40)%nat && forallb is_hex_lower s.
Definition normalizeShas (values : list jstr) : list jstr :=
  remove_dups (List.filter SHA (map ascii_lower values)).

Definition requeue_link (now : Z) (o : option CommitLinkState) : CommitLinkState :=
  match o with
  | None => mkLinkState 1 0 false now 0
  | Some l =>
    mkLinkState (generation l + 1) (projected_generation l) (link_leased l)
      (if link_leased l then link_available_at l else now)
      (if link_leased l then link_attempt_count l else 0)
  end.
Definition requeueChainChangedCommitLinks (now repositoryId : Z) (commitShas : list jstr) (db : Db) : Db :=
  let shas := List.filter (fun sha => bool_decide ((repositoryId, sha) ∈ source_links db))
                (normalizeShas commitShas) in
  set_links (foldr (fun sha m => <[(repositoryId, sha) := requeue_link now (m !! (repositoryId, sha))]> m)
               (commit_link_state db) shas) db.

(** ** Lemmas on the rows of an epoch *)

Definition rows (db : Db) (space : Space) (epoch n : Z) : option MergeSequenceRow :=
  merge_sequence db !! (space, epoch, n).

Lemma elem_rows_of space epoch db n r :
  (n, r) ∈ rows_of space epoch db <-> rows db space epoch n = Some r.
Proof.
  unfold rows_of, rows. rewrite merge_sort_Permutation, list_elem_of_omap. split.
  - intros ([[[s e] m] q] & Hin & Hc). apply elem_of_map_to_list in Hin. cbn in Hc.
    case_bool_decide; [|discriminate]. injection Hc as <- <-. by simplify_eq.
  - intros H. exists (space, epoch, n, r). rewrite elem_of_map_to_list. split; [done|]. cbn.
    by rewrite bool_decide_eq_true_2.
Qed.

Lemma rows_of_NoDup space epoch db : NoDup (map fst (rows_of space epoch db)).
Proof.
  unfold rows_of. eapply NoDup_Permutation_proper; [apply fmap_Permutation, merge_sort_Permutation|].
  generalize (NoDup_fst_map_to_list (merge_sequence db)). generalize (map_to_list (merge_sequence db)).
  intros l. induction l as [|[[[s e] m] q] l IH]; intros H; [constructor|].
  change (((s, e, m, q) :: l).*1) with ((s, e, m) :: l.*1) in H.
  apply NoDup_cons in H as [Hn H]. cbn [omap list_omap fst snd].
  case_bool_decide as He; [|by apply IH]. cbn [map fmap list_fmap fst]. constructor; [|by apply IH].
  intros Hin. apply Hn. apply list_elem_of_fmap in Hin as ([m' q'] & -> & Hin).
  apply list_elem_of_omap in Hin as ([[[s' e'] m2] q2] & Hin & Hc). cbn in Hc.
  case_bool_decide as He'; [|discriminate]. injection Hc as <- <-.
  injection He as -> ->. injection He' as -> ->. by apply (list_elem_of_fmap_2 fst _ (space, epoch, m2, q2)).
Qed.

Lemma rows_of_sorted space epoch db : StronglySorted by_number (rows_of space epoch db).
Proof.
  assert (Total by_number) by (intros a b; unfold by_number; lia).
  assert (Transitive by_number) by (intros a b d; unfold by_number; lia).
  apply StronglySorted_merge_sort; done.
Qed.

Lemma filter_sorted {A} (R : relation A) (p : A -> bool) l :
  StronglySorted R l -> StronglySorted R (List.filter p l).
Proof.
  induction 1 as [|x l Hl IH Hx]; cbn; [constructor|]. destruct (p x); [|done]. constructor; [done|].
  apply Forall_forall. intros y Hy%elem_filter. apply (proj1 (Forall_forall _ _) Hx), Hy.
Qed.
(** The numbers of an epoch increase strictly along its rows. *)
Definition before (a b : Z * MergeSequenceRow) : Prop := fst a < fst b.
Lemma rows_of_strict space epoch db : StronglySorted before (rows_of space epoch db).
Proof.
  pose proof (rows_of_sorted space epoch db) as Hs. pose proof (rows_of_NoDup space epoch db) as Hn.
  induction Hs as [|x l Hl IH Hx]; [constructor|]. cbn [map] in Hn. apply NoDup_cons in Hn as [Hnx Hn].
  constructor; [by apply IH|]. apply Forall_forall. intros y Hy. pose proof (proj1 (Forall_forall _ _) Hx y Hy) as Hle.
  unfold by_number in Hle. unfold before. assert (fst x <> fst y); [|lia]. intros He. apply Hnx. rewrite He.
  by apply list_elem_of_fmap_2.
Qed.

Lemma filter_filter {A} (p q : A -> bool) l : List.filter p (List.filter q l) = List.filter (fun x => q x && p x) l.
Proof. induction l as [|x l IH]; [done|]. cbn. destruct (q x); cbn; [destruct (p x); by rewrite IH|done]. Qed.
Lemma filter_all {A} (p : A -> bool) l : (forall x, x ∈ l -> p x = true) -> List.filter p l = l.
Proof.
  induction l as [|x l IH]; intros H; [done|]. cbn. rewrite (H x) by by left. f_equal. apply IH. intros y Hy. apply H. by right.
Qed.
Lemma filter_ext_elem {A} (p q : A -> bool) l :
  (forall x, x ∈ l -> p x = q x) -> List.filter p l = List.filter q l.
Proof.
  induction l as [|x l IH]; intros H; [done|]. cbn. rewrite (H x) by by left. rewrite IH; [done|].
  intros y Hy. apply H. by right.
Qed.
Lemma filter_none {A} (p : A -> bool) l : (forall x, x ∈ l -> p x = false) -> List.filter p l = [].
Proof.
  induction l as [|x l IH]; intros H; [done|]. cbn. rewrite (H x) by by left. apply IH. intros y Hy. apply H. by right.
Qed.
(** Behind an element of a list that increases strictly under [f]. *)
Lemma filter_after {A} (f : A -> Z) pre x post :
  StronglySorted (fun a b => f a < f b) (pre ++ x :: post) ->
  List.filter (fun r => f x <? f r) (pre ++ x :: post) = post.
Proof.
  intros H. rewrite List.filter_app. rewrite filter_none; cbn [app].
  - cbn. rewrite Z.ltb_irrefl. apply filter_all. intros y Hy.
    induction pre as [|z pre IH]; [|apply IH; by inversion_clear H]. apply StronglySorted_inv in H as [_ H].
    apply Z.ltb_lt. by apply (proj1 (Forall_forall _ _) H).
  - intros y Hy. induction pre as [|z pre IH]; [by apply elem_of_nil in Hy|].
    apply StronglySorted_inv in H as [H Hz]. apply elem_of_cons in Hy as [->|Hy]; [|by apply IH].
    apply Z.ltb_ge. pose proof (proj1 (Forall_forall _ _) Hz x ltac:(apply elem_of_app; right; by left)) as Hlt.
    cbv beta in Hlt. lia.
Qed.

Lemma findRange_strict space epoch a b db : StronglySorted before (findRange space epoch a b db).
Proof. apply filter_sorted, rows_of_strict. Qed.
Lemma findRange_elem space epoch a b db n r :
  (n, r) ∈ findRange space epoch a b db <-> a < n <= b ∧ merge_sequence db !! (space, epoch, n) = Some r.
Proof.
  unfold findRange. rewrite elem_filter, elem_rows_of. unfold rows. cbn. rewrite andb_true_iff, Z.ltb_lt, Z.leb_le. tauto.
Qed.
Lemma findRange_from space epoch a b c db :
  a <= c -> findRange space epoch c b db = List.filter (fun r => c <? fst r) (findRange space epoch a b db).
Proof.
  intros Hc. unfold findRange. rewrite filter_filter. apply List.filter_ext. intros r.
  destruct (Z.ltb_spec c (fst r)), (Z.ltb_spec a (fst r)); cbn; try lia; by destruct (_ <=? _).
Qed.

Lemma commit_taken_spec space epoch sha db :
  commit_taken space epoch sha db = true <-> ∃ n r, rows db space epoch n = Some r ∧ commit_sha r = sha.
Proof.
  unfold commit_taken. rewrite existsb_elem. split.
  - intros ([n r] & Hin & He%jeqb_eq). apply elem_rows_of in Hin. eauto.
  - intros (n & r & Hr & He). exists (n, r). by rewrite elem_rows_of, jeqb_eq.
Qed.

Lemma find_Some_elem {A} (p : A -> bool) l x : find p l = Some x -> x ∈ l ∧ p x = true.
Proof. intros H. apply find_some in H as [H ?]. by apply list_elem_of_In in H. Qed.

Lemma findSeqByCommit_Some space epoch sha db n :
  findSeqByCommit space epoch sha db = Some n -> ∃ r, rows db space epoch n = Some r ∧ commit_sha r = sha.
Proof.
  unfold findSeqByCommit. destruct (find _ _) as [[m r]|] eqn:E; [|done]. intros [= <-].
  apply find_Some_elem in E as [Hin He%jeqb_eq]. apply elem_rows_of in Hin. eauto.
Qed.
Lemma findSeqByCommit_None space epoch sha db :
  findSeqByCommit space epoch sha db = None -> forall n r, rows db space epoch n = Some r -> commit_sha r <> sha.
Proof.
  unfold findSeqByCommit. destruct (find _ _) eqn:E; [done|]. intros _ n r Hr%elem_rows_of He.
  apply list_elem_of_In, (find_none _ _ E) in Hr. cbn in Hr. by apply jeqb_neq in Hr.
Qed.

(** ** Statements that touch only the rows *)

Record same_but_rows (db db' : Db) : Prop := {
  sb_space : sequence_space db' = sequence_space db;
  sb_work : sequence_work db' = sequence_work db;
  sb_link : commit_link_state db' = commit_link_state db;
  sb_source : source_links db' = source_links db
}.
#[export] Instance same_but_rows_preorder : PreOrder same_but_rows.
Proof. split; [by split|]. intros a b c [] []. split; congruence. Qed.

Lemma rows_insert m db space epoch n r space' epoch' n' :
  m = <[(space, epoch, n) := r]> (merge_sequence db) ->
  rows (set_rows m db) space' epoch' n'
  = if decide (space' = space ∧ epoch' = epoch ∧ n' = n) then Some r else rows db space' epoch' n'.
Proof.
  intros ->. unfold rows. cbn [merge_sequence set_rows].
  destruct (decide _) as [(-> & -> & ->)|H]; [by rewrite lookup_insert_eq|].
  apply lookup_insert_ne. intros [=]. subst. tauto.
Qed.

(** The row a number gets in a place that is free. *)
Lemma upsert_free e db db' :
  rows db (in_repository_id e, in_base_branch e) (in_seq_epoch e) (in_merge_seq e) = None ->
  upsertMergeSequence e db = Ok db' ->
  same_but_rows db db' ∧
  commit_taken (in_repository_id e, in_base_branch e) (in_seq_epoch e) (in_commit_sha e) db = false ∧
  (forall space epoch n, rows db' space epoch n =
     if decide (space = (in_repository_id e, in_base_branch e) ∧ epoch = in_seq_epoch e ∧ n = in_merge_seq e)
     then Some (mkSeqRow (in_commit_sha e) (in_pull_request_number e) (in_committed_at e) None)
     else rows db space epoch n).
Proof.
  unfold rows at 1, upsertMergeSequence. cbn zeta. intros ->. destruct (commit_taken _ _ _ _) eqn:E; [discriminate|].
  intros [= <-]. split; [by split|]. split; [done|]. intros. by apply rows_insert.
Qed.

(** ** Copies into an epoch that has no rows *)

Definition unnumbered (r : MergeSequenceRow) : MergeSequenceRow :=
  mkSeqRow (commit_sha r) (pull_request_number r) (committed_at r) None.

Lemma copy_row_free space epoch d k x d' k' :
  rows d space epoch (fst x) = None -> copy_row space epoch (Ok (d, k)) x = Ok (d', k') ->
  same_but_rows d d' ∧ commit_taken space epoch (commit_sha (snd x)) d = false ∧
  forall space' epoch' n, rows d' space' epoch' n =
    if decide (space' = space ∧ epoch' = epoch ∧ n = fst x) then Some (unnumbered (snd x))
    else rows d space' epoch' n.
Proof.
  unfold rows at 1, copy_row. cbn. intros ->. destruct (commit_taken _ _ _ _) eqn:E; [discriminate|].
  intros [= <- <-]. split; [by split|]. split; [done|]. intros. by apply rows_insert.
Qed.

Lemma copy_fold_err space epoch l e : foldl (copy_row space epoch) (Err e) l = Err e.
Proof. by induction l. Qed.

Lemma copy_fold space epoch : forall l d k d' k',
  NoDup (map fst l) -> (forall x, x ∈ l -> rows d space epoch (fst x) = None) ->
  foldl (copy_row space epoch) (Ok (d, k)) l = Ok (d', k') ->
  same_but_rows d d' ∧
  (forall n r, (n, r) ∈ l -> rows d' space epoch n = Some (unnumbered r)) ∧
  (forall space' epoch' n, ~ (space' = space ∧ epoch' = epoch ∧ n ∈ map fst l) ->
     rows d' space' epoch' n = rows d space' epoch' n).
Proof.
  induction l as [|x l IH]; intros d k d' k' Hnd Hfree H.
  - injection H as <- <-. split_and!; [done| |done]. intros n r Hin. by apply elem_of_nil in Hin.
  - cbn [foldl] in H. cbn [map] in Hnd. apply NoDup_cons in Hnd as [Hx Hnd].
    destruct (copy_row space epoch (Ok (d, k)) x) as [[d1 k1]|e] eqn:E; [|by rewrite copy_fold_err in H].
    apply copy_row_free in E as (Hs & _ & Hr); [|apply Hfree; by left].
    apply IH in H as (Hs' & Hin' & Hout'); [|done|].
    2:{ intros y Hy. rewrite Hr, decide_False; [by apply Hfree; right|].
        intros (_ & _ & He). apply Hx. rewrite <- He. by apply list_elem_of_fmap_2. }
    split_and!; [by transitivity d1| |].
    + intros n r [He|Hin]%elem_of_cons; [|by apply Hin']. subst x.
      rewrite Hout', Hr, decide_True by (cbn in Hx |- *; tauto). done.
    + intros s' e' n Hn. rewrite Hout', Hr, decide_False; [done| |].
      * intros (-> & -> & ->). apply Hn. split_and!; [done..|]. by left.
      * intros (-> & -> & Hin). apply Hn. split_and!; [done..|]. by right.
Qed.

Lemma copy_fold_ok space epoch : forall l d k,
  NoDup (map fst l) -> (forall x, x ∈ l -> rows d space epoch (fst x) = None) ->
  NoDup (map (fun x => commit_sha (snd x)) l) ->
  (forall x, x ∈ l -> commit_taken space epoch (commit_sha (snd x)) d = false) ->
  ∃ d' k', foldl (copy_row space epoch) (Ok (d, k)) l = Ok (d', k').
Proof.
  induction l as [|x l IH]; intros d k Hnd Hfree Hsh Htk; [by eauto|].
  cbn [map] in Hnd, Hsh. apply NoDup_cons in Hnd as [Hx Hnd], Hsh as [Hy Hsh].
  cbn [foldl]. destruct (copy_row space epoch (Ok (d, k)) x) as [[d1 k1]|e] eqn:E.
  - apply copy_row_free in E as (_ & _ & Hr); [|apply Hfree; by left]. apply IH; [done| |done|].
    + intros y Hyl. rewrite Hr, decide_False; [by apply Hfree; right|].
      intros (_ & _ & He). apply Hx. rewrite <- He. by apply list_elem_of_fmap_2.
    + intros y Hyl. apply not_true_iff_false. intros (n & r & Hn & Hc)%commit_taken_spec.
      rewrite Hr in Hn. destruct (decide _) as [_|_].
      * injection Hn as <-. apply Hy. change (commit_sha (snd x) = commit_sha (snd y)) in Hc.
        rewrite Hc. by apply (list_elem_of_fmap_2 (fun x => commit_sha (snd x))).
      * assert (commit_taken space epoch (commit_sha (snd y)) d = true) as Ht by (apply commit_taken_spec; eauto).
        rewrite Htk in Ht by (by right). done.
  - exfalso. unfold copy_row in E. cbn in E. pose proof (Hfree x ltac:(by left)) as Hf. unfold rows in Hf.
    rewrite Hf, Htk in E by (by left). done.
Qed.

Lemma NoDup_map_filter {A B} (f : A -> B) (p : A -> bool) l : NoDup (map f l) -> NoDup (map f (List.filter p l)).
Proof.
  induction l as [|x l IH]; [done|]. cbn [map List.filter]. intros [Hx H]%NoDup_cons.
  destruct (p x); [|by apply IH]. cbn [map]. constructor; [|by apply IH].
  intros Hin. apply Hx. apply list_elem_of_fmap in Hin as (y & -> & Hy).
  apply elem_filter in Hy as [Hy _]. by apply list_elem_of_fmap_2.
Qed.

(** The rows of the new epoch are those of the old one up to the number, without their
    M numbers. *)
Lemma copy_spec space old new upto db db' k :
  (forall n, rows db space new n = None) -> copySequencesUpTo space old new upto db = Ok (db', k) ->
  same_but_rows db db' ∧
  forall space' epoch n, rows db' space' epoch n =
    if decide (space' = space ∧ epoch = new)
    then if n <=? upto then unnumbered <$> rows db space old n else None
    else rows db space' epoch n.
Proof.
  intros Hfree H. apply copy_fold in H as (Hs & Hin & Hout); [|apply NoDup_map_filter, rows_of_NoDup|by intros].
  split; [done|]. intros s' e n. destruct (decide _) as [[-> ->]|Hne].
  - destruct (Z.leb_spec n upto) as [Hle|Hgt].
    + destruct (rows db space old n) as [r|] eqn:Hr; cbn.
      * apply Hin. apply elem_filter. rewrite elem_rows_of. split; [done|]. cbn. lia.
      * rewrite Hout, Hfree; [done|]. intros (_ & _ & Hn). apply list_elem_of_fmap in Hn as ([m r] & -> & Hn).
        apply elem_filter in Hn as [Hn _]. apply elem_rows_of in Hn. cbn in Hr. congruence.
    + rewrite Hout, Hfree; [done|]. intros (_ & _ & Hn). apply list_elem_of_fmap in Hn as ([m r] & -> & Hn).
      apply elem_filter in Hn as [_ Hn]. cbn in *. lia.
  - apply Hout. tauto.
Qed.

Lemma copy_total space old new upto db :
  (forall n, rows db space new n = None) ->
  (forall n m r q, rows db space old n = Some r -> rows db space old m = Some q ->
     commit_sha r = commit_sha q -> n = m) ->
  ∃ db' k, copySequencesUpTo space old new upto db = Ok (db', k).
Proof.
  intros Hfree Huniq. apply copy_fold_ok; [apply NoDup_map_filter, rows_of_NoDup|by intros| |].
  - apply NoDup_map_filter. pose proof (rows_of_NoDup space old db) as Hnd.
    assert (forall x, x ∈ rows_of space old db -> rows db space old (fst x) = Some (snd x)) as Hin.
    { intros [n r]. apply elem_rows_of. }
    induction (rows_of space old db) as [|x l IH]; [constructor|]. cbn [map] in *.
    apply NoDup_cons in Hnd as [Hx Hnd]. constructor.
    + intros Hc. apply list_elem_of_fmap in Hc as (y & Hc & Hy). apply Hx.
      rewrite (Huniq (fst x) (fst y) (snd x) (snd y)); [by apply list_elem_of_fmap_2|apply Hin; by left|apply Hin; by right|done].
    + apply IH; [done|]. intros y Hy. apply Hin. by right.
  - intros x _. apply not_true_iff_false. intros (n & r & Hn & _)%commit_taken_spec. by rewrite Hfree in Hn.
Qed.

(** ** The unique index of commits *)

Definition unique_commits (db : Db) (space : Space) (epoch : Z) : Prop :=
  forall n m r q, rows db space epoch n = Some r -> rows db space epoch m = Some q ->
    commit_sha r = commit_sha q -> n = m.

Lemma unique_commits_same db db' space epoch :
  (forall n, rows db' space epoch n = rows db space epoch n) ->
  unique_commits db space epoch -> unique_commits db' space epoch.
Proof. intros H Hu n m r q. rewrite !H. apply Hu. Qed.

Lemma unique_commits_insert db db' space epoch n0 r0 space' epoch' :
  commit_taken space epoch (commit_sha r0) db = false ->
  (forall s e n, rows db' s e n = if decide (s = space ∧ e = epoch ∧ n = n0) then Some r0 else rows db s e n) ->
  unique_commits db space' epoch' -> unique_commits db' space' epoch'.
Proof.
  intros Ht Hr Hu n m r q Hn Hm He. rewrite Hr in Hn, Hm.
  assert (forall x y, rows db space epoch x = Some y -> commit_sha y <> commit_sha r0) as Hnot.
  { intros x y Hx Hc. apply not_true_iff_false in Ht. apply Ht, commit_taken_spec. eauto. }
  destruct (decide (space' = space ∧ epoch' = epoch ∧ n = n0)) as [(? & ? & ->)|_],
    (decide (space' = space ∧ epoch' = epoch ∧ m = n0)) as [(? & ? & ->)|_]; subst; [done|..].
  - injection Hn as <-. by apply Hnot in Hm.
  - injection Hm as <-. by apply Hnot in Hn.
  - by eapply Hu.
Qed.

(** ** Statements that touch only the row of a space *)

Lemma advanceHead_spec space sha seq db db' s :
  sequence_space db !! space = Some s -> advanceHead space sha seq db = Ok db' ->
  db' = set_spaces (<[space := set_head sha seq s]> (sequence_space db)) db ∧
  checkpoint_chk (set_head sha seq s) = true.
Proof.
  unfold advanceHead, update_space. intros ->. destruct (checkpoint_chk _) eqn:E; [|discriminate].
  intros H. cbn in H. by injection H as <-.
Qed.
Lemma advanceHead_total space sha seq db s :
  sequence_space db !! space = Some s -> checkpoint_chk (set_head sha seq s) = true ->
  advanceHead space sha seq db = Ok (set_spaces (<[space := set_head sha seq s]> (sequence_space db)) db).
Proof. unfold advanceHead, update_space. intros -> ->. done. Qed.

Lemma bumpEpoch_spec space db s :
  sequence_space db !! space = Some s ->
  bumpEpoch space db = Ok (set_spaces (<[space := bump s]> (sequence_space db)) db, seq_epoch s + 1).
Proof. unfold bumpEpoch, update_space. intros ->. done. Qed.

(** ** What the numbers of an epoch are to be *)

(** Number [n] is the [n]th commit of the chain. *)
Definition numbered (db : Db) (space : Space) (epoch : Z) (chain : list jstr) : Prop :=
  forall n, commit_sha <$> rows db space epoch n = chain_at chain n.

(** The space follows the chain: its current epoch numbers it up to its last commit.  A space
    that does not exist yet is the default row. *)
Definition space_of (space : Space) (db : Db) : SequenceSpaceRow :=
  match findSequenceSpace space db with Some s => s | None => default_space end.
Record tracks (db : Db) (space : Space) (chain : list jstr) : Prop := {
  tr_rows : numbered db space (seq_epoch (space_of space db)) chain;
  tr_seq : head_seq (space_of space db) = Z.of_nat (length chain);
  tr_sha : head_sha (space_of space db) = last chain;
  tr_chk : checkpoint_chk (space_of space db) = true
}.

Lemma chain_at_app pre suf n :
  chain_at (pre ++ suf) n
  = if n <=? Z.of_nat (length pre) then chain_at pre n else suf !! Z.to_nat (n - Z.of_nat (length pre) - 1).
Proof.
  unfold chain_at. destruct (Z.ltb_spec n 1), (Z.leb_spec n (Z.of_nat (length pre))); try done.
  - exfalso. lia.
  - by rewrite lookup_app_l by lia.
  - rewrite lookup_app_r by lia. f_equal. lia.
Qed.
Lemma chain_at_Some chain n sha : chain_at chain n = Some sha -> 1 <= n <= Z.of_nat (length chain) ∧ sha ∈ chain.
Proof.
  unfold chain_at. destruct (Z.ltb_spec n 1); [done|]. intros Hl. split.
  - apply lookup_lt_Some in Hl. lia.
  - by apply list_elem_of_lookup_2 in Hl.
Qed.

Lemma numbered_free db space epoch chain n :
  numbered db space epoch chain -> Z.of_nat (length chain) < n -> rows db space epoch n = None.
Proof.
  intros H Hn. specialize (H n). destruct (rows db space epoch n); [|done]. cbn in H. symmetry in H.
  apply chain_at_Some in H. lia.
Qed.
Lemma numbered_taken db space epoch chain sha :
  numbered db space epoch chain -> commit_taken space epoch sha db = true -> sha ∈ chain.
Proof.
  intros H (n & r & Hr & <-)%commit_taken_spec. specialize (H n). rewrite Hr in H. cbn in H.
  symmetry in H. by apply chain_at_Some in H as [_ H].
Qed.
