(* ===== verification/SequenceAssign.v ===== *)
(** * Assignment, reassignment and repair of sequence numbers

    [apps/pipeline-worker/src/sequence.ts]: [assignSequence], [reassignSequence] and
    [repairSequence], each a transaction over the tables of SequenceStore.v.  A transaction
    that rolls back leaves the database it found.  The commit graph, the answer of the
    advisory lock, the number of the pull request of a commit (a search that gives [null]
    when it fails) and the clocks are arguments; what other workers do meanwhile is the
    step relation [step]: each constructor is one transaction or one statement committed on
    its own, from any state and with any answers of git.  [effects] is what is sent after
    the commit (events, projections), in order. *)

From stdpp Require Import base list option strings numbers gmap sets sorting.
From Stdlib Require Import ZArith Lia.
From S2P Require Import Prelude JsString Json SequenceSpace Integrity SequenceWork SequenceStore.
Open Scope Z_scope.

(** ** Interfaces *)

Record CommitGraph : Set := mkGraph {
  resolveHead : jstr -> result Thrown (option jstr);
  isAncestor : jstr -> jstr -> result Thrown bool;
  mergeBase : jstr -> jstr -> result Thrown (option jstr);
  firstParentRevList : option jstr -> jstr -> result Thrown (list jstr);
  firstParentCommits : option jstr -> jstr -> result Thrown (list ChainCommit)
}.

(** The clocks of the transaction, the answer of the advisory lock, the numbers of pull
    requests. *)
Record Env : Set := mkEnv {
  clocks : Work.Clocks; locked : bool; pr_of : jstr -> option Z
}.

Record Repository : Set := mkRepo {
  repo_id : Z; owner : jstr; repo_name : jstr; repo_active : bool; sequence_branches : list jstr
}.

Inductive AssignOutcome : Set :=
| assigned (fromSeq toSeq : Z) (headSha : jstr)
| skipped (reason : jstr)
| no_branch
| busy
| stale (reason : jstr)
| reassigned (oldEpoch newEpoch divergedAtSeq affectedCount toSeq : Z) (headSha : jstr)
| rewritten (storedHead newHead : jstr).

(** How a transaction ends. *)
Inductive TxEnd (O : Type) : Type :=
| Commit (db : Db) (outcome : O)
| Rollback (outcome : O)
| RollbackStale (reason : jstr).
Arguments Commit {O} _ _.
Arguments Rollback {O} _.
Arguments RollbackStale {O} _.

(** ** Pieces *)

Definition graphReason (e : Thrown) : jstr :=
  take 200 (match e with
            | GraphError kind message => js "graph_" ++ kind ++ js ":" ++ message
            | OtherError message => message
            end).

Definition correlation (correlationId : jstr) : list (jstr * json) :=
  if jeqb correlationId [] then [] else [(js "correlation_id", JStr correlationId)].

Definition requestMergeNumberReconcile (c : Work.Clocks) (space : Space) (epoch : Z)
    (trigger correlationId : jstr) (db : Db) : Db :=
  set_work (fst (Work.requestWork c
    (Work.mkRequest Work.reconcile (fst space) (snd space) epoch
       (JObj ((js "trigger_kind", JStr trigger) :: correlation correlationId)) [] None)
    (sequence_work db))) db.

Inductive Scope : Set := tail | full.
Definition spaceWorkRequest (space : Space) (epoch : Z) (scope : Scope) (fields : list (jstr * json))
  : Work.RequestWorkInput :=
  Work.mkRequest Work.project (fst space) (snd space) epoch
    (JObj ((js "scope", JStr (match scope with tail => js "tail" | full => js "full" end)) :: fields))
    (match scope with full => [JStr (js "full")] | tail => [] end) None.
Definition requestProjection (c : Work.Clocks) (space : Space) (epoch : Z) (scope : Scope)
    (trigger correlationId : jstr) (db : Db) : Db :=
  set_work (fst (Work.requestWork c
    (spaceWorkRequest space epoch scope ((js "trigger_kind", JStr trigger) :: correlation correlationId))
    (sequence_work db))) db.

Definition insert_of (env : Env) (space : Space) (epoch : Z) (e : NumberedCommit) : MergeSequenceInsert :=
  mkInsert (fst space) (snd space) epoch (nc_mergeSeq e) (nc_sha e) (pr_of env (nc_sha e)) (nc_committedAt e).

(** The loop over [numbered]. *)
Fixpoint write_numbered (env : Env) (space : Space) (epoch : Z) (numbered : list NumberedCommit) (db : Db)
  : result Thrown Db :=
  match numbered with
  | [] => Ok db
  | e :: numbered =>
    db ← upsertMergeSequence (insert_of env space epoch e) db;
    write_numbered env space epoch numbered db
  end.

(** ** assignSequence *)

(** The catch of [assignSequence] rolls back and throws again.  A history that was rewritten
    ends the transaction with [rewritten]; the caller goes on to [reassignSequence]. *)
Definition assign_tx (env : Env) (g : CommitGraph) (space : Space) (correlationId : jstr) (db0 : Db)
  : result Thrown (TxEnd AssignOutcome) :=
  if negb (locked env) then Ok (Rollback busy)
  else
  let db := ensureSequenceSpace space db0 in
  match findSequenceSpace space db with
  | None => Ok (Rollback (stale (js "sequence_space_missing")))
  | Some s =>
    let headSeq := head_seq s in
    match resolveHead g (snd space) with
    | Err e => Ok (RollbackStale (graphReason e))
    | Ok None => Ok (Rollback no_branch)
    | Ok (Some newHead) =>
      let go_on :=
        match firstParentCommits g (head_sha s) newHead with
        | Err e => Ok (RollbackStale (graphReason e))
        | Ok commits =>
          let numbered := numberCommits headSeq commits in
          let toSeq := headSeq + Z.of_nat (length numbered) in
          db ← (db ← write_numbered env space (seq_epoch s) numbered db;
                 db ← advanceHead space newHead toSeq db;
                 let db := requestMergeNumberReconcile (clocks env) space (seq_epoch s)
                             (js "sequence_assigned") correlationId db in
                 Ok (if (0 <? length numbered)%nat
                     then requeueChainChangedCommitLinks (Work.now (clocks env)) (fst space)
                            (map nc_sha numbered)
                            (requestProjection (clocks env) space (seq_epoch s) tail
                               (js "sequence_assigned") correlationId db)
                     else db));
          Ok (Commit db (assigned headSeq toSeq newHead))
        end in
      match head_sha s with
      | Some stored =>
        if jeqb stored newHead then go_on
        else match isAncestor g stored newHead with
             | Err e => Ok (RollbackStale (graphReason e))
             | Ok true => go_on
             | Ok false => Ok (Rollback (rewritten stored newHead))
             end
      | None => go_on
      end
    end
  end.

(** ** reassignSequence *)

(** The merge base, if it is on the stored chain, and its number. *)
Definition reassign_base (g : CommitGraph) (space : Space) (epoch : Z) (storedHead newHead : jstr) (db : Db)
  : result Thrown (option jstr * Z) :=
  base ← mergeBase g storedHead newHead;
  Ok (match base with
      | Some sha =>
        match findSeqByCommit space epoch sha db with
        | Some seq => (Some sha, seq)
        | None => (None, 0)
        end
      | None => (None, 0)
      end).

(** A failure of [firstParentCommits] and one of the statements both end in a rollback and
    in [markStale] with the reason of the error. *)
Definition renumber (env : Env) (space : Space) (newEpoch baseSeq : Z)
    (commits : list ChainCommit) (newHead trigger_work trigger_projection correlationId : jstr)
    (oldEpoch : Z) (db : Db) : result Thrown Db :=
  db ← write_numbered env space newEpoch (numberCommits baseSeq commits) db;
  db ← advanceHead space newHead (baseSeq + Z.of_nat (length commits)) db;
  let db := requestMergeNumberReconcile (clocks env) space newEpoch trigger_work correlationId db in
  let db := requestProjection (clocks env) space newEpoch full trigger_projection correlationId db in
  Ok (requeueChainChangedCommitLinks (Work.now (clocks env)) (fst space)
        (listChangedCommitsBetweenEpochs space oldEpoch newEpoch db) db).

Definition reassign_tx (env : Env) (g : CommitGraph) (space : Space) (storedHead newHead correlationId : jstr)
    (db0 : Db) : TxEnd AssignOutcome :=
  if negb (locked env) then Rollback (rewritten storedHead newHead)
  else
  match findSequenceSpace space db0 with
  | None => RollbackStale (js "sequence_space_missing")
  | Some s =>
    if negb (bool_decide (head_sha s = Some storedHead)) then Rollback (skipped (js "head_moved"))
    else
    let oldEpoch := seq_epoch s in
    match reassign_base g space oldEpoch storedHead newHead db0 with
    | Err e => RollbackStale (graphReason e)
    | Ok (baseSha, baseSeq) =>
      let affected := countAbove space oldEpoch baseSeq db0 in
      match ('(db, newEpoch) ← bumpEpoch space db0;
             '(db, _) ← (if 0 <? baseSeq then copySequencesUpTo space oldEpoch newEpoch baseSeq db
                         else Ok (db, 0));
             commits ← firstParentCommits g baseSha newHead;
             db ← renumber env space newEpoch baseSeq commits newHead
                    (js "sequence_reassigned") (js "sequence_reassigned") correlationId oldEpoch db;
             Ok (db, newEpoch, commits)) with
      | Ok (db, newEpoch, commits) =>
        Commit db (reassigned oldEpoch newEpoch (baseSeq + 1) affected
                     (baseSeq + Z.of_nat (length commits)) newHead)
      | Err e => RollbackStale (graphReason e)
      end
    end
  end.

(** What a caller sees of the end of a transaction: [markStale] runs after the rollback. *)
Definition finish (space : Space) (db : Db) (t : TxEnd AssignOutcome) : Db * AssignOutcome :=
  match t with
  | Commit db' o => (db', o)
  | Rollback o => (db, o)
  | RollbackStale reason => (markStale space reason db, stale reason)
  end.

Definition reassignSequence (env : Env) (g : CommitGraph) (space : Space)
    (storedHead newHead correlationId : jstr) (db : Db) : Db * AssignOutcome :=
  let db := markReassigning space db in
  finish space db (reassign_tx env g space storedHead newHead correlationId db).

(** One call from start to end with nobody in between. *)
Definition assignSequence (env : Env) (g : CommitGraph) (repositories : Z -> option Repository)
    (repositoryId : Z) (baseBranch correlationId : jstr) (db : Db) : result Thrown (Db * AssignOutcome) :=
  let space := (repositoryId, baseBranch) in
  match repositories repositoryId with
  | None => Ok (db, skipped (js "repository_unregistered"))
  | Some r =>
    if negb (repo_active r) then Ok (db, skipped (js "repository_archived"))
    else if negb (isSequenceBranch (sequence_branches r) baseBranch)
    then Ok (db, skipped (js "not_sequence_branch"))
    else t ← assign_tx env g space correlationId db;
         Ok (match t with
             | Rollback (rewritten storedHead newHead) =>
               reassignSequence env g space storedHead newHead correlationId db
             | _ => finish space db t
             end)
  end.

(** ** repairSequence *)

Inductive RepairOutcome : Set :=
| consistent (checked : Z) (work_key : jstr) (requested_generation projection_epoch : Z)
| repaired (oldEpoch newEpoch divergedAtSeq toSeq : Z) (headSha : jstr) (affectedCount : Z)
| r_no_branch
| r_locked
| r_skipped (reason : jstr)
| r_stale (reason : jstr).

(** What is fixed before the transaction: the head of the branch, the row of the space, the
    first-parent chain and the first number that disagrees. *)
Record Analysis : Set := mkAnalysis {
  an_head : jstr; an_space : SequenceSpaceRow; an_actual : list jstr; divergedAtSeq : Z
}.

Definition repair_analyse (env : Env) (g : CommitGraph) (space : Space) (correlationId : jstr) (db : Db)
  : (Db * RepairOutcome) + Analysis :=
  match resolveHead g (snd space) with
  | Err e => inl (markStale space (graphReason e) db, r_stale (graphReason e))
  | Ok None => inl (db, r_no_branch)
  | Ok (Some head) =>
    match findSequenceSpace space db with
    | None => inl (db, r_skipped (js "sequence_space_missing"))
    | Some s =>
      let stored := listStoredSequence space (seq_epoch s) 1 db in
      match firstParentRevList g None head with
      | Err e => inl (markStale space (graphReason e) db, r_stale (graphReason e))
      | Ok actual =>
        match firstSequenceMismatch stored actual with
        | None =>
          let '(work, row) :=
            Work.requestWork (clocks env)
              (spaceWorkRequest space (seq_epoch s) full
                 ((js "trigger_kind", JStr (js "sequence_repair_consistent")) :: correlation correlationId))
              (sequence_work db) in
          inl (set_work work db,
               consistent (Z.of_nat (length stored))
                 (Work.request_key (spaceWorkRequest space (seq_epoch s) full []))
                 (Work.requested_generation row) (seq_epoch s))
        | Some mismatch => inr (mkAnalysis head s actual (mm_mergeSeq mismatch))
        end
      end
    end
  end.

(** The transaction up to the fence before the commit: the mark [reassigning] is committed on
    its own (by another connection) once the fences have passed. [liveHead] is the head of the
    branch just before the commit. *)
Inductive RepairFence : Set := fence_ok | fence_locked | fence_skipped (reason : jstr).
Definition repair_fence (env : Env) (space : Space) (a : Analysis) (db : Db) : RepairFence :=
  if negb (locked env) then fence_locked
  else match findSequenceSpace space db with
       | None => fence_skipped (js "sequence_space_missing")
       | Some current =>
         if negb (seq_epoch current =? seq_epoch (an_space a)) then fence_skipped (js "epoch_moved")
         else if negb (bool_decide (head_sha current = head_sha (an_space a)))
         then fence_skipped (js "head_moved")
         else fence_ok
       end.

(** [from]: the last commit whose number was verified. *)
Definition repair_from (a : Analysis) : option jstr :=
  if divergedAtSeq a =? 1 then None else an_actual a !! Z.to_nat (divergedAtSeq a - 2).

Definition repair_tx (env : Env) (g : CommitGraph) (liveHead : result Thrown (option jstr)) (space : Space)
    (a : Analysis) (correlationId : jstr) (db0 : Db) : TxEnd RepairOutcome :=
  let oldEpoch := seq_epoch (an_space a) in
  let affected := countAbove space oldEpoch (divergedAtSeq a - 1) db0 in
  match ('(db, newEpoch) ← bumpEpoch space db0;
         '(db, _) ← (if 1 <? divergedAtSeq a
                     then copySequencesUpTo space oldEpoch newEpoch (divergedAtSeq a - 1) db
                     else Ok (db, 0));
         commits ← firstParentCommits g (repair_from a) (an_head a);
         let numbered := numberCommits (divergedAtSeq a - 1) commits in
         db ← write_numbered env space newEpoch numbered db;
         live ← liveHead;
         Ok (db, newEpoch, commits, live)) with
  | Err e => RollbackStale (graphReason e)
  | Ok (db, newEpoch, commits, live) =>
    if negb (bool_decide (live = Some (an_head a))) then Rollback (r_skipped (js "head_moved"))
    else
    let toSeq := divergedAtSeq a - 1 + Z.of_nat (length commits) in
    match (db ← advanceHead space (an_head a) toSeq db;
           let db := requestMergeNumberReconcile (clocks env) space newEpoch
                       (js "sequence_reassigned") correlationId db in
           let db := requestProjection (clocks env) space newEpoch full (js "sequence_repaired")
                       correlationId db in
           Ok (requeueChainChangedCommitLinks (Work.now (clocks env)) (fst space)
                 (listChangedCommitsBetweenEpochs space oldEpoch newEpoch db) db)) with
    | Err e => RollbackStale (graphReason e)
    | Ok db => Commit db (repaired oldEpoch newEpoch (divergedAtSeq a) toSeq (an_head a) affected)
    end
  end.

(** One call from start to end with nobody in between. *)
Definition repairSequence (env : Env) (g : CommitGraph) (liveHead : result Thrown (option jstr))
    (space : Space) (correlationId : jstr) (db : Db) : Db * RepairOutcome :=
  match repair_analyse env g space correlationId db with
  | inl r => r
  | inr a =>
    match repair_fence env space a db with
    | fence_locked => (db, r_locked)
    | fence_skipped reason => (db, r_skipped reason)
    | fence_ok =>
      let marked := markReassigning space db in
      match repair_tx env g liveHead space a correlationId marked with
      | Commit db o => (db, o)
      | Rollback o => (restoreSequenceState space (space_state (an_space a)) (last_error (an_space a)) marked, o)
      | RollbackStale reason => (markStale space reason marked, r_stale reason)
      end
    end
  end.

(** ** After the commit *)

Record SequenceAssigned : Set := mkAssigned {
  sa_repository_id : Z; sa_base_branch : jstr; sa_seq_epoch : Z; sa_from_seq : Z; sa_to_seq : Z;
  sa_head_sha : jstr
}.
Record SequenceReassigned : Set := mkReassigned {
  sr_repository_id : Z; sr_base_branch : jstr; sr_old_epoch : Z; sr_new_epoch : Z;
  sr_diverged_at_seq : Z; sr_affected_count : Z
}.
Inductive Effect : Set :=
| ProjectRange (space : Space) (epoch fromExclusive toInclusive : Z)
| EpochBump (space : Space) (newEpoch : Z) (sequenceSpace : jstr)
| PublishAssigned (partition : jstr) (payload : SequenceAssigned)
| PublishReassigned (partition : jstr) (payload : SequenceReassigned).

(** The epoch of the event is read again after the commit: [later] is the database then. *)
Definition assign_effects (space : Space) (o : AssignOutcome) (later : Db) : list Effect :=
  match o with
  | assigned fromSeq toSeq headSha =>
    let epoch := match findSequenceSpace space later with Some s => seq_epoch s | None => 1 end in
    (if fromSeq <? toSeq then [ProjectRange space epoch fromSeq toSeq] else [])
    ++ [PublishAssigned (sequencePartitionKey (fst space) (snd space))
          (mkAssigned (fst space) (snd space) epoch fromSeq toSeq headSha)]
  | _ => []
  end.

Definition bump_effects (r : Repository) (space : Space) (oldEpoch newEpoch diverged affected toSeq : Z)
  : list Effect :=
  [EpochBump space newEpoch (sequenceSpaceLabel (owner r ++ js "/" ++ repo_name r) (snd space));
   ProjectRange space newEpoch (diverged - 1) toSeq;
   PublishReassigned (sequencePartitionKey (fst space) (snd space))
     (mkReassigned (fst space) (snd space) oldEpoch newEpoch diverged affected)].
Definition reassign_effects (r : Repository) (space : Space) (o : AssignOutcome) : list Effect :=
  match o with
  | reassigned oldEpoch newEpoch diverged affected toSeq _ =>
    bump_effects r space oldEpoch newEpoch diverged affected toSeq
  | _ => []
  end.
Definition repair_effects (r : Repository) (space : Space) (o : RepairOutcome) : list Effect :=
  match o with
  | repaired oldEpoch newEpoch diverged toSeq _ affected =>
    bump_effects r space oldEpoch newEpoch diverged affected toSeq
  | _ => []
  end.

(** ** A history on which the operations run *)

Definition env0 : Env := mkEnv (Work.mkClocks 0 0) true (fun _ => None).
Definition empty_db : Db := mkDb ∅ ∅ ∅ ∅ ∅.
Definition main : Space := (7, js "main").

(** A repository as git sees it: the parents of each commit, oldest commit first. *)
Abbreviation History := (list (jstr * list jstr)).
Definition parents_of (h : History) (s : jstr) : list jstr := match assoc s h with Some ps => ps | None => [] end.
Fixpoint ancestors (fuel : nat) (h : History) (s : jstr) : list jstr :=
  match fuel with
  | O => []
  | S fuel => s :: concat (map (ancestors fuel h) (parents_of h s))
  end.
Fixpoint first_parents (fuel : nat) (h : History) (s : jstr) : list jstr :=
  match fuel with
  | O => []
  | S fuel => s :: match parents_of h s with p :: _ => first_parents fuel h p | [] => [] end
  end.
(** [git merge-base], [git merge-base --is-ancestor], [git rev-list --first-parent --reverse]. *)
Definition git (h : History) (head : jstr) : CommitGraph :=
  let up s := ancestors (length h) h s in
  let range f t :=
    rev (List.filter (fun s => match f with Some f => negb (mem s (up f)) | None => true end)
           (first_parents (length h) h t)) in
  mkGraph (fun _ => Ok (Some head))
    (fun a d => Ok (mem a (up d)))
    (fun a b => Ok (find (fun s => mem s (up a) && mem s (up b)) (rev (map fst h))))
    (fun f t => Ok (range f t))
    (fun f t => Ok (map (fun s => mkCommit s (js "2026-09-01T00:00:00Z")) (range f t))).
Definition history (l : list (string * list string)) : History :=
  map (fun c => (js (fst c), map js (snd c))) l.

Definition after (db : Db) (t : result Thrown (TxEnd AssignOutcome)) : Db :=
  match t with Ok (Commit db _) => db | _ => db end.
Definition numbers_of (space : Space) (epoch : Z) (db : Db) : list (Z * jstr) :=
  map (fun r => (fst r, commit_sha (snd r))) (rows_of space epoch db).

Definition A_B : History := history [("A", []); ("B", ["A"])]%string.
Definition A_B_C : History := history [("A", []); ("B", ["A"]); ("C", ["B"])]%string.
Definition db_ab : Db := after empty_db (assign_tx env0 (git A_B (js "B")) main [] empty_db).
Definition db_abc : Db := after db_ab (assign_tx env0 (git A_B_C (js "C")) main [] db_ab).
Example assign_ex : numbers_of main 1 db_abc = [(1, js "A"); (2, js "B"); (3, js "C")].
Proof. vm_compute. reflexivity. Qed.

(** ** Lemmas *)

Definition row_of (env : Env) (c : ChainCommit) : MergeSequenceRow :=
  mkSeqRow (c_sha c) (pr_of env (c_sha c)) (c_committedAt c) None.

Lemma numberCommits_length h cs : length (numberCommits h cs) = length cs.
Proof. unfold numberCommits. apply length_imap. Qed.

(** What the loop of writes leaves behind a number after which nothing is stored. *)
Lemma write_spec env space epoch : forall commits h db db',
  (forall n, h < n -> rows db space epoch n = None) ->
  write_numbered env space epoch (numberCommits h commits) db = Ok db' ->
  same_but_rows db db' ∧
  (forall k c, commits !! k = Some c -> rows db' space epoch (h + Z.of_nat k + 1) = Some (row_of env c)) ∧
  (forall s e n, ~ (s = space ∧ e = epoch ∧ h < n <= h + Z.of_nat (length commits)) ->
     rows db' s e n = rows db s e n) ∧
  (unique_commits db space epoch -> unique_commits db' space epoch).
Proof.
  induction commits as [|c commits IH]; intros h db db' Hfree H.
  - injection H as <-. split_and!; [done| |done..]. intros k c. by rewrite lookup_nil.
  - rewrite numberCommits_cons in H. cbn [write_numbered] in H.
    destruct (upsertMergeSequence _ db) as [db1|e] eqn:E; [|done]. cbn in H.
    destruct space as [r b]. apply upsert_free in E as (Hs & Ht & Hr); cbn in *; [|apply Hfree; lia].
    apply IH in H as (Hs' & Hin & Hout & Hu).
    2:{ intros n Hn. rewrite Hr, decide_False by lia. apply Hfree. lia. }
    split_and!; [by transitivity db1| | |].
    + intros [|k] c' Hc; cbn in Hc.
      * injection Hc as <-. rewrite Hout by lia. rewrite Hr, decide_True by (split_and!; [done..|lia]). done.
      * apply Hin in Hc. replace (h + Z.of_nat (S k) + 1) with (h + 1 + Z.of_nat k + 1) by lia. done.
    + intros s e n Hn. rewrite Hout, Hr, decide_False; [done| |].
      * intros (-> & -> & ->). apply Hn. split_and!; [done..|lia|lia].
      * intros (-> & -> & ?). apply Hn. split_and!; [done..|lia|lia].
    + intros H. apply Hu. refine (unique_commits_insert db db1 _ _ _ _ _ _ _ Hr H). exact Ht.
Qed.

Lemma write_total env space epoch : forall commits h db,
  (forall n, h < n -> rows db space epoch n = None) ->
  NoDup (map c_sha commits) ->
  (forall c, c ∈ commits -> commit_taken space epoch (c_sha c) db = false) ->
  ∃ db', write_numbered env space epoch (numberCommits h commits) db = Ok db'.
Proof.
  induction commits as [|c commits IH]; intros h db Hfree Hnd Ht; [by eexists|].
  rewrite numberCommits_cons. cbn [write_numbered]. cbn [map] in Hnd. apply NoDup_cons in Hnd as [Hc Hnd].
  destruct (upsertMergeSequence _ db) as [db1|e] eqn:E; cbn.
  - destruct space as [r b]. apply upsert_free in E as (Hs & _ & Hr); cbn in *; [|apply Hfree; lia].
    apply IH; [|done|].
    + intros n Hn. rewrite Hr, decide_False by lia. apply Hfree. lia.
    + intros c' Hc'. apply not_true_iff_false. intros (n & q & Hn & Hq)%commit_taken_spec.
      rewrite Hr in Hn. destruct (decide _).
      * injection Hn as <-. apply Hc. cbn in Hq. rewrite Hq. by apply list_elem_of_fmap_2.
      * assert (commit_taken (r, b) epoch (c_sha c') db = true) as Htk by (apply commit_taken_spec; eauto).
        rewrite Ht in Htk by (by right). done.
  - exfalso. unfold upsertMergeSequence in E. cbn in E. pose proof (Hfree (h + 1) ltac:(lia)) as Hf.
    unfold rows in Hf. destruct space as [r b]. cbn in *. rewrite Hf, Ht in E by (by left). done.
Qed.

(** Writing a suffix of the chain after its prefix. *)
Lemma write_numbered_chain env space epoch pre commits db db' :
  numbered db space epoch pre ->
  write_numbered env space epoch (numberCommits (Z.of_nat (length pre)) commits) db = Ok db' ->
  numbered db' space epoch (pre ++ map c_sha commits).
Proof.
  intros Hpre H. apply write_spec in H as (_ & Hin & Hout & _);
    [|intros n Hn; by eapply numbered_free].
  intros n. rewrite chain_at_app. destruct (Z.leb_spec n (Z.of_nat (length pre))).
  - rewrite Hout by lia. apply Hpre.
  - rewrite list_lookup_fmap. destruct (commits !! Z.to_nat _) as [c|] eqn:Hc.
    + pose proof (Hin _ _ Hc) as Hr. rewrite Z2Nat.id in Hr by lia.
      replace (Z.of_nat (length pre) + (n - Z.of_nat (length pre) - 1) + 1) with n in Hr by lia.
      by rewrite Hr.
    + apply lookup_ge_None in Hc. rewrite Hout by lia. rewrite (numbered_free _ _ _ _ _ Hpre) by done. done.
Qed.

Lemma write_chain_total env space epoch pre commits db :
  numbered db space epoch pre -> NoDup (pre ++ map c_sha commits) ->
  ∃ db', write_numbered env space epoch (numberCommits (Z.of_nat (length pre)) commits) db = Ok db'.
Proof.
  intros Hpre Hnd. apply NoDup_app in Hnd as (_ & Hdis & Hnd).
  apply write_total; [intros n Hn; by eapply numbered_free|done|].
  intros c Hc. apply not_true_iff_false. intros Ht. apply (numbered_taken _ _ _ _ _ Hpre) in Ht.
  apply (Hdis _ Ht). by apply list_elem_of_fmap_2.
Qed.

Lemma space_of_ensure space db : space_of space (ensureSequenceSpace space db) = space_of space db.
Proof.
  unfold space_of, ensureSequenceSpace, findSequenceSpace. destruct (sequence_space db !! space) eqn:E; cbn.
  - by rewrite E.
  - by rewrite lookup_insert_eq.
Qed.
Lemma find_ensure space db :
  findSequenceSpace space (ensureSequenceSpace space db) = Some (space_of space db).
Proof.
  unfold space_of, ensureSequenceSpace, findSequenceSpace. destruct (sequence_space db !! space) eqn:E; cbn.
  - by rewrite E.
  - by rewrite lookup_insert_eq.
Qed.
Lemma rows_ensure space db s e n : rows (ensureSequenceSpace space db) s e n = rows db s e n.
Proof. unfold ensureSequenceSpace. by destruct (sequence_space db !! space). Qed.

(** ** Assignment extends the chain *)

(** [C6] When the space follows [pre] and git has put [suf] behind it on the first-parent chain,
    assignment commits, keeps the epoch and follows the longer chain; with nothing new
    ([suf] empty) it changes no number. *)
Theorem assign_extends env g space correlationId db pre suf newHead :
  locked env = true -> tracks db space pre -> NoDup (pre ++ map c_sha suf) ->
  resolveHead g (snd space) = Ok (Some newHead) ->
  last (pre ++ map c_sha suf) = Some newHead ->
  (forall old, last pre = Some old -> old <> newHead -> isAncestor g old newHead = Ok true) ->
  firstParentCommits g (last pre) newHead = Ok suf ->
  ∃ db', assign_tx env g space correlationId db
         = Ok (Commit db' (assigned (Z.of_nat (length pre)) (Z.of_nat (length (pre ++ map c_sha suf))) newHead)) ∧
    tracks db' space (pre ++ map c_sha suf) ∧
    seq_epoch (space_of space db') = seq_epoch (space_of space db) ∧
    space_state (space_of space db') = ss_ok ∧
    forall s e n r, rows db s e n = Some r -> rows db' s e n = Some r.
Proof.
  intros Hl [Hrows Hseq Hsha Hchk] Hnd Hhead Hlast Hanc Hfp.
  set (s := space_of space db) in *. set (db1 := ensureSequenceSpace space db).
  assert (numbered db1 space (seq_epoch s) pre) as Hpre by (intros n; unfold db1; rewrite rows_ensure; apply Hrows).
  destruct (write_chain_total env space (seq_epoch s) pre suf db1 Hpre Hnd) as [db2 Hw].
  pose proof (write_numbered_chain env space (seq_epoch s) pre suf db1 db2 Hpre Hw) as Hn2.
  destruct (write_spec env space (seq_epoch s) suf _ db1 db2
    ltac:(intros n Hn; by eapply numbered_free) Hw) as (Hsame & _ & Hout & _).
  assert (sequence_space db2 !! space = Some s) as Hs2.
  { rewrite (sb_space _ _ Hsame). apply find_ensure. }
  assert (Z.of_nat (length pre) + Z.of_nat (length suf) = Z.of_nat (length (pre ++ map c_sha suf))) as Hlen
    by (rewrite length_app, length_map; lia).
  assert (checkpoint_chk (set_head newHead (Z.of_nat (length (pre ++ map c_sha suf))) s) = true) as Hc2.
  { unfold checkpoint_chk in *. cbn. rewrite !andb_true_iff, !Z.leb_le in *. lia. }
  pose proof (advanceHead_total space newHead _ db2 s Hs2 Hc2) as Hadv.
  assert (forall s' e n r, rows db s' e n = Some r -> rows db2 s' e n = Some r) as Hkeep.
  { intros s' e n r Hr. rewrite Hout; [unfold db1; by rewrite rows_ensure|].
    intros (-> & -> & Hn). rewrite (numbered_free db space (seq_epoch s) pre n Hrows) in Hr by lia. done. }
  unfold assign_tx. rewrite Hl. cbn [negb]. fold db1. unfold db1 at 1. rewrite find_ensure. fold s.
  rewrite Hhead, Hsha, Hseq, Hfp, Hw. cbn [mbind result_bind].
  rewrite numberCommits_length, Hlen, Hadv.
  eexists. split.
  - destruct (last pre) as [old|] eqn:Eo; [|reflexivity].
    destruct (jeqb old newHead) eqn:Ej; [reflexivity|]. apply jeqb_neq in Ej.
    rewrite (Hanc old eq_refl Ej). reflexivity.
  - match goal with |- tracks ?d _ _ ∧ _ => assert (space_of space d =
      set_head newHead (Z.of_nat (length (pre ++ map c_sha suf))) s) as Hso end.
    { unfold space_of, findSequenceSpace. destruct (0 <? _)%nat; cbn; by rewrite lookup_insert_eq. }
    match goal with |- tracks ?d _ _ ∧ _ => assert (forall s' e n, rows d s' e n = rows db2 s' e n) as Hr3
      by (intros; destruct (0 <? _)%nat; reflexivity) end.
    split; [|rewrite Hso; split_and!; [done..|]; intros; rewrite Hr3; by apply Hkeep].
    split; rewrite ?Hso; cbn [seq_epoch head_seq head_sha set_head]; try done.
    intros n. rewrite Hr3. apply Hn2.
Qed.

(** ** A new epoch *)

Lemma numbered_unique db space epoch chain :
  numbered db space epoch chain -> NoDup chain -> unique_commits db space epoch.
Proof.
  intros H Hnd n m r q Hn Hm He. pose proof (H n) as H1. pose proof (H m) as H2.
  rewrite Hn in H1. rewrite Hm in H2. cbn in H1, H2. rewrite He in H1. unfold chain_at in *.
  destruct (Z.ltb_spec n 1), (Z.ltb_spec m 1); try discriminate.
  pose proof (NoDup_lookup _ _ _ _ Hnd (eq_sym H1) (eq_sym H2)). lia.
Qed.

(** Copying a prefix of the old numbering and writing [suf] after it. *)
Lemma switch_epoch env space db s old p suf :
  sequence_space db !! space = Some s ->
  (forall n, rows db space (seq_epoch s + 1) n = None) ->
  numbered db space (seq_epoch s) old -> NoDup old -> 0 <= p <= Z.of_nat (length old) ->
  NoDup (take (Z.to_nat p) old ++ map c_sha suf) ->
  ∃ db1 db2 k db3,
    bumpEpoch space db = Ok (db1, seq_epoch s + 1) ∧
    (if 0 <? p then copySequencesUpTo space (seq_epoch s) (seq_epoch s + 1) p db1 else Ok (db1, 0)) = Ok (db2, k) ∧
    write_numbered env space (seq_epoch s + 1) (numberCommits p suf) db2 = Ok db3 ∧
    numbered db3 space (seq_epoch s + 1) (take (Z.to_nat p) old ++ map c_sha suf) ∧
    sequence_space db3 !! space = Some (bump s) ∧
    forall s' e n, ~ (s' = space ∧ e = seq_epoch s + 1) -> rows db3 s' e n = rows db s' e n.
Proof.
  intros Hs Hfree Hold Hnd Hp Hnd2. set (db1 := set_spaces (<[space := bump s]> (sequence_space db)) db).
  assert (length (take (Z.to_nat p) old) = Z.to_nat p) as Hlen by (rewrite length_take; lia).
  assert (∃ db2 k, (if 0 <? p then copySequencesUpTo space (seq_epoch s) (seq_epoch s + 1) p db1
                    else Ok (db1, 0)) = Ok (db2, k) ∧
    sequence_space db2 = sequence_space db1 ∧ numbered db2 space (seq_epoch s + 1) (take (Z.to_nat p) old) ∧
    forall s' e n, ~ (s' = space ∧ e = seq_epoch s + 1) -> rows db2 s' e n = rows db s' e n)
    as (db2 & k & Hcopy & Hsp & Hn2 & Hout2).
  { destruct (Z.ltb_spec 0 p).
    - destruct (copy_total space (seq_epoch s) (seq_epoch s + 1) p db1) as (db2 & k & Hc); [exact Hfree| |].
      { exact (numbered_unique db space _ old Hold Hnd). }
      exists db2, k. apply copy_spec in Hc as Hr; [|exact Hfree]. destruct Hr as [Hsame Hr].
      split_and!; [done|apply (sb_space _ _ Hsame)| |].
      + intros n. rewrite Hr, decide_True by done. destruct (Z.leb_spec n p).
        * specialize (Hold n). change (rows db1 space (seq_epoch s) n) with (rows db space (seq_epoch s) n).
          unfold chain_at in *. destruct (Z.ltb_spec n 1).
          -- destruct (rows db space (seq_epoch s) n); [discriminate|done].
          -- rewrite lookup_take_lt by lia. rewrite <- Hold. by destruct (rows db space (seq_epoch s) n).
        * unfold chain_at. destruct (Z.ltb_spec n 1); [done|]. by rewrite lookup_take_ge by lia.
      + intros s' e n Hn. rewrite Hr, decide_False by done. reflexivity.
    - exists db1, 0. replace p with 0 by lia. split_and!; [done..| |done].
      intros n. change (rows db1 space (seq_epoch s + 1) n) with (rows db space (seq_epoch s + 1) n).
      rewrite Hfree. unfold chain_at. destruct (n <? 1); [done|]. by rewrite take_0, lookup_nil. }
  assert (Z.of_nat (length (take (Z.to_nat p) old)) = p) as Hlen' by lia.
  destruct (write_chain_total env space (seq_epoch s + 1) _ suf db2 Hn2 Hnd2) as [db3 Hw].
  pose proof (write_numbered_chain env space (seq_epoch s + 1) _ suf db2 db3 Hn2 Hw) as Hn3.
  rewrite Hlen' in Hw.
  destruct (write_spec env space (seq_epoch s + 1) suf p db2 db3) as (Hsame & _ & Hout & _);
    [intros n Hn; eapply numbered_free; [exact Hn2|lia]|exact Hw|].
  exists db1, db2, k, db3. split_and!; try done.
  - by apply bumpEpoch_spec.
  - rewrite (sb_space _ _ Hsame), Hsp. unfold db1. cbn. apply lookup_insert_eq.
  - intros s' e n Hn. rewrite Hout by (intros (? & ? & _); tauto). by apply Hout2.
Qed.

(** The rest of the transaction after the rows of the new epoch are written. *)
Lemma renumber_total env space epoch p suf newHead t1 t2 correlationId old db2 db3 s chain :
  write_numbered env space epoch (numberCommits p suf) db2 = Ok db3 ->
  sequence_space db3 !! space = Some (bump s) -> seq_epoch s + 1 = epoch -> numbered db3 space epoch chain ->
  last chain = Some newHead -> p + Z.of_nat (length suf) = Z.of_nat (length chain) ->
  ∃ db4, renumber env space epoch p suf newHead t1 t2 correlationId old db2 = Ok db4 ∧
    tracks db4 space chain ∧ seq_epoch (space_of space db4) = epoch ∧
    space_state (space_of space db4) = ss_ok ∧
    forall s' e n, rows db4 s' e n = rows db3 s' e n.
Proof.
  intros Hw Hs <- Hn Hlast Hlen. unfold renumber. rewrite Hw. cbn [mbind result_bind].
  assert (checkpoint_chk (set_head newHead (p + Z.of_nat (length suf)) (bump s)) = true) as Hc.
  { unfold checkpoint_chk. cbn. apply Z.leb_le. lia. }
  rewrite (advanceHead_total _ _ _ _ _ Hs Hc). cbn [mbind result_bind]. eexists. split; [reflexivity|].
  match goal with |- tracks ?d _ _ ∧ _ => assert (space_of space d =
    set_head newHead (p + Z.of_nat (length suf)) (bump s)) as Hso by
    (unfold space_of, findSequenceSpace; cbn; by rewrite lookup_insert_eq) end.
  split; [|by rewrite Hso]. split; rewrite Hso; cbn [seq_epoch head_seq head_sha set_head bump]; try done.
Qed.

(** ** Reassignment follows the new chain *)

(** [C7] When the part of the old numbering up to the merge base is also the beginning of the new
    first-parent chain, reassignment numbers the new chain in the next epoch and leaves the
    rows of every earlier epoch as they are.  ([copied_prefix_off_chain] is a history on which
    the first condition fails.) *)
Theorem reassign_follows_chain env g space storedHead newHead correlationId db s old suf baseSha baseSeq :
  locked env = true -> findSequenceSpace space db = Some s -> head_sha s = Some storedHead ->
  numbered db space (seq_epoch s) old -> NoDup old ->
  (forall n, rows db space (seq_epoch s + 1) n = None) ->
  reassign_base g space (seq_epoch s) storedHead newHead db = Ok (baseSha, baseSeq) ->
  firstParentCommits g baseSha newHead = Ok suf ->
  let chain := take (Z.to_nat baseSeq) old ++ map c_sha suf in
  NoDup chain -> last chain = Some newHead ->
  ∃ db', reassign_tx env g space storedHead newHead correlationId db
         = Commit db' (reassigned (seq_epoch s) (seq_epoch s + 1) (baseSeq + 1)
                         (countAbove space (seq_epoch s) baseSeq db) (Z.of_nat (length chain)) newHead) ∧
    tracks db' space chain ∧ seq_epoch (space_of space db') = seq_epoch s + 1 ∧
    forall s' e n, ~ (s' = space ∧ e = seq_epoch s + 1) -> rows db' s' e n = rows db s' e n.
Proof.
  intros Hl Hs Hh Hold Hnd Hfree Hbase Hfp chain Hnd2 Hlast.
  assert (0 <= baseSeq <= Z.of_nat (length old)) as Hp.
  { unfold reassign_base in Hbase. destruct (mergeBase g storedHead newHead) as [[b|]|]; cbn in Hbase; [|injection Hbase as _ <-; lia|discriminate].
    destruct (findSeqByCommit _ _ b db) as [n|] eqn:E; injection Hbase as _ <-; [|lia].
    apply findSeqByCommit_Some in E as (r & Hr & _). specialize (Hold n). rewrite Hr in Hold. cbn in Hold.
    symmetry in Hold. apply chain_at_Some in Hold. lia. }
  destruct (switch_epoch env space db s old baseSeq suf Hs Hfree Hold Hnd Hp Hnd2)
    as (db1 & db2 & k & db3 & Hb & Hc & Hw & Hn & Hsp & Hout).
  assert (baseSeq + Z.of_nat (length suf) = Z.of_nat (length chain)) as Hlen.
  { unfold chain. rewrite length_app, length_take, length_map. lia. }
  destruct (renumber_total env space _ baseSeq suf newHead (js "sequence_reassigned")
    (js "sequence_reassigned") correlationId (seq_epoch s) db2 db3 s chain Hw Hsp eq_refl Hn Hlast Hlen)
    as (db4 & Hr & Ht & He & _ & Hsame).
  exists db4. unfold reassign_tx. rewrite Hl, Hs, Hh, bool_decide_eq_true_2 by done. cbn [negb].
  rewrite Hbase, Hb. cbn [mbind result_bind]. rewrite Hc. cbn [mbind result_bind]. rewrite Hfp.
  cbn [mbind result_bind]. rewrite Hr. cbn [mbind result_bind]. rewrite Hlen. split_and!; try done.
  intros s' e n Hne. rewrite Hsame. by apply Hout.
Qed.

(** ** Repair restores the chain *)

Lemma elem_stored space epoch db e :
  e ∈ listStoredSequence space epoch 1 db <->
  1 <= mergeSeq e ∧ commit_sha <$> rows db space epoch (mergeSeq e) = Some (commitSha e).
Proof.
  unfold listStoredSequence. rewrite list_elem_of_fmap. split.
  - intros ([n r] & -> & Hin). apply elem_filter in Hin as [Hin Hn]. apply elem_rows_of in Hin.
    cbn in *. rewrite Hin. split; [lia|done].
  - intros [Hn Hr]. destruct (rows db space epoch (mergeSeq e)) as [r|] eqn:E; [|done].
    injection Hr as Hr. exists (mergeSeq e, r). rewrite elem_filter, elem_rows_of. cbn.
    rewrite Hr. split; [by destruct e|]. split; [done|]. lia.
Qed.

(** Below the first mismatch the stored numbers are the chain's, up to the case of the hashes. *)
Lemma mismatch_prefix space epoch db old actual m :
  numbered db space epoch old ->
  firstSequenceMismatch (listStoredSequence space epoch 1 db) actual = Some m ->
  1 <= mm_mergeSeq m <= Z.of_nat (length old) ∧ mm_mergeSeq m - 1 <= Z.of_nat (length actual) ∧
  forall n, n < mm_mergeSeq m -> ascii_lower <$> chain_at old n = ascii_lower <$> chain_at actual n.
Proof.
  intros Hold Hm. pose proof (firstSequenceMismatch_spec (listStoredSequence space epoch 1 db) actual) as Hspec.
  rewrite Hm in Hspec. destruct Hspec as (e & He & Hn & _ & _ & _ & Hbelow).
  apply elem_stored in He as [He1 He]. rewrite Hold in He. apply chain_at_Some in He as [He _].
  assert (forall n, n < mm_mergeSeq m -> ascii_lower <$> chain_at old n = ascii_lower <$> chain_at actual n) as Hlow.
  { intros n Hlt. unfold chain_at at 1. destruct (Z.ltb_spec n 1) as [H1|H1].
    { unfold chain_at. by rewrite (proj2 (Z.ltb_lt n 1) H1). }
    destruct (lookup_lt_is_Some_2 old (Z.to_nat (n - 1)) ltac:(lia)) as [sha Hsha]. rewrite Hsha.
    assert (agrees actual (mkStored n sha) = true) as Hag.
    { apply Hbelow; [|cbn; lia]. apply elem_stored. cbn [mergeSeq commitSha]. split; [lia|].
      rewrite (Hold n). unfold chain_at. by rewrite (proj2 (Z.ltb_ge n 1) H1). }
    unfold agrees in Hag. cbn [mergeSeq commitSha] in Hag.
    destruct (chain_at actual n) as [a|]; [|done]. apply jeqb_eq in Hag. cbn. by rewrite Hag. }
  split_and!; [lia..| |done].
  destruct (Z.leb_spec (mm_mergeSeq m) 1); [lia|].
  assert (is_Some (ascii_lower <$> chain_at actual (mm_mergeSeq m - 1))) as Hs.
  { rewrite <- Hlow by lia. unfold chain_at. rewrite (proj2 (Z.ltb_ge _ _)) by lia.
    destruct (lookup_lt_is_Some_2 old (Z.to_nat (mm_mergeSeq m - 1 - 1)) ltac:(lia)) as [sha ->]. by eexists. }
  destruct (chain_at actual (mm_mergeSeq m - 1)) eqn:E; [|by destruct Hs].
  apply chain_at_Some in E. lia.
Qed.

(** The verified prefix and the rest of the actual chain make a chain without repetitions that
    is the actual one up to the case of the hashes. *)
Lemma spliced_chain old actual N :
  NoDup old -> NoDup (map ascii_lower actual) -> 1 <= N <= Z.of_nat (length old) ->
  N - 1 <= Z.of_nat (length actual) ->
  (forall n, n < N -> ascii_lower <$> chain_at old n = ascii_lower <$> chain_at actual n) ->
  let chain := take (Z.to_nat (N - 1)) old ++ drop (Z.to_nat (N - 1)) actual in
  NoDup chain ∧ length chain = length actual ∧
  forall n, ascii_lower <$> chain_at chain n = ascii_lower <$> chain_at actual n.
Proof.
  intros Hnd Hnda HN HN2 Hlow chain. split_and!.
  - apply NoDup_app. split_and!.
    + rewrite <- (take_drop (Z.to_nat (N - 1)) old) in Hnd. by apply NoDup_app in Hnd as [Hnd _].
    + intros x Hx Hd. apply list_elem_of_lookup in Hx as [i Hi], Hd as [j Hj].
      apply lookup_take_Some in Hi as [Hi Hlt]. rewrite lookup_drop in Hj.
      specialize (Hlow (Z.of_nat i + 1) ltac:(lia)). unfold chain_at in Hlow.
      rewrite (proj2 (Z.ltb_ge _ _)) in Hlow by lia.
      replace (Z.to_nat (Z.of_nat i + 1 - 1)) with i in Hlow by lia. rewrite Hi in Hlow.
      destruct (actual !! i) as [a|] eqn:Ha; [|done]. injection Hlow as Hlow.
      assert (map ascii_lower actual !! i = Some (ascii_lower x)) as H1.
      { rewrite Hlow. change (map ascii_lower actual) with (ascii_lower <$> actual).
        by rewrite list_lookup_fmap, Ha. }
      assert (map ascii_lower actual !! (Z.to_nat (N - 1) + j)%nat = Some (ascii_lower x)) as H2.
      { change (map ascii_lower actual) with (ascii_lower <$> actual). by rewrite list_lookup_fmap, Hj. }
      pose proof (NoDup_lookup _ _ _ _ Hnda H1 H2). lia.
    + apply NoDup_fmap_1 in Hnda. rewrite <- (take_drop (Z.to_nat (N - 1)) actual) in Hnda.
      by apply NoDup_app in Hnda as (_ & _ & Hnda).
  - unfold chain. rewrite length_app, length_take, length_drop. lia.
  - intros n. unfold chain. rewrite chain_at_app, length_take, Nat.min_l by lia. rewrite Z2Nat.id by lia.
    destruct (Z.leb_spec n (N - 1)).
    + rewrite <- Hlow by lia. unfold chain_at. destruct (Z.ltb_spec n 1); [done|]. by rewrite lookup_take_lt by lia.
    + rewrite lookup_drop. unfold chain_at. rewrite (proj2 (Z.ltb_ge _ _)) by lia. do 2 f_equal. lia.
Qed.

Lemma no_mismatch db space epoch actual :
  (forall n, ascii_lower <$> (commit_sha <$> rows db space epoch n) = ascii_lower <$> chain_at actual n) ->
  firstSequenceMismatch (listStoredSequence space epoch 1 db) actual = None.
Proof.
  intros H. pose proof (firstSequenceMismatch_spec (listStoredSequence space epoch 1 db) actual) as Hspec.
  destruct (firstSequenceMismatch _ _) as [m|]; [exfalso|done].
  destruct Hspec as (e & He & _ & _ & _ & Hbad & _). apply elem_stored in He as [_ He].
  specialize (H (mergeSeq e)). rewrite He in H. unfold agrees in Hbad.
  destruct (chain_at actual (mergeSeq e)); [|done]. injection H as H. apply jeqb_neq in Hbad. by apply Hbad.
Qed.

(** [C5] When something stored disagrees with the first-parent chain and the branch does not move
    meanwhile, repair verifies the prefix below the first mismatch, opens the next epoch and
    numbers in it the whole actual chain (hashes up to case): the check that found the
    mismatch finds none any more, the head is the branch's, and no earlier epoch changes. *)
Theorem repair_restores_chain env g live space correlationId db s old actual head m suf :
  locked env = true -> findSequenceSpace space db = Some s ->
  numbered db space (seq_epoch s) old -> NoDup old ->
  (forall n, rows db space (seq_epoch s + 1) n = None) ->
  resolveHead g (snd space) = Ok (Some head) -> firstParentRevList g None head = Ok actual ->
  NoDup (map ascii_lower actual) -> live = Ok (Some head) ->
  firstSequenceMismatch (listStoredSequence space (seq_epoch s) 1 db) actual = Some m ->
  firstParentCommits g (repair_from (mkAnalysis head s actual (mm_mergeSeq m))) head = Ok suf ->
  map c_sha suf = drop (Z.to_nat (mm_mergeSeq m - 1)) actual ->
  ∃ db', repairSequence env g live space correlationId db
         = (db', repaired (seq_epoch s) (seq_epoch s + 1) (mm_mergeSeq m) (Z.of_nat (length actual)) head
                   (countAbove space (seq_epoch s) (mm_mergeSeq m - 1) db)) ∧
    seq_epoch (space_of space db') = seq_epoch s + 1 ∧
    head_seq (space_of space db') = Z.of_nat (length actual) ∧
    head_sha (space_of space db') = Some head ∧
    (forall n, ascii_lower <$> (commit_sha <$> rows db' space (seq_epoch s + 1) n)
               = ascii_lower <$> chain_at actual n) ∧
    firstSequenceMismatch (listStoredSequence space (seq_epoch s + 1) 1 db') actual = None ∧
    forall s' e n, ~ (s' = space ∧ e = seq_epoch s + 1) -> rows db' s' e n = rows db s' e n.
Proof.
  intros Hl Hs Hold Hnd Hfree Hhead Hact Hnda -> Hm Hfp Hsuf. set (N := mm_mergeSeq m) in *.
  destruct (mismatch_prefix space _ db old actual m Hold Hm) as (HN & HN2 & Hlow). fold N in HN, HN2, Hlow.
  destruct (spliced_chain old actual N Hnd Hnda HN HN2 Hlow) as (Hndc & Hlen & Hci).
  rewrite <- Hsuf in Hndc, Hlen, Hci. set (chain := take (Z.to_nat (N - 1)) old ++ map c_sha suf) in *.
  set (db0 := markReassigning space db). set (s0 := with_state ss_reassigning None s).
  assert (sequence_space db0 !! space = Some s0) as Hs0.
  { unfold db0, markReassigning, update_space. unfold findSequenceSpace in Hs. rewrite Hs. cbn. apply lookup_insert_eq. }
  assert (forall s' e n, rows db0 s' e n = rows db s' e n) as Hr0.
  { intros. unfold db0, markReassigning, update_space. unfold findSequenceSpace in Hs. by rewrite Hs. }
  destruct (switch_epoch env space db0 s0 old (N - 1) suf) as (db1 & db2 & k & db3 & Hb & Hc & Hw & Hn & Hsp & Hout);
    [done|intros n; rewrite Hr0; apply Hfree|intros n; rewrite Hr0; apply Hold|done|lia|done|].
  change (seq_epoch s0) with (seq_epoch s) in *. change (bump s0) with (bump (with_state ss_reassigning None s)) in Hsp.
  assert (Z.of_nat (length actual) = N - 1 + Z.of_nat (length suf)) as Hlen'.
  { rewrite <- Hlen. unfold chain. rewrite length_app, length_take, length_map. lia. }
  assert (checkpoint_chk (set_head head (N - 1 + Z.of_nat (length suf)) (bump (with_state ss_reassigning None s))) = true) as Hchk.
  { unfold checkpoint_chk. cbn. apply Z.leb_le. lia. }
  pose proof (advanceHead_total space head _ db3 _ Hsp Hchk) as Hadv.
  assert ((1 <? N) = (0 <? N - 1)) as Hlt by (destruct (Z.ltb_spec 1 N), (Z.ltb_spec 0 (N - 1)); lia).
  unfold repairSequence, repair_analyse. rewrite Hhead, Hs, Hact, Hm. fold N.
  unfold repair_fence. rewrite Hl, Hs. cbn [negb an_space]. rewrite Z.eqb_refl, bool_decide_eq_true_2 by done.
  cbn [negb]. fold db0. unfold repair_tx. cbn [an_space an_head divergedAtSeq].
  rewrite Hb. cbn [mbind result_bind]. rewrite Hlt, Hc. cbn [mbind result_bind]. rewrite Hfp.
  cbn [mbind result_bind]. rewrite Hw. cbn [mbind result_bind]. rewrite bool_decide_eq_true_2 by done.
  cbn [negb]. rewrite Hadv. cbn [mbind result_bind]. eexists. split.
  { rewrite Hlen'. f_equal. f_equal. unfold countAbove. do 2 f_equal. f_equal. unfold db0, rows_of, markReassigning, update_space.
    unfold findSequenceSpace in Hs. by rewrite Hs. }
  match goal with |- seq_epoch (space_of space ?d) = _ ∧ _ => assert (space_of space d =
    set_head head (N - 1 + Z.of_nat (length suf)) (bump (with_state ss_reassigning None s))) as Hso by
    (unfold space_of, findSequenceSpace; cbn; by rewrite lookup_insert_eq) end.
  match goal with |- seq_epoch (space_of space ?d) = _ ∧ _ =>
    assert (forall s' e n, rows d s' e n = rows db3 s' e n) as Hr3 by reflexivity end.
  rewrite Hso. split_and!; [done|cbn; lia|done| | |].
  - intros n. rewrite Hr3, (Hn n). apply Hci.
  - apply no_mismatch. intros n. rewrite Hr3, (Hn n). apply Hci.
  - intros s' e n Hne. rewrite Hr3, Hout by done. apply Hr0.
Qed.

(** ** Histories on which a chain is left *)

(** [M] merges the main line [A - B] into a branch [X] from [A]: its first parent is [X].  The
    stored head [B] is an ancestor of [M], so this is no rewriting for [assignSequence]; but
    [B] is not on the first-parent chain of [M], and the numbers are not the chain's. *)
Definition foxtrot : History :=
  history [("A", []); ("B", ["A"]); ("X", ["A"]); ("M", ["X"; "B"])]%string.
Definition db_foxtrot : Db := after db_ab (assign_tx env0 (git foxtrot (js "M")) main [] db_ab).
Lemma ancestor_is_not_first_parent :
  numbers_of main 1 db_foxtrot = [(1, js "A"); (2, js "B"); (3, js "X"); (4, js "M")] ∧
  firstParentRevList (git foxtrot (js "M")) None (js "M") = Ok [js "A"; js "X"; js "M"] ∧
  firstSequenceMismatch (listStoredSequence main 1 1 db_foxtrot) [js "A"; js "X"; js "M"]
  = Some (mkMismatch 2 (js "B") (Some (js "X"))).
Proof. split_and!; vm_compute; reflexivity. Qed.

(** The same with a rewriting: [C] is dropped by a forced push of [M].  The merge base [B] is
    on the stored chain, so [A] and [B] are copied; the new first-parent chain is [A - X - M]. *)
Definition forced : History :=
  history [("A", []); ("B", ["A"]); ("C", ["B"]); ("X", ["A"]); ("M", ["X"; "B"])]%string.
Definition db_forced : Db :=
  match assignSequence env0 (git forced (js "M"))
          (fun _ => Some (mkRepo 7 (js "acme") (js "app") true [js "main"])) 7 (js "main") [] db_abc with
  | Ok (db, _) => db
  | Err _ => db_abc
  end.
Lemma copied_prefix_off_chain :
  numbers_of main 2 db_forced = [(1, js "A"); (2, js "B"); (3, js "X"); (4, js "M")] ∧
  firstParentRevList (git forced (js "M")) None (js "M") = Ok [js "A"; js "X"; js "M"].
Proof. split; vm_compute; reflexivity. Qed.

(** ** Witnesses *)

Lemma tracks_empty : tracks empty_db main [].
Proof.
  split; try reflexivity. intros n. unfold rows, chain_at. cbn. destruct (n <? 1); [done|]. by rewrite lookup_nil.
Qed.
Lemma assign_extends_witness :
  tracks empty_db main [] ∧
  ∃ db', assign_tx env0 (git A_B (js "B")) main [] empty_db = Ok (Commit db' (assigned 0 2 (js "B"))) ∧
    tracks db' main [js "A"; js "B"].
Proof.
  split; [exact tracks_empty|].
  destruct (assign_extends env0 (git A_B (js "B")) main [] empty_db []
    [mkCommit (js "A") (js "2026-09-01T00:00:00Z"); mkCommit (js "B") (js "2026-09-01T00:00:00Z")] (js "B")
    eq_refl tracks_empty
    ltac:(apply (bool_decide_unpack _); vm_compute; exact I) eq_refl eq_refl
    ltac:(intros old H; discriminate) ltac:(vm_compute; reflexivity)) as (db' & H & Ht & _).
  exists db'. exact (conj H Ht).
Defined.

Lemma numbered_by_list db space epoch chain :
  numbers_of space epoch db = imap (fun i s => (Z.of_nat i + 1, s)) chain -> numbered db space epoch chain.
Proof.
  intros H n. assert (forall sha, (n, sha) ∈ numbers_of space epoch db <-> commit_sha <$> rows db space epoch n = Some sha) as H1.
  { intros sha. unfold numbers_of. rewrite list_elem_of_fmap. split.
    - intros ([m r] & [= -> ->] & Hin). apply elem_rows_of in Hin. cbn. by rewrite Hin.
    - destruct (rows db space epoch n) as [r|] eqn:E; [|done]. intros [= <-]. exists (n, r).
      by rewrite elem_rows_of. }
  assert (forall sha, (n, sha) ∈ numbers_of space epoch db <-> chain_at chain n = Some sha) as H2.
  { intros sha. rewrite H, list_elem_of_lookup. unfold chain_at. split.
    - intros [i Hi]. rewrite list_lookup_imap in Hi. destruct (chain !! i) eqn:E; [|done].
      injection Hi as <- ->. rewrite (proj2 (Z.ltb_ge _ _)) by lia. rewrite <- E. f_equal. lia.
    - destruct (Z.ltb_spec n 1); [done|]. intros Hc. exists (Z.to_nat (n - 1)).
      rewrite list_lookup_imap, Hc. cbn. do 2 f_equal. lia. }
  apply option_eq. intros sha. by rewrite <- H1, H2.
Qed.
Lemma free_by_list db space epoch : rows_of space epoch db = [] -> forall n, rows db space epoch n = None.
Proof.
  intros H n. destruct (rows db space epoch n) as [r|] eqn:E; [|done].
  apply elem_rows_of in E. rewrite H in E. by apply elem_of_nil in E.
Qed.

(** The commit [C] is replaced by [D]. *)
Definition A_B_D : History := history [("A", []); ("B", ["A"]); ("C", ["B"]); ("D", ["B"])]%string.
Definition sha_list (l : list string) : list jstr := map js l.
Definition abc : list jstr := sha_list ["A"; "B"; "C"]%string.
Lemma abc_numbered : numbered db_abc main 1 abc.
Proof. apply numbered_by_list. vm_compute. reflexivity. Qed.

Lemma reassign_follows_chain_witness :
  ∃ db', reassign_tx env0 (git A_B_D (js "D")) main (js "C") (js "D") [] db_abc
         = Commit db' (reassigned 1 2 3 1 3 (js "D")) ∧
    tracks db' main (sha_list ["A"; "B"; "D"]%string).
Proof.
  destruct (reassign_follows_chain env0 (git A_B_D (js "D")) main (js "C") (js "D") [] db_abc
    (mkSpace 1 (Some (js "C")) 3 ss_ok None 0 0 None) abc
    [mkCommit (js "D") (js "2026-09-01T00:00:00Z")] (Some (js "B")) 2
    eq_refl ltac:(vm_compute; reflexivity) eq_refl abc_numbered
    ltac:(apply (bool_decide_unpack _); vm_compute; exact I)
    (free_by_list db_abc main 2 ltac:(vm_compute; reflexivity))
    ltac:(vm_compute; reflexivity) ltac:(vm_compute; reflexivity)
    ltac:(apply (bool_decide_unpack _); vm_compute; exact I) ltac:(vm_compute; reflexivity))
    as (db' & H & Ht & _).
  exists db'. split; [|exact Ht]. rewrite H. vm_compute. reflexivity.
Defined.

(** Repair of the space that [foxtrot] left behind. *)
Lemma foxtrot_numbered : numbered db_foxtrot main 1 (sha_list ["A"; "B"; "X"; "M"]%string).
Proof. apply numbered_by_list. vm_compute. reflexivity. Qed.
Lemma repair_restores_chain_witness :
  ∃ db', repairSequence env0 (git foxtrot (js "M")) (Ok (Some (js "M"))) main [] db_foxtrot
         = (db', repaired 1 2 2 3 (js "M") 3) ∧
    firstSequenceMismatch (listStoredSequence main 2 1 db') (sha_list ["A"; "X"; "M"]%string) = None.
Proof.
  destruct (repair_restores_chain env0 (git foxtrot (js "M")) (Ok (Some (js "M"))) main [] db_foxtrot
    (mkSpace 1 (Some (js "M")) 4 ss_ok None 0 0 None) (sha_list ["A"; "B"; "X"; "M"]%string)
    (sha_list ["A"; "X"; "M"]%string) (js "M") (mkMismatch 2 (js "B") (Some (js "X")))
    [mkCommit (js "X") (js "2026-09-01T00:00:00Z"); mkCommit (js "M") (js "2026-09-01T00:00:00Z")]
    eq_refl ltac:(vm_compute; reflexivity) foxtrot_numbered
    ltac:(apply (bool_decide_unpack _); vm_compute; exact I)
    (free_by_list db_foxtrot main 2 ltac:(vm_compute; reflexivity))
    ltac:(vm_compute; reflexivity) ltac:(vm_compute; reflexivity)
    ltac:(apply (bool_decide_unpack _); vm_compute; exact I) eq_refl
    ltac:(vm_compute; reflexivity) ltac:(vm_compute; reflexivity) ltac:(vm_compute; reflexivity))
    as (db' & H & _ & _ & _ & _ & Hm & _).
  exists db'. split; [|exact Hm]. exact H.
Defined.
