(* ===== verification/MNumberEvidence.v ===== *)
(** * Evidence for M numbers

    The evidence of a number: its table and statements
    ([packages/db/src/repositories/mnumber-evidence.ts]), how it is decided
    ([apps/pipeline-worker/src/mnumber-evidence.ts]) and what an operator's attestation
    adds to it ([apps/pipeline-worker/src/mnumber-attestation.ts]).  The commit graph, the
    snapshots of pull requests and GitHub are functions; [Date.parse], [toISOString] and
    the hash of a request id are parameters.  Times are milliseconds. *)

From stdpp Require Import base list option strings numbers gmap.
From Stdlib Require Import ZArith Lia.
From S2P Require Import Prelude JsString Json MergeNumber MNumberPlan.
Open Scope Z_scope.

Module Evidence.

(** ** The table *)

Abbreviation EvidenceState := PlanDecision.

Inductive EvidenceSourceKind : Set :=
| pr_detail | verified_snapshot | unresolved_lookup | authoritative_absence | operator_attestation.

Abbreviation Proof_ := (list (jstr * json)).

Record EvidenceRow : Set := mkEvidence {
  commit_sha : jstr; ev_state : EvidenceState; pr_number : option Z;
  ev_reason : option MergeNumberBlockReason; evidence_version : Z; source_kind : EvidenceSourceKind;
  source_pr_version : option Z; merged_at : option Z; checked_at : Z; first_pending_at : option Z;
  ev_proof : Proof_
}.

Record EvidenceUpsert : Set := mkUpsert {
  up_repositoryId : Z; up_baseBranch : jstr; up_seqEpoch : Z; up_mergeSeq : Z; up_commitSha : jstr;
  up_state : EvidenceState; up_prNumber : option Z; up_reason : option MergeNumberBlockReason;
  up_sourceKind : EvidenceSourceKind; up_sourcePrVersion : option Z; up_mergedAt : option Z;
  up_proof : Proof_
}.

Abbreviation EvidenceKey := (Z * jstr * Z * Z)%type.
Abbreviation Table := (gmap EvidenceKey EvidenceRow).
Definition key_of (u : EvidenceUpsert) : EvidenceKey :=
  (up_repositoryId u, up_baseBranch u, up_seqEpoch u, up_mergeSeq u).

Definition is_confirmed (s : EvidenceState) : bool :=
  match s with pr_confirmed | direct_confirmed => true | unresolved => false end.

Inductive UpsertError : Set :=
| EvidenceDowngradeError (mergeSeq : Z) (kept : EvidenceState)
| DifferentCommit (mergeSeq : Z) (commitSha : jstr).

(** [clock]: [clock_timestamp()]. *)
Definition upsertEvidence (clock : Z) (u : EvidenceUpsert) (t : Table)
  : result UpsertError (Table * EvidenceRow) :=
  let sha := ascii_lower (up_commitSha u) in
  let open := negb (is_confirmed (up_state u)) in
  let row version pending :=
    mkEvidence sha (up_state u) (up_prNumber u) (up_reason u) version (up_sourceKind u)
      (up_sourcePrVersion u) (up_mergedAt u) clock pending (up_proof u) in
  match t !! key_of u with
  | None =>
    let r := row 1 (if open then Some clock else None) in
    Ok (<[key_of u := r]> t, r)
  | Some old =>
    if jeqb (commit_sha old) sha && negb (is_confirmed (ev_state old) && open) then
      let r := row (evidence_version old + 1)
                 (if open then Some (match first_pending_at old with Some p => p | None => clock end) else None) in
      Ok (<[key_of u := r]> t, r)
    else if jeqb (commit_sha old) sha && open then Err (EvidenceDowngradeError (up_mergeSeq u) (ev_state old))
    else Err (DifferentCommit (up_mergeSeq u) (up_commitSha u))
  end.

(** [listEvidence], [lockEvidence]: the rows of some numbers; a number without one is absent. *)
Definition listEvidence (repositoryId : Z) (baseBranch : jstr) (epoch : Z) (t : Table) (mergeSeq : Z)
  : option EvidenceRow :=
  t !! (repositoryId, baseBranch, epoch, mergeSeq).

(** The confirmed pull request of the highest number up to [upto], by its merge time. *)
Definition findLastConfirmedMergedAt (repositoryId : Z) (baseBranch : jstr) (epoch upto : Z) (t : Table)
  : option Z :=
  let pick (best : option (Z * option Z)) (kr : EvidenceKey * EvidenceRow) :=
    let '((r, b, e), n, row) := (fst (fst kr), snd (fst kr), snd kr) in
    if (r =? repositoryId) && jeqb b baseBranch && (e =? epoch) && (n <=? upto)
       && bool_decide (ev_state row = pr_confirmed)
       && match best with Some (m, _) => m <? n | None => true end
    then Some (n, merged_at row) else best in
  match foldl pick None (map_to_list t) with Some (_, m) => m | None => None end.

(** ** What the decision is made from *)

Record PullRequestEvidence : Set := mkDetail {
  d_merged : bool; d_merged_at : option jstr; d_merge_commit_sha : option jstr;
  d_updated_at : option jstr; d_base_ref : jstr; d_base_repo : option Z
}.
Record CommitPullRequestsPage : Set := mkPage {
  pg_items : list Z; pg_nextPage : option Z; pg_requestId : option jstr
}.
(** [sn_document] is the snapshot's document. *)
Record Snapshot : Set := mkSnapshot {
  sn_repository_id : Z; sn_pr_number : Z; sn_document_version : Z; sn_document : list (jstr * json)
}.
(** A call of GitHub fails with a [GitHubApiError] or with anything else. *)
Inductive CallError : Set := ApiError | OtherFailure (message : jstr).

Record EvidenceSource : Set := mkSource {
  getPullRequestEvidence : Z -> result CallError (option PullRequestEvidence);
  listPullRequestsForCommitPage : jstr -> Z -> result CallError CommitPullRequestsPage
}.

(** [parents]: how many parents the commit has; a failure and an absent commit are [None].
    The clock is read when the recheck is decided, when the scan starts and when it ends. *)
Record EvidenceDeps : Set := mkDeps {
  parents : jstr -> option Z;
  snapshots : list Snapshot;
  source : option EvidenceSource;
  maxPagesPerRound : option Z;
  now_check : Z; now_start : Z; now_end : Z
}.

Record EvidenceSubject : Set := mkSubject {
  s_repositoryId : Z; s_baseBranch : jstr; s_seqEpoch : Z; s_mergeSeq : Z; s_commitSha : jstr;
  candidateHint : option Z; existing : option EvidenceRow
}.

Inductive EvidenceDecision : Set :=
| ConfirmedPr (prNumber : Z) (mergedAt : option Z) (upsert : EvidenceUpsert)
| ConfirmedDirect (upsert : option EvidenceUpsert)
| Unresolved (reason : MergeNumberBlockReason) (upsert : EvidenceUpsert).

Section Decide.
Context (date_parse : jstr -> option Z) (toISOString : Z -> jstr) (hash : jstr -> jstr).

Definition EVIDENCE_RECHECK_MS : Z := 60000.
Definition DEFAULT_MAX_PAGES : Z := 100.

(** [{ ...proof, key: value }] *)
Fixpoint put (k : jstr) (v : json) (p : Proof_) : Proof_ :=
  match p with
  | [] => [(k, v)]
  | (k', v') :: p => if jeqb k' k then (k, v) :: p else (k', v') :: put k v p
  end.
Definition baseProof : Proof_ :=
  [(js "schema_version", JNum 1); (js "profile", JStr (js "squash_only"))].
Definition hashRequestId (requestId : option jstr) : option jstr :=
  match requestId with Some r => Some (take 16 (hash r)) | None => None end.

Definition upsert_of (s : EvidenceSubject) (st : EvidenceState) (pr : option Z)
    (reason : option MergeNumberBlockReason) (kind : EvidenceSourceKind) (version mergedAt : option Z)
    (p : Proof_) : EvidenceUpsert :=
  mkUpsert (s_repositoryId s) (s_baseBranch s) (s_seqEpoch s) (s_mergeSeq s) (s_commitSha s)
    st pr reason kind version mergedAt p.

Definition unresolved_decision (s : EvidenceSubject) (reason : MergeNumberBlockReason) (p : Proof_)
  : EvidenceDecision :=
  Unresolved reason (upsert_of s unresolved None (Some reason) unresolved_lookup None None p).
Definition confirmed (s : EvidenceSubject) (pr : Z) (mergedAt : option Z) (kind : EvidenceSourceKind)
    (version : option Z) (p : Proof_) : EvidenceDecision :=
  ConfirmedPr pr mergedAt (upsert_of s pr_confirmed (Some pr) None kind version mergedAt p).

Definition detailMatches (s : EvidenceSubject) (d : PullRequestEvidence) : bool :=
  d_merged d
  && match d_merged_at d with Some _ => true | None => false end
  && match d_merge_commit_sha d with
     | Some sha => jeqb (ascii_lower sha) (ascii_lower (s_commitSha s))
     | None => false
     end
  && jeqb (d_base_ref d) (s_baseBranch s)
  && match d_base_repo d with Some id => id =? s_repositoryId s | None => false end.

(** [None] is no match; the time is a valid one. *)
Definition snapshotMatches (s : EvidenceSubject) (sn : Snapshot) : option Z :=
  let field k := assoc k (sn_document sn) in
  let mergedAt := match field (js "merged_at") with Some (JStr t) => date_parse t | _ => None end in
  if match field (js "state") with Some (JStr v) => jeqb v (js "merged") | _ => false end
     && match field (js "merge_commit_sha") with
        | Some (JStr sha) => jeqb (ascii_lower sha) (ascii_lower (s_commitSha s)) | _ => false end
     && match field (js "base_branch") with Some (JStr b) => jeqb b (s_baseBranch s) | _ => false end
     && (sn_repository_id sn =? s_repositoryId s)
  then mergedAt else None.

Record Match : Set := mkMatch {
  m_prNumber : Z; m_mergedAt : option Z; m_sourceKind : EvidenceSourceKind; m_version : option Z
}.

(** What [verify] pushes for one candidate. *)
Definition verify (deps : EvidenceDeps) (s : EvidenceSubject) (pr : Z) (sn : option Snapshot)
  : result CallError (list Match) :=
  match source deps with
  | Some src =>
    d ← getPullRequestEvidence src pr;
    Ok (match d with
        | Some d =>
          if detailMatches s d
          then [mkMatch pr (match d_merged_at d with Some t => date_parse t | None => None end) pr_detail
                  (match d_updated_at d with Some t => date_parse t | None => None end)]
          else []
        | None => []
        end)
  | None =>
    Ok (match sn with
        | Some sn =>
          match snapshotMatches s sn with
          | Some t => [mkMatch pr (Some t) verified_snapshot (Some (sn_document_version sn))]
          | None => []
          end
        | None => []
        end)
  end.
Fixpoint verify_all (deps : EvidenceDeps) (s : EvidenceSubject) (cs : list (Z * option Snapshot))
  : result CallError (list Match) :=
  match cs with
  | [] => Ok []
  | (pr, sn) :: cs =>
    m ← verify deps s pr sn;
    ms ← verify_all deps s cs;
    Ok (m ++ ms)
  end.

(** [Map.set]: a key keeps its place. *)
Fixpoint set_candidate (pr : Z) (sn : option Snapshot) (l : list (Z * option Snapshot)) :=
  match l with
  | [] => [(pr, sn)]
  | (p, o) :: l => if p =? pr then (pr, sn) :: l else (p, o) :: set_candidate pr sn l
  end.
Definition candidates (deps : EvidenceDeps) (s : EvidenceSubject) : list (Z * option Snapshot) :=
  foldl (fun l sn => set_candidate (sn_pr_number sn) (Some sn) l)
    (match candidateHint s with Some pr => [(pr, None)] | None => [] end) (snapshots deps).

(** The pages of the linked pull requests.  [more] is how many further pages this round may
    read; the proof is shared and keeps what is written to it when a call fails. *)
Inductive EnumEnd : Set := Complete | Capped (next : Z) | Failed (e : CallError).

Fixpoint check_items (deps : EvidenceDeps) (s : EvidenceSubject) (items seen : list Z) (ms : list Match)
  : list Z * list Match * option CallError :=
  match items with
  | [] => (seen, ms, None)
  | n :: items =>
    if bool_decide (n ∈ seen) then check_items deps s items seen ms
    else match verify deps s n None with
         | Ok m => check_items deps s items (n :: seen) (ms ++ m)
         | Err e => (n :: seen, ms, Some e)
         end
  end.

Fixpoint enumerate (more : nat) (deps : EvidenceDeps) (src : EvidenceSource) (s : EvidenceSubject)
    (page pageCount : Z) (seen : list Z) (ms : list Match) (p : Proof_)
  : Proof_ * Z * list Match * EnumEnd :=
  match listPullRequestsForCommitPage src (s_commitSha s) page with
  | Err e => (p, pageCount, ms, Failed e)
  | Ok response =>
    let pageCount := pageCount + 1 in
    let p := match hashRequestId (pg_requestId response) with
             | Some h => put (js "source_request_id_hash") (JStr h) p
             | None => p
             end in
    let '(seen, ms, failed) := check_items deps s (pg_items response) seen ms in
    match failed with
    | Some e => (p, pageCount, ms, Failed e)
    | None =>
      match pg_nextPage response with
      | None => (p, pageCount, ms, Complete)
      | Some next =>
        match more with
        | O => (p, pageCount, ms, Capped next)
        | S more => enumerate more deps src s next pageCount seen ms p
        end
      end
    end
  end.

(** The end of the decision: one match is the evidence, two are a conflict, none is nothing. *)
Definition decide_matches (s : EvidenceSubject) (ms : list Match) (complete : bool) (finished : Proof_)
  : EvidenceDecision :=
  match ms with
  | [] => unresolved_decision s (if complete then negative_evidence_unavailable else pr_evidence_pending) finished
  | [m] =>
    confirmed s (m_prNumber m) (m_mergedAt m) (m_sourceKind m) (m_version m)
      (put (js "merged") (JBool true)
         (put (js "matched_merge_commit_sha") (JStr (ascii_lower (s_commitSha s)))
            (put (js "matched_base_branch") (JStr (s_baseBranch s))
               (put (js "matched_repository_id") (JNum (s_repositoryId s)) finished))))
  | _ => unresolved_decision s mapping_conflict finished
  end.

Definition resume_page (o : option EvidenceRow) : Z :=
  match o with
  | Some r =>
    match ev_reason r, assoc (js "resume_page") (ev_proof r) with
    | Some partial_lookup, Some (JNum n) => n
    | _, _ => 1
    end
  | None => 1
  end.

Definition scan (deps : EvidenceDeps) (s : EvidenceSubject) (p : Proof_) : result CallError EvidenceDecision :=
  let ending (p : Proof_) := put (js "scan_finished_at") (JStr (toISOString (now_end deps))) p in
  let fail (p : Proof_) (e : CallError) :=
    match e with ApiError => Ok (unresolved_decision s fetch_failed (ending p)) | _ => Err e end in
  let cs := candidates deps s in
  match verify_all deps s cs with
  | Err e => fail p e
  | Ok ms =>
    let with_complete (c : option bool) (p : Proof_) :=
      match c with Some b => put (js "lookup_complete") (JBool b) p | None => p end in
    let initial := match cs with [] => Some false | _ => None end in
    match ms, source deps with
    | [], Some src =>
      let maxPages := match maxPagesPerRound deps with Some n => n | None => DEFAULT_MAX_PAGES end in
      let '(p, pageCount, ms, e) :=
        enumerate (Z.to_nat (maxPages - 1)) deps src s (resume_page (existing s)) 0 (map fst cs) [] p in
      let counted := put (js "page_count") (JNum pageCount) in
      match e with
      | Failed e => fail p e
      | Capped next =>
        if bool_decide (ms = []) then
          Ok (unresolved_decision s partial_lookup
                (ending (put (js "resume_page") (JNum next)
                           (put (js "lookup_complete") (JBool false) (counted p)))))
        else Ok (decide_matches s ms false (ending (with_complete initial (counted p))))
      | Complete => Ok (decide_matches s ms true (ending (with_complete (Some true) (counted p))))
      end
    | _, _ => Ok (decide_matches s ms false (ending (with_complete initial p)))
    end
  end.

Definition resolveEvidence (deps : EvidenceDeps) (s : EvidenceSubject) (force : bool)
  : result CallError EvidenceDecision :=
  let fresh :=
    let p := put (js "scan_started_at") (JStr (toISOString (now_start deps))) baseProof in
    match parents deps (s_commitSha s) with
    | None => Ok (unresolved_decision s profile_unverified p)
    | Some n =>
      if 2 <=? n then Ok (unresolved_decision s unsupported_merge_profile p) else scan deps s p
    end in
  match existing s with
  | None => fresh
  | Some r =>
    match ev_state r, pr_number r, merged_at r with
    | pr_confirmed, Some pr, Some t =>
      Ok (confirmed s pr (Some t)
            (match source_kind r with verified_snapshot => verified_snapshot | _ => pr_detail end)
            (source_pr_version r) (ev_proof r))
    | pr_confirmed, _, _ => fresh
    | direct_confirmed, _, _ => Ok (ConfirmedDirect None)
    | unresolved, _, _ =>
      if negb force && negb (bool_decide (ev_reason r = Some partial_lookup))
         && (now_check deps - checked_at r <? EVIDENCE_RECHECK_MS)
      then Ok (unresolved_decision s (match ev_reason r with Some x => x | None => pr_evidence_pending end)
                 (ev_proof r))
      else fresh
    end
  end.

(** ** Attestations *)

Definition ATTESTABLE_REASONS : list MergeNumberBlockReason :=
  [negative_evidence_unavailable; unsupported_merge_profile].
Definition isAttestableReason (r : MergeNumberBlockReason) : bool := bool_decide (r ∈ ATTESTABLE_REASONS).

Record Attestation : Set := mkAttestation {
  attestation_id : Z; through_seq : option Z; grace_seconds : Z
}.
Inductive AttestationVerdict : Set :=
| NotApplicable
| GracePending (readyAt : Z)
| Attested (upsert : EvidenceUpsert).

Definition reason_name (r : MergeNumberBlockReason) : jstr :=
  match r with
  | pr_evidence_pending => js "pr_evidence_pending"
  | negative_evidence_unavailable => js "negative_evidence_unavailable"
  | partial_lookup => js "partial_lookup"
  | profile_unverified => js "profile_unverified"
  | unsupported_merge_profile => js "unsupported_merge_profile"
  | mapping_conflict => js "mapping_conflict"
  | fetch_failed => js "fetch_failed"
  | number_capacity_exceeded => js "number_capacity_exceeded"
  | canonical_mismatch => js "canonical_mismatch"
  end.

Definition applyAttestation (a : Attestation) (d : EvidenceDecision) (rowSeq committedAt now : Z)
  : AttestationVerdict :=
  match d with
  | Unresolved reason u =>
    if negb (isAttestableReason reason) then NotApplicable
    else if match through_seq a with Some t => t <? rowSeq | None => false end then NotApplicable
    else
      let readyAt := committedAt + grace_seconds a * 1000 in
      if now <? readyAt then GracePending readyAt
      else Attested (mkUpsert (up_repositoryId u) (up_baseBranch u) (up_seqEpoch u) (up_mergeSeq u)
                       (up_commitSha u) direct_confirmed None None operator_attestation None None
                       (put (js "committed_at") (JStr (toISOString committedAt))
                          (put (js "grace_seconds") (JNum (grace_seconds a))
                             (put (js "attested_at") (JStr (toISOString now))
                                (put (js "attested_reason") (JStr (reason_name reason))
                                   (put (js "attestation_id") (JNum (attestation_id a)) (up_proof u)))))))
  | _ => NotApplicable
  end.

(** ** Lemmas *)

(** GitHub says of pull request [pr] that it was merged into the branch of the repository as
    the commit of the subject: in its detail or, without credentials, in a stored snapshot. *)
Definition backed (deps : EvidenceDeps) (s : EvidenceSubject) (pr : Z) : Prop :=
  match source deps with
  | Some src => ∃ d sha, getPullRequestEvidence src pr = Ok (Some d) ∧
      d_merged d = true ∧ is_Some (d_merged_at d) ∧
      d_merge_commit_sha d = Some sha ∧ ascii_lower sha = ascii_lower (s_commitSha s) ∧
      d_base_ref d = s_baseBranch s ∧ d_base_repo d = Some (s_repositoryId s)
  | None => ∃ sn sha time, sn ∈ snapshots deps ∧ sn_pr_number sn = pr ∧
      sn_repository_id sn = s_repositoryId s ∧
      assoc (js "state") (sn_document sn) = Some (JStr (js "merged")) ∧
      assoc (js "merge_commit_sha") (sn_document sn) = Some (JStr sha) ∧
      ascii_lower sha = ascii_lower (s_commitSha s) ∧
      assoc (js "base_branch") (sn_document sn) = Some (JStr (s_baseBranch s)) ∧
      assoc (js "merged_at") (sn_document sn) = Some (JStr time) ∧ is_Some (date_parse time)
  end.

Lemma detailMatches_spec s d :
  detailMatches s d = true -> ∃ sha, d_merged d = true ∧ is_Some (d_merged_at d) ∧
    d_merge_commit_sha d = Some sha ∧ ascii_lower sha = ascii_lower (s_commitSha s) ∧
    d_base_ref d = s_baseBranch s ∧ d_base_repo d = Some (s_repositoryId s).
Proof.
  unfold detailMatches. intros [[[[H1 H2]%andb_prop H3]%andb_prop H4]%andb_prop H5]%andb_prop.
  destruct (d_merge_commit_sha d) as [sha|]; [|done]. exists sha. destruct (d_base_repo d) as [id|]; [|done].
  apply jeqb_eq in H3, H4. apply Z.eqb_eq in H5 as ->. destruct (d_merged_at d); [|done]. by split_and!.
Qed.
Lemma snapshotMatches_spec s sn t :
  snapshotMatches s sn = Some t -> ∃ sha time, sn_repository_id sn = s_repositoryId s ∧
      assoc (js "state") (sn_document sn) = Some (JStr (js "merged")) ∧
      assoc (js "merge_commit_sha") (sn_document sn) = Some (JStr sha) ∧
      ascii_lower sha = ascii_lower (s_commitSha s) ∧
      assoc (js "base_branch") (sn_document sn) = Some (JStr (s_baseBranch s)) ∧
      assoc (js "merged_at") (sn_document sn) = Some (JStr time) ∧ is_Some (date_parse time).
Proof.
  unfold snapshotMatches. destruct (_ && _) eqn:E; [|done].
  apply andb_prop in E as [[[H1 H2]%andb_prop H3]%andb_prop H4%Z.eqb_eq].
  destruct (assoc (js "state") _) as [[]|]; try done. apply jeqb_eq in H1 as ->.
  destruct (assoc (js "merge_commit_sha") _) as [[]|]; try done. apply jeqb_eq in H2.
  destruct (assoc (js "base_branch") _) as [[]|]; try done. apply jeqb_eq in H3 as ->.
  destruct (assoc (js "merged_at") _) as [[]|]; try done. intros Ht. do 2 eexists. by split_and!.
Qed.

Lemma verify_backed deps s pr sn ms m :
  (forall x, sn = Some x -> x ∈ snapshots deps ∧ sn_pr_number x = pr) ->
  verify deps s pr sn = Ok ms -> m ∈ ms -> m_prNumber m = pr ∧ backed deps s pr.
Proof.
  unfold verify, backed. intros Hsn. destruct (source deps) as [src|].
  - destruct (getPullRequestEvidence src pr) as [[d|]|e] eqn:E; cbn; [|intros [= <-] H|discriminate].
    + destruct (detailMatches s d) eqn:Ed; intros [= <-] H; [|by apply elem_of_nil in H].
      apply list_elem_of_singleton in H as ->. split; [done|].
      apply detailMatches_spec in Ed as [sha Ed]. by exists d, sha.
    + by apply elem_of_nil in H.
  - destruct sn as [sn|]; [|intros [= <-] H; by apply elem_of_nil in H].
    destruct (snapshotMatches s sn) as [t|] eqn:Es; intros [= <-] H; [|by apply elem_of_nil in H].
    apply list_elem_of_singleton in H as ->. destruct (Hsn sn eq_refl). split; [done|].
    apply snapshotMatches_spec in Es as (sha & time & Es). by exists sn, sha, time.
Qed.

Lemma set_candidate_elem pr sn l p o :
  (p, o) ∈ set_candidate pr sn l -> (p = pr ∧ o = sn) \/ (p, o) ∈ l.
Proof.
  induction l as [|[q v] l IH]; cbn [set_candidate].
  - intros H. apply list_elem_of_singleton in H. injection H as -> ->. by left.
  - destruct (q =? pr).
    + intros [H|H]%elem_of_cons; [injection H as -> ->; by left|right; by right].
    + intros [H|H]%elem_of_cons; [right; rewrite H; by left|].
      destruct (IH H) as [?|?]; [by left|right; by right].
Qed.

Lemma candidates_from deps s p x :
  (p, Some x) ∈ candidates deps s -> x ∈ snapshots deps ∧ sn_pr_number x = p.
Proof.
  unfold candidates. generalize (snapshots deps) as l.
  assert ((p, Some x) ∉ match candidateHint s with Some pr => [(pr, None)] | None => [] end) as H0.
  { destruct (candidateHint s); [|apply not_elem_of_nil]. intros H. by apply list_elem_of_singleton in H. }
  revert H0. generalize (match candidateHint s with Some pr => [(pr, @None Snapshot)] | None => [] end) as acc.
  intros acc Hacc l Hin.
  assert (forall l acc, (p, Some x) ∈ foldl (fun l sn => set_candidate (sn_pr_number sn) (Some sn) l) acc l ->
    (x ∈ l ∧ sn_pr_number x = p) \/ (p, Some x) ∈ acc) as Hf.
  { clear. induction l as [|y l IH]; intros acc H; [by right|]. cbn [foldl] in H.
    destruct (IH _ H) as [[? ?]|H'].
    - left. split; [by right|done].
    - apply set_candidate_elem in H' as [[-> [= ->]]|?]; [left; split; [by left|done]|by right]. }
  by destruct (Hf l acc Hin).
Qed.

Lemma verify_all_backed deps s cs ms m :
  (forall p x, (p, Some x) ∈ cs -> x ∈ snapshots deps ∧ sn_pr_number x = p) ->
  verify_all deps s cs = Ok ms -> m ∈ ms -> backed deps s (m_prNumber m).
Proof.
  revert ms. induction cs as [|[pr sn] cs IH]; intros ms Hc; cbn [verify_all].
  - intros [= <-] H. by apply elem_of_nil in H.
  - destruct (verify deps s pr sn) as [m1|e] eqn:E; [|discriminate]. cbn.
    destruct (verify_all deps s cs) as [ms1|e] eqn:E1; [|discriminate]. cbn. intros [= <-] [H|H]%elem_of_app.
    + apply (verify_backed deps s pr sn m1) in H as [-> ?]; try done. intros x ->. apply Hc. by left.
    + eapply IH; [|done..]. intros p x Hx. apply Hc. by right.
Qed.

Lemma check_items_backed deps s items : forall seen ms seen' ms' failed m,
  check_items deps s items seen ms = (seen', ms', failed) -> m ∈ ms' ->
  m ∈ ms \/ backed deps s (m_prNumber m).
Proof.
  induction items as [|n items IH]; intros seen ms seen' ms' failed m; cbn [check_items].
  - intros [= <- <- <-]. by left.
  - destruct (bool_decide (n ∈ seen)); [apply IH|]. destruct (verify deps s n None) as [m1|e] eqn:E.
    + intros H Hm. destruct (IH _ _ _ _ _ _ H Hm) as [[?|Hm1]%elem_of_app|?]; [by left| |by right].
      right. by apply (verify_backed deps s n None m1) in Hm1 as [-> ?].
    + intros [= <- <- <-]. by left.
Qed.

(** The loop over the pages: what it found is backed, and it reads no more pages than the
    round may. *)
Lemma enumerate_spec deps src s : forall more page pageCount seen ms p p' count ms' e,
  enumerate more deps src s page pageCount seen ms p = (p', count, ms', e) ->
  (forall m, m ∈ ms' -> m ∈ ms \/ backed deps s (m_prNumber m)) ∧
  pageCount <= count <= pageCount + Z.of_nat more + 1.
Proof.
  induction more as [|more IH]; intros page pageCount seen ms p p' count ms' e; cbn [enumerate];
    destruct (listPullRequestsForCommitPage src (s_commitSha s) page) as [response|err].
  2,4: intros [= <- <- <- <-]; split; [by left|lia].
  - destruct (check_items deps s (pg_items response) seen ms) as [[seen1 ms1] failed] eqn:Ec.
    pose proof (check_items_backed deps s (pg_items response) seen ms seen1 ms1 failed) as Hb.
    destruct failed; [|destruct (pg_nextPage response)]; intros [= <- <- <- <-];
      (split; [intros m Hm; by apply (Hb m Ec)|lia]).
  - destruct (check_items deps s (pg_items response) seen ms) as [[seen1 ms1] failed] eqn:Ec.
    pose proof (check_items_backed deps s (pg_items response) seen ms seen1 ms1 failed) as Hb.
    destruct failed; [|destruct (pg_nextPage response)].
    1,3: intros [= <- <- <- <-]; (split; [intros m Hm; by apply (Hb m Ec)|lia]).
    intros H. apply IH in H as [H1 H2]. split; [|lia].
    intros m Hm. destruct (H1 m Hm) as [Hm1|?]; [by apply (Hb m Ec)|by right].
Qed.

Lemma decide_confirmed s ms c p pr t u :
  decide_matches s ms c p = ConfirmedPr pr t u -> ∃ m, ms = [m] ∧ m_prNumber m = pr.
Proof.
  unfold decide_matches, unresolved_decision, confirmed. destruct ms as [|m [|m2 ms]]; intros H;
    [discriminate H| |discriminate H]. exists m. split; [done|]. by injection H.
Qed.
Lemma decide_direct s ms c p u : decide_matches s ms c p <> ConfirmedDirect u.
Proof.
  unfold decide_matches, unresolved_decision, confirmed. destruct ms as [|m [|m2 ms]]; intros H; discriminate H.
Qed.

Lemma scan_sound deps s p d :
  scan deps s p = Ok d ->
  match d with
  | ConfirmedPr pr _ _ => backed deps s pr
  | ConfirmedDirect _ => False
  | Unresolved _ _ => True
  end.
Proof.
  assert (forall ms c q d, (forall m, m ∈ ms -> backed deps s (m_prNumber m)) ->
    decide_matches s ms c q = d ->
    match d with ConfirmedPr pr _ _ => backed deps s pr | ConfirmedDirect _ => False | Unresolved _ _ => True end) as Hd.
  { intros ms c q d0 Hb <-. destruct (decide_matches s ms c q) eqn:E; [|by apply decide_direct in E|done].
    apply decide_confirmed in E as (m & -> & <-). apply Hb. by left. }
  unfold scan. destruct (verify_all deps s (candidates deps s)) as [ms|e] eqn:Ev.
  2:{ destruct e; [|discriminate]. by intros [= <-]. }
  assert (forall m, m ∈ ms -> backed deps s (m_prNumber m)) as Hms.
  { intros m Hm. eapply (verify_all_backed deps s (candidates deps s)); [intros q x Hx; exact (candidates_from _ _ _ _ Hx)|done|done]. }
  destruct ms as [|m ms]; [|intros H; injection H as H; exact (Hd (m :: ms) false _ _ Hms H)].
  destruct (source deps) as [src|] eqn:Es; [|intros H; injection H as H; by rewrite <- H].
  destruct (enumerate _ deps src s _ 0 _ [] p) as [[[p' count] ms'] e] eqn:Ee.
  apply enumerate_spec in Ee as [Hb _].
  assert (forall m, m ∈ ms' -> backed deps s (m_prNumber m)) as Hb'.
  { intros m Hm. destruct (Hb m Hm) as [Hn|?]; [by apply elem_of_nil in Hn|done]. }
  destruct e as [|next|e].
  - intros H. injection H as H. exact (Hd ms' true _ _ Hb' H).
  - case_bool_decide; intros H'; injection H' as H'; [by rewrite <- H'|exact (Hd ms' false _ _ Hb' H')].
  - destruct e; [|discriminate]. by intros [= <-].
Qed.

(** ** Theorems *)

(** [C10] Evidence is never made up: a pull request is confirmed only when it already was or when
    GitHub's detail of it (the verified snapshot, where there are no credentials) says that it
    was merged into this branch of this repository as this commit, and the commit has at most
    one parent; and no lookup ever confirms a direct push. *)
Theorem resolveEvidence_sound deps s force d :
  resolveEvidence deps s force = Ok d ->
  match d with
  | ConfirmedPr pr _ _ =>
    (∃ r, existing s = Some r ∧ ev_state r = pr_confirmed ∧ pr_number r = Some pr) \/
    (backed deps s pr ∧ ∃ n, parents deps (s_commitSha s) = Some n ∧ n < 2)
  | ConfirmedDirect u => u = None ∧ ∃ r, existing s = Some r ∧ ev_state r = direct_confirmed
  | Unresolved _ _ => True
  end.
Proof.
  intros H.
  assert (forall p, (match parents deps (s_commitSha s) with
      | None => Ok (unresolved_decision s profile_unverified p)
      | Some n => if 2 <=? n then Ok (unresolved_decision s unsupported_merge_profile p) else scan deps s p
      end) = Ok d ->
    match d with
    | ConfirmedPr pr _ _ => backed deps s pr ∧ ∃ n, parents deps (s_commitSha s) = Some n ∧ n < 2
    | ConfirmedDirect _ => False
    | Unresolved _ _ => True
    end) as Hfresh.
  { intros p. destruct (parents deps (s_commitSha s)) as [n|]; [|by intros [= <-]].
    destruct (Z.leb_spec 2 n); [by intros [= <-]|]. intros Hs. apply scan_sound in Hs.
    destruct d; try done. split; [done|]. by exists n. }
  unfold resolveEvidence in H. destruct (existing s) as [r|] eqn:Ee.
  - destruct (ev_state r) eqn:Es; [destruct (pr_number r) as [pr|] eqn:Ep; [destruct (merged_at r) as [t|]|]| |].
    + injection H as <-. left. by exists r.
    + apply Hfresh in H. destruct d; try done. by right.
    + apply Hfresh in H. destruct d; try done. by right.
    + injection H as <-. split; [done|]. by exists r.
    + destruct (_ && _); [by injection H as <-|]. apply Hfresh in H. destruct d; try done. by right.
  - apply Hfresh in H. destruct d; try done. by right.
Qed.

(** An attestation passes a row without a number exactly when the lookup ended in a reason it
    covers, the row is in its range and its grace is over; before that it only postpones. *)
Theorem applyAttestation_spec a d seq committedAt now :
  match applyAttestation a d seq committedAt now with
  | Attested u =>
    up_state u = direct_confirmed ∧ up_prNumber u = None ∧ up_sourceKind u = operator_attestation ∧
    committedAt + grace_seconds a * 1000 <= now ∧
    (forall t, through_seq a = Some t -> seq <= t) ∧
    ∃ u0, d = Unresolved negative_evidence_unavailable u0 \/ d = Unresolved unsupported_merge_profile u0
  | GracePending t => t = committedAt + grace_seconds a * 1000 ∧ now < t ∧ ∃ r u0, d = Unresolved r u0
  | NotApplicable =>
    (forall r u0, d = Unresolved r u0 -> isAttestableReason r = true ->
      ∃ t, through_seq a = Some t ∧ t < seq)
  end.
Proof.
  unfold applyAttestation. destruct d as [pr t u|u|r u]; try (intros; discriminate).
  destruct (isAttestableReason r) eqn:Er; cbn [negb].
  2:{ intros r0 u0 [= <- <-] H. congruence. }
  assert (r = negative_evidence_unavailable \/ r = unsupported_merge_profile) as Hr.
  { unfold isAttestableReason, ATTESTABLE_REASONS in Er. apply bool_decide_eq_true in Er.
    rewrite !elem_of_cons, elem_of_nil in Er. tauto. }
  destruct (through_seq a) as [t|] eqn:Et; [destruct (Z.ltb_spec t seq)|].
  - intros r0 u0 _ _. by exists t.
  - destruct (Z.ltb_spec now (committedAt + grace_seconds a * 1000)); [by eauto|]. cbn.
    split_and!; try done; [by intros ? [= <-]|]. exists u. destruct Hr as [->| ->]; tauto.
  - destruct (Z.ltb_spec now (committedAt + grace_seconds a * 1000)); [by eauto|]. cbn.
    split_and!; try done. exists u. destruct Hr as [->| ->]; tauto.
Qed.

(** Evidence is only ever confirmed: storing raises the version, keeps the commit, and a
    confirmed row stays confirmed; what is refused is a downgrade or another commit. *)
Theorem upsertEvidence_spec clock u t :
  match upsertEvidence clock u t with
  | Ok (t', r) =>
    t' = <[key_of u := r]> t ∧ ev_state r = up_state u ∧ pr_number r = up_prNumber u ∧
    (forall old, t !! key_of u = Some old ->
       evidence_version r = evidence_version old + 1 ∧ commit_sha r = commit_sha old ∧
       (is_confirmed (ev_state old) = true -> is_confirmed (ev_state r) = true))
  | Err (EvidenceDowngradeError _ kept) =>
    up_state u = unresolved ∧ is_confirmed kept = true ∧
    ∃ old, t !! key_of u = Some old ∧ ev_state old = kept
  | Err (DifferentCommit _ _) =>
    ∃ old, t !! key_of u = Some old ∧ commit_sha old <> ascii_lower (up_commitSha u)
  end.
Proof.
  unfold upsertEvidence. destruct (t !! key_of u) as [old|] eqn:Ek.
  - destruct (jeqb (commit_sha old) (ascii_lower (up_commitSha u))) eqn:Ej; cbn [andb].
    + apply jeqb_eq in Ej.
      destruct (is_confirmed (ev_state old)) eqn:Eo, (is_confirmed (up_state u)) eqn:Eu; cbn [andb negb].
      2:{ split; [by destruct (up_state u)|]. split; [done|]. by exists old. }
      all: cbn; split_and!; try done; intros ? [= <-]; split_and!; try done; congruence.
    + apply jeqb_neq in Ej. by exists old.
  - cbn. split_and!; try done.
Qed.

End Decide.

(** A squash commit of pull request 70, with no evidence stored yet. *)
Definition sample_subject : EvidenceSubject :=
  mkSubject 7 (js "main") 1 4 (js "ABC") (Some 70) None.
Definition sample_source : EvidenceSource :=
  mkSource (fun n => Ok (if n =? 70 then Some (mkDetail true (Some (js "t")) (Some (js "abc")) None
                                                (js "main") (Some 7)) else None))
    (fun _ _ => Ok (mkPage [] None None)).
Definition sample_deps : EvidenceDeps := mkDeps (fun _ => Some 1) [] (Some sample_source) None 0 0 0.
Definition sample_decision : result CallError EvidenceDecision :=
  resolveEvidence (fun _ => Some 5) (fun _ => js "t") (fun s => s) sample_deps sample_subject false.
Lemma sample_confirms : match sample_decision with Ok (ConfirmedPr 70 (Some 5) _) => True | _ => False end.
Proof. vm_compute. exact I. Qed.
Lemma resolveEvidence_sound_witness :
  match sample_decision with Ok (ConfirmedPr pr _ _) => backed (fun _ => Some 5) sample_deps sample_subject pr
  | _ => False end.
Proof.
  pose proof sample_confirms as Hs.
  destruct sample_decision as [[pr t u|u|r u]|e] eqn:E; try (exfalso; exact Hs).
  destruct (resolveEvidence_sound (fun _ => Some 5) (fun _ => js "t") (fun s => s) sample_deps sample_subject
    false (ConfirmedPr pr t u) E) as [(r & H & _)|[H _]]; [discriminate H|exact H].
Defined.

End Evidence.
