(* ===== verification/MNumberReconcile.v ===== *)
(** * A round of M numbers

    [reconcileMergeNumbers] of [apps/pipeline-worker/src/mnumber.ts] with the statements it
    runs ([listCandidatesAfter], [assignMergeNumbers], [listNumberedPullRequests] of
    merge-sequence.ts, [advanceMergeNumberCheckpoint] of sequence-space.ts): what is read
    outside the transaction ([Round]), and the transaction that checks that nothing moved,
    stores the evidence, plans, writes the numbers, moves the checkpoint and leaves the work
    of the numbers, or does none of it. *)

From stdpp Require Import base list option strings numbers gmap sets.
From Stdlib Require Import ZArith Lia.
From S2P Require Import Prelude JsString Json MergeNumber MNumberPlan MNumberEvidence Integrity SequenceWork SequenceStore SequenceAssign.
Open Scope Z_scope.

Abbreviation StoredRow := SequenceStore.MergeSequenceRow.

(** ** Statements *)

Definition listCandidatesAfter (space : Space) (epoch afterSeq limit : Z) (db : Db) : list (Z * StoredRow) :=
  take (Z.to_nat limit) (List.filter (fun r => afterSeq <? fst r) (rows_of space epoch db)).

Definition listNumberedPullRequests (space : Space) (epoch : Z) (prs : list Z) (db : Db) : list Z :=
  omap (fun r : Z * StoredRow =>
          match merge_number (snd r), pull_request_number (snd r) with
          | Some _, Some pr => if bool_decide (pr ∈ prs) then Some pr else None
          | _, _ => None
          end) (rows_of space epoch db).

(** The unique indexes [merge_sequence_merge_number_uk] and [merge_sequence_numbered_pr_uk]. *)
Definition number_clash (space : Space) (epoch : Z) (a : PlanAssignment) (db : Db) : bool :=
  existsb (fun r : Z * StoredRow =>
             negb (fst r =? as_mergeSeq a)
             && (bool_decide (merge_number (snd r) = Some (as_mergeNumber a))
                 || (match merge_number (snd r) with Some _ => true | None => false end
                     && bool_decide (pull_request_number (snd r) = Some (as_prNumber a)))))
    (rows_of space epoch db).
Definition number_violation : Thrown :=
  OtherError (js "duplicate key value violates unique constraint merge_sequence_merge_number_uk").

Definition numbered_row (a : PlanAssignment) (r : StoredRow) : StoredRow :=
  mkSeqRow (SequenceStore.commit_sha r) (Some (as_prNumber a)) (committed_at r) (Some (as_mergeNumber a)).
Definition assignable (a : PlanAssignment) (r : StoredRow) : bool :=
  match pull_request_number r with Some pr => pr =? as_prNumber a | None => true end
  && match merge_number r with Some n => n =? as_mergeNumber a | None => true end.

Definition assign_one (space : Space) (epoch : Z) (acc : result Thrown (Db * Z)) (a : PlanAssignment)
  : result Thrown (Db * Z) :=
  '(db, n) ← acc;
  match merge_sequence db !! (space, epoch, as_mergeSeq a) with
  | Some r =>
    if assignable a r then
      if number_clash space epoch a db then Err number_violation
      else Ok (set_rows (<[(space, epoch, as_mergeSeq a) := numbered_row a r]> (merge_sequence db)) db, n + 1)
    else Ok (db, n)
  | None => Ok (db, n)
  end.
Definition assignMergeNumbers (space : Space) (epoch : Z) (l : list PlanAssignment) (db : Db)
  : result Thrown (Db * Z) :=
  foldl (assign_one space epoch) (Ok (db, 0)) l.

Record Checkpoint : Set := mkCheckpoint { cp_headSeq : Z; cp_headNumber : Z }.

(** [mnumber_blocked_since] is kept while the place and the reason stay the same. *)
Definition set_checkpoint (clock : Z) (cp : Checkpoint) (blocked : option (Z * jstr)) (s : SequenceSpaceRow)
  : SequenceSpaceRow :=
  mkSpace (seq_epoch s) (head_sha s) (head_seq s) (space_state s) (last_error s)
    (cp_headSeq cp) (cp_headNumber cp)
    (match blocked with
     | None => None
     | Some (seq, reason) =>
       Some (seq, reason,
             match mnumber_blocked s with
             | Some (seq', reason', since) => if (seq' =? seq) && jeqb reason' reason then since else clock
             | None => clock
             end)
     end).
Definition advanceMergeNumberCheckpoint (clock : Z) (space : Space) (epoch : Z) (cp : Checkpoint)
    (blocked : option (Z * jstr)) (db : Db) : result Thrown (Db * bool) :=
  match sequence_space db !! space with
  | Some s =>
    if seq_epoch s =? epoch then
      if checkpoint_chk (set_checkpoint clock cp blocked s)
      then Ok (set_spaces (<[space := set_checkpoint clock cp blocked s]> (sequence_space db)) db, true)
      else Err check_violation
    else Ok (db, false)
  | None => Ok (db, false)
  end.

(** ** What is read outside the transaction *)

Inductive ReconcileOutcome : Set :=
| rc_done (epoch assigned attested : Z) (blocked : option (Z * MergeNumberBlockReason * option Z))
    (continueImmediately : bool)
| rc_skipped (reason : jstr)
| rc_locked
| rc_retry (reason : jstr).

(** Decisions are kept by number, in the order in which they were made. *)
Abbreviation Decisions := (list (Z * Evidence.EvidenceDecision)).
Definition decision_of (ds : Decisions) (seq : Z) : option Evidence.EvidenceDecision :=
  snd <$> find (fun d => fst d =? seq) ds.

Record Round : Type := mkRound {
  rd_epoch : Z;
  rd_checkpoint : Checkpoint;
  rd_rows : list (Z * StoredRow);
  rd_existing : Z -> option Evidence.EvidenceRow;
  rd_decisions : Decisions;
  rd_attested : Z;
  rd_gracePending : option (Z * Z)
}.

Section Reconcile.
Context (toISOString : Z -> jstr) (date_ms : jstr -> Z).
(** The evidence of one row; the attestation in force; the clock. *)
Context (resolve : Z * StoredRow -> option Evidence.EvidenceRow -> result Thrown Evidence.EvidenceDecision)
  (attestation : option Evidence.Attestation) (now : Z).

(** The loop over the rows: it stops at the first that stays unresolved. *)
Fixpoint decide_rows (existing : Z -> option Evidence.EvidenceRow) (l : list (Z * StoredRow))
  : result Thrown (Decisions * Z * option (Z * Z)) :=
  match l with
  | [] => Ok ([], 0, None)
  | row :: l =>
    d ← resolve row (existing (fst row));
    let verdict := match attestation, d with
                   | Some a, Evidence.Unresolved _ _ =>
                     Evidence.applyAttestation toISOString a d (fst row) (date_ms (committed_at (snd row))) now
                   | _, _ => Evidence.NotApplicable
                   end in
    let '(d, attested, grace) :=
      match verdict with
      | Evidence.Attested u => (Evidence.ConfirmedDirect (Some u), 1, None)
      | Evidence.GracePending t => (d, 0, Some (fst row, t))
      | Evidence.NotApplicable => (d, 0, None)
      end in
    match d with
    | Evidence.Unresolved _ _ => Ok ([(fst row, d)], attested, grace)
    | _ =>
      '(ds, n, g) ← decide_rows existing l;
      Ok ((fst row, d) :: ds, attested + n, g)
    end
  end.

Definition reconcile_read (repo : option Repository) (space : Space) (batchSize : Z)
    (evidence : Evidence.Table) (db : Db) : result Thrown (ReconcileOutcome + Round) :=
  match repo with
  | None => Ok (inl (rc_skipped (js "repository_unregistered")))
  | Some r =>
    if negb (repo_active r) then Ok (inl (rc_skipped (js "repository_archived")))
    else if negb (mem (snd space) (sequence_branches r)) then Ok (inl (rc_skipped (js "not_sequence_branch")))
    else match findSequenceSpace space db with
    | None => Ok (inl (rc_skipped (js "sequence_space_missing")))
    | Some s =>
      if bool_decide (space_state s = ss_reassigning) then Ok (inl (rc_retry (js "space_reassigning")))
      else
      let epoch := seq_epoch s in
      let cp := mkCheckpoint (mnumber_head_seq s) (mnumber_head s) in
      let rows := listCandidatesAfter space epoch (cp_headSeq cp) batchSize db in
      match rows with
      | [] =>
        Ok (inl (rc_done epoch 0 0
                   (match mnumber_blocked s with
                    | Some (seq, reason, _) =>
                      (fun r => (seq, r, None)) <$>
                        find (fun r => jeqb (Evidence.reason_name r) reason)
                          [pr_evidence_pending; negative_evidence_unavailable; partial_lookup;
                           profile_unverified; unsupported_merge_profile; mapping_conflict;
                           fetch_failed; number_capacity_exceeded; canonical_mismatch]
                    | None => None
                    end) false))
      | _ =>
        let existing := Evidence.listEvidence (fst space) (snd space) epoch evidence in
        '(ds, n, g) ← decide_rows existing rows;
        Ok (inr (mkRound epoch cp rows existing ds n g))
      end
    end
  end.

(** ** The transaction *)

Definition toPlanRow (row : Z * StoredRow) (d : option Evidence.EvidenceDecision) : PlanRow :=
  let plan st pr reason merged :=
    mkRow (fst row) (SequenceStore.commit_sha (snd row)) st pr reason (merge_number (snd row))
      (pull_request_number (snd row)) merged in
  match d with
  | None => plan unresolved None (Some pr_evidence_pending) None
  | Some (Evidence.ConfirmedPr pr mergedAt _) => plan pr_confirmed (Some pr) None mergedAt
  | Some (Evidence.ConfirmedDirect _) => plan direct_confirmed None None None
  | Some (Evidence.Unresolved reason _) => plan unresolved None (Some reason) None
  end.

Definition version_of (o : option Evidence.EvidenceRow) : Z :=
  match o with Some r => Evidence.evidence_version r | None => 0 end.
Definition evidence_moved (rd : Round) (space : Space) (evidence : Evidence.Table) : bool :=
  existsb (fun d => negb (version_of (rd_existing rd (fst d)) =?
                          version_of (Evidence.listEvidence (fst space) (snd space) (rd_epoch rd) evidence (fst d))))
    (rd_decisions rd).

(** A confirmed pull request against another confirmed one is a conflict: the decision of the
    row becomes unresolved and the stored evidence stays. *)
Definition conflicts (prior : option Evidence.EvidenceRow) (d : Evidence.EvidenceDecision) : bool :=
  match d, prior with
  | Evidence.ConfirmedPr pr _ _, Some p =>
    bool_decide (Evidence.ev_state p = pr_confirmed) && negb (bool_decide (Evidence.pr_number p = Some pr))
  | _, _ => false
  end.
Definition conflict_upsert (u : Evidence.EvidenceUpsert) : Evidence.EvidenceUpsert :=
  Evidence.mkUpsert (Evidence.up_repositoryId u) (Evidence.up_baseBranch u) (Evidence.up_seqEpoch u)
    (Evidence.up_mergeSeq u) (Evidence.up_commitSha u) unresolved None (Some mapping_conflict)
    Evidence.unresolved_lookup (Evidence.up_sourcePrVersion u) None (Evidence.up_proof u).
Definition replace_decision (seq : Z) (d : Evidence.EvidenceDecision) (ds : Decisions) : Decisions :=
  map (fun e => if fst e =? seq then (seq, d) else e) ds.

Definition upsert_in (d : Evidence.EvidenceDecision) : option Evidence.EvidenceUpsert :=
  match d with
  | Evidence.ConfirmedPr _ _ u | Evidence.Unresolved _ u => Some u
  | Evidence.ConfirmedDirect u => u
  end.

Fixpoint store_evidence (clock : Z) (rd : Round) (l : list (Z * StoredRow)) (ds : Decisions)
    (evidence : Evidence.Table) : result Evidence.UpsertError (Decisions * Evidence.Table) :=
  match l with
  | [] => Ok (ds, evidence)
  | row :: l =>
    match decision_of ds (fst row) with
    | None => Ok (ds, evidence)
    | Some d =>
      if conflicts (rd_existing rd (fst row)) d then
        match d with
        | Evidence.ConfirmedPr _ _ u =>
          Ok (replace_decision (fst row) (Evidence.Unresolved mapping_conflict (conflict_upsert u)) ds, evidence)
        | _ => Ok (ds, evidence)
        end
      else
        evidence ← match upsert_in d with
                   | Some u => '(t, _) ← Evidence.upsertEvidence clock u evidence; Ok t
                   | None => Ok evidence
                   end;
        match d with
        | Evidence.Unresolved _ _ => Ok (ds, evidence)
        | _ => store_evidence clock rd l ds evidence
        end
    end
  end.

Definition request (c : Work.Clocks) (k : Work.SequenceWorkKind) (space : Space) (epoch : Z)
    (extra : list json) (fields : list (jstr * json)) (db : Db) : Db :=
  set_work (fst (Work.requestWork c (Work.mkRequest k (fst space) (snd space) epoch (JObj fields) extra None)
                   (sequence_work db))) db.
Definition number_fields (a : PlanAssignment) : list (jstr * json) :=
  [(js "pr_number", JNum (as_prNumber a)); (js "merge_number", JNum (as_mergeNumber a));
   (js "merge_seq", JNum (as_mergeSeq a))].
Definition request_number_work (c : Work.Clocks) (space : Space) (rd : Round) (db : Db) (a : PlanAssignment)
  : Db :=
  let sha := match find (fun r => fst r =? as_mergeSeq a) (rd_rows rd) with
             | Some r => JStr (SequenceStore.commit_sha (snd r)) | None => JNull end in
  request c Work.tag space (rd_epoch rd) [JNum (as_prNumber a)]
    (number_fields a ++ [(js "commit_sha", sha); (js "trigger_kind", JStr (js "assignment"))])
    (request c Work.materialize space (rd_epoch rd) [JNum (as_prNumber a)] (number_fields a) db).

Definition request_announce (c : Work.Clocks) (space : Space) (epoch : Z) (correlationId : jstr)
    (l : list PlanAssignment) (db : Db) : Db :=
  match l with
  | [] => db
  | first :: _ =>
    let lastNumber := match last l with Some a => as_mergeNumber a | None => as_mergeNumber first end in
    request c Work.announce space epoch [JNum (as_mergeNumber first); JNum lastNumber]
      [(js "repository_id", JNum (fst space)); (js "base_branch", JStr (snd space));
       (js "seq_epoch", JNum epoch); (js "from_mnumber", JNum (as_mergeNumber first));
       (js "to_mnumber", JNum lastNumber);
       (js "pull_request_numbers", JArr (map (fun a => JNum (as_prNumber a)) l));
       (js "correlation_id", JStr correlationId)] db
  end.

(** [RoundMismatch] is the rollback followed by the statement that only leaves the blocker. *)
Inductive RoundEnd : Type :=
| RoundCommit (db : Db) (evidence : Evidence.Table) (outcome : ReconcileOutcome)
| RoundRollback (outcome : ReconcileOutcome)
| RoundMismatch (db : result Thrown (Db * bool)) (outcome : ReconcileOutcome)
| RoundEvidenceError (e : Evidence.UpsertError)
| RoundPlanError (e : PlanInputError)
| RoundThrow (e : Thrown).

Definition RECONCILE_BUDGET_MS : Z := 1000.

(** The input of the planner inside the transaction. *)
Definition plan_input (clock : nat -> Z) (space : Space) (rd : Round) (ds : Decisions)
    (evidence : Evidence.Table) (db : Db) : PlanInput :=
  let planRows := map (fun row => toPlanRow row (decision_of ds (fst row))) (rd_rows rd) in
  let already := listNumberedPullRequests space (rd_epoch rd) (omap prNumber planRows) db in
  mkInput (cp_headSeq (rd_checkpoint rd)) (cp_headNumber (rd_checkpoint rd)) planRows
    (Evidence.findLastConfirmedMergedAt (fst space) (snd space) (rd_epoch rd)
       (cp_headSeq (rd_checkpoint rd)) evidence)
    (fun pr => bool_decide (pr ∈ already)) (Some RECONCILE_BUDGET_MS) clock.

Definition reconcile_tx (env : Env) (clock : nat -> Z) (space : Space) (rd : Round) (correlationId : jstr)
    (evidence : Evidence.Table) (db : Db) : RoundEnd :=
  let c := clocks env in
  let epoch := rd_epoch rd in
  let cp := rd_checkpoint rd in
  if negb (locked env) then RoundRollback rc_locked
  else if negb (match findSequenceSpace space db with
                | Some s => (seq_epoch s =? epoch) && (mnumber_head_seq s =? cp_headSeq cp)
                | None => false
                end)
  then RoundRollback (rc_retry (js "checkpoint_moved"))
  else if evidence_moved rd space evidence then RoundRollback (rc_retry (js "evidence_moved"))
  else match store_evidence (Work.clock_timestamp c) rd (rd_rows rd) (rd_decisions rd) evidence with
  | Err e => RoundEvidenceError e
  | Ok (ds, evidence) =>
    match planMergeNumbers (plan_input clock space rd ds evidence db) with
    | Err e => RoundPlanError e
    | Ok plan =>
      match assignMergeNumbers space epoch (assignments plan) db with
      | Err e => RoundThrow e
      | Ok (db', written) =>
        if negb (written =? Z.of_nat (length (assignments plan))) then
          let firstSeq := match assignments plan with a :: _ => as_mergeSeq a | [] => cp_headSeq cp + 1 end in
          RoundMismatch
            (advanceMergeNumberCheckpoint (Work.clock_timestamp c) space epoch cp
               (Some (firstSeq, Evidence.reason_name canonical_mismatch)) db)
            (rc_done epoch 0 0 (Some (firstSeq, canonical_mismatch, None)) false)
        else
        match advanceMergeNumberCheckpoint (Work.clock_timestamp c) space epoch
                (mkCheckpoint (nextHeadSeq plan) (nextHeadNumber plan))
                ((fun b => (fst b, Evidence.reason_name (snd b))) <$> blocked plan) db' with
        | Err e => RoundThrow e
        | Ok (_, false) => RoundRollback (rc_retry (js "epoch_moved"))
        | Ok (db', true) =>
          let db' := request_announce c space epoch correlationId (assignments plan)
                       (foldl (request_number_work c space rd) db' (assignments plan)) in
          RoundCommit db' evidence
            (rc_done epoch (Z.of_nat (length (assignments plan))) (rd_attested rd)
               ((fun b => (fst b, snd b,
                           match rd_gracePending rd with
                           | Some (seq, t) => if seq =? fst b then Some t else None
                           | None => None
                           end)) <$> blocked plan)
               (budgetExhausted plan && match blocked plan with None => true | Some _ => false end))
        end
      end
    end
  end.

End Reconcile.

(** ** Writing the numbers *)

(** What [assign_one] does where the row can take the number. *)
Lemma assign_one_ok space epoch d k a r :
  SequenceStore.rows d space epoch (as_mergeSeq a) = Some r ->
  merge_number r = None -> (pull_request_number r = None \/ pull_request_number r = Some (as_prNumber a)) ->
  (forall n q, SequenceStore.rows d space epoch n = Some q ->
     merge_number q <> Some (as_mergeNumber a) ∧
     (is_Some (merge_number q) -> pull_request_number q <> Some (as_prNumber a))) ->
  ∃ d', assign_one space epoch (Ok (d, k)) a = Ok (d', k + 1) ∧ same_but_rows d d' ∧
    forall s e n, SequenceStore.rows d' s e n =
      if decide (s = space ∧ e = epoch ∧ n = as_mergeSeq a) then Some (numbered_row a r)
      else SequenceStore.rows d s e n.
Proof.
  intros Hr Hm Hp Hfree. unfold assign_one. cbn [mbind result_bind].
  assert (assignable a r = true) as Has.
  { unfold assignable. rewrite Hm. destruct Hp as [->| ->]; [done|]. by rewrite Z.eqb_refl. }
  assert (number_clash space epoch a d = false) as Hc.
  { apply not_true_iff_false. unfold number_clash. rewrite existsb_elem. intros ([n q] & Hin & Hq).
    apply elem_rows_of, Hfree in Hin as [H1 H2]. apply andb_prop in Hq as [_ Hq]. cbn [snd] in Hq.
    apply orb_prop in Hq as [Hq%bool_decide_eq_true|Hq]; [done|]. apply andb_prop in Hq as [Hs Hq%bool_decide_eq_true].
    apply H2 in Hq; [done|]. by destruct (merge_number q). }
  unfold SequenceStore.rows in Hr. rewrite Hr, Has, Hc. eexists. split; [reflexivity|]. split; [by split|].
  intros. by apply rows_insert.
Qed.

Lemma assign_fold_ok space epoch : forall l d k,
  NoDup (map as_mergeSeq l) -> NoDup (map as_mergeNumber l) -> NoDup (map as_prNumber l) ->
  (forall a, a ∈ l -> ∃ r, SequenceStore.rows d space epoch (as_mergeSeq a) = Some r ∧ merge_number r = None ∧
     (pull_request_number r = None \/ pull_request_number r = Some (as_prNumber a))) ->
  (forall a n q, a ∈ l -> SequenceStore.rows d space epoch n = Some q ->
     merge_number q <> Some (as_mergeNumber a) ∧
     (is_Some (merge_number q) -> pull_request_number q <> Some (as_prNumber a))) ->
  ∃ d', foldl (assign_one space epoch) (Ok (d, k)) l = Ok (d', k + Z.of_nat (length l)) ∧ same_but_rows d d' ∧
    (forall a, a ∈ l -> SequenceStore.rows d' space epoch (as_mergeSeq a)
                        = numbered_row a <$> SequenceStore.rows d space epoch (as_mergeSeq a)) ∧
    forall s e n, ~ (s = space ∧ e = epoch ∧ n ∈ map as_mergeSeq l) ->
      SequenceStore.rows d' s e n = SequenceStore.rows d s e n.
Proof.
  induction l as [|a l IH]; intros d k H1 H2 H3 Hrow Hfree.
  - exists d. split; [by rewrite Z.add_0_r|]. split; [done|]. split; [|done]. intros a Ha. by apply elem_of_nil in Ha.
  - cbn [map] in H1, H2, H3. apply NoDup_cons in H1 as [Hs H1], H2 as [Hn H2], H3 as [Hp H3].
    destruct (Hrow a ltac:(by left)) as (r & Hr & Hm & Hpr).
    destruct (assign_one_ok space epoch d k a r Hr Hm Hpr) as (d1 & He & Hsame & Hd1).
    { intros n q Hq. apply (Hfree a n q); [by left|done]. }
    assert (forall b, b ∈ l -> as_mergeSeq b <> as_mergeSeq a) as Hneq.
    { intros b Hb Heq. apply Hs. rewrite <- Heq. by apply list_elem_of_fmap_2. }
    destruct (IH d1 (k + 1) H1 H2 H3) as (d' & Hf & Hsame' & Hin & Hout).
    + intros b Hb. rewrite Hd1, decide_False by (intros (_ & _ & ?); by apply (Hneq b)). apply Hrow. by right.
    + intros b n q Hb Hq. rewrite Hd1 in Hq. destruct (decide _) as [_|_]; [|by apply (Hfree b n q); [right|]].
      injection Hq as <-. cbn. split.
      * intros [= Heq]. apply Hn. rewrite Heq. by apply list_elem_of_fmap_2.
      * intros _ [= Heq]. apply Hp. rewrite Heq. by apply list_elem_of_fmap_2.
    + exists d'. split; [cbn [foldl]; rewrite He, Hf; f_equal; f_equal; cbn [length]; lia|].
      split; [by transitivity d1|]. split.
      * intros b [->|Hb]%elem_of_cons.
        -- rewrite Hout by tauto. by rewrite Hd1, decide_True, Hr.
        -- rewrite Hin by done. by rewrite Hd1, decide_False by (intros (_ & _ & ?); by apply (Hneq b)).
      * intros s e n Hne. rewrite Hout, Hd1, decide_False; [done| |].
        -- intros (-> & -> & ->). apply Hne. split_and!; [done..|]. by left.
        -- intros (-> & -> & Hi). apply Hne. split_and!; [done..|]. by right.
Qed.

Lemma listNumbered_elem space epoch prs d pr :
  pr ∈ listNumberedPullRequests space epoch prs d <->
  pr ∈ prs ∧ ∃ n r, SequenceStore.rows d space epoch n = Some r ∧ is_Some (merge_number r) ∧
    pull_request_number r = Some pr.
Proof.
  unfold listNumberedPullRequests. rewrite list_elem_of_omap. split.
  - intros ([n r] & Hin & H). apply elem_rows_of in Hin. cbn [snd] in H.
    destruct (merge_number r) as [m|] eqn:Em; [|done]. destruct (pull_request_number r) as [p|] eqn:Ep; [|done].
    case_bool_decide; [|done]. injection H as ->. split; [done|]. exists n, r. rewrite Em. by split_and!.
  - intros (Hp & n & r & Hr & [m Hm] & Hpr). exists (n, r). rewrite elem_rows_of. split; [done|]. cbn [snd].
    rewrite Hm, Hpr. by rewrite bool_decide_eq_true_2.
Qed.
