(* ===== verification/SequenceSystem.v ===== *)
(** * The workers on one database

    Every interleaving of the transactions of SequenceAssign.v and MNumberReconcile.v: a
    state is the database with what workers have read and not yet used (the analyses of
    repairs, the rounds of M numbers), a step is one committed transaction, one statement
    committed on its own, or one reading.  Lock, git, search and evidence answer anything.
    The theorems are invariants of the states that can be reached from an empty database. *)

From stdpp Require Import base list option strings numbers gmap sets sorting relations.
From Stdlib Require Import ZArith Lia.
From S2P Require Import Prelude JsString Json MergeNumber MNumberPlan MNumberEvidence Integrity SequenceWork SequenceStore SequenceAssign MNumberReconcile.
Open Scope Z_scope.

Module System.

Record Sys : Type := mkSys {
  db : Db; analyses : list (Space * Analysis); rounds : list (Space * Round)
}.
Definition set_db (d : Db) (y : Sys) : Sys := mkSys d (analyses y) (rounds y).

Inductive step : Sys -> Sys -> Prop :=
| st_assign env g space correlationId d o y :
    assign_tx env g space correlationId (db y) = Ok (Commit d o) -> step y (set_db d y)
| st_stale space reason y : step y (set_db (markStale space reason (db y)) y)
| st_mark space y : step y (set_db (markReassigning space (db y)) y)
| st_reassign env g space storedHead newHead correlationId d o y :
    reassign_tx env g space storedHead newHead correlationId (db y) = Commit d o -> step y (set_db d y)
| st_analyse env g space correlationId a y :
    repair_analyse env g space correlationId (db y) = inr a ->
    step y (mkSys (db y) ((space, a) :: analyses y) (rounds y))
| st_repair env g live space a correlationId d o y :
    (space, a) ∈ analyses y -> repair_fence env space a (db y) = fence_ok ->
    repair_tx env g live space a correlationId (markReassigning space (db y)) = Commit d o ->
    step y (set_db d y)
| st_restore space st err y : step y (set_db (restoreSequenceState space st err (db y)) y)
| st_read toISOString date_ms resolve attestation now repo space batchSize evidence rd y :
    reconcile_read toISOString date_ms resolve attestation now repo space batchSize evidence (db y)
      = Ok (inr rd) ->
    step y (mkSys (db y) (analyses y) ((space, rd) :: rounds y))
| st_round env clock space rd correlationId evidence d evidence' o y :
    (space, rd) ∈ rounds y ->
    reconcile_tx env clock space rd correlationId evidence (db y) = RoundCommit d evidence' o ->
    step y (set_db d y)
| st_mismatch env clock space rd correlationId evidence d b o y :
    (space, rd) ∈ rounds y ->
    reconcile_tx env clock space rd correlationId evidence (db y) = RoundMismatch (Ok (d, b)) o ->
    step y (set_db d y)
| st_other work links sources y :
    step y (set_db (mkDb (merge_sequence (db y)) (sequence_space (db y)) work links sources) y).

Definition initial : Sys := mkSys empty_db [] [].

(** ** The invariant *)

Record space_ok (d : Db) (space : Space) (s : SequenceSpaceRow) : Prop := {
  (** The checks of the table. *)
  ok_epoch : 1 <= seq_epoch s;
  ok_chk : checkpoint_chk s = true;
  (** No row beyond the current epoch, numbers from one. *)
  ok_bounds : forall e n r, rows d space e n = Some r -> 1 <= e <= seq_epoch s ∧ 1 <= n;
  (** The current epoch is numbered from 1 to the head without a gap. *)
  ok_dense : forall n, 1 <= n <= head_seq s <-> is_Some (rows d space (seq_epoch s) n);
  (** A commit has one number in an epoch. *)
  ok_unique : forall e, unique_commits d space e;
  (** M numbers: none after the checkpoint; up to it they are 1 .. mnumber_head in the order of
      the rows; only rows of pull requests have one, and a pull request has one. *)
  ok_after : forall n r, rows d space (seq_epoch s) n = Some r -> mnumber_head_seq s < n -> merge_number r = None;
  ok_numbers : omap (fun n => rows d space (seq_epoch s) n ≫= merge_number) (seqZ 1 (mnumber_head_seq s))
               = seqZ 1 (mnumber_head s);
  ok_pr : forall n r k, rows d space (seq_epoch s) n = Some r -> merge_number r = Some k ->
    is_Some (pull_request_number r);
  ok_one : forall n m r q, rows d space (seq_epoch s) n = Some r -> rows d space (seq_epoch s) m = Some q ->
    is_Some (merge_number r) -> is_Some (merge_number q) ->
    pull_request_number r = pull_request_number q -> n = m
}.

Definition db_ok (d : Db) : Prop :=
  forall space, match sequence_space d !! space with
                | Some s => space_ok d space s
                | None => forall e n, rows d space e n = None
                end.

(** What an analysis still says when its epoch is the current one: the number at which it
    diverged is stored. *)
Definition analysis_ok (d : Db) (space : Space) (a : Analysis) : Prop :=
  ∃ s, sequence_space d !! space = Some s ∧ seq_epoch (an_space a) <= seq_epoch s ∧
    1 <= divergedAtSeq a ∧
    is_Some (rows d space (seq_epoch (an_space a)) (divergedAtSeq a)).

(** What a round still says when its epoch is the current one: the checkpoint has not gone
    back, and the rows it read after the checkpoint are the stored ones. *)
Definition round_ok (d : Db) (space : Space) (rd : Round) : Prop :=
  (forall i r, rd_rows rd !! i = Some r -> fst r = cp_headSeq (rd_checkpoint rd) + 1 + Z.of_nat i) ∧
  ∃ s, sequence_space d !! space = Some s ∧ rd_epoch rd <= seq_epoch s ∧
    (rd_epoch rd = seq_epoch s ->
       cp_headSeq (rd_checkpoint rd) <= mnumber_head_seq s ∧
       (cp_headSeq (rd_checkpoint rd) = mnumber_head_seq s ->
          cp_headNumber (rd_checkpoint rd) = mnumber_head s) ∧
       forall n r, (n, r) ∈ rd_rows rd -> mnumber_head_seq s < n ->
         rows d space (seq_epoch s) n = Some r).

Definition sys_ok (y : Sys) : Prop :=
  db_ok (db y) ∧
  (forall space (a : Analysis), (space, a) ∈ analyses y -> analysis_ok (db y) space a) ∧
  (forall space (rd : Round), (space, rd) ∈ rounds y -> round_ok (db y) space rd).

(** ** What later states keep *)

(** What no transaction takes from a row: its commit and time, its pull request once known,
    its M number once given. *)
Record keeps (r r' : SequenceStore.MergeSequenceRow) : Prop := {
  kp_sha : SequenceStore.commit_sha r' = SequenceStore.commit_sha r;
  kp_time : committed_at r' = committed_at r;
  kp_pr : is_Some (pull_request_number r) -> pull_request_number r' = pull_request_number r;
  kp_number : is_Some (merge_number r) -> merge_number r' = merge_number r
}.
#[export] Instance keeps_preorder : PreOrder keeps.
Proof.
  split; [by split|]. intros a b c [A1 A2 A3 A4] [B1 B2 B3 B4]. split; [congruence|congruence| |].
  - intros H. rewrite B3, A3; [done|done|by rewrite A3].
  - intros H. rewrite B4, A4; [done|done|by rewrite A4].
Qed.

Record later_space (d d' : Db) (space : Space) (s s' : SequenceSpaceRow) : Prop := {
  ls_epoch : seq_epoch s <= seq_epoch s';
  ls_same : seq_epoch s' = seq_epoch s ->
    mnumber_head_seq s <= mnumber_head_seq s' ∧
    (mnumber_head_seq s = mnumber_head_seq s' -> mnumber_head s = mnumber_head s') ∧
    forall n r, mnumber_head_seq s' < n -> rows d space (seq_epoch s) n = Some r ->
      rows d' space (seq_epoch s) n = Some r
}.

Record later (d d' : Db) : Prop := {
  lt_space : forall space s, sequence_space d !! space = Some s ->
    ∃ s', sequence_space d' !! space = Some s' ∧ later_space d d' space s s';
  lt_row : forall space e n r, rows d space e n = Some r -> ∃ r', rows d' space e n = Some r' ∧ keeps r r';
  (** The epochs before the current one are history. *)
  lt_old : forall space s e n, sequence_space d !! space = Some s -> e < seq_epoch s ->
    rows d' space e n = rows d space e n
}.
#[export] Instance later_preorder : PreOrder later.
Proof.
  split.
  - intros d. split; [|intros space e n r Hr; by exists r|done]. intros space s Hs. exists s. split; [done|].
    split; [lia|]. intros _. by split_and!.
  - intros a b c [A1 A2 A3] [B1 B2 B3]. split.
    + intros space s Hs. destruct (A1 space s Hs) as (s1 & H1 & [E1 L1]). destruct (B1 space s1 H1) as (s2 & H2 & [E2 L2]).
      exists s2. split; [done|]. split; [lia|]. intros He. destruct L1 as (M1 & N1 & R1); [lia|].
      destruct L2 as (M2 & N2 & R2); [lia|]. split; [lia|]. split; [intros; rewrite N1, N2; lia|].
      intros n r Hn Hr. replace (seq_epoch s) with (seq_epoch s1) by lia. apply R2; [done|].
      replace (seq_epoch s1) with (seq_epoch s) by lia. apply R1; [lia|done].
    + intros space e n r Hr. destruct (A2 _ _ _ _ Hr) as (r1 & H1 & K1). destruct (B2 _ _ _ _ H1) as (r2 & H2 & K2).
      exists r2. split; [done|]. by transitivity r1.
    + intros space s e n Hs He. destruct (A1 space s Hs) as (s1 & H1 & [E1 _]).
      rewrite (B3 space s1 e n H1); [|lia]. by apply (A3 space s).
Qed.

Lemma analysis_later d d' space a : later d d' -> analysis_ok d space a -> analysis_ok d' space a.
Proof.
  intros L (s & Hs & He & H1 & [r Hr]). destruct (lt_space _ _ L space s Hs) as (s' & Hs' & [E _]).
  exists s'. split; [done|]. split; [lia|]. split; [done|].
  destruct (lt_row _ _ L _ _ _ _ Hr) as (r' & -> & _). by eexists.
Qed.
Lemma round_later d d' space rd : later d d' -> round_ok d space rd -> round_ok d' space rd.
Proof.
  intros L (Hc & s & Hs & He & Hr). split; [done|].
  destruct (lt_space _ _ L space s Hs) as (s' & Hs' & [E Ls]). exists s'. split; [done|]. split; [lia|].
  intros Heq. destruct (Hr ltac:(lia)) as (H1 & H2 & H3). destruct (Ls ltac:(lia)) as (M & N & R).
  split; [lia|]. split; [intros; rewrite H2, N; lia|]. intros n r Hin Hn.
  replace (seq_epoch s') with (seq_epoch s) by lia. apply R; [done|]. apply H3; [done|lia].
Qed.

(** ** What a transaction does to the tables *)

(** Rows [from < n <= to] of one epoch appear, without M numbers; nothing else changes. *)
Record appears (d d' : Db) (space : Space) (epoch from to : Z) : Prop := {
  ap_new : forall n, from < n <= to -> ∃ r, rows d' space epoch n = Some r ∧ merge_number r = None;
  ap_old : forall s e n, ~ (s = space ∧ e = epoch ∧ from < n <= to) -> rows d' s e n = rows d s e n;
  ap_free : forall n, from < n -> rows d space epoch n = None;
  ap_unique : unique_commits d space epoch -> unique_commits d' space epoch
}.

(** [d'] is [d] with the row [s'] for the space; the rows are compared separately. *)
Definition spaced (d d' : Db) (space : Space) (s' : SequenceSpaceRow) : Prop :=
  sequence_space d' = <[space := s']> (sequence_space d).

(** The first step of a computation that succeeded. *)
Tactic Notation "bind" hyp(H) "as" simple_intropattern(p) ident(Q) :=
  match type of H with
  | context [mbind _ ?x] => destruct x as [p|?] eqn:Q; cbn [mbind result_bind] in H; [|discriminate H]
  end.

Lemma write_appears env space epoch h commits d d' :
  (forall n, h < n -> rows d space epoch n = None) ->
  write_numbered env space epoch (numberCommits h commits) d = Ok d' ->
  appears d d' space epoch h (h + Z.of_nat (length commits)) ∧ same_but_rows d d'.
Proof.
  intros Hf Hw. destruct (write_spec env space epoch commits h d d' Hf Hw) as (Hs & Hin & Hout & Hu).
  split; [|done]. split; try done. intros n Hn.
  destruct (lookup_lt_is_Some_2 commits (Z.to_nat (n - h - 1)) ltac:(lia)) as [c Hc].
  apply Hin in Hc. replace (h + Z.of_nat (Z.to_nat (n - h - 1)) + 1) with n in Hc by lia.
  eexists. split; [exact Hc|done].
Qed.

Lemma appears_same d d1 d' space epoch from to :
  (forall s e n, rows d1 s e n = rows d s e n) -> appears d1 d' space epoch from to ->
  appears d d' space epoch from to.
Proof.
  intros H [H1 H2 H3 H4]. split; [done| | |].
  - intros s e n Hn. rewrite H2 by done. apply H.
  - intros n Hn. rewrite <- H. by apply H3.
  - intros Hu. apply H4. eapply unique_commits_same; [|done]. intros. apply H.
Qed.
Lemma appears_then d d1 d' space epoch from to :
  (forall s e n, rows d' s e n = rows d1 s e n) -> appears d d1 space epoch from to ->
  appears d d' space epoch from to.
Proof.
  intros H [H1 H2 H3 H4]. split; [| |done|].
  - intros n Hn. rewrite H. by apply H1.
  - intros s e n Hn. rewrite H. by apply H2.
  - intros Hu. eapply unique_commits_same; [|by apply H4]. intros. apply H.
Qed.

(** ** The transactions that number commits *)

(** The commits of [changed] are queued to show their pull requests again. *)
Definition asks (env : Env) (space : Space) (changed : list jstr) (d d' : Db) : Prop :=
  source_links d' = source_links d ∧
  commit_link_state d' = commit_link_state (requeueChainChangedCommitLinks (Work.now (clocks env)) (fst space) changed d).

Lemma assign_inv env g space correlationId d d' o :
  assign_tx env g space correlationId d = Ok (Commit d' o) ->
  ∃ newHead commits d2 d3,
    write_numbered env space (seq_epoch (space_of space d)) (numberCommits (head_seq (space_of space d)) commits)
      (ensureSequenceSpace space d) = Ok d2 ∧
    advanceHead space newHead (head_seq (space_of space d) + Z.of_nat (length commits)) d2 = Ok d3 ∧
    sequence_space d' = sequence_space d3 ∧ (forall s e n, rows d' s e n = rows d3 s e n) ∧
    asks env space (map nc_sha (numberCommits (head_seq (space_of space d)) commits)) d3 d'.
Proof.
  unfold assign_tx. destruct (locked env); [|discriminate]. cbn [negb]. rewrite find_ensure.
  set (s := space_of space d). destruct (resolveHead g (snd space)) as [[newHead|]|]; try discriminate.
  assert (forall r, match firstParentCommits g (head_sha s) newHead with
    | Err e => Ok (RollbackStale (graphReason e))
    | Ok commits =>
      db ← (db ← write_numbered env space (seq_epoch s) (numberCommits (head_seq s) commits)
                   (ensureSequenceSpace space d);
            db ← advanceHead space newHead
                   (head_seq s + Z.of_nat (length (numberCommits (head_seq s) commits))) db;
            let db := requestMergeNumberReconcile (clocks env) space (seq_epoch s)
                        (js "sequence_assigned") correlationId db in
            Ok (if (0 <? length (numberCommits (head_seq s) commits))%nat
                then requeueChainChangedCommitLinks (Work.now (clocks env)) (fst space)
                       (map nc_sha (numberCommits (head_seq s) commits))
                       (requestProjection (clocks env) space (seq_epoch s) tail
                          (js "sequence_assigned") correlationId db)
                else db));
      Ok (Commit db (assigned (head_seq s)
            (head_seq s + Z.of_nat (length (numberCommits (head_seq s) commits))) newHead))
    end = r -> r = Ok (Commit d' o) ->
    ∃ newHead commits d2 d3,
    write_numbered env space (seq_epoch s) (numberCommits (head_seq s) commits)
      (ensureSequenceSpace space d) = Ok d2 ∧
    advanceHead space newHead (head_seq s + Z.of_nat (length commits)) d2 = Ok d3 ∧
    sequence_space d' = sequence_space d3 ∧ (forall s e n, rows d' s e n = rows d3 s e n) ∧
    asks env space (map nc_sha (numberCommits (head_seq s) commits)) d3 d') as Hgo.
  { intros r <- H. destruct (firstParentCommits g (head_sha s) newHead) as [commits|]; [|discriminate].
    rewrite numberCommits_length in H.
    destruct (write_numbered env space (seq_epoch s) (numberCommits (head_seq s) commits) _) as [d2|] eqn:Hw;
      cbn [mbind result_bind] in H; [|discriminate].
    destruct (advanceHead space newHead _ d2) as [d3|] eqn:Ha; cbn [mbind result_bind] in H; [|discriminate].
    exists newHead, commits, d2, d3. split; [done|]. split; [done|].
    destruct (Nat.ltb_spec 0 (length commits)); injection H as <- _; (split; [reflexivity|split; [reflexivity|]]); [split; reflexivity|].
    destruct commits; [|cbn in *; lia]. split; reflexivity. }
  destruct (head_sha s) as [stored|] eqn:Eh; [|intros H; by apply (Hgo _ eq_refl)].
  destruct (jeqb stored newHead); [intros H; by apply (Hgo _ eq_refl)|].
  destruct (isAncestor g stored newHead) as [[]|]; try discriminate. intros H. by apply (Hgo _ eq_refl).
Qed.

Lemma db_ok_space d space :
  db_ok d ->
  (sequence_space d !! space = Some (space_of space d) ∧ space_ok d space (space_of space d)) \/
  (sequence_space d !! space = None ∧ space_of space d = default_space ∧ forall e n, rows d space e n = None).
Proof.
  intros H. specialize (H space). unfold space_of, findSequenceSpace.
  destruct (sequence_space d !! space) as [s|]; [left|right]; done.
Qed.

Lemma above_head d space n :
  db_ok d -> head_seq (space_of space d) < n -> rows d space (seq_epoch (space_of space d)) n = None.
Proof.
  intros H Hn. destruct (db_ok_space d space H) as [[_ Hs]|(_ & _ & Hs)]; [|apply Hs].
  destruct (rows d space (seq_epoch (space_of space d)) n) eqn:E; [|done].
  pose proof (proj2 (ok_dense _ _ _ Hs n) ltac:(by rewrite E)). lia.
Qed.

Lemma assign_commit env g space correlationId d d' o :
  db_ok d -> assign_tx env g space correlationId d = Ok (Commit d' o) ->
  ∃ newHead len, 0 <= len ∧
    let s := space_of space d in
    spaced d d' space (set_head newHead (head_seq s + len) s) ∧
    checkpoint_chk (set_head newHead (head_seq s + len) s) = true ∧
    appears d d' space (seq_epoch s) (head_seq s) (head_seq s + len).
Proof.
  intros Hok H. apply assign_inv in H as (newHead & commits & d2 & d3 & Hw & Ha & Hsp & Hr & _).
  exists newHead, (Z.of_nat (length commits)). split; [lia|]. cbv zeta. set (s := space_of space d) in *.
  apply write_appears in Hw as [Hap Hsame].
  2:{ intros n Hn. rewrite rows_ensure. by apply above_head. }
  assert (sequence_space d2 !! space = Some s) as Hs2.
  { rewrite (sb_space _ _ Hsame). apply find_ensure. }
  destruct (advanceHead_spec _ _ _ _ _ _ Hs2 Ha) as [-> Hchk]. split_and!; [|done|].
  - unfold spaced. rewrite Hsp. cbn [sequence_space set_spaces]. rewrite (sb_space _ _ Hsame).
    unfold ensureSequenceSpace. destruct (sequence_space d !! space); [done|]. cbn. apply insert_insert_eq.
  - eapply appears_then; [|eapply appears_same; [|exact Hap]]; intros.
    + rewrite Hr. reflexivity.
    + apply rows_ensure.
Qed.

(** ** The transactions that open an epoch *)

(** The common part of reassignment and repair: bump, copy up to [p], write after it. *)
Record new_epoch (env : Env) (d d' : Db) (space : Space) (oldEpoch p len : Z) (newHead : jstr) : Prop := {
  ne_parts : ∃ commits d1 ne d2 k d3 d4,
    len = Z.of_nat (length commits) ∧ bumpEpoch space d = Ok (d1, ne) ∧
    (if 0 <? p then copySequencesUpTo space oldEpoch ne p d1 else Ok (d1, 0)) = Ok (d2, k) ∧
    write_numbered env space ne (numberCommits p commits) d2 = Ok d3 ∧
    advanceHead space newHead (p + len) d3 = Ok d4 ∧
    sequence_space d' = sequence_space d4 ∧ (forall s e n, rows d' s e n = rows d4 s e n) ∧
    asks env space (listChangedCommitsBetweenEpochs space oldEpoch ne d4) d4 d'
}.

Lemma new_epoch_commit env d d' space p len newHead s :
  new_epoch env d d' space (seq_epoch s) p len newHead ->
  sequence_space d !! space = Some s -> space_ok d space s -> 0 <= p <= head_seq s ->
  0 <= len ∧ spaced d d' space (set_head newHead (p + len) (bump s)) ∧
  appears d d' space (seq_epoch s + 1) 0 (p + len).
Proof.
  intros [(commits & d1 & ne & d2 & k & d3 & d4 & -> & Hb & Hc & Hw & Ha & Hsp & Hr & _)] Hs Hok Hp.
  rewrite (bumpEpoch_spec _ _ _ Hs) in Hb. injection Hb as <- <-. split; [lia|].
  set (d1 := set_spaces (<[space:=bump s]> (sequence_space d)) d) in *.
  assert (forall n, rows d space (seq_epoch s + 1) n = None) as Hfree.
  { intros n. destruct (rows d space (seq_epoch s + 1) n) eqn:E; [|done].
    apply (ok_bounds _ _ _ Hok) in E. lia. }
  assert (sequence_space d2 = sequence_space d1 ∧
    (forall s' e n, rows d2 s' e n =
       if decide (s' = space ∧ e = seq_epoch s + 1)
       then if n <=? p then unnumbered <$> rows d space (seq_epoch s) n else None
       else rows d s' e n)) as [Hsp2 Hr2].
  { destruct (Z.ltb_spec 0 p).
    - apply copy_spec in Hc as [Hsame Hr2]; [|exact Hfree]. split; [apply (sb_space _ _ Hsame)|exact Hr2].
    - injection Hc as <- _. split; [done|]. intros s' e n. change (rows d1 s' e n) with (rows d s' e n).
      destruct (decide _) as [[-> ->]|]; [|done]. rewrite Hfree. destruct (Z.leb_spec n p); [|done].
      destruct (rows d space (seq_epoch s) n) eqn:E; [|done]. apply (ok_bounds _ _ _ Hok) in E. lia. }
  apply write_appears in Hw as [[Hnew Hold Hfr Hun] Hsame].
  2:{ intros n Hn. rewrite Hr2, decide_True by done. by rewrite (proj2 (Z.leb_gt _ _)) by lia. }
  assert (sequence_space d3 !! space = Some (bump s)) as Hs3.
  { rewrite (sb_space _ _ Hsame), Hsp2. unfold d1. cbn. apply lookup_insert_eq. }
  destruct (advanceHead_spec _ _ _ _ _ _ Hs3 Ha) as [-> Hchk]. split.
  - unfold spaced. rewrite Hsp. cbn [sequence_space set_spaces]. rewrite (sb_space _ _ Hsame), Hsp2.
    unfold d1. cbn. apply insert_insert_eq.
  - split.
    + intros n Hn. rewrite Hr. change (rows (set_spaces _ d3) space (seq_epoch s + 1) n) with (rows d3 space (seq_epoch s + 1) n).
      destruct (Z.leb_spec n p); [|apply Hnew; lia]. rewrite Hold by lia. rewrite Hr2, decide_True by done.
      rewrite (proj2 (Z.leb_le _ _)) by lia.
      destruct (proj1 (ok_dense _ _ _ Hok n) ltac:(lia)) as [r Hrr]. rewrite Hrr. eexists. split; [done|done].
    + intros s' e n Hn. rewrite Hr. change (rows (set_spaces _ d3) s' e n) with (rows d3 s' e n).
      destruct (decide (s' = space ∧ e = seq_epoch s + 1)) as [[-> ->]|Hne].
      * assert (~ 0 < n <= p + Z.of_nat (length commits)) as Hn' by tauto.
        rewrite Hold by lia. rewrite Hr2, decide_True by done. rewrite Hfree. destruct (Z.leb_spec n p); [|done].
        destruct (rows d space (seq_epoch s) n) eqn:E; [|done]. apply (ok_bounds _ _ _ Hok) in E. lia.
      * rewrite Hold by tauto. by rewrite Hr2, decide_False.
    + intros n _. apply Hfree.
    + intros _. eapply unique_commits_same; [intros n; rewrite Hr; reflexivity|]. apply Hun.
      intros n m r q Hn Hm He. rewrite Hr2, decide_True in Hn, Hm by done.
      destruct (n <=? p), (m <=? p); try discriminate.
      destruct (rows d space (seq_epoch s) n) as [r'|] eqn:En; [|discriminate].
      destruct (rows d space (seq_epoch s) m) as [q'|] eqn:Em; [|discriminate].
      injection Hn as <-. injection Hm as <-. by eapply (ok_unique _ _ _ Hok).
Qed.

Lemma reassign_inv env g space storedHead newHead correlationId d d' o :
  reassign_tx env g space storedHead newHead correlationId d = Commit d' o ->
  ∃ s p len, sequence_space d !! space = Some s ∧ (p = 0 \/ is_Some (rows d space (seq_epoch s) p)) ∧
    new_epoch env d d' space (seq_epoch s) p len newHead.
Proof.
  unfold reassign_tx. destruct (locked env); [|discriminate]. cbn [negb].
  destruct (findSequenceSpace space d) as [s|] eqn:Hs; [|discriminate].
  destruct (negb (bool_decide (head_sha s = Some storedHead))); [discriminate|].
  destruct (reassign_base g space (seq_epoch s) storedHead newHead d) as [[baseSha p]|] eqn:Hb; [|discriminate].
  intros H. match type of H with match ?x with _ => _ end = _ =>
    destruct x as [[[d4' ne'] commits']|] eqn:E; [|discriminate H] end.
  injection H as -> _. exists s, p.
  bind E as [d1 ne] E1. bind E as [d2 k] E2. bind E as commits E3. exists (Z.of_nat (length commits)).
  split; [done|]. split.
  { unfold reassign_base in Hb. destruct (mergeBase g storedHead newHead) as [[b|]|]; cbn in Hb; [|injection Hb; auto|discriminate].
    destruct (findSeqByCommit _ _ b d) as [n|] eqn:En; injection Hb as _ <-; [|by left].
    apply findSeqByCommit_Some in En as (r & Hr & _). right. by rewrite Hr. }
  bind E as d4 E4. injection E as -> -> ->. unfold renumber in E4.
  bind E4 as d5 E5. bind E4 as d6 E6. injection E4 as <-.
  split. do 7 eexists. split_and!; try done.
Qed.

Lemma repair_inv env g live space a correlationId d d' o s :
  sequence_space d !! space = Some s -> seq_epoch (an_space a) = seq_epoch s ->
  repair_tx env g live space a correlationId d = Commit d' o ->
  ∃ len, new_epoch env d d' space (seq_epoch s) (divergedAtSeq a - 1) len (an_head a).
Proof.
  intros Hs He. unfold repair_tx. rewrite He. intros H.
  match type of H with match ?x with _ => _ end = _ =>
    destruct x as [[[[d3 ne] commits] lv]|] eqn:E; [|discriminate H] end.
  destruct (negb (bool_decide (lv = Some (an_head a)))); [discriminate H|].
  match type of H with match ?x with _ => _ end = _ => destruct x as [d5|] eqn:E2; [|discriminate H] end.
  injection H as <- _. bind E2 as d6 E3. injection E2 as <-.
  bind E as [d1 ne'] E4. bind E as [d2 k] E5. bind E as cs E6. bind E as d7 E7. bind E as lv' E8.
  injection E as -> -> -> ->. exists (Z.of_nat (length commits)).
  replace (1 <? divergedAtSeq a) with (0 <? divergedAtSeq a - 1) in *
    by (destruct (Z.ltb_spec 0 (divergedAtSeq a - 1)), (Z.ltb_spec 1 (divergedAtSeq a)); lia).
  split. do 7 eexists. split_and!; try done.
Qed.

(** ** Every transaction keeps the invariant *)

Lemma omap_ext_elem {A B} (f g : A -> option B) (l : list A) : (forall x, x ∈ l -> f x = g x) -> omap f l = omap g l.
Proof.
  induction l as [|x l IH]; intros H; [done|]. cbn [omap list_omap]. rewrite (H x) by by left.
  rewrite IH; [done|]. intros y Hy. apply H. by right.
Qed.

Definition same_core (s s' : SequenceSpaceRow) : Prop :=
  seq_epoch s' = seq_epoch s ∧ head_seq s' = head_seq s ∧
  mnumber_head_seq s' = mnumber_head_seq s ∧ mnumber_head s' = mnumber_head s.

Lemma space_ok_ext d d' space s s' :
  (forall e n, rows d' space e n = rows d space e n) -> same_core s s' ->
  space_ok d space s -> space_ok d' space s'.
Proof.
  intros Hr (E1 & E2 & E3 & E4) [H1 H2 H3 H4 H5 H6 H7 H8 H9].
  split; unfold checkpoint_chk, unique_commits in *; rewrite ?E1, ?E2, ?E3, ?E4; try done;
    try (intros *; rewrite ?Hr; eauto; fail).
  rewrite <- H7. apply omap_ext_elem. intros. by rewrite Hr.
Qed.

Lemma default_ok d space : (forall e n, rows d space e n = None) -> space_ok d space default_space.
Proof.
  intros H. split; try (intros *; rewrite ?H; done); [|by intros e n m r q; rewrite H].
  intros n. rewrite H. cbn. split; [lia|by intros [? ?]].
Qed.
Lemma current_ok d space : db_ok d -> space_ok d space (space_of space d).
Proof. intros H. destruct (db_ok_space d space H) as [[_ Hs]|(_ & -> & Hs)]; [done|by apply default_ok]. Qed.

Definition kept (d d' : Db) : Prop := db_ok d' ∧ later d d'.

Lemma kept_one d d' space s' :
  db_ok d -> spaced d d' space s' ->
  (forall s e n, s <> space -> rows d' s e n = rows d s e n) ->
  space_ok d' space s' -> later_space d d' space (space_of space d) s' ->
  (forall e n r, rows d space e n = Some r -> ∃ r', rows d' space e n = Some r' ∧ keeps r r') ->
  (forall e n, e < seq_epoch (space_of space d) -> rows d' space e n = rows d space e n) -> kept d d'.
Proof.
  intros Hok Hsp Hout Hs' Hls Hrow Hold. unfold spaced in Hsp. split.
  - intros sp. rewrite Hsp. destruct (decide (sp = space)) as [->|Hne]; [by rewrite lookup_insert_eq|].
    rewrite lookup_insert_ne by done. specialize (Hok sp). destruct (sequence_space d !! sp) as [s|].
    + apply (space_ok_ext d _ _ s); [|done|done]. intros. by apply Hout.
    + intros. rewrite Hout by done. apply Hok.
  - assert (forall s, sequence_space d !! space = Some s -> space_of space d = s) as Hof.
    { intros s Hs. unfold space_of, findSequenceSpace. by rewrite Hs. }
    split.
    + intros sp s Hs. rewrite Hsp. destruct (decide (sp = space)) as [->|Hne].
      * rewrite lookup_insert_eq. exists s'. split; [done|]. by rewrite <- (Hof s Hs).
      * rewrite lookup_insert_ne by done. exists s. split; [done|]. split; [lia|]. intros _. split; [lia|]. split; [done|].
        intros. by rewrite Hout.
    + intros sp e n r Hr. destruct (decide (sp = space)) as [->|Hne]; [by apply Hrow|]. exists r. by rewrite Hout.
    + intros sp s e n Hs He. destruct (decide (sp = space)) as [->|Hne]; [|by rewrite Hout].
      apply Hold. by rewrite (Hof s Hs).
Qed.

Lemma kept_core d d' space s' :
  db_ok d -> spaced d d' space s' -> (forall s e n, rows d' s e n = rows d s e n) ->
  same_core (space_of space d) s' -> kept d d'.
Proof.
  intros Hok Hsp Hr Hc. apply (kept_one d d' space s'); try done.
  - eapply space_ok_ext; [|exact Hc|by apply current_ok]. intros. apply Hr.
  - destruct Hc as (E1 & _ & E3 & E4). split; [lia|]. intros _. split; [lia|]. split; [done|]. intros. by rewrite Hr.
  - intros e n r Hn. exists r. by rewrite Hr.
Qed.
Lemma kept_refl d d' :
  db_ok d -> (forall s e n, rows d' s e n = rows d s e n) -> sequence_space d' = sequence_space d -> kept d d'.
Proof.
  intros Hok Hr Hs. split.
  - intros sp. rewrite Hs. specialize (Hok sp). destruct (sequence_space d !! sp); [|intros; by rewrite Hr].
    eapply space_ok_ext; [|by split_and!|done]. intros. apply Hr.
  - split.
    + intros sp s. rewrite Hs. exists s. split; [done|]. split; [lia|]. intros _. split; [lia|]. split; [done|].
      intros. by rewrite Hr.
    + intros sp e n r Hn. exists r. by rewrite Hr.
    + intros. by rewrite Hr.
Qed.
Lemma kept_update space p f d :
  db_ok d -> (forall s, same_core s (f s)) -> kept d (update_space space p f d).
Proof.
  intros Hok Hf. unfold update_space. destruct (sequence_space d !! space) as [s|] eqn:Hs; [|by apply kept_refl].
  destruct (p s); [|by apply kept_refl]. apply (kept_core d _ space (f s)); [done|done|done|].
  unfold space_of, findSequenceSpace. rewrite Hs. apply Hf.
Qed.

Lemma assign_kept env g space correlationId d d' o :
  db_ok d -> assign_tx env g space correlationId d = Ok (Commit d' o) -> kept d d'.
Proof.
  intros Hok H. destruct (assign_commit _ _ _ _ _ _ _ Hok H) as (newHead & len & Hl & Hsp & Hchk & Hap).
  pose proof (current_ok d space Hok) as Hs. set (s := space_of space d) in *. cbv zeta in *.
  destruct Hap as [Hnew Hold Hfree Huniq].
  assert (forall e n r, rows d space e n = Some r -> rows d' space e n = Some r) as Hkeep.
  { intros e n r Hr. rewrite Hold; [done|]. intros (_ & -> & Hn). rewrite Hfree in Hr by lia. done. }
  assert (mnumber_head_seq s <= head_seq s) as Hcp.
  { pose proof (ok_chk _ _ _ Hs) as Hc. unfold checkpoint_chk in Hc. lia. }
  apply (kept_one d d' space _ Hok Hsp).
  - intros sp e n Hne. apply Hold. tauto.
  - assert (forall n r, rows d' space (seq_epoch s) n = Some r ->
      rows d space (seq_epoch s) n = Some r \/ (head_seq s < n <= head_seq s + len ∧ merge_number r = None)) as Hcase.
    { intros n r Hr. destruct (decide (head_seq s < n <= head_seq s + len)) as [Hn|Hn].
      - destruct (Hnew n Hn) as (r' & Hr' & Hm). right. split; [done|]. congruence.
      - left. rewrite Hold in Hr; [done|tauto]. }
    split; cbn.
    + apply Hs.
    + exact Hchk.
    + intros e n r Hr. destruct (decide (e = seq_epoch s ∧ head_seq s < n <= head_seq s + len)) as [[-> Hn]|Hn].
      * pose proof (ok_epoch _ _ _ Hs). pose proof (ok_chk _ _ _ Hs) as Hc. unfold checkpoint_chk in Hc. lia.
      * rewrite Hold in Hr by tauto. by apply (ok_bounds _ _ _ Hs) in Hr.
    + intros n. destruct (decide (head_seq s < n <= head_seq s + len)) as [Hn|Hn].
      * destruct (Hnew n Hn) as (r & Hr & _). rewrite Hr. split; [by eexists|].
        pose proof (ok_chk _ _ _ Hs) as Hc. unfold checkpoint_chk in Hc. lia.
      * rewrite Hold by tauto. rewrite <- (ok_dense _ _ _ Hs n). lia.
    + intros e. destruct (decide (e = seq_epoch s)) as [->|He].
      * apply Huniq, (ok_unique _ _ _ Hs).
      * eapply unique_commits_same; [|apply (ok_unique _ _ _ Hs)]. intros n. apply Hold. tauto.
    + intros n r Hr Hn. destruct (Hcase n r Hr) as [Hr'|[_ Hm]]; [|done]. by apply (ok_after _ _ _ Hs n).
    + rewrite <- (ok_numbers _ _ _ Hs). apply omap_ext_elem. intros n Hn. apply elem_of_seqZ in Hn.
      rewrite Hold; [done|]. intros (_ & _ & ?). lia.
    + intros n r k Hr Hk. destruct (Hcase n r Hr) as [Hr'|[_ Hm]]; [|congruence]. by apply (ok_pr _ _ _ Hs n r k).
    + intros n m r q Hr Hq Hnr Hnq He. destruct (Hcase n r Hr) as [Hr'|[_ Hm]]; [|rewrite Hm in Hnr; by destruct Hnr].
      destruct (Hcase m q Hq) as [Hq'|[_ Hm]]; [|rewrite Hm in Hnq; by destruct Hnq].
      by apply (ok_one _ _ _ Hs n m r q).
  - change (space_of space d) with s. split; cbn; [lia|]. intros _. split; [lia|]. split; [done|]. intros n r _. apply Hkeep.
  - intros e n r Hr. exists r. split; [by apply Hkeep|done].
  - intros e n He. apply Hold. intros (_ & -> & _). change (space_of space d) with s in He. lia.
Qed.

Lemma new_epoch_kept env d d' space p len newHead s :
  db_ok d -> new_epoch env d d' space (seq_epoch s) p len newHead ->
  sequence_space d !! space = Some s -> 0 <= p <= head_seq s -> kept d d'.
Proof.
  intros Hok Hne Hsp Hp. assert (space_of space d = s) as Hof by (unfold space_of, findSequenceSpace; by rewrite Hsp).
  pose proof (current_ok d space Hok) as Hs. rewrite Hof in Hs.
  destruct (new_epoch_commit _ _ _ _ _ _ _ _ Hne Hsp Hs Hp) as (Hl & Hsp' & [Hnew Hold Hfree Huniq]).
  assert (forall e n r, rows d space e n = Some r -> e <= seq_epoch s) as Hb.
  { intros e n r Hr. apply (ok_bounds _ _ _ Hs) in Hr. lia. }
  assert (forall e n, e <= seq_epoch s -> rows d' space e n = rows d space e n) as Hkeep.
  { intros e n He. apply Hold. intros (_ & ? & _). lia. }
  assert (forall n r, rows d' space (seq_epoch s + 1) n = Some r -> 0 < n <= p + len ∧ merge_number r = None) as Hcase.
  { intros n r Hr. destruct (decide (0 < n <= p + len)) as [Hn|Hn].
    - destruct (Hnew n Hn) as (r' & Hr' & Hm). split; [done|]. congruence.
    - rewrite Hold in Hr by tauto. apply Hb in Hr. lia. }
  assert (0 <= p + len) as Hpl by lia.
  apply (kept_one d d' space _ Hok Hsp').
  - intros sp e n Hne'. apply Hold. tauto.
  - pose proof (ok_epoch _ _ _ Hs). split; cbn.
    + lia.
    + unfold checkpoint_chk. cbn. lia.
    + intros e n r Hr. destruct (decide (e = seq_epoch s + 1)) as [->|He]; [apply Hcase in Hr; lia|].
      rewrite Hold in Hr by tauto. apply (ok_bounds _ _ _ Hs) in Hr. lia.
    + intros n. split.
      * intros Hn. destruct (Hnew n ltac:(lia)) as (r & -> & _). by eexists.
      * intros [r Hr]. apply Hcase in Hr. lia.
    + intros e. destruct (decide (e = seq_epoch s + 1)) as [->|He].
      * apply Huniq, (ok_unique _ _ _ Hs).
      * eapply unique_commits_same; [|apply (ok_unique _ _ _ Hs)]. intros n. apply Hold. tauto.
    + intros n r Hr _. by destruct (Hcase n r Hr).
    + done.
    + intros n r k Hr Hk. apply Hcase in Hr as [_ Hr]. congruence.
    + intros n m r q Hr _ [k Hk]. apply Hcase in Hr as [_ Hr]. congruence.
  - rewrite Hof. split; cbn; [lia|]. lia.
  - intros e n r Hr. exists r. split; [|done]. by rewrite Hkeep by (by eapply Hb).
  - rewrite Hof. intros e n He. apply Hkeep. lia.
Qed.

(** ** Rounds *)

(** What the fences of the transaction establish: the round is about the current epoch and
    the current checkpoint. *)
Record fenced (d : Db) (space : Space) (rd : Round) (s : SequenceSpaceRow) : Prop := {
  fe_space : sequence_space d !! space = Some s;
  fe_epoch : rd_epoch rd = seq_epoch s;
  fe_seq : cp_headSeq (rd_checkpoint rd) = mnumber_head_seq s
}.

(** What a plan does when its assignments are written: [dn] are the rows it settles. *)
Record settles (d d1 : Db) (space : Space) (s : SequenceSpaceRow) (plan : PlanResult) (dn : list PlanRow) : Prop := {
  se_cons : consecutive (mnumber_head_seq s) dn;
  se_rows : forall row, row ∈ dn -> ∃ r, rows d space (seq_epoch s) (MNumberPlan.mergeSeq row) = Some r ∧ merge_number r = None;
  se_assign : assignments plan = number_rows (mnumber_head s) dn;
  se_seq : nextHeadSeq plan = mnumber_head_seq s + Z.of_nat (length dn);
  se_number : nextHeadNumber plan = mnumber_head s + Z.of_nat (length (assignments plan));
  se_pr : NoDup (map as_prNumber (assignments plan));
  se_room : forall a, a ∈ assignments plan -> ∃ r, rows d space (seq_epoch s) (as_mergeSeq a) = Some r ∧
    merge_number r = None ∧ (pull_request_number r = None \/ pull_request_number r = Some (as_prNumber a));
  se_free : forall (a : PlanAssignment) n q, a ∈ assignments plan -> rows d space (seq_epoch s) n = Some q ->
    merge_number q <> Some (as_mergeNumber a) ∧
    (is_Some (merge_number q) -> pull_request_number q <> Some (as_prNumber a));
  se_write : assignMergeNumbers space (seq_epoch s) (assignments plan) d
             = Ok (d1, Z.of_nat (length (assignments plan)));
  se_same : same_but_rows d d1;
  se_in : forall a, a ∈ assignments plan -> rows d1 space (seq_epoch s) (as_mergeSeq a)
                                            = numbered_row a <$> rows d space (seq_epoch s) (as_mergeSeq a);
  se_out : forall sp e n, ~ (sp = space ∧ e = seq_epoch s ∧ n ∈ map as_mergeSeq (assignments plan)) ->
    rows d1 sp e n = rows d sp e n
}.

(** The numbers below the checkpoint are those up to its number. *)
Lemma numbered_below d space s n r k :
  space_ok d space s -> rows d space (seq_epoch s) n = Some r -> merge_number r = Some k ->
  1 <= n <= mnumber_head_seq s ∧ k <= mnumber_head s.
Proof.
  intros Hs Hr Hk. destruct (decide (mnumber_head_seq s < n)) as [Hn|Hn].
  { rewrite (ok_after _ _ _ Hs n r Hr Hn) in Hk. done. }
  pose proof (ok_bounds _ _ _ Hs _ _ _ Hr) as [_ H1]. split; [lia|].
  assert (k ∈ seqZ 1 (mnumber_head s)) as Hin; [|apply elem_of_seqZ in Hin; lia].
  rewrite <- (ok_numbers _ _ _ Hs). apply list_elem_of_omap. exists n. split; [apply elem_of_seqZ; lia|]. by rewrite Hr.
Qed.

(** What the planner settles of the rows of a round. *)
Lemma round_plan clock space rd ds evidence d plan :
  planMergeNumbers (plan_input clock space rd ds evidence d) = Ok plan ->
  let cp := rd_checkpoint rd in
  ∃ dn, consecutive (cp_headSeq cp) dn ∧
    (forall row, row ∈ dn -> ∃ r dec, r ∈ rd_rows rd ∧ row = toPlanRow r dec) ∧
    assignments plan = number_rows (cp_headNumber cp) dn ∧
    nextHeadSeq plan = cp_headSeq cp + Z.of_nat (length dn) ∧
    nextHeadNumber plan = cp_headNumber cp + Z.of_nat (length (assignments plan)) ∧
    NoDup (map as_prNumber (assignments plan)) ∧
    (forall (a : PlanAssignment), a ∈ assignments plan -> ∃ r, (as_mergeSeq a, r) ∈ rd_rows rd ∧
       (pull_request_number r = None \/ pull_request_number r = Some (as_prNumber a))) ∧
    (forall (a : PlanAssignment) n q, a ∈ assignments plan -> rows d space (rd_epoch rd) n = Some q ->
       is_Some (merge_number q) -> pull_request_number q <> Some (as_prNumber a)).
Proof.
  intros H cp. pose proof (plan_accepts _ _ H) as Hc. pose proof (fun a => plan_existing _ _ a H) as Hex.
  rewrite plan_start in H by done.
  destruct (plan_loop_spec _ _ _ _ _ _ _ H) as (dn & rest & H1 & H2 & _ & H4 & H5 & H6 & H7 & H8 & _).
  rewrite <- plan_start in H by done. cbn in H1, H2, H4, H5, H6, H7, H8.
  assert (forall row, row ∈ dn -> ∃ r dec, r ∈ rd_rows rd ∧ row = toPlanRow r dec) as Hin.
  { intros row Hr. assert (row ∈ dn ++ rest) as Hr' by (apply elem_of_app; by left). rewrite <- H1 in Hr'.
    apply list_elem_of_fmap in Hr' as (r & -> & Hr'). by eauto. }
  exists dn. rewrite H5. split_and!; try done.
  - apply H7. constructor.
  - intros a Ha. rewrite <- H5 in Ha. destruct (Hex a Ha) as (row & Hr & Hseq & Hpr).
    apply list_elem_of_fmap in Hr as ([n r] & -> & Hr). exists r.
    destruct (decision_of ds _) as [[]|]; cbn in Hseq, Hpr; by subst n.
  - intros a n q Ha Hq Hm Hp. apply (proj1 (Forall_forall _ _) H8) in Ha as Hno.
    apply bool_decide_eq_false in Hno. apply Hno, listNumbered_elem. split; [|by exists n, q].
    apply number_rows_elem in Ha as (row & Hr & _ & Hp' & _). apply list_elem_of_omap.
    assert (row ∈ dn ++ rest) as Hr' by (apply elem_of_app; by left). rewrite <- H1 in Hr'. by eauto.
Qed.

Lemma round_settles clock space rd ds evidence d plan s :
  space_ok d space s -> round_ok d space rd -> fenced d space rd s ->
  planMergeNumbers (plan_input clock space rd ds evidence d) = Ok plan -> ∃ d1 dn, settles d d1 space s plan dn.
Proof.
  intros Hs (_ & s0 & Hs0 & _ & Hrd) [Hsp He Hq] H. rewrite Hsp in Hs0. injection Hs0 as <-.
  destruct (Hrd He) as (_ & Hnum & Hrows). specialize (Hnum Hq).
  destruct (round_plan _ _ _ _ _ _ _ H) as (dn & H2 & Hin & H5 & H4 & H6 & H7 & Hpr & Hno).
  rewrite He, Hq, Hnum in *.
  assert (forall a, a ∈ assignments plan -> mnumber_head_seq s < as_mergeSeq a) as Hgt.
  { intros a Ha. rewrite H5 in Ha. by eapply number_rows_gt. }
  assert (forall a, a ∈ assignments plan -> ∃ r, rows d space (seq_epoch s) (as_mergeSeq a) = Some r ∧
    merge_number r = None ∧ (pull_request_number r = None \/ pull_request_number r = Some (as_prNumber a))) as Hroom.
  { intros a Ha. destruct (Hpr a Ha) as (r & Hr & Hp). exists r. pose proof (Hrows _ _ Hr (Hgt a Ha)) as Hrow.
    split_and!; [done| |done]. by apply (ok_after _ _ _ Hs _ _ Hrow), Hgt. }
  assert (forall (a : PlanAssignment) n q, a ∈ assignments plan -> rows d space (seq_epoch s) n = Some q ->
    merge_number q <> Some (as_mergeNumber a) ∧
    (is_Some (merge_number q) -> pull_request_number q <> Some (as_prNumber a))) as Hfree.
  { intros a n q Ha Hr. split; [|by eapply Hno]. intros Hk.
    apply (numbered_below _ _ _ _ _ _ Hs Hr) in Hk as [_ Hk].
    assert (as_mergeNumber a ∈ map as_mergeNumber (assignments plan)) as Hm by by apply list_elem_of_fmap_2.
    rewrite H5, number_rows_numbers in Hm. apply elem_of_seqZ in Hm. lia. }
  destruct (assign_fold_ok space (seq_epoch s) (assignments plan) d 0) as (d1 & Hw & Hsame & Hi & Ho).
  - rewrite H5. by eapply number_rows_NoDup.
  - rewrite H5, number_rows_numbers. apply NoDup_seqZ.
  - done.
  - done.
  - done.
  - exists d1, dn. split; try done. intros row Hr. destruct (Hin row Hr) as ([n r] & dec & Hr' & ->).
    pose proof (consecutive_gt _ _ _ H2 Hr) as Hn.
    assert (MNumberPlan.mergeSeq (toPlanRow (n, r) dec) = n) as Hm by by destruct dec as [[]|]. rewrite Hm in *.
    exists r. assert (rows d space (seq_epoch s) n = Some r) as Hrow by (apply Hrows; [done|lia]).
    split; [done|]. apply (ok_after _ _ _ Hs _ _ Hrow). lia.
Qed.

Section Settled.
Context (d d1 : Db) (space : Space) (s : SequenceSpaceRow) (plan : PlanResult) (dn : list PlanRow).
Hypothesis (Hs : space_ok d space s) (St : settles d d1 space s plan dn).

Lemma settled_row e n r' :
  rows d1 space e n = Some r' ->
  (rows d space e n = Some r' ∧ (e = seq_epoch s -> n ∉ map as_mergeSeq (assignments plan))) \/
  (e = seq_epoch s ∧ ∃ a r, a ∈ assignments plan ∧ n = as_mergeSeq a ∧
     rows d space (seq_epoch s) n = Some r ∧ merge_number r = None ∧ r' = numbered_row a r).
Proof.
  intros Hr. destruct (decide (e = seq_epoch s ∧ n ∈ map as_mergeSeq (assignments plan))) as [[-> Hin]|Hn].
  - right. split; [done|]. apply list_elem_of_fmap in Hin as (a & -> & Ha).
    destruct (se_room _ _ _ _ _ _ St a Ha) as (r & Hr0 & Hm & _). exists a, r. split_and!; try done.
    rewrite (se_in _ _ _ _ _ _ St a Ha), Hr0 in Hr. cbn in Hr. congruence.
  - left. rewrite (se_out _ _ _ _ _ _ St) in Hr by tauto. split; [done|]. tauto.
Qed.

Lemma settled_keeps sp e n r : rows d sp e n = Some r -> ∃ r', rows d1 sp e n = Some r' ∧ keeps r r'.
Proof.
  intros Hr. destruct (decide (sp = space ∧ e = seq_epoch s ∧ n ∈ map as_mergeSeq (assignments plan)))
    as [(-> & -> & Hin)|Hn]; [|exists r; by rewrite (se_out _ _ _ _ _ _ St)].
  apply list_elem_of_fmap in Hin as (a & -> & Ha).
  destruct (se_room _ _ _ _ _ _ St a Ha) as (r0 & Hr0 & Hm & Hp). rewrite Hr in Hr0. injection Hr0 as <-.
  exists (numbered_row a r). rewrite (se_in _ _ _ _ _ _ St a Ha), Hr. split; [done|]. split; try done; cbn.
  - destruct Hp as [-> | ->]; [by intros [? ?]|done].
  - rewrite Hm. by intros [? ?].
Qed.

Lemma settled_above n : n ∈ map as_mergeSeq (assignments plan) -> mnumber_head_seq s < n <= nextHeadSeq plan.
Proof.
  intros (a & -> & Ha)%list_elem_of_fmap. rewrite (se_assign _ _ _ _ _ _ St) in Ha.
  apply number_rows_elem in Ha as (row & Hr & <- & _). rewrite (se_seq _ _ _ _ _ _ St).
  apply (consecutive_gt _ _ _ (se_cons _ _ _ _ _ _ St) Hr).
Qed.

(** The rows that are settled are stored, so the new checkpoint is within the head. *)
Lemma settled_chk : 0 <= mnumber_head_seq s ∧
  0 <= nextHeadNumber plan <= nextHeadSeq plan ∧ nextHeadSeq plan <= head_seq s.
Proof.
  pose proof (ok_chk _ _ _ Hs) as Hc. unfold checkpoint_chk in Hc.
  rewrite (se_number _ _ _ _ _ _ St), (se_seq _ _ _ _ _ _ St), (se_assign _ _ _ _ _ _ St).
  pose proof (number_rows_length (mnumber_head s) dn). split; [lia|]. split; [lia|].
  destruct (decide (dn = [])) as [->|Hne]; [cbn; lia|].
  destruct (exists_last Hne) as (l & x & Heq). pose proof (se_cons _ _ _ _ _ _ St) as Hcons.
  pose proof (se_rows _ _ _ _ _ _ St) as Hrows. rewrite Heq in *.
  assert (MNumberPlan.mergeSeq x = mnumber_head_seq s + Z.of_nat (length (l ++ [x]))) as Hx.
  { clear - Hcons. revert Hcons. generalize (mnumber_head_seq s). induction l as [|y l IH]; intros h [H1 H2].
    - cbn. lia.
    - rewrite (IH _ H2). cbn [length app]. lia. }
  destruct (Hrows x) as (r & Hr & _); [apply elem_of_app; right; by left|].
  pose proof (proj2 (ok_dense _ _ _ Hs (MNumberPlan.mergeSeq x)) ltac:(by eexists)). lia.
Qed.

Lemma settled_numbers :
  omap (fun n => rows d1 space (seq_epoch s) n ≫= merge_number) (seqZ 1 (nextHeadSeq plan))
  = seqZ 1 (nextHeadNumber plan).
Proof.
  destruct settled_chk as (H0 & H1 & _). pose proof (ok_chk _ _ _ Hs) as Hc. unfold checkpoint_chk in Hc.
  rewrite (se_seq _ _ _ _ _ _ St), seqZ_app by lia. rewrite omap_app.
  rewrite (se_number _ _ _ _ _ _ St), (seqZ_app 1 (mnumber_head s)) by lia. f_equal.
  - rewrite <- (ok_numbers _ _ _ Hs). apply omap_ext_elem. intros n Hn. apply elem_of_seqZ in Hn.
    rewrite (se_out _ _ _ _ _ _ St); [done|]. intros (_ & _ & Hin%settled_above). lia.
  - rewrite (Z.add_comm 1), (Z.add_comm 1). rewrite (se_assign _ _ _ _ _ _ St) at 1.
    rewrite <- number_rows_numbers. apply omap_numbers; [apply (se_cons _ _ _ _ _ _ St)| |].
    + intros a Ha. rewrite <- (se_assign _ _ _ _ _ _ St) in Ha. rewrite (se_in _ _ _ _ _ _ St a Ha).
      destruct (se_room _ _ _ _ _ _ St a Ha) as (r & -> & _). done.
    + intros row Hr Hno. rewrite <- (se_assign _ _ _ _ _ _ St) in Hno.
      rewrite (se_out _ _ _ _ _ _ St) by tauto. destruct (se_rows _ _ _ _ _ _ St row Hr) as (r & -> & Hm). exact Hm.
Qed.

(** The row of the space once the checkpoint is moved. *)
Definition settled_space : SequenceSpaceRow :=
  mkSpace (seq_epoch s) (head_sha s) (head_seq s) (space_state s) (last_error s)
    (nextHeadSeq plan) (nextHeadNumber plan) (mnumber_blocked s).

Lemma settled_ok : space_ok d1 space settled_space.
Proof.
  destruct settled_chk as (H0 & H1 & H2).
  assert (mnumber_head_seq s <= nextHeadSeq plan) as H3 by (rewrite (se_seq _ _ _ _ _ _ St); lia).
  split; unfold checkpoint_chk; cbn -[Z.leb].
  - apply Hs.
  - rewrite !(proj2 (Z.leb_le _ _)) by lia. done.
  - intros e n r Hr. destruct (settled_row _ _ _ Hr) as [[Hr' _]|(-> & a & r0 & _ & _ & Hr' & _)];
      by apply (ok_bounds _ _ _ Hs) in Hr'.
  - intros n. rewrite (ok_dense _ _ _ Hs n). split; intros [r Hr].
    + destruct (settled_keeps _ _ _ _ Hr) as (r' & -> & _). by eexists.
    + destruct (settled_row _ _ _ Hr) as [[Hr' _]|(_ & a & r0 & _ & _ & Hr' & _)]; by eexists.
  - intros e n m r q Hr Hq He.
    assert (∃ r0, rows d space e n = Some r0 ∧ SequenceStore.commit_sha r0 = SequenceStore.commit_sha r) as (r0 & Hr0 & Er).
    { destruct (settled_row _ _ _ Hr) as [[Hr' _]|(-> & a & r0 & _ & _ & Hr' & _ & ->)]; by eexists. }
    assert (∃ q0, rows d space e m = Some q0 ∧ SequenceStore.commit_sha q0 = SequenceStore.commit_sha q) as (q0 & Hq0 & Eq).
    { destruct (settled_row _ _ _ Hq) as [[Hr' _]|(-> & a & q0 & _ & _ & Hr' & _ & ->)]; by eexists. }
    apply (ok_unique _ _ _ Hs e n m r0 q0); [done|done|congruence].
  - intros n r Hr Hn. destruct (settled_row _ _ _ Hr) as [[Hr' _]|(_ & a & r0 & Ha & -> & _)].
    + apply (ok_after _ _ _ Hs n r Hr'). lia.
    + pose proof (settled_above (as_mergeSeq a) ltac:(by apply list_elem_of_fmap_2)). lia.
  - apply settled_numbers.
  - intros n r k Hr Hk. destruct (settled_row _ _ _ Hr) as [[Hr' _]|(_ & a & r0 & _ & _ & _ & _ & ->)]; [|by eexists].
    by apply (ok_pr _ _ _ Hs n r k).
  - intros n m r q Hr Hq Hnr Hnq He.
    destruct (settled_row _ _ _ Hr) as [[Hr' _]|(_ & a & r0 & Ha & -> & Hr0 & _ & ->)],
      (settled_row _ _ _ Hq) as [[Hq' _]|(_ & b & q0 & Hb & -> & Hq0 & _ & ->)].
    + by apply (ok_one _ _ _ Hs n m r q).
    + exfalso. cbn in He. exact (proj2 (se_free _ _ _ _ _ _ St b n r Hb Hr') Hnr He).
    + exfalso. cbn in He. exact (proj2 (se_free _ _ _ _ _ _ St a m q Ha Hq') Hnq (eq_sym He)).
    + f_equal. cbn in He. injection He as He.
      apply list_elem_of_lookup_1 in Ha as [i Hi], Hb as [j Hj].
      assert (i = j) as ->; [|congruence]. eapply (NoDup_lookup _ i j (as_prNumber a) (se_pr _ _ _ _ _ _ St)).
      * by rewrite list_lookup_fmap, Hi.
      * by rewrite list_lookup_fmap, Hj, He.
Qed.

Lemma settled_kept d' s' :
  db_ok d -> sequence_space d !! space = Some s -> spaced d d' space s' ->
  (forall sp e n, rows d' sp e n = rows d1 sp e n) ->
  seq_epoch s' = seq_epoch s -> head_seq s' = head_seq s ->
  mnumber_head_seq s' = nextHeadSeq plan -> mnumber_head s' = nextHeadNumber plan -> kept d d'.
Proof.
  intros Hok Hsp Hspd Hrows E1 E2 E3 E4. assert (space_of space d = s) as Hof by (unfold space_of, findSequenceSpace; by rewrite Hsp).
  destruct settled_chk as (H0 & H1 & H2).
  assert (mnumber_head_seq s <= nextHeadSeq plan) as H3 by (rewrite (se_seq _ _ _ _ _ _ St); lia).
  apply (kept_one d d' space s' Hok Hspd).
  - intros sp e n Hne. rewrite Hrows. apply (se_out _ _ _ _ _ _ St). tauto.
  - apply (space_ok_ext d1 d' space settled_space s'); [intros; apply Hrows|by split_and!|apply settled_ok].
  - rewrite Hof. split; [lia|]. intros _. rewrite E3, E4. split; [lia|]. split.
    + intros Heq. rewrite (se_number _ _ _ _ _ _ St), (se_assign _ _ _ _ _ _ St).
      rewrite (se_seq _ _ _ _ _ _ St) in Heq. destruct dn; [cbn; lia|cbn in Heq; lia].
    + intros n r Hn Hr. rewrite Hrows, (se_out _ _ _ _ _ _ St); [done|]. intros (_ & _ & Hin%settled_above). lia.
  - intros e n r Hr. rewrite Hrows. by apply settled_keeps.
  - rewrite Hof. intros e n He. rewrite Hrows. apply (se_out _ _ _ _ _ _ St). intros (_ & -> & _). lia.
Qed.

End Settled.

(** ** Readings *)

Lemma seqZ_sorted m n : StronglySorted Z.le (seqZ m n).
Proof.
  destruct (decide (0 <= n)) as [Hn|]; [|rewrite seqZ_nil by lia; constructor]. revert m.
  apply (natlike_ind (fun n => forall m, StronglySorted Z.le (seqZ m n))); [constructor| |done].
  intros k Hk IH m. rewrite seqZ_cons by lia. replace (Z.pred (Z.succ k)) with k by lia.
  constructor; [apply IH|]. apply Forall_forall. intros y Hy%elem_of_seqZ. lia.
Qed.

(** The rows after a number, in an epoch without a gap. *)
Lemma rows_after d space epoch h c :
  (forall n, 1 <= n <= h <-> is_Some (rows d space epoch n)) -> 0 <= c ->
  map fst (List.filter (fun r => c <? fst r) (rows_of space epoch d)) = seqZ (c + 1) (h - c).
Proof.
  intros Hd Hc. apply (StronglySorted_unique Z.le).
  - eapply StronglySorted_fmap; [|apply filter_sorted, rows_of_sorted]. done.
  - apply seqZ_sorted.
  - apply NoDup_Permutation; [apply NoDup_map_filter, rows_of_NoDup|apply NoDup_seqZ|]. intros n.
    rewrite elem_of_seqZ, list_elem_of_fmap. split.
    + intros ([m r] & -> & [Hin Hlt]%elem_filter). apply elem_rows_of in Hin. cbn in *.
      pose proof (proj2 (Hd m) ltac:(by eexists)). lia.
    + intros Hn. destruct (proj1 (Hd n) ltac:(lia)) as [r Hr]. exists (n, r). split; [done|].
      apply elem_filter. rewrite elem_rows_of. split; [done|]. cbn. lia.
Qed.

Lemma read_ok toISOString date_ms resolve attestation now repo space batchSize evidence rd d :
  db_ok d ->
  reconcile_read toISOString date_ms resolve attestation now repo space batchSize evidence d = Ok (inr rd) ->
  round_ok d space rd.
Proof.
  intros Hok. unfold reconcile_read. destruct repo as [repo|]; [|discriminate].
  destruct (negb (repo_active repo)); [discriminate|]. destruct (negb (mem _ _)); [discriminate|].
  unfold findSequenceSpace. pose proof (Hok space) as Hs.
  destruct (sequence_space d !! space) as [s|] eqn:Hsp; [|discriminate].
  case_bool_decide; [discriminate|]. cbv zeta.
  set (cand := listCandidatesAfter _ _ _ _ _). assert (forall r, r ∈ cand -> rows d space (seq_epoch s) (fst r) = Some (snd r)) as Hin.
  { intros [n r] Hr. unfold cand, listCandidatesAfter in Hr. apply elem_of_take in Hr as (i & Hi & _).
    apply list_elem_of_lookup_2, elem_filter in Hi as [Hi _]. by apply elem_rows_of in Hi. }
  assert (forall i r, cand !! i = Some r -> fst r = mnumber_head_seq s + 1 + Z.of_nat i) as Hseq.
  { intros i r Hi. unfold cand, listCandidatesAfter in Hi. apply lookup_take_Some in Hi as [Hi _]. cbn [cp_headSeq] in Hi.
    assert (map fst (List.filter (fun r => mnumber_head_seq s <? fst r) (rows_of space (seq_epoch s) d)) !! i = Some (fst r)) as Hf
      by by (apply list_lookup_fmap_Some; exists r).
    pose proof (ok_chk _ _ _ Hs) as Hc. unfold checkpoint_chk in Hc.
    rewrite (rows_after _ _ _ _ _ (ok_dense _ _ _ Hs)) in Hf by lia. apply lookup_seqZ in Hf. lia. }
  intros Hrun. destruct cand as [|c l] eqn:Ec; [discriminate|]. rewrite <- Ec in *.
  bind Hrun as [[ds n] g] E. injection Hrun as <-. split; [exact Hseq|]. cbn. exists s. split; [done|]. split; [lia|].
  intros _. split; [lia|]. split; [done|]. intros m r Hr _. apply (Hin (m, r) Hr).
Qed.

Lemma analysis_read env g space correlationId a d :
  db_ok d -> repair_analyse env g space correlationId d = inr a -> analysis_ok d space a.
Proof.
  intros Hok. unfold repair_analyse. destruct (resolveHead g (snd space)) as [[head|]|]; try discriminate.
  unfold findSequenceSpace. pose proof (Hok space) as Hs.
  destruct (sequence_space d !! space) as [s|] eqn:Hsp; [|discriminate]. cbv zeta.
  destruct (firstParentRevList g None head) as [actual|]; [|discriminate].
  destruct (firstSequenceMismatch _ actual) as [m|] eqn:Em; [|by destruct (Work.requestWork _ _ _)].
  intros H. injection H as <-. exists s. split; [done|]. split; [cbn; lia|]. cbn [divergedAtSeq an_space].
  pose proof (firstSequenceMismatch_spec (listStoredSequence space (seq_epoch s) 1 d) actual) as Hspec.
  rewrite Em in Hspec. destruct Hspec as (e & He & Hn & _). apply elem_stored in He as [He1 He].
  rewrite Hn in *. split; [done|]. destruct (rows d space (seq_epoch s) (mm_mergeSeq m)); [by eexists|done].
Qed.

(** ** The end of a round *)

Lemma advance_spec clk space epoch cp b d s :
  sequence_space d !! space = Some s -> seq_epoch s = epoch ->
  advanceMergeNumberCheckpoint clk space epoch cp b d
  = if checkpoint_chk (set_checkpoint clk cp b s)
    then Ok (set_spaces (<[space := set_checkpoint clk cp b s]> (sequence_space d)) d, true)
    else Err check_violation.
Proof. unfold advanceMergeNumberCheckpoint. intros -> ->. by rewrite Z.eqb_refl. Qed.

Lemma request_rows c k space epoch extra fields d sp e n :
  rows (request c k space epoch extra fields d) sp e n = rows d sp e n.
Proof. done. Qed.
Lemma requests_same c space rd l d :
  sequence_space (foldl (request_number_work c space rd) d l) = sequence_space d ∧
  forall sp e n, rows (foldl (request_number_work c space rd) d l) sp e n = rows d sp e n.
Proof. revert d. induction l as [|a l IH]; intros d; [done|]. cbn [foldl].
  destruct (IH (request_number_work c space rd d a)) as [-> H]. split; [done|]. intros. by rewrite H.
Qed.
Lemma announce_same c space epoch correlationId l d :
  sequence_space (request_announce c space epoch correlationId l d) = sequence_space d ∧
  forall sp e n, rows (request_announce c space epoch correlationId l d) sp e n = rows d sp e n.
Proof. by destruct l. Qed.

(** The rows of a round, as the planner gets them. *)
Lemma plan_rows_total clock space rd ds evidence d s :
  space_ok d space s -> round_ok d space rd -> fenced d space rd s -> head_seq s <= MAX_SAFE_INTEGER ->
  ∃ plan, planMergeNumbers (plan_input clock space rd ds evidence d) = Ok plan.
Proof.
  intros Hs (Hcons & s0 & Hs0 & _ & Hrd) [Hsp He Hq] Hmax. rewrite Hsp in Hs0. injection Hs0 as <-.
  destruct (Hrd He) as (_ & Hnum & Hrows). specialize (Hnum Hq).
  pose proof (ok_chk _ _ _ Hs) as Hc. unfold checkpoint_chk in Hc.
  assert (forall r dec, MNumberPlan.mergeSeq (toPlanRow r dec) = fst r) as Hfst by by intros ? [[]|].
  apply plan_total; cbn [plan_input checkpoint_headSeq checkpoint_headNumber MNumberPlan.rows].
  - split; [|lia]. apply is_safe_integer_spec. unfold MAX_SAFE_INTEGER in *. lia.
  - assert (forall f l h, (forall i r, l !! i = Some r -> fst r = h + 1 + Z.of_nat i) ->
      consecutive h (map (fun row : Z * StoredRow => toPlanRow row (f row)) l)) as Hgen.
    { intros f l. induction l as [|x l IH]; intros h Hl; [done|]. split.
      - rewrite Hfst, (Hl 0%nat x eq_refl). lia.
      - apply IH. intros i r Hi. rewrite (Hl (S i) r Hi). lia. }
    by apply (Hgen (fun row => decision_of ds (fst row))).
  - intros row Hr. apply list_elem_of_fmap in Hr as ([n r] & -> & Hr). rewrite Hfst. cbn [fst].
    apply list_elem_of_lookup_1 in Hr as Hi. destruct Hi as [i Hi]. apply Hcons in Hi. cbn in Hi.
    assert (rows d space (seq_epoch s) n = Some r) as Hrow by (apply Hrows; [done|lia]).
    pose proof (proj2 (ok_dense _ _ _ Hs n) ltac:(by eexists)).
    apply is_safe_integer_spec. unfold MAX_SAFE_INTEGER in *. lia.
  - intros row Hr. apply list_elem_of_fmap in Hr as (r & -> & _).
    by destruct (decision_of ds (fst r)) as [[]|]; cbn; eauto.
Qed.

(** What a round that passes the fences can end in: its plan is written whole. *)
Definition round_end_ok (d : Db) (space : Space) (e : RoundEnd) : Prop :=
  match e with
  | RoundCommit d' _ _ => kept d d'
  | RoundMismatch _ _ | RoundThrow _ => False
  | RoundPlanError _ => ∃ s, sequence_space d !! space = Some s ∧ MAX_SAFE_INTEGER < head_seq s
  | RoundRollback _ | RoundEvidenceError _ => True
  end.

Lemma round_end env clock space rd correlationId evidence d :
  db_ok d -> round_ok d space rd ->
  round_end_ok d space (reconcile_tx env clock space rd correlationId evidence d).
Proof.
  intros Hok Hrd. unfold reconcile_tx. destruct (locked env); [|done]. cbn [negb]. unfold findSequenceSpace.
  pose proof (Hok space) as Hs. destruct (sequence_space d !! space) as [s|] eqn:Hsp; [|done].
  destruct (_ && _) eqn:Ef; [|done]. cbn [negb]. apply andb_prop in Ef as [E1%Z.eqb_eq E2%Z.eqb_eq].
  assert (fenced d space rd s) as Hf by (split; [done|done|done]).
  destruct (evidence_moved rd space evidence); [done|]. destruct (store_evidence _ _ _ _ _) as [[ds ev]|]; [|done].
  destruct (planMergeNumbers _) as [plan|] eqn:Ep; cycle 1.
  { exists s. split; [done|]. apply Z.nle_gt. intros Hle.
    destruct (plan_rows_total clock space rd ds ev d s Hs Hrd Hf Hle) as [plan Hp]. congruence. }
  destruct (round_settles _ _ _ _ _ _ _ _ Hs Hrd Hf Ep) as (d1 & dn & St).
  rewrite (fe_epoch _ _ _ _ Hf), (se_write _ _ _ _ _ _ St), Z.eqb_refl. cbn [negb].
  pose proof (settled_chk _ _ _ _ _ _ Hs St) as (H0 & H1 & H2).
  assert (sequence_space d1 !! space = Some s) as Hs1 by by rewrite (sb_space _ _ (se_same _ _ _ _ _ _ St)).
  rewrite (advance_spec _ _ _ _ _ _ _ Hs1 eq_refl).
  match goal with |- context [checkpoint_chk ?x] => set (s' := x) end.
  assert (checkpoint_chk s' = true) as ->.
  { unfold checkpoint_chk, s'. cbn -[Z.leb]. rewrite !(proj2 (Z.leb_le _ _)) by lia. done. }
  cbn [round_end_ok]. cbv zeta.
  match goal with |- kept d (request_announce ?c ?sp ?e ?co ?l ?db) =>
    pose proof (announce_same c sp e co l db) as [A1 A2] end.
  match type of A1 with context [foldl (request_number_work ?c ?sp ?r) ?db ?l] =>
    pose proof (requests_same c sp r l db) as [B1 B2] end.
  apply (settled_kept _ _ _ _ _ _ Hs St _ s' Hok Hsp); try done.
  - unfold spaced. rewrite A1, B1. cbn [sequence_space set_spaces]. by rewrite (sb_space _ _ (se_same _ _ _ _ _ _ St)).
  - intros sp e n. by rewrite A2, B2.
Qed.

(** ** Every step *)

Lemma kept_trans d1 d2 d3 : later d1 d2 -> kept d2 d3 -> kept d1 d3.
Proof. intros L [H L']. split; [done|]. by transitivity d2. Qed.

Lemma stale_kept space reason d : db_ok d -> kept d (markStale space reason d).
Proof.
  intros Hok. eapply (kept_core d _ space); [done|reflexivity|done|]. unfold space_of, findSequenceSpace.
  by destruct (sequence_space d !! space).
Qed.
Lemma mark_kept space d : db_ok d -> kept d (markReassigning space d).
Proof. intros Hok. by apply kept_update. Qed.

Lemma reassign_kept env g space storedHead newHead correlationId d d' o :
  db_ok d -> reassign_tx env g space storedHead newHead correlationId d = Commit d' o -> kept d d'.
Proof.
  intros Hok H. destruct (reassign_inv _ _ _ _ _ _ _ _ _ H) as (s & p & len & Hsp & Hp & Hne).
  eapply new_epoch_kept; [done|done|done|]. pose proof (Hok space) as Hs. rewrite Hsp in Hs.
  pose proof (ok_chk _ _ _ Hs) as Hc. unfold checkpoint_chk in Hc.
  destruct Hp as [->|Hp]; [lia|]. apply (ok_dense _ _ _ Hs) in Hp. lia.
Qed.

Lemma repair_kept env g live space a correlationId d d' o :
  db_ok d -> analysis_ok d space a -> repair_fence env space a d = fence_ok ->
  repair_tx env g live space a correlationId (markReassigning space d) = Commit d' o -> kept d d'.
Proof.
  intros Hok (s & Hsp & _ & H1 & Hd) Hf H. destruct (mark_kept space d Hok) as [Hok1 L1].
  apply (kept_trans _ _ _ L1). assert (seq_epoch (an_space a) = seq_epoch s) as He.
  { unfold repair_fence, findSequenceSpace in Hf. rewrite Hsp in Hf. destruct (locked env); [|done]. cbn [negb] in Hf.
    destruct (seq_epoch s =? seq_epoch (an_space a)) eqn:E; [|done]. by apply Z.eqb_eq in E. }
  assert (sequence_space (markReassigning space d) !! space = Some (with_state ss_reassigning None s)) as Hm.
  { unfold markReassigning, update_space. rewrite Hsp. cbn. apply lookup_insert_eq. }
  destruct (repair_inv env g live space a correlationId (markReassigning space d) d' o _ Hm He H) as [len Hne].
  eapply new_epoch_kept; [done|exact Hne|done|]. pose proof (Hok space) as Hs. rewrite Hsp in Hs.
  rewrite He in Hd. apply (ok_dense _ _ _ Hs) in Hd. cbn. lia.
Qed.

Lemma step_kept y y' : sys_ok y -> step y y' -> kept (db y) (db y').
Proof.
  intros Hy Hstep. destruct Hstep; destruct Hy as (Hok & Ha & Hr); cbn [db set_db].
  - by eapply assign_kept.
  - by apply stale_kept.
  - by apply mark_kept.
  - by eapply reassign_kept.
  - by apply kept_refl.
  - eapply repair_kept; [done|by apply Ha|done|done].
  - by apply kept_update.
  - by apply kept_refl.
  - pose proof (round_end env clock space rd correlationId evidence _ Hok (Hr _ _ H)) as Hend.
    by rewrite H0 in Hend.
  - pose proof (round_end env clock space rd correlationId evidence _ Hok (Hr _ _ H)) as Hend.
    by rewrite H0 in Hend.
  - by apply kept_refl.
Qed.

Lemma step_ok y y' : sys_ok y -> step y y' -> sys_ok y' ∧ later (db y) (db y').
Proof.
  intros Hy Hstep. destruct (step_kept y y' Hy Hstep) as [Hok L]. split; [|done]. split; [done|].
  destruct Hy as (Hok0 & Ha & Hr).
  assert ((forall space (a : Analysis), (space, a) ∈ analyses y -> analysis_ok (db y') space a) ∧
          (forall space (rd : Round), (space, rd) ∈ rounds y -> round_ok (db y') space rd)) as [Ha' Hr'].
  { split; intros; [eapply analysis_later|eapply round_later]; eauto. }
  destruct Hstep; cbn [db set_db analyses rounds] in *; try done.
  - split; [|done]. intros sp b [Heq|Hin]%elem_of_cons; [|by apply Ha']. injection Heq as -> ->.
    by eapply analysis_read.
  - split; [done|]. intros sp b [Heq|Hin]%elem_of_cons; [|by apply Hr']. injection Heq as -> ->.
    by eapply read_ok.
Qed.

Lemma initial_ok : sys_ok initial.
Proof.
  split; [|split]; [|intros ? ? H; by apply elem_of_nil in H..].
  intros space. change (sequence_space (db initial)) with (∅ : gmap Space SequenceSpaceRow). rewrite lookup_empty.
  intros e n. apply lookup_empty.
Qed.

Lemma reachable_ok y y' : sys_ok y -> rtc step y y' -> sys_ok y' ∧ later (db y) (db y').
Proof.
  intros Hy H. induction H as [y|y y1 y' H1 _ IH]; [done|].
  destruct (step_ok _ _ Hy H1) as [Hy1 L1]. destruct (IH Hy1) as [Hy' L']. split; [done|]. by transitivity (db y1).
Qed.

Lemma appears_frozen d d' space epoch from to sp e n r :
  appears d d' space epoch from to -> rows d sp e n = Some r -> rows d' sp e n = Some r.
Proof.
  intros [_ Hold Hfree _] Hr. rewrite Hold; [done|]. intros (-> & -> & Hn). rewrite Hfree in Hr by lia. done.
Qed.
(** No assignment and no reassignment touches a row that exists: the [COALESCE] of
    [upsertMergeSequence] never fills in a pull request. *)
Lemma assign_frozen env g space correlationId d d' o sp e n r :
  db_ok d -> assign_tx env g space correlationId d = Ok (Commit d' o) ->
  rows d sp e n = Some r -> rows d' sp e n = Some r.
Proof.
  intros Hok H. destruct (assign_commit _ _ _ _ _ _ _ Hok H) as (? & ? & _ & _ & _ & Hap).
  by eapply appears_frozen.
Qed.
Lemma reassign_frozen env g space storedHead newHead correlationId d d' o sp e n r :
  db_ok d -> reassign_tx env g space storedHead newHead correlationId d = Commit d' o ->
  rows d sp e n = Some r -> rows d' sp e n = Some r.
Proof.
  intros Hok H. destruct (reassign_inv _ _ _ _ _ _ _ _ _ H) as (s & p & len & Hsp & Hp & Hne).
  pose proof (Hok space) as Hs. rewrite Hsp in Hs. pose proof (ok_chk _ _ _ Hs) as Hc. unfold checkpoint_chk in Hc.
  assert (0 <= p <= head_seq s) as Hp'.
  { destruct Hp as [->|Hp]; [lia|]. apply (ok_dense _ _ _ Hs) in Hp. lia. }
  destruct (new_epoch_commit _ _ _ _ _ _ _ _ Hne Hsp Hs Hp') as (_ & _ & Hap). by eapply appears_frozen.
Qed.

(** ** Theorems *)

(** [C2] Whatever the order in which workers assign, reassign, repair, read and number, every
    space stays well formed: its current epoch is numbered from 1 to the head without a gap
    and a commit has one number in an epoch, the checkpoint stays within the head, and the M
    numbers of the epoch are 1 .. [mnumber_head] in the order of the rows up to the
    checkpoint, on pull requests only and once for each. *)
Theorem sequence_invariant y : rtc step initial y -> db_ok (db y).
Proof. intros H. by destruct (reachable_ok _ _ initial_ok H) as [[Hok _] _]. Qed.

(** [C3] What was once numbered stays: in every later state a number has the same commit, a known
    pull request and a given M number are still the same, and an epoch that is over never
    changes again.  The checkpoint of an epoch never goes back. *)
Theorem sequence_stable y y' : rtc step initial y -> rtc step y y' -> later (db y) (db y').
Proof. intros H H'. destruct (reachable_ok _ _ initial_ok H) as [Hy _]. by destruct (reachable_ok _ _ Hy H'). Qed.

(** [C4] A round of M numbers never finds that its plan was only partly written, violates no
    constraint, and its plan is never refused (while numbers are safe integers): whatever
    happened between its reading and its transaction, the fences see it. *)
Theorem round_never_mismatches y env clock space rd correlationId evidence :
  rtc step initial y -> (space, rd) ∈ rounds y ->
  match reconcile_tx env clock space rd correlationId evidence (db y) with
  | RoundMismatch _ _ | RoundThrow _ => False
  | RoundPlanError _ => ∃ s, sequence_space (db y) !! space = Some s ∧ MAX_SAFE_INTEGER < head_seq s
  | _ => True
  end.
Proof.
  intros H Hin. destruct (reachable_ok _ _ initial_ok H) as [(Hok & _ & Hr) _].
  pose proof (round_end env clock space rd correlationId evidence _ Hok (Hr _ _ Hin)) as Hend.
  by destruct (reconcile_tx _ _ _ _ _ _ _).
Qed.

(** ** A run: two commits are assigned, read and numbered *)

Definition sample_upsert : Evidence.EvidenceUpsert :=
  Evidence.mkUpsert 7 (js "main") 1 2 (js "B") pr_confirmed (Some 70) None Evidence.pr_detail None None [].
Definition sample_resolve (row : Z * SequenceStore.MergeSequenceRow) (o : option Evidence.EvidenceRow)
  : result Thrown Evidence.EvidenceDecision :=
  Ok (if fst row =? 1 then Evidence.ConfirmedDirect None else Evidence.ConfirmedPr 70 None sample_upsert).
Definition sample_repository : option Repository := Some (mkRepo 7 (js "acme") (js "app") true [js "main"]).
Definition sample_read : result Thrown (ReconcileOutcome + Round) :=
  reconcile_read (fun _ => []) (fun _ => 0) sample_resolve None 0 sample_repository main 10 ∅ db_ab.
Definition sample_round : Round :=
  match sample_read with
  | Ok (inr rd) => rd
  | _ => mkRound 0 (mkCheckpoint 0 0) [] (fun _ => None) [] 0 None
  end.
Definition sample_end : RoundEnd := reconcile_tx env0 (fun _ => 0) main sample_round [] ∅ db_ab.
Definition db_numbered : Db := match sample_end with RoundCommit d _ _ => d | _ => db_ab end.
Definition numbering (space : Space) (epoch : Z) (d : Db) : list (Z * option Z * option Z) :=
  map (fun r => (fst r, pull_request_number (snd r), merge_number (snd r))) (rows_of space epoch d).
Example numbered_ex : numbering main 1 db_numbered = [(1, None, None); (2, Some 70, Some 1)].
Proof. vm_compute. reflexivity. Qed.

Lemma reach_assigned : rtc step initial (mkSys db_ab [] []).
Proof.
  eapply rtc_l; [|apply rtc_refl]. eapply (st_assign env0 (git A_B (js "B")) main [] db_ab _ initial).
  vm_compute. reflexivity.
Qed.
Lemma reach_read : rtc step (mkSys db_ab [] []) (mkSys db_ab [] [(main, sample_round)]).
Proof.
  eapply rtc_l; [|apply rtc_refl].
  eapply (st_read (fun _ => []) (fun _ => 0) sample_resolve None 0 sample_repository main 10 ∅ sample_round
            (mkSys db_ab [] [])).
  vm_compute. reflexivity.
Qed.
Lemma reach_numbered :
  rtc step (mkSys db_ab [] [(main, sample_round)]) (mkSys db_numbered [] [(main, sample_round)]).
Proof.
  eapply rtc_l; [|apply rtc_refl].
  eapply (st_round env0 (fun _ => 0) main sample_round [] ∅ db_numbered _ _ (mkSys db_ab [] [(main, sample_round)]));
    [by left|vm_compute; reflexivity].
Qed.

Lemma sequence_invariant_witness :
  numbering main 1 db_numbered = [(1, None, None); (2, Some 70, Some 1)] ∧ db_ok db_numbered.
Proof.
  split; [vm_compute; reflexivity|].
  apply (sequence_invariant (mkSys db_numbered [] [(main, sample_round)])).
  exact (transitivity (transitivity reach_assigned reach_read) reach_numbered).
Defined.
Lemma sequence_stable_witness : later db_ab db_numbered.
Proof.
  exact (sequence_stable (mkSys db_ab [] []) (mkSys db_numbered [] [(main, sample_round)])
           reach_assigned (transitivity reach_read reach_numbered)).
Defined.
Lemma round_never_mismatches_witness :
  match sample_end with
  | RoundMismatch _ _ | RoundThrow _ => False
  | RoundPlanError _ => ∃ s, sequence_space db_ab !! main = Some s ∧ MAX_SAFE_INTEGER < head_seq s
  | _ => True
  end.
Proof.
  pose proof (round_never_mismatches (mkSys db_ab [] [(main, sample_round)]) env0 (fun _ => 0) main sample_round [] ∅
                (transitivity reach_assigned reach_read) (list_elem_of_here _ _)) as H.
  cbn [db] in H. unfold sample_end. exact H.
Defined.

End System.
