(* ===== verification/SequenceRange.v ===== *)
(** * Ranges of a sequence

    [apps/search-api/src/sequence/range.ts], [range-cursor.ts] and [space.ts]: what was
    merged between two numbers of a space, page by page, with the summary of the range.  The
    range is read from the table of SequenceStore, the documents of its pull requests from
    the index (a parameter).  Facets and the M numbers attached to items are left out
    ([facets = false], [mergeNumberEnabled] not [true]). *)

From stdpp Require Import base list option gmap strings numbers sorting.
From Stdlib Require Import ZArith Lia.
From S2P Require Import Prelude JsString Json QueryAst QuerySerialize Calendar ZonedDay EsQuery QueryBuilder ScopedQuery EsSort SearchCursor Relaxation SearchService SequenceWork SequenceStore SequenceAssign SequenceSystem.
Open Scope Z_scope.

(** ** Spaces *)

Record RepositorySlug : Set := mkSlug { sl_owner : jstr; sl_name : jstr }.
(** [None]: not a string, or not a slug. *)
Definition parseRepositorySlug (raw : option jstr) : option RepositorySlug :=
  raw ← raw;
  match split_char 47 (trim raw) with
  | [o; n] => if jeqb o [] || jeqb n [] then None else Some (mkSlug o n)
  | _ => None
  end.

Record ResolvedSpace : Set := mkResolved {
  sp_repositoryId : Z; sp_baseBranch : jstr; sp_seqEpoch : Z; sp_state : SequenceSpaceState;
  sp_headSeq : Z; sp_sequenceSpace : jstr
}.
Definition key_of_space (s : ResolvedSpace) : Space := (sp_repositoryId s, sp_baseBranch s).

Inductive Lookup (A : Type) : Type :=
| lk_ok (value : A)
| lk_not_found (message : jstr)
| lk_forbidden (message : jstr).
Arguments lk_ok {A} value.
Arguments lk_not_found {A} message.
Arguments lk_forbidden {A} message.

Definition slug_text (s : RepositorySlug) : jstr := sl_owner s ++ js "/" ++ sl_name s.
Definition unregistered (s : RepositorySlug) : jstr := js "등록되지 않은 저장소다: " ++ slug_text s.

(** [findRepositoryBySlug] is a parameter: the repositories table is not part of the
    sequence tables. *)
Definition resolveRepository (findRepositoryBySlug : RepositorySlug -> option ScopedQuery.Repository)
    (slug : RepositorySlug) (scope : AccessScope) : Lookup ScopedQuery.Repository :=
  match findRepositoryBySlug slug with
  | None => lk_not_found (unregistered slug)
  | Some r => if isRepositoryInScope r scope then lk_ok r else lk_forbidden (unregistered slug)
  end.

Definition resolveSpace (findRepositoryBySlug : RepositorySlug -> option ScopedQuery.Repository)
    (slug : RepositorySlug) (baseBranch : jstr) (scope : AccessScope) (db : Db) : Lookup ResolvedSpace :=
  let label := slug_text slug ++ js "@" ++ baseBranch in
  match resolveRepository findRepositoryBySlug slug scope with
  | lk_not_found m => lk_not_found m
  | lk_forbidden m => lk_forbidden m
  | lk_ok r =>
    match findSequenceSpace (ScopedQuery.repositoryId r, baseBranch) db with
    | None => lk_not_found (js "채번된 적이 없는 시퀀스 공간이다: " ++ label)
    | Some s =>
      lk_ok (mkResolved (ScopedQuery.repositoryId r) baseBranch (SequenceStore.seq_epoch s) (space_state s)
               (head_seq s) label)
    end
  end.

Definition isEpochStale (s : ResolvedSpace) (requested : option Z) : bool :=
  match requested with Some e => negb (e =? sp_seqEpoch s) | None => false end.

(** A query parameter: absent, a text, or something else. *)
Inductive QueryParam : Set := qp_absent | qp_text (raw : jstr) | qp_other.
Inductive EpochParam : Set := ep_absent | ep_value (epoch : Z) | ep_invalid.
(** [number] reads [Number(raw)], [None] when it is no integer. *)
Definition readEpochParam (number : jstr -> option Z) (raw : QueryParam) : EpochParam :=
  match raw with
  | qp_absent => ep_absent
  | qp_other => ep_invalid
  | qp_text raw =>
    match trim raw with
    | [] => ep_invalid
    | _ => match number raw with
           | Some v => if v <? 1 then ep_invalid else ep_value v
           | None => ep_invalid
           end
    end
  end.

(** ** Queries of merge-sequence.ts *)

Definition countRange (space : Space) (epoch fromExclusive toInclusive : Z) (db : Db) : Z :=
  Z.of_nat (length (findRange space epoch fromExclusive toInclusive db)).
Definition findRangePage (space : Space) (epoch fromExclusive toInclusive : Z) (limit : nat) (db : Db)
  : list (Z * MergeSequenceRow) :=
  take limit (findRange space epoch fromExclusive toInclusive db).
Definition pr_of (r : Z * MergeSequenceRow) : option Z := pull_request_number (snd r).
(** [DISTINCT] does not say in which order. *)
Definition listPullRequestNumbersInRange (space : Space) (epoch fromExclusive toInclusive : Z) (db : Db) : list Z :=
  remove_dups (omap pr_of (findRange space epoch fromExclusive toInclusive db)).

(** ** Limits *)

Definition RANGE_LIMIT : Z := 50000.
Definition DEFAULT_RANGE_SIZE : Z := 50.
Definition MAX_RANGE_SIZE : Z := 200.
Definition TOP_PATHS : nat := 20.
Definition RANGE_SCAN_CHUNK : nat := 300.

Definition clampRangeSize (number : jstr -> option Z) (raw : option jstr) : Z :=
  match raw with
  | None => DEFAULT_RANGE_SIZE
  | Some raw =>
    match trim raw with
    | [] => DEFAULT_RANGE_SIZE
    | _ => match number raw with
           | None => DEFAULT_RANGE_SIZE
           | Some parsed => if parsed <? 1 then DEFAULT_RANGE_SIZE else Z.min parsed MAX_RANGE_SIZE
           end
    end
  end.

Inductive RangeGuard : Set := rg_ok (total : Z) | rg_inverted | rg_too_large (total : Z).
Definition guardRange (space : ResolvedSpace) (fromExclusive toInclusive : Z) (db : Db) : RangeGuard :=
  if toInclusive <? fromExclusive then rg_inverted
  else
    let total := countRange (key_of_space space) (sp_seqEpoch space) fromExclusive toInclusive db in
    if RANGE_LIMIT <? total then rg_too_large total else rg_ok total.

(** ** Items *)

Record PullRequestSource : Set := mkPrSource {
  ps_pr_number : option Z; ps_title : option jstr; ps_author : option jstr; ps_merged_at : option jstr;
  ps_changed_files_count : option Z; ps_additions : option Z; ps_deletions : option Z
}.

Record RangeItem : Set := mkRangeItem {
  ri_merge_seq : Z; ri_kind : item_kind; ri_pr_number : option Z; ri_commit_sha : jstr;
  ri_title : option jstr; ri_author : option jstr; ri_merged_at : option jstr;
  ri_changed_files_count : option Z; ri_additions : option Z; ri_deletions : option Z;
  ri_indexed : bool; ri_url : option jstr
}.

Definition range_url (space : ResolvedSpace) (row : Z * MergeSequenceRow) : option jstr :=
  match split_char 47 (sp_sequenceSpace space) with
  | o :: rest :: _ =>
    match split_char 64 rest with
    | [] | [] :: _ => None
    | name :: _ =>
      Some (match pr_of row with
            | None => js "/commit/" ++ o ++ js "/" ++ name ++ js "/" ++ SequenceStore.commit_sha (snd row)
            | Some n => js "/pr/" ++ o ++ js "/" ++ name ++ js "/" ++ js_of_Z n
            end)
    end
  | _ => None
  end.

Definition toUnindexedItem (space : ResolvedSpace) (row : Z * MergeSequenceRow) : RangeItem :=
  mkRangeItem (fst row) (match pr_of row with None => k_commit | Some _ => k_pull_request end) (pr_of row)
    (SequenceStore.commit_sha (snd row)) None None None None None None false (range_url space row).

Abbreviation Sources := (gmap Z PullRequestSource).
Definition source_of (sources : Sources) (row : Z * MergeSequenceRow) : option PullRequestSource :=
  n ← pr_of row; sources !! n.
Definition range_item (space : ResolvedSpace) (sources : Sources) (row : Z * MergeSequenceRow) : RangeItem :=
  match source_of sources row with
  | None => toUnindexedItem space row
  | Some s =>
    mkRangeItem (fst row) k_pull_request (pr_of row) (SequenceStore.commit_sha (snd row)) (ps_title s) (ps_author s)
      (ps_merged_at s) (ps_changed_files_count s) (ps_additions s) (ps_deletions s) true (range_url space row)
  end.

(** [for (const hit of hits) if (source?.pr_number !== undefined) sources.set(...)]. *)
Definition add_sources (hits : list PullRequestSource) (sources : Sources) : Sources :=
  foldl (fun m s => match ps_pr_number s with Some n => <[n := s]> m | None => m end) sources hits.

(** [[...new Set(l)]] *)
Definition distinct (l : list Z) : list Z := rev (remove_dups (rev l)).

Record RangeCursorAnchor : Set := mkRangeAnchor {
  ra_repositoryId : Z; ra_baseBranch : jstr; ra_seqEpoch : Z; ra_fromExclusive : Z; ra_toInclusive : Z
}.
Record RangeRequest : Set := mkRangeRequest {
  rr_space : ResolvedSpace; rr_scope : AccessScope; rr_fromExclusive : Z; rr_toInclusive : Z; rr_size : nat;
  rr_ast : option QueryAst; rr_rangeTotal : Z; rr_scopeVersion : Z; rr_cursor : option jstr
}.
Definition anchor_of (rq : RangeRequest) : RangeCursorAnchor :=
  mkRangeAnchor (sp_repositoryId (rr_space rq)) (sp_baseBranch (rr_space rq)) (sp_seqEpoch (rr_space rq))
    (rr_fromExclusive rq) (rr_toInclusive rq).

(** What the index answers: a page of documents, and the response of a count with the
    aggregations of the summary ([None] where a value is absent). *)
Record PrResponse : Set := mkPrResponse { pr_hits : list PullRequestSource; pr_failed : Z; pr_shards : Z }.
Record SummaryResponse : Set := mkSummaryResponse {
  sr_total : option Z; sr_distinct_authors : option Z; sr_changed_files : option Z; sr_additions : option Z;
  sr_deletions : option Z; sr_files_truncated : option Z; sr_reverted : option Z; sr_top_paths : list (jstr * Z)
}.

Record RangeSummary : Set := mkSummary {
  pull_request_count : Z; commit_count : Z; distinct_author_count : Z; changed_files_total : Z;
  additions_total : Z; deletions_total : Z; files_truncated_pull_request_count : Z;
  reverted_pull_request_count : Z; top_changed_paths : list (jstr * Z)
}.
Record RangeResult : Set := mkRangeResult {
  summary : RangeSummary; range_items : list RangeItem; items_missing_in_index : Z;
  range_unresolved : list UnresolvedName; range_nextCursor : option jstr
}.
Definition EMPTY_SUMMARY_AGGS (commits : Z) : RangeSummary := mkSummary 0 commits 0 0 0 0 0 0 [].

Definition prNumbersQuery (space : ResolvedSpace) (prNumbers : list Z) (extra : option EsQuery) : EsQuery :=
  q_bool [] ([q_term (js "repository_id") (ev_num (sp_repositoryId space));
              q_terms (js "pr_number") (map ev_num prNumbers)]
             ++ match extra with Some e => [e] | None => [] end) [] [] None.

Section range.
Context (format_parts : jstr -> Z -> Z * Z * Z * (Z * Z * Z)) (toISOString : Z -> jstr)
  (encode_body : json -> jstr) (decode_body : jstr -> option json) (frac_le : jstr -> Z -> option bool)
  (sha256 : jstr -> jstr) (js_String : option json -> jstr) (sign : jstr -> jstr)
  (resolveNames : list jstr * list jstr -> result jstr NameResolution)
  (** A page of the documents of a query, and the answers to the two counts of a summary
      (an error entry is [None]). *)
  (search : EsQuery -> nat -> PrResponse) (count : EsQuery -> option SummaryResponse)
  (chunkSize : nat).

(** ** The cursor *)

Definition RANGE_CURSOR_VERSION : Z := 1.

Definition computeRangeFingerprint (query : jstr) (scope : AccessScope) (scopeVersion : Z) : jstr :=
  take 22 (sha256 (join (js " ") [query; scopeMaterial scope; js_of_Z scopeVersion])).

Definition encodeRangeCursor (completeSeq : Z) (anchor : RangeCursorAnchor) (fingerprint : jstr) (nowMs : Z) : jstr :=
  encodeEnvelope encode_body
    (JObj [(js "v", JNum RANGE_CURSOR_VERSION); (js "r", JNum (ra_repositoryId anchor));
           (js "b", JStr (ra_baseBranch anchor)); (js "e", JNum (ra_seqEpoch anchor));
           (js "f", JNum (ra_fromExclusive anchor)); (js "t", JNum (ra_toInclusive anchor));
           (js "q", JStr fingerprint); (js "c", JNum completeSeq); (js "x", JNum (nowMs + CURSOR_TTL_MS))]) sign.

Definition is_num (v : option json) (n : Z) : bool := match v with Some (JNum m) => m =? n | _ => false end.
Definition is_text (v : option json) (s : jstr) : bool := match v with Some (JStr t) => jeqb t s | _ => false end.

Definition decodeRangeCursor (raw : jstr) (anchor : RangeCursorAnchor) (fingerprint : jstr) (nowMs : Z)
  : result CursorError Z :=
  payload ← decodeEnvelope decode_body raw sign;
  let field k := assoc (js k) payload in
  if negb (is_num (field "v") RANGE_CURSOR_VERSION)
  then Err (CursorInvalidError (js "모르는 커서 버전: " ++ js_String (field "v")))
  else
    _ ← assertNotExpired frac_le (field "x") nowMs;
    match field "c" with
    | Some (JNum c) =>
      if negb (is_safe_integer c) then Err (CursorInvalidError (js "완결 서수가 없다"))
      else if negb (is_num (field "r") (ra_repositoryId anchor)) || negb (is_text (field "b") (ra_baseBranch anchor))
      then Err (CursorQueryMismatchError (js "다른 시퀀스 공간의 커서다"))
      else if negb (is_num (field "e") (ra_seqEpoch anchor))
      then Err (CursorQueryMismatchError
                  (js "에폭이 달라졌다 (커서 " ++ js_String (field "e") ++ js " · 현재 "
                   ++ js_of_Z (ra_seqEpoch anchor) ++ js ") — 재채번이 일어났다"))
      else if negb (is_num (field "f") (ra_fromExclusive anchor)) || negb (is_num (field "t") (ra_toInclusive anchor))
      then Err (CursorQueryMismatchError (js "구간 경계가 달라졌다"))
      else if negb (is_text (field "q") fingerprint)
      then Err (CursorQueryMismatchError (js "질의·필터·접근 범위가 커서 발급 시점과 다르다"))
      else if (c <? ra_fromExclusive anchor) || (ra_toInclusive anchor <? c)
      then Err (CursorInvalidError (js "완결 서수가 구간 밖이다"))
      else Ok c
    | _ => Err (CursorInvalidError (js "완결 서수가 없다"))
    end.

(** ** Scanning a page *)

Definition scoped (rq : RangeRequest) (extra : option EsQuery) (numbers : list Z) : result jstr EsQuery :=
  applyMandatoryScopeFilter (prNumbersQuery (rr_space rq) numbers extra) (rr_scope rq).

Definition fetch_sources (rq : RangeRequest) (extra : option EsQuery) (numbers : list Z) (sources : Sources)
  : result SearchError Sources :=
  match numbers with
  | [] => Ok sources
  | _ =>
    q ← lift_error se_scope (scoped rq extra numbers);
    let response := search q (length numbers) in
    _ ← lift_error se_shards (assertNoShardFailures (pr_failed response) (pr_shards response));
    Ok (add_sources (pr_hits response) sources)
  end.

Definition chunk_sources (rq : RangeRequest) (extra : option EsQuery) (chunk : list (Z * MergeSequenceRow))
    (sources : Sources) : result SearchError Sources :=
  match extra with
  | None => Ok sources
  | Some _ => fetch_sources rq extra (distinct (omap pr_of chunk)) sources
  end.

Definition matched (extra : option EsQuery) (sources : Sources) (row : Z * MergeSequenceRow) : bool :=
  match extra with
  | None => true
  | Some _ => match source_of sources row with Some _ => true | None => false end
  end.

(** The variables of the scan. *)
Record scan_state : Set := mkScan {
  sc_rows : list (Z * MergeSequenceRow); sc_returned : option Z; sc_scanned : Z; sc_more : bool
}.
(** The loop over a chunk. *)
Fixpoint scan_chunk (size : nat) (keep : Z * MergeSequenceRow -> bool) (chunk : list (Z * MergeSequenceRow))
    (st : scan_state) : scan_state :=
  match chunk with
  | [] => st
  | row :: chunk =>
    if keep row then
      if (size <=? length (sc_rows st))%nat then mkScan (sc_rows st) (sc_returned st) (sc_scanned st) true
      else scan_chunk size keep chunk (mkScan (sc_rows st ++ [row]) (Some (fst row)) (fst row) (sc_more st))
    else scan_chunk size keep chunk (mkScan (sc_rows st) (sc_returned st) (fst row) (sc_more st))
  end.

Record ScannedPage : Set := mkScanned {
  scanned_rows : list (Z * MergeSequenceRow); scanned_sources : Sources; completeSeq : option Z
}.
Definition scanned (st : scan_state) (sources : Sources) (exhausted : bool) : ScannedPage :=
  mkScanned (sc_rows st) sources (if exhausted || negb (sc_more st) then None else sc_returned st).

(** The loop over chunks; [None] when the fuel ends. *)
Fixpoint scan_loop (fuel : nat) (rq : RangeRequest) (extra : option EsQuery) (db : Db) (st : scan_state)
    (sources : Sources) : result SearchError (option ScannedPage) :=
  match fuel with
  | O => Ok None
  | S fuel =>
    if (rr_size rq <? length (sc_rows st))%nat then Ok (Some (scanned st sources false))
    else
    match findRangePage (key_of_space (rr_space rq)) (sp_seqEpoch (rr_space rq)) (sc_scanned st)
            (rr_toInclusive rq) chunkSize db with
    | [] => Ok (Some (scanned st sources true))
    | chunk =>
      sources ← chunk_sources rq extra chunk sources;
      let st := scan_chunk (rr_size rq) (matched extra sources) chunk st in
      if sc_more st then Ok (Some (scanned st sources false))
      else if (length chunk <? chunkSize)%nat then Ok (Some (scanned st sources true))
      else scan_loop fuel rq extra db st sources
    end
  end.

Definition scan_fuel (rq : RangeRequest) (startAfter : Z) (db : Db) : nat :=
  S (length (findRange (key_of_space (rr_space rq)) (sp_seqEpoch (rr_space rq)) startAfter (rr_toInclusive rq) db)).
Definition scanPage (rq : RangeRequest) (extra : option EsQuery) (startAfter : Z) (db : Db)
  : result SearchError (option ScannedPage) :=
  scan_loop (scan_fuel rq startAfter db) rq extra db (mkScan [] None startAfter false) ∅.

(** ** The response *)

Definition or_zero (v : option Z) : Z := match v with Some n => n | None => 0 end.
(** [totalOf(asResult(...))]. *)
Definition totalOf (r : option SummaryResponse) : Z := or_zero (r ≫= sr_total).

Definition empty_page : ScannedPage := mkScanned [] ∅ None.

Definition range_fingerprint (rq : RangeRequest) : jstr :=
  computeRangeFingerprint (match rr_ast rq with None => [] | Some ast => serializeQuery ast end)
    (rr_scope rq) (rr_scopeVersion rq).

Definition range_extra (rq : RangeRequest) : result SearchError (option EsQuery * list UnresolvedName) :=
  match rr_ast rq with
  | None => Ok (None, [])
  | Some ast =>
    res ← lift_error se_names (resolveNames (collectNames ast));
    built ← lift_error se_build
      (buildQuery format_parts toISOString ast res (mkOptions (Some (sp_seqEpoch (rr_space rq))) None None));
    Ok (Some (query built), unresolved built)
  end.

Definition cursor_after (rq : RangeRequest) (page : ScannedPage) (now : Z) : option jstr :=
  (fun c => encodeRangeCursor c (anchor_of rq) (range_fingerprint rq) now) <$> completeSeq page.

Definition resume (rq : RangeRequest) (now : Z) : result SearchError (option Z) :=
  match rr_cursor rq with
  | None => Ok None
  | Some raw => lift_error se_cursor
      (c ← decodeRangeCursor raw (anchor_of rq) (range_fingerprint rq) now; Ok (Some c))
  end.
(** No scan for a size of 0. *)
Definition page_or_none (skip : bool) (page : result SearchError (option ScannedPage))
  : result SearchError (option ScannedPage) := if skip then Ok (Some empty_page) else page.
Definition page_sources (rq : RangeRequest) (extra : option EsQuery) (page : ScannedPage) : result SearchError Sources :=
  match extra with
  | Some _ => Ok (scanned_sources page)
  | None => fetch_sources rq None (distinct (omap pr_of (scanned_rows page))) (scanned_sources page)
  end.

Definition start_of (rq : RangeRequest) (resumed : option Z) : Z :=
  match resumed with Some c => c | None => rr_fromExclusive rq end.
Definition is_some {A} (o : option A) : bool := match o with Some _ => true | None => false end.

(** A range without pull requests: commits from the table, no request to the index. *)
Definition bare_range (rq : RangeRequest) (extra : option EsQuery) (unresolved : list UnresolvedName)
    (resumed : option Z) (db : Db) (now : Z) : result SearchError (option RangeResult) :=
  page ← page_or_none ((rr_size rq =? 0)%nat || is_some extra) (scanPage rq None (start_of rq resumed) db);
  Ok (option_map (fun page =>
         mkRangeResult (EMPTY_SUMMARY_AGGS (if is_some extra then 0 else rr_rangeTotal rq))
           (map (toUnindexedItem (rr_space rq)) (scanned_rows page)) 0 unresolved (cursor_after rq page now)) page).

Definition summary_of (rq : RangeRequest) (extra : option EsQuery) (prNumbers : list Z) (r : option SummaryResponse)
  : RangeSummary :=
  let agg f := or_zero (r ≫= f) in
  mkSummary (if is_some extra then totalOf r else Z.of_nat (length prNumbers))
    (if is_some extra then totalOf r else rr_rangeTotal rq)
    (agg sr_distinct_authors) (agg sr_changed_files) (agg sr_additions) (agg sr_deletions)
    (agg sr_files_truncated) (agg sr_reverted) (match r with Some r => sr_top_paths r | None => [] end).

Definition indexed_range (rq : RangeRequest) (extra : option EsQuery) (unresolved : list UnresolvedName)
    (resumed : option Z) (prNumbers : list Z) (db : Db) (now : Z) : result SearchError (option RangeResult) :=
  all ← lift_error se_scope (scoped rq None prNumbers);
  narrowed ← lift_error se_scope (scoped rq extra prNumbers);
  let summaryResponse := count narrowed in
  let indexedTotal := if is_some extra then totalOf (count all) else totalOf summaryResponse in
  page ← page_or_none (rr_size rq =? 0)%nat (scanPage rq extra (start_of rq resumed) db);
  match page with
  | None => Ok None
  | Some page =>
    sources ← page_sources rq extra page;
    Ok (Some (mkRangeResult (summary_of rq extra prNumbers summaryResponse)
      (map (range_item (rr_space rq) sources) (scanned_rows page))
      (Z.max 0 (Z.of_nat (length prNumbers) - indexedTotal)) unresolved (cursor_after rq page now)))
  end.

Definition runRange (rq : RangeRequest) (db : Db) (now : Z) : result SearchError (option RangeResult) :=
  '(extra, unresolved) ← range_extra rq;
  resumed ← resume rq now;
  let prNumbers := listPullRequestNumbersInRange (key_of_space (rr_space rq)) (sp_seqEpoch (rr_space rq))
                     (rr_fromExclusive rq) (rr_toInclusive rq) db in
  match prNumbers with
  | [] => bare_range rq extra unresolved resumed db now
  | _ => indexed_range rq extra unresolved resumed prNumbers db now
  end.

End range.

(** ** A page *)

(** After a row of a range, the rest of the range. *)
Lemma findRange_split space epoch a b db pre x post :
  findRange space epoch a b db = pre ++ x :: post -> findRange space epoch (fst x) b db = post.
Proof.
  intros H. assert (a < fst x) as Hx.
  { assert (x ∈ findRange space epoch a b db) as Hin by (rewrite H; apply elem_of_app; right; by left).
    destruct x as [n r]. apply findRange_elem in Hin. cbn. lia. }
  rewrite (findRange_from _ _ a) by lia. rewrite H. apply (filter_after fst).
  rewrite <- H. apply findRange_strict.
Qed.

Definition last_seq (l : list (Z * MergeSequenceRow)) : option Z := fst <$> last l.
Lemma last_seq_snoc l x : last_seq (l ++ [x]) = Some (fst x).
Proof. unfold last_seq. by rewrite last_snoc. Qed.

Lemma scan_chunk_spec size keep chunk : forall rows s,
  (length rows <= size)%nat ->
  let all := rows ++ List.filter keep chunk in
  let st := scan_chunk size keep chunk (mkScan rows (last_seq rows) s false) in
  sc_rows st = take size all ∧ sc_returned st = last_seq (take size all) ∧
  sc_more st = (size <? length all)%nat ∧
  (sc_more st = false -> sc_scanned st = match last chunk with Some x => fst x | None => s end).
Proof.
  induction chunk as [|row chunk IH]; intros rows s Hlen; cbv zeta.
  - cbn. rewrite app_nil_r, take_ge by lia. split_and!; [done|done|symmetry; apply Nat.ltb_ge; lia|done].
  - cbn [scan_chunk List.filter sc_rows sc_returned sc_scanned sc_more]. destruct (keep row) eqn:Ek.
    + destruct (Nat.leb_spec size (length rows)) as [Hle|Hgt]; cbn [sc_rows sc_returned sc_more].
      * rewrite take_app_le, take_ge by lia. split_and!; [done|done| |done].
        symmetry. apply Nat.ltb_lt. rewrite length_app. cbn. lia.
      * specialize (IH (rows ++ [row]) (fst row)). rewrite last_seq_snoc, length_app, <- app_assoc in IH.
        cbn [app length] in IH. destruct IH as (H1 & H2 & H3 & H4); [lia|]. split_and!; [done|done|done|].
        intros Hm. rewrite (H4 Hm). rewrite last_cons. by destruct (last chunk).
    + specialize (IH rows (fst row) Hlen). destruct IH as (H1 & H2 & H3 & H4). split_and!; [done|done|done|].
      intros Hm. rewrite (H4 Hm). rewrite last_cons. by destruct (last chunk).
Qed.

Section scan.
Context (search : EsQuery -> nat -> PrResponse) (chunkSize : nat) (rq : RangeRequest) (extra : option EsQuery) (db : Db)
  (good : Sources -> Prop) (m : Z * MergeSequenceRow -> bool).
Hypothesis Hchunk : (1 <= chunkSize)%nat.
(** Judging a chunk of the table. *)
Hypothesis Hjudge : forall chunk sources, good sources ->
  ∃ sources', chunk_sources search rq extra chunk sources = Ok sources' ∧ good sources' ∧
    forall row, row ∈ chunk -> matched extra sources' row = m row.

Notation range_from s := (findRange (key_of_space (rr_space rq)) (sp_seqEpoch (rr_space rq)) s (rr_toInclusive rq) db).

(** What a page holds: the first matching rows, and a place to go on from exactly when there
    is one more. *)
Record page_ok (all : list (Z * MergeSequenceRow)) (page : ScannedPage) : Prop := {
  po_rows : scanned_rows page = take (rr_size rq) all;
  po_next : completeSeq page = if (rr_size rq <? length all)%nat then last_seq (take (rr_size rq) all) else None;
  po_good : good (scanned_sources page)
}.

Lemma scan_loop_spec fuel : forall rows s sources,
  (length (range_from s) < fuel)%nat -> good sources -> (length rows <= rr_size rq)%nat ->
  ∃ page, scan_loop search chunkSize fuel rq extra db (mkScan rows (last_seq rows) s false) sources = Ok (Some page) ∧
    page_ok (rows ++ List.filter m (range_from s)) page.
Proof.
  induction fuel as [|fuel IH]; intros rows s sources Hfuel Hgood Hlen; [lia|].
  cbn [scan_loop sc_rows sc_scanned]. rewrite (proj2 (Nat.ltb_ge _ _)) by lia.
  unfold findRangePage. set (R := range_from s) in *.
  destruct (take chunkSize R) as [|c0 chunk0] eqn:Ec.
  - assert (R = []) as HR by (destruct R, chunkSize; [done|done|lia|done]).
    eexists. split; [done|]. rewrite HR. cbn [List.filter]. rewrite app_nil_r.
    split; cbn [scanned scanned_rows scanned_sources completeSeq orb sc_rows]; [by rewrite take_ge| |done].
    by rewrite (proj2 (Nat.ltb_ge _ _)).
  - rewrite <- Ec. set (chunk := take chunkSize R) in *.
    destruct (Hjudge chunk sources Hgood) as (sources' & Hs & Hgood' & Hm). rewrite Ec in Hs |- *. rewrite Hs.
    cbn [mbind result_bind]. rewrite <- Ec. fold chunk.
    destruct (scan_chunk_spec (rr_size rq) (matched extra sources') chunk rows s Hlen) as (H1 & H2 & H3 & H4).
    set (st := scan_chunk _ _ chunk _) in *.
    assert (List.filter (matched extra sources') chunk = List.filter m chunk) as Hf.
    { apply filter_ext_elem. intros x Hx. by apply Hm. }
    rewrite Hf in *. set (rest := drop chunkSize R).
    assert (R = chunk ++ rest) as HR by (symmetry; apply take_drop).
    assert (rows ++ List.filter m R = (rows ++ List.filter m chunk) ++ List.filter m rest) as Hall.
    { by rewrite HR at 1; rewrite List.filter_app, app_assoc. }
    destruct (sc_more st) eqn:Emore.
    + symmetry in H3. apply Nat.ltb_lt in H3. eexists. split; [done|]. rewrite Hall. split; cbn [scanned scanned_rows scanned_sources completeSeq].
      * rewrite H1. symmetry. apply take_app_le. lia.
      * rewrite Emore. cbn [orb negb]. rewrite H2, (take_app_le (rows ++ _)) by lia.
        rewrite (proj2 (Nat.ltb_lt _ _)); [done|]. rewrite length_app. lia.
      * done.
    + symmetry in H3. apply Nat.ltb_ge in H3. rewrite take_ge in H1, H2 by done.
      destruct (Nat.ltb_spec (length chunk) chunkSize) as [Hshort|Hfull].
      * assert (rest = []) as Hrest.
        { unfold rest. apply drop_ge. unfold chunk in Hshort. rewrite length_take in Hshort. lia. }
        rewrite Hrest in Hall. cbn [List.filter] in Hall. rewrite app_nil_r in Hall.
        eexists. split; [done|]. rewrite Hall. split; cbn [scanned scanned_rows scanned_sources completeSeq orb].
        -- by rewrite H1, take_ge.
        -- by rewrite (proj2 (Nat.ltb_ge _ _)).
        -- done.
      * destruct (exists_last (l := chunk)) as (pre & x & Hx); [by rewrite Ec|].
        assert (range_from (sc_scanned st) = rest) as Hnext.
        { rewrite H4 by done. rewrite Hx, last_snoc. apply (findRange_split _ _ s _ _ pre).
          transitivity (chunk ++ rest); [exact HR|]. rewrite Hx, <- app_assoc. reflexivity. }
        assert (st = mkScan (rows ++ List.filter m chunk) (last_seq (rows ++ List.filter m chunk)) (sc_scanned st) false) as ->.
        { destruct st as [? ? ? ?]. cbn in *. by subst. }
        cbn [sc_scanned] in *. destruct (IH (rows ++ List.filter m chunk) (sc_scanned st) sources') as (page & Hp & Hok).
        { rewrite Hnext. pose proof (f_equal length HR) as Hl. rewrite length_app, Ec in Hl. cbn [length] in Hl. lia. }
        { done. } { done. }
        exists page. split; [exact Hp|]. by rewrite Hall, <- Hnext.
Qed.

Lemma scanPage_spec s sources0 :
  good sources0 -> sources0 = ∅ ->
  ∃ page, scanPage search chunkSize rq extra s db = Ok (Some page) ∧ page_ok (List.filter m (range_from s)) page.
Proof.
  intros Hg ->. destruct (scan_loop_spec (scan_fuel rq s db) [] s ∅) as (page & Hp & Hok); [unfold scan_fuel; lia|done|cbn; lia|].
  by exists page.
Qed.
End scan.

(** ** The cursor *)

Section cursor.
Context (encode_body : json -> jstr) (decode_body : jstr -> option json) (frac_le : jstr -> Z -> option bool)
  (sha256 : jstr -> jstr) (js_String : option json -> jstr) (sign : jstr -> jstr).

(** A cursor that was issued for [a] is opened for [a']: it is good for the same space, epoch,
    bounds and fingerprint until it expires, and otherwise the first difference is named. *)
Lemma range_cursor_decodes c a f t a' f' t' :
  seal_laws encode_body decode_body sha256 sign ->
  decodeRangeCursor decode_body frac_le js_String sign (encodeRangeCursor encode_body sign c a f t) a' f' t' =
  if t + CURSOR_TTL_MS <=? t' then Err (CursorInvalidError (js "만료되었다"))
  else if negb (is_safe_integer c) then Err (CursorInvalidError (js "완결 서수가 없다"))
  else if negb ((ra_repositoryId a =? ra_repositoryId a') && jeqb (ra_baseBranch a) (ra_baseBranch a'))
  then Err (CursorQueryMismatchError (js "다른 시퀀스 공간의 커서다"))
  else if negb (ra_seqEpoch a =? ra_seqEpoch a')
  then Err (CursorQueryMismatchError
              (js "에폭이 달라졌다 (커서 " ++ js_String (Some (JNum (ra_seqEpoch a))) ++ js " · 현재 "
               ++ js_of_Z (ra_seqEpoch a') ++ js ") — 재채번이 일어났다"))
  else if negb ((ra_fromExclusive a =? ra_fromExclusive a') && (ra_toInclusive a =? ra_toInclusive a'))
  then Err (CursorQueryMismatchError (js "구간 경계가 달라졌다"))
  else if negb (jeqb f f')
  then Err (CursorQueryMismatchError (js "질의·필터·접근 범위가 커서 발급 시점과 다르다"))
  else if (c <? ra_fromExclusive a') || (ra_toInclusive a' <? c)
  then Err (CursorInvalidError (js "완결 서수가 구간 밖이다"))
  else Ok c.
Proof.
  intros Hseal. unfold encodeRangeCursor, decodeRangeCursor. rewrite envelope_round_trip.
  2: { intros x. apply (sl_codec _ _ _ _ Hseal). } 2: { apply (sl_sign _ _ _ _ Hseal). }
  cbn [mbind result_bind]. cbv beta.
  change (assoc (js "v") _) with (Some (JNum RANGE_CURSOR_VERSION)).
  change (assoc (js "x") _) with (Some (JNum (t + CURSOR_TTL_MS))). change (assoc (js "c") _) with (Some (JNum c)).
  change (assoc (js "r") _) with (Some (JNum (ra_repositoryId a))).
  change (assoc (js "b") _) with (Some (JStr (ra_baseBranch a))).
  change (assoc (js "e") _) with (Some (JNum (ra_seqEpoch a))).
  change (assoc (js "f") _) with (Some (JNum (ra_fromExclusive a))).
  change (assoc (js "t") _) with (Some (JNum (ra_toInclusive a))). change (assoc (js "q") _) with (Some (JStr f)).
  cbv beta iota. unfold is_num, is_text. rewrite Z.eqb_refl. cbn [negb]. unfold assertNotExpired, throw_if. cbv zeta.
  destruct (t + CURSOR_TTL_MS <=? t'); [done|]. cbn [mbind result_bind]. destruct (negb (is_safe_integer c)); [done|].
  by rewrite <- !negb_andb.
Qed.
End cursor.

(** ** Reading a range to its end *)

Lemma distinct_elem n l : n ∈ distinct l <-> n ∈ l.
Proof.
  assert (forall k : list Z, n ∈ rev k <-> n ∈ k) as Hrev by (intros k; by rewrite !list_elem_of_In, <- in_rev).
  unfold distinct. by rewrite Hrev, elem_of_remove_dups, Hrev.
Qed.

Lemma add_sources_dom hits : forall (sources : Sources) (n : Z),
  is_Some (add_sources hits sources !! n) <->
  is_Some (sources !! n) \/ ∃ s, s ∈ hits ∧ ps_pr_number s = Some n.
Proof.
  induction hits as [|h hits IH]; intros sources n.
  - split; [by left|]. intros [?|(s & Hs & _)]; [done|]. by apply elem_of_nil in Hs.
  - change (add_sources (h :: hits) sources) with
      (add_sources hits (match ps_pr_number h with Some k => <[k := h]> sources | None => sources end)).
    rewrite IH. setoid_rewrite elem_of_cons. destruct (ps_pr_number h) as [k|] eqn:Ek.
    + destruct (decide (k = n)) as [->|Hne].
      * rewrite lookup_insert_eq. split; [|by left]. intros _. right. exists h. split; [by left|done].
      * rewrite lookup_insert_ne by done. split.
        -- intros [?|(s & Hs & Hn)]; [by left|]. right. exists s. auto.
        -- intros [?|(s & [->|Hs] & Hn)]; [by left|congruence|]. right. by exists s.
    + split.
      * intros [?|(s & Hs & Hn)]; [by left|]. right. exists s. auto.
      * intros [?|(s & [->|Hs] & Hn)]; [by left|congruence|]. right. by exists s.
Qed.

Section browse.
Context (format_parts : jstr -> Z -> Z * Z * Z * (Z * Z * Z)) (toISOString : Z -> jstr)
  (encode_body : json -> jstr) (decode_body : jstr -> option json) (frac_le : jstr -> Z -> option bool)
  (sha256 : jstr -> jstr) (js_String : option json -> jstr) (sign : jstr -> jstr)
  (resolveNames : list jstr * list jstr -> result jstr NameResolution)
  (search : EsQuery -> nat -> PrResponse) (count : EsQuery -> option SummaryResponse) (chunkSize : nat).

Notation page_at rq db now :=
  (runRange format_parts toISOString encode_body decode_body frac_le sha256 js_String sign resolveNames search count
     chunkSize rq db now).

(** What the code relies on of the index: no shard fails, and of the pull requests it is asked
    for it returns those of the range's query, when there is one. *)
Definition index_finds (rq : RangeRequest) (extra : option EsQuery) (found : Z -> bool) : Prop :=
  forall numbers q, numbers <> [] -> scoped rq extra numbers = Ok q ->
    let r := search q (length numbers) in
    pr_failed r <= 0 ∧
    (extra <> None ->
       forall n, (∃ s, s ∈ pr_hits r ∧ ps_pr_number s = Some n) <-> n ∈ numbers ∧ found n = true).

(** The rows that a request lists. *)
Definition selects_row (extra : option EsQuery) (found : Z -> bool) (row : Z * MergeSequenceRow) : bool :=
  match extra with
  | None => true
  | Some _ => match pr_of row with Some n => found n | None => false end
  end.
Definition good_sources (extra : option EsQuery) (found : Z -> bool) (sources : Sources) : Prop :=
  forall n, is_Some (sources !! n) -> extra <> None -> found n = true.

Lemma scoped_ok rq q0 extra numbers :
  is_ok (applyMandatoryScopeFilter q0 (rr_scope rq)) = true -> ∃ q, scoped rq extra numbers = Ok q.
Proof.
  intros H. unfold scoped. pose proof (scope_ok_any _ _ (prNumbersQuery (rr_space rq) numbers extra) H) as Hq.
  destruct (applyMandatoryScopeFilter (prNumbersQuery _ _ _) _) as [q|].
  - by exists q.
  - discriminate Hq.
Qed.

Lemma fetch_ok rq extra found numbers sources :
  is_ok (applyMandatoryScopeFilter q_match_all (rr_scope rq)) = true -> index_finds rq extra found ->
  ∃ sources', fetch_sources search rq extra numbers sources = Ok sources' ∧
    (extra <> None ->
       forall n, is_Some (sources' !! n) <-> is_Some (sources !! n) \/ (n ∈ numbers ∧ found n = true)).
Proof.
  intros Hs Hi. unfold fetch_sources. destruct numbers as [|n0 numbers].
  { exists sources. split; [done|]. intros _ n. split; [by left|]. intros [?|[Hn _]]; [done|]. by apply elem_of_nil in Hn. }
  destruct (scoped_ok rq _ extra (n0 :: numbers) Hs) as [q Hq]. rewrite Hq. cbn [lift_error mbind result_bind].
  destruct (Hi (n0 :: numbers) q) as [Hf Hh]; [done|done|]. unfold assertNoShardFailures, throw_if.
  rewrite (proj2 (Z.ltb_ge _ _)) by lia. cbn [lift_error mbind result_bind]. eexists. split; [done|].
  intros He n. rewrite add_sources_dom. by rewrite (Hh He n).
Qed.

Lemma judge_chunk rq extra found chunk sources :
  is_ok (applyMandatoryScopeFilter q_match_all (rr_scope rq)) = true -> index_finds rq extra found ->
  good_sources extra found sources ->
  ∃ sources', chunk_sources search rq extra chunk sources = Ok sources' ∧ good_sources extra found sources' ∧
    forall row, row ∈ chunk -> matched extra sources' row = selects_row extra found row.
Proof.
  intros Hs Hi Hg. unfold chunk_sources. destruct extra as [e|]; [|by exists sources].
  destruct (fetch_ok rq (Some e) found (distinct (omap pr_of chunk)) sources Hs Hi) as (sources' & Hf & Hd).
  specialize (Hd ltac:(done)).
  exists sources'. split; [done|]. split.
  - intros n Hn _. apply Hd in Hn as [Hn|[_ Hn]]; [|done]. by apply Hg.
  - intros row Hrow. unfold matched, selects_row, source_of. destruct (pr_of row) as [n|] eqn:En; [|done].
    cbn [mbind option_bind]. destruct (found n) eqn:Ef.
    + assert (is_Some (sources' !! n)) as [s ->]; [|done]. apply Hd. right. split; [|done].
      apply distinct_elem, list_elem_of_omap. by exists row.
    + destruct (sources' !! n) eqn:E; [|done]. assert (is_Some (sources' !! n)) as H by (rewrite E; by eexists).
      apply Hd in H as [H|[_ H]]; [|congruence].
      rewrite (Hg n H) in Ef by done. done.
Qed.

(** *** A page from where a cursor stands *)

Definition key (row : Z * MergeSequenceRow) : Z * jstr := (fst row, SequenceStore.commit_sha (snd row)).
Definition item_key (i : RangeItem) : Z * jstr := (ri_merge_seq i, ri_commit_sha i).
Lemma range_item_key space sources row : item_key (range_item space sources row) = key row.
Proof. unfold range_item. by destruct (source_of sources row). Qed.

(** What a request lists, whatever its cursor. *)
Definition listing (rq : RangeRequest) (extra : option EsQuery) (found : Z -> bool) (db : Db) : list (Z * jstr) :=
  map key (List.filter (selects_row extra found)
             (findRange (key_of_space (rr_space rq)) (sp_seqEpoch (rr_space rq)) (rr_fromExclusive rq) (rr_toInclusive rq) db)).

Definition with_cursor (rq : RangeRequest) (c : option jstr) : RangeRequest :=
  mkRangeRequest (rr_space rq) (rr_scope rq) (rr_fromExclusive rq) (rr_toInclusive rq) (rr_size rq) (rr_ast rq)
    (rr_rangeTotal rq) (rr_scopeVersion rq) c.

(** The request reads on after the number [c]. *)
Definition stands (rq : RangeRequest) (c : Z) (now : Z) : Prop :=
  match rr_cursor rq with
  | None => c = rr_fromExclusive rq
  | Some raw => ∃ t, now < t + CURSOR_TTL_MS ∧ rr_fromExclusive rq <= c <= rr_toInclusive rq ∧
      raw = encodeRangeCursor encode_body sign c (anchor_of rq) (range_fingerprint sha256 rq) t
  end.

(** What the requests of a range share. *)
Record readable (rq : RangeRequest) (extra : option EsQuery) (found : Z -> bool) : Prop := {
  rd_size : (1 <= rr_size rq)%nat;
  rd_extra : ∃ unresolved, range_extra format_parts toISOString resolveNames rq = Ok (extra, unresolved);
  rd_scope : is_ok (applyMandatoryScopeFilter q_match_all (rr_scope rq)) = true;
  rd_index : index_finds rq extra found;
  rd_from : 0 <= rr_fromExclusive rq;
  rd_to : rr_toInclusive rq <= MAX_SAFE_INTEGER
}.

Context (Hseal : seal_laws encode_body decode_body sha256 sign) (Hchunk : (1 <= chunkSize)%nat).

Lemma resume_stands rq extra found c now :
  readable rq extra found -> stands rq c now ->
  ∃ o, resume decode_body frac_le sha256 js_String sign rq now = Ok o ∧ start_of rq o = c.
Proof.
  intros Hr Hst. unfold stands, resume in *. destruct (rr_cursor rq) as [raw|]; [|by exists None].
  destruct Hst as (t & Ht & Hc & ->). rewrite (range_cursor_decodes encode_body decode_body frac_le sha256 js_String sign) by done.
  rewrite (proj2 (Z.leb_gt _ _)) by lia.
  rewrite (proj2 (is_safe_integer_spec c)) by (destruct Hr; unfold MAX_SAFE_INTEGER in *; lia).
  rewrite !Z.eqb_refl, !jeqb_refl. cbn [andb negb anchor_of ra_fromExclusive ra_toInclusive].
  rewrite !(proj2 (Z.ltb_ge _ _)) by lia. cbn [orb mbind result_bind lift_error]. by exists (Some c).
Qed.

Lemma listing_after rq extra found db c :
  rr_fromExclusive rq <= c ->
  map key (List.filter (selects_row extra found)
    (findRange (key_of_space (rr_space rq)) (sp_seqEpoch (rr_space rq)) c (rr_toInclusive rq) db))
  = List.filter (fun k => c <? fst k) (listing rq extra found db).
Proof.
  intros Hc. unfold listing. rewrite (findRange_from _ _ (rr_fromExclusive rq) _ c) by done.
  set (R := findRange _ _ _ _ _). induction R as [|x R IH]; [done|]. cbn [List.filter].
  destruct (c <? fst x) eqn:E; destruct (selects_row extra found x) eqn:Es; cbn [List.filter map fst key]; rewrite ?E, ?Es; cbn [map]; rewrite ?IH; done.
Qed.

Notation rows_after rq extra found db c := (List.filter (selects_row extra found)
  (findRange (key_of_space (rr_space rq)) (sp_seqEpoch (rr_space rq)) c (rr_toInclusive rq) db)).

Lemma scan_page_ok rq extra found db c :
  readable rq extra found ->
  ∃ page, scanPage search chunkSize rq extra c db = Ok (Some page) ∧
    page_ok rq (good_sources extra found) (rows_after rq extra found db c) page.
Proof.
  intros Hr. destruct Hr. apply (scanPage_spec search chunkSize rq extra db (good_sources extra found)
    (selects_row extra found)) with (sources0 := ∅); [done| | |done].
  - intros chunk sources Hg. by apply judge_chunk.
  - intros n [s Hs]. by rewrite lookup_empty in Hs.
Qed.

(** Without pull requests a query matches nothing. *)
Lemma no_prs_no_rows rq e found db c :
  rr_fromExclusive rq <= c ->
  listPullRequestNumbersInRange (key_of_space (rr_space rq)) (sp_seqEpoch (rr_space rq))
    (rr_fromExclusive rq) (rr_toInclusive rq) db = [] -> rows_after rq (Some e) found db c = [].
Proof.
  intros Hc Hn. apply filter_none. intros row Hrow. unfold selects_row. destruct (pr_of row) as [n|] eqn:En; [|done]. exfalso.
  assert (n ∈ listPullRequestNumbersInRange (key_of_space (rr_space rq)) (sp_seqEpoch (rr_space rq))
    (rr_fromExclusive rq) (rr_toInclusive rq) db) as H; [|rewrite Hn in H; by apply elem_of_nil in H].
  apply elem_of_remove_dups, list_elem_of_omap. exists row. split; [|done].
  destruct row as [k r]. apply findRange_elem in Hrow. apply findRange_elem. intuition lia.
Qed.

(** What a page of the rows [all] gives the client. *)
Definition page_gives (rq : RangeRequest) (all : list (Z * MergeSequenceRow)) (now : Z) (r : RangeResult) : Prop :=
  map item_key (range_items r) = map key (take (rr_size rq) all) ∧
  range_nextCursor r = (fun c => encodeRangeCursor encode_body sign c (anchor_of rq) (range_fingerprint sha256 rq) now) <$>
    (if (rr_size rq <? length all)%nat then last_seq (take (rr_size rq) all) else None).

Lemma page_rows rq extra found db c now :
  readable rq extra found -> stands rq c now -> rr_fromExclusive rq <= c ->
  ∃ r, page_at rq db now = Ok (Some r) ∧ page_gives rq (rows_after rq extra found db c) now r.
Proof.
  intros Hr Hst Hc. destruct (resume_stands _ _ _ _ _ Hr Hst) as (o & Ho & Hstart).
  destruct (scan_page_ok rq extra found db c Hr) as (page & Hp & Hok). pose proof Hr as [Hsize [unresolved He] Hscope Hi _ _].
  destruct Hok as [Hrows Hnext Hgood].
  unfold runRange. rewrite He. cbn [mbind result_bind]. rewrite Ho. cbn [mbind result_bind]. cbv zeta.
  destruct (listPullRequestNumbersInRange _ _ _ _ db) as [|n0 ns] eqn:En.
  - unfold bare_range, page_or_none. rewrite (proj2 (Nat.eqb_neq _ _)), Hstart by lia. cbn [orb]. destruct extra as [e|]; cbn [is_some].
    + cbn [mbind result_bind option_map]. eexists. split; [done|]. unfold page_gives.
      rewrite no_prs_no_rows by done. by rewrite take_nil.
    + rewrite Hp. cbn [mbind result_bind option_map]. eexists. split; [done|]. unfold page_gives.
      cbn [range_items range_nextCursor]. rewrite Hrows, map_map. split; [done|]. unfold cursor_after. by rewrite Hnext.
  - clear En. generalize (n0 :: ns). intros prs. unfold indexed_range. destruct (scoped_ok rq _ None prs Hscope) as [q1 ->].
    destruct (scoped_ok rq _ extra prs Hscope) as [q2 ->]. cbn [lift_error mbind result_bind]. cbv zeta.
    unfold page_or_none. rewrite (proj2 (Nat.eqb_neq _ _)), Hstart, Hp by lia. cbn [mbind result_bind].
    assert (∃ sources, page_sources search rq extra page = Ok sources) as [sources ->].
    { unfold page_sources. destruct extra as [e|]; [by eexists|].
      destruct (fetch_ok rq None found (distinct (omap pr_of (scanned_rows page))) (scanned_sources page) Hscope Hi) as (x & -> & _).
      by eexists. }
    cbn [mbind result_bind]. eexists. split; [done|]. unfold page_gives. cbn [range_items range_nextCursor].
    rewrite Hrows, map_map. split; [apply map_ext; intros; apply range_item_key|]. unfold cursor_after. by rewrite Hnext.
Qed.

(** *** Reading on *)

Notation after c := (List.filter (fun k : Z * jstr => c <? fst k)).

Lemma listing_strict rq extra found db : StronglySorted (fun a b => fst a < fst b) (listing rq extra found db).
Proof.
  unfold listing. pose proof (filter_sorted before (selects_row extra found) _
    (findRange_strict (key_of_space (rr_space rq)) (sp_seqEpoch (rr_space rq)) (rr_fromExclusive rq) (rr_toInclusive rq) db)) as H.
  induction H as [|x l Hl IH Hx]; cbn [map]; constructor; [done|]. apply Forall_map. exact Hx.
Qed.
Lemma listing_bounds rq extra found db k :
  k ∈ listing rq extra found db -> rr_fromExclusive rq < fst k <= rr_toInclusive rq.
Proof.
  intros (row & -> & Hrow)%list_elem_of_fmap. apply elem_filter in Hrow as [Hrow _]. destruct row as [n r].
  apply findRange_elem in Hrow. cbn. lia.
Qed.

Lemma range_page_step rq extra found L db c now :
  readable rq extra found -> stands rq c now -> rr_fromExclusive rq <= c -> listing rq extra found db = L ->
  ∃ r, page_at rq db now = Ok (Some r) ∧ map item_key (range_items r) = take (rr_size rq) (after c L) ∧
    match range_nextCursor r with
    | None => (length (after c L) <= rr_size rq)%nat
    | Some raw => (rr_size rq < length (after c L))%nat ∧ ∃ c', rr_fromExclusive rq <= c' ∧
        after c' L = drop (rr_size rq) (after c L) ∧
        forall now', now' < now + CURSOR_TTL_MS -> stands (with_cursor rq (Some raw)) c' now'
    end.
Proof.
  intros Hr Hst Hc HL. destruct (page_rows rq extra found db c now Hr Hst Hc) as (r & Hp & Hitems & Hnext).
  exists r. split; [done|]. pose proof (listing_after rq extra found db c Hc) as Hall. rewrite HL in Hall.
  set (all := rows_after rq extra found db c) in *. rewrite <- Hall, Hitems, Hnext, <- firstn_map. split; [done|].
  rewrite length_map. clear Hitems Hnext Hp. destruct (Nat.ltb_spec (rr_size rq) (length all)) as [Hlt|]; [|done].
  pose proof (rd_size _ _ _ Hr) as Hsize.
  destruct (exists_last (l := take (rr_size rq) all)) as (pre & x & Hx).
  { intros He. apply (f_equal length) in He. rewrite length_take in He. cbn in He. lia. }
  rewrite Hx, last_seq_snoc. cbn [fmap option_fmap option_map]. split; [done|]. exists (fst x).
  assert (all = pre ++ x :: drop (rr_size rq) all) as Hsplit.
  { rewrite <- (take_drop (rr_size rq) all) at 1. rewrite Hx, <- app_assoc. done. }
  assert (key x ∈ after c L) as Hxin.
  { rewrite <- Hall, Hsplit, map_app. apply elem_of_app. right. by left. }
  apply elem_filter in Hxin as [HxL Hxc%Z.ltb_lt]. cbn [fst key] in Hxc.
  pose proof HxL as Hb. rewrite <- HL in Hb. apply listing_bounds in Hb. cbn [fst key] in Hb.
  split; [lia|]. split.
  - assert (after (fst x) L = after (fst x) (after c L)) as ->.
    { rewrite filter_filter. apply List.filter_ext. intros [k s]. cbn [fst].
      destruct (Z.ltb_spec (fst x) k), (Z.ltb_spec c k); cbn; try done; lia. }
    assert (after c L = map key pre ++ key x :: map key (drop (rr_size rq) all)) as HafterL.
    { by rewrite <- Hall, Hsplit at 1; rewrite map_app. }
    assert (StronglySorted (fun a b : Z * jstr => fst a < fst b) (after c L)) as Hstrict.
    { apply filter_sorted. rewrite <- HL. apply listing_strict. }
    rewrite HafterL in Hstrict. apply (filter_after fst) in Hstrict. rewrite HafterL. cbn [fst key] in Hstrict.
    by rewrite Hstrict, skipn_map.
  - intros now' Hnow. unfold stands. cbn [rr_cursor with_cursor]. exists now. split; [done|]. split; [cbn; lia|done].
Qed.

(** A client that follows the cursors, each request at its own time and on the table as it is
    then; [None] when the visits end first. *)
Definition then_read (page : list RangeItem) (rest : result SearchError (option (list (list RangeItem))))
  : result SearchError (option (list (list RangeItem))) := pages ← rest; Ok (option_map (cons page) pages).
Fixpoint browse_range (rq : RangeRequest) (visits : list (Db * Z)) : result SearchError (option (list (list RangeItem))) :=
  match visits with
  | [] => Ok None
  | (db, now) :: visits =>
    match page_at rq db now with
    | Err e => Err e
    | Ok None => Ok None
    | Ok (Some r) =>
      match range_nextCursor r with
      | None => Ok (Some [range_items r])
      | Some c => then_read (range_items r) (browse_range (with_cursor rq (Some c)) visits)
      end
    end
  end.

Lemma range_browse_from visits : forall rq extra found L c,
  readable rq extra found -> rr_fromExclusive rq <= c ->
  stands rq c (List.hd 0 (map snd visits)) ->
  Sorted (fun t t' => t' < t + CURSOR_TTL_MS) (map snd visits) ->
  (forall v, v ∈ visits -> listing rq extra found v.1 = L) -> (length (after c L) < length visits)%nat ->
  ∃ pages, browse_range rq visits = Ok (Some pages) ∧ map item_key (concat pages) = after c L ∧
    full_pages (rr_size rq) pages.
Proof.
  induction visits as [|[db now] visits IH]; intros rq extra found L c Hr Hc Hst Ht HL Hlen; [cbn in Hlen; lia|].
  destruct (range_page_step rq extra found L db c now Hr Hst Hc) as (r & Hp & Hi & Hn); [apply (HL (db, now)); by left|].
  cbn [browse_range]. rewrite Hp. destruct (range_nextCursor r) as [raw|].
  - destruct Hn as (Hmore & c' & Hc' & Hrest & Hnext). cbn [map snd] in Ht. apply Sorted_inv in Ht as [Ht Hhd].
    destruct visits as [|[db' now'] visits]; [cbn in Hlen; lia|]. cbn [map snd] in Ht, Hhd. apply HdRel_inv in Hhd.
    destruct (IH (with_cursor rq (Some raw)) extra found L c') as (pages & Hpages & Hcat & Hf).
    + by destruct Hr.
    + done.
    + by apply Hnext.
    + done.
    + intros v Hv. apply (HL v). by right.
    + pose proof (rd_size _ _ _ Hr). rewrite Hrest, length_drop. cbn [length] in *. lia.
    + rewrite Hpages. unfold then_read. cbn [mbind result_bind option_map]. exists (range_items r :: pages). split; [done|]. cbn [concat].
      rewrite map_app, Hcat, Hi, Hrest, take_drop. split; [done|].
      destruct pages as [|p pages]; [done|]. cbn [full_pages]. split; [|exact Hf].
      apply (f_equal length) in Hi. rewrite length_map, length_take in Hi. lia.
  - exists [range_items r]. split; [done|]. cbn [concat full_pages]. rewrite app_nil_r, Hi, take_ge by done. split; [done|].
    apply (f_equal length) in Hi. rewrite length_map, length_take in Hi. lia.
Qed.

Lemma browse_all rq extra found L visits :
  readable rq extra found -> rr_cursor rq = None ->
  (forall v, v ∈ visits -> listing rq extra found v.1 = L) ->
  Sorted (fun t t' => t' < t + CURSOR_TTL_MS) (map snd visits) -> (length L < length visits)%nat ->
  ∃ pages, browse_range rq visits = Ok (Some pages) ∧ map item_key (concat pages) = L ∧
    full_pages (rr_size rq) pages.
Proof.
  intros Hr Hc HL Ht Hlen.
  assert (after (rr_fromExclusive rq) L = L) as Hall.
  { apply filter_all. intros k Hk. destruct visits as [|v visits]; [cbn in Hlen; lia|].
    rewrite <- (HL v) in Hk by by left. apply listing_bounds in Hk. apply Z.ltb_lt. lia. }
  destruct (range_browse_from visits rq extra found L (rr_fromExclusive rq)) as (pages & Hp & Hk & Hf); try done.
  - unfold stands. by rewrite Hc.
  - by rewrite Hall.
  - exists pages. by rewrite Hall in Hk.
Qed.

(** ** A range of a finished part of the numbering *)

Lemma strict_same {A} (l1 l2 : list (Z * A)) :
  StronglySorted (fun a b => fst a < fst b) l1 -> StronglySorted (fun a b => fst a < fst b) l2 ->
  (forall x, x ∈ l1 <-> x ∈ l2) -> l1 = l2.
Proof.
  intros H1. revert l2. induction H1 as [|x l1 H1 IH Hx]; intros l2 H2 He.
  - destruct l2 as [|y l2]; [done|]. exfalso. apply (elem_of_nil y), He. left.
  - destruct H2 as [|y l2 H2 Hy]; [exfalso; apply (elem_of_nil x), He; left|].
    rewrite Forall_forall in Hx, Hy.
    assert (x = y) as ->.
    { assert (x ∈ y :: l2) as [?|Hxl]%elem_of_cons by (apply He; left); [done|].
      assert (y ∈ x :: l1) as [?|Hyl]%elem_of_cons by (apply He; left); [done|].
      apply Hy in Hxl. apply Hx in Hyl. lia. }
    f_equal. apply IH; [done|]. intros z. split; intros Hz.
    + assert (z ∈ y :: l2) as [->|?]%elem_of_cons by (apply He; by right); [|done]. apply Hx in Hz. lia.
    + assert (z ∈ y :: l1) as [->|?]%elem_of_cons by (apply He; by right); [|done]. apply Hy in Hz. lia.
Qed.

(** A range that was numbered, or an epoch that was over, at [y0] lists the same in every later
    state. *)
Lemma range_stable y0 y space s epoch from to :
  rtc System.step System.initial y0 -> rtc System.step y0 y -> sequence_space (System.db y0) !! space = Some s ->
  epoch < seq_epoch s \/ epoch = seq_epoch s ∧ to <= head_seq s ->
  map key (findRange space epoch from to (System.db y)) = map key (findRange space epoch from to (System.db y0)).
Proof.
  intros H0 H Hs He. destruct (System.reachable_ok _ _ System.initial_ok H0) as [Hy0 _].
  destruct (System.reachable_ok _ _ Hy0 H) as [(Hok & _) [_ Hrow Hold]]. pose proof Hy0 as (Hok0 & _).
  assert (forall d, StronglySorted (fun a b => fst a < fst b) (map key (findRange space epoch from to d))) as Hsort.
  { intros d. induction (findRange_strict space epoch from to d) as [|x l Hl IH Hx]; constructor; [done|]. by apply Forall_map. }
  apply strict_same; [apply Hsort|apply Hsort|]. intros k. split; intros (row & -> & Hin)%list_elem_of_fmap;
    destruct row as [n r]; apply findRange_elem in Hin as [Hn Hr].
  - assert (is_Some (rows (System.db y0) space epoch n)) as [r0 Hr0].
    { destruct He as [He|[-> Hto]].
      - exists r. rewrite <- (Hold space s epoch n Hs He). exact Hr.
      - pose proof (Hok0 space) as Hsp. rewrite Hs in Hsp. apply (System.ok_dense _ _ _ Hsp).
        pose proof (Hok space) as Hsp'. destruct (sequence_space (System.db y) !! space) as [s'|] eqn:Es'.
        + destruct (System.ok_bounds _ _ _ Hsp' _ _ _ Hr). lia.
        + unfold rows in Hsp'. rewrite Hsp' in Hr. done. }
    destruct (Hrow _ _ _ _ Hr0) as (r' & Hr' & Hk). unfold rows in Hr'. rewrite Hr in Hr'. injection Hr' as <-.
    apply list_elem_of_fmap. exists (n, r0). split; [|by apply findRange_elem].
    unfold key. cbn [fst snd]. by rewrite (System.kp_sha _ _ Hk).
  - destruct (Hrow _ _ _ _ Hr) as (r' & Hr' & Hk). apply list_elem_of_fmap. exists (n, r'). split; [|by apply findRange_elem].
    unfold key. cbn [fst snd]. by rewrite (System.kp_sha _ _ Hk).
Qed.

(** ** Theorems *)

(** [C14] While every state of the table that a page is read from lists the same numbers, reading
    on with the cursors gives each of them exactly once and in their order, on full pages, and
    ends, as long as each cursor is used before it expires and no shard fails. *)
Theorem range_browse_complete rq extra found L visits :
  readable rq extra found -> rr_cursor rq = None ->
  (forall v, v ∈ visits -> listing rq extra found v.1 = L) ->
  Sorted (fun t t' => t' < t + CURSOR_TTL_MS) (map snd visits) -> (length L < length visits)%nat ->
  ∃ pages, browse_range rq visits = Ok (Some pages) ∧ map item_key (concat pages) = L ∧
    full_pages (rr_size rq) pages.
Proof. apply browse_all. Qed.

End browse.

(** ** A range of the sample space *)

Definition sample_space : ResolvedSpace := mkResolved 7 (js "main") 1 ss_ok 2 (js "acme/app@main").
Definition no_hits (q : EsQuery) (n : nat) : PrResponse := mkPrResponse [] 0 1.
Definition no_counts (q : EsQuery) : option SummaryResponse := None.
Definition sample_range (to : Z) (ast : option QueryAst) : RangeRequest :=
  mkRangeRequest sample_space (ExplicitAccessScope [7]) 0 to 1 ast 2 1 None.
Notation sample_browse rq visits :=
  (browse_range utc_parts js_of_Z sample_encode sample_decode (fun _ _ => None) (fun x => 120%N :: x) (fun _ => [])
    sample_sign (fun _ => Ok EMPTY_RESOLUTION) no_hits no_counts 1 rq visits).
Definition state_ab : System.Sys := System.mkSys db_ab [] [].
Definition state_numbered : System.Sys := System.mkSys System.db_numbered [] [(main, System.sample_round)].

Definition pages_read (r : result SearchError (option (list (list RangeItem)))) : option (list (list (Z * jstr))) :=
  match r with Ok (Some pages) => Some (map (map item_key) pages) | _ => None end.
Example range_ex :
  pages_read (sample_browse (sample_range 2 None) [(db_ab, 0); (System.db_numbered, 10); (db_ab, 20)])
  = Some [[(1, js "A")]; [(2, js "B")]].
Proof. vm_compute. reflexivity. Qed.

Lemma sample_run : rtc System.step state_ab state_numbered.
Proof. exact (transitivity System.reach_read System.reach_numbered). Qed.
Lemma sample_row :
  option_map (fun s => (seq_epoch s, head_seq s)) (sequence_space db_ab !! main) = Some (1, 2).
Proof. vm_compute. reflexivity. Qed.

(** *** The pull requests that carry a label *)

Definition sample_label : QueryAst := mkAst [EqualityFilter QueryAst.label op_eq [js "bug"]] None.
(** An index where pull request 70 matches. *)
Definition asked (q : EsQuery) : list EsScalar :=
  match q with q_bool [q_bool _ (_ :: q_terms _ vs :: _) _ _ _] _ _ _ _ => vs | _ => [] end.
Definition sample_doc : PullRequestSource := mkPrSource (Some 70) (Some (js "Fix")) None None None None None.
Definition finds_70 (q : EsQuery) (n : nat) : PrResponse :=
  mkPrResponse (if existsb (fun v => bool_decide (v = ev_num 70)) (asked q) then [sample_doc] else []) 0 1.
Definition sample_extra : option EsQuery :=
  match range_extra utc_parts js_of_Z (fun _ => Ok EMPTY_RESOLUTION) (sample_range 2 (Some sample_label)) with
  | Ok (extra, _) => extra | Err _ => None
  end.

Lemma finds_70_found extra : index_finds finds_70 (sample_range 2 (Some sample_label)) extra (fun n => n =? 70).
Proof.
  intros numbers q _ Hq. unfold scoped in Hq. cbn [rr_scope sample_range applyMandatoryScopeFilter] in Hq. injection Hq as <-.
  split; [cbn; lia|]. intros _ n. cbn [finds_70 pr_hits asked prNumbersQuery app].
  destruct (existsb _ (map ev_num numbers)) eqn:E; split.
  - intros (s & ->%list_elem_of_singleton & Hn). injection Hn as <-. split; [|done].
    apply existsb_elem in E as (v & (n & -> & Hn)%list_elem_of_fmap & [= ->]%bool_decide_eq_true). done.
  - intros [Hn ->%Z.eqb_eq]. exists sample_doc. split; [by left|done].
  - intros (s & Hs & _). by apply elem_of_nil in Hs.
  - intros [Hn ->%Z.eqb_eq]. exfalso. apply not_true_iff_false in E. apply E. apply existsb_elem.
    exists (ev_num 70). split; [by apply (list_elem_of_fmap_2 ev_num)|]. by apply bool_decide_eq_true.
Qed.

Lemma range_browse_complete_witness :
  ∃ pages, browse_range utc_parts js_of_Z sample_encode sample_decode (fun _ _ => None) (fun x => 120%N :: x) (fun _ => [])
      sample_sign (fun _ => Ok EMPTY_RESOLUTION) finds_70 no_counts 1 (sample_range 2 (Some sample_label))
      [(System.db_numbered, 0); (System.db_numbered, 10)] = Ok (Some pages) ∧
    map item_key (concat pages) = [(2, js "B")] ∧ full_pages 1 pages.
Proof.
  apply (range_browse_complete utc_parts js_of_Z sample_encode sample_decode (fun _ _ => None) (fun x => 120%N :: x)
    (fun _ => []) sample_sign (fun _ => Ok EMPTY_RESOLUTION) finds_70 no_counts 1 sample_seal_laws (le_n 1)
    (sample_range 2 (Some sample_label)) sample_extra (fun n => n =? 70)).
  - split; [cbn; lia|by exists []|reflexivity|apply finds_70_found|cbn; lia|cbn; unfold MAX_SAFE_INTEGER; lia].
  - reflexivity.
  - apply Forall_forall. repeat (apply Forall_cons_2; [vm_compute; reflexivity|]). apply Forall_nil_2.
  - repeat constructor; unfold CURSOR_TTL_MS; lia.
  - cbn. lia.
Defined.
Example sample_extra_ex : sample_extra <> None.
Proof. vm_compute. discriminate. Qed.
