(* ===== verification/EsDocument.v ===== *)
(** * Documents of the index

    [packages/es/src/upsert.ts] and [write-targets.ts]: the conditional update that every
    projected document goes through, sent to the serving alias and, while an index is being
    rebuilt, to the new one as well; and [apps/pipeline-worker/src/index-retry.ts], which sends
    failed items again.  The scripts of the source run in Elasticsearch; they are functions on
    documents here.  The server itself is a class with the laws that its documentation gives
    ([DocLaws]), and [model_index] is a server that satisfies them. *)

From stdpp Require Import base option strings numbers gmap sorting list.
From Stdlib Require Import ZArith Lia.
From S2P Require Import Prelude JsString Json QueryBuilder.
Open Scope Z_scope.

(** ** Documents and scripts *)

(** [ctx._source]: the fields of a document. *)
Abbreviation Source := (gmap jstr json).
(** [_routing] and [_id]. *)
Abbreviation DocKey := (jstr * jstr)%type.

(** How a script ends: it has changed the source, it has set [ctx.op = 'noop'], or it threw. *)
Inductive script_end : Type := s_write (d : Source) | s_noop | s_error.
Abbreviation Script := (Source -> script_end).

(** A field of a source as Painless reads it: an absent one is [null]. *)
Definition field (d : Source) (k : jstr) : json := default JNull (d !! k).

(** ** The server *)

Record EsError : Type := mkEsError { ee_status : option Z; ee_type : option jstr; ee_reason : option jstr }.
Inductive UpdateReply : Type := re_created | re_updated | re_noop | re_error (e : EsError).
Record UpdateCall : Type := mkUpdate {
  uc_name : jstr; uc_key : DocKey; uc_script : Script; uc_upsert : option Source
}.

Class DocServer (S : Type) := {
  (** The index a name stands for, and the documents of an index. *)
  es_index : S -> jstr -> jstr;
  es_doc : S -> jstr -> DocKey -> option Source;
  (** [client.update], [client.bulk] of updates, [client.get] by name. *)
  es_update : UpdateCall -> S -> S * UpdateReply;
  es_bulk : list UpdateCall -> S -> S * result EsError (list UpdateReply);
  es_get : jstr -> DocKey -> S -> result EsError (option Source)
}.

Definition document_missing (e : EsError) : bool :=
  bool_decide (ee_status e = Some 404) && bool_decide (ee_type e = Some (js "document_missing_exception")).

Section laws.
Context {S : Type} `{DocServer S}.

Definition doc_named (s : S) (name : jstr) (key : DocKey) : option Source := es_doc s (es_index s name) key.

(** What an update that was carried out leaves. *)
Definition carried_out (c : UpdateCall) (o : option Source) : option Source :=
  match o with
  | None => uc_upsert c
  | Some d => match uc_script c d with s_write d' => Some d' | _ => Some d end
  end.
Definition replied (c : UpdateCall) (o o' : option Source) (r : UpdateReply) : Prop :=
  match r with
  | re_created => o = None ∧ is_Some (uc_upsert c) ∧ o' = uc_upsert c
  | re_updated => ∃ d d', o = Some d ∧ uc_script c d = s_write d' ∧ o' = Some d'
  | re_noop => ∃ d, o = Some d ∧ uc_script c d = s_noop ∧ o' = o
  | re_error e =>
    if document_missing e then o = None ∧ uc_upsert c = None ∧ o' = None
    else o' = o \/ o' = carried_out c o
  end.

(** One update: it touches one document; an error does not say whether it was carried out. *)
Record updates (c : UpdateCall) (s s' : S) (r : UpdateReply) : Prop := {
  up_index n : es_index s' n = es_index s n;
  up_other i k : (i, k) <> (es_index s (uc_name c), uc_key c) -> es_doc s' i k = es_doc s i k;
  up_reply : replied c (doc_named s (uc_name c) (uc_key c)) (doc_named s' (uc_name c) (uc_key c)) r
}.
Inductive updates_all : list UpdateCall -> S -> S -> list UpdateReply -> Prop :=
| ua_nil s : updates_all [] s s []
| ua_cons c cs s s1 s' r rs : updates c s s1 r -> updates_all cs s1 s' rs -> updates_all (c :: cs) s s' (r :: rs).

Class DocLaws : Prop := {
  law_update c s : updates c s (es_update c s).1 (es_update c s).2;
  (** A bulk request does its updates in order and reports the first of them in order; when
      it fails as a whole, some of them may have been carried out. *)
  law_bulk cs s : ∃ rs, updates_all cs s (es_bulk cs s).1 rs ∧
    match (es_bulk cs s).2 with Ok reported => ∃ k, reported = take k rs | Err _ => True end;
  law_get n k s o : es_get n k s = Ok o -> o = doc_named s n k
}.
End laws.
Arguments DocLaws S {_}.

(** ** Where a write goes *)

Definition alias_name (a : EntityAlias) : jstr :=
  match a with
  | prs_pull_requests => js "prs-pull-requests" | prs_commits => js "prs-commits"
  | prs_links => js "prs-links" | prs_releases => js "prs-releases"
  end.

Record ShadowWriteFailure : Type := mkShadowFailure {
  sf_alias : jstr; sf_index : jstr; sf_operation : jstr; sf_reason : jstr
}.
(** The indices being built, by alias; what is recorded is a value of the calls. *)
Record WriteTargets : Type := mkTargets { shadows : gmap jstr jstr }.
Definition SERVING_ONLY : WriteTargets := mkTargets ∅.
Definition shadowIndexOf (t : WriteTargets) (alias : jstr) : option jstr := shadows t !! alias.
Definition writeIndicesOf (t : WriteTargets) (alias : jstr) : list jstr :=
  match shadowIndexOf t alias with None => [alias] | Some i => [alias; i] end.

(** [dualWrite]: an exception on the serving side is thrown on, one on the other side is
    recorded. *)
Definition dualWrite {S T} (t : WriteTargets) (alias operation : jstr) (String_of : EsError -> jstr)
    (run : jstr -> S -> S * result EsError T) (s : S) : S * (result EsError T * list ShadowWriteFailure) :=
  match run alias s with
  | (s, Err e) => (s, (Err e, []))
  | (s, Ok served) =>
    match shadowIndexOf t alias with
    | None => (s, (Ok served, []))
    | Some shadow =>
      match run shadow s with
      | (s, Ok _) => (s, (Ok served, []))
      | (s, Err e) => (s, (Ok served, [mkShadowFailure alias shadow operation (String_of e)]))
      end
    end
  end.

(** ** Failures *)

Definition NON_RETRYABLE_ERROR_TYPES : list jstr :=
  [js "strict_dynamic_mapping_exception"; js "document_parsing_exception"; js "mapper_parsing_exception";
   js "illegal_argument_exception"; js "script_exception"; js "invalid_index_name_exception"].
Definition RETRYABLE_ERROR_TYPES : list jstr :=
  [js "es_rejected_execution_exception"; js "circuit_breaking_exception"; js "cluster_block_exception";
   js "unavailable_shards_exception"; js "version_conflict_engine_exception"; js "node_not_connected_exception";
   js "no_shard_available_action_exception"; js "process_cluster_event_timeout_exception"].

Inductive FailureClass : Set := f_retryable | f_rejected.
Definition class_of_status (status : Z) : FailureClass :=
  if status =? 429 then f_retryable else if 500 <=? status then f_retryable else f_rejected.
Definition classifyFailure (status : Z) (type : option jstr) : FailureClass :=
  match type with
  | Some t =>
    if mem t NON_RETRYABLE_ERROR_TYPES then f_rejected
    else if mem t RETRYABLE_ERROR_TYPES then f_retryable
    else class_of_status status
  | None => class_of_status status
  end.
Definition status_of (e : EsError) : Z := default 0 (ee_status e).
Definition failureReason (e : EsError) : jstr :=
  let type := default (js "unknown") (ee_type e) in
  match default [] (ee_reason e) with
  | [] => js_of_Z (status_of e) ++ js " " ++ type
  | reason => js_of_Z (status_of e) ++ js " " ++ type ++ js ": " ++ reason
  end.

(** ** The conditional upsert *)

Definition DOCUMENT_VERSION : jstr := js "document_version".
Definition DOC_ID : jstr := js "doc_id".
Definition PULL_REQUEST_NUMBERS : jstr := js "pull_request_numbers".

(** [doc] with its version is [ur_fields] and [ur_version]. *)
Record UpsertRequest : Type := mkUpsert {
  ur_alias : EntityAlias; ur_id : jstr; ur_routing : jstr; ur_version : Z; ur_fields : Source;
  ur_union : gmap jstr (list json); ur_createOnly : Source; ur_remove : list jstr
}.
Definition ur_key (r : UpsertRequest) : DocKey := (ur_routing r, ur_id r).
Definition ur_doc (r : UpsertRequest) : Source := <[DOCUMENT_VERSION := JNum (ur_version r)]> (ur_fields r).
Definition withDocId (r : UpsertRequest) (doc : Source) : Source := <[DOC_ID := JStr (ur_id r)]> doc.
Definition toArrays (u : gmap jstr (list json)) : Source := JArr <$> u.
Definition initialDocument (r : UpsertRequest) : Source :=
  withDocId r (ur_createOnly r ∪ toArrays (ur_union r) ∪ ur_doc r).

(** [current] of the script as the elements it adds. *)
Definition current_list (v : option json) : list json :=
  match v with Some (JArr l) => l | Some JNull | None => [] | Some v => [v] end.

Section script.
(** The order in which a [HashSet] gives its elements. *)
Context (hash_order : list json -> list json).

Definition merge_union (src : Source) (u : gmap jstr (list json)) : Source :=
  merge (fun cur new => match new with
                        | None => cur
                        | Some vs => Some (JArr (hash_order (remove_dups (current_list cur ++ vs))))
                        end) src u.
Definition union_adds (src : Source) (u : gmap jstr (list json)) : bool :=
  existsb (fun e => existsb (fun v => negb (bool_decide (v ∈ current_list (src !! e.1)))) e.2) (map_to_list u).

(** [ctx._source.document_version == null || ctx._source.document_version < params...];
    [None] when the comparison throws. *)
Definition fresher (v : option json) (version : Z) : option bool :=
  match v with
  | None | Some JNull => Some true
  | Some (JNum old) => Some (old <? version)
  | Some _ => None
  end.
Definition remove_all (ks : list jstr) (d : Source) : Source := foldr delete d ks.

Definition CONDITIONAL_UPSERT_SCRIPT (r : UpsertRequest) : Script := fun src =>
  match fresher (src !! DOCUMENT_VERSION) (ur_version r) with
  | None => s_error
  | Some fresh =>
    let assigned := if fresh then remove_all (ur_remove r) (withDocId r (ur_doc r) ∪ src) else src in
    if negb fresh && negb (union_adds assigned (ur_union r)) then s_noop
    else s_write (merge_union assigned (ur_union r))
  end.

Definition assertNoRelationUnion (r : UpsertRequest) : result jstr unit :=
  match ur_union r !! PULL_REQUEST_NUMBERS with
  | Some _ => Err (js "pull_request_numbers는 합집합 필드가 아니다 (CR-116) — 관계는 applyCommitLinks가 대입한다: " ++ ur_id r)
  | None => Ok tt
  end.
Definition update_of (r : UpsertRequest) (name : jstr) : UpdateCall :=
  mkUpdate name (ur_key r) (CONDITIONAL_UPSERT_SCRIPT r) (Some (initialDocument r)).
Definition scriptBody (r : UpsertRequest) (name : jstr) : result jstr UpdateCall :=
  _ ← assertNoRelationUnion r; Ok (update_of r name).

(** ** Sending *)

Inductive BulkItemOutcome : Type :=
| bo_ok (request : UpsertRequest) (res : jstr)
| bo_failed (class : FailureClass) (request : UpsertRequest) (status : Z) (reason : jstr).
Definition outcome_request (o : BulkItemOutcome) : UpsertRequest :=
  match o with bo_ok r _ => r | bo_failed _ r _ _ => r end.
Definition is_ok_outcome (o : BulkItemOutcome) : bool := match o with bo_ok _ _ => true | _ => false end.

Definition reply_outcome (r : UpsertRequest) (reply : UpdateReply) : BulkItemOutcome :=
  match reply with
  | re_created => bo_ok r (js "created") | re_updated => bo_ok r (js "updated") | re_noop => bo_ok r (js "noop")
  | re_error e => bo_failed (classifyFailure (status_of e) (ee_type e)) r (status_of e) (failureReason e)
  end.
Definition NO_ITEM : jstr := js "벌크 응답에 대응 항목이 없다".
Definition item_outcome (r : UpsertRequest) (reply : option UpdateReply) : BulkItemOutcome :=
  match reply with None => bo_failed f_retryable r 0 NO_ITEM | Some reply => reply_outcome r reply end.

(** [Promise] of a value with the failures recorded on the way, or an exception. *)
Inductive UpsertThrow : Type := ut_error (message : jstr) | ut_response (e : EsError).

Definition shadow_plan (t : WriteTargets) (rs : list UpsertRequest) : list (UpsertRequest * jstr) :=
  omap (fun r => (fun i => (r, i)) <$> shadowIndexOf t (alias_name (ur_alias r))) rs.
Definition shadow_failure (op : jstr) (p : UpsertRequest * jstr) (o : BulkItemOutcome) : list ShadowWriteFailure :=
  match o with
  | bo_ok _ _ => []
  | bo_failed _ _ _ reason => [mkShadowFailure (alias_name (ur_alias p.1)) p.2 op reason]
  end.

Fixpoint bodies (l : list (UpsertRequest * jstr)) : result jstr (list UpdateCall) :=
  match l with
  | [] => Ok []
  | (r, name) :: l => c ← scriptBody r name; cs ← bodies l; Ok (c :: cs)
  end.

Section send.
Context {S : Type} `{DocServer S}.

(** Replies are matched to requests by position; a request beyond them has none. *)
Fixpoint items_of {A} (f : A -> option UpdateReply -> BulkItemOutcome) (l : list A) (replies : list UpdateReply)
  : list BulkItemOutcome :=
  match l with
  | [] => []
  | x :: l => match replies with
              | [] => f x None :: items_of f l []
              | r :: rs => f x (Some r) :: items_of f l rs
              end
  end.

Definition bulkUpsert (rs : list UpsertRequest) (t : WriteTargets) (s : S)
  : S * result UpsertThrow (list BulkItemOutcome * list ShadowWriteFailure) :=
  match rs with
  | [] => (s, Ok ([], []))
  | _ =>
    let plan := shadow_plan t rs in
    match bodies (map (fun r => (r, alias_name (ur_alias r))) rs ++ plan) with
    | Err m => (s, Err (ut_error m))
    | Ok calls =>
      match es_bulk calls s with
      | (s, Err e) => (s, Err (ut_response e))
      | (s, Ok replies) =>
        let shadowed := items_of (fun p => item_outcome p.1) plan (drop (length rs) replies) in
        (s, Ok (items_of item_outcome rs replies,
                concat (zip_with (shadow_failure (js "bulk")) plan shadowed)))
      end
    end
  end.

Definition sendOne (r : UpsertRequest) (name : jstr) (s : S) : S * BulkItemOutcome :=
  match scriptBody r name with
  | Err _ => (s, reply_outcome r (re_error (mkEsError None None None)))
  | Ok c => let '(s, reply) := es_update c s in (s, reply_outcome r reply)
  end.

Definition upsertOne (t : WriteTargets) (r : UpsertRequest) (s : S)
  : S * (BulkItemOutcome * list ShadowWriteFailure) :=
  let alias := alias_name (ur_alias r) in
  let '(s, served) := sendOne r alias s in
  match shadowIndexOf t alias with
  | None => (s, (served, []))
  | Some shadow => let '(s, mirrored) := sendOne r shadow s in
                   (s, (served, shadow_failure (js "update") (r, shadow) mirrored))
  end.

(** ** Sending again *)

Definition MAX_ITEM_RETRIES : nat := 2.
Definition is_retryable (o : BulkItemOutcome) : bool :=
  match o with bo_failed f_retryable _ _ _ => true | _ => false end.

Fixpoint retry_pass (t : WriteTargets) (os : list BulkItemOutcome) (s : S)
  : S * (list BulkItemOutcome * list ShadowWriteFailure) :=
  match os with
  | [] => (s, ([], []))
  | o :: os =>
    if is_retryable o then
      let '(s, (o', fs)) := upsertOne t (outcome_request o) s in
      let '(s, (os', fs')) := retry_pass t os s in (s, (o' :: os', fs ++ fs'))
    else let '(s, (os', fs)) := retry_pass t os s in (s, (o :: os', fs))
  end.
Fixpoint retry_passes (n : nat) (t : WriteTargets) (os : list BulkItemOutcome) (s : S)
  : S * (list BulkItemOutcome * list ShadowWriteFailure) :=
  match n with
  | O => (s, (os, []))
  | Datatypes.S n =>
    if existsb is_retryable os then
      let '(s, (os, fs)) := retry_pass t os s in
      let '(s, (os', fs')) := retry_passes n t os s in (s, (os', fs ++ fs'))
    else (s, (os, []))
  end.
Definition retryFailedItems (os : list BulkItemOutcome) (t : WriteTargets) (s : S)
  : S * (list BulkItemOutcome * list ShadowWriteFailure) := retry_passes MAX_ITEM_RETRIES t os s.
End send.

Definition describe_item (o : BulkItemOutcome) : list jstr :=
  match o with
  | bo_ok _ _ => []
  | bo_failed _ r _ reason => [alias_name (ur_alias r) ++ js "/" ++ ur_id r ++ js ": " ++ reason]
  end.
Definition describeFailedItems (os : list BulkItemOutcome) : jstr := join (js "; ") (concat (map describe_item os)).
End script.

(** ** Versions never go back *)

Definition at_least (v : Z) (o : option Source) : Prop :=
  ∃ d w, o = Some d ∧ d !! DOCUMENT_VERSION = Some (JNum w) ∧ v <= w.

(** A request that leaves the version alone beside its own. *)
Record wf_request (r : UpsertRequest) : Prop := {
  wf_union : ur_union r !! DOCUMENT_VERSION = None;
  wf_create : ur_createOnly r !! DOCUMENT_VERSION = None;
  wf_remove : DOCUMENT_VERSION ∉ ur_remove r
}.
Definition is_error (r : UpdateReply) : bool := match r with re_error _ => true | _ => false end.

Lemma remove_all_lookup ks d k : remove_all ks d !! k = if decide (k ∈ ks) then None else d !! k.
Proof.
  induction ks as [|k' ks IH]; cbn [remove_all foldr]; [by rewrite decide_False by apply not_elem_of_nil|].
  change (foldr delete d ks) with (remove_all ks d). destruct (decide (k = k')) as [->|Hne].
  - rewrite lookup_delete_eq, decide_True; [done|by left].
  - rewrite lookup_delete_ne, IH by done. destruct (decide (k ∈ ks)) as [Hin|Hin].
    + rewrite decide_True; [done|by right].
    + rewrite decide_False; [done|]. intros [?|?]%elem_of_cons; done.
Qed.

Section monotone.
Context (hash_order : list json -> list json).
Notation script := (CONDITIONAL_UPSERT_SCRIPT hash_order).

Lemma merge_union_lookup src u k :
  merge_union hash_order src u !! k =
  match u !! k with
  | None => src !! k
  | Some vs => Some (JArr (hash_order (remove_dups (current_list (src !! k) ++ vs))))
  end.
Proof. unfold merge_union. rewrite lookup_merge. destruct (src !! k), (u !! k); done. Qed.

(** What a script that writes leaves, and when it does not. *)
Lemma script_cases r d :
  match script r d with
  | s_write d' => ∃ fresh, fresher (d !! DOCUMENT_VERSION) (ur_version r) = Some fresh ∧
      d' = merge_union hash_order (if fresh then remove_all (ur_remove r) (withDocId r (ur_doc r) ∪ d) else d) (ur_union r)
  | s_noop => fresher (d !! DOCUMENT_VERSION) (ur_version r) = Some false ∧ union_adds d (ur_union r) = false
  | s_error => fresher (d !! DOCUMENT_VERSION) (ur_version r) = None
  end.
Proof.
  unfold CONDITIONAL_UPSERT_SCRIPT. destruct (fresher _ _) as [[|]|]; cbn [negb andb]; [by exists true| |done].
  destruct (union_adds d _) eqn:E; cbn [negb]; [by exists false|done].
Qed.

Lemma doc_version r : withDocId r (ur_doc r) !! DOCUMENT_VERSION = Some (JNum (ur_version r)).
Proof. unfold withDocId, ur_doc. by rewrite lookup_insert_ne, lookup_insert_eq by (vm_compute; discriminate). Qed.
Lemma initial_lookup r k :
  initialDocument r !! k =
  if decide (k = DOC_ID) then Some (JStr (ur_id r))
  else match ur_createOnly r !! k with
       | Some v => Some v
       | None => match ur_union r !! k with Some vs => Some (JArr vs) | None => ur_doc r !! k end
       end.
Proof.
  unfold initialDocument, withDocId, toArrays. destruct (decide _) as [->|Hne]; [by rewrite lookup_insert_eq|].
  rewrite lookup_insert_ne by done. rewrite !lookup_union, lookup_fmap.
  destruct (ur_createOnly r !! k), (ur_union r !! k), (ur_doc r !! k); done.
Qed.

Lemma fresh_version r d : wf_request r ->
  merge_union hash_order (remove_all (ur_remove r) (withDocId r (ur_doc r) ∪ d)) (ur_union r) !! DOCUMENT_VERSION
  = Some (JNum (ur_version r)).
Proof.
  intros [Hu _ Hr]. rewrite merge_union_lookup, Hu, remove_all_lookup, decide_False by done.
  rewrite lookup_union, doc_version. by destruct (d !! _).
Qed.

(** An update that was carried out, and is no script error, brings the document to its version. *)
Lemma reply_at_least r name o o' reply :
  wf_request r -> replied (update_of hash_order r name) o o' reply -> is_error reply = false -> at_least (ur_version r) o'.
Proof.
  intros Hwf Hr He. pose proof Hwf as [Hu Hc Hrm]. destruct reply as [| | |e]; [..|done]; cbn [replied] in Hr.
  - destruct Hr as (_ & _ & ->). exists (initialDocument r), (ur_version r). split; [done|]. split; [|lia].
    rewrite initial_lookup, decide_False by (vm_compute; discriminate). rewrite Hc, Hu.
    unfold ur_doc. by rewrite lookup_insert_eq.
  - destruct Hr as (d & d' & _ & Hs & ->). cbn [uc_script update_of] in Hs. pose proof (script_cases r d) as H.
    rewrite Hs in H. destruct H as ([|] & Hf & ->).
    + eexists _, (ur_version r). split; [done|]. split; [by apply fresh_version|lia].
    + destruct (d !! DOCUMENT_VERSION) as [[| |w| | | |]|] eqn:Ed; cbn [fresher] in Hf; try discriminate.
      injection Hf as Hf. bool_to_prop. eexists _, w. split; [done|]. split; [|lia]. by rewrite merge_union_lookup, Hu.
  - destruct Hr as (d & -> & Hs & ->). cbn [uc_script update_of] in Hs. pose proof (script_cases r d) as H.
    rewrite Hs in H. destruct H as [Hf _].
    destruct (d !! DOCUMENT_VERSION) as [[| |w| | | |]|] eqn:Ed; cbn [fresher] in Hf; try discriminate.
    injection Hf as Hf. bool_to_prop. exists d, w. split; [done|]. split; [done|lia].
Qed.

Lemma carried_out_keeps r name v o : wf_request r -> at_least v o -> at_least v (carried_out (update_of hash_order r name) o).
Proof.
  intros Hwf (d & w & -> & Hd & Hv). cbn [carried_out uc_script update_of].
  pose proof (script_cases r d) as H. destruct (script r d) as [d'| |]; [|by exists d, w..].
  destruct H as (fresh & Hf & ->). rewrite Hd in Hf. cbn [fresher] in Hf. injection Hf as <-.
  destruct (Z.ltb_spec w (ur_version r)).
  - eexists _, (ur_version r). split; [done|]. split; [by apply fresh_version|lia].
  - eexists _, w. split; [done|]. split; [|lia]. rewrite merge_union_lookup, (wf_union r Hwf). exact Hd.
Qed.
Lemma replied_keeps r name v o o' reply :
  wf_request r -> replied (update_of hash_order r name) o o' reply -> at_least v o -> at_least v o'.
Proof.
  intros Hwf Hr Hv. destruct reply as [| | |e]; cbn [replied] in Hr.
  - destruct Hr as (-> & _). by destruct Hv as (? & ? & ? & _).
  - destruct Hr as (d & d' & -> & Hs & ->).
    pose proof (carried_out_keeps r name v (Some d) Hwf Hv) as H. cbn [carried_out] in H. by rewrite Hs in H.
  - by destruct Hr as (d & _ & _ & ->).
  - destruct (document_missing e).
    + destruct Hr as (-> & _). by destruct Hv as (? & ? & ? & _).
    + destruct Hr as [->| ->]; [done|]. by apply carried_out_keeps.
Qed.
End monotone.

(** ** The order of deliveries does not matter *)

Section converge.
Context (hash_order : list json -> list json).
(** A [HashSet] gives its elements, in whatever order. *)
Hypothesis Horder : forall l x, x ∈ hash_order l <-> x ∈ l.

Definition wdoc (r : UpsertRequest) : Source := withDocId r (ur_doc r).
Definition step_doc (o : option Source) (r : UpsertRequest) : option Source := carried_out (update_of hash_order r []) o.
(** A document that did not exist, after requests were carried out. *)
Definition deliver (rs : list UpsertRequest) : option Source := foldl step_doc None rs.

(** Requests for one document: each of them sets or removes the same fields [K], unites the
    same fields [U] and creates with the same [c]; requests of one version set the same. *)
Record family (K U : gset jstr) (c : Source) (rs : list UpsertRequest) : Prop := {
  fam_keys r : r ∈ rs -> dom (wdoc r) ∪ list_to_set (ur_remove r) = K;
  fam_removed r k : r ∈ rs -> k ∈ ur_remove r -> wdoc r !! k = None;
  fam_union r : r ∈ rs -> dom (ur_union r) = U;
  fam_create r : r ∈ rs -> ur_createOnly r = c;
  fam_KU : K ## U; fam_Kc : K ## dom c; fam_Uc : U ## dom c;
  fam_version r r' : r ∈ rs -> r' ∈ rs -> ur_version r = ur_version r' -> wdoc r = wdoc r'
}.

Record delivered (K U : gset jstr) (c : Source) (rs : list UpsertRequest) (d : Source) (r : UpsertRequest) : Prop := {
  dl_in : r ∈ rs;
  dl_max r' : r' ∈ rs -> ur_version r' <= ur_version r;
  dl_state k : k ∈ K -> d !! k = wdoc r !! k;
  dl_union k : k ∈ U -> ∃ a, d !! k = Some (JArr a) ∧
    forall x, x ∈ a <-> ∃ r' vs, r' ∈ rs ∧ ur_union r' !! k = Some vs ∧ x ∈ vs;
  dl_create k : k ∉ K -> k ∉ U -> d !! k = c !! k
}.

Lemma family_sub K U c rs rs' : (forall r, r ∈ rs' -> r ∈ rs) -> family K U c rs -> family K U c rs'.
Proof. intros H []. split; eauto. Qed.
Lemma family_keys K U c rs r : family K U c rs -> r ∈ rs -> DOCUMENT_VERSION ∈ K ∧ DOC_ID ∈ K.
Proof.
  intros Hf Hr. pose proof (fam_keys _ _ _ _ Hf r Hr) as HK. split; rewrite <- HK; apply elem_of_union_l, elem_of_dom.
  - unfold wdoc. rewrite (doc_version r). by eexists.
  - unfold wdoc, withDocId. rewrite lookup_insert_eq. by eexists.
Qed.
Lemma family_outside K U c rs r k : family K U c rs -> r ∈ rs -> k ∉ K -> wdoc r !! k = None.
Proof.
  intros Hf Hr Hk. apply not_elem_of_dom. intros Hd. apply Hk. rewrite <- (fam_keys _ _ _ _ Hf r Hr). by apply elem_of_union_l.
Qed.
Lemma union_key K U c rs r k : family K U c rs -> r ∈ rs -> k ∈ U <-> is_Some (ur_union r !! k).
Proof. intros Hf Hr. rewrite <- (fam_union _ _ _ _ Hf r Hr). apply elem_of_dom. Qed.

Lemma deliver_first K U c r : family K U c [r] -> delivered K U c [r] (initialDocument r) r.
Proof.
  intros Hf. assert (r ∈ [r]) as Hr by by left. destruct (family_keys _ _ _ _ _ Hf Hr) as [HV HI].
  assert (forall k, k ∈ K -> ur_union r !! k = None ∧ c !! k = None) as HK.
  { intros k Hk. split.
    - apply eq_None_not_Some. intros H. apply (union_key _ _ _ _ _ _ Hf Hr) in H. by apply (fam_KU _ _ _ _ Hf k).
    - apply not_elem_of_dom. intros H. by apply (fam_Kc _ _ _ _ Hf k). }
  assert (forall k, k <> DOC_ID -> wdoc r !! k = ur_doc r !! k) as Hw.
  { intros k Hk. unfold wdoc, withDocId. by rewrite lookup_insert_ne. }
  split; [done|..].
  - intros r' ->%list_elem_of_singleton. lia.
  - intros k Hk. destruct (HK k Hk) as [Hu Hc]. rewrite initial_lookup, (fam_create _ _ _ _ Hf r Hr), Hu, Hc.
    destruct (decide (k = DOC_ID)) as [->|Hne]; [|by rewrite Hw].
    unfold wdoc, withDocId. by rewrite lookup_insert_eq.
  - intros k Hk. pose proof Hk as [vs Hvs]%(union_key _ _ _ _ _ _ Hf Hr). exists vs. rewrite initial_lookup, decide_False.
    2: { intros ->. by apply (fam_KU _ _ _ _ Hf DOC_ID). }
    rewrite (fam_create _ _ _ _ Hf r Hr), Hvs, (proj1 (not_elem_of_dom c k)).
    2: { intros H. by apply (fam_Uc _ _ _ _ Hf k). }
    split; [done|]. intros x. split; [intros Hx; exists r, vs; auto|]. intros (r' & ws & ->%list_elem_of_singleton & Hw' & Hx). congruence.
  - intros k Hk HU. rewrite initial_lookup, decide_False by congruence. rewrite (fam_create _ _ _ _ Hf r Hr).
    destruct (c !! k) eqn:Ec; [done|]. destruct (ur_union r !! k) eqn:Eu.
    + exfalso. apply HU, (union_key _ _ _ _ _ _ Hf Hr). by rewrite Eu.
    + rewrite <- Hw by congruence. by apply (family_outside _ _ _ _ _ _ Hf Hr).
Qed.

Lemma union_adds_spec d r :
  union_adds d (ur_union r) = false <->
  forall k vs x, ur_union r !! k = Some vs -> x ∈ vs -> x ∈ current_list (d !! k).
Proof.
  unfold union_adds. rewrite <- not_true_iff_false, existsb_elem. split.
  - intros Hn k vs x Hk Hx. apply dec_stable. intros Hc. apply Hn. exists (k, vs). split; [by apply elem_of_map_to_list|].
    apply existsb_elem. exists x. split; [done|]. by rewrite bool_decide_eq_false_2.
  - intros H ([k vs] & Hk%elem_of_map_to_list & (x & Hx & Hb)%existsb_elem). cbn [fst snd] in *.
    rewrite bool_decide_eq_true_2 in Hb; [done|]. by apply (H k vs).
Qed.

(** One more request, carried out on a document that has the earlier ones. *)
Lemma deliver_next K U c rs d m r :
  family K U c (rs ++ [r]) -> delivered K U c rs d m ->
  ∃ d' m', step_doc (Some d) r = Some d' ∧ delivered K U c (rs ++ [r]) d' m'.
Proof.
  intros Hf [Hin Hmax Hstate Hunion Hcreate].
  assert (r ∈ rs ++ [r]) as Hr by (apply elem_of_app; right; by left).
  assert (m ∈ rs ++ [r]) as Hm by (apply elem_of_app; by left).
  destruct (family_keys _ _ _ _ _ Hf Hr) as [HV _].
  assert (forall k a, k ∈ U -> d !! k = Some (JArr a) -> forall x, x ∈ a <->
    ∃ r' vs, r' ∈ rs ∧ ur_union r' !! k = Some vs ∧ x ∈ vs) as Ha.
  { intros k a Hk Hd. destruct (Hunion k Hk) as (a' & Ha' & H). rewrite Hd in Ha'. by injection Ha' as <-. }
  (* the fields of the union after [r], on a document that agrees with [d] there *)
  assert (forall e, (forall k, k ∈ U -> e !! k = d !! k) -> forall k, k ∈ U ->
    ∃ a, merge_union hash_order e (ur_union r) !! k = Some (JArr a) ∧
      forall x, x ∈ a <-> ∃ r' vs, r' ∈ rs ++ [r] ∧ ur_union r' !! k = Some vs ∧ x ∈ vs) as HU.
  { intros e He k Hk. pose proof Hk as [vs Hvs]%(union_key _ _ _ _ _ _ Hf Hr). rewrite merge_union_lookup, Hvs, (He k Hk).
    destruct (Hunion k Hk) as (a & Hd & Hx). rewrite Hd. cbn [current_list]. eexists. split; [done|]. intros x.
    rewrite Horder, elem_of_remove_dups, elem_of_app, Hx. split.
    - intros [(r' & ws & ? & ? & ?)|Hv]; [|by exists r, vs]. exists r', ws. split; [apply elem_of_app; by left|done].
    - intros (r' & ws & [Hin'| ->%list_elem_of_singleton]%elem_of_app & Hw & Hx'); [left; eauto|right; congruence]. }
  assert (forall e k, k ∉ U -> merge_union hash_order e (ur_union r) !! k = e !! k) as Hrest.
  { intros e k Hk. rewrite merge_union_lookup. destruct (ur_union r !! k) eqn:E; [|done]. exfalso.
    apply Hk, (union_key _ _ _ _ _ _ Hf Hr). by rewrite E. }
  assert (forall k, k ∈ K -> k ∉ U) as HKU by (intros k Hk HkU; by apply (fam_KU _ _ _ _ Hf k)).
  cbn [step_doc carried_out uc_script update_of]. pose proof (script_cases hash_order r d) as Hs.
  rewrite (Hstate _ HV) in Hs. unfold wdoc in Hs. rewrite doc_version in Hs. cbn [fresher] in Hs.
  unfold step_doc. cbn [carried_out uc_script update_of].
  destruct (CONDITIONAL_UPSERT_SCRIPT hash_order r d) as [d'| |]; [| |done].
  - destruct Hs as (fresh & [= <-] & ->). destruct (Z.ltb_spec (ur_version m) (ur_version r)) as [Hlt|Hle].
    + eexists _, r. split; [done|]. split; [done|..].
      * intros r' [H| ->%list_elem_of_singleton]%elem_of_app; [|lia]. apply Hmax in H. lia.
      * intros k Hk. rewrite Hrest by auto. rewrite remove_all_lookup. destruct (decide (k ∈ ur_remove r)) as [Hkr|Hkr].
        -- symmetry. by apply (fam_removed _ _ _ _ Hf r k).
        -- fold (wdoc r). rewrite lookup_union_l'; [done|]. apply elem_of_dom.
           rewrite <- (fam_keys _ _ _ _ Hf r Hr) in Hk. apply elem_of_union in Hk as [?|?%elem_of_list_to_set]; done.
      * apply HU. intros k Hk. rewrite remove_all_lookup. fold (wdoc r).
        assert (k ∉ K) as HkK by (intros H; by apply (HKU k)). rewrite decide_False.
        2: { intros H. apply HkK. rewrite <- (fam_keys _ _ _ _ Hf r Hr). by apply elem_of_union_r, elem_of_list_to_set. }
        rewrite lookup_union_r; [done|]. by apply (family_outside _ _ _ _ _ _ Hf Hr).
      * intros k HkK HkU. rewrite Hrest by done. rewrite remove_all_lookup. fold (wdoc r). rewrite decide_False.
        2: { intros H. apply HkK. rewrite <- (fam_keys _ _ _ _ Hf r Hr). by apply elem_of_union_r, elem_of_list_to_set. }
        rewrite lookup_union_r; [by apply Hcreate|]. by apply (family_outside _ _ _ _ _ _ Hf Hr).
    + eexists _, m. split; [done|]. split; [done|..].
      * intros r' [H| ->%list_elem_of_singleton]%elem_of_app; [by apply Hmax|lia].
      * intros k Hk. rewrite Hrest by auto. by apply Hstate.
      * by apply HU.
      * intros k HkK HkU. rewrite Hrest by done. by apply Hcreate.
  - destruct Hs as [[= Hle] Hadds]. bool_to_prop. rewrite union_adds_spec in Hadds.
    exists d, m. split; [done|]. split; [done|..].
    + intros r' [H| ->%list_elem_of_singleton]%elem_of_app; [by apply Hmax|lia].
    + done.
    + intros k Hk. destruct (Hunion k Hk) as (a & Hd & Hx). exists a. split; [done|]. intros x. rewrite Hx. split.
      * intros (r' & vs & ? & ? & ?). exists r', vs. split; [apply elem_of_app; by left|done].
      * intros (r' & vs & [?| ->%list_elem_of_singleton]%elem_of_app & Hv & Hxv); [by exists r', vs|].
        apply Hx. specialize (Hadds k vs x Hv Hxv). by rewrite Hd in Hadds.
    + done.
Qed.

Lemma deliver_spec K U c rs : rs <> [] -> family K U c rs -> ∃ d m, deliver rs = Some d ∧ delivered K U c rs d m.
Proof.
  induction rs as [|r rs IH] using rev_ind; [done|]. intros _ Hf. unfold deliver. rewrite foldl_snoc.
  destruct (decide (rs = [])) as [->|Hne].
  - exists (initialDocument r), r. split; [done|]. by apply deliver_first.
  - destruct IH as (d & m & Hd & Hok); [done|by eapply family_sub; [|exact Hf]; intros; apply elem_of_app; left|].
    unfold deliver in Hd. rewrite Hd. by apply (deliver_next _ _ _ _ _ m).
Qed.

(** The same document, but for the order of the elements of the fields [U]. *)
Definition same_document (U : gset jstr) (d d' : Source) : Prop :=
  forall k, (k ∉ U -> d !! k = d' !! k) ∧
    (k ∈ U -> ∃ a a', d !! k = Some (JArr a) ∧ d' !! k = Some (JArr a') ∧ forall x, x ∈ a <-> x ∈ a').

Lemma delivered_unique K U c rs rs' d d' m m' :
  family K U c rs -> (forall r, r ∈ rs <-> r ∈ rs') ->
  delivered K U c rs d m -> delivered K U c rs' d' m' -> same_document U d d'.
Proof.
  intros Hf He [A1 A2 A3 A4 A5] [B1 B2 B3 B4 B5] k.
  assert (wdoc m = wdoc m') as Hw.
  { apply (fam_version _ _ _ _ Hf); [done|by apply He|].
    pose proof (A2 m' (proj2 (He m') B1)). pose proof (B2 m (proj1 (He m) A1)). lia. }
  split.
  - intros HU. destruct (decide (k ∈ K)) as [HK|HK]; [rewrite A3, B3 by done; by rewrite Hw|by rewrite A5, B5].
  - intros HU. destruct (A4 k HU) as (a & Ha & Hx). destruct (B4 k HU) as (a' & Ha' & Hx'). exists a, a'.
    split; [done|]. split; [done|]. intros x. rewrite Hx, Hx'. by setoid_rewrite He.
Qed.
End converge.

(** ** What the sent requests leave *)

Section sent.
Context (hash_order : list json -> list json) {S : Type} `{DocServer S} (Hlaws : DocLaws S).
Notation call := (update_of hash_order).

(** The document of a request has at least its version. *)
Definition written (s : S) (name : jstr) (r : UpsertRequest) : Prop := at_least (ur_version r) (doc_named s name (ur_key r)).

(** Names stay, and no document goes back. *)
Record grows (s s' : S) : Prop := {
  gr_index n : es_index s' n = es_index s n;
  gr_keep i k v : at_least v (es_doc s i k) -> at_least v (es_doc s' i k)
}.
#[local] Instance grows_preorder : PreOrder grows.
Proof.
  split; [by split|]. intros a b c [A1 A2] [B1 B2]. split; [intros n; by rewrite B1, A1|auto].
Qed.
Lemma written_grows s s' name r : grows s s' -> written s name r -> written s' name r.
Proof. intros [Hi Hk] Hw. unfold written, doc_named. rewrite Hi. by apply Hk. Qed.

Lemma update_grows r name s s' reply : wf_request r -> updates (call r name) s s' reply -> grows s s'.
Proof.
  intros Hwf [Hi Ho Hr]. split; [done|]. intros i k v Hv.
  destruct (decide ((i, k) = (es_index s name, ur_key r))) as [[= -> ->]|Hne].
  - unfold doc_named in Hr. rewrite Hi in Hr. cbn [uc_name uc_key update_of] in Hr.
    by eapply replied_keeps.
  - by rewrite Ho.
Qed.
Lemma update_written r name s s' reply :
  wf_request r -> updates (call r name) s s' reply -> is_error reply = false -> written s' name r.
Proof. intros Hwf [Hi Ho Hr] He. by eapply reply_at_least. Qed.

Notation calls l := (map (fun p => call (fst p) (snd p)) l).
Lemma updates_all_grows l : forall s s' rs, Forall wf_request (map fst l) -> updates_all (calls l) s s' rs -> grows s s'.
Proof.
  induction l as [|[r n] l IH]; intros s s' rs Hwf Hu; inversion Hu; subst; [done|].
  apply Forall_cons_1 in Hwf as [Hr Hwf]. transitivity s1; [by eapply update_grows|by eapply IH].
Qed.
Lemma updates_all_written l : forall s s' rs, Forall wf_request (map fst l) -> updates_all (calls l) s s' rs ->
  forall i r n reply, l !! i = Some (r, n) -> rs !! i = Some reply -> is_error reply = false -> written s' n r.
Proof.
  induction l as [|[r n] l IH]; intros s s' rs Hwf Hu i r' n' reply Hl Hr He; [by rewrite lookup_nil in Hl|].
  inversion Hu; subst. apply Forall_cons_1 in Hwf as [Hwr Hwf]. destruct i as [|i]; cbn in Hl, Hr.
  - injection Hl as <- <-. injection Hr as <-. apply (written_grows s1); [by eapply updates_all_grows|by eapply update_written].
  - by eapply IH.
Qed.

Lemma bodies_ok l cs : bodies hash_order l = Ok cs -> cs = calls l.
Proof.
  revert cs. induction l as [|[r n] l IH]; intros cs; cbn [bodies map]; [by intros [= <-]|].
  unfold scriptBody. destruct (assertNoRelationUnion r) as [[]|]; cbn [mbind result_bind]; [|done].
  destruct (bodies hash_order l) as [cs'|]; cbn [mbind result_bind]; [|done]. intros [= <-]. by rewrite (IH cs').
Qed.

Lemma items_of_lookup {A} (f : A -> option UpdateReply -> BulkItemOutcome) l : forall rs i x,
  l !! i = Some x -> items_of f l rs !! i = Some (f x (rs !! i)).
Proof.
  induction l as [|y l IH]; intros rs i x Hl; [by rewrite lookup_nil in Hl|].
  destruct i as [|i]; cbn in Hl; destruct rs as [|r rs]; cbn [items_of lookup list_lookup].
  - by injection Hl as ->.
  - by injection Hl as ->.
  - pose proof (IH [] i x Hl) as H0. by rewrite lookup_nil in H0.
  - by apply IH.
Qed.
Lemma items_of_length {A} (f : A -> option UpdateReply -> BulkItemOutcome) l : forall rs, length (items_of f l rs) = length l.
Proof. induction l as [|y l IH]; intros [|r rs]; cbn [items_of length]; [done..|by rewrite IH|by rewrite IH]. Qed.
Lemma item_outcome_request r reply : outcome_request (item_outcome r reply) = r.
Proof. by destruct reply as [[]|]. Qed.
Lemma items_requests l : forall rs, map outcome_request (items_of item_outcome l rs) = l.
Proof. induction l as [|r l IH]; intros [|x rs]; cbn [items_of map]; [done..| |]; by rewrite item_outcome_request, IH. Qed.
Lemma item_ok r reply : is_ok_outcome (item_outcome r reply) = true -> ∃ x, reply = Some x ∧ is_error x = false.
Proof. destruct reply as [[]|]; [by eexists..|done|done]. Qed.

Lemma planned_wf t rs :
  Forall wf_request rs -> Forall wf_request (map fst (map (fun r => (r, alias_name (ur_alias r))) rs ++ shadow_plan t rs)).
Proof.
  intros Hwf. rewrite map_app. apply Forall_app. split; [by rewrite map_map, map_id|].
  apply Forall_forall. intros r (p & -> & Hp)%list_elem_of_fmap. unfold shadow_plan in Hp.
  apply list_elem_of_omap in Hp as (r' & Hr' & Hp). destruct (shadowIndexOf _ _); [|discriminate]. injection Hp as <-.
  by apply (proj1 (Forall_forall _ _) Hwf).
Qed.
(** Also a bulk request that fails takes nothing back. *)
Lemma bulk_grows rs t s : Forall wf_request rs -> grows s (bulkUpsert hash_order rs t s).1.
Proof.
  intros Hwf. unfold bulkUpsert. destruct rs as [|r0 rs0] eqn:Ers; [by split|]. rewrite <- Ers in *. clear Ers.
  pose proof (planned_wf t rs Hwf) as Hwf'. set (l := map _ rs ++ shadow_plan t rs) in *.
  destruct (bodies hash_order l) as [cs|m] eqn:Ec; [|by split]. apply bodies_ok in Ec as ->.
  destruct (law_bulk (DocLaws := Hlaws) (calls l) s) as (replies & Hu & _).
  destruct (es_bulk _ s) as [s1 [reported|e]]; cbn [fst] in *; by eapply updates_all_grows.
Qed.
Lemma bulk_spec rs t s s' os fs :
  Forall wf_request rs -> bulkUpsert hash_order rs t s = (s', Ok (os, fs)) ->
  grows s s' ∧ map outcome_request os = rs ∧
  (forall o, o ∈ os -> is_ok_outcome o = true -> written s' (alias_name (ur_alias (outcome_request o))) (outcome_request o)) ∧
  (forall p, p ∈ shadow_plan t rs -> written s' p.2 p.1 \/
     ∃ f, f ∈ fs ∧ sf_index f = p.2 ∧ sf_alias f = alias_name (ur_alias p.1)).
Proof.
  intros Hwf Hb. unfold bulkUpsert in Hb. destruct rs as [|r0 rs0] eqn:Ers.
  { injection Hb as -> <- <-. split_and!; [done|done|..]; intros x Hx; by apply elem_of_nil in Hx. }
  rewrite <- Ers in *. clear Ers. set (plan := shadow_plan t rs) in *. set (served := map _ rs) in Hb.
  destruct (bodies hash_order (served ++ plan)) as [cs|m] eqn:Ec; [|discriminate]. apply bodies_ok in Ec as ->.
  destruct (law_bulk (DocLaws := Hlaws) (calls (served ++ plan)) s) as (replies & Hu & Hrep).
  destruct (es_bulk _ s) as [s1 [reported|e]] eqn:Eb; [|discriminate]. injection Hb as -> <- <-. cbn [fst snd] in Hu, Hrep.
  destruct Hrep as [k ->].
  pose proof (planned_wf t rs Hwf) as Hwf'. change (map _ rs ++ shadow_plan t rs) with (served ++ plan) in Hwf'.
  pose proof (updates_all_grows _ _ _ _ Hwf' Hu) as Hg.
  pose proof (updates_all_written _ _ _ _ Hwf' Hu) as Hw.
  assert (forall i r n reply, (served ++ plan) !! i = Some (r, n) -> take k replies !! i = Some reply ->
    is_error reply = false -> written s' n r) as Hwk.
  { intros i r n reply Hi Hr He. apply (Hw i r n reply Hi); [|done]. apply lookup_take_Some in Hr. tauto. }
  split_and!; [done|apply items_requests|..].
  - intros o [i Hi]%list_elem_of_lookup Hok. pose proof Hi as Hlt%lookup_lt_Some. rewrite items_of_length in Hlt.
    destruct (lookup_lt_is_Some_2 rs i Hlt) as [r Hr]. rewrite (items_of_lookup _ _ _ _ _ Hr) in Hi. injection Hi as <-.
    apply item_ok in Hok as (x & Hx & He). rewrite item_outcome_request. apply (Hwk i r _ x); [|done|done].
    rewrite lookup_app_l by (unfold served; by rewrite length_map). unfold served. by rewrite list_lookup_fmap, Hr.
  - intros p [i Hi]%list_elem_of_lookup. destruct p as [r n]. cbn [fst snd].
    pose proof (items_of_lookup (fun p => item_outcome p.1) _ (drop (length rs) (take k replies)) _ _ Hi) as Hio.
    rewrite lookup_drop in Hio. cbn [fst] in Hio. destruct (is_ok_outcome (item_outcome r (take k replies !! (length rs + i)%nat))) eqn:Eok.
    + left. apply item_ok in Eok as (x & Hx & He). apply (Hwk (length rs + i)%nat r n x); [|done|done].
      rewrite lookup_app_r by (unfold served; rewrite length_map; lia). unfold served. rewrite length_map.
      by replace (length rs + i - length rs)%nat with i by lia.
    + right. destruct (item_outcome r _) as [|c r' status reason] eqn:Eo; [done|].
      set (f := mkShadowFailure (alias_name (ur_alias r)) n (js "bulk") reason). exists f. split; [|done].
      apply list_elem_of_In, in_concat. exists [f]. split; [apply list_elem_of_In|by left].
      apply (list_elem_of_lookup_2 _ i). rewrite lookup_zip_with, Hi. cbn [mbind option_bind]. by rewrite Hio.
Qed.

Lemma send_spec r name s s' o :
  wf_request r -> sendOne hash_order r name s = (s', o) ->
  grows s s' ∧ outcome_request o = r ∧ (is_ok_outcome o = true -> written s' name r).
Proof.
  intros Hwf Hs. unfold sendOne, scriptBody in Hs. destruct (assertNoRelationUnion r) as [[]|m]; cbn [mbind result_bind] in Hs.
  - pose proof (law_update (DocLaws := Hlaws) (call r name) s) as Hu. destruct (es_update (call r name) s) as [s1 reply].
    injection Hs as <- <-. cbn [fst snd] in Hu. split; [by eapply update_grows|].
    split; [apply (item_outcome_request r (Some reply))|]. intros Hok.
    apply (item_ok r (Some reply)) in Hok as (x & [= <-] & He). by eapply update_written.
  - by injection Hs as <- <-.
Qed.

Definition covered (s : S) (t : WriteTargets) (fs : list ShadowWriteFailure) (r : UpsertRequest) : Prop :=
  forall i, shadowIndexOf t (alias_name (ur_alias r)) = Some i ->
    written s i r \/ ∃ f, f ∈ fs ∧ sf_index f = i ∧ sf_alias f = alias_name (ur_alias r).
Definition served (s : S) (o : BulkItemOutcome) : Prop :=
  is_ok_outcome o = true -> written s (alias_name (ur_alias (outcome_request o))) (outcome_request o).

Lemma upsertOne_spec t r s s' o fs :
  wf_request r -> upsertOne hash_order t r s = (s', (o, fs)) ->
  grows s s' ∧ outcome_request o = r ∧ served s' o.
Proof.
  intros Hwf Hs. unfold upsertOne in Hs. destruct (sendOne hash_order r _ s) as [s1 o1] eqn:E1.
  destruct (send_spec _ _ _ _ _ Hwf E1) as (Hg & Hr & Hw). destruct (shadowIndexOf t _) as [i|].
  - destruct (sendOne hash_order r i s1) as [s2 o2] eqn:E2. injection Hs as <- <- _.
    destruct (send_spec _ _ _ _ _ Hwf E2) as (Hg2 & _). split; [by transitivity s1|]. split; [done|].
    intros Hok. rewrite Hr. by eapply written_grows, Hw.
  - injection Hs as <- <- _. split; [done|]. split; [done|]. intros Hok. rewrite Hr. by apply Hw.
Qed.

Lemma retry_pass_spec t os : forall s s' os' fs,
  Forall wf_request (map outcome_request os) -> Forall (served s) os -> retry_pass hash_order t os s = (s', (os', fs)) ->
  grows s s' ∧ map outcome_request os' = map outcome_request os ∧ Forall (served s') os'.
Proof.
  induction os as [|o os IH]; intros s s' os' fs Hwf Hsv Hp; cbn [retry_pass] in Hp.
  { injection Hp as <- <- _. split_and!; [done|done|constructor]. }
  cbn [map] in Hwf. apply Forall_cons_1 in Hwf as [Hw Hwf]. apply Forall_cons_1 in Hsv as [Hs Hsv].
  assert (forall s1, grows s s1 -> Forall (served s1) os) as Hsv1.
  { intros s1 Hg. eapply Forall_impl; [exact Hsv|]. intros x Hx Hok. eapply written_grows; [exact Hg|by apply Hx]. }
  assert (forall s1 s2 o', outcome_request o' = outcome_request o -> served s1 o' -> grows s1 s2 -> served s2 o') as Hkeep.
  { intros s1 s2 o' _ H0 Hg Hok. eapply written_grows; [exact Hg|by apply H0]. }
  destruct (is_retryable o).
  - destruct (upsertOne hash_order t _ s) as [s1 [o1 fs1]] eqn:E1. destruct (upsertOne_spec _ _ _ _ _ _ Hw E1) as (Hg1 & Hr1 & Hs1).
    destruct (retry_pass hash_order t os s1) as [s2 [os2 fs2]] eqn:E2. injection Hp as <- <- _.
    destruct (IH _ _ _ _ Hwf (Hsv1 _ Hg1) E2) as (Hg2 & Hr2 & Hs2). split; [by transitivity s1|].
    cbn [map]. rewrite Hr1, Hr2. split; [done|]. constructor; [by eapply Hkeep|done].
  - destruct (retry_pass hash_order t os s) as [s2 [os2 fs2]] eqn:E2. injection Hp as <- <- _.
    destruct (IH _ _ _ _ Hwf Hsv E2) as (Hg2 & Hr2 & Hs2). split; [done|]. cbn [map]. rewrite Hr2. split; [done|].
    constructor; [by eapply Hkeep|done].
Qed.

Lemma retry_spec t os s s' os' fs :
  Forall wf_request (map outcome_request os) -> Forall (served s) os ->
  retryFailedItems hash_order os t s = (s', (os', fs)) ->
  grows s s' ∧ map outcome_request os' = map outcome_request os ∧ Forall (served s') os'.
Proof.
  unfold retryFailedItems. generalize MAX_ITEM_RETRIES as n. intros n. revert s os fs. induction n as [|n IH]; intros s os fs Hwf Hsv Hp; cbn [retry_passes] in Hp.
  { by injection Hp as <- <- _. }
  destruct (existsb is_retryable os); [|by injection Hp as <- <- _].
  destruct (retry_pass hash_order t os s) as [s1 [os1 fs1]] eqn:E1.
  destruct (retry_pass_spec _ _ _ _ _ _ Hwf Hsv E1) as (Hg1 & Hr1 & Hs1).
  destruct (retry_passes hash_order n t os1 s1) as [s2 [os2 fs2]] eqn:E2. injection Hp as <- <- _.
  rewrite <- Hr1 in Hwf. destruct (IH _ _ _ Hwf Hs1 E2) as (Hg2 & Hr2 & Hs2).
  split; [by transitivity s1|]. by rewrite Hr2, Hr1.
Qed.
End sent.

(** ** A server *)

Record ModelIndex : Type := mkModelIndex { mi_alias : gmap jstr jstr; mi_docs : gmap (jstr * DocKey) Source }.
Definition model_name (m : ModelIndex) (n : jstr) : jstr := default n (mi_alias m !! n).
Definition put_doc (p : jstr * DocKey) (d : Source) (m : ModelIndex) : ModelIndex :=
  mkModelIndex (mi_alias m) (<[p := d]> (mi_docs m)).
Definition MISSING : EsError := mkEsError (Some 404) (Some (js "document_missing_exception")) None.
Definition SCRIPT_FAILED : EsError := mkEsError (Some 400) (Some (js "script_exception")) None.
Definition model_update (c : UpdateCall) (m : ModelIndex) : ModelIndex * UpdateReply :=
  let p := (model_name m (uc_name c), uc_key c) in
  match mi_docs m !! p with
  | None => match uc_upsert c with Some u => (put_doc p u m, re_created) | None => (m, re_error MISSING) end
  | Some d =>
    match uc_script c d with
    | s_write d' => (put_doc p d' m, re_updated) | s_noop => (m, re_noop) | s_error => (m, re_error SCRIPT_FAILED)
    end
  end.
Fixpoint model_bulk (cs : list UpdateCall) (m : ModelIndex) : ModelIndex * list UpdateReply :=
  match cs with
  | [] => (m, [])
  | c :: cs => let '(m, r) := model_update c m in let '(m, rs) := model_bulk cs m in (m, r :: rs)
  end.
#[export] Instance model_index : DocServer ModelIndex := {
  es_index := model_name;
  es_doc := fun m i k => mi_docs m !! (i, k);
  es_update := model_update;
  es_bulk := fun cs m => let '(m, rs) := model_bulk cs m in (m, Ok rs);
  es_get := fun n k m => Ok (mi_docs m !! (model_name m n, k))
}.

Lemma model_updates c m : updates c m (model_update c m).1 (model_update c m).2.
Proof.
  unfold model_update. split; cbn [es_index model_index].
  - intros n. destruct (mi_docs m !! _); [by destruct (uc_script c _)|by destruct (uc_upsert c)].
  - intros i k Hne. cbn [es_doc model_index].
    destruct (mi_docs m !! _); [destruct (uc_script c _)|destruct (uc_upsert c)]; cbn [fst put_doc mi_docs]; try done;
      by rewrite lookup_insert_ne.
  - unfold doc_named. cbn [es_doc es_index model_index]. set (p := (model_name m (uc_name c), uc_key c)).
    assert (forall d, model_name (put_doc p d m) (uc_name c) = model_name m (uc_name c)) as Hn by done.
    destruct (mi_docs m !! p) as [d|] eqn:Ed.
    + destruct (uc_script c d) as [d'| |] eqn:Es; cbn [fst snd replied].
      * exists d, d'. rewrite Hn. fold p. cbn [put_doc mi_docs]. by rewrite lookup_insert_eq.
      * exists d. by fold p.
      * change (document_missing SCRIPT_FAILED) with false. cbv iota. fold p. rewrite Ed. by left.
    + destruct (uc_upsert c) as [u|] eqn:Eu; cbn [fst snd replied].
      * rewrite Hn. fold p. cbn [put_doc mi_docs]. rewrite lookup_insert_eq, Eu. by split_and!; eauto.
      * change (document_missing MISSING) with true. cbv iota. fold p. by rewrite Ed.
Qed.
Lemma model_laws : DocLaws ModelIndex.
Proof.
  split; [exact model_updates| |].
  - intros cs m. cbn [es_bulk model_index]. assert (updates_all cs m (model_bulk cs m).1 (model_bulk cs m).2) as H.
    { revert m. induction cs as [|c cs IH]; intros m; cbn [model_bulk]; [constructor|].
      pose proof (model_updates c m) as Hu. destruct (model_update c m) as [m1 r]. specialize (IH m1).
      destruct (model_bulk cs m1) as [m2 rs]. by econstructor. }
    destruct (model_bulk cs m) as [m' rs]. exists rs. split; [exact H|]. exists (length rs). by rewrite firstn_all.
  - intros n k m o [= <-]. done.
Qed.

(** ** Theorems *)

(** What a projected event sends. *)
Definition index_documents (hash_order : list json -> list json) {S} `{DocServer S} (rs : list UpsertRequest) (t : WriteTargets) (s : S)
  : S * result UpsertThrow (list BulkItemOutcome * list ShadowWriteFailure) :=
  match bulkUpsert hash_order rs t s with
  | (s, Err e) => (s, Err e)
  | (s, Ok (first, fs)) => let '(s, (os, fs')) := retryFailedItems hash_order first t s in (s, Ok (os, fs ++ fs'))
  end.

Lemma index_documents_spec hash_order {S} `{DocServer S} (Hlaws : DocLaws S) rs t (s s' : S) os fs :
  Forall wf_request rs -> index_documents hash_order rs t s = (s', Ok (os, fs)) ->
  grows s s' ∧ map outcome_request os = rs ∧
  (forall r res, bo_ok r res ∈ os -> written s' (alias_name (ur_alias r)) r) ∧
  (forall r i, r ∈ rs -> shadowIndexOf t (alias_name (ur_alias r)) = Some i ->
     written s' i r \/ ∃ f, f ∈ fs ∧ sf_index f = i ∧ sf_alias f = alias_name (ur_alias r)).
Proof.
  intros Hwf Hi. unfold index_documents in Hi. destruct (bulkUpsert hash_order rs t s) as [s1 [[first fs1]|e]] eqn:E1; [|discriminate].
  destruct (bulk_spec hash_order Hlaws _ _ _ _ _ _ Hwf E1) as (Hg1 & Hr1 & Hs1 & Hp1).
  destruct (retryFailedItems hash_order first t s1) as [s2 [os2 fs2]] eqn:E2. injection Hi as <- <- <-.
  destruct (retry_spec hash_order Hlaws t first s1 s2 os2 fs2) as (Hg2 & Hr2 & Hs2); [by rewrite Hr1| |done|].
  { apply Forall_forall. intros o Ho Hok. by apply Hs1. }
  split_and!; [by destruct Hg1, Hg2; split; [intros n; congruence|auto]|congruence|..].
  - intros r res Hin. apply (proj1 (Forall_forall _ _) Hs2 _ Hin). done.
  - intros r i Hr Hsh. destruct (Hp1 (r, i)) as [Hw|(f & Hf & ? & ?)].
    + apply list_elem_of_omap. exists r. by rewrite Hsh.
    + left. by eapply written_grows.
    + right. exists f. split; [by apply elem_of_app; left|done].
Qed.


(** [C30] When an item is reported as indexed, the serving document has its version or a newer one,
    and while an index is being built its copy has it too, or a failure of that index is
    recorded; no document of any index ever goes back to an older version. *)
Theorem indexed_documents_kept hash_order {S} `{DocServer S} (Hlaws : DocLaws S) rs t (s s' : S) os fs :
  Forall wf_request rs -> index_documents hash_order rs t s = (s', Ok (os, fs)) ->
  grows s s' ∧ map outcome_request os = rs ∧
  (forall r res, bo_ok r res ∈ os -> written s' (alias_name (ur_alias r)) r) ∧
  (forall r i, r ∈ rs -> shadowIndexOf t (alias_name (ur_alias r)) = Some i ->
     written s' i r \/ ∃ f, f ∈ fs ∧ sf_index f = i ∧ sf_alias f = alias_name (ur_alias r)).
Proof. by apply index_documents_spec. Qed.

(** ** Two events of one pull request *)

Definition sample_event (version : Z) (title : string) : UpsertRequest :=
  mkUpsert prs_pull_requests (js "7:70") (js "7") version {[js "title" := JStr (js title)]} ∅
    {[js "links_pending" := JBool true]} [].
Lemma sample_family : family {[DOCUMENT_VERSION; DOC_ID; js "title"]} ∅ {[js "links_pending" := JBool true]}
  [sample_event 1 "Draft"; sample_event 2 "Fix"].
Proof.
  assert (forall P : UpsertRequest -> Prop, P (sample_event 1 "Draft") -> P (sample_event 2 "Fix") ->
    forall r, r ∈ [sample_event 1 "Draft"; sample_event 2 "Fix"] -> P r) as Hall.
  { intros P H1 H2 r Hr. apply elem_of_cons in Hr as [->|Hr]; [exact H1|]. apply list_elem_of_singleton in Hr as ->. exact H2. }
  split.
  - apply Hall; vm_compute; reflexivity.
  - intros r k Hr. revert k. revert r Hr. refine (Hall (fun r => forall k, k ∈ ur_remove r -> wdoc r !! k = None) _ _);
      intros k Hk; by apply elem_of_nil in Hk.
  - apply Hall; vm_compute; reflexivity.
  - apply Hall; reflexivity.
  - apply disjoint_empty_r.
  - apply (bool_decide_unpack _). vm_compute. exact I.
  - apply disjoint_empty_l.
  - intros r r' Hr Hr'. revert r' Hr'. revert r Hr.
    refine (Hall (fun r => forall r', r' ∈ _ -> ur_version r = ur_version r' -> wdoc r = wdoc r') _ _);
      refine (Hall (fun r' => ur_version _ = ur_version r' -> wdoc _ = wdoc r') _ _); (discriminate || reflexivity).
Qed.

Definition SHADOWED : WriteTargets := mkTargets {[js "prs-pull-requests" := js "prs-pull-requests-v2"]}.
Definition sample_index : ModelIndex := mkModelIndex {[js "prs-pull-requests" := js "prs-pull-requests-v1"]} ∅.
Lemma sample_event_wf v t : wf_request (sample_event v t).
Proof. split; [done|reflexivity|apply not_elem_of_nil]. Qed.
Lemma indexed_documents_kept_witness :
  let '(s', r) := index_documents id [sample_event 1 "Draft"] SHADOWED sample_index in
  r = Ok ([bo_ok (sample_event 1 "Draft") (js "created")], []) ∧
  written s' (js "prs-pull-requests") (sample_event 1 "Draft") ∧ written s' (js "prs-pull-requests-v2") (sample_event 1 "Draft").
Proof.
  destruct (index_documents id [sample_event 1 "Draft"] SHADOWED sample_index) as [s' r] eqn:E.
  assert (r = Ok ([bo_ok (sample_event 1 "Draft") (js "created")], [])) as ->.
  { pose proof (f_equal snd E) as H. cbn [snd] in H. rewrite <- H. vm_compute. reflexivity. }
  destruct (indexed_documents_kept id model_laws [sample_event 1 "Draft"] SHADOWED sample_index s' _ _
    (Forall_cons_2 _ _ _ (sample_event_wf 1 "Draft") (Forall_nil_2 _)) E) as (_ & _ & Hok & Hsh).
  split; [reflexivity|]. split; [exact (Hok (sample_event 1 "Draft") (js "created") (list_elem_of_here _ _))|].
  destruct (Hsh (sample_event 1 "Draft") (js "prs-pull-requests-v2") (list_elem_of_here _ _) eq_refl) as [H|(f & Hf & _)]; [exact H|].
  by apply elem_of_nil in Hf.
Defined.
