(* ===== verification/EsProjection.v ===== *)
(** * Projections into documents

    The fields that their own modules write into the documents of the index:
    [packages/es/src/commit-links.ts] (the pull requests of a commit), [merge-number.ts] (the M
    number), [commit-metadata.ts] (the facts of git) and [sequence-projection.ts] (the number in
    the sequence).  Each script is a function on documents; around it the guards read before the
    write and the outcome the caller gets. *)

From stdpp Require Import base option strings numbers gmap sorting list.
From Stdlib Require Import ZArith Lia.
From S2P Require Import Prelude JsString Json QueryBuilder EsDocument.
Open Scope Z_scope.

Definition COMMIT_ALIAS : jstr := js "prs-commits".
Definition PR_ALIAS : jstr := js "prs-pull-requests".
(** [commitDocId], [pullRequestDocId] of the domain. *)
Definition commitDocId (repositoryId : Z) (commitSha : jstr) : jstr := js_of_Z repositoryId ++ js ":" ++ ascii_lower commitSha.
Definition pullRequestDocId (repositoryId prNumber : Z) : jstr := js_of_Z repositoryId ++ js ":" ++ js_of_Z prNumber.

Definition json_num (v : json) : option Z := match v with JNum n => Some n | _ => None end.
Definition or_null (v : option Z) : json := match v with Some n => JNum n | None => JNull end.
Definition text_or_null (v : option jstr) : json := match v with Some s => JStr s | None => JNull end.
Definition jdec (a b : json) : bool := bool_decide (a = b).

(** [cur != null && cur > params.x]; [None] when the comparison throws. *)
Definition newer (cur : json) (n : Z) : option bool :=
  match cur with JNull => Some false | JNum m => Some (n <? m) | _ => None end.

Section send.
Context {S : Type} `{DocServer S}.

(** An update without a document to create; the result of the response, or an exception. *)
Definition send_script (script : Script) (key : DocKey) (name : jstr) (s : S) : S * result EsError UpdateReply :=
  match es_update (mkUpdate name key script None) s with
  | (s, re_error e) => (s, Err e)
  | (s, r) => (s, Ok r)
  end.
Definition is_noop (r : UpdateReply) : bool := match r with re_noop => true | _ => false end.
(** [client.get] where 404 means that there is no document. *)
Definition get_source (name : jstr) (key : DocKey) (s : S) : result EsError (option Source) :=
  match es_get name key s with
  | Ok o => Ok o
  | Err e => if bool_decide (ee_status e = Some 404) then Ok None else Err e
  end.
End send.

(** ** The pull requests of a commit *)

Module CommitLinks.

Inductive CommitLinkState : Set := verified | partial.
Definition state_text (s : CommitLinkState) : jstr := match s with verified => js "verified" | partial => js "partial" end.
Record CommitLinkUpdate : Set := mkLinkUpdate {
  repositoryId : Z; commitSha : jstr; numbers : list Z; generation : Z; state : CommitLinkState
}.
Inductive CommitLinkOutcome : Set := updated | noop | stale | conflict | no_document.

Definition normalizeLinkNumbers (l : list Z) : list Z :=
  merge_sort Z.le (remove_dups (List.filter (fun v => is_safe_integer v && (0 <? v)) l)).
Definition numbers_in (v : json) : option (list Z) := match v with JArr l => mapM json_num l | _ => None end.
Definition sameNumbers (left : option (list Z)) (right : list Z) : bool :=
  match left with None => false | Some l => bool_decide (merge_sort Z.le l = right) end.

Definition PULL_REQUEST_NUMBERS : jstr := js "pull_request_numbers".
Definition PR_LINKS_GENERATION : jstr := js "pr_links_generation".
Definition PR_LINKS_STATE : jstr := js "pr_links_state".

(** [ctx._source.pull_request_numbers] is a list of the same size with all of [params.numbers]. *)
Definition same_list (v : json) (ns : list Z) : option bool :=
  match v with
  | JNull => Some false
  | JArr l => Some ((length l =? length ns)%nat && forallb (fun n => bool_decide (JNum n ∈ l)) ns)
  | _ => None
  end.
Definition assign_links (ns : list Z) (gen : Z) (st : CommitLinkState) (d : Source) : Source :=
  <[PR_LINKS_STATE := JStr (state_text st)]> (<[PR_LINKS_GENERATION := JNum gen]>
    (<[PULL_REQUEST_NUMBERS := JArr (map JNum ns)]> d)).
Definition link_script (ns : list Z) (gen : Z) (st : CommitLinkState) : Script := fun d =>
  let cur := field d PR_LINKS_GENERATION in
  match newer cur gen with
  | None => s_error
  | Some true => s_noop
  | Some false =>
    match (if jdec cur (JNum gen) && jdec (field d PR_LINKS_STATE) (JStr (state_text st))
           then same_list (field d PULL_REQUEST_NUMBERS) ns else Some false) with
    | None => s_error
    | Some true => s_noop
    | Some false => s_write (assign_links ns gen st d)
    end
  end.

Section write.
Context {S : Type} `{DocServer S} (String_of : EsError -> jstr).

Inductive destination : Type := to_targets (t : WriteTargets) | to_index (index : jstr).
Definition outcome_of (r : UpdateReply) : CommitLinkOutcome := if is_noop r then noop else updated.

Definition write (u : CommitLinkUpdate) (dest : destination) (s : S)
  : S * (result EsError CommitLinkOutcome * list ShadowWriteFailure) :=
  let sha := ascii_lower (commitSha u) in
  let key := (js_of_Z (repositoryId u), commitDocId (repositoryId u) sha) in
  let ns := normalizeLinkNumbers (numbers u) in
  let index := match dest with to_index i => i | to_targets _ => COMMIT_ALIAS end in
  match get_source index key s with
  | Err e => (s, (Err e, []))
  | Ok None => (s, (Ok no_document, []))
  | Ok (Some source) =>
    let stored := json_num (field source PR_LINKS_GENERATION) in
    if match stored with Some g => generation u <? g | None => false end then (s, (Ok stale, []))
    else if bool_decide (stored = Some (generation u))
            && negb (sameNumbers (numbers_in (field source PULL_REQUEST_NUMBERS)) ns) then (s, (Ok conflict, []))
    else
      let send := send_script (link_script ns (generation u) (state u)) key in
      match dest with
      | to_index i => match send i s with
                      | (s, Ok r) => (s, (Ok (outcome_of r), [])) | (s, Err e) => (s, (Err e, []))
                      end
      | to_targets t => match dualWrite t COMMIT_ALIAS (js "update") String_of send s with
                        | (s, (Ok r, fs)) => (s, (Ok (outcome_of r), fs)) | (s, (Err e, fs)) => (s, (Err e, fs))
                        end
      end
  end.
Definition applyCommitLinks (u : CommitLinkUpdate) (t : WriteTargets) := write u (to_targets t).
Definition applyCommitLinksToIndex (u : CommitLinkUpdate) (index : jstr) := write u (to_index index).
End write.

(** *** Any order of the generations *)

Record projected_links : Set := mkLinks { pl_numbers : list Z; pl_generation : Z; pl_state : CommitLinkState }.
Definition assigned (u : projected_links) : Source -> Source := assign_links (pl_numbers u) (pl_generation u) (pl_state u).
Definition apply_links (d : Source) (u : projected_links) : Source :=
  match link_script (pl_numbers u) (pl_generation u) (pl_state u) d with s_write d' => d' | _ => d end.

Lemma assign_lookup u d k :
  assigned u d !! k =
  if decide (k = PR_LINKS_STATE) then Some (JStr (state_text (pl_state u)))
  else if decide (k = PR_LINKS_GENERATION) then Some (JNum (pl_generation u))
  else if decide (k = PULL_REQUEST_NUMBERS) then Some (JArr (map JNum (pl_numbers u))) else d !! k.
Proof. unfold assigned, assign_links. by repeat (destruct (decide _) as [->|]; [by rewrite lookup_insert_eq|rewrite lookup_insert_ne by done]). Qed.
Lemma assigned_twice u v d : assigned u (assigned v d) = assigned u d.
Proof. apply map_eq. intros k. rewrite !assign_lookup. by repeat destruct (decide _). Qed.
Lemma assigned_fields u d :
  field (assigned u d) PR_LINKS_GENERATION = JNum (pl_generation u) ∧
  field (assigned u d) PR_LINKS_STATE = JStr (state_text (pl_state u)) ∧
  field (assigned u d) PULL_REQUEST_NUMBERS = JArr (map JNum (pl_numbers u)).
Proof. unfold field. rewrite !assign_lookup. by repeat (rewrite decide_True by done || rewrite decide_False by (vm_compute; discriminate)). Qed.
Lemma same_list_self ns : same_list (JArr (map JNum ns)) ns = Some true.
Proof.
  cbn [same_list]. rewrite length_map, Nat.eqb_refl. cbn [andb]. f_equal. apply forallb_forall. intros n Hn%list_elem_of_In.
  apply bool_decide_eq_true. by apply list_elem_of_fmap_2.
Qed.

Lemma links_newest l d0 :
  l <> [] -> field d0 PR_LINKS_GENERATION = JNull ->
  (forall u v, u ∈ l -> v ∈ l -> pl_generation u = pl_generation v -> u = v) ->
  ∃ u, u ∈ l ∧ (forall v, v ∈ l -> pl_generation v <= pl_generation u) ∧ foldl apply_links d0 l = assigned u d0.
Proof.
  intros Hne H0. induction l as [|u l IH] using rev_ind; [done|]. intros Hsame. rewrite foldl_snoc.
  destruct (decide (l = [])) as [->|Hl].
  - exists u. split; [by left|]. split; [intros v ->%list_elem_of_singleton; lia|]. cbn [foldl]. unfold apply_links, link_script.
    rewrite H0. cbn [newer]. unfold jdec. by rewrite (bool_decide_eq_false_2 (JNull = _)) by done.
  - destruct IH as (m & Hm & Hmax & ->); [done|intros x y Hx Hy; apply Hsame; apply elem_of_app; by left|].
    destruct (assigned_fields m d0) as (Hg & Hst & Hns).
    unfold apply_links, link_script. rewrite Hg. cbn [newer].
    destruct (Z.ltb_spec (pl_generation u) (pl_generation m)) as [Hlt|Hle].
    + exists m. split; [apply elem_of_app; by left|]. split; [|done].
      intros v [Hv| ->%list_elem_of_singleton]%elem_of_app; [by apply Hmax|lia].
    + destruct (decide (pl_generation u = pl_generation m)) as [He|Hn].
      * assert (u = m) as -> by (apply Hsame; [apply elem_of_app; right; by left|apply elem_of_app; by left|done]).
        unfold jdec. rewrite Hst, Hns, !bool_decide_eq_true_2 by done. cbn [andb]. rewrite same_list_self.
        exists m. split; [apply elem_of_app; by left|]. split; [|done].
        intros v [Hv| ->%list_elem_of_singleton]%elem_of_app; [by apply Hmax|lia].
      * unfold jdec. rewrite (bool_decide_eq_false_2 (JNum (pl_generation m) = _)) by congruence. cbn [andb].
        exists u. split; [apply elem_of_app; right; by left|]. split; [|apply assigned_twice].
        intros v [Hv| ->%list_elem_of_singleton]%elem_of_app; [apply Hmax in Hv; lia|lia].
Qed.
End CommitLinks.

(** ** The M number of a pull request *)

Module MergeNumberDoc.

Inductive NumberState : Set := assigned | pending.
Definition number_state_text (s : NumberState) : jstr := match s with assigned => js "assigned" | pending => js "pending" end.
Record MergeNumberDocUpdate : Set := mkNumberUpdate {
  repositoryId : Z; prNumber : Z; baseBranch : jstr; expectedMergeCommitSha : jstr;
  mergeNumber : option Z; mergeNumberEpoch : Z; state : NumberState; reason : option jstr
}.
Inductive MergeNumberDocOutcome : Set := updated | noop | no_document | guard_rejected.

Definition MERGE_NUMBER : jstr := js "merge_number".
Definition MERGE_NUMBER_EPOCH : jstr := js "merge_number_epoch".
Definition MERGE_NUMBER_STATE : jstr := js "merge_number_state".
Definition MERGE_NUMBER_REASON : jstr := js "merge_number_reason".

Definition set_or_remove (k : jstr) (v : json) (d : Source) : Source :=
  match v with JNull => delete k d | v => <[k := v]> d end.
Definition number_script (number : option Z) (epoch : Z) (st : NumberState) (reason : option jstr) : Script := fun d =>
  match newer (field d MERGE_NUMBER_EPOCH) epoch with
  | None => s_error
  | Some true => s_noop
  | Some false =>
    if jdec (field d MERGE_NUMBER) (or_null number) && jdec (field d MERGE_NUMBER_EPOCH) (JNum epoch)
       && jdec (field d MERGE_NUMBER_STATE) (JStr (number_state_text st)) && jdec (field d MERGE_NUMBER_REASON) (text_or_null reason)
    then s_noop
    else s_write (set_or_remove MERGE_NUMBER_REASON (text_or_null reason)
           (<[MERGE_NUMBER_STATE := JStr (number_state_text st)]> (<[MERGE_NUMBER_EPOCH := JNum epoch]>
             (set_or_remove MERGE_NUMBER (or_null number) d))))
  end.

(** [(source.x ?? '').toLowerCase()]. *)
Definition lower_or_empty (v : json) : jstr := match v with JStr s => ascii_lower s | _ => [] end.
Definition guard (u : MergeNumberDocUpdate) (d : Source) : bool :=
  jdec (field d (js "repository_id")) (JNum (repositoryId u)) && jdec (field d (js "base_branch")) (JStr (baseBranch u))
  && jeqb (lower_or_empty (field d (js "merge_commit_sha"))) (ascii_lower (expectedMergeCommitSha u)).

Section apply.
Context {S : Type} `{DocServer S} (String_of : EsError -> jstr).

(** Reading and guarding a document, then the update of it on every target. *)
Definition guarded (alias : jstr) (key : DocKey) (ok : Source -> bool) (script : Script) (t : WriteTargets) (s : S)
  : S * (result EsError MergeNumberDocOutcome * list ShadowWriteFailure) :=
  match get_source alias key s with
  | Err e => (s, (Err e, []))
  | Ok None => (s, (Ok no_document, []))
  | Ok (Some d) =>
    if negb (ok d) then (s, (Ok guard_rejected, []))
    else match dualWrite t alias (js "update") String_of (send_script script key) s with
         | (s, (Ok r, fs)) => (s, (Ok (if is_noop r then noop else updated), fs))
         | (s, (Err e, fs)) => (s, (Err e, fs))
         end
  end.

Definition applyMergeNumberToDocument (u : MergeNumberDocUpdate) : WriteTargets -> S ->
    S * (result EsError MergeNumberDocOutcome * list ShadowWriteFailure) :=
  guarded PR_ALIAS (js_of_Z (repositoryId u), pullRequestDocId (repositoryId u) (prNumber u)) (guard u)
    (number_script (mergeNumber u) (mergeNumberEpoch u) (state u) (reason u)).

Record MergeNumberCommitDocUpdate : Set := mkNumberCommitUpdate {
  c_repositoryId : Z; c_commitSha : jstr; c_baseBranch : jstr; c_mergeNumber : Z; c_mergeNumberEpoch : Z; c_state : NumberState
}.
Definition commit_guard (u : MergeNumberCommitDocUpdate) (d : Source) : bool :=
  jdec (field d (js "repository_id")) (JNum (c_repositoryId u)) && jdec (field d (js "base_branch")) (JStr (c_baseBranch u))
  && jeqb (lower_or_empty (field d (js "commit_sha"))) (ascii_lower (c_commitSha u))
  && jdec (field d (js "role")) (JStr (js "merge_commit")).
(** The same script without the reason. *)
Definition commit_number_script (number : option Z) (epoch : Z) (st : NumberState) : Script := fun d =>
  match newer (field d MERGE_NUMBER_EPOCH) epoch with
  | None => s_error
  | Some true => s_noop
  | Some false =>
    if jdec (field d MERGE_NUMBER) (or_null number) && jdec (field d MERGE_NUMBER_EPOCH) (JNum epoch)
       && jdec (field d MERGE_NUMBER_STATE) (JStr (number_state_text st))
    then s_noop
    else s_write (<[MERGE_NUMBER_STATE := JStr (number_state_text st)]> (<[MERGE_NUMBER_EPOCH := JNum epoch]>
             (set_or_remove MERGE_NUMBER (or_null number) d)))
  end.
Definition applyMergeNumberToCommitDocument (u : MergeNumberCommitDocUpdate) : WriteTargets -> S ->
    S * (result EsError MergeNumberDocOutcome * list ShadowWriteFailure) :=
  guarded COMMIT_ALIAS (js_of_Z (c_repositoryId u), commitDocId (c_repositoryId u) (c_commitSha u)) (commit_guard u)
    (commit_number_script (match c_state u with assigned => Some (c_mergeNumber u) | pending => None end)
       (c_mergeNumberEpoch u) (c_state u)).
End apply.
End MergeNumberDoc.

(** ** The facts of git in a commit document *)

Module CommitMetadata.

Definition PATCH_ID : jstr := js "patch_id".
Definition PATCH_ID_UNAVAILABLE : jstr := js "patch_id_unavailable".

Record CommitMetadataFields : Set := mkMetadata {
  parent_shas : list jstr; message : jstr; author : option jstr; committer : option jstr; authored_at : jstr;
  committed_at : jstr; changed_paths : list jstr; changed_paths_truncated : bool; patch_id : option jstr;
  patch_id_unavailable : option jstr; role : option jstr
}.
Record CommitMetadataUpsert : Type := mkMetadataUpsert {
  repositoryId : Z; commitSha : jstr; docId : jstr; fields : CommitMetadataFields; createWith : option Source
}.
Inductive CommitMetadataOutcome : Set := created | updated | already_equal | no_document.
Inductive ShadowOutcome : Set := so_absent | so_result (o : CommitMetadataOutcome) | so_failed.

(** [meta]: every field is written, [role] when it is known. *)
Definition meta_of (f : CommitMetadataFields) : Source :=
  list_to_map (
    [(js "parent_shas", JArr (map JStr (parent_shas f))); (js "message", JStr (message f));
     (js "author", text_or_null (author f)); (js "committer", text_or_null (committer f));
     (js "authored_at", JStr (authored_at f)); (js "committed_at", JStr (committed_at f));
     (js "changed_paths", JArr (map JStr (changed_paths f)));
     (js "changed_paths_truncated", JBool (changed_paths_truncated f))]
    ++ match role f with Some r => [(js "role", JStr r)] | None => [] end).

(** The loop over [params.meta]: a field is assigned when it is absent or differs. *)
Definition meta_differs (meta d : Source) : bool :=
  existsb (fun e => negb (bool_decide (d !! e.1 = Some e.2))) (map_to_list meta).
Definition COMMIT_METADATA_SCRIPT (meta : Source) (patch unavailable : option jstr) : Script := fun d =>
  let d1 := meta ∪ d in
  let '(d2, changed) :=
    match patch, unavailable with
    | Some p, _ =>
      (delete PATCH_ID_UNAVAILABLE (<[PATCH_ID := JStr p]> d1),
       negb (jdec (field d1 PATCH_ID) (JStr p)) || bool_decide (is_Some (d1 !! PATCH_ID_UNAVAILABLE)))
    | None, Some u =>
      match field d1 PATCH_ID with
      | JNull => (<[PATCH_ID_UNAVAILABLE := JStr u]> d1, negb (jdec (field d1 PATCH_ID_UNAVAILABLE) (JStr u)))
      | _ => (d1, false)
      end
    | None, None => (d1, false)
    end in
  if meta_differs meta d || changed then s_write d2 else s_noop.

Definition opt_field (k : jstr) (v : option jstr) : Source := match v with Some s => {[k := JStr s]} | None => ∅ end.
(** [upsert]: later entries of the literal win. *)
Definition created_document (i : CommitMetadataUpsert) (base : Source) : Source :=
  let f := fields i in
  <[js "commit_sha" := JStr (commitSha i)]> (<[js "doc_id" := JStr (docId i)]>
    (match patch_id f with Some _ => opt_field PATCH_ID (patch_id f)
                         | None => opt_field PATCH_ID_UNAVAILABLE (patch_id_unavailable f) end
     ∪ meta_of f ∪ base)).
Definition metadata_call (i : CommitMetadataUpsert) (name : jstr) : UpdateCall :=
  mkUpdate name (js_of_Z (repositoryId i), docId i)
    (COMMIT_METADATA_SCRIPT (meta_of (fields i)) (patch_id (fields i)) (patch_id_unavailable (fields i)))
    (created_document i <$> createWith i).

Section apply.
Context {S : Type} `{DocServer S} (String_of : EsError -> jstr).

Definition sendMetadata (i : CommitMetadataUpsert) (name : jstr) (s : S) : S * result EsError CommitMetadataOutcome :=
  match es_update (metadata_call i name) s with
  | (s, re_created) => (s, Ok created)
  | (s, re_updated) => (s, Ok updated)
  | (s, re_noop) => (s, Ok already_equal)
  | (s, re_error e) =>
    match createWith i with
    | None => if document_missing e then (s, Ok no_document) else (s, Err e)
    | Some _ => (s, Err e)
    end
  end.

Definition upsertCommitMetadata (i : CommitMetadataUpsert) (t : WriteTargets) (s : S)
  : S * (result EsError (CommitMetadataOutcome * ShadowOutcome) * list ShadowWriteFailure) :=
  match sendMetadata i COMMIT_ALIAS s with
  | (s, Err e) => (s, (Err e, []))
  | (s, Ok served) =>
    match shadowIndexOf t COMMIT_ALIAS with
    | None => (s, (Ok (served, so_absent), []))
    | Some shadow =>
      match sendMetadata i shadow s with
      | (s, Ok o) => (s, (Ok (served, so_result o), []))
      | (s, Err e) => (s, (Ok (served, so_failed), [mkShadowFailure COMMIT_ALIAS shadow (js "update") (String_of e)]))
      end
    end
  end.

(** *** A chain commit that was taken for a source commit *)

Inductive ChainCommitRole : Set := merge_commit | direct_push.
Definition role_text (r : ChainCommitRole) : jstr := match r with merge_commit => js "merge_commit" | direct_push => js "direct_push" end.
Definition RESTORE_CHAIN_ROLE_SCRIPT (r : jstr) : Script := fun d =>
  if jdec (field d (js "role")) (JStr (js "source_commit")) then s_write (<[js "role" := JStr r]> d) else s_noop.
Inductive ChainRoleRestoreResult : Set := restored | rr_noop | missing.

Definition sendRoleRestore (repositoryId : Z) (docId : jstr) (role : ChainCommitRole) (name : jstr) (s : S)
  : S * result EsError ChainRoleRestoreResult :=
  match send_script (RESTORE_CHAIN_ROLE_SCRIPT (role_text role)) (js_of_Z repositoryId, docId) name s with
  | (s, Ok r) => (s, Ok (if is_noop r then rr_noop else restored))
  | (s, Err e) => if document_missing e then (s, Ok missing) else (s, Err e)
  end.
Definition restoreChainCommitRole (repositoryId : Z) (docId : jstr) (role : ChainCommitRole) (t : WriteTargets)
  : S -> S * (result EsError ChainRoleRestoreResult * list ShadowWriteFailure) :=
  dualWrite t COMMIT_ALIAS (js "update") String_of (sendRoleRestore repositoryId docId role).
End apply.

(** *** Writing the same facts again *)

Lemma meta_differs_spec meta d : meta_differs meta d = false <-> forall k v, meta !! k = Some v -> d !! k = Some v.
Proof.
  unfold meta_differs. rewrite <- not_true_iff_false, existsb_elem. split.
  - intros Hn k v Hk. apply dec_stable. intros Hd. apply Hn. exists (k, v). split; [by apply elem_of_map_to_list|].
    by rewrite bool_decide_eq_false_2.
  - intros Hall ([k v] & Hin%elem_of_map_to_list & Hb). cbn [fst snd] in *. rewrite (Hall k v Hin), bool_decide_eq_true_2 in Hb; done.
Qed.
Lemma meta_no_patch f : meta_of f !! PATCH_ID = None ∧ meta_of f !! PATCH_ID_UNAVAILABLE = None.
Proof. split; apply not_elem_of_list_to_map_1; cbn [map app fst fmap list_fmap]; destruct (role f); apply (bool_decide_unpack _); vm_compute; exact I. Qed.

(** What the script leaves, whether it wrote or not. *)
Definition metadata_end (f : CommitMetadataFields) (d : Source) : Source :=
  match COMMIT_METADATA_SCRIPT (meta_of f) (patch_id f) (patch_id_unavailable f) d with s_write d' => d' | _ => d end.

(** A patch id that is known stays known: not knowing it later takes nothing away. *)
Lemma patch_id_kept f d p :
  field d PATCH_ID = JStr p -> field (metadata_end f d) PATCH_ID = JStr (default p (patch_id f)).
Proof.
  intros Hp. destruct (meta_no_patch f) as [Hm Hu].
  assert (field (meta_of f ∪ d) PATCH_ID = JStr p) as Hd1.
  { unfold field. rewrite lookup_union_r by done. exact Hp. }
  unfold metadata_end, COMMIT_METADATA_SCRIPT. destruct (patch_id f) as [q|]; cbn [default].
  - destruct (meta_differs _ d || _) eqn:Ed.
    + unfold field. rewrite lookup_delete_ne, lookup_insert_eq; [done|vm_compute; discriminate].
    + apply orb_false_iff in Ed as [_ Ed]. apply orb_false_iff in Ed as [Ed _]. apply negb_false_iff, bool_decide_eq_true in Ed.
      rewrite Hd1 in Ed. cbn [from_option id]. congruence.
  - destruct (patch_id_unavailable f) as [u|]; rewrite ?Hd1; destruct (meta_differs _ d || _); done.
Qed.
End CommitMetadata.

(** ** The number in the sequence *)

Module SequenceProjection.

Inductive SequenceDocKind : Set := commit | pull_request.
#[export] Instance kind_eq_dec : EqDecision SequenceDocKind.
Proof. solve_decision. Defined.
Record SequenceProjectionItem : Set := mkItem {
  kind : SequenceDocKind; docId : jstr; repositoryId : Z; baseBranch : jstr; seqEpoch : Z; sequenceSpace : jstr;
  expectedSha : jstr; mergeSeq : Z; reclaim : bool
}.
Inductive SequenceDocOutcomeKind : Set :=
| k_updated | k_noop | k_would_update | k_document_missing | k_guard_rejected | k_stale_epoch | k_transient.
#[export] Instance outcome_kind_eq_dec : EqDecision SequenceDocOutcomeKind.
Proof. solve_decision. Defined.
Record ObservedSequenceFields : Set := mkObserved {
  o_repository_id : option Z; o_base_branch : option jstr; o_sha : option jstr; o_merge_seq : option Z;
  o_seq_epoch : option Z; o_sequence_space : option jstr
}.
Record SequenceDocOutcome : Set := mkDocOutcome {
  oc_docId : jstr; oc_kind : SequenceDocOutcomeKind; oc_reason : option jstr; observed : option ObservedSequenceFields
}.

Definition aliasOf (k : SequenceDocKind) : jstr := match k with commit => COMMIT_ALIAS | pull_request => PR_ALIAS end.
Definition shaFieldOf (k : SequenceDocKind) : jstr :=
  match k with commit => js "commit_sha" | pull_request => js "merge_commit_sha" end.
Definition REPOSITORY_ID : jstr := js "repository_id".
Definition BASE_BRANCH : jstr := js "base_branch".
Definition MERGE_SEQ : jstr := js "merge_seq".
Definition SEQ_EPOCH : jstr := js "seq_epoch".
Definition SEQUENCE_SPACE : jstr := js "sequence_space".

Definition asNumber (v : json) : option Z := json_num v.
Definition asString (v : json) : option jstr := match v with JStr (c :: s) => Some (c :: s) | _ => None end.
Definition observe (k : SequenceDocKind) (d : Source) : ObservedSequenceFields :=
  mkObserved (asNumber (field d REPOSITORY_ID)) (asString (field d BASE_BRANCH))
    (ascii_lower <$> asString (field d (shaFieldOf k))) (asNumber (field d MERGE_SEQ)) (asNumber (field d SEQ_EPOCH))
    (asString (field d SEQUENCE_SPACE)).

Inductive GuardReason : Set := gr_repository | gr_sha | gr_branch.
Inductive Classification : Set := c_write | c_noop | c_missing | c_rejected (r : GuardReason) | c_stale.
Definition reason_text (r : GuardReason) : jstr :=
  match r with gr_repository => js "repository" | gr_sha => js "sha" | gr_branch => js "branch" end.

Definition classifySequenceTarget (i : SequenceProjectionItem) (o : option ObservedSequenceFields) : Classification :=
  match o with
  | None => c_missing
  | Some o =>
    if negb (bool_decide (o_repository_id o = Some (repositoryId i))) then c_rejected gr_repository
    else if negb (bool_decide (o_sha o = Some (ascii_lower (expectedSha i)))) then c_rejected gr_sha
    else
      let sameBranch := bool_decide (o_base_branch o = Some (baseBranch i)) in
      if (match kind i with
          | pull_request => negb sameBranch
          | commit => bool_decide (is_Some (o_base_branch o)) && negb sameBranch && negb (reclaim i)
          end) then c_rejected gr_branch
      else if sameBranch && match o_seq_epoch o with Some e => seqEpoch i <? e | None => false end then c_stale
      else if sameBranch && bool_decide (o_merge_seq o = Some (mergeSeq i)) && bool_decide (o_seq_epoch o = Some (seqEpoch i))
              && bool_decide (o_sequence_space o = Some (sequenceSpace i)) then c_noop
      else c_write
  end.

Definition assign (i : SequenceProjectionItem) (d : Source) : Source :=
  <[BASE_BRANCH := JStr (baseBranch i)]> (<[SEQUENCE_SPACE := JStr (sequenceSpace i)]>
    (<[SEQ_EPOCH := JNum (seqEpoch i)]> (<[MERGE_SEQ := JNum (mergeSeq i)]> d))).
Definition SEQUENCE_PROJECTION_SCRIPT (i : SequenceProjectionItem) : Script := fun d =>
  match field d (shaFieldOf (kind i)) with
  | JNull => s_noop
  | JStr sha =>
    if negb (jeqb (ascii_lower sha) (ascii_lower (expectedSha i))) then s_noop
    else if negb (jdec (field d REPOSITORY_ID) (JNum (repositoryId i))) then s_noop
    else
      let branch := field d BASE_BRANCH in
      let same_branch := jdec branch (JStr (baseBranch i)) in
      if (match kind i with
          | pull_request => negb same_branch
          | commit => negb (jdec branch JNull) && negb same_branch && negb (reclaim i)
          end) then s_noop
      else
        let epoch := field d SEQ_EPOCH in
        match (if same_branch then newer epoch (seqEpoch i) else Some false) with
        | None => s_error
        | Some true => s_noop
        | Some false =>
          if same_branch && jdec (field d MERGE_SEQ) (JNum (mergeSeq i)) && jdec epoch (JNum (seqEpoch i))
             && jdec (field d SEQUENCE_SPACE) (JStr (sequenceSpace i))
          then s_noop else s_write (assign i d)
        end
  | _ => s_error
  end.

Definition SEQUENCE_PROJECTION_CHUNK : nat := 500.
Definition isSettledOutcome (k : SequenceDocOutcomeKind) : bool := match k with k_updated | k_noop => true | _ => false end.

Section project.
Context {S : Type} `{DocServer S} (String_of : EsError -> jstr).

Definition item_key (i : SequenceProjectionItem) : DocKey := (js_of_Z (repositoryId i), docId i).

(** [mget]: the documents of the items; one that cannot be read fails the whole. *)
Fixpoint readSequenceProjection (index : jstr) (items : list SequenceProjectionItem) (s : S)
  : result EsError (gmap jstr (option ObservedSequenceFields)) :=
  match items with
  | [] => Ok ∅
  | i :: items =>
    match es_get index (item_key i) s, readSequenceProjection index items s with
    | Ok o, Ok rest => Ok (match rest !! docId i with Some _ => rest | None => <[docId i := option_map (observe (kind i)) o]> rest end)
    | Err e, _ | _, Err e => Err e
    end
  end.

(** What reading says of an item: an outcome, or that it is to be written. *)
Definition judge (dryRun : bool) (i : SequenceProjectionItem) (seen : option ObservedSequenceFields)
  : SequenceDocOutcome + SequenceProjectionItem :=
  let outcome k r := inl (mkDocOutcome (docId i) k r seen) in
  match classifySequenceTarget i seen with
  | c_write => if dryRun then outcome k_would_update None else inr i
  | c_rejected r => outcome k_guard_rejected (Some (reason_text r))
  | c_noop => outcome k_noop None
  | c_missing => outcome k_document_missing None
  | c_stale => outcome k_stale_epoch None
  end.
Definition outcomes_in {A B} (l : list (A + B)) : list A := omap (fun x => match x with inl a => Some a | inr _ => None end) l.
Definition pending_in {A B} (l : list (A + B)) : list B := omap (fun x => match x with inl _ => None | inr b => Some b end) l.

Definition projection_call (index : jstr) (i : SequenceProjectionItem) : UpdateCall :=
  mkUpdate index (item_key i) (SEQUENCE_PROJECTION_SCRIPT i) None.
Definition projected (seen : option ObservedSequenceFields) (i : SequenceProjectionItem) (r : UpdateReply)
  : SequenceDocOutcome :=
  let transient reason := mkDocOutcome (docId i) k_transient (Some reason) seen in
  match r with
  | re_updated => mkDocOutcome (docId i) k_updated None seen
  | re_error e =>
    if status_of e =? 404 then mkDocOutcome (docId i) k_document_missing None None
    else
      let verdict := if status_of e =? 409 then f_retryable else classifyFailure (status_of e) (ee_type e) in
      transient (js_of_Z (status_of e) ++ js " " ++ default (js "unknown") (ee_type e)
                 ++ match verdict with f_rejected => js " (rejected)" | f_retryable => [] end)
  | _ => transient (js "guard_raced")
  end.
(** [response.items.forEach]: an item that the response does not have gets no outcome. *)
Fixpoint zip_replies (seen : SequenceProjectionItem -> option ObservedSequenceFields) (l : list SequenceProjectionItem)
    (replies : list UpdateReply) : list SequenceDocOutcome :=
  match l, replies with
  | i :: l, r :: rs => projected (seen i) i r :: zip_replies seen l rs
  | _, _ => []
  end.
Fixpoint bulk_chunks (fuel : nat) (index : jstr) (seen : SequenceProjectionItem -> option ObservedSequenceFields)
    (pending : list SequenceProjectionItem) (s : S) : S * result EsError (list SequenceDocOutcome) :=
  match fuel, pending with
  | O, _ | _, [] => (s, Ok [])
  | Datatypes.S fuel, _ =>
    let chunk := take SEQUENCE_PROJECTION_CHUNK pending in
    match es_bulk (map (projection_call index) chunk) s with
    | (s, Err e) => (s, Err e)
    | (s, Ok replies) =>
      match bulk_chunks fuel index seen (drop SEQUENCE_PROJECTION_CHUNK pending) s with
      | (s, Ok more) => (s, Ok (zip_replies seen chunk replies ++ more))
      | (s, Err e) => (s, Err e)
      end
    end
  end.

(** Outcomes in the order of the items; of items with one document the last counts. *)
Definition position (items : list SequenceProjectionItem) (id : jstr) : nat :=
  match list_find (fun i => docId i = id) (rev items) with
  | Some (n, _) => (length items - 1 - n)%nat
  | None => 0%nat
  end.
Definition in_order (items : list SequenceProjectionItem) (a b : SequenceDocOutcome) : Prop :=
  (position items (oc_docId a) <= position items (oc_docId b))%nat.
#[global] Instance in_order_dec items : RelDecision (in_order items).
Proof. intros a b. unfold in_order. apply _. Defined.

Definition projectIntoIndex (index : jstr) (items : list SequenceProjectionItem) (dryRun : bool) (s : S)
  : S * result EsError (list SequenceDocOutcome) :=
  match readSequenceProjection index items s with
  | Err e => (s, Err e)
  | Ok observed =>
    let seen i := default None (observed !! docId i) in
    let judged := map (fun i => judge dryRun i (seen i)) items in
    match bulk_chunks (length items) index seen (pending_in judged) s with
    | (s, Err e) => (s, Err e)
    | (s, Ok sent) => (s, Ok (merge_sort (in_order items) (outcomes_in judged ++ sent)))
    end
  end.
Definition count_of (k : SequenceDocOutcomeKind) (os : list SequenceDocOutcome) : nat :=
  length (List.filter (fun o => bool_decide (oc_kind o = k)) os).

(** Both kinds of documents, in the order in which the items name them. *)
Definition of_kind (k : SequenceDocKind) (items : list SequenceProjectionItem) : list SequenceProjectionItem :=
  List.filter (fun i => bool_decide (kind i = k)) items.
Definition kinds_of (items : list SequenceProjectionItem) : list SequenceDocKind :=
  match items with
  | [] => []
  | i :: _ =>
    let other := match kind i with commit => pull_request | pull_request => commit end in
    kind i :: match of_kind other items with [] => [] | _ => [other] end
  end.
Record SequenceProjectionResult : Type := mkProjectionResult {
  r_served : list (jstr * list SequenceDocOutcome); r_shadows : list (jstr * list SequenceDocOutcome)
}.
Fixpoint project_kinds (ks : list SequenceDocKind) (items : list SequenceProjectionItem) (t : WriteTargets) (dryRun : bool)
    (s : S) : S * (result EsError SequenceProjectionResult * list ShadowWriteFailure) :=
  match ks with
  | [] => (s, (Ok (mkProjectionResult [] []), []))
  | k :: ks =>
    let alias := aliasOf k in
    match projectIntoIndex alias (of_kind k items) dryRun s with
    | (s, Err e) => (s, (Err e, []))
    | (s, Ok served) =>
      let '(s, (shadowed, fs)) :=
        match shadowIndexOf t alias with
        | None => (s, ([], []))
        | Some shadow =>
          match projectIntoIndex shadow (of_kind k items) dryRun s with
          | (s, Ok o) => (s, ([(alias, o)], []))
          | (s, Err e) => (s, ([], [mkShadowFailure alias shadow (js "update") (String_of e)]))
          end
        end in
      match project_kinds ks items t dryRun s with
      | (s, (Ok r, fs')) =>
        (s, (Ok (mkProjectionResult ((alias, served) :: r_served r) (shadowed ++ r_shadows r)), fs ++ fs'))
      | (s, (Err e, fs')) => (s, (Err e, fs ++ fs'))
      end
    end
  end.
Definition projectSequenceToDocuments (items : list SequenceProjectionItem) (t : WriteTargets) (dryRun : bool)
  : S -> S * (result EsError SequenceProjectionResult * list ShadowWriteFailure) :=
  project_kinds (kinds_of items) items t dryRun.
End project.

(** ** The two guards agree *)

Definition text_field (v : json) : Prop := v = JNull \/ ∃ c s, v = JStr (c :: s).
Definition number_field (v : json) : Prop := v = JNull \/ ∃ n, v = JNum n.
(** A document whose fields have the types of the mapping; texts are not empty. *)
Record plain (k : SequenceDocKind) (d : Source) : Prop := {
  pl_sha : text_field (field d (shaFieldOf k)); pl_repository : number_field (field d REPOSITORY_ID);
  pl_branch : text_field (field d BASE_BRANCH); pl_seq : number_field (field d MERGE_SEQ);
  pl_epoch : number_field (field d SEQ_EPOCH); pl_space : text_field (field d SEQUENCE_SPACE)
}.
Record proper (i : SequenceProjectionItem) : Prop := {
  pr_sha : expectedSha i <> []; pr_branch : baseBranch i <> []; pr_space : sequenceSpace i <> []
}.

Lemma jdec_spec a b : jdec a b = true <-> a = b.
Proof. apply bool_decide_eq_true. Qed.
Lemma field_insert d k v : field (<[k := v]> d) k = v.
Proof. unfold field. by rewrite lookup_insert_eq. Qed.
Lemma field_insert_ne d k k' v : k <> k' -> field (<[k := v]> d) k' = field d k'.
Proof. intros Hne. unfold field. by rewrite lookup_insert_ne. Qed.

Lemma assign_fields i d :
  field (assign i d) BASE_BRANCH = JStr (baseBranch i) ∧ field (assign i d) SEQUENCE_SPACE = JStr (sequenceSpace i) ∧
  field (assign i d) SEQ_EPOCH = JNum (seqEpoch i) ∧ field (assign i d) MERGE_SEQ = JNum (mergeSeq i) ∧
  field (assign i d) REPOSITORY_ID = field d REPOSITORY_ID ∧
  field (assign i d) (shaFieldOf (kind i)) = field d (shaFieldOf (kind i)).
Proof.
  unfold assign. split_and!; repeat first [by rewrite field_insert|rewrite field_insert_ne by (destruct (kind i); vm_compute; discriminate)]; done.
Qed.

Lemma asString_text v s : s <> [] -> asString v = Some s <-> v = JStr s.
Proof. intros Hs. destruct v as [| | | |[|c t]| |]; cbn [asString]; split; try discriminate; [by intros [= <-]|by intros [= <-]|by intros [= <-]]. Qed.
Lemma bool_decide_iff (P Q : Prop) `{Decision P, Decision Q} : (P <-> Q) -> bool_decide P = bool_decide Q.
Proof. intros HPQ. by apply bool_decide_ext. Qed.

(** What a script that writes has seen, and that the document then shows the item. *)
Lemma script_writes i d d' :
  proper i -> SEQUENCE_PROJECTION_SCRIPT i d = s_write d' ->
  d' = assign i d ∧ classifySequenceTarget i (Some (observe (kind i) d')) = c_noop.
Proof.
  intros Hp. unfold SEQUENCE_PROJECTION_SCRIPT. destruct (field d (shaFieldOf (kind i))) as [| | | |sha| |] eqn:Esha; try discriminate.
  destruct (jeqb (ascii_lower sha) (ascii_lower (expectedSha i))) eqn:Eeq; cbn [negb]; [|discriminate].
  destruct (jdec (field d REPOSITORY_ID) (JNum (repositoryId i))) eqn:Erepo; cbn [negb]; [|discriminate].
  destruct (match kind i with commit => _ | pull_request => _ end); [discriminate|].
  destruct (if jdec _ _ then newer _ _ else _) as [[|]|]; [discriminate| |discriminate].
  destruct (_ && _ && _ && _); [discriminate|]. intros [= <-]. split; [done|].
  destruct (assign_fields i d) as (Hb & Hsp & He & Hs & Hr & Hsha).
  apply jeqb_eq in Eeq. apply jdec_spec in Erepo. pose proof (pr_sha i Hp) as Hne.
  assert (sha <> []) as Hsne.
  { intros ->. cbn in Eeq. by destruct (expectedSha i). }
  unfold classifySequenceTarget, observe. cbn [o_repository_id o_sha o_base_branch o_seq_epoch o_merge_seq o_sequence_space].
  rewrite Hb, Hsp, He, Hs, Hr, Hsha, Erepo, Esha. cbn [asNumber json_num].
  rewrite (proj2 (asString_text (JStr sha) sha Hsne) eq_refl), (proj2 (asString_text (JStr (baseBranch i)) _ (pr_branch i Hp)) eq_refl),
    (proj2 (asString_text (JStr (sequenceSpace i)) _ (pr_space i Hp)) eq_refl).
  cbn [fmap option_fmap option_map]. rewrite Eeq, !bool_decide_eq_true_2 by done. cbn [negb andb].
  rewrite Z.ltb_irrefl. by destruct (kind i).
Qed.

Lemma guards_agree i d :
  plain (kind i) d -> proper i ->
  match classifySequenceTarget i (Some (observe (kind i) d)) with
  | c_write => SEQUENCE_PROJECTION_SCRIPT i d = s_write (assign i d)
  | c_missing => False
  | _ => SEQUENCE_PROJECTION_SCRIPT i d = s_noop
  end.
Proof.
  intros [Hsha Hrepo Hbranch Hseq Hepoch Hspace] [Pn Pb Ps].
  unfold classifySequenceTarget, observe. cbn [o_repository_id o_sha o_base_branch o_seq_epoch o_merge_seq o_sequence_space].
  assert (bool_decide (asNumber (field d REPOSITORY_ID) = Some (repositoryId i)) = jdec (field d REPOSITORY_ID) (JNum (repositoryId i))) as ->.
  { apply bool_decide_ext. destruct Hrepo as [->|[n ->]]; cbn; [split; discriminate|split; congruence]. }
  assert (bool_decide (asNumber (field d MERGE_SEQ) = Some (mergeSeq i)) = jdec (field d MERGE_SEQ) (JNum (mergeSeq i))) as ->.
  { apply bool_decide_ext. destruct Hseq as [->|[n ->]]; cbn; [split; discriminate|split; congruence]. }
  assert (bool_decide (asNumber (field d SEQ_EPOCH) = Some (seqEpoch i)) = jdec (field d SEQ_EPOCH) (JNum (seqEpoch i))) as ->.
  { apply bool_decide_ext. destruct Hepoch as [->|[n ->]]; cbn; [split; discriminate|split; congruence]. }
  assert (bool_decide (asString (field d SEQUENCE_SPACE) = Some (sequenceSpace i)) = jdec (field d SEQUENCE_SPACE) (JStr (sequenceSpace i))) as ->.
  { apply bool_decide_ext. by apply asString_text. }
  assert (bool_decide (asString (field d BASE_BRANCH) = Some (baseBranch i)) = jdec (field d BASE_BRANCH) (JStr (baseBranch i))) as ->.
  { apply bool_decide_ext. by apply asString_text. }
  assert (bool_decide (is_Some (asString (field d BASE_BRANCH))) = negb (jdec (field d BASE_BRANCH) JNull)) as ->.
  { unfold jdec. rewrite <- bool_decide_not. apply bool_decide_ext.
    destruct Hbranch as [->|(c & t & ->)]; cbn; [split; [intros [? ?]; discriminate|done]|split; [discriminate|by eexists]]. }
  assert (match asNumber (field d SEQ_EPOCH) with Some e => seqEpoch i <? e | None => false end
          = match newer (field d SEQ_EPOCH) (seqEpoch i) with Some b => b | None => false end) as ->.
  { by destruct Hepoch as [->|[n ->]]. }
  assert (∃ b, newer (field d SEQ_EPOCH) (seqEpoch i) = Some b) as [b Hb].
  { destruct Hepoch as [->|[n ->]]; by eexists. }
  unfold SEQUENCE_PROJECTION_SCRIPT. rewrite Hb.
  destruct Hsha as [->|(c & t & ->)].
  { cbn [asString fmap option_fmap option_map]. rewrite (bool_decide_eq_false_2 (None = _)) by done. cbn [negb].
    by destruct (negb (jdec (field d REPOSITORY_ID) _)). }
  cbn [asString fmap option_fmap option_map].
  assert (bool_decide (Some (ascii_lower (c :: t)) = Some (ascii_lower (expectedSha i))) = jeqb (ascii_lower (c :: t)) (ascii_lower (expectedSha i))) as ->.
  { apply eq_true_iff_eq. rewrite bool_decide_eq_true, jeqb_eq. split; congruence. }
  destruct (jdec (field d REPOSITORY_ID) _), (jeqb (ascii_lower _) _); cbn [negb]; try done.
  destruct (match kind i with commit => _ | pull_request => _ end); [done|].
  destruct (jdec (field d BASE_BRANCH) (JStr (baseBranch i))); cbn [andb].
  - destruct b; [done|]. by destruct (_ && _ && _).
  - done.
Qed.

(** ** What a settled outcome says *)

Section settled.
Context {S : Type} `{DocServer S} (Hlaws : DocLaws S).

(** The document of an item shows its number. *)
Definition shows (s : S) (index : jstr) (i : SequenceProjectionItem) : Prop :=
  ∃ d, doc_named s index (item_key i) = Some d ∧ classifySequenceTarget i (Some (observe (kind i) d)) = c_noop.
(** Documents of other keys stay. *)
Record touches (index : jstr) (l : list SequenceProjectionItem) (s s' : S) : Prop := {
  to_index n : es_index s' n = es_index s n;
  to_other k : k ∉ map item_key l -> doc_named s' index k = doc_named s index k
}.
Lemma touches_refl index l s : touches index l s s.
Proof. by split. Qed.
Lemma touches_trans index l s1 s2 s3 : touches index l s1 s2 -> touches index l s2 s3 -> touches index l s1 s3.
Proof. intros [A1 A2] [B1 B2]. split; [intros n; by rewrite B1, A1|intros k Hk; by rewrite B2, A2]. Qed.
Lemma touches_weaken index l l' s s' : (forall i, i ∈ l -> i ∈ l') -> touches index l s s' -> touches index l' s s'.
Proof.
  intros Hl [A1 A2]. split; [done|]. intros k Hk. apply A2. intros (i & -> & Hi)%list_elem_of_fmap.
  apply Hk, list_elem_of_fmap. exists i. auto.
Qed.
Lemma shows_kept index l s s' i : touches index l s s' -> item_key i ∉ map item_key l -> shows s index i -> shows s' index i.
Proof. intros [_ Ht] Hi (d & Hd & Hc). exists d. by rewrite Ht. Qed.

Lemma one_update index i s s' r :
  updates (projection_call index i) s s' r ->
  touches index [i] s s' ∧ (r = re_updated -> proper i -> shows s' index i).
Proof.
  intros [Hi Ho Hr]. split.
  - split; [done|]. intros k Hk. unfold doc_named. rewrite Hi. apply Ho. intros [= ->]. apply Hk. by left.
  - intros -> Hp. destruct Hr as (d & d' & _ & Hs & Hd'). exists d'. split; [exact Hd'|].
    by apply (script_writes i d d' Hp).
Qed.

Lemma all_updates index l : forall s s' rs,
  updates_all (map (projection_call index) l) s s' rs -> NoDup (map item_key l) -> Forall proper l ->
  touches index l s s' ∧ forall j i, l !! j = Some i -> rs !! j = Some re_updated -> shows s' index i.
Proof.
  induction l as [|i l IH]; intros s s' rs Hu Hnd Hp; inversion Hu; subst.
  { split; [apply touches_refl|]. intros j i Hj. by rewrite lookup_nil in Hj. }
  cbn [map] in Hnd. apply NoDup_cons in Hnd as [Hni Hnd]. apply Forall_cons_1 in Hp as [Hp1 Hp].
  match goal with Hone : updates _ _ _ _ |- _ => destruct (one_update _ _ _ _ _ Hone) as [Ht1 Hs1] end.
  match goal with Hrest : updates_all _ _ _ _ |- _ => destruct (IH _ _ _ Hrest Hnd Hp) as [Ht2 Hs2] end. split.
  - eapply touches_trans; eapply touches_weaken; [|exact Ht1| |exact Ht2].
    + intros x ->%list_elem_of_singleton. by left.
    + intros x Hx. by right.
  - intros [|j] i' Hj Hr; cbn in Hj, Hr; [|by eapply Hs2].
    injection Hj as <-. injection Hr as ->. eapply shows_kept; [exact Ht2|done|by apply Hs1].
Qed.

Lemma zip_updated seen l : forall replies o,
  o ∈ zip_replies seen l replies -> oc_kind o = k_updated ->
  ∃ j i, l !! j = Some i ∧ replies !! j = Some re_updated ∧ oc_docId o = docId i.
Proof.
  induction l as [|i l IH]; intros [|r rs] o Ho Hk; cbn [zip_replies] in Ho; try by apply elem_of_nil in Ho.
  apply elem_of_cons in Ho as [->|Ho].
  - exists 0%nat, i. split; [done|]. destruct r; cbn in Hk; [discriminate|done|discriminate|].
    destruct (status_of e =? 404); discriminate.
  - destruct (IH rs o Ho Hk) as (j & i' & ? & ? & ?). by exists (Datatypes.S j), i'.
Qed.
Lemma zip_kinds seen l : forall replies o, o ∈ zip_replies seen l replies -> oc_kind o <> k_noop.
Proof.
  induction l as [|i l IH]; intros [|r rs] o Ho; cbn [zip_replies] in Ho; try by apply elem_of_nil in Ho.
  apply elem_of_cons in Ho as [->|Ho]; [|by eapply IH]. destruct r; cbn; try done. by destruct (status_of e =? 404).
Qed.

Lemma chunks_spec index seen fuel : forall pending s s' os,
  NoDup (map item_key pending) -> Forall proper pending ->
  bulk_chunks fuel index seen pending s = (s', Ok os) ->
  touches index pending s s' ∧
  forall o, o ∈ os -> isSettledOutcome (oc_kind o) = true -> ∃ i, i ∈ pending ∧ oc_docId o = docId i ∧ shows s' index i.
Proof.
  induction fuel as [|fuel IH]; intros pending s s' os Hnd Hp Hb; cbn [bulk_chunks] in Hb.
  { injection Hb as <- <-. split; [apply touches_refl|]. intros o Ho. by apply elem_of_nil in Ho. }
  destruct pending as [|i0 pending0] eqn:Epd; [injection Hb as <- <-; split; [apply touches_refl|]; intros o Ho; by apply elem_of_nil in Ho|].
  rewrite <- Epd in *. clear Epd. set (chunk := take SEQUENCE_PROJECTION_CHUNK pending) in *.
  set (rest := drop SEQUENCE_PROJECTION_CHUNK pending) in *.
  assert (pending = chunk ++ rest) as Hsplit by (symmetry; apply take_drop).
  rewrite Hsplit, map_app in Hnd. apply NoDup_app in Hnd as (Hnd1 & Hdis & Hnd2).
  rewrite Hsplit in Hp. apply Forall_app in Hp as [Hp1 Hp2].
  destruct (law_bulk (DocLaws := Hlaws) (map (projection_call index) chunk) s) as (rs & Hu & Hrep).
  destruct (es_bulk _ s) as [s1 [replies|e]]; [|discriminate]. cbn [fst snd] in Hu, Hrep. destruct Hrep as [k ->].
  destruct (bulk_chunks fuel index seen rest s1) as [s2 [more|e]] eqn:Em; [|discriminate]. injection Hb as <- <-.
  destruct (all_updates index chunk s s1 rs Hu Hnd1 Hp1) as [Ht1 Hs1].
  destruct (IH rest s1 s2 more Hnd2 Hp2 Em) as [Ht2 Hs2]. split.
  - rewrite Hsplit. eapply touches_trans; eapply touches_weaken; [|exact Ht1| |exact Ht2]; intros x Hx; apply elem_of_app; auto.
  - intros o [Ho|Ho]%elem_of_app Hk.
    + destruct (oc_kind o) eqn:Eo; try discriminate Hk; [|by apply zip_kinds in Ho].
      destruct (zip_updated _ _ _ _ Ho Eo) as (j & i & Hj & Hr & Hid). apply lookup_take_Some in Hr as [Hr _].
      assert (i ∈ chunk) as Hin by (by eapply list_elem_of_lookup_2).
      exists i. split; [rewrite Hsplit; apply elem_of_app; by left|]. split; [done|].
      eapply shows_kept; [exact Ht2| |by eapply Hs1]. apply Hdis. by apply list_elem_of_fmap_2.
    + destruct (Hs2 o Ho Hk) as (i & Hi & Hid & Hsh). exists i. split; [|done]. rewrite Hsplit. apply elem_of_app. by right.
Qed.

Lemma read_spec index items : forall s m,
  readSequenceProjection index items s = Ok m -> NoDup (map docId items) ->
  forall i, i ∈ items -> m !! docId i = Some (option_map (observe (kind i)) (doc_named s index (item_key i))).
Proof.
  induction items as [|i items IH]; intros s m Hr Hnd i' Hi'; [by apply elem_of_nil in Hi'|].
  cbn [readSequenceProjection] in Hr. destruct (es_get index (item_key i) s) as [o|e] eqn:Eg; [|discriminate].
  apply (law_get (DocLaws := Hlaws)) in Eg as ->. destruct (readSequenceProjection index items s) as [m'|e] eqn:Er; [|discriminate].
  cbn [map] in Hnd. apply NoDup_cons in Hnd as [Hni Hnd]. specialize (IH s m' Er Hnd). injection Hr as <-.
  assert (m' !! docId i = None) as Hnone.
  { clear - Er Hni. revert m' Er. induction items as [|j items IH]; intros m' Er; cbn [readSequenceProjection] in Er.
    - injection Er as <-. apply lookup_empty.
    - destruct (es_get index (item_key j) s) as [o|e]; [|discriminate].
      destruct (readSequenceProjection index items s) as [m1|e]; [|discriminate]. injection Er as <-.
      cbn [map] in Hni. apply not_elem_of_cons in Hni as [Hne Hni]. specialize (IH Hni m1 eq_refl).
      destruct (m1 !! docId j); [done|]. by rewrite lookup_insert_ne. }
  rewrite Hnone. apply elem_of_cons in Hi' as [->|Hi']; [by rewrite lookup_insert_eq|].
  rewrite lookup_insert_ne; [by apply IH|]. intros He. apply Hni. rewrite He. by apply list_elem_of_fmap_2.
Qed.

Lemma outcomes_in_elem {A B} (l : list (A + B)) a : a ∈ outcomes_in l <-> inl a ∈ l.
Proof.
  unfold outcomes_in. rewrite list_elem_of_omap. split; [|intros Hl; by exists (inl a)].
  intros ([x|y] & Hx & He); [by injection He as ->|discriminate].
Qed.
Lemma pending_in_elem {A B} (l : list (A + B)) b : b ∈ pending_in l <-> inr b ∈ l.
Proof.
  unfold pending_in. rewrite list_elem_of_omap. split; [|intros Hl; by exists (inr b)].
  intros ([x|y] & Hx & He); [discriminate|by injection He as ->].
Qed.
(** What is written is a part of the items, in their order. *)
Lemma pending_sublist dryRun seen items : pending_in (map (fun i => judge dryRun i (seen i)) items) `sublist_of` items.
Proof.
  induction items as [|i items IH]; [constructor|]. cbn [map pending_in omap list_omap].
  destruct (judge dryRun i (seen i)) as [o|i'] eqn:Ej; [by apply sublist_cons|].
  unfold judge in Ej. destruct (classifySequenceTarget i (seen i)), dryRun; try discriminate. injection Ej as <-. by apply sublist_skip.
Qed.

Lemma settled_shows index items dryRun s s' os i o :
  NoDup (map docId items) -> Forall proper items -> projectIntoIndex index items dryRun s = (s', Ok os) ->
  i ∈ items -> o ∈ os -> oc_docId o = docId i -> isSettledOutcome (oc_kind o) = true -> shows s' index i.
Proof.
  intros Hnd Hp Hr Hi Ho Hid Hset. unfold projectIntoIndex in Hr.
  destruct (readSequenceProjection index items s) as [m|e] eqn:Er; [|discriminate]. pose proof (read_spec _ _ _ _ Er Hnd) as Hm.
  set (seen := fun i => default None (m !! docId i)) in Hr. set (judged := map _ items) in Hr.
  destruct (bulk_chunks (length items) index seen (pending_in judged) s) as [s1 [sent|e]] eqn:Eb; [|discriminate].
  injection Hr as <- <-. rewrite merge_sort_Permutation in Ho.
  pose proof (pending_sublist dryRun seen items) as Hsub. change (map (fun i => judge dryRun i (seen i)) items) with judged in Hsub.
  assert (NoDup (map item_key items)) as Hkeys.
  { clear - Hnd. induction items as [|j items IH]; [constructor|]. cbn [map] in *.
    apply NoDup_cons in Hnd as [Hni Hnd]. apply NoDup_cons. split; [|by apply IH].
    intros (x & Hx & Hin)%list_elem_of_fmap. apply Hni. unfold item_key in Hx. injection Hx as _ Hx. rewrite Hx.
    by apply list_elem_of_fmap_2. }
  assert (NoDup (map item_key (pending_in judged))) as Hpk.
  { eapply sublist_NoDup; [exact Hkeys|by apply (fmap_sublist item_key)]. }
  assert (Forall proper (pending_in judged)) as Hpp.
  { apply Forall_forall. intros x Hx. apply (proj1 (Forall_forall _ _) Hp). by eapply elem_of_sublist. }
  destruct (chunks_spec index seen _ _ _ _ _ Hpk Hpp Eb) as [Ht Hs].
  assert (forall j, j ∈ items -> docId j = docId i -> j = i) as Huniq.
  { intros j Hj He. apply list_elem_of_lookup in Hj as [a Ha]. apply list_elem_of_lookup in Hi as [b Hb].
    assert (a = b) as ->; [|congruence]. eapply NoDup_lookup; [exact Hnd|..]; rewrite list_lookup_fmap; [by rewrite Ha|].
    rewrite Hb. cbn. by rewrite He. }
  apply elem_of_app in Ho as [Ho|Ho].
  - apply outcomes_in_elem, list_elem_of_fmap in Ho as (j & Hj & Hjin).
    assert (oc_kind o = k_noop ∧ classifySequenceTarget j (seen j) = c_noop ∧ oc_docId o = docId j) as (_ & Ec & Hoj).
    { change (inl o = judge dryRun j (seen j)) in Hj. unfold judge in Hj.
      destruct (classifySequenceTarget j (seen j)), dryRun; cbn in Hj; try discriminate;
        injection Hj as ->; done || discriminate Hset. }
    rewrite Hoj in Hid. rewrite (Huniq j Hjin Hid) in *. clear Hid.
    unfold seen in Ec. rewrite (Hm i Hi) in Ec. cbn [default from_option id] in Ec.
    destruct (doc_named s index (item_key i)) as [d|] eqn:Ed; cbn [option_map] in Ec; [|discriminate].
    exists d. split; [|done]. rewrite (to_other _ _ _ _ Ht); [done|].
    intros (x & Hx & Hxin)%list_elem_of_fmap. assert (x = i) as ->.
    { apply Huniq; [by eapply elem_of_sublist|]. unfold item_key in Hx. by injection Hx as _ ->. }
    apply pending_in_elem, list_elem_of_fmap in Hxin as (j2 & Hjj & Hjjin).
    change (inr i = judge dryRun j2 (seen j2)) in Hjj. unfold judge in Hjj.
    destruct (classifySequenceTarget j2 (seen j2)) eqn:Ecj, dryRun; try discriminate. injection Hjj as <-.
    unfold seen in Ecj. rewrite (Hm i Hjjin), Ed in Ecj. cbn [default from_option id option_map] in Ecj. congruence.
  - destruct (Hs o Ho Hset) as (j & Hj & Hjd & Hsh). rewrite Hid in Hjd. rewrite <- (Huniq j); [done| |done].
    by eapply elem_of_sublist.
Qed.
End settled.
End SequenceProjection.

(** ** Theorems *)

Import SequenceProjection.

(** What is read before a projection and what its script checks again agree on every document
    whose fields have the types of the mapping: the script writes exactly when the reading said
    so, and after the writing the reading says that there is nothing left to do. *)
Theorem sequence_guards_agree i d :
  plain (kind i) d -> proper i ->
  match classifySequenceTarget i (Some (observe (kind i) d)) with
  | c_write => SEQUENCE_PROJECTION_SCRIPT i d = s_write (assign i d) ∧
      classifySequenceTarget i (Some (observe (kind i) (assign i d))) = c_noop
  | c_missing => False
  | _ => SEQUENCE_PROJECTION_SCRIPT i d = s_noop
  end.
Proof.
  intros Hpl Hp. pose proof (guards_agree i d Hpl Hp) as Hg.
  destruct (classifySequenceTarget i (Some (observe (kind i) d))); try done. split; [exact Hg|]. by eapply script_writes.
Qed.


(** The pull requests of a commit come to those of the newest generation whatever the order in
    which the generations are written, and an older one never takes them back. *)
Theorem commit_links_converge l l' d0 :
  l <> [] -> field d0 CommitLinks.PR_LINKS_GENERATION = JNull -> (forall u, u ∈ l <-> u ∈ l') ->
  (forall u v, u ∈ l -> v ∈ l -> CommitLinks.pl_generation u = CommitLinks.pl_generation v -> u = v) ->
  foldl CommitLinks.apply_links d0 l = foldl CommitLinks.apply_links d0 l' ∧
  ∃ u, u ∈ l ∧ (forall v, v ∈ l -> CommitLinks.pl_generation v <= CommitLinks.pl_generation u) ∧
    foldl CommitLinks.apply_links d0 l = CommitLinks.assigned u d0.
Proof.
  intros Hne H0 He Hs. destruct (CommitLinks.links_newest l d0 Hne H0 Hs) as (u & Hu & Hmax & Hf).
  destruct (CommitLinks.links_newest l' d0) as (v & Hv & Hmax' & Hf').
  { intros ->. destruct l as [|x l]; [done|]. apply (elem_of_nil x), He. by left. }
  { done. }
  { intros x y Hx Hy. apply Hs; by apply He. }
  split; [|by exists u]. rewrite Hf, Hf'. f_equal. apply Hs; [done|by apply He|].
  pose proof (Hmax v (proj2 (He v) Hv)). pose proof (Hmax' u (proj1 (He u) Hu)). lia.
Qed.

(** *** A commit of the sample space *)

Definition sample_item (seq : Z) : SequenceProjectionItem :=
  mkItem commit (js "7:aa") 7 (js "main") 1 (js "acme/app@main") (js "AA") seq false.
Definition sample_commit : Source :=
  {[js "repository_id" := JNum 7; js "commit_sha" := JStr (js "aa")]}.
Definition commit_index : ModelIndex := mkModelIndex ∅ {[(js "prs-commits", (js "7", js "7:aa")) := sample_commit]}.
Lemma sample_proper n : proper (sample_item n).
Proof. split; vm_compute; discriminate. Qed.
Lemma sequence_guards_agree_witness :
  plain commit sample_commit ∧ SEQUENCE_PROJECTION_SCRIPT (sample_item 3) sample_commit = s_write (assign (sample_item 3) sample_commit).
Proof.
  assert (plain commit sample_commit) as Hpl.
  { split; [right; exists 97%N, [97%N]; reflexivity|right; exists 7; reflexivity|left; reflexivity..]. }
  split; [exact Hpl|]. pose proof (sequence_guards_agree (sample_item 3) sample_commit Hpl (sample_proper 3)) as Hg.
  assert (classifySequenceTarget (sample_item 3) (Some (observe (kind (sample_item 3)) sample_commit)) = c_write) as Hc
    by (vm_compute; reflexivity).
  rewrite Hc in Hg. exact (proj1 Hg).
Defined.

Definition sample_projection := projectIntoIndex (js "prs-commits") [sample_item 3] false commit_index.
Lemma commit_links_converge_witness :
  let l := [CommitLinks.mkLinks [70] 1 CommitLinks.partial; CommitLinks.mkLinks [70; 71] 2 CommitLinks.verified] in
  foldl CommitLinks.apply_links sample_commit l = foldl CommitLinks.apply_links sample_commit (rev l) ∧
  ∃ u, u ∈ l ∧ (forall v, v ∈ l -> CommitLinks.pl_generation v <= CommitLinks.pl_generation u) ∧
    foldl CommitLinks.apply_links sample_commit l = CommitLinks.assigned u sample_commit.
Proof.
  apply (commit_links_converge
    [CommitLinks.mkLinks [70] 1 CommitLinks.partial; CommitLinks.mkLinks [70; 71] 2 CommitLinks.verified]).
  - discriminate.
  - reflexivity.
  - intros u. rewrite !list_elem_of_In, <- in_rev. tauto.
  - intros u v Hu Hv. apply elem_of_cons in Hu as [->|Hu]; [|apply list_elem_of_singleton in Hu as ->];
      (apply elem_of_cons in Hv as [->|Hv]; [|apply list_elem_of_singleton in Hv as ->]); (reflexivity || discriminate).
Defined.

(** An empty branch is absent for the reading and another branch for the script. *)
Example empty_branch :
  let d := <[js "base_branch" := JStr []]> sample_commit in
  classifySequenceTarget (sample_item 3) (Some (observe commit d)) = c_write ∧
  SEQUENCE_PROJECTION_SCRIPT (sample_item 3) d = s_noop.
Proof. split; vm_compute; reflexivity. Qed.
