(* ===== verification/Jobs.v ===== *)
(** * Jobs

    The table of jobs ([packages/db/src/repositories/job.ts]): queueing, claiming under a bound on
    the running jobs of a type, finishing, and what an operator may do with a job in each state.
    The progress of a job is its own data, a parameter here.  A statement is a function of the
    table; a claim is one statement, for it holds the claim lock of its type ([jobClaimLockKey])
    from the count of running jobs to its commit. *)

From stdpp Require Import base option strings numbers relations sorting list.
From Stdlib Require Import ZArith Lia.
From S2P Require Import Prelude JsString.
Open Scope Z_scope.

Inductive JobType : Set :=
  backfill | reconcile | reindex | sequence_assign | sequence_reassign | sequence_integrity | link_rebuild | export
| snapshot_bootstrap | sequence_reproject | pr_link_repair | mnumber_tag_reconcile.
#[export] Instance JobType_eq_dec : EqDecision JobType.
Proof. solve_decision. Defined.
Inductive JobState : Set := queued | running | paused | completed | failed | cancelled.
#[export] Instance JobState_eq_dec : EqDecision JobState.
Proof. solve_decision. Defined.

Definition ACTIVE_JOB_STATES : list JobState := [queued; running; paused].
Definition DEFAULT_MAX_CONCURRENT_JOBS : nat := 3.

Inductive JobAction : Set := pause | resume | cancel.
Definition ALLOWED_FROM (a : JobAction) : list JobState :=
  match a with pause => [queued; running] | resume => [paused] | cancel => [queued; running; paused] end.
Definition NEXT_STATE (a : JobAction) : JobState :=
  match a with pause => paused | resume => queued | cancel => cancelled end.
Definition JOB_ACTION_ORDER : list JobAction := [pause; resume; cancel].
Definition allowedActionsFor (s : JobState) : list JobAction :=
  List.filter (fun a => bool_decide (s ∈ ALLOWED_FROM a)) JOB_ACTION_ORDER.

Section table.
(** The progress of a job and its saved cursor. *)
Context {P C : Type}.

Record JobRow : Type := mkJob {
  job_id : Z; type : JobType; target : jstr; state : JobState; progress : P; cursor : option C;
  requested_by : jstr; started_at : option Z; finished_at : option Z; error : option jstr
}.
(** The rows by ascending [job_id], and the next value of its sequence. *)
Record JobTable : Type := mkJobs { jobs : list JobRow; next_id : Z }.

Definition active (j : JobRow) : bool := bool_decide (state j ∈ ACTIVE_JOB_STATES).
Definition of_type (t : JobType) (j : JobRow) : bool := bool_decide (type j = t).
Definition of_target (t : JobType) (to : jstr) (j : JobRow) : bool := of_type t j && jeqb (target j) to.
Definition is_running (j : JobRow) : bool := bool_decide (state j = running).

Definition set_state (s : JobState) (started finished : option Z) (err : option jstr) (j : JobRow) : JobRow :=
  mkJob (job_id j) (type j) (target j) s (progress j) (cursor j) (requested_by j) started finished err.
(** [UPDATE job … WHERE job_id = …] and another condition; whether it had a row. *)
Definition update_job (id : Z) (ok : JobRow -> bool) (f : JobRow -> JobRow) (db : JobTable) : JobTable :=
  mkJobs (map (fun j => if (job_id j =? id) && ok j then f j else j) (jobs db)) (next_id db).
Definition has_job (id : Z) (ok : JobRow -> bool) (db : JobTable) : bool :=
  existsb (fun j => (job_id j =? id) && ok j) (jobs db).

Definition findJobById (id : Z) (db : JobTable) : option JobRow := find (fun j => job_id j =? id) (jobs db).
Definition findJobState (id : Z) (db : JobTable) : option JobState := option_map state (findJobById id db).
Definition isJobRunning (id : Z) (db : JobTable) : bool := bool_decide (findJobState id db = Some running).
Definition findActiveJob (t : JobType) (to : jstr) (db : JobTable) : option JobRow :=
  find (fun j => of_target t to j && active j) (jobs db).

(** [job_active_uk] allows one active job of a type and a target: [None] when it is violated. *)
Definition enqueueJob (t : JobType) (to requestedBy : jstr) (p : P) (db : JobTable) : option (JobTable * Z) :=
  match findActiveJob t to db with
  | Some _ => None
  | None => Some (mkJobs (jobs db ++ [mkJob (next_id db) t to queued p None requestedBy None None None]) (next_id db + 1),
                  next_id db)
  end.
Definition updateJobProgress (id : Z) (p : P) (c : option C) (db : JobTable) : JobTable :=
  update_job id (fun _ => true)
    (fun j => mkJob (job_id j) (type j) (target j) (state j) p c (requested_by j) (started_at j) (finished_at j) (error j)) db.
Definition finishJob (id : Z) (s : JobState) (err : option jstr) (now : Z) (db : JobTable) : JobTable :=
  update_job id (fun _ => true) (fun j => set_state s (started_at j) (Some now) err j) db.
Definition finishJobIfRunning (id : Z) (s : JobState) (err : option jstr) (now : Z) (db : JobTable) : JobTable * bool :=
  (update_job id is_running (fun j => set_state s (started_at j) (Some now) err j) db, has_job id is_running db).

Definition running_count (t : JobType) (db : JobTable) : nat :=
  length (List.filter (fun j => of_type t j && is_running j) (jobs db)).
(** [FOR UPDATE SKIP LOCKED]: rows that another transaction has locked are passed over. *)
Definition claimNextJob (t : JobType) (maxConcurrent : nat) (locked : Z -> bool) (now : Z) (db : JobTable)
  : JobTable * option JobRow :=
  if (maxConcurrent <=? running_count t db)%nat then (db, None)
  else match find (fun j => of_type t j && bool_decide (state j = queued) && negb (locked (job_id j))) (jobs db) with
       | None => (db, None)
       | Some row =>
         let claim j := set_state running (Some (default now (started_at j))) (finished_at j) (error j) j in
         (update_job (job_id row) (fun _ => true) claim db, Some (claim row))
       end.

Definition transitionJob (id : Z) (a : JobAction) (now : Z) (db : JobTable) : JobTable * option JobRow :=
  let ok j := bool_decide (state j ∈ ALLOWED_FROM a) in
  let next := NEXT_STATE a in
  let move j := set_state next (started_at j) (if bool_decide (next = cancelled) then Some now else finished_at j) (error j) j in
  (update_job id ok move db, option_map move (find (fun j => (job_id j =? id) && ok j) (jobs db))).

Definition listJobs (t : option JobType) (s : option JobState) (limit : option nat) (db : JobTable) : list JobRow :=
  take (default 20%nat limit)
    (rev (List.filter (fun j => match t with Some t => of_type t j | None => true end
                             && match s with Some s => bool_decide (state j = s) | None => true end) (jobs db))).

(** ** One active job of a target, and a bound on the running ones *)

Record table_ok (limit : JobType -> nat) (db : JobTable) : Prop := {
  ok_ids : StronglySorted Z.lt (map job_id (jobs db));
  ok_next : Forall (fun j => job_id j < next_id db) (jobs db);
  ok_one t to : (length (List.filter (fun j => of_target t to j && active j) (jobs db)) <= 1)%nat;
  ok_running t : (running_count t db <= limit t)%nat
}.

(** The statements of the code, with the states that they set. *)
Inductive job_step (limit : JobType -> nat) : JobTable -> JobTable -> Prop :=
| js_enqueue t to by_ p db db' id : enqueueJob t to by_ p db = Some (db', id) -> job_step limit db db'
| js_progress id p c db : job_step limit db (updateJobProgress id p c db)
| js_finish id s err now db : s ∈ [completed; failed; cancelled] -> job_step limit db (finishJob id s err now db)
| js_finish_running id s err now db :
    s ∈ [completed; failed] -> job_step limit db (finishJobIfRunning id s err now db).1
| js_claim t locked now db : job_step limit db (claimNextJob t (limit t) locked now db).1
| js_transition id a now db : job_step limit db (transitionJob id a now db).1.

Definition no_jobs : JobTable := mkJobs [] 1.
End table.
Arguments JobRow : clear implicits.
Arguments JobTable : clear implicits.

Section invariant.
Context {P C : Type}.
Implicit Types (db : JobTable P C) (j : JobRow P C) (l : list (JobRow P C)).

(** What identifies a job never changes. *)
Definition same_job j j' : Prop := job_id j' = job_id j ∧ type j' = type j ∧ target j' = target j.
Lemma set_state_same s a b e j : same_job j (set_state s a b e j).
Proof. done. Qed.

Lemma filter_map_le (p : JobRow P C -> bool) g l :
  (forall j, j ∈ l -> p (g j) = true -> p j = true) ->
  (length (List.filter p (map g l)) <= length (List.filter p l))%nat.
Proof.
  induction l as [|j l IH]; intros Hg; [done|]. cbn [map List.filter].
  assert (length (List.filter p (map g l)) <= length (List.filter p l))%nat as Hl.
  { apply IH. intros x Hx. apply Hg. by right. }
  destruct (p (g j)) eqn:E; [|destruct (p j); cbn [length]; lia].
  rewrite (Hg j) by (by left || done). cbn [length]. lia.
Qed.
Lemma filter_map_one (p : JobRow P C -> bool) id g l :
  NoDup (map job_id l) -> (forall j, job_id j <> id -> g j = j) ->
  (length (List.filter p (map g l)) <= S (length (List.filter p l)))%nat.
Proof.
  intros Hnd Hg. induction l as [|j l IH]; [cbn; lia|]. cbn [map] in Hnd. apply NoDup_cons in Hnd as [Hni Hnd]. cbn [map List.filter].
  destruct (decide (job_id j = id)) as [<-|Hne].
  - assert (map g l = l) as ->.
    { rewrite <- (map_id l) at 2. apply map_ext_in. intros x Hx%list_elem_of_In. apply Hg. intros He.
      apply Hni. rewrite <- He. by apply list_elem_of_fmap_2. }
    destruct (p (g j)), (p j); cbn [length]; lia.
  - rewrite Hg by done. specialize (IH Hnd). destruct (p j); cbn [length]; lia.
Qed.

Lemma ids_nodup limit db : table_ok limit db -> NoDup (map job_id (jobs db)).
Proof.
  intros [Hs _ _ _]. revert Hs. generalize (map job_id (jobs db)) as k. intros k.
  induction 1 as [|x k _ IH Hx]; constructor; [|done]. intros Hin. rewrite Forall_forall in Hx. by apply Hx in Hin; lia.
Qed.
Lemma update_ids id ok f db :
  (forall j, same_job j (f j)) -> map job_id (jobs (update_job id ok f db)) = map job_id (jobs db).
Proof.
  intros Hf. cbn [jobs update_job]. rewrite map_map. apply map_ext. intros j. destruct (_ && _); [apply Hf|done].
Qed.

(** An update that starts no job and wakes none. *)
Lemma update_ok limit id ok f db :
  (forall j, same_job j (f j)) ->
  (forall j, j ∈ jobs db -> job_id j = id -> ok j = true -> active (f j) = true -> active j = true) ->
  (forall t, (running_count t (update_job id ok f db) <= limit t)%nat) ->
  table_ok limit db -> table_ok limit (update_job id ok f db).
Proof.
  intros Hf Ha Hr Hok. pose proof (update_ids id ok f db Hf) as Hids. destruct Hok as [Hs Hn Ho _]. split; [by rewrite Hids| | |done].
  - cbn [jobs update_job next_id]. apply Forall_map. eapply Forall_impl; [exact Hn|]. intros j Hj.
    destruct (_ && _); [by rewrite (proj1 (Hf j))|done].
  - intros t to. etransitivity; [|apply (Ho t to)]. apply filter_map_le. intros j Hj.
    destruct ((job_id j =? id) && ok j) eqn:E; [|done]. apply andb_true_iff in E as [E1%Z.eqb_eq E2].
    unfold of_target, of_type. destruct (Hf j) as (_ & -> & ->). rewrite !andb_true_iff. intros [? ?]. by split; [|apply Ha].
Qed.
Lemma update_not_running t id ok f db :
  (forall j, same_job j (f j)) ->
  (forall j, j ∈ jobs db -> ok j = true -> is_running (f j) = true -> is_running j = true) ->
  (running_count t (update_job id ok f db) <= running_count t db)%nat.
Proof.
  intros Hf Hr. apply filter_map_le. intros j Hj. destruct ((job_id j =? id) && ok j) eqn:E; [|done].
  apply andb_true_iff in E as [_ E2]. unfold of_type. destruct (Hf j) as (_ & -> & _). rewrite !andb_true_iff.
  intros [? ?]. by split; [|apply Hr].
Qed.

Lemma find_elem (p : JobRow P C -> bool) l j : find p l = Some j -> j ∈ l ∧ p j = true.
Proof. intros [H%list_elem_of_In ?]%find_some. done. Qed.

Lemma same_id limit db i j : table_ok limit db -> i ∈ jobs db -> j ∈ jobs db -> job_id i = job_id j -> i = j.
Proof.
  intros Hok Hi Hj He. apply list_elem_of_lookup in Hi as [a Ha]. apply list_elem_of_lookup in Hj as [b Hb].
  assert (a = b) as ->; [|congruence]. eapply NoDup_lookup; [by eapply ids_nodup|..]; rewrite list_lookup_fmap; [by rewrite Ha|].
  rewrite Hb. cbn. by rewrite He.
Qed.

Lemma claim_ok limit t locked now db : table_ok limit db -> table_ok limit (claimNextJob t (limit t) locked now db).1.
Proof.
  intros Hok. unfold claimNextJob. destruct (Nat.leb_spec (limit t) (running_count t db)) as [|Hlt]; [done|].
  destruct (find _ (jobs db)) as [row|] eqn:Ef; [|done]. apply find_elem in Ef as [Hin Hrow].
  rewrite !andb_true_iff, bool_decide_eq_true in Hrow. destruct Hrow as [[Ht Hq] _]. cbn [fst].
  apply update_ok; [done| | |done].
  - intros j Hj He _ _. rewrite (same_id limit db j row Hok Hj Hin He). unfold active. rewrite Hq. done.
  - intros t'. destruct (decide (t' = t)) as [->|Hne].
    + unfold running_count in *. etransitivity; [apply (filter_map_one _ (job_id row))|exact Hlt]; [by eapply ids_nodup|].
      intros j Hj%Z.eqb_neq. by rewrite Hj.
    + etransitivity; [|apply (ok_running limit db Hok t')]. apply filter_map_le. intros j Hj.
      destruct ((job_id j =? job_id row) && true) eqn:E; [|done]. rewrite andb_true_r, Z.eqb_eq in E.
      rewrite (same_id limit db j row Hok Hj Hin E). unfold of_type in *. cbn [type set_state]. rewrite bool_decide_eq_true in Ht.
      by rewrite bool_decide_eq_false_2 by congruence.
Qed.

Lemma enqueue_ok limit t to by_ p db db' id :
  enqueueJob t to by_ p db = Some (db', id) -> table_ok limit db -> table_ok limit db'.
Proof.
  unfold enqueueJob, findActiveJob. destruct (find _ _) eqn:Ef; [done|]. intros [= <- <-] [Hs Hn Ho Hr]. split; cbn [jobs next_id].
  - rewrite map_app. cbn [map job_id]. revert Hs Hn. generalize (next_id db) as n. clear. intros n.
    induction (jobs db) as [|j l IH]; intros Hs Hn; [by repeat constructor|]. cbn [map app] in *.
    apply StronglySorted_inv in Hs as [Hs Hf]. apply Forall_cons in Hn as [Hj Hn]. constructor; [by apply IH|].
    apply Forall_app. by split; [|constructor].
  - apply Forall_app. split; [eapply Forall_impl; [exact Hn|]; intros x Hx; cbn beta in *; lia|]. constructor; [cbn [job_id]; lia|done].
  - intros t' to'. rewrite List.filter_app, length_app. cbn [List.filter]. destruct (_ && active (mkJob _ _ _ _ _ _ _ _ _ _)) eqn:E; cbn [length]; [|rewrite Nat.add_0_r; apply Ho].
    unfold of_target, of_type in E. cbn [type target] in E. rewrite !andb_true_iff, bool_decide_eq_true, jeqb_eq in E.
    destruct E as [[<- <-] _]. assert (List.filter (fun j => of_target t to j && active j) (jobs db) = []) as ->; [|done].
    apply (elem_of_nil_inv). intros j [Hj Hp]%elem_filter. eapply find_none in Ef; [|by apply list_elem_of_In]. cbn in Ef. congruence.
  - intros t'. unfold running_count in *. cbn [jobs]. rewrite List.filter_app, length_app. cbn [List.filter].
    match goal with |- context [is_running ?j] => change (is_running j) with false end. rewrite andb_false_r.
    cbn [length]. rewrite Nat.add_0_r. apply Hr.
Qed.

Lemma finished_ends s : s ∈ [completed; failed; cancelled] ->
  s ∉ ACTIVE_JOB_STATES ∧ s <> running.
Proof.
  intros Hs%(bool_decide_eq_true_2 (s ∈ _)). split; [|by destruct s]. intros Ha%(bool_decide_eq_true_2 (s ∈ _)). by destruct s.
Qed.
Lemma woken a s : s ∈ ALLOWED_FROM a -> s ∈ ACTIVE_JOB_STATES ∧ NEXT_STATE a <> running.
Proof.
  intros Hs. split; [|by destruct a]. apply (bool_decide_eq_true_1 (s ∈ _)). apply (bool_decide_eq_true_2 (s ∈ _)) in Hs.
  by destruct a, s.
Qed.
Lemma job_step_ok limit db db' : job_step limit db db' -> table_ok limit db -> table_ok limit db'.
Proof.
  assert (forall id ok f db, (forall j, same_job j (f j)) -> (forall j, j ∈ jobs db -> ok j = true -> active (f j) = true -> active j = true) ->
    (forall j, j ∈ jobs db -> ok j = true -> is_running (f j) = true -> is_running j = true) ->
    table_ok limit db -> table_ok limit (update_job id ok f db)) as Hup.
  { intros id ok f db0 Hf Ha Hr Hok. apply update_ok; [done|eauto| |done]. intros t.
    etransitivity; [by apply update_not_running|apply Hok]. }
  intros [t to by_ p db0 db1 id He|id p c db0|id s err now db0 Hs|id s err now db0 Hs|t locked now db0|id a now db0] Hok.
  - by eapply enqueue_ok.
  - by apply Hup.
  - destruct (finished_ends s Hs) as [Ha Hr]. apply Hup; [done|intros j _ _ H..|done]; exfalso;
      [apply Ha|apply Hr]; by apply bool_decide_eq_true_1 in H.
  - destruct (finished_ends s) as [Ha Hr]; [by apply (elem_of_app [completed; failed] [cancelled]); left|].
    apply Hup; [done|intros j _ _ H..|done]; exfalso; [apply Ha|apply Hr]; by apply bool_decide_eq_true_1 in H.
  - by apply claim_ok.
  - apply Hup; [done|intros j _ Hj Ha..|done].
    + rewrite bool_decide_eq_true in Hj. unfold active. apply bool_decide_eq_true. by apply woken in Hj as [? _].
    + rewrite bool_decide_eq_true in Hj. apply woken in Hj as [_ Hn]. unfold is_running in Ha. cbn [state set_state] in Ha.
      by rewrite bool_decide_eq_true in Ha.
Qed.

Lemma update_keeps id ok f db j :
  j ∈ jobs db -> (forall x, same_job x (f x)) -> (ok j = true -> active (f j) = true -> active j = true) ->
  ∃ j', j' ∈ jobs (update_job id ok f db) ∧ same_job j j' ∧ (active j' = true -> active j = true).
Proof.
  intros Hj Hf Ha. exists (if (job_id j =? id) && ok j then f j else j). split; [by apply list_elem_of_fmap; exists j|].
  destruct (_ && _) eqn:E; [|done]. apply andb_true_iff in E as [_ E]. split; [apply Hf|by apply Ha].
Qed.
(** A job that has ended stays ended. *)
Lemma step_finished limit db db' j :
  table_ok limit db -> job_step limit db db' -> j ∈ jobs db -> ∃ j', j' ∈ jobs db' ∧ same_job j j' ∧ (active j' = true -> active j = true).
Proof.
  assert (forall s, s ∉ ACTIVE_JOB_STATES -> forall a b e, active (set_state s a b e j) = true -> active j = true) as Hend.
  { intros s Hs a b e Ha. exfalso. apply Hs. by apply bool_decide_eq_true_1 in Ha. }
  intros Hok Hst Hj. destruct Hst as [t to by_ p db0 db1 id He|id p c db0|id s err now db0 Hs|id s err now db0 Hs|t locked now db0|id a now db0].
  - unfold enqueueJob in He. destruct (findActiveJob t to db0); [done|]. injection He as <- <-. exists j.
    split; [apply elem_of_app; by left|done].
  - by apply update_keeps.
  - apply update_keeps; [done..|]. intros _. by apply Hend, finished_ends.
  - apply update_keeps; [done..|]. intros _. apply Hend, finished_ends. apply (elem_of_app [completed; failed] [cancelled]). by left.
  - unfold claimNextJob. destruct (limit t <=? running_count t db0)%nat; [by exists j|]. destruct (find _ (jobs db0)) as [row|] eqn:Ef; [|by exists j].
    apply find_elem in Ef as [Hin Hrow]. cbn [fst]. rewrite !andb_true_iff, bool_decide_eq_true in Hrow. destruct Hrow as [[_ Hq] _].
    destruct (decide (job_id j = job_id row)) as [He|Hne].
    + apply update_keeps; [done..|]. intros _ _. rewrite (same_id limit db0 j row Hok Hj Hin He). unfold active. by rewrite Hq.
    + exists j. split; [|done]. apply list_elem_of_fmap. exists j. split; [|done]. by rewrite (proj2 (Z.eqb_neq _ _) Hne).
  - apply update_keeps; [done..|]. intros Hs _. apply bool_decide_eq_true. rewrite bool_decide_eq_true in Hs.
    by apply woken in Hs as [? _].
Qed.
Lemma steps_ok limit db db' : rtc (job_step limit) db db' -> table_ok limit db -> table_ok limit db'.
Proof. induction 1; [done|]. intros Hok. by apply IHrtc, (job_step_ok limit x y). Qed.
End invariant.

(** ** Theorems *)

(** Whatever the statements of runners, operators and requests and their order: no more jobs of
    a type run than its limit, a target has one active job of a type, ids never repeat, and a
    job that has ended (completed, failed or cancelled) never becomes active again. *)
Theorem jobs_bounded {P C} limit (db db' : JobTable P C) :
  rtc (job_step limit) no_jobs db -> rtc (job_step limit) db db' ->
  (forall t, (running_count t db' <= limit t)%nat) ∧
  (forall t to, (length (List.filter (fun j => of_target t to j && active j) (jobs db')) <= 1)%nat) ∧
  NoDup (map job_id (jobs db')) ∧
  forall j, j ∈ jobs db -> active j = false -> ∃ j', j' ∈ jobs db' ∧ same_job j j' ∧ active j' = false.
Proof.
  intros H0 Hs. assert (table_ok limit db) as Hok.
  { eapply steps_ok; [exact H0|]. split; [constructor|constructor|intros; cbn; lia|intros; cbn; lia]. }
  pose proof (steps_ok _ _ _ Hs Hok) as Hok'. split_and!; [apply Hok'|apply Hok'|by eapply ids_nodup|].
  clear Hok' H0. induction Hs as [x|x y z Hxy _ IH]; intros j Hj Ha; [by exists j|].
  destruct (step_finished limit x y j Hok Hxy Hj) as (j1 & Hj1 & Hs1 & Ha1).
  destruct (IH (job_step_ok _ _ _ Hxy Hok) j1 Hj1) as (j2 & Hj2 & Hs2 & Ha2); [by destruct (active j1); [rewrite Ha1 in Ha|]|].
  exists j2. split; [done|]. split; [|done]. unfold same_job in *. intuition congruence.
Qed.

(** *** Two requests, a claim that is paused, resumed and claimed again *)

Definition sample_limit (t : JobType) : nat := match t with reindex => 1%nat | _ => DEFAULT_MAX_CONCURRENT_JOBS end.
Definition one_queued : JobTable unit unit :=
  mkJobs [mkJob 1 reindex (js "prs-links") queued tt None (js "kim") None None None] 2.
Definition one_running : JobTable unit unit := (claimNextJob reindex 1 (fun _ => false) 10 one_queued).1.
Definition two_queued : JobTable unit unit :=
  default no_jobs (option_map fst (enqueueJob reindex (js "prs-commits") (js "lee") tt one_running)).
Definition cancelled_first : JobTable unit unit := (transitionJob 1 cancel 20 two_queued).1.
Definition second_runs : JobTable unit unit := (claimNextJob reindex 1 (fun _ => false) 30 cancelled_first).1.
Example claim_waits : (claimNextJob reindex 1 (fun _ => false) 15 two_queued).2 = None.
Proof. reflexivity. Qed.
Lemma jobs_bounded_witness :
  map state (jobs second_runs) = [cancelled; running] ∧ (running_count reindex second_runs <= 1)%nat ∧
  ∃ j', j' ∈ jobs second_runs ∧ job_id j' = 1 ∧ active j' = false.
Proof.
  split; [reflexivity|].
  assert (rtc (job_step sample_limit) no_jobs cancelled_first) as H1.
  { eapply rtc_l; [exact (js_enqueue sample_limit reindex (js "prs-links") (js "kim") tt no_jobs one_queued 1 eq_refl)|].
    eapply rtc_l; [exact (js_claim sample_limit reindex (fun _ => false) 10 one_queued)|].
    eapply rtc_l; [exact (js_enqueue sample_limit reindex (js "prs-commits") (js "lee") tt one_running two_queued 2 eq_refl)|].
    eapply rtc_l; [exact (js_transition sample_limit 1 cancel 20 two_queued)|]. apply rtc_refl. }
  assert (rtc (job_step sample_limit) cancelled_first second_runs) as H2.
  { eapply rtc_l; [exact (js_claim sample_limit reindex (fun _ => false) 30 cancelled_first)|]. apply rtc_refl. }
  destruct (jobs_bounded sample_limit cancelled_first second_runs H1 H2) as (Hr & _ & _ & Hf).
  split; [exact (Hr reindex)|].
  destruct (Hf (mkJob 1 reindex (js "prs-links") cancelled tt None (js "kim") (Some 10) (Some 20) None)) as (j' & Hj & Hs & Ha).
  - apply list_elem_of_here.
  - reflexivity.
  - exists j'. split; [exact Hj|]. split; [exact (proj1 Hs)|exact Ha].
Defined.
