(* ===== verification/Documents.v ===== *)
(** * Documents of an event

    What the projection of an enriched event writes
    ([apps/pipeline-worker/src/documents.ts]): the document of the pull request, a document for
    each of its commits that the chain does not own, and the fields that the registry of
    repositories owns.  [Date.parse] and [toISOString] belong to the runtime and are
    parameters. *)

From stdpp Require Import base option strings numbers gmap sets sorting list.
From Stdlib Require Import ZArith Lia.
From S2P Require Import Prelude JsString Json ReleaseSignal QueryBuilder EsDocument EsProjection.
Open Scope Z_scope.

(** ** What is projected *)

Record EnrichedPullRequest : Type := mkEnrichedPr {
  pr_title : jstr; pr_body : option jstr; pr_state : jstr; pr_draft : bool; pr_labels : list jstr; pr_merged : bool;
  pr_created_at : option jstr; pr_updated_at : option jstr; pr_closed_at : option jstr; pr_merged_at : option jstr;
  pr_merge_commit_sha : option jstr; pr_author : option jstr; pr_head_ref : jstr; pr_head_sha : jstr;
  pr_base_ref : jstr; pr_base_sha : jstr
}.
Record EnrichedChangedFile : Type := mkFile { filename : jstr; additions : Z; deletions : Z }.
Record EnrichedReview : Type := mkReview { rv_state : jstr; reviewer : option jstr; submitted_at : option jstr }.
Inductive EnrichmentComponent : Set := ec_pull_request | ec_commits | ec_files | ec_reviews.
#[export] Instance EnrichmentComponent_eq_dec : EqDecision EnrichmentComponent.
Proof. solve_decision. Defined.
Record IngestionEnriched : Type := mkEnriched {
  delivery_id : jstr; pr_number : Z; pull_request : option EnrichedPullRequest; source_commit_shas : list jstr;
  changed_files : list EnrichedChangedFile; reviews : list EnrichedReview; source_commits_truncated : bool;
  files_truncated : bool; enrichment_pending : bool; enrichment_errors : list EnrichmentComponent
}.
(** The row of the registry, with the columns that documents use. *)
Record RepositoryRow : Type := mkRepository {
  repository_id : Z; owner : jstr; name : jstr; org_id : Z; visibility : jstr; status : jstr; allowed_team_ids : list Z
}.
Inductive AuthorTeamResolution : Type := at_known (teamIds : list Z) | at_unknown.
Record ProjectionSource : Type := mkSource {
  enriched : IngestionEnriched; repository : RepositoryRow; documentVersion : Z; indexedAt : Z;
  authorTeams : AuthorTeamResolution; chainShas : list jstr
}.

(** ** Fields *)

Abbreviation Fields := Source.
(** An object literal: a later field replaces an earlier one. *)
Definition object (l : list (jstr * json)) : Fields := foldl (fun d p => <[p.1 := p.2]> d) ∅ l.
Definition put (fields : Fields) (key : jstr) (value : option json) : Fields :=
  match value with Some v => <[key := v]> fields | None => fields end.
Definition puts (fields : Fields) (l : list (jstr * option json)) : Fields := foldl (fun d p => put d p.1 p.2) fields l.
(** A value that may be [null]. *)
Definition nullable (v : option jstr) : json := match v with Some s => JStr s | None => JNull end.
Definition texts (l : list jstr) : json := JArr (map JStr l).
Definition numbers (l : list Z) : json := JArr (map JNum l).

(** [[...new Set(l)].sort((a, b) => a - b)]. *)
Definition sorted_ids (l : list Z) : list Z := merge_sort Z.le (remove_dups l).

Definition full_name (r : RepositoryRow) : jstr := owner r ++ js "/" ++ name r.
Definition is_archived (r : RepositoryRow) : bool := jeqb (status r) (js "archived").
Definition repositoryScope (r : RepositoryRow) : list (jstr * json) :=
  [(js "repository_id", JNum (repository_id r)); (js "repository", JStr (full_name r)); (js "org_id", JNum (org_id r));
   (js "visibility", JStr (visibility r)); (js "allowed_team_ids", numbers (allowed_team_ids r))].
Definition registryOwnedFields (r : RepositoryRow) : Fields :=
  object (repositoryScope r ++ [(js "repository_archived", JBool (is_archived r))]).

(** [new Set] keeps the first of equal values. *)
Fixpoint first_occurrences (seen l : list jstr) : list jstr :=
  match l with
  | [] => []
  | x :: l => if mem x seen then first_occurrences seen l else x :: first_occurrences (x :: seen) l
  end.
Definition uniqueStrings (values : list (option jstr)) : list jstr :=
  first_occurrences [] (omap (fun v => match v with Some (c :: s) => Some (c :: s) | _ => None end) values).

Section documents.
Context (date_parse : jstr -> option Z) (toISOString : Z -> jstr).

(** [<] between two results of [Date.parse], of which either may be [NaN]. *)
Definition earlier (a b : option Z) : bool := match a, b with Some a, Some b => a <? b | _, _ => false end.

(** [Math.round] of the quotient, an integer and a half at most. *)
Definition seconds (from to : option jstr) : option Z :=
  match from, to with
  | Some from, Some to =>
    match date_parse from, date_parse to with
    | Some start, Some end_ => let delta := (end_ - start + 500) / 1000 in if delta <? 0 then None else Some delta
    | _, _ => None
    end
  | _, _ => None
  end.

Definition next_review (author : option jstr) (earliest : option jstr) (r : EnrichedReview) : option jstr :=
  match submitted_at r with
  | None => earliest
  | Some submitted =>
    if match author with Some a => bool_decide (reviewer r = Some a) | None => false end then earliest
    else match earliest with
         | None => Some submitted
         | Some e => if earlier (date_parse submitted) (date_parse e) then Some submitted else earliest
         end
  end.
Definition firstReviewAt (reviews : list EnrichedReview) (author : option jstr) : option jstr :=
  foldl (next_review author) None reviews.

Definition signals_of (pr : EnrichedPullRequest) : PullRequestStateSignals :=
  mkSignals (pr_state pr) (Some (pr_merged pr)) (pr_merged_at pr).
Definition is_merged (pr : EnrichedPullRequest) : bool := jeqb (derivePullRequestState (signals_of pr)) (js "merged").
Definition total (f : EnrichedChangedFile -> Z) (files : list EnrichedChangedFile) : Z := foldl (fun sum x => sum + f x) 0 files.

Definition filesUnknown (e : IngestionEnriched) : bool := bool_decide (ec_files ∈ enrichment_errors e).
(** An author that is not known has no teams. *)
Definition author_teams (s : ProjectionSource) : AuthorTeamResolution :=
  match pull_request (enriched s) with
  | Some pr => match pr_author pr with None | Some [] => at_unknown | Some _ => authorTeams s end
  | None => at_unknown
  end.
Definition FILE_FIELDS : list jstr := [js "changed_files_count"; js "additions"; js "deletions"; js "changed_lines"].
Definition AUTHOR_TEAM_IDS : jstr := js "author_team_ids".

Definition file_counts (e : IngestionEnriched) : list (jstr * json) :=
  if filesUnknown e then []
  else let files := changed_files e in
       [(js "changed_files_count", JNum (Z.of_nat (length files))); (js "additions", JNum (total additions files));
        (js "deletions", JNum (total deletions files));
        (js "changed_lines", JNum (total (fun f => additions f + deletions f) files))].
Definition approved (r : EnrichedReview) : bool := jeqb (ascii_lower (rv_state r)) (js "approved").
Definition event_fields (s : ProjectionSource) : list (jstr * json) :=
  let e := enriched s in
  repositoryScope (repository s) ++
  [(js "pr_number", JNum (pr_number e)); (js "source_commit_shas", texts (map ascii_lower (source_commit_shas e)));
   (js "source_commits_truncated", JBool (source_commits_truncated e))] ++ file_counts e ++
  [(js "changed_paths", texts (map filename (changed_files e))); (js "files_truncated", JBool (files_truncated e));
   (js "reviewers", texts (uniqueStrings (map reviewer (reviews e))));
   (js "approved_by", texts (uniqueStrings (map reviewer (List.filter approved (reviews e)))));
   (js "enrichment_pending", JBool (enrichment_pending e)); (js "repository_archived", JBool (is_archived (repository s)));
   (js "last_delivery_id", JStr (delivery_id e)); (js "indexed_at", JStr (toISOString (indexedAt s)))].
Definition pull_request_fields (pr : EnrichedPullRequest) (reviewedAt : option jstr) : list (jstr * option json) :=
  [(js "title", Some (JStr (pr_title pr))); (js "body", Some (nullable (pr_body pr)));
   (js "state", Some (JStr (derivePullRequestState (signals_of pr)))); (js "draft", Some (JBool (pr_draft pr)));
   (js "labels", Some (texts (pr_labels pr))); (js "author", Some (nullable (pr_author pr)));
   (js "base_branch", Some (JStr (pr_base_ref pr))); (js "head_branch", Some (JStr (pr_head_ref pr)));
   (js "base_sha", Some (JStr (pr_base_sha pr))); (js "head_sha", Some (JStr (pr_head_sha pr)));
   (js "merge_commit_sha", Some (nullable (pr_merge_commit_sha pr))); (js "created_at", Some (nullable (pr_created_at pr)));
   (js "updated_at", Some (nullable (pr_updated_at pr))); (js "merged_at", Some (nullable (pr_merged_at pr)));
   (js "closed_at", Some (nullable (pr_closed_at pr)));
   (js "lead_time_seconds", option_map JNum (seconds (pr_created_at pr) (pr_merged_at pr)));
   (js "first_review_wait_seconds", option_map JNum (seconds (pr_created_at pr) reviewedAt))].

Definition LINKS_PENDING : jstr := js "links_pending".
Definition LINK_SUMMARY : jstr := js "link_summary".
Definition no_links : list (jstr * json) :=
  [(js "has_revert", JBool false); (js "is_reverted", JBool false); (js "has_cherry_pick", JBool false)].
Definition buildPullRequestDocument (s : ProjectionSource) : UpsertRequest :=
  let e := enriched s in
  let pr := pull_request e in
  let reviewedAt := firstReviewAt (reviews e) (pr ≫= pr_author) in
  let teams := author_teams s in
  let doc := puts (object (event_fields s))
    ([(js "first_review_at", option_map JStr reviewedAt);
      (AUTHOR_TEAM_IDS, match teams with at_known ids => Some (numbers (sorted_ids ids)) | at_unknown => None end)] ++
     match pr with Some pr => pull_request_fields pr reviewedAt | None => [] end) in
  mkUpsert prs_pull_requests (pullRequestDocId (repository_id (repository s)) (pr_number e))
    (js_of_Z (repository_id (repository s))) (documentVersion s) doc ∅
    (object [(LINKS_PENDING, JBool true);
             (LINK_SUMMARY, JObj (no_links ++ [(js "has_stack", JBool false); (js "reference_count", JNum 0)]))])
    ((if filesUnknown e then FILE_FIELDS else []) ++ match teams with at_unknown => [AUTHOR_TEAM_IDS] | at_known _ => [] end).

(** ** Commits *)

Inductive ProjectedCommitRole : Set := merge_commit | source_commit.
Definition role_text (r : ProjectedCommitRole) : jstr := match r with merge_commit => js "merge_commit" | source_commit => js "source_commit" end.
Record ProjectedCommitInput : Type := mkCommitInput {
  ci_repository : RepositoryRow; ci_commitSha : jstr; ci_role : ProjectedCommitRole; ci_baseBranch : option jstr;
  ci_documentVersion : Z; ci_enrichmentPending : bool; ci_lastDeliveryId : option jstr; ci_indexedAt : jstr
}.
Definition buildProjectedCommitDocument (i : ProjectedCommitInput) : UpsertRequest :=
  let r := ci_repository i in
  let doc := puts (object (repositoryScope r ++
      [(js "commit_sha", JStr (ci_commitSha i)); (js "role", JStr (role_text (ci_role i)));
       (js "enrichment_pending", JBool (ci_enrichmentPending i)); (js "repository_archived", JBool (is_archived r));
       (js "indexed_at", JStr (ci_indexedAt i))]))
    [(js "base_branch", option_map JStr (ci_baseBranch i)); (js "last_delivery_id", option_map JStr (ci_lastDeliveryId i))] in
  mkUpsert prs_commits (commitDocId (repository_id r) (ci_commitSha i)) (js_of_Z (repository_id r)) (ci_documentVersion i)
    doc ∅ (object [(LINK_SUMMARY, JObj no_links)]) [].

(** A [Map] keeps the place of a key that is set again. *)
Fixpoint set_role (sha : jstr) (role : ProjectedCommitRole) (roles : list (jstr * ProjectedCommitRole))
  : list (jstr * ProjectedCommitRole) :=
  match roles with
  | [] => [(sha, role)]
  | (k, r) :: roles => if jeqb k sha then (k, role) :: roles else (k, r) :: set_role sha role roles
  end.
Definition source_role (chain : list jstr) (roles : list (jstr * ProjectedCommitRole)) (sha : jstr)
  : list (jstr * ProjectedCommitRole) :=
  let normalized := ascii_lower sha in
  if jeqb normalized [] || mem normalized chain then roles else set_role normalized source_commit roles.
Definition merge_sha (e : IngestionEnriched) : option jstr :=
  match pull_request e with
  | Some pr => if is_merged pr then match pr_merge_commit_sha pr with Some (c :: s) => Some (c :: s) | _ => None end else None
  | None => None
  end.
Definition commit_roles (s : ProjectionSource) : list (jstr * ProjectedCommitRole) :=
  let roles := foldl (source_role (chainShas s)) [] (source_commit_shas (enriched s)) in
  match merge_sha (enriched s) with Some sha => set_role (ascii_lower sha) merge_commit roles | None => roles end.
Definition buildCommitDocuments (s : ProjectionSource) : list UpsertRequest :=
  map (fun p => buildProjectedCommitDocument
         (mkCommitInput (repository s) p.1 p.2 (option_map pr_base_ref (pull_request (enriched s))) (documentVersion s)
            (enrichment_pending (enriched s)) (Some (delivery_id (enriched s))) (toISOString (indexedAt s))))
    (commit_roles s).

Definition buildUpsertRequests (s : ProjectionSource) : list UpsertRequest :=
  buildPullRequestDocument s :: buildCommitDocuments s.
End documents.

(** ** Keys of a document *)

Lemma object_lookup_ne l k : k ∉ map fst l -> object l !! k = None.
Proof.
  unfold object. intros Hk. assert (forall d : Fields, d !! k = None -> foldl (fun d p => <[p.1 := p.2]> d) d l !! k = None) as H.
  { induction l as [|p l IH]; intros d Hd; [done|]. cbn [map] in Hk. apply not_elem_of_cons in Hk as [Hne Hk].
    apply (IH Hk). by rewrite lookup_insert_ne. }
  apply H, lookup_empty.
Qed.
Lemma puts_lookup_ne l d k : k ∉ map fst l -> puts d l !! k = d !! k.
Proof.
  unfold puts. revert d. induction l as [|[k' [v|]] l IH]; intros d Hk; [done|..]; cbn [map] in Hk;
    apply not_elem_of_cons in Hk as [Hne Hk]; cbn [foldl put fst snd]; rewrite IH by done; [by rewrite lookup_insert_ne|done].
Qed.
(** The fields of a projected document that its projection leaves to other workers: the sequence
    and the M number, links and tags, and in a commit the facts of git. *)
Definition OWNED : list jstr :=
  map js ["merge_seq"; "seq_epoch"; "sequence_space"; "merge_number"; "merge_number_epoch"; "merge_number_state";
          "merge_number_reason"; "release_tags"; "link_summary"; "links_pending"; "pull_request_numbers"; "pr_links_generation";
          "pr_links_state"; "patch_id"; "patch_id_unavailable"; "parent_shas"; "message"; "committer"; "authored_at"; "committed_at"]%string.

Lemma keys_apart l ks k : forallb (fun x => negb (mem x ks)) l = true -> k ∈ l -> k ∉ ks.
Proof. intros H Hk. apply mem_false, negb_true_iff. by eapply (proj1 (forallb_forall _ _) H), list_elem_of_In. Qed.
(** The keys of a record do not meet a list of names. *)
Ltac keys_apart Hk := eapply keys_apart; [|exact Hk]; vm_compute; reflexivity.

Section built.
Context (date_parse : jstr -> option Z) (toISOString : Z -> jstr).

Lemma pull_request_keys s k :
  k ∈ DOCUMENT_VERSION :: DOC_ID :: OWNED ->
  ur_fields (buildPullRequestDocument date_parse toISOString s) !! k = None ∧
  k ∉ ur_remove (buildPullRequestDocument date_parse toISOString s).
Proof.
  intros Hk. cbn [ur_fields ur_remove buildPullRequestDocument]. split.
  - rewrite puts_lookup_ne; [apply object_lookup_ne; unfold event_fields, file_counts; destruct (filesUnknown _)|
      destruct (pull_request (enriched s))]; keys_apart Hk.
  - destruct (filesUnknown _), (author_teams s); keys_apart Hk.
Qed.
Lemma commit_keys i k :
  k ∈ DOCUMENT_VERSION :: DOC_ID :: OWNED -> ur_fields (buildProjectedCommitDocument i) !! k = None.
Proof.
  intros Hk. cbn [ur_fields buildProjectedCommitDocument]. rewrite puts_lookup_ne; [apply object_lookup_ne|]; keys_apart Hk.
Qed.

(** *** What the requests of an event have in common *)

Record projected_request (r : UpsertRequest) : Prop := {
  pq_union : ur_union r = ∅;
  pq_keys k : k ∈ DOCUMENT_VERSION :: DOC_ID :: OWNED -> ur_fields r !! k = None ∧ k ∉ ur_remove r;
  pq_create : ur_createOnly r !! DOCUMENT_VERSION = None
}.
Lemma requests_projected s : Forall projected_request (buildUpsertRequests date_parse toISOString s).
Proof.
  apply Forall_cons. split.
  - split; [done|apply pull_request_keys|reflexivity].
  - apply Forall_map, Forall_true. intros p. split; [done| |reflexivity]. intros k Hk. split; [by apply commit_keys|apply not_elem_of_nil].
Qed.
Lemma projected_wf r : projected_request r -> wf_request r.
Proof.
  intros [Hu Hk Hc]. split; [by rewrite Hu, lookup_empty|done|]. apply (Hk DOCUMENT_VERSION). by left.
Qed.
Lemma projected_keeps hash_order r d d' k :
  projected_request r -> k ∈ OWNED -> CONDITIONAL_UPSERT_SCRIPT hash_order r d = s_write d' -> d' !! k = d !! k.
Proof.
  intros [Hu Hk _] Ho Hs. destruct (Hk k) as [Hf Hr]; [by right; right|].
  assert (k <> DOCUMENT_VERSION ∧ k <> DOC_ID) as [Hv Hd].
  { split; intros ->; revert Ho; apply mem_false; vm_compute; reflexivity. }
  unfold CONDITIONAL_UPSERT_SCRIPT in Hs. rewrite Hu in Hs. destruct (fresher _ _) as [fresh|]; [|done].
  assert (forall src : Source, merge_union hash_order src ∅ !! k = src !! k) as Hm.
  { intros src. unfold merge_union. rewrite lookup_merge, lookup_empty. by destruct (src !! k). }
  destruct fresh.
  - injection Hs as <-. rewrite Hm, remove_all_lookup, decide_False by done. unfold withDocId, ur_doc.
    rewrite lookup_union, !lookup_insert_ne, Hf by done. by destruct (d !! k).
  - assert (union_adds d ∅ = false) as Ha by done. rewrite Ha in Hs. done.
Qed.

End built.

(** *** Commits *)

Lemma set_role_elem sha role roles k r :
  NoDup (map fst roles) ->
  (k, r) ∈ set_role sha role roles <-> (k = sha ∧ r = role) \/ (k <> sha ∧ (k, r) ∈ roles).
Proof.
  intros Hnd. induction roles as [|[k' r'] roles IH]; cbn [set_role].
  - rewrite list_elem_of_singleton, elem_of_nil. naive_solver.
  - cbn [map] in Hnd. apply NoDup_cons in Hnd as [Hni Hnd]. destruct (jeqb k' sha) eqn:E.
    + apply jeqb_eq in E as ->. rewrite !elem_of_cons. split.
      * intros [[= -> ->]|Hin]; [by left|]. right. split; [|by right]. intros ->. apply Hni. by apply (list_elem_of_fmap_2 fst _ (sha, r)).
      * intros [[-> ->]|[Hne [[= -> ->]|Hin]]]; [by left|done|by right].
    + apply jeqb_neq in E. rewrite !elem_of_cons, IH by done. naive_solver.
Qed.
Lemma set_role_keys sha role roles : NoDup (map fst roles) -> NoDup (map fst (set_role sha role roles)).
Proof.
  intros Hnd. induction roles as [|[k' r'] roles IH]; cbn [set_role map fst]; [by apply NoDup_singleton|].
  cbn [map fst] in Hnd. apply NoDup_cons in Hnd as [Hni Hnd]. destruct (jeqb k' sha) eqn:E; cbn [map fst]; apply NoDup_cons; [done|].
  split; [|by apply IH]. intros ([k r] & Hkk & Hin)%list_elem_of_fmap. cbn [fst] in Hkk. subst k'. apply set_role_elem in Hin as [[-> _]|[_ Hin]]; [|  |done].
  - apply jeqb_neq in E. done.
  - apply Hni. by apply (list_elem_of_fmap_2 fst _ (k, r)).
Qed.
Definition is_source (chain : list jstr) (shas : list jstr) (k : jstr) : Prop :=
  k <> [] ∧ k ∉ chain ∧ ∃ x, x ∈ shas ∧ ascii_lower x = k.
Lemma source_roles_spec chain shas :
  let roles := foldl (source_role chain) [] shas in
  NoDup (map fst roles) ∧ forall k r, (k, r) ∈ roles <-> r = source_commit ∧ is_source chain shas k.
Proof.
  induction shas as [|x shas [Hnd IH]] using rev_ind.
  { split; [constructor|]. intros k r. rewrite elem_of_nil. split; [done|]. intros (_ & _ & _ & y & Hy & _). by apply elem_of_nil in Hy. }
  cbv zeta in *. rewrite foldl_snoc. set (roles := foldl _ [] shas) in *. unfold source_role. destruct (jeqb (ascii_lower x) [] || mem (ascii_lower x) chain) eqn:E.
  - split; [done|]. intros k r. rewrite IH. unfold is_source. setoid_rewrite elem_of_app. setoid_rewrite list_elem_of_singleton.
    split; [naive_solver|]. intros (-> & Hn & Hc & y & [Hy| ->] & Hl); [naive_solver|].
    apply orb_true_iff in E as [E%jeqb_eq|E%mem_elem]; congruence.
  - split; [by apply set_role_keys|]. intros k r. rewrite set_role_elem, IH by done. unfold is_source.
    apply orb_false_iff in E as [E1%jeqb_neq E2%mem_false]. setoid_rewrite elem_of_app. setoid_rewrite list_elem_of_singleton.
    destruct (decide (k = ascii_lower x)) as [->|Hne]; naive_solver.
Qed.
Lemma commit_roles_spec s :
  NoDup (map fst (commit_roles s)) ∧
  forall k r, (k, r) ∈ commit_roles s <->
    match r with
    | merge_commit => ascii_lower <$> merge_sha (enriched s) = Some k
    | source_commit => ascii_lower <$> merge_sha (enriched s) <> Some k ∧ is_source (chainShas s) (source_commit_shas (enriched s)) k
    end.
Proof.
  unfold commit_roles. destruct (source_roles_spec (chainShas s) (source_commit_shas (enriched s))) as [Hnd Hspec]. cbv zeta in *.
  destruct (merge_sha (enriched s)) as [m|]; cbn [fmap option_fmap option_map].
  - split; [by apply set_role_keys|]. intros k r. rewrite set_role_elem, Hspec by done. destruct r; naive_solver.
  - split; [done|]. intros k r. rewrite Hspec. destruct r; naive_solver.
Qed.
Lemma commit_ids_nodup toISOString s : NoDup (map ur_id (buildCommitDocuments toISOString s)).
Proof.
  destruct (commit_roles_spec s) as [Hnd Hspec]. unfold buildCommitDocuments. rewrite map_map. cbn [ur_id buildProjectedCommitDocument ci_repository ci_commitSha].
  assert (forall k r, (k, r) ∈ commit_roles s -> ascii_lower k = k) as Hlow.
  { intros k [] Hin%Hspec; [|destruct Hin as (_ & _ & _ & x & _ & <-); apply ascii_lower_idem].
    destruct (merge_sha _); [|done]. injection Hin as <-. apply ascii_lower_idem. }
  clear Hspec. revert Hnd Hlow. generalize (commit_roles s). intros l. induction l as [|[k r] l IH]; intros Hnd Hlow; [constructor|].
  cbn [map fst] in *. apply NoDup_cons in Hnd as [Hni Hnd]. apply NoDup_cons. split.
  - intros ([k' r'] & He & Hin)%list_elem_of_fmap. apply Hni. cbn [fst] in He. unfold commitDocId in He. rewrite !app_assoc in He.
    apply app_inv_head in He. rewrite (Hlow k r), (Hlow k' r') in He by (by left || by right). subst k'.
    by apply (list_elem_of_fmap_2 fst _ (k, r')).
  - apply IH; [done|]. intros k' r' Hin. apply (Hlow k' r'). by right.
Qed.


(** ** Theorems *)


(** The commits of an event: one document each, the merge commit of a merged pull request as a
    merge commit, and every other source commit as a source commit unless the chain of a base
    branch owns it. *)
Theorem commit_documents_exact toISOString s :
  NoDup (map ur_id (buildCommitDocuments toISOString s)) ∧
  forall r, r ∈ buildCommitDocuments toISOString s <-> ∃ sha role,
    r = buildProjectedCommitDocument (mkCommitInput (repository s) sha role (option_map pr_base_ref (pull_request (enriched s)))
          (documentVersion s) (enrichment_pending (enriched s)) (Some (delivery_id (enriched s))) (toISOString (indexedAt s))) ∧
    match role with
    | merge_commit => ascii_lower <$> merge_sha (enriched s) = Some sha
    | source_commit => ascii_lower <$> merge_sha (enriched s) <> Some sha ∧ sha <> [] ∧ sha ∉ chainShas s ∧
        ∃ x, x ∈ source_commit_shas (enriched s) ∧ ascii_lower x = sha
    end.
Proof.
  split; [apply commit_ids_nodup|]. intros r. destruct (commit_roles_spec s) as [_ Hspec]. unfold buildCommitDocuments.
  rewrite list_elem_of_fmap. split.
  - intros ([sha role] & -> & Hin%Hspec). by exists sha, role.
  - intros (sha & role & -> & Hrole). exists (sha, role). split; [done|]. by apply Hspec.
Qed.

(** *** An event of the sample repository *)

Definition sample_repository : RepositoryRow := mkRepository 7 (js "acme") (js "app") 1 (js "private") (js "active") [3; 4].
Definition sample_pr : EnrichedPullRequest :=
  mkEnrichedPr (js "Fix") None (js "closed") false [js "bug"] true (Some (js "2026-01-01T00:00:00Z")) None None
    (Some (js "2026-01-01T01:00:00Z")) (Some (js "CC")) (Some (js "kim")) (js "fix") (js "bb") (js "main") (js "00").
Definition sample_enriched : IngestionEnriched :=
  mkEnriched (js "d-1") 12 (Some sample_pr) [js "AA"; js "bb"; js "cc"] [mkFile (js "a.ts") 3 1] [] false false false [].
Definition sample_source : ProjectionSource := mkSource sample_enriched sample_repository 100 200 (at_known [9; 5]) [js "aa"].
Definition no_clock (_ : jstr) : option Z := None.
Example commits_of_sample : commit_roles sample_source = [(js "bb", source_commit); (js "cc", merge_commit)].
Proof. vm_compute. reflexivity. Qed.
