(* ===== verification/Reindex.v ===== *)
(** * Reindexing

    The parts a reindexing without downtime is made of: versioned indices and their alias
    ([packages/es/src/versioned-index.ts]), the statements on reindex jobs
    ([packages/db/src/repositories/reindex.ts]), the fence between document writes and the
    switch ([packages/db/src/reindex-fence.ts]), the pull request snapshots
    ([packages/db/src/repositories/pr-snapshot.ts]) and, of
    [apps/pipeline-worker/src/reindex.ts], the rebuilding of pull request documents, the
    verdict before the switch and the sweep of retired indices.  ReindexSystem puts them
    together. *)

From stdpp Require Import base option strings numbers gmap sorting list.
From Stdlib Require Import ZArith Lia.
From S2P Require Import Prelude JsString Json ReleaseSignal QueryBuilder EsDocument EsProjection Jobs Documents.
Open Scope Z_scope.

(** ** Versioned indices *)

(** What the administration of indices gives: whether an index exists (its UUID), the names of the
    indices, those an alias points to, and creating, switching and deleting, which may fail. *)
Class IndexAdmin (S : Type) := {
  ia_uuid : S -> jstr -> option jstr;
  ia_names : S -> list jstr;
  ia_alias : S -> jstr -> list jstr;
  ia_create : jstr -> S -> S * bool;
  ia_switch : jstr -> jstr -> jstr -> S -> S * bool;
  ia_delete : jstr -> S -> S * bool
}.

Definition concreteIndexName (alias : jstr) (version : Z) : result jstr jstr :=
  if version <? 1 then Err (js "버전은 1 이상의 정수여야 한다: " ++ js_of_Z version)
  else Ok (alias ++ js "-v" ++ js_of_Z version).

(** The alias, [-v] and a number without leading zeros. *)
Definition parseIndexVersion (alias index : jstr) : option Z :=
  let prefix := alias ++ js "-v" in
  if negb (starts_with prefix index) then None
  else match drop (length prefix) index with
       | [] => None
       | c :: s => if in_range 49 57 c && forallb is_digit s then
                     let parsed := num_of_digits (c :: s) in if is_safe_integer parsed then Some parsed else None
                   else None
       end.

Section admin.
Context {S : Type} `{IndexAdmin S}.

Definition index_exists (s : S) (index : jstr) : bool := bool_decide (is_Some (ia_uuid s index)).
Definition listIndexVersions (alias : jstr) (s : S) : list Z :=
  merge_sort Z.le (omap (parseIndexVersion alias) (List.filter (starts_with (alias ++ js "-v")) (ia_names s))).
Definition resolveServingIndex (alias : jstr) (s : S) : result jstr jstr :=
  match ia_alias s alias with
  | [] => Err (js "별칭이 없다: " ++ alias)
  | [name] => Ok name
  | names => Err (js "별칭 " ++ alias ++ js "가 인덱스 " ++ js_of_Z (Z.of_nat (length names)) ++ js "개를 가리킨다: "
                  ++ join (js ", ") names)
  end.
Definition nextUnusedVersion (alias : jstr) (s : S) : Z := default 0 (last (listIndexVersions alias s)) + 1.
Definition nextTargetIndex (alias : jstr) (s : S) : result jstr jstr := concreteIndexName alias (nextUnusedVersion alias s).
Definition CREATE_FAILED : jstr := js "인덱스 생성 실패".
Definition createVersionedIndex (alias : jstr) (version : Z) (s : S) : S * result jstr jstr :=
  match concreteIndexName alias version with
  | Err e => (s, Err e)
  | Ok index =>
    if index_exists s index then (s, Err (js "대상 인덱스가 이미 있다: " ++ index))
    else match ia_create index s with (s, true) => (s, Ok index) | (s, false) => (s, Err CREATE_FAILED) end
  end.

Inductive RetiredIndexOutcome : Set := deleted | serving | absent.
Definition deleteRetiredIndex (alias index : jstr) (s : S) : S * result jstr RetiredIndexOutcome :=
  match parseIndexVersion alias index with
  | None => (s, Err (js "이 별칭의 버전 인덱스가 아니다: " ++ alias ++ js " / " ++ index))
  | Some _ =>
    if mem index (ia_alias s alias) then (s, Ok serving)
    else if negb (index_exists s index) then (s, Ok absent)
    else match ia_delete index s with (s, true) => (s, Ok deleted) | (s, false) => (s, Err (js "인덱스 삭제 실패")) end
  end.
End admin.

Definition ENTITY_ALIASES : list jstr := map alias_name [prs_pull_requests; prs_commits; prs_links; prs_releases].
Definition isEntityAlias (value : jstr) : bool := mem value ENTITY_ALIASES.

(** ** Reindex jobs *)

Inductive ReindexPhase : Set := prepare | dual_write | backfill | verify | cutover | retention.
#[export] Instance ReindexPhase_eq_dec : EqDecision ReindexPhase.
Proof. solve_decision. Defined.
Definition DUAL_WRITE_PHASES : list ReindexPhase := [dual_write; backfill; verify; cutover].

(** A replayed space of [sequence_replay]. *)
Record ReplaySpace : Set := mkReplay { rp_repository_id : Z; rp_base_branch : jstr; rp_seq_epoch : Z }.
(** The document of a job; what it lacks is [None].  [alias] is that of the row. *)
Record ReindexProgress : Type := mkProgress {
  phase : option ReindexPhase; source_index : option jstr; target_index : option jstr; target_uuid : option jstr;
  documents_scanned : option Z; documents_written : option Z; failures : option Z; failure_samples : option (list jstr);
  scan_complete : option bool; dual_write_since : option Z; switched_at : option Z; retired_at : option Z;
  sequence_replay : option (list ReplaySpace)
}.
Definition NOTHING : ReindexProgress := mkProgress None None None None None None None None None None None None None.
(** [progress || patch]. *)
Definition patched (patch p : ReindexProgress) : ReindexProgress :=
  let u {A} (f : ReindexProgress -> option A) := match f patch with Some x => Some x | None => f p end in
  mkProgress (u phase) (u source_index) (u target_index) (u target_uuid) (u documents_scanned) (u documents_written)
    (u failures) (u failure_samples) (u scan_complete) (u dual_write_since) (u switched_at) (u retired_at) (u sequence_replay).

Abbreviation ReindexRow := (JobRow ReindexProgress json).
Abbreviation ReindexJobs := (JobTable ReindexProgress json).
Definition is_reindex (j : ReindexRow) : bool := of_type reindex j.
(** [toReindexJob]: a row whose progress has a phase. *)
Definition toReindexJob (j : ReindexRow) : option ReindexRow := match phase (progress j) with Some _ => Some j | None => None end.

Definition findActiveReindexRow (db : ReindexJobs) : option ReindexRow := find (fun j => is_reindex j && active j) (jobs db).
Definition findReindexJob (id : Z) (db : ReindexJobs) : option ReindexRow :=
  match find (fun j => (job_id j =? id) && is_reindex j) (jobs db) with Some j => toReindexJob j | None => None end.

Definition dual_writes (j : ReindexRow) : bool :=
  is_reindex j && is_running j && bool_decide (switched_at (progress j) = None)
  && match phase (progress j) with Some p => bool_decide (p ∈ DUAL_WRITE_PHASES) | None => false end.
Definition findDualWriteShadows (db : ReindexJobs) : gmap jstr jstr :=
  foldl (fun shadows j =>
      match toReindexJob j with
      | Some j => match target_index (progress j) with Some t => <[target j := t]> shadows | None => shadows end
      | None => shadows
      end) ∅ (List.filter dual_writes (jobs db)).

Definition with_progress (f : ReindexProgress -> ReindexProgress) (j : ReindexRow) : ReindexRow :=
  mkJob (job_id j) (type j) (target j) (state j) (f (progress j)) (cursor j) (requested_by j) (started_at j) (finished_at j) (error j).
Definition setReindexProgress (id : Z) (p : ReindexProgress) (db : ReindexJobs) : ReindexJobs :=
  update_job id (fun _ => true) (with_progress (fun _ => p)) db.
Definition patchReindexProgress (id : Z) (patch : ReindexProgress) (db : ReindexJobs) : ReindexJobs :=
  update_job id (fun _ => true) (with_progress (patched patch)) db.

Definition FAILURE_SAMPLE_LIMIT : nat := 20.
Definition sample_of (f : ShadowWriteFailure) : jstr := sf_operation f ++ js " " ++ sf_index f ++ js ": " ++ sf_reason f.
Definition recordShadowFailures (id : Z) (fs : list ShadowWriteFailure) (now : Z) (db : ReindexJobs) : ReindexJobs * bool :=
  match fs with
  | [] => (db, false)
  | _ =>
    let samples := map sample_of (take FAILURE_SAMPLE_LIMIT fs) in
    let ok j := is_reindex j && is_running j in
    let count p := mkProgress None None None None None None
                     (Some (default 0 (failures p) + Z.of_nat (length fs))) (Some samples) None None None None None in
    let fail j := set_state failed (started_at j) (Some now) (Some (default (js "shadow_write_failed") (error j)))
                    (with_progress (fun p => patched (count p) p) j) in
    (update_job id ok fail db, has_job id ok db)
  end.

Inductive EnqueueReindexOutcome : Type :=
| eo_queued (jobId : Z) (sourceIndex targetIndex : jstr)
| eo_conflict (alias : jstr)
| eo_busy (alias : jstr)
| eo_invalid_alias (value : jstr).
Definition first_progress (source target : jstr) : ReindexProgress :=
  mkProgress (Some prepare) (Some source) (Some target) None (Some 0) (Some 0) (Some 0) None None None None None None.
(** The queue is read before the indices are looked up, and the row is inserted after it. *)
Definition enqueue_checks (alias : jstr) (db : ReindexJobs) : option EnqueueReindexOutcome :=
  if negb (isEntityAlias alias) then Some (eo_invalid_alias alias)
  else match findActiveReindexRow db with
       | Some j => Some (if jeqb (target j) alias then eo_conflict alias else eo_busy (target j))
       | None => None
       end.
Definition enqueue_insert {S} `{IndexAdmin S} (alias requestedBy : jstr) (s : S) (db : ReindexJobs)
  : ReindexJobs * result jstr EnqueueReindexOutcome :=
  match resolveServingIndex alias s with
  | Err e => (db, Err e)
  | Ok source =>
    match nextTargetIndex alias s with
    | Err e => (db, Err e)
    | Ok to =>
      match enqueueJob reindex alias requestedBy (first_progress source to) db with
      | Some (db, id) => (db, Ok (eo_queued id source to))
      | None => (db, Err (js "job_active_uk"))
      end
    end
  end.
Definition enqueueReindex {S} `{IndexAdmin S} (alias requestedBy : jstr) (s : S) (db : ReindexJobs)
  : ReindexJobs * result jstr EnqueueReindexOutcome :=
  match enqueue_checks alias db with
  | Some o => (db, Ok o)
  | None => enqueue_insert alias requestedBy s db
  end.

Definition findActiveReindexFor (alias : jstr) (db : ReindexJobs) : option ReindexRow := findActiveJob reindex alias db.
Definition ended (j : ReindexRow) : bool := bool_decide (state j ∈ [completed; failed; cancelled]).
Definition findLastReindexFor (alias : jstr) (db : ReindexJobs) : option ReindexRow :=
  find (fun j => is_reindex j && jeqb (target j) alias && ended j) (rev (jobs db)).

Record RetiredIndex : Type := mkRetired { ri_jobId : Z; ri_alias : jstr; ri_sourceIndex : jstr; ri_switchedAt : Z }.
Definition retired_row (before : Z) (j : ReindexRow) : bool :=
  is_reindex j && bool_decide (state j = completed)
  && match switched_at (progress j) with Some at_ => at_ <? before | None => false end
  && bool_decide (retired_at (progress j) = None).
(** Rows without a phase or a source index are left out after the limit. *)
Definition listRetiredIndices (switchedBefore : Z) (limit : nat) (db : ReindexJobs) : list RetiredIndex :=
  omap (fun j => match toReindexJob j with
                 | None => None
                 | Some j => match switched_at (progress j), source_index (progress j) with
                             | Some at_, Some source => Some (mkRetired (job_id j) (target j) source at_)
                             | _, _ => None
                             end
                 end)
    (take limit (List.filter (retired_row switchedBefore) (jobs db))).
Definition unrecorded_row (j : ReindexRow) : bool :=
  is_reindex j && bool_decide (state j ∈ [failed; completed; running]) && bool_decide (switched_at (progress j) = None)
  && bool_decide (is_Some (target_index (progress j))).
Definition listUnrecordedSwitches (limit : nat) (db : ReindexJobs) : list (Z * jstr * jstr) :=
  omap (fun j => match toReindexJob j with
                 | None => None
                 | Some j => (fun t => (job_id j, target j, t)) <$> target_index (progress j)
                 end)
    (take limit (List.filter unrecorded_row (rev (jobs db)))).
Definition retiring (now : Z) : ReindexProgress :=
  mkProgress None None None None None None None None None None None (Some now) None.
Definition markRetired (id now : Z) : ReindexJobs -> ReindexJobs := patchReindexProgress id (retiring now).

(** *** Sources of links that the new index does not have yet *)

Inductive LinkPendingReason : Set := partial_update_document_missing | derive_incomplete.
Inductive LinkSourceKind : Set := lk_pull_request | lk_commit.
#[export] Instance LinkSourceKind_eq_dec : EqDecision LinkSourceKind.
Proof. solve_decision. Defined.
#[export] Instance LinkSourceKind_countable : Countable LinkSourceKind :=
  inj_countable (fun k => match k with lk_pull_request => true | lk_commit => false end)
    (fun b : bool => Some (if b then lk_pull_request else lk_commit)) (fun k => match k with lk_pull_request | lk_commit => eq_refl end).
Record LinkPendingInput : Type := mkPendingInput {
  lp_repositoryId : Z; lp_sourceKind : LinkSourceKind; lp_sourceId : jstr; lp_reason : LinkPendingReason; lp_sample : option jstr
}.
Abbreviation PendingKey := (Z * Z * LinkSourceKind * jstr)%type.
Record LinkPendingRow : Type := mkPendingRow { pr_reason : LinkPendingReason; pr_generation : Z; pr_sample : option jstr }.
Abbreviation LinkPendings := (gmap PendingKey LinkPendingRow).
Definition pending_key (id : Z) (i : LinkPendingInput) : PendingKey := (id, lp_repositoryId i, lp_sourceKind i, lp_sourceId i).
Definition pending_upsert (id : Z) (i : LinkPendingInput) (t : LinkPendings) : LinkPendings :=
  <[pending_key id i :=
      match t !! pending_key id i with
      | None => mkPendingRow (lp_reason i) 1 (lp_sample i)
      | Some r => mkPendingRow (lp_reason i) (pr_generation r + 1)
                    (match lp_sample i with Some l => Some l | None => pr_sample r end)
      end]> t.
(** One statement for all items; [ON CONFLICT DO UPDATE] refuses two of them with one key. *)
Definition recordLinkPending (id : Z) (items : list LinkPendingInput) (t : LinkPendings) : option LinkPendings :=
  if bool_decide (NoDup (map (pending_key id) items)) then Some (foldl (fun t i => pending_upsert id i t) t items) else None.
Definition deleteLinkPending (k : PendingKey) (generation : Z) (t : LinkPendings) : LinkPendings * bool :=
  match t !! k with
  | Some r => if pr_generation r =? generation then (delete k t, true) else (t, false)
  | None => (t, false)
  end.
Definition of_job (id : Z) (k : PendingKey) : bool := k.1.1.1 =? id.
Definition countLinkPending (id : Z) (t : LinkPendings) : nat := size (filter (fun p => of_job id p.1 = true) t).
Definition clearLinkPending (id : Z) (t : LinkPendings) : LinkPendings * nat :=
  (filter (fun p => of_job id p.1 = false) t, countLinkPending id t).

(** ** The fence *)

Record FenceShadowPending : Type := mkPending {
  fp_alias : jstr; fp_index : jstr; fp_repositoryId : Z; fp_sourceKind : LinkSourceKind; fp_sourceId : jstr; fp_linkId : jstr
}.
Definition pending_owned (active_row : option ReindexRow) (p : FenceShadowPending) : bool :=
  match active_row with
  | Some j => is_running j && jeqb (target j) (fp_alias p) && bool_decide (target_index (progress j) = Some (fp_index p))
  | None => false
  end.
Definition promoted_failure (p : FenceShadowPending) : ShadowWriteFailure :=
  mkShadowFailure (fp_alias p) (fp_index p) (js "bulk") (js "document_missing_exception (회수할 잡이 없다: " ++ fp_linkId p ++ js ")").
Definition recordPendings (active_row : option ReindexRow) (ps : list FenceShadowPending) (t : LinkPendings)
  : option (LinkPendings * list ShadowWriteFailure) :=
  let accepted := map (fun p => mkPendingInput (fp_repositoryId p) (fp_sourceKind p) (fp_sourceId p)
                                  partial_update_document_missing (Some (fp_linkId p)))
                    (List.filter (pending_owned active_row) ps) in
  let promoted := map promoted_failure (List.filter (fun p => negb (pending_owned active_row p)) ps) in
  match active_row, accepted with
  | Some j, _ :: _ => (fun t => (t, promoted)) <$> recordLinkPending (job_id j) accepted t
  | _, _ => Some (t, promoted)
  end.
(** What [withReindexWrite] does after [run] has returned and before it lets the fence go;
    [None] when a statement failed.  Nothing of it happens when [run] throws. *)
Definition record_shadow_results (fs : list ShadowWriteFailure) (ps : list FenceShadowPending) (now : Z)
    (db : ReindexJobs) (t : LinkPendings) : option (ReindexJobs * LinkPendings) :=
  match fs, ps with
  | [], [] => Some (db, t)
  | _, _ =>
    let active_row := findActiveReindexRow db in
    match recordPendings active_row ps t with
    | None => None
    | Some (t, promoted) =>
      let all := fs ++ promoted in
      Some (match active_row with Some j => (recordShadowFailures (job_id j) all now db).1 | None => db end, t)
    end
  end.
(** [withReindexWrite] with nobody else at work: the targets, the run, the recording. *)
Definition withReindexWrite {S T E} (run : WriteTargets -> S -> S * result E (T * (list ShadowWriteFailure * list FenceShadowPending)))
    (now : Z) (s : S) (db : ReindexJobs) (t : LinkPendings) : S * ReindexJobs * LinkPendings * option (result E T) :=
  match run (mkTargets (findDualWriteShadows db)) s with
  | (s, Err e) => (s, db, t, Some (Err e))
  | (s, Ok (v, (fs, ps))) =>
    match record_shadow_results fs ps now db t with
    | Some (db, t) => (s, db, t, Some (Ok v))
    | None => (s, db, t, None)
    end
  end.

(** ** Snapshots of pull requests *)

Inductive SnapshotSource : Set := ss_webhook | ss_backfill | ss_reconcile.
Record Snapshot : Type := mkSnapshot { sn_version : Z; sn_source : SnapshotSource; sn_document : Source }.
(** By repository and pull request number. *)
Abbreviation Snapshots := (gmap (Z * Z) Snapshot).
Definition upsertPullRequestSnapshot (repositoryId prNumber : Z) (n : Snapshot) (t : Snapshots) : Snapshots * bool :=
  match t !! (repositoryId, prNumber) with
  | Some cur => if sn_version cur <=? sn_version n then (<[(repositoryId, prNumber) := n]> t, true) else (t, false)
  | None => (<[(repositoryId, prNumber) := n]> t, true)
  end.
Definition by_number (a b : Z * Snapshot) : Prop := a.1 <= b.1.
#[export] Instance by_number_dec : RelDecision by_number.
Proof. intros a b. unfold by_number. apply _. Defined.
(** The snapshots of a repository that satisfy a condition, by number. *)
Definition snapshots_where (repositoryId : Z) (ok : Z -> Snapshot -> bool) (t : Snapshots) : list (Z * Snapshot) :=
  merge_sort by_number
    (omap (fun p => if (p.1.1 =? repositoryId) && ok p.1.2 p.2 then Some (p.1.2, p.2) else None) (map_to_list t)).
Definition listSnapshots (repositoryId : Z) (limit : nat) (t : Snapshots) : list (Z * Snapshot) :=
  take limit (rev (snapshots_where repositoryId (fun _ _ => true) t)).
Definition listSnapshotsAfter (repositoryId afterPrNumber : Z) (limit : nat) (t : Snapshots) : list (Z * Snapshot) :=
  take limit (snapshots_where repositoryId (fun n _ => afterPrNumber <? n) t).
Definition countSnapshots (repositoryId : Z) (t : Snapshots) : nat := length (snapshots_where repositoryId (fun _ _ => true) t).
(** [document ->> key = value]. *)
Definition has_text (key value : jstr) (s : Snapshot) : bool := bool_decide (field (sn_document s) key = JStr value).
Definition findPullRequestsByTitle (repositoryId : Z) (title : jstr) (limit : nat) (t : Snapshots) : list (Z * Snapshot) :=
  take limit (snapshots_where repositoryId (fun _ s => has_text (js "title") title s) t).
Definition findOpenPullRequestsByHeadBranch (repositoryId : Z) (branch : jstr) (limit : nat) (t : Snapshots) : list (Z * Snapshot) :=
  take limit (snapshots_where repositoryId (fun _ s => has_text (js "head_branch") branch s && has_text (js "state") (js "open") s) t).
Definition findPullRequestsByBaseBranch (repositoryId : Z) (branch : jstr) (limit : nat) (t : Snapshots) : list (Z * Snapshot) :=
  take limit (snapshots_where repositoryId (fun _ s => has_text (js "base_branch") branch s) t).
Definition findPullRequestSnapshot (repositoryId prNumber : Z) (t : Snapshots) : option Snapshot := t !! (repositoryId, prNumber).
Definition findSnapshotsByMergeCommit (repositoryId : Z) (sha : jstr) (limit : nat) (t : Snapshots) : list (Z * Snapshot) :=
  take limit (snapshots_where repositoryId (fun _ s => has_text (js "merge_commit_sha") (ascii_lower sha) s) t).

(** ** Rebuilding the documents of pull requests *)

Definition REINDEX_BATCH : nat := 200.
Definition CHANGED_LINES : jstr := js "changed_lines".
(** Counts of lines are integers. *)
Definition derivedFields (document : Source) : Fields :=
  match field document CHANGED_LINES with
  | JNum _ | JFrac _ => ∅
  | _ => match field document (js "additions"), field document (js "deletions") with
         | JNum a, JNum d => {[CHANGED_LINES := JNum (a + d)]}
         | _, _ => ∅
         end
  end.
Definition authorTeamIdsFor (document : Source) (teams : jstr -> option AuthorTeamResolution) : option (list Z) :=
  match field document (js "author") with
  | JStr (c :: s) => match teams (c :: s) with
                     | Some (at_known ids) => Some (sorted_ids ids)
                     | _ => None
                     end
  | _ => None
  end.
Definition rebuild_fields (r : RepositoryRow) (teamIds : option (list Z)) (document : Source) : Fields :=
  let doc := registryOwnedFields r ∪ (derivedFields document ∪ document) in
  match teamIds with
  | None => delete AUTHOR_TEAM_IDS doc
  | Some ids => <[AUTHOR_TEAM_IDS := Documents.numbers ids]> doc
  end.
Definition rebuild_request (r : RepositoryRow) (teams : jstr -> option AuthorTeamResolution) (p : Z * Snapshot) : UpsertRequest :=
  let teamIds := authorTeamIdsFor (sn_document p.2) teams in
  mkUpsert prs_pull_requests (pullRequestDocId (repository_id r) p.1) (js_of_Z (repository_id r)) (sn_version p.2)
    (rebuild_fields r teamIds (sn_document p.2)) ∅ ∅ (match teamIds with None => [AUTHOR_TEAM_IDS] | Some _ => [] end).

Section rebuild.
Context (hash_order : list json -> list json) {S : Type} `{DocServer S}.

(** The run of a page inside the fence: an item that is not indexed is an exception. *)
Definition rebuild_run (requests : list UpsertRequest) (t : WriteTargets) (s : S)
  : S * result jstr (unit * (list ShadowWriteFailure * list FenceShadowPending)) :=
  match bulkUpsert hash_order requests t s with
  | (s, Err _) => (s, Err (js "bulk"))
  | (s, Ok (os, fs)) =>
    match List.filter (fun o => negb (is_ok_outcome o)) os with
    | bo_failed _ _ _ reason :: _ => (s, Err (js "pr_rebuild_item_failure: " ++ reason))
    | _ => (s, Ok (tt, (fs, [])))
    end
  end.
End rebuild.

(** ** The verdict before the switch *)

Definition targetReplaced {S} `{IndexAdmin S} (s : S) (index : jstr) (recorded : option jstr) : option jstr :=
  match recorded with
  | None => None
  | Some uuid =>
    if bool_decide (ia_uuid s index = Some uuid) then None
    else Some (js "target_index_replaced:" ++ index ++ js ":" ++ uuid ++ js "->" ++ default (js "absent") (ia_uuid s index))
  end.

Definition state_name (s : JobState) : jstr :=
  match s with
  | queued => js "queued" | running => js "running" | paused => js "paused" | completed => js "completed"
  | failed => js "failed" | cancelled => js "cancelled"
  end.

(** What the checks of the target index give; a check that throws gives its message. *)
Record Measured : Type := mkMeasured {
  ms_commits : result jstr (Z * list jstr); ms_links : result jstr (Z * list jstr);
  ms_target_count : Z; ms_search : option jstr; ms_sequence : result jstr (list jstr); ms_commit_links : result jstr (list jstr)
}.
Definition check_reasons (what : jstr) (r : result jstr (list jstr)) : list jstr :=
  match r with Ok reasons => reasons | Err e => [what ++ js " 검증 실패: " ++ take 200 e] end.
Definition counted (r : result jstr (Z * list jstr)) : result jstr (list jstr) :=
  match r with Ok (_, reasons) => Ok reasons | Err e => Err e end.
Definition PRS_COMMITS : jstr := alias_name prs_commits.
Definition PRS_LINKS : jstr := alias_name prs_links.

Definition verify_reasons {S} `{IndexAdmin S} (job : option ReindexRow) (expectedDocuments : option Z) (m : Measured) (s : S)
  : list jstr :=
  match job with
  | None => [js "잡이 사라졌다"]
  | Some j =>
    let p := progress j in
    let alias := target j in
    let index := default [] (target_index p) in
    let n := default 0 (failures p) in
    let first :=
      (if bool_decide (state j = running) then [] else [js "잡 상태가 " ++ state_name (state j) ++ js "다"]) ++
      (if 0 <? n then [js "알려진 실패 " ++ js_of_Z n ++ js "건"] else []) ++
      (if bool_decide (scan_complete p = Some true) then [] else [js "정본 스캔이 끝나지 않았다"]) in
    if negb (index_exists s index) then first ++ [js "대상 인덱스가 없다"]
    else
      let commits := jeqb alias PRS_COMMITS in
      let links := jeqb alias PRS_LINKS in
      let expected := if commits then match ms_commits m with Ok (n, _) => Some n | Err _ => expectedDocuments end
                      else if links then match ms_links m with Ok (n, _) => Some n | Err _ => expectedDocuments end
                      else expectedDocuments in
      first ++
      match targetReplaced s index (target_uuid p) with Some r => [js "대상 인덱스가 바뀌었다: " ++ r] | None => [] end ++
      (if commits then check_reasons (js "커밋 문서") (counted (ms_commits m)) else []) ++
      (if links then check_reasons (js "간선") (counted (ms_links m)) else []) ++
      match expected with
      | Some n => if ms_target_count m <? n
                  then [js "커버리지 부족: 기대 " ++ js_of_Z n ++ js " > 대상 " ++ js_of_Z (ms_target_count m)] else []
      | None => []
      end ++
      match ms_search m with Some e => [js "대표 질의 실패: " ++ e] | None => [] end ++
      (if jeqb alias PR_ALIAS || commits then check_reasons (js "시퀀스 투영") (ms_sequence m) else []) ++
      (if commits then check_reasons (js "PR 연결") (ms_commit_links m) else [])
  end.

(** ** The decision inside the exclusive fence *)

(** Spaces by repository and branch; the last record of a space counts, in the place of the first. *)
Fixpoint record_epoch (r : ReplaySpace) (l : list ReplaySpace) : list ReplaySpace :=
  match l with
  | [] => [r]
  | x :: l => if (rp_repository_id x =? rp_repository_id r) && jeqb (rp_base_branch x) (rp_base_branch r)
              then r :: l else x :: record_epoch r l
  end.
Definition moved_reason (r : ReplaySpace) (epoch : Z) : jstr :=
  js "sequence_epoch_moved:" ++ js_of_Z (rp_repository_id r) ++ js "@" ++ rp_base_branch r ++ js ":"
  ++ js_of_Z (rp_seq_epoch r) ++ js "->" ++ js_of_Z epoch.
Definition sequenceEpochsMoved (space_epoch : Z -> jstr -> option Z) (replay : option (list ReplaySpace)) : option jstr :=
  match replay with
  | None => None
  | Some spaces =>
    head (omap (fun r => match space_epoch (rp_repository_id r) (rp_base_branch r) with
                         | Some e => if e =? rp_seq_epoch r then None else Some (moved_reason r e)
                         | None => None
                         end) (foldl (fun l r => record_epoch r l) [] spaces))
  end.

Inductive CutoverDecision : Type := cd_switch | cd_abort (reason : option jstr) (pending : nat).
Definition cutover_decision {S} `{IndexAdmin S} (space_epoch : Z -> jstr -> option Z) (alias : jstr) (id : Z) (index : jstr)
    (links : LinkPendings) (s : S) (db : ReindexJobs) : CutoverDecision :=
  match findReindexJob id db with
  | None => cd_abort None 0
  | Some latest =>
    let p := progress latest in
    if negb (bool_decide (state latest = running)) then cd_abort None 0
    else if 0 <? default 0 (failures p) then cd_abort None 0
    else
      let pending := if jeqb alias PRS_LINKS then countLinkPending id links else 0%nat in
      if (0 <? pending)%nat
      then cd_abort (Some (js "link_pending_at_cutover: " ++ js_of_Z (Z.of_nat pending) ++ js "건")) pending
      else match sequenceEpochsMoved space_epoch (sequence_replay p) with
           | Some moved => cd_abort (Some moved) 0
           | None => match targetReplaced s index (target_uuid p) with
                     | Some replaced => cd_abort (Some replaced) 0
                     | None => cd_switch
                     end
           end
  end.

(** ** Retired indices *)

Definition RETENTION_MS : Z := 7 * 24 * 60 * 60 * 1000.
Definition RETENTION_SWEEP_BATCH : nat := 10.
Definition phase_patch (p : ReindexPhase) : ReindexProgress :=
  mkProgress (Some p) None None None None None None None None None None None None.
Definition switched_patch (now : Z) : ReindexProgress :=
  mkProgress (Some retention) None None None None None None None None None (Some now) None None.

Section sweep.
Context {S : Type} `{IndexAdmin S}.

Definition reconcile_one (now : Z) (s : S) (db : ReindexJobs) (one : Z * jstr * jstr) : ReindexJobs :=
  match resolveServingIndex one.1.2 s with
  | Ok name => if jeqb name one.2 then patchReindexProgress one.1.1 (switched_patch now) db else db
  | Err _ => db
  end.
Definition reconcileSwitchedJobs (now : Z) (s : S) (db : ReindexJobs) : ReindexJobs :=
  foldl (reconcile_one now s) db (listUnrecordedSwitches RETENTION_SWEEP_BATCH db).
(** An index that serves again is left for the next sweep. *)
Definition retire_one (now : Z) (st : S * ReindexJobs * nat) (one : RetiredIndex) : S * ReindexJobs * nat :=
  let '(s, db, n) := st in
  match deleteRetiredIndex (ri_alias one) (ri_sourceIndex one) s with
  | (s, Ok serving) => (s, db, n)
  | (s, Ok deleted) => (s, markRetired (ri_jobId one) now db, Datatypes.S n)
  | (s, Ok absent) => (s, markRetired (ri_jobId one) now db, n)
  | (s, Err _) => (s, db, n)
  end.
Definition runRetentionSweep (now retentionMs : Z) (s : S) (db : ReindexJobs) : S * ReindexJobs * nat :=
  let db := reconcileSwitchedJobs now s db in
  foldl (retire_one now) (s, db, 0%nat) (listRetiredIndices (now - retentionMs) RETENTION_SWEEP_BATCH db).
End sweep.

(** ** What the server of indices promises *)

Class AdminLaws (S : Type) `{DocServer S, IndexAdmin S} : Prop := {
  adm_names s n : index_exists s n = true -> n ∈ ia_names s;
  (** A name is an index or an alias of one. *)
  adm_alias s n : es_index s n = n \/ es_index s n ∈ ia_alias s n;
  adm_create n s : grows s (ia_create n s).1;
  (** Switching an alias moves it alone; a switch that fails may still have been carried out. *)
  adm_switch a from to s : forall i k, es_doc (ia_switch a from to s).1 i k = es_doc s i k;
  adm_switched a from to s :
    let s' := (ia_switch a from to s).1 in
    (forall n, n <> a -> es_index s' n = es_index s n) ∧
    (es_index s' a = es_index s to \/ ((ia_switch a from to s).2 = false ∧ es_index s' a = es_index s a));
  adm_delete n s :
    let s' := (ia_delete n s).1 in
    (forall m, es_index s m <> n -> es_index s' m = es_index s m) ∧ (forall i k, i <> n -> es_doc s' i k = es_doc s i k)
}.

(** ** Pages of snapshots *)

Section pages.
Context (repository : Z) (t : Snapshots).

Lemma snapshots_where_elem ok n sn :
  (n, sn) ∈ snapshots_where repository ok t <-> t !! (repository, n) = Some sn ∧ ok n sn = true.
Proof.
  unfold snapshots_where. rewrite merge_sort_Permutation, list_elem_of_omap. split.
  - intros ([[r m] x] & Hin%elem_of_map_to_list & He). cbn [fst snd] in *. destruct (r =? repository) eqn:Er; [|done].
    destruct (ok m x) eqn:Eo; [|done]. injection He as -> ->. by apply Z.eqb_eq in Er as ->.
  - intros [Hin Ho]. exists ((repository, n), sn). split; [by apply elem_of_map_to_list|]. cbn [fst snd].
    by rewrite Z.eqb_refl, Ho.
Qed.
#[local] Instance by_number_total : Total by_number.
Proof. intros a b. unfold by_number. lia. Qed.
#[local] Instance by_number_trans : Transitive by_number.
Proof. intros a b c. unfold by_number. lia. Qed.
Lemma snapshots_where_sorted ok : StronglySorted by_number (snapshots_where repository ok t).
Proof. by apply (StronglySorted_merge_sort by_number). Qed.

(** The numbers that a page of at most [limit] rows speaks for. *)
Definition in_page (limit : nat) (rows : list (Z * Snapshot)) (n : Z) : Prop :=
  (length rows < limit)%nat \/ ∃ p, last rows = Some p ∧ n <= p.1.
Lemma page_complete after limit n sn :
  t !! (repository, n) = Some sn -> after < n -> in_page limit (listSnapshotsAfter repository after limit t) n ->
  (n, sn) ∈ listSnapshotsAfter repository after limit t.
Proof.
  intros Ht Ha Hp. unfold listSnapshotsAfter in *. set (l := snapshots_where _ _ t) in *.
  assert ((n, sn) ∈ l) as Hin by (apply snapshots_where_elem; split; [done|lia]).
  rewrite <- (take_drop limit l) in Hin. apply elem_of_app in Hin as [Hin|Hin]; [done|].
  destruct Hp as [Hlt|(p & Hl & Hle)].
  { rewrite length_take in Hlt. rewrite drop_ge in Hin by lia. by apply elem_of_nil in Hin. }
  pose proof (snapshots_where_sorted (fun n _ => after <? n)) as Hs. fold l in Hs.
  assert (p ∈ take limit l) as Hpin by (apply last_Some in Hl as [k ->]; apply elem_of_app; right; by left).
  rewrite <- (take_drop limit l) in Hs. pose proof (StronglySorted_app_1_elem_of by_number _ _ p (n, sn) Hs Hpin Hin) as Hord.
  unfold by_number in Hord. cbn [fst] in Hord. assert (p.1 = n) as He by lia. destruct p as [m x]. cbn [fst] in He. subst m.
  assert ((n, x) ∈ l) as Hx by (rewrite <- (take_drop limit l); apply elem_of_app; by left).
  apply snapshots_where_elem in Hx as [Hx _]. rewrite Ht in Hx. injection Hx as ->. done.
Qed.
Lemma page_after after limit n sn :
  (n, sn) ∈ listSnapshotsAfter repository after limit t -> t !! (repository, n) = Some sn ∧ after < n.
Proof.
  intros Hin. unfold listSnapshotsAfter in Hin. apply elem_of_take in Hin as (i & Hi & _).
  apply list_elem_of_lookup_2, snapshots_where_elem in Hi as [? ?]. split; [done|lia].
Qed.
End pages.

(** ** A server of indices *)

(** The model of EsDocument: an index that exists is an alias of itself. *)
#[export] Instance model_admin : IndexAdmin ModelIndex := {
  ia_uuid m n := if bool_decide (mi_alias m !! n = Some n) then Some n else None;
  ia_names m := omap (fun p => if bool_decide (p.1 = p.2) then Some p.1 else None) (map_to_list (mi_alias m));
  ia_alias m n := match mi_alias m !! n with Some i => [i] | None => [] end;
  ia_create n m := match mi_alias m !! n with
                   | None => (mkModelIndex (<[n := n]> (mi_alias m)) (mi_docs m), true)
                   | Some _ => (m, false)
                   end;
  ia_switch a from to m :=
    if bool_decide (mi_alias m !! a = Some from) then (mkModelIndex (<[a := model_name m to]> (mi_alias m)) (mi_docs m), true)
    else (m, false);
  ia_delete n m :=
    if bool_decide (mi_alias m !! n = Some n)
    then (mkModelIndex (delete n (mi_alias m)) (filter (fun p => p.1.1 <> n) (mi_docs m)), true) else (m, false)
}.
Lemma model_admin_laws : AdminLaws ModelIndex.
Proof.
  split.
  - intros m n He. unfold index_exists in He. cbn [ia_uuid ia_names model_admin] in *. destruct (bool_decide (mi_alias m !! n = Some n)) eqn:E;
      [|by apply bool_decide_eq_true_1 in He as [? ?]].
    apply bool_decide_eq_true_1 in E. apply list_elem_of_omap. exists (n, n). split; [by apply elem_of_map_to_list|].
    cbn [fst snd]. by rewrite bool_decide_eq_true_2.
  - intros m n. cbn [es_index model_index ia_alias model_admin]. unfold model_name. destruct (mi_alias m !! n); [right; by left|by left].
  - intros n m. cbn [ia_create model_admin]. destruct (mi_alias m !! n) eqn:E; [by split|]. cbn [fst]. split; [|done].
    intros x. cbn [es_index model_index]. unfold model_name. cbn [mi_alias]. destruct (decide (x = n)) as [->|Hne];
      [by rewrite lookup_insert_eq, E|by rewrite lookup_insert_ne].
  - intros a from to m i k. cbn [ia_switch model_admin]. by destruct (bool_decide _).
  - intros a from to m. cbn [ia_switch model_admin]. destruct (bool_decide _); cbn [fst snd es_index model_index].
    + unfold model_name. cbn [mi_alias]. split; [intros n Hne; by rewrite lookup_insert_ne|left; by rewrite lookup_insert_eq].
    + split; [done|by right].
  - intros n m. cbn [ia_delete model_admin]. destruct (bool_decide (mi_alias m !! n = Some n)) eqn:E; [|done].
    apply bool_decide_eq_true_1 in E. cbn [fst es_index model_index es_doc]. unfold model_name. cbn [mi_alias mi_docs]. split.
    + intros x Hx. destruct (decide (x = n)) as [->|Hne]; [|by rewrite lookup_delete_ne]. rewrite E in Hx. done.
    + intros i k Hne. rewrite map_lookup_filter. destruct (mi_docs m !! (i, k)); [|done]. cbn. by case_guard.
Qed.
