(* ===== verification/ReindexTheorems.v ===== *)
(** * Theorems on the parts of a reindexing

    The documents rebuilt from snapshots against those of the projection, the names of
    versioned indices, the sweep of retired indices, and inputs on which the statements around
    the fence lose what they were to record. *)

From stdpp Require Import base option strings numbers gmap sorting list.
From Stdlib Require Import ZArith Lia.
From S2P Require Import Prelude JsString Json MergeNumber ReleaseSignal QueryBuilder EsDocument EsProjection Jobs Documents Reindex.
Open Scope Z_scope.

(** ** Documents rebuilt from snapshots *)

Lemma object_lookup l k : object l !! k = snd <$> find (fun p => jeqb p.1 k) (rev l).
Proof.
  unfold object. induction l as [|p l IH] using rev_ind; [apply lookup_empty|]. rewrite foldl_snoc, rev_app_distr. cbn [rev app find].
  destruct (jeqb p.1 k) eqn:E; [apply jeqb_eq in E as <-; apply lookup_insert_eq|apply jeqb_neq in E; by rewrite lookup_insert_ne, IH].
Qed.
Lemma union_same {A} (m d : gmap jstr A) : m ⊆ d -> m ∪ d = d.
Proof. intros H. apply map_eq. intros k. rewrite lookup_union. specialize (H k). destruct (m !! k), (d !! k); cbn in *; try done. by subst. Qed.
Lemma object_subseteq (l : list (jstr * json)) (d : Fields) : Forall (fun p => d !! p.1 = Some p.2) l -> object l ⊆ d.
Proof.
  intros H. apply map_subseteq_spec. intros k v. rewrite object_lookup. intros (p & Hf & He)%fmap_Some.
  apply find_some in Hf as [Hin%in_rev Hk%jeqb_eq]. subst. rewrite Forall_forall in H. apply H. by apply list_elem_of_In.
Qed.

Lemma puts_lookup l d k :
  puts d l !! k = match find (fun p => jeqb p.1 k && bool_decide (is_Some p.2)) (rev l) with Some p => p.2 | None => d !! k end.
Proof.
  unfold puts. induction l as [|[k' v] l IH] using rev_ind; [done|]. rewrite foldl_snoc, rev_app_distr. cbn [rev app find fst snd put].
  destruct (jeqb k' k) eqn:E, v as [v|]; cbn [andb put]; rewrite ?bool_decide_eq_true_2, ?bool_decide_eq_false_2 by (done || by intros [? ?]);
    try apply IH; [apply jeqb_eq in E as ->; apply lookup_insert_eq|apply jeqb_neq in E; by rewrite lookup_insert_ne].
Qed.

Section rebuilt.
Context (date_parse : jstr -> option Z) (toISOString : Z -> jstr) (s : ProjectionSource).
Let p := buildPullRequestDocument date_parse toISOString s.


Lemma scope_in_document : Forall (fun p' => ur_doc p !! p'.1 = Some p'.2)
   (repositoryScope (repository s) ++ [(js "repository_archived", JBool (is_archived (repository s)))]).
Proof.
  apply Forall_forall. intros x Hx. unfold ur_doc. rewrite lookup_insert_ne.
  2:{ revert x Hx. apply Forall_forall. repeat constructor; vm_compute; discriminate. }
  cbn [ur_fields p buildPullRequestDocument]. rewrite puts_lookup_ne.
  2:{ revert x Hx. apply Forall_forall. destruct (pull_request (enriched s)); repeat constructor; apply mem_false; vm_compute; reflexivity. }
  rewrite object_lookup. revert x Hx. apply Forall_forall. unfold event_fields, file_counts. destruct (filesUnknown _); repeat constructor.
Qed.

Lemma counts_in_document : derivedFields (ur_doc p) = ∅.
Proof.
  assert (forall k, k ∈ FILE_FIELDS -> ur_doc p !! k = snd <$> find (fun x => jeqb x.1 k) (rev (event_fields toISOString s))) as H.
  { intros k Hk. unfold ur_doc. rewrite lookup_insert_ne by (intros <-; revert Hk; apply mem_false; vm_compute; reflexivity).
    cbn [ur_fields p buildPullRequestDocument]. rewrite puts_lookup_ne; [apply object_lookup|].
    destruct (pull_request (enriched s)); keys_apart Hk. }
  unfold derivedFields, field. rewrite !H by (apply mem_elem; vm_compute; reflexivity).
  unfold event_fields, file_counts. destruct (filesUnknown (enriched s)); reflexivity.
Qed.
Definition known_teams : option (list Z) := match author_teams s with at_known ids => Some (sorted_ids ids) | at_unknown => None end.
Lemma teams_in_document : ur_doc p !! AUTHOR_TEAM_IDS = Documents.numbers <$> known_teams.
Proof.
  unfold ur_doc. rewrite lookup_insert_ne by (vm_compute; discriminate). cbn [ur_fields p buildPullRequestDocument]. unfold known_teams.
  rewrite puts_lookup. destruct (pull_request (enriched s)), (author_teams s); try reflexivity;
    rewrite object_lookup; unfold event_fields, file_counts; destruct (filesUnknown _); reflexivity.
Qed.
Lemma author_in_document : ur_doc p !! js "author" = (fun pr => nullable (pr_author pr)) <$> pull_request (enriched s).
Proof.
  unfold ur_doc. rewrite lookup_insert_ne by (vm_compute; discriminate). cbn [ur_fields p buildPullRequestDocument].
  rewrite puts_lookup. destruct (pull_request (enriched s)); [reflexivity|].
  rewrite object_lookup; unfold event_fields, file_counts; destruct (filesUnknown _); reflexivity.
Qed.
Lemma teams_found teams :
  (forall pr a, pull_request (enriched s) = Some pr -> pr_author pr = Some a -> teams a = Some (authorTeams s)) ->
  authorTeamIdsFor (ur_doc p) teams = known_teams.
Proof.
  intros Ht. unfold authorTeamIdsFor, field. rewrite author_in_document. unfold known_teams, author_teams.
  destruct (pull_request (enriched s)) as [pr|]; [|reflexivity]. cbn [fmap option_fmap option_map default].
  destruct (pr_author pr) as [[|c a]|] eqn:Ea; cbn [nullable]; [reflexivity| |reflexivity].
  cbn. rewrite (Ht pr (c :: a) eq_refl Ea). by destruct (authorTeams s).
Qed.
Lemma rebuilt_document teams source :
  (forall pr a, pull_request (enriched s) = Some pr -> pr_author pr = Some a -> teams a = Some (authorTeams s)) ->
  ur_doc (rebuild_request (repository s) teams (pr_number (enriched s), mkSnapshot (documentVersion s) source (ur_doc p))) = ur_doc p.
Proof.
  intros Ht. unfold ur_doc at 1. cbn [ur_version ur_fields rebuild_request fst snd sn_version sn_document]. rewrite teams_found by done.
  unfold rebuild_fields. rewrite counts_in_document, (left_id_L ∅ (∪)), union_same by (apply object_subseteq, scope_in_document).
  transitivity (<[DOCUMENT_VERSION := JNum (documentVersion s)]> (ur_doc p)); [|apply insert_id, lookup_insert_eq]. f_equal.
  pose proof teams_in_document as Hd. destruct known_teams; [by apply insert_id|by apply delete_id].
Qed.
End rebuilt.


(** ** Versions of an alias *)

Lemma index_version_read alias n : 1 <= n -> is_safe_integer n = true -> parseIndexVersion alias (alias ++ js "-v" ++ js_of_Z n) = Some n.
Proof.
  intros Hn Hs. unfold parseIndexVersion. rewrite (app_assoc alias), starts_with_app, drop_app_length. cbn [negb].
  destruct (js_of_Z_pos_shape n Hn) as (c & r & E & H1 & H2). rewrite E, H1, H2. cbn [andb]. rewrite <- E, num_of_js_of_Z by lia. by rewrite Hs.
Qed.
Lemma index_version_prefix alias index v :
  parseIndexVersion alias index = Some v -> ∃ c r, index = alias ++ js "-v" ++ c :: r ∧ forallb is_digit (c :: r) = true.
Proof.
  unfold parseIndexVersion. destruct (starts_with _ index) eqn:E; [|done]. apply starts_with_spec in E as [r ->]. cbn [negb].
  rewrite drop_app_length. destruct r as [|c r]; [done|]. destruct (in_range 49 57 c && forallb is_digit r) eqn:Ed; [|done]. intros _.
  apply andb_prop in Ed as [Hc Hr]. exists c, r. rewrite <- app_assoc. split; [done|]. cbn [forallb]. rewrite Hr, andb_true_r.
  apply in_range_spec in Hc. unfold is_digit. apply in_range_spec. lia.
Qed.
(** A name is a version of one alias at most: its digits end where the last letter is. *)
Lemma digits_after l c x :
  forallb is_digit x = true -> is_digit c = false -> span is_digit (rev (l ++ c :: x)) = (rev x, c :: rev l).
Proof.
  intros Hx Hc. rewrite rev_app_distr. cbn [rev]. rewrite <- app_assoc. cbn [app]. apply span_all; [|exact Hc].
  apply forallb_elem. intros z Hz. apply (proj1 (forallb_elem _ _) Hx). by rewrite list_elem_of_In, in_rev, <- list_elem_of_In.
Qed.
Lemma index_version_alias a b index v w : parseIndexVersion a index = Some v -> parseIndexVersion b index = Some w -> a = b.
Proof.
  intros (c & r & -> & Hd)%index_version_prefix (c' & r' & E & Hd')%index_version_prefix.
  change (a ++ [45%N] ++ 118%N :: c :: r = b ++ [45%N] ++ 118%N :: c' :: r') in E. rewrite !(app_assoc _ [45%N]) in E.
  apply (f_equal (fun l => rev (drop 1 (span is_digit (rev l)).2))) in E. rewrite !digits_after in E by done.
  cbn [snd drop] in E. rewrite !drop_0, !rev_involutive in E. by apply app_inj_tail in E as [-> _].
Qed.

Section unused.
Context {S : Type} `{AdminLaws S}.

Lemma version_listed alias s index v : index_exists s index = true -> parseIndexVersion alias index = Some v -> v ∈ listIndexVersions alias s.
Proof.
  intros He Hv. unfold listIndexVersions. rewrite merge_sort_Permutation, list_elem_of_omap. exists index. split; [|done].
  apply list_elem_of_In, filter_In. split; [by apply list_elem_of_In, adm_names|]. unfold parseIndexVersion in Hv.
  by destruct (starts_with _ index).
Qed.
Lemma sorted_last l x : StronglySorted Z.le l -> x ∈ l -> x <= default 0 (last l).
Proof.
  intros Hs Hx. destruct (last l) as [y|] eqn:E; [|apply last_None in E as ->; by apply elem_of_nil in Hx].
  apply last_Some in E as [k ->]. cbn. apply elem_of_app in Hx as [Hx|Hx]; [|apply list_elem_of_singleton in Hx; lia].
  apply (StronglySorted_app_1_elem_of Z.le k [y] x y Hs Hx). exact (list_elem_of_here _ _).
Qed.
Lemma version_below alias s index v :
  index_exists s index = true -> parseIndexVersion alias index = Some v -> v < nextUnusedVersion alias s.
Proof.
  intros He Hv. pose proof (version_listed alias s index v He Hv) as Hin. unfold nextUnusedVersion.
  enough (v <= default 0 (last (listIndexVersions alias s))) by lia. apply sorted_last; [|done]. apply (StronglySorted_merge_sort Z.le).
Qed.
Lemma next_version_positive alias s : 1 <= nextUnusedVersion alias s.
Proof.
  unfold nextUnusedVersion. destruct (last _) as [v|] eqn:E; [|cbn; lia]. cbn. apply last_Some in E as [k E].
  assert (v ∈ listIndexVersions alias s) as Hin by (rewrite E; apply elem_of_app; right; exact (list_elem_of_here _ _)).
  unfold listIndexVersions in Hin. rewrite merge_sort_Permutation in Hin. apply list_elem_of_omap in Hin as (index & _ & Hv).
  unfold parseIndexVersion in Hv. destruct (negb _); [done|]. destruct (drop _ index) as [|c r]; [done|].
  destruct (in_range 49 57 c && forallb is_digit r) eqn:Ed; [|done]. destruct (is_safe_integer _); [|done]. injection Hv as <-.
  apply andb_prop in Ed as [Hc Hr]. enough (0 <= num_of_digits (c :: r)) by lia. apply num_of_digits_nonneg. cbn [forallb]. rewrite Hr, andb_true_r.
  apply in_range_spec in Hc. apply in_range_spec. lia.
Qed.
End unused.

(** ** Retired indices *)

Lemma omap_length {A B} (f : A -> option B) l : (length (omap f l) <= length l)%nat.
Proof. induction l as [|x l IH]; [done|]. cbn [omap list_omap length]. destruct (f x); cbn [length]; lia. Qed.

Section sweeps.
Context {S : Type} `{AdminLaws S}.
Implicit Types (s : S) (db : ReindexJobs).

(** An alias that names one of its versions. *)
Definition serves s (alias : jstr) : Prop := is_Some (parseIndexVersion alias (es_index s alias)).
(** Aliases and what they serve are as they were; other indices than [gone] are as they were. *)
Record spared (gone : jstr -> Prop) s s' : Prop := {
  sp_alias alias : serves s alias -> es_index s' alias = es_index s alias;
  sp_served alias k : serves s alias -> es_doc s' (es_index s alias) k = es_doc s (es_index s alias) k;
  sp_other index k : ~ gone index -> es_doc s' index k = es_doc s index k
}.
Lemma spared_refl gone s : spared gone s s.
Proof. done. Qed.
Lemma spared_trans gone s s1 s2 : spared gone s s1 -> spared gone s1 s2 -> spared gone s s2.
Proof.
  intros [A1 A2 A3] [B1 B2 B3].
  assert (forall alias, serves s alias -> serves s1 alias) as Hs by (intros alias Hal; unfold serves; by rewrite A1).
  split; intros.
  - rewrite B1 by auto. auto.
  - rewrite <- (A1 alias), B2, (A1 alias) by auto. auto.
  - rewrite B3 by done. auto.
Qed.
Lemma retired_spared alias index s (gone : jstr -> Prop) :
  gone index -> spared gone s (deleteRetiredIndex alias index s).1.
Proof.
  intros Hg. unfold deleteRetiredIndex. destruct (parseIndexVersion alias index) as [v|] eqn:Ev; [|done].
  destruct (mem index (ia_alias s alias)) eqn:Em; [done|]. destruct (negb (index_exists s index)); [done|].
  destruct (adm_delete index s) as [Ha Hd]. destruct (ia_delete index s) as [s' ok] eqn:E. cbn [fst] in *.
  assert (forall a, serves s a -> es_index s a <> index) as Hne.
  { intros a [w Hw] He. rewrite He in Hw. pose proof (index_version_alias _ _ _ _ _ Hw Ev) as ->. destruct (adm_alias s alias) as [Hn|Hin].
    - apply index_version_prefix in Ev as (c & r & Hi & _). rewrite <- He, Hn in Hi. apply (f_equal length) in Hi.
      rewrite !length_app in Hi. cbn in Hi. lia.
    - rewrite He in Hin. apply mem_false in Em. done. }
  assert (spared gone s s') as Hs.
  { split; intros; [by apply Ha, Hne|by apply Hd, Hne|]. apply Hd. by intros ->. }
  by destruct ok.
Qed.

Lemma sweep_spared now (rows : list RetiredIndex) s db n (gone : jstr -> Prop) :
  Forall (fun one => gone (ri_sourceIndex one)) rows -> spared gone s (foldl (retire_one now) (s, db, n) rows).1.1.
Proof.
  intros Hrows. revert s db n. induction Hrows as [|one rows Hg _ IH]; intros s db n; [apply spared_refl|]. cbn [foldl].
  pose proof (retired_spared (ri_alias one) (ri_sourceIndex one) s gone Hg) as Hs. unfold retire_one at 2.
  destruct (deleteRetiredIndex _ _ s) as [s1 [[]|e]]; cbn [fst] in Hs; (eapply spared_trans; [exact Hs|apply IH]).
Qed.
(** A sweep marks at most one index per row. *)
Lemma sweep_count now (rows : list RetiredIndex) s db n : ((foldl (retire_one now) (s, db, n) rows).2 <= n + length rows)%nat.
Proof.
  revert s db n. induction rows as [|one rows IH]; intros s db n; [cbn; lia|]. cbn [foldl length]. unfold retire_one at 2.
  destruct (deleteRetiredIndex _ _ s) as [s1 [[]|e]]; etransitivity; [apply IH|lia|apply IH|lia|apply IH|lia|apply IH|lia].
Qed.
Lemma reconciled_row now s db j :
  j ∈ jobs (reconcileSwitchedJobs now s db) -> j ∈ jobs db \/ switched_at (progress j) = Some now.
Proof.
  unfold reconcileSwitchedJobs. generalize (listUnrecordedSwitches RETENTION_SWEEP_BATCH db). intros l. revert db.
  induction l as [|one l IH]; intros db Hj; [by left|]. cbn [foldl] in Hj. destruct (IH _ Hj) as [Hin|]; [|by right].
  unfold reconcile_one in Hin. destruct (resolveServingIndex _ s); [|by left]. destruct (jeqb _ _); [|by left].
  cbn [patchReindexProgress update_job jobs] in Hin. apply list_elem_of_fmap in Hin as (x & -> & Hx). destruct (_ && _); [by right|by left].
Qed.
Lemma retired_listed before limit db one :
  one ∈ listRetiredIndices before limit db -> ∃ j at_, j ∈ jobs db ∧ job_id j = ri_jobId one ∧ state j = completed ∧ target j = ri_alias one ∧
    source_index (progress j) = Some (ri_sourceIndex one) ∧ switched_at (progress j) = Some at_ ∧ at_ < before.
Proof.
  unfold listRetiredIndices. intros (j & Hj & He)%list_elem_of_omap. apply elem_of_take in Hj as (i & Hi & _).
  apply list_elem_of_lookup_2, list_elem_of_In, filter_In in Hi as [Hin Hr]. apply list_elem_of_In in Hin.
  unfold toReindexJob in He. destruct (phase _); [|done]. unfold retired_row in Hr. destruct (switched_at (progress j)) as [at_|] eqn:Es; [|done].
  destruct (source_index (progress j)) as [source|] eqn:Eo; [|done]. injection He as <-. cbn. exists j, at_.
  rewrite !andb_true_iff, Z.ltb_lt in Hr. destruct Hr as [[[_ Hst%bool_decide_eq_true_1] Hlt] _]. done.
Qed.
Lemma retired_batch before limit db : (length (listRetiredIndices before limit db) <= limit)%nat.
Proof.
  unfold listRetiredIndices. etransitivity; [apply omap_length|]. rewrite length_take. lia.
Qed.
End sweeps.

(** ** Theorems *)

(** [C28] A reindexing replays the projection: the document it builds from the snapshot of an event is
    the one the event itself makes in an empty index, with the same identifier, routing and
    version, as long as the registry and the teams are what they were.  The two fields that are
    written when a document is created, the summary of its links and the mark that they are
    still to be derived, are the only ones it lacks. *)
Theorem rebuild_replays_projection date_parse toISOString s teams source :
  (forall pr a, pull_request (enriched s) = Some pr -> pr_author pr = Some a -> teams a = Some (authorTeams s)) ->
  let p := buildPullRequestDocument date_parse toISOString s in
  let q := rebuild_request (repository s) teams (pr_number (enriched s), mkSnapshot (ur_version p) source (ur_doc p)) in
  ur_alias q = ur_alias p ∧ ur_id q = ur_id p ∧ ur_routing q = ur_routing p ∧ ur_version q = ur_version p ∧
  initialDocument q = delete LINKS_PENDING (delete LINK_SUMMARY (initialDocument p)).
Proof.
  intros Ht p q. repeat split. assert (ur_doc q = ur_doc p) as Hq by (by apply rebuilt_document).
  unfold initialDocument, withDocId. rewrite Hq, !delete_insert_ne by (vm_compute; discriminate). f_equal.
  assert (forall k, k ∈ OWNED -> ur_doc p !! k = None) as Ho.
  { intros k Hk. unfold ur_doc. rewrite lookup_insert_ne by (intros <-; revert Hk; apply mem_false; vm_compute; reflexivity).
    apply pull_request_keys. by right; right. }
  assert (forall k, k <> LINKS_PENDING -> k <> LINK_SUMMARY -> ur_createOnly p !! k = None) as Hc.
  { intros k H1 H2. apply object_lookup_ne. cbn [map fst]. rewrite !not_elem_of_cons. split_and!; [done..|apply not_elem_of_nil]. }
  apply map_eq. intros k. change (ur_createOnly q) with (∅ : Source). change (ur_union p) with (∅ : gmap jstr (list json)).
  change (ur_union q) with (∅ : gmap jstr (list json)). unfold toArrays. rewrite fmap_empty, !(left_id_L ∅ (∪)), (right_id_L ∅ (∪)).
  destruct (decide (k = LINKS_PENDING)) as [->|H1];
    [rewrite lookup_delete_eq; apply Ho, mem_elem; vm_compute; reflexivity|rewrite lookup_delete_ne by done].
  destruct (decide (k = LINK_SUMMARY)) as [->|H2];
    [rewrite lookup_delete_eq; apply Ho, mem_elem; vm_compute; reflexivity|rewrite lookup_delete_ne by done].
  rewrite lookup_union, Hc by done. by destruct (ur_doc p !! k).
Qed.

(** The index a reindexing builds is a new one: its name is that of no existing index, its
    version is above every version of the alias, reading the name gives the version back, and
    creating it does not run into an existing index. *)
Theorem target_index_unused {S} `{DocServer S, IndexAdmin S} (Hadm : AdminLaws S) alias (s : S) index :
  is_safe_integer (nextUnusedVersion alias s) = true -> nextTargetIndex alias s = Ok index ->
  index_exists s index = false ∧ parseIndexVersion alias index = Some (nextUnusedVersion alias s) ∧
  (forall old v, index_exists s old = true -> parseIndexVersion alias old = Some v -> v < nextUnusedVersion alias s) ∧
  (createVersionedIndex alias (nextUnusedVersion alias s) s).2 =
    if (ia_create index s).2 then Ok index else Err CREATE_FAILED.
Proof.
  intros Hs He. unfold nextTargetIndex in He. pose proof (next_version_positive alias s) as Hn. set (v := nextUnusedVersion alias s) in *.
  unfold createVersionedIndex. rewrite He. unfold concreteIndexName in He. destruct (v <? 1) eqn:E; [done|].
  assert (index = alias ++ js "-v" ++ js_of_Z v) as -> by congruence. clear He.
  pose proof (index_version_read alias v Hn Hs) as Hp.
  assert (index_exists s (alias ++ js "-v" ++ js_of_Z v) = false) as Hne.
  { destruct (index_exists s _) eqn:Ee; [|done]. pose proof (version_below alias s _ v Ee Hp). unfold v in *. lia. }
  rewrite Hne. split_and!; [done..| |by destruct (ia_create _ s) as [s' []]]. intros old w. apply version_below.
Qed.

(** The sweep of retired indices never touches what is served: an alias that names one of its
    versions names the same index with the same documents afterwards, and an index that lost a
    document was the source of a completed job whose switch is older than the retention; at most
    a batch of them goes at a time. *)
Theorem retention_keeps_serving {S} `{DocServer S, IndexAdmin S} (Hadm : AdminLaws S) now retentionMs (s : S) db :
  0 <= retentionMs ->
  let '(s', db', n) := runRetentionSweep now retentionMs s db in
  (forall alias, is_Some (parseIndexVersion alias (es_index s alias)) ->
     es_index s' alias = es_index s alias ∧ forall k, es_doc s' (es_index s' alias) k = es_doc s (es_index s alias) k) ∧
  (forall index k, es_doc s' index k <> es_doc s index k ->
     ∃ j at_, j ∈ jobs db ∧ state j = completed ∧ source_index (progress j) = Some index ∧
              switched_at (progress j) = Some at_ ∧ at_ < now - retentionMs) ∧
  (n <= RETENTION_SWEEP_BATCH)%nat.
Proof.
  intros Hms. unfold runRetentionSweep. set (db1 := reconcileSwitchedJobs now s db). set (rows := listRetiredIndices _ _ db1).
  set (gone index := index ∈ map ri_sourceIndex rows).
  assert (Forall (fun one => gone (ri_sourceIndex one)) rows) as Hrows by (apply Forall_forall; intros one; apply list_elem_of_fmap_2).
  pose proof (sweep_spared now rows s db1 0 gone Hrows) as [S1 S2 S3]. pose proof (sweep_count now rows s db1 0) as Hn.
  destruct (foldl _ _ rows) as [[s' db'] n]. cbn [fst snd] in *. split_and!.
  - intros alias Hal. rewrite S1 by done. split; [done|]. intros k. by apply S2.
  - intros index k Hne. destruct (decide (index ∈ map ri_sourceIndex rows)) as [Hin|]; [|by destruct Hne; apply S3].
    apply list_elem_of_fmap in Hin as (one & -> & (j & at_ & Hj & _ & Hst & _ & Hsrc & Hat & Hlt)%retired_listed). exists j, at_. split; [|done].
    apply reconciled_row in Hj as [|Hj]; [done|]. rewrite Hat in Hj. injection Hj as ->. lia.
  - pose proof (retired_batch (now - retentionMs) RETENTION_SWEEP_BATCH db1). unfold rows in Hn. lia.
Qed.

(** *** A pull request, two versions and a retired index *)

Lemma rebuild_replays_projection_witness :
  let p := buildPullRequestDocument no_clock js_of_Z sample_source in
  let q := rebuild_request sample_repository (fun _ => Some (at_known [9; 5])) (12, mkSnapshot 100 ss_webhook (ur_doc p)) in
  initialDocument p !! LINKS_PENDING = Some (JBool true) ∧
  initialDocument q = delete LINKS_PENDING (delete LINK_SUMMARY (initialDocument p)).
Proof.
  intros p q. split; [vm_compute; reflexivity|].
  apply (rebuild_replays_projection no_clock js_of_Z sample_source (fun _ => Some (at_known [9; 5])) ss_webhook). done.
Defined.

Definition COMMITS : jstr := js "prs-commits".
Definition version_name (n : Z) : jstr := COMMITS ++ js "-v" ++ js_of_Z n.
Definition two_versions : ModelIndex :=
  mkModelIndex {[COMMITS := version_name 10; version_name 10 := version_name 10; version_name 9 := version_name 9]}
    {[(version_name 9, (js "7", js "7:aa")) := ∅; (version_name 10, (js "7", js "7:aa")) := ∅]}.
Lemma target_index_unused_witness :
  nextTargetIndex COMMITS two_versions = Ok (version_name 11) ∧ index_exists two_versions (version_name 11) = false.
Proof.
  split; [vm_compute; reflexivity|].
  apply (target_index_unused model_admin_laws COMMITS two_versions); vm_compute; reflexivity.
Defined.

Definition old_switch : ReindexProgress :=
  mkProgress (Some retention) (Some (version_name 9)) (Some (version_name 10)) None None None None None None None (Some 5) None None.
Definition old_jobs : ReindexJobs := mkJobs [mkJob 1 reindex COMMITS completed old_switch None (js "kim") None None None] 2.
Lemma retention_keeps_serving_witness :
  let sweep := runRetentionSweep 1000 100 two_versions old_jobs in
  sweep.2 = 1%nat ∧ index_exists sweep.1.1 (version_name 9) = false ∧
  es_doc sweep.1.1 (es_index sweep.1.1 COMMITS) (js "7", js "7:aa") = Some ∅.
Proof.
  intros sweep. split; [vm_compute; reflexivity|]. split; [vm_compute; reflexivity|].
  assert (0 <= 100) as H by lia. pose proof (retention_keeps_serving model_admin_laws 1000 100 two_versions old_jobs H) as Hk.
  change (runRetentionSweep 1000 100 two_versions old_jobs) with sweep in Hk. destruct sweep as [[s' db'] n] eqn:E.
  destruct Hk as [Ha _]. destruct (Ha COMMITS) as [_ Hd]; [by eexists; vm_compute; reflexivity|]. rewrite Hd. vm_compute. reflexivity.
Defined.

(** *** What the fence does not record *)

(** A failure of the copy is recorded with the oldest active job.  Two requests that were checked
    before either was inserted leave two of them; when the older one is paused, the failure of
    the one that runs is lost. *)
Definition dual_progress (alias : jstr) : ReindexProgress :=
  mkProgress (Some backfill) (Some (alias ++ js "-v1")) (Some (alias ++ js "-v2")) None None None None None None None None None None.
Definition paused_and_running : ReindexJobs :=
  mkJobs [mkJob 1 reindex (js "prs-links") paused (dual_progress (js "prs-links")) None (js "kim") None None None;
          mkJob 2 reindex COMMITS running (dual_progress COMMITS) None (js "lee") None None None] 3.
Definition copy_failure : ShadowWriteFailure := mkShadowFailure COMMITS (version_name 2) (js "bulk") (js "rejected").
Example two_requests_pass_the_check :
  ∃ db1 db2, enqueue_checks (js "prs-links") no_jobs = None ∧ enqueue_checks COMMITS no_jobs = None ∧
    enqueueJob reindex (js "prs-links") (js "kim") (dual_progress (js "prs-links")) (no_jobs : ReindexJobs) = Some (db1, 1) ∧
    enqueueJob reindex COMMITS (js "lee") (dual_progress COMMITS) db1 = Some (db2, 2) ∧ length (List.filter active (jobs db2)) = 2%nat.
Proof. eexists _, _. repeat split; vm_compute; reflexivity. Qed.
Example failure_recorded_with_another_job :
  findDualWriteShadows paused_and_running !! COMMITS = Some (version_name 2) ∧
  record_shadow_results [copy_failure] [] 30 paused_and_running ∅ = Some (paused_and_running, ∅).
Proof. split; vm_compute; reflexivity. Qed.
(** When [run] throws, the failures of the copy that it had noted go with it. *)
Example failures_lost_when_run_throws :
  withReindexWrite (fun _ (s : ModelIndex) => (s, Err (js "timeout") : result jstr (unit * (list ShadowWriteFailure * list FenceShadowPending))))
    30 two_versions paused_and_running ∅ = (two_versions, paused_and_running, ∅, Some (Err (js "timeout"))).
Proof. reflexivity. Qed.
(** Two pending links of one source are refused together. *)
Example pending_of_one_source_twice :
  let i link := mkPendingInput 7 lk_commit (js "7:aa") partial_update_document_missing (Some link) in
  recordLinkPending 1 [i (js "l1"); i (js "l2")] ∅ = None.
Proof. vm_compute. reflexivity. Qed.
(** Two events of one version: the snapshot takes the second, the index keeps the first. *)
Example snapshot_and_index_disagree_on_ties :
  let doc v : Source := {[js "title" := JStr v]} in
  let first := mkSnapshot 100 ss_webhook (doc (js "a")) in
  let second := mkUpsert prs_pull_requests (pullRequestDocId 7 12) (js "7") 100 (doc (js "b")) ∅ ∅ [] in
  (upsertPullRequestSnapshot 7 12 (mkSnapshot 100 ss_webhook (ur_doc second)) {[(7, 12) := first]}).2 = true ∧
  CONDITIONAL_UPSERT_SCRIPT id second {[DOCUMENT_VERSION := JNum 100; js "title" := JStr (js "a")]} = s_noop.
Proof. split; vm_compute; reflexivity. Qed.
