(* ===== verification/ReindexSystem.v ===== *)
(** * Reindexing while events are projected

    The reindexing of the pull request documents as a transition system: projection workers that
    snapshot an event and write it inside the fence, the runner of reindex jobs
    ([runReindexJob], [startReindexRunner] of [apps/pipeline-worker/src/reindex.ts]), operators
    that pause, resume and cancel, requests for further jobs, and all other writes to the index.
    Its theorem: an event that was acknowledged is served, before, during and after any number of
    reindexings. *)

From stdpp Require Import base option strings numbers gmap relations sorting list.
From Stdlib Require Import ZArith Lia.
From S2P Require Import Prelude JsString Json QueryBuilder EsDocument EsProjection Jobs Documents Reindex.
Open Scope Z_scope.

Definition PRS : jstr := alias_name prs_pull_requests.

(** ** The state *)

(** An event on its way: its snapshot has been recorded. *)
Record Event : Type := mkEvent { ev_repository : Z; ev_pr : Z; ev_requests : list UpsertRequest }.
(** A write inside the fence, with the results that [run] has returned. *)
Record Writing : Type := mkWriting {
  wr_event : Event; wr_targets : WriteTargets; wr_result : option (list BulkItemOutcome * list ShadowWriteFailure)
}.
(** Where the runner is in [runReindexJob], with the job and its target index. *)
Inductive Runner : Type :=
| rn_idle
| rn_claimed (id : Z)
| rn_ready (id : Z) (source target : jstr)
| rn_activated (id : Z) (source target : jstr)
| rn_scan (id : Z) (source target : jstr) (todo : list Z) (after : Z)
| rn_page (id : Z) (source target : jstr) (todo : list Z) (rows : list (Z * Snapshot))
| rn_page_fenced (id : Z) (source target : jstr) (todo : list Z) (rows : list (Z * Snapshot)) (t : WriteTargets)
| rn_page_written (id : Z) (source target : jstr) (todo : list Z) (rows : list (Z * Snapshot)) (fs : list ShadowWriteFailure)
| rn_scanned (id : Z) (source target : jstr)
| rn_verify (id : Z) (source target : jstr)
| rn_cutover (id : Z) (source target : jstr)
| rn_switching (id : Z) (source target : jstr)
| rn_switched (id : Z).

Record System (S : Type) : Type := mkSystem {
  sy_es : S; sy_jobs : ReindexJobs; sy_links : LinkPendings; sy_snapshots : Snapshots; sy_repositories : list Z;
  sy_recorded : list Event; sy_writing : list Writing; sy_acked : list UpsertRequest; sy_runner : Runner
}.
Arguments mkSystem {S} _ _ _ _ _ _ _ _ _.
Arguments sy_es {S} _.
Arguments sy_jobs {S} _.
Arguments sy_links {S} _.
Arguments sy_snapshots {S} _.
Arguments sy_repositories {S} _.
Arguments sy_recorded {S} _.
Arguments sy_writing {S} _.
Arguments sy_acked {S} _.
Arguments sy_runner {S} _.

(** The exclusive fence is held while the runner switches the alias. *)
Definition exclusive (r : Runner) : bool := match r with rn_switching _ _ _ => true | _ => false end.
(** The job that the runner works on, when it has one. *)
Definition job_of (r : Runner) : option Z :=
  match r with
  | rn_idle => None
  | rn_claimed id | rn_ready id _ _ | rn_activated id _ _ | rn_scan id _ _ _ _ | rn_page id _ _ _ _ | rn_page_fenced id _ _ _ _ _
  | rn_page_written id _ _ _ _ _ | rn_scanned id _ _ | rn_verify id _ _ | rn_cutover id _ _ | rn_switching id _ _ | rn_switched id => Some id
  end.

Definition pr_key (repository pr : Z) : DocKey := (js_of_Z repository, pullRequestDocId repository pr).
Definition is_pr (r : UpsertRequest) : Prop := ur_alias r = prs_pull_requests.
#[export] Instance is_pr_dec r : Decision (is_pr r).
Proof. unfold is_pr. destruct (ur_alias r); [left|right..]; done. Defined.
(** The request of an event that is recorded as its snapshot. *)
Definition pull_request_of (e : Event) : option UpsertRequest := find (fun r => bool_decide (is_pr r)) (ev_requests e).

(** What [buildUpsertRequests] guarantees of an event. *)
Record wf_event (repositories : list Z) (e : Event) : Prop := {
  we_repository : ev_repository e ∈ repositories;
  we_number : 0 < ev_pr e;
  we_wf : Forall wf_request (ev_requests e);
  we_key r : r ∈ ev_requests e -> is_pr r -> ur_key r = pr_key (ev_repository e) (ev_pr e);
  we_one r r' : r ∈ ev_requests e -> r' ∈ ev_requests e -> is_pr r -> is_pr r' -> r' = r
}.

(** ** Transitions *)

Section system.
Context (hash_order : list json -> list json) {S : Type} `{DocServer S} `{IndexAdmin S}.
Implicit Types (σ : System S) (db : ReindexJobs).

Definition set_runner (rn : Runner) σ : System S :=
  mkSystem (sy_es σ) (sy_jobs σ) (sy_links σ) (sy_snapshots σ) (sy_repositories σ) (sy_recorded σ) (sy_writing σ) (sy_acked σ) rn.
Definition set_jobs db σ : System S :=
  mkSystem (sy_es σ) db (sy_links σ) (sy_snapshots σ) (sy_repositories σ) (sy_recorded σ) (sy_writing σ) (sy_acked σ) (sy_runner σ).
Definition set_es (s : S) σ : System S :=
  mkSystem s (sy_jobs σ) (sy_links σ) (sy_snapshots σ) (sy_repositories σ) (sy_recorded σ) (sy_writing σ) (sy_acked σ) (sy_runner σ).
Definition set_writing (w : list Writing) σ : System S :=
  mkSystem (sy_es σ) (sy_jobs σ) (sy_links σ) (sy_snapshots σ) (sy_repositories σ) (sy_recorded σ) w (sy_acked σ) (sy_runner σ).

(** [recordProjectionSnapshot], as far as the snapshot goes. *)
Definition record_snapshot (e : Event) (t : Snapshots) : Snapshots :=
  match pull_request_of e with
  | Some r => (upsertPullRequestSnapshot (ev_repository e) (ev_pr e) (mkSnapshot (ur_version r) ss_webhook (ur_doc r)) t).1
  | None => t
  end.
Definition all_ok (os : list BulkItemOutcome) : bool := forallb is_ok_outcome os.

(** Projecting an event ([handleEnrichedEvent]): the snapshot, the targets read inside the shared
    fence, the writes with their retries, and the recording before the fence is let go.  The event
    is acknowledged when all its items are indexed; otherwise, and when anything throws, it is
    delivered again or ends in the dead letters. *)
Inductive worker_step : System S -> System S -> Prop :=
| ws_snapshot e σ : wf_event (sy_repositories σ) e ->
    worker_step σ (mkSystem (sy_es σ) (sy_jobs σ) (sy_links σ) (record_snapshot e (sy_snapshots σ)) (sy_repositories σ)
      (e :: sy_recorded σ) (sy_writing σ) (sy_acked σ) (sy_runner σ))
| ws_fence e σ : e ∈ sy_recorded σ -> exclusive (sy_runner σ) = false ->
    worker_step σ (set_writing (mkWriting e (mkTargets (findDualWriteShadows (sy_jobs σ))) None :: sy_writing σ) σ)
| ws_run e t ws1 ws2 σ s os fs : sy_writing σ = ws1 ++ mkWriting e t None :: ws2 ->
    index_documents hash_order (ev_requests e) t (sy_es σ) = (s, Ok (os, fs)) ->
    worker_step σ (set_es s (set_writing (ws1 ++ mkWriting e t (Some (os, fs)) :: ws2) σ))
| ws_throw e t ws1 ws2 σ s err : sy_writing σ = ws1 ++ mkWriting e t None :: ws2 ->
    index_documents hash_order (ev_requests e) t (sy_es σ) = (s, Err err) ->
    worker_step σ (set_es s (set_writing (ws1 ++ ws2) σ))
| ws_release e t ws1 ws2 σ os fs now db links : sy_writing σ = ws1 ++ mkWriting e t (Some (os, fs)) :: ws2 ->
    record_shadow_results fs [] now (sy_jobs σ) (sy_links σ) = Some (db, links) ->
    worker_step σ (mkSystem (sy_es σ) db links (sy_snapshots σ) (sy_repositories σ) (sy_recorded σ) (ws1 ++ ws2)
      (if all_ok os then ev_requests e ++ sy_acked σ else sy_acked σ) (sy_runner σ))
| ws_crash w ws1 ws2 σ : sy_writing σ = ws1 ++ w :: ws2 -> worker_step σ (set_writing (ws1 ++ ws2) σ).

(** Operators, requests for jobs, newly registered repositories, and every other write to the index:
    it moves no alias and takes no document back. *)
Inductive other_step : System S -> System S -> Prop :=
| os_action id a now σ : other_step σ (set_jobs (transitionJob id a now (sy_jobs σ)).1 σ)
| os_enqueue requestedBy σ db o : enqueueReindex PRS requestedBy (sy_es σ) (sy_jobs σ) = (db, o) -> other_step σ (set_jobs db σ)
| os_register repository σ :
    other_step σ (mkSystem (sy_es σ) (sy_jobs σ) (sy_links σ) (sy_snapshots σ) (repository :: sy_repositories σ) (sy_recorded σ)
      (sy_writing σ) (sy_acked σ) (sy_runner σ))
| os_write s σ : grows (sy_es σ) s -> other_step σ (set_es s σ).

Definition uuid_patch (uuid : jstr) : ReindexProgress :=
  mkProgress None None None (Some uuid) None None None None None None None None None.
Definition activation_patch (now : Z) : ReindexProgress :=
  mkProgress (Some dual_write) None None None None None None None None (Some now) None None None.
Definition scanned_patch (scanned written : Z) : ReindexProgress :=
  mkProgress None None None None (Some scanned) (Some written) None None (Some true) None None None None.
Definition finish (s : JobState) (err : option jstr) (id now : Z) (rn : Runner) σ : System S :=
  set_runner rn (set_jobs (finishJobIfRunning id s err now (sy_jobs σ)).1 σ).

(** The runner.  Between two of its statements anything else may happen, except inside the exclusive
    fence: it is taken when nobody writes, and held to the recording of the switch. *)
Inductive runner_step : System S -> System S -> Prop :=
| rs_claim locked now σ db j : sy_runner σ = rn_idle ->
    claimNextJob reindex 1 locked now (sy_jobs σ) = (db, Some j) ->
    runner_step σ (set_runner (rn_claimed (job_id j)) (set_jobs db σ))
| rs_prepare id σ j source target s uuid : sy_runner σ = rn_claimed id ->
    findReindexJob id (sy_jobs σ) = Some j -> source_index (progress j) = Some source -> target_index (progress j) = Some target ->
    s = (if index_exists (sy_es σ) target then sy_es σ
         else (createVersionedIndex PRS (default 0 (parseIndexVersion PRS target)) (sy_es σ)).1) ->
    ia_uuid s target = Some uuid -> targetReplaced s target (target_uuid (progress j)) = None ->
    runner_step σ (set_runner (rn_ready id source target) (set_jobs (patchReindexProgress id (uuid_patch uuid) (sy_jobs σ)) (set_es s σ)))
| rs_activate id source target now σ : sy_runner σ = rn_ready id source target -> sy_writing σ = [] ->
    runner_step σ (set_runner (rn_activated id source target) (set_jobs (patchReindexProgress id (activation_patch now) (sy_jobs σ)) σ))
| rs_begin id source target σ : sy_runner σ = rn_activated id source target ->
    runner_step σ (set_runner (rn_scan id source target (sy_repositories σ) 0)
                    (set_jobs (patchReindexProgress id (phase_patch backfill) (sy_jobs σ)) σ))
| rs_read id source target r todo after σ : sy_runner σ = rn_scan id source target (r :: todo) after ->
    runner_step σ (set_runner (match listSnapshotsAfter r after REINDEX_BATCH (sy_snapshots σ) with
                               | [] => rn_scan id source target todo 0
                               | rows => rn_page id source target (r :: todo) rows
                               end) σ)
| rs_fence id source target todo rows σ : sy_runner σ = rn_page id source target todo rows ->
    runner_step σ (set_runner (rn_page_fenced id source target todo rows (mkTargets (findDualWriteShadows (sy_jobs σ)))) σ)
| rs_write id source target r todo rows t σ row teams s fs :
    sy_runner σ = rn_page_fenced id source target (r :: todo) rows t -> repository_id row = r ->
    rebuild_run hash_order (map (rebuild_request row teams) rows) t (sy_es σ) = (s, Ok (tt, (fs, []))) ->
    runner_step σ (set_runner (rn_page_written id source target (r :: todo) rows fs) (set_es s σ))
| rs_record id source target r todo rows fs now db links σ : sy_runner σ = rn_page_written id source target (r :: todo) rows fs ->
    record_shadow_results fs [] now (sy_jobs σ) (sy_links σ) = Some (db, links) ->
    runner_step σ (mkSystem (sy_es σ) db links (sy_snapshots σ) (sy_repositories σ) (sy_recorded σ) (sy_writing σ) (sy_acked σ)
      (if (length rows <? REINDEX_BATCH)%nat then rn_scan id source target todo 0
       else rn_scan id source target (r :: todo) (from_option fst 0 (last rows))))
| rs_scanned id source target after scanned written σ : sy_runner σ = rn_scan id source target [] after ->
    runner_step σ (set_runner (rn_scanned id source target)
                    (set_jobs (patchReindexProgress id (scanned_patch scanned written) (sy_jobs σ)) σ))
| rs_verifying id source target σ : sy_runner σ = rn_scanned id source target ->
    runner_step σ (set_runner (rn_verify id source target) (set_jobs (patchReindexProgress id (phase_patch verify) (sy_jobs σ)) σ))
| rs_verified id source target expected m σ : sy_runner σ = rn_verify id source target ->
    verify_reasons (findReindexJob id (sy_jobs σ)) expected m (sy_es σ) = [] ->
    runner_step σ (set_runner (rn_cutover id source target) (set_jobs (patchReindexProgress id (phase_patch cutover) (sy_jobs σ)) σ))
| rs_check id source target epochs σ : sy_runner σ = rn_cutover id source target -> sy_writing σ = [] ->
    cutover_decision epochs PRS id target (sy_links σ) (sy_es σ) (sy_jobs σ) = cd_switch ->
    runner_step σ (set_runner (rn_switching id source target) σ)
| rs_switch id source target now σ s : sy_runner σ = rn_switching id source target ->
    ia_switch PRS source target (sy_es σ) = (s, true) ->
    runner_step σ (set_runner (rn_switched id) (set_jobs (patchReindexProgress id (switched_patch now) (sy_jobs σ)) (set_es s σ)))
| rs_switch_fails id source target err now σ s recorded : sy_runner σ = rn_switching id source target ->
    ia_switch PRS source target (sy_es σ) = (s, recorded) ->
    runner_step σ (finish failed (Some err) id now rn_idle (set_es s σ))
| rs_complete id now σ : sy_runner σ = rn_switched id ->
    runner_step σ (finish completed None id now rn_idle σ)
| rs_fail id err now σ : job_of (sy_runner σ) = Some id -> exclusive (sy_runner σ) = false ->
    runner_step σ (finish failed (Some err) id now rn_idle σ)
| rs_write_fails id source target todo rows t requests s e err now σ :
    sy_runner σ = rn_page_fenced id source target todo rows t -> Forall wf_request requests ->
    rebuild_run hash_order requests t (sy_es σ) = (s, Err e) ->
    runner_step σ (finish failed (Some err) id now rn_idle (set_es s σ))
| rs_die σ : runner_step σ (set_runner rn_idle σ)
| rs_die_switching id source target σ : sy_runner σ = rn_switching id source target ->
    runner_step σ (set_runner rn_idle (set_es (ia_switch PRS source target (sy_es σ)).1 σ)).

Definition step σ σ' : Prop := worker_step σ σ' \/ other_step σ σ' \/ runner_step σ σ'.
Definition initial (s : S) : System S := mkSystem s no_jobs ∅ ∅ [] [] [] [] rn_idle.
End system.

(** ** Jobs *)

Record jobs_ok (db : ReindexJobs) : Prop := {
  jo_ids : NoDup (map job_id (jobs db));
  jo_next : Forall (fun j => job_id j < next_id db) (jobs db);
  jo_active : (length (List.filter active (jobs db)) <= 1)%nat;
  jo_kind : Forall (fun j => type j = reindex ∧ target j = PRS) (jobs db)
}.
(** What a row keeps while it is updated, the claim and the switch apart. *)
Definition keeps_row (j j' : ReindexRow) : Prop :=
  (state j' = running -> state j = running) ∧ (active j' = true -> active j = true) ∧
  target_index (progress j') = target_index (progress j) ∧ switched_at (progress j') = switched_at (progress j) ∧
  (phase (progress j') = phase (progress j) \/ ∃ p, phase (progress j') = Some p ∧ p ∈ DUAL_WRITE_PHASES).
Definition fresh_row (db : ReindexJobs) (j : ReindexRow) : Prop :=
  next_id db <= job_id j ∧ state j = queued ∧ switched_at (progress j) = None.
(** The rows after a statement come from rows before it, or are new. *)
Record jobs_move (db db' : ReindexJobs) : Prop := {
  jm_ok : jobs_ok db';
  jm_next : next_id db <= next_id db';
  jm_rows j' : j' ∈ jobs db' -> fresh_row db j' \/ ∃ j, j ∈ jobs db ∧ job_id j' = job_id j ∧ keeps_row j j'
}.

Lemma keeps_row_refl j : keeps_row j j.
Proof. by repeat split; [..|left]. Qed.
Lemma keeps_row_trans a b c : keeps_row a b -> keeps_row b c -> keeps_row a c.
Proof.
  intros (A1 & A2 & A3 & A4 & A5) (B1 & B2 & B3 & B4 & B5). repeat split; [by auto|by auto|congruence|congruence|].
  destruct B5 as [E|]; [rewrite E; exact A5|by right].
Qed.
Lemma update_jobs_ok id ok f db :
  (forall j, same_job j (f j)) -> (forall j, j ∈ jobs db -> job_id j = id -> ok j = true -> active (f j) = true -> active j = true) ->
  jobs_ok db -> jobs_ok (update_job id ok f db).
Proof.
  intros Hf Hk [Hi Hn Ha Hd]. split.
  - by rewrite (update_ids id ok f db Hf).
  - cbn [jobs update_job next_id]. apply Forall_map. eapply Forall_impl; [exact Hn|]. intros j Hj.
    destruct (_ && _); [by rewrite (proj1 (Hf j))|done].
  - etransitivity; [|exact Ha]. apply filter_map_le. intros j Hj. destruct ((job_id j =? id) && ok j) eqn:E; [|done].
    apply andb_true_iff in E as [E1%Z.eqb_eq E2]. by apply Hk.
  - cbn [jobs update_job]. apply Forall_map. eapply Forall_impl; [exact Hd|]. intros j Hj. destruct (_ && _); [|done].
    destruct (Hf j) as (_ & -> & ->). done.
Qed.
Lemma update_moves id ok f db :
  (forall j, same_job j (f j)) -> (forall j, j ∈ jobs db -> job_id j = id -> ok j = true -> keeps_row j (f j)) ->
  jobs_ok db -> jobs_move db (update_job id ok f db).
Proof.
  intros Hf Hk Hok. split; [apply update_jobs_ok; [done| |done]|done|].
  - intros j Hj He Ho. apply (Hk j Hj He Ho).
  - intros j' (j & -> & Hj)%list_elem_of_fmap. right. exists j. split; [done|].
    destruct ((job_id j =? id) && ok j) eqn:E; [|split; [done|apply keeps_row_refl]].
    apply andb_true_iff in E as [E1%Z.eqb_eq E2]. split; [apply Hf|by apply Hk].
Qed.

Lemma patch_moves id patch db :
  jobs_ok db -> target_index patch = None -> switched_at patch = None ->
  (forall p, phase patch = Some p -> p ∈ DUAL_WRITE_PHASES) -> jobs_move db (patchReindexProgress id patch db).
Proof.
  intros Hok Ht Hs Hp. apply update_moves; [done| |done]. intros j _ _ _. repeat split; cbn [progress with_progress patched target_index switched_at phase];
    [done|done|by rewrite Ht|by rewrite Hs|]. destruct (phase patch) as [p|]; [right; exists p; auto|by left].
Qed.
Lemma ended_keeps s j st fin err :
  s ∉ ACTIVE_JOB_STATES -> s <> running -> keeps_row j (set_state s st fin err j).
Proof.
  intros Ha Hr. repeat split; [by intros E|intros E; by apply bool_decide_eq_true_1 in E|by left].
Qed.
Lemma finish_moves id s err now db : jobs_ok db -> s ∈ [completed; failed] -> jobs_move db (finishJobIfRunning id s err now db).1.
Proof.
  intros Hok Hs. destruct (finished_ends s) as [Ha Hr]; [by apply (elem_of_app [completed; failed] [cancelled]); left|].
  apply update_moves; [done| |done]. intros j _ _ _. by apply ended_keeps.
Qed.
Lemma transition_moves id a now db : jobs_ok db -> jobs_move db (transitionJob id a now db).1.
Proof.
  intros Hok. apply update_moves; [done| |done]. intros j _ _ Hs%bool_decide_eq_true_1. apply woken in Hs as [Ha Hr].
  repeat split; [done|intros _; by apply bool_decide_eq_true|by left].
Qed.
Lemma record_moves id fs now db : jobs_ok db -> jobs_move db (recordShadowFailures id fs now db).1.
Proof.
  intros Hok. unfold recordShadowFailures. destruct fs as [|f fs]; cbn [fst].
  - split; [done|done|]. intros j Hj. right. exists j. by split_and!; [..|apply keeps_row_refl].
  - apply update_moves; [done| |done]. intros j _ _ _. repeat split; [done|done|by left].
Qed.

Lemma running_active (j : ReindexRow) : state j = running -> active j = true.
Proof. intros E. unfold active. by rewrite E. Qed.
(** Two active rows are one. *)
Lemma one_active db i j : jobs_ok db -> i ∈ jobs db -> j ∈ jobs db -> active i = true -> active j = true -> i = j.
Proof.
  intros [_ _ Ha _] Hi Hj Ai Aj. assert (i ∈ List.filter active (jobs db)) as Hi' by (by apply elem_filter).
  assert (j ∈ List.filter active (jobs db)) as Hj' by (by apply elem_filter).
  destruct (List.filter active (jobs db)) as [|x [|y l]]; [by apply elem_of_nil in Hi'| |cbn in Ha; lia].
  apply list_elem_of_singleton in Hi' as ->. by apply list_elem_of_singleton in Hj' as ->.
Qed.
Lemma ids_differ db i j : jobs_ok db -> i ∈ jobs db -> j ∈ jobs db -> job_id i = job_id j -> i = j.
Proof.
  intros [Hn _ _ _] Hi Hj He. apply list_elem_of_lookup in Hi as [a Ha]. apply list_elem_of_lookup in Hj as [b Hb].
  assert (a = b) as ->; [|congruence]. eapply NoDup_lookup; [exact Hn|..]; rewrite list_lookup_fmap; [by rewrite Ha|].
  rewrite Hb. cbn. by rewrite He.
Qed.
Lemma claims_spec locked now db db' j0 :
  jobs_ok db -> claimNextJob reindex 1 locked now db = (db', Some j0) ->
  jobs_ok db' ∧ next_id db' = next_id db ∧ job_id j0 < next_id db ∧
  forall j', j' ∈ jobs db' -> ∃ j, j ∈ jobs db ∧ job_id j' = job_id j ∧ (active j' = true -> active j = true ∧ job_id j = job_id j0) ∧
    progress j' = progress j.
Proof.
  intros Hok Hc. unfold claimNextJob in Hc. destruct (1 <=? running_count reindex db)%nat; [done|].
  destruct (find _ (jobs db)) as [row|] eqn:Ef; [|done]. apply find_elem in Ef as [Hin Hrow].
  rewrite !andb_true_iff, bool_decide_eq_true in Hrow. destruct Hrow as [[_ Hq] _]. injection Hc as <- <-. cbn [job_id set_state].
  assert (active row = true) as Hact by (unfold active; by rewrite Hq). set (f := fun j => set_state running _ _ _ j).
  split_and!.
  - apply update_jobs_ok; [done| |done]. intros j Hj He _ _. by rewrite (ids_differ db j row).
  - done.
  - by apply (proj1 (Forall_forall _ _) (jo_next _ Hok)).
  - intros j' (j & -> & Hj)%list_elem_of_fmap. exists j. split; [done|].
    destruct ((job_id j =? job_id row) && true) eqn:E; cbn [job_id set_state progress f].
    + rewrite andb_true_r, Z.eqb_eq in E. assert (j = row) as -> by (by eapply ids_differ). done.
    + split; [done|]. split; [|done]. intros Aj. split; [done|]. by rewrite (one_active db j row).
Qed.
Lemma enqueue_moves {S} `{IndexAdmin S} by_ (s : S) db db' o :
  jobs_ok db -> enqueueReindex PRS by_ s db = (db', o) -> jobs_move db db'.
Proof.
  assert (jobs_ok db -> jobs_move db db) as Hrefl.
  { intros Hok. split; [done|done|]. intros j Hj. right. exists j. by split_and!; [..|apply keeps_row_refl]. }
  intros Hok He. unfold enqueueReindex in He. destruct (enqueue_checks PRS db) as [o'|] eqn:Ec; [by injection He as <- _; auto|].
  unfold enqueue_checks in Ec. cbn [negb] in Ec. destruct (negb (isEntityAlias PRS)); [done|].
  destruct (findActiveReindexRow db) as [x|] eqn:Ef; [done|]. clear Ec. unfold enqueue_insert in He.
  destruct (resolveServingIndex PRS s) as [source|]; [|by injection He as <- _; auto].
  destruct (nextTargetIndex PRS s) as [to|]; [|by injection He as <- _; auto].
  unfold enqueueJob in He. destruct (findActiveJob reindex PRS db); [by injection He as <- _; auto|]. injection He as <- _.
  destruct Hok as [Hi Hn Ha Hd]. split; [split|cbn [next_id]; lia|].
  - cbn [jobs]. rewrite map_app. cbn [map job_id]. apply NoDup_app. split; [done|]. split; [|by apply NoDup_singleton].
    intros x (j & -> & Hj)%list_elem_of_fmap Hx%list_elem_of_singleton. apply (proj1 (Forall_forall _ _) Hn) in Hj. cbn beta in Hj. lia.
  - cbn [jobs next_id]. apply Forall_app. split; [eapply Forall_impl; [exact Hn|]; intros x Hx; cbn beta in *; lia|].
    constructor; [cbn [job_id]; lia|done].
  - cbn [jobs]. rewrite List.filter_app, length_app. assert (List.filter active (jobs db) = []) as ->.
    { apply elem_of_nil_inv. intros j [Hj Hp]%elem_filter. eapply find_none in Ef; [|by apply list_elem_of_In].
      apply (proj1 (Forall_forall _ _) Hd) in Hj as [Ht _]. unfold is_reindex, of_type in Ef. rewrite bool_decide_eq_true_2 in Ef by done. cbn in Ef. congruence. }
    done.
  - cbn [jobs]. apply Forall_app. split; [done|]. constructor; [done|done].
  - intros j' [Hj| ->%list_elem_of_singleton]%elem_of_app.
    + right. exists j'. by split_and!; [..|apply keeps_row_refl].
    + left. split_and!; done.
Qed.

Definition running_in (id : Z) (db : ReindexJobs) : Prop := ∃ j, j ∈ jobs db ∧ job_id j = id ∧ state j = running.
(** The rows of the job ask for dual writes as soon as it runs. *)
Definition dual (id : Z) (db : ReindexJobs) : Prop :=
  forall j, j ∈ jobs db -> job_id j = id ->
    switched_at (progress j) = None ∧ ∃ p, phase (progress j) = Some p ∧ p ∈ DUAL_WRITE_PHASES.
Definition builds (id : Z) (index : jstr) (db : ReindexJobs) : Prop :=
  forall j, j ∈ jobs db -> job_id j = id -> target_index (progress j) = Some index.

Lemma shadows_of_running id index db :
  jobs_ok db -> running_in id db -> dual id db -> builds id index db -> findDualWriteShadows db !! PRS = Some index.
Proof.
  intros Hok (j & Hj & Hid & Hr) Hd Hb. destruct (Hd j Hj Hid) as [Hs (p & Hp & Hpd)]. specialize (Hb j Hj Hid).
  pose proof (proj1 (Forall_forall _ _) (jo_kind _ Hok) j Hj) as [Ht Hto].
  assert (Forall (fun x => x = j) (List.filter dual_writes (jobs db))) as Hall.
  { apply Forall_forall. intros x [Hx Hw]%elem_filter. unfold dual_writes in Hw. rewrite !andb_true_iff in Hw. destruct Hw as [[[_ Hw] _] _].
    apply bool_decide_eq_true_1 in Hw. apply (one_active db); [done..| |]; by apply running_active. }
  assert (j ∈ List.filter dual_writes (jobs db)) as Hin.
  { apply elem_filter. split; [done|]. unfold dual_writes, is_reindex, of_type, is_running.
    rewrite Hp, Hs, !bool_decide_eq_true_2 by done. done. }
  unfold findDualWriteShadows. generalize (∅ : gmap jstr jstr) as m0. revert Hall Hin. generalize (List.filter dual_writes (jobs db)) as l. clear - Hp Hb Hto. intros l Hall Hin m0.
  destruct l as [|x l _] using rev_ind; [by apply elem_of_nil in Hin|]. apply Forall_app in Hall as [_ Hx]. apply Forall_cons_1 in Hx as [-> _].
  rewrite foldl_snoc. unfold toReindexJob. rewrite Hp, Hb, Hto. by rewrite lookup_insert_eq.
Qed.

Lemma results_moves fs now db links db' links' :
  jobs_ok db -> record_shadow_results fs [] now db links = Some (db', links') ->
  jobs_move db db' ∧ (fs <> [] -> forall j, j ∈ jobs db' -> state j <> running) ∧ (fs = [] -> db' = db).
Proof.
  intros Hok Hr. unfold record_shadow_results in Hr. destruct fs as [|f fs].
  { injection Hr as <- <-. split; [|done]. split; [done|done|]. intros j Hj. right. exists j. by split_and!; [..|apply keeps_row_refl]. }
  assert (recordPendings (findActiveReindexRow db) [] links = Some (links, [])) as Hn by (unfold recordPendings; by destruct (findActiveReindexRow db)).
  rewrite Hn in Hr. rewrite app_nil_r in Hr. destruct (findActiveReindexRow db) as [x|] eqn:Ef; injection Hr as <- <-.
  - split; [apply (record_moves (job_id x) (f :: fs) now db Hok)|]. split; [|done]. intros _ j' Hj' Hrun. apply find_elem in Ef as [Hx Hxa]. apply andb_true_iff in Hxa as [_ Hxa].
    cbn [recordShadowFailures fst] in Hj'. apply list_elem_of_fmap in Hj' as (j & -> & Hj).
    destruct ((job_id j =? job_id x) && (is_reindex j && is_running j)) eqn:E; [done|].
    assert (j = x) as -> by (apply (one_active db); [done..|by apply running_active|done]).
    pose proof (proj1 (Forall_forall _ _) (jo_kind _ Hok) x Hx) as [Ht _].
    unfold is_reindex, of_type, is_running in E. rewrite Z.eqb_refl, !bool_decide_eq_true_2 in E by done. done.
  - split; [split; [done|done|]; intros j Hj; right; exists j; by split_and!; [..|apply keeps_row_refl]|]. split; [|done].
    intros _ j Hj Hrun. eapply find_none in Ef; [|by apply list_elem_of_In].
    pose proof (proj1 (Forall_forall _ _) (jo_kind _ Hok) j Hj) as [Ht _].
    unfold is_reindex, of_type in Ef. rewrite (running_active j Hrun), bool_decide_eq_true_2 in Ef by done. done.
Qed.

Lemma moves_builds id index db db' : jobs_move db db' -> id < next_id db -> builds id index db -> builds id index db'.
Proof.
  intros [_ _ Hr] Hlt Hb j' Hj' Hid. destruct (Hr j' Hj') as [[Hf _]|(j & Hj & He & _ & _ & Ht & _)]; [lia|].
  rewrite Ht. apply Hb; [done|congruence].
Qed.
Lemma moves_running id db db' : jobs_move db db' -> id < next_id db -> running_in id db' -> running_in id db.
Proof.
  intros [_ _ Hr] Hlt (j' & Hj' & Hid & Hrun). destruct (Hr j' Hj') as [[Hf _]|(j & Hj & He & Hk & _)]; [lia|].
  exists j. split; [done|]. split; [congruence|by apply Hk].
Qed.
Lemma moves_dual id db db' : jobs_move db db' -> id < next_id db -> dual id db -> dual id db'.
Proof.
  intros [_ _ Hr] Hlt Hd j' Hj' Hid. destruct (Hr j' Hj') as [[Hf _]|(j & Hj & He & _ & _ & _ & Hs & Hp)]; [lia|].
  destruct (Hd j Hj) as [Hs' (p & Hph & Hin)]; [congruence|]. split; [congruence|].
  destruct Hp as [->|]; [by exists p|done].
Qed.

(** ** What an acknowledged request owes to the runner *)

(** The target that the runner has activated, while the alias may still have to move to it. *)
Definition target_of (rn : Runner) : option jstr :=
  match rn with
  | rn_activated _ _ t | rn_scan _ _ t _ _ | rn_page _ _ t _ _ | rn_page_fenced _ _ t _ _ _ | rn_page_written _ _ t _ _ _
  | rn_scanned _ _ t | rn_verify _ _ t | rn_cutover _ _ t | rn_switching _ _ t => Some t
  | _ => None
  end.
Definition read_target (rn : Runner) : option jstr := match rn with rn_ready _ _ t => Some t | _ => target_of rn end.

Section needs.
Context {S : Type} `{DocServer S}.

Definition behind (todo : list Z) (after : Z) (repository n : Z) : Prop :=
  repository ∉ todo \/ ∃ rest, todo = repository :: rest ∧ repository ∉ rest ∧ n <= after.
(** A request of a page in hand is in the target already, or among the rows to be written. *)
Definition paged (todo : list Z) (rows : list (Z * Snapshot)) (done : Prop) (r : UpsertRequest) (repository n : Z) : Prop :=
  done \/ (repository ∈ todo ∧ forall rest, todo = repository :: rest -> repository ∉ rest -> in_page REINDEX_BATCH rows n ->
             ∃ sn, (n, sn) ∈ rows ∧ ur_version r <= sn_version sn).
(** What the runner has reached must hold of every acknowledged request. *)
Definition need (rn : Runner) (s : S) (r : UpsertRequest) : Prop :=
  match rn with
  | rn_scan _ _ t todo after => forall repository n, ur_key r = pr_key repository n -> behind todo after repository n -> written s t r
  | rn_page _ _ t todo rows | rn_page_fenced _ _ t todo rows _ =>
      forall repository n, ur_key r = pr_key repository n -> paged todo rows (written s t r) r repository n
  | rn_page_written _ _ t todo rows fs =>
      fs = [] -> forall repository n, ur_key r = pr_key repository n ->
        written s t r \/ (repository ∈ todo ∧ forall rest, todo = repository :: rest -> repository ∉ rest -> ¬ in_page REINDEX_BATCH rows n)
  | rn_scanned _ _ t | rn_verify _ _ t | rn_cutover _ _ t | rn_switching _ _ t => written s t r
  | _ => True
  end.
Lemma written_need rn t s r : target_of rn = Some t -> written s t r -> need rn s r.
Proof. destruct rn; intros [= <-] Hw; cbn [need]; try done; intros; by left. Qed.
Lemma need_grows rn s s' r : grows s s' -> need rn s r -> need rn s' r.
Proof.
  intros Hg. destruct rn; cbn [need]; try done; try (by apply written_grows).
  - intros Hn repository n Hk Hb. eapply written_grows; [exact Hg|]. by eapply Hn.
  - intros Hn repository n Hk. destruct (Hn repository n Hk) as [Hw|Hw]; [left; by eapply written_grows|by right].
  - intros Hn repository n Hk. destruct (Hn repository n Hk) as [Hw|Hw]; [left; by eapply written_grows|by right].
  - intros Hn Hf repository n Hk. destruct (Hn Hf repository n Hk) as [Hw|Hw]; [left; by eapply written_grows|by right].
Qed.
End needs.

(** ** The invariant *)

Section invariant.
Context (hash_order : list json -> list json) {S : Type} `{DocServer S} `{IndexAdmin S}.

Definition known (t : Snapshots) (repositories : list Z) (r : UpsertRequest) : Prop :=
  ∃ repository n sn, repository ∈ repositories ∧ 0 < n ∧ ur_key r = pr_key repository n ∧
    t !! (repository, n) = Some sn ∧ ur_version r <= sn_version sn.
Definition event_ok (t : Snapshots) (repositories : list Z) (e : Event) : Prop :=
  Forall wf_request (ev_requests e) ∧ forall r, r ∈ ev_requests e -> is_pr r -> known t repositories r.
(** What a finished write has left: the serving documents, and those of the index it was told. *)
Definition result_ok (s : S) (w : Writing) : Prop :=
  match wr_result w with
  | None => True
  | Some (os, fs) =>
    forall r, r ∈ ev_requests (wr_event w) -> is_pr r ->
      (all_ok os = true -> written s PRS r) ∧
      (fs = [] -> forall i, shadowIndexOf (wr_targets w) PRS = Some i -> written s i r)
  end.
Definition at_target (s : S) (index : jstr) : Prop := es_index s PRS = es_index s index.
Definition switched_ok (s : S) (db : ReindexJobs) (rn : Runner) : Prop :=
  forall j, j ∈ jobs db -> active j = true -> switched_at (progress j) <> None ->
    (forall index, target_index (progress j) = Some index -> at_target s index) ∧ (forall id, job_of rn = Some id -> job_id j = id).
(** The writes of the job reach its target: it serves already, or whoever writes was told of it. *)
Definition told (ws : list Writing) (rn : Runner) (index : jstr) : Prop :=
  (forall w, w ∈ ws -> shadowIndexOf (wr_targets w) PRS = Some index) ∧
  match rn with rn_page_fenced _ _ _ _ _ t => shadowIndexOf t PRS = Some index | _ => True end.
Record run_ok (s : S) (db : ReindexJobs) (ws : list Writing) (acked : list UpsertRequest) (rn : Runner) : Prop := {
  ro_id id : job_of rn = Some id -> id < next_id db;
  ro_builds id index : job_of rn = Some id -> read_target rn = Some index -> builds id index db;
  ro_run id index : job_of rn = Some id -> target_of rn = Some index -> running_in id db ->
    (at_target s index \/ (dual id db ∧ told ws rn index)) ∧ (forall r, r ∈ acked -> is_pr r -> need rn s r)
}.
Record invariant (σ : System S) : Prop := {
  iv_jobs : jobs_ok (sy_jobs σ);
  iv_numbers : forall repository n, is_Some (sy_snapshots σ !! (repository, n)) -> repository ∈ sy_repositories σ ∧ 0 < n;
  iv_recorded : Forall (event_ok (sy_snapshots σ) (sy_repositories σ)) (sy_recorded σ);
  iv_writing : Forall (fun w => event_ok (sy_snapshots σ) (sy_repositories σ) (wr_event w) ∧ result_ok (sy_es σ) w) (sy_writing σ);
  iv_fence : exclusive (sy_runner σ) = true -> sy_writing σ = [];
  iv_acked r : r ∈ sy_acked σ -> is_pr r -> known (sy_snapshots σ) (sy_repositories σ) r ∧ written (sy_es σ) PRS r;
  iv_switched : switched_ok (sy_es σ) (sy_jobs σ) (sy_runner σ);
  iv_run : run_ok (sy_es σ) (sy_jobs σ) (sy_writing σ) (sy_acked σ) (sy_runner σ);
  (** Whoever cancels the job while the alias is being switched comes too late. *)
  iv_switching r : exclusive (sy_runner σ) = true -> r ∈ sy_acked σ -> is_pr r -> need (sy_runner σ) (sy_es σ) r
}.

(** *** How the parts carry over *)

Lemma at_target_grows s s' index : grows s s' -> at_target s index -> at_target s' index.
Proof. intros [Hi _] Ha. unfold at_target. by rewrite !Hi. Qed.
Lemma at_target_written s index r : at_target s index -> written s PRS r <-> written s index r.
Proof. intros Ha. unfold written, doc_named. by rewrite Ha. Qed.
Lemma result_grows s s' w : grows s s' -> result_ok s w -> result_ok s' w.
Proof.
  intros Hg. unfold result_ok. destruct (wr_result w) as [[os fs]|]; [|done]. intros Hw r Hr Hp.
  destruct (Hw r Hr Hp) as [H1 H2]. split; intros; eapply written_grows; eauto.
Qed.
Lemma switched_grows s s' db rn : grows s s' -> switched_ok s db rn -> switched_ok s' db rn.
Proof.
  intros Hg Hs j Hj Ha Hn. destruct (Hs j Hj Ha Hn) as [H1 H2]. split; [|done]. intros index Hi.
  eapply at_target_grows; [exact Hg|by apply H1].
Qed.
Lemma switched_moves s db db' rn : jobs_move db db' -> switched_ok s db rn -> switched_ok s db' rn.
Proof.
  intros [_ _ Hr] Hs j' Hj' Ha Hn. destruct (Hr j' Hj') as [(_ & _ & Hf)|(j & Hj & He & Hk1 & Hk2 & Hk3 & Hk4 & _)]; [done|].
  rewrite Hk3, He. rewrite Hk4 in Hn. apply Hs; auto.
Qed.
Lemma switched_runner s db rn rn' :
  (forall id, job_of rn' = Some id -> job_of rn = Some id) -> switched_ok s db rn -> switched_ok s db rn'.
Proof. intros Hj Hs j Hin Ha Hn. destruct (Hs j Hin Ha Hn) as [H1 H2]. split; [done|]. intros id Hid. by apply H2, Hj. Qed.
Lemma run_grows s s' db ws acked rn : grows s s' -> run_ok s db ws acked rn -> run_ok s' db ws acked rn.
Proof.
  intros Hg [R1 R2 R3]. split; [done..|]. intros id index Hid Ht Hr. destruct (R3 id index Hid Ht Hr) as [Hm Hn].
  split; [destruct Hm as [Ha|]; [left; by eapply at_target_grows|by right]|]. intros r Hin Hp. eapply need_grows; [exact Hg|by apply Hn].
Qed.
Lemma run_moves s db db' ws acked rn : jobs_move db db' -> run_ok s db ws acked rn -> run_ok s db' ws acked rn.
Proof.
  intros Hm [R1 R2 R3]. pose proof (jm_next _ _ Hm) as Hle. split.
  - intros id Hid. specialize (R1 id Hid). lia.
  - intros id index Hid Ht. eapply moves_builds; [exact Hm|by apply R1|by apply R2].
  - intros id index Hid Ht Hr. assert (running_in id db) as Hr0 by (eapply moves_running; [exact Hm|by apply R1|done]).
    destruct (R3 id index Hid Ht Hr0) as [Hmode Hn]. split; [|done]. destruct Hmode as [|[Hd Htold]]; [by left|right].
    split; [|done]. eapply moves_dual; [exact Hm|by apply R1|done].
Qed.
Lemma run_writers s db ws ws' acked rn :
  (forall w, w ∈ ws' -> ∃ w0, w0 ∈ ws ∧ wr_targets w = wr_targets w0) -> run_ok s db ws acked rn -> run_ok s db ws' acked rn.
Proof.
  intros Hsub [R1 R2 R3]. split; [done..|]. intros id index Hid Ht Hr. destruct (R3 id index Hid Ht Hr) as [Hm Hn].
  split; [|done]. destruct Hm as [|[Hd [H1 H2]]]; [by left|right]. split; [done|]. split; [|done]. intros w Hw.
  destruct (Hsub w Hw) as (w0 & Hw0 & ->). by apply H1.
Qed.
Lemma run_idle s db ws acked : run_ok s db ws acked rn_idle.
Proof. by split. Qed.

Lemma known_more t t' repositories repositories' r :
  (forall k sn, t !! k = Some sn -> ∃ sn', t' !! k = Some sn' ∧ sn_version sn <= sn_version sn') ->
  (forall x, x ∈ repositories -> x ∈ repositories') -> known t repositories r -> known t' repositories' r.
Proof.
  intros Ht Hr (repository & n & sn & Hin & Hn & Hk & Hs & Hv). destruct (Ht _ _ Hs) as (sn' & Hs' & Hle).
  exists repository, n, sn'. split_and!; [by apply Hr|done..|lia].
Qed.
Lemma event_more t t' repositories repositories' e :
  (forall k sn, t !! k = Some sn -> ∃ sn', t' !! k = Some sn' ∧ sn_version sn <= sn_version sn') ->
  (forall x, x ∈ repositories -> x ∈ repositories') -> event_ok t repositories e -> event_ok t' repositories' e.
Proof. intros Ht Hr [Hw Hk]. split; [done|]. intros r Hin Hp. eapply known_more; [done..|by apply Hk]. Qed.
Lemma snapshot_more e t k sn :
  t !! k = Some sn -> ∃ sn', record_snapshot e t !! k = Some sn' ∧ sn_version sn <= sn_version sn'.
Proof.
  intros Hs. unfold record_snapshot. destruct (pull_request_of e) as [r|]; [|by exists sn].
  unfold upsertPullRequestSnapshot. destruct (t !! (ev_repository e, ev_pr e)) as [cur|] eqn:Ec.
  - destruct (Z.leb_spec (sn_version cur) (sn_version (mkSnapshot (ur_version r) ss_webhook (ur_doc r)))); cbn [fst]; [|by exists sn].
    destruct (decide (k = (ev_repository e, ev_pr e))) as [->|Hne]; [|rewrite lookup_insert_ne by done; by exists sn].
    rewrite lookup_insert_eq. eexists. split; [done|]. rewrite Ec in Hs. by injection Hs as <-.
  - cbn [fst]. rewrite lookup_insert_ne by congruence. by exists sn.
Qed.
Lemma snapshot_event repositories e t : wf_event repositories e -> event_ok (record_snapshot e t) repositories e.
Proof.
  intros [Hr Hn Hw Hk H1]. split; [done|]. intros r Hin Hp. assert (pull_request_of e = Some r) as Hpr.
  { unfold pull_request_of. destruct (find _ (ev_requests e)) as [x|] eqn:Ef.
    - apply find_some in Ef as [Hx%list_elem_of_In Hpx%bool_decide_eq_true_1]. f_equal. by apply H1.
    - eapply find_none in Ef; [|by apply list_elem_of_In]. by rewrite bool_decide_eq_true_2 in Ef. }
  unfold record_snapshot. rewrite Hpr. unfold upsertPullRequestSnapshot.
  exists (ev_repository e), (ev_pr e). destruct (t !! (ev_repository e, ev_pr e)) as [cur|] eqn:Ec; cbn [sn_version].
  - destruct (Z.leb_spec (sn_version cur) (ur_version r)); cbn [fst].
    + eexists. split_and!; [done..|by apply Hk|by rewrite lookup_insert_eq|done].
    + exists cur. split_and!; [done..|by apply Hk|done|lia].
  - cbn [fst]. eexists. split_and!; [done..|by apply Hk|by rewrite lookup_insert_eq|done].
Qed.
Lemma snapshot_keys e t k : is_Some (record_snapshot e t !! k) -> is_Some (t !! k) \/ k = (ev_repository e, ev_pr e).
Proof.
  unfold record_snapshot. destruct (pull_request_of e) as [r|]; [|by left]. unfold upsertPullRequestSnapshot.
  destruct (decide (k = (ev_repository e, ev_pr e))) as [->|Hne]; [by right|].
  destruct (t !! (ev_repository e, ev_pr e)) as [cur|]; [destruct (_ <=? _)|]; cbn [fst]; rewrite ?lookup_insert_ne by done; by left.
Qed.
Lemma pr_key_inj a b c d : pr_key a b = pr_key c d -> a = c ∧ b = d.
Proof.
  unfold pr_key, pullRequestDocId. intros [= H1 H2]. apply js_of_Z_injective in H1 as ->. split; [done|].
  apply app_inv_head in H2. injection H2 as H2. by apply js_of_Z_injective in H2.
Qed.

(** *** Workers *)

Ltac fields :=
  cbn [sy_es sy_jobs sy_links sy_snapshots sy_repositories sy_recorded sy_writing sy_acked sy_runner set_es set_jobs set_writing
       set_runner] in *.

Context (Hdoc : DocLaws S).

Lemma index_throws rs t s s' e :
  Forall wf_request rs -> index_documents hash_order rs t s = (s', Err e) -> grows s s'.
Proof.
  intros Hwf Hi. unfold index_documents in Hi. pose proof (bulk_grows hash_order Hdoc rs t s Hwf) as Hg.
  destruct (bulkUpsert hash_order rs t s) as [s1 [[first fs]|e1]]; [|by injection Hi as <- <-].
  by destruct (retryFailedItems hash_order first t s1) as [s2 [os fs']].
Qed.
Lemma run_result e t s s' os fs :
  Forall wf_request (ev_requests e) -> index_documents hash_order (ev_requests e) t s = (s', Ok (os, fs)) ->
  grows s s' ∧ result_ok s' (mkWriting e t (Some (os, fs))).
Proof.
  intros Hwf Hi. destruct (index_documents_spec hash_order Hdoc _ _ _ _ _ _ Hwf Hi) as (Hg & Hmap & Hok & Hcov).
  split; [done|]. intros r Hr Hp. cbn [wr_event wr_targets] in *. split.
  - intros Hall. rewrite <- Hmap in Hr. apply list_elem_of_fmap in Hr as (o & -> & Ho).
    unfold all_ok in Hall. pose proof (proj1 (forallb_forall _ _) Hall o (proj1 (list_elem_of_In _ _) Ho)) as Hob.
    destruct o as [r res|]; [|done]. cbn [outcome_request] in *. rewrite <- (f_equal alias_name Hp : _ = PRS). by eapply Hok.
  - intros -> i Hsh. destruct (Hcov r i Hr) as [Hw|(f & Hf & _)]; [by rewrite Hp|done|by apply elem_of_nil in Hf].
Qed.

Lemma middle_in {A} (l1 l2 : list A) x y : y ∈ l1 ++ l2 -> y ∈ l1 ++ x :: l2.
Proof. rewrite !elem_of_app, elem_of_cons. tauto. Qed.

Lemma worker_keeps σ σ' : worker_step hash_order σ σ' -> invariant σ -> invariant σ'.
Proof.
  intros Hst [I1 I2 I3 I4 I5 I6 I7 I8 I9]. destruct Hst as
    [e σ Hwf|e σ He Hex|e t ws1 ws2 σ s os fs Hw Hi|e t ws1 ws2 σ s err Hw Hi|e t ws1 ws2 σ os fs now db links Hw Hrec|w ws1 ws2 σ Hw].
  - pose proof (snapshot_more e (sy_snapshots σ)) as Hmore. split; fields; try assumption.
    + intros repository n Hk. apply snapshot_keys in Hk as [Hk|[= -> ->]]; [by apply I2|by destruct Hwf].
    + constructor; [by apply snapshot_event|]. eapply Forall_impl; [exact I3|]. intros e' He'. by eapply event_more.
    + eapply Forall_impl; [exact I4|]. intros w [H1 H2]. split; [|done]. by eapply event_more.
    + intros r Hr Hp. destruct (I6 r Hr Hp) as [Hk Hwr]. split; [|done]. by eapply known_more.
  - split; fields; try assumption.
    + constructor; [|done]. split; [|done]. by apply (proj1 (Forall_forall _ _) I3).
    + intros Hx. congruence.
    + destruct I8 as [R1 R2 R3]. split; [done..|]. intros id index Hid Ht Hr. destruct (R3 id index Hid Ht Hr) as [Hm Hn].
      split; [|done]. destruct Hm as [|[Hd [H1 H2]]]; [by left|right]. split; [done|]. split; [|done].
      intros w [->|Hw]%elem_of_cons; [|by apply H1]. unfold shadowIndexOf. cbn [wr_targets shadows].
      eapply shadows_of_running; [done|done|done|]. apply (R2 id index Hid). by destruct (sy_runner σ).
  - assert (event_ok (sy_snapshots σ) (sy_repositories σ) e) as Hev.
    { rewrite Hw in I4. apply Forall_app in I4 as [_ I4]. by apply Forall_cons_1 in I4 as [[? _] _]. }
    destruct (run_result e t (sy_es σ) s os fs (proj1 Hev) Hi) as [Hg Hres].
    split; fields; try assumption.
    + rewrite Hw in I4. apply Forall_app in I4 as [I4a I4b]. apply Forall_cons_1 in I4b as [_ I4b].
      apply Forall_app. split; [|constructor; [done|]]; (eapply Forall_impl; [eassumption|]); intros w [? ?]; (split; [done|by eapply result_grows]).
    + intros Hx. rewrite Hw in I5. by destruct ws1; specialize (I5 Hx).
    + intros r Hr Hp. destruct (I6 r Hr Hp) as [Hk Hwr]. split; [exact Hk|exact (written_grows _ _ _ _ Hg Hwr)].
    + by eapply switched_grows.
    + eapply run_grows; [exact Hg|]. eapply run_writers; [|exact I8]. rewrite Hw. intros w Hin.
      apply elem_of_app in Hin as [Hin|[->|Hin]%elem_of_cons].
      * exists w. split; [apply elem_of_app; by left|done].
      * eexists. split; [apply elem_of_app; right; by left|done].
      * exists w. split; [apply elem_of_app; right; by right|done].
    + intros r Hx Hr Hp. eapply need_grows; [exact Hg|by apply I9].
  - assert (event_ok (sy_snapshots σ) (sy_repositories σ) e) as Hev.
    { rewrite Hw in I4. apply Forall_app in I4 as [_ I4]. by apply Forall_cons_1 in I4 as [[? _] _]. }
    pose proof (index_throws _ _ _ _ _ (proj1 Hev) Hi) as Hg. split; fields; try assumption.
    + rewrite Hw in I4. apply Forall_forall. intros w Hin. destruct (proj1 (Forall_forall _ _) I4 w) as [? ?]; [by apply middle_in|].
      split; [done|by eapply result_grows].
    + intros Hx. rewrite Hw in I5. by destruct ws1; specialize (I5 Hx).
    + intros r Hr Hp. destruct (I6 r Hr Hp) as [Hk Hwr]. split; [exact Hk|exact (written_grows _ _ _ _ Hg Hwr)].
    + by eapply switched_grows.
    + eapply run_grows; [exact Hg|]. eapply run_writers; [|exact I8]. rewrite Hw. intros w Hin. exists w. split; [by apply middle_in|done].
    + intros r Hx Hr Hp. eapply need_grows; [exact Hg|by apply I9].
  - destruct (results_moves _ _ _ _ _ _ I1 Hrec) as (Hm & Hfail & Hsame).
    assert (event_ok (sy_snapshots σ) (sy_repositories σ) e ∧ result_ok (sy_es σ) (mkWriting e t (Some (os, fs)))) as [Hev Hres].
    { rewrite Hw in I4. apply Forall_app in I4 as [_ I4]. by apply Forall_cons_1 in I4 as [? _]. }
    assert (forall r, r ∈ (if all_ok os then ev_requests e ++ sy_acked σ else sy_acked σ) -> is_pr r ->
      r ∈ sy_acked σ \/ (all_ok os = true ∧ r ∈ ev_requests e)) as Hnew.
    { intros r Hr Hp. destruct (all_ok os); [apply elem_of_app in Hr as [?|?]; auto|auto]. }
    split; fields; try assumption.
    + apply Hm.
    + rewrite Hw in I4. apply Forall_forall. intros w Hin. apply (proj1 (Forall_forall _ _) I4 w). by apply middle_in.
    + intros Hx. rewrite Hw in I5. by destruct ws1; specialize (I5 Hx).
    + intros r Hr Hp. destruct (Hnew r Hr Hp) as [Hr'|[Hall Hr']]; [by apply I6|]. split; [exact (proj2 Hev r Hr' Hp)|exact (proj1 (Hres r Hr' Hp) Hall)].
    + by eapply switched_moves.
    + pose proof (run_moves _ _ _ _ _ _ Hm I8) as R. pose proof R as [R1 R2 R3]. split; [done..|]. intros id index Hid Ht Hr.
      destruct (R3 id index Hid Ht Hr) as [Hmode Hn]. rewrite Hw in Hmode. split.
      * destruct Hmode as [|[Hd [H1 H2]]]; [by left|right]. split; [done|]. split; [|done]. intros w Hin. apply H1. by apply middle_in.
      * intros r Hin Hp. destruct (Hnew r Hin Hp) as [Hr'|[Hall Hr']]; [by apply Hn|]. eapply written_need; [exact Ht|].
        destruct (Hres r Hr' Hp) as [Hserved Hshadow]. destruct Hmode as [Ha|[Hd [H1 _]]].
        -- apply (at_target_written _ _ _ Ha). by apply Hserved.
        -- apply Hshadow; [|apply (H1 (mkWriting e t (Some (os, fs)))); apply elem_of_app; right; by left].
           destruct (decide (fs = [])) as [|Hne]; [done|]. destruct Hr as (j & Hj & _ & Hrun). by destruct (Hfail Hne j Hj).
    + intros r Hx. rewrite Hw in I5. by destruct ws1; specialize (I5 Hx).
  - split; fields; try assumption.
    + rewrite Hw in I4. apply Forall_forall. intros x Hin. apply (proj1 (Forall_forall _ _) I4 x). by apply middle_in.
    + intros Hx. rewrite Hw in I5. by destruct ws1; specialize (I5 Hx).
    + eapply run_writers; [|exact I8]. rewrite Hw. intros x Hin. exists x. split; [by apply middle_in|done].
Qed.

(** *** Everybody else *)

Lemma jobs_keep σ db : jobs_move (sy_jobs σ) db -> invariant σ -> invariant (set_jobs db σ).
Proof.
  intros Hm [I1 I2 I3 I4 I5 I6 I7 I8 I9]. split; fields; try assumption; [apply Hm|by eapply switched_moves|by eapply run_moves].
Qed.
Lemma es_keep σ s : grows (sy_es σ) s -> invariant σ -> invariant (set_es s σ).
Proof.
  intros Hg [I1 I2 I3 I4 I5 I6 I7 I8 I9]. split; fields; try assumption.
  - eapply Forall_impl; [exact I4|]. intros w [? ?]. split; [done|by eapply result_grows].
  - intros r Hr Hp. destruct (I6 r Hr Hp) as [Hk Hwr]. split; [exact Hk|exact (written_grows _ _ _ _ Hg Hwr)].
  - by eapply switched_grows.
  - by eapply run_grows.
  - intros r Hx Hr Hp. eapply need_grows; [exact Hg|by apply I9].
Qed.
(** A new place of the runner, on the same job. *)
Lemma runner_keep σ rn :
  (forall id, job_of rn = Some id -> job_of (sy_runner σ) = Some id) ->
  (exclusive rn = true -> sy_writing σ = [] ∧ forall r, r ∈ sy_acked σ -> is_pr r -> need rn (sy_es σ) r) ->
  run_ok (sy_es σ) (sy_jobs σ) (sy_writing σ) (sy_acked σ) rn -> invariant σ -> invariant (set_runner rn σ).
Proof.
  intros Hj Hx Hr [I1 I2 I3 I4 I5 I6 I7 I8 I9]. split; fields; try assumption; [by apply Hx|by eapply switched_runner|].
  intros r He. by apply Hx.
Qed.
Lemma idle_keep σ : invariant σ -> invariant (set_runner rn_idle σ).
Proof. intros Hi. apply runner_keep; [done|done|apply run_idle|done]. Qed.
Lemma finish_keep s0 err id now σ : s0 ∈ [completed; failed] -> invariant σ -> invariant (finish s0 err id now rn_idle σ).
Proof. intros Hs Hi. apply idle_keep, jobs_keep; [by apply finish_moves; [apply Hi|]|done]. Qed.

Lemma other_keeps σ σ' : other_step σ σ' -> invariant σ -> invariant σ'.
Proof.
  intros Hst Hi. destruct Hst as [id a now σ|by_ σ db o He|repository σ|s σ Hg].
  - apply jobs_keep; [apply transition_moves, Hi|done].
  - apply jobs_keep; [eapply enqueue_moves; [apply Hi|exact He]|done].
  - destruct Hi as [I1 I2 I3 I4 I5 I6 I7 I8 I9].
    assert (forall x, x ∈ sy_repositories σ -> x ∈ repository :: sy_repositories σ) as Hsub by (intros; by right).
    assert (forall k sn, sy_snapshots σ !! k = Some sn -> ∃ sn', sy_snapshots σ !! k = Some sn' ∧ sn_version sn <= sn_version sn') as Hsame.
    { intros k sn Hk. exists sn. split; [done|lia]. }
    split; fields; try assumption.
    + intros x n Hk. destruct (I2 x n Hk). split; [by right|done].
    + eapply Forall_impl; [exact I3|]. intros e He. by eapply event_more.
    + eapply Forall_impl; [exact I4|]. intros w [Hw ?]. split; [by eapply event_more|done].
    + intros r Hr Hp. destruct (I6 r Hr Hp) as [Hk Hw]. split; [by eapply known_more|exact Hw].
  - by apply es_keep.
Qed.

(** *** The runner *)

Lemma run_advance s db ws acked rn rn' :
  (forall id, job_of rn' = Some id -> job_of rn = Some id) ->
  (forall index, read_target rn' = Some index -> target_of rn = Some index) ->
  (forall index, told ws rn index -> told ws rn' index) ->
  (forall r, r ∈ acked -> is_pr r -> need rn s r -> need rn' s r) ->
  run_ok s db ws acked rn -> run_ok s db ws acked rn'.
Proof.
  intros Hj Ht Htold Hn [R1 R2 R3].
  assert (forall index, target_of rn' = Some index -> target_of rn = Some index) as Ht'.
  { intros index Hi. apply Ht. by destruct rn'. }
  split; [auto| |].
  - intros id index Hid Hr. apply (R2 id index); [by apply Hj|]. specialize (Ht _ Hr). by destruct rn.
  - intros id index Hid Hi Hr. destruct (R3 id index (Hj _ Hid) (Ht' _ Hi) Hr) as [Hm Hneed].
    split; [destruct Hm as [|[? ?]]; [by left|right; split; auto]|]. intros r Hin Hp. apply Hn; auto.
Qed.
Lemma find_job_spec id db j : findReindexJob id db = Some j -> j ∈ jobs db ∧ job_id j = id.
Proof.
  unfold findReindexJob. destruct (find _ (jobs db)) as [x|] eqn:Ef; [|done]. apply find_elem in Ef as [Hin Hx].
  unfold toReindexJob. destruct (phase (progress x)); [|done]. intros [= <-]. apply andb_true_iff in Hx as [Hx%Z.eqb_eq _]. done.
Qed.

Lemma keep_claim locked now σ db j :
  sy_runner σ = rn_idle -> claimNextJob reindex 1 locked now (sy_jobs σ) = (db, Some j) -> invariant σ ->
  invariant (set_runner (rn_claimed (job_id j)) (set_jobs db σ)).
Proof.
  intros Hrn Hc [I1 I2 I3 I4 I5 I6 I7 I8 I9]. destruct (claims_spec _ _ _ _ _ I1 Hc) as (Hok & Hnext & Hlt & Hrows).
  split; fields; try assumption; try discriminate.
  - intros j' Hj' Ha Hs. destruct (Hrows j' Hj') as (j0 & Hj0 & He & Hact & Hp). destruct (Hact Ha) as [Ha0 Hid]. rewrite Hp in Hs |- *.
    destruct (I7 j0 Hj0 Ha0 Hs) as [H1 _]. split; [done|]. cbn [job_of]. intros id [= <-]. congruence.
  - split; cbn [job_of read_target target_of]; [|done..]. intros id [= <-]. lia.
Qed.
Context (Hadm : AdminLaws S).
Lemma create_grows alias version s : grows s (createVersionedIndex alias version s).1.
Proof.
  unfold createVersionedIndex. destruct (concreteIndexName alias version) as [index|]; [|by split].
  destruct (index_exists s index); [by split|]. pose proof (adm_create (AdminLaws := Hadm) index s) as Hg.
  by destruct (ia_create index s) as [s' []].
Qed.
Lemma keep_prepare id σ j source target s uuid :
  sy_runner σ = rn_claimed id -> findReindexJob id (sy_jobs σ) = Some j -> target_index (progress j) = Some target ->
  grows (sy_es σ) s -> invariant σ ->
  invariant (set_runner (rn_ready id source target) (set_jobs (patchReindexProgress id (uuid_patch uuid) (sy_jobs σ)) (set_es s σ))).
Proof.
  intros Hrn Hf Ht Hg Hi. pose proof (iv_jobs _ Hi) as Hok. pose proof (iv_run _ Hi) as Hrun. rewrite Hrn in Hrun.
  assert (jobs_move (sy_jobs σ) (patchReindexProgress id (uuid_patch uuid) (sy_jobs σ))) as Hm by (by apply patch_moves).
  apply find_job_spec in Hf as [Hj Hid]. apply runner_keep; [by fields; rewrite Hrn|done| |].
  - fields. split; cbn [job_of read_target target_of]; [| |done].
    + intros x [= <-]. pose proof (ro_id _ _ _ _ _ Hrun id eq_refl). pose proof (jm_next _ _ Hm). lia.
    + intros x index [= <-] [= <-]. eapply moves_builds; [exact Hm|by apply (ro_id _ _ _ _ _ Hrun)|].
      intros j' Hj' Hid'. by rewrite (ids_differ _ j' j Hok Hj' Hj) by congruence.
  - exact (jobs_keep (set_es s σ) _ Hm (es_keep σ s Hg Hi)).
Qed.
Lemma keep_activate id source target now σ :
  sy_runner σ = rn_ready id source target -> sy_writing σ = [] -> invariant σ ->
  invariant (set_runner (rn_activated id source target) (set_jobs (patchReindexProgress id (activation_patch now) (sy_jobs σ)) σ)).
Proof.
  intros Hrn Hw Hi. pose proof (iv_jobs _ Hi) as Hok. pose proof (iv_run _ Hi) as Hrun. rewrite Hrn in Hrun.
  pose proof (iv_switched _ Hi) as Hsw.
  assert (jobs_move (sy_jobs σ) (patchReindexProgress id (activation_patch now) (sy_jobs σ))) as Hm.
  { apply patch_moves; [done|done|done|]. intros p [= <-]. by left. }
  pose proof (ro_id _ _ _ _ _ Hrun id eq_refl) as Hlt. pose proof (ro_builds _ _ _ _ _ Hrun id target eq_refl eq_refl) as Hb.
  apply runner_keep; [by fields; rewrite Hrn|done| |by apply jobs_keep]. fields.
  split; cbn [job_of read_target target_of].
  - intros x [= <-]. pose proof (jm_next _ _ Hm). lia.
  - intros x index [= <-] [= <-]. by eapply moves_builds.
  - intros x index [= <-] [= <-] Hr. split; [|done]. destruct (moves_running id _ _ Hm Hlt Hr) as (j & Hj & Hid & Hrunning).
    destruct (switched_at (progress j)) as [at_|] eqn:Es.
    + left. destruct (Hsw j Hj (running_active j Hrunning)) as [H1 _]; [by rewrite Es|]. apply H1. by apply Hb.
    + right. split; [|split; [by rewrite Hw; intros w Hin%elem_of_nil|done]].
      intros j' (j0 & -> & Hj0)%list_elem_of_fmap Hid'. rewrite andb_true_r in Hid' |- *.
      destruct (Z.eqb_spec (job_id j0) id) as [He|Hne]; [|done]. rewrite (ids_differ _ j0 j Hok Hj0 Hj) by congruence.
      cbn [progress with_progress patched switched_at phase activation_patch]. split; [done|]. exists dual_write. split; [done|by left].
Qed.

Lemma acked_key σ r repository n :
  invariant σ -> r ∈ sy_acked σ -> is_pr r -> ur_key r = pr_key repository n ->
  repository ∈ sy_repositories σ ∧ 0 < n ∧ ∃ sn, sy_snapshots σ !! (repository, n) = Some sn ∧ ur_version r <= sn_version sn.
Proof.
  intros Hi Hr Hp Hk. destruct (iv_acked _ Hi r Hr Hp) as [(x & m & sn & Hx & Hm & Hk' & Hs & Hv) _].
  rewrite Hk in Hk'. apply pr_key_inj in Hk' as [<- <-]. split_and!; [done..|by exists sn].
Qed.
Lemma phase_moves id p db : jobs_ok db -> p ∈ DUAL_WRITE_PHASES -> jobs_move db (patchReindexProgress id (phase_patch p) db).
Proof. intros Hok Hp. apply patch_moves; [done..|]. by intros x [= <-]. Qed.

(** A step that patches the job and goes on with the same target. *)
Lemma keep_patched rn σ db :
  jobs_move (sy_jobs σ) db -> (forall id, job_of rn = Some id -> job_of (sy_runner σ) = Some id) ->
  (forall index, read_target rn = Some index -> target_of (sy_runner σ) = Some index) ->
  (forall ws index, told ws (sy_runner σ) index -> told ws rn index) -> exclusive rn = false ->
  (forall r, r ∈ sy_acked σ -> is_pr r -> need (sy_runner σ) (sy_es σ) r -> need rn (sy_es σ) r) ->
  invariant σ -> invariant (set_runner rn (set_jobs db σ)).
Proof.
  intros Hm Hj Ht Htold Hx Hn Hi. pose proof (jobs_keep _ _ Hm Hi) as Hi'. apply runner_keep; [exact Hj|congruence| |exact Hi'].
  fields. pose proof (iv_run _ Hi') as Hr. cbn [sy_es sy_jobs sy_writing sy_acked sy_runner set_jobs] in Hr.
  eapply run_advance; [exact Hj|exact Ht|apply Htold|exact Hn|exact Hr].
Qed.
Lemma keep_runner rn σ :
  (forall id, job_of rn = Some id -> job_of (sy_runner σ) = Some id) ->
  (forall index, read_target rn = Some index -> target_of (sy_runner σ) = Some index) ->
  (forall ws index, told ws (sy_runner σ) index -> told ws rn index) -> exclusive rn = false ->
  (forall r, r ∈ sy_acked σ -> is_pr r -> need (sy_runner σ) (sy_es σ) r -> need rn (sy_es σ) r) ->
  invariant σ -> invariant (set_runner rn σ).
Proof.
  intros Hj Ht Htold Hx Hn Hi. apply runner_keep; [exact Hj|congruence| |exact Hi].
  eapply run_advance; [exact Hj|exact Ht|apply Htold|exact Hn|exact (iv_run _ Hi)].
Qed.

Lemma keep_begin id source target σ :
  sy_runner σ = rn_activated id source target -> invariant σ ->
  invariant (set_runner (rn_scan id source target (sy_repositories σ) 0)
               (set_jobs (patchReindexProgress id (phase_patch backfill) (sy_jobs σ)) σ)).
Proof.
  intros Hrn Hi. apply keep_patched; rewrite ?Hrn; try done.
  - apply phase_moves; [apply Hi|]. right; by left.
  - intros r Hr Hp _ repository n Hk Hb. destruct (acked_key σ r repository n Hi Hr Hp Hk) as (Hin & Hn & _).
    exfalso. destruct Hb as [Hb|(rest & _ & _ & Hle)]; [done|lia].
Qed.
Lemma keep_read id source target repository0 todo after σ :
  sy_runner σ = rn_scan id source target (repository0 :: todo) after -> invariant σ ->
  invariant (set_runner (match listSnapshotsAfter repository0 after REINDEX_BATCH (sy_snapshots σ) with
                         | [] => rn_scan id source target todo 0
                         | rows => rn_page id source target (repository0 :: todo) rows
                         end) σ).
Proof.
  intros Hrn Hi. set (page := listSnapshotsAfter _ _ _ _).
  assert (forall r repository n, r ∈ sy_acked σ -> is_pr r -> ur_key r = pr_key repository n -> repository = repository0 -> after < n ->
    in_page REINDEX_BATCH page n -> ∃ sn, (n, sn) ∈ page ∧ ur_version r <= sn_version sn) as Hpage.
  { intros r repository n Hr Hp Hk -> Ha Hin. destruct (acked_key σ r repository0 n Hi Hr Hp Hk) as (_ & _ & sn & Hs & Hv).
    exists sn. split; [|done]. by apply page_complete. }
  destruct page as [|row rows] eqn:Ep.
  - apply keep_runner; rewrite ?Hrn; try done.
    intros r Hr Hp Hn repository n Hk Hb. destruct (acked_key σ r repository n Hi Hr Hp Hk) as (_ & Hn0 & _).
    destruct Hb as [Hb|(rest & _ & _ & Hle)]; [|lia]. destruct (decide (repository = repository0)) as [->|Hne].
    + destruct (Z.leb_spec n after); [apply (Hn repository0 n Hk); right; by exists todo|].
      destruct (Hpage r repository0 n Hr Hp Hk) as (sn & Hin & _); [done|done|left; unfold REINDEX_BATCH; cbn [length]; lia|by apply elem_of_nil in Hin].
    + apply (Hn repository n Hk). left. by apply not_elem_of_cons.
  - apply keep_runner; rewrite ?Hrn; try done.
    intros r Hr Hp Hn repository n Hk. destruct (decide (repository ∈ repository0 :: todo)) as [Hin|Hout]; [|left; apply (Hn repository n Hk); by left].
    destruct (decide (repository = repository0 ∧ repository ∉ todo ∧ n <= after)) as [(-> & Hout & Hle)|Hno].
    + left. apply (Hn repository0 n Hk). right. by exists todo.
    + right. split; [done|]. intros rest [= <- <-] Hout Hpg.
      apply (Hpage r repository0 n); try done. destruct (Z.leb_spec n after); [|lia]. by destruct Hno.
Qed.
Lemma keep_fence id source target todo rows σ :
  sy_runner σ = rn_page id source target todo rows -> invariant σ ->
  invariant (set_runner (rn_page_fenced id source target todo rows (mkTargets (findDualWriteShadows (sy_jobs σ)))) σ).
Proof.
  intros Hrn Hi. pose proof (iv_run _ Hi) as [R1 R2 R3]. rewrite Hrn in *. apply runner_keep; [by rewrite Hrn|done| |done].
  split; cbn [job_of read_target target_of]; [exact R1|exact R2|]. intros x index Hx Ht Hr.
  destruct (R3 x index Hx Ht Hr) as [Hm Hn]. split; [|exact Hn]. destruct Hm as [|[Hd [Htold _]]]; [by left|right].
  split; [done|]. split; [done|]. unfold shadowIndexOf. cbn [shadows].
  eapply shadows_of_running; [apply Hi|exact Hr|exact Hd|]. by apply R2.
Qed.

Lemma rebuild_request_wf row teams p : wf_request (rebuild_request row teams p).
Proof.
  split; [apply lookup_empty|apply lookup_empty|]. cbn [rebuild_request ur_remove]. destruct (authorTeamIdsFor _ _); [by intros H1%elem_of_nil|].
  intros H1%list_elem_of_singleton. revert H1. vm_compute. discriminate.
Qed.
Lemma rebuild_grows requests t s : Forall wf_request requests -> grows s (rebuild_run hash_order requests t s).1.
Proof.
  intros Hwf. unfold rebuild_run. pose proof (bulk_grows hash_order Hdoc requests t s Hwf) as Hg.
  destruct (bulkUpsert hash_order requests t s) as [s1 [[os fs]|e]]; [|done]. by destruct (List.filter _ os) as [|[|] ?].
Qed.
Lemma rebuild_spec requests t s s' fs :
  Forall wf_request requests -> rebuild_run hash_order requests t s = (s', Ok (tt, (fs, []))) ->
  grows s s' ∧ forall r, r ∈ requests -> is_pr r ->
    written s' PRS r ∧ (fs = [] -> forall i, shadowIndexOf t PRS = Some i -> written s' i r).
Proof.
  intros Hwf Hr. unfold rebuild_run in Hr. destruct (bulkUpsert hash_order requests t s) as [s1 [[os fs1]|e]] eqn:Eb; [|done].
  destruct (bulk_spec hash_order Hdoc _ _ _ _ _ _ Hwf Eb) as (Hg & Hmap & Hok & Hcov).
  assert (forall o, o ∈ os -> is_ok_outcome o = true) as Hall.
  { intros o Ho. destruct (is_ok_outcome o) eqn:Eo; [done|exfalso].
    assert (forall x, x ∈ List.filter (fun o => negb (is_ok_outcome o)) os -> ∃ c q st reason, x = bo_failed c q st reason) as Hf.
    { intros x [_ Hx]%elem_filter. destruct x; [done|by repeat eexists]. }
    assert (o ∈ List.filter (fun o => negb (is_ok_outcome o)) os) as Hin by (apply elem_filter; by rewrite Eo).
    destruct (List.filter _ os) as [|x l]; [by apply elem_of_nil in Hin|]. destruct (Hf x) as (c & q & st & reason & ->); [by left|done]. }
  assert (s1 = s' ∧ fs1 = fs) as [-> ->] by (destruct (List.filter _ os) as [|[|] ?]; by injection Hr).
  split; [exact Hg|]. intros r Hin Hp. split.
  - rewrite <- Hmap in Hin. apply list_elem_of_fmap in Hin as (o & -> & Ho). pose proof (Hok o Ho (Hall o Ho)) as Hw.
    by rewrite Hp in Hw.
  - intros -> i Hsh. destruct (Hcov (r, i)) as [Hw|(f & Hf & _)]; [|exact Hw|by apply elem_of_nil in Hf].
    apply list_elem_of_omap. exists r. split; [done|]. rewrite (f_equal alias_name Hp : _ = PRS), Hsh. done.
Qed.
Lemma written_older s index r r' :
  ur_key r = ur_key r' -> ur_version r <= ur_version r' -> written s index r' -> written s index r.
Proof. intros Hk Hv (d & w & Hd & Hw & Hle). exists d, w. rewrite Hk. split_and!; [done..|lia]. Qed.

Lemma in_page_dec limit rows n : {in_page limit rows n} + {¬ in_page limit rows n}.
Proof.
  unfold in_page. destruct (decide (length rows < limit)%nat) as [Hl|Hl]; [by left; left|].
  destruct (last rows) as [p|]; [|by right; intros [?|(p & ? & _)]]. destruct (decide (n <= p.1)) as [Hn|Hn]; [left; right; by exists p|].
  right. intros [?|(q & [= <-] & ?)]; [done|lia].
Defined.
Lemma keep_write id source target repository0 todo rows t σ row teams s fs :
  sy_runner σ = rn_page_fenced id source target (repository0 :: todo) rows t -> repository_id row = repository0 ->
  rebuild_run hash_order (map (rebuild_request row teams) rows) t (sy_es σ) = (s, Ok (tt, (fs, []))) -> invariant σ ->
  invariant (set_runner (rn_page_written id source target (repository0 :: todo) rows fs) (set_es s σ)).
Proof.
  intros Hrn Hrow Hrun Hi. set (requests := map _ rows) in *.
  assert (Forall wf_request requests) as Hwf by (apply Forall_map, Forall_true; intros; apply rebuild_request_wf).
  destruct (rebuild_spec _ _ _ _ _ Hwf Hrun) as [Hg Hwritten]. pose proof (es_keep _ _ Hg Hi) as Hi'.
  pose proof (iv_run _ Hi') as [R1 R2 R3]. fields. rewrite Hrn in *.
  apply runner_keep; [by fields; rewrite Hrn|done| |exact Hi']. fields.
  split; cbn [job_of read_target target_of]; [exact R1|exact R2|]. intros x index Hx Ht Hr. destruct (R3 x index Hx Ht Hr) as [Hm Hn].
  cbn [target_of] in Ht. injection Ht as <-.
  split; [destruct Hm as [|[? [? _]]]; [by left|by right]|]. intros r Hin Hp Hfs repository n Hk.
  destruct (Hn r Hin Hp repository n Hk) as [Hw|[Hrep Hpage]]; [by left|].
  destruct (decide (repository = repository0 ∧ repository ∉ todo)) as [[-> Hout]|Hno].
  - destruct (in_page_dec REINDEX_BATCH rows n) as [Hd|Hd].
    + left. destruct (Hpage todo eq_refl Hout Hd) as (sn & Hsn & Hv).
      assert (rebuild_request row teams (n, sn) ∈ requests) as Hreq by (by apply list_elem_of_fmap_2).
      destruct (Hwritten _ Hreq eq_refl) as [H1 H2].
      apply (written_older s target r (rebuild_request row teams (n, sn))); [by rewrite Hk; cbn [rebuild_request ur_key]; rewrite <- Hrow|exact Hv|].
      destruct Hm as [Ha|[_ [_ Hsh]]]; [by apply (at_target_written _ _ _ Ha)|by apply H2].
    + right. split; [done|]. by intros rest [= <-] _.
  - right. split; [done|]. intros rest [= <- <-] Hout. by destruct Hno.
Qed.
Lemma keep_record id source target repository0 todo rows fs now db links σ :
  sy_runner σ = rn_page_written id source target (repository0 :: todo) rows fs ->
  record_shadow_results fs [] now (sy_jobs σ) (sy_links σ) = Some (db, links) -> invariant σ ->
  invariant (mkSystem (sy_es σ) db links (sy_snapshots σ) (sy_repositories σ) (sy_recorded σ) (sy_writing σ) (sy_acked σ)
    (if (length rows <? REINDEX_BATCH)%nat then rn_scan id source target todo 0
     else rn_scan id source target (repository0 :: todo) (from_option fst 0 (last rows)))).
Proof.
  intros Hrn Hrec Hi. destruct (results_moves _ _ _ _ _ _ (iv_jobs _ Hi) Hrec) as (Hm & Hfail & Hsame).
  set (rn := if (length rows <? REINDEX_BATCH)%nat then rn_scan id source target todo 0
            else rn_scan id source target (repository0 :: todo) (from_option fst 0 (last rows))). pose proof (jobs_keep _ _ Hm Hi) as Hi'.
  assert (invariant (set_runner rn (set_jobs db σ))) as Hgoal.
  { pose proof (iv_run _ Hi') as [R1 R2 R3]. fields. rewrite Hrn in *.
    apply runner_keep; [fields; rewrite Hrn; unfold rn; by destruct (_ <? _)%nat|unfold rn; by destruct (_ <? _)%nat| |exact Hi']. fields.
    split; [unfold rn; by destruct (_ <? _)%nat|unfold rn; by destruct (_ <? _)%nat|].
    intros x index Hx Ht Hr. assert (Some id = Some x ∧ Some target = Some index) as [Hx' Ht'] by (unfold rn in Hx, Ht; by destruct (_ <? _)%nat).
    destruct (R3 x index Hx' Ht' Hr) as [Hmode Hn].
    split; [destruct Hmode as [|[? [? _]]]; [by left|right]; by unfold rn; destruct (_ <? _)%nat|].
    destruct (decide (fs = [])) as [Hfs|Hne]; [|destruct Hr as (j & Hj & _ & Hrun); by destruct (Hfail Hne j Hj)].
    intros r Hin Hp. specialize (Hn r Hin Hp Hfs). unfold rn. destruct (Nat.ltb_spec (length rows) REINDEX_BATCH) as [Hlt|Hge]; cbn [need].
    - intros repository n Hk Hb. destruct (acked_key σ r repository n Hi Hin Hp Hk) as (_ & Hn0 & _).
      destruct Hb as [Hb|(rest & _ & _ & Hle)]; [|lia]. destruct (Hn repository n Hk) as [Hw|[Hrep Hno]]; [done|].
      apply elem_of_cons in Hrep as [->|]; [|done]. exfalso. apply (Hno todo eq_refl Hb). by left.
    - intros repository n Hk Hb. destruct (Hn repository n Hk) as [Hw|[Hrep Hno]]; [done|].
      destruct Hb as [Hb|(rest & Heq & Hout & Hle)]; [done|]. exfalso. apply (Hno rest Heq Hout). right.
      destruct (last rows) as [p|] eqn:El; [by exists p|]. apply last_None in El as ->. unfold REINDEX_BATCH in Hge. cbn in Hge. lia. }
  destruct Hgoal as [I1 I2 I3 I4 I5 I6 I7 I8 I9]. by split.
Qed.

Lemma keep_check id source target epochs σ :
  sy_runner σ = rn_cutover id source target -> sy_writing σ = [] ->
  cutover_decision epochs PRS id target (sy_links σ) (sy_es σ) (sy_jobs σ) = cd_switch -> invariant σ ->
  invariant (set_runner (rn_switching id source target) σ).
Proof.
  intros Hrn Hw Hc Hi. pose proof (iv_run _ Hi) as R. rewrite Hrn in R. apply runner_keep; [by rewrite Hrn| | |exact Hi].
  - intros _. split; [done|]. apply (ro_run _ _ _ _ _ R id target); [done..|]. unfold cutover_decision in Hc.
    destruct (findReindexJob id (sy_jobs σ)) as [j|] eqn:Ej; [|done]. apply find_job_spec in Ej as [Hj Hid].
    destruct (bool_decide (state j = running)) eqn:Eb; [|done]. apply bool_decide_eq_true_1 in Eb. by exists j.
  - eapply run_advance; [| | | |exact R]; done.
Qed.

(** What switching the alias leaves, carried out or not. *)
Lemma switched_served id source target σ s ok :
  sy_runner σ = rn_switching id source target -> ia_switch PRS source target (sy_es σ) = (s, ok) -> invariant σ ->
  sy_writing σ = [] ∧
  (forall r, r ∈ sy_acked σ -> is_pr r -> written s PRS r) ∧
  forall j, j ∈ jobs (sy_jobs σ) -> active j = true -> switched_at (progress j) <> None ->
    job_id j = id ∧ forall index, target_index (progress j) = Some index -> at_target s index.
Proof.
  intros Hrn Hs Hi. pose proof (iv_fence _ Hi) as Hw. pose proof (iv_switching _ Hi) as Hneed. pose proof (iv_switched _ Hi) as Hsw.
  pose proof (ro_builds _ _ _ _ _ (iv_run _ Hi) id target) as Hb. rewrite Hrn in *. cbn [exclusive] in *.
  pose proof (adm_switch (AdminLaws := Hadm) PRS source target (sy_es σ)) as Hdocs.
  destruct (adm_switched (AdminLaws := Hadm) PRS source target (sy_es σ)) as [Hother Halias]. rewrite Hs in *. cbn [fst snd] in *.
  split; [by apply Hw|]. split.
  - intros r Hr Hp. destruct (iv_acked _ Hi r Hr Hp) as [_ Hserved]. specialize (Hneed r eq_refl Hr Hp). cbn [need] in Hneed.
    unfold written, doc_named in *. rewrite Hdocs. destruct Halias as [->|[_ ->]]; [exact Hneed|exact Hserved].
  - intros j Hj Ha Hn. destruct (Hsw j Hj Ha Hn) as [Hat Hid]. specialize (Hid id eq_refl). split; [done|]. intros index Hix.
    rewrite (Hb eq_refl eq_refl j Hj Hid) in Hix. injection Hix as <-. specialize (Hat target (Hb eq_refl eq_refl j Hj Hid)).
    unfold at_target in *. destruct (decide (target = PRS)) as [->|Hne]; [done|]. rewrite (Hother target Hne).
    destruct Halias as [->|[_ ->]]; done.
Qed.
Lemma switch_idle σ s db :
  jobs_move (sy_jobs σ) db -> sy_writing σ = [] -> (forall r, r ∈ sy_acked σ -> is_pr r -> written s PRS r) ->
  (forall j, j ∈ jobs (sy_jobs σ) -> active j = true -> switched_at (progress j) <> None ->
     forall index, target_index (progress j) = Some index -> at_target s index) ->
  invariant σ -> invariant (set_runner rn_idle (set_jobs db (set_es s σ))).
Proof.
  intros Hm Hw Hacked Hsw [I1 I2 I3 I4 I5 I6 I7 I8 I9]. split; fields; try assumption; try discriminate.
  - apply Hm.
  - by rewrite Hw.
  - intros r Hr Hp. destruct (I6 r Hr Hp) as [Hk _]. split; [exact Hk|exact (Hacked r Hr Hp)].
  - intros j' Hj' Ha Hn. destruct (jm_rows _ _ Hm j' Hj') as [(_ & _ & Hf)|(j & Hj & He & Hk1 & Hk2 & Hk3 & Hk4 & _)]; [done|].
    split; [|done]. rewrite Hk3. apply Hsw; [done|by apply Hk2|by rewrite <- Hk4].
  - apply run_idle.
Qed.
Lemma keep_switch id source target now σ s :
  sy_runner σ = rn_switching id source target -> ia_switch PRS source target (sy_es σ) = (s, true) -> invariant σ ->
  invariant (set_runner (rn_switched id) (set_jobs (patchReindexProgress id (switched_patch now) (sy_jobs σ)) (set_es s σ))).
Proof.
  intros Hrn Hs Hi. destruct (switched_served _ _ _ _ _ _ Hrn Hs Hi) as (Hw & Hacked & Hsw).
  pose proof (adm_switched (AdminLaws := Hadm) PRS source target (sy_es σ)) as [Hother Halias]. rewrite Hs in *. cbn [fst snd] in *.
  destruct Hi as [I1 I2 I3 I4 I5 I6 I7 I8 I9]. rewrite Hrn in *. split; fields; try assumption; try discriminate.
  - by apply update_jobs_ok.
  - by rewrite Hw.
  - intros r Hr Hp. destruct (I6 r Hr Hp) as [Hk _]. split; [exact Hk|exact (Hacked r Hr Hp)].
  - intros j' (j & -> & Hj)%list_elem_of_fmap Ha Hn. rewrite andb_true_r in *. destruct (Z.eqb_spec (job_id j) id) as [He|Hne].
    + cbn [progress with_progress patched target_index switched_patch job_id] in *. split; [|by intros x [= <-]].
      rewrite (ro_builds _ _ _ _ _ I8 id target eq_refl eq_refl j Hj He). intros index [= <-]. unfold at_target.
      destruct (decide (target = PRS)) as [->|Hne']; [done|]. rewrite (Hother target Hne'). by destruct Halias as [|[]].
    + destruct (Hsw j Hj Ha Hn) as [Hid Hat]. done.
  - split; cbn [job_of read_target target_of]; [|done..]. intros x [= <-]. exact (ro_id _ _ _ _ _ I8 id eq_refl).
Qed.

Lemma runner_keeps σ σ' : runner_step hash_order σ σ' -> invariant σ -> invariant σ'.
Proof.
  intros Hst Hi. pose proof (iv_jobs _ Hi) as Hok. destruct Hst as
    [locked now σ db j Hrn Hc|id σ j source target s uuid Hrn Hf _ Ht -> _ _|id source target now σ Hrn Hw|id source target σ Hrn
    |id source target r todo after σ Hrn|id source target todo rows σ Hrn|id source target r todo rows t σ row teams s fs Hrn Hrow Hrun
    |id source target r todo rows fs now db links σ Hrn Hrec|id source target after scanned written0 σ Hrn|id source target σ Hrn
    |id source target expected m σ Hrn _|id source target epochs σ Hrn Hw Hc|id source target now σ s Hrn Hs
    |id source target err now σ s recorded Hrn Hs|id now σ Hrn|id err now σ Hj Hx|id source target todo rows t requests s e err now σ Hrn Hwf Hrun
    |σ|id source target σ Hrn].
  - by apply keep_claim with (locked := locked) (now := now).
  - eapply keep_prepare; [done..| |done]. destruct (index_exists (sy_es σ) target); [by split|apply create_grows].
  - by eapply keep_activate.
  - by eapply keep_begin.
  - by eapply keep_read.
  - by eapply keep_fence.
  - by eapply keep_write.
  - by eapply keep_record.
  - apply keep_patched; rewrite ?Hrn; try done; [by apply patch_moves|].
    intros q Hq Hp Hn. destruct (iv_acked _ Hi q Hq Hp) as [(repository & n & sn & _ & _ & Hk & _) _].
    apply (Hn repository n Hk). left. apply not_elem_of_nil.
  - apply keep_patched; rewrite ?Hrn; try done. apply phase_moves; [done|]. do 2 right. by left.
  - apply keep_patched; rewrite ?Hrn; try done. apply phase_moves; [done|]. do 3 right. by left.
  - by eapply keep_check.
  - by eapply keep_switch.
  - destruct (switched_served _ _ _ _ _ _ Hrn Hs Hi) as (Hw & Hacked & Hsw). apply (switch_idle σ s); [apply finish_moves; [done|right; by left]|done..| |done].
    intros j Hj Ha Hn. apply (Hsw j Hj Ha Hn).
  - apply finish_keep; [by left|done].
  - apply finish_keep; [right; by left|done].
  - apply finish_keep; [right; by left|]. apply es_keep; [|done]. pose proof (rebuild_grows requests t (sy_es σ) Hwf) as Hg. by rewrite Hrun in Hg.
  - by apply idle_keep.
  - destruct (ia_switch PRS source target (sy_es σ)) as [s ok] eqn:Hs. cbn [fst].
    destruct (switched_served _ _ _ _ _ _ Hrn Hs Hi) as (Hw & Hacked & Hsw).
    assert (jobs_move (sy_jobs σ) (sy_jobs σ)) as Hm.
    { split; [done|done|]. intros j Hj. right. exists j. split; [done|]. split; [done|apply keeps_row_refl]. }
    destruct (switch_idle σ s (sy_jobs σ) Hm Hw Hacked) as [I1 I2 I3 I4 I5 I6 I7 I8 I9]; [|done|by split].
    intros j Hj Ha Hn. apply (Hsw j Hj Ha Hn).
Qed.

Lemma step_keeps σ σ' : step hash_order σ σ' -> invariant σ -> invariant σ'.
Proof. intros [Hs|[Hs|Hs]]; [by apply worker_keeps|by apply other_keeps|by apply runner_keeps]. Qed.
Lemma initial_invariant s : invariant (initial s).
Proof.
  split; cbn [initial sy_es sy_jobs sy_snapshots sy_repositories sy_recorded sy_writing sy_acked sy_runner]; try done.
  - split; [constructor|constructor|cbn; lia|constructor].
  - intros repository n [x Hx]. by rewrite lookup_empty in Hx.
  - by intros r Hr%elem_of_nil.
  - by intros j Hj%elem_of_nil.
Qed.
Lemma steps_keep σ σ' : rtc (step hash_order) σ σ' -> invariant σ -> invariant σ'.
Proof. induction 1; [done|]. intros Hi. by apply IHrtc, (step_keeps x y). Qed.
End invariant.

(** ** The events of the projection *)

Lemma projected_event date_parse toISOString s repositories :
  repository_id (repository s) ∈ repositories -> 0 < pr_number (enriched s) ->
  wf_event repositories (mkEvent (repository_id (repository s)) (pr_number (enriched s)) (buildUpsertRequests date_parse toISOString s)).
Proof.
  intros Hr Hn. assert (forall r, r ∈ buildUpsertRequests date_parse toISOString s -> is_pr r -> r = buildPullRequestDocument date_parse toISOString s) as Hone.
  { intros r [->|(p & -> & _)%list_elem_of_fmap]%elem_of_cons Hp; done. }
  split; [done|done|..]; cbn [ev_requests ev_repository ev_pr].
  - eapply Forall_impl; [apply requests_projected|]. intros r. apply projected_wf.
  - intros r Hin Hp. by rewrite (Hone r Hin Hp).
  - intros r r' Hin Hin' Hp Hp'. by rewrite (Hone r Hin Hp), (Hone r' Hin' Hp').
Qed.

(** ** Theorems *)

(** [C15] An event that was acknowledged is served and stays served: whatever the projection workers,
    the runner of reindex jobs, operators and crashes do and however they interleave, the alias
    names an index whose document has the version of the event or a newer one, before a
    reindexing, while the new index is built, and after the alias has moved to it. *)
Theorem acknowledged_served hash_order {S} `{DocServer S} `{IndexAdmin S} (Hdoc : DocLaws S) (Hadm : AdminLaws S) (s : S) σ r :
  rtc (step hash_order) (initial s) σ -> r ∈ sy_acked σ -> is_pr r -> written (sy_es σ) PRS r.
Proof.
  intros Hs Hr Hp. pose proof (steps_keep hash_order Hdoc Hadm _ _ Hs (initial_invariant s)) as Hi. exact (proj2 (iv_acked _ Hi r Hr Hp)).
Qed.

(** *** A reindexing of one pull request *)

Definition V1 : jstr := js "prs-pull-requests-v1".
Definition first_index : ModelIndex := mkModelIndex {[PRS := V1; V1 := V1]} ∅.
Definition sample_request : UpsertRequest :=
  mkUpsert prs_pull_requests (pullRequestDocId 7 12) (js "7") 100 {[js "title" := JStr (js "Fix")]} ∅ ∅ [].
Definition sample_pr_event : Event := mkEvent 7 12 [sample_request].
Lemma sample_pr_wf : wf_event [7] sample_pr_event.
Proof.
  split; [by left|done|..]; cbn [ev_requests sample_pr_event].
  - constructor; [|done]. split; [done|done|apply not_elem_of_nil].
  - by intros r ->%list_elem_of_singleton.
  - by intros r r' ->%list_elem_of_singleton ->%list_elem_of_singleton.
Qed.
Definition measured : Measured := mkMeasured (Ok (0, [])) (Ok (0, [])) 1 None (Ok []) (Ok []).
(** The states of the run: each one is what its step makes of the one before. *)
Notation after st := {σ : System ModelIndex | step id st σ}.
Definition registered : after (initial first_index).
Proof. eexists. right. left. apply (os_register 7). Defined.
Definition snapshot_taken : after (`registered).
Proof. eexists. left. apply (ws_snapshot _ sample_pr_event). exact sample_pr_wf. Defined.
Definition fenced : after (`snapshot_taken).
Proof. eexists. left. apply (ws_fence _ sample_pr_event); [exact (list_elem_of_here _ _)|reflexivity]. Defined.
Definition indexed : after (`fenced).
Proof. eexists. left. eapply (ws_run _ _ _ [] []); [reflexivity|apply by_parts; vm_compute; reflexivity]. Defined.
Definition acknowledged : after (`indexed).
Proof. eexists. left. eapply (ws_release _ _ _ [] [] _ _ _ 5); [reflexivity|reflexivity]. Defined.
Definition enqueued : after (`acknowledged).
Proof. eexists. right. left. apply (os_enqueue (js "kim") _ _ _ (surjective_pairing _)). Defined.
Definition claimed : after (`enqueued).
Proof. eexists. right. right. eapply (rs_claim _ (fun _ => false) 10); [reflexivity|apply by_parts; vm_compute; reflexivity]. Defined.
Definition prepared : after (`claimed).
Proof. eexists. right. right. eapply rs_prepare; [vm_compute; reflexivity..|reflexivity| |]; vm_compute; reflexivity. Defined.
Definition activated : after (`prepared).
Proof. eexists. right. right. eapply rs_activate with (now := 20); vm_compute; reflexivity. Defined.
Definition begun : after (`activated).
Proof. eexists. right. right. eapply rs_begin; vm_compute; reflexivity. Defined.
Definition page_read : after (`begun).
Proof. eexists. right. right. eapply (rs_read _ _ _ _ 7 []); vm_compute; reflexivity. Defined.
Definition page_fenced : after (`page_read).
Proof. eexists. right. right. eapply rs_fence; vm_compute; reflexivity. Defined.
Definition page_written : after (`page_fenced).
Proof.
  eexists. right. right. eapply (rs_write _ _ _ _ 7 [] _ _ _ (mkRepository 7 [] [] 1 [] [] []) (fun _ => None));
    [vm_compute; reflexivity|reflexivity|apply by_parts; vm_compute; reflexivity].
Defined.
Definition page_recorded : after (`page_written).
Proof. eexists. right. right. eapply (rs_record _ _ _ _ _ _ _ _ 30); [vm_compute; reflexivity|reflexivity]. Defined.
Definition scanned : after (`page_recorded).
Proof. eexists. right. right. eapply (rs_scanned _ _ _ _ _ 1 1). vm_compute. reflexivity. Defined.
Definition verifying : after (`scanned).
Proof. eexists. right. right. eapply rs_verifying. vm_compute. reflexivity. Defined.
Definition verified : after (`verifying).
Proof. eexists. right. right. eapply rs_verified with (expected := Some 1) (m := measured); vm_compute; reflexivity. Defined.
Definition checked : after (`verified).
Proof. eexists. right. right. eapply rs_check with (epochs := fun _ _ => None); vm_compute; reflexivity. Defined.
Definition switched : after (`checked).
Proof. eexists. right. right. eapply rs_switch with (now := 40); [vm_compute; reflexivity|apply by_parts; vm_compute; reflexivity]. Defined.
Lemma then_step {st σ'} (σ : after st) : rtc (step id) (`σ) σ' -> rtc (step id) st σ'.
Proof. apply rtc_l, (proj2_sig σ). Qed.
Lemma sample_reindexing : rtc (step id) (initial first_index) (`switched).
Proof.
  apply (then_step registered), (then_step snapshot_taken), (then_step fenced), (then_step indexed), (then_step acknowledged).
  apply (then_step enqueued), (then_step claimed), (then_step prepared), (then_step activated), (then_step begun).
  apply (then_step page_read), (then_step page_fenced), (then_step page_written), (then_step page_recorded), (then_step scanned).
  apply (then_step verifying), (then_step verified), (then_step checked), (then_step switched), rtc_refl.
Qed.
(** The alias has moved to the new index, and the acknowledged event is served from there. *)
Lemma acknowledged_served_witness :
  es_index (sy_es (`switched)) PRS = js "prs-pull-requests-v2" ∧ written (sy_es (`switched)) PRS sample_request.
Proof.
  split; [vm_compute; reflexivity|].
  apply (acknowledged_served id model_laws model_admin_laws first_index (`switched) sample_request sample_reindexing);
    [vm_compute; exact (list_elem_of_here _ _)|reflexivity].
Defined.
