(* ===== verification/CommitLinkStore.v ===== *)
(** * The pull requests of a commit: tables

    Which pull requests a commit belongs to
    ([packages/db/src/repositories/pr-commit-link.ts]): the links with their evidence, the
    observation of a pull request they come from, and per commit the generation that is to be
    shown by the search index.  A source link of a commit on the chain of a branch counts only
    when the chain names its pull request, so the tables of the merge sequence are read too. *)

From stdpp Require Import base option strings numbers gmap sets sorting list.
From Stdlib Require Import ZArith Lia.
From S2P Require Import Prelude JsString Json SequenceStore.
Open Scope Z_scope.

(** ** Tables *)

Inductive LinkEvidence : Set := source | merge.
#[export] Instance LinkEvidence_eq_dec : EqDecision LinkEvidence.
Proof. solve_decision. Defined.
#[export] Instance LinkEvidence_countable : Countable LinkEvidence :=
  inj_countable (fun e => match e with source => true | merge => false end)
    (fun b : bool => Some (if b then source else merge)) (fun e => match e with source | merge => eq_refl end).
Inductive LinkVerificationState : Set := verified | unverified | conflict | pending_refetch.
#[export] Instance LinkVerificationState_eq_dec : EqDecision LinkVerificationState.
Proof. solve_decision. Defined.
Inductive CommitLinkWorkState : Set := ready | leased | retry | parked | done_.
#[export] Instance CommitLinkWorkState_eq_dec : EqDecision CommitLinkWorkState.
Proof. solve_decision. Defined.

Record LinkObservationRow : Type := mkObservation {
  observed_version : Z; head_sha : option jstr; base_sha : option jstr; base_branch : option jstr; pr_state : option jstr;
  commits_complete : bool; commits_error_kind : option jstr; api_commit_count : option Z; fetched_count : Z;
  source_commits_truncated : bool; verification_state : LinkVerificationState; refetch_requested_at : option Z;
  refetch_attempts : Z; last_verified_at : option Z; observation_reason : option jstr
}.
Record CommitLinkStateRow : Type := mkLinkRow {
  generation : Z; projected_generation : Z; projected_numbers : option (list Z); state : CommitLinkWorkState;
  lease_until : option Z; lease_token : option jstr; available_at : Z; attempt_count : Z;
  last_reason : option jstr; conflict_at : option Z
}.

(** Repository, pull request, commit and evidence; the value is the version that was observed. *)
Abbreviation LinkKey := (Z * Z * jstr * LinkEvidence)%type.
Abbreviation Commit := (Z * jstr)%type.
Record LinkDb : Type := mkLinkDb {
  links : gmap LinkKey Z; observations : gmap (Z * Z) LinkObservationRow; states : gmap Commit CommitLinkStateRow;
  (** [repository.sequence_branches], and the tables of the merge sequence. *)
  sequence_branches : gmap Z (list jstr); sequence : SequenceStore.Db
}.
Definition set_links (m : gmap LinkKey Z) (db : LinkDb) : LinkDb :=
  mkLinkDb m (observations db) (states db) (sequence_branches db) (sequence db).
Definition set_observations (m : gmap (Z * Z) LinkObservationRow) (db : LinkDb) : LinkDb :=
  mkLinkDb (links db) m (states db) (sequence_branches db) (sequence db).
Definition set_states (m : gmap Commit CommitLinkStateRow) (db : LinkDb) : LinkDb :=
  mkLinkDb (links db) (observations db) m (sequence_branches db) (sequence db).

(** ** Effective links *)

(** The pull requests that the current chains of a repository name for a commit. *)
Definition chain_rows_of_link (repositoryId : Z) (sha : jstr) (db : LinkDb) : list (option Z) :=
  flat_map (fun branch =>
      match sequence_space (sequence db) !! (repositoryId, branch) with
      | Some s => map (fun r => pull_request_number r.2)
                    (List.filter (fun r => jeqb (SequenceStore.commit_sha r.2) sha)
                       (rows_of (repositoryId, branch) (seq_epoch s) (sequence db)))
      | None => []
      end)
    (default [] (sequence_branches db !! repositoryId)).
Definition effective_on (chain : list (option Z)) (pr : Z) (e : LinkEvidence) : bool :=
  match e with
  | merge => true
  | source => match chain with [] => true | _ => bool_decide (Some pr ∈ chain) end
  end.
Definition effective_link (k : LinkKey) (db : LinkDb) : bool :=
  let '(repositoryId, pr, sha, e) := k in effective_on (chain_rows_of_link repositoryId sha db) pr e.
Definition sorted_numbers (l : list Z) : list Z := merge_sort Z.le (remove_dups l).
Definition linked (ok : LinkKey -> bool) (c : Commit) (db : LinkDb) : list Z :=
  omap (fun p : LinkKey * Z => let '(r, pr, sha, e) := p.1 in
          if bool_decide ((r, sha) = c) && ok p.1 then Some pr else None) (map_to_list (links db)).
(** [array_agg(DISTINCT pr_number ORDER BY pr_number)] of the effective links of a commit. *)
Definition effective_numbers (c : Commit) (db : LinkDb) : list Z := sorted_numbers (linked (fun k => effective_link k db) c db).
Definition raw_numbers (c : Commit) (db : LinkDb) : list Z := sorted_numbers (linked (fun _ => true) c db).

Definition normalizeSha (value : option jstr) : option jstr :=
  match value with Some v => if SHA (ascii_lower v) then Some (ascii_lower v) else None | None => None end.

(** ** Adoption of an observation *)

Record LinkObservationInput : Type := mkObservationInput {
  li_repositoryId : Z; li_prNumber : Z; li_observedVersion : Z; li_sourceShas : list jstr; li_mergeSha : option jstr;
  li_commitsComplete : bool; li_pullRequestAuthoritative : bool; li_commitsErrorKind : option jstr;
  li_apiCommitCount : option Z; li_sourceCommitsTruncated : bool; li_headSha : option jstr; li_baseSha : option jstr;
  li_baseBranch : option jstr; li_prState : option jstr; li_reason : option jstr
}.
Inductive AdoptionOutcome : Set := adopted | stale | idempotent | conflicting.
#[export] Instance AdoptionOutcome_eq_dec : EqDecision AdoptionOutcome.
Proof. solve_decision. Defined.
Record AdoptionResult : Type := mkAdoption {
  ad_changed : bool; ad_outcome : AdoptionOutcome; ad_added : list jstr; ad_removed : list jstr; ad_affected : list jstr;
  ad_verificationState : LinkVerificationState; ad_withheld : list jstr
}.

Definition evidence_of (repositoryId prNumber : Z) (e : LinkEvidence) (db : LinkDb) : list jstr :=
  omap (fun p : LinkKey * Z => let '(r, pr, sha, e') := p.1 in
          if (r =? repositoryId) && (pr =? prNumber) && bool_decide (e' = e) then Some sha else None) (map_to_list (links db)).
Definition currentLinks (repositoryId prNumber : Z) (db : LinkDb) : list jstr * list jstr :=
  (evidence_of repositoryId prNumber source db, evidence_of repositoryId prNumber merge db).
Definition insert_links (repositoryId prNumber version : Z) (e : LinkEvidence) (shas : list jstr) (db : LinkDb) : LinkDb :=
  set_links (foldr (fun sha m => <[(repositoryId, prNumber, sha, e) := version]> m) (links db) shas) db.
Definition delete_links (repositoryId prNumber : Z) (e : LinkEvidence) (shas : list jstr) (db : LinkDb) : LinkDb :=
  set_links (foldr (fun sha m => delete (repositoryId, prNumber, sha, e) m) (links db) shas) db.
Definition minus (l k : list jstr) : list jstr := List.filter (fun x => negb (mem x k)) l.
Definition to_list {A} (o : option A) : list A := match o with Some x => [x] | None => [] end.

(** The same set: as many, and each of them. *)
Definition same_set (stored new : list jstr) : bool := (length stored =? length new)%nat && forallb (fun x => mem x stored) new.
Definition mark_conflict (now : Z) (o : LinkObservationRow) : LinkObservationRow :=
  mkObservation (observed_version o) (head_sha o) (base_sha o) (base_branch o) (pr_state o) (commits_complete o)
    (commits_error_kind o) (api_commit_count o) (fetched_count o) (source_commits_truncated o) conflict (Some now)
    (refetch_attempts o) (last_verified_at o) (Some (js "same_version_different_set")).
Definition verification_of (i : LinkObservationInput) : LinkVerificationState :=
  if li_commitsComplete i then verified else pending_refetch.
Definition observation_of (now : Z) (i : LinkObservationInput) (count : nat) (before : option LinkObservationRow) : LinkObservationRow :=
  let st := verification_of i in
  mkObservation (li_observedVersion i) (normalizeSha (li_headSha i)) (normalizeSha (li_baseSha i)) (li_baseBranch i) (li_prState i)
    (li_commitsComplete i) (li_commitsErrorKind i) (li_apiCommitCount i) (Z.of_nat count) (li_sourceCommitsTruncated i) st
    (if li_commitsComplete i then None else Some now)
    (match before with None => 0 | Some o => if li_commitsComplete i then 0 else refetch_attempts o + 1 end)
    (if li_commitsComplete i then Some now else before ≫= last_verified_at) (take 200 <$> li_reason i).

(** What adopting changes: the links to insert and to delete, and those withheld. *)
Record Change : Type := mkChange {
  add_source : list jstr; drop_source : list jstr; add_merge : list jstr; drop_merge : list jstr; withheld : list jstr
}.
Definition change_of (i : LinkObservationInput) (sources merges : list jstr) : Change :=
  let new := normalizeShas (li_sourceShas i) in
  let mergeSha := to_list (normalizeSha (li_mergeSha i)) in
  let gone := minus sources new in
  mkChange (minus new sources) (if li_commitsComplete i then gone else []) (minus mergeSha merges)
    (if li_pullRequestAuthoritative i then minus merges mergeSha else []) (if li_commitsComplete i then [] else gone).
Definition apply_change (i : LinkObservationInput) (c : Change) (db : LinkDb) : LinkDb :=
  let r := li_repositoryId i in
  let n := li_prNumber i in
  let v := li_observedVersion i in
  delete_links r n merge (drop_merge c) (insert_links r n v merge (add_merge c)
    (delete_links r n source (drop_source c) (insert_links r n v source (add_source c) db))).

Definition adoptLinkObservation (now : Z) (i : LinkObservationInput) (db : LinkDb) : LinkDb * AdoptionResult :=
  let new := normalizeShas (li_sourceShas i) in
  let mergeSha := normalizeSha (li_mergeSha i) in
  let key := (li_repositoryId i, li_prNumber i) in
  let existing := observations db !! key in
  let '(sources, merges) := currentLinks (li_repositoryId i) (li_prNumber i) db in
  let adopt :=
    let c := change_of i sources merges in
    let added := add_source c ++ add_merge c in
    let removed := drop_source c ++ drop_merge c in
    let affected := remove_dups (added ++ removed) in
    (set_observations (<[key := observation_of now i (length new) existing]> (observations db)) (apply_change i c db),
     mkAdoption (negb (bool_decide (affected = []))) adopted added removed affected (verification_of i) (withheld c)) in
  match existing with
  | Some o =>
    if li_observedVersion i <? observed_version o then (db, mkAdoption false stale [] [] [] (verification_state o) [])
    else if observed_version o =? li_observedVersion i then
      if same_set sources new && same_set merges (to_list mergeSha)
      then (db, mkAdoption false idempotent [] [] [] (verification_state o) [])
      else (set_observations (<[key := mark_conflict now o]> (observations db)) db,
            mkAdoption false conflicting [] [] [] conflict (sources ++ merges))
    else adopt
  | None => adopt
  end.

(** ** Generations *)

Definition new_link_row (now : Z) : CommitLinkStateRow := mkLinkRow 1 0 None ready None None now 0 None None.
(** [ON CONFLICT DO UPDATE] of a new generation; a lease goes on. *)
Definition bump_row (now : Z) (o : option CommitLinkStateRow) : CommitLinkStateRow :=
  match o with
  | None => new_link_row now
  | Some c =>
    let held := bool_decide (state c = leased) in
    mkLinkRow (generation c + 1) (projected_generation c) (projected_numbers c) (if held then leased else ready) (lease_until c)
      (lease_token c) (if held then available_at c else now) (if held then attempt_count c else 0) (last_reason c) (conflict_at c)
  end.
Definition bump_all (now repositoryId : Z) (shas : list jstr) (db : LinkDb) : LinkDb :=
  set_states (foldr (fun sha m => <[(repositoryId, sha) := bump_row now (m !! (repositoryId, sha))]> m) (states db) shas) db.
Definition bumpCommitLinkGenerations (now repositoryId : Z) (commitShas : list jstr) (db : LinkDb) : LinkDb * nat :=
  let shas := normalizeShas commitShas in (bump_all now repositoryId shas db, length shas).
Definition has_source (repositoryId : Z) (db : LinkDb) (sha : jstr) : bool :=
  existsb (fun p : LinkKey * Z => let '(r, pr, s, e) := p.1 in (r =? repositoryId) && jeqb s sha && bool_decide (e = source))
    (map_to_list (links db)).
Definition requeueChainChangedCommitLinks (now repositoryId : Z) (commitShas : list jstr) (db : LinkDb) : LinkDb * nat :=
  let shas := List.filter (has_source repositoryId db) (normalizeShas commitShas) in
  (bump_all now repositoryId shas db, length shas).
Definition create_missing (now repositoryId : Z) (shas : list jstr) (db : LinkDb) : LinkDb * nat :=
  let missing := List.filter (fun sha => bool_decide (states db !! (repositoryId, sha) = None)) shas in
  (set_states (foldr (fun sha m => <[(repositoryId, sha) := new_link_row now]> m) (states db) missing) db, length missing).
Definition ensureCommitLinkStates (now repositoryId : Z) (commitShas : list jstr) (db : LinkDb) : LinkDb * nat :=
  create_missing now repositoryId (normalizeShas commitShas) db.

Definition behind (c : CommitLinkStateRow) : bool := projected_generation c <? generation c.
Definition repair_row (now : Z) (c : CommitLinkStateRow) : CommitLinkStateRow :=
  let held := bool_decide (state c = leased) in
  mkLinkRow (generation c + 1) (projected_generation c) (projected_numbers c) (if held then leased else ready) (lease_until c)
    (lease_token c) (if held then available_at c else now) (if held then attempt_count c else 0)
    (if held then last_reason c else Some (js "repair_requeue")) (conflict_at c).
(** [UPDATE commit_link_state SET f WHERE p]. *)
Definition update_states (p : Commit -> CommitLinkStateRow -> bool) (f : Commit -> CommitLinkStateRow -> CommitLinkStateRow)
    (db : LinkDb) : LinkDb :=
  set_states (map_imap (fun k c => Some (if p k c then f k c else c)) (states db)) db.
Definition states_where (p : Commit -> CommitLinkStateRow -> bool) (db : LinkDb) : nat :=
  length (List.filter (fun kc => p kc.1 kc.2) (map_to_list (states db))).
Record Requeued : Set := mkRequeued { created : nat; bumped : nat; alreadyQueued : nat }.
Definition of_commits (repositoryId : Z) (shas : list jstr) (k : Commit) : bool := (k.1 =? repositoryId) && mem k.2 shas.
Definition settled_or_parked (c : CommitLinkStateRow) : bool := negb (behind c) || bool_decide (state c = parked).
Definition requeueCommitLinks (now repositoryId : Z) (commitShas : list jstr) (db : LinkDb) : LinkDb * Requeued :=
  match normalizeShas commitShas with
  | [] => (db, mkRequeued 0 0 0)
  | shas =>
    let queued := states_where (fun k c => of_commits repositoryId shas k && behind c
                                           && bool_decide (state c ∈ [ready; retry; leased])) db in
    let '(db, n) := create_missing now repositoryId shas db in
    let p k c := of_commits repositoryId shas k && settled_or_parked c in
    (update_states p (fun _ => repair_row now) db, mkRequeued n (states_where p db) queued)
  end.

(** ** Leases *)

Definition due (now : Z) (only : option Z) (k : Commit) (c : CommitLinkStateRow) : bool :=
  bool_decide (state c ∈ [ready; retry]) && (available_at c <=? now) && behind c
  && match only with Some r => k.1 =? r | None => true end.
(** The order of hexadecimal texts. *)
Fixpoint sha_le (a b : jstr) : bool :=
  match a, b with
  | [], _ => true
  | _ :: _, [] => false
  | x :: a, y :: b => (x <? y)%N || ((x =? y)%N && sha_le a b)
  end.
Definition sha_order (a b : jstr) : Prop := sha_le a b = true.
#[export] Instance sha_order_dec : RelDecision sha_order.
Proof. intros a b. unfold sha_order. apply _. Defined.
Definition claim_order (a b : Commit * CommitLinkStateRow) : Prop :=
  available_at a.2 < available_at b.2 \/
  (available_at a.2 = available_at b.2 ∧ (a.1.1 < b.1.1 \/ (a.1.1 = b.1.1 ∧ sha_le a.1.2 b.1.2 = true))).
#[export] Instance claim_order_dec : RelDecision claim_order.
Proof. intros a b. unfold claim_order. apply _. Defined.
Definition lease_row (now leaseMs : Z) (token : jstr) (c : CommitLinkStateRow) : CommitLinkStateRow :=
  mkLinkRow (generation c) (projected_generation c) (projected_numbers c) leased (Some (now + leaseMs)) (Some token)
    (available_at c) (attempt_count c + 1) (last_reason c) (conflict_at c).
(** The due rows that nobody else has locked, the longest waiting first; [token] is [gen_random_uuid]. *)
Definition claimDueCommitLinks (limit leaseMs : Z) (only : option Z) (locked : Commit -> bool) (token : Commit -> jstr) (now : Z)
    (db : LinkDb) : LinkDb * list (Commit * CommitLinkStateRow) :=
  if limit <? 1 then (db, [])
  else
    let rows := take (Z.to_nat limit)
      (merge_sort claim_order (List.filter (fun kc => due now only kc.1 kc.2 && negb (locked kc.1)) (map_to_list (states db)))) in
    let claimed := map (fun kc => (kc.1, lease_row now leaseMs (token kc.1) kc.2)) rows in
    (set_states (foldr (fun kc m => <[kc.1 := kc.2]> m) (states db) claimed) db, claimed).

Record CommitLinkLease : Set := mkLease { ls_repositoryId : Z; ls_commitSha : jstr; ls_leaseToken : jstr }.
Definition lease_key (l : CommitLinkLease) : Commit := (ls_repositoryId l, ls_commitSha l).
Definition holds (l : CommitLinkLease) (k : Commit) (c : CommitLinkStateRow) : bool :=
  bool_decide (k = lease_key l) && bool_decide (lease_token c = Some (ls_leaseToken l)) && bool_decide (state c = leased).
Definition complete_row (now g : Z) (ns : list Z) (c : CommitLinkStateRow) : CommitLinkStateRow :=
  mkLinkRow (generation c) (Z.max (projected_generation c) g) (Some ns) (if g <? generation c then ready else done_) None None now 0
    None (conflict_at c).
(** Completing above the generation of the row would violate its check: [None]. *)
Definition completeCommitLink (l : CommitLinkLease) (g : Z) (ns : list Z) (now : Z) (db : LinkDb) : option (LinkDb * bool) :=
  match states db !! lease_key l with
  | Some c => if holds l (lease_key l) c
              then if generation c <? g then None
                   else Some (set_states (<[lease_key l := complete_row now g ns c]> (states db)) db, true)
              else Some (db, false)
  | None => Some (db, false)
  end.
Inductive CommitLinkRelease : Set := rl_retry | rl_parked | rl_ready.
Definition release_state (r : CommitLinkRelease) : CommitLinkWorkState :=
  match r with rl_retry => retry | rl_parked => parked | rl_ready => ready end.
Definition release_row (to : CommitLinkRelease) (availableAt : Z) (reason : option jstr) (is_conflict : bool) (now : Z)
    (c : CommitLinkStateRow) : CommitLinkStateRow :=
  mkLinkRow (generation c) (projected_generation c) (projected_numbers c) (release_state to) None None availableAt (attempt_count c)
    (take 200 <$> reason) (if is_conflict then Some now else conflict_at c).
Definition releaseCommitLink (l : CommitLinkLease) (to : CommitLinkRelease) (availableAt : Z) (reason : option jstr)
    (is_conflict : bool) (now : Z) (db : LinkDb) : LinkDb * bool :=
  match states db !! lease_key l with
  | Some c => if holds l (lease_key l) c
              then (set_states (<[lease_key l := release_row to availableAt reason is_conflict now c]> (states db)) db, true)
              else (db, false)
  | None => (db, false)
  end.
Definition expired (now : Z) (c : CommitLinkStateRow) : bool :=
  bool_decide (state c = leased) && match lease_until c with Some u => u <? now | None => false end.
Definition expired_row (now : Z) (c : CommitLinkStateRow) : CommitLinkStateRow :=
  mkLinkRow (generation c) (projected_generation c) (projected_numbers c) retry None None now (attempt_count c)
    (Some (js "lease_expired")) (conflict_at c).
Definition reclaimExpiredCommitLinkLeases (now : Z) (db : LinkDb) : LinkDb * nat :=
  (update_states (fun _ => expired now) (fun _ => expired_row now) db, states_where (fun _ => expired now) db).

(** ** Reading *)

Definition listLinkedPullRequestNumbers (repositoryId : Z) (commitSha : jstr) (db : LinkDb) : list Z :=
  match normalizeSha (Some commitSha) with Some sha => effective_numbers (repositoryId, sha) db | None => [] end.
Definition listLinkedPullRequestNumbersBatch (repositoryId : Z) (commitShas : list jstr) (db : LinkDb) : list (jstr * list Z) :=
  map (fun sha => (sha, effective_numbers (repositoryId, sha) db)) (normalizeShas commitShas).
Definition readCommitLinkSets (repositoryId : Z) (commitSha : jstr) (db : LinkDb) : list Z * list Z :=
  match normalizeSha (Some commitSha) with
  | Some sha =>
    let effective := effective_numbers (repositoryId, sha) db in
    (effective, List.filter (fun n => negb (bool_decide (n ∈ effective))) (raw_numbers (repositoryId, sha) db))
  | None => ([], [])
  end.
Definition listCommitsWithMergeEvidence (repositoryId : Z) (commitShas : list jstr) (db : LinkDb) : list jstr :=
  List.filter (fun sha => bool_decide (linked (fun '(_, _, _, e) => bool_decide (e = merge)) (repositoryId, sha) db <> []))
    (normalizeShas commitShas).
Definition findCommitLinkState (repositoryId : Z) (commitSha : jstr) (db : LinkDb) : option CommitLinkStateRow :=
  sha ← normalizeSha (Some commitSha); states db !! (repositoryId, sha).
Definition findLinkObservation (repositoryId prNumber : Z) (db : LinkDb) : option LinkObservationRow :=
  observations db !! (repositoryId, prNumber).
(** The links of a commit whose observation is not verified. *)
Definition unverified_links (c : Commit) (db : LinkDb) : list Z :=
  linked (fun k => effective_link k db
            && match observations db !! (k.1.1.1, k.1.1.2) with
               | Some o => negb (bool_decide (verification_state o = verified))
               | None => true
               end) c db.
Record CommitLinkProjection : Set := mkLinkProjection { lp_generation : Z; lp_numbers : list Z; lp_verified : bool }.
Definition readCommitLinkProjection (repositoryId : Z) (commitSha : jstr) (db : LinkDb) : option CommitLinkProjection :=
  sha ← normalizeSha (Some commitSha);
  c ← states db !! (repositoryId, sha);
  Some (mkLinkProjection (generation c) (effective_numbers (repositoryId, sha) db)
          (bool_decide (unverified_links (repositoryId, sha) db = []))).
Definition listEffectiveSourceShas (repositoryId : Z) (prNumbers : list Z) (db : LinkDb) : list (Z * list jstr) :=
  List.filter (fun p => negb (bool_decide (p.2 = [])))
    (map (fun n => (n, merge_sort sha_order
                         (omap (fun p : LinkKey * Z => let '(r, pr, sha, e) := p.1 in
                                  if (r =? repositoryId) && (pr =? n) && bool_decide (e = source) && effective_link p.1 db
                                  then Some (ascii_lower sha) else None) (map_to_list (links db)))))
       (remove_dups prNumbers)).
Definition countCommitLinks (repositoryId : Z) (db : LinkDb) : nat * nat :=
  let shas := omap (fun p : LinkKey * Z => let '(r, _, sha, _) := p.1 in if r =? repositoryId then Some sha else None)
                (map_to_list (links db)) in
  (length (remove_dups shas), length shas).
Definition countPendingCommitLinks (only : option Z) (st : CommitLinkWorkState) (db : LinkDb) : nat :=
  states_where (fun k c => behind c && match only with Some r => k.1 =? r | None => true end && bool_decide (state c = st)) db.

(** ** Links of a pull request *)

Definition has_link (k : LinkKey) (db : LinkDb) : Prop := is_Some (links db !! k).

Lemma evidence_of_elem r n e sha db : sha ∈ evidence_of r n e db <-> has_link (r, n, sha, e) db.
Proof.
  unfold evidence_of, has_link. rewrite list_elem_of_omap. split.
  - intros ([[[[r' n'] sha'] e'] v] & Hin & He). cbn [fst] in He. destruct (_ && _) eqn:E; [|done]. injection He as ->.
    apply andb_prop in E as [[->%Z.eqb_eq ->%Z.eqb_eq]%andb_prop ->%bool_decide_eq_true_1]. apply elem_of_map_to_list in Hin. by exists v.
  - intros [v Hv]. exists ((r, n, sha, e), v). split; [by apply elem_of_map_to_list|]. cbn [fst]. by rewrite !Z.eqb_refl, bool_decide_eq_true_2.
Qed.
Lemma evidence_of_nodup r n e db : NoDup (evidence_of r n e db).
Proof.
  unfold evidence_of. pose proof (NoDup_fst_map_to_list (links db)) as Hnd. revert Hnd. generalize (map_to_list (links db)).
  intros l. induction l as [|[[[[r' n'] sha'] e'] v] l IH]; intros Hnd; [constructor|]. apply NoDup_cons in Hnd as [Hni Hnd].
  cbn [omap list_omap fst]. destruct (_ && _) eqn:E; [|by apply IH]. constructor; [|by apply IH].
  apply andb_prop in E as [[->%Z.eqb_eq ->%Z.eqb_eq]%andb_prop ->%bool_decide_eq_true_1].
  intros ([[[[r2 n2] sha2] e2] v2] & Hin & He)%list_elem_of_omap. cbn [fst] in He. destruct (_ && _) eqn:E2; [|done]. injection He as ->.
  apply andb_prop in E2 as [[->%Z.eqb_eq ->%Z.eqb_eq]%andb_prop ->%bool_decide_eq_true_1].
  apply Hni. apply list_elem_of_fmap. by exists ((r, n, sha', e), v2).
Qed.
Lemma minus_elem x l k : x ∈ minus l k <-> x ∈ l ∧ x ∉ k.
Proof. unfold minus. rewrite list_elem_of_In, filter_In, <- list_elem_of_In. by rewrite negb_true_iff, mem_false. Qed.
Lemma to_list_elem {A} (o : option A) x : x ∈ to_list o <-> o = Some x.
Proof. destruct o; cbn; [rewrite list_elem_of_singleton|rewrite elem_of_nil]; naive_solver. Qed.
Lemma same_set_spec stored new : NoDup stored -> NoDup new -> same_set stored new = true <-> (forall x, x ∈ stored <-> x ∈ new).
Proof.
  intros Hs Hn. unfold same_set. rewrite andb_true_iff, Nat.eqb_eq, forallb_forall. split.
  - intros [Hl Hf]. assert (new ⊆ stored) as Hsub by (intros x Hx; by apply mem_elem, Hf, list_elem_of_In).
    intros x. assert (new ≡ₚ stored) as Hp by (apply submseteq_length_Permutation; [by apply NoDup_submseteq|lia]). by rewrite Hp.
  - intros He. split; [by apply Permutation_length, NoDup_Permutation|]. intros x Hx. apply mem_elem, He. by apply list_elem_of_In.
Qed.
Lemma normalizeShas_nodup l : NoDup (normalizeShas l).
Proof. apply NoDup_remove_dups. Qed.
Lemma to_list_nodup {A} (o : option A) : NoDup (to_list o).
Proof. destruct o; [apply NoDup_singleton|constructor]. Qed.

Lemma insert_links_lookup r n v e shas db k :
  links (insert_links r n v e shas db) !! k =
  if decide (k = (r, n, k.1.2, e) ∧ k.1.2 ∈ shas) then Some v else links db !! k.
Proof.
  unfold insert_links. cbn [links set_links]. induction shas as [|x shas IH]; cbn [foldr].
  - rewrite decide_False; [done|]. by intros [_ ?%elem_of_nil].
  - destruct (decide (k = (r, n, x, e))) as [->|Hne].
    + rewrite lookup_insert_eq, decide_True; [done|]. split; [done|by left].
    + rewrite lookup_insert_ne, IH by done. apply decide_ext. rewrite elem_of_cons. intuition congruence.
Qed.
Lemma delete_links_lookup r n e shas db k :
  links (delete_links r n e shas db) !! k =
  if decide (k = (r, n, k.1.2, e) ∧ k.1.2 ∈ shas) then None else links db !! k.
Proof.
  unfold delete_links. cbn [links set_links]. induction shas as [|x shas IH]; cbn [foldr].
  - rewrite decide_False; [done|]. by intros [_ ?%elem_of_nil].
  - destruct (decide (k = (r, n, x, e))) as [->|Hne].
    + rewrite lookup_delete_eq, decide_True; [done|]. split; [done|by left].
    + rewrite lookup_delete_ne, IH by done. apply decide_ext. rewrite elem_of_cons. intuition congruence.
Qed.

(** What adopting leaves of the links of its pull request. *)
Definition kept_links (i : LinkObservationInput) (db : LinkDb) (sha : jstr) (e : LinkEvidence) : Prop :=
  let before := has_link (li_repositoryId i, li_prNumber i, sha, e) db in
  match e with
  | source => sha ∈ normalizeShas (li_sourceShas i) \/ (li_commitsComplete i = false ∧ before)
  | merge => normalizeSha (li_mergeSha i) = Some sha \/ (li_pullRequestAuthoritative i = false ∧ before)
  end.
Definition adopts (i : LinkObservationInput) (db : LinkDb) : Prop :=
  match observations db !! (li_repositoryId i, li_prNumber i) with
  | Some o => observed_version o < li_observedVersion i
  | None => True
  end.
Definition changed_of (i : LinkObservationInput) (db : LinkDb) : Change :=
  change_of i (evidence_of (li_repositoryId i) (li_prNumber i) source db) (evidence_of (li_repositoryId i) (li_prNumber i) merge db).
Lemma has_link_insert r n v e shas db r' n' sha e' :
  has_link (r', n', sha, e') (insert_links r n v e shas db) <->
  (r' = r ∧ n' = n ∧ e' = e ∧ sha ∈ shas) \/ has_link (r', n', sha, e') db.
Proof.
  unfold has_link. rewrite insert_links_lookup. cbn [fst snd]. destruct (decide _) as [[[= -> -> ->] Hin]|Hn].
  - split; [|by eexists]. intros _. by left.
  - split; [by right|]. intros [(-> & -> & -> & Hin)|H]; [by destruct Hn|done].
Qed.
Lemma has_link_delete r n e shas db r' n' sha e' :
  has_link (r', n', sha, e') (delete_links r n e shas db) <->
  ~ (r' = r ∧ n' = n ∧ e' = e ∧ sha ∈ shas) ∧ has_link (r', n', sha, e') db.
Proof.
  unfold has_link. rewrite delete_links_lookup. cbn [fst snd]. destruct (decide _) as [[[= -> -> ->] Hin]|Hn].
  - split; [by intros [x Hx]|]. intros [Hn _]. by destruct Hn.
  - split; [|by intros [_ H]]. intros H. split; [|done]. intros (-> & -> & -> & Hin). by apply Hn.
Qed.
Lemma changed_links i db sha e :
  has_link (li_repositoryId i, li_prNumber i, sha, e) (apply_change i (changed_of i db) db) <-> kept_links i db sha e.
Proof.
  unfold apply_change, changed_of, change_of. cbn [add_source drop_source add_merge drop_merge].
  rewrite has_link_delete, has_link_insert, has_link_delete, has_link_insert. unfold kept_links.
  set (r := li_repositoryId i). set (n := li_prNumber i). set (new := normalizeShas _). set (m := normalizeSha _).
  destruct e.
  - pose proof (evidence_of_elem r n source sha db) as He. rewrite <- He.
    destruct (decide (sha ∈ new)), (decide (sha ∈ evidence_of r n source db)), (li_commitsComplete i);
      rewrite ?minus_elem, ?elem_of_nil; intuition congruence.
  - pose proof (evidence_of_elem r n merge sha db) as He. rewrite <- He.
    destruct (decide (m = Some sha)), (decide (sha ∈ evidence_of r n merge db)), (li_pullRequestAuthoritative i);
      rewrite ?minus_elem, ?elem_of_nil, ?to_list_elem; intuition congruence.
Qed.
Lemma changed_others i db r n sha e :
  (r, n) <> (li_repositoryId i, li_prNumber i) ->
  has_link (r, n, sha, e) (apply_change i (changed_of i db) db) <-> has_link (r, n, sha, e) db.
Proof.
  intros Hne. unfold apply_change, changed_of, change_of. cbn [add_source drop_source add_merge drop_merge].
  rewrite has_link_delete, has_link_insert, has_link_delete, has_link_insert. intuition congruence.
Qed.
(** A commit that is not affected has the links it had. *)
Lemma changed_affected i db sha e :
  let c := changed_of i db in
  sha ∉ remove_dups ((add_source c ++ add_merge c) ++ drop_source c ++ drop_merge c) ->
  has_link (li_repositoryId i, li_prNumber i, sha, e) (apply_change i c db) <->
  has_link (li_repositoryId i, li_prNumber i, sha, e) db.
Proof.
  cbv zeta. rewrite elem_of_remove_dups, !elem_of_app. intros Hn. unfold apply_change.
  rewrite has_link_delete, has_link_insert, has_link_delete, has_link_insert. intuition.
Qed.
Lemma adopt_cases now i db :
  let key := (li_repositoryId i, li_prNumber i) in
  let '(db', a) := adoptLinkObservation now i db in
  match ad_outcome a with
  | adopted => adopts i db ∧ links db' = links (apply_change i (changed_of i db) db) ∧
      observations db' = <[key := observation_of now i (length (normalizeShas (li_sourceShas i))) (observations db !! key)]> (observations db) ∧
      ad_affected a = remove_dups ((add_source (changed_of i db) ++ add_merge (changed_of i db)) ++
                                   drop_source (changed_of i db) ++ drop_merge (changed_of i db))
  | stale | idempotent => ~ adopts i db ∧ db' = db ∧ ad_affected a = []
  | conflicting => ∃ o, observations db !! key = Some o ∧ observed_version o = li_observedVersion i ∧
      db' = set_observations (<[key := mark_conflict now o]> (observations db)) db ∧ ad_affected a = []
  end ∧ states db' = states db ∧ sequence_branches db' = sequence_branches db ∧ sequence db' = sequence db.
Proof.
  cbv zeta. unfold adoptLinkObservation, adopts. cbn [currentLinks]. destruct (observations db !! _) as [o|] eqn:E; [|done].
  destruct (Z.ltb_spec (li_observedVersion i) (observed_version o)) as [Hlt|Hle]; cbn [ad_outcome ad_affected].
  { split; [|done]. split; [lia|done]. }
  destruct (Z.eqb_spec (observed_version o) (li_observedVersion i)) as [He|Hne].
  - destruct (same_set _ _ && same_set _ _); cbn [ad_outcome ad_affected]; (split; [|done]); [split; [lia|done]|by exists o].
  - cbn [ad_outcome ad_affected]. split; [|done]. split; [lia|]. done.
Qed.

(** ** Observations in any order *)

Definition adopt_all (l : list (Z * LinkObservationInput)) (db : LinkDb) : LinkDb :=
  foldl (fun db x => (adoptLinkObservation x.1 x.2 db).1) db l.
Definition decisive (r n : Z) (i : LinkObservationInput) : Prop :=
  li_repositoryId i = r ∧ li_prNumber i = n ∧ li_commitsComplete i = true ∧ li_pullRequestAuthoritative i = true.
Definition observed_links (i : LinkObservationInput) (sha : jstr) (e : LinkEvidence) : Prop :=
  match e with source => sha ∈ normalizeShas (li_sourceShas i) | merge => normalizeSha (li_mergeSha i) = Some sha end.
Lemma decisive_kept r n i db sha e : decisive r n i -> kept_links i db sha e <-> observed_links i sha e.
Proof. intros (_ & _ & Hc & Ha). unfold kept_links, observed_links. destruct e; rewrite ?Hc, ?Ha; naive_solver. Qed.

Lemma adopt_newest r n l db :
  l <> [] -> Forall (fun x => decisive r n x.2) l -> observations db !! (r, n) = None ->
  ∃ x o, x ∈ l ∧ (forall y, y ∈ l -> li_observedVersion y.2 <= li_observedVersion x.2) ∧
    observations (adopt_all l db) !! (r, n) = Some o ∧ observed_version o = li_observedVersion x.2 ∧
    forall sha e, has_link (r, n, sha, e) (adopt_all l db) <-> observed_links x.2 sha e.
Proof.
  intros Hne Hl H0. induction l as [|[now i] l IH] using rev_ind; [done|]. apply Forall_app in Hl as [Hl [Hi _]%Forall_cons].
  unfold adopt_all. rewrite foldl_snoc. fold (adopt_all l db). cbn [fst snd] in *. pose proof Hi as (Hr & Hn & _).
  pose proof (adopt_cases now i (adopt_all l db)) as Hc. cbv zeta in Hc. rewrite Hr, Hn in Hc.
  destruct (adoptLinkObservation now i (adopt_all l db)) as [db' a]. cbn [fst].
  assert (ad_outcome a = adopted -> (forall y, y ∈ l -> li_observedVersion y.2 <= li_observedVersion i) ->
    ∃ x o, x ∈ l ++ [(now, i)] ∧ (forall y, y ∈ l ++ [(now, i)] -> li_observedVersion y.2 <= li_observedVersion x.2) ∧
      observations db' !! (r, n) = Some o ∧ observed_version o = li_observedVersion x.2 ∧
      forall sha e, has_link (r, n, sha, e) db' <-> observed_links x.2 sha e) as Hnew.
  { intros Ho Hmax. rewrite Ho in Hc. destruct Hc as [(_ & Hlk & Hob & _) _]. exists (now, i). eexists. split; [apply elem_of_app; right; by left|].
    split; [intros y [Hy| ->%list_elem_of_singleton]%elem_of_app; [by apply Hmax|done]|].
    rewrite Hob, lookup_insert_eq. split; [done|]. split; [done|]. intros sha e. unfold has_link. rewrite Hlk.
    fold (has_link (r, n, sha, e) (apply_change i (changed_of i (adopt_all l db)) (adopt_all l db))).
    rewrite <- Hr at 1. rewrite <- Hn, changed_links. by eapply decisive_kept. }
  destruct (decide (l = [])) as [->|Hln].
  { apply Hnew; [|by intros y ?%elem_of_nil]. cbn [adopt_all foldl] in Hc. unfold adopts in Hc. rewrite Hr, Hn in Hc. rewrite H0 in Hc.
    destruct (ad_outcome a); [done|by destruct Hc as [[[]] _]..|by destruct Hc as [(o & ? & _) _]]. }
  destruct (IH Hln Hl) as (x & o & Hx & Hmax & Hob & Hv & Hlk). unfold adopts in Hc. rewrite Hr, Hn in Hc. rewrite Hob in Hc.
  assert (forall o', li_observedVersion i <= li_observedVersion x.2 -> observations db' !! (r, n) = Some o' ->
    observed_version o' = observed_version o -> links db' = links (adopt_all l db) ->
    ∃ x o, x ∈ l ++ [(now, i)] ∧ (forall y, y ∈ l ++ [(now, i)] -> li_observedVersion y.2 <= li_observedVersion x.2) ∧
      observations db' !! (r, n) = Some o ∧ observed_version o = li_observedVersion x.2 ∧
      forall sha e, has_link (r, n, sha, e) db' <-> observed_links x.2 sha e) as Hold.
  { intros o' Hle Ho' Hv' Hl'. exists x, o'. split; [apply elem_of_app; by left|].
    split; [intros y [Hy| ->%list_elem_of_singleton]%elem_of_app; [by apply Hmax|done]|]. split; [done|]. split; [congruence|].
    intros sha e. unfold has_link. rewrite Hl'. apply Hlk. }
  destruct (ad_outcome a) eqn:Ho; destruct Hc as [Hc _].
  - apply Hnew; [done|]. intros y Hy. apply Hmax in Hy. destruct Hc as [Hc _]. lia.
  - destruct Hc as (Hc & -> & _). apply (Hold o); [lia|done..].
  - destruct Hc as (Hc & -> & _). apply (Hold o); [lia|done..].
  - destruct Hc as (o1 & [= <-] & Hv1 & -> & _). apply (Hold (mark_conflict now o)); [lia| |done|done].
    cbn [observations set_observations]. by rewrite lookup_insert_eq.
Qed.

(** ** Effective numbers *)

Lemma sorted_numbers_elem n l : n ∈ sorted_numbers l <-> n ∈ l.
Proof. unfold sorted_numbers. by rewrite merge_sort_Permutation, elem_of_remove_dups. Qed.
Lemma sorted_numbers_sorted l : StronglySorted Z.le (sorted_numbers l) ∧ NoDup (sorted_numbers l).
Proof.
  unfold sorted_numbers. split; [apply (StronglySorted_merge_sort Z.le)|]. rewrite merge_sort_Permutation. apply NoDup_remove_dups.
Qed.
Lemma sorted_unique l k :
  StronglySorted Z.le l -> NoDup l -> StronglySorted Z.le k -> NoDup k -> (forall n, n ∈ l <-> n ∈ k) -> l = k.
Proof.
  intros Hl Hnl Hk Hnk He. apply (StronglySorted_unique Z.le); [done..|]. by apply NoDup_Permutation.
Qed.
Lemma sorted_numbers_ext l k : (forall n, n ∈ l <-> n ∈ k) -> sorted_numbers l = sorted_numbers k.
Proof.
  intros He. destruct (sorted_numbers_sorted l) as [? ?], (sorted_numbers_sorted k) as [? ?]. apply sorted_unique; try done.
  intros n. by rewrite !sorted_numbers_elem.
Qed.
Lemma linked_elem ok c db n : n ∈ linked ok c db <-> ∃ e, has_link (c.1, n, c.2, e) db ∧ ok (c.1, n, c.2, e) = true.
Proof.
  destruct c as [r sha]. unfold linked, has_link. rewrite list_elem_of_omap. cbn [fst snd]. split.
  - intros ([[[[r' n'] sha'] e] v] & Hin%elem_of_map_to_list & He). cbn [fst] in He. destruct (_ && _) eqn:E; [|done]. injection He as ->.
    apply andb_prop in E as [[= -> ->]%bool_decide_eq_true_1 Hok]. exists e. split; [by exists v|done].
  - intros (e & [v Hv] & Hok). exists ((r, n, sha, e), v). split; [by apply elem_of_map_to_list|]. cbn [fst]. by rewrite bool_decide_eq_true_2, Hok.
Qed.
Lemma effective_numbers_elem c db n :
  n ∈ effective_numbers c db <-> ∃ e, has_link (c.1, n, c.2, e) db ∧ effective_on (chain_rows_of_link c.1 c.2 db) n e = true.
Proof. unfold effective_numbers. by rewrite sorted_numbers_elem, linked_elem. Qed.
Lemma has_source_intro r n sha db : has_link (r, n, sha, source) db -> has_source r db sha = true.
Proof.
  intros [v Hv]. unfold has_source. apply existsb_exists. exists ((r, n, sha, source), v).
  split; [by apply list_elem_of_In, elem_of_map_to_list|]. cbn [fst]. by rewrite Z.eqb_refl, jeqb_refl, bool_decide_eq_true_2.
Qed.
(** Chains that name the same pull requests for a commit. *)
Definition same_chain (r : Z) (sha : jstr) (db db' : LinkDb) : Prop :=
  forall o, o ∈ chain_rows_of_link r sha db' <-> o ∈ chain_rows_of_link r sha db.
Lemma effective_on_ext l k pr e : (forall o, o ∈ l <-> o ∈ k) -> effective_on l pr e = effective_on k pr e.
Proof.
  intros He. destruct e; [|done]. cbn [effective_on].
  destruct l as [|x l], k as [|y k]; [done| | |by apply bool_decide_ext].
  - exfalso. apply (not_elem_of_nil y), He. by left.
  - exfalso. apply (not_elem_of_nil x), He. by left.
Qed.
(** The set of a commit depends on its links and its chain rows only; on these when it has source links. *)
Lemma effective_numbers_ext c db db' :
  (forall n e, has_link (c.1, n, c.2, e) db' <-> has_link (c.1, n, c.2, e) db) ->
  (has_source c.1 db c.2 = true -> same_chain c.1 c.2 db db') ->
  effective_numbers c db' = effective_numbers c db.
Proof.
  intros Hl Hc. apply sorted_numbers_ext. intros n. rewrite !linked_elem. unfold effective_link.
  split; intros ([] & Hk & Hok); try (exists merge; split; [by apply Hl|done]); exists source; (split; [by apply Hl|]).
  - rewrite <- Hok. symmetry. apply effective_on_ext, Hc. by eapply has_source_intro, Hl.
  - rewrite <- Hok. apply effective_on_ext, Hc. by eapply has_source_intro.
Qed.

(** ** How the tables move *)

Record row_ok (c : CommitLinkStateRow) : Prop := {
  ro_generation : 1 <= generation c; ro_projected : 0 <= projected_generation c <= generation c;
  ro_lease : state c = leased <-> is_Some (lease_token c)
}.
Definition settled (c : CommitLinkStateRow) : Prop := projected_generation c = generation c.
(** What every statement but a completion does to a row. *)
Definition row_moves (o o' : option CommitLinkStateRow) : Prop :=
  match o, o' with
  | None, None => True
  | None, Some c' => row_ok c' ∧ ~ settled c'
  | Some c, Some c' => generation c <= generation c' ∧ (row_ok c -> row_ok c') ∧
      (row_ok c -> settled c' -> settled c ∧ generation c = generation c')
  | Some _, None => False
  end.
Lemma row_moves_refl o : row_moves o o.
Proof. by destruct o. Qed.
Lemma row_moves_trans o1 o2 o3 : row_moves o1 o2 -> row_moves o2 o3 -> row_moves o1 o3.
Proof.
  destruct o1 as [a|], o2 as [b|], o3 as [c|]; cbn; try done.
  - intros (A1 & A2 & A3) (B1 & B2 & B3). split; [lia|]. split; [by auto|]. intros Ha Hc. destruct (B3 (A2 Ha) Hc) as [Hb He].
    destruct (A3 Ha Hb) as [? ?]. split; [done|congruence].
  - intros [A1 A2] (B1 & B2 & B3). split; [by auto|]. intros Hc. by destruct (B3 A1 Hc).
Qed.
Lemma bump_row_moves now o : row_moves o (Some (bump_row now o)).
Proof.
  destruct o as [c|]; cbn.
  - split; [lia|]. split.
    + intros [H1 H2 H3]. split; cbn [generation projected_generation state lease_token]; [lia|lia|].
      rewrite <- H3. destruct (bool_decide (state c = leased)) eqn:E; [by apply bool_decide_eq_true_1 in E|].
      apply bool_decide_eq_false_1 in E. by split.
    + intros [H1 H2 _] Hs. unfold settled in Hs. cbn [generation projected_generation] in Hs. lia.
  - split; [|done]. split; cbn; [lia|lia|]. split; [done|by intros [? ?]].
Qed.
Lemma new_row_moves now : row_moves None (Some (new_link_row now)).
Proof. exact (bump_row_moves now None). Qed.

Record link_moves (db db' : LinkDb) : Prop := {
  lm_rows c : row_moves (states db !! c) (states db' !! c);
  lm_sets c row row' : states db !! c = Some row -> states db' !! c = Some row' -> generation row' = generation row ->
    effective_numbers c db' = effective_numbers c db
}.
Lemma link_moves_refl db : link_moves db db.
Proof. split; [intros c; apply row_moves_refl|done]. Qed.
Lemma link_moves_trans db1 db2 db3 : link_moves db1 db2 -> link_moves db2 db3 -> link_moves db1 db3.
Proof.
  intros [A1 A2] [B1 B2]. split; [intros c; by eapply row_moves_trans|]. intros c r1 r3 H1 H3 He. specialize (A1 c). specialize (B1 c).
  rewrite H1 in A1. rewrite H3 in B1. destruct (states db2 !! c) as [r2|] eqn:H2; [|done]. cbn in A1, B1.
  assert (generation r2 = generation r1 ∧ generation r3 = generation r2) as [E1 E2] by lia.
  by rewrite (B2 c r2 r3 H2 H3 E2), (A2 c r1 r2 H1 H2 E1).
Qed.
Lemma states_move db m : (forall c, row_moves (states db !! c) (m !! c)) -> link_moves db (set_states m db).
Proof. intros H. split; [done|]. by intros. Qed.

Lemma bump_all_rows (now r : Z) (shas : list jstr) (m : gmap Commit CommitLinkStateRow) (c : Commit) :
  row_moves (m !! c) (foldr (fun sha m => <[(r, sha) := bump_row now (m !! (r, sha))]> m) m shas !! c).
Proof.
  induction shas as [|sha shas IH]; [apply row_moves_refl|]. cbn [foldr]. eapply row_moves_trans; [exact IH|].
  destruct (decide (c = (r, sha))) as [->|Hne]; [|by rewrite lookup_insert_ne; [apply row_moves_refl|]].
  rewrite lookup_insert_eq. apply bump_row_moves.
Qed.
Lemma bump_all_moves (now r : Z) (shas : list jstr) db : link_moves db (bump_all now r shas db).
Proof. apply states_move. intros c. apply bump_all_rows. Qed.
Lemma bump_all_above (now r : Z) (shas : list jstr) db sha row row' :
  sha ∈ shas -> states db !! (r, sha) = Some row -> states (bump_all now r shas db) !! (r, sha) = Some row' ->
  generation row < generation row'.
Proof.
  unfold bump_all. cbn [states set_states]. intros Hin Hrow. revert row'. induction shas as [|x shas IH]; [by apply elem_of_nil in Hin|].
  cbn [foldr]. intros row'. destruct (decide (x = sha)) as [->|Hne].
  - rewrite lookup_insert_eq. intros [= <-]. pose proof (bump_all_rows now r shas (states db) (r, sha)) as Hm. rewrite Hrow in Hm.
    destruct (foldr _ _ shas !! (r, sha)) as [mid|]; [|done]. cbn in Hm |- *. lia.
  - rewrite lookup_insert_ne by congruence. apply IH. apply elem_of_cons in Hin as [->|]; [done|assumption].
Qed.
Lemma create_missing_moves (now r : Z) (shas : list jstr) db : link_moves db (create_missing now r shas db).1.
Proof.
  apply states_move. intros c. cbn [fst]. assert (forall l, (forall sha, sha ∈ l -> states db !! (r, sha) = None) ->
    row_moves (states db !! c) (foldr (fun sha m => <[(r, sha) := new_link_row now]> m) (states db) l !! c)) as H.
  { induction l as [|sha l IH]; intros Hl; [apply row_moves_refl|]. cbn [foldr]. destruct (decide (c = (r, sha))) as [->|Hne].
    - rewrite lookup_insert_eq, Hl by exact (list_elem_of_here _ _). apply new_row_moves.
    - rewrite lookup_insert_ne by congruence. apply IH. intros x Hx. apply Hl. by right. }
  apply H. intros sha [_ Hs]%list_elem_of_In%filter_In. by apply bool_decide_eq_true_1 in Hs.
Qed.
Lemma update_states_moves p f db :
  (forall c row, states db !! c = Some row -> p c row = true -> row_moves (Some row) (Some (f c row))) ->
  link_moves db (update_states p f db).
Proof.
  intros H. apply states_move. intros c. rewrite map_lookup_imap. destruct (states db !! c) as [row|] eqn:E; [|done]. cbn [mbind option_bind].
  destruct (p c row) eqn:Ep; [by apply H|apply row_moves_refl].
Qed.

(** ** Theorems *)

(** [C23] Observations of one pull request can be delivered in any order and any number of times:
    when each of them is decisive and a version stands for one observation, the links are in the
    end those of the newest version, whichever order the observations were adopted in. *)
Theorem link_observations_converge r n l l' db db' :
  l <> [] -> (forall x, x ∈ l <-> x ∈ l') -> Forall (fun x => decisive r n x.2) l ->
  (forall x y, x ∈ l -> y ∈ l -> li_observedVersion x.2 = li_observedVersion y.2 -> x.2 = y.2) ->
  observations db !! (r, n) = None -> observations db' !! (r, n) = None ->
  ∃ x, x ∈ l ∧ (forall y, y ∈ l -> li_observedVersion y.2 <= li_observedVersion x.2) ∧
    forall sha e, (has_link (r, n, sha, e) (adopt_all l db) <-> observed_links x.2 sha e) ∧
                  (has_link (r, n, sha, e) (adopt_all l' db') <-> observed_links x.2 sha e).
Proof.
  intros Hne He Hd Hv H0 H0'. destruct (adopt_newest r n l db Hne Hd H0) as (x & o & Hx & Hmax & _ & _ & Hlk).
  destruct (adopt_newest r n l' db') as (x' & o' & Hx' & Hmax' & _ & _ & Hlk'); [| |done|].
  - intros ->. apply Hne. destruct l as [|y l]; [done|]. exfalso. apply (not_elem_of_nil y), He. by left.
  - rewrite Forall_forall in Hd |- *. intros y Hy. by apply Hd, He.
  - exists x. split; [done|]. split; [done|]. intros sha e. split; [apply Hlk|]. rewrite Hlk'.
    assert (x.2 = x'.2) as ->; [|done]. apply Hv; [done|by apply He|]. pose proof (Hmax x' (proj2 (He x') Hx')).
    pose proof (Hmax' x (proj1 (He x) Hx)). lia.
Qed.

(** *** Two observations of a pull request *)

Definition FIRST : jstr := repeat 97%N 40.
Definition SECOND : jstr := repeat 98%N 40.
Definition sample_observation (version : Z) (shas : list jstr) (complete : bool) : LinkObservationInput :=
  mkObservationInput 7 12 version shas None complete true None None false None None None None None.
Definition no_links : LinkDb :=
  mkLinkDb ∅ ∅ ∅ ∅ (SequenceStore.mkDb ∅ ∅ ∅ ∅ ∅).
Lemma link_observations_converge_witness :
  let l := [(5, sample_observation 100 [FIRST; SECOND] true); (6, sample_observation 200 [SECOND] true)] in
  ∃ x, x ∈ l ∧ (forall y, y ∈ l -> li_observedVersion y.2 <= li_observedVersion x.2) ∧
    forall sha e, (has_link (7, 12, sha, e) (adopt_all l no_links) <-> observed_links x.2 sha e) ∧
                  (has_link (7, 12, sha, e) (adopt_all (rev l) no_links) <-> observed_links x.2 sha e).
Proof.
  intros l. apply (link_observations_converge 7 12 l (rev l) no_links no_links).
  - done.
  - intros x. by rewrite !list_elem_of_In, <- in_rev.
  - repeat constructor.
  - intros x y Hx Hy. apply elem_of_cons in Hx as [->|Hx%list_elem_of_singleton]; apply elem_of_cons in Hy as [->|Hy%list_elem_of_singleton]; subst; done.
  - reflexivity.
  - reflexivity.
Defined.

(** An observation with a part of the commits withholds the others; delivered again, it is taken for
    a conflict: the links that were withheld are not in its list. *)
Example redelivered_partial_conflicts :
  let db := adopt_all [(5, sample_observation 100 [FIRST; SECOND] true); (6, sample_observation 200 [SECOND] false)] no_links in
  (evidence_of 7 12 source db, ad_outcome (adoptLinkObservation 7 (sample_observation 200 [SECOND] false) db).2)
  = ([SECOND; FIRST], conflicting).
Proof. vm_compute. reflexivity. Qed.
(** An observation that completes the one before with the same commits verifies the pull request and affects no commit. *)
Example verified_affects_nothing :
  let db := adopt_all [(5, sample_observation 100 [FIRST] false)] no_links in
  let '(db', a) := adoptLinkObservation 6 (sample_observation 200 [FIRST] true) db in
  (verification_state <$> observations db !! (7, 12), verification_state <$> observations db' !! (7, 12), ad_affected a)
  = (Some pending_refetch, Some verified, []).
Proof. vm_compute. reflexivity. Qed.
