(* ===== verification/CommitLinkSystem.v ===== *)
(** * The pull requests of a commit: from the tables to the index

    The runner that shows the links of a commit in the search index
    ([apps/pipeline-worker/src/commit-links.ts]): it claims a commit, reads its pull requests
    with their generation, writes them into the document with [applyCommitLinks] and records the
    result under its lease.  Here it runs together with the adoption of observations
    ([recordProjectionSnapshot] of [snapshot.ts]), with changes of the chains, with repairs and with
    the other writers of the index, and any of it may stop at any point. *)

From stdpp Require Import base option strings numbers gmap relations sorting list.
From Stdlib Require Import ZArith Lia.
From S2P Require Import Prelude JsString Json Partition QueryBuilder EsDocument EsProjection SequenceStore CommitLinkStore.
Open Scope Z_scope.

(** ** Transactions *)

(** A transaction that adopts an observation, and bumps the commits it affects with it. *)
Definition adopt_tx (now : Z) (i : LinkObservationInput) (db : LinkDb) : LinkDb * AdoptionResult :=
  let '(db, a) := adoptLinkObservation now i db in
  match ad_affected a with
  | [] => (db, a)
  | shas => ((bumpCommitLinkGenerations now (li_repositoryId i) shas db).1, a)
  end.
(** A transaction on the tables of the merge sequence, with the commits it asks to show again. *)
Definition chain_tx (now repositoryId : Z) (changed : list jstr) (sequence : SequenceStore.Db) (db : LinkDb) : LinkDb :=
  (requeueChainChangedCommitLinks now repositoryId changed
     (mkLinkDb (links db) (observations db) (states db) (sequence_branches db) sequence)).1.
Definition covers (repositoryId : Z) (changed : list jstr) (db db' : LinkDb) : Prop :=
  forall r sha, has_source r db sha = true -> same_chain r sha db db' \/ (r = repositoryId ∧ sha ∈ normalizeShas changed).

(** ** A round of the runner *)

Definition LINK_LEASE_MS : Z := 120000.
Definition LINK_CLAIM_LIMIT : Z := 32.
Definition LINK_DOCUMENT_WAIT_MS : Z := 5000.
Definition LINK_PARK_MS : Z := 5 * 60000.

Definition update_of (c : Commit) (p : CommitLinkProjection) : CommitLinks.CommitLinkUpdate :=
  CommitLinks.mkLinkUpdate c.1 c.2 (lp_numbers p) (lp_generation p) (if lp_verified p then CommitLinks.verified else CommitLinks.partial).
Definition lease_of (c : Commit) (row : CommitLinkStateRow) : CommitLinkLease := mkLease c.1 c.2 (default [] (lease_token row)).

(** What the runner records of an attempt; [retry_delay] is the jittered delay of an attempt, [None]
    an exception. *)
Definition settle (retry_delay : Z -> Z) (now : Z) (c : Commit) (row : CommitLinkStateRow) (p : CommitLinkProjection)
    (r : result jstr CommitLinks.CommitLinkOutcome) (db : LinkDb) : option LinkDb :=
  let lease := lease_of c row in
  let attempt := attempt_count row in
  let exhausted := MAX_RETRIES <=? attempt in
  let release to wait reason conflict := Some (releaseCommitLink lease to (now + wait) (Some reason) conflict now db).1 in
  let complete ns := fst <$> completeCommitLink lease (lp_generation p) ns now db in
  match r with
  | Err reason => release (if exhausted then rl_parked else rl_retry) (if exhausted then LINK_PARK_MS else retry_delay attempt)
                    (take 200 reason) false
  | Ok CommitLinks.no_document =>
    match lp_numbers p with
    | [] => complete []
    | _ => release (if exhausted then rl_parked else rl_retry) (if exhausted then LINK_PARK_MS else LINK_DOCUMENT_WAIT_MS)
             (js "document_missing") false
    end
  | Ok CommitLinks.conflict => release rl_parked LINK_PARK_MS (js "generation_conflict") true
  | Ok (CommitLinks.stale | CommitLinks.updated | CommitLinks.noop) => complete (lp_numbers p)
  end.

(** ** The state *)

Inductive Phase : Type :=
| ph_claimed
| ph_read (p : CommitLinkProjection)
| ph_applied (p : CommitLinkProjection) (r : result jstr CommitLinks.CommitLinkOutcome).
(** A commit that a worker has claimed, with the row it was given. *)
Record Working : Type := mkWorking { wk_commit : Commit; wk_row : CommitLinkStateRow; wk_phase : Phase }.
Record System (S : Type) : Type := mkSystem { cs_db : LinkDb; cs_es : S; cs_works : list Working }.
Arguments mkSystem {S} _ _ _.
Arguments cs_db {S} _.
Arguments cs_es {S} _.
Arguments cs_works {S} _.

Definition commit_key (c : Commit) : DocKey := (js_of_Z c.1, commitDocId c.1 c.2).
Definition INT_MAX : Z := 2147483647.

Section system.
Context {S : Type} `{DocServer S} (String_of : EsError -> jstr).
Implicit Types σ : System S.

Definition set_db (db : LinkDb) σ : System S := mkSystem db (cs_es σ) (cs_works σ).

(** What the other writers of the index do: they leave the links of a document alone, and a
    document they create has none. *)
Record other_write (s s' : S) : Prop := {
  ow_index n : es_index s' n = es_index s n;
  ow_kept i k d : es_doc s i k = Some d -> ∃ d', es_doc s' i k = Some d' ∧
    field d' CommitLinks.PR_LINKS_GENERATION = field d CommitLinks.PR_LINKS_GENERATION ∧
    field d' CommitLinks.PULL_REQUEST_NUMBERS = field d CommitLinks.PULL_REQUEST_NUMBERS;
  ow_new i k d' : es_doc s i k = None -> es_doc s' i k = Some d' -> field d' CommitLinks.PR_LINKS_GENERATION = JNull
}.

Inductive step : System S -> System S -> Prop :=
| cl_adopt now i σ : 0 < li_prNumber i <= INT_MAX -> step σ (set_db (adopt_tx now i (cs_db σ)).1 σ)
| cl_chain now repositoryId changed sequence σ : covers repositoryId changed (cs_db σ) (chain_tx now repositoryId changed sequence (cs_db σ)) ->
    step σ (set_db (chain_tx now repositoryId changed sequence (cs_db σ)) σ)
| cl_repair now repositoryId shas σ : step σ (set_db (requeueCommitLinks now repositoryId shas (cs_db σ)).1 σ)
| cl_ensure now repositoryId shas σ : step σ (set_db (ensureCommitLinkStates now repositoryId shas (cs_db σ)).1 σ)
| cl_reclaim now σ : step σ (set_db (reclaimExpiredCommitLinkLeases now (cs_db σ)).1 σ)
| cl_claim limit leaseMs only locked token now db rows σ :
    claimDueCommitLinks limit leaseMs only locked token now (cs_db σ) = (db, rows) ->
    step σ (mkSystem db (cs_es σ) (map (fun kc => mkWorking kc.1 kc.2 ph_claimed) rows ++ cs_works σ))
| cl_read c row p ws1 ws2 σ : cs_works σ = ws1 ++ mkWorking c row ph_claimed :: ws2 ->
    readCommitLinkProjection c.1 c.2 (cs_db σ) = Some p ->
    step σ (mkSystem (cs_db σ) (cs_es σ) (ws1 ++ mkWorking c row (ph_read p) :: ws2))
| cl_apply c row p t s r fs ws1 ws2 σ : cs_works σ = ws1 ++ mkWorking c row (ph_read p) :: ws2 ->
    CommitLinks.applyCommitLinks String_of (update_of c p) t (cs_es σ) = (s, (r, fs)) ->
    step σ (mkSystem (cs_db σ) s (ws1 ++ mkWorking c row (ph_applied p (match r with Ok o => Ok o | Err e => Err (String_of e) end)) :: ws2))
| cl_settle retry_delay now c row p r db ws1 ws2 σ : cs_works σ = ws1 ++ mkWorking c row (ph_applied p r) :: ws2 ->
    settle retry_delay now c row p r (cs_db σ) = Some db -> step σ (mkSystem db (cs_es σ) (ws1 ++ ws2))
| cl_drop w ws1 ws2 σ : cs_works σ = ws1 ++ w :: ws2 -> step σ (mkSystem (cs_db σ) (cs_es σ) (ws1 ++ ws2))
| cl_other s σ : other_write (cs_es σ) s -> step σ (mkSystem (cs_db σ) s (cs_works σ)).
End system.

(** ** Writing the links of a commit *)

Section writing.
Context {S : Type} `{DocServer S} (Hlaws : DocLaws S) (String_of : EsError -> jstr).
Import CommitLinks.

(** What sending the script of an update may do to a document. *)
Definition sent (ns : list Z) (g : Z) (st : CommitLinkState) (o o' : option Source) : Prop :=
  o' = o \/ ∃ d, o = Some d ∧ newer (field d PR_LINKS_GENERATION) g = Some false ∧ o' = Some (assign_links ns g st d).
Definition reached (g : Z) (o : option Source) : Prop :=
  ∃ d m, o = Some d ∧ field d PR_LINKS_GENERATION = JNum m ∧ g <= m.
Lemma assigned_generation ns g st d : field (assign_links ns g st d) PR_LINKS_GENERATION = JNum g.
Proof. exact (proj1 (assigned_fields (mkLinks ns g st) d)). Qed.
Lemma assigned_numbers ns g st d : field (assign_links ns g st d) PULL_REQUEST_NUMBERS = JArr (map JNum ns).
Proof. exact (proj2 (proj2 (assigned_fields (mkLinks ns g st) d))). Qed.
Lemma sent_trans ns g st o1 o2 o3 : sent ns g st o1 o2 -> sent ns g st o2 o3 -> sent ns g st o1 o3.
Proof.
  intros [-> |(d & -> & Hd & ->)] [-> |(d' & He & Hd' & ->)]; [by left|right; by exists d'|right; by exists d|].
  right. exists d. split; [done|]. split; [done|]. injection He as <-. f_equal.
  exact (assigned_twice (mkLinks ns g st) (mkLinks ns g st) d).
Qed.
Lemma sent_reached ns g st o o' m : sent ns g st o o' -> reached m o -> reached m o'.
Proof.
  intros [-> |(d & -> & Hd & ->)] (d1 & k & He & Hk & Hle); [by exists d1, k|]. injection He as <-.
  exists (assign_links ns g st d), g. split; [done|]. split; [apply assigned_generation|]. rewrite Hk in Hd. cbn [newer] in Hd.
  injection Hd as Hd. apply Z.ltb_ge in Hd. lia.
Qed.

Lemma links_send_spec ns g st key name s :
  let '(s', r) := send_script (link_script ns g st) key name s in
  (forall n, es_index s' n = es_index s n) ∧
  (forall i k, k <> key -> es_doc s' i k = es_doc s i k) ∧
  (forall i, sent ns g st (es_doc s i key) (es_doc s' i key)) ∧
  (forall r', r = Ok r' -> reached g (doc_named s' name key)).
Proof.
  unfold send_script. pose proof (law_update (mkUpdate name key (link_script ns g st) None) s) as [Hix Hother Hrep].
  destruct (es_update _ s) as [s' r]. cbn [fst snd uc_name uc_key] in *.
  assert (carried_out (mkUpdate name key (link_script ns g st) None) (doc_named s name key) = doc_named s' name key \/
          doc_named s' name key = doc_named s name key) as Hstep.
  { destruct r as [| | |e]; cbn [replied uc_upsert uc_script] in Hrep.
    - destruct Hrep as (_ & [? ?] & _). done.
    - destruct Hrep as (d & d' & -> & Hs & ->). left. cbn [carried_out uc_script]. by rewrite Hs.
    - destruct Hrep as (d & _ & _ & ->). by right.
    - destruct (document_missing e); [right; by destruct Hrep as (-> & _ & ->)|]. destruct Hrep as [He|He]; [by right|by left]. }
  assert (sent ns g st (doc_named s name key) (doc_named s' name key)) as Hsent.
  { destruct Hstep as [Hc| ->]; [|by left]. destruct (doc_named s name key) as [d|] eqn:Ed; cbn [carried_out uc_upsert uc_script] in Hc; [|by left].
    unfold link_script in Hc. destruct (newer (field d PR_LINKS_GENERATION) g) as [[]|] eqn:En; [by left| |by left].
    destruct (if _ && _ then _ else _) as [[]|]; [by left| |by left]. right. exists d. by rewrite <- Hc. }
  assert (forall n, es_index s' n = es_index s n) as Hi by (intros n; apply Hix).
  assert (forall i, sent ns g st (es_doc s i key) (es_doc s' i key)) as Hall.
  { intros i. unfold doc_named in Hsent. rewrite Hi in Hsent. destruct (decide (i = es_index s name)) as [-> |Hne]; [done|].
    rewrite Hother by congruence. by left. }
  assert (forall i k, k <> key -> es_doc s' i k = es_doc s i k) as Hrest by (intros i k Hk; apply Hother; congruence).
  assert (forall d, doc_named s name key = Some d -> link_script ns g st d = s_noop -> doc_named s' name key = Some d -> reached g (doc_named s' name key)) as Hnoop.
  { intros d Hd Hs Hd'. rewrite Hd'. unfold link_script in Hs. destruct (field d PR_LINKS_GENERATION) as [|b|m|x|x|x|x] eqn:Eg; cbn [newer] in Hs; try done.
    exists d, m. split; [done|]. split; [done|]. destruct (Z.ltb_spec g m); [lia|]. unfold jdec in Hs.
    destruct (bool_decide (JNum m = JNum g)) eqn:Em; [|done]. apply bool_decide_eq_true_1 in Em. injection Em as ->. lia. }
  destruct r as [| | |e]; (split; [done|]; split; [done|]; split; [done|]); try done; intros r' [= <-]; cbn [replied uc_upsert uc_script] in Hrep.
  - destruct Hrep as (_ & [? ?] & _). done.
  - destruct Hrep as (d & d' & Hd & Hs & Hd'). rewrite Hd'. unfold link_script in Hs. destruct (newer _ _) as [[]|]; [done| |done].
    destruct (if _ && _ then _ else _) as [[]|]; [done| |done]. injection Hs as <-. exists (assign_links ns g st d), g.
    split; [done|]. split; [apply assigned_generation|lia].
  - destruct Hrep as (d & Hd & Hs & Hd'). apply (Hnoop d Hd Hs). by rewrite Hd', Hd.
Qed.

Definition key_of (u : CommitLinkUpdate) : DocKey := (js_of_Z (repositoryId u), commitDocId (repositoryId u) (ascii_lower (commitSha u))).
Lemma dual_send_spec ns g st key t alias s :
  let '(s', (r, fs)) := dualWrite t alias (js "update") String_of (send_script (link_script ns g st) key) s in
  (forall n, es_index s' n = es_index s n) ∧
  (forall i k, k <> key -> es_doc s' i k = es_doc s i k) ∧
  (forall i, sent ns g st (es_doc s i key) (es_doc s' i key)) ∧
  (forall r', r = Ok r' -> reached g (doc_named s' alias key)).
Proof.
  unfold dualWrite. pose proof (links_send_spec ns g st key alias s) as Ha. destruct (send_script _ key alias s) as [s1 [r1|e1]]; [|done].
  destruct (shadowIndexOf t alias) as [shadow|]; [|done]. pose proof (links_send_spec ns g st key shadow s1) as Hb.
  destruct Ha as (A1 & A2 & A3 & A4). destruct (send_script _ key shadow s1) as [s2 [r2|e2]]; destruct Hb as (B1 & B2 & B3 & _);
    (split; [intros n; by rewrite B1|split; [intros i k Hk; by rewrite B2, A2|split; [intros i; by eapply sent_trans|]]]);
    intros r' [= <-]; unfold doc_named; rewrite B1; (eapply sent_reached; [apply B3|]); exact (A4 r1 eq_refl).
Qed.
(** What [applyCommitLinks] does: the document of the commit is as it was or has the update, in every
    index; a result that counts as done means that the served document has reached the generation. *)
Lemma apply_spec u t s :
  let ns := normalizeLinkNumbers (numbers u) in
  let '(s', (r, fs)) := applyCommitLinks String_of u t s in
  (forall n, es_index s' n = es_index s n) ∧
  (forall i k, k <> key_of u -> es_doc s' i k = es_doc s i k) ∧
  (forall i, sent ns (generation u) (state u) (es_doc s i (key_of u)) (es_doc s' i (key_of u))) ∧
  match r with
  | Ok (updated | noop | stale) => reached (generation u) (doc_named s' EsProjection.COMMIT_ALIAS (key_of u))
  | _ => True
  end.
Proof.
  cbv zeta. unfold applyCommitLinks, write. fold (key_of u). unfold get_source.
  pose proof (law_get EsProjection.COMMIT_ALIAS (key_of u) s) as Hget.
  assert (forall i, sent (normalizeLinkNumbers (numbers u)) (generation u) (state u) (es_doc s i (key_of u)) (es_doc s i (key_of u))) as Hid
    by (by left).
  destruct (es_get _ _ s) as [[d|]|e]; [| |destruct (bool_decide _)]; try done. specialize (Hget _ eq_refl).
  destruct (match json_num _ with Some g => _ | None => false end) eqn:Est.
  - split; [done|]. split; [done|]. split; [done|]. destruct (json_num (field d PR_LINKS_GENERATION)) as [m|] eqn:Em; [|done].
    exists d, m. split; [done|]. split; [by destruct (field d PR_LINKS_GENERATION); simplify_eq/=|]. apply Z.ltb_lt in Est. lia.
  - destruct (_ && _); [done|]. pose proof (dual_send_spec (normalizeLinkNumbers (numbers u)) (generation u) (state u) (key_of u) t EsProjection.COMMIT_ALIAS s) as Hd.
    destruct (dualWrite _ _ _ _ _ s) as [s' [[r|e] fs]]; destruct Hd as (D1 & D2 & D3 & D4); (split; [done|split; [done|split; [done|]]]); [|done].
    unfold outcome_of. destruct (is_noop r); exact (D4 r eq_refl).
Qed.
End writing.

(** ** Commits *)

Lemma SHA_lower x : SHA x = true -> ascii_lower x = x.
Proof.
  unfold SHA. intros [_ H]%andb_prop. unfold ascii_lower. rewrite <- (map_id x) at 2. apply map_ext_in. intros c Hc.
  apply hex_lower_char. by apply (proj1 (forallb_forall _ _) H).
Qed.
Lemma normalizeShas_elem x l : x ∈ normalizeShas l <-> SHA x = true ∧ ∃ y, y ∈ l ∧ ascii_lower y = x.
Proof.
  unfold normalizeShas. rewrite elem_of_remove_dups, list_elem_of_In, filter_In, <- list_elem_of_In, list_elem_of_fmap. naive_solver.
Qed.
Lemma normalizeSha_sha v x : normalizeSha v = Some x -> SHA x = true.
Proof. unfold normalizeSha. destruct v as [v|]; [|done]. destruct (SHA (ascii_lower v)) eqn:E; [|done]. by intros [= <-]. Qed.
Lemma commit_key_inj c c' : SHA c.2 = true -> SHA c'.2 = true -> commit_key c = commit_key c' -> c = c'.
Proof.
  destruct c as [r a], c' as [r' b]. unfold commit_key, commitDocId. cbn [fst snd]. intros Ha Hb [= Hr Hk].
  apply js_of_Z_injective in Hr as ->. apply app_inv_head in Hk. injection Hk as Hk. rewrite (SHA_lower a), (SHA_lower b) in Hk by done. by subst.
Qed.
Lemma key_of_update c p : key_of (update_of c p) = commit_key c.
Proof. unfold key_of, commit_key, commitDocId. cbn [update_of CommitLinks.repositoryId CommitLinks.commitSha]. by rewrite ascii_lower_idem. Qed.

(** ** The transactions on the tables *)

Definition links_ok (db : LinkDb) : Prop := forall k, has_link k db -> SHA k.1.2 = true ∧ 0 < k.1.1.2 <= INT_MAX.
Definition shas_ok (db : LinkDb) : Prop := forall c, is_Some (states db !! c) -> SHA c.2 = true.

Lemma kept_sha i db sha e : links_ok db -> kept_links i db sha e -> SHA sha = true.
Proof.
  intros Hok. unfold kept_links. destruct e.
  - intros [[? _]%normalizeShas_elem|[_ Hl]]; [done|]. by apply Hok in Hl as [? _].
  - intros [?%normalizeSha_sha|[_ Hl]]; [done|]. by apply Hok in Hl as [? _].
Qed.
Lemma affected_sha i db sha :
  let c := changed_of i db in
  links_ok db -> sha ∈ remove_dups ((add_source c ++ add_merge c) ++ drop_source c ++ drop_merge c) -> SHA sha = true.
Proof.
  cbv zeta. intros Hok. rewrite elem_of_remove_dups, !elem_of_app. unfold changed_of, change_of. cbn [add_source add_merge drop_source drop_merge].
  assert (forall e, sha ∈ evidence_of (li_repositoryId i) (li_prNumber i) e db -> SHA sha = true) as Hev.
  { intros e Hin%evidence_of_elem. by apply Hok in Hin as [? _]. }
  intros [[[Hin _]%minus_elem|[Hin _]%minus_elem]|[Hin|Hin]].
  - by apply normalizeShas_elem in Hin as [? _].
  - by apply to_list_elem, normalizeSha_sha in Hin.
  - destruct (li_commitsComplete i); [|by apply elem_of_nil in Hin]. apply minus_elem in Hin as [Hin _]. by eapply Hev.
  - destruct (li_pullRequestAuthoritative i); [|by apply elem_of_nil in Hin]. apply minus_elem in Hin as [Hin _]. by eapply Hev.
Qed.
Lemma bump_all_shas (now r : Z) (shas : list jstr) db c :
  is_Some (states (bump_all now r shas db) !! c) -> is_Some (states db !! c) \/ (c.1 = r ∧ c.2 ∈ shas).
Proof.
  unfold bump_all. cbn [states set_states]. induction shas as [|x shas IH]; cbn [foldr]; [by left|]. intros Hs.
  destruct (decide (c = (r, x))) as [->|Hne]; [right; split; [done|by left]|]. rewrite lookup_insert_ne in Hs by done.
  destruct (IH Hs) as [|[? ?]]; [by left|right; split; [done|by right]].
Qed.

Definition affected_by (c : Change) : list jstr := remove_dups ((add_source c ++ add_merge c) ++ drop_source c ++ drop_merge c).
Lemma adopted_sets i db db1 c :
  links db1 = links (apply_change i (changed_of i db) db) -> sequence_branches db1 = sequence_branches db -> sequence db1 = sequence db ->
  (c.1 = li_repositoryId i -> c.2 ∉ affected_by (changed_of i db)) -> effective_numbers c db1 = effective_numbers c db.
Proof.
  destruct c as [r sha]. cbn [fst snd]. intros Hlk Hbr Hsq Hna. apply effective_numbers_ext; cbn [fst snd].
  - intros n e. unfold has_link. rewrite Hlk. fold (has_link (r, n, sha, e) (apply_change i (changed_of i db) db)). fold (has_link (r, n, sha, e) db).
    destruct (decide ((r, n) = (li_repositoryId i, li_prNumber i))) as [[= -> ->]|Hne].
    + apply changed_affected. by apply Hna.
    + by apply changed_others.
  - intros _ o. unfold chain_rows_of_link. by rewrite Hbr, Hsq.
Qed.
Lemma adopted_links_ok i db db1 :
  links_ok db -> 0 < li_prNumber i <= INT_MAX -> links db1 = links (apply_change i (changed_of i db) db) -> links_ok db1.
Proof.
  intros Hl Hn Hlk [[[r n] sha] e] Hk. cbn [fst snd]. unfold has_link in Hk. rewrite Hlk in Hk.
  fold (has_link (r, n, sha, e) (apply_change i (changed_of i db) db)) in Hk.
  destruct (decide ((r, n) = (li_repositoryId i, li_prNumber i))) as [[= -> ->]|Hne].
  - apply changed_links in Hk. split; [by eapply kept_sha|done].
  - apply changed_others in Hk; [|done]. by apply Hl in Hk.
Qed.
(** The bump that goes with an adoption gives every commit it affects a new generation. *)
Lemma adopted_moves now i db db1 :
  links_ok db -> links db1 = links (apply_change i (changed_of i db) db) -> states db1 = states db ->
  sequence_branches db1 = sequence_branches db -> sequence db1 = sequence db ->
  link_moves db (bump_all now (li_repositoryId i) (normalizeShas (affected_by (changed_of i db))) db1).
Proof.
  intros Hl Hlk Hst Hbr Hsq. set (shas := normalizeShas _). split.
  - intros c. rewrite <- Hst. apply (lm_rows _ _ (bump_all_moves now (li_repositoryId i) shas db1)).
  - intros [r sha] row row' Hrow Hrow' He. rewrite <- Hst in Hrow. transitivity (effective_numbers (r, sha) db1); [reflexivity|].
    apply (adopted_sets i); [done..|]. cbn [fst snd]. intros -> Hin. enough (generation row < generation row') by lia.
    eapply bump_all_above; [|exact Hrow|exact Hrow']. apply normalizeShas_elem. pose proof (affected_sha i db sha Hl Hin) as Hsha.
    split; [done|]. exists sha. split; [exact Hin|by apply SHA_lower].
Qed.
Lemma adopt_tx_moves now i db :
  links_ok db -> shas_ok db -> 0 < li_prNumber i <= INT_MAX ->
  let db' := (adopt_tx now i db).1 in link_moves db db' ∧ links_ok db' ∧ shas_ok db'.
Proof.
  intros Hl Hs Hn. cbv zeta. unfold adopt_tx. pose proof (adopt_cases now i db) as Hc. cbv zeta in Hc.
  destruct (adoptLinkObservation now i db) as [db1 a]. cbn [fst].
  assert (ad_affected a = [] ∧ link_moves db db1 ∧ links_ok db1 ∧ shas_ok db1 \/ ad_outcome a = adopted) as [(Ha & Hsame)|Ho].
  { destruct Hc as [Hc _]. destruct (ad_outcome a); [by right| | |]; left.
    - destruct Hc as (_ & -> & Ha). split; [done|]. split; [apply link_moves_refl|done].
    - destruct Hc as (_ & -> & Ha). split; [done|]. split; [apply link_moves_refl|done].
    - destruct Hc as (o & _ & _ & -> & Ha). split; [done|]. split; [|done]. split; [intros c; apply row_moves_refl|done]. }
  { by rewrite Ha. }
  rewrite Ho in Hc. destruct Hc as [(_ & Hlk & _ & Haff) (Hst & Hbr & Hsq)]. fold (affected_by (changed_of i db)) in Haff.
  pose proof (adopted_links_ok i db db1 Hl Hn Hlk) as Hl1. pose proof (adopted_moves now i db db1 Hl Hlk Hst Hbr Hsq) as Hm. rewrite <- Haff in Hm.
  destruct (ad_affected a) as [|x l] eqn:Ea; cbn [fst bumpCommitLinkGenerations].
  - split; [by destruct db1|]. split; [done|]. intros c. rewrite Hst. apply Hs.
  - split; [exact Hm|]. split; [exact Hl1|]. intros c Hc. apply bump_all_shas in Hc as [Hc|[_ Hc]].
    + rewrite Hst in Hc. by apply Hs.
    + by apply normalizeShas_elem in Hc as [? _].
Qed.

Lemma chain_tx_moves now repositoryId changed sequence db :
  shas_ok db -> covers repositoryId changed db (chain_tx now repositoryId changed sequence db) ->
  let db' := chain_tx now repositoryId changed sequence db in link_moves db db' ∧ links db' = links db ∧ shas_ok db'.
Proof.
  intros Hs Hcov. cbv zeta. split; [|split; [done|]].
  - set (db0 := mkLinkDb (links db) (observations db) (states db) (sequence_branches db) sequence).
    set (shas := List.filter (has_source repositoryId db0) (normalizeShas changed)).
    change (chain_tx now repositoryId changed sequence db) with (bump_all now repositoryId shas db0) in *. split.
    + intros c. apply (lm_rows _ _ (bump_all_moves now repositoryId shas db0)).
    + intros [r sha] row row' Hrow Hrow' He. apply effective_numbers_ext; [done|]. cbn [fst snd]. intros Hsrc.
      destruct (Hcov r sha Hsrc) as [|[-> Hin]]; [done|]. enough (generation row < generation row') by lia.
      eapply (bump_all_above now repositoryId shas db0); [|exact Hrow|exact Hrow']. apply list_elem_of_In, filter_In.
      split; [by apply list_elem_of_In|done].
  - intros c Hc. unfold chain_tx, requeueChainChangedCommitLinks in Hc. cbn [fst] in Hc. apply bump_all_shas in Hc as [Hc|[_ Hc]]; [by apply Hs|].
    apply list_elem_of_In, filter_In in Hc as [Hc _]. apply list_elem_of_In in Hc. by apply normalizeShas_elem in Hc as [? _].
Qed.

Lemma create_missing_shas (now r : Z) (shas : list jstr) db :
  (forall sha, sha ∈ shas -> SHA sha = true) -> shas_ok db -> shas_ok (create_missing now r shas db).1.
Proof.
  intros Hn Hs. unfold create_missing. cbn [fst]. intros c. cbn [states set_states].
  assert (forall l, (forall sha, sha ∈ l -> SHA sha = true) ->
    is_Some (foldr (fun sha m => <[(r, sha) := new_link_row now]> m) (states db) l !! c) -> SHA c.2 = true) as H.
  { induction l as [|x l IH]; intros Hl; cbn [foldr]; [apply Hs|]. destruct (decide (c = (r, x))) as [->|Hne].
    - intros _. apply Hl. by left.
    - rewrite lookup_insert_ne by congruence. apply IH. intros y Hy. apply Hl. by right. }
  apply H. intros sha [Hin _]%list_elem_of_In%filter_In. by apply Hn, list_elem_of_In.
Qed.
Lemma normalized_sha l sha : sha ∈ normalizeShas l -> SHA sha = true.
Proof. by intros [? _]%normalizeShas_elem. Qed.
Lemma update_states_shas p f db : shas_ok db -> shas_ok (update_states p f db).
Proof.
  intros Hs c. cbn [states set_states update_states]. rewrite map_lookup_imap. destruct (states db !! c) eqn:E; [|by intros [? ?]].
  intros _. apply Hs. by rewrite E.
Qed.
(** An update of single rows that leaves the generations. *)
Lemma row_stays (c c' : CommitLinkStateRow) :
  generation c' = generation c -> projected_generation c' = projected_generation c ->
  (state c' = leased <-> is_Some (lease_token c')) -> row_moves (Some c) (Some c').
Proof.
  intros Hg Hp Hl. cbn. split; [lia|]. split; [intros [? ? ?]; split; [lia|lia|done]|]. intros _. unfold settled. split; congruence.
Qed.
Lemma requeue_moves now r l db :
  shas_ok db -> let db' := (requeueCommitLinks now r l db).1 in link_moves db db' ∧ links db' = links db ∧ shas_ok db'.
Proof.
  intros Hs. cbv zeta. unfold requeueCommitLinks. pose proof (normalized_sha l) as Hn.
  destruct (normalizeShas l) as [|x shas]; [split; [apply link_moves_refl|done]|].
  pose proof (create_missing_moves now r (x :: shas) db) as Hm. pose proof (create_missing_shas now r (x :: shas) db Hn Hs) as Hs1.
  assert (links (create_missing now r (x :: shas) db).1 = links db) as Hl by done.
  destruct (create_missing now r (x :: shas) db) as [db1 n]. cbn [fst] in *. split; [|split; [done|by apply update_states_shas]].
  eapply link_moves_trans; [exact Hm|]. apply update_states_moves. intros c row _ _. cbn. split; [lia|]. split.
  - intros [? ? H]. split; cbn; [lia|lia|]. rewrite <- H. destruct (bool_decide (state row = leased)) eqn:E; [by apply bool_decide_eq_true_1 in E|].
    apply bool_decide_eq_false_1 in E. by split.
  - intros [? ? _] Hse. unfold settled in Hse. cbn in Hse. lia.
Qed.
Lemma ensure_moves now r l db :
  shas_ok db -> let db' := (ensureCommitLinkStates now r l db).1 in link_moves db db' ∧ links db' = links db ∧ shas_ok db'.
Proof.
  intros Hs. split; [apply create_missing_moves|]. split; [done|]. apply create_missing_shas; [apply normalized_sha|done].
Qed.
Lemma reclaim_moves now db :
  shas_ok db -> let db' := (reclaimExpiredCommitLinkLeases now db).1 in link_moves db db' ∧ links db' = links db ∧ shas_ok db'.
Proof.
  intros Hs. split; [|split; [done|by apply update_states_shas]]. apply update_states_moves. intros c row _ _. apply row_stays; [done..|].
  split; [done|by intros [? ?]].
Qed.
Lemma claim_moves limit leaseMs only locked token now db db' rows :
  shas_ok db -> claimDueCommitLinks limit leaseMs only locked token now db = (db', rows) ->
  (link_moves db db' ∧ links db' = links db ∧ shas_ok db') ∧ forall kc, kc ∈ rows -> is_Some (states db !! kc.1).
Proof.
  intros Hs. unfold claimDueCommitLinks. destruct (limit <? 1).
  { intros [= <- <-]. split; [split; [apply link_moves_refl|done]|]. by intros kc ?%elem_of_nil. }
  set (l := take _ _). intros [= <- <-].
  assert (forall k c, (k, c) ∈ l -> states db !! k = Some c) as Hl.
  { intros k c Hin. unfold l in Hin. apply elem_of_take in Hin as (n & Hn & _). apply list_elem_of_lookup_2 in Hn.
    rewrite merge_sort_Permutation in Hn. apply list_elem_of_In, filter_In in Hn as [Hn _]. by apply elem_of_map_to_list, list_elem_of_In. }
  assert (forall k, let o := foldr (fun kc m => <[kc.1 := kc.2]> m) (states db) (map (fun kc => (kc.1, lease_row now leaseMs (token kc.1) kc.2)) l) !! k in
    row_moves (states db !! k) o ∧ (is_Some o -> is_Some (states db !! k))) as Hm.
  { clearbody l. induction l as [|[k c] l IH]; intros k'; [split; [apply row_moves_refl|done]|]. cbn [map foldr fst snd].
    destruct (decide (k' = k)) as [->|Hne].
    - rewrite lookup_insert_eq, (Hl k c) by exact (list_elem_of_here _ _). split; [|by eexists]. apply row_stays; [done..|]. by split.
    - rewrite lookup_insert_ne by congruence. apply IH. intros a b Hab. apply Hl. by right. }
  split.
  - split; [apply states_move; intros k; apply Hm|]. split; [done|]. intros c Hc. by apply Hs, Hm.
  - intros kc ([k c] & -> & Hin)%list_elem_of_fmap. exists c. by apply Hl.
Qed.
Lemma release_moves l to at_ reason cf now db :
  shas_ok db -> let db' := (releaseCommitLink l to at_ reason cf now db).1 in link_moves db db' ∧ links db' = links db ∧ shas_ok db'.
Proof.
  intros Hs. cbv zeta. unfold releaseCommitLink. destruct (states db !! lease_key l) as [c|] eqn:E;
    [destruct (holds _ _ _)|]; cbn [fst]; try (split; [apply link_moves_refl|done]). split; [|split; [done|]].
  - apply states_move. intros k. destruct (decide (k = lease_key l)) as [->|Hne]; [|rewrite lookup_insert_ne by done; apply row_moves_refl].
    rewrite lookup_insert_eq, E. apply row_stays; [done..|]. cbn. split; [by destruct to|by intros [? ?]].
  - intros k. cbn [states set_states]. destruct (decide (k = lease_key l)) as [->|Hne]; [intros _; apply Hs; by rewrite E|].
    rewrite lookup_insert_ne by done. apply Hs.
Qed.

(** ** The invariant *)

Section invariant.
Context {S : Type} `{DocServer S} (Hlaws : DocLaws S) (String_of : EsError -> jstr).
Implicit Types (σ : System S) (db : LinkDb).
Import CommitLinks.

(** A document is not ahead of its commit, and shows its set when it has its generation. *)
Definition doc_ok db (c : Commit) (d : Source) : Prop :=
  match field d PR_LINKS_GENERATION with
  | JNull => True
  | JNum g => ∃ row, states db !! c = Some row ∧ g <= CommitLinkStore.generation row ∧
      (g = CommitLinkStore.generation row -> field d PULL_REQUEST_NUMBERS = JArr (map JNum (effective_numbers c db)))
  | _ => False
  end.
Definition read_ok db (c : Commit) (p : CommitLinkProjection) : Prop :=
  ∃ row, states db !! c = Some row ∧ lp_generation p <= CommitLinkStore.generation row ∧
    (lp_generation p = CommitLinkStore.generation row -> lp_numbers p = effective_numbers c db).
Definition served (s : S) (c : Commit) : option Source := doc_named s EsProjection.COMMIT_ALIAS (commit_key c).
Definition work_ok db s (w : Working) : Prop :=
  SHA (wk_commit w).2 = true ∧
  match wk_phase w with
  | ph_claimed => True
  | ph_read p => read_ok db (wk_commit w) p
  | ph_applied p r => read_ok db (wk_commit w) p ∧
      match r with Ok (updated | noop | stale) => reached (lp_generation p) (served s (wk_commit w)) | _ => True end
  end.
Record invariant σ : Prop := {
  iv_links : links_ok (cs_db σ);
  iv_shas : shas_ok (cs_db σ);
  iv_rows c row : states (cs_db σ) !! c = Some row -> row_ok row;
  iv_docs i c d : SHA c.2 = true -> es_doc (cs_es σ) i (commit_key c) = Some d -> doc_ok (cs_db σ) c d;
  iv_settled c row : states (cs_db σ) !! c = Some row -> settled row ->
    effective_numbers c (cs_db σ) = [] \/ reached (CommitLinkStore.generation row) (served (cs_es σ) c);
  iv_works w : w ∈ cs_works σ -> work_ok (cs_db σ) (cs_es σ) w
}.

Lemma moved db db' c row :
  link_moves db db' -> states db !! c = Some row ->
  ∃ row', states db' !! c = Some row' ∧ CommitLinkStore.generation row <= CommitLinkStore.generation row' ∧
    (CommitLinkStore.generation row' = CommitLinkStore.generation row -> effective_numbers c db' = effective_numbers c db).
Proof.
  intros [Hr Hs] Hrow. specialize (Hr c). rewrite Hrow in Hr. destruct (states db' !! c) as [row'|] eqn:E; [|done].
  exists row'. split; [done|]. split; [apply Hr|]. by intros He; apply (Hs c row row').
Qed.
Lemma doc_moves db db' c d : link_moves db db' -> doc_ok db c d -> doc_ok db' c d.
Proof.
  intros Hm. unfold doc_ok. destruct (field d PR_LINKS_GENERATION); try done. intros (row & Hrow & Hle & He).
  destruct (moved db db' c row Hm Hrow) as (row' & Hrow' & Hle' & Hs). exists row'. split; [done|]. split; [lia|].
  intros ->. rewrite He, Hs by lia. done.
Qed.
Lemma read_moves db db' c p : link_moves db db' -> read_ok db c p -> read_ok db' c p.
Proof.
  intros Hm (row & Hrow & Hle & He). destruct (moved db db' c row Hm Hrow) as (row' & Hrow' & Hle' & Hs).
  exists row'. split; [done|]. split; [lia|]. intros Hg. by rewrite He, Hs by lia.
Qed.
Lemma work_moves db db' s w : link_moves db db' -> work_ok db s w -> work_ok db' s w.
Proof.
  intros Hm [Hsha Hw]. split; [done|]. destruct (wk_phase w); [done| |].
  - by eapply read_moves.
  - destruct Hw as [Hr Hd]. split; [by eapply read_moves|done].
Qed.
(** A step on the tables that is not a completion. *)
Lemma db_step db' works' σ :
  invariant σ -> link_moves (cs_db σ) db' -> links_ok db' -> shas_ok db' ->
  (forall w, w ∈ works' -> w ∈ cs_works σ \/ work_ok (cs_db σ) (cs_es σ) w) ->
  invariant (mkSystem db' (cs_es σ) works').
Proof.
  intros [I1 I2 I3 I4 I5 I6] Hm Hl Hs Hw. split; cbn [cs_db cs_es cs_works]; try done.
  - intros c row Hrow. pose proof (lm_rows _ _ Hm c) as Hr. rewrite Hrow in Hr. destruct (states (cs_db σ) !! c) eqn:E; [|by destruct Hr].
    destruct Hr as (_ & Hok & _). by eapply Hok, I3.
  - intros i c d Hsha Hd. eapply doc_moves; [exact Hm|]. by eapply I4.
  - intros c row Hrow Hst. pose proof (lm_rows _ _ Hm c) as Hr. rewrite Hrow in Hr. destruct (states (cs_db σ) !! c) as [row0|] eqn:E; [|by destruct Hr].
    destruct Hr as (_ & _ & Hr). destruct (Hr (I3 _ _ E) Hst) as [Hst0 Hg]. rewrite (lm_sets _ _ Hm c row0 row E Hrow) by done.
    rewrite <- Hg. by eapply I5.
  - intros w Hin. eapply work_moves; [exact Hm|]. destruct (Hw w Hin); [by apply I6|done].
Qed.
(** A step on the index. *)
Lemma es_step s' works' σ :
  invariant σ ->
  (forall i c d, SHA c.2 = true -> es_doc s' i (commit_key c) = Some d -> doc_ok (cs_db σ) c d) ->
  (forall c g, reached g (served (cs_es σ) c) -> reached g (served s' c)) ->
  (forall w, w ∈ works' -> w ∈ cs_works σ \/ work_ok (cs_db σ) s' w) ->
  invariant (mkSystem (cs_db σ) s' works').
Proof.
  intros [I1 I2 I3 I4 I5 I6] Hd Hr Hw. split; cbn [cs_db cs_es cs_works]; try done.
  - intros c row Hrow Hst. destruct (I5 c row Hrow Hst) as [|Hre]; [by left|right; by apply Hr].
  - intros w Hin. destruct (Hw w Hin) as [Hw'|]; [|done]. destruct (I6 w Hw') as [Hsha Hph]. split; [done|].
    destruct (wk_phase w) as [|p|p [[| | | |]|e]]; try done; (destruct Hph as [H1 H2]; split; [done|by apply Hr]).
Qed.
Lemma other_reached s s' c g : other_write s s' -> reached g (served s c) -> reached g (served s' c).
Proof.
  intros [Hi Hk _] (d & m & Hd & Hm & Hle). unfold served, doc_named in *. rewrite Hi.
  destruct (Hk _ _ _ Hd) as (d' & Hd' & Hg & _). exists d', m. split; [done|]. by rewrite Hg.
Qed.
Lemma other_docs s s' db c i d :
  other_write s s' -> (forall d0, es_doc s i (commit_key c) = Some d0 -> doc_ok db c d0) ->
  es_doc s' i (commit_key c) = Some d -> doc_ok db c d.
Proof.
  intros [_ Hk Hn] Hok Hd. destruct (es_doc s i (commit_key c)) as [d0|] eqn:E.
  - destruct (Hk _ _ _ E) as (d' & Hd' & Hg & Hns). rewrite Hd in Hd'. injection Hd' as <-. specialize (Hok d0 eq_refl).
    unfold doc_ok in *. rewrite Hg, Hns. done.
  - unfold doc_ok. by rewrite (Hn _ _ _ E Hd).
Qed.

(** Reading a commit and writing what was read. *)
Lemma pr_numbers_normal c db : links_ok db -> normalizeLinkNumbers (effective_numbers c db) = effective_numbers c db.
Proof.
  intros Hok. unfold normalizeLinkNumbers. rewrite forallb_filter_id.
  - destruct (sorted_numbers_sorted (effective_numbers c db)) as [? ?],
      (sorted_numbers_sorted (linked (fun k => effective_link k db) c db)) as [? ?].
    apply sorted_unique; try done. intros n. apply sorted_numbers_elem.
  - apply forallb_elem. intros n (e & Hk & _)%effective_numbers_elem. apply Hok in Hk as [_ Hn]. cbn [fst snd] in Hn. unfold INT_MAX in Hn.
    apply andb_true_iff. split; [|apply Z.ltb_lt; lia]. unfold is_safe_integer, MAX_SAFE_INTEGER; rewrite ?andb_true_iff, ?Z.leb_le, ?Z.ltb_lt; lia.
Qed.
Lemma write_docs db c p o o' d :
  links_ok db -> read_ok db c p -> sent (normalizeLinkNumbers (lp_numbers p)) (lp_generation p) (state (update_of c p)) o o' ->
  (forall d0, o = Some d0 -> doc_ok db c d0) -> o' = Some d -> doc_ok db c d.
Proof.
  intros Hl (row & Hrow & Hle & He) [->|(d0 & -> & Hd0 & ->)] Hok; [apply Hok|]. intros [= <-]. unfold doc_ok.
  rewrite assigned_generation, assigned_numbers. exists row. split; [done|]. split; [done|]. intros Hg. rewrite (He Hg). by rewrite pr_numbers_normal.
Qed.
Lemma keep_apply c row p t s r fs ws1 ws2 σ :
  cs_works σ = ws1 ++ mkWorking c row (ph_read p) :: ws2 ->
  applyCommitLinks String_of (update_of c p) t (cs_es σ) = (s, (r, fs)) -> invariant σ ->
  invariant (mkSystem (cs_db σ) s (ws1 ++ mkWorking c row (ph_applied p (match r with Ok o => Ok o | Err e => Err (String_of e) end)) :: ws2)).
Proof.
  intros Hws Ha Hi. pose proof (apply_spec Hlaws String_of (update_of c p) t (cs_es σ)) as Hs. cbv zeta in Hs. rewrite Ha, key_of_update in Hs.
  destruct Hs as (Hix & Hother & Hsent & Hre).
  destruct (iv_works _ Hi (mkWorking c row (ph_read p))) as [Hsha Hread]; [rewrite Hws; apply elem_of_app; right; exact (list_elem_of_here _ _)|].
  cbn [wk_commit wk_phase] in *. apply es_step; [done|..].
  - intros i c' d Hc' Hd. destruct (decide (c' = c)) as [->|Hne].
    + eapply write_docs; [by apply iv_links|exact Hread|apply Hsent| |exact Hd]. intros d0. by apply iv_docs.
    + rewrite Hother in Hd; [by eapply iv_docs|]. intros Hk. by apply Hne, commit_key_inj.
  - intros c' g Hg. unfold served, doc_named in *. rewrite Hix. destruct (decide (commit_key c' = commit_key c)) as [E|Hne]; [rewrite E in *|].
    + eapply sent_reached; [apply Hsent|exact Hg].
    + by rewrite Hother.
  - intros w [Hw|[->|Hw]%elem_of_cons]%elem_of_app; [left; rewrite Hws; apply elem_of_app; by left| |left; rewrite Hws; apply elem_of_app; right; by right].
    right. split; [done|]. cbn [wk_phase wk_commit]. split; [done|]. destruct r as [[]|e]; try done.
Qed.

Lemma complete_moves l g ns now db db' b row :
  states db !! lease_key l = Some row -> row_ok row -> completeCommitLink l g ns now db = Some (db', b) ->
  db' = db \/ (g <= CommitLinkStore.generation row ∧ db' = set_states (<[lease_key l := complete_row now g ns row]> (states db)) db).
Proof.
  intros Hrow Hok. unfold completeCommitLink. rewrite Hrow. destruct (holds _ _ _); [|intros [= <- <-]; by left].
  destruct (Z.ltb_spec (CommitLinkStore.generation row) g); [done|]. intros [= <- <-]. by right.
Qed.
Lemma replaced_generations c row row1 db :
  states db !! c = Some row -> CommitLinkStore.generation row1 = CommitLinkStore.generation row ->
  let db' := set_states (<[c := row1]> (states db)) db in
  (forall c' r', states db' !! c' = Some r' ->
     ∃ r, states db !! c' = Some r ∧ CommitLinkStore.generation r' = CommitLinkStore.generation r) ∧
  (forall c' r, states db !! c' = Some r ->
     ∃ r', states db' !! c' = Some r' ∧ CommitLinkStore.generation r' = CommitLinkStore.generation r).
Proof.
  intros Hrow Hg. cbv zeta. cbn [states set_states].
  split; intros c' r Hr; destruct (decide (c' = c)) as [->|Hne].
  - rewrite lookup_insert_eq in Hr. injection Hr as <-. by exists row.
  - rewrite lookup_insert_ne in Hr by done. by exists r.
  - rewrite Hrow in Hr. injection Hr as <-. exists row1. by rewrite lookup_insert_eq.
  - exists r. by rewrite lookup_insert_ne.
Qed.
Lemma keep_complete c row0 p ns now db b ws1 w ws2 σ :
  cs_works σ = ws1 ++ w :: ws2 -> SHA c.2 = true -> read_ok (cs_db σ) c p ->
  (lp_generation p = default 0 (CommitLinkStore.generation <$> states (cs_db σ) !! c) ->
     effective_numbers c (cs_db σ) = [] \/ reached (lp_generation p) (served (cs_es σ) c)) ->
  completeCommitLink (lease_of c row0) (lp_generation p) ns now (cs_db σ) = Some (db, b) -> invariant σ ->
  invariant (mkSystem db (cs_es σ) (ws1 ++ ws2)).
Proof.
  intros Hws Hsha (row & Hrow & Hle & _) Hdone Hc Hi. rewrite Hrow in Hdone. cbn in Hdone.
  assert (lease_key (lease_of c row0) = c) as Hk by (by destruct c).
  assert (forall w', w' ∈ ws1 ++ ws2 -> w' ∈ cs_works σ) as Hsub.
  { intros w' [Hw|Hw]%elem_of_app; rewrite Hws; apply elem_of_app; [by left|right; by right]. }
  pose proof (iv_rows _ Hi c row Hrow) as Hok. rewrite <- Hk in Hrow.
  destruct (complete_moves _ _ _ _ _ _ _ _ Hrow Hok Hc) as [->|[_ ->]]; rewrite ?Hk in *; clear Hc.
  { apply db_step; [done|apply link_moves_refl|apply Hi|apply Hi|]. intros w' Hw. left. by apply Hsub. }
  destruct Hi as [I1 I2 I3 I4 I5 I6]. set (db' := set_states _ _).
  destruct (replaced_generations c row (complete_row now (lp_generation p) ns row) (cs_db σ) Hrow eq_refl) as [Hgen Hback]. fold db' in Hgen, Hback.
  split; cbn [cs_db cs_es cs_works].
  - exact I1.
  - intros c' [r' Hr']. destruct (Hgen c' r' Hr') as (r & Hr & _). apply I2. by eexists.
  - intros c' r'. cbn [db' states set_states]. destruct (decide (c' = c)) as [->|Hne]; [|rewrite lookup_insert_ne by done; apply I3].
    rewrite lookup_insert_eq. intros [= <-]. destruct Hok as [H1 H2 _]. split; cbn; [lia|lia|].
    destruct (lp_generation p <? CommitLinkStore.generation row); split; (done || by intros [? ?]).
  - intros i c' d Hc' Hd. specialize (I4 i c' d Hc' Hd). unfold doc_ok in *. destruct (field d PR_LINKS_GENERATION); try done.
    destruct I4 as (r & Hr & Hg & He). destruct (Hback c' r Hr) as (r' & Hr' & Hg'). exists r'. rewrite Hg'. done.
  - intros c' r'. cbn [db' states set_states]. destruct (decide (c' = c)) as [->|Hne]; [|rewrite lookup_insert_ne by done; apply I5].
    rewrite lookup_insert_eq. intros [= <-] Hst. unfold settled in Hst. cbn [complete_row projected_generation CommitLinkStore.generation] in Hst |- *.
    destruct (decide (settled row)) as [Hs|Hs]; [by apply I5|]. destruct Hok as [_ H2 _]. unfold settled in Hs.
    assert (lp_generation p = CommitLinkStore.generation row) as Hg by lia. rewrite <- Hg. by apply Hdone.
  - intros w' Hw. destruct (I6 w' (Hsub w' Hw)) as [Hs Hph]. split; [done|].
    assert (forall q, read_ok (cs_db σ) (wk_commit w') q -> read_ok db' (wk_commit w') q) as Hread.
    { intros q (r & Hr & Hg & He). destruct (Hback _ r Hr) as (r' & Hr' & Hg'). exists r'. rewrite Hg'. done. }
    destruct (wk_phase w'); [done|by apply Hread|]. destruct Hph as [Hq Hd]. split; [by apply Hread|done].
Qed.

(** The works that a step leaves as they are. *)
Lemma works_kept (ws ws1 ws2 : list Working) (w : Working) : ws = ws1 ++ w :: ws2 -> forall w', w' ∈ ws1 ++ ws2 -> w' ∈ ws.
Proof. intros -> w' [Hw|Hw]%elem_of_app; apply elem_of_app; [by left|right; by right]. Qed.
Lemma keep_works works' σ :
  invariant σ -> (forall w, w ∈ works' -> w ∈ cs_works σ \/ work_ok (cs_db σ) (cs_es σ) w) -> invariant (mkSystem (cs_db σ) (cs_es σ) works').
Proof. intros Hi Hw. apply db_step; [done|apply link_moves_refl|apply Hi|apply Hi|done]. Qed.
Lemma keep_tables db' σ :
  invariant σ -> link_moves (cs_db σ) db' ∧ links_ok db' ∧ shas_ok db' -> invariant (set_db db' σ).
Proof. intros Hi (Hm & Hl & Hs). apply db_step; [done..|]. intros w Hw. by left. Qed.
Lemma same_links db db' : links db' = links db -> links_ok db -> links_ok db'.
Proof. intros He Hl k Hk. apply Hl. unfold has_link in *. by rewrite <- He. Qed.
Lemma links_keep_read c row p ws1 ws2 σ :
  cs_works σ = ws1 ++ mkWorking c row ph_claimed :: ws2 -> readCommitLinkProjection c.1 c.2 (cs_db σ) = Some p -> invariant σ ->
  invariant (mkSystem (cs_db σ) (cs_es σ) (ws1 ++ mkWorking c row (ph_read p) :: ws2)).
Proof.
  intros Hws Hr Hi. apply keep_works; [done|]. intros w [Hw|[->|Hw]%elem_of_cons]%elem_of_app;
    [left; rewrite Hws; apply elem_of_app; by left| |left; rewrite Hws; apply elem_of_app; right; by right].
  right. destruct (iv_works _ Hi (mkWorking c row ph_claimed)) as [Hsha _]; [rewrite Hws; apply elem_of_app; right; exact (list_elem_of_here _ _)|].
  split; [done|]. cbn [wk_commit wk_phase] in *. unfold readCommitLinkProjection, normalizeSha in Hr. rewrite (SHA_lower c.2), Hsha in Hr by done.
  cbn [mbind option_bind] in Hr. destruct c as [r sha]. cbn [fst snd] in *. destruct (states (cs_db σ) !! (r, sha)) as [c|] eqn:E; [|done].
  cbn [mbind option_bind] in Hr. injection Hr as <-. exists c. done.
Qed.
Lemma keep_settle retry_delay now c row p r db ws1 ws2 σ :
  cs_works σ = ws1 ++ mkWorking c row (ph_applied p r) :: ws2 -> settle retry_delay now c row p r (cs_db σ) = Some db -> invariant σ ->
  invariant (mkSystem db (cs_es σ) (ws1 ++ ws2)).
Proof.
  intros Hws Hs Hi. destruct (iv_works _ Hi (mkWorking c row (ph_applied p r))) as (Hsha & Hread & Hre);
    [rewrite Hws; apply elem_of_app; right; exact (list_elem_of_here _ _)|]. cbn [wk_commit wk_phase] in *.
  assert (forall to wait reason cf, Some (releaseCommitLink (lease_of c row) to wait reason cf now (cs_db σ)).1 = Some db ->
    invariant (mkSystem db (cs_es σ) (ws1 ++ ws2))) as Hrel.
  { intros to wait reason cf [= <-]. destruct (release_moves (lease_of c row) to wait reason cf now (cs_db σ) (iv_shas _ Hi)) as (Hm & Hl & Hsh).
    apply db_step; [done|done|eapply same_links; [exact Hl|apply Hi]|done|]. intros w Hw. left. by apply (works_kept _ _ _ _ Hws). }
  assert (forall ns, fst <$> completeCommitLink (lease_of c row) (lp_generation p) ns now (cs_db σ) = Some db ->
    (lp_generation p = default 0 (CommitLinkStore.generation <$> states (cs_db σ) !! c) ->
       effective_numbers c (cs_db σ) = [] \/ reached (lp_generation p) (served (cs_es σ) c)) ->
    invariant (mkSystem db (cs_es σ) (ws1 ++ ws2))) as Hcomp.
  { intros ns Hc Hd. destruct (completeCommitLink _ _ _ _ _) as [[db1 b]|] eqn:E; [|done]. injection Hc as <-. by eapply keep_complete. }
  unfold settle in Hs. destruct r as [[]|e].
  - eapply Hcomp; [exact Hs|by right].
  - eapply Hcomp; [exact Hs|by right].
  - eapply Hcomp; [exact Hs|by right].
  - eapply Hrel, Hs.
  - destruct (lp_numbers p) as [|n l] eqn:En; [|eapply Hrel, Hs]. eapply Hcomp; [exact Hs|]. left. destruct Hread as (row1 & Hrow & _ & He).
    rewrite Hrow in *. rewrite <- He by done. done.
  - eapply Hrel, Hs.
Qed.

Lemma links_step_keeps σ σ' : step String_of σ σ' -> invariant σ -> invariant σ'.
Proof.
  intros Hst Hi. pose proof (iv_links _ Hi) as Hl. pose proof (iv_shas _ Hi) as Hs.
  destruct Hst as [now i σ Hn|now repositoryId changed sequence σ Hcov|now r shas σ|now r shas σ|now σ|limit leaseMs only locked token now db rows σ Hc
    |c row p ws1 ws2 σ Hws Hr|c row p t s r fs ws1 ws2 σ Hws Ha|retry_delay now c row p r db ws1 ws2 σ Hws Hse|w ws1 ws2 σ Hws|s σ How].
  - apply keep_tables; [done|]. by apply adopt_tx_moves.
  - apply keep_tables; [done|]. destruct (chain_tx_moves now repositoryId changed sequence (cs_db σ) Hs Hcov) as (? & He & ?). split; [done|].
    split; [by eapply same_links|done].
  - apply keep_tables; [done|]. destruct (requeue_moves now r shas (cs_db σ) Hs) as (? & He & ?). split; [done|]. split; [by eapply same_links|done].
  - apply keep_tables; [done|]. destruct (ensure_moves now r shas (cs_db σ) Hs) as (? & He & ?). split; [done|]. split; [by eapply same_links|done].
  - apply keep_tables; [done|]. destruct (reclaim_moves now (cs_db σ) Hs) as (? & He & ?). split; [done|]. split; [by eapply same_links|done].
  - destruct (claim_moves _ _ _ _ _ _ _ _ _ Hs Hc) as [(Hm & He & Hs') Hrows].
    apply db_step; [done|done|by eapply same_links|done|]. intros w [([k row] & -> & Hin)%list_elem_of_fmap|Hw]%elem_of_app; [|by left].
    right. split; [|done]. by apply Hs, (Hrows _ Hin).
  - by eapply links_keep_read.
  - by eapply keep_apply.
  - by eapply keep_settle.
  - apply keep_works; [done|]. intros w' Hw. left. by apply (works_kept _ _ _ _ Hws).
  - apply es_step; [done| | |by left].
    + intros i c d Hsha. eapply other_docs; [exact How|]. intros d0. by apply iv_docs.
    + intros c g. by apply other_reached.
Qed.
Lemma links_steps_keep σ σ' : rtc (step String_of) σ σ' -> invariant σ -> invariant σ'.
Proof. induction 1; [done|]. intros Hi. by eapply IHrtc, links_step_keeps. Qed.

(** How the tables begin: links with their observations may be there, and rows that have not been
    shown; no document has links yet. *)
Record beginning db s : Prop := {
  bg_links : links_ok db;
  bg_rows c row : states db !! c = Some row -> SHA c.2 = true ∧ row_ok row ∧ ~ settled row;
  bg_docs i k d : es_doc s i k = Some d -> field d PR_LINKS_GENERATION = JNull
}.
Lemma beginning_ok db s : beginning db s -> invariant (mkSystem db s []).
Proof.
  intros [B1 B2 B3]. split; cbn [cs_db cs_es cs_works]; try done.
  - intros c [row Hrow]. by apply (B2 c row).
  - intros c row Hrow. by apply (B2 c row).
  - intros i c d _ Hd. unfold doc_ok. by rewrite (B3 _ _ _ Hd).
  - intros c row Hrow Hst. by destruct (B2 c row Hrow) as (_ & _ & Hn).
  - by intros w ?%elem_of_nil.
Qed.
Lemma served_sets σ :
  invariant σ -> forall c row, states (cs_db σ) !! c = Some row ->
  (settled row -> effective_numbers c (cs_db σ) <> [] ->
     ∃ d, served (cs_es σ) c = Some d ∧ field d PULL_REQUEST_NUMBERS = JArr (map JNum (effective_numbers c (cs_db σ)))) ∧
  (forall i d, es_doc (cs_es σ) i (commit_key c) = Some d -> field d PR_LINKS_GENERATION = JNum (CommitLinkStore.generation row) ->
     field d PULL_REQUEST_NUMBERS = JArr (map JNum (effective_numbers c (cs_db σ)))).
Proof.
  intros Hi c row Hrow. assert (SHA c.2 = true) as Hsha by (by apply (iv_shas _ Hi); eexists).
  assert (forall i d, es_doc (cs_es σ) i (commit_key c) = Some d -> field d PR_LINKS_GENERATION = JNum (CommitLinkStore.generation row) ->
     field d PULL_REQUEST_NUMBERS = JArr (map JNum (effective_numbers c (cs_db σ)))) as Hshow.
  { intros i d Hd Hg. pose proof (iv_docs _ Hi i c d Hsha Hd) as Hok. unfold doc_ok in Hok. rewrite Hg in Hok.
    destruct Hok as (r & Hr & _ & He). rewrite Hrow in Hr. injection Hr as <-. by apply He. }
  split; [|done]. intros Hst Hne. destruct (iv_settled _ Hi c row Hrow Hst) as [|(d & m & Hd & Hm & Hle)]; [done|]. exists d. split; [done|].
  eapply Hshow; [exact Hd|]. pose proof (iv_docs _ Hi _ c d Hsha Hd) as Hok. unfold doc_ok in Hok. rewrite Hm in Hok.
  destruct Hok as (r & Hr & Hg & _). rewrite Hrow in Hr. injection Hr as <-. rewrite Hm. f_equal. lia.
Qed.
End invariant.

(** ** Theorems *)


(** *** The links of one commit *)

Definition sample_commit : Commit := (7, FIRST).
Definition commit_document : Source := {[js "title" := JStr (js "Fix")]}.
Definition commit_index : ModelIndex := mkModelIndex ∅ {[(EsProjection.COMMIT_ALIAS, commit_key sample_commit) := commit_document]}.
Lemma sample_beginning : beginning no_links commit_index.
Proof.
  split.
  - by intros k [v ?].
  - by intros c row ?.
  - intros i k d Hd. unfold commit_index in Hd. cbn [es_doc model_index mi_docs] in Hd.
    by apply lookup_singleton_Some in Hd as [_ <-].
Qed.
Definition says (e : EsError) : jstr := js "error".
#[local] Abbreviation after st := {σ : System ModelIndex | step says st σ}.
Definition begin_links : System ModelIndex := mkSystem no_links commit_index [].
Definition links_adopted : after begin_links.
Proof. eexists. apply (cl_adopt _ 5 (sample_observation 100 [FIRST] true)). done. Defined.
Definition links_claimed : after (`links_adopted).
Proof.
  eexists. apply (cl_claim _ LINK_CLAIM_LIMIT LINK_LEASE_MS None (fun _ => false) (fun _ => js "uuid") 6). apply by_parts. vm_compute. reflexivity.
Defined.
Definition links_read : after (`links_claimed).
Proof. eexists. eapply (cl_read _ _ _ _ [] []); vm_compute; reflexivity. Defined.
Definition links_applied : after (`links_read).
Proof. eexists. eapply (cl_apply _ _ _ _ SERVING_ONLY _ _ _ [] []); [vm_compute; reflexivity|apply by_parts; vm_compute; reflexivity]. Defined.
Definition links_settled : after (`links_applied).
Proof. eexists. eapply (cl_settle _ (fun _ => 0) 7 _ _ _ _ _ [] []); [vm_compute; reflexivity|apply (by_some _ no_links); vm_compute; reflexivity]. Defined.
Lemma then_links {st σ'} (σ : after st) : rtc (step says) (`σ) σ' -> rtc (step says) st σ'.
Proof. apply rtc_l, (proj2_sig σ). Qed.
Lemma sample_links : rtc (step says) begin_links (`links_settled).
Proof. apply (then_links links_adopted), (then_links links_claimed), (then_links links_read), (then_links links_applied), (then_links links_settled), rtc_refl. Qed.
Definition shown_row : CommitLinkStateRow := mkLinkRow 1 1 (Some [12]) done_ None None 7 0 None None.

(** *** A writer that comes late *)

(** The commit is settled without a document, because it has no pull request any more; the document is
    created, and a worker whose lease has run out writes the set that it read before into it.  Nothing
    asks for the commit again. *)
Definition absent_index : ModelIndex := mkModelIndex ∅ ∅.
Definition begin_late : System ModelIndex := mkSystem no_links absent_index [].
Definition late_adopted : after begin_late.
Proof. eexists. apply (cl_adopt _ 5 (sample_observation 100 [FIRST] true)). done. Defined.
Definition late_claimed : after (`late_adopted).
Proof.
  eexists. apply (cl_claim _ LINK_CLAIM_LIMIT LINK_LEASE_MS None (fun _ => false) (fun _ => js "first") 6). apply by_parts. vm_compute. reflexivity.
Defined.
Definition late_read : after (`late_claimed).
Proof. eexists. eapply (cl_read _ _ _ _ [] []); vm_compute; reflexivity. Defined.
Definition late_removed : after (`late_read).
Proof. eexists. apply (cl_adopt _ 7 (sample_observation 200 [] true)). done. Defined.
Definition late_reclaimed : after (`late_removed).
Proof. eexists. apply (cl_reclaim _ 200000). Defined.
Definition late_claimed_again : after (`late_reclaimed).
Proof.
  eexists. apply (cl_claim _ LINK_CLAIM_LIMIT LINK_LEASE_MS None (fun _ => false) (fun _ => js "second") 200001). apply by_parts.
  vm_compute. reflexivity.
Defined.
Definition late_read_again : after (`late_claimed_again).
Proof. eexists. eapply (cl_read _ _ _ _ [] _); vm_compute; reflexivity. Defined.
Definition late_absent : after (`late_read_again).
Proof. eexists. eapply (cl_apply _ _ _ _ SERVING_ONLY _ _ _ [] _); [vm_compute; reflexivity|apply by_parts; vm_compute; reflexivity]. Defined.
Definition late_settled : after (`late_absent).
Proof. eexists. eapply (cl_settle _ (fun _ => 0) 200002 _ _ _ _ _ [] _); [vm_compute; reflexivity|apply (by_some _ no_links); vm_compute; reflexivity]. Defined.
Lemma created_other s p d : mi_docs s !! p = None -> field d CommitLinks.PR_LINKS_GENERATION = JNull -> other_write s (put_doc p d s).
Proof.
  intros Hn Hd. split; cbn [es_index es_doc model_index put_doc mi_docs].
  - reflexivity.
  - intros i k d0 H0. exists d0. rewrite lookup_insert_ne by congruence. done.
  - intros i k d' H0. destruct (decide (p = (i, k))) as [->|Hne]; [rewrite lookup_insert_eq|rewrite lookup_insert_ne by done]; congruence.
Qed.
Definition late_document : after (`late_settled).
Proof.
  eexists. apply (cl_other _ (put_doc (EsProjection.COMMIT_ALIAS, commit_key sample_commit) commit_document (cs_es (`late_settled)))).
  apply created_other; vm_compute; reflexivity.
Defined.
Definition late_applied : after (`late_document).
Proof. eexists. eapply (cl_apply _ _ _ _ SERVING_ONLY _ _ _ [] []); [vm_compute; reflexivity|apply by_parts; vm_compute; reflexivity]. Defined.
Example late_write_stays :
  (effective_numbers sample_commit (cs_db (`late_applied)), states (cs_db (`late_applied)) !! sample_commit) =
    ([], Some (mkLinkRow 2 2 (Some []) done_ None None 200002 0 None None)) ∧
  (fun d => field d CommitLinks.PULL_REQUEST_NUMBERS) <$> served (cs_es (`late_applied)) sample_commit = Some (JArr [JNum 12]).
Proof. vm_compute. split; reflexivity. Qed.
