(* ===== verification/CommitLinkNumbering.v ===== *)
(** * Numbering and the pull requests of a commit

    The chain of a branch decides which source links of a commit count, so the transactions that
    number commits ([sequence.ts], [sequence-repair.ts]) ask for the commits whose rows change to be
    shown again.  Here the two views of [commit_link_state] that the models of the merge sequence
    and of the links have are put together, and each of these transactions is shown to be a change
    of the chains that covers what it changes. *)

From stdpp Require Import base option strings numbers gmap sets relations list.
From Stdlib Require Import ZArith Lia.
From S2P Require Import Prelude JsString Json Integrity SequenceWork SequenceStore SequenceAssign SequenceSystem CommitLinkStore CommitLinkSystem.
Import SequenceSystem.System.
Open Scope Z_scope.

(** ** The pull requests that the chains name *)

Definition named_in (d : Db) (space : Space) (sha : jstr) (o : option Z) : Prop :=
  ∃ s n row, sequence_space d !! space = Some s ∧ rows d space (seq_epoch s) n = Some row ∧
    SequenceStore.commit_sha row = sha ∧ pull_request_number row = o.
Lemma chain_rows_elem r sha db o :
  o ∈ chain_rows_of_link r sha db <->
  ∃ branch, branch ∈ default [] (sequence_branches db !! r) ∧ named_in (sequence db) (r, branch) sha o.
Proof.
  unfold chain_rows_of_link. rewrite list_elem_of_In, in_flat_map. apply exist_proper. intros branch.
  rewrite <- list_elem_of_In. apply and_iff_compat_l. unfold named_in.
  destruct (sequence_space (sequence db) !! (r, branch)) as [s|]; [|split; [done|by intros (? & ? & ? & ? & _)]].
  rewrite <- list_elem_of_In, list_elem_of_fmap. split.
  - intros ([n row] & -> & [Hin Hs]%list_elem_of_In%filter_In). exists s, n, row. split; [done|].
    apply list_elem_of_In, elem_rows_of in Hin. apply jeqb_eq in Hs. done.
  - intros (s' & n & row & [= <-] & Hr & Hs & Ho). exists (n, row). split; [done|]. apply list_elem_of_In, filter_In.
    split; [by apply list_elem_of_In, elem_rows_of|by apply jeqb_eq].
Qed.

(** ** What numbering does to the rows and the links *)

(** Nothing outside the space, and at the space only rows of the commits of [changed]. *)
Record renames (d d' : Db) (space : Space) (changed : list jstr) : Prop := {
  rn_others space' sha o : space' <> space -> named_in d' space' sha o <-> named_in d space' sha o;
  rn_space sha o : SHA sha = true -> sha ∉ normalizeShas changed -> named_in d' space sha o <-> named_in d space sha o
}.
Lemma named_same d d' space sha o :
  sequence_space d' !! space = sequence_space d !! space -> (forall e n, rows d' space e n = rows d space e n) ->
  named_in d' space sha o <-> named_in d space sha o.
Proof. intros Hs Hr. unfold named_in. rewrite Hs. by setoid_rewrite Hr. Qed.
Lemma changed_raw sha changed : SHA sha = true -> sha ∉ normalizeShas changed -> sha ∉ changed.
Proof. intros Hs Hn Hin. apply Hn, normalizeShas_elem. split; [done|]. exists sha. by rewrite SHA_lower. Qed.

Lemma asks_from env space changed d d1 d' :
  source_links d1 = source_links d -> commit_link_state d1 = commit_link_state d -> asks env space changed d1 d' -> asks env space changed d d'.
Proof.
  intros Hs Hl [A1 A2]. split; [congruence|]. rewrite A2. unfold SequenceStore.requeueChainChangedCommitLinks.
  cbn [commit_link_state SequenceStore.set_links]. by rewrite Hs, Hl.
Qed.
Lemma named_others d d' space s' epoch from to space' sha o :
  spaced d d' space s' -> appears d d' space epoch from to -> space' <> space -> named_in d' space' sha o <-> named_in d space' sha o.
Proof.
  intros Hs Ha Hne. apply named_same; [by rewrite Hs, lookup_insert_ne|]. intros e n. apply (ap_old _ _ _ _ _ _ Ha). by intros (-> & _).
Qed.

(** The rows of a commit in an epoch. *)
Definition paired (d : Db) (space : Space) (epoch : Z) (sha : jstr) (o : option Z) : Prop :=
  ∃ n row, rows d space epoch n = Some row ∧ SequenceStore.commit_sha row = sha ∧ pull_request_number row = o.
Lemma paired_elem d space epoch sha o :
  paired d space epoch sha o <-> (sha, o) ∈ map (fun r => (SequenceStore.commit_sha r.2, pull_request_number r.2)) (rows_of space epoch d).
Proof.
  rewrite list_elem_of_fmap. unfold paired. split.
  - intros (n & row & Hr & <- & <-). exists (n, row). by rewrite elem_rows_of.
  - intros ([n row] & [= -> ->] & Hin). apply elem_rows_of in Hin. by exists n, row.
Qed.
Lemma unchanged_pairs d space a b sha o :
  SHA sha = true -> sha ∉ normalizeShas (listChangedCommitsBetweenEpochs space a b d) -> paired d space b sha o <-> paired d space a sha o.
Proof.
  intros Hsha Hn. rewrite !paired_elem. apply changed_raw in Hn; [|done]. unfold listChangedCommitsBetweenEpochs in Hn. cbv zeta in Hn.
  assert (forall x, (sha, x) ∈ List.filter (fun p => negb (bool_decide (p ∈ map (fun r => (SequenceStore.commit_sha r.2, pull_request_number r.2)) (rows_of space b d))))
                            (map (fun r => (SequenceStore.commit_sha r.2, pull_request_number r.2)) (rows_of space a d)) ++
                    List.filter (fun p => negb (bool_decide (p ∈ map (fun r => (SequenceStore.commit_sha r.2, pull_request_number r.2)) (rows_of space a d))))
                            (map (fun r => (SequenceStore.commit_sha r.2, pull_request_number r.2)) (rows_of space b d)) -> False) as Hno.
  { intros x Hx. apply Hn. rewrite <- (SHA_lower sha Hsha). apply list_elem_of_fmap_2, elem_of_remove_dups.
    by apply (list_elem_of_fmap_2 fst _ (sha, x)). }
  split; intros Hin; match goal with |- ?g => destruct (decide g) as [|Hout]; [done|] end; destruct (Hno o); rewrite elem_of_app, !elem_filter.
  - right. split; [done|]. by apply negb_true_iff, bool_decide_eq_false_2.
  - left. split; [done|]. by apply negb_true_iff, bool_decide_eq_false_2.
Qed.

Lemma written_old env space epoch h commits d d' sha n row :
  (forall n, h < n -> rows d space epoch n = None) -> write_numbered env space epoch (numberCommits h commits) d = Ok d' ->
  sha ∉ map nc_sha (numberCommits h commits) -> SequenceStore.commit_sha row = sha ->
  rows d' space epoch n = Some row <-> rows d space epoch n = Some row.
Proof.
  intros Hf Hw Hn Hc. apply write_spec in Hw as (_ & Hin & Hout & _); [|done].
  destruct (decide (h < n <= h + Z.of_nat (length commits))) as [Hb|Hb]; [|rewrite Hout by tauto; done].
  rewrite Hf by lia. split; [|done]. intros Hrow. destruct Hn.
  destruct (lookup_lt_is_Some_2 commits (Z.to_nat (n - h - 1)) ltac:(lia)) as [c Hl]. pose proof (Hin _ _ Hl) as Hi.
  replace (h + Z.of_nat (Z.to_nat (n - h - 1)) + 1) with n in Hi by lia. rewrite Hi in Hrow. injection Hrow as <-. rewrite <- Hc.
  apply (list_elem_of_fmap_2 nc_sha _ (mkNumbered (h + Z.of_nat (Z.to_nat (n - h - 1)) + 1) (c_sha c) (c_committedAt c))).
  unfold numberCommits. apply list_elem_of_lookup. exists (Z.to_nat (n - h - 1)). by rewrite list_lookup_imap, Hl.
Qed.
Lemma assign_renames env g space correlationId d d' o :
  db_ok d -> assign_tx env g space correlationId d = Ok (SequenceAssign.Commit d' o) ->
  ∃ changed, renames d d' space changed ∧ asks env space changed d d'.
Proof.
  intros Hok Ht. destruct (assign_commit _ _ _ _ _ _ _ Hok Ht) as (h & len & _ & Hsp & _ & Hap).
  apply assign_inv in Ht as (newHead & commits & d2 & d3 & Hw & Ha & _ & Hr & Hq). set (s := space_of space d) in *.
  assert (forall n, head_seq s < n -> rows (ensureSequenceSpace space d) space (seq_epoch s) n = None) as Hfree.
  { intros n Hn. rewrite rows_ensure. by apply above_head. }
  pose proof (proj2 (write_appears _ _ _ _ _ _ _ Hfree Hw)) as Hsame.
  assert (sequence_space d2 !! space = Some s) as Hs2 by (rewrite (sb_space _ _ Hsame); apply find_ensure).
  destruct (advanceHead_spec _ _ _ _ _ _ Hs2 Ha) as [-> _].
  eexists. split; [|eapply asks_from; [..|exact Hq]; cbn [source_links commit_link_state set_spaces];
    rewrite ?(sb_source _ _ Hsame), ?(sb_link _ _ Hsame); unfold ensureSequenceSpace; by destruct (sequence_space d !! space)].
  split; [intros; by eapply named_others|]. intros sha x Hsha Hn%changed_raw; [|done].
  assert (forall n row, SequenceStore.commit_sha row = sha -> rows d' space (seq_epoch s) n = Some row <-> rows d space (seq_epoch s) n = Some row) as Hold.
  { intros n row Hc. rewrite Hr, <- (rows_ensure space d). by apply (written_old env space (seq_epoch s) (head_seq s) commits _ d2 sha). }
  unfold named_in. rewrite Hsp, lookup_insert_eq. split.
  - intros (s' & n & row & [= <-] & Hrow & Hc & Hx). cbn [seq_epoch set_head] in Hrow. apply Hold in Hrow; [|done]. exists s, n, row.
    destruct (db_ok_space d space Hok) as [[Hs _]|(_ & _ & Hs)]; [done|]. by rewrite Hs in Hrow.
  - intros (s' & n & row & Hs & Hrow & Hc & Hx). assert (s' = s) as -> by (unfold s, space_of, findSequenceSpace; by rewrite Hs).
    eexists _, n, row. split; [done|]. split; [by apply Hold|done].
Qed.

Lemma write_same env space epoch l : forall d d', write_numbered env space epoch l d = Ok d' -> same_but_rows d d'.
Proof.
  induction l as [|e l IH]; intros d d' Hw; [by injection Hw as <-|]. cbn [write_numbered] in Hw. bind Hw as d1 E.
  transitivity d1; [|by apply IH]. unfold upsertMergeSequence in E.
  destruct (merge_sequence d !! _) as [r|]; [destruct (jeqb _ _)|destruct (commit_taken _ _ _ _)]; try discriminate; by injection E as <-.
Qed.
(** A new epoch names what the old one did, except for the commits between the two. *)
Lemma epoch_renames env d d' space p len newHead s :
  new_epoch env d d' space (seq_epoch s) p len newHead -> sequence_space d !! space = Some s -> space_ok d space s ->
  0 <= p <= head_seq s -> ∃ changed, renames d d' space changed ∧ asks env space changed d d'.
Proof.
  intros Hne Hs Hok Hp. destruct (new_epoch_commit _ _ _ _ _ _ _ _ Hne Hs Hok Hp) as (_ & Hsp & Hap).
  destruct Hne as [(commits & d1 & ne & d2 & k & d3 & d4 & -> & Hb & Hc & Hw & Ha & _ & Hr & Hq)].
  rewrite (bumpEpoch_spec _ _ _ Hs) in Hb. injection Hb as <- <-. set (d1 := set_spaces _ d) in *.
  assert (forall n, rows d space (seq_epoch s + 1) n = None) as Hfree .
  { intros n. destruct (rows d space (seq_epoch s + 1) n) eqn:E; [|done]. apply (ok_bounds _ _ _ Hok) in E. lia. }
  assert (same_but_rows d1 d2) as Hsame2.
  { destruct (0 <? p); [by apply copy_spec in Hc as [? _]|by injection Hc as <- _]. }
  assert (same_but_rows d2 d3) as Hsame3 by (by eapply write_same).
  assert (sequence_space d3 !! space = Some (bump s)) as Hs3.
  { rewrite (sb_space _ _ Hsame3), (sb_space _ _ Hsame2). unfold d1. cbn. apply lookup_insert_eq. }
  destruct (advanceHead_spec _ _ _ _ _ _ Hs3 Ha) as [-> _]. set (d4 := set_spaces _ d3) in *.
  eexists. split; [|eapply (asks_from _ _ _ d d4); [| |exact Hq]; [transitivity (source_links d3)|transitivity (commit_link_state d3)]; try done;
    [by rewrite (sb_source _ _ Hsame3), (sb_source _ _ Hsame2)|by rewrite (sb_link _ _ Hsame3), (sb_link _ _ Hsame2)]].
  split; [intros; by eapply named_others|]. intros sha o Hsha Hn. apply (unchanged_pairs d4 space (seq_epoch s) (seq_epoch s + 1) sha o Hsha) in Hn.
  assert (forall e, paired d' space e sha o <-> paired d4 space e sha o) as Hd4 by (intros e; unfold paired; by setoid_rewrite Hr).
  assert (paired d' space (seq_epoch s) sha o <-> paired d space (seq_epoch s) sha o) as Hd.
  { unfold paired. apply exist_proper. intros n. apply exist_proper. intros row. rewrite (ap_old _ _ _ _ _ _ Hap) by lia. done. }
  assert (forall d s, sequence_space d !! space = Some s -> named_in d space sha o <-> paired d space (seq_epoch s) sha o) as Hname.
  { intros d0 s0 H0. unfold named_in, paired. rewrite H0. naive_solver. }
  rewrite (Hname d s Hs), (Hname d' (set_head newHead (p + Z.of_nat (length commits)) (bump s))) by (by rewrite Hsp, lookup_insert_eq).
  cbn [seq_epoch set_head bump]. rewrite Hd4, <- Hd, Hd4. exact Hn.
Qed.

(** ** The two views of the tables *)

(** What the merge sequence sees of a row of [commit_link_state]. *)
Definition sequence_view (c : CommitLinkStateRow) : SequenceStore.CommitLinkState :=
  mkLinkState (generation c) (projected_generation c) (bool_decide (state c = leased)) (available_at c) (attempt_count c).
Record in_step (db : LinkDb) : Prop := {
  is_links r sha : (r, sha) ∈ source_links (sequence db) <-> has_source r db sha = true;
  is_states : commit_link_state (sequence db) = sequence_view <$> states db
}.
Lemma bump_view now o : sequence_view (bump_row now o) = requeue_link now (sequence_view <$> o).
Proof. destruct o as [c|]; [|done]. cbn. unfold sequence_view, requeue_link. cbn. by destruct (decide (state c = leased)) as [->|Hne]; [|rewrite !(bool_decide_eq_false_2 (state c = leased))]. Qed.
Lemma bump_fold_view (now r : Z) (shas : list jstr) (m : gmap CommitLinkStore.Commit CommitLinkStateRow) :
  foldr (fun sha m => <[(r, sha) := requeue_link now (m !! (r, sha))]> m) (sequence_view <$> m) shas =
  sequence_view <$> foldr (fun sha m => <[(r, sha) := bump_row now (m !! (r, sha))]> m) m shas.
Proof.
  induction shas as [|x shas IH]; [done|]. cbn [foldr]. rewrite IH, fmap_insert, lookup_fmap, bump_view. done.
Qed.
Lemma chain_tx_in_step env space changed d' db :
  asks env space changed (sequence db) d' -> in_step db -> in_step (chain_tx (Work.now (clocks env)) (fst space) changed d' db).
Proof.
  intros [Hs Hl] [I1 I2]. split; cbn [sequence states chain_tx requeueChainChangedCommitLinks fst bump_all set_states].
  - intros r sha. rewrite Hs. apply I1.
  - rewrite Hl. unfold SequenceStore.requeueChainChangedCommitLinks. cbn [commit_link_state SequenceStore.set_links].
    rewrite I2, bump_fold_view. f_equal. f_equal. apply SequenceStore.filter_ext_elem. intros sha _.
    change (has_source (fst space) (mkLinkDb (links db) (observations db) (states db) (sequence_branches db) d') sha) with (has_source (fst space) db sha).
    destruct (has_source (fst space) db sha) eqn:E; [by apply bool_decide_eq_true_2, I1|apply bool_decide_eq_false_2]. intros Hin%I1. congruence.
Qed.

Lemma has_source_sha r sha db : links_ok db -> has_source r db sha = true -> SHA sha = true.
Proof.
  intros Hl ([[[[r' pr] s] e] v] & Hin & H)%existsb_elem. apply elem_of_map_to_list in Hin.
  apply andb_true_iff in H as [[_ ->%jeqb_eq]%andb_true_iff _]. by destruct (Hl (r', pr, sha, e)) as [? _]; [by exists v|].
Qed.

(** ** Theorems *)

(** A transaction that numbers commits, committed on [d]. *)
Inductive numbering (env : Env) (space : Space) (d d' : Db) : Prop :=
| nu_assign g correlationId o : assign_tx env g space correlationId d = Ok (SequenceAssign.Commit d' o) -> numbering env space d d'
| nu_reassign g storedHead newHead correlationId o :
    reassign_tx env g space storedHead newHead correlationId d = SequenceAssign.Commit d' o -> numbering env space d d'
| nu_repair g live a correlationId o : analysis_ok d space a -> repair_fence env space a d = fence_ok ->
    repair_tx env g live space a correlationId (markReassigning space d) = SequenceAssign.Commit d' o -> numbering env space d d'.

Lemma numbering_renames env space d d' :
  db_ok d -> numbering env space d d' -> ∃ changed, renames d d' space changed ∧ asks env space changed d d'.
Proof.
  intros Hok [g correlationId o Ht|g storedHead newHead correlationId o Ht|g live a correlationId o (s & Hsp & _ & H1 & Hd) Hf Ht].
  - by eapply assign_renames.
  - destruct (reassign_inv _ _ _ _ _ _ _ _ _ Ht) as (s & p & len & Hsp & Hp & Hne). pose proof (Hok space) as Hs. rewrite Hsp in Hs.
    eapply epoch_renames; [exact Hne|done|done|]. pose proof (ok_chk _ _ _ Hs) as Hc. unfold checkpoint_chk in Hc.
    destruct Hp as [->|Hp]; [lia|]. apply (ok_dense _ _ _ Hs) in Hp. lia.
  - assert (seq_epoch (an_space a) = seq_epoch s) as He.
    { unfold repair_fence, findSequenceSpace in Hf. rewrite Hsp in Hf. destruct (locked env); [|done]. cbn [negb] in Hf.
      destruct (seq_epoch s =? seq_epoch (an_space a)) eqn:E; [|done]. by apply Z.eqb_eq in E. }
    destruct (mark_kept space d Hok) as [Hok1 _].
    assert (sequence_space (markReassigning space d) !! space = Some (with_state ss_reassigning None s)) as Hm.
    { unfold markReassigning, update_space. rewrite Hsp. cbn. apply lookup_insert_eq. }
    destruct (repair_inv env g live space a correlationId (markReassigning space d) d' o _ Hm He Ht) as [len Hne].
    pose proof (Hok1 space) as Hs. rewrite Hm in Hs. rewrite He in Hd.
    destruct (epoch_renames env _ d' space _ len (an_head a) _ Hne Hm Hs) as (changed & Hrn & Hasks).
    { pose proof (Hok space) as H0. rewrite Hsp in H0. apply (ok_dense _ _ _ H0) in Hd. cbn. lia. }
    assert (source_links (markReassigning space d) = source_links d ∧ commit_link_state (markReassigning space d) = commit_link_state d) as [Es El].
    { unfold markReassigning, update_space. rewrite Hsp. done. }
    exists changed. split; [|by eapply asks_from].
    assert (forall space' sha x, named_in (markReassigning space d) space' sha x <-> named_in d space' sha x) as Hmk.
    { assert (forall space' e n, rows (markReassigning space d) space' e n = rows d space' e n) as Er.
      { intros space' e n. unfold markReassigning, update_space. by rewrite Hsp. }
      intros space' sha x. destruct (decide (space' = space)) as [->|Hne'].
      - unfold named_in. rewrite Hm, Hsp. setoid_rewrite Er.
        split; intros (s' & n & row & [= <-] & H); eexists _, n, row; (split; [done|exact H]).
      - apply named_same; [|done]. unfold markReassigning, update_space. rewrite Hsp. cbn. by rewrite lookup_insert_ne. }
    destruct Hrn as [R1 R2]. split; intros; rewrite <- Hmk; auto.
Qed.

(** [C20] Numbering and the links of commits fit together: a transaction that assigns, reassigns or
    repairs the numbers of a branch asks for every commit whose pull requests can change with it to
    be shown again, so it is one of the changes of the chains under which the index serves the right
    links; and what it writes into [commit_link_state] is what the repository of the links writes. *)
Theorem numbering_covers env space db d' :
  db_ok (sequence db) -> links_ok db -> in_step db -> numbering env space (sequence db) d' ->
  ∃ changed, let db' := chain_tx (Work.now (clocks env)) (fst space) changed d' db in
    covers (fst space) changed db db' ∧ in_step db' ∧ sequence db' = d'.
Proof.
  intros Hok Hl Hin Hn. destruct (numbering_renames env space _ d' Hok Hn) as (changed & [R1 R2] & Hasks). exists changed. cbv zeta.
  split; [|split; [by apply chain_tx_in_step|done]]. intros r sha Hsrc.
  destruct (decide (r = fst space ∧ sha ∈ normalizeShas changed)) as [|Hno]; [by right|left]. intros o. rewrite !chain_rows_elem.
  apply exist_proper. intros branch. apply and_iff_compat_l. cbn [chain_tx sequence requeueChainChangedCommitLinks fst bump_all set_states].
  destruct (decide ((r, branch) = space)) as [He|Hne]; [|by apply R1]. rewrite He. apply R2.
  - by apply (has_source_sha r sha db).
  - intros Hc. apply Hno. by destruct space; simplify_eq/=.
Qed.

(** *** A branch of two commits is numbered *)

Definition two_commits : History := [(FIRST, []); (SECOND, [FIRST])].
Definition before_numbering : LinkDb :=
  mkLinkDb {[(7, 70, SECOND, source) := 100]} ∅ ∅ {[7 := [js "main"]]} (SequenceStore.mkDb ∅ ∅ ∅ ∅ {[(7, SECOND)]}).
Definition sample_env : Env := mkEnv (Work.mkClocks 0 0) true (fun sha => if jeqb sha SECOND then Some 12 else None).
Definition after_numbering : result Thrown (TxEnd AssignOutcome) := assign_tx sample_env (git two_commits SECOND) main [] (sequence before_numbering).
Definition numbered_db : Db := match after_numbering with Ok (SequenceAssign.Commit d _) => d | _ => empty_db end.
Lemma before_in_step : in_step before_numbering.
Proof.
  split; [|reflexivity]. intros r sha. unfold has_source. cbn [links source_links sequence before_numbering].
  rewrite elem_of_singleton, map_to_list_singleton. cbn [existsb fst]. rewrite orb_false_r, andb_true_r, andb_true_iff, Z.eqb_eq, jeqb_eq.
  split; [by intros [= -> ->]|by intros [<- <-]].
Qed.
Lemma before_ok : db_ok (sequence before_numbering) ∧ links_ok before_numbering.
Proof.
  split; [intros space; cbn; by rewrite lookup_empty|]. intros k [v Hv]. cbn [links before_numbering] in Hv.
  apply lookup_singleton_Some in Hv as [<- _]. split; [reflexivity|]. cbn. unfold INT_MAX. lia.
Qed.
Lemma numbering_covers_witness :
  effective_numbers (7, SECOND) before_numbering = [70] ∧
  ∃ changed, let db' := chain_tx 0 7 changed numbered_db before_numbering in
    covers 7 changed before_numbering db' ∧ in_step db' ∧ sequence db' = numbered_db.
Proof.
  split; [vm_compute; reflexivity|].
  apply (numbering_covers sample_env main before_numbering numbered_db (proj1 before_ok) (proj2 before_ok) before_in_step).
  eapply (nu_assign _ _ _ _ (git two_commits SECOND) []). vm_compute. reflexivity.
Defined.
(** The commit is queued, and its set is that of the chain. *)
Example numbered_links :
  let db := chain_tx 0 7 [FIRST; SECOND] numbered_db before_numbering in
  (effective_numbers (7, SECOND) db, generation <$> states db !! (7, SECOND)) = ([], Some 1).
Proof. vm_compute. reflexivity. Qed.

(** A round of M numbers that fills in the pull request of a row changes the set of its commit and queues nothing. *)
Example filled_pull_request_changes_links :
  let links_at d := mkLinkDb {[(7, 70, js "B", source) := 100]} ∅ ∅ {[7 := [js "main"]]} d in
  (effective_numbers (7, js "B") (links_at db_ab), effective_numbers (7, js "B") (links_at db_numbered)) = ([], [70]) ∧
  commit_link_state db_numbered = commit_link_state db_ab.
Proof. vm_compute. split; reflexivity. Qed.
