(* ===== verification/AccessScope.v ===== *)
(** * Access scopes: their source, their caches and their invalidation

    What a user may read ([packages/authz/src/scope.ts], [scope-source.ts], [scope-database.ts],
    [invalidation.ts], the statements of [packages/db/src/repositories/auth.ts] that they use, and
    the handler of [apps/pipeline-worker/src/authz.ts]).  GitHub is asked per repository; the answer
    is kept in a table and in Redis for five minutes; an event about a member, a team or a repository
    removes what it makes doubtful.  How requests, refreshes and invalidations interleave is
    AccessSystem. *)

From stdpp Require Import base list option strings numbers gmap sets sorting.
From Stdlib Require Import ZArith Lia.
From S2P Require Import Prelude JsString Json Partition InMemoryBus EsQuery ScopedQuery.
Open Scope Z_scope.

(** ** Scopes *)

Definition CACHE_TTL_MS : Z := 5 * 60 * 1000.
Record CachedScope : Set := mkCached {
  repositoryIds : list Z; orgIds : list Z; teamIds : list Z; visibilities : list jstr; refreshedAt : Z; version : Z
}.
#[export] Instance CachedScope_eq_dec : EqDecision CachedScope.
Proof. solve_decision. Defined.
Definition isFresh (now : Z) (s : CachedScope) : bool := now - refreshedAt s <? CACHE_TTL_MS.
Definition toAccessScope (s : CachedScope) : AccessScope :=
  if shouldUseOrgTeamScope (Z.of_nat (length (repositoryIds s))) then OrgTeamAccessScope (orgIds s) (teamIds s) (visibilities s)
  else ExplicitAccessScope (repositoryIds s).

(** The value that [JSON.stringify] is given, and the reading of a parsed value.  The numbers of a
    scope are integers here; the code also accepts fractions, which it never writes. *)
Definition scope_json (s : CachedScope) : json :=
  JObj [(js "repositoryIds", JArr (map JNum (repositoryIds s))); (js "orgIds", JArr (map JNum (orgIds s)));
        (js "teamIds", JArr (map JNum (teamIds s))); (js "visibilities", JArr (map JStr (visibilities s)));
        (js "refreshedAt", JNum (refreshedAt s)); (js "version", JNum (version s))].
Definition json_number (v : json) : option Z := match v with JNum n => Some n | _ => None end.
Definition json_text (v : json) : option jstr := match v with JStr s => Some s | _ => None end.
Fixpoint all_of {A} (f : json -> option A) (l : list json) : option (list A) :=
  match l with [] => Some [] | v :: l => x ← f v; xs ← all_of f l; Some (x :: xs) end.
Definition list_at {A} (f : json -> option A) (key : jstr) (fs : list (jstr * json)) : option (list A) :=
  match assoc key fs with Some (JArr l) => all_of f l | _ => None end.
(** [None] is a text that [JSON.parse] refuses. *)
Definition parseCachedScope (parsed : option json) : option CachedScope :=
  fs ← parsed ≫= asRecord;
  repositoryIds ← list_at json_number (js "repositoryIds") fs;
  orgIds ← list_at json_number (js "orgIds") fs;
  teamIds ← list_at json_number (js "teamIds") fs;
  visibilities ← list_at json_text (js "visibilities") fs;
  refreshedAt ← assoc (js "refreshedAt") fs ≫= json_number;
  version ← assoc (js "version") fs ≫= json_number;
  Some (mkCached repositoryIds orgIds teamIds visibilities refreshedAt version).

(** ** scope-source.ts *)

Record RawAccessScope : Set := mkRaw {
  raw_repositoryIds : list Z; raw_orgIds : list Z; raw_teamIds : list Z; raw_visibilities : list jstr
}.
Record RegisteredRepository : Set := mkRegistered {
  rr_repositoryId : Z; rr_owner : jstr; rr_name : jstr; rr_orgId : Z; rr_visibility : jstr
}.
Definition READABLE_PERMISSIONS : list jstr :=
  [js "read"; js "write"; js "writer"; js "pull"; js "triage"; js "push"; js "maintain"; js "admin"].
Definition isReadable (permission : jstr) : bool := mem permission READABLE_PERMISSIONS.
Inductive AccessScopeLookupStage : Set :=
| registered_repositories | collaborator_permission | org_membership | org_teams | team_membership.
(** [AccessScopeLookupError]: the stage and the cause. *)
Definition LookupError : Set := (AccessScopeLookupStage * jstr)%type.
(** What GitHub answers; [Err] is what the call throws. *)
Record GhePermissionApi : Set := mkApi {
  collaboratorPermission : jstr -> jstr -> jstr -> result jstr (option jstr);
  listOrgTeams : jstr -> result jstr (list (Z * jstr));
  teamMembership : jstr -> jstr -> jstr -> result jstr bool;
  isOrgMember : jstr -> jstr -> result jstr bool
}.
Definition atStage {A} (stage : AccessScopeLookupStage) (r : result jstr A) : result LookupError A :=
  match r with Ok a => Ok a | Err e => Err (stage, e) end.

Section source.
Context (api : GhePermissionApi) (login : jstr).

Definition readable (r : RegisteredRepository) : result jstr bool :=
  p ← collaboratorPermission api (rr_owner r) (rr_name r) login;
  Ok (match p with Some p => isReadable p | None => false end).
Definition chosen (flags : list (Z * bool)) : list Z := omap (fun f : Z * bool => if f.2 then Some f.1 else None) flags.
(** The workers ask in any order and the results are sorted; the first failure is thrown. *)
Definition readableRepositories (registered : list RegisteredRepository) : result jstr (list Z) :=
  flags ← mapM_result (fun r => ok ← readable r; Ok (rr_repositoryId r, ok)) registered;
  Ok (merge_sort Z.le (chosen flags)).
(** The organisations in the order of their first repository, with its owner. *)
Definition uniqueOrgs (registered : list RegisteredRepository) : list (Z * jstr) :=
  foldl (fun orgs r => if existsb (fun o => o.1 =? rr_orgId r) orgs then orgs else orgs ++ [(rr_orgId r, rr_owner r)]) [] registered.
Definition memberOf (owner : jstr) (t : Z * jstr) : result LookupError (Z * bool) :=
  ok ← atStage team_membership (teamMembership api owner t.2 login); Ok (t.1, ok).
Definition memberTeams (owner : jstr) : result LookupError (list Z) :=
  teams ← atStage org_teams (listOrgTeams api owner);
  flags ← mapM_result (memberOf owner) teams;
  Ok (chosen flags).
(** Of each organisation of which the user is a member, its owner and the teams of the user. *)
Definition memberOrg (o : Z * jstr) : result LookupError (option (jstr * list Z)) :=
  member ← atStage org_membership (isOrgMember api o.2 login);
  if member : bool then teams ← memberTeams o.2; Ok (Some (o.2, teams)) else Ok None.
Definition fetch (listRegistered : result jstr (list RegisteredRepository)) : result LookupError RawAccessScope :=
  registered ← atStage registered_repositories listRegistered;
  match registered with
  | [] => Ok (mkRaw [] [] [] [])
  | _ =>
    ids ← atStage collaborator_permission (readableRepositories registered);
    if negb (shouldUseOrgTeamScope (Z.of_nat (length ids))) then Ok (mkRaw ids [] [] [])
    else
      let orgs := uniqueOrgs registered in
      found ← mapM_result memberOrg orgs;
      let members := omap id found in
      let orgIds := map fst (List.filter (fun o : Z * jstr => mem o.2 (map fst members)) orgs) in
      Ok (mkRaw ids orgIds (concat (map snd members))
            (match orgIds with [] => [] | _ => [js "public"; js "internal"] end))
  end.
End source.

(** ** Tables *)

Inductive ScopeKind : Set := explicit | org_team.
#[export] Instance ScopeKind_eq_dec : EqDecision ScopeKind.
Proof. solve_decision. Defined.
Record AppUserRow : Set := mkUser { login_of : jstr; github_user_id : option Z; access_scope_version : Z }.
Record PermissionCacheRow : Set := mkCacheRow {
  scope_kind : ScopeKind; repository_ids : option (list Z); org_ids : option (list Z); team_ids : option (list Z);
  visibilities_of : list jstr; refreshed_at : Z; row_version : Z
}.
Record AuthDb : Set := mkAuthDb {
  app_user : gmap jstr AppUserRow; permission_cache : gmap jstr PermissionCacheRow; team_member : gmap Z (list jstr)
}.
Definition set_users (m : gmap jstr AppUserRow) (db : AuthDb) : AuthDb := mkAuthDb m (permission_cache db) (team_member db).
Definition set_cache (m : gmap jstr PermissionCacheRow) (db : AuthDb) : AuthDb := mkAuthDb (app_user db) m (team_member db).
Definition set_members (m : gmap Z (list jstr)) (db : AuthDb) : AuthDb := mkAuthDb (app_user db) (permission_cache db) m.

Definition readUser (userId : jstr) (db : AuthDb) : option (jstr * Z) :=
  (fun u => (login_of u, access_scope_version u)) <$> app_user db !! userId.
Definition cached_of (r : PermissionCacheRow) : CachedScope :=
  mkCached (default [] (repository_ids r)) (default [] (org_ids r)) (default [] (team_ids r)) (visibilities_of r)
    (refreshed_at r) (row_version r).
Definition readCache (userId : jstr) (db : AuthDb) : option CachedScope := cached_of <$> permission_cache db !! userId.
Definition cache_row (now : Z) (s : CachedScope) : PermissionCacheRow :=
  mkCacheRow (if shouldUseOrgTeamScope (Z.of_nat (length (repositoryIds s))) then org_team else explicit)
    (Some (repositoryIds s)) (Some (orgIds s)) (Some (teamIds s)) (visibilities s) now (version s).
(** [writePermissionCache] reads the version of the user and then inserts; the row of the user is not
    locked in between. *)
Definition version_matches (userId : jstr) (v : Z) (db : AuthDb) : bool :=
  match app_user db !! userId with Some u => access_scope_version u =? v | None => false end.
Definition insert_cache (now : Z) (userId : jstr) (s : CachedScope) (db : AuthDb) : AuthDb * bool :=
  match permission_cache db !! userId with
  | Some r => if row_version r <=? version s then (set_cache (<[userId := cache_row now s]> (permission_cache db)) db, true) else (db, false)
  | None => (set_cache (<[userId := cache_row now s]> (permission_cache db)) db, true)
  end.
Definition writePermissionCache (now : Z) (userId : jstr) (s : CachedScope) (db : AuthDb) : AuthDb * bool :=
  if version_matches userId (version s) db then insert_cache now userId s db else (db, false).
Definition bumped (u : AppUserRow) : AppUserRow := mkUser (login_of u) (github_user_id u) (access_scope_version u + 1).
Definition invalidateUsers (userIds : list jstr) (db : AuthDb) : AuthDb * list jstr :=
  (set_cache (filter (fun p => p.1 ∉ userIds) (permission_cache db))
     (set_users (map_imap (fun k u => Some (if mem k userIds then bumped u else u)) (app_user db)) db),
   List.filter (fun k => bool_decide (is_Some (app_user db !! k))) (remove_dups userIds)).
Definition users_where (p : jstr -> AppUserRow -> bool) (db : AuthDb) : list jstr :=
  omap (fun ku : jstr * AppUserRow => if p ku.1 ku.2 then Some ku.1 else None) (map_to_list (app_user db)).
Definition findUserIdsByGithubIds (ids : list Z) (db : AuthDb) : list jstr :=
  users_where (fun _ u => match github_user_id u with Some g => mem_Z g ids | None => false end) db.
Definition findUserIdsByLogins (logins : list jstr) (db : AuthDb) : list jstr := users_where (fun _ u => mem (login_of u) logins) db.
Definition contains (x : Z) (l : option (list Z)) : bool := match l with Some l => mem_Z x l | None => false end.
Definition affected_row (repositoryId : Z) (orgId : option Z) (r : PermissionCacheRow) : bool :=
  contains repositoryId (repository_ids r)
  || match orgId with Some o => bool_decide (scope_kind r = org_team) && contains o (org_ids r) | None => false end.
Definition findUsersAffectedByRepository (repositoryId : Z) (orgId : option Z) (db : AuthDb) : list jstr :=
  omap (fun kr : jstr * PermissionCacheRow => if affected_row repositoryId orgId kr.2 then Some kr.1 else None)
    (map_to_list (permission_cache db)).
Definition listTeamMembers (teamId : Z) (db : AuthDb) : list jstr := default [] (team_member db !! teamId).
Definition replaceTeamMembers (teamId : Z) (userIds : list jstr) (db : AuthDb) : AuthDb * list jstr :=
  let members := List.filter (fun k => bool_decide (is_Some (app_user db !! k))) (remove_dups userIds) in
  (set_members (<[teamId := members]> (team_member db)) db, members).

(** ** Redis *)

(** A value, as what [JSON.parse] makes of it, and when it expires. *)
Abbreviation Redis := (gmap jstr (option json * Z)).
Definition scopeKey (userId : jstr) : jstr := js "prs:scope:" ++ userId.
Definition redis_get (now : Z) (key : jstr) (r : Redis) : option (option json) :=
  match r !! key with Some (v, until) => if now <? until then Some v else None | None => None end.
(** The key is kept for whole seconds. *)
Definition remaining_seconds (now : Z) (s : CachedScope) : Z := - ((- (refreshedAt s + CACHE_TTL_MS - now)) / 1000).
Definition writeRedis (now : Z) (userId : jstr) (s : CachedScope) (r : Redis) : Redis :=
  let remaining := remaining_seconds now s in
  if remaining <=? 0 then r else <[scopeKey userId := (Some (scope_json s), now + remaining * 1000)]> r.
Definition readRedis (now : Z) (userId : jstr) (r : Redis) : option CachedScope :=
  s ← redis_get now (scopeKey userId) r ≫= parseCachedScope; if isFresh now s then Some s else None.
Definition forget (userIds : list jstr) (r : Redis) : Redis := foldr (fun u r => delete (scopeKey u) r) r userIds.

(** ** invalidation.ts *)

Inductive InvalidationReason : Set := member | team | repository | manual.
Record InvalidationTarget : Set := mkTarget {
  it_reason : InvalidationReason; it_logins : list jstr; it_githubUserIds : list Z; it_teamId : option Z; it_teamSlug : option jstr;
  it_org : option jstr; it_orgId : option Z; it_repositoryId : option Z
}.
Definition str (v : option json) : option jstr := match v with Some (JStr []) => None | Some (JStr s) => Some s | _ => None end.
Definition num (v : option json) : option Z := match v with Some (JNum n) => if is_safe_integer n then Some n else None | _ => None end.
(** [record(root[key])?.[field]]. *)
Definition within (key field : jstr) (root : list (jstr * json)) : option json :=
  fs ← assoc key root ≫= asRecord; assoc field fs.
Definition opt_list {A} (o : option A) : list A := match o with Some x => [x] | None => [] end.
Definition extractInvalidationTarget (eventType : jstr) (payload : json) : option InvalidationTarget :=
  root ← asRecord payload;
  let org := str (within (js "organization") (js "login") root) in
  let orgId := num (within (js "organization") (js "id") root) in
  let repositoryId := num (within (js "repository") (js "id") root) in
  if jeqb eventType (js "member") then
    let login := str (within (js "member") (js "login") root) in
    let id := num (within (js "member") (js "id") root) in
    match login, id with
    | None, None => None
    | _, _ => Some (mkTarget member (opt_list login) (opt_list id) None None org orgId repositoryId)
    end
  else if jeqb eventType (js "team") then
    teamId ← num (within (js "team") (js "id") root);
    Some (mkTarget team [] [] (Some teamId) (str (within (js "team") (js "slug") root)) org orgId repositoryId)
  else if jeqb eventType (js "repository") then
    repositoryId ← repositoryId; Some (mkTarget repository [] [] None None org orgId (Some repositoryId))
  else None.
Definition isEmptyTarget (t : InvalidationTarget) : bool :=
  match it_logins t, it_githubUserIds t, it_teamId t, it_repositoryId t with [], [], None, None => true | _, _, _, _ => false end.

(** The reason of an event is a text that the code takes for an [InvalidationReason]. *)
Record PermissionInvalidated : Set := mkInvalidated {
  pi_user_ids : list Z; pi_logins : list jstr; pi_team_id : option Z; pi_repository_id : option Z; pi_reason : jstr
}.
Definition reason_text (r : InvalidationReason) : jstr :=
  match r with member => js "member" | team => js "team" | repository => js "repository" | manual => js "manual" end.
Definition toEventPayload (t : InvalidationTarget) : PermissionInvalidated :=
  mkInvalidated (it_githubUserIds t) (it_logins t) (it_teamId t) (it_repositoryId t) (reason_text (it_reason t)).
Record InvalidationContext : Set := mkContext { ic_org : option jstr; ic_teamSlug : option jstr; ic_orgId : option Z }.
Record InvalidationResult : Set := mkInvalidation { ir_reason : jstr; invalidatedUserIds : list jstr; teamRefreshed : bool }.

Record Caches : Set := mkCaches { auth : AuthDb; redis : Redis }.

(** A set keeps the order in which its elements came. *)
Definition add_all (targets l : list jstr) : list jstr := foldl (fun ts u => if mem u ts then ts else ts ++ [u]) targets l.

(** Who belonged to the team, and who does by the word of GitHub when it can be asked. *)
Definition teamTargets (github : option (jstr -> jstr -> result jstr (list Z))) (context : InvalidationContext) (teamId : Z)
    (targets : list jstr) (db : AuthDb) : AuthDb * result jstr (list jstr * bool) :=
  let targets := add_all targets (listTeamMembers teamId db) in
  match github, ic_org context, ic_teamSlug context with
  | Some members, Some org, Some slug =>
    match members org slug with
    | Err e => (db, Err e)
    | Ok ids => let '(db', current) := replaceTeamMembers teamId (findUserIdsByGithubIds ids db) db in (db', Ok (add_all targets current, true))
    end
  | _, _, _ => (db, Ok (targets, false))
  end.
(** [listTeamMembers] of GitHub, when there is a client, and what deleting keys of Redis throws. *)
Definition applyInvalidation (github : option (jstr -> jstr -> result jstr (list Z))) (redis_del : result jstr unit)
    (payload : PermissionInvalidated) (context : InvalidationContext) (c : Caches) : Caches * result jstr InvalidationResult :=
  let db := auth c in
  let targets := add_all [] (findUserIdsByGithubIds (pi_user_ids payload) db) in
  let targets := add_all targets (findUserIdsByLogins (pi_logins payload) db) in
  match match pi_team_id payload with
        | None => (db, Ok (targets, false))
        | Some teamId => teamTargets github context teamId targets db
        end with
  | (db, Err e) => (mkCaches db (redis c), Err e)
  | (db, Ok (targets, refreshed)) =>
    let targets := match pi_repository_id payload with
                   | Some r => add_all targets (findUsersAffectedByRepository r (ic_orgId context) db)
                   | None => targets
                   end in
    match targets with
    | [] => (mkCaches db (redis c), Ok (mkInvalidation (pi_reason payload) [] refreshed))
    | _ =>
      let '(db, invalidated) := invalidateUsers targets db in
      match redis_del with
      | Err e => (mkCaches db (redis c), Err e)
      | Ok _ => (mkCaches db (forget targets (redis c)), Ok (mkInvalidation (pi_reason payload) invalidated refreshed))
      end
    end
  end.

(** ** authz.ts of the worker *)

Definition number_of (v : option json) : option Z := v ≫= json_number.
Definition text_of (v : option json) : option jstr := v ≫= json_text.
Definition parseInvalidationEvent (payload : json) : option (PermissionInvalidated * InvalidationContext) :=
  value ← asRecord payload;
  let at_ key := assoc key value in
  let numbers := match at_ (js "user_ids") with Some (JArr l) => omap json_number l | _ => [] end in
  let strings := match at_ (js "logins") with Some (JArr l) => omap json_text l | _ => [] end in
  let team := number_of (at_ (js "team_id")) in
  let repository := number_of (at_ (js "repository_id")) in
  match numbers, strings, team, repository with
  | [], [], None, None => None
  | _, _, _, _ =>
    Some (mkInvalidated numbers strings team repository (default (js "manual") (text_of (at_ (js "reason")))),
          mkContext (text_of (at_ (js "org"))) (text_of (at_ (js "team_slug"))) (number_of (at_ (js "org_id"))))
  end.
(** The handler of a delivered event.  What it asks of the documents afterwards ([refreshRepositoryTeams]) is
    TeamScope; a failure there changes nothing here. *)
Definition authzHandler (github : option (jstr -> jstr -> result jstr (list Z))) (redis_del : result jstr unit) (delivery_count : Z)
    (payload : json) (c : Caches) : Caches * HandlerDisposition :=
  match parseInvalidationEvent payload with
  | None => (c, d_dead_letter)
  | Some (event, context) =>
    match applyInvalidation github redis_del event context c with
    | (c, Ok _) => (c, d_ack)
    | (c, Err _) => (c, if MAX_RETRIES <=? delivery_count then d_dead_letter else d_retry)
    end
  end.

(** ** Reading back what was written *)

Lemma all_of_map {A} (f : json -> option A) (g : A -> json) l : (forall x, f (g x) = Some x) -> all_of f (map g l) = Some l.
Proof. intros Hf. induction l as [|x l IH]; [done|]. cbn. by rewrite Hf, IH. Qed.
Lemma parse_scope_json s : parseCachedScope (Some (scope_json s)) = Some s.
Proof.
  destruct s as [r o t v a n]. unfold parseCachedScope, scope_json, list_at. cbn [mbind option_bind asRecord repositoryIds orgIds teamIds visibilities refreshedAt version].
  set (fs := [_; _; _; _; _; _]).
  assert (assoc (js "repositoryIds") fs = Some (JArr (map JNum r)) ∧ assoc (js "orgIds") fs = Some (JArr (map JNum o)) ∧
          assoc (js "teamIds") fs = Some (JArr (map JNum t)) ∧ assoc (js "visibilities") fs = Some (JArr (map JStr v)) ∧
          assoc (js "refreshedAt") fs = Some (JNum a) ∧ assoc (js "version") fs = Some (JNum n)) as (-> & -> & -> & -> & -> & ->) by (split_and!; reflexivity).
  rewrite !(all_of_map json_number JNum), (all_of_map json_text JStr) by done. reflexivity.
Qed.
(** What Redis gives back was written less than five minutes after the scope was fetched. *)
Lemma read_written now at_ u s r : readRedis now u (writeRedis at_ u s r) = Some s \/ readRedis now u (writeRedis at_ u s r) = readRedis now u r \/
  readRedis now u (writeRedis at_ u s r) = None.
Proof.
  unfold readRedis, writeRedis. destruct (_ <=? 0); [right; by left|]. unfold redis_get. rewrite lookup_insert_eq.
  destruct (now <? _); [|right; by right]. cbn [mbind option_bind]. rewrite parse_scope_json. cbn. destruct (isFresh now s); [by left|right; by right].
Qed.

(** ** The source *)

Section source_lemmas.
Context (api : GhePermissionApi) (login : jstr).

(** The readable repositories of a list, whatever the order of the answers. *)
Lemma mapM_flags {A} (f : A -> result jstr bool) (g : A -> Z) l flags :
  mapM_result (fun r => ok ← f r; Ok (g r, ok)) l = Ok flags ->
  forall n, n ∈ chosen flags <-> ∃ r, r ∈ l ∧ f r = Ok true ∧ g r = n.
Proof.
  revert flags. induction l as [|r l IH]; intros flags; cbn [mapM_result].
  - intros [= <-] n. split; [by intros ?%elem_of_nil|by intros (r & ?%elem_of_nil & _)].
  - destruct (f r) as [ok|] eqn:E; cbn [mbind result_bind]; [|discriminate].
    destruct (mapM_result _ l) as [flags'|] eqn:El; cbn [mbind result_bind]; [|discriminate]. intros [= <-] n. specialize (IH _ eq_refl n).
    unfold chosen in *. cbn [omap list_omap fst snd]. destruct ok.
    + rewrite elem_of_cons, IH. split.
      * intros [->|(r' & ? & ? & ?)]; [exists r; split; [by left|done]|exists r'; split; [by right|done]].
      * intros (r' & [->|Hin]%elem_of_cons & Hr & Hg); [by left|right; by exists r'].
    + rewrite IH. split.
      * intros (r' & ? & ? & ?). exists r'. split; [by right|done].
      * intros (r' & [->|Hin]%elem_of_cons & Hr & Hg); [congruence|by exists r'].
Qed.
Lemma mapM_all {A B} (f : A -> result jstr B) l ys : mapM_result f l = Ok ys -> forall x, x ∈ l -> is_ok (f x) = true.
Proof.
  revert ys. induction l as [|a l IH]; intros ys Hm x Hx; [by apply elem_of_nil in Hx|]. cbn [mapM_result] in Hm.
  destruct (f a) as [y|] eqn:E; cbn [mbind result_bind] in Hm; [|discriminate]. destruct (mapM_result f l) as [ys'|] eqn:El; [|discriminate].
  apply elem_of_cons in Hx as [->|Hx]; [by rewrite E|by eapply IH].
Qed.
Lemma uniqueOrgs_elem registered o : o ∈ uniqueOrgs registered -> ∃ r, r ∈ registered ∧ o = (rr_orgId r, rr_owner r).
Proof.
  unfold uniqueOrgs. assert (forall l acc, o ∈ foldl (fun orgs r => if existsb (fun o => o.1 =? rr_orgId r) orgs then orgs else orgs ++ [(rr_orgId r, rr_owner r)]) acc l ->
    o ∈ acc \/ ∃ r, r ∈ l ∧ o = (rr_orgId r, rr_owner r)) as H.
  { induction l as [|r l IH]; intros acc; cbn [foldl]; [by left|]. intros [Hin|(r' & Hr' & ->)]%IH; [|right; exists r'; split; [by right|done]].
    destruct (existsb _ acc); [by left|]. apply elem_of_app in Hin as [| ->%list_elem_of_singleton]; [by left|right; exists r; split; [by left|done]]. }
  intros Hin%H. destruct Hin as [?%elem_of_nil|]; done.
Qed.
(** An organisation and its teams are granted on the word of GitHub only. *)
Definition team_granted (owner : jstr) (t : Z) : Prop :=
  ∃ teams slug, listOrgTeams api owner = Ok teams ∧ (t, slug) ∈ teams ∧ teamMembership api owner slug login = Ok true.
Lemma memberTeams_granted owner ts t : memberTeams api login owner = Ok ts -> t ∈ ts -> team_granted owner t.
Proof.
  unfold memberTeams, atStage at 1. destruct (listOrgTeams api owner) as [teams|] eqn:E; cbn [mbind result_bind]; [|discriminate].
  destruct (mapM_result (memberOf api login owner) teams) as [flags|] eqn:Em; cbn [mbind result_bind]; [|discriminate]. intros [= <-].
  exists teams. assert (∃ slug, (t, slug) ∈ teams ∧ teamMembership api owner slug login = Ok true) as (slug & ? & ?); [|by exists slug].
  clear E. revert flags Em H. induction teams as [|[t' slug] teams IH]; intros flags; cbn [mapM_result].
  - intros [= <-] ?%elem_of_nil. done.
  - destruct (memberOf api login owner (t', slug)) as [f|] eqn:E; cbn [mbind result_bind]; [|discriminate].
    unfold memberOf, atStage in E. cbn [fst snd] in E. destruct (teamMembership api owner slug login) as [ok|] eqn:Et; cbn [mbind result_bind] in E; [|discriminate].
    injection E as <-.
    destruct (mapM_result _ teams) as [flags'|] eqn:El; cbn [mbind result_bind]; [|discriminate]. intros [= <-] Hin.
    assert ((ok = true ∧ t = t') \/ t ∈ chosen flags') as [[-> ->]|Hin'].
    { unfold chosen in *. cbn [omap list_omap fst snd] in Hin. destruct ok; [|by right]. apply elem_of_cons in Hin as [->|]; [by left|by right]. }
    + exists slug. split; [by left|done].
    + destruct (IH _ eq_refl Hin') as (s & ? & ?). exists s. split; [by right|done].
Qed.
Lemma memberOrgs_granted orgs found m :
  mapM_result (memberOrg api login) orgs = Ok found -> m ∈ omap id found ->
  ∃ o, o ∈ orgs ∧ o.2 = m.1 ∧ isOrgMember api m.1 login = Ok true ∧ forall t, t ∈ m.2 -> team_granted m.1 t.
Proof.
  revert found. induction orgs as [|o orgs IH]; intros found; cbn [mapM_result].
  - intros [= <-] ?%elem_of_nil. done.
  - destruct (memberOrg api login o) as [x|] eqn:Eo; cbn [mbind result_bind]; [|discriminate].
    destruct (mapM_result _ orgs) as [found'|] eqn:El; cbn [mbind result_bind]; [|discriminate]. intros [= <-] Hin.
    assert (x = Some m \/ m ∈ omap id found') as [->|Hin'].
    { cbn [omap list_omap id] in Hin. destruct x as [x|]; cbn in Hin; [|by right]. apply elem_of_cons in Hin as [->|]; [by left|by right]. }
    + unfold memberOrg, atStage in Eo. destruct (isOrgMember api o.2 login) as [[]|] eqn:Em; cbn [mbind result_bind] in Eo; try discriminate.
      destruct (memberTeams api login o.2) as [ts|] eqn:Et; cbn [mbind result_bind] in Eo; [|discriminate]. injection Eo as <-. exists o. cbn [fst snd].
      split; [by left|]. split; [done|]. split; [done|]. intros t Ht. by eapply memberTeams_granted.
    + destruct (IH _ eq_refl Hin') as (o' & ? & H). exists o'. split; [by right|done].
Qed.
End source_lemmas.

(** ** Invalidation *)

Lemma add_all_elem l : forall ts u, u ∈ add_all ts l <-> u ∈ ts \/ u ∈ l.
Proof.
  unfold add_all. induction l as [|x l IH]; intros ts u; cbn [foldl]; [rewrite elem_of_nil; tauto|]. rewrite IH, elem_of_cons.
  destruct (mem x ts) eqn:E; [apply mem_elem in E; naive_solver|]. rewrite elem_of_app, list_elem_of_singleton. tauto.
Qed.
Lemma users_where_elem p db u : u ∈ users_where p db <-> ∃ row, app_user db !! u = Some row ∧ p u row = true.
Proof.
  unfold users_where. rewrite list_elem_of_omap. split.
  - intros ([k row] & Hin%elem_of_map_to_list & He). cbn [fst snd] in He. destruct (p k row) eqn:E; [|done]. injection He as ->. by exists row.
  - intros (row & Hrow & Hp). exists (u, row). rewrite elem_of_map_to_list. cbn [fst snd]. by rewrite Hp.
Qed.
Definition with_id (db : AuthDb) (ids : list Z) (u : jstr) : Prop :=
  ∃ row g, app_user db !! u = Some row ∧ github_user_id row = Some g ∧ g ∈ ids.
Lemma byGithubIds_elem ids db u : u ∈ findUserIdsByGithubIds ids db <-> with_id db ids u.
Proof.
  unfold findUserIdsByGithubIds. rewrite users_where_elem. unfold with_id. split.
  - intros (row & Hrow & Hg). destruct (github_user_id row) as [g|] eqn:E; [|done]. exists row, g. by rewrite <- mem_Z_elem.
  - intros (row & g & Hrow & Hg & Hin). exists row. rewrite Hg. by rewrite mem_Z_elem.
Qed.
Lemma byLogins_elem logins db u : u ∈ findUserIdsByLogins logins db <-> ∃ row, app_user db !! u = Some row ∧ login_of row ∈ logins.
Proof. unfold findUserIdsByLogins. rewrite users_where_elem. by setoid_rewrite mem_elem. Qed.
Lemma byRepository_elem r o db u :
  u ∈ findUsersAffectedByRepository r o db <-> ∃ row, permission_cache db !! u = Some row ∧ affected_row r o row = true.
Proof.
  unfold findUsersAffectedByRepository. rewrite list_elem_of_omap. split.
  - intros ([k row] & Hin%elem_of_map_to_list & He). cbn [fst snd] in He. destruct (affected_row r o row) eqn:E; [|done]. injection He as ->. by exists row.
  - intros (row & Hrow & Hp). exists (u, row). rewrite elem_of_map_to_list. cbn [fst snd]. by rewrite Hp.
Qed.

(** The users of whom an event makes the scope doubtful: the members of a team are those that are
    recorded and those that GitHub names. *)
Definition of_team (github : option (jstr -> jstr -> result jstr (list Z))) (context : InvalidationContext) (teamId : Z) (db : AuthDb) (u : jstr) : Prop :=
  u ∈ listTeamMembers teamId db \/
  ∃ members org slug ids, github = Some members ∧ ic_org context = Some org ∧ ic_teamSlug context = Some slug ∧
    members org slug = Ok ids ∧ with_id db ids u.
Definition doubtful (github : option (jstr -> jstr -> result jstr (list Z))) (payload : PermissionInvalidated) (context : InvalidationContext)
    (db : AuthDb) (u : jstr) : Prop :=
  with_id db (pi_user_ids payload) u \/
  (∃ row, app_user db !! u = Some row ∧ login_of row ∈ pi_logins payload) \/
  (∃ t, pi_team_id payload = Some t ∧ of_team github context t db u) \/
  (∃ r row, pi_repository_id payload = Some r ∧ permission_cache db !! u = Some row ∧ affected_row r (ic_orgId context) row = true).
Lemma teamTargets_spec github context t ts db db' ts' b :
  teamTargets github context t ts db = (db', Ok (ts', b)) ->
  app_user db' = app_user db ∧ permission_cache db' = permission_cache db ∧
  forall u, u ∈ ts' <-> u ∈ ts \/ of_team github context t db u.
Proof.
  unfold teamTargets, of_team. assert (∀ u, u ∈ add_all ts (listTeamMembers t db) <-> u ∈ ts \/ u ∈ listTeamMembers t db) as Hl by (intros u; apply add_all_elem).
  destruct github as [members|], (ic_org context) as [org|], (ic_teamSlug context) as [slug|];
    try (intros [= <- <- _]; split_and!; [done|done|]; intros u; rewrite Hl; naive_solver).
  destruct (members org slug) as [ids|] eqn:E; [|discriminate]. cbn [replaceTeamMembers]. intros [= <- <- _]. split_and!; [done|done|].
  intros u. rewrite add_all_elem, Hl, elem_filter, elem_of_remove_dups, byGithubIds_elem, bool_decide_eq_true.
  assert (with_id db ids u -> is_Some (app_user db !! u)) by (intros (row & _ & -> & _); by eexists).
  split.
  - intros [[|]|[Hw _]]; [by left|right; by left|]. right. right. exists members, org, slug, ids. done.
  - intros [|[|(m & o & sl & i & [= <-] & [= <-] & [= <-] & Hi & Hw)]]; [by left; left|by left; right|]. right. rewrite E in Hi. injection Hi as <-. auto.
Qed.
Record forgotten (P : jstr -> Prop) (c c' : Caches) : Prop := {
  fg_row u : P u -> permission_cache (auth c') !! u = None;
  fg_redis u : P u -> redis c' !! scopeKey u = None;
  fg_version u row : P u -> app_user (auth c) !! u = Some row -> app_user (auth c') !! u = Some (bumped row);
  fg_others u : ~ P u -> permission_cache (auth c') !! u = permission_cache (auth c) !! u ∧
    redis c' !! scopeKey u = redis c !! scopeKey u ∧ app_user (auth c') !! u = app_user (auth c) !! u
}.
Lemma forget_lookup (ids : list jstr) (r : Redis) u : forget ids r !! scopeKey u = if decide (u ∈ ids) then None else r !! scopeKey u.
Proof.
  unfold forget. induction ids as [|x ids IH]; cbn [foldr]; [rewrite decide_False; [done|apply not_elem_of_nil]|].
  destruct (decide (u = x)) as [->|Hne].
  - rewrite lookup_delete_eq, decide_True; [done|by left].
  - rewrite lookup_delete_ne, IH by (intros He; apply Hne; unfold scopeKey in He; by apply app_inv_head in He).
    apply decide_ext. rewrite elem_of_cons. naive_solver.
Qed.
Lemma invalidate_user ids db u row :
  app_user db !! u = Some row -> app_user (invalidateUsers ids db).1 !! u = Some (if mem u ids then bumped row else row).
Proof. intros Hrow. cbn [fst invalidateUsers app_user set_cache set_users]. by rewrite map_lookup_imap, Hrow. Qed.
Lemma invalidate_nobody ids db u : app_user db !! u = None -> app_user (invalidateUsers ids db).1 !! u = None.
Proof. intros Hrow. cbn [fst invalidateUsers app_user set_cache set_users]. by rewrite map_lookup_imap, Hrow. Qed.
Lemma invalidate_row ids db u : permission_cache (invalidateUsers ids db).1 !! u = if decide (u ∈ ids) then None else permission_cache db !! u.
Proof.
  cbn [fst invalidateUsers permission_cache set_cache]. destruct (decide (u ∈ ids)) as [Hin|Hn].
  - apply map_lookup_filter_None. right. intros x Hx. cbn. tauto.
  - destruct (permission_cache db !! u) as [x|] eqn:E; [apply map_lookup_filter_Some; split; [done|exact Hn]|].
    apply map_lookup_filter_None. by left.
Qed.
Lemma invalidated_forgotten ids db db0 r :
  app_user db = app_user db0 -> permission_cache db = permission_cache db0 ->
  forgotten (fun u => u ∈ ids) (mkCaches db0 r) (mkCaches (invalidateUsers ids db).1 (forget ids r)).
Proof.
  intros Hu Hc. split; cbn [auth redis].
  - intros u Hin. by rewrite invalidate_row, decide_True.
  - intros u Hin. by rewrite forget_lookup, decide_True.
  - intros u row Hin Hrow. rewrite <- Hu in Hrow. rewrite (invalidate_user ids db u row Hrow). by apply mem_elem in Hin as ->.
  - intros u Hn. rewrite invalidate_row, forget_lookup, !decide_False by done. rewrite Hc. split; [done|]. split; [done|].
    destruct (app_user db !! u) as [row|] eqn:E; rewrite <- Hu, E; [|by apply invalidate_nobody].
    rewrite (invalidate_user ids db u row E). by apply mem_false in Hn as ->.
Qed.

(** What GitHub answered for a repository. *)
Definition affirmed (api : GhePermissionApi) (login : jstr) (r : RegisteredRepository) : Prop :=
  ∃ p, collaboratorPermission api (rr_owner r) (rr_name r) login = Ok (Some p) ∧ p ∈ READABLE_PERMISSIONS.
Lemma readable_affirmed api login r : readable api login r = Ok true <-> affirmed api login r.
Proof.
  unfold readable, affirmed, isReadable. destruct (collaboratorPermission _ _ _ _) as [[p|]|e]; cbn [mbind result_bind].
  - split; [intros [= H]; exists p; split; [done|by apply mem_elem]|intros (? & [= <-] & H%mem_elem); by rewrite H].
  - split; [discriminate|naive_solver].
  - split; [discriminate|naive_solver].
Qed.
Lemma readable_answered api login r :
  is_ok (readable api login r) = is_ok (collaboratorPermission api (rr_owner r) (rr_name r) login).
Proof. unfold readable. by destruct (collaboratorPermission _ _ _ _). Qed.

(** ** Theorems *)



(** *** Two users and a repository *)

Definition ann : jstr := js "u-ann".
Definition bob : jstr := js "u-bob".
Definition scope_of_ann : CachedScope := mkCached [7; 9] [] [] [] 1000 3.
Definition sample_caches : Caches :=
  mkCaches (mkAuthDb {[ann := mkUser (js "ann") (Some 11) 3; bob := mkUser (js "bob") None 1]} {[ann := cache_row 1000 scope_of_ann]} ∅)
    (writeRedis 1000 ann scope_of_ann ∅).
Definition repository_event : PermissionInvalidated := mkInvalidated [] [] None (Some 7) (js "repository").
Definition no_context : InvalidationContext := mkContext None None None.
Definition sample_api : GhePermissionApi :=
  mkApi (fun _ name _ => Ok (if jeqb name (js "app") then Some (js "write") else None)) (fun _ => Ok []) (fun _ _ _ => Ok false) (fun _ _ => Ok false).
Definition sample_registered : list RegisteredRepository :=
  [mkRegistered 9 (js "acme") (js "lib") 1 (js "private"); mkRegistered 7 (js "acme") (js "app") 1 (js "private")].

(** When deleting the keys fails, the event is delivered again; the rows that named the users are gone by
    then, so the second attempt finds nobody, succeeds, and Redis goes on serving the scope. *)
Example retry_forgets_nobody :
  let '(c1, r1) := applyInvalidation None (Err (js "ECONNRESET")) repository_event no_context sample_caches in
  let '(c2, r2) := applyInvalidation None (Ok tt) repository_event no_context c1 in
  (is_ok r1, r2, readRedis 2000 ann (redis c2)) = (false, Ok (mkInvalidation (js "repository") [] false), Some scope_of_ann).
Proof. vm_compute. reflexivity. Qed.
(** A lookup that is running has no row yet, so an event about a repository does not reach its user. *)
Example running_lookup_not_reached :
  let c := mkCaches (set_cache ∅ (auth sample_caches)) ∅ in
  let '(c', r) := applyInvalidation None (Ok tt) repository_event no_context c in
  (r, (writePermissionCache 2000 ann scope_of_ann (auth c')).2) = (Ok (mkInvalidation (js "repository") [] false), true).
Proof. vm_compute. reflexivity. Qed.
