(* ===== verification/AccessSystem.v ===== *)
(** * Access scopes under concurrent invalidation

    The resolver of [packages/authz/src/scope.ts] in several processes at once: requests read Redis,
    then the table, then ask GitHub; answers are written back behind a version that every invalidation
    raises; invalidations, changes at GitHub, crashes and evictions come at any time.  What may a
    cached scope still show after the user's permission was taken away? *)

From stdpp Require Import base list option strings numbers gmap relations.
From Stdlib Require Import ZArith Lia.
From S2P Require Import Prelude JsString Json Partition ScopedQuery AccessScope.
Open Scope Z_scope.

(** ** One call without interference *)

Inductive Thrown : Set := not_registered (userId : jstr) | lookup_failed (e : LookupError).
Definition scope_of (raw : RawAccessScope) (now v : Z) : CachedScope :=
  mkCached (raw_repositoryIds raw) (raw_orgIds raw) (raw_teamIds raw) (raw_visibilities raw) now v.
(** [#refreshOnce]: the scope is given out even when it was not written. *)
Definition refreshOnce (now : Z) (ask : jstr -> result LookupError RawAccessScope) (u : jstr) (c : Caches) : Caches * result Thrown CachedScope :=
  match readUser u (auth c) with
  | None => (c, Err (not_registered u))
  | Some (login, v) =>
    match ask login with
    | Err e => (c, Err (lookup_failed e))
    | Ok raw =>
      let s := scope_of raw now v in
      let '(db, written) := writePermissionCache now u s (auth c) in
      (mkCaches db (if written : bool then writeRedis now u s (redis c) else redis c), Ok s)
    end
  end.
Definition served_from (c : Caches) (now : Z) (u : jstr) (s : CachedScope) : Prop :=
  readRedis now u (redis c) = Some s \/ readCache u (auth c) = Some s.
Definition resolveCached (now : Z) (ask : jstr -> result LookupError RawAccessScope) (u : jstr) (c : Caches) : Caches * result Thrown CachedScope :=
  match readRedis now u (redis c) with
  | Some s => (c, Ok s)
  | None =>
    match readCache u (auth c) with
    | Some s => if isFresh now s then (mkCaches (auth c) (writeRedis now u s (redis c)), Ok s) else refreshOnce now ask u c
    | None => refreshOnce now ask u c
    end
  end.

(** A cached scope is given out only while it is fresh; otherwise GitHub is asked, and when it does not
    answer there is no scope. *)
Lemma resolve_fresh now ask u c c' s :
  resolveCached now ask u c = (c', Ok s) ->
  (served_from c now u s ∧ now - refreshedAt s < CACHE_TTL_MS) \/
  ∃ login v raw, readUser u (auth c) = Some (login, v) ∧ ask login = Ok raw ∧ s = scope_of raw now v.
Proof.
  unfold resolveCached, served_from. destruct (readRedis now u (redis c)) as [s1|] eqn:Er.
  { intros [= _ <-]. left. split; [by left|]. unfold readRedis in Er. destruct (redis_get _ _ _ ≫= _) as [s2|]; [|done]. cbn in Er.
    destruct (isFresh now s2) eqn:Ef; [|done]. injection Er as ->. unfold isFresh in Ef. lia. }
  assert (refreshOnce now ask u c = (c', Ok s) -> ∃ login v raw, readUser u (auth c) = Some (login, v) ∧ ask login = Ok raw ∧ s = scope_of raw now v) as Hr.
  { unfold refreshOnce. destruct (readUser u (auth c)) as [[login v]|]; [|done]. destruct (ask login) as [raw|] eqn:Ea; [|done].
    destruct (writePermissionCache _ _ _ _) as [db w]. intros [= _ <-]. by exists login, v, raw. }
  destruct (readCache u (auth c)) as [s1|]; [|by right; apply Hr]. destruct (isFresh now s1) eqn:Ef; [|by right; apply Hr].
  intros [= _ <-]. left. split; [by right|]. unfold isFresh in Ef. lia.
Qed.

(** ** The limit of concurrent lookups *)

Module Gate.
(** Lookups that wait, and those that were woken but have not run on yet. *)
Record Gate : Set := mkGate { running : Z; waiting : list nat; woken : list nat }.
Definition acquire (max : Z) (i : nat) (g : Gate) : Gate :=
  if running g <? max then mkGate (running g + 1) (waiting g) (woken g) else mkGate (running g) (waiting g ++ [i]) (woken g).
Definition continue (g : Gate) : Gate :=
  match woken g with i :: l => mkGate (running g + 1) (waiting g) l | [] => g end.
Definition release (g : Gate) : Gate :=
  match waiting g with
  | i :: l => mkGate (running g - 1) l (woken g ++ [i])
  | [] => mkGate (running g - 1) [] (woken g)
  end.
(** A lookup that comes between the release of a slot and the run of the one that was woken for it takes the
    slot too: two run where one may. *)
Example limit_exceeded :
  let g := continue (acquire 1 3 (release (acquire 1 2 (acquire 1 1 (mkGate 0 [] []))))) in (running g, waiting g) = (2, []).
Proof. reflexivity. Qed.
End Gate.

(** ** The state *)

Inductive Phase : Type :=
| ph_user
| ph_queued (login : jstr) (v : Z)
| ph_fetching (login : jstr) (v : Z)
| ph_fetched (s : CachedScope)
(** The statement of [writePermissionCache] has seen the version of the user, at this time. *)
| ph_checked (s : CachedScope) (at_ : Z)
| ph_written (s : CachedScope).
(** [sy_truth] is what GitHub answers for a user, [sy_held] what it has answered since the last
    invalidation of the user. *)
Record System : Type := mkSystem {
  sy_now : Z; sy_caches : Caches; sy_truth : jstr -> RawAccessScope; sy_held : jstr -> list RawAccessScope;
  (** [#inFlight] of each process, and the scopes from the table that are on their way to Redis. *)
  sy_flights : gmap (nat * jstr) Phase; sy_fills : list (jstr * CachedScope)
}.
Implicit Types (σ : System) (u : jstr) (s : CachedScope).

Definition set_caches (c : Caches) σ : System := mkSystem (sy_now σ) c (sy_truth σ) (sy_held σ) (sy_flights σ) (sy_fills σ).
Definition set_auth (db : AuthDb) σ : System := set_caches (mkCaches db (redis (sy_caches σ))) σ.
Definition set_redis (r : Redis) σ : System := set_caches (mkCaches (auth (sy_caches σ)) r) σ.
Definition set_flights (f : gmap (nat * jstr) Phase) σ : System := mkSystem (sy_now σ) (sy_caches σ) (sy_truth σ) (sy_held σ) f (sy_fills σ).
Definition set_fills (l : list (jstr * CachedScope)) σ : System := mkSystem (sy_now σ) (sy_caches σ) (sy_truth σ) (sy_held σ) (sy_flights σ) l.
Definition flies (p : nat) u (ph : Phase) σ : System := set_flights (<[(p, u) := ph]> (sy_flights σ)) σ.
Definition lands (p : nat) u σ : System := set_flights (delete (p, u) (sy_flights σ)) σ.
Definition db_of σ : AuthDb := auth (sy_caches σ).
Definition redis_of σ : Redis := redis (sy_caches σ).
Definition changed u (raw : RawAccessScope) σ : System :=
  mkSystem (sy_now σ) (sy_caches σ) (fun v => if decide (v = u) then raw else sy_truth σ v)
    (fun v => if decide (v = u) then raw :: sy_held σ u else sy_held σ v) (sy_flights σ) (sy_fills σ).
Definition invalidated (ids : list jstr) σ : System :=
  mkSystem (sy_now σ) (mkCaches (invalidateUsers ids (db_of σ)).1 (redis_of σ)) (sy_truth σ)
    (fun v => if decide (v ∈ ids) then [sy_truth σ v] else sy_held σ v) (sy_flights σ) (sy_fills σ).
Definition logged_in u (login : jstr) (id : option Z) (db : AuthDb) : AuthDb :=
  set_users (<[u := match app_user db !! u with
                    | Some row => mkUser login (match id with Some _ => id | None => github_user_id row end) (access_scope_version row)
                    | None => mkUser login id 0
                    end]> (app_user db)) db.

Inductive label : Set := l_invalidate (ids : list jstr) | l_forget (ids : list jstr) | l_other.
Inductive step : label -> System -> System -> Prop :=
| as_tick d σ : 0 <= d -> step l_other σ (mkSystem (sy_now σ + d) (sy_caches σ) (sy_truth σ) (sy_held σ) (sy_flights σ) (sy_fills σ))
| as_change u raw σ : step l_other σ (changed u raw σ)
| as_login u login id σ : step l_other σ (set_auth (logged_in u login id (db_of σ)) σ)
| as_invalidate ids σ : step (l_invalidate ids) σ (invalidated ids σ)
| as_forget ids σ : step (l_forget ids) σ (set_redis (forget ids (redis_of σ)) σ)
| as_evict key σ : step l_other σ (set_redis (delete key (redis_of σ)) σ)
(** A request finds its user in the table, and writes what it found to Redis. *)
| as_hit u s σ : readCache u (db_of σ) = Some s -> isFresh (sy_now σ) s = true -> step l_other σ (set_fills ((u, s) :: sy_fills σ) σ)
| as_fill u s l1 l2 σ : sy_fills σ = l1 ++ (u, s) :: l2 ->
    step l_other σ (set_fills (l1 ++ l2) (set_redis (writeRedis (sy_now σ) u s (redis_of σ)) σ))
| as_drop x l1 l2 σ : sy_fills σ = l1 ++ x :: l2 -> step l_other σ (set_fills (l1 ++ l2) σ)
(** It finds nobody: it joins the lookup of its process or starts one. *)
| as_fly p u σ : sy_flights σ !! (p, u) = None -> step l_other σ (flies p u ph_user σ)
| as_user p u login v σ : sy_flights σ !! (p, u) = Some ph_user -> readUser u (db_of σ) = Some (login, v) ->
    step l_other σ (flies p u (ph_queued login v) σ)
| as_acquire p u login v σ : sy_flights σ !! (p, u) = Some (ph_queued login v) -> step l_other σ (flies p u (ph_fetching login v) σ)
| as_fetched p u login v σ : sy_flights σ !! (p, u) = Some (ph_fetching login v) ->
    step l_other σ (flies p u (ph_fetched (scope_of (sy_truth σ u) (sy_now σ) v)) σ)
| as_check p u s σ : sy_flights σ !! (p, u) = Some (ph_fetched s) -> version_matches u (version s) (db_of σ) = true ->
    step l_other σ (flies p u (ph_checked s (sy_now σ)) σ)
| as_insert p u s at_ db σ : sy_flights σ !! (p, u) = Some (ph_checked s at_) -> insert_cache at_ u s (db_of σ) = (db, true) ->
    step l_other σ (flies p u (ph_written s) (set_auth db σ))
| as_redis p u s σ : sy_flights σ !! (p, u) = Some (ph_written s) ->
    step l_other σ (lands p u (set_redis (writeRedis (sy_now σ) u s (redis_of σ)) σ))
(** A lookup that ends: it failed, it was fenced, Redis is away, or the process is gone. *)
| as_land p u σ : step l_other σ (lands p u σ).

Definition initial (now : Z) (users : gmap jstr AppUserRow) (truth : jstr -> RawAccessScope) : System :=
  mkSystem now (mkCaches (mkAuthDb users ∅ ∅) ∅) truth (fun u => [truth u]) ∅ [].

(** ** The invariant *)

Definition raw_of s : RawAccessScope := mkRaw (repositoryIds s) (orgIds s) (teamIds s) (visibilities s).
(** A scope is what GitHub has answered since the last invalidation of its user, or it is at least as old as [stale] says. *)
Definition current (stale : jstr -> option Z) σ u (raw : RawAccessScope) (t : Z) : Prop :=
  raw ∈ sy_held σ u \/ ∃ T, stale u = Some T ∧ t <= T.
Definition at_version σ u (v : Z) (P : Prop) : Prop :=
  ∃ row, app_user (db_of σ) !! u = Some row ∧ v <= access_scope_version row ∧ (v = access_scope_version row -> P).
Definition phase_ok (stale : jstr -> option Z) σ u (ph : Phase) : Prop :=
  match ph with
  | ph_user => True
  | ph_queued _ v | ph_fetching _ v => at_version σ u v True
  | ph_fetched s => at_version σ u (version s) (raw_of s ∈ sy_held σ u) ∧ refreshedAt s <= sy_now σ
  | ph_checked s at_ => current stale σ u (raw_of s) at_ ∧ refreshedAt s <= at_ <= sy_now σ
  | ph_written s => current stale σ u (raw_of s) (refreshedAt s) ∧ refreshedAt s <= sy_now σ
  end.
(** [stale] bounds the table and the works, [stale_r] Redis. *)
Record inv (stale stale_r : jstr -> option Z) σ : Prop := {
  iv_order u T : stale u = Some T -> ∃ T', stale_r u = Some T' ∧ T <= T';
  iv_truth u : sy_truth σ u ∈ sy_held σ u;
  iv_rows u r : permission_cache (db_of σ) !! u = Some r ->
    current stale σ u (raw_of (cached_of r)) (refreshed_at r) ∧ refreshed_at r <= sy_now σ;
  iv_redis u v e s : redis_of σ !! scopeKey u = Some (v, e) -> parseCachedScope v = Some s ->
    current stale_r σ u (raw_of s) (refreshedAt s) ∧ refreshedAt s <= sy_now σ;
  iv_fills u s : (u, s) ∈ sy_fills σ -> current stale σ u (raw_of s) (refreshedAt s) ∧ refreshedAt s <= sy_now σ;
  iv_flights p u ph : sy_flights σ !! (p, u) = Some ph -> phase_ok stale σ u ph
}.

Record grows σ σ' : Prop := {
  gr_now : sy_now σ <= sy_now σ';
  gr_truth u : sy_truth σ' u ∈ sy_held σ' u;
  gr_held u raw : raw ∈ sy_held σ u -> raw ∈ sy_held σ' u;
  gr_users u row : app_user (db_of σ) !! u = Some row ->
    ∃ row', app_user (db_of σ') !! u = Some row' ∧ access_scope_version row' = access_scope_version row
}.
Lemma current_grows stale σ σ' u raw t : grows σ σ' -> current stale σ u raw t -> current stale σ' u raw t.
Proof. intros Hg [Hin|Ht]; [left; by apply (gr_held _ _ Hg)|by right]. Qed.
Lemma at_version_grows σ σ' u v (P Q : Prop) : grows σ σ' -> (P -> Q) -> at_version σ u v P -> at_version σ' u v Q.
Proof.
  intros Hg Hpq (row & Hrow & Hle & Hp). destruct (gr_users _ _ Hg _ _ Hrow) as (row' & Hrow' & He). exists row'. rewrite He. auto.
Qed.
Lemma phase_grows stale σ σ' u ph : grows σ σ' -> phase_ok stale σ u ph -> phase_ok stale σ' u ph.
Proof.
  intros Hg. pose proof (gr_now _ _ Hg). destruct ph; cbn [phase_ok].
  - done.
  - by apply at_version_grows.
  - by apply at_version_grows.
  - intros [Hv Hle]. split; [|lia]. eapply at_version_grows; [exact Hg| |exact Hv]. apply (gr_held _ _ Hg).
  - intros [Hc Hle]. split; [by eapply current_grows|lia].
  - intros [Hc Hle]. split; [by eapply current_grows|lia].
Qed.

Section keep.
Context (stale stale_r : jstr -> option Z) (σ σ' : System) (Hi : inv stale stale_r σ) (Hg : grows σ σ').

Lemma keep :
  (forall u r, permission_cache (db_of σ') !! u = Some r -> permission_cache (db_of σ) !! u = Some r \/
     (current stale σ' u (raw_of (cached_of r)) (refreshed_at r) ∧ refreshed_at r <= sy_now σ')) ->
  (forall u v e s, redis_of σ' !! scopeKey u = Some (v, e) -> parseCachedScope v = Some s -> redis_of σ !! scopeKey u = Some (v, e) \/
     (current stale_r σ' u (raw_of s) (refreshedAt s) ∧ refreshedAt s <= sy_now σ')) ->
  (forall u s, (u, s) ∈ sy_fills σ' -> (u, s) ∈ sy_fills σ \/ (current stale σ' u (raw_of s) (refreshedAt s) ∧ refreshedAt s <= sy_now σ')) ->
  (forall p u ph, sy_flights σ' !! (p, u) = Some ph -> sy_flights σ !! (p, u) = Some ph \/ phase_ok stale σ' u ph) ->
  inv stale stale_r σ'.
Proof.
  intros Hr Hd Hf Hl. pose proof (gr_now _ _ Hg) as Hn. destruct Hi as [I0 I1 I2 I3 I4 I5]. split.
  - done.
  - apply (gr_truth _ _ Hg).
  - intros u r Hur. destruct (Hr u r Hur) as [Hold|]; [|done]. destruct (I2 u r Hold). split; [by eapply current_grows|lia].
  - intros u v e s Hu Hp. destruct (Hd u v e s Hu Hp) as [Hold|]; [|done]. destruct (I3 u v e s Hold Hp). split; [by eapply current_grows|lia].
  - intros u s Hu. destruct (Hf u s Hu) as [Hold|]; [|done]. destruct (I4 u s Hold). split; [by eapply current_grows|lia].
  - intros p u ph Hu. destruct (Hl p u ph Hu) as [Hold|]; [|done]. eapply phase_grows; [exact Hg|by eapply I5].
Qed.
End keep.

Lemma grows_same σ σ' :
  (forall u, sy_truth σ u ∈ sy_held σ u) -> sy_now σ' = sy_now σ -> sy_truth σ' = sy_truth σ -> sy_held σ' = sy_held σ ->
  app_user (db_of σ') = app_user (db_of σ) -> grows σ σ'.
Proof. intros Ht Hn Htr Hh Hu. split; [lia|by rewrite Htr, Hh|by rewrite Hh|]. rewrite Hu. intros u row Hrow. by exists row. Qed.

Lemma scopeKey_inj u v : scopeKey u = scopeKey v -> u = v.
Proof. unfold scopeKey. apply app_inv_head. Qed.
Lemma current_redis stale stale_r σ u raw t :
  (forall u T, stale u = Some T -> ∃ T', stale_r u = Some T' ∧ T <= T') -> current stale σ u raw t -> current stale_r σ u raw t.
Proof. intros Ho [|(T & HT & Hle)]; [by left|right]. destruct (Ho _ _ HT) as (T' & HT' & ?). exists T'. split; [done|lia]. Qed.
Lemma written_scope (now : Z) u s (r : Redis) u' v e s' :
  writeRedis now u s r !! scopeKey u' = Some (v, e) -> parseCachedScope v = Some s' ->
  r !! scopeKey u' = Some (v, e) \/ (u' = u ∧ s' = s).
Proof.
  unfold writeRedis. destruct (_ <=? 0); [by left|]. destruct (decide (u' = u)) as [->|Hne].
  - rewrite lookup_insert_eq. intros [= <- <-]. rewrite parse_scope_json. intros [= <-]. by right.
  - rewrite lookup_insert_ne by (intros H; by apply Hne, scopeKey_inj). by left.
Qed.

Section steps.
Context (stale stale_r : jstr -> option Z) (σ : System) (Hi : inv stale stale_r σ).

(** A step on the flights alone. *)
Lemma keep_flight p u ph : phase_ok stale (flies p u ph σ) u ph -> inv stale stale_r (flies p u ph σ).
Proof.
  intros Hp. apply (keep stale stale_r σ); [done|apply grows_same; try done; apply Hi|by left|by left|by left|]. intros p' u' ph'.
  cbn [sy_flights flies set_flights]. destruct (decide ((p', u') = (p, u))) as [[= -> ->]|Hne].
  - rewrite lookup_insert_eq. intros [= <-]. by right.
  - rewrite lookup_insert_ne by done. by left.
Qed.
Lemma keep_land p u : inv stale stale_r (lands p u σ).
Proof.
  apply (keep stale stale_r σ); [done|apply grows_same; try done; apply Hi|by left|by left|by left|]. intros p' u' ph'.
  cbn [sy_flights lands set_flights]. intros [_ H]%lookup_delete_Some. by left.
Qed.
Lemma keep_fills l : (forall x, x ∈ l -> x ∈ sy_fills σ \/ (current stale σ x.1 (raw_of x.2) (refreshedAt x.2) ∧ refreshedAt x.2 <= sy_now σ)) ->
  inv stale stale_r (set_fills l σ).
Proof.
  intros Hl. apply (keep stale stale_r σ); [done|apply grows_same; try done; apply Hi|by left|by left| |by left].
  intros u s Hin. exact (Hl (u, s) Hin).
Qed.
Lemma keep_redis (r : Redis) :
  (forall u v e s, r !! scopeKey u = Some (v, e) -> parseCachedScope v = Some s -> redis_of σ !! scopeKey u = Some (v, e) \/
     (current stale_r σ u (raw_of s) (refreshedAt s) ∧ refreshedAt s <= sy_now σ)) -> inv stale stale_r (set_redis r σ).
Proof. intros Hr. apply (keep stale stale_r σ); [done|apply grows_same; try done; apply Hi|by left|exact Hr|by left|by left]. Qed.
Lemma scope_keep_write u s :
  current stale σ u (raw_of s) (refreshedAt s) -> refreshedAt s <= sy_now σ ->
  inv stale stale_r (set_redis (writeRedis (sy_now σ) u s (redis_of σ)) σ).
Proof.
  intros Hc Hle. apply keep_redis. intros u' v e s' Hv Hp. destruct (written_scope _ _ _ _ _ _ _ _ Hv Hp) as [|[-> ->]]; [by left|right].
  split; [|done]. eapply current_redis; [apply (iv_order _ _ _ Hi)|done].
Qed.
Lemma keep_insert u s at_ db :
  current stale σ u (raw_of s) at_ -> at_ <= sy_now σ -> insert_cache at_ u s (db_of σ) = (db, true) -> inv stale stale_r (set_auth db σ).
Proof.
  intros Hc Hle Hw. assert (db = set_cache (<[u := cache_row at_ s]> (permission_cache (db_of σ))) (db_of σ)) as ->.
  { unfold insert_cache in Hw. destruct (permission_cache (db_of σ) !! u) as [r|]; [destruct (_ <=? _)|]; congruence. }
  apply (keep stale stale_r σ); [done|apply grows_same; try done; apply Hi| |by left|by left|by left]. intros u' r.
  cbn [db_of sy_caches set_auth set_caches auth permission_cache set_cache]. destruct (decide (u' = u)) as [->|Hne].
  - rewrite lookup_insert_eq. intros [= <-]. right. unfold cached_of, cache_row, raw_of. cbn. destruct s. done.
  - rewrite lookup_insert_ne by done. by left.
Qed.

End steps.
Lemma raw_scope raw now v : raw_of (scope_of raw now v) = raw.
Proof. by destruct raw. Qed.
Lemma step_other stale stale_r σ σ' : inv stale stale_r σ -> step l_other σ σ' -> inv stale stale_r σ'.
Proof.
  intros Hi Hs. inversion Hs as [d ? Hd|u raw ?|u login id ?| | |key ?|u s ? Hc Hf|u s l1 l2 ? Hl|x l1 l2 ? Hl|p u ? Hn|p u login v ? Hp Hu
    |p u login v ? Hp|p u login v ? Hp|p u s ? Hp Hv|p u s at_ db ? Hp Hw|p u s ? Hp|p u ?]; subst.
  - apply (keep stale stale_r σ); [done| |by left|by left|by left|by left]. split; [cbn; lia|apply Hi|done|]. intros u row Hrow. by exists row.
  - apply (keep stale stale_r σ); [done| |by left|by left|by left|by left]. split; [cbn; lia|..]; cbn.
    + intros v. destruct (decide (v = u)) as [->|]; [by left|apply Hi].
    + intros v raw'. destruct (decide (v = u)) as [->|]; [by right|done].
    + intros v row Hrow. by exists row.
  - apply (keep stale stale_r σ); [done| |by left|by left|by left|by left]. split; [cbn; lia|apply Hi|done|]. intros v row Hrow.
    change (app_user (db_of (set_auth (logged_in u login id (db_of σ)) σ))) with (app_user (logged_in u login id (db_of σ))).
    unfold logged_in. cbn [app_user set_users]. destruct (decide (v = u)) as [->|Hne].
    + rewrite lookup_insert_eq, Hrow. by eexists.
    + rewrite lookup_insert_ne by done. by exists row.
  - eapply keep_redis; [done|]. intros u v e s Hv _. left. by apply lookup_delete_Some in Hv as [_ ?].
  - eapply keep_fills; [done|]. intros x [->|Hx]%elem_of_cons; [|by left]. right. unfold readCache in Hc.
    destruct (permission_cache (db_of σ) !! u) as [r|] eqn:E; [|done]. injection Hc as <-. exact (iv_rows _ _ _ Hi u r E).
  - destruct (iv_fills _ _ _ Hi u s) as [Hc Hle]; [rewrite Hl; apply elem_of_app; right; by left|].
    eapply keep_fills; [eapply scope_keep_write; [exact Hi|done|done]|]. intros y Hy. left. cbn [sy_fills set_redis set_caches]. rewrite Hl.
    apply elem_of_app in Hy as [|]; apply elem_of_app; [by left|right; by right].
  - eapply keep_fills; [done|]. intros y Hy. left. rewrite Hl. apply elem_of_app in Hy as [|]; apply elem_of_app; [by left|right; by right].
  - by eapply keep_flight.
  - eapply keep_flight; [done|]. unfold readUser in Hu. destruct (app_user (db_of σ) !! u) as [row|] eqn:E; [|done]. injection Hu as <- <-.
    exists row. split; [done|]. split; [lia|done].
  - eapply keep_flight; [done|]. exact (iv_flights _ _ _ Hi p u _ Hp).
  - eapply keep_flight; [done|]. pose proof (iv_flights _ _ _ Hi p u _ Hp) as (row & Hrow & Hle & _). split; [|cbn; lia]. exists row. split; [done|].
    split; [done|]. intros _. rewrite raw_scope. apply Hi.
  - eapply keep_flight; [done|]. pose proof (iv_flights _ _ _ Hi p u _ Hp) as [(row & Hrow & Hle & Hh) Hle']. unfold version_matches in Hv. rewrite Hrow in Hv.
    apply Z.eqb_eq in Hv. split; [|cbn; lia]. left. by apply Hh.
  - destruct (iv_flights _ _ _ Hi p u _ Hp) as [Hc Hle]. eapply keep_flight; [eapply keep_insert; [exact Hi|done|lia|done]|].
    split; [|cbn; lia]. destruct Hc as [|(T & HT & ?)]; [by left|right]. exists T. split; [done|lia].
  - destruct (iv_flights _ _ _ Hi p u _ Hp) as [Hc Hle]. eapply keep_land, scope_keep_write; done.
  - by apply keep_land.
Qed.

(** ** Invalidation *)

Definition since (ids : list jstr) (now : Z) (f : jstr -> option Z) : jstr -> option Z := fun v => if decide (v ∈ ids) then Some now else f v.
Lemma invalidated_users ids σ u row :
  app_user (db_of σ) !! u = Some row -> app_user (db_of (invalidated ids σ)) !! u = Some (if mem u ids then bumped row else row).
Proof. apply invalidate_user. Qed.
Lemma invalidated_row ids σ u :
  permission_cache (db_of (invalidated ids σ)) !! u = if decide (u ∈ ids) then None else permission_cache (db_of σ) !! u.
Proof. apply invalidate_row. Qed.
(** A lookup that read the version before the invalidation of its user is fenced. *)
Lemma invalidated_version ids σ u v P :
  at_version σ u v P -> at_version (invalidated ids σ) u v (u ∉ ids ∧ P).
Proof.
  intros (row & Hrow & Hle & Hp). eexists. split; [by apply invalidated_users|]. destruct (mem u ids) eqn:E.
  - cbn. split; [lia|]. intros ->. lia.
  - apply mem_false in E. auto.
Qed.
Lemma at_version_weaken σ u v (P Q : Prop) : (P -> Q) -> at_version σ u v P -> at_version σ u v Q.
Proof. intros Hpq (row & Hrow & Hle & Hp). exists row. auto. Qed.
Lemma invalidated_held ids σ u : u ∉ ids -> sy_held (invalidated ids σ) u = sy_held σ u.
Proof. intros Hn. cbn. by rewrite decide_False. Qed.
Lemma invalidated_current stale stale' ids σ u raw t :
  (u ∉ ids -> stale' u = stale u) -> (u ∈ ids -> ∃ T, stale' u = Some T ∧ t <= T) ->
  current stale σ u raw t -> current stale' (invalidated ids σ) u raw t.
Proof.
  intros Hs Hin Hc. destruct (decide (u ∈ ids)) as [Hu|Hn]; [right; by apply Hin|].
  destruct Hc as [Hc|Hc]; [left; by rewrite invalidated_held|right; by rewrite Hs].
Qed.
(** What becomes of a user that is invalidated: [stale] may say that nothing old is on its way. *)
Lemma invalidate_inv stale stale_r stale' ids σ :
  inv stale stale_r σ -> (forall u, u ∉ ids -> stale' u = stale u) ->
  (forall u, u ∈ ids -> stale' u = Some (sy_now σ) \/
     (stale' u = None ∧ (forall s, (u, s) ∉ sy_fills σ) ∧
      forall p ph, sy_flights σ !! (p, u) = Some ph -> match ph with ph_checked _ _ | ph_written _ => False | _ => True end)) ->
  inv stale' (since ids (sy_now σ) stale_r) (invalidated ids σ).
Proof.
  intros [I0 I1 I2 I3 I4 I5] Hout Hin. split.
  - intros u T HT. unfold since. destruct (decide (u ∈ ids)) as [Hu|Hn]; [|rewrite Hout in HT by done; by apply I0].
    destruct (Hin u Hu) as [He|(He & _)]; [|congruence]. exists (sy_now σ). split; [done|]. rewrite He in HT. injection HT as ->. lia.
  - intros u. cbn. destruct (decide (u ∈ ids)); [by left|apply I1].
  - intros u r Hr. rewrite invalidated_row in Hr. destruct (decide (u ∈ ids)); [done|]. destruct (I2 u r Hr) as [Hc Hle]. split; [|done].
    eapply invalidated_current; [by intros; apply Hout|done|exact Hc].
  - intros u v e s Hv Hp. destruct (I3 u v e s Hv Hp) as [Hc Hle]. split; [|done]. eapply invalidated_current; [..|exact Hc].
    + intros Hn. unfold since. by rewrite decide_False.
    + intros Hu. unfold since. rewrite decide_True by done. by exists (sy_now σ).
  - intros u s Hs. destruct (I4 u s Hs) as [Hc Hle]. split; [|done]. eapply invalidated_current; [by intros; apply Hout| |exact Hc].
    intros Hu. destruct (Hin u Hu) as [->|(_ & Hno & _)]; [by exists (sy_now σ)|by destruct (Hno s)].
  - intros p u ph Hp. pose proof (I5 p u ph Hp) as Hok. destruct ph as [|login v|login v|s|s at_|s]; cbn [phase_ok] in *.
    + done.
    + eapply at_version_weaken; [|by apply invalidated_version]. done.
    + eapply at_version_weaken; [|by apply invalidated_version]. done.
    + destruct Hok as [Hv Hle]. split; [|done]. apply (invalidated_version ids) in Hv. destruct Hv as (row & Hrow & Hle' & Hh). exists row.
      split; [done|]. split; [done|]. intros He. destruct (Hh He) as [Hn Hraw]. by rewrite invalidated_held.
    + destruct Hok as [Hc Hle]. split; [|done]. eapply invalidated_current; [by intros; apply Hout| |exact Hc].
      intros Hu. destruct (Hin u Hu) as [->|(_ & _ & Hno)]; [exists (sy_now σ); split; [done|lia]|by destruct (Hno p _ Hp)].
    + destruct Hok as [Hc Hle]. split; [|done]. eapply invalidated_current; [by intros; apply Hout| |exact Hc].
      intros Hu. destruct (Hin u Hu) as [->|(_ & _ & Hno)]; [by exists (sy_now σ)|by destruct (Hno p _ Hp)].
Qed.
Lemma forget_inv stale stale_r ids σ : inv stale stale_r σ -> inv stale stale_r (set_redis (forget ids (redis_of σ)) σ).
Proof.
  intros Hi. eapply keep_redis; [done|]. intros u v e s Hv _. rewrite forget_lookup in Hv. destruct (decide (u ∈ ids)); [done|by left].
Qed.
(** Once the key is deleted Redis knows nothing old either. *)
Lemma forget_clean stale stale_r ids σ u :
  inv stale stale_r σ -> stale u = None -> u ∈ ids ->
  inv stale (fun v => if decide (v = u) then None else stale_r v) (set_redis (forget ids (redis_of σ)) σ).
Proof.
  intros Hi Hs Hu. pose proof (forget_inv stale stale_r ids σ Hi) as [I0 I1 I2 I3 I4 I5]. split; try done.
  - intros v T HT. destruct (decide (v = u)) as [->|]; [congruence|by apply I0].
  - intros v x e s Hv Hp. destruct (I3 v x e s Hv Hp) as [[Hc|(T & HT & Hle)] Hn]; (split; [|done]); [by left|].
    destruct (decide (v = u)) as [->|Hne]; [|right; exists T; by rewrite decide_False].
    cbn [redis_of sy_caches set_redis set_caches redis] in Hv. rewrite forget_lookup, decide_True in Hv by done. done.
Qed.

(** ** Runs *)

Definition spares u (l : label) : Prop := match l with l_invalidate ids => u ∉ ids | _ => True end.
Definition steps (P : label -> Prop) : System -> System -> Prop := rtc (fun σ σ' => ∃ l, P l ∧ step l σ σ').
(** A scope that a request gets from a cache at this time. *)
Definition served σ u s : Prop :=
  readRedis (sy_now σ) u (redis_of σ) = Some s \/ (readCache u (db_of σ) = Some s ∧ isFresh (sy_now σ) s = true).
(** Nothing is about to write a scope of the user that was found before. *)
Definition quiet u σ : Prop :=
  (forall s, (u, s) ∉ sy_fills σ) ∧
  forall p ph, sy_flights σ !! (p, u) = Some ph -> match ph with ph_checked _ _ | ph_written _ => False | _ => True end.

Lemma run_keeps u stale stale_r σ σ' :
  inv stale stale_r σ -> steps (spares u) σ σ' ->
  ∃ stale' stale_r', inv stale' stale_r' σ' ∧ stale' u = stale u ∧ stale_r' u = stale_r u.
Proof.
  intros Hi Hs. revert stale stale_r Hi. induction Hs as [|σ σ1 σ' (l & Hl & Hst) _ IH]; intros stale stale_r Hi; [by exists stale, stale_r|].
  destruct l as [ids|ids|].
  - inversion Hst; subst. cbn in Hl. destruct (IH (since ids (sy_now σ) stale) (since ids (sy_now σ) stale_r)) as (s & r & Hi' & Hs' & Hr').
    { eapply invalidate_inv; [exact Hi|..]; intros v Hv; unfold since; [by rewrite decide_False|left; by rewrite decide_True]. }
    exists s, r. split; [done|]. unfold since in Hs', Hr'. rewrite decide_False in Hs', Hr' by done. done.
  - inversion Hst; subst. by apply IH, forget_inv.
  - by eapply IH, step_other.
Qed.
Lemma run_inv σ σ' : (∃ stale stale_r, inv stale stale_r σ) -> steps (fun _ => True) σ σ' -> ∃ stale stale_r, inv stale stale_r σ'.
Proof.
  intros Hi Hs. induction Hs as [|σ σ1 σ' (l & _ & Hst) _ IH]; [done|]. apply IH. destruct Hi as (stale & stale_r & Hi). destruct l as [ids|ids|].
  - inversion Hst; subst. exists (since ids (sy_now σ) stale), (since ids (sy_now σ) stale_r).
    eapply invalidate_inv; [exact Hi|..]; intros v Hv; unfold since; [by rewrite decide_False|left; by rewrite decide_True].
  - inversion Hst; subst. exists stale, stale_r. by apply forget_inv.
  - exists stale, stale_r. by eapply step_other.
Qed.
Lemma initial_inv now users truth : ∃ stale stale_r, inv stale stale_r (initial now users truth).
Proof.
  exists (fun _ => None), (fun _ => None). split; cbn; try done.
  - intros u. by left.
  - intros u s H. by apply elem_of_nil in H.
Qed.
Lemma served_current stale stale_r σ u s :
  inv stale stale_r σ -> served σ u s -> current stale_r σ u (raw_of s) (refreshedAt s) ∧ sy_now σ - refreshedAt s < CACHE_TTL_MS.
Proof.
  intros Hi [Hr|[Hc Hf]].
  - unfold readRedis, redis_get in Hr. destruct (redis_of σ !! scopeKey u) as [[v e]|] eqn:E; [|done]. destruct (_ <? e); [|done].
    cbn [mbind option_bind] in Hr. destruct (parseCachedScope v) as [s'|] eqn:Ep; [|done]. cbn in Hr. destruct (isFresh (sy_now σ) s') eqn:Ef; [|done].
    injection Hr as ->. split; [apply (iv_redis _ _ _ Hi u v e s E Ep)|]. unfold isFresh in Ef. lia.
  - unfold readCache in Hc. destruct (permission_cache (db_of σ) !! u) as [r|] eqn:E; [|done]. injection Hc as <-.
    split; [|unfold isFresh in Hf; lia]. eapply current_redis; [apply (iv_order _ _ _ Hi)|]. exact (proj1 (iv_rows _ _ _ Hi u r E)).
Qed.

(** ** Theorems *)

(** [C18] A permission that was taken away is gone from the caches five minutes after its invalidation at
    the latest: whatever requests, lookups, evictions and crashes do and however they interleave, from
    then on a cache serves a user only scopes that GitHub has given since the invalidation. *)
Theorem revoked_scope_expires now users truth σ0 σ1 σ2 ids u s :
  steps (fun _ => True) (initial now users truth) σ0 -> u ∈ ids -> step (l_invalidate ids) σ0 σ1 -> steps (spares u) σ1 σ2 ->
  sy_now σ1 + CACHE_TTL_MS <= sy_now σ2 -> served σ2 u s -> raw_of s ∈ sy_held σ2 u.
Proof.
  intros H0 Hu H1 H2 Ht Hs. destruct (run_inv _ _ (initial_inv now users truth) H0) as (stale & stale_r & Hi).
  inversion H1; subst. destruct (run_keeps u (since ids (sy_now σ0) stale) (since ids (sy_now σ0) stale_r) (invalidated ids σ0) σ2)
    as (st & st_r & Hi2 & _ & Hr); [|done|].
  { eapply invalidate_inv; [exact Hi|..]; intros v Hv; unfold since; [by rewrite decide_False|left; by rewrite decide_True]. }
  destruct (served_current _ _ _ _ _ Hi2 Hs) as [[|(T & HT & Hle)] Hf]; [done|]. rewrite Hr in HT. unfold since in HT.
  rewrite decide_True in HT by done. injection HT as <-. cbn [sy_now invalidated] in Ht. lia.
Qed.

(** [C19] The invalidation holds at once when nothing was about to be written: if no process has passed the
    check of the version or is filling Redis for the user, then as soon as the rows and the key are
    deleted no cache serves a scope from before, although lookups that were running go on. *)
Theorem invalidation_immediate now users truth σ0 σ1 σ2 σ3 σ4 ids ids' u s :
  steps (fun _ => True) (initial now users truth) σ0 -> quiet u σ0 -> u ∈ ids -> step (l_invalidate ids) σ0 σ1 ->
  steps (spares u) σ1 σ2 -> u ∈ ids' -> step (l_forget ids') σ2 σ3 -> steps (spares u) σ3 σ4 ->
  served σ4 u s -> raw_of s ∈ sy_held σ4 u.
Proof.
  intros H0 [Hq1 Hq2] Hu H1 H2 Hu' H3 H4 Hs. destruct (run_inv _ _ (initial_inv now users truth) H0) as (stale & stale_r & Hi).
  inversion H1; subst.
  destruct (run_keeps u (fun v => if decide (v = u) then None else since ids (sy_now σ0) stale v) (since ids (sy_now σ0) stale_r) (invalidated ids σ0) σ2)
    as (st & st_r & Hi2 & Hst & _); [|done|].
  { eapply invalidate_inv; [exact Hi|..]; intros v Hv; unfold since.
    - rewrite !decide_False; [done|done|]. by intros ->.
    - destruct (decide (v = u)) as [->|]; [by right|left; by rewrite decide_True]. }
  rewrite decide_True in Hst by done. inversion H3; subst.
  destruct (run_keeps u _ _ _ _ (forget_clean _ _ ids' _ u Hi2 Hst Hu') H4) as (st4 & st_r4 & Hi4 & _ & Hr4).
  destruct (served_current _ _ _ _ _ Hi4 Hs) as [[|(T & HT & _)] _]; [done|]. by rewrite Hr4, decide_True in HT.
Qed.

(** *** A user loses a repository *)

Definition both : RawAccessScope := mkRaw [7; 9] [] [] [].
Definition only_lib : RawAccessScope := mkRaw [9] [] [] [].
Definition users : gmap jstr AppUserRow := {[ann := mkUser (js "ann") (Some 11) 3]}.
Definition begin_access : System := initial 0 users (fun _ => both).
Definition after (l : label) (st : System) : Type := {σ : System | step l st σ}.
Definition before_lookup : after l_other begin_access.
Proof. eexists. apply (as_fly 0 ann). reflexivity. Defined.
Definition user_read : after l_other (`before_lookup).
Proof. eexists. eapply (as_user 0 ann); vm_compute; reflexivity. Defined.
Definition admitted : after l_other (`user_read).
Proof. eexists. eapply (as_acquire 0 ann). vm_compute. reflexivity. Defined.
Definition fetched : after l_other (`admitted).
Proof. eexists. eapply (as_fetched 0 ann). vm_compute. reflexivity. Defined.
Definition checked : after l_other (`fetched).
Proof. eexists. eapply (as_check 0 ann); vm_compute; reflexivity. Defined.
Definition taken_away : after l_other (`checked).
Proof. eexists. apply (as_change ann only_lib). Defined.
Definition revoked : after (l_invalidate [ann]) (`taken_away).
Proof. eexists. apply as_invalidate. Defined.
Definition inserted : after l_other (`revoked).
Proof. eexists. eapply (as_insert 0 ann); [vm_compute; reflexivity|apply injective_projections; [reflexivity|vm_compute; reflexivity]]. Defined.
(** The table is not locked between the check of the version and the insert: what was found before the
    invalidation is cached after it, and served. *)
Example fence_is_not_atomic :
  (repositoryIds <$> readCache ann (db_of (`inserted)), access_scope_version <$> app_user (db_of (`inserted)) !! ann,
   map raw_repositoryIds (sy_held (`inserted) ann)) = (Some [7; 9], Some 4, [[9]]).
Proof. vm_compute. reflexivity. Qed.

(** So does a scope that was on its way from the table to Redis. *)
Example filled_after_deletion :
  let c := sample_caches in
  let emptied := forget [ann] (redis c) in
  match readCache ann (auth c) with
  | Some s => (readRedis 2000 ann emptied, readRedis 2000 ann (writeRedis 2000 ann s emptied)) = (None, Some scope_of_ann)
  | None => False
  end.
Proof. vm_compute. reflexivity. Qed.
Definition keys_deleted : after (l_forget [ann]) (`inserted).
Proof. eexists. apply as_forget. Defined.
Definition five_minutes_later : after l_other (`keys_deleted).
Proof. eexists. apply (as_tick CACHE_TTL_MS). done. Defined.
Definition second_lookup : after l_other (`five_minutes_later).
Proof. eexists. apply (as_fly 1 ann). vm_compute. reflexivity. Defined.
Definition second_user : after l_other (`second_lookup).
Proof. eexists. eapply (as_user 1 ann); vm_compute; reflexivity. Defined.
Definition second_admitted : after l_other (`second_user).
Proof. eexists. eapply (as_acquire 1 ann). vm_compute. reflexivity. Defined.
Definition second_fetched : after l_other (`second_admitted).
Proof. eexists. eapply (as_fetched 1 ann). vm_compute. reflexivity. Defined.
Definition second_checked : after l_other (`second_fetched).
Proof. eexists. eapply (as_check 1 ann); vm_compute; reflexivity. Defined.
Definition second_inserted : after l_other (`second_checked).
Proof. eexists. eapply (as_insert 1 ann); [vm_compute; reflexivity|apply injective_projections; [reflexivity|vm_compute; reflexivity]]. Defined.
Definition new_scope : CachedScope := scope_of only_lib CACHE_TTL_MS 4.
Lemma then_access {P l st σ'} (σ : after l st) : P l -> steps P (`σ) σ' -> steps P st σ'.
Proof. intros Hl Hs. eapply rtc_l; [|exact Hs]. exists l. split; [exact Hl|exact (proj2_sig σ)]. Qed.
Lemma until_taken_away : steps (fun _ => True) begin_access (`taken_away).
Proof.
  apply (then_access before_lookup); [done|]. apply (then_access user_read); [done|]. apply (then_access admitted); [done|].
  apply (then_access fetched); [done|]. apply (then_access checked); [done|]. apply (then_access taken_away); [done|]. apply rtc_refl.
Qed.
Lemma until_second : steps (spares ann) (`keys_deleted) (`second_inserted).
Proof.
  apply (then_access five_minutes_later); [done|]. apply (then_access second_lookup); [done|]. apply (then_access second_user); [done|].
  apply (then_access second_admitted); [done|]. apply (then_access second_fetched); [done|]. apply (then_access second_checked); [done|].
  apply (then_access second_inserted); [done|]. apply rtc_refl.
Qed.
Lemma second_served : served (`second_inserted) ann new_scope.
Proof. right. vm_compute. split; reflexivity. Qed.
Lemma revoked_scope_expires_witness :
  readRedis 300000 ann (redis_of (`second_inserted)) = None ∧ raw_of new_scope ∈ sy_held (`second_inserted) ann.
Proof.
  split; [vm_compute; reflexivity|].
  apply (revoked_scope_expires 0 users (fun _ => both) (`taken_away) (`revoked) (`second_inserted) [ann] ann new_scope).
  - exact until_taken_away.
  - by left.
  - exact (proj2_sig revoked).
  - apply (then_access inserted); [done|]. apply (then_access keys_deleted); [done|]. exact until_second.
  - vm_compute. discriminate.
  - exact second_served.
Defined.

(** *** The same at once: the lookup comes after the invalidation *)

Definition revoked_first : after (l_invalidate [ann]) begin_access.
Proof. eexists. apply as_invalidate. Defined.
Definition deleted_first : after (l_forget [ann]) (`revoked_first).
Proof. eexists. apply as_forget. Defined.
Definition then_fly : after l_other (`deleted_first).
Proof. eexists. apply (as_fly 1 ann). vm_compute. reflexivity. Defined.
Definition then_user : after l_other (`then_fly).
Proof. eexists. eapply (as_user 1 ann); vm_compute; reflexivity. Defined.
Definition then_admitted : after l_other (`then_user).
Proof. eexists. eapply (as_acquire 1 ann). vm_compute. reflexivity. Defined.
Definition then_fetched : after l_other (`then_admitted).
Proof. eexists. eapply (as_fetched 1 ann). vm_compute. reflexivity. Defined.
Definition then_checked : after l_other (`then_fetched).
Proof. eexists. eapply (as_check 1 ann); vm_compute; reflexivity. Defined.
Definition then_inserted : after l_other (`then_checked).
Proof. eexists. eapply (as_insert 1 ann); [vm_compute; reflexivity|apply injective_projections; [reflexivity|vm_compute; reflexivity]]. Defined.
Definition then_cached : after l_other (`then_inserted).
Proof. eexists. eapply (as_redis 1 ann). vm_compute. reflexivity. Defined.
Lemma until_cached : steps (spares ann) (`deleted_first) (`then_cached).
Proof.
  apply (then_access then_fly); [done|]. apply (then_access then_user); [done|]. apply (then_access then_admitted); [done|].
  apply (then_access then_fetched); [done|]. apply (then_access then_checked); [done|]. apply (then_access then_inserted); [done|].
  apply (then_access then_cached); [done|]. apply rtc_refl.
Qed.
Lemma invalidation_immediate_witness :
  served (`then_cached) ann (scope_of both 0 4) ∧ raw_of (scope_of both 0 4) ∈ sy_held (`then_cached) ann.
Proof.
  assert (served (`then_cached) ann (scope_of both 0 4)) as Hs by (left; vm_compute; reflexivity). split; [exact Hs|].
  apply (invalidation_immediate 0 users (fun _ => both) begin_access (`revoked_first) (`revoked_first) (`deleted_first) (`then_cached)
    [ann] [ann] ann (scope_of both 0 4)).
  - apply rtc_refl.
  - split; [intros s H; by apply elem_of_nil in H|]. intros p ph H. vm_compute in H. discriminate.
  - by left.
  - exact (proj2_sig revoked_first).
  - apply rtc_refl.
  - by left.
  - exact (proj2_sig deleted_first).
  - exact until_cached.
  - exact Hs.
Defined.
