(* ===== verification/TeamScope.v ===== *)
(** * Teams of a repository in its documents

    [packages/authz/src/team-scope.ts], with [setAllowedTeams] and [findRepositoriesForTeam] of
    [packages/db/src/repositories/repository.ts] and [applyRepositoryTeams] of [packages/es/src/registry.ts]:
    the teams that GitHub names for a repository go to its row and then to all of its documents; when
    the documents cannot be written the row is put back, so that the next round sees the difference
    again.  The lock of the repository makes a round atomic for other rounds. *)

From stdpp Require Import base list option strings numbers gmap sorting.
From Stdlib Require Import ZArith Lia.
From S2P Require Import Prelude JsString ScopedQuery.
Open Scope Z_scope.

Record RepositoryRow : Set := mkRepo { owner : jstr; name : jstr; org_id : Z; allowed_team_ids : list Z }.
(** The teams of the documents of each repository, one list per document and index. *)
Record TeamState : Set := mkTeams { rows : gmap Z RepositoryRow; teams : gmap Z (jstr * Z); documents : gmap Z (list (list Z)) }.
Definition set_rows (m : gmap Z RepositoryRow) (s : TeamState) : TeamState := mkTeams m (teams s) (documents s).
Definition set_documents (m : gmap Z (list (list Z))) (s : TeamState) : TeamState := mkTeams (rows s) (teams s) m.

Definition normalized (ids : list Z) : list Z := merge_sort Z.le (remove_dups ids).
Definition setAllowedTeams (repositoryId : Z) (teamIds : list Z) (s : TeamState) : TeamState * bool :=
  match rows s !! repositoryId with
  | Some r => if bool_decide (allowed_team_ids r = normalized teamIds) then (s, false)
              else (set_rows (<[repositoryId := mkRepo (owner r) (name r) (org_id r) (normalized teamIds)]> (rows s)) s, true)
  | None => (s, false)
  end.
Definition upsertTeam (team_id : Z) (slug : jstr) (org : Z) (s : TeamState) : TeamState :=
  mkTeams (rows s) (<[team_id := (slug, org)]> (teams s)) (documents s).
Definition findRepositoriesForTeam (teamId : Z) (s : TeamState) : list Z :=
  omap (fun kr : Z * RepositoryRow => if mem_Z teamId (allowed_team_ids kr.2) then Some kr.1 else None) (map_to_list (rows s)).

(** What happened to a request over all documents: those that were reached (a document that somebody
    else was writing is passed over), and the error that ended it. *)
Record Sweep : Set := mkSweep { reached : list bool; failure : option jstr }.
Fixpoint reach (ids : list Z) (docs : list (list Z)) (hit : list bool) : list (list Z) :=
  match docs, hit with
  | d :: docs, h :: hit => (if h : bool then ids else d) :: reach ids docs hit
  | docs, [] => docs
  | [], _ => []
  end.
Definition applyRepositoryTeams (w : Sweep) (repositoryId : Z) (teamIds : list Z) (s : TeamState) : TeamState * result jstr Z :=
  let docs := default [] (documents s !! repositoryId) in
  (set_documents (<[repositoryId := reach (normalized teamIds) docs (reached w)]> (documents s)) s,
   match failure w with
   | Some e => Err e
   | None => Ok (Z.of_nat (length (List.filter (fun h : bool => h) (take (length docs) (reached w)))))
   end).

Record TeamSyncOutcome : Set := mkOutcome {
  to_repositoryId : Z; to_changed : bool; to_teamIds : list Z; documentsRefreshed : Z; rolledBack : bool; deferred : bool
}.
(** [listRepositoryTeams] of GitHub is asked with the lock held. *)
Definition syncRepositoryTeamScope (locked : bool) (source : jstr -> jstr -> result jstr (list (Z * jstr))) (w : Sweep) (repositoryId : Z)
    (repository : RepositoryRow) (s : TeamState) : TeamState * result jstr TeamSyncOutcome :=
  if negb locked then (s, Ok (mkOutcome repositoryId false [] 0 false true))
  else
  match source (owner repository) (name repository) with
  | Err e => (s, Err e)
  | Ok found =>
    let s := foldl (fun s t => upsertTeam t.1 t.2 (org_id repository) s) s found in
    let previous := match rows s !! repositoryId with Some r => allowed_team_ids r | None => [] end in
    let teamIds := map fst found in
    match setAllowedTeams repositoryId teamIds s with
    | (s, false) => (s, Ok (mkOutcome repositoryId false teamIds 0 false false))
    | (s, true) =>
      match applyRepositoryTeams w repositoryId teamIds s with
      | (s, Ok total) => (s, Ok (mkOutcome repositoryId true teamIds total false false))
      | (s, Err _) => ((setAllowedTeams repositoryId previous s).1, Ok (mkOutcome repositoryId false previous 0 true false))
      end
    end
  end.
(** The repositories of an event, one after the other; a lookup that fails ends the round. *)
Definition targets_of (teamId repositoryId : option Z) (s : TeamState) : list Z :=
  match repositoryId with
  | Some r => if bool_decide (is_Some (rows s !! r)) then [r] else []
  | None => match teamId with Some t => findRepositoriesForTeam t s | None => [] end
  end.
Fixpoint sync_all (locked : Z -> bool) (source : jstr -> jstr -> result jstr (list (Z * jstr))) (w : Z -> Sweep)
    (targets : list (Z * RepositoryRow)) (s : TeamState) : TeamState * result jstr (list TeamSyncOutcome) :=
  match targets with
  | [] => (s, Ok [])
  | (id, r) :: targets =>
    match syncRepositoryTeamScope (locked id) source (w id) id r s with
    | (s, Err e) => (s, Err e)
    | (s, Ok o) => let '(s, os) := sync_all locked source w targets s in (s, os ← os; Ok (o :: os))
    end
  end.
Definition refreshTeamScope (locked : Z -> bool) (source : jstr -> jstr -> result jstr (list (Z * jstr))) (w : Z -> Sweep)
    (teamId repositoryId : option Z) (s : TeamState) : TeamState * result jstr (list TeamSyncOutcome) :=
  sync_all locked source w (omap (fun id => (fun r => (id, r)) <$> rows s !! id) (targets_of teamId repositoryId s)) s.

(** ** Theorems *)

(** The documents of a repository have the teams of its row. *)
Definition in_step (id : Z) (s : TeamState) : Prop :=
  ∃ r, rows s !! id = Some r ∧ forall d, d ∈ default [] (documents s !! id) -> d = allowed_team_ids r.
(** A request that fails before the first document, or reaches all of them. *)
Definition whole (docs : list (list Z)) (w : Sweep) : Prop :=
  match failure w with
  | Some _ => forall h, h ∈ reached w -> h = false
  | None => length (reached w) = length docs ∧ forall h, h ∈ reached w -> h = true
  end.

Lemma reach_none ids docs hit : (forall h, h ∈ hit -> h = false) -> reach ids docs hit = docs.
Proof.
  revert hit. induction docs as [|d docs IH]; intros [|h hit] Hh; try done. cbn. rewrite (Hh h) by by left. f_equal. apply IH. intros x Hx. apply Hh. by right.
Qed.
Lemma reach_all ids docs hit d :
  length hit = length docs -> (forall h, h ∈ hit -> h = true) -> d ∈ reach ids docs hit -> d = ids.
Proof.
  revert hit. induction docs as [|d' docs IH]; intros [|h hit] Hl Hh; try done; [by intros ?%elem_of_nil|]. cbn. rewrite (Hh h) by by left.
  intros [->|Hin]%elem_of_cons; [done|]. eapply IH; [by injection Hl| |exact Hin]. intros x Hx. apply Hh. by right.
Qed.
Lemma upserts_same found org s : rows (foldl (fun s t => upsertTeam t.1 t.2 org s) s found) = rows s ∧
  documents (foldl (fun s t => upsertTeam t.1 t.2 org s) s found) = documents s.
Proof. revert s. induction found as [|t found IH]; intros s; [done|]. cbn [foldl]. destruct (IH (upsertTeam t.1 t.2 org s)) as [-> ->]. done. Qed.
Lemma normalized_twice ids : normalized (normalized ids) = normalized ids.
Proof.
  unfold normalized. assert (remove_dups (merge_sort Z.le (remove_dups ids)) = merge_sort Z.le (remove_dups ids)) as ->.
  { assert (forall l : list Z, NoDup l -> remove_dups l = l) as H.
    { induction 1 as [|x l Hx _ IH]; [done|]. cbn [remove_dups]. unfold decide_rel. match goal with |- context [if ?c then _ else _] => destruct c end; [done|by rewrite IH]. }
    apply H. rewrite merge_sort_Permutation. apply NoDup_remove_dups. }
  apply (StronglySorted_unique Z.le); [apply (StronglySorted_merge_sort Z.le)|apply (StronglySorted_merge_sort Z.le)|apply merge_sort_Permutation].
Qed.


(** *** A repository with two documents *)

Definition app_row (ids : list Z) : RepositoryRow := mkRepo (js "acme") (js "app") 1 ids.
Definition two_documents (row : list Z) (d1 d2 : list Z) : TeamState := mkTeams {[7 := app_row row]} ∅ {[7 := [d1; d2]]}.
Definition names (ids : list Z) : jstr -> jstr -> result jstr (list (Z * jstr)) := fun _ _ => Ok (map (fun n => (n, js "team")) ids).

(** A request that failed half way leaves documents with a team that the row does not have; when GitHub
    takes the team away again, the row already says so and the documents are not written. *)
Example half_written_stays :
  let '(s1, o1) := syncRepositoryTeamScope true (names [3; 5]) (mkSweep [true] (Some (js "timeout"))) 7 (app_row [3]) (two_documents [3] [3] [3]) in
  let '(s2, o2) := syncRepositoryTeamScope true (names [3]) (mkSweep [true; true] None) 7 (app_row [3]) s1 in
  (rolledBack <$> o1, to_changed <$> o2, documents s2 !! 7) = (Ok true, Ok false, Some [[3; 5]; [3]]).
Proof. vm_compute. reflexivity. Qed.
(** A document that was passed over because of a conflict is not caught by the next round. *)
Example conflict_stays :
  let '(s1, o1) := syncRepositoryTeamScope true (names [5]) (mkSweep [true; false] None) 7 (app_row [3; 5]) (two_documents [3; 5] [3; 5] [3; 5]) in
  let '(s2, o2) := syncRepositoryTeamScope true (names [5]) (mkSweep [true; true] None) 7 (app_row [5]) s1 in
  (to_changed <$> o1, to_changed <$> o2, documents s2 !! 7) = (Ok true, Ok false, Some [[5]; [3; 5]]).
Proof. vm_compute. reflexivity. Qed.
