(* ===== verification/LinkIndex.v ===== *)
(** * The index of links

    [packages/es/src/links.ts]: the documents of the links alias, the bulk request that writes
    them to the serving index and to one being built, the removal of links that a source does not
    make any more, the pages of links that may refer to a target, the lookup of targets, and the
    summary of links in a document.

    A search of Elasticsearch finds documents as they were at the last refresh of their index;
    [seen] is what a search finds, and a write changes [seen] only when the index is refreshed,
    at a time that the writer does not choose ([LinkLaws]). *)

From stdpp Require Import base option strings numbers gmap sorting list.
From Stdlib Require Import ZArith Lia.
From S2P Require Import Prelude JsString Json QueryBuilder EsSort SearchCursor EsDocument EsProjection Reindex Reference.
Open Scope Z_scope.

(** ** The server *)

(** One search: the alias, what a hit must satisfy and how many are wanted. *)
Record Search : Type := mkSearch { q_name : jstr; q_filter : Source -> bool; q_size : nat }.
Abbreviation Hit := (DocKey * Source)%type.

Class LinkServer (S : Type) `{DocServer S} := {
  (** What a search finds in an index, and that it finds everything in its present version. *)
  seen : S -> jstr -> gmap DocKey Source;
  refreshed : S -> jstr -> Prop;
  (** [client.indices.refresh]. *)
  es_refresh : jstr -> S -> S * result EsError unit;
  (** [client.deleteByQuery] with a routing and the ids that are kept. *)
  es_delete : jstr -> jstr -> (Source -> bool) -> list jstr -> S -> S * result EsError Z;
  (** [client.msearch]; [client.search] sorted by [link_id], from a link on; [client.exists]. *)
  es_msearch : list Search -> S -> result EsError (list (result EsError (list Hit)));
  es_page : jstr -> (Source -> bool) -> option jstr -> nat -> S -> result EsError (list Hit);
  es_exists : jstr -> DocKey -> S -> result EsError bool;
  (** The order of the sort values. *)
  sort_lt : jstr -> jstr -> bool
}.

Definition LINK_ID : jstr := js "link_id".
Definition sort_id (d : Source) : jstr := match field d LINK_ID with JStr i => i | _ => [] end.

Section laws.
Context {S : Type} `{LinkServer S}.

Definition live (s : S) (name : jstr) (k : DocKey) : option Source := doc_named s name k.
Definition found (s : S) (name : jstr) : gmap DocKey Source := seen s (es_index s name).

(** What an operation may do to what a search finds: nothing, or a refresh before or after. *)
Definition sees (s s' : S) : Prop :=
  forall i k, seen s' i !! k = seen s i !! k \/ seen s' i !! k = es_doc s i k \/ seen s' i !! k = es_doc s' i k.
Definition matches (s : S) (q : Search) (h : Hit) : Prop := found s (q_name q) !! h.1 = Some h.2 ∧ q_filter q h.2 = true.
(** The hits of one search: some of the matching documents, all of them when there is room. *)
Record searched (s : S) (q : Search) (hits : list Hit) : Prop := {
  sr_nodup : NoDup hits.*1;
  sr_sound h : h ∈ hits -> matches s q h;
  sr_size : (length hits <= q_size q)%nat;
  sr_all h : matches s q h -> h ∈ hits \/ length hits = q_size q
}.
Definition beyond (after : option jstr) (id : jstr) : Prop := match after with Some a => sort_lt a id = true | None => True end.
Record paged (s : S) (name : jstr) (f : Source -> bool) (after : option jstr) (size : nat) (hits : list Hit) : Prop := {
  pg_sound h : h ∈ hits -> found s name !! h.1 = Some h.2 ∧ f h.2 = true ∧ beyond after (sort_id h.2);
  pg_sorted : StronglySorted (fun a b : Hit => sort_lt (sort_id b.2) (sort_id a.2) = false) hits;
  pg_size : (length hits <= size)%nat;
  pg_all k d : found s name !! k = Some d -> f d = true -> beyond after (sort_id d) ->
    (k, d) ∈ hits \/ (length hits = size ∧ forall h, h ∈ hits -> sort_lt (sort_id d) (sort_id h.2) = false)
}.
(** A removal by query: documents of the index that a search finds, and of those of the routing
    the ones that are found in their present version. *)
Record deletes (name routing : jstr) (f : Source -> bool) (keep : list jstr) (s s' : S) (r : result EsError Z) : Prop := {
  dl_index n : es_index s' n = es_index s n;
  dl_other i k : i <> es_index s name -> es_doc s' i k = es_doc s i k;
  dl_only k : live s' name k = live s name k \/
    (live s' name k = None ∧ k.2 ∉ keep ∧ ∃ d, found s name !! k = Some d ∧ f d = true);
  dl_done id d : is_ok r = true -> refreshed s (es_index s name) -> live s name (routing, id) = Some d -> f d = true -> id ∉ keep ->
    live s' name (routing, id) = None
}.

Inductive items_done : list UpdateCall -> S -> S -> list UpdateReply -> Prop :=
| id_nil s : items_done [] s s []
| id_cons c cs s s1 s' r rs : updates c s s1 r -> sees s s1 -> items_done cs s1 s' rs -> items_done (c :: cs) s s' (r :: rs).

Class LinkLaws : Prop := {
  ll_docs : DocLaws S;
  law_update_sees c s : sees s (es_update c s).1;
  (** A bulk request does its items in order and reports the first of them; refreshes may come
      between them, and when it fails as a whole some may have been carried out. *)
  law_items cs s : ∃ rs, items_done cs s (es_bulk cs s).1 rs ∧
    match (es_bulk cs s).2 with Ok reported => ∃ k, reported = take k rs | Err _ => True end;
  law_refreshed s i k : refreshed s i -> seen s i !! k = es_doc s i k;
  law_refresh n s : let '(s', r) := es_refresh n s in
    (forall m, es_index s' m = es_index s m) ∧ (forall i k, es_doc s' i k = es_doc s i k) ∧ sees s s' ∧
    (is_ok r = true -> refreshed s' (es_index s n));
  law_delete n rt f keep s : let '(s', r) := es_delete n rt f keep s in deletes n rt f keep s s' r ∧ sees s s';
  law_msearch qs s rs : es_msearch qs s = Ok rs ->
    Forall2 (fun q r => match r with Ok hits => searched s q hits | Err _ => True end) qs rs;
  law_page n f after size s hits : (forall k d, found s n !! k = Some d -> f d = true -> ∃ i, field d LINK_ID = JStr i) ->
    es_page n f after size s = Ok hits -> paged s n f after size hits;
  law_exists n k s b : es_exists n k s = Ok b -> b = bool_decide (is_Some (live s n k));
  law_lt_irrefl a : sort_lt a a = false;
  law_lt_trans a b c : sort_lt a b = true -> sort_lt b c = true -> sort_lt a c = true;
  law_lt_total a b : sort_lt a b = true \/ a = b \/ sort_lt b a = true
}.
End laws.
Arguments LinkLaws S {_ _}.

(** ** Documents of links *)

Definition LINKS_ALIAS : jstr := js "prs-links".
Definition PR_ALIAS : jstr := js "prs-pull-requests".
Definition COMMIT_ALIAS : jstr := js "prs-commits".
Definition REFERENCE_LINK_TYPE : jstr := js "references".

(** [LinkEndpointKind]. *)
Abbreviation LinkEndpointKind := DerivedEndpointKind.
#[export] Instance LinkEndpointKind_eq_dec : EqDecision LinkEndpointKind.
Proof. solve_decision. Defined.
Record LinkScopeFields : Set := mkScope { sc_repository_id : Z; sc_org_id : Z; sc_visibility : jstr; sc_allowed_team_ids : list Z }.
Record ReferenceResolution : Set := mkResolution { to_type : LinkEndpointKind; to_id : jstr; to_repository_id : Z }.
#[export] Instance ReferenceResolution_eq_dec : EqDecision ReferenceResolution.
Proof. solve_decision. Defined.
Record ReferenceLinkDoc : Set := mkReferenceLink {
  link_id : jstr; reference_key : jstr; scope : LinkScopeFields; from_type : LinkEndpointKind; from_id : jstr;
  confidence : ReferenceConfidence; evidence : jstr; created_at : jstr; resolution : option ReferenceResolution
}.
Definition confidence_text (c : ReferenceConfidence) : jstr := match c with derived => js "derived" | heuristic => js "heuristic" end.

Definition TO_TYPE : jstr := js "to_type".
Definition TO_ID : jstr := js "to_id".
Definition TO_REPOSITORY_ID : jstr := js "to_repository_id".
Definition RESOLVED : jstr := js "resolved".
Definition REPOSITORY_ID : jstr := js "repository_id".
Definition REFERENCE_KEY : jstr := js "reference_key".
Definition FROM_TYPE : jstr := js "from_type".
Definition FROM_ID : jstr := js "from_id".
Definition LINK_TYPE : jstr := js "link_type".

Definition resolution_fields (r : ReferenceResolution) : list (jstr * json) :=
  [(TO_TYPE, JStr (endpoint_name (to_type r))); (TO_ID, JStr (to_id r)); (TO_REPOSITORY_ID, JNum (to_repository_id r))].
Definition scope_fields (s : LinkScopeFields) : list (jstr * json) :=
  [(REPOSITORY_ID, JNum (sc_repository_id s)); (js "org_id", JNum (sc_org_id s)); (js "visibility", JStr (sc_visibility s));
   (js "allowed_team_ids", JArr (map JNum (sc_allowed_team_ids s)))].
Definition assign_all (l : list (jstr * json)) (d : Source) : Source := foldl (fun d p => <[p.1 := p.2]> d) d l.
Definition link_fields (d : ReferenceLinkDoc) : Source :=
  assign_all ([(LINK_ID, JStr (link_id d)); (REFERENCE_KEY, JStr (reference_key d))] ++ scope_fields (scope d) ++
    [(FROM_TYPE, JStr (endpoint_name (from_type d))); (FROM_ID, JStr (from_id d)); (LINK_TYPE, JStr REFERENCE_LINK_TYPE);
     (js "confidence", JStr (confidence_text (confidence d))); (js "evidence", JStr (evidence d));
     (js "created_at", JStr (created_at d))]) ∅.
(** The order of the fields does not matter in an object. *)
Definition referenceLinkSource (d : ReferenceLinkDoc) : Source :=
  match resolution d with
  | None => <[RESOLVED := JBool false]> (link_fields d)
  | Some r => assign_all ((RESOLVED, JBool true) :: resolution_fields r) (link_fields d)
  end.

(** ** The bulk request *)

Record LinkWriteFailure : Set := mkLinkFailure { lf_link_id : jstr; lf_status : Z; lf_reason : jstr }.
Record LinkWriteResult : Set := mkLinkResult { written : Z; failures : list LinkWriteFailure }.
Record LinkOwner : Set := mkOwner { sourceKind : LinkEndpointKind; docId : jstr }.
Inductive LinkOpKind : Set := op_index | op_update.
#[export] Instance LinkOpKind_eq_dec : EqDecision LinkOpKind.
Proof. solve_decision. Defined.
(** [body]: the document of an index action, the change of an update. *)
Inductive LinkBody : Type := body_index (d : Source) | body_doc (fields : list (jstr * json)) | body_script (s : Script).
Record LinkBulkOp : Type := mkLinkOp { linkId : jstr; repositoryId : Z; op_owner : option LinkOwner; body : LinkBody }.
Definition op_kind (o : LinkBulkOp) : LinkOpKind := match body o with body_index _ => op_index | _ => op_update end.

Definition ownerSourceOf (o : LinkBulkOp) : result jstr (LinkEndpointKind * jstr) :=
  match op_owner o with
  | None => Err (js "link_update_without_owner: " ++ linkId o)
  | Some w =>
    let prefix := js_of_Z (repositoryId o) ++ js ":" in
    let key := if starts_with prefix (docId w) then drop (length prefix) (docId w) else [] in
    if jeqb key [] then
      Err (js "link_update_routing_mismatch: " ++ linkId o ++ js " " ++ docId w ++ js " routing=" ++ js_of_Z (repositoryId o))
    else Ok (sourceKind w, key)
  end.

(** An index action puts the document in place of what is there; a partial document is merged
    into it, and changes nothing when it says what is there already. *)
Definition merge_script (fields : list (jstr * json)) : Script := fun d =>
  let d' := assign_all fields d in if bool_decide (d' = d) then s_noop else s_write d'.
Definition link_key (o : LinkBulkOp) : DocKey := (js_of_Z (repositoryId o), linkId o).
Definition call_of (name : jstr) (o : LinkBulkOp) : UpdateCall :=
  match body o with
  | body_index d => mkUpdate name (link_key o) (fun _ => s_write d) (Some d)
  | body_doc fields => mkUpdate name (link_key o) (merge_script fields) None
  | body_script s => mkUpdate name (link_key o) s None
  end.

Definition kind_of (k : LinkEndpointKind) : LinkSourceKind :=
  match k with ep_pull_request => lk_pull_request | ep_commit => lk_commit end.
Abbreviation Recorded := (list ShadowWriteFailure * list FenceShadowPending)%type.
Definition BULK : jstr := js "bulk".
(** What a serving item counts as. *)
Definition serving_failure (o : LinkBulkOp) (reply : option UpdateReply) : list LinkWriteFailure :=
  match reply with
  | None => [mkLinkFailure (linkId o) 0 (js "bulk_response_item_missing")]
  | Some (re_error e) => [mkLinkFailure (linkId o) (default 0 (ee_status e)) (default [] (ee_type e))]
  | Some _ => []
  end.
(** What is recorded of an item of the other index; the index and the id of the response are
    those of the item. *)
Definition shadow_report (shadow : jstr) (o : LinkBulkOp) (reply : option UpdateReply) : Recorded :=
  match reply with
  | None => ([mkShadowFailure LINKS_ALIAS shadow BULK NO_ITEM], [])
  | Some (re_error e) =>
    if bool_decide (op_kind o = op_update) && document_missing e then
      match ownerSourceOf o with
      | Ok (k, id) => ([], [mkPending LINKS_ALIAS shadow (repositoryId o) (kind_of k) id (linkId o)])
      | Err _ => ([], [])
      end
    else ([mkShadowFailure LINKS_ALIAS shadow BULK (default [] (ee_type e))], [])
  | Some _ => ([], [])
  end.
(** [forEach] over the operations with the item at their offset. *)
Fixpoint with_items {A} (f : LinkBulkOp -> option UpdateReply -> A) (ops : list LinkBulkOp) (replies : list UpdateReply) : list A :=
  match ops with
  | [] => []
  | o :: ops => f o (head replies) :: with_items f ops (tail replies)
  end.
Inductive LinkThrow : Type := lt_error (message : jstr) | lt_response (e : EsError).
Fixpoint owners_ok (ops : list LinkBulkOp) : result jstr unit :=
  match ops with
  | [] => Ok tt
  | o :: ops => match op_kind o, ownerSourceOf o with op_update, Err e => Err e | _, _ => owners_ok ops end
  end.

Section bulk.
Context {S : Type} `{LinkServer S}.

Definition sendLinkBulk (ops : list LinkBulkOp) (t : WriteTargets) (s : S) : S * result LinkThrow (LinkWriteResult * Recorded) :=
  match ops with
  | [] => (s, Ok (mkLinkResult 0 [], ([], [])))
  | _ =>
    match owners_ok ops with
    | Err e => (s, Err (lt_error e))
    | Ok _ =>
      let shadow := shadowIndexOf t LINKS_ALIAS in
      let calls := map (call_of LINKS_ALIAS) ops ++ match shadow with Some i => map (call_of i) ops | None => [] end in
      match es_bulk calls s with
      | (s, Err e) => (s, Err (lt_response e))
      | (s, Ok replies) =>
        let fs := concat (with_items serving_failure ops replies) in
        let reports := match shadow with Some i => with_items (shadow_report i) ops (drop (length ops) replies) | None => [] end in
        (s, Ok (mkLinkResult (Z.of_nat (length ops) - Z.of_nat (length fs)) fs, (concat (map fst reports), concat (map snd reports))))
      end
    end
  end.

Definition index_op (d : ReferenceLinkDoc) : LinkBulkOp :=
  mkLinkOp (link_id d) (sc_repository_id (scope d)) None (body_index (referenceLinkSource d)).
Definition writeReferenceLinks (docs : list ReferenceLinkDoc) : WriteTargets -> S -> S * result LinkThrow (LinkWriteResult * Recorded) :=
  sendLinkBulk (map index_op docs).

(** *** Stale links *)

Definition is_text (d : Source) (k v : jstr) : bool := bool_decide (field d k = JStr v).
Definition is_number (d : Source) (k : jstr) (n : Z) : bool := bool_decide (field d k = JNum n).
Definition of_source (linkType : jstr) (repositoryId : Z) (fromType : LinkEndpointKind) (fromId : jstr) (d : Source) : bool :=
  is_number d REPOSITORY_ID repositoryId && is_text d LINK_TYPE linkType
  && is_text d FROM_TYPE (endpoint_name fromType) && is_text d FROM_ID fromId.
(** One index: it is refreshed before the query, because the query finds what a search finds. *)
Definition refresh_and_delete (repositoryId : Z) (f : Source -> bool) (keep : list jstr) (name : jstr) (s : S) : S * result EsError Z :=
  match es_refresh name s with
  | (s, Err e) => (s, Err e)
  | (s, Ok _) => es_delete name (js_of_Z repositoryId) f keep s
  end.
Definition deleteStale (linkType : jstr) (repositoryId : Z) (fromType : LinkEndpointKind) (fromId : jstr) (keep : list jstr)
    (String_of : EsError -> jstr) (t : WriteTargets) : S -> S * (result EsError Z * list ShadowWriteFailure) :=
  dualWrite t LINKS_ALIAS (js "delete_by_query") String_of
    (refresh_and_delete repositoryId (of_source linkType repositoryId fromType fromId) keep).
Definition deleteStaleReferenceLinks := deleteStale REFERENCE_LINK_TYPE.

(** *** Links that may refer to a target *)

Record ReferencingLink : Set := mkReferencing {
  rl_link_id : jstr; rl_repository_id : Z; rl_reference_key : jstr; rl_resolved : bool; rl_from_type : LinkEndpointKind; rl_from_id : jstr
}.
Definition REFERENCE_PAGE_SIZE : nat := 500.
Inductive Include : Set := only_unresolved | any_state.
Definition kind_named (v : json) : option LinkEndpointKind :=
  match v with
  | JStr t => if jeqb t (js "pull_request") then Some ep_pull_request else if jeqb t (js "commit") then Some ep_commit else None
  | _ => None
  end.
Definition text_field (d : Source) (k : jstr) : option jstr := match field d k with JStr t => Some t | _ => None end.
(** [hit._source] with the fields of a link; documents of another shape are not links. *)
Definition referencing (d : Source) : option ReferencingLink :=
  id ← text_field d LINK_ID; r ← (match field d REPOSITORY_ID with JNum r => Some r | _ => None end);
  key ← text_field d REFERENCE_KEY; b ← (match field d RESOLVED with JBool b => Some b | _ => None end);
  ft ← kind_named (field d FROM_TYPE); fi ← text_field d FROM_ID;
  Some (mkReferencing id r key b ft fi).
Definition key_among (keys : list jstr) (d : Source) : bool :=
  match field d REFERENCE_KEY with JStr k => mem k keys | _ => false end.
Record ReferencesTo : Set := mkReferencesTo { rt_repository : Z; rt_same : list jstr; rt_cross : list jstr; rt_include : Include }.
Definition references_filter (q : ReferencesTo) (d : Source) : bool :=
  ((is_number d REPOSITORY_ID (rt_repository q) && key_among (rt_same q) d) || key_among (rt_cross q) d)
  && is_text d LINK_TYPE REFERENCE_LINK_TYPE
  && match rt_include q with only_unresolved => bool_decide (field d RESOLVED = JBool false) | any_state => true end.

(** The pages, from a link on; [None] when [fuel] pages were not enough. *)
Fixpoint read_pages (fuel : nat) (f : Source -> bool) (size : nat) (after : option jstr) (s : S)
  : option (result EsError (list Source)) :=
  match fuel with
  | O => None
  | Datatypes.S fuel =>
    match es_page LINKS_ALIAS f after size s with
    | Err e => Some (Err e)
    | Ok hits =>
      if (length hits <? size)%nat then Some (Ok (map snd hits))
      else match last hits with
           | None => Some (Ok (map snd hits))
           | Some h => (fun r => match r with Ok l => Ok (map snd hits ++ l) | Err e => Err e end)
                         <$> read_pages fuel f size (Some (sort_id h.2)) s
           end
    end
  end.
(** Every page but the last holds links that the pages before it did not. *)
Definition page_fuel (s : S) : nat := Datatypes.S (size (found s LINKS_ALIAS)).
Definition read_all (f : Source -> bool) (size : nat) (s : S) : result EsError (list Source) :=
  default (Ok []) (read_pages (page_fuel s) f size None s).
Definition findReferencesTo (q : ReferencesTo) (pageSize : nat) (s : S) : result EsError (list ReferencingLink) :=
  match rt_same q, rt_cross q with
  | [], [] => Ok []
  | _, _ => match read_all (references_filter q) pageSize s with Ok l => Ok (omap referencing l) | Err e => Err e end
  end.

(** *** Resolving *)

(** [UNRESOLVE_SCRIPT]. *)
Definition UNRESOLVE_SCRIPT : Script := fun d =>
  let d' := delete TO_TYPE (delete TO_ID (delete TO_REPOSITORY_ID d)) in
  let d' := if bool_decide (field d RESOLVED = JBool false) then d' else <[RESOLVED := JBool false]> d' in
  if bool_decide (d' = d) then s_noop else s_write d'.
Record LinkUpdate : Set := mkLinkUpdate {
  lu_link_id : jstr; lu_repository_id : Z; lu_owner : LinkOwner; lu_resolution : option ReferenceResolution
}.
Definition resolution_body (r : option ReferenceResolution) : LinkBody :=
  match r with
  | None => body_script UNRESOLVE_SCRIPT
  | Some r => body_doc ((RESOLVED, JBool true) :: resolution_fields r)
  end.
Definition update_op (u : LinkUpdate) : LinkBulkOp :=
  mkLinkOp (lu_link_id u) (lu_repository_id u) (Some (lu_owner u)) (resolution_body (lu_resolution u)).
Definition resolveReferenceLinks (updates : list LinkUpdate) : WriteTargets -> S -> S * result LinkThrow (LinkWriteResult * Recorded) :=
  sendLinkBulk (map update_op updates).

(** *** Targets *)

Inductive TargetLookup : Set :=
| tl_pull_request (key : jstr) (repositoryId prNumber : Z)
| tl_commit (key : jstr) (repositoryId : Z) (sha : jstr)
| tl_commit_prefix (key : jstr) (repositoryId : Z) (prefix : jstr).
Definition lookup_key (l : TargetLookup) : jstr :=
  match l with tl_pull_request k _ _ | tl_commit k _ _ | tl_commit_prefix k _ _ => k end.
Definition PR_NUMBER : jstr := js "pr_number".
Definition COMMIT_SHA : jstr := js "commit_sha".
Definition asks_pull_request (l : TargetLookup) (d : Source) : bool :=
  match l with tl_pull_request _ r n => is_number d REPOSITORY_ID r && is_number d PR_NUMBER n | _ => false end.
Definition asks_commit (l : TargetLookup) (d : Source) : bool :=
  match l with tl_commit _ r sha => is_number d REPOSITORY_ID r && is_text d COMMIT_SHA sha | _ => false end.
Definition asks_prefix (r : Z) (prefix : jstr) (d : Source) : bool :=
  is_number d REPOSITORY_ID r && match field d COMMIT_SHA with JStr sha => starts_with prefix sha | _ => false end.
Definition pull_requests (ls : list TargetLookup) : list TargetLookup :=
  List.filter (fun l => match l with tl_pull_request _ _ _ => true | _ => false end) ls.
Definition commits (ls : list TargetLookup) : list TargetLookup :=
  List.filter (fun l => match l with tl_commit _ _ _ => true | _ => false end) ls.
Definition prefixes (ls : list TargetLookup) : list (jstr * Z * jstr) :=
  omap (fun l => match l with tl_commit_prefix k r p => Some (k, r, p) | _ => None end) ls.
Inductive Shape : Set := shape_pull_request | shape_commit | shape_prefix (key : jstr).
(** The searches of one [msearch], with what becomes of their hits. *)
Definition target_searches (ls : list TargetLookup) : list (Shape * Search) :=
  match pull_requests ls with
  | [] => []
  | prs => [(shape_pull_request, mkSearch PR_ALIAS (fun d => existsb (fun l => asks_pull_request l d) prs) (length prs))]
  end ++
  match commits ls with
  | [] => []
  | cs => [(shape_commit, mkSearch COMMIT_ALIAS (fun d => existsb (fun l => asks_commit l d) cs) (length cs))]
  end ++
  map (fun p : jstr * Z * jstr => let '(k, r, prefix) := p in (shape_prefix k, mkSearch COMMIT_ALIAS (asks_prefix r prefix) 2)) (prefixes ls).

Definition number_field (d : Source) (k : jstr) : option Z := match field d k with JNum n => Some n | _ => None end.
(** The maps that the hits fill: the document of a pull request or of a commit by repository, and
    the resolution of a prefix that one commit has. *)
Record Targets : Type := mkTargetMaps { byPr : gmap (Z * Z) jstr; byCommit : gmap (Z * jstr) jstr; byPrefix : gmap jstr ReferenceResolution }.
Definition no_targets : Targets := mkTargetMaps ∅ ∅ ∅.
Definition pr_of (h : Hit) : option (Z * Z) := r ← number_field h.2 REPOSITORY_ID; n ← number_field h.2 PR_NUMBER; Some (r, n).
Definition commit_of (h : Hit) : option (Z * jstr) := r ← number_field h.2 REPOSITORY_ID; sha ← text_field h.2 COMMIT_SHA; Some (r, sha).
Definition put_id {K} `{Countable K} (key : Hit -> option K) (m : gmap K jstr) (h : Hit) : gmap K jstr :=
  match key h with Some k => <[k := h.1.2]> m | None => m end.
Definition add_hits (m : Targets) (p : Shape * list Hit) : Targets :=
  match p.1, p.2 with
  | shape_pull_request, hits => mkTargetMaps (foldl (put_id pr_of) (byPr m) hits) (byCommit m) (byPrefix m)
  | shape_commit, hits => mkTargetMaps (byPr m) (foldl (put_id commit_of) (byCommit m) hits) (byPrefix m)
  | shape_prefix key, [h] =>
    match number_field h.2 REPOSITORY_ID with
    | Some r => mkTargetMaps (byPr m) (byCommit m) (<[key := mkResolution ep_commit h.1.2 r]> (byPrefix m))
    | None => m
    end
  | shape_prefix _, _ => m
  end.
(** The exact lookups go into the map last, as the loops after the responses put them there. *)
Definition add_exact (m : Targets) (found : gmap jstr ReferenceResolution) (l : TargetLookup) : gmap jstr ReferenceResolution :=
  match l with
  | tl_pull_request k r n => match byPr m !! (r, n) with Some id => <[k := mkResolution ep_pull_request id r]> found | None => found end
  | tl_commit k r sha => match byCommit m !! (r, sha) with Some id => <[k := mkResolution ep_commit id r]> found | None => found end
  | tl_commit_prefix _ _ _ => found
  end.
Fixpoint all_hits (rs : list (result EsError (list Hit))) : result EsError (list (list Hit)) :=
  match rs with
  | [] => Ok []
  | Err e :: _ => Err e
  | Ok h :: rs => match all_hits rs with Ok hs => Ok (h :: hs) | Err e => Err e end
  end.
Definition collect (ls : list TargetLookup) (answers : list (Shape * list Hit)) : gmap jstr ReferenceResolution :=
  let m := foldl add_hits no_targets answers in foldl (add_exact m) (byPrefix m) (pull_requests ls ++ commits ls).
Definition findReferenceTargets (ls : list TargetLookup) (s : S) : result LinkThrow (gmap jstr ReferenceResolution) :=
  match target_searches ls with
  | [] => Ok ∅
  | qs =>
    match es_msearch (map snd qs) s with
    | Err e => Err (lt_response e)
    | Ok rs =>
      match all_hits rs with
      | Err e => Err (lt_error (js "reference_target_lookup_failed: " ++ default (js "unknown") (ee_type e)))
      | Ok hits => Ok (collect ls (zip (map fst qs) hits))
      end
    end
  end.
Definition alias_of (k : LinkEndpointKind) : jstr := match k with ep_pull_request => PR_ALIAS | ep_commit => COMMIT_ALIAS end.
Definition isReferenceTargetIndexed (k : LinkEndpointKind) (id : jstr) (r : Z) (s : S) : result EsError bool :=
  es_exists (alias_of k) (js_of_Z r, id) s.
End bulk.

(** ** The summary of links in a document *)

Definition LINK_SUMMARY : jstr := js "link_summary".
Definition LINKS_PENDING : jstr := js "links_pending".
Definition REFERENCE_COUNT : jstr := js "reference_count".
(** [LinkSummaryUpdate]; [su_relations] are the entries of [relations]. *)
Record LinkSummaryUpdate : Set := mkSummaryUpdate {
  su_kind : LinkEndpointKind; su_docId : jstr; su_repositoryId : Z; su_referenceCount : option Z; su_linksPending : option bool;
  su_relations : option (list (jstr * bool))
}.
(** The entries of [link_summary], and whether any was changed. *)
Fixpoint entry_of (k : jstr) (m : list (jstr * json)) : json :=
  match m with [] => JNull | (k', v) :: m => if jeqb k k' then v else entry_of k m end.
Fixpoint set_entry (k : jstr) (v : json) (m : list (jstr * json)) : list (jstr * json) :=
  match m with [] => [(k, v)] | (k', v') :: m => if jeqb k k' then (k, v) :: m else (k', v') :: set_entry k v m end.
Definition put_entry (st : list (jstr * json) * bool) (p : jstr * json) : list (jstr * json) * bool :=
  if bool_decide (entry_of p.1 st.1 = p.2) then st else (set_entry p.1 p.2 st.1, true).
(** [((Number)cur).intValue() != next]; another value than a number is a failed cast. *)
Definition put_count (next : Z) (st : list (jstr * json) * bool) : option (list (jstr * json) * bool) :=
  match entry_of REFERENCE_COUNT st.1 with
  | JNull | JNum _ => Some (put_entry st (REFERENCE_COUNT, JNum next))
  | _ => None
  end.
Definition LINK_SUMMARY_SCRIPT (u : LinkSummaryUpdate) : Script := fun d =>
  match field d LINK_SUMMARY with
  | JNull | JObj _ =>
    let start := (match field d LINK_SUMMARY with JObj m => m | _ => [] end, false) in
    match (match su_referenceCount u with Some n => put_count n start | None => Some start end) with
    | None => s_error
    | Some st =>
      let '(m, changed) := match su_relations u with Some rs => foldl put_entry st (map (fun p : jstr * bool => (p.1, JBool p.2)) rs) | None => st end in
      let '(d, changed) :=
        match su_linksPending u with
        | Some b => if bool_decide (field d LINKS_PENDING = JBool b) then (d, changed) else (<[LINKS_PENDING := JBool b]> d, true)
        | None => (d, changed)
        end in
      if changed then s_write (<[LINK_SUMMARY := JObj m]> d) else s_noop
    end
  | _ => s_error
  end.

Inductive LinkSummaryResult : Set := ls_updated | ls_noop | ls_missing.
Section summary.
Context {S : Type} `{LinkServer S} (String_of : EsError -> jstr).

Definition summary_key (u : LinkSummaryUpdate) : DocKey := (js_of_Z (su_repositoryId u), su_docId u).
Definition sendSummary (u : LinkSummaryUpdate) (name : jstr) (s : S) : S * result EsError LinkSummaryResult :=
  match es_update (mkUpdate name (summary_key u) (LINK_SUMMARY_SCRIPT u) None) s with
  | (s, re_error e) => (s, if bool_decide (ee_status e = Some 404) then Ok ls_missing else Err e)
  | (s, re_noop) => (s, Ok ls_noop)
  | (s, _) => (s, Ok ls_updated)
  end.
(** A missing document of the other index is not a failure either: [sendSummary] does not throw. *)
Definition updateLinkSummary (u : LinkSummaryUpdate) (t : WriteTargets) (s : S)
  : S * (result EsError LinkSummaryResult * list ShadowWriteFailure) :=
  dualWrite t (alias_of (su_kind u)) (js "update") String_of (sendSummary u) s.
End summary.

(** ** Derived links *)

Inductive DerivedConfidence : Set := c_exact | c_derived | c_heuristic.
Definition derived_confidence_text (c : DerivedConfidence) : jstr :=
  match c with c_exact => js "exact" | c_derived => js "derived" | c_heuristic => js "heuristic" end.
Record DerivedLinkDoc : Set := mkDerivedLink {
  dd_link_id : jstr; dd_link_type : DerivedLinkType; dd_scope : LinkScopeFields; dd_from_type : LinkEndpointKind; dd_from_id : jstr;
  dd_to_type : LinkEndpointKind; dd_to_id : jstr; dd_to_repository_id : Z; dd_confidence : DerivedConfidence; dd_evidence : jstr;
  dd_detached : option bool; dd_created_at : jstr; dd_resolved : bool
}.
Definition derivedLinkSource (d : DerivedLinkDoc) : Source :=
  let source := assign_all ((LINK_ID, JStr (dd_link_id d)) :: scope_fields (dd_scope d) ++
    [(FROM_TYPE, JStr (endpoint_name (dd_from_type d))); (FROM_ID, JStr (dd_from_id d)); (TO_TYPE, JStr (endpoint_name (dd_to_type d)));
     (TO_ID, JStr (dd_to_id d)); (TO_REPOSITORY_ID, JNum (dd_to_repository_id d)); (LINK_TYPE, JStr (link_type_name (dd_link_type d)));
     (js "confidence", JStr (derived_confidence_text (dd_confidence d))); (js "evidence", JStr (dd_evidence d));
     (RESOLVED, JBool (dd_resolved d)); (js "created_at", JStr (dd_created_at d))]) ∅ in
  match dd_link_type d with lt_stacks_on => <[js "detached" := JBool (bool_decide (dd_detached d = Some true))]> source | _ => source end.
Inductive RewritableType : Set := rw_reverts | rw_cherry_picks.
Definition rewritable_name (t : RewritableType) : jstr := match t with rw_reverts => js "reverts" | rw_cherry_picks => js "cherry_picks" end.
Record StoredLink : Type := mkStored {
  st_link_id : option jstr; st_repository_id : option Z; st_link_type : option jstr; st_from_type : option jstr; st_from_id : option jstr;
  st_to_type : option jstr; st_to_id : option jstr; st_detached : option bool; st_resolved : option bool
}.
Definition bool_field (d : Source) (k : jstr) : option bool := match field d k with JBool b => Some b | _ => None end.
Definition stored_link (d : Source) : StoredLink :=
  mkStored (text_field d LINK_ID) (number_field d REPOSITORY_ID) (text_field d LINK_TYPE) (text_field d FROM_TYPE) (text_field d FROM_ID)
    (text_field d TO_TYPE) (text_field d TO_ID) (bool_field d (js "detached")) (bool_field d RESOLVED).

Section derived.
Context {S : Type} `{LinkServer S}.
Definition writeDerivedLinks (docs : list DerivedLinkDoc) : WriteTargets -> S -> S * result LinkThrow (LinkWriteResult * Recorded) :=
  sendLinkBulk (map (fun d => mkLinkOp (dd_link_id d) (sc_repository_id (dd_scope d)) None (body_index (derivedLinkSource d))) docs).
Definition deleteStaleDerivedLinks (linkType : RewritableType) := deleteStale (S := S) (rewritable_name linkType).
(** [scrollLinks]: the same pages as [findReferencesTo]. *)
Definition scrollLinks (repositoryId : Z) (f : Source -> bool) (pageSize : nat) (s : S) : result EsError (list StoredLink) :=
  match read_all (fun d => is_number d REPOSITORY_ID repositoryId && f d) pageSize s with
  | Ok l => Ok (map stored_link l)
  | Err e => Err e
  end.
Definition of_types (linkTypes : list jstr) (d : Source) : bool := match field d LINK_TYPE with JStr t => mem t linkTypes | _ => false end.
Definition findLinksFrom (repositoryId : Z) (fromType : LinkEndpointKind) (fromId : jstr) (linkTypes : list jstr) :=
  scrollLinks repositoryId (fun d => of_types linkTypes d && is_text d FROM_TYPE (endpoint_name fromType) && is_text d FROM_ID fromId).
Definition findLinksTo (repositoryId : Z) (toType : LinkEndpointKind) (toId : jstr) (linkTypes : list jstr) :=
  scrollLinks repositoryId (fun d => of_types linkTypes d && is_text d TO_TYPE (endpoint_name toType) && is_text d TO_ID toId).
End derived.

(** ** Lemmas: documents *)

Fixpoint assigned (k : jstr) (l : list (jstr * json)) : option json :=
  match l with
  | [] => None
  | (k', v) :: l => match assigned k l with Some v => Some v | None => if bool_decide (k = k') then Some v else None end
  end.
Lemma assign_all_lookup l d k : assign_all l d !! k = match assigned k l with Some v => Some v | None => d !! k end.
Proof.
  revert d. induction l as [|[k' v] l IH]; intros d; [done|]. unfold assign_all. cbn [foldl fst snd assigned].
  change (foldl _ ?d l) with (assign_all l d). rewrite IH. destruct (assigned k l); [done|].
  case_bool_decide as E; [subst; by rewrite lookup_insert_eq|by rewrite lookup_insert_ne].
Qed.
Lemma assigned_none k l : k ∉ map fst l -> assigned k l = None.
Proof.
  induction l as [|[k' v] l IH]; [done|]. cbn [map fst assigned]. rewrite not_elem_of_cons. intros [Hne Hl].
  rewrite IH by done. by rewrite bool_decide_eq_false_2.
Qed.

Definition with_resolution (r : option ReferenceResolution) (l : ReferenceLinkDoc) : ReferenceLinkDoc :=
  mkReferenceLink (link_id l) (reference_key l) (scope l) (from_type l) (from_id l) (confidence l) (evidence l) (created_at l) r.
Lemma link_fields_with r l : link_fields (with_resolution r l) = link_fields l.
Proof. done. Qed.
Definition TARGET_FIELDS : list jstr := [RESOLVED; TO_TYPE; TO_ID; TO_REPOSITORY_ID].
Lemma link_fields_none l k : k ∈ TARGET_FIELDS -> link_fields l !! k = None.
Proof.
  intros Hk. unfold link_fields. rewrite assign_all_lookup, assigned_none; [done|].
  revert k Hk. apply Forall_forall. repeat constructor; by apply mem_false.
Qed.
Lemma source_lookup l k : referenceLinkSource l !! k =
  match assigned k ((RESOLVED, JBool (bool_decide (is_Some (resolution l)))) :: match resolution l with Some r => resolution_fields r | None => [] end) with
  | Some v => Some v | None => link_fields l !! k
  end.
Proof.
  unfold referenceLinkSource. destruct (resolution l) as [r|]; [by rewrite assign_all_lookup|].
  cbn [assigned]. case_bool_decide as E; [subst; by rewrite lookup_insert_eq|by rewrite lookup_insert_ne].
Qed.
Lemma source_other l k : k ∉ TARGET_FIELDS -> referenceLinkSource l !! k = link_fields l !! k.
Proof.
  intros Hk. rewrite source_lookup, assigned_none; [done|]. unfold TARGET_FIELDS in Hk.
  destruct (resolution l); cbn [map fst resolution_fields]; rewrite !not_elem_of_cons in *; naive_solver.
Qed.
Lemma source_field l k v : mem k TARGET_FIELDS = false -> link_fields l !! k = Some v -> field (referenceLinkSource l) k = v.
Proof. intros Hk Hv. unfold field. rewrite source_other by (by apply mem_false). by rewrite Hv. Qed.

Record fields_of (l : ReferenceLinkDoc) : Prop := {
  fo_id : field (referenceLinkSource l) LINK_ID = JStr (link_id l);
  fo_key : field (referenceLinkSource l) REFERENCE_KEY = JStr (reference_key l);
  fo_repository : field (referenceLinkSource l) REPOSITORY_ID = JNum (sc_repository_id (scope l));
  fo_type : field (referenceLinkSource l) LINK_TYPE = JStr REFERENCE_LINK_TYPE;
  fo_from_type : field (referenceLinkSource l) FROM_TYPE = JStr (endpoint_name (from_type l));
  fo_from_id : field (referenceLinkSource l) FROM_ID = JStr (from_id l);
  fo_resolved : field (referenceLinkSource l) RESOLVED = JBool (bool_decide (is_Some (resolution l)))
}.
Lemma source_fields l : fields_of l.
Proof.
  split; [apply source_field; vm_compute; reflexivity..|]. unfold field. rewrite source_lookup.
  by destruct (resolution l).
Qed.
Lemma referencing_source l :
  referencing (referenceLinkSource l) =
  Some (mkReferencing (link_id l) (sc_repository_id (scope l)) (reference_key l) (bool_decide (is_Some (resolution l))) (from_type l) (from_id l)).
Proof.
  destruct (source_fields l) as [H1 H2 H3 _ H5 H6 H7]. unfold referencing, text_field. rewrite H1, H2, H3, H5, H6, H7.
  by destruct (from_type l).
Qed.
Lemma source_target l r : field (referenceLinkSource (with_resolution (Some r) l)) TO_ID = JStr (to_id r).
Proof. unfold field. by rewrite source_lookup. Qed.

(** An update of a link leaves the link with the new resolution. *)
Lemma resolved_source l r :
  assign_all ((RESOLVED, JBool true) :: resolution_fields r) (referenceLinkSource l) = referenceLinkSource (with_resolution (Some r) l).
Proof.
  apply map_eq. intros k. rewrite assign_all_lookup, (source_lookup (with_resolution (Some r) l)).
  change (bool_decide (is_Some (resolution (with_resolution (Some r) l)))) with true. cbn [resolution with_resolution].
  destruct (assigned k _) eqn:E; [done|]. rewrite source_other; [done|]. intros Hk. revert E. cbn [assigned resolution_fields].
  unfold TARGET_FIELDS in Hk. rewrite !elem_of_cons, elem_of_nil in Hk.
  destruct Hk as [->|[->|[->|[->|[]]]]]; vm_compute; discriminate.
Qed.
Lemma unresolved_source l :
  (let d' := delete TO_TYPE (delete TO_ID (delete TO_REPOSITORY_ID (referenceLinkSource l))) in
   if bool_decide (field (referenceLinkSource l) RESOLVED = JBool false) then d' else <[RESOLVED := JBool false]> d') =
  referenceLinkSource (with_resolution None l).
Proof.
  cbv zeta. destruct (source_fields l) as [_ _ _ _ _ _ ->].
  assert (forall k, delete TO_TYPE (delete TO_ID (delete TO_REPOSITORY_ID (referenceLinkSource l))) !! k =
    if mem k [TO_TYPE; TO_ID; TO_REPOSITORY_ID] then None else referenceLinkSource l !! k) as Hd.
  { intros k. destruct (mem k _) eqn:E; [apply mem_elem in E|apply mem_false in E].
    - rewrite !elem_of_cons, elem_of_nil in E. rewrite !lookup_delete_None. destruct E as [->|[->|[->|[]]]]; auto.
    - rewrite !not_elem_of_cons in E. by rewrite !lookup_delete_ne by naive_solver. }
  apply map_eq. intros k. rewrite (source_lookup (with_resolution None l)).
  change (bool_decide (is_Some (resolution (with_resolution None l)))) with false. cbn [resolution with_resolution assigned]. destruct (decide (k = RESOLVED)) as [->|E].
  - rewrite (bool_decide_eq_true_2 (RESOLVED = RESOLVED)) by done. case_bool_decide as Er; [|by rewrite lookup_insert_eq].
    rewrite Hd, source_lookup. change (mem RESOLVED [TO_TYPE; TO_ID; TO_REPOSITORY_ID]) with false. cbv iota.
    injection Er as Er. rewrite Er. by destruct (resolution l) as [r|].
  - rewrite (bool_decide_eq_false_2 (k = RESOLVED)) by done. change (link_fields (with_resolution None l)) with (link_fields l).
    transitivity (delete TO_TYPE (delete TO_ID (delete TO_REPOSITORY_ID (referenceLinkSource l))) !! k);
      [by case_bool_decide; [|rewrite lookup_insert_ne]|].
    rewrite Hd. destruct (mem k _) eqn:Em.
    + symmetry. apply link_fields_none. apply mem_elem in Em. by right.
    + apply source_other. unfold TARGET_FIELDS. apply mem_false in Em. by apply not_elem_of_cons.
Qed.
Lemma resolution_carried name l u :
  carried_out (call_of name (update_op u)) (Some (referenceLinkSource l)) = Some (referenceLinkSource (with_resolution (lu_resolution u) l)).
Proof.
  unfold call_of, update_op. cbn [body]. destruct (lu_resolution u) as [r|]; cbn [resolution_body carried_out uc_script].
  - unfold merge_script. rewrite resolved_source. by case_bool_decide as E; [rewrite E|].
  - unfold UNRESOLVE_SCRIPT. rewrite unresolved_source. by case_bool_decide as E; [rewrite E|].
Qed.

(** ** Lemmas: the bulk request *)

Lemma with_items_lookup {A} (f : LinkBulkOp -> option UpdateReply -> A) ops replies (j : nat) :
  with_items f ops replies !! j = (fun o => f o (replies !! j)) <$> ops !! j.
Proof.
  revert replies j. induction ops as [|o ops IH]; intros replies [|j]; cbn [with_items]; [done..|by destruct replies|].
  cbn. rewrite IH. by destruct replies.
Qed.
Lemma concat_item {A B} (f : A -> list B) (l : list A) (x : A) (y : B) : x ∈ l -> y ∈ f x -> y ∈ concat (map f l).
Proof. intros Hx Hy. apply list_elem_of_In, in_concat. exists (f x). split; [by apply in_map, list_elem_of_In|by apply list_elem_of_In]. Qed.
Lemma concat_elem {B} (ls : list (list B)) (l : list B) (y : B) : l ∈ ls -> y ∈ l -> y ∈ concat ls.
Proof. intros Hl Hy. apply list_elem_of_In, in_concat. exists l. by rewrite <- !list_elem_of_In. Qed.

Section items.
Context {S : Type} `{LinkServer S}.
Definition spot (s : S) (c : UpdateCall) : jstr * DocKey := (es_index s (uc_name c), uc_key c).
Lemma items_index cs (s s' : S) rs : items_done cs s s' rs -> forall n, es_index s' n = es_index s n.
Proof. induction 1 as [|c cs s s1 s' r rs Hu _ _ IH]; intros n; [done|]. by rewrite IH, (up_index _ _ _ _ Hu). Qed.
Lemma items_frame cs (s s' : S) rs i k :
  items_done cs s s' rs -> (forall c, c ∈ cs -> spot s c <> (i, k)) -> es_doc s' i k = es_doc s i k.
Proof.
  induction 1 as [|c cs s s1 s' r rs Hu _ _ IH]; intros Hne; [done|]. rewrite IH.
  - apply (up_other _ _ _ _ Hu). intros E. apply (Hne c); [by left|]. by rewrite E.
  - intros c' Hc'. unfold spot. rewrite (up_index _ _ _ _ Hu). apply Hne. by right.
Qed.
Lemma items_at cs (s s' : S) rs (j : nat) c r :
  items_done cs s s' rs -> NoDup (map (spot s) cs) -> cs !! j = Some c -> rs !! j = Some r ->
  replied c (live s (uc_name c) (uc_key c)) (live s' (uc_name c) (uc_key c)) r.
Proof.
  intros Hd. revert j. induction Hd as [|c0 cs s s1 s' r0 rs Hu _ Hd IH]; intros j Hnd Hc Hr; [done|].
  assert (map (spot s1) cs = map (spot s) cs) as Hsp.
  { apply map_ext. intros c'. unfold spot. by rewrite (up_index _ _ _ _ Hu). }
  cbn [map] in Hnd. apply NoDup_cons in Hnd as [Hni Hnd]. destruct j as [|j].
  - injection Hc as ->. injection Hr as ->. pose proof (up_reply _ _ _ _ Hu) as Hrep. unfold live, doc_named in *.
    rewrite (items_index _ _ _ _ Hd). rewrite (items_frame _ _ _ _ _ _ Hd); [exact Hrep|].
    intros c' Hc' E. apply Hni. rewrite <- Hsp. change (spot s c) with (es_index s (uc_name c), uc_key c).
    rewrite <- (up_index _ _ _ _ Hu), <- E. by apply list_elem_of_fmap_2.
  - assert (spot s c <> spot s c0) as Hne.
    { intros E. apply Hni. rewrite <- E. apply list_elem_of_fmap_2. by eapply list_elem_of_lookup_2. }
    rewrite <- Hsp in Hnd. specialize (IH j Hnd Hc Hr). revert IH. unfold live, doc_named.
    rewrite (up_index _ _ _ _ Hu). by rewrite (up_other _ _ _ _ Hu).
Qed.
Lemma items_length cs (s s' : S) rs : items_done cs s s' rs -> length rs = length cs.
Proof. induction 1; cbn [length]; congruence. Qed.
(** What every single item keeps, the request keeps. *)
Lemma items_ind (P : S -> Prop) cs (s s' : S) rs :
  items_done cs s s' rs -> (forall c s s' r, c ∈ cs -> updates c s s' r -> sees s s' -> P s -> P s') -> P s -> P s'.
Proof.
  induction 1 as [|c cs s s1 s' r rs Hu Hs _ IH]; intros Hstep HP; [done|]. apply IH.
  - intros c' ? ? ? Hc'. apply Hstep. by right.
  - by apply (Hstep c s s1 r); [left|..].
Qed.
(** The moment of one item. *)
Lemma items_reach cs (s s' : S) rs (j : nat) c r :
  items_done cs s s' rs -> cs !! j = Some c -> rs !! j = Some r ->
  ∃ s1 s2 rs1 rs2, items_done (take j cs) s s1 rs1 ∧ updates c s1 s2 r ∧ sees s1 s2 ∧ items_done (drop (Datatypes.S j) cs) s2 s' rs2.
Proof.
  intros Hd. revert j. induction Hd as [|c0 cs s s1 s' r0 rs Hu Hs Hd IH]; intros j Hc Hr; [done|]. destruct j as [|j].
  - injection Hc as ->. injection Hr as ->. exists s, s1, [], rs. split_and!; [constructor|done..].
  - destruct (IH j Hc Hr) as (s2 & s3 & rs1 & rs2 & H1 & H2 & H3 & H4). exists s2, s3, (r0 :: rs1), rs2. split_and!; [by econstructor|done..].
Qed.
Lemma carried_of_reply c o o' r : replied c o o' r -> is_error r = false -> o' = carried_out c o.
Proof.
  destruct r; cbn [replied is_error]; try done.
  - intros (-> & _ & ->). done.
  - intros (d & d' & -> & Hs & ->). cbn [carried_out]. by rewrite Hs.
  - intros (d & -> & Hs & ->). cbn [carried_out]. by rewrite Hs.
Qed.
End items.

Section bulk_lemmas.
Context {S : Type} `{LinkServer S} (Hlaws : LinkLaws S).

Definition calls_of (t : WriteTargets) (ops : list LinkBulkOp) : list UpdateCall :=
  map (call_of LINKS_ALIAS) ops ++ match shadowIndexOf t LINKS_ALIAS with Some i => map (call_of i) ops | None => [] end.
Lemma send_items ops t (s : S) : ∃ rs,
  (items_done (calls_of t ops) s (sendLinkBulk ops t s).1 rs \/ (sendLinkBulk ops t s).1 = s) ∧
  forall res fs ps, (sendLinkBulk ops t s).2 = Ok (res, (fs, ps)) ->
  items_done (calls_of t ops) s (sendLinkBulk ops t s).1 rs ∧ ∃ k, let reported := take k rs in
  owners_ok ops = Ok tt ∧
  failures res = concat (with_items serving_failure ops reported) ∧ written res = Z.of_nat (length ops) - Z.of_nat (length (failures res)) ∧
  forall i, shadowIndexOf t LINKS_ALIAS = Some i ->
    let reports := with_items (shadow_report i) ops (drop (length ops) reported) in fs = concat (map fst reports) ∧ ps = concat (map snd reports).
Proof.
  unfold sendLinkBulk, calls_of. destruct ops as [|o ops']; [set (ops := [])|set (ops := o :: ops')].
  - exists []. cbn [fst snd]. split; [by right|]. intros res fs ps [= <- <- <-].
    assert (map (call_of LINKS_ALIAS) ops ++ match shadowIndexOf t LINKS_ALIAS with Some i => map (call_of i) ops | None => [] end = []) as ->
      by (unfold ops; by destruct (shadowIndexOf t LINKS_ALIAS)).
    split; [constructor|]. exists 0%nat. by split_and!.
  - destruct (owners_ok ops) as [[]|e] eqn:Eo; [|exists []; split; [by right|done]].
    cbv zeta. set (calls := map _ ops ++ _). destruct (law_items calls s) as (rs & Hd & Hr). exists rs.
    destruct (es_bulk calls s) as [s1 [replies|e]]; cbn [fst snd] in *; [|by split; [left|]].
    destruct Hr as (k & ->). split; [by left|]. intros res fs ps [= <- <- <-]. split; [done|]. exists k. split_and!; try done.
    intros i ->. done.
Qed.

(** A link operation was carried out on the index of a name: the document is what it makes of the
    one that was there. *)
Definition carried (s s' : S) (name : jstr) (o : LinkBulkOp) : Prop :=
  live s' name (link_key o) = carried_out (call_of name o) (live s name (link_key o)) ∧ is_Some (live s' name (link_key o)).
Lemma call_spot (s : S) name o : spot s (call_of name o) = (es_index s name, link_key o).
Proof. unfold spot, call_of. by destruct (body o). Qed.
Definition apart (t : WriteTargets) (s : S) : Prop :=
  forall i, shadowIndexOf t LINKS_ALIAS = Some i -> es_index s i <> es_index s LINKS_ALIAS.
Lemma calls_spots t ops (s : S) : NoDup (map link_key ops) -> apart t s -> NoDup (map (spot s) (calls_of t ops)).
Proof.
  intros Hn Ha. unfold calls_of. rewrite map_app, map_map. rewrite (map_ext _ (fun o => (es_index s LINKS_ALIAS, link_key o))) by (intros; apply call_spot).
  assert (forall i : jstr, NoDup (map (fun o => (i, link_key o)) ops)) as Hi.
  { intros i. rewrite <- (map_map link_key (fun k : DocKey => (i, k))). by apply NoDup_fmap_2; [intros ?? [=]|]. }
  apply list.NoDup_app. split; [apply Hi|]. destruct (shadowIndexOf t LINKS_ALIAS) as [i|] eqn:E; [|split; [by intros ? _ ?%elem_of_nil|constructor]].
  rewrite map_map, (map_ext (fun o => spot s (call_of i o)) (fun o => (es_index s i, link_key o))) by (intros; apply call_spot). split; [|apply Hi].
  intros x (o & -> & _)%list_elem_of_fmap (o' & [= E1 _] & _)%list_elem_of_fmap. by apply (Ha _ E).
Qed.
Lemma calls_serving t ops (j : nat) o : ops !! j = Some o -> calls_of t ops !! j = Some (call_of LINKS_ALIAS o).
Proof. intros Hj. unfold calls_of. apply lookup_app_l_Some. by rewrite list_lookup_fmap, Hj. Qed.
Lemma calls_shadow t ops i (j : nat) o :
  shadowIndexOf t LINKS_ALIAS = Some i -> ops !! j = Some o -> calls_of t ops !! (length ops + j)%nat = Some (call_of i o).
Proof.
  intros Hi Hj. unfold calls_of. rewrite Hi. rewrite lookup_app_r by (rewrite length_map; lia).
  rewrite length_map. replace (length ops + j - length ops)%nat with j by lia. by rewrite list_lookup_fmap, Hj.
Qed.
Lemma carried_item t ops (s s' : S) rs (m : nat) name o r :
  items_done (calls_of t ops) s s' rs -> NoDup (map link_key ops) -> apart t s -> calls_of t ops !! m = Some (call_of name o) ->
  rs !! m = Some r -> is_error r = false -> carried s s' name o.
Proof.
  intros Hd Hn Ha Hc Hr He. pose proof (items_at _ _ _ _ _ _ _ Hd (calls_spots t ops s Hn Ha) Hc Hr) as Hrep.
  assert (uc_name (call_of name o) = name ∧ uc_key (call_of name o) = link_key o) as [E1 E2] by (unfold call_of; by destruct (body o)).
  rewrite E1, E2 in Hrep. split; [by eapply carried_of_reply|].
  destruct r; cbn [replied is_error] in *; [destruct Hrep as (_ & [u Hu] & ->); by rewrite Hu|destruct Hrep as (d & d' & _ & _ & ->); by eauto|
    destruct Hrep as (d & -> & _ & E); by rewrite E; eauto|done].
Qed.
Lemma serving_item ops (reported : list UpdateReply) (j : nat) o :
  ops !! j = Some o -> (∃ r, reported !! j = Some r ∧ is_error r = false) \/
  ∃ f, f ∈ concat (with_items serving_failure ops reported) ∧ lf_link_id f = linkId o.
Proof.
  intros Hj. assert (serving_failure o (reported !! j) ∈ with_items serving_failure ops reported) as Hin.
  { apply (list_elem_of_lookup_2 _ j). by rewrite with_items_lookup, Hj. }
  destruct (reported !! j) as [[| | |e]|] eqn:E; [left; eauto..|right|right];
    (eexists; split; [eapply concat_elem; [exact Hin|by left]|done]).
Qed.
Lemma shadow_item i ops (reported : list UpdateReply) (j : nat) o :
  ops !! j = Some o -> owners_ok ops = Ok tt ->
  let reports := with_items (shadow_report i) ops reported in
  (∃ r, reported !! j = Some r ∧ is_error r = false) \/
  (∃ f, f ∈ concat (map fst reports) ∧ sf_alias f = LINKS_ALIAS ∧ sf_index f = i) \/
  (∃ p k, p ∈ concat (map snd reports) ∧ ownerSourceOf o = Ok (k, fp_sourceId p) ∧
     p = mkPending LINKS_ALIAS i (repositoryId o) (kind_of k) (fp_sourceId p) (linkId o) ∧
     ∃ e, reported !! j = Some (re_error e) ∧ document_missing e = true).
Proof.
  intros Hj Ho reports. assert (shadow_report i o (reported !! j) ∈ reports) as Hin.
  { apply (list_elem_of_lookup_2 _ j). unfold reports. by rewrite with_items_lookup, Hj. }
  assert (forall (f : ShadowWriteFailure) rec, rec ∈ reports -> f ∈ rec.1 -> sf_alias f = LINKS_ALIAS ∧ sf_index f = i ->
    ∃ f, f ∈ concat (map fst reports) ∧ sf_alias f = LINKS_ALIAS ∧ sf_index f = i) as Hf.
  { intros f rec Hrec Hfr Hfi. exists f. split; [|done]. by eapply concat_item. }
  destruct (reported !! j) as [[| | |e]|] eqn:E; [left; eauto..| |]; cbn [shadow_report] in Hin.
  - destruct (bool_decide (op_kind o = op_update)) eqn:Ek; cbn [andb] in Hin; [|right; left; by eapply Hf; [exact Hin|left|]].
    destruct (document_missing e) eqn:Em; [|right; left; by eapply Hf; [exact Hin|left|]].
    assert (is_ok (ownerSourceOf o) = true) as Hok.
    { apply bool_decide_eq_true_1 in Ek. clear -Hj Ho Ek. revert j Hj. induction ops as [|o' ops IH]; intros j Hj; [done|]. cbn [owners_ok] in Ho.
      destruct j as [|j]; [injection Hj as ->; rewrite Ek in Ho; by destruct (ownerSourceOf o)|].
      apply (IH) with j; [|done]. by destruct (op_kind o'), (ownerSourceOf o'). }
    destruct (ownerSourceOf o) as [[k id]|]; [|done]. right. right.
    exists (mkPending LINKS_ALIAS i (repositoryId o) (kind_of k) id (linkId o)), k. cbn [fp_sourceId]. split_and!; [|done|done|by exists e].
    eapply concat_item; [exact Hin|by left].
  - right; left; by eapply Hf; [exact Hin|left|].
Qed.

Lemma items_carried ops t (s s' : S) res rec o :
  NoDup (map link_key ops) -> apart t s -> sendLinkBulk ops t s = (s', Ok (res, rec)) -> failures res = [] -> o ∈ ops -> carried s s' LINKS_ALIAS o.
Proof.
  intros Hn Ha Hsend Hf (j & Hj)%list_elem_of_lookup. destruct (send_items ops t s) as (rs & _ & Hok). rewrite Hsend in Hok. destruct rec as [fs ps].
  destruct (Hok res fs ps eq_refl) as (Hd & k & _ & Hfs & _). cbn [fst] in Hd.
  destruct (serving_item ops (take k rs) j o Hj) as [(r & Hr & He)|(f & Hin & _)]; [|rewrite <- Hfs, Hf in Hin; by apply elem_of_nil in Hin].
  apply (carried_item t ops s s' rs j LINKS_ALIAS o r); try done; [by apply calls_serving|]. by apply lookup_take_Some in Hr as [? _].
Qed.
(** Whatever becomes of the request, other documents of the serving index stay, and none goes. *)
Lemma bulk_spots t ops (s : S) c : apart t s -> c ∈ calls_of t ops ->
  (∃ o, o ∈ ops ∧ spot s c = (es_index s LINKS_ALIAS, link_key o)) \/ (spot s c).1 <> es_index s LINKS_ALIAS.
Proof.
  intros Ha [(o & -> & Hin)%list_elem_of_fmap|Hin]%elem_of_app; [left; exists o; by rewrite call_spot|right].
  destruct (shadowIndexOf t LINKS_ALIAS) as [i|] eqn:E; [|by apply elem_of_nil in Hin]. apply list_elem_of_fmap in Hin as (o & -> & Hin).
  rewrite call_spot. by apply Ha.
Qed.
(** One item changes one document of the serving index at most, and in its way. *)
Lemma bulk_step t ops (s1 s2 : S) c r k :
  c ∈ calls_of t ops -> updates c s1 s2 r ->
  live s2 LINKS_ALIAS k = live s1 LINKS_ALIAS k \/
  ∃ o, o ∈ ops ∧ link_key o = k ∧ live s2 LINKS_ALIAS k = carried_out (call_of LINKS_ALIAS o) (live s1 LINKS_ALIAS k).
Proof.
  intros Hc Hu.
  destruct (decide (spot s1 c = (es_index s1 LINKS_ALIAS, k))) as [E|Hne].
  - assert (∃ name o, o ∈ ops ∧ c = call_of name o) as (name & o & Ho & ->).
    { unfold calls_of in Hc. apply elem_of_app in Hc as [(o & -> & Ho)%list_elem_of_fmap|Hc]; [by exists LINKS_ALIAS, o|].
      destruct (shadowIndexOf t LINKS_ALIAS) as [i|]; [|by apply elem_of_nil in Hc]. apply list_elem_of_fmap in Hc as (o & -> & Ho). by exists i, o. }
    rewrite call_spot in E. injection E as En Ek. pose proof (up_reply _ _ _ _ Hu) as Hr.
    assert (uc_name (call_of name o) = name ∧ uc_key (call_of name o) = link_key o ∧
      carried_out (call_of name o) (live s1 LINKS_ALIAS k) = carried_out (call_of LINKS_ALIAS o) (live s1 LINKS_ALIAS k)) as (E1 & E2 & E3) by (unfold call_of; by destruct (body o)).
    assert (doc_named s2 name (link_key o) = live s2 LINKS_ALIAS k ∧ doc_named s1 name (link_key o) = live s1 LINKS_ALIAS k) as [D2 D1]
      by (unfold live, doc_named; by rewrite Ek, !(up_index _ _ _ _ Hu), En).
    rewrite E1, E2, D1, D2 in Hr. destruct (is_error r) eqn:Ee; [|right; exists o; rewrite <- E3; split_and!; [done..|by eapply carried_of_reply]].
    destruct r; try done. cbn [replied] in Hr. destruct (document_missing e); [left; by destruct Hr as (-> & _ & ->)|].
    destruct Hr as [Hr|Hr]; [by left|right; exists o; by rewrite <- E3].
  - left. unfold live, doc_named. rewrite (up_index _ _ _ _ Hu). apply (up_other _ _ _ _ Hu). intros E. by apply Hne.
Qed.
Lemma bulk_index ops t (s : S) n : es_index (sendLinkBulk ops t s).1 n = es_index s n.
Proof. destruct (send_items ops t s) as (rs & [Hd| ->] & _); [by eapply items_index|done]. Qed.
Lemma bulk_other ops t (s : S) k :
  apart t s -> (forall o, o ∈ ops -> link_key o <> k) -> live (sendLinkBulk ops t s).1 LINKS_ALIAS k = live s LINKS_ALIAS k.
Proof.
  intros Ha Hk. destruct (send_items ops t s) as (rs & [Hd| ->] & _); [|done]. unfold live, doc_named. rewrite bulk_index.
  apply (items_frame _ _ _ _ _ _ Hd). intros c Hc E. destruct (bulk_spots t ops s c Ha Hc) as [(o & Ho & E')|Hne].
  - rewrite E' in E. injection E as E. by eapply Hk.
  - by rewrite E in Hne.
Qed.
Lemma reply_keeps c o o' r : replied c o o' r -> is_Some o -> is_Some o'.
Proof.
  intros Hr [d ->]. assert (is_Some (carried_out c (Some d))) as Hc by (cbn [carried_out]; by destruct (uc_script c d)).
  destruct r; cbn [replied] in Hr; [by destruct Hr as [? _]|destruct Hr as (? & ? & _ & _ & ->); by eauto|destruct Hr as (? & _ & _ & ->); by eauto|].
  destruct (document_missing e); [by destruct Hr as [? _]|]. destruct Hr as [E|E]; by rewrite E; eauto.
Qed.
Lemma bulk_keeps ops t (s : S) i k : is_Some (es_doc s i k) -> is_Some (es_doc (sendLinkBulk ops t s).1 i k).
Proof.
  intros Hs. destruct (send_items ops t s) as (rs & [Hd| ->] & _); [|done].
  revert Hs. apply (items_ind (fun s => is_Some (es_doc s i k)) _ _ _ _ Hd). clear. intros c s s' r _ Hu _ Hs.
  destruct (decide (spot s c = (i, k))) as [E|Hne]; [|rewrite (up_other _ _ _ _ Hu) by (by intros E; apply Hne); done].
  pose proof (up_reply _ _ _ _ Hu) as Hr. unfold doc_named in Hr. rewrite (up_index _ _ _ _ Hu) in Hr. injection E as E1 E2.
  rewrite E1, E2 in Hr. by eapply reply_keeps.
Qed.

(** [C26] Every item of a bulk write of links is accounted for: one that counts as written is in the
    serving index, any other is among the failures by its id; and while an index is being built,
    its copy of an item is there, or a failure of that index is recorded, or the source of a link
    that the new index does not have is recorded for another derivation. *)
Theorem link_writes_accounted ops t (s s' : S) res fs ps :
  NoDup (map link_key ops) -> apart t s -> sendLinkBulk ops t s = (s', Ok (res, (fs, ps))) ->
  written res + Z.of_nat (length (failures res)) = Z.of_nat (length ops) ∧
  forall o, o ∈ ops ->
    (carried s s' LINKS_ALIAS o \/ ∃ f, f ∈ failures res ∧ lf_link_id f = linkId o) ∧
    forall i, shadowIndexOf t LINKS_ALIAS = Some i ->
      carried s s' i o \/
      (∃ f, f ∈ fs ∧ sf_alias f = LINKS_ALIAS ∧ sf_index f = i) \/
      (∃ k id, mkPending LINKS_ALIAS i (repositoryId o) (kind_of k) id (linkId o) ∈ ps ∧ ownerSourceOf o = Ok (k, id) ∧ live s i (link_key o) = None).
Proof.
  intros Hn Ha Hsend. destruct (send_items ops t s) as (rs & _ & Hok). rewrite Hsend in Hok. cbn [fst snd] in Hok.
  destruct (Hok res fs ps eq_refl) as (Hd & k & Ho & Hf & Hw & Hsh). split; [lia|].
  intros o (j & Hj)%list_elem_of_lookup. split.
  - destruct (serving_item ops (take k rs) j o Hj) as [(r & Hr & He)|(f & Hin & Hid)]; [left|right; exists f; by rewrite Hf].
    apply (carried_item t ops s s' rs j LINKS_ALIAS o r); try done; [by apply calls_serving|]. by apply lookup_take_Some in Hr as [? _].
  - intros i Hi. destruct (Hsh i Hi) as [Hfs Hps].
    destruct (shadow_item i ops (drop (length ops) (take k rs)) j o Hj Ho) as [(r & Hr & He)|[(f & Hin & Hid)|(p & kd & Hin & Hown & Hp & e & Hr & He)]].
    + left. rewrite lookup_drop in Hr. apply lookup_take_Some in Hr as [Hr _].
      apply (carried_item t ops s s' rs (length ops + j) i o r); try done. by apply calls_shadow.
    + right; left. exists f. by rewrite Hfs.
    + right; right. exists kd, (fp_sourceId p). split_and!; [by rewrite Hps, <- Hp|done|].
      rewrite lookup_drop in Hr. apply lookup_take_Some in Hr as [Hr _].
      pose proof (items_at _ _ _ _ _ _ _ Hd (calls_spots t ops s Hn Ha) (calls_shadow t ops i j o Hi Hj) Hr) as Hrep.
      cbn [replied] in Hrep. rewrite He in Hrep. destruct Hrep as (E & _ & _). unfold call_of in E. by destruct (body o).
Qed.
End bulk_lemmas.

(** ** Lemmas: requests on one index *)

Section frames.
Context {S : Type} `{LinkServer S} (Hlaws : LinkLaws S).

(** Nothing happens to an index, and the names stay. *)
Definition untouched (i : jstr) (s s' : S) : Prop := (forall n, es_index s' n = es_index s n) ∧ forall k, es_doc s' i k = es_doc s i k.
Lemma untouched_refl i s : untouched i s s.
Proof. done. Qed.
Lemma untouched_trans i s1 s2 s3 : untouched i s1 s2 -> untouched i s2 s3 -> untouched i s1 s3.
Proof. intros [A1 A2] [B1 B2]. split; intros; [by rewrite B1|by rewrite B2]. Qed.
Lemma update_untouched i c (s : S) : es_index s (uc_name c) <> i -> untouched i s (es_update c s).1.
Proof.
  intros Hi. pose proof (law_update (DocLaws := ll_docs) c s) as Hu. split; [apply (up_index _ _ _ _ Hu)|].
  intros k. apply (up_other _ _ _ _ Hu). by intros [= ?].
Qed.
(** What the removal of stale links leaves of the index that it is asked for. *)
Record removed_from (name rt : jstr) (f : Source -> bool) (keep : list jstr) (s s' : S) (ok : bool) : Prop := {
  rm_only k : ok = true -> live s' name k = live s name k \/ (live s' name k = None ∧ k.2 ∉ keep ∧ ∃ d, live s name k = Some d ∧ f d = true);
  rm_gone k : live s' name k = live s name k \/ live s' name k = None;
  rm_done id d : ok = true -> live s name (rt, id) = Some d -> f d = true -> id ∉ keep -> live s' name (rt, id) = None
}.
Lemma refresh_and_delete_spec repositoryId f keep name (s : S) :
  let '(s', r) := refresh_and_delete repositoryId f keep name s in
  ((forall n, es_index s' n = es_index s n) ∧ forall i k, i <> es_index s name -> es_doc s' i k = es_doc s i k) ∧
  removed_from name (js_of_Z repositoryId) f keep s s' (is_ok r).
Proof.
  unfold refresh_and_delete. pose proof (law_refresh name s) as Hr. destruct (es_refresh name s) as [s1 [u|e]].
  - destruct Hr as (Hn & Hd & _ & Hf). specialize (Hf eq_refl). pose proof (law_delete name (js_of_Z repositoryId) f keep s1) as Hdel.
    destruct (es_delete name (js_of_Z repositoryId) f keep s1) as [s2 r]. destruct Hdel as [Hdel _].
    assert (forall k, live s1 name k = live s name k) as Hl by (intros k; unfold live, doc_named; by rewrite Hn, Hd).
    split; [split|split].
    + intros n. by rewrite (dl_index _ _ _ _ _ _ _ Hdel), Hn.
    + intros i k Hi. rewrite (dl_other _ _ _ _ _ _ _ Hdel), Hd by by rewrite Hn. done.
    + intros k _. rewrite <- Hl. destruct (dl_only _ _ _ _ _ _ _ Hdel k) as [|(E & Hk & d & Hd' & Hfd)]; [by left|right]. split_and!; [done..|].
      exists d. split; [|done]. unfold found in Hd'. rewrite <- Hn in Hf. rewrite (law_refreshed (LinkLaws := Hlaws) _ _ _ Hf) in Hd'. done.
    + intros k. rewrite <- Hl. destruct (dl_only _ _ _ _ _ _ _ Hdel k) as [|(E & _)]; [by left|by right].
    + intros id d Hok Hld Hfd Hk. rewrite <- Hl in Hld. rewrite <- Hn in Hf. by apply (dl_done _ _ _ _ _ _ _ Hdel id d).
  - destruct Hr as (Hn & Hd & _ & _). assert (forall k, live s1 name k = live s name k) as Hl by (intros k; unfold live, doc_named; by rewrite Hn, Hd).
    split; [by split|]. split; try done. intros k. left. apply Hl.
Qed.
Lemma dualWrite_cases {T} t alias op (String_of : EsError -> jstr) (run : jstr -> S -> S * result EsError T) (s s' : S) r fs :
  dualWrite t alias op String_of run s = (s', (r, fs)) ->
  ∃ s1, run alias s = (s1, r) ∧ (s' = s1 \/ ∃ i, is_ok r = true ∧ shadowIndexOf t alias = Some i ∧ s' = (run i s1).1).
Proof.
  unfold dualWrite. destruct (run alias s) as [s1 [v|e]] eqn:E1.
  - destruct (shadowIndexOf t alias) as [i|] eqn:Ei; [|intros [= <- <- <-]; exists s1; by split; [|left]].
    destruct (run i s1) as [s2 [v2|e2]] eqn:E2; intros [= <- <- <-]; exists s1; (split; [done|right]); exists i; by rewrite E2.
  - intros [= <- <- <-]. exists s1. by split; [|left].
Qed.
Lemma sendSummary_update u name (s : S) :
  (sendSummary u name s).1 = (es_update (mkUpdate name (summary_key u) (LINK_SUMMARY_SCRIPT u) None) s).1.
Proof. unfold sendSummary. by destruct (es_update _ s) as [s' []]. Qed.
End frames.

(** ** Lemmas: pages *)

Section pages.
Context {S : Type} `{LinkServer S} (Hlaws : LinkLaws S) (f : Source -> bool) (pageSize : nat) (s : S).
Context (Hids : forall k d, found s LINKS_ALIAS !! k = Some d -> f d = true -> ∃ i, field d LINK_ID = JStr i).
Context (Huniq : forall k d k' d', found s LINKS_ALIAS !! k = Some d -> found s LINKS_ALIAS !! k' = Some d' -> f d = true -> f d' = true ->
  sort_id d = sort_id d' -> k = k').
Context (Hsize : (0 < pageSize)%nat).

Definition ahead (after : option jstr) (h : Hit) : Prop := found s LINKS_ALIAS !! h.1 = Some h.2 ∧ f h.2 = true ∧ beyond after (sort_id h.2).
#[local] Instance beyond_dec after id : Decision (beyond after id).
Proof. destruct after; cbn; apply _. Defined.
Definition rest (after : option jstr) : gmap DocKey Source :=
  filter (fun p : Hit => f p.2 = true ∧ beyond after (sort_id p.2)) (found s LINKS_ALIAS).
Lemma page_spec after hits : es_page LINKS_ALIAS f after pageSize s = Ok hits -> paged s LINKS_ALIAS f after pageSize hits.
Proof. apply law_page, Hids. Qed.
(** The link after which the next page begins is one of this page, and what is left is less. *)
Lemma next_page after hits h :
  paged s LINKS_ALIAS f after pageSize hits -> last hits = Some h ->
  ahead after h ∧ (size (rest (Some (sort_id h.2))) < size (rest after))%nat ∧
  (forall x, ahead (Some (sort_id h.2)) x -> ahead after x) ∧
  (forall x, ahead after x -> x ∈ hits \/ ahead (Some (sort_id h.2)) x).
Proof.
  intros Hp Hl. assert (h ∈ hits) as Hin by (apply last_Some in Hl as [l ->]; apply elem_of_app; right; by left).
  pose proof (pg_sound _ _ _ _ _ _ Hp h Hin) as (Hf & Hfh & Hb).
  assert (forall x, ahead (Some (sort_id h.2)) x -> ahead after x) as Hmono.
  { intros x (? & ? & Hx). split_and!; try done. destruct after as [a|]; [|done]. cbn [beyond] in *. by eapply law_lt_trans. }
  split_and!; try done.
  - apply map_subset_size. apply strict_spec_alt. split.
    + apply map_subseteq_spec. intros k d. unfold rest. rewrite !map_lookup_filter_Some. cbn [snd]. intros (Hk & Hfd & Hbd).
      destruct (Hmono (k, d)) as (? & ? & ?); [by split_and!|]. by split_and!.
    + intros E. assert (rest after !! h.1 = Some h.2) as Hr by (apply map_lookup_filter_Some; by split_and!).
      rewrite <- E in Hr. apply map_lookup_filter_Some in Hr as (_ & _ & Hlt). cbn [snd beyond] in Hlt.
      by rewrite law_lt_irrefl in Hlt.
  - intros [k d] (Hk & Hfd & Hbd). cbn [fst snd] in *. destruct (pg_all _ _ _ _ _ _ Hp k d Hk Hfd Hbd) as [|[_ Hall]]; [by left|].
    specialize (Hall h Hin). destruct (law_lt_total (sort_id d) (sort_id h.2)) as [E|[E|E]]; [congruence| |right; by split_and!].
    left. assert (k = h.1) as -> by (by eapply Huniq). rewrite Hf in Hk. injection Hk as <-. by destruct h.
Qed.
Lemma read_pages_spec fuel after r :
  read_pages fuel f pageSize after s = Some (Ok r) -> forall d, d ∈ r <-> ∃ k, ahead after (k, d).
Proof.
  revert after r. induction fuel as [|fuel IH]; intros after r; [done|]. cbn [read_pages].
  destruct (es_page LINKS_ALIAS f after pageSize s) as [hits|] eqn:E; [|done]. apply page_spec in E as Hp.
  assert (forall d, d ∈ map snd hits -> ∃ k, ahead after (k, d)) as Hsound.
  { intros d ([k d'] & -> & Hin)%list_elem_of_fmap. exists k. apply (pg_sound _ _ _ _ _ _ Hp _ Hin). }
  destruct (Nat.ltb_spec (length hits) pageSize) as [Hlt|Hge].
  - intros [= <-] d. split; [by apply Hsound|]. intros (k & Hk & Hfd & Hb).
    destruct (pg_all _ _ _ _ _ _ Hp k d Hk Hfd Hb) as [Hin|[Hl _]]; [|lia]. by apply (list_elem_of_fmap_2 snd) in Hin.
  - destruct (last hits) as [h|] eqn:El.
    + destruct (next_page after hits h Hp El) as (_ & _ & Hmono & Hcov).
      destruct (read_pages fuel f pageSize (Some (sort_id h.2)) s) as [[l|]|] eqn:Er; cbn; [|done..].
      intros [= <-] d. rewrite elem_of_app, (IH _ _ Er d). split.
      * intros [Hin|(k & Hk)]; [by apply Hsound|exists k; by apply Hmono].
      * intros (k & Hk). destruct (Hcov (k, d) Hk) as [Hin|Ha]; [left; by apply (list_elem_of_fmap_2 snd) in Hin|right; by exists k].
    + apply last_None in El as ->. cbn in Hge. lia.
Qed.
Lemma read_pages_done fuel after : (size (rest after) < fuel)%nat -> is_Some (read_pages fuel f pageSize after s).
Proof.
  revert after. induction fuel as [|fuel IH]; intros after Hf; [lia|]. cbn [read_pages].
  destruct (es_page LINKS_ALIAS f after pageSize s) as [hits|] eqn:E; [|by eauto]. apply page_spec in E as Hp.
  destruct (Nat.ltb (length hits) pageSize); [by eauto|]. destruct (last hits) as [h|] eqn:El; [|by eauto].
  destruct (next_page after hits h Hp El) as (_ & Hlt & _). apply fmap_is_Some, IH. lia.
Qed.
(** All the links that a search finds, over however many pages. *)
Lemma read_all_spec r : read_all f pageSize s = Ok r -> forall d, d ∈ r <-> ∃ k, found s LINKS_ALIAS !! k = Some d ∧ f d = true.
Proof.
  unfold read_all. destruct (read_pages_done (page_fuel s) None) as [x Hx].
  { unfold page_fuel, rest. apply Nat.lt_succ_r, map_subseteq_size, map_filter_subseteq. }
  rewrite Hx. intros [= ->] d. rewrite (read_pages_spec _ _ _ Hx d). unfold ahead. cbn. naive_solver.
Qed.
End pages.

(** ** Lemmas: targets *)

(** A document of a pull request or of a commit says whose it is, and its id and routing agree. *)
Definition pr_document (h : Hit) (r n : Z) : Prop := h.1 = (js_of_Z r, pullRequestDocId r n) ∧ pr_of h = Some (r, n).
Definition commit_document (h : Hit) (r : Z) (sha : jstr) : Prop := h.1 = (js_of_Z r, commitDocId r sha) ∧ commit_of h = Some (r, sha).

Lemma put_ids {K} `{Countable K} (key : Hit -> option K) (name : K -> jstr) hits : forall m : gmap K jstr,
  (forall h k, h ∈ hits -> key h = Some k -> h.1.2 = name k) -> (forall k id, m !! k = Some id -> id = name k) ->
  forall k id, foldl (put_id key) m hits !! k = Some id <-> m !! k = Some id \/ ∃ h, h ∈ hits ∧ key h = Some k ∧ id = name k.
Proof.
  induction hits as [|h hits IH]; intros m Hg Hm k id; cbn [foldl].
  { split; [by left|]. intros [|(? & ?%elem_of_nil & _)]; done. }
  assert (forall k id, put_id key m h !! k = Some id <-> m !! k = Some id \/ key h = Some k ∧ id = name k) as E.
  { intros k' id'. unfold put_id. destruct (key h) as [k0|] eqn:Ek; [|naive_solver].
    assert (h.1.2 = name k0) as Hid by (apply Hg; [by left|done]).
    destruct (decide (k' = k0)) as [->|Hne]; [rewrite lookup_insert_eq|rewrite lookup_insert_ne by done; naive_solver].
    rewrite Hid. split; [naive_solver|]. intros [Hb%Hm|[_ ->]]; congruence. }
  rewrite IH; [rewrite E; setoid_rewrite elem_of_cons; naive_solver|..].
  - intros h' k' Hh'. apply Hg. by right.
  - intros k' id' [Hb|[_ ->]]%E; [by apply Hm|done].
Qed.
Lemma inserts_elem {A} (l : list (jstr * A)) k x :
  (forall y z, (k, y) ∈ l -> (k, z) ∈ l -> y = z) -> foldl (fun (m : gmap jstr A) p => <[p.1 := p.2]> m) ∅ l !! k = Some x <-> (k, x) ∈ l.
Proof.
  induction l as [|[k' y] l IH] using rev_ind; [intros _; cbn [foldl]; by rewrite elem_of_nil, lookup_empty|].
  setoid_rewrite elem_of_app. setoid_rewrite list_elem_of_singleton. intros Hf. rewrite foldl_app. cbn [foldl fst snd].
  destruct (decide (k = k')) as [->|Hne].
  - rewrite lookup_insert_eq. split; [intros [= ->]; by right|]. intros Hx. f_equal. eapply Hf; [by right|done].
  - rewrite lookup_insert_ne, IH; [naive_solver| |done]. intros u v Hu Hv. by apply Hf; left.
Qed.
Definition hits_of (sh : Shape) (a : Shape * list Hit) : list Hit :=
  match sh, a.1 with shape_pull_request, shape_pull_request | shape_commit, shape_commit => a.2 | _, _ => [] end.
Definition one_hit (a : Shape * list Hit) : option (jstr * ReferenceResolution) :=
  match a with
  | (shape_prefix key, [h]) => (fun r => (key, mkResolution ep_commit h.1.2 r)) <$> number_field h.2 REPOSITORY_ID
  | _ => None
  end.
Lemma add_hits_maps answers : forall m,
  byPr (foldl add_hits m answers) = foldl (put_id pr_of) (byPr m) (flat_map (hits_of shape_pull_request) answers) ∧
  byCommit (foldl add_hits m answers) = foldl (put_id commit_of) (byCommit m) (flat_map (hits_of shape_commit) answers) ∧
  byPrefix (foldl add_hits m answers) = foldl (fun m p => <[p.1 := p.2]> m) (byPrefix m) (omap one_hit answers).
Proof.
  induction answers as [|[sh hits] answers IH]; intros m; [done|]. cbn [foldl flat_map omap list_omap].
  destruct (IH (add_hits m (sh, hits))) as (-> & -> & ->). rewrite !foldl_app.
  destruct sh as [| |key]; [done..|]. unfold add_hits. cbn [fst snd hits_of one_hit foldl].
  destruct hits as [|h [|? ?]]; [done| |done]. by destruct (number_field h.2 REPOSITORY_ID).
Qed.
Definition exact (m : Targets) (l : TargetLookup) : option (jstr * ReferenceResolution) :=
  match l with
  | tl_pull_request k r n => (fun id => (k, mkResolution ep_pull_request id r)) <$> byPr m !! (r, n)
  | tl_commit k r sha => (fun id => (k, mkResolution ep_commit id r)) <$> byCommit m !! (r, sha)
  | tl_commit_prefix _ _ _ => None
  end.
Lemma add_exact_inserts m ls : forall found,
  foldl (add_exact m) found ls = foldl (fun m p => <[p.1 := p.2]> m) found (omap (exact m) ls).
Proof.
  induction ls as [|l ls IH]; intros found; [done|]. cbn [foldl omap list_omap]. rewrite IH.
  destruct l as [k r n|k r sha|k r p]; cbn [add_exact exact]; [by destruct (byPr m !! (r, n))|by destruct (byCommit m !! (r, sha))|done].
Qed.
Lemma collect_inserts ls answers :
  let m := foldl add_hits no_targets answers in
  collect ls answers = foldl (fun m p => <[p.1 := p.2]> m) ∅ (omap one_hit answers ++ omap (exact m) (pull_requests ls ++ commits ls)).
Proof.
  cbv zeta. unfold collect. rewrite add_exact_inserts, foldl_app. f_equal. by destruct (add_hits_maps answers no_targets) as (_ & _ & ->).
Qed.

Section targets.
Context {S : Type} `{LinkServer S} (Hlaws : LinkLaws S) (s : S).
Context (Hprs : forall k d, found s PR_ALIAS !! k = Some d -> ∃ r n, pr_document (k, d) r n).
Context (Hcommits : forall k d, found s COMMIT_ALIAS !! k = Some d -> ∃ r sha, commit_document (k, d) r sha).

Definition pr_found (r n : Z) : Prop := is_Some (found s PR_ALIAS !! (js_of_Z r, pullRequestDocId r n)).
Definition commit_found (r : Z) (sha : jstr) : Prop := ∃ d, found s COMMIT_ALIAS !! (js_of_Z r, commitDocId r sha) = Some d ∧ text_field d COMMIT_SHA = Some sha.
(** What a lookup is answered with. *)
Definition answer (l : TargetLookup) (x : ReferenceResolution) : Prop :=
  match l with
  | tl_pull_request _ r n => pr_found r n ∧ x = mkResolution ep_pull_request (pullRequestDocId r n) r
  | tl_commit _ r sha => commit_found r sha ∧ x = mkResolution ep_commit (commitDocId r sha) r
  | tl_commit_prefix _ r p => ∃ sha, commit_found r sha ∧ starts_with p sha = true ∧ x = mkResolution ep_commit (commitDocId r sha) r ∧
      forall sha', commit_found r sha' -> starts_with p sha' = true -> commitDocId r sha' = commitDocId r sha
  end.
Lemma answer_functional l x y : answer l x -> answer l y -> x = y.
Proof.
  destruct l as [k r n|k r sha|k r p]; cbn [answer]; [intros [_ ->] [_ ->]; done..|].
  intros (sha & Hf & Hs & -> & Hu) (sha' & Hf' & Hs' & -> & _). by rewrite (Hu sha').
Qed.
Lemma full_search q hits (keys : list DocKey) h :
  searched s q hits -> q_size q = length keys -> (forall h, matches s q h -> h.1 ∈ keys) -> matches s q h -> h ∈ hits.
Proof.
  intros Hs Hlen Hk Hm. destruct (sr_all _ _ _ Hs h Hm) as [|Hfull]; [done|]. destruct (decide (h.1 ∈ hits.*1)) as [Hin|Hni].
  - apply list_elem_of_fmap in Hin as ([k d] & Ek & Hin). destruct (sr_sound _ _ _ Hs _ Hin) as [Hf _]. destruct Hm as [Hf' _].
    destruct h as [k' d']. cbn [fst snd] in *. subst k'. rewrite Hf in Hf'. injection Hf' as ->. done.
  - assert (length (h.1 :: hits.*1) <= length keys)%nat as Hl; [|cbn [length] in Hl; rewrite length_fmap in Hl; lia].
    apply submseteq_length, NoDup_submseteq; [apply NoDup_cons; split; [done|apply (sr_nodup _ _ _ Hs)]|].
    intros k [->|Hin]%elem_of_cons; [by apply Hk|]. apply list_elem_of_fmap in Hin as (h' & -> & Hin). by apply Hk, (sr_sound _ _ _ Hs).
Qed.
Lemma pr_unique k d r n r' n' : pr_document (k, d) r n -> k = (js_of_Z r', pullRequestDocId r' n') -> r = r' ∧ n = n'.
Proof.
  intros [Hk _] ->. cbn [fst] in Hk. injection Hk as Hr Hid. apply js_of_Z_injective in Hr as ->. split; [done|].
  unfold pullRequestDocId in Hid. apply app_inv_head in Hid. injection Hid as Hid. by apply js_of_Z_injective in Hid.
Qed.
Lemma pr_of_number h r n : pr_of h = Some (r, n) <-> number_field h.2 REPOSITORY_ID = Some r ∧ number_field h.2 PR_NUMBER = Some n.
Proof. unfold pr_of. destruct (number_field h.2 REPOSITORY_ID), (number_field h.2 PR_NUMBER); cbn; naive_solver. Qed.
Lemma commit_of_sha h r sha : commit_of h = Some (r, sha) <-> number_field h.2 REPOSITORY_ID = Some r ∧ text_field h.2 COMMIT_SHA = Some sha.
Proof. unfold commit_of. destruct (number_field h.2 REPOSITORY_ID), (text_field h.2 COMMIT_SHA); cbn; naive_solver. Qed.
Lemma is_number_field d k n : is_number d k n = true <-> number_field d k = Some n.
Proof. unfold is_number, number_field. rewrite bool_decide_eq_true. destruct (field d k); naive_solver. Qed.
Lemma is_text_field d k t : is_text d k t = true <-> text_field d k = Some t.
Proof. unfold is_text, text_field. rewrite bool_decide_eq_true. destruct (field d k); naive_solver. Qed.
Definition answered (ls : list TargetLookup) (answers : list (Shape * list Hit)) : Prop :=
  Forall2 (fun q a => a.1 = q.1 ∧ searched s q.2 a.2) (target_searches ls) answers.
Lemma found_targets ls m : findReferenceTargets ls s = Ok m -> ∃ answers, answered ls answers ∧ m = collect ls answers.
Proof.
  unfold findReferenceTargets. destruct (target_searches ls) as [|q0 qs0] eqn:Eq.
  - intros [= <-]. exists []. split; [unfold answered; rewrite Eq; constructor|]. unfold target_searches in Eq. apply app_nil in Eq as [E1 Eq].
    apply app_nil in Eq as [E2 _]. unfold collect. cbn [foldl]. by destruct (pull_requests ls), (commits ls).
  - set (qs := q0 :: qs0) in *. destruct (es_msearch (map snd qs) s) as [rs|] eqn:Em; [|done].
    apply (law_msearch (LinkLaws := Hlaws)) in Em. destruct (all_hits rs) as [hits|] eqn:Eh; [|done]. intros [= <-].
    exists (zip (map fst qs) hits). split; [|done]. unfold answered. rewrite Eq. clearbody qs. clear Eq q0 qs0.
    revert rs hits Em Eh. induction qs as [|q qs IH]; intros rs hits Em Eh; cbn [map] in *.
    + inversion Em; subst. injection Eh as <-. constructor.
    + inversion Em as [|? r ? rs' Hq Hrest]; subst. cbn [all_hits] in Eh. destruct r as [h|]; [|done].
      destruct (all_hits rs') as [hs|] eqn:E; [|done]. injection Eh as <-. cbn [zip]. constructor; [done|]. by eapply IH.
Qed.
Lemma search_in ls sh q : (sh, q) ∈ target_searches ls <->
  match sh with
  | shape_pull_request => pull_requests ls <> [] ∧ q = mkSearch PR_ALIAS (fun d => existsb (fun l => asks_pull_request l d) (pull_requests ls)) (length (pull_requests ls))
  | shape_commit => commits ls <> [] ∧ q = mkSearch COMMIT_ALIAS (fun d => existsb (fun l => asks_commit l d) (commits ls)) (length (commits ls))
  | shape_prefix k => ∃ r p, (k, r, p) ∈ prefixes ls ∧ q = mkSearch COMMIT_ALIAS (asks_prefix r p) 2
  end.
Proof.
  unfold target_searches. rewrite !elem_of_app, list_elem_of_fmap.
  assert (forall (l : list TargetLookup) (f : list TargetLookup -> Shape * Search),
    (sh, q) ∈ match l with [] => [] | _ :: _ => [f l] end <-> l <> [] ∧ (sh, q) = f l) as Hm.
  { intros [|? ?] f; [rewrite elem_of_nil; naive_solver|rewrite list_elem_of_singleton; naive_solver]. }
  pose proof (Hm (pull_requests ls) (fun l => (shape_pull_request, mkSearch PR_ALIAS (fun d => existsb (fun l => asks_pull_request l d) l) (length l)))) as E1.
  pose proof (Hm (commits ls) (fun l => (shape_commit, mkSearch COMMIT_ALIAS (fun d => existsb (fun l => asks_commit l d) l) (length l)))) as E2.
  cbv beta in E1, E2. assert (forall A B C A' B' C' : Prop, A <-> A' -> B <-> B' -> C <-> C' -> A \/ B \/ C <-> A' \/ B' \/ C') as Hor by tauto.
  etransitivity; [apply Hor; [etransitivity; [|exact E1]; by destruct (pull_requests ls)|etransitivity; [|exact E2]; by destruct (commits ls)|reflexivity]|].
  clear E1 E2 Hm Hor.
  destruct sh as [| |k]; split.
  - intros [[? [= ->]]|[[_ [=]]|([[k r] p] & [=] & _)]]. done.
  - intros [? ->]. by left.
  - intros [[_ [=]]|[[? [= ->]]|([[k r] p] & [=] & _)]]. done.
  - intros [? ->]. right. by left.
  - intros [[_ [=]]|[[_ [=]]|([[k' r] p] & [= -> ->] & Hin)]]. by exists r, p.
  - intros (r & p & Hin & ->). right. right. by exists (k, r, p).
Qed.
Lemma kind_in ls l : (l ∈ pull_requests ls <-> l ∈ ls ∧ ∃ k r n, l = tl_pull_request k r n) ∧
  (l ∈ commits ls <-> l ∈ ls ∧ ∃ k r sha, l = tl_commit k r sha) ∧
  forall k r p, (k, r, p) ∈ prefixes ls <-> tl_commit_prefix k r p ∈ ls.
Proof.
  unfold pull_requests, commits, prefixes. rewrite !list_elem_of_In, !filter_In, <- !list_elem_of_In. split_and!.
  - destruct l; naive_solver.
  - destruct l; naive_solver.
  - intros k r p. rewrite list_elem_of_omap. split; [intros ([] & Hin & E); naive_solver|intros Hin; by eexists].
Qed.
Lemma answered_by ls answers a : answered ls answers -> a ∈ answers -> ∃ q, (a.1, q) ∈ target_searches ls ∧ searched s q a.2.
Proof.
  intros Hf (j & Hj)%list_elem_of_lookup. destruct (Forall2_lookup_r _ _ _ _ _ Hf Hj) as ([sh q] & Hq & E & Hs). cbn [fst snd] in *.
  exists q. rewrite E. split; [by eapply list_elem_of_lookup_2|done].
Qed.
Lemma answer_to ls answers sh q : answered ls answers -> (sh, q) ∈ target_searches ls -> ∃ hits, (sh, hits) ∈ answers ∧ searched s q hits.
Proof.
  intros Hf (j & Hj)%list_elem_of_lookup. destruct (Forall2_lookup_l _ _ _ _ _ Hf Hj) as ([sh' hits] & Ha & E & Hs). cbn [fst snd] in *.
  exists hits. rewrite <- E. split; [by eapply list_elem_of_lookup_2|done].
Qed.
(** The hits of the search for the pull requests, or for the commits, are the documents asked for. *)
Lemma hits_matching ls answers sh q (keys : list DocKey) h :
  answered ls answers -> sh = shape_pull_request \/ sh = shape_commit -> (sh, q) ∈ target_searches ls ->
  q_size q = length keys -> (forall h, matches s q h -> h.1 ∈ keys) -> h ∈ flat_map (hits_of sh) answers <-> matches s q h.
Proof.
  intros Ha Hsh Hq Hlen Hk. rewrite list_elem_of_In, in_flat_map. setoid_rewrite <- list_elem_of_In. split.
  - intros ([sh' hits] & Hin & Hh). assert (sh' = sh ∧ h ∈ hits) as [-> Hh'].
    { destruct Hsh as [->| ->], sh'; cbn in Hh; by try apply elem_of_nil in Hh. }
    destruct (answered_by _ _ _ Ha Hin) as (q' & Hq' & Hs). cbn [fst snd] in *. assert (q' = q) as ->; [|by apply (sr_sound _ _ _ Hs)].
    apply search_in in Hq, Hq'. destruct Hsh as [->| ->]; by destruct Hq as [_ ->], Hq' as [_ ->].
  - intros Hm. destruct (answer_to _ _ _ _ Ha Hq) as (hits & Hin & Hs). exists (sh, hits). split; [done|].
    assert (h ∈ hits) as Hh by by eapply full_search. by destruct Hsh as [->| ->].
Qed.
Lemma exact_answers {K} `{Countable K} (key : Hit -> option K) (dk : K -> DocKey) q hits x :
  (forall h, h ∈ hits <-> matches s q h) -> (forall k d, found s (q_name q) !! k = Some d -> ∃ y, key (k, d) = Some y ∧ k = dk y) ->
  (forall k d, key (k, d) = Some x -> q_filter q d = true) ->
  foldl (put_id key) ∅ hits !! x = Some (dk x).2 <-> ∃ d, found s (q_name q) !! dk x = Some d ∧ key (dk x, d) = Some x.
Proof.
  intros Hh Hd Hq. rewrite (put_ids key (fun k => (dk k).2)).
  - rewrite lookup_empty. split.
    + intros [|(h & [Hf _]%Hh & E & _)]; [done|]. destruct (Hd h.1 h.2 Hf) as (y & E' & Hk). destruct h as [k d]. cbn [fst snd] in *.
      rewrite E in E'. injection E' as <-. subst k. by exists d.
    + intros (d & Hf & E). right. exists (dk x, d). split_and!; [|done..]. apply Hh. split; [done|]. by eapply Hq.
  - intros h k [Hf _]%Hh E. destruct (Hd h.1 h.2 Hf) as (y & E' & Hk). destruct h as [k' d]. cbn [fst snd] in *.
    rewrite E in E'. injection E' as <-. by subst.
  - intros ? ? ?. by rewrite lookup_empty in *.
Qed.
Definition pr_name (x : Z * Z) : DocKey := (js_of_Z x.1, pullRequestDocId x.1 x.2).
Definition commit_name (x : Z * jstr) : DocKey := (js_of_Z x.1, commitDocId x.1 x.2).
Lemma pr_answers ls answers k r n :
  answered ls answers -> tl_pull_request k r n ∈ ls ->
  byPr (foldl add_hits no_targets answers) !! (r, n) = Some (pullRequestDocId r n) <-> pr_found r n.
Proof.
  intros Ha Hl. destruct (add_hits_maps answers no_targets) as (-> & _ & _). cbn [no_targets byPr].
  assert (tl_pull_request k r n ∈ pull_requests ls) as Hpl by (apply (proj1 (kind_in ls _)); split; [done|by eauto]).
  set (q := mkSearch PR_ALIAS (fun d => existsb (fun l => asks_pull_request l d) (pull_requests ls)) (length (pull_requests ls))).
  rewrite (exact_answers pr_of pr_name q _ (r, n)).
  - split; [intros (d & Hf & _); by exists d|]. intros [d Hf]. exists d. split; [done|].
    destruct (Hprs _ _ Hf) as (r' & n' & Hd). destruct (pr_unique _ _ _ _ r n Hd eq_refl) as [-> ->]. by destruct Hd.
  - intros h. apply (hits_matching ls answers _ q (map (fun l => match l with tl_pull_request _ r n => pr_name (r, n) | _ => ([], []) end) (pull_requests ls)));
      [done|by left|apply search_in; split; [|done]; by destruct (pull_requests ls); [apply elem_of_nil in Hpl|]|by rewrite length_map|].
    intros h' [Hf Hq]. cbn [q q_filter q_name] in *. apply existsb_elem in Hq as (l & Hl' & Hq).
    apply list_elem_of_fmap. exists l. split; [|done]. destruct l as [k' r' n'| |]; [|done..]. cbn [asks_pull_request] in Hq.
    apply andb_prop in Hq as [E1%is_number_field E2%is_number_field]. destruct (Hprs h'.1 h'.2 Hf) as (r2 & n2 & Hk & Hp).
    apply pr_of_number in Hp as [E3 E4]. cbn [fst snd] in *. rewrite E1 in E3. rewrite E2 in E4. injection E3 as ->. injection E4 as ->. done.
  - intros k' d Hf. destruct (Hprs k' d Hf) as (r' & n' & Hk & Hp). exists (r', n'). by split.
  - intros k' d [E1 E2]%pr_of_number. cbn [q q_filter snd] in *. apply existsb_elem. exists (tl_pull_request k r n). split; [done|].
    cbn [asks_pull_request]. apply andb_true_intro. by rewrite !is_number_field.
Qed.
Lemma commit_answers ls answers k r sha :
  answered ls answers -> tl_commit k r sha ∈ ls ->
  byCommit (foldl add_hits no_targets answers) !! (r, sha) = Some (commitDocId r sha) <-> commit_found r sha.
Proof.
  intros Ha Hl. destruct (add_hits_maps answers no_targets) as (_ & -> & _). cbn [no_targets byCommit].
  assert (tl_commit k r sha ∈ commits ls) as Hpl by (apply (proj1 (proj2 (kind_in ls _))); split; [done|by eauto]).
  set (q := mkSearch COMMIT_ALIAS (fun d => existsb (fun l => asks_commit l d) (commits ls)) (length (commits ls))).
  rewrite (exact_answers commit_of commit_name q _ (r, sha)).
  - split; [intros (d & Hf & [_ E]%commit_of_sha); by exists d|]. intros (d & Hf & E). exists d. split; [done|]. apply commit_of_sha. split; [|done].
    destruct (Hcommits _ _ Hf) as (r' & sha' & [= E1 _] & E2). apply js_of_Z_injective in E1 as ->. by apply commit_of_sha in E2 as [? _].
  - intros h. apply (hits_matching ls answers _ q (map (fun l => match l with tl_commit _ r sha => commit_name (r, sha) | _ => ([], []) end) (commits ls)));
      [done|by right|apply search_in; split; [|done]; by destruct (commits ls); [apply elem_of_nil in Hpl|]|by rewrite length_map|].
    intros h' [Hf Hq]. cbn [q q_filter q_name] in *. apply existsb_elem in Hq as (l & Hl' & Hq).
    apply list_elem_of_fmap. exists l. split; [|done]. destruct l as [|k' r' sha'|]; [done| |done]. cbn [asks_commit] in Hq.
    apply andb_prop in Hq as [E1%is_number_field E2%is_text_field]. destruct (Hcommits h'.1 h'.2 Hf) as (r2 & sha2 & Hk & Hp).
    apply commit_of_sha in Hp as [E3 E4]. cbn [fst snd] in *. rewrite E1 in E3. rewrite E2 in E4. injection E3 as ->. injection E4 as ->. done.
  - intros k' d Hf. destruct (Hcommits k' d Hf) as (r' & sha' & Hk & Hp). exists (r', sha'). by split.
  - intros k' d [E1 E2]%commit_of_sha. cbn [q q_filter snd] in *. apply existsb_elem. exists (tl_commit k r sha). split; [done|].
    cbn [asks_commit]. apply andb_true_intro. by rewrite is_number_field, is_text_field.
Qed.
Lemma asks_prefix_spec r p d : asks_prefix r p d = true <-> number_field d REPOSITORY_ID = Some r ∧ ∃ sha, text_field d COMMIT_SHA = Some sha ∧ starts_with p sha = true.
Proof. unfold asks_prefix, text_field. rewrite andb_true_iff, is_number_field. destruct (field d COMMIT_SHA); naive_solver. Qed.
(** The commits that a search for a prefix matches are the commits of the repository with it. *)
Lemma prefix_matches r p h : matches s (mkSearch COMMIT_ALIAS (asks_prefix r p) 2) h ->
  ∃ sha, commit_found r sha ∧ starts_with p sha = true ∧ h.1 = commit_name (r, sha) ∧ number_field h.2 REPOSITORY_ID = Some r.
Proof.
  intros [Hf Hq]. cbn [q_filter q_name] in *. apply asks_prefix_spec in Hq as (E1 & sha & E2 & Hp).
  destruct (Hcommits h.1 h.2 Hf) as (r' & sha' & Hk & E). apply commit_of_sha in E as [E3 E4]. cbn [fst snd] in *.
  rewrite E1 in E3. rewrite E2 in E4. injection E3 as <-. injection E4 as <-. exists sha. split_and!; try done. exists h.2. by rewrite <- Hk.
Qed.
Lemma found_prefix r p sha : commit_found r sha -> starts_with p sha = true ->
  ∃ d, matches s (mkSearch COMMIT_ALIAS (asks_prefix r p) 2) (commit_name (r, sha), d).
Proof.
  intros (d & Hf & E) Hp. exists d. split; [done|]. cbn [q_filter snd]. apply asks_prefix_spec. split; [|by exists sha].
  destruct (Hcommits _ _ Hf) as (r' & sha' & [= E1 ?] & E2). apply js_of_Z_injective in E1 as ->. by apply commit_of_sha in E2 as [? _].
Qed.
Lemma prefix_answers ls answers k r p x :
  answered ls answers -> NoDup (map lookup_key ls) -> tl_commit_prefix k r p ∈ ls ->
  (k, x) ∈ omap one_hit answers <-> answer (tl_commit_prefix k r p) x.
Proof.
  intros Ha Hn Hl. assert (forall q, (shape_prefix k, q) ∈ target_searches ls -> q = mkSearch COMMIT_ALIAS (asks_prefix r p) 2) as Hq.
  { intros q (r' & p' & Hin & ->)%search_in. apply (proj2 (proj2 (kind_in ls (tl_commit_prefix k r p)))) in Hin.
    apply list_elem_of_lookup in Hl as (i & Hi). apply list_elem_of_lookup in Hin as (j & Hj).
    assert (i = j) as <-; [|congruence]. eapply (NoDup_lookup _ _ _ k Hn); by rewrite list_lookup_fmap, ?Hi, ?Hj. }
  rewrite list_elem_of_omap. split.
  - intros ([sh hits] & Hin & E). destruct sh as [| |k']; [done..|]. destruct hits as [|h [|? ?]]; [done| |done]. cbn [one_hit] in E.
    destruct (number_field h.2 REPOSITORY_ID) as [r0|] eqn:Er; [|done]. injection E as -> <-.
    destruct (answered_by _ _ _ Ha Hin) as (q & Hqin & Hs). cbn [fst snd] in *. apply Hq in Hqin as ->.
    destruct (prefix_matches r p h) as (sha & Hf & Hp & Hk & Er'); [by apply (sr_sound _ _ _ Hs); left|]. rewrite Er in Er'. injection Er' as ->.
    cbn [answer]. exists sha. rewrite Hk. split_and!; try done. intros sha' Hf' Hp'. destruct (found_prefix r p sha' Hf' Hp') as (d' & Hm).
    destruct (sr_all _ _ _ Hs _ Hm) as [Hin'|Hlen]; [|done]. apply list_elem_of_singleton in Hin'. rewrite <- Hin' in Hk. by injection Hk.
  - intros (sha & Hf & Hp & -> & Hu). destruct (answer_to ls answers (shape_prefix k) (mkSearch COMMIT_ALIAS (asks_prefix r p) 2) Ha) as (hits & Hin & Hs).
    { apply search_in. exists r, p. split; [|done]. by apply (proj2 (proj2 (kind_in ls (tl_commit_prefix k r p)))). }
    exists (shape_prefix k, hits). split; [done|]. destruct (found_prefix r p sha Hf Hp) as (d & Hm).
    assert (forall h, h ∈ hits -> h.1 = commit_name (r, sha) ∧ number_field h.2 REPOSITORY_ID = Some r) as Hall.
    { intros h Hh. destruct (prefix_matches r p h) as (sha' & Hf' & Hp' & Hk & Er); [by apply (sr_sound _ _ _ Hs)|]. split; [|done].
      rewrite Hk. unfold commit_name. cbn [fst snd]. by rewrite (Hu sha' Hf' Hp'). }
    pose proof (sr_nodup _ _ _ Hs) as Hnd. destruct hits as [|h1 [|h2 hits]].
    + destruct (sr_all _ _ _ Hs _ Hm) as [?%elem_of_nil|]; done.
    + destruct (Hall h1) as [Hk Er]; [by left|]. cbn [one_hit]. rewrite Er. cbn. by rewrite Hk.
    + exfalso. destruct (Hall h1) as [E1 _]; [by left|]. destruct (Hall h2) as [E2 _]; [by right; left|].
      rewrite !fmap_cons, E1, E2 in Hnd. apply NoDup_cons in Hnd as [Hni _]. apply Hni. by left.
Qed.
Lemma hit_ids ls answers sh h : answered ls answers -> h ∈ flat_map (hits_of sh) answers ->
  match sh with
  | shape_pull_request => found s PR_ALIAS !! h.1 = Some h.2
  | shape_commit => found s COMMIT_ALIAS !! h.1 = Some h.2
  | shape_prefix _ => False
  end.
Proof.
  intros Ha ([sh' hits] & Hin & Hh)%list_elem_of_In%in_flat_map. apply list_elem_of_In in Hin. apply list_elem_of_In in Hh.
  assert (sh' = sh ∧ (sh = shape_pull_request \/ sh = shape_commit) ∧ h ∈ hits) as (-> & Hsh & Hh').
  { destruct sh, sh'; cbn in Hh; try (by apply elem_of_nil in Hh); split_and!; try done; first [by left|by right]. }
  destruct (answered_by _ _ _ Ha Hin) as (q & Hq & Hs). cbn [fst snd] in *. pose proof (sr_sound _ _ _ Hs h Hh') as [Hf _].
  apply search_in in Hq. destruct Hsh as [->| ->]; by destruct Hq as [_ ->].
Qed.
Lemma pr_answer_id ls answers r n id :
  answered ls answers -> byPr (foldl add_hits no_targets answers) !! (r, n) = Some id -> id = pullRequestDocId r n.
Proof.
  intros Ha. destruct (add_hits_maps answers no_targets) as (-> & _ & _). cbn [no_targets byPr].
  assert (forall h k, h ∈ flat_map (hits_of shape_pull_request) answers -> pr_of h = Some k -> h.1.2 = (pr_name k).2) as Hid.
  { intros [hk hd] k Hh E. apply (hit_ids ls answers shape_pull_request) in Hh; [|done]. destruct (Hprs hk hd Hh) as (r' & n' & Hk & E').
    rewrite E in E'. injection E' as ->. cbn [fst] in *. by rewrite Hk. }
  rewrite (put_ids pr_of (fun k => (pr_name k).2) _ ∅ Hid) by (intros ? ? ?; by rewrite lookup_empty in *).
  rewrite lookup_empty. intros [|(? & _ & _ & ->)]; done.
Qed.
Lemma commit_answer_id ls answers r sha id :
  answered ls answers -> byCommit (foldl add_hits no_targets answers) !! (r, sha) = Some id -> id = commitDocId r sha.
Proof.
  intros Ha. destruct (add_hits_maps answers no_targets) as (_ & -> & _). cbn [no_targets byCommit].
  assert (forall h k, h ∈ flat_map (hits_of shape_commit) answers -> commit_of h = Some k -> h.1.2 = (commit_name k).2) as Hid.
  { intros [hk hd] k Hh E. apply (hit_ids ls answers shape_commit) in Hh; [|done]. destruct (Hcommits hk hd Hh) as (r' & sha' & Hk & E').
    rewrite E in E'. injection E' as ->. cbn [fst] in *. by rewrite Hk. }
  rewrite (put_ids commit_of (fun k => (commit_name k).2) _ ∅ Hid) by (intros ? ? ?; by rewrite lookup_empty in *).
  rewrite lookup_empty. intros [|(? & _ & _ & ->)]; done.
Qed.
(** What the map of answers is made of. *)
Definition answer_pairs (ls : list TargetLookup) (answers : list (Shape * list Hit)) : list (jstr * ReferenceResolution) :=
  omap one_hit answers ++ omap (exact (foldl add_hits no_targets answers)) (pull_requests ls ++ commits ls).
Lemma pairs_sound ls answers k y :
  answered ls answers -> NoDup (map lookup_key ls) -> (k, y) ∈ answer_pairs ls answers -> ∃ l, l ∈ ls ∧ lookup_key l = k ∧ answer l y.
Proof.
  intros Ha Hn [Hp|(l & Hin & E)%list_elem_of_omap]%elem_of_app.
  - assert (∃ r p, tl_commit_prefix k r p ∈ ls) as (r & p & Hin).
    { apply list_elem_of_omap in Hp as ([[| |k'] hits] & Hin & E); [done..|]. destruct hits as [|h [|? ?]]; [done| |done]. cbn [one_hit] in E.
      destruct (number_field h.2 REPOSITORY_ID); [|done]. injection E as -> _. destruct (answered_by _ _ _ Ha Hin) as (q & Hq & _).
      apply search_in in Hq as (r & p & Hq & _). exists r, p. by apply (proj2 (proj2 (kind_in ls (tl_commit_prefix k r p)))). }
    exists (tl_commit_prefix k r p). split_and!; [done..|]. by apply (prefix_answers ls answers k r p).
  - assert (l ∈ ls) as Hl by (apply elem_of_app in Hin as [Hin|Hin]; by apply (kind_in ls l) in Hin as [? _]). exists l.
    destruct l as [k' r n|k' r sha|]; cbn [exact] in E; [..|done].
    + destruct (byPr _ !! (r, n)) as [id|] eqn:Eb; [|done]. injection E as -> <-. assert (id = pullRequestDocId r n) as -> by by eapply pr_answer_id.
      split_and!; [done..|]. split; [|done]. by apply (pr_answers ls answers k r n).
    + destruct (byCommit _ !! (r, sha)) as [id|] eqn:Eb; [|done]. injection E as -> <-. assert (id = commitDocId r sha) as -> by by eapply commit_answer_id.
      split_and!; [done..|]. split; [|done]. by apply (commit_answers ls answers k r sha).
Qed.
Lemma pairs_complete ls answers l y :
  answered ls answers -> NoDup (map lookup_key ls) -> l ∈ ls -> answer l y -> (lookup_key l, y) ∈ answer_pairs ls answers.
Proof.
  intros Ha Hn Hl Hy. unfold answer_pairs. rewrite elem_of_app, (list_elem_of_omap (exact _)). destruct l as [k r n|k r sha|k r p]; cbn [lookup_key].
  - destruct Hy as [Hf ->]. right. exists (tl_pull_request k r n). cbn [exact]. split; [apply elem_of_app; left; apply (proj1 (kind_in ls _)); by eauto|].
    apply (pr_answers ls answers k r n Ha Hl) in Hf. by rewrite Hf.
  - destruct Hy as [Hf ->]. right. exists (tl_commit k r sha). cbn [exact].
    split; [apply elem_of_app; right; apply (proj1 (proj2 (kind_in ls _))); by eauto|].
    apply (commit_answers ls answers k r sha Ha Hl) in Hf. by rewrite Hf.
  - left. by apply (prefix_answers ls answers k r p).
Qed.
(** Each lookup is answered with its document, or with the only commit that has its prefix, as a
    search finds them, and there are no other answers. *)
Lemma targets_spec ls m k x :
  NoDup (map lookup_key ls) -> findReferenceTargets ls s = Ok m -> m !! k = Some x <-> ∃ l, l ∈ ls ∧ lookup_key l = k ∧ answer l x.
Proof.
  intros Hn Hm. destruct (found_targets ls m Hm) as (answers & Ha & ->). rewrite collect_inserts. cbv zeta. fold (answer_pairs ls answers).
  rewrite inserts_elem; [split; [by apply pairs_sound|intros (l & Hl & <- & Hx); by apply pairs_complete]|].
  intros y z (l & Hl & El & Hy)%pairs_sound (l' & Hl' & El' & Hz)%pairs_sound; [|done..].
  assert (l' = l) as ->; [|by eapply answer_functional].
  apply list_elem_of_lookup in Hl as (i & Hi). apply list_elem_of_lookup in Hl' as (j & Hj).
  assert (i = j) as <-; [|congruence]. eapply (NoDup_lookup _ _ _ k Hn); rewrite list_lookup_fmap, ?Hi, ?Hj; cbn; by rewrite ?El, ?El'.
Qed.
End targets.

(** ** A server *)

(** The server of EsDocument, with what a search finds in each index; here it is refreshed only
    when somebody asks for it. *)
Record ModelLinks : Type := mkModelLinks { ml_docs : ModelIndex; ml_seen : gmap jstr (gmap DocKey Source) }.
Definition set_docs (m : ModelLinks) (d : ModelIndex) : ModelLinks := mkModelLinks d (ml_seen m).
Definition model_seen (m : ModelLinks) (i : jstr) : gmap DocKey Source := default ∅ (ml_seen m !! i).
Definition docs_of (m : ModelIndex) (i : jstr) : gmap DocKey Source := default ∅ (map_curry (M1 := gmap jstr) (M2 := gmap DocKey) (mi_docs m) !! i).
Definition model_refresh (name : jstr) (m : ModelLinks) : ModelLinks :=
  let i := model_name (ml_docs m) name in mkModelLinks (ml_docs m) (<[i := docs_of (ml_docs m) i]> (ml_seen m)).
Definition doomed (m : ModelLinks) (i rt : jstr) (f : Source -> bool) (keep : list jstr) (p : (jstr * DocKey) * Source) : bool :=
  jeqb p.1.1 i && jeqb p.1.2.1 rt && f p.2 && negb (mem p.1.2.2 keep) && bool_decide (model_seen m i !! p.1.2 = Some p.2).
Definition model_delete (name rt : jstr) (f : Source -> bool) (keep : list jstr) (m : ModelLinks) : ModelLinks * result EsError Z :=
  let i := model_name (ml_docs m) name in
  let docs := mi_docs (ml_docs m) in
  let left := filter (fun p => doomed m i rt f keep p = false) docs in
  (set_docs m (mkModelIndex (mi_alias (ml_docs m)) left), Ok (Z.of_nat (size docs) - Z.of_nat (size left))).
Definition model_matching (m : ModelLinks) (name : jstr) (f : Source -> bool) : list Hit :=
  List.filter (fun h : Hit => f h.2) (map_to_list (model_seen m (model_name (ml_docs m) name))).
Definition model_search (m : ModelLinks) (q : Search) : list Hit := take (q_size q) (model_matching m (q_name q) (q_filter q)).
Definition by_id (a b : Hit) : Prop := text_le (sort_id a.2) (sort_id b.2).
#[export] Instance by_id_dec : RelDecision by_id.
Proof. intros a b. unfold by_id. apply _. Defined.
#[export] Instance by_id_trans : Transitive by_id.
Proof. intros a b c. unfold by_id. by transitivity (sort_id b.2). Qed.
#[export] Instance by_id_total : Total by_id.
Proof. intros a b. unfold by_id. apply text_le_total. Qed.
Definition text_lt (a b : jstr) : bool := match text_compare a b with Lt => true | _ => false end.
Definition model_page (name : jstr) (f : Source -> bool) (after : option jstr) (size : nat) (m : ModelLinks) : list Hit :=
  take size (merge_sort by_id
    (List.filter (fun h : Hit => match after with Some a => text_lt a (sort_id h.2) | None => true end) (model_matching m name f))).
#[export] Instance model_links_docs : DocServer ModelLinks := {
  es_index := fun m => model_name (ml_docs m);
  es_doc := fun m i k => mi_docs (ml_docs m) !! (i, k);
  es_update := fun c m => let '(d, r) := model_update c (ml_docs m) in (set_docs m d, r);
  es_bulk := fun cs m => let '(d, rs) := model_bulk cs (ml_docs m) in (set_docs m d, Ok rs);
  es_get := fun n k m => Ok (mi_docs (ml_docs m) !! (model_name (ml_docs m) n, k))
}.
#[export] Instance model_links : LinkServer ModelLinks := {
  seen := model_seen;
  refreshed := fun m i => forall k, model_seen m i !! k = mi_docs (ml_docs m) !! (i, k);
  es_refresh := fun n m => (model_refresh n m, Ok tt);
  es_delete := model_delete;
  es_msearch := fun qs m => Ok (map (fun q => Ok (model_search m q)) qs);
  es_page := fun n f after size m => Ok (model_page n f after size m);
  es_exists := fun n k m => Ok (bool_decide (is_Some (mi_docs (ml_docs m) !! (model_name (ml_docs m) n, k))));
  sort_lt := text_lt
}.
Lemma docs_of_lookup m i k : docs_of m i !! k = mi_docs m !! (i, k).
Proof. unfold docs_of. rewrite <- (lookup_map_curry (mi_docs m) i k). by destruct (map_curry _ !! i) as [d|]; [|cbn; rewrite lookup_empty]. Qed.
Lemma model_same_seen (m : ModelLinks) d : forall i, model_seen (set_docs m d) i = model_seen m i.
Proof. done. Qed.
Lemma model_links_updates c (m : ModelLinks) : updates c m (es_update c m).1 (es_update c m).2.
Proof.
  pose proof (model_updates c (ml_docs m)) as [H1 H2 H3]. cbn [es_update model_links_docs es_index es_doc model_index] in *.
  destruct (model_update c (ml_docs m)) as [d r]. cbn [fst snd] in *. by split.
Qed.
Lemma model_matching_elem m name f h : h ∈ model_matching m name f <-> model_seen m (model_name (ml_docs m) name) !! h.1 = Some h.2 ∧ f h.2 = true.
Proof.
  unfold model_matching. rewrite list_elem_of_In, filter_In, <- list_elem_of_In. destruct h as [k d].
  by rewrite elem_of_map_to_list.
Qed.
Lemma text_lt_not a b : text_lt b a = false <-> text_le a b.
Proof. unfold text_lt, text_le. rewrite (text_compare_antisym a b). destruct (text_compare a b); cbn; naive_solver. Qed.
Lemma model_page_spec (m : ModelLinks) name f after size : paged m name f after size (model_page name f after size m).
Proof.
  set (l := List.filter (fun h : Hit => match after with Some a => text_lt a (sort_id h.2) | None => true end) (model_matching m name f)).
  assert (forall h, h ∈ l <-> found m name !! h.1 = Some h.2 ∧ f h.2 = true ∧ beyond after (sort_id h.2)) as Hl.
  { intros h. unfold l. rewrite list_elem_of_In, filter_In, <- list_elem_of_In, model_matching_elem. unfold beyond, found. cbn [seen model_links sort_lt].
    destruct after; tauto. }
  assert (forall h, h ∈ model_page name f after size m -> h ∈ l) as Hin.
  { intros h Hh. unfold model_page in Hh. fold l in Hh. rewrite <- (merge_sort_Permutation by_id l), <- (take_drop size (merge_sort by_id l)).
    apply elem_of_app. by left. }
  split.
  - intros h Hh%Hin. by apply Hl.
  - unfold model_page. fold l. pose proof (StronglySorted_merge_sort by_id l) as Hs.
    rewrite <- (take_drop size (merge_sort by_id l)) in Hs. apply StronglySorted_app_1_l in Hs.
    eapply sorted_weaken; [|exact Hs]. intros a b. apply text_lt_not.
  - unfold model_page. rewrite length_take. lia.
  - intros k d Hk Hf Hb. destruct (decide ((k, d) ∈ model_page name f after size m)) as [|Hn]; [by left|right]. split.
    + unfold model_page in *. fold l in Hn |- *. rewrite length_take. destruct (Nat.le_gt_cases size (length (merge_sort by_id l))); [lia|].
      exfalso. apply Hn. rewrite take_ge by lia. rewrite merge_sort_Permutation. by apply Hl.
    + intros h Hh. apply text_lt_not. change (by_id h (k, d)). eapply (sorted_take_le by_id); [exact Hh| |exact Hn]. by apply Hl.
Qed.
Lemma model_search_spec (m : ModelLinks) q : searched m q (model_search m q).
Proof.
  unfold model_search. set (l := model_matching m (q_name q) (q_filter q)).
  assert (NoDup (l.*1)) as Hn.
  { unfold l, model_matching. pose proof (NoDup_fst_map_to_list (model_seen m (model_name (ml_docs m) (q_name q)))) as Hm.
    induction (map_to_list _) as [|h hs IH]; [constructor|]. cbn [List.filter]. rewrite fmap_cons in Hm. apply NoDup_cons in Hm as [Hh Hm].
    destruct (q_filter q h.2); [|by apply IH]. rewrite fmap_cons. apply NoDup_cons. split; [|by apply IH].
    intros (h' & E & Hin)%list_elem_of_fmap. apply Hh. rewrite E. apply list_elem_of_fmap_2.
    by apply list_elem_of_In, filter_In in Hin as [?%list_elem_of_In _]. }
  assert (forall h, h ∈ l <-> matches m q h) as Hl by (intros h; apply model_matching_elem).
  rewrite <- (take_drop (q_size q) l) in Hn, Hl. rewrite fmap_app in Hn. apply list.NoDup_app in Hn as (Hn & _ & _). split.
  - done.
  - intros h Hh. apply Hl, elem_of_app. by left.
  - rewrite length_take. lia.
  - intros h [Hh|Hh]%Hl%elem_of_app; [by left|right]. rewrite length_take.
    destruct (Nat.le_gt_cases (q_size q) (length l)); [lia|]. rewrite drop_ge in Hh by lia. by apply elem_of_nil in Hh.
Qed.
Lemma model_links_laws : LinkLaws ModelLinks.
Proof.
  split.
  - split; [exact model_links_updates| |by intros n k m o [= <-]].
    intros cs m. cbn [es_bulk model_links_docs]. assert (∀ d, updates_all (S := ModelLinks) cs (set_docs m d) (set_docs m (model_bulk cs d).1) (model_bulk cs d).2) as Ha.
    { induction cs as [|c cs IH]; intros d; cbn [model_bulk]; [constructor|].
      pose proof (model_links_updates c (set_docs m d)) as Hu. cbn [es_update model_links_docs set_docs ml_docs] in Hu.
      destruct (model_update c d) as [d1 r]. specialize (IH d1). destruct (model_bulk cs d1) as [d2 rs]. cbn [fst snd] in *. by econstructor. }
    specialize (Ha (ml_docs m)). destruct (model_bulk cs (ml_docs m)) as [d rs]. exists rs. split; [by destruct m|]. exists (length rs). by rewrite firstn_all.
  - intros c s i k. cbn [es_update model_links_docs]. destruct (model_update c (ml_docs s)) as [d r]. by left.
  - intros cs m. cbn [es_bulk model_links_docs]. assert (∀ d, items_done (S := ModelLinks) cs (set_docs m d) (set_docs m (model_bulk cs d).1) (model_bulk cs d).2) as Ha.
    { induction cs as [|c cs IH]; intros d; cbn [model_bulk]; [constructor|].
      pose proof (model_links_updates c (set_docs m d)) as Hu. cbn [es_update model_links_docs set_docs ml_docs] in Hu.
      destruct (model_update c d) as [d1 r]. specialize (IH d1). destruct (model_bulk cs d1) as [d2 rs]. cbn [fst snd] in *.
      econstructor; [exact Hu|by left|exact IH]. }
    specialize (Ha (ml_docs m)). destruct (model_bulk cs (ml_docs m)) as [d rs]. exists rs. split; [by destruct m|]. exists (length rs). by rewrite firstn_all.
  - done.
  - intros n s. cbn [es_refresh model_links]. split_and!; [done|done| |].
    + intros i k. cbn [seen model_links model_refresh]. unfold model_seen, model_refresh. cbn [ml_seen].
      destruct (decide (i = model_name (ml_docs s) n)) as [->|Hne]; [rewrite lookup_insert_eq; right; left; apply docs_of_lookup|left; by rewrite lookup_insert_ne].
    + intros _ k. cbn [seen model_links model_refresh]. unfold model_seen, model_refresh. cbn [ml_seen ml_docs es_index model_links_docs]. rewrite lookup_insert_eq. apply docs_of_lookup.
  - intros n rt f keep s. cbn [es_delete model_links model_delete]. split; [|by left]. set (i := model_name (ml_docs s) n).
    assert (forall p, mi_docs (mkModelIndex (mi_alias (ml_docs s)) (filter (fun p => doomed s i rt f keep p = false) (mi_docs (ml_docs s)))) !! p =
      match mi_docs (ml_docs s) !! p with Some d => if doomed s i rt f keep (p, d) then None else Some d | None => None end) as Hd.
    { intros p. cbn [mi_docs]. destruct (mi_docs (ml_docs s) !! p) as [d|] eqn:E; [destruct (doomed s i rt f keep (p, d)) eqn:Ed|].
      - apply map_lookup_filter_None. right. intros d' E' Hf. congruence.
      - apply map_lookup_filter_Some. done.
      - apply map_lookup_filter_None. by left. }
    split; [done|..].
    + intros j k Hj. cbn [es_doc model_links_docs set_docs ml_docs]. rewrite Hd. destruct (mi_docs (ml_docs s) !! (j, k)) as [d|]; [|done].
      unfold doomed. cbn [fst snd]. by rewrite (proj2 (jeqb_neq j i)).
    + intros k. unfold live, doc_named. cbn [es_doc es_index model_links_docs set_docs ml_docs]. fold i.
      change (model_name _ n) with i. rewrite Hd. destruct (mi_docs (ml_docs s) !! (i, k)) as [d|] eqn:E; [|by left].
      destruct (doomed s i rt f keep (i, k, d)) eqn:Ed; [right|by left]. unfold doomed in Ed. cbn [fst snd] in Ed.
      rewrite !andb_true_iff, negb_true_iff, bool_decide_eq_true, mem_false in Ed. destruct Ed as ((((_ & _) & Hf) & Hk) & Hs). split_and!; [done|done|by exists d].
    + intros id d _ Hr. unfold live, doc_named. cbn [es_doc es_index model_links_docs set_docs ml_docs]. fold i. change (model_name _ n) with i.
      intros Hl Hf Hk. rewrite Hd, Hl. unfold doomed. cbn [fst snd refreshed model_links] in *. change (forall k, model_seen s i !! k = mi_docs (ml_docs s) !! (i, k)) in Hr. rewrite (Hr (rt, id)). rewrite Hl.
      rewrite !(proj2 (jeqb_eq _ _)) by done. rewrite Hf. apply mem_false in Hk. rewrite Hk. by rewrite bool_decide_eq_true_2.
  - intros qs s rs [= <-]. induction qs as [|q qs IH]; cbn [map]; constructor; [apply model_search_spec|done].
  - intros n f after size s hits _ [= <-]. apply model_page_spec.
  - by intros n k s b [= <-].
  - intros a. cbn [sort_lt model_links]. unfold text_lt. by rewrite (proj2 (text_compare_eq a a)).
  - intros a b c. cbn [sort_lt model_links]. unfold text_lt. destruct (text_compare a b) eqn:E1, (text_compare b c) eqn:E2; try done. by rewrite (text_compare_trans a b c).
  - intros a b. cbn [sort_lt model_links]. unfold text_lt. rewrite (text_compare_antisym a b). destruct (text_compare a b) eqn:E; cbn; [|by left|by right; right].
    right. left. by apply text_compare_eq.
Qed.

(** A new link is written and one that only the serving index has is resolved, while an index
    [prs-links-2] is being built. *)
Definition sample_link : ReferenceLinkDoc :=
  mkReferenceLink (js "a") (js "pr:2") (mkScope 7 1 (js "private") []) ep_pull_request (js "7:1") derived (js "#2") (js "2026-01-01T00:00:00.000Z") None.
Definition sample_ops : list LinkBulkOp :=
  [mkLinkOp (js "b") 7 None (body_index (referenceLinkSource sample_link));
   update_op (mkLinkUpdate (js "a") 7 (mkOwner ep_pull_request (js "7:1")) (Some (mkResolution ep_pull_request (js "7:2") 7)))].
Definition sample_links : ModelLinks :=
  mkModelLinks (mkModelIndex ∅ {[(LINKS_ALIAS, (js "7", js "a")) := referenceLinkSource sample_link]}) ∅.
Definition sample_targets : WriteTargets := mkTargets {[LINKS_ALIAS := js "prs-links-2"]}.
Lemma link_writes_accounted_witness :
  let r := sendLinkBulk sample_ops sample_targets sample_links in
  ∃ w fs ps, r = (r.1, Ok (w, (fs, ps))) ∧ fs = [] ∧ length ps = 1%nat ∧ written w + Z.of_nat (length (failures w)) = Z.of_nat (length sample_ops) ∧
  forall o, o ∈ sample_ops ->
    (carried sample_links r.1 LINKS_ALIAS o \/ ∃ f, f ∈ failures w ∧ lf_link_id f = linkId o) ∧
    forall i, shadowIndexOf sample_targets LINKS_ALIAS = Some i ->
      carried sample_links r.1 i o \/ (∃ f, f ∈ fs ∧ sf_alias f = LINKS_ALIAS ∧ sf_index f = i) \/
      (∃ k id, mkPending LINKS_ALIAS i (repositoryId o) (kind_of k) id (linkId o) ∈ ps ∧ ownerSourceOf o = Ok (k, id) ∧ live sample_links i (link_key o) = None).
Proof.
  cbv zeta. exists (mkLinkResult 2 []), [], [mkPending LINKS_ALIAS (js "prs-links-2") 7 lk_pull_request (js "1") (js "a")].
  assert (sendLinkBulk sample_ops sample_targets sample_links = ((sendLinkBulk sample_ops sample_targets sample_links).1,
    Ok (mkLinkResult 2 [], ([], [mkPending LINKS_ALIAS (js "prs-links-2") 7 lk_pull_request (js "1") (js "a")])))) as E by (vm_compute; reflexivity).
  split; [exact E|]. split; [done|]. split; [done|].
  apply (link_writes_accounted model_links_laws _ sample_targets); [|intros i [= <-]; vm_compute; discriminate|exact E].
  assert (bool_decide (NoDup (map link_key sample_ops)) = true) as Hb by (vm_compute; reflexivity). exact (bool_decide_eq_true_1 _ Hb).
Defined.
