(* ===== verification/ReferenceLinks.v ===== *)
(** * Reference links: from a text to the index

    [apps/pipeline-worker/src/link.ts]: the references that the text of a pull request or of a
    commit makes become links of the index, resolved when their target is indexed; when a document
    appears, the links that may refer to it are judged again; and all sources of a repository are
    derived again by a job.  The tables are gmaps, the index is the server of LinkIndex. *)

From stdpp Require Import base option strings numbers gmap sorting list.
From Stdlib Require Import ZArith Lia.
From S2P Require Import Prelude JsString SequenceSpace Json Partition InMemoryBus QueryBuilder EsSort SearchCursor EsDocument EsProjection Reindex Documents Reference LinkIndex.
Open Scope Z_scope.

(** ** Tables *)

(** The row of [commit_snapshot], with the text that [toISOString] gives for its time. *)
Record CommitSnapshotRow : Type := mkCommitSnapshot { cs_message : jstr; cs_committed_at : jstr }.
Record LinkTables : Type := mkLinkTables {
  pull_request_snapshot : Snapshots; commit_snapshot : gmap (Z * jstr) CommitSnapshotRow; registry : gmap Z RepositoryRow
}.
Definition findCommitSnapshot (repositoryId : Z) (commitSha : jstr) (db : LinkTables) : option CommitSnapshotRow :=
  commit_snapshot db !! (repositoryId, ascii_lower commitSha).
Definition findRepositoryById (repositoryId : Z) (db : LinkTables) : option RepositoryRow := registry db !! repositoryId.
(** [WHERE owner = $1 AND name = $2]. *)
Definition findRepositoryBySlug (o n : jstr) (db : LinkTables) : option RepositoryRow :=
  snd <$> List.find (fun p : Z * RepositoryRow => jeqb (Documents.owner p.2) o && jeqb (Documents.name p.2) n) (map_to_list (registry db)).

(** ** Sources *)

(** [LinkSource]; the number is what [Number] makes of the id of a pull request. *)
Inductive LinkSource : Set := pull_request_source (number : Z) | commit_source (sha : jstr).
#[export] Instance LinkSource_eq_dec : EqDecision LinkSource.
Proof. solve_decision. Defined.
Definition kind (x : LinkSource) : LinkEndpointKind := match x with pull_request_source _ => ep_pull_request | commit_source _ => ep_commit end.
Definition slugOf (r : RepositoryRow) : RepoSlug := mkSlug (ascii_lower (Documents.owner r)) (ascii_lower (Documents.name r)).
Definition docIdOf (repositoryId : Z) (x : LinkSource) : jstr :=
  match x with pull_request_source n => pullRequestDocId repositoryId n | commit_source sha => commitDocId repositoryId sha end.

Definition EPOCH : jstr := js "1970-01-01T00:00:00.000Z".
Definition canonicalTime (d : Source) : jstr :=
  match omap (fun k => match field d k with JStr [] => None | JStr t => Some t | _ => None end) [js "updated_at"; js "created_at"; js "indexed_at"] with
  | t :: _ => t
  | [] => EPOCH
  end.
Definition text_or_empty (d : Source) (k : jstr) : jstr := match field d k with JStr t => t | _ => [] end.
Record SourceText : Type := mkText { tx_text : jstr; tx_canonicalAt : jstr }.
Definition readSource (repositoryId : Z) (x : LinkSource) (db : LinkTables) : option SourceText :=
  match x with
  | pull_request_source n =>
    match listSnapshotsAfter repositoryId (n - 1) 1 (pull_request_snapshot db) with
    | (n', sn) :: _ =>
      if n' =? n
      then let d := sn_document sn in Some (mkText (text_or_empty d (js "title") ++ [10%N] ++ text_or_empty d (js "body")) (canonicalTime d))
      else None
    | [] => None
    end
  | commit_source sha => (fun row => mkText (cs_message row) (cs_committed_at row)) <$> findCommitSnapshot repositoryId sha db
  end.

(** ** The plan *)

Definition targetRepositoryId (sourceRepositoryId : Z) (t : ReferenceTarget) (db : LinkTables) : option Z :=
  match repo_of t with
  | None => Some sourceRepositoryId
  | Some s => Documents.repository_id <$> findRepositoryBySlug (owner s) (name s) db
  end.
Definition toLookup (key : jstr) (repositoryId : Z) (t : ReferenceTarget) : TargetLookup :=
  match t with
  | t_pull_request _ n => tl_pull_request key repositoryId n
  | t_commit _ sha => tl_commit key repositoryId sha
  | t_commit_prefix _ p => tl_commit_prefix key repositoryId p
  end.
Inductive ReferencePlan : Type := rp_absent | rp_extract_failed (reason : jstr) | rp_planned (docs : list ReferenceLinkDoc) (resolvedCount : Z).
Definition scope_of (r : RepositoryRow) : LinkScopeFields :=
  mkScope (Documents.repository_id r) (org_id r) (visibility r) (allowed_team_ids r).

Section links.
(** SHA-256 of the ids; the extraction of LinkText and Reference with the configured host, or what
    it throws; [String] of an error. *)
Context (sha256 : jstr -> jstr) (extract : jstr -> RepoSlug -> result jstr (list ExtractedReference)) (String_of : EsError -> jstr).
Context {S : Type} `{LinkServer S}.

Definition lookups_of (repositoryId : Z) (refs : list ExtractedReference) (db : LinkTables) : list TargetLookup :=
  omap (fun r => (fun t => toLookup (Reference.reference_key r) t (target r)) <$> targetRepositoryId repositoryId (target r) db) refs.
Definition link_doc (r : RepositoryRow) (x : LinkSource) (at_ : jstr) (resolutions : gmap jstr ReferenceResolution) (e : ExtractedReference) : ReferenceLinkDoc :=
  let id := docIdOf (Documents.repository_id r) x in
  mkReferenceLink (referenceLinkId sha256 (endpoint_name (kind x)) id (Reference.reference_key e)) (Reference.reference_key e) (scope_of r)
    (kind x) id (Reference.confidence e) (Reference.evidence e) at_ (resolutions !! Reference.reference_key e).
Definition planReferenceLinks (r : RepositoryRow) (x : LinkSource) (db : LinkTables) (s : S) : result LinkThrow ReferencePlan :=
  let id := Documents.repository_id r in
  match readSource id x db with
  | None => Ok rp_absent
  | Some canonical =>
    match extract (tx_text canonical) (slugOf r) with
    | Err e => Ok (rp_extract_failed (take 200 e))
    | Ok extracted =>
      match findReferenceTargets (lookups_of id extracted db) s with
      | Err e => Err e
      | Ok resolutions => Ok (rp_planned (map (link_doc r x (tx_canonicalAt canonical) resolutions) extracted) (Z.of_nat (size resolutions)))
      end
    end
  end.

(** ** Writing *)

Record DeriveOutcome : Set := mkDerived { do_references : Z; do_resolved : Z; do_removed : Z; do_complete : bool; do_absent : bool }.
Definition EMPTY : DeriveOutcome := mkDerived 0 0 0 false false.
Definition summary (r : Z) (x : LinkSource) (count : option Z) (pending : bool) : LinkSummaryUpdate :=
  mkSummaryUpdate (kind x) (docIdOf r x) r count (Some pending) None.
(** A call of the server within the fence: what it throws, and what it leaves to record. *)
Definition within_fence {A} (p : S * (result EsError A * list ShadowWriteFailure)) : S * result LinkThrow (A * Recorded) :=
  match p with
  | (s, (Ok a, fs)) => (s, Ok (a, (fs, [])))
  | (s, (Err e, _)) => (s, Err (lt_response e))
  end.
Definition also (a b : Recorded) : Recorded := (a.1 ++ b.1, a.2 ++ b.2).
Definition markPending (r : Z) (x : LinkSource) (t : WriteTargets) (s : S) : S * result LinkThrow (LinkSummaryResult * Recorded) :=
  within_fence (updateLinkSummary String_of (summary r x None true) t s).
Definition writeDerivedReferenceSet (r : Z) (x : LinkSource) (docs : list ReferenceLinkDoc) (resolvedCount : Z) (t : WriteTargets) (s : S)
  : S * result LinkThrow (DeriveOutcome * Recorded) :=
  match writeReferenceLinks docs t s with
  | (s, Err e) => (s, Err e)
  | (s, Ok (w, rec)) =>
    match failures w with
    | _ :: _ =>
      match markPending r x t s with
      | (s, Err e) => (s, Err e)
      | (s, Ok (_, rec')) => (s, Ok (mkDerived (Z.of_nat (length docs)) resolvedCount 0 false false, also rec rec'))
      end
    | [] =>
      match within_fence (deleteStaleReferenceLinks r (kind x) (docIdOf r x) (map link_id docs) String_of t s) with
      | (s, Err e) => (s, Err e)
      | (s, Ok (removed, rec1)) =>
        match within_fence (updateLinkSummary String_of (summary r x (Some (Z.of_nat (length docs))) false) t s) with
        | (s, Err e) => (s, Err e)
        | (s, Ok (_, rec2)) => (s, Ok (mkDerived (Z.of_nat (length docs)) resolvedCount removed true false, also rec (also rec1 rec2)))
        end
      end
    end
  end.
(** The plan is made before the fence, the writing is done within it. *)
Definition deriveReferenceLinks (r : RepositoryRow) (x : LinkSource) (t : WriteTargets) (db : LinkTables) (s : S)
  : S * result LinkThrow (DeriveOutcome * Recorded) :=
  let id := Documents.repository_id r in
  match planReferenceLinks r x db s with
  | Err e => (s, Err e)
  | Ok rp_absent => (s, Ok (mkDerived 0 0 0 false true, ([], [])))
  | Ok (rp_extract_failed _) =>
    match markPending id x t s with
    | (s, Err e) => (s, Err e)
    | (s, Ok (_, rec)) => (s, Ok (EMPTY, rec))
    end
  | Ok (rp_planned docs count) => writeDerivedReferenceSet id x docs count t s
  end.

(** ** Resolving *)

Definition reference_keys (x : LinkSource) (repo : option RepoSlug) : list jstr :=
  match x with pull_request_source n => pullRequestReferenceKeys n repo | commit_source sha => commitReferenceKeys sha repo end.
Definition references_to (r : RepositoryRow) (x : LinkSource) : ReferencesTo :=
  mkReferencesTo (Documents.repository_id r) (reference_keys x None) (reference_keys x (Some (slugOf r)))
    (match x with commit_source _ => any_state | pull_request_source _ => only_unresolved end).
Definition prefix_of (l : ReferencingLink) : option jstr :=
  match parseReferenceKey (rl_reference_key l) with Some (t_commit_prefix _ p) => Some p | _ => None end.
(** The lookups of the abbreviated keys, each once. *)
Definition prefix_lookups (repositoryId : Z) (candidates : list ReferencingLink) : list TargetLookup :=
  omap (fun key => match parseReferenceKey key with Some (t_commit_prefix _ p) => Some (tl_commit_prefix key repositoryId p) | _ => None end)
    (remove_dups (map rl_reference_key (List.filter (fun l => bool_decide (is_Some (prefix_of l))) candidates))).
Definition owner_mismatch (l : ReferencingLink) : bool :=
  negb (jeqb (referenceLinkId sha256 (endpoint_name (rl_from_type l)) (rl_from_id l) (rl_reference_key l)) (rl_link_id l)).
Definition update_for (direct : ReferenceResolution) (targetIndexed : bool) (prefixes : gmap jstr ReferenceResolution) (l : ReferencingLink) : list LinkUpdate :=
  let update := mkLinkUpdate (rl_link_id l) (rl_repository_id l) (mkOwner (rl_from_type l) (rl_from_id l)) in
  match prefix_of l with
  | Some _ =>
    match prefixes !! rl_reference_key l with
    | None => if rl_resolved l then [update None] else []
    | next => [update next]
    end
  | None => if rl_resolved l then [] else if targetIndexed then [update (Some direct)] else []
  end.
Definition prefix_resolutions (repositoryId : Z) (candidates : list ReferencingLink) (s : S) : result LinkThrow (gmap jstr ReferenceResolution) :=
  match prefix_lookups repositoryId candidates with [] => Ok ∅ | ls => findReferenceTargets ls s end.
Definition needs_direct (candidates : list ReferencingLink) : bool :=
  existsb (fun l => negb (bool_decide (is_Some (prefix_of l))) && negb (rl_resolved l)) candidates.
(** What is asked before the fence: the links and what becomes of each. *)
Definition planUpdates (r : RepositoryRow) (x : LinkSource) (s : S) : result LinkThrow (option (list LinkUpdate)) :=
  let id := Documents.repository_id r in
  let docId := docIdOf id x in
  match findReferencesTo (references_to r x) REFERENCE_PAGE_SIZE s with
  | Err e => Err (lt_response e)
  | Ok [] => Ok None
  | Ok candidates =>
    match prefix_resolutions id candidates s with
    | Err e => Err e
    | Ok prefixes =>
      match (if needs_direct candidates then isReferenceTargetIndexed (kind x) docId id s else Ok false) with
      | Err e => Err (lt_response e)
      | Ok targetIndexed =>
        match List.find owner_mismatch candidates with
        | Some l => Err (lt_error (js "reference_link_owner_mismatch: " ++ rl_link_id l ++ js " (" ++ endpoint_name (rl_from_type l) ++ js " " ++ rl_from_id l ++ js ")"))
        | None => Ok (Some (concat (map (update_for (mkResolution (kind x) docId id) targetIndexed prefixes) candidates)))
        end
      end
    end
  end.
(** The fence records what the write left before the failures are counted. *)
Definition resolveReferencesTo (r : RepositoryRow) (x : LinkSource) (t : WriteTargets) (s : S) : S * (result LinkThrow Z * Recorded) :=
  match planUpdates r x s with
  | Err e => (s, (Err e, ([], [])))
  | Ok None => (s, (Ok 0, ([], [])))
  | Ok (Some updates) =>
    match resolveReferenceLinks updates t s with
    | (s, Err e) => (s, (Err e, ([], [])))
    | (s, Ok (w, rec)) =>
      match failures w with
      | f :: _ => (s, (Err (lt_error (js "참조 해결 부분 실패 " ++ js_of_Z (Z.of_nat (length (failures w))) ++ js "건: " ++ lf_reason f)), rec))
      | [] => (s, (Ok (written w), rec))
      end
    end
  end.

(** ** Events *)

(** [handleSourceReady] up to the relations, which [relations.ts] derives after the references;
    each call has the targets that its own fence gives it. *)
Record Fences : Type := mkFences { fence_derive : WriteTargets; fence_resolve : WriteTargets }.
Definition handle_references (r : RepositoryRow) (x : LinkSource) (f : Fences) (db : LinkTables) (s : S)
  : S * (result LinkThrow (DeriveOutcome * Z) * list Recorded) :=
  match deriveReferenceLinks r x (fence_derive f) db s with
  | (s, Err e) => (s, (Err e, []))
  | (s, Ok (outcome, rec1)) =>
    match resolveReferencesTo r x (fence_resolve f) s with
    | (s, (Err e, rec2)) => (s, (Err e, [rec1; rec2]))
    | (s, (Ok resolved, rec2)) => (s, (Ok (outcome, resolved), [rec1; rec2]))
    end
  end.
(** What a handled event comes to: an unknown or inactive repository is done with. *)
Definition handleLinkEvent (repositoryId : Z) (x : LinkSource) (delivery_count : Z) (f : Fences) (db : LinkTables) (s : S)
  : S * (HandlerDisposition * list Recorded) :=
  match findRepositoryById repositoryId db with
  | None => (s, (d_ack, []))
  | Some r =>
    if negb (jeqb (status r) (js "active")) then (s, (d_ack, []))
    else match handle_references r x f db s with
         | (s, (Ok _, rec)) => (s, (d_ack, rec))
         | (s, (Err _, rec)) => (s, (if MAX_RETRIES <=? delivery_count then d_dead_letter else d_retry, rec))
         end
  end.
End links.

(** ** All sources of a repository *)

Inductive RebuildPhase : Set := ph_pull_request | ph_commit.
Record RebuildCursor : Set := mkRebuildCursor { rc_phase : RebuildPhase; rc_pr : Z; rc_sha : jstr }.
Definition START : RebuildCursor := mkRebuildCursor ph_pull_request 0 [].
Definition REBUILD_BATCH : nat := 200.
(** The cursor of a job, from its JSON. *)
Definition parseCursor (raw : option (list (jstr * json))) : RebuildCursor :=
  match raw with
  | None => START
  | Some fs =>
    mkRebuildCursor (match assoc (js "phase") fs with Some (JStr p) => if jeqb p (js "commit") then ph_commit else ph_pull_request | _ => ph_pull_request end)
      (match assoc (js "pr") fs with Some (JNum n) => n | _ => 0 end)
      (match assoc (js "sha") fs with Some (JStr t) => t | _ => [] end)
  end.
(** [ORDER BY commit_sha], [commit_sha > $2], [LIMIT $3]. *)
Definition by_sha (a b : jstr * CommitSnapshotRow) : Prop := text_le a.1 b.1.
#[export] Instance by_sha_dec : RelDecision by_sha.
Proof. intros a b. unfold by_sha. apply _. Defined.
Definition listCommitSnapshotsAfter (repositoryId : Z) (afterSha : jstr) (limit : nat) (db : LinkTables) : list (jstr * CommitSnapshotRow) :=
  take limit (merge_sort by_sha
    (omap (fun p : Z * jstr * CommitSnapshotRow => if (p.1.1 =? repositoryId) && text_lt afterSha p.1.2 then Some (p.1.2, p.2) else None)
       (map_to_list (commit_snapshot db)))).

Record RebuildResult : Type := mkRebuild { rb_processed : Z; rb_cursor : RebuildCursor; rb_done : bool; rb_incomplete : list LinkSource }.
Section rebuild.
(** [handleSourceReady] of one source on the state of the world: what it throws, or whether its
    derivation was incomplete for another reason than an absent source. *)
Context {W E : Type} (track : LinkSource -> W -> W * result E bool).

Fixpoint track_all (xs : list LinkSource) (w : W) : W * result E (list LinkSource) :=
  match xs with
  | [] => (w, Ok [])
  | x :: xs =>
    match track x w with
    | (w, Err e) => (w, Err e)
    | (w, Ok incomplete) =>
      match track_all xs w with
      | (w, Err e) => (w, Err e)
      | (w, Ok rest) => (w, Ok (if incomplete then x :: rest else rest))
      end
    end
  end.
Definition runReferenceRebuild (repositoryId : Z) (cursor : RebuildCursor) (batch : nat) (db : LinkTables) (w : W) : W * result E RebuildResult :=
  match rc_phase cursor with
  | ph_pull_request =>
    let rows := listSnapshotsAfter repositoryId (rc_pr cursor) batch (pull_request_snapshot db) in
    match track_all (map (fun row => pull_request_source row.1) rows) w with
    | (w, Err e) => (w, Err e)
    | (w, Ok incomplete) =>
      let pr := match last rows with Some row => row.1 | None => rc_pr cursor end in
      let next := if (length rows <? batch)%nat then mkRebuildCursor ph_commit pr [] else mkRebuildCursor ph_pull_request pr (rc_sha cursor) in
      (w, Ok (mkRebuild (Z.of_nat (length rows)) next false incomplete))
    end
  | ph_commit =>
    let rows := listCommitSnapshotsAfter repositoryId (rc_sha cursor) batch db in
    match track_all (map (fun row => commit_source row.1) rows) w with
    | (w, Err e) => (w, Err e)
    | (w, Ok incomplete) =>
      let sha := match last rows with Some row => row.1 | None => rc_sha cursor end in
      (w, Ok (mkRebuild (Z.of_nat (length rows)) (mkRebuildCursor ph_commit (rc_pr cursor) sha) (length rows <? batch)%nat incomplete))
    end
  end.
(** [rebuildRepository]: batches until one is the last; [None] when [fuel] batches were not enough. *)
Fixpoint rebuild_loop (fuel : nat) (repositoryId : Z) (cursor : RebuildCursor) (batch : nat) (db : LinkTables) (w : W)
  : W * option (result E (Z * list LinkSource)) :=
  match fuel with
  | O => (w, None)
  | Datatypes.S fuel =>
    match runReferenceRebuild repositoryId cursor batch db w with
    | (w, Err e) => (w, Some (Err e))
    | (w, Ok result) =>
      if rb_done result then (w, Some (Ok (rb_processed result, rb_incomplete result)))
      else match rebuild_loop fuel repositoryId (rb_cursor result) batch db w with
           | (w, Some (Ok (n, incomplete))) => (w, Some (Ok (rb_processed result + n, rb_incomplete result ++ incomplete)))
           | r => r
           end
    end
  end.
End rebuild.

(** ** Lemmas: identities *)

Definition is_sha (sha : jstr) : Prop := length sha = 40%nat ∧ forallb is_hex_lower sha = true.
Definition wf_source (x : LinkSource) : Prop := match x with pull_request_source n => 0 <= n | commit_source sha => is_sha sha end.
(** The abbreviated SHAs that the scan recognises. *)
Definition sized (t : ReferenceTarget) : Prop :=
  match t with t_commit_prefix _ p => (7 <= length p <= 12)%nat | _ => True end.

Lemma hex_lower_fix sha : forallb is_hex_lower sha = true -> ascii_lower sha = sha.
Proof.
  intros Hs. unfold ascii_lower. rewrite <- (map_id sha) at 2. apply map_ext_in. intros c Hc. rewrite forallb_elem in Hs.
  specialize (Hs c (proj2 (list_elem_of_In _ _) Hc)). unfold lower_char. destruct (is_upper c) eqn:E; [|done].
  unfold is_hex_lower, is_upper, is_digit, in_range in *. exfalso. rewrite ?orb_true_iff, ?andb_true_iff, ?N.leb_le in *. lia.
Qed.
Lemma doc_id_inj r x r' x' : wf_source x -> wf_source x' -> kind x = kind x' -> docIdOf r x = docIdOf r' x' -> r = r' ∧ x = x'.
Proof.
  assert (forall a b : jstr, js_of_Z r ++ js ":" ++ a = js_of_Z r' ++ js ":" ++ b -> r = r' ∧ a = b) as Hsplit.
  { intros a b E. assert (58%N ∉ js_of_Z r) as N1 by (by apply js_of_Z_no). assert (58%N ∉ js_of_Z r') as N2 by (by apply js_of_Z_no).
    apply (app_sep_inj 58%N) in E as [E ->]; [|done..]. split; [by apply js_of_Z_injective|done]. }
  destruct x as [n|sha], x' as [n'|sha']; cbn [kind docIdOf]; intros Hw Hw' Hk E; try done; apply Hsplit in E as [-> E]; split; try done.
  - by apply js_of_Z_injective in E as ->.
  - destruct Hw as [_ Hw], Hw' as [_ Hw']. by rewrite !hex_lower_fix in E by done; subst.
Qed.

Lemma endpoint_name_inj a b : endpoint_name a = endpoint_name b -> a = b.
Proof. by destruct a, b. Qed.
(** A document of a link determines what the link is. *)
Record same_link (l l' : ReferenceLinkDoc) : Prop := {
  sl_id : link_id l = link_id l'; sl_key : LinkIndex.reference_key l = LinkIndex.reference_key l';
  sl_repository : sc_repository_id (scope l) = sc_repository_id (scope l'); sl_from_type : from_type l = from_type l';
  sl_from_id : from_id l = from_id l'; sl_resolution : resolution l = resolution l'
}.
Lemma source_inj l l' : referenceLinkSource l = referenceLinkSource l' -> same_link l l'.
Proof.
  intros E. destruct (source_fields l) as [A1 A2 A3 _ A5 A6 A7], (source_fields l') as [B1 B2 B3 _ B5 B6 B7]. rewrite E in *.
  split; [congruence|congruence|congruence|apply endpoint_name_inj; congruence|congruence|].
  assert (forall k, assigned k (match resolution l with Some r => resolution_fields r | None => [] end) =
    assigned k (match resolution l' with Some r => resolution_fields r | None => [] end) \/ k = RESOLVED \/ k ∉ TARGET_FIELDS) as Hf.
  { intros k. destruct (decide (k ∈ TARGET_FIELDS)) as [Hk|]; [|by right; right]. destruct (decide (k = RESOLVED)) as [|Hne]; [by right; left|left].
    pose proof (source_lookup l k) as L. pose proof (source_lookup l' k) as L'. rewrite E in L. rewrite L in L'.
    rewrite !(link_fields_none _ _ Hk) in L'. cbn [assigned] in L'. rewrite !(bool_decide_eq_false_2 (k = RESOLVED)) in L' by done.
    by destruct (assigned k (match resolution l with Some _ => _ | None => _ end)), (assigned k (match resolution l' with Some _ => _ | None => _ end)). }
  assert (forall k, mem k TARGET_FIELDS = true -> jeqb k RESOLVED = false ->
    assigned k (match resolution l with Some r => resolution_fields r | None => [] end) =
    assigned k (match resolution l' with Some r => resolution_fields r | None => [] end)) as Hg.
  { intros k Hk%mem_elem Hr%jeqb_neq. by destruct (Hf k) as [|[|]]. }
  pose proof (Hg TO_TYPE eq_refl eq_refl) as E1. pose proof (Hg TO_ID eq_refl eq_refl) as E2. pose proof (Hg TO_REPOSITORY_ID eq_refl eq_refl) as E3.
  clear -E1 E2 E3.
  destruct (resolution l) as [[t1 i1 r1]|], (resolution l') as [[t2 i2 r2]|]; [|exfalso; clear -E2; vm_compute in E2; discriminate..|reflexivity].
  vm_compute in E2, E3. injection E2 as ->. injection E3 as ->. destruct t1, t2; vm_compute in E1; first [reflexivity|discriminate].
Qed.

Section identities.
Context (sha256 : jstr -> jstr) (Hsha : forall a b, sha256 a = sha256 b -> a = b).

(** What is stored in the index of links: the links of references, each under its id and with its
    source as owner, and derived links. *)
Record link_ok (k : DocKey) (l : ReferenceLinkDoc) : Prop := {
  lo_key : k = (js_of_Z (sc_repository_id (scope l)), link_id l);
  lo_id : link_id l = referenceLinkId sha256 (endpoint_name (from_type l)) (from_id l) (LinkIndex.reference_key l);
  lo_source : ∃ x, wf_source x ∧ from_type l = kind x ∧ from_id l = docIdOf (sc_repository_id (scope l)) x;
  lo_target : ∃ t, wf_target t ∧ sized t ∧ LinkIndex.reference_key l = referenceKey t
}.
Definition other_link (k : DocKey) (d : Source) : Prop :=
  is_text d LINK_TYPE REFERENCE_LINK_TYPE = false ∧ ∃ lt ft fi tt ti, k.2 = derivedLinkId sha256 lt ft fi tt ti.
Definition stored_ok (k : DocKey) (d : Source) : Prop := (∃ l, link_ok k l ∧ d = referenceLinkSource l) \/ other_link k d.

Lemma no_separator_key t : wf_target t -> 31%N ∉ referenceKey t.
Proof.
  intros Hw. rewrite referenceKey_scope, not_elem_of_app. split.
  - unfold scope_text. destruct (repo_of t) as [rp|] eqn:Er; [|apply not_elem_of_nil].
    assert (wf_repo (Some rp)) as [Ho Hn] by (rewrite <- Er; destruct t; apply Hw).
    rewrite !not_elem_of_app. split_and!; try (by apply index_of_char_None); by apply low_segment_chars.
  - assert (forall h, all1 is_hex_lower h = true -> 31%N ∉ h) as Hh.
    { intros h [_ Hh]%all1_forallb Hin. rewrite forallb_elem in Hh. by apply Hh in Hin. }
    destruct t as [r n|r h|r h]; destruct Hw as [_ Hw]; cbn [plain_key]; rewrite not_elem_of_app;
      (split; [by apply index_of_char_None|]); [by apply js_of_Z_no|by apply Hh..].
Qed.
Lemma no_separator_doc r x : wf_source x -> 31%N ∉ docIdOf r x.
Proof.
  assert (31%N ∉ js_of_Z r) as Hr by by apply js_of_Z_no.
  destruct x as [n|sha]; intros Hw; unfold docIdOf, pullRequestDocId, commitDocId; rewrite !not_elem_of_app;
    (split; [done|split; [by apply index_of_char_None|]]); [by apply js_of_Z_no|].
  destruct Hw as [_ Hh]. rewrite hex_lower_fix by done. intros Hin. rewrite forallb_elem in Hh. by apply Hh in Hin.
Qed.
Lemma id_inj r x t r' x' t' :
  wf_source x -> wf_source x' -> wf_target t -> wf_target t' ->
  referenceLinkId sha256 (endpoint_name (kind x)) (docIdOf r x) (referenceKey t) = referenceLinkId sha256 (endpoint_name (kind x')) (docIdOf r' x') (referenceKey t') ->
  r = r' ∧ x = x' ∧ t = t'.
Proof.
  intros Hx Hx' Ht Ht' E. assert (forall k, 31%N ∉ endpoint_name k) as Hk by (intros []; by apply index_of_char_None).
  apply (proj1 (link_ids_injective sha256 Hsha)) in E as (E1 & E2 & E3).
  - apply endpoint_name_inj in E1. destruct (doc_id_inj r x r' x' Hx Hx' E1 E2) as [-> ->]. split_and!; [done..|].
    pose proof (key_round_trip t Ht) as P. rewrite E3, (key_round_trip t' Ht') in P. by injection P.
  - repeat (apply Forall_cons_2; [first [apply Hk|by apply no_separator_doc|by apply no_separator_key]|]). constructor.
Qed.
(** The id of a reference is not the id of a derived link. *)
Lemma id_apart f i k lt ft fi tt ti : referenceLinkId sha256 f i k <> derivedLinkId sha256 lt ft fi tt ti.
Proof. intros E%Hsha. apply (f_equal (take 3)) in E. by destruct lt. Qed.
End identities.

(** The references of a text have keys of the recognised lengths. *)
Lemma toTarget_sized url g source host t : wf_groups g -> toTarget url g source host = Some t -> sized t.
Proof.
  destruct g as [u|o n d|d|h|h]; cbn [wf_groups toTarget].
  - intros _ E. unfold url_target in E. destruct host as [host|]; [|done]. destruct (url (strip_punctuation u)) as [[h path]|]; [|done].
    destruct (negb _); [done|]. destruct (URL_TARGET path) as [[[[o n] kd] v]|]; [|done]. cbv zeta in E. destruct (jeqb kd (js "pull")).
    + destruct (all1 is_digit v); [|done]. by injection E as <-.
    + destruct (forallb is_hex_lower (ascii_lower v)); [|done]. cbn [andb] in E. unfold FULL_SHA_LENGTH, ABBREV_SHA_MIN, ABBREV_SHA_MAX in E.
      destruct (Nat.eqb_spec (length (ascii_lower v)) 40); [by injection E as <-|].
      destruct (_ && _) eqn:Eb in E; [|done]. apply andb_prop in Eb as [Ea Eb]. injection E as <-. bool_to_prop. cbn [sized]. lia.
  - by intros _ [= <-].
  - by intros _ [= <-].
  - by intros _ [= <-].
  - intros [Hl _] [= <-]. cbn [sized]. unfold ascii_lower. by rewrite length_map.
Qed.
Lemma extract_sized url text src host limit : Forall (fun e => sized (target e)) (extractReferences url text src host limit).
Proof.
  unfold extractReferences. destruct text as [text|]; [|constructor]. destruct (jeqb text []); [constructor|]. cbv zeta.
  set (step := fun found m => _). set (ms := scan _ _ _ _). assert (Forall (fun m => wf_groups m.2) ms) as Hms by apply scan_wf. clearbody ms.
  assert (forall found, Forall (fun e => sized (target e)) found -> Forall (fun e => sized (target e)) (foldl step found ms)) as H; [|by apply H].
  induction ms as [|m ms IH]; intros found Hf; [done|]. apply Forall_cons_1 in Hms as [Hm Hms]. cbn [foldl]. apply IH; [done|].
  unfold step. destruct (toTarget url m.2 _ _) as [t|] eqn:Et; [|done]. apply toTarget_sized in Et; [|done]. unfold add_reference.
  destruct (existsb _ found).
  - apply Forall_forall. intros e (e' & -> & Hin)%list_elem_of_fmap. rewrite Forall_forall in Hf. specialize (Hf e' Hin).
    destruct (jeqb _ _); [|done]. destruct (Reference.confidence e'); [done|]. cbn [Reference.confidence]. by destruct (inTrailer _ _).
  - destruct (limit <=? length found)%nat; [done|]. apply Forall_app. split; [done|by constructor].
Qed.

Section derivation.
Context (sha256 : jstr -> jstr) (extract : jstr -> RepoSlug -> result jstr (list ExtractedReference)) (String_of : EsError -> jstr).
Context {S : Type} `{LinkServer S}.
(** SHA-256 does not collide; an extraction that does not throw is that of Reference. *)
Context (Hlaws : LinkLaws S) (Hsha : forall a b, sha256 a = sha256 b -> a = b).
Context (Hextract : forall text slug l, extract text slug = Ok l -> ∃ url host, l = extractReferences url (Some text) slug host REFERENCE_LIMIT).

(** The index of links holds nothing else, and the indices that the worker writes to are distinct. *)
Definition links_ok (s : S) : Prop := forall k d, live s LINKS_ALIAS k = Some d -> stored_ok sha256 k d.
Definition SERVED : list jstr := [LINKS_ALIAS; PR_ALIAS; COMMIT_ALIAS].
Record indices_ok (t : WriteTargets) (s : S) : Prop := {
  io_apart alias i a : shadowIndexOf t alias = Some i -> a ∈ SERVED -> es_index s i <> es_index s a;
  io_distinct k : es_index s (alias_of k) <> es_index s LINKS_ALIAS
}.
Lemma indices_apart t s : indices_ok t s -> apart t s.
Proof. intros Hi i E. apply (io_apart _ _ Hi _ _ _ E). by left. Qed.
Lemma indices_same t s s' : (forall n, es_index s' n = es_index s n) -> indices_ok t s -> indices_ok t s'.
Proof. intros E [H1 H2]. split; [intros alias i a; rewrite !E; apply H1|intros k; rewrite !E; apply H2]. Qed.

Lemma plan_docs r x db s docs n :
  wf_source x -> planReferenceLinks sha256 extract r x db s = Ok (rp_planned docs n) ->
  NoDup (map link_id docs) ∧
  forall l, l ∈ docs -> link_ok sha256 (js_of_Z (Documents.repository_id r), link_id l) l ∧ scope l = scope_of r ∧
    from_type l = kind x ∧ from_id l = docIdOf (Documents.repository_id r) x.
Proof.
  intros Hx. unfold planReferenceLinks. destruct (readSource _ x db) as [canonical|]; [|done].
  destruct (extract (tx_text canonical) (slugOf r)) as [refs|] eqn:Ee; [|done]. destruct (findReferenceTargets _ s) as [m|]; [|done]. intros [= <- _].
  apply Hextract in Ee as (url & host & ->). set (refs := extractReferences _ _ _ _ _).
  destruct (extract_ok url (Some (tx_text canonical)) (slugOf r) host REFERENCE_LIMIT) as (Hok & Hn & _). fold refs in Hok, Hn.
  pose proof (extract_sized url (Some (tx_text canonical)) (slugOf r) host REFERENCE_LIMIT) as Hs. fold refs in Hs. clearbody refs.
  rewrite Forall_forall in Hok, Hs.
  assert (forall l, l ∈ map (link_doc sha256 r x (tx_canonicalAt canonical) m) refs -> link_ok sha256 (js_of_Z (Documents.repository_id r), link_id l) l ∧ scope l = scope_of r ∧
    from_type l = kind x ∧ from_id l = docIdOf (Documents.repository_id r) x) as Hl.
  { intros l (e & -> & Hin)%list_elem_of_fmap. destruct (Hok e Hin) as (Hk & Hw & _). split_and!; [|done..].
    split; [done|done|by exists x|]. exists (target e). split_and!; [done|by apply Hs|done]. }
  split; [|exact Hl]. rewrite map_map. cbn [link_doc link_id].
  assert (NoDup (map (fun e => referenceLinkId sha256 (endpoint_name (kind x)) (docIdOf (Documents.repository_id r) x) (Reference.reference_key e)) refs)); [|done].
  clear Hl. induction refs as [|e refs IH]; [constructor|]. cbn [map] in *. apply NoDup_cons in Hn as [Hni Hn]. apply NoDup_cons. split.
  - intros (e' & E & Hin)%list_elem_of_fmap. apply Hni. destruct (Hok e) as (K & Hw & _); [by left|]. destruct (Hok e') as (K' & Hw' & _); [by right|].
    rewrite K, K' in E. destruct (id_inj sha256 Hsha _ x (target e) _ x (target e') Hx Hx Hw Hw' E) as (_ & _ & Et). rewrite K, Et, <- K'. by apply list_elem_of_fmap_2.
  - apply IH; [intros e' He'; apply Hok; by right|done|intros e' He'; apply Hs; by right].
Qed.

(** *** What the stages leave of the index of links *)

Lemma summary_untouched u t (s : S) : indices_ok t s -> untouched (es_index s LINKS_ALIAS) s (updateLinkSummary String_of u t s).1.
Proof.
  intros Hi. destruct (updateLinkSummary String_of u t s) as [s' [r fs]] eqn:E. apply dualWrite_cases in E as (s1 & E1 & Hs). cbn [fst].
  assert (untouched (es_index s LINKS_ALIAS) s s1) as H1.
  { change s1 with (fst (s1, r)). rewrite <- E1, sendSummary_update. apply (update_untouched Hlaws). apply (io_distinct _ _ Hi). }
  destruct Hs as [->|(i & _ & Hsh & ->)]; [done|]. apply (untouched_trans _ _ _ _ H1). rewrite sendSummary_update.
  apply (update_untouched Hlaws). cbn [uc_name]. destruct H1 as [-> _]. apply (io_apart _ _ Hi _ _ _ Hsh). by left.
Qed.
Lemma untouched_live (s s' : S) k : untouched (es_index s LINKS_ALIAS) s s' -> live s' LINKS_ALIAS k = live s LINKS_ALIAS k.
Proof. intros [Hn Hd]. unfold live, doc_named. by rewrite Hn, Hd. Qed.
Definition mine (r : Z) (x : LinkSource) : Source -> bool := of_source REFERENCE_LINK_TYPE r (kind x) (docIdOf r x).
Lemma stale_removed r x keep t (s s' : S) res fs :
  indices_ok t s -> deleteStaleReferenceLinks r (kind x) (docIdOf r x) keep String_of t s = (s', (res, fs)) ->
  (forall n, es_index s' n = es_index s n) ∧ removed_from LINKS_ALIAS (js_of_Z r) (mine r x) keep s s' (is_ok res).
Proof.
  intros Hi E. apply dualWrite_cases in E as (s1 & E1 & Hs).
  pose proof (refresh_and_delete_spec Hlaws r (mine r x) keep LINKS_ALIAS s) as H1. unfold mine in *. rewrite E1 in H1. destruct H1 as [[Hn _] H1].
  destruct Hs as [->|(i & _ & Hsh & ->)]; [done|].
  pose proof (refresh_and_delete_spec Hlaws r (mine r x) keep i s1) as H2. unfold mine in *.
  destruct (refresh_and_delete r _ keep i s1) as [s2 r2]. cbn [fst]. destruct H2 as [[Hn2 Ho] _].
  assert (forall k, live s2 LINKS_ALIAS k = live s1 LINKS_ALIAS k) as Hl.
  { intros k. unfold live, doc_named. rewrite Hn2. apply Ho. rewrite !Hn. intros E. apply (io_apart _ _ Hi _ _ LINKS_ALIAS Hsh); [by left|done]. }
  split; [intros n; by rewrite Hn2|]. split; intros; rewrite ?Hl; by eapply H1.
Qed.
Lemma mine_source r x l :
  mine r x (referenceLinkSource l) = true <-> sc_repository_id (scope l) = r ∧ from_type l = kind x ∧ from_id l = docIdOf r x.
Proof.
  destruct (source_fields l) as [_ _ E3 E4 E5 E6 _]. unfold mine, of_source, is_number, is_text. rewrite E3, E4, E5, E6.
  rewrite !andb_true_iff, !bool_decide_eq_true. split.
  - intros ((([= E] & _) & [= E']) & [= E'']). split_and!; [done|by apply endpoint_name_inj|done].
  - intros (<- & <- & <-). done.
Qed.
(** A stored document under the id of a link of a source is a link of it. *)
Lemma stored_mine r x l k d :
  wf_source x -> link_ok sha256 (js_of_Z r, link_id l) l -> from_type l = kind x -> from_id l = docIdOf r x ->
  stored_ok sha256 k d -> k.2 = link_id l -> mine r x d = true ∧ k.1 = js_of_Z r.
Proof.
  intros Hx [_ Hid _ (t & Hw & _ & Hk)] Ef Ei Hst Ek. rewrite Hk, Ef, Ei in Hid. destruct Hst as [(l' & [Hkey Hid' (x' & Hx' & Ef' & Ei') (t' & Hw' & _ & Hk')] & ->)|[_ (lt & ft & fi & tt & ti & Hd)]].
  - assert (link_id l' = link_id l) as E by by rewrite <- Ek, Hkey. rewrite Hid, Hid', Hk', Ef', Ei' in E.
    apply (id_inj sha256 Hsha) in E as (Er & -> & _); [|done..]. rewrite Hkey. cbn [fst]. rewrite Er. split; [|done].
    apply mine_source. rewrite Ef', Ei', Er. done.
  - exfalso. rewrite Ek, Hid in Hd. by apply (id_apart sha256 Hsha) in Hd.
Qed.
Lemma index_key r l : scope l = scope_of r -> link_key (index_op l) = (js_of_Z (Documents.repository_id r), link_id l).
Proof. intros Hs. unfold link_key, index_op. cbn [repositoryId linkId]. by rewrite Hs. Qed.

(** Writing the planned links leaves every document as it was or as it was planned. *)
Lemma written_values docs t (s : S) k :
  let s1 := (writeReferenceLinks docs t s).1 in
  live s1 LINKS_ALIAS k = live s LINKS_ALIAS k \/ ∃ l, l ∈ docs ∧ link_key (index_op l) = k ∧ live s1 LINKS_ALIAS k = Some (referenceLinkSource l).
Proof.
  cbv zeta. unfold writeReferenceLinks. destruct (send_items Hlaws (map index_op docs) t s) as (rs & [Hd| ->] & _); [|by left].
  apply (items_ind (fun s' => live s' LINKS_ALIAS k = live s LINKS_ALIAS k \/
    ∃ l, l ∈ docs ∧ link_key (index_op l) = k ∧ live s' LINKS_ALIAS k = Some (referenceLinkSource l)) _ _ _ _ Hd); [|by left].
  clear Hd rs. intros c s1 s2 r Hc Hu _ Hv.
  destruct (bulk_step t _ s1 s2 c r k Hc Hu) as [->|(o & (l & -> & Hl)%list_elem_of_fmap & Hk & ->)]; [done|].
  right. exists l. split_and!; [done..|]. cbn [call_of index_op body carried_out uc_upsert uc_script]. by destruct (live s1 LINKS_ALIAS k).
Qed.
Lemma written_index docs t (s : S) n : es_index (writeReferenceLinks docs t s).1 n = es_index s n.
Proof. apply (bulk_index Hlaws). Qed.
(** Documents that are not links of the source stay as they are and none is added. *)
Lemma written_others r x docs t (s : S) k d :
  wf_source x -> links_ok s ->
  (forall l, l ∈ docs -> link_ok sha256 (js_of_Z (Documents.repository_id r), link_id l) l ∧ scope l = scope_of r ∧ from_type l = kind x ∧ from_id l = docIdOf (Documents.repository_id r) x) ->
  mine (Documents.repository_id r) x d = false ->
  live (writeReferenceLinks docs t s).1 LINKS_ALIAS k = Some d <-> live s LINKS_ALIAS k = Some d.
Proof.
  intros Hx Hok Hdocs Hm. destruct (written_values docs t s k) as [->|(l & Hl & Hk & ->)]; [done|].
  destruct (Hdocs l Hl) as (Hlo & Hsc & Ef & Ei). rewrite (index_key r l Hsc) in Hk. subst k. split.
  - intros [= <-]. exfalso. assert (mine (Documents.repository_id r) x (referenceLinkSource l) = true); [|congruence].
    apply mine_source. by rewrite Hsc.
  - intros Hd. destruct (stored_mine (Documents.repository_id r) x l _ d Hx Hlo Ef Ei (Hok _ _ Hd) eq_refl) as [E _]. congruence.
Qed.

Lemma removed_exact r x docs n t db (s s1 s2 : S) w rec k d :
  wf_source x -> indices_ok t s -> links_ok s -> planReferenceLinks sha256 extract r x db s = Ok (rp_planned docs n) ->
  NoDup (map link_key (map index_op docs)) -> writeReferenceLinks docs t s = (s1, Ok (w, rec)) -> failures w = [] ->
  removed_from LINKS_ALIAS (js_of_Z (Documents.repository_id r)) (mine (Documents.repository_id r) x) (map link_id docs) s1 s2 true ->
  live s2 LINKS_ALIAS k = Some d ∧ mine (Documents.repository_id r) x d = true <->
  ∃ l, l ∈ docs ∧ k = (js_of_Z (Documents.repository_id r), link_id l) ∧ d = referenceLinkSource l.
Proof.
  set (id := Documents.repository_id r). intros Hx Hi Hok Ep Hnk Ew Ef Hrm. destruct (plan_docs r x db s docs n Hx Ep) as [_ Hdocs].
  pose proof (indices_apart t s Hi) as Ha.
  assert (forall l, l ∈ docs -> live s1 LINKS_ALIAS (js_of_Z id, link_id l) = Some (referenceLinkSource l)) as Hwritten.
  { intros l Hl. destruct (Hdocs l Hl) as (_ & Hsc & _). destruct rec as [f p].
    destruct (items_carried Hlaws (map index_op docs) t s s1 w (f, p) (index_op l) Hnk Ha Ew Ef) as [E _]; [by apply list_elem_of_fmap_2|].
    rewrite (index_key r l Hsc) in E. fold id in E. rewrite E. cbn [call_of index_op body carried_out uc_upsert uc_script]. by destruct (live s LINKS_ALIAS _). }
  split.
  - intros [Hd Hm]. destruct (rm_gone _ _ _ _ _ _ _ Hrm k) as [E|E]; [|congruence]. rewrite Hd in E. symmetry in E.
    destruct (written_values docs t s k) as [Hv|(l & Hl & Hk & Hv)]; rewrite Ew in Hv; cbn [fst] in Hv.
    + assert (stored_ok sha256 k d) as Hst by (apply Hok; congruence).
      destruct (decide (k.2 ∈ map link_id docs)) as [(l & El & Hl)%list_elem_of_fmap|Hni].
      * destruct (Hdocs l Hl) as (Hlo & Hsc & Eft & Ei). destruct (stored_mine id x l k d Hx Hlo Eft Ei Hst El) as [_ Hk1].
        assert (k = (js_of_Z id, link_id l)) as -> by (destruct k; cbn in *; congruence). exists l. split_and!; [done..|].
        rewrite Hwritten in E by done. by injection E as <-.
      * destruct Hst as [(l & [Hkey _ _ _] & ->)|[Hot _]].
        -- pose proof Hm as (Er & _)%mine_source. rewrite Er in Hkey. subst k. cbn [snd] in Hni.
           by rewrite (rm_done _ _ _ _ _ _ _ Hrm (link_id l) _ eq_refl E Hm Hni) in Hd.
        -- exfalso. unfold mine, of_source in Hm. by rewrite Hot, andb_false_r in Hm.
    + destruct (Hdocs l Hl) as (_ & Hsc & _). rewrite (index_key r l Hsc) in Hk. exists l. split_and!; [done..|congruence].
  - intros (l & Hl & -> & ->). destruct (Hdocs l Hl) as (_ & Hsc & Eft & Ei). split; [|apply mine_source; by rewrite Hsc].
    destruct (rm_only _ _ _ _ _ _ _ Hrm (js_of_Z id, link_id l) eq_refl) as [->|(_ & Hni & _)]; [by apply Hwritten|].
    exfalso. apply Hni. by apply (list_elem_of_fmap_2 link_id).
Qed.

(** [C25] A derivation is exact: when it reports that it is complete, the links of its source in the
    index are the planned ones and no others; when it does not, no link of any source is gone; and
    either way the links of other sources and of other types are as they were. *)
Theorem derivation_exact r x t db (s s' : S) out rec :
  wf_source x -> indices_ok t s -> links_ok s ->
  deriveReferenceLinks sha256 extract String_of r x t db s = (s', Ok (out, rec)) ->
  let own := mine (Documents.repository_id r) x in
  (forall k d, own d = false -> live s' LINKS_ALIAS k = Some d <-> live s LINKS_ALIAS k = Some d) ∧
  (do_complete out = true -> ∃ docs n, planReferenceLinks sha256 extract r x db s = Ok (rp_planned docs n) ∧ do_references out = Z.of_nat (length docs) ∧
     forall k d, live s' LINKS_ALIAS k = Some d ∧ own d = true <->
       ∃ l, l ∈ docs ∧ k = (js_of_Z (Documents.repository_id r), link_id l) ∧ d = referenceLinkSource l) ∧
  (do_complete out = false -> forall k, is_Some (live s LINKS_ALIAS k) -> is_Some (live s' LINKS_ALIAS k)).
Proof.
  intros Hx Hi Hok. unfold deriveReferenceLinks. set (id := Documents.repository_id r). cbv zeta.
  destruct (planReferenceLinks sha256 extract r x db s) as [[|reason|docs n]|] eqn:Ep; [| | |done].
  - intros [= <- <- <-]. done.
  - destruct (markPending String_of id x t s) as [s1 [[u rec1]|]] eqn:Em; [|done]. intros [= <- <- <-].
    assert (s1 = (updateLinkSummary String_of (summary id x None true) t s).1) as ->.
    { unfold markPending, within_fence in Em. destruct (updateLinkSummary _ _ _ s) as [? [[]]]; by simplify_eq. }
    pose proof (fun k => untouched_live _ _ k (summary_untouched (summary id x None true) t s Hi)) as Hl.
    split_and!; [intros k d _; by rewrite Hl|done|intros _ k; by rewrite Hl].
  - intros Hw. destruct (plan_docs r x db s docs n Hx Ep) as [Hnd Hdocs]. pose proof (indices_apart t s Hi) as Ha.
    assert (NoDup (map link_key (map index_op docs))) as Hnk.
    { rewrite map_map. assert (forall l, l ∈ docs -> link_key (index_op l) = (js_of_Z id, link_id l)) as Hk by (intros l Hl; apply index_key, Hdocs, Hl).
      rewrite (map_ext_in _ (fun l => (js_of_Z id, link_id l))) by (intros l Hl; by apply Hk, list_elem_of_In).
      rewrite <- (map_map link_id (fun i : jstr => (js_of_Z id, i))). by apply NoDup_fmap_2; [intros ?? [=]|]. }
    unfold writeDerivedReferenceSet in Hw.
    pose proof (fun k d => written_others r x docs t s k d Hx Hok Hdocs) as Hothers.
    pose proof (written_index docs t s) as Hn1. assert (forall k, is_Some (live s LINKS_ALIAS k) -> is_Some (live (writeReferenceLinks docs t s).1 LINKS_ALIAS k)) as Hkeep.
    { intros k. unfold live, doc_named. rewrite Hn1. apply (bulk_keeps Hlaws). }
    destruct (writeReferenceLinks docs t s) as [s1 [[w rec1]|]] eqn:Ew; [|done]. cbn [fst] in *.
    pose proof (indices_same t s s1 Hn1 Hi) as Hi1. destruct (failures w) as [|f0 fs0] eqn:Ef.
    + destruct (deleteStaleReferenceLinks id (kind x) (docIdOf id x) (map link_id docs) String_of t s1) as [s2 [res fs]] eqn:Ed.
      destruct (stale_removed _ _ _ _ _ _ _ _ Hi1 Ed) as [Hn2 Hrm]. destruct res as [removed|]; [|done]. cbn [within_fence is_ok] in *.
      pose proof (fun k => untouched_live _ _ k (summary_untouched (summary id x (Some (Z.of_nat (length docs))) false) t s2 (indices_same t s1 s2 Hn2 Hi1))) as Hl3.
      destruct (updateLinkSummary String_of (summary id x (Some (Z.of_nat (length docs))) false) t s2) as [s3 [[?|?] ?]]; [|done]. cbn [fst] in Hl3.
      injection Hw as <- <- <-. cbn [do_complete do_references]. split_and!; [| |done].
      * intros k d Hm. rewrite Hl3, <- Hothers by done. destruct (rm_only _ _ _ _ _ _ _ Hrm k eq_refl) as [->|(E & _ & d' & Hd' & Hf)]; [done|].
        rewrite E, Hd'. split; [done|]. intros [= ->]. congruence.
      * intros _. exists docs, n. split_and!; [done..|]. intros k d. rewrite Hl3. by apply (removed_exact r x docs n t db s s1 s2 w rec1).
    + destruct (markPending String_of id x t s1) as [s2 [[u rec2]|]] eqn:Em; [|done]. injection Hw as <- <- <-. cbn [do_complete].
      assert (s2 = (updateLinkSummary String_of (summary id x None true) t s1).1) as ->.
      { unfold markPending, within_fence in Em. destruct (updateLinkSummary _ _ _ s1) as [? [[]]]; by simplify_eq. }
      pose proof (fun k => untouched_live _ _ k (summary_untouched (summary id x None true) t s1 Hi1)) as Hl.
      split_and!; [intros k d Hm; by rewrite Hl, Hothers|done|intros _ k Hk; rewrite Hl; by apply Hkeep].
Qed.
End derivation.

(** ** A repository of two pull requests *)

Definition sample_extract (text : jstr) (slug : RepoSlug) : result jstr (list ExtractedReference) :=
  Ok (extractReferences no_urls (Some text) slug None REFERENCE_LIMIT).
Definition sample_repository : RepositoryRow := mkRepository 7 (js "acme") (js "app") 1 (js "private") (js "active") [].
Definition sample_document (n : Z) (title : jstr) : Source := assign_all [(REPOSITORY_ID, JNum 7); (PR_NUMBER, JNum n); (js "title", JStr title)] ∅.
Definition sample_first : Source := sample_document 1 (js "Follows #2").
Definition sample_second : Source := sample_document 2 (js "Base").
Definition sample_db : LinkTables :=
  mkLinkTables {[(7, 1) := mkSnapshot 1 ss_webhook sample_first; (7, 2) := mkSnapshot 1 ss_webhook sample_second]} ∅ {[7 := sample_repository]}.
Definition sample_documents : gmap DocKey Source :=
  {[(js_of_Z 7, pullRequestDocId 7 1) := sample_first; (js_of_Z 7, pullRequestDocId 7 2) := sample_second]}.
(** The documents are there, and a search finds them or not. *)
Definition sample_server (sought : bool) : ModelLinks :=
  mkModelLinks (mkModelIndex ∅ (kmap (pair PR_ALIAS) sample_documents)) (if sought then {[PR_ALIAS := sample_documents]} else ∅).
Lemma sample_extracts text slug l : sample_extract text slug = Ok l -> ∃ url host, l = extractReferences url (Some text) slug host REFERENCE_LIMIT.
Proof. intros [= <-]. by exists no_urls, None. Qed.
Lemma sample_indices sought : indices_ok SERVING_ONLY (sample_server sought).
Proof. split; [done|]. intros []; vm_compute; discriminate. Qed.
Lemma sample_no_link sought key : live (sample_server sought) LINKS_ALIAS key = None.
Proof.
  unfold live, doc_named. cbn [es_doc es_index model_links_docs sample_server ml_docs mi_docs]. apply lookup_kmap_None; [apply _|].
  intros i E. exfalso. revert E. vm_compute. discriminate.
Qed.
Definition sample_plan : list ReferenceLinkDoc :=
  match planReferenceLinks (fun t => t) sample_extract sample_repository (pull_request_source 1) sample_db (sample_server true) with
  | Ok (rp_planned docs _) => docs
  | _ => []
  end.
Lemma derivation_exact_witness :
  let r := deriveReferenceLinks (fun t => t) sample_extract (fun _ => []) sample_repository (pull_request_source 1) SERVING_ONLY sample_db (sample_server true) in
  map resolution sample_plan = [Some (mkResolution ep_pull_request (pullRequestDocId 7 2) 7)] ∧
  forall k d, live r.1 LINKS_ALIAS k = Some d ∧ mine 7 (pull_request_source 1) d = true <->
    ∃ l, l ∈ sample_plan ∧ k = (js_of_Z 7, link_id l) ∧ d = referenceLinkSource l.
Proof.
  cbv zeta. set (r := deriveReferenceLinks _ _ _ _ _ _ _ _).
  assert (r = (r.1, Ok (mkDerived 1 1 0 true false, ([], [])))) as E by (vm_compute; reflexivity).
  destruct (derivation_exact (fun t => t) sample_extract (fun _ => []) model_links_laws (fun a b E => E) sample_extracts sample_repository
    (pull_request_source 1) SERVING_ONLY sample_db (sample_server true) r.1 (mkDerived 1 1 0 true false) ([], []))
    as (_ & Hc & _); [cbn; lia|apply sample_indices|intros k d; by rewrite sample_no_link|exact E|].
  destruct (Hc eq_refl) as (docs & n & Hp & _ & Hk). assert (docs = sample_plan) as <- by (unfold sample_plan; by rewrite Hp).
  split; [|exact Hk]. assert (map resolution sample_plan = [Some (mkResolution ep_pull_request (pullRequestDocId 7 2) 7)]) as Hm by (vm_compute; reflexivity).
  rewrite <- Hm. unfold sample_plan. by rewrite Hp.
Defined.
