(* ===== verification/ReferenceRebuild.v ===== *)
(** * Deriving all links of a repository again

    The batches of [runReferenceRebuild] and [rebuildRepository] of
    [apps/pipeline-worker/src/link.ts]: they go over the stored pull requests and then over the
    stored commits by a cursor, and together they are one pass over all of them. *)

From stdpp Require Import base option strings numbers gmap sorting list.
From Stdlib Require Import ZArith Lia.
From S2P Require Import Prelude JsString Json EsSort SearchCursor EsDocument Reindex Documents Reference LinkIndex ReferenceLinks.
Open Scope Z_scope.

(** ** Pages by a key *)

Section pages.
Context {K V : Type} (lt : K -> K -> Prop) (Hirr : forall a, ~ lt a a) (Htrans : forall a b c, lt a b -> lt b c -> lt a c).
Definition before (a b : K * V) : Prop := lt a.1 b.1.

Lemma strict_eq (l l' : list (K * V)) :
  StronglySorted before l -> StronglySorted before l' -> (forall x, x ∈ l <-> x ∈ l') -> l = l'.
Proof.
  intros Hl. revert l'. induction Hl as [|x l Hl IH Hx]; intros l' Hl' He.
  - destruct l' as [|y l']; [done|]. assert (y ∈ []) as ?%elem_of_nil by (apply He; by left). done.
  - destruct Hl' as [|y l' Hl' Hy]; [assert (x ∈ []) as ?%elem_of_nil by (apply He; by left); done|].
    rewrite Forall_forall in Hx, Hy. assert (x = y) as ->.
    { assert (x ∈ y :: l') as [|Hxl]%elem_of_cons by (apply He; by left); [done|]. assert (y ∈ x :: l) as [|Hyl]%elem_of_cons by (apply He; by left); [done|].
      exfalso. apply (Hirr x.1). by apply (Htrans _ y.1); [apply Hx|apply Hy]. }
    f_equal. apply IH; [done|]. intros z. split; intros Hz.
    + assert (z ∈ y :: l') as [->|]%elem_of_cons by (apply He; by right); [|done]. exfalso. by apply (Hirr y.1), Hx.
    + assert (z ∈ y :: l) as [->|]%elem_of_cons by (apply He; by right); [|done]. exfalso. by apply (Hirr y.1), Hy.
Qed.
Context (all : K -> list (K * V)) (P : K * V -> Prop).
Context (Hsorted : forall c, StronglySorted before (all c)) (Hall : forall c x, x ∈ all c <-> P x ∧ lt c x.1).
(** The rows after the last one of a page are the rows that the page left. *)
Lemma next_rows c n x : last (take n (all c)) = Some x -> all x.1 = drop n (all c).
Proof.
  intros (l & Hl)%last_Some. pose proof (Hsorted c) as Hs. rewrite <- (take_drop n (all c)) in Hs.
  assert (x ∈ take n (all c)) as Hx by (rewrite Hl; apply elem_of_app; right; by left).
  apply strict_eq; [apply Hsorted|by apply StronglySorted_app_1_r in Hs|]. intros y. rewrite Hall. split.
  - intros [HP Hlt]. assert (lt c x.1) as Hcx by (apply (Hall c x); rewrite <- (take_drop n (all c)); apply elem_of_app; by left).
    assert (y ∈ all c) as Hy by (apply Hall; split; [done|by eapply Htrans]). rewrite <- (take_drop n (all c)) in Hy.
    apply elem_of_app in Hy as [Hy|]; [|done]. exfalso. apply StronglySorted_app_1_l in Hs. rewrite Hl in Hs, Hy.
    apply elem_of_app in Hy as [Hy| ->%list_elem_of_singleton]; [|by eapply Hirr].
    apply (Hirr x.1). apply (Htrans _ y.1); [done|]. apply (StronglySorted_app_1_elem_of _ _ _ y x Hs Hy). by left.
  - intros Hy. split.
    + assert (y ∈ all c) as [? _]%Hall by (rewrite <- (take_drop n (all c)); apply elem_of_app; by right). done.
    + by apply (StronglySorted_app_1_elem_of _ _ _ x y Hs).
Qed.
End pages.

(** ** The rows of the tables *)

Section rows.
Context (repositoryId : Z) (db : LinkTables).
Definition pull_requests_after (pr : Z) : list (Z * Snapshot) := snapshots_where repositoryId (fun n _ => pr <? n) (pull_request_snapshot db).
Definition commits_after (sha : jstr) : list (jstr * CommitSnapshotRow) :=
  merge_sort by_sha
    (omap (fun p : Z * jstr * CommitSnapshotRow => if (p.1.1 =? repositoryId) && text_lt sha p.1.2 then Some (p.1.2, p.2) else None)
       (map_to_list (commit_snapshot db))).
(** Every stored pull request and commit, in the order of the cursor. *)
Definition sources_of : list LinkSource :=
  map (fun row => pull_request_source row.1) (pull_requests_after 0) ++ map (fun row => commit_source row.1) (commits_after []).

Lemma strict_of_sorted {K V} (R : K * V -> K * V -> Prop) (lt : K -> K -> Prop) (l : list (K * V)) :
  StronglySorted R l -> NoDup l.*1 -> (forall a b, R a b -> a.1 <> b.1 -> lt a.1 b.1) -> StronglySorted (before lt) l.
Proof.
  intros Hs Hn HR. induction Hs as [|x l Hl IH Hx]; [constructor|]. rewrite fmap_cons in Hn. apply NoDup_cons in Hn as [Hni Hn].
  constructor; [by apply IH|]. rewrite Forall_forall in Hx |- *. intros y Hy. apply HR; [by apply Hx|].
  intros E. apply Hni. rewrite E. by apply list_elem_of_fmap_2.
Qed.
Lemma omap_keys {K V} `{Countable K} (ok : K -> V -> bool) (m : gmap (Z * K) V) :
  NoDup ((omap (fun p : Z * K * V => if (p.1.1 =? repositoryId) && ok p.1.2 p.2 then Some (p.1.2, p.2) else None) (map_to_list m)).*1).
Proof.
  pose proof (NoDup_fst_map_to_list m) as Hn. induction (map_to_list m) as [|[[r k] v] l IH]; [constructor|].
  rewrite fmap_cons in Hn. apply NoDup_cons in Hn as [Hni Hn]. cbn [omap list_omap fst snd].
  destruct ((r =? repositoryId) && ok k v) eqn:E; [|by apply IH]. rewrite fmap_cons. apply NoDup_cons. split; [|by apply IH].
  intros ([k' v'] & Ek & ([[r2 k2] v2] & Hin & E2)%list_elem_of_omap)%list_elem_of_fmap. cbn [fst snd] in *.
  destruct ((r2 =? repositoryId) && ok k2 v2) eqn:E3; [|done]. injection E2 as -> ->. subst k'.
  apply andb_prop in E as [->%Z.eqb_eq _], E3 as [->%Z.eqb_eq _]. apply Hni. by apply (list_elem_of_fmap_2 fst) in Hin.
Qed.
Lemma pull_requests_strict pr : StronglySorted (before Z.lt) (pull_requests_after pr).
Proof.
  eapply strict_of_sorted; [apply snapshots_where_sorted| |unfold by_number; lia].
  unfold pull_requests_after, snapshots_where. eapply NoDup_Permutation_proper; [apply fmap_Permutation, merge_sort_Permutation|]. apply (omap_keys (fun n _ => pr <? n)).
Qed.
Lemma pull_requests_elem pr x : x ∈ pull_requests_after pr <-> pull_request_snapshot db !! (repositoryId, x.1) = Some x.2 ∧ pr < x.1.
Proof. destruct x as [n sn]. unfold pull_requests_after. rewrite snapshots_where_elem. cbn [fst snd]. by rewrite Z.ltb_lt. Qed.
Definition sha_lt (a b : jstr) : Prop := text_lt a b = true.
Lemma sha_lt_irr a : ~ sha_lt a a.
Proof. unfold sha_lt, text_lt. by rewrite (proj2 (text_compare_eq a a)). Qed.
Lemma sha_lt_trans a b c : sha_lt a b -> sha_lt b c -> sha_lt a c.
Proof. unfold sha_lt, text_lt. destruct (text_compare a b) eqn:E1, (text_compare b c) eqn:E2; try done. by rewrite (text_compare_trans a b c). Qed.
#[local] Instance by_sha_total : Total by_sha.
Proof. intros a b. unfold by_sha. apply text_le_total. Qed.
#[local] Instance by_sha_trans : Transitive by_sha.
Proof. intros a b c. unfold by_sha. by transitivity b.1. Qed.
Lemma commits_strict sha : StronglySorted (before sha_lt) (commits_after sha).
Proof.
  eapply strict_of_sorted; [apply (StronglySorted_merge_sort by_sha)| |].
  - eapply NoDup_Permutation_proper; [apply fmap_Permutation, merge_sort_Permutation|]. apply (omap_keys (fun s _ => text_lt sha s)).
  - intros a b. unfold by_sha, text_le, sha_lt, text_lt. destruct (text_compare a.1 b.1) eqn:E; try done. by apply text_compare_eq in E.
Qed.
Lemma commits_elem sha x : x ∈ commits_after sha <-> commit_snapshot db !! (repositoryId, x.1) = Some x.2 ∧ sha_lt sha x.1.
Proof.
  unfold commits_after. rewrite merge_sort_Permutation, list_elem_of_omap. destruct x as [s row]. cbn [fst snd]. unfold sha_lt. split.
  - intros ([[r s'] row'] & Hin%elem_of_map_to_list & E). cbn [fst snd] in E. destruct ((r =? repositoryId) && text_lt sha s') eqn:Eb; [|done].
    injection E as -> ->. apply andb_prop in Eb as [->%Z.eqb_eq ?]. done.
  - intros [Hin Hlt]. exists (repositoryId, s, row). split; [by apply elem_of_map_to_list|]. cbn [fst snd]. by rewrite Z.eqb_refl, Hlt.
Qed.
(** The sources of a repository are its stored pull requests and commits, each once. *)
Lemma sources_elem x : x ∈ sources_of <->
  match x with
  | pull_request_source n => 0 < n ∧ is_Some (pull_request_snapshot db !! (repositoryId, n))
  | commit_source sha => sha <> [] ∧ is_Some (commit_snapshot db !! (repositoryId, sha))
  end.
Proof.
  unfold sources_of. rewrite elem_of_app, !list_elem_of_fmap. destruct x as [n|sha]; split.
  - intros [([n' sn] & [= ->] & [E ?]%pull_requests_elem)|(? & [=] & _)]. cbn [fst snd] in *. split; [done|by exists sn].
  - intros [Hn [sn E]]. left. exists (n, sn). split; [done|]. by apply pull_requests_elem.
  - intros [(? & [=] & _)|([s row] & [= ->] & [E Hlt]%commits_elem)]. cbn [fst snd] in *. split; [|by exists row].
    intros ->. by apply sha_lt_irr in Hlt.
  - intros [Hne [row E]]. right. exists (sha, row). split; [done|]. apply commits_elem. split; [done|]. by destruct sha.
Qed.
End rows.

Lemma strict_nodup {K V} (lt : K -> K -> Prop) (l : list (K * V)) : (forall a, ~ lt a a) -> StronglySorted (before lt) l -> NoDup l.*1.
Proof.
  intros Hirr. induction 1 as [|x l Hl IH Hx]; [constructor|]. rewrite fmap_cons. apply NoDup_cons. split; [|done].
  intros (y & E & Hy)%list_elem_of_fmap. rewrite Forall_forall in Hx. apply (Hirr x.1). rewrite E at 2. by apply Hx.
Qed.
Lemma sources_distinct repositoryId db : NoDup (sources_of repositoryId db).
Proof.
  unfold sources_of. apply list.NoDup_app. split_and!.
  - rewrite <- (map_map fst pull_request_source). apply NoDup_fmap_2; [by intros ?? [=]|]. apply (strict_nodup Z.lt); [apply Z.lt_irrefl|apply pull_requests_strict].
  - by intros x (? & -> & _)%list_elem_of_fmap (? & [=] & _)%list_elem_of_fmap.
  - rewrite <- (map_map fst commit_source). apply NoDup_fmap_2; [by intros ?? [=]|]. apply (strict_nodup sha_lt); [apply sha_lt_irr|apply commits_strict].
Qed.

(** ** The batches *)

Section batches.
Context {W E : Type} (track : LinkSource -> W -> W * result E bool) (repositoryId : Z) (db : LinkTables) (batch : nat) (Hbatch : (0 < batch)%nat).

(** One pass over a list of sources, with the answer of [rebuildRepository]. *)
Definition one_pass (xs : list LinkSource) (w : W) : W * option (result E (Z * list LinkSource)) :=
  match track_all track xs w with
  | (w, Ok incomplete) => (w, Some (Ok (Z.of_nat (length xs), incomplete)))
  | (w, Err e) => (w, Some (Err e))
  end.
Definition then_pass (n : Z) (found : list LinkSource) (r : W * option (result E (Z * list LinkSource))) : W * option (result E (Z * list LinkSource)) :=
  match r with
  | (w, Some (Ok (m, incomplete))) => (w, Some (Ok (n + m, found ++ incomplete)))
  | r => r
  end.
Lemma track_all_app xs ys w :
  track_all track (xs ++ ys) w =
  match track_all track xs w with
  | (w, Ok a) => match track_all track ys w with (w, Ok b) => (w, Ok (a ++ b)) | (w, Err e) => (w, Err e) end
  | (w, Err e) => (w, Err e)
  end.
Proof.
  revert w. induction xs as [|x xs IH]; intros w; cbn [app track_all].
  - by destruct (track_all track ys w) as [w' []].
  - destruct (track x w) as [w1 [b|e]]; [|done]. rewrite IH. destruct (track_all track xs w1) as [w2 [a|e]]; [|done].
    destruct (track_all track ys w2) as [w3 [c|e]]; [|done]. by destruct b.
Qed.
Lemma one_pass_app xs ys w :
  one_pass (xs ++ ys) w =
  match track_all track xs w with
  | (w, Ok a) => then_pass (Z.of_nat (length xs)) a (one_pass ys w)
  | (w, Err e) => (w, Some (Err e))
  end.
Proof.
  unfold one_pass. rewrite track_all_app. destruct (track_all track xs w) as [w1 [a|e]]; [|done].
  destruct (track_all track ys w1) as [w2 [b|e]]; [|done]. cbn [then_pass]. by rewrite length_app, Nat2Z.inj_add.
Qed.
Lemma page_parts {A} (l : list A) : ((length (take batch l) <? batch)%nat = true ∧ take batch l = l) \/
  ((length (take batch l) <? batch)%nat = false ∧ (∃ x, last (take batch l) = Some x) ∧ (length (drop batch l) < length l)%nat).
Proof.
  destruct (Nat.ltb_spec (length (take batch l)) batch) as [Hlt|Hge]; [left|right].
  - split; [done|]. apply take_ge. rewrite length_take in Hlt. lia.
  - rewrite length_take in Hge. split_and!; [done| |rewrite length_drop; lia].
    destruct (last (take batch l)) as [x|] eqn:El; [by exists x|]. apply last_None in El. apply (f_equal length) in El. rewrite length_take in El. cbn in El. lia.
Qed.
Lemma take_map_drop {A B} (f : A -> B) (l : list A) : map f (take batch l) ++ map f (drop batch l) = map f l.
Proof. by rewrite <- map_app, take_drop. Qed.
Lemma commit_batches fuel pr sha w :
  (length (commits_after repositoryId db sha) < fuel)%nat ->
  rebuild_loop track fuel repositoryId (mkRebuildCursor ph_commit pr sha) batch db w = one_pass (map (fun row => commit_source row.1) (commits_after repositoryId db sha)) w.
Proof.
  revert sha w. induction fuel as [|fuel IH]; intros sha w Hf; [lia|]. cbn [rebuild_loop]. unfold runReferenceRebuild. cbn [rc_phase rc_sha rc_pr].
  change (listCommitSnapshotsAfter repositoryId sha batch db) with (take batch (commits_after repositoryId db sha)).
  destruct (page_parts (commits_after repositoryId db sha)) as [[Hlt Ht]|(Hge & (row & Hlast) & Hlen)].
  - rewrite Hlt, Ht. unfold one_pass. destruct (track_all track _ w) as [w1 [a|e]]; [|done]. cbn [rb_done rb_processed rb_incomplete]. by rewrite length_map.
  - rewrite Hge, Hlast. rewrite <- (take_map_drop (fun row => commit_source row.1) (commits_after repositoryId db sha)), one_pass_app.
    destruct (track_all track _ w) as [w1 [a|e]]; [|done]. cbn [rb_done rb_processed rb_incomplete rb_cursor]. rewrite length_map.
    pose proof (next_rows sha_lt sha_lt_irr sha_lt_trans (commits_after repositoryId db) _ (commits_strict repositoryId db) (commits_elem repositoryId db) sha batch row Hlast) as Hnext.
    rewrite IH, Hnext by (rewrite Hnext; lia). unfold then_pass. by destruct (one_pass _ w1) as [w2 [[[m b]|e]|]].
Qed.
Lemma pull_request_batches fuel pr sha w :
  (length (pull_requests_after repositoryId db pr) + length (commits_after repositoryId db []) + 1 < fuel)%nat ->
  rebuild_loop track fuel repositoryId (mkRebuildCursor ph_pull_request pr sha) batch db w =
  one_pass (map (fun row => pull_request_source row.1) (pull_requests_after repositoryId db pr) ++ map (fun row => commit_source row.1) (commits_after repositoryId db [])) w.
Proof.
  revert pr w. induction fuel as [|fuel IH]; intros pr w Hf; [lia|]. cbn [rebuild_loop]. unfold runReferenceRebuild. cbn [rc_phase rc_sha rc_pr].
  change (listSnapshotsAfter repositoryId pr batch (pull_request_snapshot db)) with (take batch (pull_requests_after repositoryId db pr)).
  destruct (page_parts (pull_requests_after repositoryId db pr)) as [[Hlt Ht]|(Hge & (row & Hlast) & Hlen)].
  - rewrite Hlt, Ht, one_pass_app. destruct (track_all track _ w) as [w1 [a|e]]; [|done]. cbn [rb_done rb_processed rb_incomplete rb_cursor].
    rewrite commit_batches by lia. rewrite length_map. unfold then_pass. by destruct (one_pass _ w1) as [w2 [[[m b]|e]|]].
  - rewrite Hge, Hlast. rewrite <- (take_map_drop (fun row => pull_request_source row.1) (pull_requests_after repositoryId db pr)), <- app_assoc, one_pass_app.
    destruct (track_all track _ w) as [w1 [a|e]]; [|done]. cbn [rb_done rb_processed rb_incomplete rb_cursor]. rewrite length_map.
    pose proof (next_rows Z.lt Z.lt_irrefl Z.lt_trans (pull_requests_after repositoryId db) _ (pull_requests_strict repositoryId db) (pull_requests_elem repositoryId db) pr batch row Hlast) as Hnext.
    rewrite IH, Hnext by (rewrite Hnext; lia). unfold then_pass. by destruct (one_pass _ w1) as [w2 [[[m b]|e]|]].
Qed.
End batches.

(** [C27] Deriving a repository again in batches ends, and is one pass over all its stored pull requests
    and commits, each once: whatever the size of a batch, the same sources are handled in the same
    order, the same incomplete ones are returned, and the first failure ends it. *)
Theorem rebuild_one_pass {W E : Type} (track : LinkSource -> W -> W * result E bool) repositoryId db batch fuel w :
  (0 < batch)%nat -> (length (sources_of repositoryId db) + 1 < fuel)%nat ->
  rebuild_loop track fuel repositoryId START batch db w = one_pass track (sources_of repositoryId db) w ∧
  NoDup (sources_of repositoryId db) ∧
  forall x, x ∈ sources_of repositoryId db <->
    match x with
    | pull_request_source n => 0 < n ∧ is_Some (pull_request_snapshot db !! (repositoryId, n))
    | commit_source sha => sha <> [] ∧ is_Some (commit_snapshot db !! (repositoryId, sha))
    end.
Proof.
  intros Hb Hf. split_and!; [|apply sources_distinct|apply sources_elem].
  apply pull_request_batches; [done|]. unfold sources_of in Hf. rewrite length_app, !length_map in Hf. lia.
Qed.
Lemma rebuild_one_pass_witness :
  let track := fun (x : LinkSource) (w : list LinkSource) => (w ++ [x], Ok (bool_decide (x = pull_request_source 2)) : result unit bool) in
  rebuild_loop track 6 7 START 1 sample_db [] =
    ([pull_request_source 1; pull_request_source 2], Some (Ok (2, [pull_request_source 2]))) ∧
  NoDup (sources_of 7 sample_db) ∧
  forall x, x ∈ sources_of 7 sample_db <->
    match x with
    | pull_request_source n => 0 < n ∧ is_Some (pull_request_snapshot sample_db !! (7, n))
    | commit_source sha => sha <> [] ∧ is_Some (commit_snapshot sample_db !! (7, sha))
    end.
Proof.
  intros track. assert (sources_of 7 sample_db = [pull_request_source 1; pull_request_source 2]) as Hs by (vm_compute; reflexivity).
  destruct (rebuild_one_pass track 7 sample_db 1 6 []) as (-> & Hn & He); [lia|rewrite Hs; cbn; lia|].
  split; [rewrite Hs; vm_compute; reflexivity|]. split; [exact Hn|exact He].
Defined.
