(* ===== verification/ReferenceSystem.v ===== *)
(** * Links and the documents they point to

    The worker of [apps/pipeline-worker/src/link.ts] among the other writers of the index: documents
    are projected, events are handled one at a time, some fail or are cut off, and every link that
    the index serves says whether its target is indexed.  An event counts as announced when its
    handler has succeeded on an indexed document.

    A handler begins when a search finds everything that was written before it ([caught_up]).  The
    code does not make sure of that, and [unrefreshed_target_missed] shows what happens otherwise. *)

From stdpp Require Import base option strings numbers gmap relations sorting list.
From Stdlib Require Import ZArith Lia.
From S2P Require Import Prelude JsString SequenceSpace Json Partition InMemoryBus QueryBuilder EsSort SearchCursor EsDocument EsProjection Reindex Documents Reference LinkIndex ReferenceLinks.
Open Scope Z_scope.

(** ** What a link should say *)

Section right.
Context {S : Type} `{LinkServer S}.

Definition indexed (s : S) (k : LinkEndpointKind) (r : Z) (id : jstr) : Prop := is_Some (live s (alias_of k) (js_of_Z r, id)).
(** The documents that a key of a text may mean, in the repository it names. *)
Definition points (s : S) (r : Z) (t : ReferenceTarget) (y : ReferenceResolution) : Prop :=
  indexed s (to_type y) (to_repository_id y) (to_id y) ∧
  match t with
  | t_pull_request _ n => y = mkResolution ep_pull_request (pullRequestDocId r n) r
  | t_commit _ sha => y = mkResolution ep_commit (commitDocId r sha) r
  | t_commit_prefix _ p => ∃ sha, is_sha sha ∧ starts_with p sha = true ∧ y = mkResolution ep_commit (commitDocId r sha) r
  end.
Definition judged (db : LinkTables) (s : S) (l : ReferenceLinkDoc) (y : ReferenceResolution) : Prop :=
  ∃ t r, parseReferenceKey (LinkIndex.reference_key l) = Some t ∧ targetRepositoryId (sc_repository_id (scope l)) t db = Some r ∧ points s r t y.
(** A link is right when it is resolved to the only document its key can mean, and unresolved when
    there is none or more than one. *)
Definition right_link (db : LinkTables) (s : S) (l : ReferenceLinkDoc) : Prop :=
  forall y, resolution l = Some y <-> judged db s l y ∧ forall z, judged db s l z -> z = y.
Definition safe_link (db : LinkTables) (s : S) (l : ReferenceLinkDoc) : Prop := forall y, resolution l = Some y -> judged db s l y.

(** Documents of pull requests and commits, as the projection writes them. *)
Definition document_ok (k : LinkEndpointKind) (key : DocKey) (d : Source) : Prop :=
  match k with
  | ep_pull_request => ∃ r n, 0 <= n ∧ pr_document (key, d) r n
  | ep_commit => ∃ r sha, is_sha sha ∧ commit_document (key, d) r sha
  end.
(** What identifies a document. *)
Definition ident (d : Source) : json * json * json := (field d REPOSITORY_ID, field d PR_NUMBER, field d COMMIT_SHA).
Lemma ident_document k key d d' : ident d = ident d' -> document_ok k key d -> document_ok k key d'.
Proof.
  unfold ident. intros [= E1 E2 E3]. destruct k; cbn [document_ok].
  - intros (r & n & Hn & Hk & E). exists r, n. split; [done|]. split; [done|]. revert E. unfold pr_of, number_field. cbn [snd]. by rewrite E1, E2.
  - intros (r & sha & Hs & Hk & E). exists r, sha. split; [done|]. split; [done|]. revert E. unfold commit_of, number_field, text_field. cbn [snd]. by rewrite E1, E3.
Qed.
Definition caught_up (s : S) : Prop := forall a, a ∈ SERVED -> refreshed s (es_index s a).
End right.

(** The registry: lower-case names, each of one repository. *)
Record registry_ok (db : LinkTables) : Prop := {
  ro_id id r : registry db !! id = Some r -> Documents.repository_id r = id;
  ro_names id r : registry db !! id = Some r -> low_segment (Documents.owner r) = true ∧ low_segment (Documents.name r) = true;
  ro_lower id r : registry db !! id = Some r -> ascii_lower (Documents.owner r) = Documents.owner r ∧ ascii_lower (Documents.name r) = Documents.name r;
  ro_unique id r id' r' : registry db !! id = Some r -> registry db !! id' = Some r' ->
    Documents.owner r = Documents.owner r' -> Documents.name r = Documents.name r' -> id = id'
}.
Lemma by_slug db o n r : registry_ok db ->
  findRepositoryBySlug o n db = Some r <-> registry db !! Documents.repository_id r = Some r ∧ Documents.owner r = o ∧ Documents.name r = n.
Proof.
  intros Hok. unfold findRepositoryBySlug. split.
  - intros ([id r'] & E & ->)%fmap_Some. apply List.find_some in E as [Hin Hb]. apply list_elem_of_In, elem_of_map_to_list in Hin. cbn [fst snd] in *.
    apply andb_prop in Hb as [Eo%jeqb_eq En%jeqb_eq]. by rewrite (ro_id _ Hok _ _ Hin).
  - intros (Hr & Eo & En). destruct (List.find _ _) as [[id r']|] eqn:E.
    + apply List.find_some in E as [Hin Hb]. apply list_elem_of_In, elem_of_map_to_list in Hin. cbn [fst snd] in *.
      apply andb_prop in Hb as [Eo'%jeqb_eq En'%jeqb_eq]. cbn. f_equal. rewrite <- Eo in Eo'. rewrite <- En in En'.
      pose proof (ro_unique _ Hok _ _ _ _ Hin Hr Eo' En') as ->. congruence.
    + exfalso. pose proof (List.find_none _ _ E (Documents.repository_id r, r)) as Hb. cbn [snd] in Hb.
      rewrite Eo, En, !(proj2 (jeqb_eq _ _)) in Hb by done. assert (true = false); [|done]. apply Hb, list_elem_of_In. by apply elem_of_map_to_list.
Qed.

(** ** While a handler runs *)

Section handler.
Context (sha256 : jstr -> jstr) (extract : jstr -> RepoSlug -> result jstr (list ExtractedReference)) (String_of : EsError -> jstr).
Context {S : Type} `{LinkServer S}.
Context (Hlaws : LinkLaws S) (Hsha : forall a b, sha256 a = sha256 b -> a = b).
Context (Hextract : forall text slug l, extract text slug = Ok l -> ∃ url host, l = extractReferences url (Some text) slug host REFERENCE_LIMIT).

(** What holds while a handler that began in [s0] runs; [ann] are the announced documents. *)
Record during (db : LinkTables) (ann : ReferenceResolution -> Prop) (s0 s : S) : Prop := {
  du_index n : es_index s n = es_index s0 n;
  du_docs k key : ident <$> live s (alias_of k) key = ident <$> live s0 (alias_of k) key;
  du_seen k key : ident <$> found s (alias_of k) !! key = ident <$> live s0 (alias_of k) key;
  du_links key d : live s LINKS_ALIAS key = Some d -> stored_ok sha256 key d;
  du_found key d : found s LINKS_ALIAS !! key = Some d -> stored_ok sha256 key d;
  du_safe key l : live s LINKS_ALIAS key = Some (referenceLinkSource l) -> safe_link db s0 l;
  (** A link that is not right is found by a search as it is. *)
  du_fresh key l : live s LINKS_ALIAS key = Some (referenceLinkSource l) -> right_link db s0 l \/ found s LINKS_ALIAS !! key = Some (referenceLinkSource l);
  du_ann key l : live s LINKS_ALIAS key = Some (referenceLinkSource l) -> (forall y, judged db s0 l y -> ann y) -> right_link db s0 l
}.
(** What every request of a handler does: the links that it writes are right. *)
Record gentle (db : LinkTables) (s0 s s' : S) : Prop := {
  ge_index n : es_index s' n = es_index s n;
  ge_links key : live s' LINKS_ALIAS key = live s LINKS_ALIAS key \/ live s' LINKS_ALIAS key = None \/
    ∃ l, live s' LINKS_ALIAS key = Some (referenceLinkSource l) ∧ link_ok sha256 key l ∧ right_link db s0 l;
  ge_docs k key : ident <$> live s' (alias_of k) key = ident <$> live s (alias_of k) key;
  ge_sees : sees s s'
}.
Lemma judged_same db (s : S) l l' y : same_link l l' -> judged db s l y <-> judged db s l' y.
Proof. intros [_ E1 E2 _ _ _]. unfold judged. by rewrite E1, E2. Qed.
Lemma right_same db (s : S) l l' : same_link l l' -> right_link db s l -> right_link db s l'.
Proof.
  intros Hs Hr y. rewrite <- (sl_resolution _ _ Hs), (Hr y). setoid_rewrite (judged_same db s l l' _ Hs). done.
Qed.
Lemma right_safe db (s : S) l : right_link db s l -> safe_link db s l.
Proof. intros Hr y Hy. by apply Hr in Hy as [? _]. Qed.
Lemma found_after (s s' : S) name key : (forall n, es_index s' n = es_index s n) -> sees s s' ->
  found s' name !! key = found s name !! key \/ found s' name !! key = live s name key \/ found s' name !! key = live s' name key.
Proof. intros Hn Hs. unfold found, live, doc_named. rewrite !Hn. apply Hs. Qed.
Lemma during_gentle db ann (s0 s s' : S) : during db ann s0 s -> gentle db s0 s s' -> during db ann s0 s'.
Proof.
  intros Hd Hg. pose proof (ge_index _ _ _ _ Hg) as Hn.
  assert (forall key d, live s' LINKS_ALIAS key = Some d -> stored_ok sha256 key d) as Hlinks.
  { intros key d E. destruct (ge_links _ _ _ _ Hg key) as [El|[El|(l & El & Hl & _)]]; rewrite El in E; [by eapply du_links|done|].
    injection E as <-. left. by exists l. }
  assert (forall key l, live s' LINKS_ALIAS key = Some (referenceLinkSource l) -> live s LINKS_ALIAS key = Some (referenceLinkSource l) \/ right_link db s0 l) as Hcases.
  { intros key l E. destruct (ge_links _ _ _ _ Hg key) as [El|[El|(l' & El & _ & Hr)]]; rewrite El in E; [by left|done|right].
    injection E as E. apply source_inj in E. by eapply right_same. }
  split.
  - intros n. by rewrite Hn, (du_index _ _ _ _ Hd).
  - intros k key. by rewrite (ge_docs _ _ _ _ Hg), (du_docs _ _ _ _ Hd).
  - intros k key. destruct (found_after s s' (alias_of k) key Hn (ge_sees _ _ _ _ Hg)) as [->|[->| ->]];
      [apply (du_seen _ _ _ _ Hd)|apply (du_docs _ _ _ _ Hd)|by rewrite (ge_docs _ _ _ _ Hg), (du_docs _ _ _ _ Hd)].
  - exact Hlinks.
  - intros key d E. destruct (found_after s s' LINKS_ALIAS key Hn (ge_sees _ _ _ _ Hg)) as [El|[El|El]]; rewrite El in E;
      [by eapply du_found|by eapply du_links|by apply Hlinks].
  - intros key l E. destruct (Hcases key l E) as [E'|Hr]; [by eapply du_safe|by apply right_safe].
  - intros key l E. destruct (Hcases key l E) as [E'|Hr]; [|by left]. destruct (du_fresh _ _ _ _ Hd key l E') as [|Hf]; [by left|right].
    destruct (found_after s s' LINKS_ALIAS key Hn (ge_sees _ _ _ _ Hg)) as [->|[->| ->]]; done.
  - intros key l E Ha. destruct (Hcases key l E) as [E'|Hr]; [by eapply du_ann|done].
Qed.

(** *** The requests *)

Lemma ident_update (s s' : S) c r k key :
  updates c s s' r -> (spot s c = (es_index s (alias_of k), key) -> forall d d', uc_script c d = s_write d' -> ident d' = ident d) ->
  uc_upsert c = None \/ (spot s c).1 <> es_index s (alias_of k) ->
  ident <$> live s' (alias_of k) key = ident <$> live s (alias_of k) key.
Proof.
  intros Hu Hs Hup. destruct (decide (spot s c = (es_index s (alias_of k), key))) as [E|Hne].
  - destruct Hup as [Hup|Hne]; [|by rewrite E in Hne]. pose proof (up_reply _ _ _ _ Hu) as Hr. specialize (Hs E). injection E as En Ek.
    unfold live. assert (doc_named s' (uc_name c) (uc_key c) = doc_named s' (alias_of k) key ∧ doc_named s (uc_name c) (uc_key c) = doc_named s (alias_of k) key) as [D' D].
    { unfold doc_named. by rewrite Ek, !(up_index _ _ _ _ Hu), En. }
    rewrite D, D' in Hr. assert (doc_named s' (alias_of k) key = doc_named s (alias_of k) key \/ doc_named s' (alias_of k) key = carried_out c (doc_named s (alias_of k) key)) as [->|E]; [|done|].
    { destruct (is_error r) eqn:Ee; [|right; by eapply carried_of_reply]. destruct r; try done. cbn [replied] in Hr.
      destruct (document_missing e); [left; by destruct Hr as (-> & _ & ->)|done]. }
    rewrite E. destruct (doc_named s (alias_of k) key) as [d|]; cbn [carried_out]; [|by rewrite Hup].
    destruct (uc_script c d) as [d'| |] eqn:Ed; [|done..]. cbn. by rewrite (Hs d d').
  - unfold live, doc_named. rewrite (up_index _ _ _ _ Hu). f_equal. apply (up_other _ _ _ _ Hu). intros E. by apply Hne.
Qed.
(** The items of a bulk request whose operations make right links. *)
Definition good_op (db : LinkTables) (s0 : S) (o : LinkBulkOp) : Prop :=
  forall v, (forall d, v = Some d -> stored_ok sha256 (link_key o) d) ->
    carried_out (call_of LINKS_ALIAS o) v = None \/
    ∃ l, carried_out (call_of LINKS_ALIAS o) v = Some (referenceLinkSource l) ∧ link_ok sha256 (link_key o) l ∧ right_link db s0 l.
Lemma gentle_item db ann (s0 s s' : S) t ops c r :
  indices_ok t s0 -> during db ann s0 s -> (forall o, o ∈ ops -> good_op db s0 o) -> c ∈ calls_of t ops -> updates c s s' r -> sees s s' -> gentle db s0 s s'.
Proof.
  intros Hi Hd Hops Hc Hu Hs. pose proof (indices_same t s0 s (du_index _ _ _ _ Hd) Hi) as His. split; [apply (up_index _ _ _ _ Hu)| | |done].
  - intros key. destruct (bulk_step t ops s s' c r key Hc Hu) as [|(o & Ho & Hk & E)]; [by left|right].
    rewrite E, <- Hk. apply (Hops o Ho). intros d Ed. by eapply du_links.
  - intros k key. assert ((spot s c).1 <> es_index s (alias_of k)) as Hne.
    { destruct (bulk_spots t ops s c (indices_apart t s His) Hc) as [(o & _ & E)|Hne].
      - rewrite E. intros E'. by apply (io_distinct _ _ His k).
      - unfold calls_of in Hc. destruct (shadowIndexOf t LINKS_ALIAS) as [i|] eqn:Ei.
        + apply elem_of_app in Hc as [(o & -> & _)%list_elem_of_fmap|(o & -> & _)%list_elem_of_fmap]; rewrite call_spot in *; [done|].
          apply (io_apart _ _ His _ _ _ Ei). destruct k; [by right; left|by right; right; left].
        + rewrite app_nil_r in Hc. apply list_elem_of_fmap in Hc as (o & -> & _). by rewrite call_spot in Hne. }
    apply (ident_update s s' c r); [done| |by right]. intros E. by rewrite E in Hne.
Qed.
Lemma during_bulk db ann (s0 s : S) t ops :
  indices_ok t s0 -> during db ann s0 s -> (forall o, o ∈ ops -> good_op db s0 o) -> during db ann s0 (sendLinkBulk ops t s).1.
Proof.
  intros Hi Hd Hops. destruct (send_items Hlaws ops t s) as (rs & [Hit| ->] & _); [|done]. revert Hd.
  apply (items_ind (during db ann s0) _ _ _ _ Hit). intros c s1 s2 r Hc Hu Hs Hd1. eapply during_gentle; [done|]. by eapply gentle_item.
Qed.

Lemma gentle_refl db s0 s : gentle db s0 s s.
Proof. split; [done|by left|done|by left]. Qed.
(** The update of a summary leaves what identifies a document. *)
Lemma ident_insert k v d : mem k [REPOSITORY_ID; PR_NUMBER; COMMIT_SHA] = false -> ident (<[k := v]> d) = ident d.
Proof. intros Hk%mem_false. unfold ident, field. rewrite !not_elem_of_cons in Hk. rewrite !lookup_insert_ne; naive_solver. Qed.
Lemma summary_ident u d d' : LINK_SUMMARY_SCRIPT u d = s_write d' -> ident d' = ident d.
Proof.
  assert (forall m d2, ident (<[LINK_SUMMARY := JObj m]> d2) = ident d2) as Hm by (intros; by apply ident_insert).
  assert (forall b, ident (<[LINKS_PENDING := JBool b]> d) = ident d) as Hp by (intros; by apply ident_insert).
  unfold LINK_SUMMARY_SCRIPT. intros Hs. destruct (field d LINK_SUMMARY); try discriminate; cbv zeta in Hs;
    (destruct (match su_referenceCount u with Some _ => _ | None => _ end) as [st|]; [|discriminate]);
    (destruct (match su_relations u with Some _ => _ | None => _ end) as [m [|]]);
    (destruct (su_linksPending u) as [b|]; [case_bool_decide|]); try discriminate; injection Hs as <-; by rewrite Hm, ?Hp.
Qed.
Lemma gentle_summary db ann (s0 s : S) t u name :
  indices_ok t s0 -> during db ann s0 s -> es_index s0 name <> es_index s0 LINKS_ALIAS -> gentle db s0 s (sendSummary u name s).1.
Proof.
  intros Hi Hd Hn. rewrite sendSummary_update. set (c := mkUpdate _ _ _ _).
  pose proof (law_update (DocLaws := ll_docs) c s) as Hu. split; [apply (up_index _ _ _ _ Hu)| | |apply law_update_sees].
  - intros key. left. apply untouched_live, (update_untouched Hlaws). cbn [c uc_name]. by rewrite !(du_index _ _ _ _ Hd).
  - intros k key. apply (ident_update s _ c _ k key Hu); [|by left]. intros _ d d'. apply summary_ident.
Qed.
Lemma gentle_refresh db (s0 s : S) name : gentle db s0 s (es_refresh name s).1.
Proof.
  pose proof (law_refresh (LinkLaws := Hlaws) name s) as Hr. destruct (es_refresh name s) as [s1 r]. destruct Hr as (Hn & Hd & Hs & _).
  split; [done| | |done]; [intros key; left|intros k key; f_equal]; unfold live, doc_named; by rewrite Hn, Hd.
Qed.
Lemma gentle_delete db ann (s0 s : S) name rt f keep :
  during db ann s0 s -> (forall k, es_index s0 name <> es_index s0 (alias_of k)) ->
  es_index s0 name <> es_index s0 LINKS_ALIAS \/ name = LINKS_ALIAS -> gentle db s0 s (es_delete name rt f keep s).1.
Proof.
  intros Hd Hk Hl. pose proof (law_delete (LinkLaws := Hlaws) name rt f keep s) as Hr. destruct (es_delete name rt f keep s) as [s1 r].
  destruct Hr as [Hr Hs]. cbn [fst]. pose proof (dl_index _ _ _ _ _ _ _ Hr) as Hn. split; [done| | |done].
  - intros key. destruct Hl as [Hl| ->].
    + left. unfold live, doc_named. rewrite Hn. apply (dl_other _ _ _ _ _ _ _ Hr). by rewrite !(du_index _ _ _ _ Hd).
    + destruct (dl_only _ _ _ _ _ _ _ Hr key) as [|(? & _)]; [by left|by right; left].
  - intros k key. f_equal. unfold live, doc_named. rewrite Hn. apply (dl_other _ _ _ _ _ _ _ Hr). by rewrite !(du_index _ _ _ _ Hd).
Qed.
Lemma during_summary db ann (s0 s : S) t u :
  indices_ok t s0 -> during db ann s0 s -> during db ann s0 (updateLinkSummary String_of u t s).1.
Proof.
  intros Hi Hd. destruct (updateLinkSummary String_of u t s) as [s' [r fs]] eqn:E. apply dualWrite_cases in E as (s1 & E1 & Hs). cbn [fst].
  assert (during db ann s0 s1) as H1.
  { change s1 with (fst (s1, r)). rewrite <- E1. eapply during_gentle; [done|]. eapply gentle_summary; [done..|]. apply (io_distinct _ _ Hi). }
  destruct Hs as [->|(i & _ & Hsh & ->)]; [done|]. eapply during_gentle; [done|]. eapply gentle_summary; [done..|].
  apply (io_apart _ _ Hi _ _ _ Hsh). by left.
Qed.
Lemma during_remove db ann (s0 s : S) r f keep name :
  during db ann s0 s -> (forall k, es_index s0 name <> es_index s0 (alias_of k)) ->
  es_index s0 name <> es_index s0 LINKS_ALIAS \/ name = LINKS_ALIAS -> during db ann s0 (refresh_and_delete r f keep name s).1.
Proof.
  intros Hd Hk Hl. unfold refresh_and_delete. pose proof (during_gentle _ _ _ _ _ Hd (gentle_refresh db s0 s name)) as H1.
  destruct (es_refresh name s) as [s1 [u|e]]; [|done]. cbn [fst] in *. eapply during_gentle; [done|]. by eapply gentle_delete.
Qed.
Lemma during_stale db ann (s0 s : S) t r x keep :
  indices_ok t s0 -> during db ann s0 s -> during db ann s0 (deleteStaleReferenceLinks r (kind x) (docIdOf r x) keep String_of t s).1.
Proof.
  intros Hi Hd. destruct (deleteStaleReferenceLinks r (kind x) (docIdOf r x) keep String_of t s) as [s' [res fs]] eqn:E.
  apply dualWrite_cases in E as (s1 & E1 & Hs). cbn [fst].
  assert (during db ann s0 s1) as H1.
  { change s1 with (fst (s1, res)). rewrite <- E1. apply during_remove; [done| |by right]. intros k E. by apply (io_distinct _ _ Hi k). }
  destruct Hs as [->|(i & _ & Hsh & ->)]; [done|]. apply during_remove; [done| |left; apply (io_apart _ _ Hi _ _ _ Hsh); by left].
  intros k. apply (io_apart _ _ Hi _ _ _ Hsh). destruct k; [by right; left|by right; right; left].
Qed.

(** *** Targets *)

Definition docs_ok (s : S) : Prop := forall k key d, live s (alias_of k) key = Some d -> document_ok k key d.
Lemma found_document db ann (s0 s : S) k key d :
  during db ann s0 s -> docs_ok s0 -> found s (alias_of k) !! key = Some d -> document_ok k key d ∧ ∃ d0, live s0 (alias_of k) key = Some d0 ∧ ident d = ident d0.
Proof.
  intros Hd Hok E. pose proof (du_seen _ _ _ _ Hd k key) as Hs. rewrite E in Hs. destruct (live s0 (alias_of k) key) as [d0|] eqn:E0; [|done].
  apply (inj Some) in Hs. split; [by apply (ident_document k key d0 d), (Hok k)|by exists d0].
Qed.
Lemma found_indexed db ann (s0 s : S) k r id : during db ann s0 s -> is_Some (found s (alias_of k) !! (js_of_Z r, id)) <-> indexed s0 k r id.
Proof. intros Hd. unfold indexed. rewrite <- !(fmap_is_Some ident). by rewrite (du_seen _ _ _ _ Hd). Qed.
Lemma commit_doc_inj r sha r' sha' : forallb is_hex_lower sha = true -> is_sha sha' -> commitDocId r sha = commitDocId r' sha' -> sha = sha'.
Proof.
  intros Hh [_ Hh'] E. unfold commitDocId in E. rewrite !hex_lower_fix in E by done.
  apply (app_sep_inj 58%N) in E as [_ E]; [done|by apply js_of_Z_no..].
Qed.
Lemma indexed_sha (s : S) r sha : docs_ok s -> indexed s ep_commit r (commitDocId r sha) -> forallb is_hex_lower sha = true -> is_sha sha.
Proof.
  intros Hok [d Hd] Hh. destruct (Hok ep_commit _ d Hd) as (r' & sha' & Hs & [= _ E] & _).
  by rewrite (commit_doc_inj _ _ _ _ Hh Hs E).
Qed.
Lemma commit_found_indexed db ann (s0 s : S) r sha :
  during db ann s0 s -> docs_ok s0 -> commit_found s r sha <-> is_sha sha ∧ indexed s0 ep_commit r (commitDocId r sha).
Proof.
  intros Hd Hok. split.
  - intros (d & E & Et). destruct (found_document _ _ _ _ ep_commit _ d Hd Hok E) as [(r' & sha' & Hs & _ & Ec) _].
    apply commit_of_sha in Ec as [_ Ec]. cbn [snd] in Ec. rewrite Et in Ec. injection Ec as ->. split; [done|].
    apply (found_indexed db ann s0 s ep_commit); [done|by eauto].
  - intros [Hs Hi]. apply (found_indexed db ann s0 s ep_commit) in Hi as [d E]; [|done]. exists d. split; [done|].
    destruct (found_document _ _ _ _ ep_commit _ d Hd Hok E) as [(r' & sha' & Hs' & [= _ Ek] & Ec) _]. apply commit_of_sha in Ec as [_ Ec]. cbn [snd] in Ec.
    destruct Hs as [_ Hh]. by rewrite (commit_doc_inj _ _ _ _ Hh Hs' Ek).
Qed.
Lemma target_hex t : wf_target t -> match t with t_commit _ h | t_commit_prefix _ h => forallb is_hex_lower h = true | _ => True end.
Proof. by destruct t as [r n|r h|r h]; [|intros [_ [_ Hh]%all1_forallb]..]. Qed.
(** A lookup is answered with the only document that its key can mean. *)
Lemma lookup_answer db ann (s0 s : S) k r t y :
  during db ann s0 s -> docs_ok s0 -> wf_target t -> answer s (toLookup k r t) y <-> points s0 r t y ∧ forall z, points s0 r t z -> z = y.
Proof.
  intros Hd Hok Hw. pose proof (target_hex t Hw) as Hh. unfold points. destruct t as [rp n|rp sha|rp p]; cbn [toLookup answer].
  - unfold pr_found. rewrite (found_indexed db ann s0 s ep_pull_request r) by done. split.
    + intros [Hi ->]. split; [done|]. by intros z [_ ->].
    + by intros [[Hi ->] _].
  - rewrite (commit_found_indexed db ann s0 s r sha) by done. split.
    + intros [[_ Hi] ->]. split; [done|]. by intros z [_ ->].
    + intros [[Hi ->] _]. cbn [to_type to_id to_repository_id] in Hi. split_and!; try done; by eapply indexed_sha.
  - split.
    + intros (sha & Hf & Hp & -> & Hu). apply (commit_found_indexed db ann s0 s) in Hf as [Hs Hi]; [|done..]. split.
      * split; [done|]. by exists sha.
      * intros z [Hi' (sha' & Hs' & Hp' & ->)]. cbn [to_type to_id to_repository_id] in Hi'. rewrite (Hu sha'); [done| |done].
        by apply (commit_found_indexed db ann s0 s).
    + intros [[Hi (sha & Hs & Hp & ->)] Hu]. cbn [to_type to_id to_repository_id] in Hi. exists sha. split_and!; [|done..|].
      * by apply (commit_found_indexed db ann s0 s).
      * intros sha' Hf Hp'. apply (commit_found_indexed db ann s0 s) in Hf as [Hs' Hi']; [|done..].
        assert (mkResolution ep_commit (commitDocId r sha') r = mkResolution ep_commit (commitDocId r sha) r) as [= E]; [|done].
        apply Hu. split; [done|]. by exists sha'.
Qed.
Lemma targets_points db ann (s0 s : S) ls m k :
  during db ann s0 s -> docs_ok s0 -> NoDup (map lookup_key ls) -> findReferenceTargets ls s = Ok m ->
  (forall r t y, wf_target t -> toLookup k r t ∈ ls -> m !! k = Some y <-> points s0 r t y ∧ forall z, points s0 r t z -> z = y) ∧
  ((forall l, l ∈ ls -> lookup_key l <> k) -> m !! k = None).
Proof.
  intros Hd Hok Hn Hm.
  assert (forall x, m !! k = Some x <-> ∃ l, l ∈ ls ∧ lookup_key l = k ∧ answer s l x) as Hs.
  { intros x. apply (targets_spec Hlaws s); [| |done..].
    - intros key d E. destruct (found_document db ann s0 s ep_pull_request key d Hd Hok E) as [(r & n & _ & Hp) _]. by exists r, n.
    - intros key d E. destruct (found_document db ann s0 s ep_commit key d Hd Hok E) as [(r & sha & _ & Hp) _]. by exists r, sha. }
  split.
  - intros r t y Hw Hl. rewrite Hs, <- (lookup_answer db ann s0 s k r t y Hd Hok Hw). split.
    + intros (l & Hin & El & Hy). assert (l = toLookup k r t) as <-; [|done].
      apply list_elem_of_lookup in Hl as (i & Hi). apply list_elem_of_lookup in Hin as (j & Hj).
      assert (i = j) as <-; [|congruence]. eapply (NoDup_lookup _ _ _ k Hn); rewrite list_lookup_fmap, ?Hi, ?Hj; cbn; [by destruct t|by rewrite El].
    + intros Hy. exists (toLookup k r t). split_and!; [done|by destruct t|done].
  - intros Hno. destruct (m !! k) as [x|]; [|done]. destruct (proj1 (Hs x) eq_refl) as (l & Hl & El & _). by apply Hno in El.
Qed.

(** *** The derivation *)

Lemma judged_key db (s : S) l t y : wf_target t -> LinkIndex.reference_key l = referenceKey t ->
  judged db s l y <-> ∃ r, targetRepositoryId (sc_repository_id (scope l)) t db = Some r ∧ points s r t y.
Proof.
  intros Hw Hk. unfold judged. rewrite Hk, (key_round_trip t Hw). split; [intros (t' & r & [= <-] & ?); by exists r|intros (r & ?); by exists t, r].
Qed.
Lemma nodup_omap {A B C} (f : A -> option B) (g : B -> C) (h : A -> C) l :
  (forall a b, f a = Some b -> g b = h a) -> NoDup (map h l) -> NoDup (map g (omap f l)).
Proof.
  intros Hf. induction l as [|a l IH]; intros Hn; [constructor|]. cbn [map] in Hn. apply NoDup_cons in Hn as [Hni Hn]. cbn [omap list_omap].
  destruct (f a) as [b|] eqn:E; [|by apply IH]. cbn [map]. apply NoDup_cons. split; [|by apply IH]. rewrite (Hf a b E). intros Hin. apply Hni.
  apply list_elem_of_fmap in Hin as (b' & -> & (a' & Ha' & E')%list_elem_of_omap). rewrite (Hf a' b' E'). by apply list_elem_of_fmap_2.
Qed.
Lemma lookups_nodup r refs db : NoDup (map Reference.reference_key refs) -> NoDup (map lookup_key (lookups_of r refs db)).
Proof.
  apply nodup_omap. intros e l E. destruct (targetRepositoryId r (target e) db); [|done]. injection E as <-. by destruct (target e).
Qed.
Lemma plan_right db ann (s0 s : S) r x docs n :
  during db ann s0 s -> docs_ok s0 -> planReferenceLinks sha256 extract r x db s = Ok (rp_planned docs n) -> forall l, l ∈ docs -> right_link db s0 l.
Proof.
  intros Hd Hok. unfold planReferenceLinks. set (id := Documents.repository_id r). destruct (readSource _ x db) as [canonical|]; [|done].
  destruct (extract (tx_text canonical) (slugOf r)) as [refs|] eqn:Ee; [|done]. destruct (findReferenceTargets _ s) as [m|] eqn:Em; [|done].
  intros [= <- _] l (e & -> & Hin)%list_elem_of_fmap.
  apply Hextract in Ee as (url & host & ->). set (refs := extractReferences _ _ _ _ _) in *.
  destruct (extract_ok url (Some (tx_text canonical)) (slugOf r) host REFERENCE_LIMIT) as (Hrefs & Hn & _). fold refs in Hrefs, Hn. clearbody refs.
  rewrite Forall_forall in Hrefs. destruct (Hrefs e Hin) as (Hk & Hw & _).
  destruct (targets_points db ann s0 s _ m (Reference.reference_key e) Hd Hok (lookups_nodup id refs db Hn) Em) as [Hp Hno].
  intros y. setoid_rewrite (fun y => judged_key db s0 (link_doc sha256 r x (tx_canonicalAt canonical) m e) (target e) y Hw Hk).
  cbn [link_doc resolution scope scope_of sc_repository_id]. fold id. destruct (targetRepositoryId id (target e) db) as [r'|] eqn:Er.
  - rewrite (Hp r' (target e) y Hw); [naive_solver|]. apply list_elem_of_omap. exists e. by rewrite Er.
  - rewrite Hno; [naive_solver|]. intros l' (e' & He' & El)%list_elem_of_omap Ek.
    destruct (targetRepositoryId id (target e') db) as [r2|] eqn:Er2; [|done]. injection El as <-.
    assert (Reference.reference_key e' = Reference.reference_key e) as Eke by (rewrite <- Ek; by destruct (target e')).
    destruct (Hrefs e' He') as (Hk' & Hw' & _). rewrite Hk, Hk' in Eke. pose proof (key_round_trip _ Hw') as Hr. rewrite Eke, key_round_trip in Hr by done.
    injection Hr as Hr. congruence.
Qed.
Lemma good_index db (s0 : S) r l :
  link_ok sha256 (js_of_Z (Documents.repository_id r), link_id l) l -> scope l = scope_of r -> right_link db s0 l -> good_op db s0 (index_op l).
Proof.
  intros Hl Hs Hr v _. right. exists l. rewrite (index_key r l Hs). split_and!; [|done..]. unfold call_of, index_op. cbn [body carried_out uc_upsert uc_script].
  by destruct v.
Qed.
Lemma during_write db ann (s0 s : S) r x t docs n :
  wf_source x -> indices_ok t s0 -> docs_ok s0 -> during db ann s0 s -> planReferenceLinks sha256 extract r x db s = Ok (rp_planned docs n) ->
  during db ann s0 (writeReferenceLinks docs t s).1.
Proof.
  intros Hx Hi Hok Hd Hp. apply during_bulk; [done..|]. intros o (l & -> & Hl)%list_elem_of_fmap.
  destruct (plan_docs sha256 extract Hsha Hextract r x db s docs n Hx Hp) as [_ Hdocs].
  destruct (Hdocs l Hl) as (Hlo & Hsc & _). apply (good_index db s0 r); [done..|]. by eapply plan_right.
Qed.
Lemma during_within db ann (s0 : S) {A} (p : S * (result EsError A * list ShadowWriteFailure)) :
  during db ann s0 p.1 -> during db ann s0 (within_fence p).1.
Proof. by destruct p as [s [[a|e] fs]]. Qed.
Lemma during_derive db ann (s0 s : S) r x t :
  wf_source x -> indices_ok t s0 -> docs_ok s0 -> during db ann s0 s ->
  during db ann s0 (deriveReferenceLinks sha256 extract String_of r x t db s).1.
Proof.
  intros Hx Hi Hok Hd. unfold deriveReferenceLinks. set (id := Documents.repository_id r). cbv zeta.
  assert (forall s1, during db ann s0 s1 -> during db ann s0 (markPending String_of id x t s1).1) as Hmark.
  { intros s1 H1. apply during_within, during_summary; done. }
  destruct (planReferenceLinks sha256 extract r x db s) as [[|reason|docs n]|] eqn:Ep; [done| | |done].
  - specialize (Hmark s Hd). by destruct (markPending String_of id x t s) as [s1 [[u rec]|]].
  - unfold writeDerivedReferenceSet. pose proof (during_write db ann s0 s r x t docs n Hx Hi Hok Hd Ep) as Hw.
    destruct (writeReferenceLinks docs t s) as [s1 [[w rec1]|]]; [|done]. cbn [fst] in Hw. destruct (failures w) as [|f0 fs0].
    + pose proof (during_stale db ann s0 s1 t id x (map link_id docs) Hi Hw) as Hst. apply during_within in Hst.
      destruct (within_fence _) as [s2 [[removed rec2]|]] in Hst |- *; [|done]. cbn [fst] in Hst.
      pose proof (during_within db ann s0 _ (during_summary db ann s0 s2 t (summary id x (Some (Z.of_nat (length docs))) false) Hi Hst)) as Hsu.
      by destruct (within_fence _) as [s3 [[u rec3]|]] in Hsu |- *.
    + specialize (Hmark s1 Hw). by destruct (markPending String_of id x t s1) as [s2 [[u rec2]|]].
Qed.

(** *** What the links of a target are *)

Lemma link_identity key l l' : link_ok sha256 key l -> link_ok sha256 key l' ->
  LinkIndex.reference_key l = LinkIndex.reference_key l' ∧ sc_repository_id (scope l) = sc_repository_id (scope l').
Proof.
  intros [-> Hid (x & Hx & Ef & Ei) (t & Hw & _ & Hk)] [[= _ E] Hid' (x' & Hx' & Ef' & Ei') (t' & Hw' & _ & Hk')].
  rewrite Hid, Hid', Ef, Ei, Hk, Ef', Ei', Hk' in E. apply (id_inj sha256 Hsha) in E as (-> & _ & ->); [|done..].
  by rewrite Hk, Hk'.
Qed.
(** An update whose resolution is the right one makes a right link. *)
Lemma good_update db (s0 : S) u key l :
  link_ok sha256 key l -> lu_link_id u = link_id l -> lu_repository_id u = sc_repository_id (scope l) ->
  right_link db s0 (with_resolution (lu_resolution u) l) -> good_op db s0 (update_op u) ∧ link_key (update_op u) = key.
Proof.
  intros Hl Ei Er Hr. assert (link_key (update_op u) = key) as Ek.
  { unfold link_key, update_op. cbn [repositoryId linkId]. rewrite (lo_key _ _ _ Hl). congruence. }
  split; [|done]. intros v Hv. rewrite Ek in *. destruct v as [d|]; [|by left; unfold update_op, call_of; destruct (lu_resolution u)].
  right. destruct (Hv d eq_refl) as [(l' & Hl' & ->)|[_ (lt & ft & fi & tt & ti & E)]].
  - exists (with_resolution (lu_resolution u) l'). destruct (link_identity key l l' Hl Hl') as [E1 E2]. split_and!; [apply resolution_carried|by destruct Hl'|].
    intros y. specialize (Hr y). unfold judged in *. cbn [with_resolution resolution LinkIndex.reference_key scope] in *. by rewrite <- E1, <- E2.
  - exfalso. rewrite (lo_key _ _ _ Hl) in E. cbn [snd] in E. rewrite (lo_id _ _ _ Hl) in E. by apply (id_apart sha256 Hsha) in E.
Qed.

(** The texts that mean a source. *)
Definition names (x : LinkSource) (t : ReferenceTarget) : Prop :=
  match t, x with
  | t_pull_request _ n, pull_request_source n' => n = n'
  | t_commit _ sha, commit_source sha' => sha = sha'
  | t_commit_prefix _ p, commit_source sha => starts_with p sha = true
  | _, _ => False
  end.
Lemma sha_prefix p sha : is_sha sha -> starts_with p sha = true -> p = take (length p) sha.
Proof. intros _ [r ->]%starts_with_spec. by rewrite take_app_length. Qed.
Lemma take_sha n sha : (7 <= n)%nat -> is_sha sha -> all1 is_hex_lower (take n sha) = true.
Proof.
  intros Hn [Hl Hh]. apply all1_forallb. split; [destruct sha, n; try done; lia|].
  rewrite forallb_elem in Hh |- *. intros c Hc. apply Hh. rewrite <- (take_drop n sha). apply elem_of_app. by left.
Qed.
Lemma key_names t x rp : wf_target t -> sized t -> wf_source x -> wf_repo rp -> referenceKey t ∈ reference_keys x rp <-> repo_of t = rp ∧ names x t.
Proof.
  intros Hw Hs Hx Hrp.
  assert (forall t', wf_target t' -> referenceKey t = referenceKey t' -> t = t') as Hinj.
  { intros t' Hw' E. pose proof (key_round_trip t Hw) as P. rewrite E, (key_round_trip t' Hw') in P. by injection P. }
  destruct x as [n|sha]; cbn [reference_keys wf_source] in *.
  - unfold pullRequestReferenceKeys. rewrite list_elem_of_singleton. split.
    + intros ->%Hinj; done.
    + intros [<- Hn]. by destruct t; cbn in Hn; subst.
  - destruct Hx as [Hlen Hh]. unfold commitReferenceKeys. cbv zeta. rewrite hex_lower_fix by done. split.
    + intros [->%Hinj|Hin]%elem_of_cons; [done|split; [done|apply all1_forallb; by destruct sha]|].
      apply list_elem_of_fmap in Hin as (n & E & Hn). apply list_elem_of_In, in_seq in Hn. unfold ABBREV_SHA_MIN, ABBREV_SHA_MAX in Hn.
      apply Hinj in E as ->; [|split; [done|apply take_sha; [lia|done]]]. split; [done|]. cbn [names]. rewrite <- (take_drop n sha) at 2. apply starts_with_app.
    + intros [<- Hn]. destruct t as [r n|r h|r p]; cbn [names repo_of] in *; [done|subst; by left|]. right. apply list_elem_of_fmap. exists (length p).
      rewrite <- (sha_prefix p sha) by done. split; [done|]. apply list_elem_of_In, in_seq. unfold ABBREV_SHA_MIN, ABBREV_SHA_MAX. cbn [sized] in Hs. lia.
Qed.
Definition resolution_of (id : Z) (x : LinkSource) : ReferenceResolution := mkResolution (kind x) (docIdOf id x) id.
Lemma points_source (s : S) r t id x : wf_target t -> wf_source x ->
  points s r t (resolution_of id x) <-> r = id ∧ names x t ∧ indexed s (kind x) id (docIdOf id x).
Proof.
  intros Hw Hx. pose proof (target_hex t Hw) as Hh. unfold points, resolution_of. cbn [to_type to_id to_repository_id]. split.
  - intros [Hi Hp]. destruct t as [rp n|rp sha|rp p]; cbn [names].
    + destruct x as [n'|]; [|done]. injection Hp as E ->. split_and!; [done| |done]. cbn [docIdOf] in E. unfold pullRequestDocId in E. apply app_inv_head in E. injection E as E.
      by apply js_of_Z_injective in E as ->.
    + destruct x as [|sha']; [done|]. injection Hp as E ->. split_and!; [done| |done]. symmetry in E. by apply (commit_doc_inj _ sha _ sha' Hh Hx) in E.
    + destruct Hp as (sha & Hs & Hp & E). destruct x as [|sha']; [done|]. injection E as E ->. split_and!; [done| |done].
      destruct Hs as [? Hs]. symmetry in E. by rewrite <- (commit_doc_inj _ sha _ sha' Hs Hx E).
  - intros (-> & Hn & Hi). split; [done|]. destruct t as [rp n|rp sha|rp p], x as [n'|sha']; cbn [names] in *; subst; try done. by exists sha'.
Qed.

(** *** The candidates of a source *)

Section resolving.
Context (db : LinkTables) (ann : ReferenceResolution -> Prop) (s0 : S) (r : RepositoryRow) (x : LinkSource).
Context (Hreg : registry_ok db) (Hrow : registry db !! Documents.repository_id r = Some r) (Hx : wf_source x) (Hok : docs_ok s0).
#[local] Abbreviation rid := (Documents.repository_id r).
Definition mine_resolution : ReferenceResolution := resolution_of (Documents.repository_id r) x.

Definition referencing_of (l : ReferenceLinkDoc) : ReferencingLink :=
  mkReferencing (link_id l) (sc_repository_id (scope l)) (LinkIndex.reference_key l) (bool_decide (is_Some (resolution l))) (from_type l) (from_id l).
Lemma slug_target sr t : match repo_of t with Some sl => findRepositoryBySlug (owner sl) (name sl) db = Some r | None => sr = rid end <->
  (sr = rid ∧ repo_of t = None) \/ repo_of t = Some (slugOf r).
Proof.
  destruct (ro_lower _ Hreg _ _ Hrow) as [Lo Ln]. destruct (repo_of t) as [[o n]|]; cbn [owner name]; [|naive_solver].
  rewrite (by_slug db o n r Hreg). unfold slugOf. rewrite Lo, Ln. split; [intros (_ & <- & <-); by right|by intros [[_ [=]]|[= -> ->]]].
Qed.
Lemma target_here sr t : targetRepositoryId sr t db = Some rid <-> (sr = rid ∧ repo_of t = None) \/ repo_of t = Some (slugOf r).
Proof.
  rewrite <- slug_target. unfold targetRepositoryId. destruct (repo_of t) as [sl|]; [|naive_solver]. split; [|by intros ->].
  intros (r' & E & Er)%fmap_Some. rewrite E. pose proof (proj1 (by_slug db _ _ _ Hreg) E) as (Hr' & _). rewrite <- Er in Hr'. by simplify_eq.
Qed.
(** The links that are asked for are those whose key means the source. *)
Lemma filter_link key l t : link_ok sha256 key l -> wf_target t -> sized t -> LinkIndex.reference_key l = referenceKey t ->
  references_filter (references_to r x) (referenceLinkSource l) = true <->
  targetRepositoryId (sc_repository_id (scope l)) t db = Some rid ∧ names x t ∧ (is_Some (resolution l) -> kind x = ep_commit).
Proof.
  intros Hl Hw Hs Hk. destruct (source_fields l) as [_ Ek Er Et _ _ Ev]. unfold references_filter, references_to, is_number, is_text, key_among.
  cbn [rt_repository rt_same rt_cross rt_include]. rewrite Ek, Er, Et, Ev, Hk. rewrite !andb_true_iff, orb_true_iff, andb_true_iff, !bool_decide_eq_true, !mem_elem.
  assert (wf_repo (Some (slugOf r))) as Hrp.
  { destruct (ro_lower _ Hreg _ _ Hrow) as [Lo Ln]. destruct (ro_names _ Hreg _ _ Hrow). unfold slugOf. rewrite Lo, Ln. done. }
  rewrite (key_names t x None), (key_names t x (Some (slugOf r))) by done. rewrite target_here.
  assert ((match (match x with commit_source _ => any_state | pull_request_source _ => only_unresolved end) with
    | only_unresolved => bool_decide (JBool (bool_decide (is_Some (resolution l))) = JBool false) | any_state => true end) = true <-> (is_Some (resolution l) -> kind x = ep_commit)) as Hinc.
  { destruct x; [rewrite bool_decide_eq_true|done]. case_bool_decide as E; cbn [kind]; naive_solver. }
  rewrite Hinc. split; [intros ((Hc & _) & ?)|intros (Hc & ? & ?); split; [split; [|done]|done]].
  - destruct Hc as [([= E] & ? & ?)|(? & ?)]; naive_solver.
  - destruct Hc as [(E & ?)|?]; [left; rewrite E; naive_solver|by right].
Qed.
Lemma filter_stored key d : stored_ok sha256 key d -> references_filter (references_to r x) d = true -> ∃ l, link_ok sha256 key l ∧ d = referenceLinkSource l.
Proof.
  intros [|[Hot _]]; [done|]. unfold references_filter. rewrite Hot. by rewrite andb_false_r.
Qed.
Lemma candidate_links (s : S) cs : during db ann s0 s -> findReferencesTo (references_to r x) REFERENCE_PAGE_SIZE s = Ok cs ->
  forall c, c ∈ cs <-> ∃ key l, found s LINKS_ALIAS !! key = Some (referenceLinkSource l) ∧ link_ok sha256 key l ∧
    references_filter (references_to r x) (referenceLinkSource l) = true ∧ c = referencing_of l.
Proof.
  intros Hd. unfold findReferencesTo. assert (rt_same (references_to r x) <> []) as Hne by by destruct x.
  destruct (rt_same (references_to r x)) as [|k0 ks0]; [done|]. clear Hne.
  destruct (read_all _ _ s) as [ds|] eqn:E; [|done]. intros [= <-] c.
  pose proof (read_all_spec Hlaws (references_filter (references_to r x)) REFERENCE_PAGE_SIZE s) as Hall. rewrite list_elem_of_omap.
  assert (forall d, d ∈ ds <-> ∃ k, found s LINKS_ALIAS !! k = Some d ∧ references_filter (references_to r x) d = true) as Hds.
  { apply Hall; [| |vm_compute; lia|done].
    - intros k d Hf Hr. destruct (filter_stored k d) as (l & _ & ->); [by eapply du_found|done|]. exists (link_id l). apply source_fields.
    - intros k d k' d' Hf Hf' Hr Hr' Hi. destruct (filter_stored k d) as (l & Hl & ->); [by eapply du_found|done|].
      destruct (filter_stored k' d') as (l' & Hl' & ->); [by eapply du_found|done|]. unfold sort_id in Hi.
      rewrite (fo_id _ (source_fields l)), (fo_id _ (source_fields l')) in Hi.
      destruct Hl as [-> Hid (y & Hy & Ef & Ei) (t & Hw & _ & Hk)], Hl' as [-> Hid' (y' & Hy' & Ef' & Ei') (t' & Hw' & _ & Hk')]. rewrite Hi. f_equal. f_equal.
      rewrite Hid, Hid', Ef, Ei, Hk, Ef', Ei', Hk' in Hi. by apply (id_inj sha256 Hsha) in Hi as (-> & _ & _). }
  split.
  - intros (d & (k & Hf & Hr)%Hds & Ec). destruct (filter_stored k d) as (l & Hl & ->); [by eapply du_found|done|].
    rewrite referencing_source in Ec. injection Ec as <-. by exists k, l.
  - intros (k & l & Hf & Hl & Hr & ->). exists (referenceLinkSource l). split; [apply Hds; by exists k|]. apply referencing_source.
Qed.

(** *** The updates *)

Lemma prefix_resolutions_find cs (s : S) : prefix_resolutions rid cs s = findReferenceTargets (prefix_lookups rid cs) s.
Proof. unfold prefix_resolutions. by destruct (prefix_lookups rid cs). Qed.
Lemma prefix_lookups_nodup cs : NoDup (map lookup_key (prefix_lookups rid cs)).
Proof.
  unfold prefix_lookups. apply (nodup_omap _ _ (fun k => k)).
  - intros k l E. destruct (parseReferenceKey k) as [[]|]; simplify_eq. done.
  - rewrite map_id. apply NoDup_remove_dups.
Qed.
Lemma prefix_lookup_in cs c p : c ∈ cs -> prefix_of c = Some p -> tl_commit_prefix (rl_reference_key c) rid p ∈ prefix_lookups rid cs.
Proof.
  intros Hin Hp. apply list_elem_of_omap. exists (rl_reference_key c). split.
  - apply elem_of_remove_dups, list_elem_of_fmap. exists c. split; [done|]. apply list_elem_of_In, filter_In.
    split; [by apply list_elem_of_In|]. apply bool_decide_eq_true. by eauto.
  - unfold prefix_of in Hp. destruct (parseReferenceKey (rl_reference_key c)) as [[]|]; by simplify_eq.
Qed.
(** A candidate, with what it is a link of. *)
Record candidate (s : S) (key : DocKey) (l : ReferenceLinkDoc) (t : ReferenceTarget) : Prop := {
  ca_found : found s LINKS_ALIAS !! key = Some (referenceLinkSource l);
  ca_ok : link_ok sha256 key l;
  ca_wf : wf_target t;
  ca_key : LinkIndex.reference_key l = referenceKey t;
  ca_here : targetRepositoryId (sc_repository_id (scope l)) t db = Some rid;
  ca_names : names x t
}.
Lemma candidate_prefix (s : S) key l t : candidate s key l t ->
  prefix_of (referencing_of l) = match t with t_commit_prefix _ p => Some p | _ => None end.
Proof.
  intros Hc. unfold prefix_of, referencing_of. cbn [rl_reference_key]. rewrite (ca_key _ _ _ _ Hc), key_round_trip by apply (ca_wf _ _ _ _ Hc). done.
Qed.
Lemma candidate_judged (s : S) key l t y : candidate s key l t -> judged db s0 l y <-> points s0 rid t y.
Proof.
  intros Hc. rewrite (judged_key db s0 l t y (ca_wf _ _ _ _ Hc) (ca_key _ _ _ _ Hc)), (ca_here _ _ _ _ Hc). naive_solver.
Qed.
Lemma candidate_right (s : S) key l t res : candidate s key l t ->
  right_link db s0 (with_resolution res l) <-> forall y, res = Some y <-> points s0 rid t y ∧ forall z, points s0 rid t z -> z = y.
Proof.
  intros Hc. assert (forall y, judged db s0 (with_resolution res l) y <-> points s0 rid t y) as Hj by (intros y; apply (candidate_judged s key l t y Hc)).
  unfold right_link. setoid_rewrite Hj. done.
Qed.
Lemma candidates_of (s : S) cs c : during db ann s0 s -> findReferencesTo (references_to r x) REFERENCE_PAGE_SIZE s = Ok cs -> c ∈ cs ->
  ∃ key l t, candidate s key l t ∧ c = referencing_of l.
Proof.
  intros Hd Hcs Hc. apply (candidate_links s cs Hd Hcs) in Hc as (key & l & Hf & Hl & Hr & ->). exists key, l.
  destruct (lo_target _ _ _ Hl) as (t & Hw & Hs & Hk). destruct (proj1 (filter_link key l t Hl Hw Hs Hk) Hr) as (? & ? & _). by exists t.
Qed.
(** An exact key means the source and nothing else. *)
Lemma points_exact t y : names x t -> (forall rp p, t <> t_commit_prefix rp p) -> points s0 rid t y -> y = mine_resolution.
Proof. unfold mine_resolution. intros Hn Hp [_ Hy]. destruct t as [rp n|rp sha|rp p], x as [n'|sha']; cbn [names] in Hn; cbv beta iota in Hy; first [done|by rewrite Hy, Hn|exfalso; by eapply Hp]. Qed.
Record planned (s : S) (o : option (list LinkUpdate)) (cs : list ReferencingLink) (m : gmap jstr ReferenceResolution) (ti : bool) : Prop := {
  pu_candidates : findReferencesTo (references_to r x) REFERENCE_PAGE_SIZE s = Ok cs;
  pu_some : cs <> [] -> findReferenceTargets (prefix_lookups rid cs) s = Ok m ∧
    o = Some (concat (map (update_for mine_resolution ti m) cs)) ∧
    (ti = true -> indexed s0 (kind x) rid (docIdOf rid x)) ∧ (needs_direct cs = true -> indexed s0 (kind x) rid (docIdOf rid x) -> ti = true)
}.
Lemma plan_parts (s : S) o : during db ann s0 s -> planUpdates sha256 r x s = Ok o -> ∃ cs m ti, planned s o cs m ti.
Proof.
  intros Hd. unfold planUpdates. cbv zeta. destruct (findReferencesTo _ _ s) as [[|c0 cs0]|] eqn:Ec; [|set (cs := c0 :: cs0) in *|done].
  - intros [= <-]. exists [], ∅, false. by split.
  - rewrite prefix_resolutions_find. destruct (findReferenceTargets _ s) as [m|] eqn:Em; [|done].
    destruct (if needs_direct cs then _ else _) as [ti|] eqn:Et; [|done]. destruct (List.find _ cs); [done|]. intros [= <-].
    exists cs, m, ti. split; [done|]. intros _. split_and!; [done|done|..].
    + intros ->. destruct (needs_direct cs); [|done]. apply (law_exists (LinkLaws := Hlaws)) in Et. symmetry in Et. apply bool_decide_eq_true in Et.
      unfold indexed. rewrite <- (fmap_is_Some ident), <- (du_docs _ _ _ _ Hd), fmap_is_Some. done.
    + intros Hn Hi. rewrite Hn in Et. apply (law_exists (LinkLaws := Hlaws)) in Et. rewrite Et. apply bool_decide_eq_true.
      unfold indexed in Hi. rewrite <- (fmap_is_Some ident), <- (du_docs _ _ _ _ Hd), fmap_is_Some in Hi. done.
Qed.
(** What the candidate's key is resolved to by the searches for abbreviated keys. *)
Lemma prefix_right (s : S) o cs m ti key l rp p :
  during db ann s0 s -> planned s o cs m ti -> referencing_of l ∈ cs -> candidate s key l (t_commit_prefix rp p) ->
  right_link db s0 (with_resolution (m !! LinkIndex.reference_key l) l).
Proof.
  intros Hd Hp Hin Hc. destruct (pu_some _ _ _ _ _ Hp) as (Hm & _); [by intros ->; apply elem_of_nil in Hin|].
  apply (candidate_right s key l _ _ Hc). intros y.
  destruct (targets_points db ann s0 s _ m (LinkIndex.reference_key l) Hd Hok (prefix_lookups_nodup cs) Hm) as [Ht _].
  apply (Ht rid (t_commit_prefix rp p) y (ca_wf _ _ _ _ Hc)). apply (prefix_lookup_in cs (referencing_of l) p Hin). by rewrite (candidate_prefix s key l _ Hc).
Qed.
Lemma exact_right (s : S) key l t :
  candidate s key l t -> (forall rp p, t <> t_commit_prefix rp p) -> indexed s0 (kind x) rid (docIdOf rid x) ->
  right_link db s0 (with_resolution (Some mine_resolution) l).
Proof.
  intros Hc Hp Hi. apply (candidate_right s key l t _ Hc). intros y. split.
  - intros [= <-]. split; [|intros z; by apply (points_exact t z (ca_names _ _ _ _ Hc))].
    apply (points_source s0 rid t rid x (ca_wf _ _ _ _ Hc) Hx). split_and!; [done|apply (ca_names _ _ _ _ Hc)|done].
  - intros [Hy _]. f_equal. symmetry. by apply (points_exact t y (ca_names _ _ _ _ Hc)).
Qed.
Lemma updates_right (s : S) us u : during db ann s0 s -> planUpdates sha256 r x s = Ok (Some us) -> u ∈ us -> good_op db s0 (update_op u).
Proof.
  intros Hd Hp Hu. destruct (plan_parts s _ Hd Hp) as (cs & m & ti & Hpl). destruct (decide (cs = [])) as [->|Hne].
  { exfalso. unfold planUpdates in Hp. cbv zeta in Hp. by rewrite (pu_candidates _ _ _ _ _ Hpl) in Hp. }
  destruct (pu_some _ _ _ _ _ Hpl Hne) as (_ & [= ->] & Hti & _).
  apply list_elem_of_In, in_concat in Hu as (lu & (c & <- & Hc)%in_map_iff & Hu). apply list_elem_of_In in Hc, Hu.
  destruct (candidates_of s cs c Hd (pu_candidates _ _ _ _ _ Hpl) Hc) as (key & l & t & Hca & ->).
  assert (forall u', lu_link_id u' = link_id l -> lu_repository_id u' = sc_repository_id (scope l) ->
    right_link db s0 (with_resolution (lu_resolution u') l) -> good_op db s0 (update_op u')) as Hgood.
  { intros u' E1 E2 Hr. by apply (good_update db s0 u' key l (ca_ok _ _ _ _ Hca)). }
  unfold update_for in Hu. rewrite (candidate_prefix s key l t Hca) in Hu. cbn [referencing_of rl_link_id rl_repository_id rl_from_type rl_from_id rl_reference_key rl_resolved] in Hu.
  assert ((∃ rp p, t = t_commit_prefix rp p) \/ forall rp p, t <> t_commit_prefix rp p) as [(rp & p & ->)|Hex]
    by (destruct t; [by right..|left; by eauto]).
  - pose proof (prefix_right s _ cs m ti key l rp p Hd Hpl Hc Hca) as Hr.
    destruct (m !! LinkIndex.reference_key l); [|destruct (bool_decide _)]; try (by apply elem_of_nil in Hu); apply list_elem_of_singleton in Hu as ->; by apply Hgood.
  - assert (u ∈ (if bool_decide (is_Some (resolution l)) then [] else if ti then [mkLinkUpdate (link_id l) (sc_repository_id (scope l)) (mkOwner (from_type l) (from_id l)) (Some mine_resolution)] else [])) as Hu'.
    { destruct t as [rp n|rp sha|rp p]; [done..|]. by destruct (Hex rp p). }
    destruct (bool_decide _); [by apply elem_of_nil in Hu'|]. destruct ti; [|by apply elem_of_nil in Hu'].
    apply list_elem_of_singleton in Hu' as ->. apply Hgood; [done..|]. eapply exact_right; [done..|]. by apply Hti.
Qed.
(** A link that may mean the source and is not right is updated. *)
Lemma updates_cover (s : S) o key l :
  during db ann s0 s -> planUpdates sha256 r x s = Ok o -> live s LINKS_ALIAS key = Some (referenceLinkSource l) -> link_ok sha256 key l ->
  judged db s0 l mine_resolution -> right_link db s0 l \/ ∃ us u, o = Some us ∧ u ∈ us ∧ link_key (update_op u) = key.
Proof.
  intros Hd Hp Hlive Hl Hj. destruct (du_fresh _ _ _ _ Hd key l Hlive) as [|Hf]; [by left|].
  destruct (lo_target _ _ _ Hl) as (t & Hw & Hs & Hk). apply (judged_key db s0 l t _ Hw Hk) in Hj as (r' & Hr & Hj).
  apply (points_source s0 r' t rid x Hw Hx) in Hj as (-> & Hn & Hi).
  assert (candidate s key l t) as Hca by (split; done).
  assert ((∃ rp p, t = t_commit_prefix rp p) \/ forall rp p, t <> t_commit_prefix rp p) as Hcases by (destruct t; [by right..|left; by eauto]).
  assert (resolution l = Some mine_resolution -> (forall rp p, t <> t_commit_prefix rp p) -> right_link db s0 l) as Hresolved.
  { intros Er Hex. pose proof (exact_right s key l t Hca Hex Hi) as Hright. rewrite <- Er in Hright. by destruct l. }
  assert (is_Some (resolution l) -> (forall rp p, t <> t_commit_prefix rp p) -> right_link db s0 l) as Hsome.
  { intros [y Ey] Hex. apply Hresolved; [|done]. rewrite Ey. f_equal. apply (points_exact t y Hn Hex).
    apply (candidate_judged s key l t y Hca). by apply (du_safe _ _ _ _ Hd key l Hlive). }
  destruct (decide (references_filter (references_to r x) (referenceLinkSource l) = true)) as [Hfil|Hfil].
  - destruct (plan_parts s o Hd Hp) as (cs & m & ti & Hpl).
    assert (referencing_of l ∈ cs) as Hc by (apply (candidate_links s cs Hd (pu_candidates _ _ _ _ _ Hpl)); by exists key, l).
    destruct (pu_some _ _ _ _ _ Hpl) as (_ & -> & _ & Hti); [by intros ->; apply elem_of_nil in Hc|].
    set (G := ∃ us u, Some (concat (map (update_for mine_resolution ti m) cs)) = Some us ∧ u ∈ us ∧ link_key (update_op u) = key).
    assert (forall u, u ∈ update_for mine_resolution ti m (referencing_of l) -> lu_link_id u = link_id l -> lu_repository_id u = sc_repository_id (scope l) ->
      G) as Hgo.
    { intros u Hu E1 E2. exists (concat (map (update_for mine_resolution ti m) cs)), u. split_and!; [done|by eapply concat_item|].
      unfold link_key, update_op. cbn [repositoryId linkId]. rewrite E1, E2. symmetry. apply (lo_key _ _ _ Hl). }
    unfold update_for in Hgo. rewrite (candidate_prefix s key l t Hca) in Hgo.
    cbn [referencing_of rl_link_id rl_repository_id rl_from_type rl_from_id rl_reference_key rl_resolved] in Hgo. destruct Hcases as [(rp & p & ->)|Hex].
    + pose proof (prefix_right s _ cs m ti key l rp p Hd Hpl Hc Hca) as Hpr. destruct (m !! LinkIndex.reference_key l) as [y|].
      * right. eapply Hgo; [by left|done..].
      * case_bool_decide as Er; [right; eapply Hgo; [by left|done..]|left]. destruct l as [? ? ? ? ? ? ? ? res]. cbn [resolution] in Er.
        destruct res; [by destruct Er|done].
    + case_bool_decide as Er; [left; by apply Hsome|right]. rewrite Hti in Hgo; [|apply existsb_elem; exists (referencing_of l); split; [done|]|done].
      * destruct t as [rp n|rp sha|rp p]; [eapply Hgo; [by left|done..]..|]. by destruct (Hex rp p).
      * unfold referencing_of in *. cbn [rl_resolved]. rewrite (bool_decide_eq_false_2 (is_Some (resolution l))) by done.
        change (negb (bool_decide (is_Some (prefix_of (referencing_of l)))) && negb false = true). rewrite (candidate_prefix s key l t Hca).
        destruct t as [rp n|rp sha|rp p]; [done..|]. by destruct (Hex rp p).
  - left. apply Hsome; [|]; [|destruct Hcases as [(rp & p & ->)|]; [|done]].
    + destruct (resolution l) as [y|] eqn:Ey; [by eauto|]. exfalso. apply Hfil. apply (filter_link key l t); [done..|]. split_and!; [done..|]. rewrite Ey. by intros [].
    + exfalso. apply Hfil. apply (filter_link key l _ Hl Hw Hs Hk). split_and!; [done..|]. intros _. by destruct x.
Qed.

(** *** The resolution *)

(** A key whose link, when it is one of a reference, is right. *)
Definition settled (key : DocKey) (s : S) : Prop := forall l, live s LINKS_ALIAS key = Some (referenceLinkSource l) -> right_link db s0 l.
Lemma settled_gentle key (s s' : S) : gentle db s0 s s' -> settled key s -> settled key s'.
Proof.
  intros Hg Hs l E. destruct (ge_links _ _ _ _ Hg key) as [El|[El|(l' & El & _ & Hr)]]; rewrite El in E; [by apply Hs|done|].
  injection E as E. apply source_inj in E. by eapply right_same.
Qed.
Lemma items_settled t ops cs key (s s' : S) rs :
  indices_ok t s0 -> (forall o, o ∈ ops -> good_op db s0 o) -> (forall c, c ∈ cs -> c ∈ calls_of t ops) -> items_done cs s s' rs ->
  during db ann s0 s -> during db ann s0 s' ∧ (settled key s -> settled key s') ∧ (live s' LINKS_ALIAS key = live s LINKS_ALIAS key \/ settled key s').
Proof.
  intros Hi Hops Hcs Hd Hs. apply (items_ind (fun s1 => during db ann s0 s1 ∧ (settled key s -> settled key s1) ∧ (live s1 LINKS_ALIAS key = live s LINKS_ALIAS key \/ settled key s1)) _ _ _ _ Hd).
  - intros c s1 s2 r1 Hc Hu Hsee (H1 & H2 & H3). pose proof (gentle_item db ann s0 s1 s2 t ops c r1 Hi H1 Hops (Hcs c Hc) Hu Hsee) as Hg. split_and!.
    + by eapply during_gentle.
    + intros Hst. eapply settled_gentle; [done|]. by apply H2.
    + destruct H3 as [E|Hst]; [|right; by eapply settled_gentle]. destruct (ge_links _ _ _ _ Hg key) as [El|[El|(l & El & _ & Hr)]]; [left; congruence|right..].
      * intros l E'. congruence.
      * intros l' E'. rewrite El in E'. injection E' as E'. apply source_inj in E'. by eapply right_same.
  - split_and!; [done|done|by left].
Qed.
Lemma during_resolve (s : S) t : indices_ok t s0 -> during db ann s0 s -> during db ann s0 (resolveReferencesTo sha256 r x t s).1.
Proof.
  intros Hi Hd. unfold resolveReferencesTo. destruct (planUpdates sha256 r x s) as [[us|]|] eqn:Ep; [|done..].
  assert (during db ann s0 (resolveReferenceLinks us t s).1) as H1.
  { apply during_bulk; [done..|]. intros o (u & -> & Hu)%list_elem_of_fmap. by eapply updates_right. }
  destruct (resolveReferenceLinks us t s) as [s1 [[w rec]|]]; [|done]. by destruct (failures w).
Qed.
(** After a resolution that succeeded, every link that may mean the source is right. *)
Lemma resolve_right (s s' : S) t n rec key :
  indices_ok t s0 -> during db ann s0 s -> resolveReferencesTo sha256 r x t s = (s', (Ok n, rec)) ->
  forall l, live s' LINKS_ALIAS key = Some (referenceLinkSource l) -> judged db s0 l mine_resolution -> right_link db s0 l.
Proof.
  intros Hi Hd Hres l Hl Hj. unfold resolveReferencesTo in Hres. destruct (planUpdates sha256 r x s) as [o|] eqn:Ep; [|by simplify_eq].
  assert (live s LINKS_ALIAS key = Some (referenceLinkSource l) -> right_link db s0 l \/ ∃ us u, o = Some us ∧ u ∈ us ∧ link_key (update_op u) = key) as Hcover.
  { intros E. destruct (du_links _ _ _ _ Hd key _ E) as [(l' & Hl' & Es)|[Hot _]].
    - apply source_inj in Es as Hsame. destruct (updates_cover s o key l' Hd Ep) as [Hr|]; [by rewrite <- Es|done|by apply (judged_same db s0 l l')| |by right].
      left. assert (same_link l' l) as Hsame' by (by apply source_inj). by eapply right_same.
    - destruct (source_fields l) as [_ _ _ Et _ _ _]. unfold is_text in Hot. rewrite Et in Hot. by case_bool_decide. }
  destruct o as [us|]; [|injection Hres as <- _ _; destruct (Hcover Hl) as [|(? & ? & ? & _)]; done].
  destruct (resolveReferenceLinks us t s) as [s1 [[w rec1]|]] eqn:Es; [|by simplify_eq]. destruct (failures w) as [|f fs] eqn:Ef; [|by simplify_eq].
  injection Hres as <- _ _. set (ops := map update_op us).
  assert (forall o, o ∈ ops -> good_op db s0 o) as Hops by (intros o (u & -> & Hu)%list_elem_of_fmap; by eapply updates_right).
  destruct (send_items Hlaws ops t s) as (rs & _ & Hok'). unfold resolveReferenceLinks in Es. fold ops in Es. rewrite Es in Hok'. destruct rec1 as [fs ps].
  destruct (Hok' w fs ps eq_refl) as (Hit & k & _ & Hfs & _). cbn [fst] in Hit.
  destruct (items_settled t ops _ key s s1 rs Hi Hops (fun c Hc => Hc) Hit Hd) as (_ & _ & [E|Hst]); [|by apply Hst].
  rewrite E in Hl. destruct (Hcover Hl) as [|(us' & u & [= <-] & Hu & Hk)]; [done|].
  assert (update_op u ∈ ops) as Ho by by apply list_elem_of_fmap_2. pose proof Ho as (j & Hlk)%list_elem_of_lookup.
  destruct (serving_item ops (take k rs) j (update_op u) Hlk) as [(rp & Hr & He)|(f & Hin & _)]; [|rewrite <- Hfs, Ef in Hin; by apply elem_of_nil in Hin].
  apply lookup_take_Some in Hr as [Hr _].
  destruct (items_reach _ _ _ _ j _ _ Hit (calls_serving t ops j _ Hlk) Hr) as (sa & sb & rs1 & rs2 & Ha & Hu' & Hsee & Hb).
  assert (forall c, c ∈ take j (calls_of t ops) -> c ∈ calls_of t ops) as Htake by (intros c Hc; rewrite <- (take_drop j (calls_of t ops)); apply elem_of_app; by left).
  assert (forall c, c ∈ drop (Datatypes.S j) (calls_of t ops) -> c ∈ calls_of t ops) as Hdrop by (intros c Hc; rewrite <- (take_drop (Datatypes.S j) (calls_of t ops)); apply elem_of_app; by right).
  destruct (items_settled t ops _ key s sa rs1 Hi Hops Htake Ha Hd) as (Hda & _ & _).
  assert (call_of LINKS_ALIAS (update_op u) ∈ calls_of t ops) as Hin by (eapply list_elem_of_lookup_2; by apply calls_serving).
  pose proof (gentle_item db ann s0 sa sb t ops _ rp Hi Hda Hops Hin Hu' Hsee) as Hg. assert (during db ann s0 sb) as Hdb by by eapply during_gentle.
  destruct (items_settled t ops _ key sb s1 rs2 Hi Hops Hdrop Hb Hdb) as (_ & Hst & _).
  assert (settled key sb) as Hsb; [|apply (Hst Hsb l); by rewrite E].
  intros l' E'. pose proof (carried_of_reply _ _ _ _ (up_reply _ _ _ _ Hu') He) as Hc.
  assert (uc_name (call_of LINKS_ALIAS (update_op u)) = LINKS_ALIAS ∧ uc_key (call_of LINKS_ALIAS (update_op u)) = link_key (update_op u)) as [E1 E2] by (unfold call_of; by destruct (body (update_op u))).
  rewrite E1, E2 in Hc. unfold live in E'. rewrite <- Hk, Hc in E'.
  destruct (Hops _ Ho (doc_named sa LINKS_ALIAS (link_key (update_op u)))) as [Hn|(l2 & E2' & _ & Hr2)]; [intros d Ed; exact (du_links _ _ _ _ Hda _ d Ed)|congruence|].
  rewrite E2' in E'. injection E' as E'. apply source_inj in E'. by eapply right_same.
Qed.
Lemma handle_right (s' : S) f out recs :
  indices_ok (fence_derive f) s0 -> indices_ok (fence_resolve f) s0 -> during db ann s0 s0 ->
  handle_references sha256 extract String_of r x f db s0 = (s', (out, recs)) ->
  during db ann s0 s' ∧ (is_ok out = true -> forall key l, live s' LINKS_ALIAS key = Some (referenceLinkSource l) -> judged db s0 l mine_resolution -> right_link db s0 l).
Proof.
  intros Hi1 Hi2 Hd. unfold handle_references. pose proof (during_derive db ann s0 s0 r x (fence_derive f) Hx Hi1 Hok Hd) as H1.
  destruct (deriveReferenceLinks _ _ _ _ _ _ _ s0) as [s1 [[outcome rec1]|]]; [|intros [= <- <- _]; by split]. cbn [fst] in H1.
  pose proof (during_resolve s1 (fence_resolve f) Hi2 H1) as H2. destruct (resolveReferencesTo sha256 r x (fence_resolve f) s1) as [s2 [[n|] rec2]] eqn:Er;
    intros [= <- <- _]; (split; [done|]); [|done]. intros _ key. exact (resolve_right s1 _ _ n rec2 key Hi2 H1 Er).
Qed.
End resolving.

(** ** The system *)

(** What the other writers do: they project documents, write derived links and refresh. *)
Record outside (s s' : S) : Prop := {
  ou_index n : es_index s' n = es_index s n;
  ou_sees : sees s s';
  ou_links key : live s' LINKS_ALIAS key = live s LINKS_ALIAS key \/
    forall d, live s LINKS_ALIAS key = Some d \/ live s' LINKS_ALIAS key = Some d -> other_link sha256 key d;
  ou_keeps k key : is_Some (live s (alias_of k) key) -> is_Some (live s' (alias_of k) key);
  ou_documents : docs_ok s'
}.
(** The state of the server, with the announced documents. *)
Abbreviation World := (S * list ReferenceResolution)%type.
Definition announce (s : S) (disposition : HandlerDisposition) (y : ReferenceResolution) (announced : list ReferenceResolution) : list ReferenceResolution :=
  match disposition with
  | d_ack => if bool_decide (is_Some (live s (alias_of (to_type y)) (js_of_Z (to_repository_id y), to_id y))) then y :: announced else announced
  | _ => announced
  end.
Inductive step (db : LinkTables) : World -> World -> Prop :=
| st_outside s s' announced : outside s s' -> step db (s, announced) (s', announced)
(** An event of an active repository, delivered for whatever time. *)
| st_event id r x deliveries f s s' disposition recorded announced :
    findRepositoryById id db = Some r -> status r = js "active" -> wf_source x -> caught_up s ->
    indices_ok (fence_derive f) s -> indices_ok (fence_resolve f) s ->
    handleLinkEvent sha256 extract String_of id x deliveries f db s = (s', (disposition, recorded)) ->
    step db (s, announced) (s', announce s disposition (resolution_of id x) announced)
(** The worker stops after the links are written, or after the derivation. *)
| st_stopped_writing r x t docs n s announced :
    wf_source x -> caught_up s -> indices_ok t s -> planReferenceLinks sha256 extract r x db s = Ok (rp_planned docs n) ->
    step db (s, announced) ((writeReferenceLinks docs t s).1, announced)
| st_stopped_derived r x t s announced :
    wf_source x -> caught_up s -> indices_ok t s -> step db (s, announced) ((deriveReferenceLinks sha256 extract String_of r x t db s).1, announced).

Record inv (db : LinkTables) (w : World) : Prop := {
  in_docs : docs_ok w.1;
  in_links key d : live w.1 LINKS_ALIAS key = Some d -> stored_ok sha256 key d;
  in_found key d : found w.1 LINKS_ALIAS !! key = Some d -> stored_ok sha256 key d;
  in_safe key l : live w.1 LINKS_ALIAS key = Some (referenceLinkSource l) -> safe_link db w.1 l;
  in_right key l : live w.1 LINKS_ALIAS key = Some (referenceLinkSource l) -> (forall y, judged db w.1 l y -> y ∈ w.2) -> right_link db w.1 l;
  in_announced y : y ∈ w.2 -> indexed w.1 (to_type y) (to_repository_id y) (to_id y)
}.
Lemma inv_during db s announced : inv db (s, announced) -> caught_up s -> during db (fun y => y ∈ announced) s s.
Proof.
  intros Hi Hc. assert (forall a key, a ∈ SERVED -> found s a !! key = live s a key) as Hf.
  { intros a key Ha. apply (law_refreshed (LinkLaws := Hlaws)). by apply Hc. }
  assert (LINKS_ALIAS ∈ SERVED) as Hl by by left. split; try done.
  - intros k key. rewrite Hf; [done|]. destruct k; [by right; left|by right; right; left].
  - apply (in_links _ _ Hi).
  - apply (in_found _ _ Hi).
  - apply (in_safe _ _ Hi).
  - intros key l E. right. by rewrite Hf.
  - apply (in_right _ _ Hi).
Qed.
Lemma judged_idents db (s s' : S) l y : (forall k key, ident <$> live s' (alias_of k) key = ident <$> live s (alias_of k) key) ->
  judged db s' l y <-> judged db s l y.
Proof.
  intros E. assert (forall r t, points s' r t y <-> points s r t y) as Hp; [|unfold judged; by setoid_rewrite Hp].
  intros r t. unfold points, indexed. by rewrite <- (fmap_is_Some ident), E, fmap_is_Some.
Qed.
Lemma right_idents db (s s' : S) l : (forall k key, ident <$> live s' (alias_of k) key = ident <$> live s (alias_of k) key) ->
  right_link db s' l <-> right_link db s l.
Proof. intros E. unfold right_link. by setoid_rewrite (fun y => judged_idents db s s' l y E). Qed.
Lemma during_inv db s s' announced announced' :
  inv db (s, announced) -> during db (fun y => y ∈ announced) s s' ->
  (forall y, y ∈ announced' -> y ∈ announced \/ indexed s (to_type y) (to_repository_id y) (to_id y)) ->
  (forall key l, live s' LINKS_ALIAS key = Some (referenceLinkSource l) -> (forall y, judged db s l y -> y ∈ announced') -> right_link db s l) ->
  inv db (s', announced').
Proof.
  intros Hi Hd Ha Hr. pose proof (du_docs _ _ _ _ Hd) as Hid. split; cbn [fst snd].
  - intros k key d E. specialize (Hid k key). rewrite E in Hid. destruct (live s (alias_of k) key) as [d0|] eqn:E0; [|done].
    apply (inj Some) in Hid. apply (ident_document k key d0); [done|]. by apply (in_docs _ _ Hi k).
  - apply (du_links _ _ _ _ Hd).
  - apply (du_found _ _ _ _ Hd).
  - intros key l E y Hy. apply (judged_idents db s s' l y Hid). by eapply du_safe.
  - intros key l E Hann. apply (right_idents db s s' l Hid). apply (Hr key l E). intros y Hy. apply Hann. by apply (judged_idents db s s' l y Hid).
  - intros y Hy. unfold indexed. rewrite <- (fmap_is_Some ident), Hid, fmap_is_Some. destruct (Ha y Hy) as [Hy'|]; [|done]. by apply (in_announced _ _ Hi).
Qed.
Lemma during_same db s s' announced : inv db (s, announced) -> during db (fun y => y ∈ announced) s s' -> inv db (s', announced).
Proof. intros Hi Hd. apply (during_inv db s s' announced announced Hi Hd); [by left|]. intros key l E. by eapply du_ann. Qed.
Lemma reference_not_other key l : ~ other_link sha256 key (referenceLinkSource l).
Proof. intros [Hot _]. destruct (source_fields l) as [_ _ _ Et _ _ _]. unfold is_text in Hot. rewrite Et in Hot. by case_bool_decide. Qed.
Lemma outside_inv db s s' announced : inv db (s, announced) -> outside s s' -> inv db (s', announced).
Proof.
  intros Hi Ho. assert (forall r t y, points s r t y -> points s' r t y) as Hmono.
  { intros r t y [Hp Hy]. split; [|done]. by apply (ou_keeps _ _ Ho). }
  assert (forall l y, judged db s l y -> judged db s' l y) as Hj by (intros l y (t & r & ? & ? & ?); exists t, r; by auto).
  assert (forall key l, live s' LINKS_ALIAS key = Some (referenceLinkSource l) -> live s LINKS_ALIAS key = Some (referenceLinkSource l)) as Hlink.
  { intros key l E. destruct (ou_links _ _ Ho key) as [<-|Hot]; [done|]. destruct (reference_not_other key l). apply Hot. by right. }
  assert (forall key d, live s' LINKS_ALIAS key = Some d -> stored_ok sha256 key d) as Hst.
  { intros key d E. destruct (ou_links _ _ Ho key) as [El|Hot]; [apply (in_links _ _ Hi); cbn [fst]; by rewrite <- El|]. right. apply Hot. by right. }
  split; cbn [fst snd].
  - apply (ou_documents _ _ Ho).
  - exact Hst.
  - intros key d E. destruct (found_after s s' LINKS_ALIAS key (ou_index _ _ Ho) (ou_sees _ _ Ho)) as [El|[El|El]]; rewrite El in E;
      [by apply (in_found _ _ Hi)|by apply (in_links _ _ Hi)|by apply Hst].
  - intros key l E y Hy. apply Hj. by apply (in_safe _ _ Hi key l (Hlink key l E)).
  - intros key l E Hann y. assert (forall z, judged db s' l z -> judged db s l z) as Hback.
    { intros z Hz. pose proof (in_announced _ _ Hi z (Hann z Hz)) as Hz'. destruct Hz as (t & r & ? & ? & _ & Hp). exists t, r. by split_and!. }
    assert (right_link db s l) as Hr by (apply (in_right _ _ Hi key l (Hlink key l E)); intros z Hz; by apply Hann, Hj).
    rewrite (Hr y). split; intros [H1 H2]; (split; [by auto|]); intros z Hz; apply H2; by auto.
  - intros y Hy. apply (ou_keeps _ _ Ho). by apply (in_announced _ _ Hi).
Qed.
Lemma judged_dec db (s : S) key l id x : link_ok sha256 key l -> wf_source x -> judged db s l (resolution_of id x) \/ ~ judged db s l (resolution_of id x).
Proof.
  intros Hl Hx. destruct (lo_target _ _ _ Hl) as (t & Hw & _ & Hk). assert (names x t \/ ~ names x t) as Hn.
  { destruct t as [rp n|rp sha|rp p], x as [n'|sha']; cbn [names]; try tauto.
    - destruct (decide (n = n')); tauto.
    - destruct (decide (sha = sha')); tauto.
    - destruct (starts_with p sha'); [by left|by right]. }
  assert (judged db s l (resolution_of id x) <-> targetRepositoryId (sc_repository_id (scope l)) t db = Some id ∧ names x t ∧ indexed s (kind x) id (docIdOf id x)) as Hj.
  { rewrite (judged_key db s l t _ Hw Hk). setoid_rewrite (fun r => points_source s r t id x Hw Hx). naive_solver. }
  rewrite Hj. destruct (decide (targetRepositoryId (sc_repository_id (scope l)) t db = Some id)); [|tauto].
  destruct (decide (is_Some (live s (alias_of (kind x)) (js_of_Z id, docIdOf id x)))); unfold indexed; tauto.
Qed.
Lemma event_inv db id r x deliveries f s s' disposition recorded announced :
  registry_ok db -> inv db (s, announced) -> findRepositoryById id db = Some r -> status r = js "active" -> wf_source x -> caught_up s ->
  indices_ok (fence_derive f) s -> indices_ok (fence_resolve f) s ->
  handleLinkEvent sha256 extract String_of id x deliveries f db s = (s', (disposition, recorded)) ->
  inv db (s', announce s disposition (resolution_of id x) announced).
Proof.
  intros Hreg Hi Hr Hact Hx Hc H1 H2. pose proof (inv_during db s announced Hi Hc) as Hd. unfold handleLinkEvent. rewrite Hr, Hact, (proj2 (jeqb_eq _ _)) by done. cbn [negb].
  pose proof (ro_id _ Hreg _ _ Hr) as <-.
  destruct (handle_references sha256 extract String_of r x f db s) as [s1 [out rec]] eqn:Eh.
  destruct (handle_right db _ s r x Hreg Hr Hx (in_docs _ _ Hi) s1 f out rec H1 H2 Hd Eh) as [Hd1 Hall].
  destruct out as [out|e]; [|intros [= <- <- <-]; destruct (MAX_RETRIES <=? deliveries); by apply during_same with s].
  intros [= <- <- _]. cbn [announce]. set (y := resolution_of _ x). case_bool_decide as Hy; [|by apply during_same with s].
  apply (during_inv db s s1 announced _ Hi Hd1).
  - intros z Hz. apply elem_of_cons in Hz as [Ez|Hz]; [right; by rewrite Ez|by left].
  - intros key l E Hann. assert (∃ l', link_ok sha256 key l' ∧ same_link l' l) as (l' & Hl' & Hsame).
    { destruct (du_links _ _ _ _ Hd1 key _ E) as [(l' & Hl' & El)|Hot]; [exists l'; split; [done|by apply source_inj]|by destruct (reference_not_other key l)]. }
    destruct (judged_dec db s key l' (Documents.repository_id r) x Hl' Hx) as [Hj|Hj].
    + apply (Hall eq_refl key l E). by apply (judged_same db s l' l).
    + apply (du_ann _ _ _ _ Hd1 key l E). intros z Hz. destruct (proj1 (elem_of_cons _ _ _) (Hann z Hz)) as [Ez|]; [|done].
      destruct Hj. apply (judged_same db s l' l); [done|]. fold y. by rewrite <- Ez.
Qed.
Lemma step_keeps_inv db w w' : registry_ok db -> step db w w' -> inv db w -> inv db w'.
Proof.
  intros Hreg Hs Hi. destruct Hs as [s s' announced Ho|id r x deliveries f s s' disposition recorded announced Hr Hact Hx Hc H1 H2 Hh|
    r x t docs n s announced Hx Hc Hi1 Hp|r x t s announced Hx Hc Hi1].
  - by eapply outside_inv.
  - by eapply event_inv.
  - apply (during_same db s); [done|]. eapply during_write; [done|done|apply (in_docs _ _ Hi)|by apply inv_during|done].
  - apply (during_same db s); [done|]. apply during_derive; [done|done|apply (in_docs _ _ Hi)|by apply inv_during].
Qed.
(** An index of links that is empty. *)
Record initial (s : S) : Prop := {
  it_links key : live s LINKS_ALIAS key = None;
  it_found key : found s LINKS_ALIAS !! key = None;
  it_documents : docs_ok s
}.
Lemma initial_keeps db s : initial s -> inv db (s, []).
Proof.
  intros [H1 H2 H3]. split; cbn [fst snd].
  - done.
  - intros key d. by rewrite H1.
  - intros key d. by rewrite H2.
  - intros key l. by rewrite H1.
  - intros key l. by rewrite H1.
  - by intros y ?%elem_of_nil.
Qed.
End handler.


(** ** Two pull requests *)

Definition sample_fences : Fences := mkFences SERVING_ONLY SERVING_ONLY.
Definition sample_handle (n : Z) (s : ModelLinks) : ModelLinks * (HandlerDisposition * list Recorded) :=
  handleLinkEvent (fun t => t) sample_extract (fun _ => []) 7 (pull_request_source n) 1 sample_fences sample_db s.
Definition sample_resolutions (s : ModelLinks) : list json :=
  map (fun p => field p.2 TO_ID) (List.filter (fun p => jeqb p.1.1 LINKS_ALIAS) (map_to_list (mi_docs (ml_docs s)))).
(** A search that does not find the documents yet: both are indexed and both events are handled, and
    the link of the first to the second stays unresolved. *)
Example unrefreshed_target_missed :
  let '(s1, (d1, _)) := sample_handle 2 (sample_server false) in
  let '(s2, (d2, _)) := sample_handle 1 s1 in
  d1 = d_ack ∧ d2 = d_ack ∧ sample_resolutions s2 = [JNull] ∧
  sample_resolutions (sample_handle 1 (sample_server true)).1 = [JStr (pullRequestDocId 7 2)].
Proof. vm_compute. done. Qed.

Lemma sample_registry : registry_ok sample_db.
Proof.
  assert (forall id r, registry sample_db !! id = Some r -> id = 7 ∧ r = sample_repository) as Hr by (intros id r Hr; unfold sample_db in Hr; cbn [registry] in Hr; by apply lookup_singleton_Some in Hr as [<- <-]).
  split; intros id r; [intros [-> ->]%Hr; done|intros [_ ->]%Hr; done|intros [_ ->]%Hr; done|].
  intros id' r' [-> _]%Hr [-> _]%Hr. done.
Qed.
Lemma sample_lookup sought k key d : live (sample_server sought) (alias_of k) key = Some d ->
  k = ep_pull_request ∧ ((key = (js_of_Z 7, pullRequestDocId 7 1) ∧ d = sample_first) \/ (key = (js_of_Z 7, pullRequestDocId 7 2) ∧ d = sample_second)).
Proof.
  unfold live, doc_named. cbn [es_doc es_index model_links_docs sample_server ml_docs mi_docs]. intros (key' & E & Hd)%lookup_kmap_Some; [|apply _].
  injection E as Ek ->. split; [destruct k; [done|vm_compute in Ek; discriminate]|]. unfold sample_documents in Hd.
  apply lookup_insert_Some in Hd as [[<- <-]|[_ Hd]]; [by left|]. apply lookup_singleton_Some in Hd as [<- <-]. by right.
Qed.
Lemma sample_initial sought : initial (sample_server sought).
Proof.
  split; [apply sample_no_link|by destruct sought|]. intros k key d (-> & [[-> ->]|[-> ->]])%sample_lookup; cbn [document_ok].
  - exists 7, 1. split; [lia|]. split; [done|vm_compute; reflexivity].
  - exists 7, 2. split; [lia|]. split; [done|vm_compute; reflexivity].
Qed.
Lemma sample_caught_up : caught_up (sample_server true).
Proof.
  intros a Ha key. change (found (sample_server true) a !! key = live (sample_server true) a key).
  unfold SERVED in Ha. rewrite !elem_of_cons, elem_of_nil in Ha. destruct Ha as [->|[->|[->|[]]]].
  - by rewrite sample_no_link.
  - unfold live, doc_named. cbn [es_doc es_index model_links_docs sample_server ml_docs mi_docs]. by rewrite (lookup_kmap (pair PR_ALIAS)).
  - destruct (live _ _ _) eqn:E; [|done]. by destruct (sample_lookup true ep_commit key _ E).
Qed.
(** A registered name with capitals is not found by the lower-cased name of a key, though the keys
    that are asked for when a document of that repository appears are lower-cased too. *)
Example capitals_not_found :
  let r := mkRepository 8 (js "Acme") (js "App") 1 (js "private") (js "active") [] in
  let db := mkLinkTables ∅ ∅ {[8 := r]} in
  targetRepositoryId 7 (t_pull_request (Some (mkSlug (js "acme") (js "app"))) 2) db = None ∧
  referenceKey (t_pull_request (Some (mkSlug (js "acme") (js "app"))) 2) ∈ reference_keys (pull_request_source 2) (Some (slugOf r)).
Proof. split; [vm_compute; reflexivity|by left]. Qed.
